(* ===== verification/_CoqProject ===== *)
-Q . S2P
Prelude.v
Scalar.v
Swar.v
Utf8.v
Stream.v
Machine.v
Limits.v
Bits.v
QInteger.v
Huffman.v
QString.v
QError.v
QTable.v
Core.v
QPrefix.v
QRepresentation.v
QFieldSection.v
QInstruction.v
Varint.v
H3Frame.v
H3Error.v
H3Settings.v
H3Control.v
H3Capsule.v
H3Decoder.v
HttpTypes.v
H1List.v
H1Head.v
H1Grammar.v
H1Request.v
H1Chunked.v
H1Body.v
H1Trailers.v
WsClose.v
WsFrame.v
WsSession.v
WsReceive.v
WsConversation.v
WsSend.v
Base64.v
WsHandshake.v
Date.v
CoreBuf.v
DateText.v
HttpFields.v
H1Response.v
Uri.v
Qs.v
HttpError.v
HttpRecord.v
HttpCall.v
HttpRing.v
HttpSerialize.v
HttpConn.v
HttpConnView.v
HttpPipeline.v
HttpRequests.v
HttpStarts.v
SseEncode.v
SseDecode.v
SseStream.v
Router.v
RouterTree.v
RouterTable.v
JsonFloat.v
JsonValue.v
JsonParse.v
JsonMerge.v
JsonGrammar.v
JsonWrite.v
JsonText.v
JsonRound.v
StaticRange.v
StaticCond.v
MimeTable.v
Mime.v
MimeAccept.v
StaticHeaders.v
