(* ===== verification/Prelude.v ===== *)
(** * A verification library for zero-server

    zero-server is an HTTP server core in Rust: a workspace of crates that parse and write
    the wire formats without performing input or output, and a runtime that drives them.
    This library embeds the crates of the first kind as executable functions, name by
    name, and proves what makes each correct.  Every definition is translated from the
    file under [src/crates] its file names; the manifest of the library lists the lines.

    ** Conventions

    A [w]-bit integer is a [Z] in its range ([word w]), with the Rust operation that can
    leave the range written out ([checked_add], [saturating_sub], ...).  An octet string
    is a [list Z]; a length or an index into a slice is a [nat].  [Result] is [result],
    the question mark is [let?], and a method that takes [&mut self] returns the new
    state: beside the answer where it can fail after it changed something.  A loop is a
    [Fixpoint] on its input where it consumes it, and takes fuel where it does not; for
    each fuel there is a lemma that the number the definition passes is enough (a turn
    takes an octet of the buffer, or a bounded number of turns takes none), so that the
    out-of-fuel branch is never the answer.  The driver of a connection has [process_fuel],
    two turns an octet of input and a few more; the JSON parser [fuel_for], two turns an
    octet and two more, which [JsonGrammar.parse_exact] shows enough for every text; a
    response head [SERIALIZE_FUEL], the thirteen sizes from 4 KiB to 16 MiB.

    ** Parts and files

    Shared:
    - [Prelude]: results, words, slices, positions, big-endian words, automation.
    - [Bits]: octet strings as bit strings, for the bit-level grammars.
    - [Stream]: the interface [StreamParser] of a parser of the front of a buffer (more
      octets do not change an answer), and the loops over one.
    - [Machine]: the interfaces [Machine] and [FirmErrors] of a streaming decoder, whose
      state survives between reads, and what follows for every instance: the events, the
      error and the final state do not depend on how the transport cut the octets.
    - [Core]: the shared error type (zero-core, error.rs); [Limits]: the configured budgets
      and the relations [check] asks of them (zero-limits).

    Octets and text:
    - [Scalar], [Swar], [Utf8] (zero-simd): the reference kernels, the word-at-a-time
      kernels by the interface [Lanes] of an operation that acts on each octet of a word,
      and the streaming UTF-8 validator.
    - [Base64] (zero-base64), [Date] and [DateText] (zero-date), [Uri] (zero-uri), [Qs]
      (zero-qs), [HttpTypes] and [HttpFields] (zero-http-types).

    HTTP/1 (zero-http1):
    - [H1List] (list.rs), [H1Head] (head.rs, error.rs): the request parser.  [H1Grammar]
      is the grammar of RFC 9112 as records of text, and [H1Request] shows that the parser
      accepts it and nothing else.
    - [H1Chunked] (chunked.rs), [H1Body] and [H1Trailers]: the chunked coding, an instance
      of [Machine], against its grammar.
    - [H1Response] (response.rs): the response writer, as a state and error monad.

    WebSocket (zero-ws):
    - [WsClose] (close.rs), [WsFrame] (frame.rs), [WsSession] (session.rs), [WsHandshake]
      (handshake.rs).  [WsReceive] makes the receiving half of a session an instance of
      [Machine]; [WsConversation] states what a session must report for a list of client
      frames and shows the session refines it; [WsSend] follows what is sent.  The digest of the handshake is the
      class [Digest], as it is a trait in the code.

    HTTP/3 (zero-h3): [Varint], [H3Frame], [H3Error], [H3Settings], [H3Control],
    [H3Capsule], and [H3Decoder], the frame decoder of a stream, an instance of [Machine]
    as the capsules are.

    The HTTP connection (zero-http, with [CoreBuf] for the buffers of zero-core, buf.rs):
    - [HttpError] (error.rs), [HttpRecord] (record.rs): the record of a request, in the three
      parts of its writers; [HttpCall] (call.rs): what a handler reads and how it builds the
      response; [HttpRing] (ring.rs): the pipelining ring, which refines a queue;
      [HttpSerialize] (conn.rs): the octets of a response.
    - [HttpConn] (conn.rs): one connection as the state [Conn] and the turns of its loop
      ([tick], what [wait] produces, [apply]).  What the loop asks of the socket, the pool,
      the clock and the handlers is an argument of the operation that asks: [Env], [Event],
      [Polled].  An [Instant] is a number of nanoseconds.
    - [HttpConnView] gives each operation in closed form over the list of entries;
      [HttpPipeline] has the reachable connections [Reach] and the order of responses,
      [HttpRequests] the octets each handler is given, [HttpStarts] which handlers run
      together.

    Server-sent events (zero-sse): [SseEncode] (encode.rs), [SseDecode] (decode.rs) and
    [SseStream], the one against the other.

    The router (zero-router): [Router], its trie laws in [RouterTree], and in [RouterTable]
    the table of routes that it answers as.

    JSON (zero-json, with value.rs of zero-core): [JsonFloat] (binary64 as decimal text),
    [JsonValue], [JsonParse] (parse.rs), [JsonMerge] (repeated names), [JsonGrammar] (RFC 8259
    and the parser that decides it), [JsonWrite] (write.rs), [JsonText] (the writer as a
    machine with a stack of containers), [JsonRound] (the round trip).

    Static files (zero-static): [StaticRange] (range.rs), [StaticCond] (cond.rs),
    [StaticHeaders] (headers.rs).  Media types (zero-mime): [MimeTable] (table.rs), [Mime]
    (lib.rs), [MimeAccept] (accept.rs).

    QPACK (zero-qpack): [QInteger], [Huffman], [QString], [QError], [QTable], [QPrefix],
    [QRepresentation], [QFieldSection] and [QInstruction], the parsers as instances of
    [StreamParser].

    ** What is shown

    - Grammars: an input is accepted exactly when it is a text of the grammar the
      specification gives, and the answer is its parts: requests, chunked bodies,
      WebSocket headers, URI references, HTTP dates, prefixed integers, Huffman texts,
      UTF-8, base 64, SETTINGS payloads, JSON texts, media types.
    - Round trips: what an encoder writes is what the decoder reports, through arbitrary
      cuts of the stream: field sections, HTTP/3 frames, chunked bodies, forms, dates, events,
      JSON values.
    - State machines: the order of frames on HTTP/3 streams, the life of a WebSocket
      session in both directions, the calls of a response writer, a connection and its ring:
      every reachable connection answers in the order of its requests, gives each handler the
      octets of one request, and runs handlers together only when their requests are safe.
    - Safety: where a request ends is not open to two readings; trailers never carry
      framing or routing fields; a response is one response whatever a handler asks for;
      a normalised path has no dot segments; sensitive fields are never indexed; the name of
      a download stays within its field.
    - Selection: the leaf a router resolves to, the outcome of preconditions, the offsets a
      [Range] selects and the media type an [Accept] selects are those of a specification
      that does not mention the code's ranking.
    - Progress and bounds: the loops end, a decoder with the configured limits never waits
      for more than its window holds, decimal and base 64 lengths are exact.
    - Refinement of the fast paths: the word kernels compute the octet loops, the
      Huffman walk the code tree, the calendar arithmetic the succession of days.

    ** What is not modelled

    Sockets, timers, threads, memory pools and system calls are outside the model: zero-rt,
    zero-io, zero-sys, zero-host and the language bindings are glue over them.  Of zero-http
    the accept loop (server.rs), what follows a connection that is closed (the linger) or
    aborted, the actions of an exchange with a host (exchange.rs) and the hand-over of a
    claimed connection (takeover.rs) are not modelled; a handler is any sequence of the calls
    of [HttpCall], and what [Call::route] writes itself when no route is found is not one of
    them.  The parser of IP literals of the standard library is a parameter
    ([ip_literal]).  Of zero-static the file system (files.rs) is not modelled.  The digest
    functions and the TLS library are not in the repository.  The vector kernels of
    zero-simd are compiler intrinsics; the word kernels, which they must equal, are modelled.
    The request policies (zero-policy) and the rooms of zero-realtime are not modelled. *)

From stdpp Require Export base option list numbers decidable tactics strings.
From Stdlib Require Export ZArith Lia.

#[export] Set Default Goal Selector "!".

Declare Scope zs_scope.
Delimit Scope zs_scope with zs.
#[global] Open Scope Z_scope.

(** ** Results: Rust's [Result<T, E>] *)

Inductive result (E A : Type) : Type :=
| Ok (val : A)
| Err (err : E).
Arguments Ok {E A} val.
Arguments Err {E A} err.

#[global] Instance result_eq_dec {E A} `{!EqDecision E, !EqDecision A} :
  EqDecision (result E A).
Proof. solve_decision. Defined.

Definition is_ok {E A} (r : result E A) : bool :=
  match r with Ok _ => true | Err _ => false end.

(** [map_err] *)
Definition map_err {E F A} (f : E -> F) (r : result E A) : result F A :=
  match r with Ok a => Ok a | Err e => Err (f e) end.

(** [Option::ok_or] *)
Definition ok_or {E A} (o : option A) (e : E) : result E A :=
  match o with Some a => Ok a | None => Err e end.

(** The question mark operator on [Result] ([let?]), on [Option] ([let!]), and
    the idiom [let Some(x) = e? else { return Ok(None) }] ([let??]). *)
Notation "'let?' p := e 'in' k" :=
  (match e with Ok p => k | Err err => Err err end)
  (at level 10, p pattern, e at level 150, k at level 200) : zs_scope.
Notation "'let!' p := e 'in' k" :=
  (match e with Some p => k | None => None end)
  (at level 10, p pattern, e at level 150, k at level 200) : zs_scope.
Notation "'let??' p := e 'in' k" :=
  (match e with Ok (Some p) => k | Ok None => Ok None | Err err => Err err end)
  (at level 10, p pattern, e at level 150, k at level 200) : zs_scope.
#[global] Open Scope zs_scope.

(** ** Octets and machine words

    A [w]-bit unsigned integer is a [Z] in [0, 2^w); every operation that can
    leave that range is written with the Rust operation it models.  A slice of
    octets is a [list Z] whose elements are octets.  A [usize] that is the length
    of a slice or a position in one is a [nat]: a slice is shorter than
    [isize::MAX], so the sums the code forms of such numbers do not overflow. *)

Definition word (w x : Z) : Prop := 0 <= x < 2 ^ w.
Abbreviation u8 := (word 8).
Abbreviation u16 := (word 16).
Abbreviation u32 := (word 32).
Abbreviation u64 := (word 64).
Abbreviation bytes := (list Z).
Abbreviation octets := (Forall (word 8)).

#[export] Instance word_dec w x : Decision (word w x).
Proof. unfold word. apply _. Defined.

Definition checked_add (w a b : Z) : option Z :=
  if a + b <? 2 ^ w then Some (a + b) else None.
Definition checked_sub (a b : Z) : option Z :=
  if b <=? a then Some (a - b) else None.
Definition checked_mul (w a b : Z) : option Z :=
  if a * b <? 2 ^ w then Some (a * b) else None.
Definition checked_div (a b : Z) : option Z :=
  if b =? 0 then None else Some (a / b).
Definition checked_shl (w a s : Z) : option Z :=
  if s <? w then Some (Z.shiftl a s mod 2 ^ w) else None.
Definition checked_shr (w a s : Z) : option Z :=
  if s <? w then Some (Z.shiftr a s) else None.
Definition saturating_add (w a b : Z) : Z := Z.min (a + b) (2 ^ w - 1).
Definition saturating_sub (a b : Z) : Z := Z.max 0 (a - b).
Definition saturating_mul (w a b : Z) : Z := Z.min (a * b) (2 ^ w - 1).
Definition wrapping_sub (w a b : Z) : Z := (a - b) mod 2 ^ w.
Definition wrapping_add (w a b : Z) : Z := (a + b) mod 2 ^ w.

(** [let [low, ..] = x.to_le_bytes()] and [!x] on an octet. *)
Definition low8 (x : Z) : Z := x mod 256.
Definition not8 (x : Z) : Z := 255 - x.

(** [x & k != 0] *)
Definition has (x k : Z) : bool := negb (Z.land x k =? 0).

(** [u64::try_from(slice.len())] *)
Definition len {A} (l : list A) : Z := Z.of_nat (length l).

(** [x.to_be_bytes()] on [n] octets and [uN::from_be_bytes]. *)
Fixpoint to_be (n : nat) (x : Z) : bytes :=
  match n with
  | O => []
  | S n => Z.shiftr x (8 * Z.of_nat n) mod 256 :: to_be n x
  end.
Definition from_be (l : bytes) : Z := fold_left (fun acc b => acc * 256 + b) l 0.

(** [slice.get(..n)] and [slice.first_chunk::<n>()]: the first [n] octets or
    nothing; [slice.get(n..).unwrap_or(&[])] is stdpp's [drop]. *)
Definition get_to {A} (n : nat) (l : list A) : option (list A) :=
  if decide (n <= length l)%nat then Some (take n l) else None.

(** [iter().position(f)]. *)
Fixpoint position {A} (f : A -> bool) (l : list A) : option nat :=
  match l with
  | [] => None
  | x :: l => if f x then Some O else S <$> position f l
  end.

(** [iter().rposition(f)], [slice.get(a..b)] and [slice.split(f)]. *)
Definition rposition {A} (f : A -> bool) (l : list A) : option nat :=
  (fun i => length l - 1 - i)%nat <$> position f (reverse l).

Definition get_range {A} (a b : nat) (l : list A) : option (list A) :=
  if decide (a <= b <= length l)%nat then Some (take (b - a) (drop a l)) else None.

Fixpoint split_on {A} (f : A -> bool) (l : list A) : list (list A) :=
  match l with
  | [] => [[]]
  | x :: l =>
      if f x then [] :: split_on f l
      else match split_on f l with [] => [[x]] | p :: ps => (x :: p) :: ps end
  end.

(** A byte string literal [b"..."]. *)
Fixpoint bs (s : string) : bytes :=
  match s with
  | EmptyString => []
  | String c s => Z.of_N (Ascii.N_of_ascii c) :: bs s
  end.

(** A [String] by its octets. *)
Fixpoint string_of (l : bytes) : string :=
  match l with
  | [] => EmptyString
  | b :: l => String (Ascii.ascii_of_N (Z.to_N b)) (string_of l)
  end.

(** ** Automation *)

Create HintDb zs.
Create Rewrite HintDb zs.

(** Close an arithmetic side condition about words: unfold the bounds and compute
    the powers of two that appear with literal exponents. *)
Ltac pow2 :=
  repeat match goal with
  | |- context [2 ^ ?n] =>
      match n with
      | Zpos _ => let v := eval compute in (2 ^ n) in change (2 ^ n) with v
      end
  | H : context [2 ^ ?n] |- _ =>
      match n with
      | Zpos _ => let v := eval compute in (2 ^ n) in change (2 ^ n) with v in H
      end
  end.
Ltac word_lia := unfold word, len in *; pow2; lia.

(** Arithmetic about the lengths of concatenations. *)
#[export] Hint Rewrite @length_app @length_take @length_drop @length_reverse @length_replicate
  @length_map @length_insert : zs.
Ltac lengths := repeat progress (autorewrite with zs; cbn [length]); lia.

(** Reduce a boolean comparison in the goal whose truth follows by arithmetic. *)
Ltac bool_lia :=
  repeat match goal with
  | |- context [?a <? ?b] =>
      first [ rewrite (proj2 (Z.ltb_lt a b)) by word_lia
            | rewrite (proj2 (Z.ltb_ge a b)) by word_lia ]
  | |- context [?a <=? ?b] =>
      first [ rewrite (proj2 (Z.leb_le a b)) by word_lia
            | rewrite (proj2 (Z.leb_gt a b)) by word_lia ]
  | |- context [?a =? ?b] =>
      first [ rewrite (proj2 (Z.eqb_eq a b)) by word_lia
            | rewrite (proj2 (Z.eqb_neq a b)) by word_lia ]
  | |- context [(?a <=? ?b)%nat] =>
      first [ rewrite (proj2 (Nat.leb_le a b)) by lia
            | rewrite (proj2 (Nat.leb_gt a b)) by lia ]
  end.

(** Split on every comparison of the goal or of [H], keeping the fact. *)
Ltac split_bool H :=
  repeat match type of H with
  | context [if ?a <? ?b then _ else _] => destruct (Z.ltb_spec a b)
  | context [if ?a <=? ?b then _ else _] => destruct (Z.leb_spec a b)
  | context [if ?a =? ?b then _ else _] => destruct (Z.eqb_spec a b)
  | context [if (?a <=? ?b)%nat then _ else _] => destruct (Nat.leb_spec a b)
  | context [if (?a <? ?b)%nat then _ else _] => destruct (Nat.ltb_spec a b)
  end.

(** ** Octets, exhaustively *)

(** A statement about one octet is checked on the 256 of them. *)
Lemma octet_forall (f : Z -> bool) :
  forallb f (seqZ 0 256) = true -> forall b, u8 b -> f b = true.
Proof.
  intros H b Hb. rewrite forallb_forall in H. apply H.
  apply list_elem_of_In, elem_of_seqZ. word_lia.
Qed.

(** ** Bits *)

Lemma land_7f x : Z.land x 0x7f = x mod 128.
Proof. exact (Z.land_ones x 7 ltac:(lia)). Qed.

Lemma land_ff x : Z.land x 0xff = x mod 256.
Proof. exact (Z.land_ones x 8 ltac:(lia)). Qed.

Lemma land_80_zero b : u8 b -> (Z.land b 0x80 =? 0) = (b <? 128).
Proof.
  intros Hb. apply eqb_true_iff.
  apply (octet_forall (fun b => eqb (Z.land b 0x80 =? 0) (b <? 128))); [reflexivity | done].
Qed.

Lemma lor_80 b : 0 <= b < 128 -> Z.lor 0x80 b = b + 128.
Proof.
  intros Hb. apply Z.eqb_eq.
  cut (implb (b <? 128) (Z.lor 0x80 b =? b + 128) = true).
  { rewrite (proj2 (Z.ltb_lt b 128)) by lia. done. }
  apply (octet_forall (fun b => implb (b <? 128) (Z.lor 0x80 b =? b + 128)));
    [reflexivity | word_lia].
Qed.

(** The bits of [k] are read off [f | v] when [v] has none of them. *)
Lemma land_lor_disjoint f v k m :
  Z.land k m = 0 -> Z.land v m = v -> Z.land (Z.lor f v) k = Z.land f k.
Proof.
  intros Hkm Hv. rewrite Z.land_lor_distr_l, <- Hv, <- Z.land_assoc, (Z.land_comm m k), Hkm.
  by rewrite Z.land_0_r, Z.lor_0_r.
Qed.

Lemma lor_octet a b : u8 a -> u8 b -> u8 (Z.lor a b).
Proof.
  unfold word. intros Ha Hb. split; [apply Z.lor_nonneg; lia |].
  destruct (decide (Z.lor a b = 0)) as [->|Hz]; [lia|].
  apply Z.log2_lt_pow2; [pose proof (Z.lor_nonneg a b); lia|].
  rewrite Z.log2_lor by lia.
  apply Z.max_lub_lt.
  - destruct (decide (a = 0)) as [->|]; [done|]. apply Z.log2_lt_pow2; lia.
  - destruct (decide (b = 0)) as [->|]; [done|]. apply Z.log2_lt_pow2; lia.
Qed.

Lemma land_octet a b : u8 a -> 0 <= b -> u8 (Z.land a b).
Proof.
  unfold word. intros Ha Hb. split; [apply Z.land_nonneg; lia|].
  destruct (decide (Z.land a b = 0)) as [->|Hz]; [lia|].
  pose proof (proj2 (Z.land_nonneg a b) (or_introl (proj1 Ha))).
  apply Z.log2_lt_pow2; [lia|].
  pose proof (Z.log2_land a b ltac:(lia) ltac:(lia)).
  destruct (decide (a = 0)) as [->|]; [rewrite Z.land_0_l in Hz; done|].
  assert (Z.log2 a < 8) by (apply Z.log2_lt_pow2; lia). lia.
Qed.

Lemma default_shr w x s : s < w -> default 0 (checked_shr w x s) = Z.shiftr x s.
Proof. intros Hs. unfold checked_shr. by rewrite (proj2 (Z.ltb_lt s w)) by lia. Qed.

(** ** Slices *)

Lemma get_to_Some {A} n (l r : list A) :
  get_to n l = Some r <-> (n <= length l)%nat /\ r = take n l.
Proof. unfold get_to. case_decide; naive_solver. Qed.

Lemma get_to_app {A} (l m : list A) : get_to (length l) (l ++ m) = Some l.
Proof. apply get_to_Some. rewrite length_app, take_app_length. split; [lia | done]. Qed.

(** [slice.first()] is stdpp's [head]. *)
Lemma head_app_Some {A} (l m : list A) a : head l = Some a -> head (l ++ m) = Some a.
Proof. by destruct l. Qed.

Lemma drop_app_len {A} n (l m : list A) : n = length l -> drop n (l ++ m) = m.
Proof. intros ->. apply drop_app_length. Qed.

(** ** Positions *)

Lemma position_Some {A} (f : A -> bool) l i :
  position f l = Some i <->
  exists x, l !! i = Some x /\ f x = true /\ Forall (fun y => f y = false) (take i l).
Proof.
  revert i. induction l as [|x l IH]; intros i; cbn [position]; [split; [done | naive_solver]|].
  destruct (f x) eqn:Hx.
  - split; [intros [= <-]; by exists x|]. intros (y & Hy & Hf & Hall).
    destruct i as [|i]; [done|]. apply Forall_cons in Hall as [? _]. congruence.
  - destruct i as [|i].
    + split; [by destruct (position f l)|]. intros (y & [= <-] & Hf & _). congruence.
    + cbn. specialize (IH i). destruct (position f l) as [k|] eqn:Hp; cbn.
      * split.
        -- intros [= ->]. destruct (proj1 IH eq_refl) as (y & ? & ? & ?).
           exists y. repeat split; [done..|]. by constructor.
        -- intros (y & ? & ? & Hall). apply Forall_cons in Hall as [_ ?].
           assert (Some k = Some i) as [= ->] by (apply IH; by exists y). done.
      * split; [done|]. intros (y & ? & ? & Hall). apply Forall_cons in Hall as [_ ?].
        assert (None = Some i) by (apply IH; by exists y). done.
Qed.

Lemma position_None {A} (f : A -> bool) l :
  position f l = None <-> Forall (fun y => f y = false) l.
Proof.
  induction l as [|x l IH]; cbn [position]; [split; [constructor | done]|].
  rewrite Forall_cons, <- IH. destruct (f x); [split; [done | intros [? _]; congruence]|].
  destruct (position f l); naive_solver.
Qed.

Lemma position_ext {A} (f g : A -> bool) l :
  (forall x, x ∈ l -> f x = g x) -> position f l = position g l.
Proof.
  induction l as [|x l IH]; intros H; cbn [position]; [done|].
  rewrite (H x), IH; [done| |]; [intros y Hy; apply H | apply elem_of_cons; by left].
  apply elem_of_cons; by right.
Qed.

Lemma position_app {A} (f : A -> bool) l m :
  position f (l ++ m) =
    match position f l with Some i => Some i | None => Nat.add (length l) <$> position f m end.
Proof.
  induction l as [|x l IH]; cbn [position app length]; [by destruct (position f m)|].
  destruct (f x); [done|]. rewrite IH.
  destruct (position f l); [done|]. by destruct (position f m).
Qed.

Lemma position_lt {A} (f : A -> bool) l i : position f l = Some i -> (i < length l)%nat.
Proof. intros (x & Hx & _)%position_Some. by apply lookup_lt_Some in Hx. Qed.

Lemma rposition_snoc {A} (f : A -> bool) l x :
  rposition f (l ++ [x]) = if f x then Some (length l) else rposition f l.
Proof.
  unfold rposition. rewrite reverse_app, length_app. cbn. destruct (f x); cbn.
  - f_equal. lia.
  - destruct (position f (reverse l)) as [i|] eqn:Hp; [|done]. cbn. f_equal. lia.
Qed.

Lemma rposition_None {A} (f : A -> bool) l :
  rposition f l = None <-> Forall (fun y => f y = false) l.
Proof.
  unfold rposition. rewrite <- Forall_reverse, <- position_None.
  by destruct (position f (reverse l)).
Qed.

Lemma get_range_app {A} (a b c : list A) :
  get_range (length a) (length a + length b) (a ++ b ++ c) = Some b.
Proof.
  unfold get_range. rewrite decide_True by (rewrite !length_app; lia).
  rewrite drop_app_length. replace (_ - _)%nat with (length b) by lia. by rewrite take_app_length.
Qed.

(** ** Big-endian words *)

Lemma length_to_be n x : length (to_be n x) = n.
Proof. induction n; cbn; lia. Qed.

Lemma to_be_octets n x : octets (to_be n x).
Proof.
  induction n as [|n IH]; cbn [to_be]; constructor; [|done].
  pose proof (Z.mod_pos_bound (Z.shiftr x (8 * Z.of_nat n)) 256). word_lia.
Qed.

Lemma from_be_acc l : forall a,
  fold_left (fun acc b => acc * 256 + b) l a = a * 2 ^ (8 * len l) + from_be l.
Proof.
  unfold from_be. induction l as [|b l IH]; intros a; cbn [fold_left].
  - change (len []) with 0. change (2 ^ (8 * 0)) with 1. lia.
  - rewrite IH, (IH (0 * 256 + b)).
    replace (2 ^ (8 * len (b :: l))) with (256 * 2 ^ (8 * len l)); [ring|].
    replace (8 * len (b :: l)) with (8 + 8 * len l) by (unfold len; cbn [length]; lia).
    by rewrite Z.pow_add_r by (unfold len; lia).
Qed.

Lemma from_be_cons b l : from_be (b :: l) = b * 2 ^ (8 * len l) + from_be l.
Proof. unfold from_be at 1. cbn [fold_left]. rewrite from_be_acc. ring. Qed.

Lemma len_cons {A} (x : A) l : len (x :: l) = len l + 1.
Proof. unfold len. cbn [length]. lia. Qed.

Lemma len_app {A} (l m : list A) : len (l ++ m) = len l + len m.
Proof. unfold len. rewrite length_app. lia. Qed.

Lemma len_nonneg {A} (l : list A) : 0 <= len l.
Proof. unfold len. lia. Qed.

Lemma from_be_bound l : octets l -> 0 <= from_be l < 2 ^ (8 * len l).
Proof.
  induction 1 as [|b l Hb _ IH]; [done|]. rewrite from_be_cons, len_cons.
  pose proof (len_nonneg l).
  replace (2 ^ (8 * (len l + 1))) with (2 ^ (8 * len l) * 256)
    by (rewrite Z.mul_add_distr_l, Z.pow_add_r; lia).
  unfold word in Hb. change (2 ^ 8) with 256 in Hb. nia.
Qed.

Lemma from_be_to_be n x : 0 <= x -> from_be (to_be n x) = x mod 2 ^ (8 * Z.of_nat n).
Proof.
  intros Hx. induction n as [|n IH]; [by rewrite Z.mod_1_r|].
  cbn [to_be]. rewrite from_be_cons, IH. unfold len. rewrite length_to_be.
  rewrite Z.shiftr_div_pow2 by lia.
  replace (8 * Z.of_nat (S n)) with (8 * Z.of_nat n + 8) by lia.
  rewrite Z.pow_add_r by lia. change (2 ^ 8) with 256.
  rewrite (Z.rem_mul_r x) by lia. ring.
Qed.

Lemma to_be_low n k x c :
  0 <= c -> (n <= k)%nat -> to_be n (c * 2 ^ (8 * Z.of_nat k) + x) = to_be n x.
Proof.
  intros Hc. induction n as [|n IHn]; intros Hn; [done|]. cbn [to_be]. rewrite IHn by lia. f_equal.
  rewrite !Z.shiftr_div_pow2 by lia.
  replace (8 * Z.of_nat k) with (8 * Z.of_nat n + (8 + 8 * (Z.of_nat k - Z.of_nat n - 1))) by lia.
  rewrite !Z.pow_add_r by lia. change (2 ^ 8) with 256.
  rewrite (Z.mul_comm (2 ^ (8 * Z.of_nat n))), Z.mul_assoc, Z.div_add_l by lia.
  by rewrite (Z.mul_comm 256), Z.mul_assoc, Z.add_comm, Z.mod_add.
Qed.

Lemma to_be_from_be l : octets l -> to_be (length l) (from_be l) = l.
Proof.
  induction 1 as [|b l Hb Hl IH]; [done|]. cbn [length to_be].
  pose proof (from_be_bound l Hl) as Hf. rewrite from_be_cons.
  rewrite Z.shiftr_div_pow2 by lia. fold (len l).
  rewrite Z.div_add_l, (Z.div_small (from_be l)), Z.add_0_r, Z.mod_small by word_lia.
  f_equal. unfold len. rewrite to_be_low by word_lia. done.
Qed.

(** A tag above the value bits is the sum, and the mask takes it off. *)
Lemma testbit_high v k n : 0 <= v < 2 ^ k -> 0 <= k <= n -> Z.testbit v n = false.
Proof.
  intros Hv Hn. destruct (decide (v = 0)) as [->|]; [apply Z.bits_0|].
  apply Z.bits_above_log2; [lia|]. apply Z.lt_le_trans with k; [|lia]. apply Z.log2_lt_pow2; lia.
Qed.

Lemma lor_tag v c k : 0 <= k -> 0 <= v < 2 ^ k -> Z.lor v (c * 2 ^ k) = v + c * 2 ^ k.
Proof.
  intros Hk Hv. assert (Z.land v (c * 2 ^ k) = 0) as H0.
  { apply Z.bits_inj'. intros n Hn. rewrite Z.land_spec, Z.bits_0.
    destruct (Z.lt_ge_cases n k).
    - by rewrite Z.mul_pow2_bits_low, andb_false_r.
    - by rewrite (testbit_high v k). }
  by rewrite Z.add_nocarry_lxor, Z.lxor_lor.
Qed.

Lemma land_tag v c k : 0 <= k -> 0 <= v < 2 ^ k -> Z.land (v + c * 2 ^ k) (2 ^ k - 1) = v.
Proof.
  intros Hk Hv. replace (2 ^ k - 1) with (Z.ones k) by (rewrite Z.ones_equiv; lia).
  by rewrite Z.land_ones, Z.mod_add, Z.mod_small by lia.
Qed.

(** The facts about lengths and words that close side conditions. *)
#[export] Hint Resolve len_nonneg length_to_be to_be_octets from_be_bound : zs.
