(* ===== verification/Scalar.v ===== *)
(** * Byte classes and the per-byte kernels

    [zero-simd/src/scalar.rs]: the loops that define every scanning kernel, with
    the lemmas the parsers use; and [rotate_key] of [lib.rs].  The root functions of
    the crate pick a kernel for the processor; a parser that calls one of them is
    modelled with the definition here, which is what every kernel computes. *)
From S2P Require Import Prelude.

Definition is_target_byte (byte : Z) : bool := (0x21 <=? byte) && (byte <=? 0x7e).

Definition is_digit (byte : Z) : bool := (0x30 <=? byte) && (byte <=? 0x39).
Definition is_upper (byte : Z) : bool := (0x41 <=? byte) && (byte <=? 0x5a).
Definition is_lower (byte : Z) : bool := (0x61 <=? byte) && (byte <=? 0x7a).

Definition is_tchar (byte : Z) : bool :=
  bool_decide (byte ∈ bs "!#$%&'*+-.^_`|~") || is_digit byte || is_upper byte || is_lower byte.

Definition is_value_byte (byte : Z) : bool :=
  (byte =? 0x09) || ((0x20 <=? byte) && (byte <=? 0x7e)) || ((0x80 <=? byte) && (byte <=? 0xff)).

Definition scan (input : bytes) (allowed : Z -> bool) : nat :=
  default (length input) (position (fun byte => negb (allowed byte)) input).

Definition scan_ascii (input : bytes) : nat := scan input (fun byte => byte <? 0x80).
Definition scan_target (input : bytes) : nat := scan input is_target_byte.
Definition scan_header_name (input : bytes) : nat := scan input is_tchar.
Definition scan_header_value (input : bytes) : nat := scan input is_value_byte.

Definition find_byte (haystack : bytes) (needle : Z) : option nat :=
  position (fun byte => byte =? needle) haystack.
Definition is_cr_or_lf (byte : Z) : bool := (byte =? 13) || (byte =? 10).
Definition find_cr_or_lf (haystack : bytes) : option nat := position is_cr_or_lf haystack.

(** A masking key is an array of four octets. *)
Definition key_octet (key : bytes) (index : nat) : Z :=
  default 0 (key !! Z.to_nat (Z.land (Z.of_nat index) 3)).
Definition unmask (payload key : bytes) : bytes :=
  imap (fun index byte => Z.lxor byte (key_octet key index)) payload.

Definition rotate_key (key : bytes) (offset : nat) : bytes :=
  let '(k0, k1, k2, k3) := (key_octet key 0, key_octet key 1, key_octet key 2, key_octet key 3) in
  match Z.land (Z.of_nat offset) 3 with
  | 0 => [k0; k1; k2; k3]
  | 1 => [k1; k2; k3; k0]
  | 2 => [k2; k3; k0; k1]
  | _ => [k3; k0; k1; k2]
  end.

(** ** Scans *)

Lemma scan_cons x l f : scan (x :: l) f = if f x then S (scan l f) else O.
Proof.
  unfold scan. cbn [position length]. destruct (f x); cbn [negb]; [|done].
  by destruct (position _ l).
Qed.

Lemma scan_le l f : (scan l f <= length l)%nat.
Proof.
  unfold scan. destruct (position _ l) eqn:H; cbn [default]; [|done].
  apply position_lt in H. unfold id. lia.
Qed.

Lemma scan_app l m f :
  scan (l ++ m) f = if (scan l f <? length l)%nat then scan l f else (length l + scan m f)%nat.
Proof.
  induction l as [|x l IH]; cbn [app length]; [done|]. rewrite !scan_cons.
  destruct (f x); [|done]. rewrite IH.
  destruct (Nat.ltb_spec (scan l f) (length l)), (Nat.ltb_spec (S (scan l f)) (S (length l))); lia.
Qed.

(** A run of the class followed by an octet outside it, or by nothing. *)
Lemma scan_run l m f :
  Forall (fun b => f b = true) l -> match m with [] => True | b :: _ => f b = false end ->
  scan (l ++ m) f = length l.
Proof.
  intros Hl Hm. induction Hl as [|x l Hx Hl IH]; cbn [app length].
  - destruct m as [|b m]; [done|]. by rewrite scan_cons, Hm.
  - by rewrite scan_cons, Hx, IH.
Qed.

Lemma scan_all l f : Forall (fun b => f b = true) l -> scan l f = length l.
Proof. intros H. pose proof (scan_run l [] f H I). by rewrite app_nil_r in *. Qed.

Lemma scan_take l f : Forall (fun b => f b = true) (take (scan l f) l).
Proof.
  induction l as [|x l IH]; [constructor|]. rewrite scan_cons.
  destruct (f x) eqn:Hx; cbn [take]; [by constructor | constructor].
Qed.

Lemma scan_stop l f b : l !! scan l f = Some b -> f b = false.
Proof.
  induction l as [|x l IH]; [done|]. rewrite scan_cons.
  destruct (f x) eqn:Hx; cbn; [done | intros [= <-]; done].
Qed.

(** ** Masking *)

Lemma key_octet_mod key i j : (i mod 4 = j mod 4)%nat -> key_octet key i = key_octet key j.
Proof.
  intros H. unfold key_octet. change 3 with (Z.ones 2). rewrite !Z.land_ones by lia.
  change (2 ^ 2) with (Z.of_nat 4). by rewrite <- !Nat2Z.inj_mod, H.
Qed.

Lemma rotate_key_octet key offset i : key_octet (rotate_key key offset) i = key_octet key (offset + i).
Proof.
  rewrite (key_octet_mod _ i (i mod 4)) by (symmetry; apply Nat.Div0.mod_mod).
  rewrite (key_octet_mod _ (offset + i) ((offset mod 4 + i mod 4) mod 4)).
  2: { by rewrite Nat.Div0.mod_mod, <- Nat.Div0.add_mod. }
  unfold rotate_key. change 3 with (Z.ones 2). rewrite Z.land_ones by lia.
  change (2 ^ 2) with (Z.of_nat 4). rewrite <- Nat2Z.inj_mod.
  pose proof (Nat.mod_upper_bound offset 4 ltac:(lia)). pose proof (Nat.mod_upper_bound i 4 ltac:(lia)).
  destruct (offset mod 4)%nat as [|[|[|[|]]]]; try lia;
    destruct (i mod 4)%nat as [|[|[|[|]]]]; try lia; reflexivity.
Qed.

(** A masked payload may be unmasked in fragments, each with the key
    rotated to where the fragment starts; and masking twice is nothing. *)
Lemma unmask_app a b key : unmask (a ++ b) key = unmask a key ++ unmask b (rotate_key key (length a)).
Proof.
  unfold unmask. rewrite imap_app. f_equal. apply imap_ext. intros i x Hx. cbn -[rotate_key key_octet].
  by rewrite rotate_key_octet.
Qed.

Lemma unmask_split a b key k :
  unmask (a ++ b) (rotate_key key k) = unmask a (rotate_key key k) ++ unmask b (rotate_key key (k + length a)).
Proof.
  rewrite unmask_app. f_equal. unfold unmask. apply imap_ext. intros i x Hx. cbn -[rotate_key key_octet].
  by rewrite !rotate_key_octet, Nat.add_assoc.
Qed.

Lemma unmask_rotate_0 l key : unmask l (rotate_key key 0) = unmask l key.
Proof. unfold unmask. apply imap_ext. intros i x Hx. cbn -[rotate_key key_octet]. by rewrite rotate_key_octet. Qed.

Lemma unmask_twice l key : unmask (unmask l key) key = l.
Proof.
  apply list_eq. intros i. unfold unmask. rewrite !list_lookup_imap.
  destruct (l !! i); cbn; [|done]. by rewrite Z.lxor_assoc, Z.lxor_nilpotent, Z.lxor_0_r.
Qed.

Lemma length_unmask l key : length (unmask l key) = length l.
Proof. apply length_imap. Qed.
