(* ===== verification/Swar.v ===== *)
(** * The SWAR kernels

    [zero-simd/src/swar.rs]: eight octets a step in a 64-bit word.  A word is the
    number of its lanes; [Lanes flag f] says that a computation on words is [f] on
    every lane, with instances for each operation of the kernels, so that a mask is
    known on words once it is known on the 256 octets.  Every kernel is then the
    loop of [Scalar]. *)
From S2P Require Import Prelude Scalar.

Definition LO : Z := 0x0101010101010101.
Definition HI : Z := 0x8080808080808080.
Definition LO7 : Z := 0x7f7f7f7f7f7f7f7f.
Definition LANES : nat := 8.

(** [!word] *)
Definition not64 (word : Z) : Z := 2 ^ 64 - 1 - word.

Definition repeat (byte : Z) : Z := byte * LO mod 2 ^ 64.

Definition eq_mask (word byte : Z) : Z :=
  let diff := Z.lxor word (repeat byte) in
  not64 (Z.lor (Z.lor (wrapping_add 64 (Z.land diff LO7) LO7) diff) LO7).

Definition lt_mask (word bound : Z) : Z :=
  let offset := repeat (wrapping_sub 8 0x80 bound) in
  Z.land (not64 (Z.lor (wrapping_add 64 (Z.land word LO7) offset) word)) HI.

(** [trailing_zeros] of a word that is not zero. *)
Fixpoint trailing_zeros (p : positive) : nat :=
  match p with xO p => S (trailing_zeros p) | _ => O end.

Definition first_lane (mask : Z) : option nat :=
  match mask with
  | Zpos p => Some (Nat.shiftr (trailing_zeros p) 3)
  | _ => None
  end.

(** [u64::from_le_bytes] *)
Fixpoint load (chunk : bytes) : Z :=
  match chunk with [] => 0 | byte :: chunk => byte + 256 * load chunk end.

(** [position], from the chunk at [offset] on. *)
Section position.
Context (flag : Z -> Z) (tail : bytes -> option nat).
Fixpoint position_from (offset : nat) (input : bytes) : option nat :=
  match input with
  | b0 :: b1 :: b2 :: b3 :: b4 :: b5 :: b6 :: b7 :: rest =>
      match first_lane (flag (load [b0; b1; b2; b3; b4; b5; b6; b7])) with
      | Some lane => Some (offset + lane)%nat
      | None => position_from (offset + LANES) rest
      end
  | rest => Nat.add offset <$> tail rest
  end.
Definition position (input : bytes) : option nat := position_from 0 input.
End position.

Definition non_ascii_mask (word : Z) : Z := Z.land word HI.

Definition scan_ascii (input : bytes) : nat :=
  default (length input)
    (position non_ascii_mask (Prelude.position (fun byte => 0x80 <=? byte)) input).

Definition target_flag (word : Z) : Z :=
  Z.lor (Z.lor (lt_mask word 0x21) (eq_mask word 0x7f)) (Z.land word HI).
Definition scan_target (input : bytes) : nat :=
  default (length input)
    (position target_flag (Prelude.position (fun byte => negb (is_target_byte byte))) input).

Definition scan_header_name (input : bytes) : nat :=
  default (length input) (Prelude.position (fun byte => negb (is_tchar byte)) input).

Definition value_flag (word : Z) : Z :=
  Z.lor (Z.land (lt_mask word 0x20) (not64 (eq_mask word 0x09))) (eq_mask word 0x7f).
Definition scan_header_value (input : bytes) : nat :=
  default (length input)
    (position value_flag (Prelude.position (fun byte => negb (is_value_byte byte))) input).

Definition find_byte (haystack : bytes) (needle : Z) : option nat :=
  position (fun word => eq_mask word needle) (fun tail => Scalar.find_byte tail needle) haystack.

Definition cr_or_lf_flag (word : Z) : Z := Z.lor (eq_mask word 13) (eq_mask word 10).
Definition find_cr_or_lf (haystack : bytes) : option nat :=
  position cr_or_lf_flag Scalar.find_cr_or_lf haystack.

(** [u64::from_ne_bytes] and [to_ne_bytes], for either order of the target. *)
Definition from_ne (big_endian : bool) (chunk : bytes) : Z :=
  if big_endian then from_be chunk else load chunk.
Definition to_ne (big_endian : bool) (word : Z) : bytes :=
  if big_endian then to_be LANES word else rev (to_be LANES word).

Fixpoint unmask_chunks (big_endian : bool) (key_word : Z) (key payload : bytes) : bytes :=
  match payload with
  | b0 :: b1 :: b2 :: b3 :: b4 :: b5 :: b6 :: b7 :: rest =>
      let word := from_ne big_endian [b0; b1; b2; b3; b4; b5; b6; b7] in
      to_ne big_endian (Z.lxor word key_word) ++ unmask_chunks big_endian key_word key rest
  | rest => Scalar.unmask rest key
  end.
Definition unmask (big_endian : bool) (payload key : bytes) : bytes :=
  unmask_chunks big_endian (from_ne big_endian (key ++ key)) key payload.

Example scan_target_index : scan_target (bs "/a/b/index.html?q=1 HTTP/1.1") = 19%nat.
Proof. vm_compute. reflexivity. Qed.
Example find_borrow : find_byte [1; 0; 2; 1; 3; 0; 0; 0] 2 = Some 2%nat.
Proof. vm_compute. reflexivity. Qed.

(** ** Words as lanes *)

Lemma testbit_lane b w n : u8 b -> 0 <= n ->
  Z.testbit (b + 256 * w) n = if n <? 8 then Z.testbit b n else Z.testbit w (n - 8).
Proof.
  intros Hb Hn. replace (b + 256 * w) with (b + w * 2 ^ 8) by lia.
  rewrite <- lor_tag by (done || lia). rewrite Z.lor_spec. destruct (Z.ltb_spec n 8).
  - by rewrite Z.mul_pow2_bits_low, orb_false_r by lia.
  - rewrite (testbit_high b 8), Z.mul_pow2_bits by (done || lia). done.
Qed.

Lemma octet_of_bits x : (forall n, 8 <= n -> Z.testbit x n = false) -> u8 x.
Proof.
  intros H. enough (x = x mod 2 ^ 8) as -> by (apply Z.mod_pos_bound; lia).
  apply Z.bits_inj'. intros n Hn. destruct (Z.lt_ge_cases n 8).
  - by rewrite Z.mod_pow2_bits_low.
  - rewrite Z.mod_pow2_bits_high by lia. by apply H.
Qed.

(** An operation on bits works on each lane. *)
Section bitwise.
Context (op : Z -> Z -> Z) (bit : bool -> bool -> bool).
Hypothesis op_bit : forall a b n, 0 <= n -> Z.testbit (op a b) n = bit (Z.testbit a n) (Z.testbit b n).
Hypothesis bit_false : bit false false = false.

Lemma bitwise_octet a b : u8 a -> u8 b -> u8 (op a b).
Proof.
  intros Ha Hb. apply octet_of_bits. intros n Hn.
  rewrite op_bit, (testbit_high a 8), (testbit_high b 8) by (done || lia). done.
Qed.

Lemma bitwise_lane a b v w : u8 a -> u8 b ->
  op (a + 256 * v) (b + 256 * w) = op a b + 256 * op v w.
Proof.
  intros Ha Hb. apply Z.bits_inj'. intros n Hn.
  rewrite op_bit, !testbit_lane by (done || by apply bitwise_octet).
  destruct (Z.ltb_spec n 8); by rewrite op_bit by lia.
Qed.

Lemma bitwise_load f g l :
  (forall b, u8 b -> u8 (f b)) -> (forall b, u8 b -> u8 (g b)) -> octets l ->
  op (load (map f l)) (load (map g l)) = load (map (fun b => op (f b) (g b)) l).
Proof.
  intros Hf Hg Hl. induction Hl as [|b l Hb _ IH]; cbn [map load].
  - apply Z.bits_inj'. intros n Hn. by rewrite op_bit, Z.bits_0.
  - rewrite bitwise_lane, IH by auto. done.
Qed.
End bitwise.

Lemma load_bound l : octets l -> 0 <= load l < 2 ^ (8 * len l).
Proof.
  induction 1 as [|b l Hb _ IH]; cbn [load]; [done|]. rewrite len_cons.
  rewrite Z.mul_add_distr_l, Z.pow_add_r by (pose proof (len_nonneg l); lia).
  unfold word in Hb. change (2 ^ 8) with 256 in *. change (2 ^ (8 * 1)) with 256. nia.
Qed.

(** [flag] is [f] on each of the eight lanes of a word. *)
Class Lanes (flag : Z -> Z) (f : Z -> Z) : Prop := {
  lanes_octet b : u8 b -> u8 (f b);
  lanes_load l : octets l -> length l = LANES -> flag (load l) = load (map f l);
}.

#[export] Instance lanes_word : Lanes (fun word => word) (fun b => b).
Proof. split; [done|]. intros l _ _. by rewrite map_id. Qed.

Lemma lanes_constant c w :
  u8 c -> w = load (replicate LANES c) -> Lanes (fun _ => w) (fun _ => c).
Proof.
  intros Hc ->. split; [done|]. intros l _ Hl. f_equal.
  clear Hc. revert Hl. generalize LANES. induction l as [|b l IH]; intros [|n] Hn; try done.
  cbn [replicate map]. f_equal. apply IH. cbn in Hn. lia.
Qed.

#[export] Instance lanes_HI : Lanes (fun _ => HI) (fun _ => 0x80).
Proof. by apply lanes_constant. Qed.
#[export] Instance lanes_LO7 : Lanes (fun _ => LO7) (fun _ => 0x7f).
Proof. by apply lanes_constant. Qed.

Lemma repeat_lanes c : u8 c -> repeat c = load (replicate LANES c).
Proof.
  intros Hc. unfold repeat, LO. rewrite Z.mod_small by word_lia. cbn. lia.
Qed.

Section lanes.
Context (flag flag' f g : _) `{!Lanes flag f, !Lanes flag' g}.

#[export] Instance lanes_lor : Lanes (fun w => Z.lor (flag w) (flag' w)) (fun b => Z.lor (f b) (g b)).
Proof.
  split.
  - intros b Hb. apply (bitwise_octet _ orb); try (by intros; apply Z.lor_spec); try done; intros; by apply lanes_octet.
  - intros l Hl Hn. rewrite !lanes_load by done.
    apply (bitwise_load _ orb); try (by intros; apply Z.lor_spec); try done; intros; by apply lanes_octet.
Qed.

#[export] Instance lanes_land : Lanes (fun w => Z.land (flag w) (flag' w)) (fun b => Z.land (f b) (g b)).
Proof.
  split.
  - intros b Hb. apply (bitwise_octet _ andb); try (by intros; apply Z.land_spec); try done; intros; by apply lanes_octet.
  - intros l Hl Hn. rewrite !lanes_load by done.
    apply (bitwise_load _ andb); try (by intros; apply Z.land_spec); try done; intros; by apply lanes_octet.
Qed.

#[export] Instance lanes_lxor : Lanes (fun w => Z.lxor (flag w) (flag' w)) (fun b => Z.lxor (f b) (g b)).
Proof.
  split.
  - intros b Hb. apply (bitwise_octet _ xorb); try (by intros; apply Z.lxor_spec); try done; intros; by apply lanes_octet.
  - intros l Hl Hn. rewrite !lanes_load by done.
    apply (bitwise_load _ xorb); try (by intros; apply Z.lxor_spec); try done; intros; by apply lanes_octet.
Qed.

#[export] Instance lanes_not : Lanes (fun w => not64 (flag w)) (fun b => not8 (f b)).
Proof.
  split.
  - intros b Hb. pose proof (lanes_octet (flag := flag) b Hb). unfold not8. word_lia.
  - intros l Hl Hn. rewrite lanes_load by done. unfold not64.
    replace (2 ^ 64 - 1) with (load (map (fun _ => 255) l)).
    2: { do 9 (destruct l as [|? l]; try done). }
    clear Hn Hl. induction l as [|b l IH]; cbn [map load]; [done|]. unfold not8 at 1. lia.
Qed.

End lanes.

(** No carry leaves a lane of seven bits when at most 128 is added to it. *)
Lemma lanes_add flag f c w0 :
  Lanes flag f ->
  0 <= c <= 128 -> w0 = load (replicate LANES c) ->
  Lanes (fun w => wrapping_add 64 (Z.land (flag w) LO7) w0) (fun b => Z.land (f b) 0x7f + c).
Proof.
  intros Hf Hc ->. assert (Hadd : forall b, 0 <= Z.land b 0x7f + c < 256).
  { intros b. rewrite land_7f. pose proof (Z.mod_pos_bound b 128). lia. }
  split; [intros b _; apply Hadd|]. intros l Hl Hn.
  pose proof (lanes_load (flag := fun w => Z.land (flag w) LO7) l Hl Hn) as ->.
  replace (load (replicate LANES c)) with (load (map (fun _ => c) l)).
  2: { symmetry. apply (lanes_load (flag := fun _ => load (replicate LANES c))
         (Lanes := lanes_constant c _ ltac:(word_lia) eq_refl) l Hl Hn). }
  assert (forall m, load (map (fun b => Z.land (f b) 127) m) + load (map (fun _ => c) m)
                    = load (map (fun b => Z.land (f b) 127 + c) m)) as Hsum.
  { induction m as [|b m IH]; cbn [map load]; [done|]. lia. }
  unfold wrapping_add. rewrite Hsum. apply Z.mod_small.
  replace 64 with (8 * len (map (fun b => Z.land (f b) 127 + c) l))
    by (unfold len; rewrite length_map, Hn; done).
  apply load_bound, Forall_map, Forall_true. intros b. apply Hadd.
Qed.

(** ** The masks *)

Definition mark (p : Z -> bool) (b : Z) : Z := if p b then 0x80 else 0.

Definition eq_lane (byte b : Z) : Z :=
  not8 (Z.lor (Z.lor (Z.land (Z.lxor b byte) 0x7f + 0x7f) (Z.lxor b byte)) 0x7f).
Definition lt_lane (bound b : Z) : Z :=
  Z.land (not8 (Z.lor (Z.land b 0x7f + (0x80 - bound)) b)) 0x80.

Lemma lanes_repeat byte : u8 byte -> Lanes (fun _ => repeat byte) (fun _ => byte).
Proof. intros Hb. apply lanes_constant; [done|]. by apply repeat_lanes. Qed.

Lemma lanes_eq_mask byte : u8 byte -> Lanes (fun word => eq_mask word byte) (eq_lane byte).
Proof.
  intros Hb. unfold eq_mask, eq_lane. pose proof (lanes_repeat byte Hb).
  pose proof (lanes_add (fun w => Z.lxor w (repeat byte)) _ 0x7f LO7 _ ltac:(lia) eq_refl). apply _.
Qed.

Lemma lanes_lt_mask bound : 0 < bound <= 0x80 -> Lanes (fun word => lt_mask word bound) (lt_lane bound).
Proof.
  intros Hb. unfold lt_mask, lt_lane.
  replace (wrapping_sub 8 0x80 bound) with (0x80 - bound)
    by (unfold wrapping_sub; rewrite Z.mod_small; word_lia).
  pose proof (lanes_add (fun w => w) _ (0x80 - bound) (repeat (0x80 - bound)) _ ltac:(lia)
    (repeat_lanes (0x80 - bound) ltac:(word_lia))). apply _.
Qed.

(** The 65,536 pairs of octets. *)
Lemma eq_lane_mark byte b : u8 byte -> u8 b -> eq_lane byte b = mark (fun b => b =? byte) b.
Proof.
  intros Hbyte Hb. apply Z.eqb_eq.
  apply (octet_forall (fun b => eq_lane byte b =? mark (fun b => b =? byte) b)); [|done].
  apply (octet_forall (fun byte => forallb (fun b => eq_lane byte b =? mark (fun b => b =? byte) b)
    (seqZ 0 256))); [vm_compute; reflexivity | done].
Qed.

Lemma first_lane_shift w : 0 <= w -> first_lane (256 * w) = S <$> first_lane w.
Proof.
  intros Hw. destruct w as [|q|q]; [done | | lia].
  change (256 * Z.pos q) with (Z.pos (q~0~0~0~0~0~0~0~0)). cbn [first_lane trailing_zeros fmap option_fmap option_map].
  rewrite !Nat.shiftr_div_pow2. change (2 ^ 3)%nat with 8%nat. f_equal.
  replace (S (S (S (S (S (S (S (S (trailing_zeros q)))))))))
    with (trailing_zeros q + 1 * 8)%nat by lia.
  rewrite Nat.div_add; lia.
Qed.

Lemma first_lane_mark w : 0 <= w -> first_lane (0x80 + 256 * w) = Some O.
Proof.
  intros Hw. destruct w as [|q|q]; [done | | lia].
  by replace (0x80 + 256 * Z.pos q) with (Z.pos (q~1~0~0~0~0~0~0~0)) by lia.
Qed.

Lemma mark_octet p b : u8 (mark p b).
Proof. unfold mark. destruct (p b); word_lia. Qed.

Lemma first_lane_load p l : first_lane (load (map (mark p) l)) = Prelude.position p l.
Proof.
  induction l as [|b l IH]; cbn [map load Prelude.position]; [done|].
  assert (0 <= load (map (mark p) l)) as Hl.
  { apply load_bound, Forall_map, Forall_true. intros. apply mark_octet. }
  unfold mark at 1. destruct (p b); [by apply first_lane_mark|].
  by rewrite Z.add_0_l, first_lane_shift, IH.
Qed.

(** A kernel whose mask marks a class of octets finds the first of the class. *)
Section kernel.
Context (flag f : Z -> Z) (p : Z -> bool) (tail : bytes -> option nat) `{!Lanes flag f}.
Hypothesis f_mark : forall b, u8 b -> f b = mark p b.
Hypothesis tail_position : forall l, tail l = Prelude.position p l.

Lemma flag_load l : octets l -> length l = LANES -> first_lane (flag (load l)) = Prelude.position p l.
Proof.
  intros Hl Hn. rewrite (lanes_load l Hl Hn), <- first_lane_load. do 2 f_equal.
  apply map_ext_Forall. eapply Forall_impl; [exact Hl|]. apply f_mark.
Qed.

Lemma position_from_scalar n : forall offset input, (length input <= n)%nat -> octets input ->
  position_from flag tail offset input = Nat.add offset <$> Prelude.position p input.
Proof.
  induction n as [|n IH]; intros offset input Hn Ho.
  { destruct input; [|cbn in Hn; lia]. cbn [position_from]. by rewrite tail_position. }
  do 8 (destruct input as [|? input]; [cbn [position_from]; by rewrite tail_position|]).
  cbn [position_from]. change (?a :: ?b :: ?c :: ?d :: ?e :: ?g :: ?h :: ?i :: ?l)
    with ([a; b; c; d; e; g; h; i] ++ l) in Ho |- *.
  apply Forall_app in Ho as [Hchunk Ho].
  rewrite ?app_nil_r. rewrite flag_load, (position_app _ _ input) by done.
  destruct (Prelude.position p [_; _; _; _; _; _; _; _]) as [lane|]; [done|].
  rewrite IH by (done || (cbn [length] in Hn; lia)).
  destruct (Prelude.position p input); [|done]. cbn. f_equal. unfold LANES. lia.
Qed.

Lemma position_scalar input : octets input -> position flag tail input = Prelude.position p input.
Proof.
  intros Ho. unfold position. rewrite (position_from_scalar (length input)) by done.
  by destruct (Prelude.position p input).
Qed.

Lemma scan_scalar input (allowed : Z -> bool) :
  (forall b, p b = negb (allowed b)) -> octets input ->
  default (length input) (position flag tail input) = scan input allowed.
Proof.
  intros Hp Ho. rewrite position_scalar by done. unfold scan. f_equal.
  apply position_ext. intros b _. apply Hp.
Qed.
End kernel.

(** ** The kernels *)

(** A mask built from the two tests is known once it is known on 256 octets. *)
Ltac mark_octets :=
  let b := fresh in let Hb := fresh in
  intros b Hb; apply Z.eqb_eq; revert b Hb; apply octet_forall; vm_compute; reflexivity.

#[local] Instance lanes_lt_20 : Lanes (fun word => lt_mask word 0x20) (lt_lane 0x20).
Proof. by apply lanes_lt_mask. Qed.
#[local] Instance lanes_lt_21 : Lanes (fun word => lt_mask word 0x21) (lt_lane 0x21).
Proof. by apply lanes_lt_mask. Qed.
#[local] Instance lanes_eq_09 : Lanes (fun word => eq_mask word 0x09) (eq_lane 0x09).
Proof. by apply lanes_eq_mask. Qed.
#[local] Instance lanes_eq_7f : Lanes (fun word => eq_mask word 0x7f) (eq_lane 0x7f).
Proof. by apply lanes_eq_mask. Qed.
#[local] Instance lanes_eq_13 : Lanes (fun word => eq_mask word 13) (eq_lane 13).
Proof. by apply lanes_eq_mask. Qed.
#[local] Instance lanes_eq_10 : Lanes (fun word => eq_mask word 10) (eq_lane 10).
Proof. by apply lanes_eq_mask. Qed.

#[local] Instance lanes_target : Lanes target_flag
  (fun b => Z.lor (Z.lor (lt_lane 0x21 b) (eq_lane 0x7f b)) (Z.land b 0x80)).
Proof. unfold target_flag. apply _. Qed.
#[local] Instance lanes_value : Lanes value_flag
  (fun b => Z.lor (Z.land (lt_lane 0x20 b) (not8 (eq_lane 0x09 b))) (eq_lane 0x7f b)).
Proof. unfold value_flag. apply _. Qed.
#[local] Instance lanes_cr_or_lf : Lanes cr_or_lf_flag (fun b => Z.lor (eq_lane 13 b) (eq_lane 10 b)).
Proof. unfold cr_or_lf_flag. apply _. Qed.
#[local] Instance lanes_non_ascii : Lanes non_ascii_mask (fun b => Z.land b 0x80).
Proof. unfold non_ascii_mask. apply _. Qed.

(** The word-at-a-time kernels compute what the per-octet loops define, on every
    input: the four prefix scans and the two searches. *)
Theorem swar_kernels_scalar input needle :
  octets input -> u8 needle ->
  scan_ascii input = Scalar.scan_ascii input /\
  scan_target input = Scalar.scan_target input /\
  scan_header_name input = Scalar.scan_header_name input /\
  scan_header_value input = Scalar.scan_header_value input /\
  find_byte input needle = Scalar.find_byte input needle /\
  find_cr_or_lf input = Scalar.find_cr_or_lf input.
Proof.
  intros Ho Hn. pose proof (lanes_eq_mask needle Hn). repeat split.
  - eapply (scan_scalar non_ascii_mask _ (fun b => 0x80 <=? b)); [apply _ | mark_octets | done | | done].
    intros b. apply Z.leb_antisym.
  - by eapply (scan_scalar target_flag _ (fun b => negb (is_target_byte b))); [apply _ | mark_octets | ..].
  - by eapply (scan_scalar value_flag _ (fun b => negb (is_value_byte b))); [apply _ | mark_octets | ..].
  - eapply (position_scalar (fun word => eq_mask word needle) _ (fun b => b =? needle)); [apply _ | | done | done].
    intros b Hb. by apply eq_lane_mark.
  - by eapply (position_scalar cr_or_lf_flag _ is_cr_or_lf); [apply _ | mark_octets | ..].
Qed.

Lemma swar_kernels_scalar_witness :
  scan_ascii (bs "GET / HTTP/1.1") = Scalar.scan_ascii (bs "GET / HTTP/1.1") /\
  scan_target (bs "GET / HTTP/1.1") = Scalar.scan_target (bs "GET / HTTP/1.1") /\
  scan_header_name (bs "GET / HTTP/1.1") = Scalar.scan_header_name (bs "GET / HTTP/1.1") /\
  scan_header_value (bs "GET / HTTP/1.1") = Scalar.scan_header_value (bs "GET / HTTP/1.1") /\
  find_byte (bs "GET / HTTP/1.1") 0x2f = Scalar.find_byte (bs "GET / HTTP/1.1") 0x2f /\
  find_cr_or_lf (bs "GET / HTTP/1.1") = Scalar.find_cr_or_lf (bs "GET / HTTP/1.1").
Proof.
  apply swar_kernels_scalar; [|word_lia]. apply (bool_decide_unpack _). vm_compute. exact I.
Defined.

(** ** Unmasking *)

Lemma load_rev l : load l = from_be (rev l).
Proof.
  induction l as [|b l IH]; cbn [load rev]; [done|]. unfold from_be in *.
  rewrite fold_left_app, <- IH. cbn [fold_left]. lia.
Qed.

Lemma load_zip_lxor l : forall m, octets l -> octets m -> length l = length m ->
  Z.lxor (load l) (load m) = load (zip_with Z.lxor l m).
Proof.
  induction l as [|a l IH]; intros [|b m] Hl Hm Hn; try done.
  apply Forall_cons in Hl as [Ha Hl]. apply Forall_cons in Hm as [Hb Hm]. cbn [load zip_with].
  rewrite (bitwise_lane Z.lxor xorb), IH by (done || (intros; apply Z.lxor_spec) || (cbn in Hn; lia)).
  done.
Qed.

Lemma zip_lxor_octets l : forall m, octets l -> octets m -> octets (zip_with Z.lxor l m).
Proof.
  induction l as [|a l IH]; intros [|b m] Hl Hm; try constructor.
  - inversion Hl. inversion Hm. apply (bitwise_octet _ xorb); [|done..]. intros. apply Z.lxor_spec.
  - inversion Hl. inversion Hm. by apply IH.
Qed.

Lemma from_ne_load be l : from_ne be l = load (if be then rev l else l).
Proof. destruct be; cbn [from_ne]; [|done]. by rewrite load_rev, rev_involutive. Qed.

Lemma to_ne_load be l :
  octets l -> length l = LANES -> to_ne be (load (if be then rev l else l)) = l.
Proof.
  intros Ho Hl. unfold to_ne. destruct be; rewrite load_rev, ?rev_involutive, <- Hl.
  - by apply to_be_from_be.
  - rewrite <- (rev_involutive l) at 3. f_equal. rewrite <- length_rev.
    apply to_be_from_be. by apply Forall_rev.
Qed.

Lemma zip_rev (l m : bytes) : length l = length m ->
  zip_with Z.lxor (rev l) (rev m) = rev (zip_with Z.lxor l m).
Proof.
  revert m. induction l as [|a l IH]; intros [|b m] Hn; try done. cbn [rev zip_with].
  rewrite zip_with_app, IH by (rewrite ?length_rev; cbn in Hn; lia). done.
Qed.

(** One word is the exclusive or of its eight octets, whichever way it is loaded. *)
Lemma word_lxor be l m :
  octets l -> octets m -> length l = LANES -> length m = LANES ->
  to_ne be (Z.lxor (from_ne be l) (from_ne be m)) = zip_with Z.lxor l m.
Proof.
  intros Hl Hm Hnl Hnm. rewrite !from_ne_load.
  assert (octets (rev l) /\ octets (rev m)) as [Hl' Hm'] by (split; by apply Forall_rev).
  rewrite load_zip_lxor by (destruct be; rewrite ?length_rev; congruence).
  rewrite <- (to_ne_load be (zip_with Z.lxor l m)) at 1.
  - destruct be; [|done]. by rewrite zip_rev by congruence.
  - by apply zip_lxor_octets.
  - rewrite length_zip_with. lia.
Qed.

(** Unmasking eight octets a step is unmasking octet by octet, on a target of
    either byte order; a message may be unmasked in two fragments, the second with
    the key rotated by the length of the first; and masking twice changes nothing. *)
Theorem unmask_scalar be payload more key :
  octets payload -> octets key -> length key = 4%nat ->
  unmask be payload key = Scalar.unmask payload key /\
  Scalar.unmask (payload ++ more) key =
    Scalar.unmask payload key ++ Scalar.unmask more (rotate_key key (length payload)) /\
  Scalar.unmask (Scalar.unmask payload key) key = payload.
Proof.
  intros Ho Hk Hn. split; [|split; [by apply unmask_app | apply unmask_twice]].
  unfold unmask. remember (length payload) as n eqn:Hlen. assert (length payload <= n)%nat as Hle by lia.
  clear Hlen. revert payload Ho Hle. induction n as [|n IH]; intros payload Ho Hle.
  { destruct payload; [done | cbn in Hle; lia]. }
  do 8 (destruct payload as [|? payload]; [done|]). cbn [unmask_chunks].
  pose proof (Forall_app (word 8) [z; z0; z1; z2; z3; z4; z5; z6] payload) as [Hsplit _].
  destruct (Hsplit Ho) as [Hchunk Hrest].
  rewrite IH by (done || (cbn [length] in Hle; lia)).
  rewrite word_lxor; [| done | by apply Forall_app | done | by rewrite length_app, Hn].
  change (z :: z0 :: z1 :: z2 :: z3 :: z4 :: z5 :: z6 :: payload)
    with ([z; z0; z1; z2; z3; z4; z5; z6] ++ payload).
  rewrite unmask_app by done.
  destruct key as [|k0 [|k1 [|k2 [|k3 [|]]]]]; done.
Qed.

Lemma unmask_scalar_witness :
  unmask false (bs "websocket") [1; 2; 3; 250] = Scalar.unmask (bs "websocket") [1; 2; 3; 250] /\
  Scalar.unmask (bs "websocket" ++ bs "s") [1; 2; 3; 250] =
    Scalar.unmask (bs "websocket") [1; 2; 3; 250]
      ++ Scalar.unmask (bs "s") (rotate_key [1; 2; 3; 250] (length (bs "websocket"))) /\
  Scalar.unmask (Scalar.unmask (bs "websocket") [1; 2; 3; 250]) [1; 2; 3; 250] = bs "websocket".
Proof.
  apply unmask_scalar; [| |done]; apply (bool_decide_unpack _); vm_compute; exact I.
Defined.
