(* ===== verification/Utf8.v ===== *)
(** * The streaming UTF-8 validator

    [zero-simd/src/utf8.rs]: the state machine, fed fragment by fragment, against
    the encoding of RFC 3629: what it accepts, what it reports on a refusal, and
    that fragments do not matter. *)
From S2P Require Import Prelude Scalar.

(** [error_len] of [None] is an input that ends inside a sequence. *)
Record Utf8Error : Type := MkUtf8Error {
  valid_up_to : nat;
  error_len : option nat;
}.

Inductive State : Type := Start | Tail1 | Tail2 | Tail3 | E0 | Ed | F0 | F4.

#[global] Instance State_eq_dec : EqDecision State.
Proof. solve_decision. Defined.

Record Utf8Validator : Type := MkUtf8Validator {
  state : State;
  seen : nat;
}.

Definition new : Utf8Validator := MkUtf8Validator Start 0.

Definition is_complete (self : Utf8Validator) : bool := bool_decide (state self = Start).

(** A range pattern [lo..=hi]. *)
Definition within (lo hi byte : Z) : bool := (lo <=? byte) && (byte <=? hi).

(** [step]; [None] is [false], which leaves the validator as it was. *)
Definition step (self : Utf8Validator) (byte : Z) : option Utf8Validator :=
  let more := (seen self + 1)%nat in
  match state self with
  | Start =>
      if within 0x00 0x7f byte then Some (MkUtf8Validator Start 0)
      else if within 0xc2 0xdf byte then Some (MkUtf8Validator Tail1 1)
      else if byte =? 0xe0 then Some (MkUtf8Validator E0 1)
      else if within 0xe1 0xec byte || within 0xee 0xef byte then Some (MkUtf8Validator Tail2 1)
      else if byte =? 0xed then Some (MkUtf8Validator Ed 1)
      else if byte =? 0xf0 then Some (MkUtf8Validator F0 1)
      else if within 0xf1 0xf3 byte then Some (MkUtf8Validator Tail3 1)
      else if byte =? 0xf4 then Some (MkUtf8Validator F4 1)
      else None
  | Tail1 => if within 0x80 0xbf byte then Some (MkUtf8Validator Start 0) else None
  | Tail2 => if within 0x80 0xbf byte then Some (MkUtf8Validator Tail1 more) else None
  | Tail3 => if within 0x80 0xbf byte then Some (MkUtf8Validator Tail2 more) else None
  | E0 => if within 0xa0 0xbf byte then Some (MkUtf8Validator Tail1 2) else None
  | Ed => if within 0x80 0x9f byte then Some (MkUtf8Validator Tail1 2) else None
  | F0 => if within 0x90 0xbf byte then Some (MkUtf8Validator Tail2 2) else None
  | F4 => if within 0x80 0x8f byte then Some (MkUtf8Validator Tail2 2) else None
  end.

(** The [while] loop of [feed] from [index] on; each turn takes an octet or more. *)
Fixpoint feed_loop (fuel : nat) (self : Utf8Validator) (index : nat) (input : bytes)
  : Utf8Validator * result Utf8Error unit :=
  match fuel, input !! index with
  | O, _ | _, None => (self, Ok tt)
  | S fuel, Some byte =>
      let ascii := if is_complete self then scan_ascii (drop index input) else O in
      if (0 <? ascii)%nat then feed_loop fuel self (index + ascii) input
      else
        match step self byte with
        | None => (self, Err (MkUtf8Error (index - seen self) (Some (Nat.max (seen self) 1))))
        | Some self => feed_loop fuel self (index + 1) input
        end
  end.

Definition feed (self : Utf8Validator) (input : bytes) : Utf8Validator * result Utf8Error unit :=
  feed_loop (length input) self 0 input.

Definition finish (self : Utf8Validator) (len : nat) : result Utf8Error unit :=
  if is_complete self then Ok tt else Err (MkUtf8Error (len - seen self) None).

Definition validate_utf8 (input : bytes) : result Utf8Error unit :=
  match feed new input with
  | (_, Err e) => Err e
  | (self, Ok _) => finish self (length input)
  end.

Example validate_kosme : validate_utf8 [0xce; 0xba; 0xcf; 0x8c; 0x41] = Ok tt.
Proof. reflexivity. Qed.
Example validate_surrogate : validate_utf8 [0x41; 0xed; 0xa0; 0x80] = Err (MkUtf8Error 1 (Some 1%nat)).
Proof. reflexivity. Qed.
Example validate_unfinished : validate_utf8 [0x41; 0xf0; 0x9f; 0x92] = Err (MkUtf8Error 1 None).
Proof. reflexivity. Qed.

(** ** The encoding of RFC 3629 Section 3 *)

Definition scalar (c : Z) : Prop := 0 <= c < 0xd800 \/ 0xe000 <= c <= 0x10ffff.

Definition encode_char (c : Z) : bytes :=
  if c <? 0x80 then [c]
  else if c <? 0x800 then [0xc0 + c / 64; 0x80 + c mod 64]
  else if c <? 0x10000 then [0xe0 + c / 4096; 0x80 + c / 64 mod 64; 0x80 + c mod 64]
  else [0xf0 + c / 262144; 0x80 + c / 4096 mod 64; 0x80 + c / 64 mod 64; 0x80 + c mod 64].

(** The octets of a text. *)
Definition utf8 (l : bytes) : Prop := exists cs, Forall scalar cs /\ l = mbind encode_char cs.

(** The syntax of Section 4, one sequence. *)
Definition lead3 (a b : Z) : bool :=
  ((a =? 0xe0) && within 0xa0 0xbf b) || (within 0xe1 0xec a && within 0x80 0xbf b)
  || ((a =? 0xed) && within 0x80 0x9f b) || (within 0xee 0xef a && within 0x80 0xbf b).
Definition lead4 (a b : Z) : bool :=
  ((a =? 0xf0) && within 0x90 0xbf b) || (within 0xf1 0xf3 a && within 0x80 0xbf b)
  || ((a =? 0xf4) && within 0x80 0x8f b).
Definition tail (b : Z) : bool := within 0x80 0xbf b.
Definition is_char (l : bytes) : bool :=
  match l with
  | [a] => within 0 0x7f a
  | [a; b] => within 0xc2 0xdf a && tail b
  | [a; b; c] => lead3 a b && tail c
  | [a; b; c; d] => lead4 a b && tail c && tail d
  | _ => false
  end.

Ltac ranges :=
  unfold lead3, lead4, tail, within in *;
  repeat match goal with
  | H : context [?a <=? ?b] |- _ => destruct (Z.leb_spec a b); cbn [andb orb] in H; try discriminate H
  | H : context [?a =? ?b] |- _ => destruct (Z.eqb_spec a b); cbn [andb orb] in H; try discriminate H
  end.

Lemma is_char_encode c : scalar c -> is_char (encode_char c) = true.
Proof.
  intros Hc. unfold encode_char, scalar in *.
  destruct (Z.ltb_spec c 0x80); [|destruct (Z.ltb_spec c 0x800); [|destruct (Z.ltb_spec c 0x10000)]];
    cbn [is_char]; unfold lead3, lead4, tail, within; Z.to_euclidean_division_equations; lia.
Qed.

Lemma is_char_decode l : is_char l = true -> exists c, scalar c /\ l = encode_char c.
Proof.
  destruct l as [|a [|b [|c [|d [|]]]]]; cbn [is_char]; try done; intros H.
  - exists a. unfold scalar, encode_char. ranges. bool_lia. split; [lia | done].
  - exists ((a - 0xc0) * 64 + (b - 0x80)). unfold scalar, encode_char. ranges.
    bool_lia. split; [lia|]. repeat f_equal; Z.to_euclidean_division_equations; lia.
  - exists ((a - 0xe0) * 4096 + (b - 0x80) * 64 + (c - 0x80)). unfold scalar, encode_char.
    assert (lead3 a b = true /\ tail c = true) as [Hl Ht] by (destruct (lead3 a b), (tail c); done).
    clear H. unfold lead3, tail, within in *.
    assert (0x800 <= (a - 0xe0) * 4096 + (b - 0x80) * 64 + (c - 0x80) < 0x10000) by lia.
    bool_lia. split; [lia|]. repeat f_equal; Z.to_euclidean_division_equations; lia.
  - exists ((a - 0xf0) * 262144 + (b - 0x80) * 4096 + (c - 0x80) * 64 + (d - 0x80)).
    unfold scalar, encode_char, lead4, tail, within in *.
    assert (0x10000 <= (a - 0xf0) * 262144 + (b - 0x80) * 4096 + (c - 0x80) * 64 + (d - 0x80) <= 0x10ffff)
      by lia.
    bool_lia. split; [lia|]. repeat f_equal; Z.to_euclidean_division_equations; lia.
Qed.

(** ** The state machine without the ASCII shortcut *)

Fixpoint steps (self : Utf8Validator) (l : bytes) : option Utf8Validator :=
  match l with
  | [] => Some self
  | b :: l => let! self := step self b in steps self l
  end.

Lemma steps_app l m : forall self,
  steps self (l ++ m) = (let! self := steps self l in steps self m).
Proof.
  induction l as [|b l IH]; intros self; cbn [steps app]; [done|].
  destruct (step self b); [apply IH | done].
Qed.

Lemma ascii_steps l : Forall (fun b => within 0 0x7f b = true) l -> steps new l = Some new.
Proof.
  induction 1 as [|b l Hb _ IH]; cbn [steps]; [done|]. unfold step. cbn. by rewrite Hb.
Qed.

(** What [feed] answers: the octets are stepped over one by one, and the first that
    has no step is the error. *)
Definition refused (index : nat) (self : Utf8Validator) : Utf8Error :=
  MkUtf8Error (index - seen self) (Some (Nat.max (seen self) 1)).

Fixpoint feed_plain (self : Utf8Validator) (index : nat) (l : bytes)
  : Utf8Validator * result Utf8Error unit :=
  match l with
  | [] => (self, Ok tt)
  | b :: l =>
      match step self b with
      | None => (self, Err (refused index self))
      | Some self => feed_plain self (index + 1) l
      end
  end.

Lemma feed_plain_app l m : forall self index self',
  steps self l = Some self' ->
  feed_plain self index (l ++ m) = feed_plain self' (index + length l) m.
Proof.
  induction l as [|b l IH]; intros self index self'; cbn [steps app feed_plain length].
  - intros [= ->]. by rewrite Nat.add_0_r.
  - destruct (step self b) as [s|]; [|done]. intros H. rewrite (IH _ _ _ H). f_equal. lia.
Qed.

Lemma feed_plain_spec l : forall self index,
  match feed_plain self index l with
  | (self', Ok _) => steps self l = Some self'
  | (self', Err e) => exists i b, l !! i = Some b /\ steps self (take i l) = Some self' /\
      step self' b = None /\ e = refused (index + i) self'
  end.
Proof.
  induction l as [|b l IH]; intros self index; cbn [feed_plain steps]; [done|].
  destruct (step self b) as [s|] eqn:Hs.
  - specialize (IH s (index + 1)%nat). destruct (feed_plain s (index + 1) l) as [s' [[]|e]]; [done|].
    destruct IH as (i & b' & Hb & Ht & Hn & ->). exists (S i), b'. cbn. rewrite Hs.
    repeat split; [done..|]. f_equal. lia.
  - exists 0%nat, b. cbn. rewrite Nat.add_0_r. done.
Qed.

(** In [Start] nothing is seen. *)
Definition wf (self : Utf8Validator) : Prop := state self = Start -> seen self = 0%nat.

Lemma step_wf self b self' : wf self -> step self b = Some self' -> wf self'.
Proof.
  intros Hwf. unfold step, wf in *. destruct (state self);
    repeat (match goal with |- context [if ?c then _ else _] => destruct c end);
    by intros [= <-].
Qed.

Lemma feed_loop_plain fuel : forall self index input,
  octets input -> wf self -> (length input - index <= fuel)%nat ->
  feed_loop fuel self index input = feed_plain self index (drop index input).
Proof.
  induction fuel as [|fuel IH]; intros self index input Ho Hwf Hf.
  { cbn [feed_loop]. rewrite drop_ge by lia. by destruct (input !! index). }
  cbn [feed_loop]. destruct (input !! index) as [b|] eqn:Hb.
  2: { apply lookup_ge_None in Hb. by rewrite drop_ge. }
  pose proof (lookup_lt_Some _ _ _ Hb) as Hlt.
  destruct (Nat.ltb_spec 0 (if is_complete self then scan_ascii (drop index input) else 0)) as [H0|H0].
  - unfold is_complete in H0 |- *. case_bool_decide as Hs; [|lia].
    assert (self = new) as -> by (destruct self as [s k]; unfold wf in Hwf; cbn in *; subst; by rewrite Hwf).
    clear Hs. rewrite IH by (done || lia).
    pose proof (scan_le (drop index input) (fun byte => byte <? 0x80)) as Hle.
    fold (scan_ascii (drop index input)) in Hle.
    rewrite <- (take_drop (scan_ascii (drop index input)) (drop index input)) at 3.
    rewrite drop_drop, (feed_plain_app _ _ _ _ new).
    + rewrite length_take. f_equal. lia.
    + apply ascii_steps. apply Forall_forall. intros x Hx.
      pose proof (scan_take (drop index input) (fun byte => byte <? 0x80)) as Hall.
      rewrite Forall_forall in Hall. specialize (Hall _ Hx). cbn in Hall.
      apply elem_of_take in Hx as (i & Hi & _). rewrite lookup_drop in Hi.
      rewrite Forall_lookup in Ho. specialize (Ho _ _ Hi). unfold within, word in *. lia.
  - rewrite (drop_S _ _ _ Hb). cbn [feed_plain]. destruct (step self b) as [s|] eqn:Hs; [|done].
    rewrite IH by (done || lia || by eapply step_wf). by rewrite Nat.add_1_r.
Qed.

Lemma feed_plain_eq self input : octets input -> wf self -> feed self input = feed_plain self 0 input.
Proof. intros Ho Hwf. unfold feed. by rewrite feed_loop_plain by (done || lia). Qed.

(** ** What the states mean *)

(** The octets of a sequence that lead to a state. *)
Definition partial (s : State) (p : bytes) : bool :=
  match s, p with
  | Start, [] => true
  | Tail1, [a] => within 0xc2 0xdf a
  | Tail1, [a; b] => lead3 a b
  | Tail1, [a; b; c] => lead4 a b && tail c
  | Tail2, [a] => within 0xe1 0xec a || within 0xee 0xef a
  | Tail2, [a; b] => lead4 a b
  | Tail3, [a] => within 0xf1 0xf3 a
  | E0, [a] => a =? 0xe0
  | Ed, [a] => a =? 0xed
  | F0, [a] => a =? 0xf0
  | F4, [a] => a =? 0xf4
  | _, _ => false
  end.

Definition inside (self : Utf8Validator) (p : bytes) : Prop :=
  partial (state self) p = true /\ seen self = length p.

Lemma step_inside self p b self' :
  inside self p -> step self b = Some self' ->
  (is_char (p ++ [b]) = true /\ self' = new) \/ inside self' (p ++ [b]).
Proof.
  intros [Hp Hn] Hs. destruct self as [s k]. unfold inside. cbn [state seen] in *. subst k.
  destruct s, p as [|x [|y [|z [|]]]]; cbn [partial] in Hp; try discriminate Hp; unfold step in Hs;
    cbn [state seen length] in Hs;
    repeat match type of Hs with
    | context [if ?c then _ else _] => destruct c eqn:?
    end; try discriminate Hs; injection Hs as <-; cbn [app is_char partial state seen length Nat.add];
    (left; split; [|reflexivity]; unfold lead3, lead4, tail, within in *; lia)
    || (right; split; [unfold lead3, lead4, tail, within in *; lia | reflexivity]).
Qed.

Lemma utf8_nil : utf8 [].
Proof. by exists []. Qed.

Lemma utf8_app l m : utf8 l -> utf8 m -> utf8 (l ++ m).
Proof.
  intros (cs & Hcs & ->) (ds & Hds & ->). exists (cs ++ ds).
  split; [by apply Forall_app | by rewrite bind_app].
Qed.

Lemma utf8_char l : is_char l = true -> utf8 l.
Proof.
  intros (c & Hc & ->)%is_char_decode. exists [c]. split; [by constructor|]. cbn. by rewrite app_nil_r.
Qed.

Lemma steps_inside l : forall whole p self self',
  utf8 whole -> inside self p -> steps self l = Some self' ->
  exists whole' p', utf8 whole' /\ inside self' p' /\ whole ++ p ++ l = whole' ++ p'.
Proof.
  induction l as [|b l IH]; intros whole p self self' Hw Hp; cbn [steps].
  - intros [= <-]. exists whole, p. by rewrite app_nil_r.
  - destruct (step self b) as [s|] eqn:Hs; [|done]. intros Hl.
    destruct (step_inside _ _ _ _ Hp Hs) as [[Hc ->]|Hin].
    + destruct (IH (whole ++ p ++ [b]) [] new self') as (w & q & ? & ? & Heq); [| done | done |].
      { apply utf8_app; [done|]. by apply utf8_char. }
      exists w, q. split; [done|]. split; [done|]. rewrite <- Heq.
      cbn [app]. by rewrite <- !app_assoc.
    + destruct (IH whole (p ++ [b]) s self') as (w & q & ? & ? & Heq); [done..|].
      exists w, q. split; [done|]. split; [done|]. rewrite <- Heq. by rewrite <- app_assoc.
Qed.

Lemma new_inside : inside new [].
Proof. done. Qed.

Lemma steps_new l self :
  steps new l = Some self ->
  exists whole p, l = whole ++ p /\ utf8 whole /\ inside self p.
Proof.
  intros H. destruct (steps_inside l [] [] new self utf8_nil new_inside H) as (w & p & ? & ? & Heq).
  by exists w, p.
Qed.

(** A sequence of the syntax is stepped over. *)
Lemma char_steps l : is_char l = true -> steps new l = Some new.
Proof.
  destruct l as [|a [|b [|c [|d [|]]]]]; cbn [is_char]; try done; intros H;
    unfold steps, step, new; cbn [state seen Nat.add].
  - by rewrite H.
  - apply andb_prop in H as [Ha Hb]. rewrite Ha. unfold tail in Hb.
    replace (within 0 0x7f a) with false by (unfold within in *; lia). cbn [state]. by rewrite Hb.
  - apply andb_prop in H as [Hl Hc]. unfold tail in Hc.
    replace (within 0 0x7f a) with false by (unfold lead3, within in *; lia).
    replace (within 0xc2 0xdf a) with false by (unfold lead3, within in *; lia).
    unfold lead3 in Hl.
    destruct (a =? 0xe0) eqn:H0; [|destruct (within 0xe1 0xec a || within 0xee 0xef a) eqn:H1;
      [|destruct (a =? 0xed) eqn:H2]]; cbn [state seen].
    + replace (within 0xa0 0xbf b) with true by (unfold within in *; lia). cbn [state]. by rewrite Hc.
    + replace (within 0x80 0xbf b) with true by (unfold within in *; lia). cbn [state]. by rewrite Hc.
    + replace (within 0x80 0x9f b) with true by (unfold within in *; lia). cbn [state]. by rewrite Hc.
    + exfalso. unfold within in *. lia.
  - apply andb_prop in H as [[Hl Hc]%andb_prop Hd]. unfold tail in Hc, Hd. unfold lead4 in Hl.
    replace (within 0 0x7f a) with false by (unfold within in *; lia).
    replace (within 0xc2 0xdf a) with false by (unfold within in *; lia).
    replace (a =? 0xe0) with false by (unfold within in *; lia).
    replace (within 0xe1 0xec a || within 0xee 0xef a) with false by (unfold within in *; lia).
    replace (a =? 0xed) with false by (unfold within in *; lia).
    destruct (a =? 0xf0) eqn:H0; [|destruct (within 0xf1 0xf3 a) eqn:H1; [|destruct (a =? 0xf4) eqn:H2]];
      cbn [state seen].
    + replace (within 0x90 0xbf b) with true by (unfold within in *; lia). cbn [state].
      rewrite Hc. cbn [state]. by rewrite Hd.
    + replace (within 0x80 0xbf b) with true by (unfold within in *; lia). cbn [state].
      rewrite Hc. cbn [state]. by rewrite Hd.
    + replace (within 0x80 0x8f b) with true by (unfold within in *; lia). cbn [state].
      rewrite Hc. cbn [state]. by rewrite Hd.
    + exfalso. unfold within in *. lia.
Qed.

Lemma utf8_steps l : utf8 l -> steps new l = Some new.
Proof.
  intros (cs & Hcs & ->). induction Hcs as [|c cs Hc _ IH]; [done|]. cbn [mbind list_bind].
  by rewrite steps_app, char_steps by by apply is_char_encode.
Qed.

(** A sequence in progress can be finished. *)
Lemma inside_completes self p :
  inside self p -> exists q, utf8 (p ++ q).
Proof.
  intros [Hp _]. assert (exists q, is_char (p ++ q) = true \/ p ++ q = []) as (q & [Hq|Hq]).
  { destruct (state self), p as [|x [|y [|z [|]]]]; cbn [partial] in Hp; try discriminate Hp.
    - exists []. by right.
    - exists [0x80]. left. cbn [app is_char]. by rewrite Hp.
    - exists [0x80]. left. cbn [app is_char]. by rewrite Hp.
    - exists [0x80]. left. cbn [app is_char]. by rewrite Hp.
    - exists [0x80; 0x80]. left. cbn [app is_char]. unfold lead3, tail, within in *. lia.
    - exists [0x80; 0x80]. left. cbn [app is_char]. by rewrite Hp.
    - exists [0x80; 0x80; 0x80]. left. cbn [app is_char]. unfold lead4, tail, within in *. lia.
    - exists [0xa0; 0x80]. left. cbn [app is_char]. unfold lead3, tail, within in *. lia.
    - exists [0x80; 0x80]. left. cbn [app is_char]. unfold lead3, tail, within in *. lia.
    - exists [0x90; 0x80; 0x80]. left. cbn [app is_char]. unfold lead4, tail, within in *. lia.
    - exists [0x80; 0x80; 0x80]. left. cbn [app is_char]. unfold lead4, tail, within in *. lia. }
  - exists q. by apply utf8_char.
  - exists q. rewrite Hq. apply utf8_nil.
Qed.

Lemma inside_complete self p : inside self p -> is_complete self = true -> p = [].
Proof.
  intros [Hp _] Hc. unfold is_complete in Hc. case_bool_decide as Hs; [|done]. rewrite Hs in Hp.
  by destruct p.
Qed.

(** No whole sequence begins a sequence in progress. *)
Lemma inside_no_char self p ch rest : inside self p -> is_char ch = true -> p <> ch ++ rest.
Proof.
  intros [Hp _] Hc ->.
  destruct ch as [|a [|b [|c [|d [|]]]]]; cbn [is_char] in Hc; try discriminate Hc;
    destruct (state self); cbn [app partial] in Hp; destruct rest as [|x [|y [|z rest]]];
    try discriminate Hp; unfold lead3, lead4, tail, within in *; lia.
Qed.

Lemma utf8_cons l : utf8 l -> l = [] \/ exists ch rest, is_char ch = true /\ l = ch ++ rest.
Proof.
  intros ([|c cs] & Hcs & ->); [by left|]. right. apply Forall_cons in Hcs as [Hc _].
  exists (encode_char c), (mbind encode_char cs). split; [by apply is_char_encode | done].
Qed.

Lemma inside_prefix whole p self k :
  utf8 whole -> inside self p -> utf8 (take k (whole ++ p)) -> (k <= length whole)%nat \/ p = [].
Proof.
  intros Hw Hp Hk. destruct (Nat.le_gt_cases k (length whole)); [by left|]. right.
  rewrite take_app_ge in Hk by lia. apply utf8_steps in Hk.
  rewrite steps_app, utf8_steps in Hk by done.
  destruct (steps_new _ _ Hk) as (w & q & Heq & Hwq & Hq).
  apply inside_complete in Hq as ->; [|done]. rewrite app_nil_r in Heq. subst w.
  destruct (utf8_cons _ Hwq) as [Hnil|(ch & rest & Hc & Heq)].
  - destruct p as [|x p]; [done|]. destruct (k - length whole)%nat eqn:E; [lia | done].
  - exfalso. apply (inside_no_char self p ch (rest ++ drop (k - length whole) p) Hp Hc).
    by rewrite app_assoc, <- Heq, take_drop.
Qed.

(** C40. The validator accepts exactly the encodings of sequences of scalar values.
    On a refusal [valid_up_to] is the length of the longest prefix that is one; an
    [error_len] of [n] is the number of octets after it that could still have begun a
    character (one when none could), which the next octet or the first of them
    breaks; no [error_len] means that more octets could have completed the input. *)
Theorem validate_utf8_exact input :
  octets input ->
  match validate_utf8 input with
  | Ok _ => utf8 input
  | Err (MkUtf8Error v n) =>
      utf8 (take v input) /\ (v < length input)%nat /\
      (forall k, (v < k <= length input)%nat -> ~ utf8 (take k input)) /\
      match n with
      | None => exists more, utf8 (input ++ more)
      | Some n => (1 <= n)%nat /\ (v + n <= length input)%nat /\
          (n = 1%nat \/ exists more, utf8 (take (v + n) input ++ more)) /\
          forall more, ~ utf8 (take (v + n + 1) input ++ more)
      end
  end.
Proof.
  intros Ho. unfold validate_utf8. rewrite feed_plain_eq by done.
  pose proof (feed_plain_spec input new 0) as H. destruct (feed_plain new 0 input) as [s [[]|e]].
  - destruct (steps_new _ _ H) as (w & p & -> & Hw & Hp). unfold finish.
    destruct (is_complete s) eqn:Hc.
    { apply (inside_complete _ _ Hp) in Hc as ->. by rewrite app_nil_r. }
    pose proof Hp as [_ ->]. rewrite length_app. replace (_ - _)%nat with (length w) by lia.
    assert (p <> []) as Hne.
    { intros ->. destruct Hp as [Hp _]. unfold is_complete in Hc. by destruct (state s). }
    assert (0 < length p)%nat by (destruct p; [done | cbn; lia]).
    rewrite take_app_length. split; [done|]. split; [lia|]. split.
    + intros k Hk Hu. destruct (inside_prefix _ _ _ _ Hw Hp Hu) as [?|?]; [lia | done].
    + destruct (inside_completes _ _ Hp) as [q Hq]. exists q. rewrite <- app_assoc. by apply utf8_app.
  - destruct H as (i & b & Hb & Ht & Hs & ->). cbn [Nat.add].
    destruct (steps_new _ _ Ht) as (w & p & Heq & Hw & Hp). unfold refused.
    pose proof (lookup_lt_Some _ _ _ Hb) as Hi. pose proof Hp as [_ ->].
    assert (i = length w + length p)%nat as Hil.
    { rewrite <- length_app, <- Heq, length_take. lia. }
    assert (forall m, take (length w + m) (w ++ p) = w ++ take m p) as Hwm.
    { intros m. rewrite take_app_ge by lia. do 2 f_equal. lia. }
    assert (forall k more, (i < k)%nat -> ~ utf8 (take k input ++ more)) as Hstuck.
    { intros k more Hk Hu%utf8_steps. rewrite <- (take_drop i input) in Hu.
      rewrite (drop_S _ _ _ Hb), take_app_ge in Hu by (rewrite length_take; lia).
      rewrite length_take, Nat.min_l in Hu by lia.
      destruct (k - i)%nat eqn:E; [lia|]. cbn [take] in Hu.
      rewrite <- app_assoc, steps_app, Ht in Hu. cbn [app steps] in Hu. by rewrite Hs in Hu. }
    replace (i - length p)%nat with (length w) by lia.
    assert (forall k, (k <= i)%nat -> take k input = take k (w ++ p)) as Hin.
    { intros k Hk. rewrite <- Heq, take_take. f_equal. lia. }
    rewrite (Hin (length w)), take_app_length by lia. repeat split; [done | lia | | lia | lia | | ].
    + intros k Hk Hu. destruct (Nat.le_gt_cases k i) as [Hki|Hki].
      * rewrite (Hin k) in Hu by done. destruct (inside_prefix _ _ _ _ Hw Hp Hu) as [?|Hnil]; [lia|].
        subst p. cbn in Hil. lia.
      * apply (Hstuck k []); [lia|]. by rewrite app_nil_r.
    + destruct p as [|x p]; [by left|]. right. rewrite (Hin _) by (cbn [length] in *; lia).
      rewrite Nat.max_l by (cbn [length]; lia).
      destruct (inside_completes _ _ Hp) as [q Hq]. exists q.
      rewrite take_ge by (rewrite length_app; lia). rewrite <- app_assoc. by apply utf8_app.
    + intros more. apply Hstuck. lia.
Qed.

Lemma validate_utf8_exact_witness :
  match validate_utf8 [0x41; 0xed; 0xa0; 0x80] with
  | Ok _ => utf8 [0x41; 0xed; 0xa0; 0x80]
  | Err (MkUtf8Error v n) =>
      utf8 (take v [0x41; 0xed; 0xa0; 0x80]) /\ (v < length [0x41; 0xed; 0xa0; 0x80])%nat /\
      (forall k, (v < k <= length [0x41; 0xed; 0xa0; 0x80])%nat -> ~ utf8 (take k [0x41; 0xed; 0xa0; 0x80])) /\
      match n with
      | None => exists more, utf8 ([0x41; 0xed; 0xa0; 0x80] ++ more)
      | Some n => (1 <= n)%nat /\ (v + n <= length [0x41; 0xed; 0xa0; 0x80])%nat /\
          (n = 1%nat \/ exists more, utf8 (take (v + n) [0x41; 0xed; 0xa0; 0x80] ++ more)) /\
          forall more, ~ utf8 (take (v + n + 1) [0x41; 0xed; 0xa0; 0x80] ++ more)
      end
  end.
Proof. apply validate_utf8_exact. apply (bool_decide_unpack _). vm_compute. exact I. Defined.

(** ** Fragments *)

(** Feed fragments until one is refused; the refusal with the octets before it. *)
Fixpoint feed_all (self : Utf8Validator) (before : nat) (fragments : list bytes)
  : Utf8Validator * result (nat * Utf8Error) unit :=
  match fragments with
  | [] => (self, Ok tt)
  | fragment :: fragments =>
      match feed self fragment with
      | (self, Ok _) => feed_all self (before + length fragment) fragments
      | (self, Err e) => (self, Err (before, e))
      end
  end.

Lemma steps_wf l : forall self self', wf self -> steps self l = Some self' -> wf self'.
Proof.
  induction l as [|b l IH]; intros self self' Hw; cbn [steps]; [by intros [= <-]|].
  destruct (step self b) as [s|] eqn:Hs; [|done]. apply IH. by eapply step_wf.
Qed.

Lemma feed_plain_shift l : forall self index before,
  match feed_plain self (before + index) l, feed_plain self index l with
  | (s, Ok _), (s', Ok _) => s = s'
  | (s, Err e), (s', Err e') =>
      s = s' /\ error_len e' = error_len e /\ (valid_up_to e' = valid_up_to e - before)%nat
  | _, _ => False
  end.
Proof.
  induction l as [|b l IH]; intros self index before; cbn [feed_plain]; [done|].
  destruct (step self b) as [s|].
  - specialize (IH s (index + 1)%nat before). by rewrite Nat.add_assoc in IH.
  - unfold refused. cbn. repeat split. lia.
Qed.

Lemma feed_plain_ok l m : forall self index self',
  feed_plain self index l = (self', Ok tt) ->
  feed_plain self index (l ++ m) = feed_plain self' (index + length l) m.
Proof.
  intros self index self' H. apply feed_plain_app.
  pose proof (feed_plain_spec l self index) as Hs. by rewrite H in Hs.
Qed.

Lemma feed_plain_err l m : forall self index self' e,
  feed_plain self index l = (self', Err e) -> feed_plain self index (l ++ m) = (self', Err e).
Proof.
  induction l as [|b l IH]; intros self index self' e; cbn [feed_plain app]; [done|].
  destruct (step self b); [apply IH | done].
Qed.

Lemma feed_all_plain fragments : forall self before,
  Forall octets fragments -> wf self ->
  match feed_all self before fragments, feed_plain self before (concat fragments) with
  | (s, Ok _), (s', Ok _) => s = s'
  | (s, Err (offset, e)), (s', Err e') =>
      s = s' /\ error_len e = error_len e' /\ (valid_up_to e = valid_up_to e' - offset)%nat
  | _, _ => False
  end.
Proof.
  induction fragments as [|f fs IH]; intros self before Ho Hw; cbn [feed_all concat]; [done|].
  apply Forall_cons in Ho as [Hf Ho]. rewrite (feed_plain_eq self f Hf Hw).
  pose proof (feed_plain_shift f self 0 before) as Hshift. rewrite Nat.add_0_r in Hshift.
  destruct (feed_plain self 0 f) as [s [[]|e]], (feed_plain self before f) as [s' [[]|e']] eqn:Hb;
    try done.
  - subst s'. rewrite (feed_plain_ok _ _ _ _ _ Hb). apply IH; [done|].
    pose proof (feed_plain_spec f self before) as Hs. rewrite Hb in Hs. by eapply steps_wf.
  - rewrite (feed_plain_err _ _ _ _ _ _ Hb). by destruct Hshift as (-> & ? & ?).
Qed.

(** A text cut into fragments anywhere is validated as it would be whole: the
    same verdict and the same state after it; a refusal has the same length, and the
    position of the sequence within its fragment, zero when it began in an earlier
    one. *)
Theorem utf8_fragments fragments :
  Forall octets fragments ->
  match feed_all new 0 fragments, feed new (concat fragments) with
  | (s, Ok _), (s', Ok _) => s = s' /\ (is_complete s = true <-> utf8 (concat fragments))
  | (s, Err (offset, e)), (s', Err e') =>
      s = s' /\ error_len e = error_len e' /\ (valid_up_to e = valid_up_to e' - offset)%nat
  | _, _ => False
  end.
Proof.
  intros Ho. assert (octets (concat fragments)) as Hc by by apply Forall_concat.
  rewrite (feed_plain_eq new (concat fragments)) by done.
  pose proof (feed_all_plain fragments new 0 Ho ltac:(done)) as H.
  pose proof (feed_plain_spec (concat fragments) new 0) as Hs.
  destruct (feed_all new 0 fragments) as [s [[]|[offset e]]],
    (feed_plain new 0 (concat fragments)) as [s' [[]|e']]; [|done..]. subst s'. split; [done|].
  destruct (steps_new _ _ Hs) as (w & p & Heq & Hw & Hp). split.
  - intros Hcomplete. rewrite Heq, (inside_complete _ _ Hp Hcomplete). by rewrite app_nil_r.
  - intros Hu%utf8_steps. rewrite Hs in Hu. by injection Hu as ->.
Qed.

Lemma utf8_fragments_witness :
  match feed_all new 0 [[0x41; 0xce]; [0xba; 0xf1]; [0x80; 0x80; 0x41]],
    feed new (concat [[0x41; 0xce]; [0xba; 0xf1]; [0x80; 0x80; 0x41]]) with
  | (s, Ok _), (s', Ok _) => s = s' /\
      (is_complete s = true <-> utf8 (concat [[0x41; 0xce]; [0xba; 0xf1]; [0x80; 0x80; 0x41]]))
  | (s, Err (offset, e)), (s', Err e') =>
      s = s' /\ error_len e = error_len e' /\ (valid_up_to e = valid_up_to e' - offset)%nat
  | _, _ => False
  end.
Proof. apply utf8_fragments. apply (bool_decide_unpack _). vm_compute. exact I. Defined.

(** ** The standard library's check

    [core::str::from_utf8] accepts the encodings of RFC 3629; the validator decides
    that, so it stands for it. *)
Definition from_utf8 (input : bytes) : bool := is_ok (validate_utf8 input).

(** A step that takes every octet below 0x80 as the ASCII shortcut does; on octets it
    is [step]. *)
Definition step_any (self : Utf8Validator) (byte : Z) : option Utf8Validator :=
  if is_complete self && (byte <? 0x80) then Some self else step self byte.

Fixpoint steps_any (self : Utf8Validator) (l : bytes) : option Utf8Validator :=
  match l with
  | [] => Some self
  | b :: l => let! self := step_any self b in steps_any self l
  end.

Lemma steps_any_app l m : forall self,
  steps_any self (l ++ m) = (let! self := steps_any self l in steps_any self m).
Proof.
  induction l as [|b l IH]; intros self; cbn [steps_any app]; [done|].
  destruct (step_any self b); [apply IH | done].
Qed.

Lemma ascii_steps_any l self :
  is_complete self = true -> Forall (fun b => (b <? 0x80) = true) l -> steps_any self l = Some self.
Proof.
  intros Hc. induction 1 as [|b l Hb _ IH]; [done|]. cbn [steps_any]. unfold step_any. by rewrite Hc, Hb.
Qed.

(** [feed] on any input, by steps. *)
Lemma feed_loop_any fuel : forall self index input,
  (length input - index <= fuel)%nat ->
  match feed_loop fuel self index input with
  | (self', Ok _) => steps_any self (drop index input) = Some self'
  | (_, Err _) => steps_any self (drop index input) = None
  end.
Proof.
  induction fuel as [|fuel IH]; intros self index input Hf.
  { cbn [feed_loop]. rewrite drop_ge by lia. by destruct (input !! index). }
  cbn [feed_loop]. destruct (input !! index) as [b|] eqn:Hb.
  2: { apply lookup_ge_None in Hb. by rewrite drop_ge. }
  pose proof (lookup_lt_Some _ _ _ Hb) as Hlt. pose proof (drop_S _ _ _ Hb) as Hd.
  destruct (Nat.ltb_spec 0 (if is_complete self then scan_ascii (drop index input) else 0)) as [H0|H0].
  - destruct (is_complete self) eqn:Hc; [|lia].
    assert (steps_any self (drop index input)
      = steps_any self (drop (index + scan_ascii (drop index input)) input)) as ->; [|apply IH; lia].
    rewrite <- (take_drop (scan_ascii (drop index input)) (drop index input)) at 1.
    rewrite steps_any_app, ascii_steps_any, drop_drop; [done..|]. apply (scan_take (drop index input)).
  - rewrite Hd. cbn [steps_any]. unfold step_any.
    assert (is_complete self && (b <? 0x80) = false) as ->.
    { destruct (is_complete self); [|done]. cbn. destruct (b <? 0x80) eqn:Ha; [|done].
      rewrite Hd in H0. unfold scan_ascii in H0. rewrite scan_cons, Ha in H0. lia. }
    destruct (step self b) as [s|] eqn:Hs; [|done]. replace (S index) with (index + 1)%nat by lia.
    apply IH. lia.
Qed.

Lemma feed_any self input :
  match feed self input with
  | (self', Ok _) => steps_any self input = Some self'
  | (_, Err _) => steps_any self input = None
  end.
Proof. apply (feed_loop_any (length input) self 0 input). lia. Qed.

Lemma from_utf8_steps input :
  from_utf8 input = match steps_any new input with Some self => is_complete self | None => false end.
Proof.
  unfold from_utf8, validate_utf8. pose proof (feed_any new input) as H.
  destruct (feed new input) as [s [[]|e]]; rewrite H; [|done]. unfold finish. by destruct (is_complete s).
Qed.

Lemma wf_complete self : wf self -> is_complete self = true -> self = new.
Proof. destruct self as [s k]. unfold wf, is_complete. cbn. intros H ->%bool_decide_eq_true. by rewrite H. Qed.

Lemma steps_any_octets l : forall self, octets l -> wf self -> steps_any self l = steps self l.
Proof.
  induction l as [|b l IH]; intros self Ho Hw; [done|]. apply Forall_cons in Ho as [Hb Ho].
  cbn [steps_any steps].
  assert (step_any self b = step self b) as ->.
  { unfold step_any. destruct (is_complete self) eqn:Hc; [|done]. apply wf_complete in Hc as ->; [|done].
    cbn. unfold word in Hb. destruct (Z.ltb_spec b 0x80); [|done].
    unfold step. cbn. by replace (within 0 0x7f b) with true by (unfold within; lia). }
  destruct (step self b) as [s|] eqn:Hs; [|done]. apply IH; [done|]. by eapply step_wf.
Qed.

Lemma from_utf8_spec input : octets input -> from_utf8 input = true <-> utf8 input.
Proof.
  intros Ho. rewrite from_utf8_steps, steps_any_octets by done. split.
  - destruct (steps new input) as [s|] eqn:Hs; [|done]. intros Hc.
    destruct (steps_new _ _ Hs) as (w & p & -> & Hw & Hp). apply inside_complete in Hp as ->; [|done].
    by rewrite app_nil_r.
  - by intros ->%utf8_steps.
Qed.
