(* ===== verification/Stream.v ===== *)
(** * Incremental parsers

    The codecs of the program read a prefix of a buffer that a peer may still be
    filling.  They answer an error, "more octets are needed", or a value and the
    octets it took.  This file states once what every such parser promises to the
    loop that calls it, and what a feed loop over such a parser may rely on. *)
From S2P Require Import Prelude.

Section parser.
Context {E A : Type}.
Implicit Types parse : bytes -> result E (option (A * nat)).

(** A verdict stands whatever octets arrive later, and a value takes at least
    one octet and no more than are there. *)
Class StreamParser parse : Prop := {
  stream_value input more a n :
    parse input = Ok (Some (a, n)) -> parse (input ++ more) = Ok (Some (a, n));
  stream_error input more e : parse input = Err e -> parse (input ++ more) = Err e;
  stream_used input a n :
    parse input = Ok (Some (a, n)) -> (0 < n <= length input)%nat;
}.

(** A parser that reports within [bound] octets. *)
Definition prompt parse (bound : nat) : Prop :=
  forall input, (bound <= length input)%nat -> parse input <> Ok None.

Section derived.
Context parse `{!StreamParser parse}.

Lemma stream_app input more r :
  parse input = r -> r <> Ok None -> parse (input ++ more) = r.
Proof.
  destruct r as [[[a n]|]|e]; intros H Hr; [by apply stream_value | done | by apply stream_error].
Qed.

(** Nothing is reported early: a parser that waits saw a proper prefix. *)
Lemma stream_pending input more :
  parse (input ++ more) = Ok None -> parse input = Ok None.
Proof.
  intros H. destruct (parse input) as [[[a n]|]|e] eqn:Hp; [|done|].
  - rewrite (stream_value _ more _ _ Hp) in H. done.
  - rewrite (stream_error _ more _ Hp) in H. done.
Qed.

(** The value depends only on the octets it took, when reading exactly those
    octets gives a value. *)
Lemma stream_tail input a n :
  parse input = Ok (Some (a, n)) -> (length (drop n input) < length input)%nat.
Proof. intros H%stream_used. rewrite length_drop. lia. Qed.
End derived.
End parser.

(** ** Parsers made of parsers

    The codecs of the program are written with [?] and [let .. else]; these lemmas
    follow that structure, so that a composed parser keeps the promise of its parts. *)

Lemma stream_map_err {E F A} (g : E -> F) (p : bytes -> result E (option (A * nat))) :
  StreamParser p -> StreamParser (fun input => map_err g (p input)).
Proof.
  intros Hp. split.
  - intros input more a n H. destruct (p input) as [r|] eqn:He; [|done]. injection H as ->.
    by rewrite (stream_value _ more _ _ He).
  - intros input more e H. destruct (p input) as [r|] eqn:He; [done|]. cbn in H.
    by rewrite (stream_error _ more _ He).
  - intros input a n H. destruct (p input) as [r|] eqn:He; [|done]. injection H as ->.
    by apply stream_used in He.
Qed.

Lemma stream_map {E A B} (g : A -> B) (p : bytes -> result E (option (A * nat))) :
  StreamParser p -> StreamParser (fun input => let?? (a, n) := p input in Ok (Some (g a, n))).
Proof.
  intros Hp. split.
  - intros input more a n H. destruct (p input) as [[[b m]|]|] eqn:He; [|done..].
    by rewrite (stream_value _ more _ _ He).
  - intros input more e H. destruct (p input) as [[[b m]|]|] eqn:He; [done..|].
    by rewrite (stream_error _ more _ He).
  - intros input a n H. destruct (p input) as [[[b m]|]|] eqn:He; [|done..].
    injection H as _ <-. by apply stream_used in He.
Qed.

(** One parser after another, on the octets the first one left. *)
Lemma stream_bind {E A B C} (f : A -> B -> C) (p : bytes -> result E (option (A * nat)))
    (q : A -> bytes -> result E (option (B * nat))) :
  StreamParser p -> (forall a, StreamParser (q a)) ->
  StreamParser (fun input =>
    let?? (a, n) := p input in
    let?? (b, m) := q a (drop n input) in
    Ok (Some (f a b, (n + m)%nat))).
Proof.
  intros Hp Hq. split.
  - intros input more c k H. destruct (p input) as [[[a n]|]|] eqn:He; [|done..].
    rewrite (stream_value _ more _ _ He). apply stream_used in He.
    rewrite drop_app_le by lia.
    destruct (q a (drop n input)) as [[[b m]|]|] eqn:Hb; [|done..].
    by rewrite (stream_value _ more _ _ Hb).
  - intros input more e H. destruct (p input) as [[[a n]|]|] eqn:He; [|done|].
    + rewrite (stream_value _ more _ _ He). apply stream_used in He.
      rewrite drop_app_le by lia.
      destruct (q a (drop n input)) as [[[b m]|]|] eqn:Hb; [done..|].
      by rewrite (stream_error _ more _ Hb).
    + by rewrite (stream_error _ more _ He).
  - intros input c k H. destruct (p input) as [[[a n]|]|] eqn:He; [|done..].
    apply stream_used in He. destruct (q a (drop n input)) as [[[b m]|]|] eqn:Hb; [|done..].
    apply stream_used in Hb. rewrite length_drop in Hb. injection H as _ <-. lia.
Qed.

(** A parser that looks at the first octet before it chooses. *)
Lemma stream_first {E A} (k : Z -> bytes -> result E (option (A * nat))) :
  (forall first, StreamParser (k first)) ->
  StreamParser (fun input =>
    match head input with None => Ok None | Some first => k first input end).
Proof.
  intros Hk. split; intros [|first input] more a; try done; cbn [head app].
  - intros n H. by apply (stream_value (parse := k first) (first :: input)).
  - intros H. by apply (stream_error (parse := k first) (first :: input)).
  - intros H. by apply (stream_used (parse := k first)) in H.
Qed.

(** A verdict on the parsed value: a check that may refuse it. *)
Lemma stream_check {E A B} (check : A -> result E B) (p : bytes -> result E (option (A * nat))) :
  StreamParser p ->
  StreamParser (fun input =>
    let?? (a, n) := p input in let? b := check a in Ok (Some (b, n))).
Proof.
  intros Hp. split.
  - intros input more b k H. destruct (p input) as [[[a n]|]|] eqn:He; [|done..].
    by rewrite (stream_value _ more _ _ He).
  - intros input more e H. destruct (p input) as [[[a n]|]|] eqn:He; [|done|].
    + by rewrite (stream_value _ more _ _ He).
    + by rewrite (stream_error _ more _ He).
  - intros input b k H. destruct (p input) as [[[a n]|]|] eqn:He; [|done..].
    apply stream_used in He. destruct (check a); [|done]. by injection H as _ <-.
Qed.

(** ** Draining a buffer

    [drain parse step s input] applies [step] to every complete item at the start
    of [input]: the state after the last one and the octets consumed, or the first
    error.  Each item takes an octet, so the length of the buffer is fuel enough. *)
Section drain.
Context {E A S : Type} (parse : bytes -> result E (option (A * nat))).
Context (step : S -> A -> result E S).

Fixpoint drain_fuel (fuel : nat) (s : S) (input : bytes) : result E (S * nat) :=
  match fuel with
  | O => Ok (s, 0%nat)
  | Datatypes.S fuel =>
      match parse input with
      | Err e => Err e
      | Ok None => Ok (s, 0%nat)
      | Ok (Some (a, n)) =>
          let? s := step s a in
          let? (s, m) := drain_fuel fuel s (drop n input) in
          Ok (s, (n + m)%nat)
      end
  end.

Lemma drain_fuel_step fuel s input :
  drain_fuel (Datatypes.S fuel) s input =
    match parse input with
    | Err e => Err e
    | Ok None => Ok (s, 0%nat)
    | Ok (Some (a, n)) =>
        let? s := step s a in
        let? (s, m) := drain_fuel fuel s (drop n input) in
        Ok (s, (n + m)%nat)
    end.
Proof. done. Qed.

Definition drain (s : S) (input : bytes) : result E (S * nat) :=
  drain_fuel (Datatypes.S (length input)) s input.

Context `{!StreamParser parse}.

Lemma drain_fuel_enough fuel fuel' s input :
  (length input < fuel)%nat -> (length input < fuel')%nat ->
  drain_fuel fuel s input = drain_fuel fuel' s input.
Proof.
  revert fuel' s input. induction fuel as [|fuel IH]; intros [|fuel'] s input Hf Hf'; try lia.
  simpl. destruct (parse input) as [[[a n]|]|e] eqn:Hp; [|done..].
  pose proof (stream_tail _ _ _ _ Hp).
  destruct (step s a); [|done]. rewrite (IH fuel') by lia. done.
Qed.

(** One item, then the rest of the buffer. *)
Lemma drain_cons s input a n :
  parse input = Ok (Some (a, n)) ->
  drain s input =
    (let? s := step s a in
     let? (s, m) := drain s (drop n input) in
     Ok (s, (n + m)%nat)).
Proof.
  intros Hp. unfold drain. rewrite drain_fuel_step, Hp. destruct (step s a); [|done].
  apply stream_used in Hp.
  by rewrite (drain_fuel_enough _ (Datatypes.S (length (drop n input)))) by (rewrite length_drop; lia).
Qed.

(** Feeding a buffer in two pieces, keeping what the first call left, is feeding
    it at once: chunk boundaries do not change what a peer is understood to say. *)
Lemma drain_app s first more s1 n1 :
  drain s first = Ok (s1, n1) ->
  drain s (first ++ more) =
    (let? (s2, n2) := drain s1 (drop n1 first ++ more) in Ok (s2, (n1 + n2)%nat)).
Proof.
  unfold drain. remember (Datatypes.S (length first)) as fuel eqn:Hfuel.
  assert (length first < fuel)%nat as Hlt by lia. clear Hfuel.
  revert s first s1 n1 Hlt. induction fuel as [|fuel IH]; intros s first s1 n1 Hlt; [lia|].
  intros H. cbn [drain_fuel] in H.
  destruct (parse first) as [[[a n]|]|e] eqn:Hp; [| |done].
  - pose proof (stream_used _ _ _ Hp) as Hn.
    rewrite drain_fuel_step, (stream_value _ more _ _ Hp).
    destruct (step s a) as [s'|e'] eqn:Hs; [|done].
    destruct (drain_fuel fuel s' (drop n first)) as [[s2 m]|] eqn:Hd; [|done].
    injection H as -> <-. rewrite drop_app_le by lia.
    rewrite (drain_fuel_enough _ (Datatypes.S (length (drop n first ++ more))))
      by (rewrite ?length_app, ?length_drop, ?length_app in *; lia).
    rewrite (IH s' (drop n first) s1 m); [| rewrite length_drop; lia | done].
    rewrite drop_drop. replace (m + n)%nat with (n + m)%nat by lia.
    destruct (drain_fuel _ s1 _) as [[s3 n3]|]; [|done]. do 2 f_equal. lia.
  - injection H as <- <-. rewrite drop_0.
    destruct (drain_fuel _ s (first ++ more)) as [[s3 n3]|]; done.
Qed.

(** An error found in the first piece is the error of the whole. *)
Lemma drain_app_error s first more e :
  drain s first = Err e -> drain s (first ++ more) = Err e.
Proof.
  unfold drain. remember (Datatypes.S (length first)) as fuel eqn:Hfuel.
  assert (length first < fuel)%nat as Hlt by lia. clear Hfuel.
  revert s first Hlt. induction fuel as [|fuel IH]; intros s first Hlt; [lia|].
  intros H. cbn [drain_fuel] in H. rewrite drain_fuel_step.
  destruct (parse first) as [[[a n]|]|e'] eqn:Hp; [|done|].
  - pose proof (stream_used _ _ _ Hp) as Hn.
    rewrite (stream_value _ more _ _ Hp). destruct (step s a) as [s'|e'] eqn:Hs; [|done].
    rewrite drop_app_le by lia.
    rewrite (drain_fuel_enough _ (Datatypes.S (length (drop n first ++ more))))
      by (rewrite ?length_app, ?length_drop, ?length_app in *; lia).
    rewrite IH; [done | rewrite length_drop; lia |].
    destruct (drain_fuel fuel s' (drop n first)) as [[? ?]|]; [done | congruence].
  - rewrite (stream_error _ more _ Hp). congruence.
Qed.

(** What is consumed is there. *)
Lemma drain_bound s input s' n : drain s input = Ok (s', n) -> (n <= length input)%nat.
Proof.
  unfold drain. generalize (Datatypes.S (length input)) as fuel. intros fuel.
  revert s input s' n. induction fuel as [|fuel IH]; intros s input s' n H;
    cbn [drain_fuel] in H; [by injection H as <- <-; lia|].
  destruct (parse input) as [[[a k]|]|e] eqn:Hp; [| by injection H as <- <-; lia | done].
  destruct (step s a) as [s1|]; [|done].
  destruct (drain_fuel fuel s1 (drop k input)) as [[s2 m]|] eqn:Hd; [|done].
  injection H as <- <-. apply IH in Hd. rewrite length_drop in Hd.
  pose proof (stream_used _ _ _ Hp). lia.
Qed.
End drain.
