(* ===== verification/Machine.v ===== *)
(** * Streaming decoders

    A streaming decoder holds a state and no octets: each call reads the front of
    the caller's buffer and answers that it needs more, an error, or events and the
    octets they took.  Some payloads are handed out in pieces, so where one call
    ends can depend on where the buffer ends.  This file states the promise such a
    decoder makes and what follows from it: the events, the errors and the final
    state do not depend on how the transport cut the octets. *)
From S2P Require Import Prelude.

Section machine.
Context {S Ev E : Type}.
Implicit Types step : S -> bytes -> result E (option (S * list Ev * nat)).

(** A step followed by what the next state makes of the rest of the buffer. *)
Definition resumed (s : S) (ev : list Ev) (n : nat) (next : result E (option (S * list Ev * nat)))
  : result E (option (S * list Ev * nat)) :=
  match next with
  | Ok (Some (s2, ev2, n2)) => Ok (Some (s2, ev ++ ev2, (n + n2)%nat))
  | Ok None => Ok (Some (s, ev, n))
  | Err e => Err e
  end.

(** [busy] is one in a state that can move on without an octet.  A step on a longer
    buffer either is the same, or is the same followed by the next one; and when a
    buffer is refused, a longer one is refused, or waits, or moves on to a state that
    refuses what is left. *)
Class Machine step (busy : S -> nat) : Prop := {
  machine_busy s : (busy s <= 1)%nat;
  machine_progress s input s' ev n :
    step s input = Ok (Some (s', ev, n)) ->
    (n <= length input)%nat /\ (busy s' < 2 * n + busy s)%nat;
  machine_refusal s input more e s' ev n :
    step s input = Err e -> step s (input ++ more) = Ok (Some (s', ev, n)) ->
    exists first rest e', drop n (input ++ more) = first ++ rest /\ step s' first = Err e';
  machine_split s input more s' ev n :
    step s input = Ok (Some (s', ev, n)) ->
    step s (input ++ more) = Ok (Some (s', ev, n)) \/
    step s (input ++ more) = resumed s' ev n (step s' (drop n input ++ more));
}.

(** A decoder whose errors do not depend on where the buffer ends. *)
Class FirmErrors step : Prop :=
  machine_error s input more e : step s input = Err e -> step s (input ++ more) = Err e.

Lemma firm_refusal step `{!FirmErrors step} s input more e r :
  step s input = Err e -> step s (input ++ more) <> Ok (Some r).
Proof. intros H. by rewrite (machine_error _ _ more _ H). Qed.

(** The step that took the whole buffer, and the next one on more octets. *)
Lemma split_exhausted step s s' (input more : bytes) ev n s2 ev2 n2 :
  n = length input -> step s' more = Ok (Some (s2, ev2, n2)) ->
  step s (input ++ more) = Ok (Some (s2, ev ++ ev2, (n + n2)%nat)) ->
  step s (input ++ more) = resumed s' ev n (step s' (drop n input ++ more)).
Proof. intros -> H2 ->. rewrite drop_all. cbn [app]. by rewrite H2. Qed.

Section run.
Context step (busy : S -> nat) `{!Machine step busy}.

(** Call the decoder until it needs more octets. *)
Fixpoint run_fuel (fuel : nat) (s : S) (input : bytes) : result E (S * list Ev * nat) :=
  match fuel with
  | O => Ok (s, [], 0%nat)
  | Datatypes.S fuel =>
      match step s input with
      | Err e => Err e
      | Ok None => Ok (s, [], 0%nat)
      | Ok (Some (s, ev, n)) =>
          let? (s, ev', m) := run_fuel fuel s (drop n input) in
          Ok (s, ev ++ ev', (n + m)%nat)
      end
  end.

Definition measure (s : S) (input : bytes) : nat := (2 * length input + busy s)%nat.

Definition run (s : S) (input : bytes) : result E (S * list Ev * nat) :=
  run_fuel (Datatypes.S (measure s input)) s input.

Lemma measure_step s input s' ev n :
  step s input = Ok (Some (s', ev, n)) -> (measure s' (drop n input) < measure s input)%nat.
Proof.
  intros H%machine_progress. unfold measure. rewrite length_drop. lia.
Qed.

Lemma run_fuel_enough fuel fuel' s input :
  (measure s input < fuel)%nat -> (measure s input < fuel')%nat ->
  run_fuel fuel s input = run_fuel fuel' s input.
Proof.
  revert fuel' s input. induction fuel as [|fuel IH]; intros [|fuel'] s input Hf Hf'; try lia.
  cbn [run_fuel]. destruct (step s input) as [[[[s' ev] n]|]|e] eqn:Hs; [|done..].
  pose proof (measure_step _ _ _ _ _ Hs). by rewrite (IH fuel') by lia.
Qed.

(** [run] as an equation: fuel is out of sight from here on. *)
Lemma run_step s input :
  run s input =
    match step s input with
    | Err e => Err e
    | Ok None => Ok (s, [], 0%nat)
    | Ok (Some (s, ev, n)) =>
        let? (s, ev', m) := run s (drop n input) in
        Ok (s, ev ++ ev', (n + m)%nat)
    end.
Proof.
  unfold run at 1. cbn [run_fuel]. destruct (step s input) as [[[[s' ev] n]|]|e] eqn:Hs; [|done..].
  pose proof (measure_step _ _ _ _ _ Hs) as Hm.
  by rewrite (run_fuel_enough _ (Datatypes.S (measure s' (drop n input)))) by lia.
Qed.

(** The octets consumed are there. *)
Lemma run_bound s input s' ev n : run s input = Ok (s', ev, n) -> (n <= length input)%nat.
Proof.
  remember (measure s input) as k eqn:Hk. revert s input s' ev n Hk.
  induction (lt_wf k) as [k _ IH]. intros s input s' ev n -> H. rewrite run_step in H.
  destruct (step s input) as [[[[s1 ev1] n1]|]|e] eqn:Hs; [| injection H as _ _ <-; lia | done].
  pose proof (measure_step _ _ _ _ _ Hs) as Hm. apply machine_progress in Hs as [Hn _].
  destruct (run s1 (drop n1 input)) as [[[s2 ev2] n2]|] eqn:Hr; [|done]. injection H as _ _ <-.
  apply (IH _ Hm _ _ _ _ _ eq_refl) in Hr. rewrite length_drop in Hr. lia.
Qed.

(** A step that is one step and then the next. *)
Lemma run_resumed s input s' ev n :
  step s input = resumed s' ev n (step s' (drop n input)) ->
  run s input = (let? (s2, ev2, m) := run s' (drop n input) in Ok (s2, ev ++ ev2, (n + m)%nat)).
Proof.
  intros Hs'. rewrite run_step, Hs', (run_step s' (drop n input)). unfold resumed.
  destruct (step s' (drop n input)) as [[[[s2 ev2] n2]|]|e] eqn:H2; [|by rewrite run_step, H2|done].
  rewrite <- drop_drop. destruct (run s2 _) as [[[s3 ev3] n3]|]; [|done].
  by rewrite app_assoc, Nat.add_assoc.
Qed.

(** One call, then the rest, on any continuation of the buffer. *)
Lemma run_split s input more s' ev n :
  step s input = Ok (Some (s', ev, n)) ->
  run s (input ++ more) =
    (let? (s2, ev2, m) := run s' (drop n input ++ more) in Ok (s2, ev ++ ev2, (n + m)%nat)).
Proof.
  intros Hs. pose proof (machine_progress _ _ _ _ _ Hs) as [Hn _].
  destruct (machine_split s input more s' ev n Hs) as [Hs'|Hs'].
  { by rewrite run_step, Hs', drop_app_le by done. }
  rewrite <- drop_app_le in Hs' |- * by done. by apply run_resumed.
Qed.

(** Feeding a buffer in two pieces, keeping what the first call left, is feeding it
    at once. *)
Lemma run_app s first more s1 ev1 n1 :
  run s first = Ok (s1, ev1, n1) ->
  run s (first ++ more) =
    (let? (s2, ev2, n2) := run s1 (drop n1 first ++ more) in Ok (s2, ev1 ++ ev2, (n1 + n2)%nat)).
Proof.
  remember (measure s first) as k eqn:Hk. revert s first s1 ev1 n1 Hk.
  induction (lt_wf k) as [k _ IH]. intros s first s1 ev1 n1 -> H. rewrite run_step in H.
  destruct (step s first) as [[[[s' ev] n]|]|e] eqn:Hs; [| |done].
  - pose proof (measure_step _ _ _ _ _ Hs) as Hm. rewrite (run_split _ _ _ _ _ _ Hs).
    destruct (run s' (drop n first)) as [[[s2 ev2] n2]|] eqn:Hr; [|done]. injection H as -> <- <-.
    rewrite (IH _ Hm _ _ _ _ _ eq_refl Hr). rewrite drop_drop.
    destruct (run s1 _) as [[[s3 ev3] n3]|]; [|done]. rewrite app_assoc. do 2 f_equal. lia.
  - injection H as <- <- <-. rewrite drop_0. destruct (run s _) as [[[s3 ev3] n3]|]; done.
Qed.

(** What holds of every step holds of a run. *)
Lemma run_ind (R : S -> list Ev -> S -> Prop) :
  (forall s, R s [] s) ->
  (forall s input s1 ev1 n s2 ev2, step s input = Ok (Some (s1, ev1, n)) ->
     R s1 ev2 s2 -> R s (ev1 ++ ev2) s2) ->
  forall s input s' ev n, run s input = Ok (s', ev, n) -> R s ev s'.
Proof.
  intros Hnil Hstep s input. remember (measure s input) as k eqn:Hk. revert s input Hk.
  induction (lt_wf k) as [k _ IH]. intros s input -> s' ev n H. rewrite run_step in H.
  destruct (step s input) as [[[[s1 ev1] n1]|]|e] eqn:Hs; [| injection H as <- <- _; apply Hnil | done].
  pose proof (measure_step _ _ _ _ _ Hs) as Hm.
  destruct (run s1 (drop n1 input)) as [[[s2 ev2] n2]|] eqn:Hr; [|done]. injection H as <- <- _.
  eapply Hstep; [done|]. by eapply (IH _ Hm _ _ eq_refl).
Qed.

(** ** A transport that delivers chunks

    The caller appends each chunk to what the decoder left and runs it. *)
Fixpoint deliver (s : S) (left : bytes) (chunks : list bytes) : result E (S * list Ev * bytes) :=
  match chunks with
  | [] => Ok (s, [], left)
  | chunk :: chunks =>
      let? (s, ev, n) := run s (left ++ chunk) in
      let? (s, ev', left) := deliver s (drop n (left ++ chunk)) chunks in
      Ok (s, ev ++ ev', left)
  end.

(** Nothing is left to do after a run: the decoder waits. *)
Lemma run_waiting s input s' ev n :
  run s input = Ok (s', ev, n) -> step s' (drop n input) = Ok None.
Proof.
  remember (measure s input) as k eqn:Hk. revert s input s' ev n Hk.
  induction (lt_wf k) as [k _ IH]. intros s input s' ev n -> H. rewrite run_step in H.
  destruct (step s input) as [[[[s1 ev1] n1]|]|e] eqn:Hs; [| |done].
  - pose proof (measure_step _ _ _ _ _ Hs) as Hm.
    destruct (run s1 (drop n1 input)) as [[[s2 ev2] n2]|] eqn:Hr; [|done]. injection H as -> <- <-.
    apply (IH _ Hm _ _ _ _ _ eq_refl) in Hr. by rewrite <- drop_drop.
  - injection H as <- <- <-. by rewrite drop_0.
Qed.

Lemma run_again s input s' ev n :
  run s input = Ok (s', ev, n) -> run s' (drop n input) = Ok (s', [], 0%nat).
Proof. intros H%run_waiting. by rewrite run_step, H. Qed.

(** A refused buffer is not one that is taken whole. *)
Lemma run_refused s first more e s' ev n :
  step s first = Err e -> run s (first ++ more) = Ok (s', ev, n) -> (n < length (first ++ more))%nat.
Proof.
  remember (measure s (first ++ more)) as k eqn:Hk. revert s first more e ev n Hk.
  induction (lt_wf k) as [k _ IH]. intros s first more e ev n -> Herr H. rewrite run_step in H.
  destruct (step s (first ++ more)) as [[[[s1 ev1] n1]|]|] eqn:Hs; [| |done].
  - pose proof (measure_step _ _ _ _ _ Hs) as Hm. pose proof (machine_progress _ _ _ _ _ Hs) as [Hn _].
    destruct (machine_refusal _ _ _ _ _ _ _ Herr Hs) as (first' & rest & e' & Hd & Herr').
    rewrite Hd in Hm, H. destruct (run s1 (first' ++ rest)) as [[[s2 ev2] n2]|] eqn:Hr; [|done].
    injection H as -> _ <-. specialize (IH _ Hm _ _ _ _ _ _ eq_refl Herr' Hr).
    apply (f_equal length) in Hd. rewrite length_drop in Hd. lia.
  - injection H as _ _ <-. destruct (first ++ more) as [|b l] eqn:Hnil; [|cbn; lia].
    apply app_eq_nil in Hnil as [-> ->]. congruence.
Qed.

Lemma run_app_refused s first more e s' ev n :
  run s first = Err e -> run s (first ++ more) = Ok (s', ev, n) -> (n < length (first ++ more))%nat.
Proof.
  remember (measure s first) as k eqn:Hk. revert s first ev n Hk.
  induction (lt_wf k) as [k _ IH]. intros s first ev n -> H. rewrite run_step in H.
  destruct (step s first) as [[[[s1 ev1] n1]|]|e'] eqn:Hs; [|done|by apply (run_refused _ _ _ _ _ _ _ Hs)].
  pose proof (measure_step _ _ _ _ _ Hs) as Hm. rewrite (run_split _ _ _ _ _ _ Hs).
  destruct (run s1 (drop n1 first)) as [[[s2 ev2] n2]|] eqn:Hr; [done|]. injection H as ->.
  destruct (run s1 (drop n1 first ++ more)) as [[[s3 ev3] n3]|] eqn:Hr'; [|done]. intros [= -> _ <-].
  specialize (IH _ Hm _ _ _ _ eq_refl Hr Hr').
  apply machine_progress in Hs as [Hn _]. rewrite length_app, length_drop in *. lia.
Qed.

(** Octets that are taken to the last one when they come at once are taken alike
    however they are cut. *)
Lemma deliver_complete s left chunks s' ev :
  run s left = Ok (s, [], 0%nat) ->
  run s (left ++ concat chunks) = Ok (s', ev, length (left ++ concat chunks)) ->
  deliver s left chunks = Ok (s', ev, []).
Proof.
  revert s left ev. induction chunks as [|chunk chunks IH]; intros s left ev Hleft; cbn [deliver concat].
  { rewrite app_nil_r, Hleft. intros [= -> <- Hl]. by destruct left. }
  rewrite app_assoc. intros H. destruct (run s (left ++ chunk)) as [[[s1 ev1] n1]|e] eqn:Hr.
  - rewrite (run_app _ _ _ _ _ _ Hr) in H. pose proof (run_bound _ _ _ _ _ Hr) as Hn.
    destruct (run s1 (drop n1 (left ++ chunk) ++ concat chunks)) as [[[s2 ev2] n2]|] eqn:Hr2; [|done].
    injection H as -> <- H. rewrite (IH s1 _ ev2); [done | by eapply run_again |].
    rewrite Hr2. do 2 f_equal. rewrite ?length_app, ?length_drop, ?length_app in *. lia.
  - exfalso. pose proof (run_app_refused _ _ _ _ _ _ _ Hr H). lia.
Qed.

(** ** Errors that do not depend on the buffer *)

Section firm.
Context `{!FirmErrors step}.

(** An error found in a prefix is the error of the whole. *)
Lemma run_app_error s first more e : run s first = Err e -> run s (first ++ more) = Err e.
Proof.
  remember (measure s first) as k eqn:Hk. revert s first Hk.
  induction (lt_wf k) as [k _ IH]. intros s first -> H. rewrite run_step in H.
  destruct (step s first) as [[[[s' ev] n]|]|e'] eqn:Hs; [|done|].
  - pose proof (measure_step _ _ _ _ _ Hs) as Hm. rewrite (run_split _ _ _ _ _ _ Hs).
    destruct (run s' (drop n first)) as [[[s2 ev2] n2]|] eqn:Hr; [done|]. injection H as ->.
    by rewrite (IH _ Hm _ _ eq_refl Hr).
  - injection H as ->. by rewrite run_step, (machine_error _ _ more _ Hs).
Qed.

(** However the octets are cut, the events, the verdict and the octets left over
    are those of one delivery. *)
Lemma deliver_concat s left chunks :
  run s left = Ok (s, [], 0%nat) ->
  deliver s left chunks =
    (let? (s, ev, n) := run s (left ++ concat chunks) in
     Ok (s, ev, drop n (left ++ concat chunks))).
Proof.
  revert s left. induction chunks as [|chunk chunks IH]; intros s left Hleft; cbn [deliver concat].
  { rewrite app_nil_r, Hleft. done. }
  rewrite app_assoc. destruct (run s (left ++ chunk)) as [[[s1 ev1] n1]|e] eqn:Hr.
  - rewrite (IH s1) by (by eapply run_again). rewrite (run_app _ _ _ _ _ _ Hr).
    pose proof (run_bound _ _ _ _ _ Hr) as Hn.
    destruct (run s1 (drop n1 (left ++ chunk) ++ concat chunks)) as [[[s2 ev2] n2]|]; [|done].
    do 2 f_equal. rewrite <- (drop_app_le _ (concat chunks)) by lia.
    rewrite <- drop_drop. done.
  - by rewrite (run_app_error _ _ _ _ Hr).
Qed.
End firm.
End run.
End machine.
