(* ===== verification/Limits.v ===== *)
(** * Limits (zero-limits)

    The budgets every other component is configured with, and the relations
    [check] asks of them.  A [Duration] is a number of nanoseconds; a [usize], a
    [u32] or a [u64] limit is a [Z]. *)
From S2P Require Import Prelude.

Definition from_secs (n : Z) : Z := n * 1000000000.
Definition from_millis (n : Z) : Z := n * 1000000.

Definition MAX_REQUEST_LINE : Z := 8192.
Definition MAX_HEADER_FIELD : Z := 8192.
Definition MAX_HEADER_COUNT : Z := 100.
Definition HEADER_TABLE_ENTRIES : Z := 64.
Definition MAX_HEAD_BYTES : Z := 32768.
Definition MAX_BODY : Z := 1048576.
Definition MAX_REQUESTS_PER_CONNECTION : Z := 1000.
Definition MAX_PIPELINED : Z := 8.
Definition PIPELINE_CODEC_CAP : Z := 32.
Definition MAX_CHUNK_SIZE_DIGITS : Z := 16.
Definition MAX_CHUNK_EXTENSION : Z := 256.
Definition MAX_TRAILER_BYTES : Z := 4096.
Definition RECEIVE_BLOCK : Z := 8192.
Definition HEADER_READ_TIMEOUT : Z := from_secs 30.
Definition IDLE_KEEP_ALIVE : Z := from_secs 60.
Definition BODY_READ_IDLE : Z := from_secs 60.
Definition SEND_IDLE : Z := from_secs 60.
Definition REQUEST_TOTAL : Z := from_secs 300.

Record Http1Limits : Type := MkHttp1Limits {
  http1_max_request_line : Z;
  http1_max_header_field : Z;
  http1_max_header_count : Z;
  http1_header_table_entries : Z;
  http1_max_head_bytes : Z;
  http1_max_body : Z;
  http1_max_requests_per_connection : Z;
  http1_max_pipelined : Z;
  http1_max_chunk_size_digits : Z;
  http1_max_chunk_extension : Z;
  http1_max_trailer_bytes : Z;
  http1_receive_block : Z;
  http1_header_read_timeout : Z;
  http1_idle_keep_alive : Z;
  http1_body_read_idle : Z;
  http1_send_idle : Z;
  http1_request_total : Z;
}.

Definition Http1Limits_DEFAULT : Http1Limits := {|
  http1_max_request_line := MAX_REQUEST_LINE;
  http1_max_header_field := MAX_HEADER_FIELD;
  http1_max_header_count := MAX_HEADER_COUNT;
  http1_header_table_entries := HEADER_TABLE_ENTRIES;
  http1_max_head_bytes := MAX_HEAD_BYTES;
  http1_max_body := MAX_BODY;
  http1_max_requests_per_connection := MAX_REQUESTS_PER_CONNECTION;
  http1_max_pipelined := MAX_PIPELINED;
  http1_max_chunk_size_digits := MAX_CHUNK_SIZE_DIGITS;
  http1_max_chunk_extension := MAX_CHUNK_EXTENSION;
  http1_max_trailer_bytes := MAX_TRAILER_BYTES;
  http1_receive_block := RECEIVE_BLOCK;
  http1_header_read_timeout := HEADER_READ_TIMEOUT;
  http1_idle_keep_alive := IDLE_KEEP_ALIVE;
  http1_body_read_idle := BODY_READ_IDLE;
  http1_send_idle := SEND_IDLE;
  http1_request_total := REQUEST_TOTAL;
|}.

Definition TLS_HANDSHAKE_TIMEOUT : Z := from_secs 10.
Definition TLS_MAX_HANDSHAKES_PER_CORE : Z := 1024.

Record TlsLimits : Type := MkTlsLimits {
  tls_handshake_timeout : Z;
  tls_max_handshakes_per_core : Z;
}.

Definition TlsLimits_DEFAULT : TlsLimits := {|
  tls_handshake_timeout := TLS_HANDSHAKE_TIMEOUT;
  tls_max_handshakes_per_core := TLS_MAX_HANDSHAKES_PER_CORE;
|}.

Definition H2_MAX_CONCURRENT_STREAMS : Z := 100.
Definition H2_MAX_FRAME_SIZE : Z := 16384.
Definition H2_MAX_HEADER_LIST_SIZE : Z := 32768.
Definition H2_HEADER_TABLE_SIZE : Z := 4096.
Definition H2_RESETS_PER_WINDOW : Z := 200.
Definition H2_RESET_WINDOW : Z := from_secs 10.

Record Http2Limits : Type := MkHttp2Limits {
  http2_max_concurrent_streams : Z;
  http2_max_frame_size : Z;
  http2_max_header_list_size : Z;
  http2_header_table_size : Z;
  http2_resets_per_window : Z;
  http2_reset_window : Z;
}.

Definition Http2Limits_DEFAULT : Http2Limits := {|
  http2_max_concurrent_streams := H2_MAX_CONCURRENT_STREAMS;
  http2_max_frame_size := H2_MAX_FRAME_SIZE;
  http2_max_header_list_size := H2_MAX_HEADER_LIST_SIZE;
  http2_header_table_size := H2_HEADER_TABLE_SIZE;
  http2_resets_per_window := H2_RESETS_PER_WINDOW;
  http2_reset_window := H2_RESET_WINDOW;
|}.

Definition H3_MAX_BIDI_STREAMS : Z := 100.
Definition H3_MAX_UNI_STREAMS : Z := 3.
Definition H3_CONNECTION_DATA : Z := 1048576.
Definition H3_STREAM_DATA : Z := 262144.
Definition H3_IDLE_TIMEOUT : Z := from_secs 30.
Definition H3_RECEIVE_PAYLOAD : Z := 1350.
Definition H3_MAX_FIELD_SECTION_SIZE : Z := 32768.
Definition QPACK_MAX_TABLE_CAPACITY : Z := 0.
Definition QPACK_BLOCKED_STREAMS : Z := 0.
Definition QPACK_INTEGER_CAP : Z := 1073741824.
Definition H3_RESETS_PER_WINDOW : Z := 200.
Definition H3_RESET_WINDOW : Z := from_secs 10.

Record Http3Limits : Type := MkHttp3Limits {
  http3_max_bidi_streams : Z;
  http3_max_uni_streams : Z;
  http3_connection_data : Z;
  http3_stream_data : Z;
  http3_idle_timeout : Z;
  http3_receive_payload : Z;
  http3_max_field_section_size : Z;
  http3_qpack_max_table_capacity : Z;
  http3_qpack_blocked_streams : Z;
  http3_qpack_integer_cap : Z;
  http3_resets_per_window : Z;
  http3_reset_window : Z;
}.

Definition Http3Limits_DEFAULT : Http3Limits := {|
  http3_max_bidi_streams := H3_MAX_BIDI_STREAMS;
  http3_max_uni_streams := H3_MAX_UNI_STREAMS;
  http3_connection_data := H3_CONNECTION_DATA;
  http3_stream_data := H3_STREAM_DATA;
  http3_idle_timeout := H3_IDLE_TIMEOUT;
  http3_receive_payload := H3_RECEIVE_PAYLOAD;
  http3_max_field_section_size := H3_MAX_FIELD_SECTION_SIZE;
  http3_qpack_max_table_capacity := QPACK_MAX_TABLE_CAPACITY;
  http3_qpack_blocked_streams := QPACK_BLOCKED_STREAMS;
  http3_qpack_integer_cap := QPACK_INTEGER_CAP;
  http3_resets_per_window := H3_RESETS_PER_WINDOW;
  http3_reset_window := H3_RESET_WINDOW;
|}.

Definition MAX_CONNECTIONS : Z := 1048576.
Definition REQUEST_MEMORY_PER_CORE : Z := 268435456.
Definition MAX_BATCH_SIZE : Z := 256.
Definition MAX_BATCHES_IN_FLIGHT : Z := 4.
Definition MAX_BATCHES_IN_FLIGHT_CEILING : Z := 8.
Definition MAX_QUEUED_BATCHES_PER_CORE : Z := 16.
Definition LEASE_TIMEOUT : Z := from_secs 300.
Definition SLOTS_KEPT : Z := 4096.
Definition MAX_PENDING_EVENTS_PER_CONN : Z := 64.
Definition RETRY_AFTER_SECS : Z := 1.
Definition DRAIN_RETRY_AFTER_SECS : Z := 5.
Definition MAX_RESPONSE_BODY : Z := 67108864.
Definition QUEUE_FULL_RETRY : Z := from_millis 1.

Record MemoryLimits : Type := MkMemoryLimits {
  memory_max_connections : Z;
  memory_request_memory_per_core : Z;
  memory_max_batch_size : Z;
  memory_max_batches_in_flight : Z;
  memory_max_queued_batches_per_core : Z;
  memory_lease_timeout : Z;
}.

Definition MemoryLimits_DEFAULT : MemoryLimits := {|
  memory_max_connections := MAX_CONNECTIONS;
  memory_request_memory_per_core := REQUEST_MEMORY_PER_CORE;
  memory_max_batch_size := MAX_BATCH_SIZE;
  memory_max_batches_in_flight := MAX_BATCHES_IN_FLIGHT;
  memory_max_queued_batches_per_core := MAX_QUEUED_BATCHES_PER_CORE;
  memory_lease_timeout := LEASE_TIMEOUT;
|}.

Definition WS_MAX_MESSAGE : Z := 16777216.
Definition WS_MAX_FRAGMENTS : Z := 1024.
Definition WS_MAX_CONTROL_FRAMES_PER_SECOND : Z := 64.

Record WebSocketLimits : Type := MkWebSocketLimits {
  websocket_max_message : Z;
  websocket_max_fragments : Z;
  websocket_max_control_frames_per_second : Z;
}.

Definition WebSocketLimits_DEFAULT : WebSocketLimits := {|
  websocket_max_message := WS_MAX_MESSAGE;
  websocket_max_fragments := WS_MAX_FRAGMENTS;
  websocket_max_control_frames_per_second := WS_MAX_CONTROL_FRAMES_PER_SECOND;
|}.

Definition GRPC_MAX_MESSAGE : Z := 4194304.
Definition GRPC_MAX_FRAME : Z := 16777216.
Definition GRPC_MAX_METADATA : Z := 8192.
Definition GRPC_MAX_METADATA_KEY : Z := 256.
Definition PROTO_MAX_VARINT_BYTES : Z := 10.
Definition PROTO_MAX_RECURSION_DEPTH : Z := 64.

Record GrpcLimits : Type := MkGrpcLimits {
  grpc_max_message : Z;
  grpc_max_frame : Z;
  grpc_max_metadata : Z;
  grpc_max_metadata_key : Z;
  grpc_max_varint_bytes : Z;
  grpc_max_recursion_depth : Z;
}.

Definition GrpcLimits_DEFAULT : GrpcLimits := {|
  grpc_max_message := GRPC_MAX_MESSAGE;
  grpc_max_frame := GRPC_MAX_FRAME;
  grpc_max_metadata := GRPC_MAX_METADATA;
  grpc_max_metadata_key := GRPC_MAX_METADATA_KEY;
  grpc_max_varint_bytes := PROTO_MAX_VARINT_BYTES;
  grpc_max_recursion_depth := PROTO_MAX_RECURSION_DEPTH;
|}.

Definition SDP_MAX_BYTES : Z := 65536.
Definition SDP_MAX_CANDIDATES : Z := 30.
Definition SIGNALING_MAX_PROTOCOL_ERRORS : Z := 5.
Definition TURN_MAX_LIFETIME : Z := from_secs 3600.

Record WebRtcLimits : Type := MkWebRtcLimits {
  webrtc_sdp_max_bytes : Z;
  webrtc_sdp_max_candidates : Z;
  webrtc_signaling_max_protocol_errors : Z;
  webrtc_turn_max_lifetime : Z;
}.

Definition WebRtcLimits_DEFAULT : WebRtcLimits := {|
  webrtc_sdp_max_bytes := SDP_MAX_BYTES;
  webrtc_sdp_max_candidates := SDP_MAX_CANDIDATES;
  webrtc_signaling_max_protocol_errors := SIGNALING_MAX_PROTOCOL_ERRORS;
  webrtc_turn_max_lifetime := TURN_MAX_LIFETIME;
|}.

Definition SESSION_MAX_COOKIE : Z := 4096.
Definition MULTIPART_MAX_FIELD : Z := 1048576.

Record BodyLimits : Type := MkBodyLimits {
  body_session_max_cookie : Z;
  body_multipart_max_field : Z;
}.

Definition BodyLimits_DEFAULT : BodyLimits := {|
  body_session_max_cookie := SESSION_MAX_COOKIE;
  body_multipart_max_field := MULTIPART_MAX_FIELD;
|}.


Record Limits : Type := MkLimits {
  http1 : Http1Limits;
  memory : MemoryLimits;
  tls : TlsLimits;
  http2 : Http2Limits;
  http3 : Http3Limits;
  websocket : WebSocketLimits;
  grpc : GrpcLimits;
  webrtc : WebRtcLimits;
  body : BodyLimits;
}.

Definition Limits_DEFAULT : Limits := {|
  http1 := Http1Limits_DEFAULT;
  memory := MemoryLimits_DEFAULT;
  tls := TlsLimits_DEFAULT;
  http2 := Http2Limits_DEFAULT;
  http3 := Http3Limits_DEFAULT;
  websocket := WebSocketLimits_DEFAULT;
  grpc := GrpcLimits_DEFAULT;
  webrtc := WebRtcLimits_DEFAULT;
  body := BodyLimits_DEFAULT;
|}.

Record InvalidLimit : Type := MkInvalidLimit { limit_name : string; limit_reason : string }.

(** The early returns of [check], in the source's order. *)
Definition check (self : Limits) : result InvalidLimit unit :=
  let h := http1 self in
  if PIPELINE_CODEC_CAP <? http1_max_pipelined h then
    Err (MkInvalidLimit "http1.max_pipelined" "exceeds the codec's pipelining cap")
  else if http1_max_head_bytes h <? http1_max_request_line h then
    Err (MkInvalidLimit "http1.max_request_line" "exceeds http1.max_head_bytes")
  else if http1_max_head_bytes h <? http1_max_header_field h then
    Err (MkInvalidLimit "http1.max_header_field" "exceeds http1.max_head_bytes")
  else if MAX_CHUNK_SIZE_DIGITS <? http1_max_chunk_size_digits h then
    Err (MkInvalidLimit "http1.max_chunk_size_digits"
           "exceeds the sixteen hexadecimal digits of a u64")
  else if http1_max_header_count h =? 0 then
    Err (MkInvalidLimit "http1.max_header_count" "is zero")
  else if http1_header_table_entries h =? 0 then
    Err (MkInvalidLimit "http1.header_table_entries" "is zero")
  else if memory_max_batch_size (memory self) =? 0 then
    Err (MkInvalidLimit "memory.max_batch_size" "is zero")
  else if (memory_max_batches_in_flight (memory self) =? 0)
          || (MAX_BATCHES_IN_FLIGHT_CEILING <? memory_max_batches_in_flight (memory self)) then
    Err (MkInvalidLimit "memory.max_batches_in_flight" "is not between one and eight")
  else if (grpc_max_varint_bytes (grpc self) =? 0) || (10 <? grpc_max_varint_bytes (grpc self)) then
    Err (MkInvalidLimit "grpc.max_varint_bytes" "is not between one and the ten bytes of a u64")
  else Ok tt.

(** ** Properties *)

(** [check] accepts exactly the limits whose relations hold: pipelining within the
    codec's cap, lines within the head, chunk digits within a [u64], no zero where a
    component divides or indexes by the limit; and the defaults pass. *)
Theorem check_accepts self :
  (check self = Ok tt <->
     let h := http1 self in
     http1_max_pipelined h <= PIPELINE_CODEC_CAP /\
     http1_max_request_line h <= http1_max_head_bytes h /\
     http1_max_header_field h <= http1_max_head_bytes h /\
     http1_max_chunk_size_digits h <= MAX_CHUNK_SIZE_DIGITS /\
     http1_max_header_count h <> 0 /\ http1_header_table_entries h <> 0 /\
     memory_max_batch_size (memory self) <> 0 /\
     (memory_max_batches_in_flight (memory self) <> 0 /\
      memory_max_batches_in_flight (memory self) <= MAX_BATCHES_IN_FLIGHT_CEILING) /\
     (grpc_max_varint_bytes (grpc self) <> 0 /\ grpc_max_varint_bytes (grpc self) <= 10)) /\
  check Limits_DEFAULT = Ok tt.
Proof.
  split; [|reflexivity]. unfold check.
  repeat match goal with
  | |- context [(?a =? 0) || (?b <? ?c)] => destruct (Z.eqb_spec a 0), (Z.ltb_spec b c); cbn [orb]
  | |- context [if ?a <? ?b then _ else _] => destruct (Z.ltb_spec a b)
  | |- context [if ?a =? ?b then _ else _] => destruct (Z.eqb_spec a b)
  end; split; try done; intros; try lia; cbn zeta; lia.
Qed.
