(* ===== verification/Bits.v ===== *)
(** * Octet strings as bit strings

    [msb n x] lists the low [n] bits of [x], most significant first; the Huffman
    code and the WebSocket and HTTP/3 field layouts are stated on such lists. *)
From S2P Require Import Prelude.

Fixpoint msb (n : nat) (x : Z) : list bool :=
  match n with
  | O => []
  | S n => Z.testbit x (Z.of_nat n) :: msb n x
  end.

Definition octets_bits (l : bytes) : list bool := mbind (msb 8) l.

Lemma length_msb n x : length (msb n x) = n.
Proof. induction n; cbn [msb length]; congruence. Qed.

Lemma msb_ext n x y :
  (forall i, 0 <= i < Z.of_nat n -> Z.testbit x i = Z.testbit y i) -> msb n x = msb n y.
Proof.
  induction n as [|n IH]; intros H; cbn [msb]; [done|].
  rewrite (H (Z.of_nat n)), IH; [done | intros; apply H; lia | lia].
Qed.

Lemma msb_inj n x y :
  0 <= x < 2 ^ Z.of_nat n -> 0 <= y < 2 ^ Z.of_nat n -> msb n x = msb n y -> x = y.
Proof.
  intros Hx Hy H. apply Z.bits_inj'. intros i Hi.
  destruct (Z.lt_ge_cases i (Z.of_nat n)) as [Hlt|Hge].
  - clear Hx Hy. induction n as [|n IH]; [lia|]. injection H as Hn H.
    destruct (decide (i = Z.of_nat n)) as [->|]; [done|]. apply IH; [done | lia].
  - rewrite <- (Z.mod_small x (2 ^ Z.of_nat n)), <- (Z.mod_small y (2 ^ Z.of_nat n)) by done.
    by rewrite !Z.mod_pow2_bits_high by lia.
Qed.

Lemma msb_mod n x m : Z.of_nat n <= m -> msb n (x mod 2 ^ m) = msb n x.
Proof. intros Hm. apply msb_ext. intros i Hi. apply Z.mod_pow2_bits_low. lia. Qed.

Lemma msb_land_ones n x m : Z.of_nat n <= m -> msb n (Z.land x (Z.ones m)) = msb n x.
Proof. intros Hm. rewrite Z.land_ones by lia. by apply msb_mod. Qed.

Lemma msb_split a b x :
  msb (a + b) x = msb a (Z.shiftr x (Z.of_nat b)) ++ msb b x.
Proof.
  induction a as [|a IH]; cbn [msb Nat.add app]; [done|].
  rewrite IH, Z.shiftr_spec by lia. do 2 f_equal. lia.
Qed.

(** Appending [b] bits of [y] to [x]. *)
Lemma msb_join a b x y :
  0 <= y < 2 ^ Z.of_nat b ->
  msb (a + b) (Z.lor (Z.shiftl x (Z.of_nat b)) y) = msb a x ++ msb b y.
Proof.
  intros Hy. rewrite msb_split. f_equal.
  - rewrite Z.shiftr_lor, Z.shiftr_shiftl_l, Z.sub_diag, Z.shiftl_0_r by lia.
    rewrite (Z.shiftr_div_pow2 y), Z.div_small, Z.lor_0_r by lia. done.
  - apply msb_ext. intros i Hi.
    rewrite Z.lor_spec, Z.shiftl_spec_low by lia. done.
Qed.

Lemma octets_bits_app l m : octets_bits (l ++ m) = octets_bits l ++ octets_bits m.
Proof. apply bind_app. Qed.

Lemma octets_bits_snoc l b : octets_bits (l ++ [b]) = octets_bits l ++ msb 8 b.
Proof. rewrite octets_bits_app. f_equal. Qed.

Lemma length_octets_bits l : length (octets_bits l) = (8 * length l)%nat.
Proof.
  induction l as [|b l IH]; [done|]. cbn [octets_bits mbind list_bind].
  rewrite length_app, length_msb. fold (octets_bits l). cbn [length]. rewrite IH. lia.
Qed.

Lemma octets_bits_inj l m :
  octets l -> octets m -> octets_bits l = octets_bits m -> l = m.
Proof.
  intros Hl. revert m. induction Hl as [|a l Ha Hl IH]; intros m Hm H.
  - destruct m as [|b m]; [done|]. apply (f_equal length) in H.
    rewrite !length_octets_bits in H. done.
  - destruct Hm as [|b m Hb Hm].
    { apply (f_equal length) in H. rewrite !length_octets_bits in H. done. }
    cbn [octets_bits mbind list_bind] in H.
    apply app_inj_1 in H as [H1 H2]; [|by rewrite !length_msb].
    f_equal; [|by apply IH]. by apply (msb_inj 8).
Qed.

Lemma msb_ones n : msb n (Z.ones (Z.of_nat n)) = replicate n true.
Proof.
  assert (forall k, (k <= n)%nat -> msb k (Z.ones (Z.of_nat n)) = replicate k true) as H.
  { induction k as [|k IH]; intros Hk; cbn [msb replicate]; [done|].
    rewrite Z.ones_spec_low by lia. by rewrite IH by lia. }
  by apply H.
Qed.
