(* ===== verification/QInteger.v ===== *)
(** * Prefixed integers (zero-qpack, integer.rs) *)
From S2P Require Import Prelude.
From S2P Require Import Stream.

Definition MAX_VALUE : Z := 2 ^ 62 - 1.
Definition MAX_LEN : nat := 10.
Definition MAX_CONTINUATION : nat := 9.

Inductive PrefixBits : Type := P1 | P2 | P3 | P4 | P5 | P6 | P7 | P8.

Definition ALL : list PrefixBits := [P1; P2; P3; P4; P5; P6; P7; P8].

Definition new (bits : Z) : option PrefixBits :=
  match bits with
  | 1 => Some P1 | 2 => Some P2 | 3 => Some P3 | 4 => Some P4
  | 5 => Some P5 | 6 => Some P6 | 7 => Some P7 | 8 => Some P8
  | _ => None
  end.

Definition bits (p : PrefixBits) : Z :=
  match p with
  | P1 => 1 | P2 => 2 | P3 => 3 | P4 => 4 | P5 => 5 | P6 => 6 | P7 => 7 | P8 => 8
  end.

Definition mask (p : PrefixBits) : Z :=
  match p with
  | P1 => 0x01 | P2 => 0x03 | P3 => 0x07 | P4 => 0x0f
  | P5 => 0x1f | P6 => 0x3f | P7 => 0x7f | P8 => 0xff
  end.

Definition limit (p : PrefixBits) : Z :=
  match p with
  | P1 => 0x01 | P2 => 0x03 | P3 => 0x07 | P4 => 0x0f
  | P5 => 0x1f | P6 => 0x3f | P7 => 0x7f | P8 => 0xff
  end.

Inductive IntegerError : Type := TooLong | TooLarge.

#[global] Instance PrefixBits_eq_dec : EqDecision PrefixBits.
Proof. solve_decision. Defined.
#[global] Instance IntegerError_eq_dec : EqDecision IntegerError.
Proof. solve_decision. Defined.

Definition low7 (value : Z) : Z := low8 (Z.land value 0x7f).

(** The loop over the continuation octets; [count] numbers the octet. *)
Fixpoint decode_loop (cap value shift : Z) (count : nat) (rest : bytes)
  : result IntegerError (option (Z * nat)) :=
  match rest with
  | [] => Ok None
  | octet :: rest =>
      let? group := ok_or (checked_shl 64 (Z.land octet 0x7f) shift) TooLarge in
      let? value := ok_or (checked_add 64 value group) TooLarge in
      if cap <? value then Err TooLarge
      else if Z.land octet 0x80 =? 0 then Ok (Some (value, count + 2)%nat)
      else if (MAX_CONTINUATION <=? count + 1)%nat then Err TooLong
      else decode_loop cap value (saturating_add 32 shift 7) (count + 1) rest
  end.

Definition decode (input : bytes) (prefix : PrefixBits) (cap : Z)
  : result IntegerError (option (Z * nat)) :=
  let cap := Z.min cap MAX_VALUE in
  match input with
  | [] => Ok None
  | first :: rest =>
      let value := Z.land first (mask prefix) in
      if cap <? value then Err TooLarge
      else if value <? limit prefix then Ok (Some (value, 1%nat))
      else decode_loop cap value 0 0 rest
  end.

(** The [while] loop of [encoded_len]; each turn drops seven bits of a [u64]. *)
Fixpoint encoded_len_loop (fuel : nat) (rest : Z) (len : nat) : nat :=
  match fuel with
  | O => len
  | S fuel =>
      if 0x80 <=? rest
      then encoded_len_loop fuel (default 0 (checked_shr 64 rest 7)) (len + 1)
      else len
  end.

Definition encoded_len (value : Z) (prefix : PrefixBits) : option nat :=
  if MAX_VALUE <? value then None
  else
    let limit := limit prefix in
    if value <? limit then Some 1%nat
    else Some (encoded_len_loop MAX_LEN (saturating_sub value limit) 2).

(** The octets the [for slot in slots] loop writes into [n] slots. *)
Fixpoint encode_slots (n : nat) (rest : Z) : bytes :=
  match n with
  | O => []
  | S n =>
      if 0x80 <=? rest
      then Z.lor 0x80 (low7 rest) :: encode_slots n (default 0 (checked_shr 64 rest 7))
      else low7 rest :: encode_slots n rest
  end.

(** [out] is the slice before the call; the result is the octets written and the
    slice after it. *)
Definition encode (value : Z) (prefix : PrefixBits) (flags : Z) (out : bytes)
  : option (nat * bytes) :=
  let! len := encoded_len value prefix in
  let! slots := get_to len out in
  let mask := mask prefix in
  let flags := Z.land flags (not8 mask) in
  let limit := limit prefix in
  if value <? limit then Some (1%nat, Z.lor flags (low8 value) :: drop 1 out)
  else Some (len, Z.lor flags mask
                    :: encode_slots (len - 1) (saturating_sub value limit) ++ drop len out).

(** The vector after the call, [None] when it is left unchanged. *)
Definition push (value : Z) (prefix : PrefixBits) (flags : Z) (out : bytes) : option bytes :=
  let! (len, buffer) := encode value prefix flags (replicate MAX_LEN 0) in
  let! written := get_to len buffer in
  Some (out ++ written).

Example decode_rfc7541_c12 : decode [0x1f; 0x9a; 0x0a; 7] P5 MAX_VALUE = Ok (Some (1337, 3%nat)).
Proof. reflexivity. Qed.
Example push_rfc7541_c12 : push 1337 P5 0xe0 [1] = Some [1; 0xff; 0x9a; 0x0a].
Proof. reflexivity. Qed.

(** ** Prefixes and first octets *)

Lemma limit_mask p : limit p = mask p.
Proof. by destruct p. Qed.

Lemma mask_ones p : mask p = Z.ones (bits p).
Proof. by destruct p. Qed.

Lemma mask_bounds p : 1 <= mask p <= 255.
Proof. destruct p; simpl; lia. Qed.

Lemma land_mask_small p v : 0 <= v <= mask p -> Z.land v (mask p) = v.
Proof.
  intros Hv. rewrite mask_ones, Z.land_ones; [apply Z.mod_small | destruct p; done].
  rewrite mask_ones, Z.ones_equiv in Hv. lia.
Qed.

Lemma land_mask_bound p x : 0 <= Z.land x (mask p) <= mask p.
Proof.
  rewrite mask_ones, Z.land_ones, Z.ones_equiv by (destruct p; done).
  pose proof (Z.mod_pos_bound x (2 ^ bits p)). destruct p; cbn [bits] in *; lia.
Qed.

(** The first octet [encode] writes: the flags outside the prefix, then [v]. *)
Definition first_octet (flags : Z) (p : PrefixBits) (v : Z) : Z :=
  Z.lor (Z.land flags (not8 (mask p))) v.

Lemma first_octet_mask flags p v :
  0 <= v <= mask p -> Z.land (first_octet flags p v) (mask p) = v.
Proof.
  intros Hv. unfold first_octet.
  rewrite Z.land_lor_distr_l, <- Z.land_assoc.
  replace (Z.land (not8 (mask p)) (mask p)) with 0 by (by destruct p).
  by rewrite Z.land_0_r, Z.lor_0_l, land_mask_small.
Qed.

(** A bit of the enclosing representation is read back from the first octet. *)
Lemma first_octet_flag flags p v k :
  0 <= v <= mask p -> Z.land k (mask p) = 0 -> Z.land (not8 (mask p)) k = k ->
  Z.land (first_octet flags p v) k = Z.land flags k.
Proof.
  intros Hv Hk Hn. unfold first_octet.
  rewrite (land_lor_disjoint _ _ _ (mask p)) by (done || by apply land_mask_small).
  by rewrite <- Z.land_assoc, Hn.
Qed.

Lemma first_octet_u8 flags p v : u8 flags -> 0 <= v <= mask p -> u8 (first_octet flags p v).
Proof.
  intros Hf Hv. pose proof (mask_bounds p).
  apply lor_octet; [apply land_octet; [done | unfold not8; lia] | word_lia].
Qed.

(** ** The groups of seven bits *)

Lemma low7_mod x : low7 x = x mod 128.
Proof.
  unfold low7, low8. rewrite land_7f. apply Z.mod_small.
  pose proof (Z.mod_pos_bound x 128). lia.
Qed.

Lemma shr7 x : default 0 (checked_shr 64 x 7) = x / 128.
Proof. exact (Z.shiftr_div_pow2 x 7 ltac:(lia)). Qed.

Lemma encoded_len_loop_add fuel rest len :
  encoded_len_loop fuel rest len = (len + encoded_len_loop fuel rest 0)%nat.
Proof.
  revert rest len. induction fuel as [|fuel IH]; intros rest len; cbn [encoded_len_loop]; [lia|].
  destruct (0x80 <=? rest); [|lia].
  rewrite (IH _ (len + 1)%nat), (IH _ (0 + 1)%nat). lia.
Qed.

Lemma encoded_len_loop_large fuel rest :
  128 <= rest -> encoded_len_loop (S fuel) rest 0 = S (encoded_len_loop fuel (rest / 128) 0).
Proof.
  intros Hr. cbn [encoded_len_loop]. bool_lia. rewrite encoded_len_loop_add, shr7. done.
Qed.

(** The number of continuation octets [encode] writes for [rest], and the octets. *)
Definition group_count (rest : Z) : nat := S (encoded_len_loop MAX_LEN rest 0).
Definition groups (rest : Z) : bytes := encode_slots (group_count rest) rest.

Lemma encoded_len_loop_fuel fuel fuel' rest :
  0 <= rest < 2 ^ (7 * Z.of_nat fuel + 7) -> 0 <= rest < 2 ^ (7 * Z.of_nat fuel' + 7) ->
  encoded_len_loop fuel rest 0 = encoded_len_loop fuel' rest 0.
Proof.
  revert fuel' rest. induction fuel as [|fuel IH]; intros [|fuel'] rest Hr Hr';
    cbn [encoded_len_loop]; [done | | |].
  1, 2: by destruct (Z.leb_spec 0x80 rest); [change (2 ^ (7 * Z.of_nat 0 + 7)) with 128 in *; lia|].
  destruct (0x80 <=? rest) eqn:E; [|done].
  rewrite (encoded_len_loop_add _ _ (0 + 1)), (encoded_len_loop_add fuel' _ (0 + 1)), shr7.
  f_equal. rewrite Nat2Z.inj_succ, Z.mul_succ_r, Z.pow_add_r in Hr, Hr' by lia.
  change (2 ^ 7) with 128 in *. rewrite Z.pow_add_r in Hr, Hr' by lia. change (2 ^ 7) with 128 in *.
  apply IH; rewrite Z.pow_add_r by lia; change (2 ^ 7) with 128;
    (split; [apply Z.div_pos; lia | apply Z.div_lt_upper_bound; lia]).
Qed.

Lemma group_count_small rest : 0 <= rest < 128 -> group_count rest = 1%nat.
Proof. intros Hr. unfold group_count. cbn [encoded_len_loop MAX_LEN]. bool_lia. done. Qed.

Lemma group_count_step rest :
  128 <= rest < 2 ^ 64 -> group_count rest = S (group_count (rest / 128)).
Proof.
  intros Hr. unfold group_count.
  rewrite (encoded_len_loop_fuel MAX_LEN 9 (rest / 128)).
  - unfold MAX_LEN. by rewrite encoded_len_loop_large by lia.
  - pow2. change (7 * Z.of_nat MAX_LEN + 7) with 77. change (2 ^ 77) with (2 ^ 64 * 2 ^ 13).
    pow2. split; [apply Z.div_pos; lia | apply Z.div_lt_upper_bound; lia].
  - change (7 * Z.of_nat 9 + 7) with 70. pow2.
    split; [apply Z.div_pos; lia | apply Z.div_lt_upper_bound; lia].
Qed.

Lemma groups_small rest : 0 <= rest < 128 -> groups rest = [rest].
Proof.
  intros Hr. unfold groups. rewrite group_count_small by done. cbn [encode_slots]. bool_lia.
  by rewrite low7_mod, Z.mod_small.
Qed.

Lemma groups_step rest :
  128 <= rest < 2 ^ 64 -> groups rest = rest mod 128 + 128 :: groups (rest / 128).
Proof.
  intros Hr. unfold groups. rewrite group_count_step by done.
  cbn [encode_slots]. bool_lia. rewrite low7_mod, shr7, lor_80; [done|].
  pose proof (Z.mod_pos_bound rest 128). lia.
Qed.

(** Induction over the groups of a word. *)
Lemma groups_ind (P : Z -> Prop) :
  (forall r, 0 <= r < 128 -> P r) ->
  (forall r, 128 <= r < 2 ^ 64 -> P (r / 128) -> P r) ->
  forall r, u64 r -> P r.
Proof.
  intros Hsmall Hstep r Hr. unfold word in Hr.
  refine (Zlt_0_ind (fun r => 0 <= r < 2 ^ 64 -> P r) _ r ltac:(lia) Hr).
  intros x IH _ Hx. destruct (Z.lt_ge_cases x 128); [apply Hsmall; lia|].
  apply Hstep; [lia|]. assert (x / 128 < x) by (apply Z.div_lt; lia).
  assert (0 <= x / 128) by (apply Z.div_pos; lia). apply IH; lia.
Qed.

Lemma length_encode_slots n rest : length (encode_slots n rest) = n.
Proof.
  revert rest. induction n as [|n IH]; intros rest; cbn [encode_slots]; [done|].
  destruct (0x80 <=? rest); cbn [length]; by rewrite IH.
Qed.

Lemma groups_octets r : u64 r -> octets (groups r).
Proof.
  intros Hr. pattern r. apply groups_ind; [| |done]; clear r Hr; intros r Hr.
  - rewrite groups_small by done. constructor; [word_lia | constructor].
  - intros IH. rewrite groups_step by done. constructor; [|done].
    pose proof (Z.mod_pos_bound r 128). word_lia.
Qed.

(** A word of [7 k] bits takes at most [k] groups. *)
Lemma group_count_bound (k : nat) r :
  (0 < k)%nat -> 0 <= r < 2 ^ (7 * Z.of_nat k) -> (7 * Z.of_nat k <= 63) -> (group_count r <= k)%nat.
Proof.
  revert r. induction k as [|k IH]; intros r Hk Hr Hlim; [lia|].
  destruct (Z.lt_ge_cases r 128); [rewrite group_count_small by lia; lia|].
  assert (2 ^ (7 * Z.of_nat (S k)) <= 2 ^ 63) by (apply Z.pow_le_mono_r; lia).
  rewrite group_count_step by word_lia.
  replace (7 * Z.of_nat (S k)) with (7 * Z.of_nat k + 7) in Hr by lia.
  rewrite Z.pow_add_r in Hr by lia. change (2 ^ 7) with 128 in Hr.
  destruct k as [|k]; [change (2 ^ (7 * Z.of_nat 0)) with 1 in Hr; lia|].
  apply le_n_S, IH; [lia | | lia].
  split; [apply Z.div_pos; lia | apply Z.div_lt_upper_bound; lia].
Qed.

(** ** The encoding as one list *)

Definition encoding (value : Z) (p : PrefixBits) (flags : Z) : bytes :=
  if value <? limit p then [first_octet flags p value]
  else first_octet flags p (mask p) :: groups (value - limit p).

Lemma encoded_len_encoding value p flags :
  0 <= value <= MAX_VALUE -> encoded_len value p = Some (length (encoding value p flags)).
Proof.
  intros Hv. unfold encoded_len, encoding. bool_lia.
  destruct (Z.ltb_spec value (limit p)); [done|].
  cbn [length]. unfold groups, group_count. rewrite length_encode_slots, encoded_len_loop_add.
  unfold saturating_sub. rewrite Z.max_r by lia. done.
Qed.

Lemma int_encoding_length value p flags :
  0 <= value <= MAX_VALUE -> (1 <= length (encoding value p flags) <= MAX_LEN)%nat.
Proof.
  intros Hv. unfold encoding. destruct (Z.ltb_spec value (limit p)); cbn [length];
    [unfold MAX_LEN; lia|].
  unfold groups. rewrite length_encode_slots.
  pose proof (mask_bounds p). rewrite ?limit_mask in *.
  pose proof (group_count_bound 9 (value - mask p)) as Hc.
  unfold MAX_VALUE, MAX_LEN in *. change (2 ^ (7 * Z.of_nat 9)) with (2 ^ 63) in Hc.
  assert (group_count (value - mask p) <= 9)%nat by (apply Hc; [lia | word_lia | lia]).
  lia.
Qed.

Lemma int_encode_encoding value p flags out :
  0 <= value <= MAX_VALUE ->
  encode value p flags out =
    (if decide (length (encoding value p flags) <= length out)%nat
     then Some (length (encoding value p flags),
                encoding value p flags ++ drop (length (encoding value p flags)) out)
     else None).
Proof.
  intros Hv. unfold encode. rewrite (encoded_len_encoding _ _ flags) by done. unfold get_to.
  case_decide; [|done]. unfold encoding in *.
  destruct (Z.ltb_spec value (limit p)); cbn [length app] in *.
  - unfold first_octet, low8. do 4 f_equal. apply Z.mod_small.
    pose proof (mask_bounds p). rewrite ?limit_mask in *. lia.
  - unfold first_octet, groups, saturating_sub. rewrite length_encode_slots, Z.max_r by lia.
    rewrite Nat.sub_succ, Nat.sub_0_r. done.
Qed.

Lemma int_push_encoding value p flags out :
  0 <= value <= MAX_VALUE -> push value p flags out = Some (out ++ encoding value p flags).
Proof.
  intros Hv. unfold push. rewrite int_encode_encoding by done.
  pose proof (int_encoding_length value p flags Hv). rewrite length_replicate.
  rewrite decide_True by lia. by rewrite get_to_app.
Qed.

Lemma int_push_too_large value p flags out : MAX_VALUE < value -> push value p flags out = None.
Proof. intros Hv. unfold push, encode, encoded_len. by bool_lia. Qed.

Lemma int_encoding_octets value p flags :
  0 <= value <= MAX_VALUE -> u8 flags -> octets (encoding value p flags).
Proof.
  intros Hv Hf. pose proof (mask_bounds p). unfold encoding. rewrite !limit_mask.
  destruct (Z.ltb_spec value (mask p)).
  - constructor; [|constructor]. apply first_octet_u8; [done|lia].
  - constructor; [apply first_octet_u8; [done|lia]|].
    apply groups_octets. unfold MAX_VALUE in *. word_lia.
Qed.

(** ** The decoder *)

(** The number RFC 7541 Section 5.1 gives to an octet string, with no limit on its
    size or length: the reference [decode] is compared with. *)
Fixpoint rfc7541_groups (rest : bytes) : option (Z * nat) :=
  match rest with
  | [] => None
  | octet :: rest =>
      if octet <? 128 then Some (octet, 1%nat)
      else let! (v, n) := rfc7541_groups rest in Some (octet - 128 + 128 * v, S n)
  end.

Definition rfc7541 (input : bytes) (p : PrefixBits) : option (Z * nat) :=
  match input with
  | [] => None
  | first :: rest =>
      let low := first mod 2 ^ bits p in
      if low <? 2 ^ bits p - 1 then Some (low, 1%nat)
      else let! (v, n) := rfc7541_groups rest in Some (low + v, S n)
  end.

Lemma mask_mod p x : Z.land x (mask p) = x mod 2 ^ bits p.
Proof. rewrite mask_ones. apply Z.land_ones. by destruct p. Qed.

Lemma limit_pow p : limit p = 2 ^ bits p - 1.
Proof. by destruct p. Qed.

Lemma mask_pow p : mask p = 2 ^ bits p - 1.
Proof. by destruct p. Qed.

(** One turn of the loop, its checked operations evaluated: within nine
    continuation octets neither the shift nor the addition overflows. *)
Lemma decode_loop_step cap value count octet rest :
  (count <= 8)%nat -> 0 <= value <= MAX_VALUE -> cap <= MAX_VALUE -> u8 octet ->
  let value' := value + (octet mod 128) * 2 ^ (7 * Z.of_nat count) in
  decode_loop cap value (7 * Z.of_nat count) count (octet :: rest) =
    (if cap <? value' then Err TooLarge
     else if octet <? 128 then Ok (Some (value', count + 2)%nat)
     else if (9 <=? count + 1)%nat then Err TooLong
     else decode_loop cap value' (7 * Z.of_nat (count + 1)) (count + 1) rest).
Proof.
  intros Hc Hv Hcap Ho value'. cbn [decode_loop]. unfold MAX_VALUE, MAX_CONTINUATION in *.
  pose proof (Z.mod_pos_bound octet 128 ltac:(lia)) as Hm.
  assert (1 <= 2 ^ (7 * Z.of_nat count) <= 2 ^ 56) as Hp.
  { split; [|by apply Z.pow_le_mono_r; lia].
    change 1 with (2 ^ 0). apply Z.pow_le_mono_r; lia. }
  unfold checked_shl. bool_lia. cbn [ok_or].
  rewrite land_7f, Z.shiftl_mul_pow2 by lia.
  rewrite Z.mod_small by (pow2; nia).
  unfold checked_add. rewrite (proj2 (Z.ltb_lt _ _)) by (pow2; nia). cbn [ok_or].
  rewrite land_80_zero by done. fold value'.
  destruct (cap <? value'), (octet <? 128), (9 <=? count + 1)%nat; try done.
  f_equal. unfold saturating_add. word_lia.
Qed.

Lemma rfc7541_groups_bounds rest v n :
  octets rest -> rfc7541_groups rest = Some (v, n) -> 0 <= v /\ (0 < n <= length rest)%nat.
Proof.
  intros Ho. revert v n. induction Ho as [|o rest Ho _ IH]; intros v n; cbn [rfc7541_groups]; [done|].
  destruct (Z.ltb_spec o 128); [intros [= <- <-]; cbn [length]; word_lia|].
  destruct (rfc7541_groups rest) as [[w k]|]; [|done].
  intros [= <- <-]. specialize (IH w k eq_refl). cbn [length]. word_lia.
Qed.

Lemma pow_7_succ (count : nat) :
  2 ^ (7 * Z.of_nat (count + 1)) = 128 * 2 ^ (7 * Z.of_nat count).
Proof.
  replace (7 * Z.of_nat (count + 1)) with (7 + 7 * Z.of_nat count) by lia.
  by rewrite Z.pow_add_r by lia.
Qed.

Lemma mod_128 o : u8 o -> o mod 128 = if o <? 128 then o else o - 128.
Proof.
  intros Ho. destruct (Z.ltb_spec o 128); [apply Z.mod_small; word_lia|].
  rewrite <- (Z_mod_plus_full o (-1) 128). apply Z.mod_small. word_lia.
Qed.

(** The value so far plus what the reference adds is what the loop finds. *)
Lemma decode_loop_spec cap rest : forall value count,
  (count <= 8)%nat -> 0 <= value <= cap -> cap <= MAX_VALUE -> octets rest ->
  match decode_loop cap value (7 * Z.of_nat count) count rest with
  | Ok (Some (v, n)) =>
      exists w k, rfc7541_groups rest = Some (w, k) /\
        v = value + w * 2 ^ (7 * Z.of_nat count) /\ n = (count + k + 1)%nat /\
        v <= cap /\ (count + k <= 9)%nat /\ (k <= length rest)%nat
  | Ok None => rfc7541_groups rest = None /\ (count + length rest < 9)%nat
  | Err _ => forall more w k, octets more -> rfc7541_groups (rest ++ more) = Some (w, k) ->
      cap < value + w * 2 ^ (7 * Z.of_nat count) \/ (9 < count + k)%nat
  end.
Proof.
  induction rest as [|octet rest IH]; intros value count Hc Hv Hcap Ho.
  { cbn. split; [done | lia]. }
  apply Forall_cons in Ho as [Ho Hrest].
  rewrite decode_loop_step by (done || lia).
  assert (0 < 2 ^ (7 * Z.of_nat count)) as Hp by (apply Z.pow_pos_nonneg; lia).
  pose proof (Z.mod_pos_bound octet 128 ltac:(lia)) as Hm.
  rewrite mod_128 in * by done. specialize (pow_7_succ count) as Hsucc.
  set (value' := value + _). cbn [rfc7541_groups app length].
  destruct (Z.ltb_spec cap value') as [Hover|Hover].
  - intros more w k Hmore. cbn [rfc7541_groups]. subst value'.
    destruct (octet <? 128); [intros [= <- <-]; lia|].
    destruct (rfc7541_groups (rest ++ more)) as [[w' k']|] eqn:Hg; [|done].
    apply rfc7541_groups_bounds in Hg; [|by apply Forall_app]. intros [= <- <-]. nia.
  - destruct (octet <? 128) eqn:Elast.
    { exists octet, 1%nat. subst value'. rewrite ?Elast in *. split; [done|]. lia. }
    destruct (Nat.leb_spec 9 (count + 1)).
    + intros more w k Hmore. cbn [rfc7541_groups]. rewrite ?Elast.
      destruct (rfc7541_groups (rest ++ more)) as [[w' k']|] eqn:Hg; [|done].
      apply rfc7541_groups_bounds in Hg; [|by apply Forall_app]. intros [= <- <-]. lia.
    + specialize (IH value' (count + 1)%nat). rewrite Hsucc in IH. subst value'.
      rewrite ?Elast in *.
      destruct (decode_loop _ _ _ _ rest) as [[[v n]|]|e].
      * destruct IH as (w & k & -> & -> & -> & ? & ? & ?); [lia | nia | done | done |].
        exists (octet - 128 + 128 * w), (S k). split; [done|]. lia.
      * destruct IH as [-> ?]; [lia | nia | done | done |]. split; [done|lia].
      * intros more w k Hmore. cbn [rfc7541_groups]. rewrite ?Elast.
        destruct (rfc7541_groups (rest ++ more)) as [[w' k']|] eqn:Hg; [|done].
        intros [= <- <-].
        destruct (IH ltac:(lia) ltac:(nia) Hcap Hrest more w' k' Hmore Hg); nia.
Qed.

Lemma decode_spec input p cap :
  octets input -> 0 <= cap ->
  match decode input p cap with
  | Ok (Some (v, n)) =>
      rfc7541 input p = Some (v, n) /\ v <= Z.min cap MAX_VALUE /\
      (1 <= n <= MAX_LEN)%nat /\ (n <= length input)%nat
  | Ok None => rfc7541 input p = None /\ (length input < MAX_LEN)%nat
  | Err _ => forall more v n, octets more -> rfc7541 (input ++ more) p = Some (v, n) ->
      Z.min cap MAX_VALUE < v \/ (MAX_LEN < n)%nat
  end.
Proof.
  intros Ho Hcap. unfold decode, MAX_LEN.
  destruct Ho as [|first rest Hf Hrest]; [cbn; split; [done|lia]|]. cbn [rfc7541 app].
  rewrite mask_mod, limit_pow. assert (0 < 2 ^ bits p) as Hpos by (by destruct p).
  pose proof (Z.mod_pos_bound first (2 ^ bits p) Hpos) as Hm.
  set (low := first mod 2 ^ bits p) in *. set (cap' := Z.min cap MAX_VALUE) in *.
  destruct (Z.ltb_spec cap' low).
  { intros more v n Hmore. destruct (Z.ltb_spec low (2 ^ bits p - 1)); [intros [= <- <-]; lia|].
    destruct (rfc7541_groups (rest ++ more)) as [[w k]|] eqn:Hg; [|done].
    apply rfc7541_groups_bounds in Hg; [|by apply Forall_app]. intros [= <- <-]. lia. }
  destruct (Z.ltb_spec low (2 ^ bits p - 1)) as [|Hlim]; [cbn [length]; split; [done|lia]|].
  pose proof (decode_loop_spec cap' rest low 0 ltac:(lia) ltac:(lia) ltac:(lia) Hrest) as Hl.
  change (2 ^ (7 * Z.of_nat 0)) with 1 in Hl. change (7 * Z.of_nat 0) with 0 in Hl.
  destruct (decode_loop cap' low 0 0 rest) as [[[v n]|]|e].
  - destruct Hl as (w & k & -> & -> & -> & ? & ? & ?). cbn [length]. repeat split; [|lia..].
    do 2 f_equal; lia.
  - destruct Hl as [-> ?]. cbn [length]. split; [done|lia].
  - intros more v n Hmore.
    destruct (rfc7541_groups (rest ++ more)) as [[w k]|] eqn:Hg; [|done].
    intros [= <- <-]. destruct (Hl more w k Hmore Hg); lia.
Qed.

Lemma rfc7541_groups_groups r more :
  u64 r -> rfc7541_groups (groups r ++ more) = Some (r, length (groups r)).
Proof.
  intros Hr. pattern r. apply groups_ind; [| |done]; clear r Hr; intros r Hr.
  - rewrite groups_small by done. cbn. bool_lia. done.
  - intros IH. rewrite groups_step by done. cbn [app rfc7541_groups length].
    pose proof (Z.mod_pos_bound r 128 ltac:(lia)). rewrite (proj2 (Z.ltb_ge _ _)) by lia.
    rewrite IH. do 2 f_equal. pose proof (Z.div_mod r 128 ltac:(lia)). lia.
Qed.

Lemma rfc7541_encoding value p flags more :
  0 <= value <= MAX_VALUE ->
  rfc7541 (encoding value p flags ++ more) p = Some (value, length (encoding value p flags)).
Proof.
  intros Hv. unfold encoding. pose proof (mask_bounds p). rewrite limit_mask.
  destruct (Z.ltb_spec value (mask p)); cbn [app rfc7541 length];
    rewrite <- mask_mod, <- mask_pow, first_octet_mask by lia; bool_lia; [done|].
  rewrite rfc7541_groups_groups by (unfold MAX_VALUE in *; word_lia). do 2 f_equal. lia.
Qed.

(** The first octet keeps the bits of the enclosing representation. *)
Lemma int_encoding_flag value p flags k :
  0 <= value -> Z.land k (mask p) = 0 -> Z.land (not8 (mask p)) k = k ->
  exists first rest, encoding value p flags = first :: rest /\ Z.land first k = Z.land flags k.
Proof.
  intros Hv Hk Hn. unfold encoding. pose proof (mask_bounds p). rewrite limit_mask.
  destruct (Z.ltb_spec value (mask p)); do 2 eexists; (split; [reflexivity|]);
    apply first_octet_flag; (done || lia).
Qed.

Lemma int_decode_encoding value p flags more cap :
  0 <= value <= MAX_VALUE -> value <= cap -> u8 flags -> octets more ->
  decode (encoding value p flags ++ more) p cap
    = Ok (Some (value, length (encoding value p flags))).
Proof.
  intros Hv Hcap Hf Hmore.
  pose proof (int_encoding_octets value p flags Hv Hf) as Ho.
  pose proof (int_encoding_length value p flags Hv) as Hlen.
  pose proof (decode_spec (encoding value p flags ++ more) p cap) as Hd.
  rewrite rfc7541_encoding in Hd by done.
  destruct (decode _ p cap) as [[[v n]|]|e].
  - destruct Hd as [[= -> ->] _]; [by apply Forall_app|lia|done].
  - destruct Hd as [? _]; [by apply Forall_app|lia|done].
  - exfalso. destruct (Hd ltac:(by apply Forall_app) ltac:(lia) [] value
      (length (encoding value p flags))); [done | | lia | lia].
    by rewrite app_nil_r, rfc7541_encoding.
Qed.

(** ** The interface of an incremental parser *)

Lemma decode_loop_app cap rest more : forall value shift count r,
  decode_loop cap value shift count rest = r -> r <> Ok None ->
  decode_loop cap value shift count (rest ++ more) = r.
Proof.
  induction rest as [|o rest IH]; intros value shift count r; cbn [decode_loop app]; [by intros <-|].
  destruct (ok_or _ _); [|done]. destruct (ok_or _ _); [|done].
  destruct (cap <? _); [done|]. destruct (_ =? 0); [done|]. destruct (_ <=? _)%nat; [done|].
  apply IH.
Qed.

Lemma decode_loop_used cap rest : forall value shift count v n,
  decode_loop cap value shift count rest = Ok (Some (v, n)) ->
  (count + 2 <= n <= count + length rest + 1)%nat.
Proof.
  induction rest as [|o rest IH]; intros value shift count v n; cbn [decode_loop length]; [done|].
  destruct (ok_or _ _); [|done]. destruct (ok_or _ _); [|done].
  destruct (cap <? _); [done|]. destruct (_ =? 0); [intros [= _ <-]; lia|].
  destruct (_ <=? _)%nat; [done|]. intros H%IH. lia.
Qed.

Lemma int_decode_app input p cap more r :
  decode input p cap = r -> r <> Ok None -> decode (input ++ more) p cap = r.
Proof.
  unfold decode. destruct input as [|first rest]; cbn [app]; [by intros <-|].
  destruct (_ <? _); [done|]. destruct (_ <? _); [done|]. apply decode_loop_app.
Qed.

#[global] Instance decode_stream p cap : StreamParser (fun input => decode input p cap).
Proof.
  split.
  - intros input more a n H. by apply int_decode_app.
  - intros input more e H. by apply int_decode_app.
  - intros input v n. unfold decode. destruct input as [|first rest]; [done|].
    destruct (_ <? _); [done|]. destruct (_ <? _); cbn [length].
    + intros [= _ <-]. lia.
    + intros H%decode_loop_used. lia.
Qed.

Lemma int_decode_used input p cap v n :
  decode input p cap = Ok (Some (v, n)) -> (0 < n <= length input)%nat.
Proof. apply (stream_used (parse := fun input => decode input p cap)). Qed.

(** Tests of the first octet see the flags that were written, above the prefix. *)
Lemma int_encoding_head value p flags more :
  0 <= value ->
  exists first, head (encoding value p flags ++ more) = Some first /\
    forall k, Z.land k (mask p) = 0 -> Z.land (not8 (mask p)) k = k ->
      Z.land first k = Z.land flags k.
Proof.
  intros Hv. unfold encoding.
  destruct (Z.ltb_spec value (limit p)); eexists; (split; [reflexivity|]);
    intros k Hk Hn; pose proof (mask_bounds p);
    apply first_octet_flag; try done; rewrite ?limit_mask in *; lia.
Qed.

(** ** Properties *)

(** The decoder refines RFC 7541 Section 5.1: a value it reports is the value of
    the octets, within the cap and the 2^62-1 of the code, on at most ten octets; it
    waits only while the RFC has no value either and fewer than ten octets are there;
    and it refuses only inputs whose every continuation is above the cap or longer
    than ten octets. *)
Theorem decode_refines_rfc7541 input p cap :
  octets input -> 0 <= cap ->
  match decode input p cap with
  | Ok (Some (v, n)) =>
      rfc7541 input p = Some (v, n) /\ v <= Z.min cap MAX_VALUE /\
      (1 <= n <= MAX_LEN)%nat /\ (n <= length input)%nat
  | Ok None => rfc7541 input p = None /\ (length input < MAX_LEN)%nat
  | Err _ => forall more v n, octets more -> rfc7541 (input ++ more) p = Some (v, n) ->
      Z.min cap MAX_VALUE < v \/ (MAX_LEN < n)%nat
  end.
Proof. apply decode_spec. Qed.

Lemma decode_refines_rfc7541_witness :
  match decode [0xff; 0x9a; 0x0a] P5 5000 with
  | Ok (Some (v, n)) =>
      rfc7541 [0xff; 0x9a; 0x0a] P5 = Some (v, n) /\ v <= Z.min 5000 MAX_VALUE /\
      (1 <= n <= MAX_LEN)%nat /\ (n <= length [0xff; 0x9a; 0x0a])%nat
  | Ok None => rfc7541 [0xff; 0x9a; 0x0a] P5 = None /\ (length [0xff; 0x9a; 0x0a] < MAX_LEN)%nat
  | Err _ => forall more v n, octets more -> rfc7541 ([0xff; 0x9a; 0x0a] ++ more) P5 = Some (v, n) ->
      Z.min 5000 MAX_VALUE < v \/ (MAX_LEN < n)%nat
  end.
Proof.
  apply decode_refines_rfc7541; [|lia]. apply (bool_decide_unpack _). vm_compute. exact I.
Defined.

(** A prefixed integer survives the wire under any flags and any octets that
    follow; its length is the one [encoded_len] announces, at most ten octets; and
    a value above 2^62-1 is refused with the buffer left alone. *)
Theorem integer_roundtrip value p flags out more cap :
  0 <= value -> u8 flags -> octets more -> value <= cap ->
  if MAX_VALUE <? value then push value p flags out = None
  else exists wire,
    push value p flags out = Some (out ++ wire) /\
    encoded_len value p = Some (length wire) /\ (length wire <= MAX_LEN)%nat /\
    decode (wire ++ more) p cap = Ok (Some (value, length wire)).
Proof.
  intros Hv Hf Hm Hc. destruct (Z.ltb_spec MAX_VALUE value); [by apply int_push_too_large|].
  exists (encoding value p flags). split; [by apply int_push_encoding|].
  split; [by apply encoded_len_encoding|]. split; [by apply int_encoding_length|].
  by apply int_decode_encoding.
Qed.

Lemma integer_roundtrip_witness :
  if MAX_VALUE <? 1337 then push 1337 P5 0x20 [1] = None
  else exists wire,
    push 1337 P5 0x20 [1] = Some ([1] ++ wire) /\
    encoded_len 1337 P5 = Some (length wire) /\ (length wire <= MAX_LEN)%nat /\
    decode (wire ++ [9]) P5 5000 = Ok (Some (1337, length wire)).
Proof.
  apply integer_roundtrip; [lia | | | lia]; apply (bool_decide_unpack _); vm_compute; exact I.
Defined.
