(* ===== verification/Huffman.v ===== *)
(** * The static Huffman code (zero-qpack, huffman.rs)

    [CODES] is the table of RFC 7541 Appendix B; [FIRST], [COUNT], [INDEX] and
    [SYMBOLS] are the tables the decoder walks one bit at a time. *)
From S2P Require Import Prelude.
From S2P Require Import Bits.

Definition CODES : list (Z * Z) := [
   (0x1ff8, 13); (0x7fffd8, 23); (0xfffffe2, 28); (0xfffffe3, 28); (0xfffffe4, 28); (0xfffffe5, 28);
   (0xfffffe6, 28); (0xfffffe7, 28); (0xfffffe8, 28); (0xffffea, 24); (0x3ffffffc, 30); (0xfffffe9, 28);
   (0xfffffea, 28); (0x3ffffffd, 30); (0xfffffeb, 28); (0xfffffec, 28); (0xfffffed, 28); (0xfffffee, 28);
   (0xfffffef, 28); (0xffffff0, 28); (0xffffff1, 28); (0xffffff2, 28); (0x3ffffffe, 30); (0xffffff3, 28);
   (0xffffff4, 28); (0xffffff5, 28); (0xffffff6, 28); (0xffffff7, 28); (0xffffff8, 28); (0xffffff9, 28);
   (0xffffffa, 28); (0xffffffb, 28); (0x14, 6); (0x3f8, 10); (0x3f9, 10); (0xffa, 12);
   (0x1ff9, 13); (0x15, 6); (0xf8, 8); (0x7fa, 11); (0x3fa, 10); (0x3fb, 10);
   (0xf9, 8); (0x7fb, 11); (0xfa, 8); (0x16, 6); (0x17, 6); (0x18, 6);
   (0x0, 5); (0x1, 5); (0x2, 5); (0x19, 6); (0x1a, 6); (0x1b, 6);
   (0x1c, 6); (0x1d, 6); (0x1e, 6); (0x1f, 6); (0x5c, 7); (0xfb, 8);
   (0x7ffc, 15); (0x20, 6); (0xffb, 12); (0x3fc, 10); (0x1ffa, 13); (0x21, 6);
   (0x5d, 7); (0x5e, 7); (0x5f, 7); (0x60, 7); (0x61, 7); (0x62, 7);
   (0x63, 7); (0x64, 7); (0x65, 7); (0x66, 7); (0x67, 7); (0x68, 7);
   (0x69, 7); (0x6a, 7); (0x6b, 7); (0x6c, 7); (0x6d, 7); (0x6e, 7);
   (0x6f, 7); (0x70, 7); (0x71, 7); (0x72, 7); (0xfc, 8); (0x73, 7);
   (0xfd, 8); (0x1ffb, 13); (0x7fff0, 19); (0x1ffc, 13); (0x3ffc, 14); (0x22, 6);
   (0x7ffd, 15); (0x3, 5); (0x23, 6); (0x4, 5); (0x24, 6); (0x5, 5);
   (0x25, 6); (0x26, 6); (0x27, 6); (0x6, 5); (0x74, 7); (0x75, 7);
   (0x28, 6); (0x29, 6); (0x2a, 6); (0x7, 5); (0x2b, 6); (0x76, 7);
   (0x2c, 6); (0x8, 5); (0x9, 5); (0x2d, 6); (0x77, 7); (0x78, 7);
   (0x79, 7); (0x7a, 7); (0x7b, 7); (0x7ffe, 15); (0x7fc, 11); (0x3ffd, 14);
   (0x1ffd, 13); (0xffffffc, 28); (0xfffe6, 20); (0x3fffd2, 22); (0xfffe7, 20); (0xfffe8, 20);
   (0x3fffd3, 22); (0x3fffd4, 22); (0x3fffd5, 22); (0x7fffd9, 23); (0x3fffd6, 22); (0x7fffda, 23);
   (0x7fffdb, 23); (0x7fffdc, 23); (0x7fffdd, 23); (0x7fffde, 23); (0xffffeb, 24); (0x7fffdf, 23);
   (0xffffec, 24); (0xffffed, 24); (0x3fffd7, 22); (0x7fffe0, 23); (0xffffee, 24); (0x7fffe1, 23);
   (0x7fffe2, 23); (0x7fffe3, 23); (0x7fffe4, 23); (0x1fffdc, 21); (0x3fffd8, 22); (0x7fffe5, 23);
   (0x3fffd9, 22); (0x7fffe6, 23); (0x7fffe7, 23); (0xffffef, 24); (0x3fffda, 22); (0x1fffdd, 21);
   (0xfffe9, 20); (0x3fffdb, 22); (0x3fffdc, 22); (0x7fffe8, 23); (0x7fffe9, 23); (0x1fffde, 21);
   (0x7fffea, 23); (0x3fffdd, 22); (0x3fffde, 22); (0xfffff0, 24); (0x1fffdf, 21); (0x3fffdf, 22);
   (0x7fffeb, 23); (0x7fffec, 23); (0x1fffe0, 21); (0x1fffe1, 21); (0x3fffe0, 22); (0x1fffe2, 21);
   (0x7fffed, 23); (0x3fffe1, 22); (0x7fffee, 23); (0x7fffef, 23); (0xfffea, 20); (0x3fffe2, 22);
   (0x3fffe3, 22); (0x3fffe4, 22); (0x7ffff0, 23); (0x3fffe5, 22); (0x3fffe6, 22); (0x7ffff1, 23);
   (0x3ffffe0, 26); (0x3ffffe1, 26); (0xfffeb, 20); (0x7fff1, 19); (0x3fffe7, 22); (0x7ffff2, 23);
   (0x3fffe8, 22); (0x1ffffec, 25); (0x3ffffe2, 26); (0x3ffffe3, 26); (0x3ffffe4, 26); (0x7ffffde, 27);
   (0x7ffffdf, 27); (0x3ffffe5, 26); (0xfffff1, 24); (0x1ffffed, 25); (0x7fff2, 19); (0x1fffe3, 21);
   (0x3ffffe6, 26); (0x7ffffe0, 27); (0x7ffffe1, 27); (0x3ffffe7, 26); (0x7ffffe2, 27); (0xfffff2, 24);
   (0x1fffe4, 21); (0x1fffe5, 21); (0x3ffffe8, 26); (0x3ffffe9, 26); (0xffffffd, 28); (0x7ffffe3, 27);
   (0x7ffffe4, 27); (0x7ffffe5, 27); (0xfffec, 20); (0xfffff3, 24); (0xfffed, 20); (0x1fffe6, 21);
   (0x3fffe9, 22); (0x1fffe7, 21); (0x1fffe8, 21); (0x7ffff3, 23); (0x3fffea, 22); (0x3fffeb, 22);
   (0x1ffffee, 25); (0x1ffffef, 25); (0xfffff4, 24); (0xfffff5, 24); (0x3ffffea, 26); (0x7ffff4, 23);
   (0x3ffffeb, 26); (0x7ffffe6, 27); (0x3ffffec, 26); (0x3ffffed, 26); (0x7ffffe7, 27); (0x7ffffe8, 27);
   (0x7ffffe9, 27); (0x7ffffea, 27); (0x7ffffeb, 27); (0xffffffe, 28); (0x7ffffec, 27); (0x7ffffed, 27);
   (0x7ffffee, 27); (0x7ffffef, 27); (0x7fffff0, 27); (0x3ffffee, 26); (0x3fffffff, 30)].

Definition EOS : Z := 256.

Definition MAX_CODE_LEN : Z := 30.

Definition FIRST : list Z := [
   0x0; 0x0; 0x0; 0x0; 0x0; 0x0; 0x14; 0x5c; 0xf8; 0x0;
   0x3f8; 0x7fa; 0xffa; 0x1ff8; 0x3ffc; 0x7ffc; 0x0; 0x0; 0x0; 0x7fff0;
   0xfffe6; 0x1fffdc; 0x3fffd2; 0x7fffd8; 0xffffea; 0x1ffffec; 0x3ffffe0; 0x7ffffde; 0xfffffe2; 0x0;
   0x3ffffffc].

Definition COUNT : list Z := [
   0; 0; 0; 0; 0; 10; 26; 32; 6; 0; 5; 3; 2; 6; 2; 3;
   0; 0; 0; 3; 8; 13; 26; 29; 12; 4; 15; 19; 29; 0; 4].

Definition INDEX : list Z := [
   0; 0; 0; 0; 0; 0; 10; 36; 68; 0; 74; 79; 82; 84; 90; 92;
   0; 0; 0; 95; 98; 106; 119; 145; 174; 186; 190; 205; 224; 0; 253].

Definition SYMBOLS : list Z := [
   48; 49; 50; 97; 99; 101; 105; 111; 115; 116; 32; 37; 45; 46; 47; 51; 52; 53; 54; 55;
   56; 57; 61; 65; 95; 98; 100; 102; 103; 104; 108; 109; 110; 112; 114; 117; 58; 66; 67; 68;
   69; 70; 71; 72; 73; 74; 75; 76; 77; 78; 79; 80; 81; 82; 83; 84; 85; 86; 87; 89;
   106; 107; 113; 118; 119; 120; 121; 122; 38; 42; 44; 59; 88; 90; 33; 34; 40; 41; 63; 39;
   43; 124; 35; 62; 0; 36; 64; 91; 93; 126; 94; 125; 60; 96; 123; 92; 195; 208; 128; 130;
   131; 162; 184; 194; 224; 226; 153; 161; 167; 172; 176; 177; 179; 209; 216; 217; 227; 229; 230; 129;
   132; 133; 134; 136; 146; 154; 156; 160; 163; 164; 169; 170; 173; 178; 181; 185; 186; 187; 189; 190;
   196; 198; 228; 232; 233; 1; 135; 137; 138; 139; 140; 141; 143; 147; 149; 150; 151; 152; 155; 157;
   158; 165; 166; 168; 174; 175; 180; 182; 183; 188; 191; 197; 231; 239; 9; 142; 144; 145; 148; 159;
   171; 206; 215; 225; 236; 237; 199; 207; 234; 235; 192; 193; 200; 201; 202; 205; 210; 213; 218; 219;
   238; 240; 242; 243; 255; 203; 204; 211; 212; 214; 221; 222; 223; 241; 244; 245; 246; 247; 248; 250;
   251; 252; 253; 254; 2; 3; 4; 5; 6; 7; 8; 11; 12; 14; 15; 16; 17; 18; 19; 20;
   21; 23; 24; 25; 26; 27; 28; 29; 30; 31; 127; 220; 249; 10; 13; 22; 256].

Inductive HuffmanError : Type := Padding | PaddingNotEos | Eos | OutputFull.

#[global] Instance HuffmanError_eq_dec : EqDecision HuffmanError.
Proof. solve_decision. Defined.

Definition at_ (table : list Z) (index : Z) : option Z := table !! Z.to_nat index.

(** [CODES.get(usize::from(octet)).copied().unwrap_or((0, 0))] *)
Definition code_of (octet : Z) : Z * Z := default (0, 0) (CODES !! Z.to_nat octet).

Definition decoded_len_bound (encoded_len : Z) : Z :=
  let whole := default 0 (checked_div encoded_len 5) in
  let part := encoded_len mod 5 in
  let tail := default 0 (checked_div (saturating_mul 64 part 8) 5) in
  saturating_add 64 (saturating_mul 64 whole 8) tail.

Definition encoded_len (input : bytes) : Z :=
  let bits := fold_left (fun bits octet => saturating_add 64 bits (code_of octet).2) input 0 in
  default 0 (checked_shr 64 (saturating_add 64 bits 7) 3).

(** [while bits >= 8]: each turn writes one octet and takes eight bits. *)
Fixpoint flush (fuel : nat) (pending bits : Z) (out : bytes) : Z * bytes :=
  match fuel with
  | O => (bits, out)
  | S fuel =>
      if 8 <=? bits then
        let bits := saturating_sub bits 8 in
        flush fuel pending bits (out ++ [low8 (default 0 (checked_shr 64 pending bits))])
      else (bits, out)
  end.

Record packer : Type := Packer { pending : Z; pbits : Z; packed : bytes }.

(** One turn of the [for &octet in input] loop. *)
Definition encode_octet (s : packer) (octet : Z) : packer :=
  let '(code, len) := code_of octet in
  let p := Z.lor (default 0 (checked_shl 64 (pending s) len)) code in
  let bits := saturating_add 32 (pbits s) len in
  let '(bits, out) := flush (Z.to_nat bits) p bits (packed s) in
  Packer (Z.land p (wrapping_sub 64 (default 0 (checked_shl 64 1 bits)) 1)) bits out.

Definition encode (input : bytes) (out : bytes) : bytes :=
  let s := fold_left encode_octet input (Packer 0 0 out) in
  if 0 <? pbits s then
    let pad := saturating_sub 8 (pbits s) in
    let ones := wrapping_sub 64 (default 0 (checked_shl 64 1 pad)) 1 in
    packed s ++ [low8 (Z.lor (default 0 (checked_shl 64 (pending s) pad)) ones)]
  else packed s.

(** [u32::count_ones] *)
Definition count_ones (x : Z) : Z :=
  fold_left (fun n i => n + Z.b2z (Z.testbit x i)) (seqZ 0 32) 0.

(** ** Decoding

    [emit] is the closure [decode_with] hands each octet to, with the state it
    captures threaded through; the state survives an error, as the vector of
    [decode_to_vec] does. *)
Section decode_with.
Context {S : Type} (emit : S -> Z -> S * result HuffmanError unit).

(** One bit: the body of the inner loop. *)
Definition decode_bit (code len : Z) (s : S) (bit : Z)
  : S * result HuffmanError (Z * Z) :=
  let code := Z.lor (default 0 (checked_shl 32 code 1)) bit in
  let len := saturating_add 32 len 1 in
  let first := default 0 (at_ FIRST len) in
  let count := default 0 (at_ COUNT len) in
  let no_match :=
    if MAX_CODE_LEN <=? len then (s, Err Padding) else (s, Ok (code, len)) in
  match checked_sub code first with
  | Some offset =>
      if offset <? count then
        let position := saturating_add 32 (default 0 (at_ INDEX len)) offset in
        let symbol := default EOS (at_ SYMBOLS position) in
        if symbol <? 256 then
          match emit s symbol with
          | (s, Ok _) => (s, Ok (0, 0))
          | (s, Err e) => (s, Err e)
          end
        else (s, Err Eos)
      else no_match
  | None => no_match
  end.

(** [for shift in (0..8u32).rev()], over the shifts still to do. *)
Fixpoint decode_octet (shifts : list Z) (octet code len : Z) (s : S)
  : S * result HuffmanError (Z * Z) :=
  match shifts with
  | [] => (s, Ok (code, len))
  | shift :: shifts =>
      let bit := Z.land (default 0 (checked_shr 8 octet shift)) 1 in
      match decode_bit code len s bit with
      | (s, Ok (code, len)) => decode_octet shifts octet code len s
      | (s, Err e) => (s, Err e)
      end
  end.

Fixpoint decode_octets (input : bytes) (code len : Z) (s : S)
  : S * result HuffmanError (Z * Z) :=
  match input with
  | [] => (s, Ok (code, len))
  | octet :: input =>
      match decode_octet [7; 6; 5; 4; 3; 2; 1; 0] octet code len s with
      | (s, Ok (code, len)) => decode_octets input code len s
      | (s, Err e) => (s, Err e)
      end
  end.

Definition decode_with (input : bytes) (s : S) : S * result HuffmanError unit :=
  match decode_octets input 0 0 s with
  | (s, Err e) => (s, Err e)
  | (s, Ok (code, len)) =>
      if 7 <? len then (s, Err Padding)
      else if negb (count_ones code =? len) then (s, Err PaddingNotEos)
      else (s, Ok tt)
  end.
End decode_with.

(** The slice API: the slots still free and the octets written. *)
Definition emit_slice (s : nat * bytes) (octet : Z) : (nat * bytes) * result HuffmanError unit :=
  match s with
  | (O, written) => ((O, written), Err OutputFull)
  | (Datatypes.S free, written) => ((free, written ++ [octet]), Ok tt)
  end.

Definition decode (input : bytes) (out : bytes) : bytes * result HuffmanError nat :=
  match decode_with emit_slice input (length out, []) with
  | ((_, written), r) =>
      (written ++ drop (length written) out,
       let? _ := r in Ok (length written))
  end.

Definition emit_vec (out : bytes) (octet : Z) : bytes * result HuffmanError unit :=
  (out ++ [octet], Ok tt).

Definition decode_to_vec (input : bytes) (out : bytes) : bytes * result HuffmanError unit :=
  decode_with emit_vec input out.

(** RFC 7541 Appendix C.4.1. *)
Example encode_c41 : encode (bs "www.example.com") [] =
  [0xf1; 0xe3; 0xc2; 0xe5; 0xf2; 0x3a; 0x6b; 0xa0; 0xab; 0x90; 0xf4; 0xff].
Proof. reflexivity. Qed.
Example decode_c41 : decode_to_vec
  [0xf1; 0xe3; 0xc2; 0xe5; 0xf2; 0x3a; 0x6b; 0xa0; 0xab; 0x90; 0xf4; 0xff] []
  = (bs "www.example.com", Ok tt).
Proof. vm_compute. reflexivity. Qed.

(** ** The code as bit strings *)

Definition code_bits (octet : Z) : list bool :=
  msb (Z.to_nat (code_of octet).2) (code_of octet).1.

(** The bits RFC 7541 Section 5.2 assigns to a string, before padding. *)
Definition string_bits (input : bytes) : list bool := mbind code_bits input.

Lemma code_of_bounds octet :
  u8 octet -> 5 <= (code_of octet).2 <= 30 /\ 0 <= (code_of octet).1 < 2 ^ (code_of octet).2.
Proof.
  intros Ho.
  pose proof (octet_forall (fun o => let '(c, l) := code_of o in
    (5 <=? l) && (l <=? 30) && (0 <=? c) && (c <? 2 ^ l)) ltac:(vm_compute; reflexivity) _ Ho) as H.
  cbn beta in H. destruct (code_of octet) as [c l]. cbn [fst snd].
  rewrite !andb_true_iff in H. lia.
Qed.

Lemma string_bits_snoc l o : string_bits (l ++ [o]) = string_bits l ++ code_bits o.
Proof. unfold string_bits. rewrite bind_app. f_equal. cbn. apply app_nil_r. Qed.

Lemma octets_snoc l b : octets l -> u8 b -> octets (l ++ [b]).
Proof. intros Hl Hb. apply Forall_app. split; [done|]. by constructor. Qed.

Lemma low8_u8 x : u8 (low8 x).
Proof. unfold low8. pose proof (Z.mod_pos_bound x 256). word_lia. Qed.

Lemma flush_spec fuel p bits out :
  0 <= bits < 64 -> bits <= 8 * Z.of_nat fuel + 7 -> octets out ->
  exists b out', flush fuel p bits out = (b, out') /\ 0 <= b < 8 /\ octets out' /\
    octets_bits out' ++ msb (Z.to_nat b) p = octets_bits out ++ msb (Z.to_nat bits) p.
Proof.
  revert bits out. induction fuel as [|fuel IH]; intros bits out Hb Hf Ho; cbn [flush].
  { exists bits, out. repeat split; (done || lia). }
  destruct (Z.leb_spec 8 bits) as [Hge|]; [|exists bits, out; repeat split; (done || lia)].
  unfold saturating_sub. rewrite Z.max_r by lia. rewrite default_shr by lia.
  destruct (IH (bits - 8) (out ++ [low8 (Z.shiftr p (bits - 8))]))
    as (b & out' & -> & Hb' & Ho' & Heq); [lia | lia | by apply octets_snoc, low8_u8 |].
  exists b, out'. split; [done|]. do 2 (split; [done|]). rewrite Heq, octets_bits_snoc.
  rewrite <- app_assoc. f_equal.
  replace (Z.to_nat bits) with (8 + Z.to_nat (bits - 8))%nat by lia.
  rewrite msb_split, Z2Nat.id by lia. f_equal. exact (msb_mod 8 _ 8 ltac:(lia)).
Qed.

(** What the packer has seen is in its octets and its pending bits. *)
Definition packer_ok (s : packer) (seen : list bool) : Prop :=
  0 <= pbits s < 8 /\ 0 <= pending s < 2 ^ pbits s /\ octets (packed s) /\
  octets_bits (packed s) ++ msb (Z.to_nat (pbits s)) (pending s) = seen.

Lemma shl_small x s : 0 <= x < 2 ^ 7 -> 0 <= s <= 30 -> default 0 (checked_shl 64 x s) = Z.shiftl x s.
Proof.
  intros Hx Hs. unfold checked_shl. bool_lia. cbn.
  apply Z.mod_small. rewrite Z.shiftl_mul_pow2 by lia.
  assert (2 ^ s <= 2 ^ 30) by (apply Z.pow_le_mono_r; lia).
  assert (0 < 2 ^ s) by (apply Z.pow_pos_nonneg; lia). pow2. nia.
Qed.

Lemma ones_word b : 0 <= b <= 8 -> wrapping_sub 64 (default 0 (checked_shl 64 1 b)) 1 = Z.ones b.
Proof.
  intros Hb. rewrite shl_small, Z.shiftl_1_l, Z.ones_equiv by (pow2; lia).
  unfold wrapping_sub. apply Z.mod_small.
  assert (2 ^ b <= 2 ^ 8) by (apply Z.pow_le_mono_r; lia).
  assert (0 < 2 ^ b) by (apply Z.pow_pos_nonneg; lia). pow2. lia.
Qed.

Lemma encode_octet_ok s seen octet :
  u8 octet -> packer_ok s seen -> packer_ok (encode_octet s octet) (seen ++ code_bits octet).
Proof.
  intros Ho (Hb & Hp & Hout & Hseen). unfold encode_octet, code_bits.
  destruct (code_of_bounds octet Ho) as [Hl Hc]. destruct (code_of octet) as [c l].
  cbn [fst snd] in *.
  assert (2 ^ pbits s <= 2 ^ 7) by (apply Z.pow_le_mono_r; lia).
  rewrite shl_small by lia. unfold saturating_add. rewrite Z.min_l by (pow2; lia).
  destruct (flush_spec (Z.to_nat (pbits s + l)) (Z.lor (Z.shiftl (pending s) l) c) (pbits s + l)
    (packed s)) as (b & out' & -> & Hb' & Ho' & Heq); [lia | lia | done |].
  rewrite ones_word by lia. unfold packer_ok. cbn [pbits pending packed].
  rewrite Z.land_ones by lia.
  split; [done|]. split; [apply Z.mod_pos_bound, Z.pow_pos_nonneg; lia|]. split; [done|].
  rewrite msb_mod by lia. rewrite Heq, <- Hseen, <- app_assoc. f_equal.
  rewrite Z2Nat.inj_add by lia. rewrite <- (Z2Nat.id l) at 2 by lia.
  apply msb_join. rewrite Z2Nat.id; lia.
Qed.

Lemma encode_fold_ok input s seen :
  octets input -> packer_ok s seen ->
  packer_ok (fold_left encode_octet input s) (seen ++ string_bits input).
Proof.
  intros Hi. revert s seen. induction Hi as [|o input Ho Hi IH]; intros s seen Hs; cbn [fold_left].
  - cbn. by rewrite app_nil_r.
  - replace (seen ++ string_bits (o :: input))
      with ((seen ++ code_bits o) ++ string_bits input) by (cbn; by rewrite <- app_assoc).
    by apply IH, encode_octet_ok.
Qed.

(** The encoding is the bits of the codes, padded with fewer than eight ones. *)
Lemma encode_bits input :
  octets input ->
  octets (encode input []) /\
  exists k, (k < 8)%nat /\ octets_bits (encode input []) = string_bits input ++ replicate k true.
Proof.
  intros Hi. unfold encode.
  destruct (encode_fold_ok input (Packer 0 0 []) [] Hi) as (Hb & Hp & Ho & Hs).
  { unfold packer_ok. cbn. repeat split; (done || lia || constructor). }
  set (s := fold_left encode_octet input (Packer 0 0 [])) in *. cbn [app] in Hs.
  destruct (Z.ltb_spec 0 (pbits s)) as [Hpos|Hz].
  - unfold saturating_sub. rewrite Z.max_r by lia.
    assert (2 ^ pbits s <= 2 ^ 7) by (apply Z.pow_le_mono_r; lia).
    rewrite shl_small, ones_word by lia.
    split; [by apply octets_snoc, low8_u8|].
    exists (Z.to_nat (8 - pbits s)). split; [lia|].
    rewrite octets_bits_snoc, <- Hs, <- app_assoc. f_equal.
    rewrite <- msb_ones. unfold low8. change 256 with (2 ^ 8). rewrite msb_mod by lia.
    replace 8%nat with (Z.to_nat (pbits s) + Z.to_nat (8 - pbits s))%nat by lia.
    rewrite <- (Z2Nat.id (8 - pbits s)) at 2 3 by lia. apply msb_join.
    rewrite Z.ones_equiv. pose proof (Z.pow_pos_nonneg 2 (Z.of_nat (Z.to_nat (8 - pbits s)))). lia.
  - split; [done|]. exists 0%nat. split; [lia|]. cbn [replicate]. rewrite app_nil_r, <- Hs.
    replace (pbits s) with 0 by lia. cbn. by rewrite app_nil_r.
Qed.

(** ** The decoder, one bit at a time *)

Section run.
Context {S : Type} (emit : S -> Z -> S * result HuffmanError unit).

Fixpoint run (l : list bool) (code len : Z) (s : S) : S * result HuffmanError (Z * Z) :=
  match l with
  | [] => (s, Ok (code, len))
  | b :: l =>
      match decode_bit emit code len s (Z.b2z b) with
      | (s, Ok (code, len)) => run l code len s
      | (s, Err e) => (s, Err e)
      end
  end.

Lemma huff_run_app l m code len s :
  run (l ++ m) code len s =
    match run l code len s with
    | (s, Ok (code, len)) => run m code len s
    | (s, Err e) => (s, Err e)
    end.
Proof.
  revert code len s. induction l as [|b l IH]; intros code len s; cbn [run app]; [done|].
  by destruct (decode_bit _ _ _ _ _) as [s' [[c' l']|e]].
Qed.

Lemma decode_octet_run shifts octet code len s :
  u8 octet -> Forall (fun i => 0 <= i < 8) shifts ->
  decode_octet emit shifts octet code len s = run (map (Z.testbit octet) shifts) code len s.
Proof.
  intros Ho Hs. revert code len s.
  induction Hs as [|i shifts Hi Hs IH]; intros code len s; [done|].
  cbn [decode_octet run map].
  replace (Z.land (default 0 (checked_shr 8 octet i)) 1) with (Z.b2z (Z.testbit octet i)).
  2: { rewrite default_shr by lia. change 1 with (Z.ones 1). rewrite Z.land_ones by lia.
       by rewrite <- Z.bit0_mod, Z.shiftr_spec, Z.add_0_l by lia. }
  destruct (decode_bit _ _ _ _ _) as [? [[? ?]|?]]; done.
Qed.

Lemma decode_octets_run input code len s :
  octets input -> decode_octets emit input code len s = run (octets_bits input) code len s.
Proof.
  intros Hi. revert code len s. induction Hi as [|o input Ho Hi IH]; intros code len s; [done|].
  cbn [decode_octets]. rewrite decode_octet_run by (done || (repeat constructor; lia)).
  change (map (Z.testbit o) _) with (msb 8 o).
  change (octets_bits (o :: input)) with (msb 8 o ++ octets_bits input). rewrite huff_run_app.
  by destruct (run (msb 8 o) code len s) as [s' [[c' l']|e]].
Qed.
End run.

(** The vector only grows. *)
Lemma decode_bit_vec code len out b :
  decode_bit emit_vec code len out b =
    (out ++ (decode_bit emit_vec code len [] b).1, (decode_bit emit_vec code len [] b).2).
Proof.
  unfold decode_bit. cbn zeta.
  destruct (checked_sub _ _) as [offset|].
  - destruct (offset <? _); [|destruct (_ <=? _); cbn; by rewrite app_nil_r].
    destruct (_ <? 256); cbn; by rewrite ?app_nil_r.
  - destruct (_ <=? _); cbn; by rewrite app_nil_r.
Qed.

Lemma run_vec l code len out :
  run emit_vec l code len out =
    (out ++ (run emit_vec l code len []).1, (run emit_vec l code len []).2).
Proof.
  revert code len out. induction l as [|b l IH]; intros code len out; cbn [run].
  { cbn. by rewrite app_nil_r. }
  rewrite decode_bit_vec. destruct (decode_bit emit_vec code len [] (Z.b2z b)) as [o [[c' l']|e]];
    cbn [fst snd]; [|done].
  rewrite IH, (IH c' l' o). cbn [fst snd]. by rewrite app_assoc.
Qed.

Lemma run_code_bits o : u8 o -> run emit_vec (code_bits o) 0 0 [] = ([o], Ok (0, 0)).
Proof.
  intros Ho.
  assert (forallb (fun o => bool_decide
    (run emit_vec (code_bits o) 0 0 [] = ([o], Ok (0, 0)))) (seqZ 0 256) = true) as H
    by (vm_compute; reflexivity).
  apply (octet_forall _ H) in Ho. by apply bool_decide_eq_true in Ho.
Qed.

Lemma run_string_bits input out :
  octets input -> run emit_vec (string_bits input) 0 0 out = (out ++ input, Ok (0, 0)).
Proof.
  intros Hi. revert out. induction Hi as [|o input Ho Hi IH]; intros out.
  { cbn. by rewrite app_nil_r. }
  change (string_bits (o :: input)) with (code_bits o ++ string_bits input).
  rewrite huff_run_app, run_vec, run_code_bits by done. cbn [fst snd].
  by rewrite IH, <- app_assoc.
Qed.

Lemma run_padding k :
  (k < 8)%nat -> run emit_vec (replicate k true) 0 0 [] = ([], Ok (Z.ones (Z.of_nat k), Z.of_nat k)).
Proof. intros Hk. do 8 (destruct k as [|k]; [reflexivity|]). lia. Qed.

(** The derived tables agree with [CODES]: what the range test finds is the symbol
    whose code was read. *)
Lemma tables_agree len offset :
  0 <= len <= 30 -> 0 <= offset < default 0 (at_ COUNT len) ->
  let s := default EOS (at_ SYMBOLS (default 0 (at_ INDEX len) + offset)) in
  0 <= s /\ default 0 (at_ INDEX len) + offset < 257 /\
  (s < 256 -> code_of s = (default 0 (at_ FIRST len) + offset, len)).
Proof.
  intros Hl Ho.
  assert (forallb (fun len => forallb (fun offset =>
      let s := default EOS (at_ SYMBOLS (default 0 (at_ INDEX len) + offset)) in
      (0 <=? s) && (default 0 (at_ INDEX len) + offset <? 257) &&
      implb (s <? 256) (bool_decide (code_of s = (default 0 (at_ FIRST len) + offset, len))))
    (seqZ 0 (default 0 (at_ COUNT len)))) (seqZ 0 31) = true) as H by (vm_compute; reflexivity).
  rewrite forallb_forall in H. specialize (H len).
  rewrite forallb_forall in H. specialize (H ltac:(apply list_elem_of_In, elem_of_seqZ; lia) offset
    ltac:(apply list_elem_of_In, elem_of_seqZ; lia)).
  cbn zeta in *. set (s := default EOS _) in *.
  rewrite !andb_true_iff in H. destruct H as [[? ?] H]. split; [lia|]. split; [lia|].
  intros Hs. rewrite (proj2 (Z.ltb_lt s 256)) in H by done. by apply bool_decide_eq_true in H.
Qed.

Lemma index_small len : 0 <= len <= 30 -> 0 <= default 0 (at_ INDEX len).
Proof.
  intros Hl.
  assert (forallb (fun len => 0 <=? default 0 (at_ INDEX len)) (seqZ 0 31) = true) as H
    by (vm_compute; reflexivity).
  rewrite forallb_forall in H. apply Z.leb_le, H, list_elem_of_In, elem_of_seqZ. lia.
Qed.

(** What one bit does: the code grows, or one symbol whose code is now complete is
    emitted. *)
Lemma decode_bit_spec code len (b : bool) out code' len' :
  0 <= len < 30 -> 0 <= code < 2 ^ len ->
  decode_bit emit_vec code len [] (Z.b2z b) = (out, Ok (code', len')) ->
  (out = [] /\ code' = 2 * code + Z.b2z b /\ len' = len + 1 /\ len' < 30) \/
  (exists o, out = [o] /\ u8 o /\ code_of o = (2 * code + Z.b2z b, len + 1) /\
    code' = 0 /\ len' = 0).
Proof.
  intros Hl Hc. unfold decode_bit. cbn zeta.
  assert (Z.lor (default 0 (checked_shl 32 code 1)) (Z.b2z b) = 2 * code + Z.b2z b) as ->.
  { unfold checked_shl. bool_lia. cbn. assert (2 ^ len <= 2 ^ 29) by (apply Z.pow_le_mono_r; lia).
    rewrite Z.mod_small by (rewrite Z.shiftl_mul_pow2 by lia; pow2; lia).
    rewrite Z.shiftl_mul_pow2 by lia. destruct b; cbn [Z.b2z]; [|by rewrite Z.lor_0_r; lia].
    change (2 ^ 1) with 2. rewrite Z.mul_comm. destruct code; try lia; done. }
  replace (saturating_add 32 len 1) with (len + 1) by (unfold saturating_add; pow2; lia).
  assert (0 <= 2 * code + Z.b2z b) by (destruct b; cbn; lia).
  set (c := 2 * code + Z.b2z b) in *. unfold MAX_CODE_LEN.
  destruct (checked_sub c _) as [offset|] eqn:Hsub.
  2: { destruct (Z.leb_spec 30 (len + 1)); [done|]. intros [= <- <- <-]. left. repeat split; (done || lia). }
  destruct (Z.ltb_spec offset (default 0 (at_ COUNT (len + 1)))) as [Hlt|].
  2: { destruct (Z.leb_spec 30 (len + 1)); [done|]. intros [= <- <- <-]. left. repeat split; (done || lia). }
  unfold checked_sub in Hsub. destruct (Z.leb_spec (default 0 (at_ FIRST (len + 1))) c); [|done].
  injection Hsub as <-.
  destruct (tables_agree (len + 1) (c - default 0 (at_ FIRST (len + 1)))) as (Hs0 & Hs1 & Hs2);
    [lia | lia |].
  pose proof (index_small (len + 1) ltac:(lia)).
  unfold saturating_add. rewrite Z.min_l by (pow2; lia).
  set (s := default EOS _) in *. destruct (Z.ltb_spec s 256); [|done].
  cbn. intros [= <- <- <-]. right. exists s. split; [done|]. split; [word_lia|].
  split; [|done]. rewrite Hs2 by done. f_equal. lia.
Qed.

Lemma run_sound l : forall code len out code' len',
  0 <= len < 30 -> 0 <= code < 2 ^ len ->
  run emit_vec l code len [] = (out, Ok (code', len')) ->
  octets out /\ 0 <= len' < 30 /\ 0 <= code' < 2 ^ len' /\
  msb (Z.to_nat len) code ++ l = string_bits out ++ msb (Z.to_nat len') code'.
Proof.
  induction l as [|b l IH]; intros code len out code' len' Hl Hc; cbn [run].
  { intros [= <- <- <-]. rewrite app_nil_r. repeat split; (constructor || lia || done). }
  destruct (decode_bit emit_vec code len [] (Z.b2z b)) as [o [[c1 l1]|e]] eqn:Hbit; [|done].
  rewrite run_vec. destruct (run emit_vec l c1 l1 []) as [out1 r] eqn:Hrun. cbn [fst snd].
  intros [= <- ->].
  assert (msb (Z.to_nat (len + 1)) (2 * code + Z.b2z b) = msb (Z.to_nat len) code ++ [b]) as Hmsb.
  { replace (Z.to_nat (len + 1)) with (Z.to_nat len + 1)%nat by lia. rewrite msb_split. f_equal.
    - f_equal. change (Z.of_nat 1) with 1. rewrite Z.shiftr_div_pow2 by lia. symmetry.
      apply (Z.div_unique _ _ _ (Z.b2z b)); destruct b; cbn; lia.
    - cbn. f_equal. rewrite Z.add_comm. apply Z.add_b2z_double_bit0. }
  apply decode_bit_spec in Hbit; [|done..].
  destruct Hbit as [(-> & -> & -> & ?)|(s & -> & Hs & Hcode & -> & ->)].
  - apply IH in Hrun as (Ho & Hl' & Hc' & Heq);
      [| lia | rewrite Z.pow_add_r by lia; destruct b; cbn; lia].
    repeat split; try done; try lia.
    cbn [app]. rewrite <- Heq, Hmsb, <- app_assoc. done.
  - apply IH in Hrun as (Ho & Hl' & Hc' & Heq); [| lia | cbn; lia].
    cbn [msb Z.to_nat app] in Heq.
    split; [by constructor|]. do 2 (split; [done|]).
    change (string_bits ([s] ++ out1)) with (code_bits s ++ string_bits out1).
    rewrite <- app_assoc, <- Heq. unfold code_bits. rewrite Hcode. cbn [fst snd].
    rewrite Hmsb, <- app_assoc. done.
Qed.

(** ** Round trip *)

Lemma count_ones_full len code :
  0 <= len <= 7 -> 0 <= code < 2 ^ len -> count_ones code = len -> code = Z.ones len.
Proof.
  intros Hl Hc H.
  assert (forallb (fun len => forallb (fun code =>
    implb (count_ones code =? len) (code =? Z.ones len)) (seqZ 0 (2 ^ len))) (seqZ 0 8) = true)
    as Ht by (vm_compute; reflexivity).
  rewrite forallb_forall in Ht. specialize (Ht len ltac:(apply list_elem_of_In, elem_of_seqZ; lia)).
  rewrite forallb_forall in Ht. specialize (Ht code ltac:(apply list_elem_of_In, elem_of_seqZ; lia)).
  rewrite H, Z.eqb_refl in Ht. by apply Z.eqb_eq.
Qed.

Lemma count_ones_ones k : (k < 8)%nat -> count_ones (Z.ones (Z.of_nat k)) = Z.of_nat k.
Proof. intros Hk. do 8 (destruct k as [|k]; [reflexivity|]). lia. Qed.

Lemma decode_to_vec_encode input out :
  octets input -> decode_to_vec (encode input []) out = (out ++ input, Ok tt).
Proof.
  intros Hi. destruct (encode_bits input Hi) as (Ho & k & Hk & Hbits).
  unfold decode_to_vec, decode_with. rewrite decode_octets_run, Hbits, huff_run_app by done.
  rewrite run_string_bits, run_vec, run_padding by done. cbn [fst snd].
  rewrite app_nil_r, count_ones_ones, Z.eqb_refl by done. bool_lia. done.
Qed.

Lemma decode_to_vec_sound input out :
  octets input -> decode_to_vec input [] = (out, Ok tt) -> octets out /\ input = encode out [].
Proof.
  intros Hi. unfold decode_to_vec, decode_with. rewrite decode_octets_run by done.
  destruct (run emit_vec (octets_bits input) 0 0 []) as [out' [[code len]|e]] eqn:Hrun; [|done].
  destruct (Z.ltb_spec 7 len); [done|].
  destruct (Z.eqb_spec (count_ones code) len) as [Hones|]; [|done]. intros [= ->].
  apply run_sound in Hrun as (Ho & Hl & Hc & Heq); [|lia|cbn; lia].
  split; [done|]. destruct (encode_bits out Ho) as (Heo & k & Hk & Hbits).
  apply octets_bits_inj; [done..|].
  rewrite (count_ones_full len code) in Heq by lia.
  change (octets_bits input = string_bits out ++ msb (Z.to_nat len) (Z.ones len)) in Heq.
  rewrite <- (Z2Nat.id len) in Heq at 2 by lia. rewrite msb_ones in Heq.
  rewrite Heq, Hbits. f_equal. f_equal.
  apply (f_equal length) in Heq. apply (f_equal length) in Hbits.
  rewrite length_octets_bits, length_app, length_replicate in *. lia.
Qed.

(** The encoder appends: earlier output is untouched. *)
Lemma flush_app fuel p bits out :
  flush fuel p bits out = ((flush fuel p bits []).1, out ++ (flush fuel p bits []).2).
Proof.
  revert bits out. induction fuel as [|fuel IH]; intros bits out; cbn [flush fst snd];
    [by rewrite app_nil_r|].
  destruct (8 <=? bits); cbn [fst snd]; [|by rewrite app_nil_r].
  rewrite IH, (IH _ ([] ++ _)). cbn [fst snd app]. by rewrite <- app_assoc.
Qed.

Lemma encode_app input out : encode input out = out ++ encode input [].
Proof.
  assert (forall s, fold_left encode_octet input s =
    let t := fold_left encode_octet input (Packer (pending s) (pbits s) []) in
    Packer (pending t) (pbits t) (packed s ++ packed t)) as H.
  { induction input as [|o input IH]; intros s; cbn zeta; cbn [fold_left pending pbits packed].
    { rewrite app_nil_r. by destruct s. }
    rewrite IH, (IH (encode_octet (Packer _ _ []) o)). cbn zeta.
    assert (encode_octet s o =
      let t := encode_octet (Packer (pending s) (pbits s) []) o in
      Packer (pending t) (pbits t) (packed s ++ packed t)) as ->.
    { unfold encode_octet. cbn [pending pbits packed]. destruct (code_of o) as [c l].
      rewrite (flush_app _ _ _ (packed s)). by destruct (flush _ _ _ []) as [b o']. }
    cbn [pending pbits packed]. by rewrite app_assoc. }
  unfold encode. rewrite H. cbn [pending pbits packed].
  destruct (0 <? _); by rewrite <- ?app_assoc.
Qed.

Lemma length_string_bits input :
  octets input -> (5 * length input <= length (string_bits input) <= 30 * length input)%nat.
Proof.
  induction 1 as [|o input Ho Hi IH]; [done|].
  change (string_bits (o :: input)) with (code_bits o ++ string_bits input).
  rewrite length_app. assert (length (code_bits o) = Z.to_nat (code_of o).2) by apply length_msb.
  destruct (code_of_bounds o Ho) as [? _]. cbn [length]. lia.
Qed.

(** [encoded_len] announces what [encode] writes. *)
Lemma encoded_len_exact input :
  octets input -> len input < 2 ^ 58 -> encoded_len input = len (encode input []).
Proof.
  intros Hi Hlen. destruct (encode_bits input Hi) as (_ & k & Hk & Hbits).
  apply (f_equal length) in Hbits.
  rewrite length_octets_bits, length_app, length_replicate in Hbits.
  pose proof (length_string_bits input Hi) as Hs.
  assert (forall acc, 0 <= acc -> acc + Z.of_nat (length (string_bits input)) < 2 ^ 63 ->
    fold_left (fun bits octet => saturating_add 64 bits (code_of octet).2) input acc
      = acc + Z.of_nat (length (string_bits input))) as Hfold.
  { clear -Hi. induction Hi as [|o input Ho Hi IH]; intros acc Ha Hb; cbn [fold_left]; [cbn; lia|].
    change (string_bits (o :: input)) with (code_bits o ++ string_bits input) in *.
    rewrite length_app in *. unfold code_bits in *. rewrite length_msb in *.
    destruct (code_of_bounds o Ho) as [? _]. unfold saturating_add in *.
    rewrite Z.min_l by (pow2; lia). rewrite IH by lia. lia. }
  unfold encoded_len. rewrite Hfold by word_lia.
  unfold saturating_add. rewrite Z.min_l by word_lia. rewrite default_shr by lia.
  rewrite Z.shiftr_div_pow2 by lia. unfold len. change (2 ^ 3) with 8.
  symmetry. apply (Z.div_unique _ _ _ (7 - Z.of_nat k)); lia.
Qed.

(** The capacity [decode_to_vec] reserves is enough. *)
Lemma decoded_len_bound_value n :
  0 <= n < 2 ^ 60 -> decoded_len_bound n = 8 * n / 5.
Proof.
  intros Hn. unfold decoded_len_bound, checked_div, saturating_mul, saturating_add.
  change (5 =? 0) with false. cbn [from_option id].
  pose proof (Z.div_mod n 5 ltac:(lia)). pose proof (Z.mod_pos_bound n 5 ltac:(lia)).
  rewrite (Z.min_l (n / 5 * 8)) by word_lia. rewrite (Z.min_l (n mod 5 * 8)) by word_lia.
  pose proof (Z.div_mod (n mod 5 * 8) 5 ltac:(lia)).
  pose proof (Z.mod_pos_bound (n mod 5 * 8) 5 ltac:(lia)).
  rewrite Z.min_l by word_lia.
  apply (Z.div_unique _ _ _ ((n mod 5 * 8) mod 5)); lia.
Qed.

Lemma decode_to_vec_bound input out :
  octets input -> len input < 2 ^ 60 -> decode_to_vec input [] = (out, Ok tt) ->
  len out <= decoded_len_bound (len input).
Proof.
  intros Hi Hlen [Ho ->]%decode_to_vec_sound; [|done].
  destruct (encode_bits out Ho) as (_ & k & Hk & Hbits).
  apply (f_equal length) in Hbits.
  rewrite length_octets_bits, length_app, length_replicate in Hbits.
  pose proof (length_string_bits out Ho).
  rewrite decoded_len_bound_value by word_lia.
  apply Z.div_le_lower_bound; [lia|]. unfold len. lia.
Qed.

(** ** The slice API refines the vector API *)

Lemma run_slice l : forall code len free written,
  run emit_slice l code len (free, written) =
    (let v := run emit_vec l code len [] in
     if decide (length v.1 <= free)%nat
     then ((free - length v.1, written ++ v.1)%nat, v.2)
     else ((0%nat, written ++ take free v.1), Err OutputFull)).
Proof.
  induction l as [|b l IH]; intros code len free written; cbn [run].
  { cbn. by rewrite Nat.sub_0_r, app_nil_r. }
  assert (decode_bit emit_slice code len (free, written) (Z.b2z b) =
    let v := decode_bit emit_vec code len [] (Z.b2z b) in
    if decide (length v.1 <= free)%nat
    then ((free - length v.1, written ++ v.1)%nat, v.2)
    else ((0%nat, written ++ take free v.1), Err OutputFull)) as ->.
  { unfold decode_bit. cbn zeta.
    repeat match goal with
    | |- context [match checked_sub ?a ?b with _ => _ end] => destruct (checked_sub a b)
    | |- context [if ?c <? ?d then _ else _] => destruct (c <? d)
    | |- context [if ?c <=? ?d then _ else _] => destruct (c <=? d)
    end; destruct free; cbn; by rewrite ?app_nil_r, ?Nat.sub_0_r. }
  destruct (decode_bit emit_vec code len [] (Z.b2z b)) as [o r]. cbn zeta. cbn [fst snd].
  case_decide as Ho.
  - destruct r as [[c' l']|e]; [|by rewrite decide_True].
    rewrite IH, (run_vec l c' l' o). cbn zeta. cbn [fst snd]. rewrite length_app.
    repeat case_decide; try lia; rewrite <- app_assoc; [do 2 f_equal; lia|].
    rewrite take_app_ge by lia. done.
  - destruct r as [[c' l']|e]; cbn zeta; cbn [fst snd].
    + rewrite (run_vec l c' l' o). cbn [fst snd]. rewrite length_app.
      rewrite decide_False by lia. by rewrite take_app_le by lia.
    + by rewrite decide_False.
Qed.

Lemma decode_slice_ok input out v :
  octets input -> decode_to_vec input [] = (v, Ok tt) ->
  decode input out =
    (if decide (length v <= length out)%nat
     then (v ++ drop (length v) out, Ok (length v))
     else (take (length out) v, Err OutputFull)).
Proof.
  intros Hi. unfold decode_to_vec, decode, decode_with.
  rewrite !decode_octets_run by done. rewrite run_slice.
  destruct (run emit_vec (octets_bits input) 0 0 []) as [v' [[code len]|e]]; [|done].
  cbn zeta. cbn [fst snd]. destruct (7 <? len) eqn:?; [done|].
  destruct (negb _) eqn:?; [done|]. intros [= <-].
  case_decide; rewrite ?Heqb, ?Heqb0; cbn [app]; [done|].
  f_equal. rewrite drop_ge; [apply app_nil_r|]. rewrite length_take. lia.
Qed.

(** ** Properties *)

(** C17. The decoder accepts exactly what the encoder writes: an input decodes to a
    text when it is the encoding of that text, and nothing else does, so padding that
    is too long or not made of ones, and an EOS symbol, are refused. *)
Theorem decode_accepts_encodings input out :
  octets input ->
  decode_to_vec input [] = (out, Ok tt) <-> octets out /\ input = encode out [].
Proof.
  intros Hi. split; [by apply decode_to_vec_sound|]. intros [Ho ->].
  by rewrite decode_to_vec_encode.
Qed.

Lemma decode_accepts_encodings_witness : decode_to_vec [0x1f] [] = ([97], Ok tt).
Proof.
  apply (decode_accepts_encodings [0x1f] [97]); [apply (bool_decide_unpack _); vm_compute; exact I|].
  split; [apply (bool_decide_unpack _); vm_compute; exact I|vm_compute; reflexivity].
Defined.

(** The lengths announced are exact: [encoded_len] is the number of octets
    [encode] appends, and a decoded text never exceeds the room [decoded_len_bound]
    reserves, which is floor(8n/5). *)
Theorem huffman_lengths text input out :
  octets text -> len text < 2 ^ 58 -> octets input -> len input < 2 ^ 60 ->
  encoded_len text = len (encode text []) /\
  decoded_len_bound (len input) = 8 * len input / 5 /\
  (decode_to_vec input [] = (out, Ok tt) -> len out <= decoded_len_bound (len input)).
Proof.
  intros Ht Hlt Hi Hli. split; [by apply encoded_len_exact|].
  split; [apply decoded_len_bound_value; pose proof (len_nonneg input); lia|].
  by apply decode_to_vec_bound.
Qed.

Lemma huffman_lengths_witness :
  encoded_len (bs "www.example.com") = len (encode (bs "www.example.com") []) /\
  decoded_len_bound (len [0xff]) = 8 * len [0xff] / 5 /\
  (decode_to_vec [0xff] [] = ([], Ok tt) -> len (@nil Z) <= decoded_len_bound (len [0xff])).
Proof.
  apply huffman_lengths; try reflexivity; apply (bool_decide_unpack _); vm_compute; exact I.
Defined.

(** Decoding into a slice agrees with decoding into a vector: it fills the front
    of the slice and reports the length when the text fits, and otherwise reports
    that the output is full with the slice holding the front of the text. *)
Theorem decode_slice_refines input out v :
  octets input -> decode_to_vec input [] = (v, Ok tt) ->
  decode input out =
    (if decide (length v <= length out)%nat
     then (v ++ drop (length v) out, Ok (length v))
     else (take (length out) v, Err OutputFull)).
Proof. apply decode_slice_ok. Qed.

Lemma decode_slice_refines_witness :
  decode (encode (bs "ab") []) [1; 2; 3] =
    (if decide (length (bs "ab") <= length [1; 2; 3])%nat
     then (bs "ab" ++ drop (length (bs "ab")) [1; 2; 3], Ok (length (bs "ab")))
     else (take (length [1; 2; 3]) (bs "ab"), Err OutputFull)).
Proof.
  apply decode_slice_refines.
  - apply (bool_decide_unpack _). vm_compute. exact I.
  - vm_compute. reflexivity.
Defined.
