(* ===== verification/QString.v ===== *)
(** * String literals (zero-qpack, string.rs)

    An N-bit prefix string literal is the Huffman flag, the length as an
    (N-1)-bit prefix integer and the octets. *)
From S2P Require Import Prelude.
From S2P Require Import Stream.
From S2P Require QInteger.
From S2P Require Bits.
From S2P Require Huffman.

Record StringLiteral : Type := Literal { huffman : bool; data : bytes }.

#[global] Instance StringLiteral_eq_dec : EqDecision StringLiteral.
Proof. solve_decision. Defined.

Inductive StringPrefixBits : Type := P2 | P3 | P4 | P5 | P6 | P7 | P8.

Definition ALL : list StringPrefixBits := [P2; P3; P4; P5; P6; P7; P8].

Definition new (bits : Z) : option StringPrefixBits :=
  match bits with
  | 2 => Some P2 | 3 => Some P3 | 4 => Some P4 | 5 => Some P5
  | 6 => Some P6 | 7 => Some P7 | 8 => Some P8
  | _ => None
  end.

Definition huffman_flag (p : StringPrefixBits) : Z :=
  match p with
  | P2 => 0x02 | P3 => 0x04 | P4 => 0x08 | P5 => 0x10
  | P6 => 0x20 | P7 => 0x40 | P8 => 0x80
  end.

Definition length_prefix (p : StringPrefixBits) : QInteger.PrefixBits :=
  match p with
  | P2 => QInteger.P1 | P3 => QInteger.P2 | P4 => QInteger.P3 | P5 => QInteger.P4
  | P6 => QInteger.P5 | P7 => QInteger.P6 | P8 => QInteger.P7
  end.

Definition mask (p : StringPrefixBits) : Z :=
  Z.lor (huffman_flag p) (QInteger.mask (length_prefix p)).

Definition flags_of (p : StringPrefixBits) (flags : Z) (huffman : bool) : Z :=
  let flags := Z.land flags (not8 (mask p)) in
  if huffman then Z.lor flags (huffman_flag p) else flags.

Definition parse (input : bytes) (prefix : StringPrefixBits) (cap : Z)
  : result QInteger.IntegerError (option (StringLiteral * nat)) :=
  match head input with
  | None => Ok None
  | Some first =>
      let huffman := negb (Z.land first (huffman_flag prefix) =? 0) in
      let?? (n, used) := QInteger.decode input (length_prefix prefix) cap in
      let rest := drop used input in
      if len rest <? n then Ok None
      else
        let n := Nat.min (Z.to_nat n) (length rest) in
        let data := take n rest in
        Ok (Some (Literal huffman data, (used + n)%nat))
  end.

Definition decode (l : StringLiteral) : result Huffman.HuffmanError bytes :=
  if negb (huffman l) then Ok (data l)
  else
    match Huffman.decode_to_vec (data l) [] with
    | (out, Ok _) => Ok out
    | (_, Err e) => Err e
    end.

Definition encode (l : StringLiteral) (prefix : StringPrefixBits) (flags : Z) (out : bytes)
  : option bytes :=
  let n := len (data l) in
  let! out := QInteger.push n (length_prefix prefix) (flags_of prefix flags (huffman l)) out in
  Some (out ++ data l).

Definition encode_text (text : bytes) (huffman : bool) (prefix : StringPrefixBits) (flags : Z)
    (out : bytes) : option bytes :=
  if negb huffman then encode (Literal false text) prefix flags out
  else
    let! out := QInteger.push (Huffman.encoded_len text) (length_prefix prefix)
                  (flags_of prefix flags true) out in
    Some (Huffman.encode text out).

(** ** Encodings *)

Definition encoding (l : StringLiteral) (p : StringPrefixBits) (flags : Z) : bytes :=
  QInteger.encoding (len (data l)) (length_prefix p) (flags_of p flags (huffman l)) ++ data l.

Lemma str_encode_encoding l p flags out :
  len (data l) <= QInteger.MAX_VALUE -> encode l p flags out = Some (out ++ encoding l p flags).
Proof.
  intros Hl. unfold encode, encoding. rewrite QInteger.int_push_encoding by word_lia.
  by rewrite app_assoc.
Qed.

Lemma encode_too_long l p flags out :
  QInteger.MAX_VALUE < len (data l) -> encode l p flags out = None.
Proof. intros Hl. unfold encode. by rewrite QInteger.int_push_too_large. Qed.

(** Huffman coded text is the literal that holds its encoding. *)
Definition text_literal (text : bytes) (h : bool) : StringLiteral :=
  if h then Literal true (Huffman.encode text []) else Literal false text.

Lemma encode_text_literal text h p flags out :
  octets text -> len text < 2 ^ 58 ->
  encode_text text h p flags out = encode (text_literal text h) p flags out.
Proof.
  intros Ht Hl. unfold encode_text, encode. destruct h; [|done].
  cbn [negb text_literal data huffman].
  rewrite Huffman.encoded_len_exact by done.
  destruct (QInteger.push _ _ _ _); [|done]. by rewrite Huffman.encode_app.
Qed.

Lemma decode_text_literal text h :
  octets text -> decode (text_literal text h) = Ok text.
Proof.
  intros Ht. unfold decode. destruct h; [|done].
  cbn [text_literal huffman data negb]. by rewrite Huffman.decode_to_vec_encode.
Qed.

Lemma text_literal_octets text h : octets text -> octets (data (text_literal text h)).
Proof. intros Ht. destruct h; [|done]. apply (Huffman.encode_bits text Ht). Qed.

Lemma text_literal_len text h :
  octets text -> len text < 2 ^ 58 -> len (data (text_literal text h)) < 2 ^ 61.
Proof.
  intros Ht Hl. destruct h; cbn [text_literal data]; [|word_lia].
  destruct (Huffman.encode_bits text Ht) as (_ & k & Hk & Hb).
  apply (f_equal length) in Hb.
  rewrite Bits.length_octets_bits, length_app, length_replicate in Hb.
  pose proof (Huffman.length_string_bits text Ht). word_lia.
Qed.

(** ** Flags *)

Lemma huffman_flag_bits p :
  Z.land (huffman_flag p) (QInteger.mask (length_prefix p)) = 0 /\
  Z.land (not8 (QInteger.mask (length_prefix p))) (huffman_flag p) = huffman_flag p /\
  Z.land (not8 (mask p)) (huffman_flag p) = 0 /\ huffman_flag p <> 0.
Proof. by destruct p. Qed.

Lemma flags_of_huffman p flags h :
  negb (Z.land (flags_of p flags h) (huffman_flag p) =? 0) = h.
Proof.
  destruct (huffman_flag_bits p) as (_ & _ & Hz & Hn). unfold flags_of.
  destruct h; rewrite ?Z.land_lor_distr_l, <- Z.land_assoc, Hz, Z.land_0_r; [|done].
  rewrite Z.lor_0_l, Z.land_diag. by apply negb_true_iff, Z.eqb_neq.
Qed.

Lemma flags_of_u8 p flags h : u8 flags -> u8 (flags_of p flags h).
Proof.
  intros Hf. assert (u8 (Z.land flags (not8 (mask p)))) by (by apply land_octet; [|destruct p]).
  unfold flags_of. destruct h; [|done]. apply lor_octet; [done|]. destruct p; cbn; word_lia.
Qed.

(** A bit of the enclosing representation is read back from a literal. *)
Lemma str_encoding_flag l p flags k :
  Z.land k (mask p) = 0 -> Z.land (not8 (mask p)) k = k ->
  exists first rest, encoding l p flags = first :: rest /\ Z.land first k = Z.land flags k.
Proof.
  intros Hk Hn. unfold encoding.
  assert (Z.land k (huffman_flag p) = 0 /\ Z.land k (QInteger.mask (length_prefix p)) = 0) as [Hh Hm].
  { unfold mask in Hk. rewrite Z.land_lor_distr_r in Hk. by apply Z.lor_eq_0_iff in Hk. }
  destruct (QInteger.int_encoding_flag (len (data l)) (length_prefix p) (flags_of p flags (huffman l)) k)
    as (first & rest & Heq & Hfirst); [word_lia | done | |].
  { rewrite <- Hn, Z.land_assoc. f_equal. by destruct p. }
  exists first, (rest ++ data l). split; [by rewrite Heq|]. rewrite Hfirst. unfold flags_of.
  destruct (huffman l); rewrite ?Z.land_lor_distr_l, <- Z.land_assoc, Hn; [|done].
  by rewrite (Z.land_comm (huffman_flag p)), Hh, Z.lor_0_r.
Qed.

Lemma str_parse_encoding l p flags more cap :
  octets (data l) -> octets more -> u8 flags ->
  len (data l) <= QInteger.MAX_VALUE -> len (data l) <= cap ->
  parse (encoding l p flags ++ more) p cap = Ok (Some (l, length (encoding l p flags))).
Proof.
  intros Hd Hm Hf Hl Hcap. unfold parse, encoding. rewrite <- app_assoc.
  destruct (huffman_flag_bits p) as (Hb1 & Hb2 & _ & _).
  destruct (QInteger.int_encoding_flag (len (data l)) (length_prefix p) (flags_of p flags (huffman l))
    (huffman_flag p)) as (first & rest & Heq & Hfirst); [word_lia | done | done |].
  rewrite Heq. cbn [app head]. rewrite Hfirst, flags_of_huffman, app_comm_cons, <- Heq.
  rewrite QInteger.int_decode_encoding;
    [| word_lia | done | by apply flags_of_u8 | by apply Forall_app].
  rewrite drop_app_length. unfold len at 1. rewrite length_app.
  rewrite (proj2 (Z.ltb_ge _ _)) by word_lia.
  unfold len. rewrite Nat2Z.id, ?length_app, Nat.min_l, take_app_length by lia.
  rewrite app_comm_cons, <- Heq, length_app. by destruct l.
Qed.

(** ** The interface of an incremental parser *)

#[global] Instance parse_stream p cap : StreamParser (fun input => parse input p cap).
Proof.
  split.
  - intros input more l n. unfold parse. destruct (head input) as [first|] eqn:Hh; [|done].
    rewrite (head_app_Some _ more _ Hh).
    destruct (QInteger.decode input (length_prefix p) cap) as [[[v used]|]|e] eqn:Hd; [|done..].
    rewrite (QInteger.int_decode_app _ _ _ more _ Hd) by done. apply QInteger.int_decode_used in Hd.
    rewrite drop_app_le by lia. destruct (Z.ltb_spec (len (drop used input)) v); [done|].
    rewrite (proj2 (Z.ltb_ge _ _)) by (unfold len in *; rewrite length_app; lia).
    intros [= <- <-]. unfold len in *. rewrite length_app.
    rewrite !Nat.min_l, take_app_le by lia. done.
  - intros input more e. unfold parse. destruct (head input) as [first|] eqn:Hh; [|done].
    rewrite (head_app_Some _ more _ Hh).
    destruct (QInteger.decode input (length_prefix p) cap) as [[[v used]|]|e'] eqn:Hd; [|done|].
    { by destruct (_ <? _). }
    by rewrite (QInteger.int_decode_app _ _ _ more _ Hd).
  - intros input l n. unfold parse. destruct (head input) as [first|] eqn:Hh; [|done].
    destruct (QInteger.decode input (length_prefix p) cap) as [[[v used]|]|e'] eqn:Hd; [|done..].
    apply QInteger.int_decode_used in Hd. destruct (_ <? _); [done|].
    intros [= _ <-]. rewrite length_drop. lia.
Qed.

Lemma parse_app input p cap more r :
  parse input p cap = r -> r <> Ok None -> parse (input ++ more) p cap = r.
Proof. apply (stream_app (fun input => parse input p cap)). Qed.

Lemma str_parse_used input p cap l n :
  parse input p cap = Ok (Some (l, n)) -> (0 < n <= length input)%nat.
Proof. apply (stream_used (parse := fun input => parse input p cap)). Qed.

(** What a parsed literal spans, and that it respects the cap. *)
Lemma str_parse_sound input p cap l n :
  octets input -> 0 <= cap -> parse input p cap = Ok (Some (l, n)) ->
  octets (data l) /\ len (data l) <= Z.min cap QInteger.MAX_VALUE /\
  exists used, (used + length (data l) = n)%nat /\ data l = take (length (data l)) (drop used input).
Proof.
  intros Ho Hcap. unfold parse. destruct (head input) as [first|] eqn:Hh; [|done].
  pose proof (QInteger.decode_spec input (length_prefix p) cap Ho Hcap) as Hs.
  destruct (QInteger.decode input (length_prefix p) cap) as [[[v used]|]|e']; [|done..].
  destruct Hs as (_ & Hv & _ & _). destruct (Z.ltb_spec (len (drop used input)) v); [done|].
  intros [= <- <-]. cbn [data].
  assert (length (take (Nat.min (Z.to_nat v) (length (drop used input))) (drop used input))
    = Nat.min (Z.to_nat v) (length (drop used input))) as Hlen by (rewrite length_take; apply Nat.min_l, Nat.le_min_r).
  split; [by apply Forall_take, Forall_drop|]. split; [unfold QInteger.MAX_VALUE in *; word_lia|].
  exists used. rewrite Hlen. done.
Qed.

Lemma str_encoding_head l p flags more :
  exists first, head (encoding l p flags ++ more) = Some first /\
    forall k, Z.land k (mask p) = 0 -> Z.land (not8 (mask p)) k = k ->
      Z.land first k = Z.land flags k.
Proof.
  destruct (encoding l p flags) as [|first rest] eqn:He.
  { destruct (str_encoding_flag l p flags 0) as (? & ? & Heq & _);
      [done | by rewrite Z.land_0_r | congruence]. }
  exists first. split; [done|]. intros k Hk Hn.
  destruct (str_encoding_flag l p flags k Hk Hn) as (? & ? & Heq & Hf). congruence.
Qed.

(** Tests of the first octet only look at bits above the prefix, so they see the
    flags that were written. *)
Ltac first_octet_flags H :=
  repeat match goal with
  | |- context [Z.land ?first ?k] =>
      rewrite (H k) by (reflexivity || (unfold mask, not8; reflexivity))
  end.

(** ** Properties *)

(** A text survives the wire as a string literal, Huffman coded or not, under the
    flags of any enclosing representation and whatever follows. *)
Theorem text_roundtrip text h p flags out more cap :
  octets text -> len text < 2 ^ 58 -> u8 flags -> octets more ->
  len (data (text_literal text h)) <= cap ->
  exists wire l,
    encode_text text h p flags out = Some (out ++ wire) /\
    parse (wire ++ more) p cap = Ok (Some (l, length wire)) /\ decode l = Ok text.
Proof.
  intros Ht Hl Hf Hm Hc. exists (encoding (text_literal text h) p flags), (text_literal text h).
  pose proof (text_literal_len text h Ht Hl). split; [|split; [|by apply decode_text_literal]].
  - rewrite encode_text_literal by done. apply str_encode_encoding. unfold QInteger.MAX_VALUE. word_lia.
  - apply str_parse_encoding; try done; [by apply text_literal_octets|]. unfold QInteger.MAX_VALUE. word_lia.
Qed.

Lemma text_roundtrip_witness :
  exists wire l,
    encode_text (bs "no-cache") true P8 0 [5] = Some ([5] ++ wire) /\
    parse (wire ++ [1]) P8 100 = Ok (Some (l, length wire)) /\ decode l = Ok (bs "no-cache").
Proof.
  apply text_roundtrip; first [reflexivity | apply (bool_decide_unpack _); vm_compute; exact I
    | vm_compute; discriminate].
Defined.
