(* ===== verification/QError.v ===== *)
(** * The QPACK error model (zero-qpack, error.rs) *)
From S2P Require Import Prelude.
From S2P Require QInteger.
From S2P Require Huffman.

Definition QPACK_DECOMPRESSION_FAILED : Z := 0x0200.
Definition QPACK_ENCODER_STREAM_ERROR : Z := 0x0201.
Definition QPACK_DECODER_STREAM_ERROR : Z := 0x0202.

Inductive Place : Type := FieldSection | EncoderStream | DecoderStream.

Inductive Fault : Type :=
| Truncated
| Integer (error : QInteger.IntegerError)
| HuffmanFault (error : Huffman.HuffmanError)
| RequiredInsertCount
| NegativeBase
| DynamicReference
| InvalidStaticIndex
| CapacityExceeded
| EntryTooLarge
| InstructionAtCapacityZero
| UnexpectedAcknowledgment
| InvalidIncrement.

#[global] Instance Place_eq_dec : EqDecision Place.
Proof. solve_decision. Defined.
#[global] Instance Fault_eq_dec : EqDecision Fault.
Proof. solve_decision. Defined.

Definition integer_name (e : QInteger.IntegerError) : string :=
  match e with QInteger.TooLong => "tooLong" | QInteger.TooLarge => "tooLarge" end.

Definition huffman_name (e : Huffman.HuffmanError) : string :=
  match e with
  | Huffman.Padding => "padding"
  | Huffman.PaddingNotEos => "paddingNotEos"
  | Huffman.Eos => "eos"
  | Huffman.OutputFull => "outputFull"
  end.

Definition fault_name (f : Fault) : string :=
  match f with
  | Truncated => "truncated"
  | Integer error => integer_name error
  | HuffmanFault error => huffman_name error
  | RequiredInsertCount => "requiredInsertCount"
  | NegativeBase => "negativeBase"
  | DynamicReference => "dynamicReference"
  | InvalidStaticIndex => "invalidStaticIndex"
  | CapacityExceeded => "capacityExceeded"
  | EntryTooLarge => "entryTooLarge"
  | InstructionAtCapacityZero => "instructionAtCapacityZero"
  | UnexpectedAcknowledgment => "unexpectedAcknowledgment"
  | InvalidIncrement => "invalidIncrement"
  end.

Definition describe (f : Fault) : string * string :=
  match f with
  | Truncated => ("the input ended inside a representation", "RFC 9204 Section 4.5")
  | Integer QInteger.TooLong => ("an integer has too many continuation octets", "RFC 7541 Section 5.1")
  | Integer QInteger.TooLarge => ("a value is larger than the decoder accepts", "RFC 9204 Section 7.4")
  | HuffmanFault Huffman.Padding => ("Huffman padding is longer than 7 bits", "RFC 7541 Section 5.2")
  | HuffmanFault Huffman.PaddingNotEos => ("Huffman padding is not a prefix of EOS", "RFC 7541 Section 5.2")
  | HuffmanFault Huffman.Eos => ("a Huffman string contains EOS", "RFC 7541 Section 5.2")
  | HuffmanFault Huffman.OutputFull => ("the Huffman output buffer is too short", "a local condition of the slice API")
  | RequiredInsertCount => ("no conformant encoder produces this Required Insert Count", "RFC 9204 Section 4.5.1.1")
  | NegativeBase => ("the Base is negative", "RFC 9204 Section 4.5.1.2")
  | DynamicReference => ("a field line references an entry the dynamic table does not hold", "RFC 9204 Section 2.2.3")
  | InvalidStaticIndex => ("the static table index is invalid", "RFC 9204 Section 3.1")
  | CapacityExceeded => ("the dynamic table capacity exceeds the advertised maximum", "RFC 9204 Section 4.3.1")
  | EntryTooLarge => ("the entry is larger than the dynamic table capacity", "RFC 9204 Section 3.2.2")
  | InstructionAtCapacityZero => ("an encoder instruction arrived with a maximum table capacity of zero", "RFC 9204 Section 3.2.3")
  | UnexpectedAcknowledgment => ("no field section on that stream awaits acknowledgment", "RFC 9204 Section 4.4.1")
  | InvalidIncrement => ("the Insert Count Increment is zero or beyond the inserts sent", "RFC 9204 Section 4.4.3")
  end.

Record Error : Type := MkError { place : Place; fault : Fault }.

#[global] Instance Error_eq_dec : EqDecision Error.
Proof. solve_decision. Defined.

Definition code (e : Error) : Z :=
  match place e with
  | FieldSection => QPACK_DECOMPRESSION_FAILED
  | EncoderStream => QPACK_ENCODER_STREAM_ERROR
  | DecoderStream => QPACK_DECODER_STREAM_ERROR
  end.

Definition code_name (e : Error) : string :=
  match place e with
  | FieldSection => "QPACK_DECOMPRESSION_FAILED"
  | EncoderStream => "QPACK_ENCODER_STREAM_ERROR"
  | DecoderStream => "QPACK_DECODER_STREAM_ERROR"
  end.

Definition is_connection_error (e : Error) : bool :=
  negb (match place e, fault e with FieldSection, Integer _ => true | _, _ => false end).
