(* ===== verification/QTable.v ===== *)
(** * The static table (zero-qpack, table.rs) *)
From S2P Require Import Prelude.

Record StaticEntry : Type := MkEntry { name : bytes; value : bytes }.

Definition entry (name value : string) : StaticEntry := MkEntry (bs name) (bs value).

Definition STATIC_TABLE : list StaticEntry := [
   entry ":authority" "";
   entry ":path" "/";
   entry "age" "0";
   entry "content-disposition" "";
   entry "content-length" "0";
   entry "cookie" "";
   entry "date" "";
   entry "etag" "";
   entry "if-modified-since" "";
   entry "if-none-match" "";
   entry "last-modified" "";
   entry "link" "";
   entry "location" "";
   entry "referer" "";
   entry "set-cookie" "";
   entry ":method" "CONNECT";
   entry ":method" "DELETE";
   entry ":method" "GET";
   entry ":method" "HEAD";
   entry ":method" "OPTIONS";
   entry ":method" "POST";
   entry ":method" "PUT";
   entry ":scheme" "http";
   entry ":scheme" "https";
   entry ":status" "103";
   entry ":status" "200";
   entry ":status" "304";
   entry ":status" "404";
   entry ":status" "503";
   entry "accept" "*/*";
   entry "accept" "application/dns-message";
   entry "accept-encoding" "gzip, deflate, br";
   entry "accept-ranges" "bytes";
   entry "access-control-allow-headers" "cache-control";
   entry "access-control-allow-headers" "content-type";
   entry "access-control-allow-origin" "*";
   entry "cache-control" "max-age=0";
   entry "cache-control" "max-age=2592000";
   entry "cache-control" "max-age=604800";
   entry "cache-control" "no-cache";
   entry "cache-control" "no-store";
   entry "cache-control" "public, max-age=31536000";
   entry "content-encoding" "br";
   entry "content-encoding" "gzip";
   entry "content-type" "application/dns-message";
   entry "content-type" "application/javascript";
   entry "content-type" "application/json";
   entry "content-type" "application/x-www-form-urlencoded";
   entry "content-type" "image/gif";
   entry "content-type" "image/jpeg";
   entry "content-type" "image/png";
   entry "content-type" "text/css";
   entry "content-type" "text/html; charset=utf-8";
   entry "content-type" "text/plain";
   entry "content-type" "text/plain;charset=utf-8";
   entry "range" "bytes=0-";
   entry "strict-transport-security" "max-age=31536000";
   entry "strict-transport-security" "max-age=31536000; includesubdomains";
   entry "strict-transport-security" "max-age=31536000; includesubdomains; preload";
   entry "vary" "accept-encoding";
   entry "vary" "origin";
   entry "x-content-type-options" "nosniff";
   entry "x-xss-protection" "1; mode=block";
   entry ":status" "100";
   entry ":status" "204";
   entry ":status" "206";
   entry ":status" "302";
   entry ":status" "400";
   entry ":status" "403";
   entry ":status" "421";
   entry ":status" "425";
   entry ":status" "500";
   entry "accept-language" "";
   entry "access-control-allow-credentials" "FALSE";
   entry "access-control-allow-credentials" "TRUE";
   entry "access-control-allow-headers" "*";
   entry "access-control-allow-methods" "get";
   entry "access-control-allow-methods" "get, post, options";
   entry "access-control-allow-methods" "options";
   entry "access-control-expose-headers" "content-length";
   entry "access-control-request-headers" "content-type";
   entry "access-control-request-method" "get";
   entry "access-control-request-method" "post";
   entry "alt-svc" "clear";
   entry "authorization" "";
   entry "content-security-policy" "script-src 'none'; object-src 'none'; base-uri 'none'";
   entry "early-data" "1";
   entry "expect-ct" "";
   entry "forwarded" "";
   entry "if-range" "";
   entry "origin" "";
   entry "purpose" "prefetch";
   entry "server" "";
   entry "timing-allow-origin" "*";
   entry "upgrade-insecure-requests" "1";
   entry "user-agent" "";
   entry "x-forwarded-for" "";
   entry "x-frame-options" "deny";
   entry "x-frame-options" "sameorigin"].

(** Conversion never needs the entries themselves. *)
#[global] Strategy 1000 [STATIC_TABLE].

Definition get (index : Z) : option StaticEntry := STATIC_TABLE !! Z.to_nat index.

Inductive Match : Type := Full (index : Z) | Name (index : Z).

#[global] Instance Match_eq_dec : EqDecision Match.
Proof. solve_decision. Defined.

(** The loop of [find], [by_name] being the name match so far. *)
Fixpoint find_from (index : Z) (table : list StaticEntry) (n v : bytes) (by_name : option Match)
  : option Match :=
  match table with
  | [] => by_name
  | e :: table =>
      if negb (bool_decide (name e = n)) then find_from (index + 1) table n v by_name
      else if bool_decide (value e = v) then Some (Full index)
      else
        let by_name := match by_name with None => Some (Name index) | Some _ => by_name end in
        find_from (index + 1) table n v by_name
  end.

Definition find (n v : bytes) : option Match := find_from 0 STATIC_TABLE n v None.

Lemma table_length : length STATIC_TABLE = 99%nat.
Proof. reflexivity. Qed.

(** The lookup of an index of a wire integer fails above 98. *)
Lemma get_bounds index : 0 <= index -> is_Some (get index) <-> index <= 98.
Proof. intros Hi. unfold get. rewrite lookup_lt_is_Some, table_length. lia. Qed.

Lemma find_from_spec table n v : forall index acc,
  (acc = None \/ exists i, acc = Some (Name i)) ->
  match find_from index table n v acc with
  | Some (Full i) => exists k e, i = index + Z.of_nat k /\ table !! k = Some e /\ name e = n /\ value e = v
  | Some (Name i) =>
      Forall (fun e => name e = n -> value e <> v) table /\
      (acc = Some (Name i) \/
       acc = None /\ exists k e, i = index + Z.of_nat k /\ table !! k = Some e /\ name e = n /\
         Forall (fun e => name e <> n) (take k table))
  | None => acc = None /\ Forall (fun e => name e <> n) table
  end.
Proof.
  induction table as [|e table IH]; intros index acc Hacc; cbn [find_from].
  { destruct Hacc as [->|[i ->]]; [done|]. split; [constructor|]. by left. }
  case_bool_decide as Hn; cbn [negb].
  2: { specialize (IH (index + 1) acc Hacc). destruct (find_from _ _ _ _ _) as [[i|i]|].
    - destruct IH as (k & e' & -> & ? & ? & ?). exists (S k), e'. split; [lia|]. done.
    - destruct IH as [IH [->|(-> & k & e' & -> & ? & ? & ?)]].
      + split; [by constructor|]. by left.
      + split; [by constructor|]. right. split; [done|]. exists (S k), e'.
        split; [lia|]. split; [done|]. split; [done|]. by constructor.
    - destruct IH as [-> ?]. split; [done|]. by constructor. }
  case_bool_decide as Hv.
  { exists 0%nat, e. split; [lia|]. done. }
  set (acc' := match acc with None => _ | _ => _ end).
  assert (exists i, acc' = Some (Name i)) as Hacc'.
  { subst acc'. destruct Hacc as [->|[i ->]]; eauto. }
  specialize (IH (index + 1) acc' ltac:(by right)). destruct (find_from _ _ _ _ _) as [[i|i]|].
  - destruct IH as (k & e' & -> & ? & ? & ?). exists (S k), e'. split; [lia|]. done.
  - destruct Hacc' as [j Hj]. destruct IH as [IH [Hi|[? _]]]; [|by rewrite Hj in *].
    split; [by constructor|]. subst acc'. destruct Hacc as [->|[i' ->]].
    + right. split; [done|]. exists 0%nat, e. injection Hi as <-. split; [lia|].
      split; [done|]. split; [done|]. constructor.
    + left. done.
  - destruct Hacc' as [j Hj]. rewrite Hj in IH. by destruct IH.
Qed.

(** What [find] answers names an entry of the table. *)
Lemma find_from_full table n v i :
  find_from 0 table n v None = Some (Full i) ->
  0 <= i < len table /\ table !! Z.to_nat i = Some (MkEntry n v).
Proof.
  intros H. pose proof (find_from_spec table n v 0 None ltac:(by left)) as Hs.
  rewrite H in Hs. destruct Hs as (k & [en ev] & -> & Hk & Hn & Hv). cbn in Hn, Hv. subst.
  pose proof (lookup_lt_Some _ _ _ Hk). rewrite Z.add_0_l, Nat2Z.id. split; [word_lia | done].
Qed.

Lemma find_from_name table n v i :
  find_from 0 table n v None = Some (Name i) ->
  0 <= i < len table /\ exists v', table !! Z.to_nat i = Some (MkEntry n v') /\ v' <> v.
Proof.
  intros H. pose proof (find_from_spec table n v 0 None ltac:(by left)) as Hs.
  rewrite H in Hs. destruct Hs as [Hall [?|(_ & k & [en ev] & -> & Hk & Hn & _)]]; [done|].
  cbn in Hn. subst. pose proof (lookup_lt_Some _ _ _ Hk).
  rewrite Z.add_0_l, Nat2Z.id. split; [word_lia|]. exists ev. split; [done|].
  rewrite Forall_lookup in Hall. by apply (Hall _ _ Hk).
Qed.

Lemma find_full n v i : find n v = Some (Full i) -> 0 <= i <= 98 /\ get i = Some (MkEntry n v).
Proof.
  intros [Hi Hg]%find_from_full. unfold len in Hi. rewrite table_length in Hi.
  split; [lia | exact Hg].
Qed.

Lemma find_name n v i :
  find n v = Some (Name i) -> 0 <= i <= 98 /\ exists v', get i = Some (MkEntry n v') /\ v' <> v.
Proof.
  intros [Hi Hg]%find_from_name. unfold len in Hi. rewrite table_length in Hi.
  split; [lia | exact Hg].
Qed.

Lemma static_table_octets : Forall (fun e => octets (name e) /\ octets (value e)) STATIC_TABLE.
Proof. apply (bool_decide_unpack _). vm_compute. exact I. Qed.

Lemma table_octets i e : get i = Some e -> octets (name e) /\ octets (value e).
Proof.
  intros H. pose proof static_table_octets as Hall. rewrite Forall_lookup in Hall.
  exact (Hall _ _ H).
Qed.

(** ** Properties *)

(** The static table lookup is right in both directions: a full match is an entry
    with that name and value, a name match is the first entry with that name and none
    has the value too, no answer means no entry has the name; and an index is valid
    exactly up to 98. *)
Theorem static_table_lookup n v index :
  0 <= index ->
  match find n v with
  | Some (Full i) => 0 <= i <= 98 /\ get i = Some (MkEntry n v)
  | Some (Name i) => 0 <= i <= 98 /\ (exists v', get i = Some (MkEntry n v')) /\
      Forall (fun e => name e = n -> value e <> v) STATIC_TABLE
  | None => Forall (fun e => name e <> n) STATIC_TABLE
  end /\ (is_Some (get index) <-> index <= 98).
Proof.
  intros Hi. split; [|by apply get_bounds]. destruct (find n v) as [[i|i]|] eqn:Hf.
  - by apply find_full.
  - pose proof (find_from_spec STATIC_TABLE n v 0 None ltac:(by left)) as Hs. unfold find in Hf.
    rewrite Hf in Hs. destruct Hs as [Hall _]. apply find_name in Hf as [Hb (v' & Hg & _)].
    split; [done|]. split; [by exists v'|done].
  - pose proof (find_from_spec STATIC_TABLE n v 0 None ltac:(by left)) as Hs. unfold find in Hf.
    rewrite Hf in Hs. by destruct Hs.
Qed.

Lemma static_table_lookup_witness :
  match find (bs ":method") (bs "PATCH") with
  | Some (Full i) => 0 <= i <= 98 /\ get i = Some (MkEntry (bs ":method") (bs "PATCH"))
  | Some (Name i) => 0 <= i <= 98 /\ (exists v', get i = Some (MkEntry (bs ":method") v')) /\
      Forall (fun e => name e = bs ":method" -> value e <> bs "PATCH") STATIC_TABLE
  | None => Forall (fun e => name e <> bs ":method") STATIC_TABLE
  end /\ (is_Some (get 98) <-> 98 <= 98).
Proof. apply static_table_lookup. discriminate. Defined.
