(* ===== verification/Core.v ===== *)
(** * The shared error model (zero-core, error.rs) *)
From S2P Require Import Prelude.

Inductive Error : Type :=
| Protocol (message : string)
| Io (message : string)
| Codec (message : string)
| Closed
| Auth (message : string)
| Unsupported (capability : string)
| Timeout (operation : string)
| Limit (message : string).

#[global] Instance Error_eq_dec : EqDecision Error.
Proof. solve_decision. Defined.

(** [Display] *)
Definition display (e : Error) : string :=
  match e with
  | Protocol message => "protocol error: " +:+ message
  | Io message => "io error: " +:+ message
  | Codec message => "codec error: " +:+ message
  | Closed => "resource is closed"
  | Auth message => "authentication error: " +:+ message
  | Unsupported capability => "unsupported capability: " +:+ capability
  | Timeout operation => "timeout: " +:+ operation
  | Limit message => "limit exceeded: " +:+ message
  end.
