(* ===== verification/QPrefix.v ===== *)
(** * The encoded field section prefix (zero-qpack, prefix.rs) *)
From S2P Require Import Prelude.
From S2P Require QInteger.
From S2P Require Import QError.

Definition SIGN : Z := 0x80.

Record Prefix : Type := MkPrefix {
  encoded_insert_count : Z;
  sign : bool;
  delta_base : Z;
}.

Definition STATIC : Prefix := MkPrefix 0 false 0.

(** [complete]: an incomplete integer is truncation. *)
Definition complete (input : bytes) (prefix : QInteger.PrefixBits) : result Fault (Z * nat) :=
  let? r := map_err Integer (QInteger.decode input prefix QInteger.MAX_VALUE) in
  ok_or r Truncated.

Definition parse (input : bytes) : result Fault (Prefix * nat) :=
  let? (encoded_insert_count, first) := complete input QInteger.P8 in
  let rest := drop first input in
  let sign :=
    match head rest with
    | Some octet => negb (Z.land octet SIGN =? 0)
    | None => false
    end in
  let? (delta_base, second) := complete rest QInteger.P7 in
  Ok (MkPrefix encoded_insert_count sign delta_base, (first + second)%nat).

(** The vector after the call; [None] when it is left as it was. *)
Definition encode (p : Prefix) (out : bytes) : option bytes :=
  let! out := QInteger.push (encoded_insert_count p) QInteger.P8 0 out in
  let sign := if sign p then SIGN else 0 in
  QInteger.push (delta_base p) QInteger.P7 sign out.

Definition max_entries (max_table_capacity : Z) : Z :=
  default 0 (checked_div max_table_capacity 32).

Definition required_insert_count (encoded max_entries total_inserts : Z) : result Fault Z :=
  let ERROR := RequiredInsertCount in
  let? full_range := ok_or (checked_mul 64 max_entries 2) ERROR in
  if encoded =? 0 then Ok 0
  else if full_range <? encoded then Err ERROR
  else
    let? max_value := ok_or (checked_add 64 total_inserts max_entries) ERROR in
    let? max_wrapped :=
      ok_or (let! wraps := checked_div max_value full_range in
             checked_mul 64 wraps full_range) ERROR in
    let? count :=
      ok_or (let! count := checked_add 64 max_wrapped encoded in checked_sub count 1) ERROR in
    let? count :=
      (if max_value <? count then
         if count <=? full_range then Err ERROR
         else ok_or (checked_sub count full_range) ERROR
       else Ok count) in
    if count =? 0 then Err ERROR else Ok count.

Definition base (required_insert_count : Z) (sign : bool) (delta_base : Z) : result Fault Z :=
  if negb sign then
    ok_or (checked_add 64 required_insert_count delta_base) (Integer QInteger.TooLarge)
  else if required_insert_count <=? delta_base then Err NegativeBase
  else
    ok_or (let! base := checked_sub required_insert_count delta_base in checked_sub base 1)
      NegativeBase.

(** ** The Required Insert Count

    RFC 9204 Section 4.5.1.1: what an encoder writes for a count. *)
Definition encode_insert_count (count max_entries : Z) : Z :=
  if count =? 0 then 0 else count mod (2 * max_entries) + 1.

Lemma required_insert_count_inverse count max_entries total :
  0 < max_entries -> 0 <= total -> total + 4 * max_entries < 2 ^ 64 ->
  0 < count -> total - max_entries < count <= total + max_entries ->
  required_insert_count (encode_insert_count count max_entries) max_entries total = Ok count.
Proof.
  intros Hm Ht Hlim Hc Hrange. unfold encode_insert_count. bool_lia.
  pose proof (Z.mod_pos_bound count (2 * max_entries) ltac:(lia)) as Hmod.
  pose proof (Z.div_mod count (2 * max_entries) ltac:(lia)) as Hdiv.
  pose proof (Z.mod_pos_bound (total + max_entries) (2 * max_entries) ltac:(lia)) as Hmod'.
  pose proof (Z.div_mod (total + max_entries) (2 * max_entries) ltac:(lia)) as Hdiv'.
  set (F := 2 * max_entries) in *. set (q := count / F) in *. set (r := count mod F) in *.
  set (q' := (total + max_entries) / F) in *. set (r' := (total + max_entries) mod F) in *.
  assert (0 <= q') by (apply Z.div_pos; lia).
  assert (0 <= q) by (apply Z.div_pos; lia).
  unfold required_insert_count, checked_mul, checked_add, checked_div, checked_sub.
  rewrite (Z.mul_comm max_entries 2). fold F. bool_lia. cbn [ok_or]. bool_lia. cbn [ok_or].
  bool_lia. cbn [ok_or]. fold q'.
  destruct (Z.ltb_spec (total + max_entries) (q' * F + (r + 1) - 1)).
  - (* the count wrapped: it is one range lower *)
    assert (q = q' - 1) as Hq by nia.
    rewrite (proj2 (Z.leb_gt _ _)) by nia. rewrite (proj2 (Z.leb_le F _)) by nia. cbn [ok_or].
    rewrite (proj2 (Z.eqb_neq _ _)) by nia. f_equal. nia.
  - assert (q = q') as -> by nia.
    rewrite (proj2 (Z.eqb_neq _ _)) by nia. f_equal. nia.
Qed.

(** With no dynamic table the only count is zero. *)
Lemma required_insert_count_zero encoded :
  0 <= encoded ->
  required_insert_count encoded (max_entries 0) 0 =
    if encoded =? 0 then Ok 0 else Err RequiredInsertCount.
Proof.
  intros He. unfold required_insert_count.
  change (checked_mul 64 (max_entries 0) 2) with (Some 0). cbn [ok_or].
  destruct (Z.eqb_spec encoded 0); [done|]. by bool_lia.
Qed.

(** The reconstruction never answers zero for a non-zero encoding, nor a count
    outside the window of one range below the maximum. *)
Lemma required_insert_count_range encoded max_entries total count :
  0 <= max_entries -> 0 <= total -> 0 < encoded ->
  required_insert_count encoded max_entries total = Ok count ->
  0 < count /\ total - max_entries < count <= total + max_entries.
Proof.
  intros Hm Ht He. unfold required_insert_count, checked_mul, checked_add, checked_div, checked_sub.
  destruct (Z.ltb_spec (max_entries * 2) (2 ^ 64)); [|done]. cbn [ok_or].
  rewrite (proj2 (Z.eqb_neq encoded 0)) by lia.
  destruct (Z.ltb_spec (max_entries * 2) encoded); [done|].
  destruct (Z.ltb_spec (total + max_entries) (2 ^ 64)); [|done]. cbn [ok_or].
  rewrite (proj2 (Z.eqb_neq (max_entries * 2) 0)) by lia.
  set (F := max_entries * 2) in *.
  pose proof (Z.mod_pos_bound (total + max_entries) F ltac:(lia)) as Hmod'.
  pose proof (Z.div_mod (total + max_entries) F ltac:(lia)) as Hdiv'.
  set (q := (total + max_entries) / F) in *.
  assert (0 <= q) by (apply Z.div_pos; lia).
  destruct (Z.ltb_spec (q * F) (2 ^ 64)); [|done]. cbn [ok_or].
  destruct (Z.ltb_spec (q * F + encoded) (2 ^ 64)); [|done].
  destruct (Z.leb_spec 1 (q * F + encoded)); [|done]. cbn [ok_or].
  destruct (Z.ltb_spec (total + max_entries) (q * F + encoded - 1)).
  - destruct (Z.leb_spec (q * F + encoded - 1) F); [done|].
    destruct (Z.leb_spec F (q * F + encoded - 1)); [|done]. cbn [ok_or].
    destruct (Z.eqb_spec (q * F + encoded - 1 - F) 0); [done|]. intros [= <-]. nia.
  - destruct (Z.eqb_spec (q * F + encoded - 1) 0); [done|]. intros [= <-]. nia.
Qed.

(** ** Round trip *)

Lemma complete_encoding value p flags more :
  0 <= value <= QInteger.MAX_VALUE -> u8 flags -> octets more ->
  complete (QInteger.encoding value p flags ++ more) p
    = Ok (value, length (QInteger.encoding value p flags)).
Proof.
  intros Hv Hf Hm. unfold complete. by rewrite QInteger.int_decode_encoding by (done || lia).
Qed.

Definition encoding (p : Prefix) : bytes :=
  QInteger.encoding (encoded_insert_count p) QInteger.P8 0 ++
  QInteger.encoding (delta_base p) QInteger.P7 (if sign p then SIGN else 0).

Definition prefix_ok (p : Prefix) : Prop :=
  0 <= encoded_insert_count p <= QInteger.MAX_VALUE /\ 0 <= delta_base p <= QInteger.MAX_VALUE.

Lemma prefix_encode_encoding p out : prefix_ok p -> encode p out = Some (out ++ encoding p).
Proof.
  intros [H1 H2]. unfold encode, encoding. rewrite QInteger.int_push_encoding by done.
  rewrite QInteger.int_push_encoding by done. by rewrite app_assoc.
Qed.

Lemma prefix_parse_encoding p more :
  prefix_ok p -> octets more -> parse (encoding p ++ more) = Ok (p, length (encoding p)).
Proof.
  intros [H1 H2] Hm. unfold parse, encoding. rewrite <- app_assoc.
  assert (u8 (if sign p then SIGN else 0)) by (by destruct (sign p)).
  rewrite complete_encoding; [| done | word_lia |].
  2: { apply Forall_app. split; [|done]. by apply QInteger.int_encoding_octets. }
  rewrite drop_app_length, complete_encoding by done.
  destruct (QInteger.int_encoding_flag (delta_base p) QInteger.P7 (if sign p then SIGN else 0) SIGN)
    as (first & rest & Heq & Hf); [lia | done | done |].
  rewrite Heq at 1. cbn [app head]. rewrite Hf, length_app. destruct p as [c [] d]; done.
Qed.

(** ** Properties *)

(** The Required Insert Count is reconstructed: for every count within one table
    of the inserts the decoder has seen, what RFC 9204 Section 4.5.1.1 has an encoder
    write decodes to that count; and a count the decoder accepts is always within
    that window. *)
Theorem insert_count_reconstructed count max_entries total :
  0 < max_entries -> 0 <= total -> total + 4 * max_entries < 2 ^ 64 ->
  (0 < count -> total - max_entries < count <= total + max_entries ->
     required_insert_count (encode_insert_count count max_entries) max_entries total = Ok count) /\
  (forall encoded, 0 < encoded ->
     required_insert_count encoded max_entries total = Ok count ->
     0 < count /\ total - max_entries < count <= total + max_entries).
Proof.
  intros Hm Ht Hl. split; [intros; by apply required_insert_count_inverse|].
  intros encoded He. apply required_insert_count_range; lia || done.
Qed.

Lemma insert_count_reconstructed_witness :
  (0 < 9 -> 10 - 3 < 9 <= 10 + 3 ->
     required_insert_count (encode_insert_count 9 3) 3 10 = Ok 9) /\
  (forall encoded, 0 < encoded ->
     required_insert_count encoded 3 10 = Ok 9 -> 0 < 9 /\ 10 - 3 < 9 <= 10 + 3).
Proof. apply insert_count_reconstructed; reflexivity || lia. Defined.
