(* ===== verification/QRepresentation.v ===== *)
(** * Field line representations (zero-qpack, representation.rs) *)
From S2P Require Import Prelude.
From S2P Require QInteger.
From S2P Require QString.
From S2P Require Import QError.

Inductive Representation : Type :=
| Indexed (static_table : bool) (index : Z)
| IndexedPostBase (index : Z)
| LiteralNameReference (never_indexed static_table : bool) (index : Z)
    (value : QString.StringLiteral)
| LiteralPostBaseNameReference (never_indexed : bool) (index : Z) (value : QString.StringLiteral)
| LiteralName (never_indexed : bool) (name value : QString.StringLiteral).

Definition index_ (input : bytes) (prefix : QInteger.PrefixBits) : result Fault (Z * nat) :=
  let? r := map_err Integer (QInteger.decode input prefix QInteger.MAX_VALUE) in
  ok_or r Truncated.

Definition literal (input : bytes) (prefix : QString.StringPrefixBits)
  : result Fault (QString.StringLiteral * nat) :=
  let? r := map_err Integer (QString.parse input prefix QInteger.MAX_VALUE) in
  ok_or r Truncated.

Definition parse (input : bytes) : result Fault (Representation * nat) :=
  let? first := ok_or (head input) Truncated in
  if has first 0x80 then
    let? (index, used) := index_ input QInteger.P6 in
    let static_table := has first 0x40 in
    Ok (Indexed static_table index, used)
  else if Z.land first 0xc0 =? 0x40 then
    let? (index, used) := index_ input QInteger.P4 in
    let rest := drop used input in
    let? (value, value_len) := literal rest QString.P8 in
    Ok (LiteralNameReference (has first 0x20) (has first 0x10) index value,
        (used + value_len)%nat)
  else if Z.land first 0xe0 =? 0x20 then
    let? (name, used) := literal input QString.P4 in
    let rest := drop used input in
    let? (value, value_len) := literal rest QString.P8 in
    Ok (LiteralName (has first 0x10) name value, (used + value_len)%nat)
  else if Z.land first 0xf0 =? 0x10 then
    let? (index, used) := index_ input QInteger.P4 in
    Ok (IndexedPostBase index, used)
  else
    let? (index, used) := index_ input QInteger.P3 in
    let rest := drop used input in
    let? (value, value_len) := literal rest QString.P8 in
    Ok (LiteralPostBaseNameReference (has first 0x08) index value, (used + value_len)%nat).

Definition write (r : Representation) (out : bytes) : option bytes :=
  match r with
  | Indexed static_table index =>
      let flags := if static_table then 0xc0 else 0x80 in
      QInteger.push index QInteger.P6 flags out
  | IndexedPostBase index => QInteger.push index QInteger.P4 0x10 out
  | LiteralNameReference never_indexed static_table index value =>
      let flags := 0x40 in
      let flags := if never_indexed then Z.lor flags 0x20 else flags in
      let flags := if static_table then Z.lor flags 0x10 else flags in
      let! out := QInteger.push index QInteger.P4 flags out in
      QString.encode value QString.P8 0 out
  | LiteralPostBaseNameReference never_indexed index value =>
      let flags := if never_indexed then 0x08 else 0x00 in
      let! out := QInteger.push index QInteger.P3 flags out in
      QString.encode value QString.P8 0 out
  | LiteralName never_indexed name value =>
      let flags := if never_indexed then 0x30 else 0x20 in
      let! out := QString.encode name QString.P4 flags out in
      QString.encode value QString.P8 0 out
  end.

(** [encode] truncates what a failed [write] left, so [None] is "unchanged". *)
Definition encode (r : Representation) (out : bytes) : option bytes := write r out.

Definition is_dynamic (r : Representation) : bool :=
  match r with
  | Indexed static_table _ | LiteralNameReference _ static_table _ _ => negb static_table
  | IndexedPostBase _ | LiteralPostBaseNameReference _ _ _ => true
  | LiteralName _ _ _ => false
  end.

(** ** Well-formed representations and their encodings *)

Definition literal_ok (l : QString.StringLiteral) : Prop :=
  octets (QString.data l) /\ len (QString.data l) <= QInteger.MAX_VALUE.

Definition rep_ok (r : Representation) : Prop :=
  match r with
  | Indexed _ index | IndexedPostBase index => 0 <= index <= QInteger.MAX_VALUE
  | LiteralNameReference _ _ index value | LiteralPostBaseNameReference _ index value =>
      0 <= index <= QInteger.MAX_VALUE /\ literal_ok value
  | LiteralName _ name value => literal_ok name /\ literal_ok value
  end.

Lemma index_encoding value p flags more :
  0 <= value <= QInteger.MAX_VALUE -> u8 flags -> octets more ->
  index_ (QInteger.encoding value p flags ++ more) p
    = Ok (value, length (QInteger.encoding value p flags)).
Proof. intros. unfold index_. by rewrite QInteger.int_decode_encoding by (done || lia). Qed.

Lemma rep_literal_encoding l p flags more :
  literal_ok l -> u8 flags -> octets more ->
  literal (QString.encoding l p flags ++ more) p = Ok (l, length (QString.encoding l p flags)).
Proof. intros [? ?] ? ?. unfold literal. by rewrite QString.str_parse_encoding by (done || lia). Qed.

(** The octets of a well-formed representation. *)
Definition encoding (r : Representation) : bytes :=
  match r with
  | Indexed s i => QInteger.encoding i QInteger.P6 (if s then 0xc0 else 0x80)
  | IndexedPostBase i => QInteger.encoding i QInteger.P4 0x10
  | LiteralNameReference n s i v =>
      QInteger.encoding i QInteger.P4
        (Z.lor (if n then 0x60 else 0x40) (if s then 0x10 else 0)) ++
      QString.encoding v QString.P8 0
  | LiteralPostBaseNameReference n i v =>
      QInteger.encoding i QInteger.P3 (if n then 0x08 else 0x00) ++
      QString.encoding v QString.P8 0
  | LiteralName n m v =>
      QString.encoding m QString.P4 (if n then 0x30 else 0x20) ++ QString.encoding v QString.P8 0
  end.

Lemma rep_encode_encoding r out : rep_ok r -> encode r out = Some (out ++ encoding r).
Proof.
  destruct r as [s i|i|n s i v|n i v|n m v]; cbn [rep_ok encode write encoding]; intros H.
  - by rewrite QInteger.int_push_encoding.
  - by rewrite QInteger.int_push_encoding.
  - destruct H as [Hi [_ Hv]]. rewrite QInteger.int_push_encoding, QString.str_encode_encoding by done.
    rewrite app_assoc. by destruct n, s.
  - destruct H as [Hi [_ Hv]]. rewrite QInteger.int_push_encoding, QString.str_encode_encoding by done.
    by rewrite app_assoc.
  - destruct H as [[_ Hm] [_ Hv]]. rewrite !QString.str_encode_encoding by done. by rewrite app_assoc.
Qed.

Lemma string_encoding_octets l p flags :
  literal_ok l -> u8 flags -> octets (QString.encoding l p flags).
Proof.
  intros [Hd Hl] Hf. apply Forall_app. split; [|done].
  apply QInteger.int_encoding_octets; [word_lia|]. by apply QString.flags_of_u8.
Qed.

Lemma rep_parse_encoding r more :
  rep_ok r -> octets more -> parse (encoding r ++ more) = Ok (r, length (encoding r)).
Proof.
  intros Hr Hm. unfold parse, has.
  destruct r as [s i|i|n s i v|n i v|n m v]; cbn [rep_ok encoding] in *.
  - destruct (QInteger.int_encoding_head i QInteger.P6 (if s then 0xc0 else 0x80) more) as (f & -> & Hf); [lia|].
    cbn [ok_or]. QString.first_octet_flags Hf.
    rewrite index_encoding by (done || destruct s; done). by destruct s.
  - destruct (QInteger.int_encoding_head i QInteger.P4 0x10 more) as (f & -> & Hf); [lia|].
    cbn [ok_or]. QString.first_octet_flags Hf. cbn. by rewrite index_encoding.
  - destruct Hr as [Hi Hv]. rewrite <- app_assoc.
    set (flags := Z.lor _ _). assert (u8 flags) by (by destruct n, s).
    pose proof (string_encoding_octets v QString.P8 0 Hv ltac:(done)).
    assert (octets (QString.encoding v QString.P8 0 ++ more)) by (by apply Forall_app).
    destruct (QInteger.int_encoding_head i QInteger.P4 flags (QString.encoding v QString.P8 0 ++ more))
      as (f & -> & Hf); [lia|]. cbn [ok_or]. QString.first_octet_flags Hf.
    rewrite index_encoding, drop_app_length, rep_literal_encoding by done.
    rewrite length_app. by destruct n, s.
  - destruct Hr as [Hi Hv]. rewrite <- app_assoc.
    set (flags := if n then _ else _). assert (u8 flags) by (by destruct n).
    pose proof (string_encoding_octets v QString.P8 0 Hv ltac:(done)).
    assert (octets (QString.encoding v QString.P8 0 ++ more)) by (by apply Forall_app).
    destruct (QInteger.int_encoding_head i QInteger.P3 flags (QString.encoding v QString.P8 0 ++ more))
      as (f & -> & Hf); [lia|]. cbn [ok_or]. QString.first_octet_flags Hf.
    rewrite index_encoding, drop_app_length, rep_literal_encoding by done.
    rewrite length_app. by destruct n.
  - destruct Hr as [Hn Hv]. rewrite <- app_assoc.
    set (flags := if n then _ else _). assert (u8 flags) by (by destruct n).
    pose proof (string_encoding_octets v QString.P8 0 Hv ltac:(done)).
    assert (octets (QString.encoding v QString.P8 0 ++ more)) by (by apply Forall_app).
    destruct (QString.str_encoding_head m QString.P4 flags (QString.encoding v QString.P8 0 ++ more))
      as (f & -> & Hf). cbn [ok_or]. QString.first_octet_flags Hf.
    rewrite rep_literal_encoding, drop_app_length, rep_literal_encoding by done.
    rewrite length_app. by destruct n.
Qed.

(** A representation takes at least one octet and no more than are there. *)
Lemma index_used input p v n : index_ input p = Ok (v, n) -> (0 < n <= length input)%nat.
Proof.
  unfold index_. destruct (QInteger.decode _ _ _) as [[[v' n']|]|e] eqn:Hd; [|done..].
  cbn. intros [= <- <-]. by eapply QInteger.int_decode_used.
Qed.

Lemma literal_used input p v n : literal input p = Ok (v, n) -> (0 < n <= length input)%nat.
Proof.
  unfold literal. destruct (QString.parse _ _ _) as [[[v' n']|]|e] eqn:Hd; [|done..].
  cbn. intros [= <- <-]. by eapply QString.str_parse_used.
Qed.

Lemma rep_parse_used input r n : parse input = Ok (r, n) -> (0 < n <= length input)%nat.
Proof.
  unfold parse. destruct (head input) as [first|]; [|done]. cbn [ok_or].
  repeat match goal with
  | |- (if has ?a ?b then _ else _) = _ -> _ => destruct (has a b)
  | |- (if ?a =? ?b then _ else _) = _ -> _ => destruct (a =? b)
  | |- context [index_ ?i ?p] =>
      let H := fresh in destruct (index_ i p) as [[? ?]|?] eqn:H; [apply index_used in H | done]
  | |- context [literal ?i ?p] =>
      let H := fresh in destruct (literal i p) as [[? ?]|?] eqn:H; [apply literal_used in H | done]
  end; intros [= _ <-]; rewrite ?length_drop in *; lia.
Qed.

(** ** Properties *)

(** Every well-formed representation, dynamic ones included, survives the wire
    whatever follows it. *)
Theorem representation_roundtrip r out more :
  rep_ok r -> octets more ->
  exists wire, encode r out = Some (out ++ wire) /\ parse (wire ++ more) = Ok (r, length wire).
Proof.
  intros Hr Hm. exists (encoding r). split; [by apply rep_encode_encoding | by apply rep_parse_encoding].
Qed.

Lemma representation_roundtrip_witness :
  exists wire,
    encode (LiteralPostBaseNameReference true 5 (QString.Literal false (bs "x"))) [] = Some ([] ++ wire) /\
    parse (wire ++ [1; 2])
      = Ok (LiteralPostBaseNameReference true 5 (QString.Literal false (bs "x")), length wire).
Proof.
  apply representation_roundtrip; [|by apply (bool_decide_unpack _)].
  split; [unfold QInteger.MAX_VALUE; lia|]. split; [by apply (bool_decide_unpack _)|].
  vm_compute. discriminate.
Defined.
