(* ===== verification/QFieldSection.v ===== *)
(** * The static-only decoder and encoder (zero-qpack, decoder.rs and encoder.rs) *)
From stdpp Require Import pretty.
From S2P Require Import Prelude.
From S2P Require Core Limits.
From S2P Require QInteger.
From S2P Require Huffman.
From S2P Require QString.
From S2P Require Import QError.
From S2P Require QTable.
From S2P Require QPrefix.
From S2P Require Import QRepresentation.

Definition ENTRY_OVERHEAD : Z := 32.

Record FieldLine : Type := MkFieldLine { name : bytes; value : bytes; never_indexed : bool }.

#[global] Instance FieldLine_eq_dec : EqDecision FieldLine.
Proof. solve_decision. Defined.

Definition FieldLine_new (name value : bytes) : FieldLine := MkFieldLine name value false.
Definition FieldLine_sensitive (name value : bytes) : FieldLine := MkFieldLine name value true.

Definition size (l : FieldLine) : Z :=
  saturating_add 64 (saturating_add 64 (len (name l)) (len (value l))) ENTRY_OVERHEAD.

(** ** The decoder *)

Record Decoder : Type := MkDecoder { decoder_max_string_len : Z }.

Definition Decoder_new (limits : Limits.Http3Limits) : result Core.Error Decoder :=
  if negb (Limits.http3_qpack_max_table_capacity limits =? 0)
     || negb (Limits.http3_qpack_blocked_streams limits =? 0) then
    Err (Core.Unsupported "qpack dynamic table")
  else
    let needed := saturating_mul 64 (Limits.http3_max_field_section_size limits) 4 in
    if Limits.http3_qpack_integer_cap limits <? needed then
      Err (Core.Limit ("qpack_integer_cap " +:+ pretty (Limits.http3_qpack_integer_cap limits)
             +:+ " is below four times max_field_section_size (" +:+ pretty needed +:+ ")"))
    else Ok (MkDecoder (Limits.http3_qpack_integer_cap limits)).

Definition max_table_capacity (d : Decoder) : Z := 0.
Definition blocked_streams (d : Decoder) : Z := 0.

Record FieldLines : Type := MkFieldLines { rest : bytes; max_string_len : Z; done : bool }.

Definition decode (d : Decoder) (section : bytes) : result Error FieldLines :=
  let field_section := MkError FieldSection in
  let? (prefix, used) := map_err field_section (QPrefix.parse section) in
  let? count :=
    map_err field_section
      (QPrefix.required_insert_count (QPrefix.encoded_insert_count prefix) (QPrefix.max_entries 0) 0) in
  let? _ :=
    map_err field_section (QPrefix.base count (QPrefix.sign prefix) (QPrefix.delta_base prefix)) in
  Ok (MkFieldLines (drop used section) (decoder_max_string_len d) false).

Definition within_limit (s : FieldLines) (literal : QString.StringLiteral) : result Fault unit :=
  if max_string_len s <? len (QString.data literal) then Err (Integer QInteger.TooLarge) else Ok tt.

Definition line (s : FieldLines) : result Fault (FieldLine * nat) :=
  let? (representation, used) := parse (rest s) in
  let? line :=
    match representation with
    | Indexed true index =>
        let? entry := ok_or (QTable.get index) InvalidStaticIndex in
        Ok (MkFieldLine (QTable.name entry) (QTable.value entry) false)
    | LiteralNameReference never_indexed true index value =>
        let? entry := ok_or (QTable.get index) InvalidStaticIndex in
        let? _ := within_limit s value in
        let? v := map_err HuffmanFault (QString.decode value) in
        Ok (MkFieldLine (QTable.name entry) v never_indexed)
    | LiteralName never_indexed name value =>
        let? _ := within_limit s name in
        let? _ := within_limit s value in
        let? n := map_err HuffmanFault (QString.decode name) in
        let? v := map_err HuffmanFault (QString.decode value) in
        Ok (MkFieldLine n v never_indexed)
    | Indexed _ _ | IndexedPostBase _ | LiteralNameReference _ _ _ _
    | LiteralPostBaseNameReference _ _ _ => Err DynamicReference
    end in
  Ok (line, used).

(** [Iterator::next]: the iterator after the call and the item. *)
Definition next (s : FieldLines) : FieldLines * option (result Error FieldLine) :=
  if done s || bool_decide (rest s = []) then (s, None)
  else
    match line s with
    | Ok (l, used) =>
        (MkFieldLines (drop used (rest s)) (max_string_len s) (done s), Some (Ok l))
    | Err fault =>
        (MkFieldLines (rest s) (max_string_len s) true, Some (Err (MkError FieldSection fault)))
    end.

(** [collect::<Result<Vec<_>, _>>()]: [next] until it answers [None] or an error.
    Each line takes an octet of the section, so its length is fuel enough. *)
Fixpoint collect (fuel : nat) (s : FieldLines) : option (result Error (list FieldLine)) :=
  match fuel with
  | O => None
  | S fuel =>
      match next s with
      | (_, None) => Some (Ok [])
      | (_, Some (Err e)) => Some (Err e)
      | (s, Some (Ok l)) =>
          let! r := collect fuel s in
          Some (let? ls := r in Ok (l :: ls))
      end
  end.

(** ** The encoder *)

Inductive HuffmanPolicy : Type := Never | Shorter | Always.

Definition SENSITIVE_NAMES : list bytes := [bs "authorization"; bs "cookie"; bs "set-cookie"].

Definition NAME_REFERENCE_NEVER_INDEXED : Z := 0x20.
Definition NAME_REFERENCE_STATIC : Z := 0x10.
Definition NAME_REFERENCE : Z := 0x40.
Definition INDEXED_STATIC : Z := 0xc0.
Definition LITERAL_NAME : Z := 0x20.
Definition LITERAL_NAME_NEVER_INDEXED : Z := 0x10.

Record Encoder : Type := MkEncoder { policy : HuffmanPolicy }.

Definition text (e : Encoder) (t : bytes) (prefix : QString.StringPrefixBits) (flags : Z)
    (out : bytes) : option bytes :=
  let huffman :=
    match policy e with
    | Never => false
    | Always => true
    | Shorter => Huffman.encoded_len t <? len t
    end in
  QString.encode_text t huffman prefix flags out.

Definition write_line (e : Encoder) (l : FieldLine) (out : bytes) : option bytes :=
  let never := never_indexed l || bool_decide (name l ∈ SENSITIVE_NAMES) in
  match never, QTable.find (name l) (value l) with
  | true, Some (QTable.Full index | QTable.Name index) =>
      let flags := Z.lor (Z.lor NAME_REFERENCE NAME_REFERENCE_NEVER_INDEXED) NAME_REFERENCE_STATIC in
      let! out := QInteger.push index QInteger.P4 flags out in
      text e (value l) QString.P8 0 out
  | false, Some (QTable.Full index) => QInteger.push index QInteger.P6 INDEXED_STATIC out
  | false, Some (QTable.Name index) =>
      let flags := Z.lor NAME_REFERENCE NAME_REFERENCE_STATIC in
      let! out := QInteger.push index QInteger.P4 flags out in
      text e (value l) QString.P8 0 out
  | never, None =>
      let flags := if never then Z.lor LITERAL_NAME LITERAL_NAME_NEVER_INDEXED else LITERAL_NAME in
      let! out := text e (name l) QString.P4 flags out in
      text e (value l) QString.P8 0 out
  end.

(** A failed write is truncated away: [None] leaves the vector as it was. *)
Definition encode_line (e : Encoder) (l : FieldLine) (out : bytes) : option bytes :=
  write_line e l out.

(** [try_for_each] *)
Fixpoint encode_lines (e : Encoder) (lines : list FieldLine) (out : bytes) : option bytes :=
  match lines with
  | [] => Some out
  | l :: lines => let! out := encode_line e l out in encode_lines e lines out
  end.

Definition encode (e : Encoder) (lines : list FieldLine) (out : bytes) : option bytes :=
  let! out := QPrefix.encode QPrefix.STATIC out in
  encode_lines e lines out.

(** ** What the encoder writes *)

Definition policy_huffman (e : Encoder) (t : bytes) : bool :=
  match policy e with
  | Never => false
  | Always => true
  | Shorter => Huffman.encoded_len t <? len t
  end.

Definition literal_of (e : Encoder) (t : bytes) : QString.StringLiteral :=
  QString.text_literal t (policy_huffman e t).

Definition sensitive (l : FieldLine) : bool :=
  never_indexed l || bool_decide (name l ∈ SENSITIVE_NAMES).

(** The representation chosen for a line. *)
Definition representation_of (e : Encoder) (l : FieldLine) : Representation :=
  match sensitive l, QTable.find (name l) (value l) with
  | true, Some (QTable.Full i | QTable.Name i) =>
      LiteralNameReference true true i (literal_of e (value l))
  | false, Some (QTable.Full i) => Indexed true i
  | false, Some (QTable.Name i) => LiteralNameReference false true i (literal_of e (value l))
  | n, None => LiteralName n (literal_of e (name l)) (literal_of e (value l))
  end.

Definition text_ok (t : bytes) : Prop := octets t /\ len t < 2 ^ 58.
Definition line_ok (l : FieldLine) : Prop := text_ok (name l) /\ text_ok (value l).

Lemma text_literal_of e t p flags out :
  text_ok t -> text e t p flags out = QString.encode (literal_of e t) p flags out.
Proof. intros [Ho Hl]. exact (QString.encode_text_literal t _ p flags out Ho Hl). Qed.

Lemma literal_of_ok e t : text_ok t -> literal_ok (literal_of e t).
Proof.
  intros [Ho Hl]. split; [by apply QString.text_literal_octets|].
  pose proof (QString.text_literal_len t (policy_huffman e t) Ho Hl).
  unfold literal_of, QInteger.MAX_VALUE. word_lia.
Qed.

Lemma write_line_representation e l out :
  line_ok l -> write_line e l out = write (representation_of e l) out.
Proof.
  intros [Hn Hv]. unfold write_line, representation_of. fold (sensitive l).
  destruct (sensitive l), (QTable.find (name l) (value l)) as [[i|i]|]; cbn [write]; try done.
  all: destruct (QInteger.push _ _ _ _) || (rewrite text_literal_of by done;
         destruct (QString.encode _ _ _ _)); try done; by rewrite text_literal_of.
Qed.

Lemma representation_ok e l : line_ok l -> rep_ok (representation_of e l).
Proof.
  intros [Hn Hv]. unfold representation_of, QInteger.MAX_VALUE.
  pose proof (literal_of_ok e (value l) Hv). pose proof (literal_of_ok e (name l) Hn).
  destruct (QTable.find (name l) (value l)) as [[i|i]|] eqn:Hf.
  - apply QTable.find_full in Hf as [Hi _].
    destruct (sensitive l); cbn [rep_ok]; unfold QInteger.MAX_VALUE; [split; [word_lia|done]|word_lia].
  - apply QTable.find_name in Hf as [Hi _].
    destruct (sensitive l); (split; [unfold QInteger.MAX_VALUE; word_lia|done]).
  - destruct (sensitive l); done.
Qed.

(** ** Decoding it again *)

(** The line a decoder must see: the same, marked when its name is sensitive. *)
Definition marked (l : FieldLine) : FieldLine := MkFieldLine (name l) (value l) (sensitive l).

Definition fits (cap : Z) (e : Encoder) (l : FieldLine) : Prop :=
  len (QString.data (literal_of e (name l))) <= cap /\
  len (QString.data (literal_of e (value l))) <= cap.

Lemma line_representation e l cap more :
  line_ok l -> fits cap e l -> octets more ->
  line (MkFieldLines (encoding (representation_of e l) ++ more) cap false)
    = Ok (marked l, length (encoding (representation_of e l))).
Proof.
  intros Hl [Hcn Hcv] Hm. unfold line. cbn [rest].
  rewrite rep_parse_encoding by (done || by apply representation_ok).
  destruct Hl as [[Hn _] [Hv _]].
  assert (forall t, len (QString.data (literal_of e t)) <= cap ->
    within_limit (MkFieldLines (encoding (representation_of e l) ++ more) cap false)
      (literal_of e t) = Ok tt) as Hw.
  { intros t Ht. unfold within_limit. cbn [max_string_len]. by bool_lia. }
  assert (forall t, octets t -> QString.decode (literal_of e t) = Ok t) as Hd.
  { intros t Ht. by apply QString.decode_text_literal. }
  unfold marked, representation_of in *.
  destruct (QTable.find (name l) (value l)) as [[i|i]|] eqn:Hf.
  - apply QTable.find_full in Hf as [_ Hg].
    destruct (sensitive l); rewrite Hg; cbn [ok_or QTable.name QTable.value]; [|done].
    by rewrite Hw, Hd.
  - apply QTable.find_name in Hf as [_ (v' & Hg & _)].
    destruct (sensitive l); rewrite Hg; cbn [ok_or QTable.name QTable.value]; by rewrite Hw, Hd.
  - destruct (sensitive l); by rewrite !Hw, !Hd.
Qed.

Definition section_of (e : Encoder) (lines : list FieldLine) : bytes :=
  mbind (fun l => encoding (representation_of e l)) lines.

Lemma encode_lines_section e lines out :
  Forall line_ok lines -> encode_lines e lines out = Some (out ++ section_of e lines).
Proof.
  intros Hl. revert out. induction Hl as [|l lines Hl _ IH]; intros out; cbn [encode_lines].
  { cbn. by rewrite app_nil_r. }
  unfold encode_line. rewrite write_line_representation by done.
  change (write (representation_of e l) out) with (QRepresentation.encode (representation_of e l) out).
  rewrite rep_encode_encoding by (by apply representation_ok).
  rewrite IH. cbn. by rewrite <- app_assoc.
Qed.

Lemma encoding_rep_octets r : rep_ok r -> octets (encoding r).
Proof.
  destruct r as [s i|i|n s i v|n i v|n m v]; cbn [rep_ok encoding]; intros H.
  - apply QInteger.int_encoding_octets; [done|]. by destruct s.
  - by apply QInteger.int_encoding_octets.
  - destruct H. apply Forall_app. split; [apply QInteger.int_encoding_octets; [done|by destruct n, s]|].
    by apply string_encoding_octets.
  - destruct H. apply Forall_app. split; [apply QInteger.int_encoding_octets; [done|by destruct n]|].
    by apply string_encoding_octets.
  - destruct H. apply Forall_app. split; apply string_encoding_octets; try done. by destruct n.
Qed.

Lemma encoding_nonempty r : encoding r <> [].
Proof.
  assert (forall v p f, QInteger.encoding v p f <> []) as Hi.
  { intros v p f. unfold QInteger.encoding. by destruct (v <? _). }
  assert (forall v p f, QString.encoding v p f <> []) as Hs.
  { intros v p f. unfold QString.encoding. intros [H _]%app_eq_nil. by apply Hi in H. }
  destruct r; cbn [encoding]; try apply Hi; intros [H _]%app_eq_nil;
    (by apply Hi in H) || (by apply Hs in H).
Qed.

Lemma section_octets e lines : Forall line_ok lines -> octets (section_of e lines).
Proof.
  induction 1 as [|l lines Hl _ IH]; [constructor|]. apply Forall_app. split; [|done].
  by apply encoding_rep_octets, representation_ok.
Qed.

Lemma collect_section e cap lines fuel :
  Forall (fun l => line_ok l /\ fits cap e l) lines ->
  (length (section_of e lines) < fuel)%nat ->
  collect fuel (MkFieldLines (section_of e lines) cap false) = Some (Ok (map marked lines)).
Proof.
  intros Hl. revert fuel. induction Hl as [|l lines [Hl Hc] Hls IH]; intros [|fuel] Hf; try lia; [done|].
  change (section_of e (l :: lines)) with (encoding (representation_of e l) ++ section_of e lines) in *.
  cbn [collect map]. unfold next. cbn [rest done].
  assert (Forall line_ok lines) as Hok by (eapply Forall_impl; [done | by intros ? []]).
  pose proof (encoding_nonempty (representation_of e l)).
  rewrite bool_decide_false by (intros [? _]%app_eq_nil; done). cbn [orb].
  rewrite line_representation by (done || by apply section_octets).
  cbn [max_string_len]. rewrite drop_app_length, IH; [done|].
  rewrite length_app in Hf. destruct (encoding (representation_of e l)); [done|]. cbn in Hf. lia.
Qed.

(** Huffman coding never lengthens a string more than fourfold. *)
Lemma literal_of_len e t : text_ok t -> len (QString.data (literal_of e t)) <= 4 * len t.
Proof.
  intros [Ho Hl]. unfold literal_of, QString.text_literal.
  destruct (policy_huffman e t); cbn [QString.data]; [|unfold len; lia].
  destruct (Huffman.encode_bits t Ho) as (_ & k & Hk & Hb). apply (f_equal length) in Hb.
  rewrite Bits.length_octets_bits, length_app, length_replicate in Hb.
  pose proof (Huffman.length_string_bits t Ho). unfold len.
  destruct t as [|o t]; [cbn in *; lia|]. cbn [length] in *. lia.
Qed.

(** ** Termination *)

Lemma next_shrinks s s' l :
  next s = (s', Some (Ok l)) -> (length (rest s') < length (rest s))%nat.
Proof.
  unfold next. destruct (done s || _); [done|]. unfold line.
  destruct (parse (rest s)) as [[r used]|] eqn:Hp; [|done].
  apply rep_parse_used in Hp.
  match goal with |- context [match ?m with Ok _ => _ | Err _ => Err _ end] => destruct m; [|done] end.
  intros [= <- _]. cbn [rest]. rewrite length_drop. lia.
Qed.

Lemma collect_total fuel s : (length (rest s) < fuel)%nat -> is_Some (collect fuel s).
Proof.
  revert s. induction fuel as [|fuel IH]; intros s Hf; [lia|]. cbn [collect].
  destruct (next s) as [s' [[l|e]|]] eqn:Hn; [|by eexists..].
  apply next_shrinks in Hn. destruct (IH s') as [r ->]; [lia|]. by eexists.
Qed.

(** ** Sections that decode, and lines that stay out of tables *)

Definition line_size_ok (limits : Limits.Http3Limits) (l : FieldLine) : Prop :=
  octets (name l) /\ octets (value l) /\ size l <= Limits.http3_max_field_section_size limits.

Lemma line_size_fits limits d e l :
  Decoder_new limits = Ok d -> Limits.http3_max_field_section_size limits < 2 ^ 58 ->
  line_size_ok limits l -> line_ok l /\ fits (decoder_max_string_len d) e l.
Proof.
  unfold Decoder_new. destruct (_ || _); [done|].
  destruct (Z.ltb_spec (Limits.http3_qpack_integer_cap limits)
    (saturating_mul 64 (Limits.http3_max_field_section_size limits) 4)) as [|Hcap]; [done|].
  intros [= <-] Hm (Hn & Hv & Hs). cbn [decoder_max_string_len].
  unfold size, saturating_add, saturating_mul, ENTRY_OVERHEAD in *.
  assert (len (name l) + len (value l) + 32 <= Limits.http3_max_field_section_size limits) as Hle by word_lia.
  pose proof (len_nonneg (name l)). pose proof (len_nonneg (value l)).
  assert (line_ok l) as Hl by (split; (split; [done|word_lia])). split; [done|].
  destruct Hl as [Hln Hlv].
  pose proof (literal_of_len e _ Hln). pose proof (literal_of_len e _ Hlv).
  split; word_lia.
Qed.

Lemma decode_section d e lines :
  Forall line_ok lines ->
  decode d (QPrefix.encoding QPrefix.STATIC ++ section_of e lines)
    = Ok (MkFieldLines (section_of e lines) (decoder_max_string_len d) false).
Proof.
  intros Hl. unfold decode.
  rewrite QPrefix.prefix_parse_encoding; [|by split|by apply section_octets].
  cbn [map_err]. by rewrite drop_app_length.
Qed.

(** What a line that was decoded is made of: the representation is static, and the
    literals respect the cap. *)
Lemma line_static s l used :
  line s = Ok (l, used) ->
  exists r, parse (rest s) = Ok (r, used) /\ is_dynamic r = false.
Proof.
  unfold line. destruct (parse (rest s)) as [[r u]|] eqn:Hp; [|done]. intros H. exists r.
  destruct r as [[] i|i|n [] i v|n i v|n m v]; try done; cbn [is_dynamic negb];
    (split; [|done]); revert H;
    match goal with |- match ?m with Ok _ => _ | Err _ => _ end = _ -> _ => destruct m; [|done] end;
    by intros [= _ ->].
Qed.

(** ** Properties *)

(** C9. A field section survives the wire: whatever lines an encoder of any Huffman
    policy is given, as long as each is within the field section size the decoder was
    configured with, what it appends is one section that the decoder accepts, and
    iterating the decoder to the end gives the same names and values in the same
    order, marked never-indexed when the caller or the list of sensitive names says
    so. *)
Theorem section_roundtrip limits d e lines out :
  Decoder_new limits = Ok d -> Limits.http3_max_field_section_size limits < 2 ^ 58 ->
  Forall (line_size_ok limits) lines ->
  exists section s,
    encode e lines out = Some (out ++ section) /\ decode d section = Ok s /\
    collect (S (length section)) s = Some (Ok (map marked lines)).
Proof.
  intros Hd Hm Hl.
  assert (Forall (fun l => line_ok l /\ fits (decoder_max_string_len d) e l) lines) as Hf.
  { eapply Forall_impl; [exact Hl|]. intros l. by eapply line_size_fits. }
  assert (Forall line_ok lines) as Hok by (eapply Forall_impl; [exact Hf|]; by intros ? []).
  exists (QPrefix.encoding QPrefix.STATIC ++ section_of e lines). eexists. split; [|split].
  - unfold encode. rewrite QPrefix.prefix_encode_encoding, encode_lines_section by done.
    by rewrite app_assoc.
  - by apply decode_section.
  - apply collect_section; [done|]. rewrite length_app. lia.
Qed.

Definition demo_line : FieldLine := MkFieldLine (bs "cookie") (bs "a=b") false.

Lemma section_roundtrip_witness :
  exists section s,
    encode (MkEncoder Shorter) [demo_line] [7] = Some ([7] ++ section) /\
    decode (MkDecoder 1073741824) section = Ok s /\
    collect (S (length section)) s = Some (Ok [MkFieldLine (bs "cookie") (bs "a=b") true]).
Proof.
  apply (section_roundtrip Limits.Http3Limits_DEFAULT (MkDecoder 1073741824) (MkEncoder Shorter)
    [demo_line] [7]).
  - reflexivity.
  - reflexivity.
  - constructor; [|constructor]. split; [|split]; [apply (bool_decide_unpack _); vm_compute; exact I..|].
    vm_compute. discriminate.
Defined.

(** C39. Iterating a field section always ends: with fuel for one turn per octet the
    iteration has produced a verdict, for any octets and any limits. *)
Theorem collect_terminates d section s :
  decode d section = Ok s -> is_Some (collect (S (length section)) s).
Proof.
  unfold decode. destruct (QPrefix.parse section) as [[p used]|]; [|done]. cbn [map_err].
  destruct (map_err _ (QPrefix.required_insert_count _ _ _)); [|done].
  destruct (map_err _ (QPrefix.base _ _ _)); [|done]. intros [= <-].
  apply collect_total. cbn [rest]. rewrite length_drop. lia.
Qed.

Lemma collect_terminates_witness : is_Some (collect 4 (MkFieldLines [0xc1] 100 false)).
Proof. apply (collect_terminates (MkDecoder 100) [0; 0; 0xc1]). reflexivity. Defined.

(** No line the decoder yields comes from a dynamic table: it read a
    representation that refers to the static table or carries its own name, and a
    representation that does refer to the dynamic table is refused. *)
Theorem line_never_dynamic s :
  (forall l used, line s = Ok (l, used) ->
     exists r, parse (rest s) = Ok (r, used) /\ is_dynamic r = false) /\
  (forall r used, parse (rest s) = Ok (r, used) -> is_dynamic r = true ->
     line s = Err DynamicReference).
Proof.
  split; [apply line_static|]. intros r used Hp Hd. unfold line. rewrite Hp.
  by destruct r as [[] i|i|n [] i v|n i v|n m v].
Qed.

(** A line that must not be indexed is written as a literal with its N bit set,
    whatever the static table holds: never as an index. *)
Theorem sensitive_never_indexed e l out :
  line_ok l -> never_indexed l = true \/ name l ∈ SENSITIVE_NAMES ->
  exists r, encode_line e l out = QRepresentation.encode r out /\
    match r with
    | LiteralNameReference never _ _ _ | LiteralName never _ _ => never = true
    | _ => False
    end.
Proof.
  intros Hl Hs. exists (representation_of e l). split; [by apply write_line_representation|].
  assert (sensitive l = true) as Ht.
  { unfold sensitive. destruct Hs as [->|Hs]; [done|]. rewrite (bool_decide_eq_true_2 _ Hs).
    apply orb_true_r. }
  unfold representation_of. rewrite Ht. by destruct (QTable.find _ _) as [[]|].
Qed.

Lemma sensitive_never_indexed_witness :
  exists r, encode_line (MkEncoder Always) demo_line [] = QRepresentation.encode r [] /\
    match r with
    | LiteralNameReference never _ _ _ | LiteralName never _ _ => never = true
    | _ => False
    end.
Proof.
  apply sensitive_never_indexed.
  - apply (bool_decide_unpack _). vm_compute. exact I.
  - right. apply (bool_decide_unpack _). vm_compute. exact I.
Defined.
