(* ===== verification/QInstruction.v ===== *)
(** * Encoder and decoder stream instructions (zero-qpack, instruction.rs)

    The two unframed unidirectional streams of QPACK, and the receivers of a
    peer's streams at a maximum table capacity of zero. *)
From S2P Require Import Prelude.
From S2P Require Import Stream.
From S2P Require QInteger.
From S2P Require QString.
From S2P Require QTable.
From S2P Require Import QError.
From S2P Require QRepresentation.

Definition encoder_stream (error : QInteger.IntegerError) : Error :=
  MkError EncoderStream (Integer error).
Definition decoder_stream (error : QInteger.IntegerError) : Error :=
  MkError DecoderStream (Integer error).

Definition last_static_index : Z := saturating_sub (len QTable.STATIC_TABLE) 1.

(** ** Encoder instructions *)

Inductive EncoderInstruction : Type :=
| SetDynamicTableCapacity (capacity : Z)
| InsertWithNameReference (static_table : bool) (index : Z) (value : QString.StringLiteral)
| InsertWithLiteralName (name value : QString.StringLiteral)
| Duplicate (index : Z).

(** [integer::decode(..).map_err(encoder_stream)] and the same for a literal. *)
Definition integer (input : bytes) (prefix : QInteger.PrefixBits) (cap : Z)
  : result Error (option (Z * nat)) :=
  map_err encoder_stream (QInteger.decode input prefix cap).
Definition literal (input : bytes) (prefix : QString.StringPrefixBits) (cap : Z)
  : result Error (option (QString.StringLiteral * nat)) :=
  map_err encoder_stream (QString.parse input prefix cap).

Definition EncoderInstruction_parse (input : bytes) (max_string_len : Z)
  : result Error (option (EncoderInstruction * nat)) :=
  match head input with
  | None => Ok None
  | Some first =>
      if has first 0x80 then
        let?? (index, used) := integer input QInteger.P6 QInteger.MAX_VALUE in
        let?? (value, value_len) := literal (drop used input) QString.P8 max_string_len in
        Ok (Some (InsertWithNameReference (has first 0x40) index value, (used + value_len)%nat))
      else if Z.land first 0xc0 =? 0x40 then
        let?? (name, used) := literal input QString.P6 max_string_len in
        let?? (value, value_len) := literal (drop used input) QString.P8 max_string_len in
        Ok (Some (InsertWithLiteralName name value, (used + value_len)%nat))
      else
        let?? (value, used) := integer input QInteger.P5 QInteger.MAX_VALUE in
        Ok (Some (if Z.land first 0xe0 =? 0x20 then SetDynamicTableCapacity value
                  else Duplicate value, used))
  end.

(** [None] when [out] is left unchanged: a failed write is truncated. *)
Definition EncoderInstruction_encode (i : EncoderInstruction) (out : bytes) : option bytes :=
  match i with
  | SetDynamicTableCapacity capacity => QInteger.push capacity QInteger.P5 0x20 out
  | InsertWithNameReference static_table index value =>
      let flags := if static_table then 0xc0 else 0x80 in
      let! out := QInteger.push index QInteger.P6 flags out in
      QString.encode value QString.P8 0 out
  | InsertWithLiteralName name value =>
      let! out := QString.encode name QString.P6 0x40 out in
      QString.encode value QString.P8 0 out
  | Duplicate index => QInteger.push index QInteger.P5 0x00 out
  end.

(** ** Instruction heads: the opcode and the first integer *)

Inductive EncoderHead : Type :=
| HeadSetDynamicTableCapacity (capacity : Z)
| HeadInsertWithNameReference (static_table : bool) (index : Z)
| HeadInsertWithLiteralName (huffman : bool) (name_len : Z)
| HeadDuplicate (index : Z).

Definition EncoderHead_parse (input : bytes) (max_string_len : Z)
  : result Error (option (EncoderHead * nat)) :=
  match head input with
  | None => Ok None
  | Some first =>
      let '(prefix, cap) :=
        if has first 0x80 then (QInteger.P6, QInteger.MAX_VALUE)
        else if Z.land first 0xc0 =? 0x40 then (QInteger.P5, max_string_len)
        else (QInteger.P5, QInteger.MAX_VALUE) in
      let?? (value, used) := integer input prefix cap in
      let head :=
        if has first 0x80 then HeadInsertWithNameReference (has first 0x40) value
        else if Z.land first 0xc0 =? 0x40 then HeadInsertWithLiteralName (has first 0x20) value
        else if Z.land first 0xe0 =? 0x20 then HeadSetDynamicTableCapacity value
        else HeadDuplicate value in
      Ok (Some (head, used))
  end.

(** ** Decoder instructions *)

Inductive DecoderInstruction : Type :=
| SectionAcknowledgment (stream_id : Z)
| StreamCancellation (stream_id : Z)
| InsertCountIncrement (increment : Z).

Definition DecoderInstruction_parse (input : bytes)
  : result Error (option (DecoderInstruction * nat)) :=
  match head input with
  | None => Ok None
  | Some first =>
      let prefix := if has first 0x80 then QInteger.P7 else QInteger.P6 in
      let?? (value, used) :=
        map_err decoder_stream (QInteger.decode input prefix QInteger.MAX_VALUE) in
      let instruction :=
        if has first 0x80 then SectionAcknowledgment value
        else if has first 0x40 then StreamCancellation value
        else InsertCountIncrement value in
      Ok (Some (instruction, used))
  end.

Definition DecoderInstruction_encode (i : DecoderInstruction) (out : bytes) : option bytes :=
  match i with
  | SectionAcknowledgment stream_id => QInteger.push stream_id QInteger.P7 0x80 out
  | StreamCancellation stream_id => QInteger.push stream_id QInteger.P6 0x40 out
  | InsertCountIncrement increment => QInteger.push increment QInteger.P6 0x00 out
  end.

(** ** The receivers *)

Record EncoderStreamReceiver : Type := MkEncoderStreamReceiver {
  max_capacity : Z;
  max_string_len : Z;
}.

Definition EncoderStreamReceiver_new (max_string_len : Z) : EncoderStreamReceiver :=
  MkEncoderStreamReceiver 0 max_string_len.

Definition check (self : EncoderStreamReceiver) (head : EncoderHead) : result Error unit :=
  let fault :=
    match head with
    | HeadSetDynamicTableCapacity capacity =>
        if max_capacity self <? capacity then CapacityExceeded else InstructionAtCapacityZero
    | HeadInsertWithNameReference static_table index =>
        if static_table && (last_static_index <? index) then InvalidStaticIndex else EntryTooLarge
    | HeadInsertWithLiteralName _ _ => EntryTooLarge
    | HeadDuplicate _ => InstructionAtCapacityZero
    end in
  Err (MkError EncoderStream fault).

(** The body of the loop of [EncoderStreamReceiver::feed]: a head, the check, and
    then the whole instruction. *)
Definition receive_instruction (self : EncoderStreamReceiver) (rest : bytes)
  : result Error (option (EncoderInstruction * nat)) :=
  let?? (head, _) := EncoderHead_parse rest (max_string_len self) in
  let? _ := check self head in
  EncoderInstruction_parse rest (max_string_len self).

(** The state after the call and the octets consumed. *)
Definition EncoderStreamReceiver_feed (self : EncoderStreamReceiver) (input : bytes)
  : result Error (EncoderStreamReceiver * nat) :=
  drain (receive_instruction self) (fun self _ => Ok self) self input.

Inductive DecoderStreamReceiver : Type := MkDecoderStreamReceiver.

Definition receive (self : DecoderStreamReceiver) (i : DecoderInstruction)
  : result Error DecoderStreamReceiver :=
  match i with
  | SectionAcknowledgment _ => Err (MkError DecoderStream UnexpectedAcknowledgment)
  | InsertCountIncrement _ => Err (MkError DecoderStream InvalidIncrement)
  | StreamCancellation _ => Ok self
  end.

Definition DecoderStreamReceiver_feed (self : DecoderStreamReceiver) (input : bytes)
  : result Error (DecoderStreamReceiver * nat) :=
  drain DecoderInstruction_parse receive self input.

(** ** Incremental parsing *)

#[global] Instance integer_stream p cap : StreamParser (fun input => integer input p cap).
Proof. apply stream_map_err, _. Qed.
#[global] Instance literal_stream p cap : StreamParser (fun input => literal input p cap).
Proof. apply stream_map_err, _. Qed.

#[global] Instance EncoderInstruction_stream cap :
  StreamParser (fun input => EncoderInstruction_parse input cap).
Proof.
  apply stream_first. intros first.
  destruct (has first 0x80); [|destruct (Z.land first 0xc0 =? 0x40)].
  - apply (stream_bind (fun i v => InsertWithNameReference (has first 0x40) i v)
      (fun input => integer input QInteger.P6 QInteger.MAX_VALUE)
      (fun _ rest => literal rest QString.P8 cap)); apply _.
  - apply (stream_bind InsertWithLiteralName (fun input => literal input QString.P6 cap)
      (fun _ rest => literal rest QString.P8 cap)); apply _.
  - apply (stream_map (fun v => if Z.land first 0xe0 =? 0x20 then SetDynamicTableCapacity v
      else Duplicate v)), _.
Qed.

#[global] Instance EncoderHead_stream cap :
  StreamParser (fun input => EncoderHead_parse input cap).
Proof.
  apply stream_first. intros first.
  destruct (has first 0x80); [|destruct (Z.land first 0xc0 =? 0x40)].
  - apply (stream_map (HeadInsertWithNameReference (has first 0x40))), _.
  - apply (stream_map (HeadInsertWithLiteralName (has first 0x20))), _.
  - apply (stream_map (fun v => if Z.land first 0xe0 =? 0x20 then HeadSetDynamicTableCapacity v
      else HeadDuplicate v)), _.
Qed.

#[global] Instance DecoderInstruction_stream : StreamParser DecoderInstruction_parse.
Proof.
  apply stream_first. intros first.
  apply (stream_map (fun v => if has first 0x80 then SectionAcknowledgment v
    else if has first 0x40 then StreamCancellation v else InsertCountIncrement v)
    (fun input => map_err decoder_stream _)), stream_map_err, _.
Qed.

(** ** Round trips *)

Definition index_ok (i : Z) : Prop := 0 <= i <= QInteger.MAX_VALUE.
Definition literal_ok (cap : Z) (l : QString.StringLiteral) : Prop :=
  QRepresentation.literal_ok l /\ len (QString.data l) <= cap.

Definition instruction_ok (cap : Z) (i : EncoderInstruction) : Prop :=
  match i with
  | SetDynamicTableCapacity n | Duplicate n => index_ok n
  | InsertWithNameReference _ n value => index_ok n /\ literal_ok cap value
  | InsertWithLiteralName name value => literal_ok cap name /\ literal_ok cap value
  end.

Definition instruction_encoding (i : EncoderInstruction) : bytes :=
  match i with
  | SetDynamicTableCapacity n => QInteger.encoding n QInteger.P5 0x20
  | InsertWithNameReference s n value =>
      QInteger.encoding n QInteger.P6 (if s then 0xc0 else 0x80) ++
      QString.encoding value QString.P8 0
  | InsertWithLiteralName name value =>
      QString.encoding name QString.P6 0x40 ++ QString.encoding value QString.P8 0
  | Duplicate n => QInteger.encoding n QInteger.P5 0x00
  end.

Lemma EncoderInstruction_encode_encoding cap i out :
  instruction_ok cap i -> EncoderInstruction_encode i out = Some (out ++ instruction_encoding i).
Proof.
  destruct i as [n|s n v|m v|n];
    cbn [instruction_ok EncoderInstruction_encode instruction_encoding];
    unfold index_ok, literal_ok, QRepresentation.literal_ok; intros H.
  - by rewrite QInteger.int_push_encoding.
  - rewrite QInteger.int_push_encoding, QString.str_encode_encoding by naive_solver. by rewrite app_assoc.
  - rewrite !QString.str_encode_encoding by naive_solver. by rewrite app_assoc.
  - by rewrite QInteger.int_push_encoding.
Qed.

Lemma integer_encoding value p flags more :
  index_ok value -> u8 flags -> octets more ->
  integer (QInteger.encoding value p flags ++ more) p QInteger.MAX_VALUE
    = Ok (Some (value, length (QInteger.encoding value p flags))).
Proof. unfold index_ok. intros. unfold integer. by rewrite QInteger.int_decode_encoding by (done || lia). Qed.

Lemma instr_literal_encoding cap l p flags more :
  literal_ok cap l -> u8 flags -> octets more ->
  literal (QString.encoding l p flags ++ more) p cap
    = Ok (Some (l, length (QString.encoding l p flags))).
Proof.
  intros [[??]?] ? ?. unfold literal. by rewrite QString.str_parse_encoding by (done || lia).
Qed.

Lemma value_octets cap v more :
  literal_ok cap v -> octets more -> octets (QString.encoding v QString.P8 0 ++ more).
Proof.
  intros [Hv _] Hm. apply Forall_app. split; [|done].
  by apply QRepresentation.string_encoding_octets.
Qed.

Lemma EncoderInstruction_parse_encoding cap i more :
  instruction_ok cap i -> octets more ->
  EncoderInstruction_parse (instruction_encoding i ++ more) cap
    = Ok (Some (i, length (instruction_encoding i))).
Proof.
  intros Hi Hm. unfold EncoderInstruction_parse, has.
  destruct i as [n|s n v|m v|n]; cbn [instruction_ok instruction_encoding] in *.
  - destruct (QInteger.int_encoding_head n QInteger.P5 0x20 more) as (f & -> & Hf); [by destruct Hi|].
    QString.first_octet_flags Hf. by rewrite integer_encoding.
  - destruct Hi as [Hn Hv]. rewrite <- app_assoc. pose proof (value_octets _ _ _ Hv Hm).
    set (flags := if s then _ else _). assert (u8 flags) by (by destruct s).
    destruct (QInteger.int_encoding_head n QInteger.P6 flags
      (QString.encoding v QString.P8 0 ++ more)) as (f & -> & Hf); [by destruct Hn|].
    QString.first_octet_flags Hf.
    rewrite integer_encoding, drop_app_length, (instr_literal_encoding cap) by done.
    rewrite length_app. by destruct s.
  - destruct Hi as [Hn Hv]. rewrite <- app_assoc. pose proof (value_octets _ _ _ Hv Hm).
    destruct (QString.str_encoding_head m QString.P6 0x40 (QString.encoding v QString.P8 0 ++ more))
      as (f & -> & Hf). QString.first_octet_flags Hf.
    rewrite (instr_literal_encoding cap), drop_app_length, (instr_literal_encoding cap) by done.
    by rewrite length_app.
  - destruct (QInteger.int_encoding_head n QInteger.P5 0x00 more) as (f & -> & Hf); [by destruct Hi|].
    QString.first_octet_flags Hf. by rewrite integer_encoding.
Qed.

Definition stream_id_of (i : DecoderInstruction) : Z :=
  match i with SectionAcknowledgment n | StreamCancellation n | InsertCountIncrement n => n end.
Definition decoder_prefix (i : DecoderInstruction) : QInteger.PrefixBits * Z :=
  match i with
  | SectionAcknowledgment _ => (QInteger.P7, 0x80)
  | StreamCancellation _ => (QInteger.P6, 0x40)
  | InsertCountIncrement _ => (QInteger.P6, 0x00)
  end.
Definition decoder_encoding (i : DecoderInstruction) : bytes :=
  QInteger.encoding (stream_id_of i) (decoder_prefix i).1 (decoder_prefix i).2.

Lemma DecoderInstruction_encode_encoding i out :
  index_ok (stream_id_of i) -> DecoderInstruction_encode i out = Some (out ++ decoder_encoding i).
Proof. destruct i; intros H; cbn; by rewrite QInteger.int_push_encoding. Qed.

Lemma DecoderInstruction_parse_encoding i more :
  index_ok (stream_id_of i) -> octets more ->
  DecoderInstruction_parse (decoder_encoding i ++ more)
    = Ok (Some (i, length (decoder_encoding i))).
Proof.
  intros Hi Hm. unfold DecoderInstruction_parse, has, decoder_encoding.
  destruct (QInteger.int_encoding_head (stream_id_of i) (decoder_prefix i).1 (decoder_prefix i).2 more)
    as (f & -> & Hf); [by destruct Hi|].
  destruct Hi. destruct i as [n|n|n]; cbn [stream_id_of decoder_prefix fst snd] in *;
    QString.first_octet_flags Hf;
    cbn [Z.land Z.eqb negb Pos.land Pos.eqb N.eqb Z.of_N Pos.Ndouble Pos.Nsucc_double];
    by rewrite QInteger.int_decode_encoding by (done || lia).
Qed.

(** ** The receivers *)

Lemma check_refuses self head : exists fault, check self head = Err (MkError EncoderStream fault).
Proof. unfold check. eauto. Qed.

Lemma receive_instruction_never self input i n :
  receive_instruction self input <> Ok (Some (i, n)).
Proof.
  unfold receive_instruction. destruct (EncoderHead_parse _ _) as [[[h k]|]|e]; [|done..].
  by destruct (check_refuses self h) as [f ->].
Qed.

(** The feed loop turns at most once: it waits for a head or refuses. *)
Lemma encoder_feed_head self input :
  EncoderStreamReceiver_feed self input =
    match EncoderHead_parse input (max_string_len self) with
    | Ok None => Ok (self, 0%nat)
    | Ok (Some (h, _)) => let? _ := check self h in Ok (self, 0%nat)
    | Err e => Err e
    end.
Proof.
  unfold EncoderStreamReceiver_feed, drain, receive_instruction. cbn [drain_fuel].
  destruct (EncoderHead_parse _ _) as [[[h k]|]|e]; [|done..].
  by destruct (check_refuses self h) as [f ->].
Qed.

(** What the first complete head is refused for. *)
Definition head_fault (self : EncoderStreamReceiver) (h : EncoderHead) : Fault :=
  match h with
  | HeadSetDynamicTableCapacity capacity =>
      if decide (max_capacity self < capacity) then CapacityExceeded else InstructionAtCapacityZero
  | HeadInsertWithNameReference true index =>
      if decide (last_static_index < index) then InvalidStaticIndex else EntryTooLarge
  | HeadInsertWithNameReference false _ | HeadInsertWithLiteralName _ _ => EntryTooLarge
  | HeadDuplicate _ => InstructionAtCapacityZero
  end.

Lemma check_fault self h : check self h = Err (MkError EncoderStream (head_fault self h)).
Proof.
  unfold check. do 2 f_equal. destruct h as [c|[] i|h n|i]; cbn [head_fault andb]; try done;
    case_decide; by bool_lia.
Qed.

Lemma head_prompt input cap :
  octets input -> 0 <= cap -> (QInteger.MAX_LEN <= length input)%nat ->
  EncoderHead_parse input cap <> Ok None.
Proof.
  intros Ho Hc Hl. destruct input as [|first input]; [cbn in Hl; unfold QInteger.MAX_LEN in Hl; lia|].
  unfold EncoderHead_parse, integer. cbn [head].
  repeat match goal with |- context [if ?c then (?p, ?q) else ?r] => destruct c end;
  match goal with |- context [QInteger.decode ?i ?p ?c] =>
    pose proof (QInteger.decode_spec i p c Ho ltac:(done || (unfold QInteger.MAX_VALUE; lia))) as Hd;
    destruct (QInteger.decode i p c) as [[[v n]|]|e]; [done | destruct Hd; lia | done]
  end.
Qed.

Lemma decoder_feed_cons self i tail :
  index_ok (stream_id_of i) -> octets tail ->
  DecoderStreamReceiver_feed self (decoder_encoding i ++ tail) =
    (let? self := receive self i in
     let? (self, n) := DecoderStreamReceiver_feed self tail in
     Ok (self, (length (decoder_encoding i) + n)%nat)).
Proof.
  intros Hi Ht. unfold DecoderStreamReceiver_feed.
  rewrite (drain_cons _ _ _ _ _ _ (DecoderInstruction_parse_encoding i tail Hi Ht)).
  by rewrite drop_app_length.
Qed.

Lemma decoder_encoding_octets i : index_ok (stream_id_of i) -> octets (decoder_encoding i).
Proof.
  intros [? ?]. apply QInteger.int_encoding_octets; [lia|]. by destruct i.
Qed.

Definition cancellations (ids : list Z) : bytes :=
  mbind (fun id => decoder_encoding (StreamCancellation id)) ids.

Lemma cancellations_cons id ids :
  cancellations (id :: ids) = decoder_encoding (StreamCancellation id) ++ cancellations ids.
Proof. done. Qed.

Lemma cancellations_octets ids : Forall index_ok ids -> octets (cancellations ids).
Proof.
  induction 1 as [|id ids Hid Hids IH]; [done|].
  apply Forall_app. split; [by apply decoder_encoding_octets | done].
Qed.

Lemma decoder_feed_cancellations self ids tail :
  Forall index_ok ids -> octets tail ->
  DecoderStreamReceiver_feed self (cancellations ids ++ tail) =
    (let? (self, n) := DecoderStreamReceiver_feed self tail in
     Ok (self, (length (cancellations ids) + n)%nat)).
Proof.
  intros Hids Ht. induction Hids as [|id ids Hid Hids IH].
  - change (cancellations []) with (@nil Z). cbn [app length].
    by destruct (DecoderStreamReceiver_feed self tail) as [[??]|].
  - rewrite cancellations_cons, <- app_assoc, decoder_feed_cons; [|done|].
    2: { apply Forall_app_2; [by apply cancellations_octets | done]. }
    cbn [receive]. rewrite IH.
    destruct (DecoderStreamReceiver_feed self tail) as [[??]|]; [|done].
    rewrite length_app. do 2 f_equal. lia.
Qed.

(** ** Properties *)

(** The instructions of both streams survive the wire whatever follows them. *)
Theorem instruction_roundtrip cap i j out more :
  instruction_ok cap i -> index_ok (stream_id_of j) -> octets more ->
  (exists wire, EncoderInstruction_encode i out = Some (out ++ wire) /\
     EncoderInstruction_parse (wire ++ more) cap = Ok (Some (i, length wire))) /\
  (exists wire, DecoderInstruction_encode j out = Some (out ++ wire) /\
     DecoderInstruction_parse (wire ++ more) = Ok (Some (j, length wire))).
Proof.
  intros Hi Hj Hm. split.
  - exists (instruction_encoding i). split; [by eapply EncoderInstruction_encode_encoding|].
    by apply EncoderInstruction_parse_encoding.
  - exists (decoder_encoding j). split; [by apply DecoderInstruction_encode_encoding|].
    by apply DecoderInstruction_parse_encoding.
Qed.

Lemma instruction_roundtrip_witness :
  (exists wire, EncoderInstruction_encode (InsertWithNameReference true 17 (QString.Literal false [65])) []
      = Some ([] ++ wire) /\
     EncoderInstruction_parse (wire ++ [3]) 100
      = Ok (Some (InsertWithNameReference true 17 (QString.Literal false [65]), length wire))) /\
  (exists wire, DecoderInstruction_encode (StreamCancellation 900) [] = Some ([] ++ wire) /\
     DecoderInstruction_parse (wire ++ [3]) = Ok (Some (StreamCancellation 900, length wire))).
Proof.
  apply instruction_roundtrip.
  - split; [split; discriminate|]. split; [split; [by apply (bool_decide_unpack _)|discriminate]|discriminate].
  - split; discriminate.
  - by apply (bool_decide_unpack _).
Defined.

(** At a table capacity of zero every instruction of a peer's encoder is refused,
    with the fault of its head, and no later than its tenth octet: the receiver never
    waits for the octets of a string, and an input it accepts consumed nothing. *)
Theorem encoder_stream_refused cap input :
  octets input -> 0 <= cap ->
  let self := EncoderStreamReceiver_new cap in
  EncoderStreamReceiver_feed self input =
    match EncoderHead_parse input cap with
    | Ok None => Ok (self, 0%nat)
    | Ok (Some (h, _)) => Err (MkError EncoderStream (head_fault self h))
    | Err e => Err e
    end /\
  ((QInteger.MAX_LEN <= length input)%nat -> is_ok (EncoderStreamReceiver_feed self input) = false).
Proof.
  intros Ho Hc self.
  assert (EncoderStreamReceiver_feed self input =
    match EncoderHead_parse input cap with
    | Ok None => Ok (self, 0%nat)
    | Ok (Some (h, _)) => Err (MkError EncoderStream (head_fault self h))
    | Err e => Err e
    end) as Heq.
  { rewrite encoder_feed_head. cbn [max_string_len self EncoderStreamReceiver_new].
    destruct (EncoderHead_parse input cap) as [[[h n]|]|e]; [|done..]. by rewrite check_fault. }
  split; [exact Heq|]. intros Hl. rewrite Heq. pose proof (head_prompt input cap Ho Hc Hl).
  by destruct (EncoderHead_parse input cap) as [[[h n]|]|e].
Qed.

Lemma encoder_stream_refused_witness :
  let self := EncoderStreamReceiver_new 64 in
  EncoderStreamReceiver_feed self [0x3f; 0xe1; 0x1f] =
    match EncoderHead_parse [0x3f; 0xe1; 0x1f] 64 with
    | Ok None => Ok (self, 0%nat)
    | Ok (Some (h, _)) => Err (MkError EncoderStream (head_fault self h))
    | Err e => Err e
    end /\
  ((QInteger.MAX_LEN <= length [0x3f; 0xe1; 0x1f])%nat ->
    is_ok (EncoderStreamReceiver_feed self [0x3f; 0xe1; 0x1f]) = false).
Proof. apply encoder_stream_refused; [by apply (bool_decide_unpack _) | discriminate]. Defined.

(** A decoder stream of a peer may only cancel streams: the receiver consumes any
    sequence of cancellations and refuses the first instruction that is not one, and
    how the stream is cut into buffers does not change what it consumes or refuses. *)
Theorem decoder_stream_cancellations self ids i tail more :
  Forall index_ok ids -> index_ok (stream_id_of i) -> octets tail ->
  DecoderStreamReceiver_feed self (cancellations ids) = Ok (self, length (cancellations ids)) /\
  (forall fault, receive self i = Err fault ->
     DecoderStreamReceiver_feed self (cancellations ids ++ decoder_encoding i ++ tail) = Err fault) /\
  (forall s n, DecoderStreamReceiver_feed self tail = Ok (s, n) ->
     DecoderStreamReceiver_feed self (tail ++ more) =
       (let? (s', m) := DecoderStreamReceiver_feed s (drop n tail ++ more) in Ok (s', (n + m)%nat))) /\
  (forall fault, DecoderStreamReceiver_feed self tail = Err fault ->
     DecoderStreamReceiver_feed self (tail ++ more) = Err fault).
Proof.
  intros Hids Hi Ht. split; [|split; [|split]].
  - rewrite <- (app_nil_r (cancellations ids)) at 1.
    rewrite decoder_feed_cancellations by done. cbn. by rewrite Nat.add_0_r.
  - intros fault Hf. rewrite decoder_feed_cancellations; [|done|].
    2: { apply Forall_app_2; [by apply decoder_encoding_octets | done]. }
    by rewrite decoder_feed_cons, Hf.
  - intros s n. apply drain_app, _.
  - intros fault. apply drain_app_error, _.
Qed.

Lemma decoder_stream_cancellations_witness :
  let self := MkDecoderStreamReceiver in
  DecoderStreamReceiver_feed self (cancellations [4; 900]) = Ok (self, length (cancellations [4; 900])) /\
  (forall fault, receive self (InsertCountIncrement 1) = Err fault ->
     DecoderStreamReceiver_feed self
       (cancellations [4; 900] ++ decoder_encoding (InsertCountIncrement 1) ++ [0x7f]) = Err fault) /\
  (forall s n, DecoderStreamReceiver_feed self [0x7f] = Ok (s, n) ->
     DecoderStreamReceiver_feed self ([0x7f] ++ [1]) =
       (let? (s', m) := DecoderStreamReceiver_feed s (drop n [0x7f] ++ [1]) in Ok (s', (n + m)%nat))) /\
  (forall fault, DecoderStreamReceiver_feed self [0x7f] = Err fault ->
     DecoderStreamReceiver_feed self ([0x7f] ++ [1]) = Err fault).
Proof.
  apply decoder_stream_cancellations.
  - repeat (constructor; [split; discriminate|]). constructor.
  - split; discriminate.
  - by apply (bool_decide_unpack _).
Defined.
