(* ===== verification/Varint.v ===== *)
(** * Variable-length integers (zero-h3, varint.rs)

    The two most significant bits of the first octet give the base-2 logarithm of
    the length, the rest is the value in network byte order. *)
From S2P Require Import Prelude.
From S2P Require Import Stream.

Definition MAX : Z := 0x3FFFFFFFFFFFFFFF.
Definition MAX_LEN : nat := 8.

Definition len_from_first (first : Z) : nat :=
  match Z.shiftr first 6 with
  | 0 => 1%nat
  | 1 => 2%nat
  | 2 => 4%nat
  | _ => 8%nat
  end.

Definition decode (input : bytes) : option (Z * nat) :=
  let! first := head input in
  match len_from_first first with
  | 1%nat => Some (first, 1%nat)
  | 2%nat => let! bytes := get_to 2 input in Some (Z.land (from_be bytes) 0x3FFF, 2%nat)
  | 4%nat => let! bytes := get_to 4 input in Some (Z.land (from_be bytes) 0x3FFFFFFF, 4%nat)
  | _ => let! bytes := get_to 8 input in Some (Z.land (from_be bytes) MAX, 8%nat)
  end.

Definition encoded_len (value : Z) : option nat :=
  if value <=? 0x3F then Some 1%nat
  else if value <=? 0x3FFF then Some 2%nat
  else if value <=? 0x3FFFFFFF then Some 4%nat
  else if value <=? MAX then Some 8%nat
  else None.

(** The [match] of [encode_with_len]: the octets it forms, of which the first
    [len] are copied. *)
Definition octets_with_len (value : Z) (len : nat) : option bytes :=
  match len with
  | 1%nat => if value <=? 0x3F then Some (to_be 1 value) else None
  | 2%nat => if value <=? 0x3FFF then Some (to_be 2 (Z.lor value 0x4000)) else None
  | 4%nat => if value <=? 0x3FFFFFFF then Some (to_be 4 (Z.lor value 0x80000000)) else None
  | 8%nat => if MAX <? value then None else Some (to_be 8 (Z.lor value 0xC000000000000000))
  | _ => None
  end.

(** [out] is the slice before the call; the result is the octets written and the
    slice after it. *)
Definition encode_with_len (value : Z) (len : nat) (out : bytes) : option (nat * bytes) :=
  let! bytes := octets_with_len value len in
  let! _ := get_to len out in
  Some (len, take len bytes ++ drop len out).

Definition encode (value : Z) (out : bytes) : option (nat * bytes) :=
  let! len := encoded_len value in
  encode_with_len value len out.

(** The vector after the call, [None] when it is left unchanged. *)
Definition push (value : Z) (out : bytes) : option bytes :=
  let! (len, bytes) := encode value (replicate MAX_LEN 0) in
  let! written := get_to len bytes in
  Some (out ++ written).

(** ** The format, as RFC 9000 Section 16 has it *)

(** The base-2 logarithm of the length. *)
Definition log_len (n : nat) : Z :=
  match n with 1%nat => 0 | 2%nat => 1 | 4%nat => 2 | _ => 3 end.
Definition width (n : nat) : Z := 8 * Z.of_nat n - 2.
Definition length_ok (n : nat) : Prop := n ∈ [1; 2; 4; 8]%nat.
#[global] Instance length_ok_dec n : Decision (length_ok n).
Proof. unfold length_ok. apply _. Defined.

Definition rfc9000 (input : bytes) : option (Z * nat) :=
  let! first := head input in
  let n := Z.to_nat (2 ^ (first / 64)) in
  let! bytes := get_to n input in
  Some (from_be bytes mod 2 ^ width n, n).

(** The encoding of [value] on [n] octets, and the shortest one. *)
Definition wide (value : Z) (n : nat) : bytes := to_be n (value + log_len n * 2 ^ width n).
Definition encoding (value : Z) : bytes := wide value (default 8%nat (encoded_len value)).

Ltac length_cases H :=
  unfold length_ok in H; repeat (apply elem_of_cons in H as [->|H]); [..|by apply elem_of_nil in H].

Lemma length_wide value n : length (wide value n) = n.
Proof. apply length_to_be. Qed.

Lemma wide_octets value n : octets (wide value n).
Proof. apply to_be_octets. Qed.

Lemma encoded_len_spec value :
  0 <= value <= MAX ->
  exists n, encoded_len value = Some n /\ length_ok n /\ value < 2 ^ width n /\
    forall m, length_ok m -> value < 2 ^ width m -> (n <= m)%nat.
Proof.
  intros Hv. unfold encoded_len, MAX in *.
  repeat match goal with |- context [if ?a <=? ?b then _ else _] => destruct (Z.leb_spec a b) end;
    try lia; eexists; (split; [reflexivity|]); (split; [by apply (bool_decide_unpack (length_ok _))|]);
    (split; [unfold width; cbn; lia|]); intros m Hm; length_cases Hm; unfold width;
    cbn [Z.of_nat Pos.of_succ_nat Pos.succ Z.mul Pos.mul Z.sub]; intros; pow2; cbn in *; lia.
Qed.

Lemma encoded_len_large value : MAX < value -> encoded_len value = None.
Proof. intros. unfold encoded_len, MAX in *. by bool_lia. Qed.

Lemma octets_with_len_wide value n :
  0 <= value -> length_ok n ->
  octets_with_len value n = if decide (value < 2 ^ width n) then Some (wide value n) else None.
Proof.
  intros Hv Hn. unfold wide.
  length_cases Hn; unfold octets_with_len, MAX, width, log_len;
    match goal with |- context [2 ^ (8 * Z.of_nat ?n - 2)] =>
      let k := eval vm_compute in (8 * Z.of_nat n - 2) in
      change (8 * Z.of_nat n - 2) with k end; pow2; case_decide; bool_lia; try done.
  - by rewrite Z.add_0_r.
  - change 0x4000 with (1 * 2 ^ 14). by rewrite lor_tag by (pow2; lia).
  - change 0x80000000 with (2 * 2 ^ 30). by rewrite lor_tag by (pow2; lia).
  - change 0xC000000000000000 with (3 * 2 ^ 62). by rewrite lor_tag by (pow2; lia).
Qed.

Lemma encode_with_len_wide value n out :
  0 <= value -> length_ok n ->
  encode_with_len value n out =
    if decide (value < 2 ^ width n /\ (n <= length out)%nat)
    then Some (n, wide value n ++ drop n out) else None.
Proof.
  intros Hv Hn. unfold encode_with_len. rewrite octets_with_len_wide by done. unfold get_to.
  repeat case_decide; try tauto. by rewrite take_ge by (rewrite length_wide; lia).
Qed.

Lemma varint_push_encoding value out :
  0 <= value <= MAX -> push value out = Some (out ++ encoding value).
Proof.
  intros Hv. destruct (encoded_len_spec value Hv) as (n & Hn & Hl & Hw & _).
  assert (n <= 8)%nat by (length_cases Hl; lia).
  unfold push, encode, encoding. rewrite Hn, encode_with_len_wide by lia || done.
  rewrite decide_True by (rewrite length_replicate; done). cbn [default].
  rewrite (proj2 (get_to_Some n _ (wide value n))); [done|].
  rewrite length_app, take_app_le, take_ge by (rewrite length_wide; lia).
  rewrite length_wide. split; [lia|done].
Qed.

Lemma varint_push_too_large value out : MAX < value -> push value out = None.
Proof. intros. unfold push, encode. by rewrite encoded_len_large. Qed.

(** ** Decoding *)

Lemma decode_rfc9000 input : octets input -> decode input = rfc9000 input.
Proof.
  intros Ho. unfold decode, rfc9000. destruct Ho as [|first rest Hf Hr]; [done|]. cbn [head].
  unfold len_from_first. rewrite Z.shiftr_div_pow2 by lia. change (2 ^ 6) with 64.
  assert (0 <= first / 64 < 4) as Hq.
  { unfold word in Hf. pow2. split; [apply Z.div_pos; lia | apply Z.div_lt_upper_bound; lia]. }
  assert (Hc : first / 64 = 0 \/ first / 64 = 1 \/ first / 64 = 2 \/ first / 64 = 3) by lia.
  destruct Hc as [Hc|[Hc|[Hc|Hc]]]; rewrite Hc.
  - assert (first < 64).
    { pose proof (Z.div_mod first 64 ltac:(lia)). pose proof (Z.mod_pos_bound first 64 ltac:(lia)). lia. }
    change (Z.to_nat (2 ^ 0)) with 1%nat. unfold get_to, word in *. cbn [length].
    rewrite decide_True by lia. unfold width. change (from_be (take 1 (first :: rest))) with first.
    change (2 ^ (8 * Z.of_nat 1 - 2)) with 64.
    rewrite Z.mod_small; [done|lia].
  - change (Z.to_nat (2 ^ 1)) with 2%nat. destruct (get_to 2 _); [|done].
    by rewrite <- (Z.land_ones _ 14).
  - change (Z.to_nat (2 ^ 2)) with 4%nat. destruct (get_to 4 _); [|done].
    by rewrite <- (Z.land_ones _ 30).
  - change (Z.to_nat (2 ^ 3)) with 8%nat. destruct (get_to 8 _); [|done].
    by rewrite <- (Z.land_ones _ 62).
Qed.

Lemma width_split n : length_ok n -> 2 ^ (8 * Z.of_nat n) = 4 * 2 ^ width n.
Proof. intros Hn. by length_cases Hn. Qed.

Lemma head_wide value n more :
  length_ok n -> 0 <= value < 2 ^ width n ->
  exists first, head (wide value n ++ more) = Some first /\ first / 64 = log_len n.
Proof.
  intros Hn Hv. unfold wide.
  assert (exists k, n = S k) as [k ->] by (length_cases Hn; eauto).
  eexists. split; [reflexivity|]. rewrite Z.shiftr_div_pow2 by lia.
  unfold width in *. replace (8 * Z.of_nat (S k) - 2) with (8 * Z.of_nat k + 6) in * by lia.
  rewrite Z.pow_add_r in * by lia. change (2 ^ 6) with 64 in *.
  pose proof (Z.pow_pos_nonneg 2 (8 * Z.of_nat k) ltac:(lia) ltac:(lia)) as Hp.
  set (p := 2 ^ (8 * Z.of_nat k)) in *.
  replace (value + log_len (S k) * (p * 64)) with (log_len (S k) * 64 * p + value) by ring.
  rewrite Z.div_add_l by lia.
  assert (0 <= value / p < 64) as Hq.
  { split; [apply Z.div_pos; lia | apply Z.div_lt_upper_bound; lia]. }
  assert (0 <= log_len (S k) < 4) by (length_cases Hn; cbn; lia).
  rewrite Z.mod_small by lia. rewrite Z.div_add_l, (Z.div_small (value / p)) by lia. lia.
Qed.

Lemma rfc9000_wide value n more :
  length_ok n -> 0 <= value < 2 ^ width n -> rfc9000 (wide value n ++ more) = Some (value, n).
Proof.
  intros Hn Hv. unfold rfc9000. destruct (head_wide value n more Hn Hv) as (f & -> & ->).
  replace (Z.to_nat (2 ^ log_len n)) with n by (by length_cases Hn).
  rewrite <- (length_wide value n) at 1. rewrite get_to_app. unfold wide.
  assert (0 <= log_len n) by (length_cases Hn; cbn; lia).
  rewrite from_be_to_be by lia. rewrite width_split by done.
  assert (log_len n < 4) by (length_cases Hn; cbn; lia).
  rewrite (Z.mod_small (value + _)) by nia. by rewrite Z.mod_add, Z.mod_small by lia.
Qed.

(** Every length decodes to the value, whatever follows. *)
Lemma decode_wide value n more :
  length_ok n -> 0 <= value < 2 ^ width n -> octets more ->
  decode (wide value n ++ more) = Some (value, n).
Proof.
  intros. rewrite decode_rfc9000; [by apply rfc9000_wide|].
  apply Forall_app_2; [apply wide_octets | done].
Qed.

Lemma varint_decode_encoding value more :
  0 <= value <= MAX -> octets more ->
  decode (encoding value ++ more) = Some (value, length (encoding value)).
Proof.
  intros Hv Hm. unfold encoding. rewrite length_wide.
  destruct (encoded_len_spec value Hv) as (n & -> & Hn & Hw & _). apply decode_wide; [done | split; [lia|done] | done].
Qed.

Lemma varint_encoding_octets value : octets (encoding value).
Proof. apply wide_octets. Qed.

Lemma varint_encoding_length value : 0 <= value <= MAX -> length_ok (length (encoding value)).
Proof.
  intros Hv. unfold encoding. rewrite length_wide.
  by destruct (encoded_len_spec value Hv) as (n & -> & Hn & _).
Qed.

(** What is decoded is in range and its octets are one of the four encodings of
    the value. *)
Lemma decode_sound input v n :
  octets input -> decode input = Some (v, n) ->
  length_ok n /\ (n <= length input)%nat /\ 0 <= v < 2 ^ width n /\ take n input = wide v n.
Proof.
  intros Ho. rewrite decode_rfc9000 by done. unfold rfc9000.
  destruct Ho as [|first rest Hf Hr]; [done|]. cbn [head].
  set (m := Z.to_nat (2 ^ (first / 64))).
  destruct (get_to m (first :: rest)) as [b|] eqn:Hb; [|done]. intros [= <- <-].
  apply get_to_Some in Hb as [Hl ->].
  assert (0 <= first / 64 < 4) as Hq.
  { unfold word in Hf. pow2. split; [apply Z.div_pos; lia | apply Z.div_lt_upper_bound; lia]. }
  assert (length_ok m /\ log_len m = first / 64) as [Hm Hlog].
  { subst m. assert (first / 64 = 0 \/ first / 64 = 1 \/ first / 64 = 2 \/ first / 64 = 3)
      as [->|[->|[->| ->]]] by lia; split; try done; by apply (bool_decide_unpack (length_ok _)). }
  split; [done|]. split; [done|].
  assert (0 < 2 ^ width m) by (by length_cases Hm).
  split; [by apply Z.mod_pos_bound|].
  assert (exists k, m = S k) as [k Hk] by (length_cases Hm; eauto).
  set (x := from_be (take m (first :: rest))).
  assert (octets (take m (first :: rest))) as Hto by (by apply Forall_take; constructor).
  assert (length (take m (first :: rest)) = m) as Hlen by (rewrite length_take; lia).
  rewrite <- (to_be_from_be (take m (first :: rest))), Hlen by done. fold x.
  unfold wide. f_equal. rewrite Hlog. rewrite (Z.div_mod x (2 ^ width m)) at 1 by lia.
  assert (x / 2 ^ width m = first / 64) as ->; [|lia].
  subst x. rewrite Hk. cbn [take]. rewrite from_be_cons.
  assert (len (take k rest) = Z.of_nat k) as Hlk.
  { rewrite Hk in Hlen. cbn [take length] in Hlen. unfold len. lia. }
  pose proof (from_be_bound (take k rest) ltac:(by apply Forall_take)) as Hfb. rewrite Hlk in *.
  unfold width. replace (8 * Z.of_nat (S k) - 2) with (8 * Z.of_nat k + 6) by lia.
  rewrite Z.pow_add_r by lia. rewrite <- Z.div_div by lia.
  rewrite Z.div_add_l, (Z.div_small (from_be _)), Z.add_0_r by lia. done.
Qed.

Lemma varint_decode_app input more v n : decode input = Some (v, n) -> decode (input ++ more) = Some (v, n).
Proof.
  unfold decode. destruct input as [|first rest]; [done|]. cbn [head app].
  assert (forall k b, get_to k (first :: rest) = Some b ->
    get_to k (first :: rest ++ more) = Some b) as Hg.
  { intros k b. rewrite !get_to_Some. intros [Hk ->].
    rewrite app_comm_cons, take_app_le, length_app by done. split; [lia|done]. }
  unfold len_from_first.
  destruct (Z.shiftr first 6) as [|[[]|[]|]|]; try done;
    match goal with |- context [get_to ?k (first :: rest)] =>
      destruct (get_to k (first :: rest)) eqn:Hk; [by rewrite (Hg _ _ Hk) | done] end.
Qed.

Lemma varint_decode_used input v n : decode input = Some (v, n) -> (0 < n <= length input)%nat.
Proof.
  unfold decode. destruct input as [|first rest]; [done|]. cbn [head].
  unfold len_from_first.
  destruct (Z.shiftr first 6) as [|[[]|[]|]|]; try (intros [= _ <-]; cbn; lia);
    match goal with |- context [get_to ?k (first :: rest)] =>
      destruct (get_to k (first :: rest)) eqn:Hk; [|done] end;
    apply get_to_Some in Hk as [Hk _]; intros [= _ <-]; lia.
Qed.

(** A decoder that cannot fail is an incremental parser for any error type. *)
#[global] Instance decode_stream E : StreamParser (E := E) (fun input => Ok (decode input)).
Proof.
  split.
  - intros input more v n [= H]. by rewrite (varint_decode_app _ _ _ _ H).
  - done.
  - intros input v n [= H]. by apply varint_decode_used in H.
Qed.

(** Eight octets are enough for a verdict. *)
Lemma decode_prompt input : (MAX_LEN <= length input)%nat -> is_Some (decode input).
Proof.
  intros Hl. unfold MAX_LEN in Hl. unfold decode. destruct input as [|first rest]; [cbn in Hl; lia|].
  cbn [head]. unfold len_from_first.
  destruct (Z.shiftr first 6) as [|[[]|[]|]|]; try (by eexists); unfold get_to;
    rewrite decide_True by lia; by eexists.
Qed.

(** The value and the length are in range for any input. *)
Lemma decode_range input v n : decode input = Some (v, n) -> 0 <= v <= MAX /\ (1 <= n <= 8)%nat.
Proof.
  assert (forall k x, 0 <= k <= 62 -> 0 <= Z.land x (Z.ones k) <= MAX) as Hl.
  { intros k x Hk. rewrite Z.land_ones by lia.
    pose proof (Z.mod_pos_bound x (2 ^ k) ltac:(lia)).
    pose proof (Z.pow_le_mono_r 2 k 62 ltac:(lia) ltac:(lia)) as Hp. unfold MAX. pow2. lia. }
  unfold decode. destruct input as [|first rest]; [done|]. cbn [head].
  unfold len_from_first. destruct (Z.shiftr first 6) as [|[p|p|]|p] eqn:Hs.
  - intros [= <- <-]. rewrite Z.shiftr_div_pow2 in Hs by lia. change (2 ^ 6) with 64 in Hs.
    pose proof (Z.div_mod first 64 ltac:(lia)). pose proof (Z.mod_pos_bound first 64 ltac:(lia)).
    unfold MAX. lia.
  - destruct (get_to 8 _); [|done]. intros [= <- <-]. split; [apply (Hl 62); lia | lia].
  - destruct p; destruct (get_to _ _); try done; intros [= <- <-];
      (split; [first [apply (Hl 62); lia | apply (Hl 30); lia] | lia]).
  - destruct (get_to 2 _); [|done]. intros [= <- <-]. split; [apply (Hl 14); lia | lia].
  - destruct (get_to 8 _); [|done]. intros [= <- <-]. split; [apply (Hl 62); lia | lia].
Qed.

(** ** Properties *)

(** The decoder is RFC 9000 Section 16: the value is the low bits of the octets
    the first two bits announce, every accepted input is one of the four encodings of
    its value, and eight octets always suffice. *)
Theorem varint_decode_rfc9000 input :
  octets input ->
  decode input = rfc9000 input /\
  (forall v n, decode input = Some (v, n) ->
     length_ok n /\ (n <= length input)%nat /\ 0 <= v < 2 ^ width n /\ take n input = wide v n) /\
  ((MAX_LEN <= length input)%nat -> is_Some (decode input)).
Proof.
  intros Ho. split; [by apply decode_rfc9000|]. split; [intros v n; by apply decode_sound|].
  apply decode_prompt.
Qed.

Lemma varint_decode_rfc9000_witness :
  let input := [0x7b; 0xbd] in
  decode input = rfc9000 input /\
  (forall v n, decode input = Some (v, n) ->
     length_ok n /\ (n <= length input)%nat /\ 0 <= v < 2 ^ width n /\ take n input = wide v n) /\
  ((MAX_LEN <= length input)%nat -> is_Some (decode input)).
Proof. apply varint_decode_rfc9000. by apply (bool_decide_unpack _). Defined.

(** Every value up to 2^62-1 survives the wire on each length that can hold it,
    and [push] appends the shortest: no length it could have used is smaller. *)
Theorem varint_roundtrip value n out more :
  0 <= value <= MAX -> length_ok n -> octets more ->
  (value < 2 ^ width n -> (n <= length out)%nat ->
     exists wire, encode_with_len value n out = Some (n, wire ++ drop n out) /\
       length wire = n /\ decode (wire ++ more) = Some (value, n)) /\
  (exists wire, push value out = Some (out ++ wire) /\
     decode (wire ++ more) = Some (value, length wire) /\
     (value < 2 ^ width n -> (length wire <= n)%nat)).
Proof.
  intros Hv Hn Hm. split.
  - intros Hw Hl. exists (wide value n).
    rewrite encode_with_len_wide, decide_True by (done || lia). split; [done|].
    split; [apply length_wide | apply decode_wide; done || lia].
  - exists (encoding value). split; [by apply varint_push_encoding|]. split; [by apply varint_decode_encoding|].
    unfold encoding. rewrite length_wide.
    destruct (encoded_len_spec value Hv) as (k & -> & _ & _ & Hmin). by apply Hmin.
Qed.

Lemma varint_roundtrip_witness :
  (37 < 2 ^ width 2 -> (2 <= length (bs "abc"))%nat ->
     exists wire, encode_with_len 37 2 (bs "abc") = Some (2%nat, wire ++ drop 2 (bs "abc")) /\
       length wire = 2%nat /\ decode (wire ++ [9]) = Some (37, 2%nat)) /\
  (exists wire, push 37 (bs "abc") = Some ((bs "abc") ++ wire) /\
     decode (wire ++ [9]) = Some (37, length wire) /\
     (37 < 2 ^ width 2 -> (length wire <= 2)%nat)).
Proof.
  apply varint_roundtrip; [split; discriminate | by apply (bool_decide_unpack (length_ok _))
    | by apply (bool_decide_unpack _)].
Defined.
