(* ===== verification/H3Frame.v ===== *)
(** * HTTP/3 frame types and frame headers (zero-h3, reserved.rs and frame.rs)

    The reserved values that four registries share, the frame types this codec
    defines and the Type and Length every frame starts with. *)
From S2P Require Import Prelude.
From S2P Require Import Stream.
From S2P Require Varint.

(** ** Reserved values *)

Definition MAX_N : Z := 148764065110560899.
Definition FIRST : Z := 0x21.
Definition STEP : Z := 0x1F.

Definition is_reserved (value : Z) : bool :=
  if Varint.MAX <? value then false
  else
    match checked_sub value FIRST with
    | Some offset => offset mod STEP =? 0
    | None => false
    end.

Definition reserved (n : Z) : option Z :=
  if MAX_N <? n then None
  else
    match checked_mul 64 n STEP with
    | Some product => checked_add 64 product FIRST
    | None => None
    end.

(** ** Frame types *)

Definition FrameType : Type := Z.

Definition DATA : FrameType := 0x00.
Definition HEADERS : FrameType := 0x01.
Definition CANCEL_PUSH : FrameType := 0x03.
Definition SETTINGS : FrameType := 0x04.
Definition PUSH_PROMISE : FrameType := 0x05.
Definition GOAWAY : FrameType := 0x07.
Definition MAX_PUSH_ID : FrameType := 0x0D.
Definition RESERVED_HTTP2 : list FrameType := [0x02; 0x06; 0x08; 0x09].

Definition is_reserved_http2 (t : FrameType) : bool :=
  match t with 0x02 | 0x06 | 0x08 | 0x09 => true | _ => false end.

Definition frame_is_reserved (t : FrameType) : bool := is_reserved t.

Definition is_known (t : FrameType) : bool :=
  match t with 0x00 | 0x01 | 0x03 | 0x04 | 0x05 | 0x07 | 0x0D => true | _ => false end.

Definition MAX_HEADER_LEN : nat := 16.

(** ** Frame headers *)

Record FrameHeader : Type := MkFrameHeader {
  frame_type : FrameType;
  payload_len : Z;
  header_len : nat;
}.

Definition FrameHeader_parse (input : bytes) : option FrameHeader :=
  let! (frame_type, type_len) := Varint.decode input in
  let! (len, len_len) := Varint.decode (drop type_len input) in
  Some (MkFrameHeader frame_type len (type_len + len_len)%nat).

(** The buffer after the call, [None] when it is left unchanged. *)
Definition FrameHeader_encode (frame_type : FrameType) (len : Z) (out : bytes) : option bytes :=
  let! _ := Varint.encoded_len frame_type in
  let! _ := Varint.encoded_len len in
  let! out := Varint.push frame_type out in
  Varint.push len out.

(** [append]: a frame whose payload is [head] then [body]. *)
Definition append (frame_type : FrameType) (head body out : bytes) : option bytes :=
  let! n := checked_add 64 (len head) (len body) in
  let! out := FrameHeader_encode frame_type n out in
  Some (out ++ head ++ body).

Definition append_integer (frame_type : FrameType) (value : Z) (out : bytes) : option bytes :=
  let! (len, bytes) := Varint.encode value (replicate Varint.MAX_LEN 0) in
  append frame_type (take len bytes) [] out.

Definition encode_data_header (len : Z) (out : bytes) : option bytes :=
  FrameHeader_encode DATA len out.

Definition encode_reserved (n : Z) (payload out : bytes) : option bytes :=
  let! t := reserved n in append t payload [] out.

(** ** Reserved values are exactly those of the form 0x1f * N + 0x21 *)

Lemma reserved_value n : 0 <= n <= MAX_N -> reserved n = Some (0x1F * n + 0x21).
Proof.
  unfold reserved, MAX_N, checked_mul, checked_add, STEP, FIRST. intros Hn.
  bool_lia. cbn. bool_lia. f_equal. lia.
Qed.

Lemma reserved_too_large n : MAX_N < n -> reserved n = None.
Proof. intros. unfold reserved. by bool_lia. Qed.

Lemma is_reserved_form value :
  0 <= value ->
  is_reserved value = true <-> exists n, 0 <= n <= MAX_N /\ value = 0x1F * n + 0x21.
Proof.
  unfold is_reserved, MAX_N, Varint.MAX, checked_sub, FIRST, STEP. intros Hv. split.
  - destruct (Z.ltb_spec 0x3FFFFFFFFFFFFFFF value); [done|].
    destruct (Z.leb_spec 0x21 value); [|done]. intros Hm%Z.eqb_eq.
    exists ((value - 33) / 31). pose proof (Z.div_mod (value - 33) 31 ltac:(lia)) as Hd.
    rewrite Hm in Hd. lia.
  - intros (n & Hn & ->). bool_lia.
    replace (0x1F * n + 0x21 - 0x21) with (n * 31) by lia. by rewrite Z.mod_mul.
Qed.

(** A reserved type is neither a frame this codec defines nor one it refuses. *)
Lemma is_reserved_unknown t : is_reserved t = true -> is_known t = false /\ is_reserved_http2 t = false.
Proof.
  unfold is_reserved, checked_sub, FIRST. destruct (_ <? _); [done|].
  destruct (Z.leb_spec 0x21 t); [|done]. intros _.
  destruct t as [|p|p]; try lia. do 6 (destruct p as [p|p|]; try done; try lia).
Qed.

(** ** Frame headers *)

Definition header_encoding (t : FrameType) (n : Z) : bytes := Varint.encoding t ++ Varint.encoding n.

Lemma FrameHeader_encode_encoding t n out :
  0 <= t <= Varint.MAX -> 0 <= n <= Varint.MAX ->
  FrameHeader_encode t n out = Some (out ++ header_encoding t n).
Proof.
  intros Ht Hn. unfold FrameHeader_encode, header_encoding.
  destruct (Varint.encoded_len_spec t Ht) as (? & -> & _).
  destruct (Varint.encoded_len_spec n Hn) as (? & -> & _).
  by rewrite !Varint.varint_push_encoding, app_assoc by done.
Qed.

Lemma FrameHeader_parse_encoding t n more :
  0 <= t <= Varint.MAX -> 0 <= n <= Varint.MAX -> octets more ->
  FrameHeader_parse (header_encoding t n ++ more)
    = Some (MkFrameHeader t n (length (header_encoding t n))).
Proof.
  intros Ht Hn Hm. unfold FrameHeader_parse, header_encoding. rewrite <- app_assoc.
  assert (octets (Varint.encoding n ++ more)) by (apply Forall_app_2; [apply Varint.varint_encoding_octets|done]).
  rewrite Varint.varint_decode_encoding by done.
  by rewrite drop_app_length, Varint.varint_decode_encoding, length_app by done.
Qed.

Lemma header_encoding_octets t n : octets (header_encoding t n).
Proof. apply Forall_app_2; apply Varint.varint_encoding_octets. Qed.

Lemma append_encoding t head body out :
  0 <= t <= Varint.MAX -> len head + len body <= Varint.MAX ->
  append t head body out
    = Some (out ++ header_encoding t (len head + len body) ++ head ++ body).
Proof.
  intros Ht Hl. unfold append, checked_add. unfold Varint.MAX in *.
  bool_lia. rewrite FrameHeader_encode_encoding by (unfold Varint.MAX, len in *; lia).
  by rewrite <- app_assoc.
Qed.

Lemma header_encode_encoding value : 0 <= value <= Varint.MAX ->
  exists n bytes, Varint.encode value (replicate Varint.MAX_LEN 0) = Some (n, bytes) /\
    take n bytes = Varint.encoding value.
Proof.
  intros Hv. pose proof (Varint.varint_push_encoding value [] Hv) as Hp. unfold Varint.push in Hp.
  destruct (Varint.encode _ _) as [[n b]|]; [|done]. exists n, b. split; [done|].
  unfold get_to in Hp. case_decide; [|done]. by injection Hp.
Qed.

Lemma append_integer_encoding t value out :
  0 <= t <= Varint.MAX -> 0 <= value <= Varint.MAX ->
  append_integer t value out
    = Some (out ++ header_encoding t (len (Varint.encoding value)) ++ Varint.encoding value).
Proof.
  intros Ht Hv. unfold append_integer. destruct (header_encode_encoding value Hv) as (n & b & -> & Hb).
  rewrite Hb, append_encoding; [by rewrite app_nil_r, Z.add_0_r | done |].
  pose proof (Varint.varint_encoding_length value Hv) as Hl. unfold len, Varint.MAX. cbn [length].
  Varint.length_cases Hl; lia.
Qed.

Lemma FrameHeader_parse_used input h :
  FrameHeader_parse input = Some h -> (0 < header_len h <= length input)%nat.
Proof.
  unfold FrameHeader_parse. destruct (Varint.decode input) as [[t n]|] eqn:Ht; [|done].
  destruct (Varint.decode (drop n input)) as [[l m]|] eqn:Hl; [|done]. intros [= <-].
  apply Varint.varint_decode_used in Ht, Hl. rewrite length_drop in Hl. cbn. lia.
Qed.

Lemma FrameHeader_parse_app input more h :
  FrameHeader_parse input = Some h -> FrameHeader_parse (input ++ more) = Some h.
Proof.
  unfold FrameHeader_parse. destruct (Varint.decode input) as [[t n]|] eqn:Ht; [|done].
  rewrite (Varint.varint_decode_app _ more _ _ Ht). apply Varint.varint_decode_used in Ht.
  rewrite drop_app_le by lia. destruct (Varint.decode (drop n input)) as [[l m]|] eqn:Hl; [|done].
  by rewrite (Varint.varint_decode_app _ more _ _ Hl).
Qed.

(** A header never waits for more than sixteen octets. *)
Lemma FrameHeader_parse_prompt input :
  octets input -> (MAX_HEADER_LEN <= length input)%nat -> is_Some (FrameHeader_parse input).
Proof.
  unfold MAX_HEADER_LEN, FrameHeader_parse. intros Ho Hl.
  destruct (Varint.decode_prompt input) as [[t n] Ht]; [unfold Varint.MAX_LEN; lia|].
  rewrite Ht. apply Varint.decode_sound in Ht as (Hn & _); [|done].
  assert (n <= 8)%nat by (Varint.length_cases Hn; lia).
  destruct (Varint.decode_prompt (drop n input)) as [[l m] Hm];
    [unfold Varint.MAX_LEN; rewrite length_drop; lia|]. by rewrite Hm.
Qed.

Lemma FrameHeader_parse_range input h :
  FrameHeader_parse input = Some h ->
  0 <= frame_type h <= Varint.MAX /\ 0 <= payload_len h <= Varint.MAX /\
  (2 <= header_len h <= MAX_HEADER_LEN)%nat.
Proof.
  unfold FrameHeader_parse, MAX_HEADER_LEN. destruct (Varint.decode input) as [[t n]|] eqn:Ht; [|done].
  destruct (Varint.decode (drop n input)) as [[l m]|] eqn:Hl; [|done]. intros [= <-].
  apply Varint.decode_range in Ht, Hl. cbn. lia.
Qed.
