(* ===== verification/H3Error.v ===== *)
(** * The HTTP/3 error model and unidirectional streams (zero-h3, error.rs, stream.rs) *)
From S2P Require Import Prelude.
From S2P Require Varint.
From S2P Require H3Frame.

(** ** Streams and roles *)

Inductive StreamKind : Type := KControl | KRequest | KPush.
Inductive Role : Type := Client | Server.

Inductive StreamType : Type :=
| Control
| Push
| QpackEncoder
| QpackDecoder
| Reserved (value : Z)
| Unknown (value : Z).

#[global] Instance StreamKind_eq_dec : EqDecision StreamKind.
Proof. solve_decision. Defined.
#[global] Instance Role_eq_dec : EqDecision Role.
Proof. solve_decision. Defined.
#[global] Instance StreamType_eq_dec : EqDecision StreamType.
Proof. solve_decision. Defined.

Definition from_value (value : Z) : StreamType :=
  match value with
  | 0x00 => Control
  | 0x01 => Push
  | 0x02 => QpackEncoder
  | 0x03 => QpackDecoder
  | _ => if H3Frame.is_reserved value then Reserved value else Unknown value
  end.

Definition value_of (t : StreamType) : Z :=
  match t with
  | Control => 0x00
  | Push => 0x01
  | QpackEncoder => 0x02
  | QpackDecoder => 0x03
  | Reserved value | Unknown value => value
  end.

Definition is_critical (t : StreamType) : bool :=
  match t with Control | QpackEncoder | QpackDecoder => true | _ => false end.

Definition StreamType_parse (input : bytes) : option (StreamType * nat) :=
  let! (value, len) := Varint.decode input in Some (from_value value, len).

(** ** Errors *)

Definition H3_DATAGRAM_ERROR : Z := 0x33.
Definition H3_NO_ERROR : Z := 0x0100.
Definition H3_GENERAL_PROTOCOL_ERROR : Z := 0x0101.
Definition H3_INTERNAL_ERROR : Z := 0x0102.
Definition H3_STREAM_CREATION_ERROR : Z := 0x0103.
Definition H3_CLOSED_CRITICAL_STREAM : Z := 0x0104.
Definition H3_FRAME_UNEXPECTED : Z := 0x0105.
Definition H3_FRAME_ERROR : Z := 0x0106.
Definition H3_EXCESSIVE_LOAD : Z := 0x0107.
Definition H3_ID_ERROR : Z := 0x0108.
Definition H3_SETTINGS_ERROR : Z := 0x0109.
Definition H3_MISSING_SETTINGS : Z := 0x010A.
Definition H3_REQUEST_REJECTED : Z := 0x010B.
Definition H3_REQUEST_CANCELLED : Z := 0x010C.
Definition H3_REQUEST_INCOMPLETE : Z := 0x010D.
Definition H3_MESSAGE_ERROR : Z := 0x010E.
Definition H3_CONNECT_ERROR : Z := 0x010F.
Definition H3_VERSION_FALLBACK : Z := 0x0110.
Definition QPACK_DECOMPRESSION_FAILED : Z := 0x0200.
Definition QPACK_ENCODER_STREAM_ERROR : Z := 0x0201.
Definition QPACK_DECODER_STREAM_ERROR : Z := 0x0202.

Definition code_name (code : Z) : option string :=
  match code with
  | 0x33 => Some "H3_DATAGRAM_ERROR"
  | 0x0100 => Some "H3_NO_ERROR"
  | 0x0101 => Some "H3_GENERAL_PROTOCOL_ERROR"
  | 0x0102 => Some "H3_INTERNAL_ERROR"
  | 0x0103 => Some "H3_STREAM_CREATION_ERROR"
  | 0x0104 => Some "H3_CLOSED_CRITICAL_STREAM"
  | 0x0105 => Some "H3_FRAME_UNEXPECTED"
  | 0x0106 => Some "H3_FRAME_ERROR"
  | 0x0107 => Some "H3_EXCESSIVE_LOAD"
  | 0x0108 => Some "H3_ID_ERROR"
  | 0x0109 => Some "H3_SETTINGS_ERROR"
  | 0x010A => Some "H3_MISSING_SETTINGS"
  | 0x010B => Some "H3_REQUEST_REJECTED"
  | 0x010C => Some "H3_REQUEST_CANCELLED"
  | 0x010D => Some "H3_REQUEST_INCOMPLETE"
  | 0x010E => Some "H3_MESSAGE_ERROR"
  | 0x010F => Some "H3_CONNECT_ERROR"
  | 0x0110 => Some "H3_VERSION_FALLBACK"
  | 0x0200 => Some "QPACK_DECOMPRESSION_FAILED"
  | 0x0201 => Some "QPACK_ENCODER_STREAM_ERROR"
  | 0x0202 => Some "QPACK_DECODER_STREAM_ERROR"
  | _ => None
  end%string.

Definition code_is_reserved (code : Z) : bool := H3Frame.is_reserved code.

Definition on_receipt (code : Z) : Z :=
  if decide (is_Some (code_name code)) then code else H3_NO_ERROR.

Inductive Scope : Type := ConnectionScope | StreamScope.

Inductive Error : Type :=
| PayloadTruncated (frame_type : Z)
| PayloadTrailing (frame_type : Z)
| StreamEndedInFrame
| WrongStream (frame_type : Z) (stream : StreamKind)
| WrongRole (frame_type : Z)
| ReservedFrameType (frame_type : Z)
| SecondSettings
| OutOfSequence (frame_type : Z)
| MissingSettings (frame_type : Z)
| ReservedSetting (id : Z)
| DuplicateSetting (id : Z)
| SettingValue (id value : Z)
| ExcessiveLoad (frame_type len : Z)
| GoawayStreamType (id : Z)
| GoawayIncreased (id previous : Z)
| MaxPushIdDecreased (push_id previous : Z)
| PushIdAboveMaximum (push_id : Z)
| PushIdNotPromised (push_id : Z)
| SecondCriticalStream (stream_type : Z)
| PushStreamFromClient
| CriticalStreamClosed (stream_type : Z)
| RequestIncomplete
| DatagramTooShort
| QuarterStreamIdTooLarge (value : Z)
| CapsuleTruncated.

#[global] Instance Error_eq_dec : EqDecision Error.
Proof. solve_decision. Defined.

Definition code (e : Error) : Z :=
  match e with
  | PayloadTruncated _ | PayloadTrailing _ | StreamEndedInFrame => H3_FRAME_ERROR
  | WrongStream _ _ | WrongRole _ | ReservedFrameType _ | SecondSettings | OutOfSequence _ =>
      H3_FRAME_UNEXPECTED
  | MissingSettings _ => H3_MISSING_SETTINGS
  | ReservedSetting _ | DuplicateSetting _ | SettingValue _ _ => H3_SETTINGS_ERROR
  | ExcessiveLoad _ _ => H3_EXCESSIVE_LOAD
  | GoawayStreamType _ | GoawayIncreased _ _ | MaxPushIdDecreased _ _ | PushIdAboveMaximum _
  | PushIdNotPromised _ => H3_ID_ERROR
  | SecondCriticalStream _ | PushStreamFromClient => H3_STREAM_CREATION_ERROR
  | CriticalStreamClosed _ => H3_CLOSED_CRITICAL_STREAM
  | RequestIncomplete => H3_REQUEST_INCOMPLETE
  | DatagramTooShort | QuarterStreamIdTooLarge _ => H3_DATAGRAM_ERROR
  | CapsuleTruncated => H3_MESSAGE_ERROR
  end.

Definition scope (e : Error) : Scope :=
  match e with RequestIncomplete | CapsuleTruncated => StreamScope | _ => ConnectionScope end.

Definition error_name (e : Error) : string :=
  match e with
  | PayloadTruncated _ => "payloadTruncated"
  | PayloadTrailing _ => "payloadTrailing"
  | StreamEndedInFrame => "streamEndedInFrame"
  | WrongStream _ _ => "wrongStream"
  | WrongRole _ => "wrongRole"
  | ReservedFrameType _ => "reservedFrameType"
  | SecondSettings => "secondSettings"
  | OutOfSequence _ => "outOfSequence"
  | MissingSettings _ => "missingSettings"
  | ReservedSetting _ => "reservedSetting"
  | DuplicateSetting _ => "duplicateSetting"
  | SettingValue _ _ => "settingValue"
  | ExcessiveLoad _ _ => "excessiveLoad"
  | GoawayStreamType _ => "goawayStreamType"
  | GoawayIncreased _ _ => "goawayIncreased"
  | MaxPushIdDecreased _ _ => "maxPushIdDecreased"
  | PushIdAboveMaximum _ => "pushIdAboveMaximum"
  | PushIdNotPromised _ => "pushIdNotPromised"
  | SecondCriticalStream _ => "secondCriticalStream"
  | PushStreamFromClient => "pushStreamFromClient"
  | CriticalStreamClosed _ => "criticalStreamClosed"
  | RequestIncomplete => "requestIncomplete"
  | DatagramTooShort => "datagramTooShort"
  | QuarterStreamIdTooLarge _ => "quarterStreamIdTooLarge"
  | CapsuleTruncated => "capsuleTruncated"
  end%string.

(** ** The unidirectional streams one peer opened *)

Inductive Disposition : Type := DControl | DPush | DQpackEncoder | DQpackDecoder | DDiscard.

Record UniStreams : Type := MkUniStreams {
  local : Role;
  control : bool;
  encoder : bool;
  decoder : bool;
}.

Definition UniStreams_new (local : Role) : UniStreams := MkUniStreams local false false false.

(** The state after the call; it is unchanged when an error is returned. *)
Definition open (self : UniStreams) (t : StreamType) : UniStreams * result Error Disposition :=
  match t with
  | Control =>
      if control self then (self, Err (SecondCriticalStream (value_of t)))
      else (MkUniStreams (local self) true (encoder self) (decoder self), Ok DControl)
  | QpackEncoder =>
      if encoder self then (self, Err (SecondCriticalStream (value_of t)))
      else (MkUniStreams (local self) (control self) true (decoder self), Ok DQpackEncoder)
  | QpackDecoder =>
      if decoder self then (self, Err (SecondCriticalStream (value_of t)))
      else (MkUniStreams (local self) (control self) (encoder self) true, Ok DQpackDecoder)
  | Push =>
      match local self with
      | Server => (self, Err PushStreamFromClient)
      | Client => (self, Ok DPush)
      end
  | Reserved _ | Unknown _ => (self, Ok DDiscard)
  end.

Definition closed (self : UniStreams) (t : StreamType) : result Error unit :=
  if is_critical t then Err (CriticalStreamClosed (value_of t)) else Ok tt.

Definition is_client_initiated (stream_id : Z) : bool := Z.land stream_id 0x01 =? 0.
Definition is_bidirectional (stream_id : Z) : bool := Z.land stream_id 0x02 =? 0.

(** ** Stream types *)

Lemma value_from_value v : value_of (from_value v) = v.
Proof.
  unfold from_value. destruct v as [|p|p]; [done| |by destruct (H3Frame.is_reserved _)].
  do 2 (destruct p as [p|p|]; try done; try by destruct (H3Frame.is_reserved _)).
Qed.

(** A classified value classifies back: [Reserved] and [Unknown] never hold one of
    the four defined types. *)
Lemma from_value_value v : from_value (value_of (from_value v)) = from_value v.
Proof. by rewrite value_from_value. Qed.

(** ** Opening streams

    A peer opens each critical stream at most once. *)

(** The streams opened, oldest first, until the first refusal. *)
Fixpoint open_all (self : UniStreams) (ts : list StreamType)
  : UniStreams * result Error (list Disposition) :=
  match ts with
  | [] => (self, Ok [])
  | t :: ts =>
      match open self t with
      | (self, Err e) => (self, Err e)
      | (self, Ok d) =>
          match open_all self ts with
          | (self, Ok ds) => (self, Ok (d :: ds))
          | (self, Err e) => (self, Err e)
          end
      end
  end.

Definition opened (self : UniStreams) (t : StreamType) : bool :=
  match t with
  | Control => control self
  | QpackEncoder => encoder self
  | QpackDecoder => decoder self
  | _ => false
  end.

Lemma open_accepts self t :
  is_ok (open self t).2 = true <->
  opened self t = false /\ (t = Push -> local self = Client).
Proof.
  destruct self as [[] [] [] []], t; cbn; split; try done; naive_solver.
Qed.

Lemma open_opened self t u :
  is_ok (open self t).2 = true ->
  local (open self t).1 = local self /\
  opened (open self t).1 u = opened self u || (bool_decide (u = t) && is_critical t).
Proof.
  destruct self as [l [] [] []], t, u; cbn; try done; try (by destruct l);
    intros _; split; try done; by case_bool_decide.
Qed.

Lemma open_refused self t e : (open self t).2 = Err e -> (open self t).1 = self.
Proof. destruct self as [[] [] [] []], t; cbn; done. Qed.

(** A sequence is accepted exactly when no critical type repeats and a server is
    sent no push stream. *)
Lemma open_all_accepts self ts :
  is_ok (open_all self ts).2 = true <->
  Forall (fun t => opened self t = false) ts /\
  NoDup (filter is_critical ts) /\
  (Push ∈ ts -> local self = Client).
Proof.
  revert self. induction ts as [|t ts IH]; intros self.
  { split; [|done]. intros _. split; [constructor|]. split; [constructor|]. by intros ?%elem_of_nil. }
  cbn [open_all]. pose proof (open_accepts self t) as Ha. pose proof (open_opened self t) as Ho.
  destruct (open self t) as [self' [d|e]]; cbn [fst snd is_ok] in *.
  2: { split; [done|]. intros (Hf & _ & Hp). inversion Hf; subst.
       assert (is_ok (Err (A := Disposition) e) = true) by (apply Ha; split; [done|];
         intros ->; apply Hp; left). done. }
  specialize (fun u => Ho u eq_refl). destruct Ha as [Ha _]. specialize (Ha eq_refl) as [Ht Hp].
  assert (forall r : UniStreams * result Error (list Disposition),
    is_ok (match r with (self, Ok ds) => (self, Ok (d :: ds)) | (self, Err e) => (self, Err e) end).2
    = is_ok r.2) as -> by (by intros [? []]).
  rewrite IH. destruct (Ho t) as [Hl _]. rewrite Hl.
  rewrite Forall_cons, filter_cons, elem_of_cons.
  assert (Forall (fun u => opened self' u = false) ts <->
    Forall (fun u => opened self u = false) ts /\ (is_critical t = true -> t ∉ ts)) as ->.
  { rewrite !Forall_forall. setoid_rewrite (fun u => proj2 (Ho u)). split.
    - intros H. split.
      + intros u Hu. specialize (H u Hu). by apply orb_false_iff in H as [? _].
      + intros Hc Hin. specialize (H t Hin). apply orb_false_iff in H as [_ H].
        rewrite bool_decide_eq_true_2, Hc in H by done. done.
    - intros [H1 H2] u Hu. rewrite H1 by done. cbn. case_bool_decide; [subst|done].
      destruct (is_critical t) eqn:Hc; [|done]. by destruct (H2 eq_refl). }
  case_decide as Hc.
  - rewrite NoDup_cons, list_elem_of_filter. destruct t; try done; naive_solver.
  - destruct t; naive_solver.
Qed.

(** ** Properties *)

(** A peer's unidirectional streams are accepted exactly when no control, encoder
    or decoder stream is opened twice and a server is sent no push stream; streams of
    unknown and reserved types never cost the connection. *)
Theorem streams_accepted role ts :
  is_ok (open_all (UniStreams_new role) ts).2 = true <->
  NoDup (filter is_critical ts) /\ (Push ∈ ts -> role = Client).
Proof.
  rewrite open_all_accepts. split; [tauto|]. intros [Hn Hp]. split; [|by split].
  apply Forall_forall. intros t _. by destruct t.
Qed.
