(* ===== verification/H3Settings.v ===== *)
(** * HTTP/3 SETTINGS (zero-h3, settings.rs) and whole frames (frame.rs) *)
From stdpp Require Import sorting.
From S2P Require Import Prelude.
From S2P Require Limits.
From S2P Require Varint.
From S2P Require H3Frame.
From S2P Require Import H3Error.

Definition SETTINGS_QPACK_MAX_TABLE_CAPACITY : Z := 0x01.
Definition SETTINGS_MAX_FIELD_SECTION_SIZE : Z := 0x06.
Definition SETTINGS_QPACK_BLOCKED_STREAMS : Z := 0x07.
Definition SETTINGS_ENABLE_CONNECT_PROTOCOL : Z := 0x08.
Definition SETTINGS_H3_DATAGRAM : Z := 0x33.

Definition RESERVED_HTTP2 : list Z := [0x02; 0x03; 0x04; 0x05].

Record ReservedPair : Type := MkReservedPair { n : Z; value : Z }.

Record Settings : Type := MkSettings {
  qpack_max_table_capacity : option Z;
  max_field_section_size : option Z;
  qpack_blocked_streams : option Z;
  enable_connect_protocol : option bool;
  h3_datagram : option bool;
}.

Definition TRUNCATED : Error := PayloadTruncated H3Frame.SETTINGS.

Definition EMPTY : Settings := MkSettings None None None None None.

Definition server (limits : Limits.Http3Limits) : Settings :=
  MkSettings (Some (Limits.http3_qpack_max_table_capacity limits))
    (Some (Limits.http3_max_field_section_size limits))
    (Some (Limits.http3_qpack_blocked_streams limits)) None None.

Definition flag (id value : Z) : result Error bool :=
  match value with 0 => Ok false | 1 => Ok true | _ => Err (SettingValue id value) end.

(** The [match id] of the loop. *)
Definition set (s : Settings) (id value : Z) : result Error Settings :=
  let 'MkSettings capacity size blocked connect datagram := s in
  if id =? SETTINGS_QPACK_MAX_TABLE_CAPACITY then
    Ok (MkSettings (Some value) size blocked connect datagram)
  else if id =? SETTINGS_MAX_FIELD_SECTION_SIZE then
    Ok (MkSettings capacity (Some value) blocked connect datagram)
  else if id =? SETTINGS_QPACK_BLOCKED_STREAMS then
    Ok (MkSettings capacity size (Some value) connect datagram)
  else if id =? SETTINGS_ENABLE_CONNECT_PROTOCOL then
    let? b := flag id value in Ok (MkSettings capacity size blocked (Some b) datagram)
  else if id =? SETTINGS_H3_DATAGRAM then
    let? b := flag id value in Ok (MkSettings capacity size blocked connect (Some b))
  else Ok s.

(** The [while] loop of [parse]; each turn takes two octets or more. *)
Fixpoint parse_loop (fuel : nat) (settings : Settings) (seen : list Z) (rest : bytes)
  : result Error (Settings * list Z) :=
  match fuel, rest with
  | _, [] => Ok (settings, seen)
  | O, _ => Ok (settings, seen)
  | S fuel, _ =>
      let? (id, id_len) := ok_or (Varint.decode rest) TRUNCATED in
      let rest := drop id_len rest in
      let? (value, value_len) := ok_or (Varint.decode rest) TRUNCATED in
      let rest := drop value_len rest in
      if decide (id ∈ RESERVED_HTTP2) then Err (ReservedSetting id)
      else
        let? settings := set settings id value in
        parse_loop fuel settings (seen ++ [id]) rest
  end.

(** [windows(2).find_map(..)]: the first two neighbours that are equal. *)
Fixpoint equal_neighbours (l : list Z) : option Z :=
  match l with
  | first :: (second :: _) as rest =>
      if first =? second then Some first else equal_neighbours rest
  | _ => None
  end.

Definition parse (payload : bytes) : result Error Settings :=
  let? (settings, seen) := parse_loop (length payload) EMPTY [] payload in
  match equal_neighbours (merge_sort Z.le seen) with
  | Some id => Err (DuplicateSetting id)
  | None => Ok settings
  end.

Definition pairs (s : Settings) : list (Z * option Z) :=
  [(SETTINGS_QPACK_MAX_TABLE_CAPACITY, qpack_max_table_capacity s);
   (SETTINGS_MAX_FIELD_SECTION_SIZE, max_field_section_size s);
   (SETTINGS_QPACK_BLOCKED_STREAMS, qpack_blocked_streams s);
   (SETTINGS_ENABLE_CONNECT_PROTOCOL, Z.b2z <$> enable_connect_protocol s);
   (SETTINGS_H3_DATAGRAM, Z.b2z <$> h3_datagram s)].

(** The [for (id, value) in pairs] loop. *)
Fixpoint push_pairs (ps : list (Z * option Z)) (payload : bytes) : option bytes :=
  match ps with
  | [] => Some payload
  | (id, Some value) :: ps =>
      let! payload := Varint.push id payload in
      let! payload := Varint.push value payload in
      push_pairs ps payload
  | (_, None) :: ps => push_pairs ps payload
  end.

(** The buffer after the call, [None] when it is left unchanged. *)
Definition encode (s : Settings) (reserved : option ReservedPair) (out : bytes) : option bytes :=
  let! payload := push_pairs (pairs s) [] in
  let! payload :=
    match reserved with
    | Some r =>
        let! id := H3Frame.reserved (n r) in
        let! payload := Varint.push id payload in
        Varint.push (value r) payload
    | None => Some payload
    end in
  let! out := H3Frame.FrameHeader_encode H3Frame.SETTINGS (len payload) out in
  Some (out ++ payload).

Definition encode_control_preface (s : Settings) (reserved : option ReservedPair) (out : bytes)
  : option bytes :=
  let! out := Varint.push (value_of Control) out in
  encode s reserved out.

Definition qpack_max_table_capacity_or_default (s : Settings) : Z :=
  match qpack_max_table_capacity s with Some value => value | None => 0 end.
Definition max_field_section_size_or_default (s : Settings) : option Z := max_field_section_size s.
Definition qpack_blocked_streams_or_default (s : Settings) : Z :=
  match qpack_blocked_streams s with Some value => value | None => 0 end.
Definition enable_connect_protocol_or_default (s : Settings) : bool :=
  match enable_connect_protocol s with Some true => true | _ => false end.
Definition h3_datagram_or_default (s : Settings) : bool :=
  match h3_datagram s with Some true => true | _ => false end.

(** ** Whole frames *)

Inductive Frame : Type :=
| Headers (field_section : bytes)
| CancelPush (push_id : Z)
| SettingsFrame (settings : Settings)
| PushPromise (push_id : Z) (field_section : bytes)
| Goaway (id : Z)
| MaxPushId (push_id : Z).

Definition frame_type_of (f : Frame) : H3Frame.FrameType :=
  match f with
  | Headers _ => H3Frame.HEADERS
  | CancelPush _ => H3Frame.CANCEL_PUSH
  | SettingsFrame _ => H3Frame.SETTINGS
  | PushPromise _ _ => H3Frame.PUSH_PROMISE
  | Goaway _ => H3Frame.GOAWAY
  | MaxPushId _ => H3Frame.MAX_PUSH_ID
  end.

Definition Frame_encode (f : Frame) (out : bytes) : option bytes :=
  match f with
  | Headers field_section => H3Frame.append H3Frame.HEADERS [] field_section out
  | CancelPush push_id => H3Frame.append_integer H3Frame.CANCEL_PUSH push_id out
  | SettingsFrame settings => encode settings None out
  | PushPromise push_id field_section =>
      let! (id_len, id) := Varint.encode push_id (replicate Varint.MAX_LEN 0) in
      H3Frame.append H3Frame.PUSH_PROMISE (take id_len id) field_section out
  | Goaway id => H3Frame.append_integer H3Frame.GOAWAY id out
  | MaxPushId push_id => H3Frame.append_integer H3Frame.MAX_PUSH_ID push_id out
  end.

(** ** What a payload says

    A payload is a sequence of pairs; the settings are what the pairs bind. *)

Inductive holds : bytes -> list (Z * Z) -> Prop :=
| holds_nil : holds [] []
| holds_cons rest id id_len value value_len ps :
    Varint.decode rest = Some (id, id_len) ->
    Varint.decode (drop id_len rest) = Some (value, value_len) ->
    holds (drop value_len (drop id_len rest)) ps ->
    holds rest ((id, value) :: ps).

Fixpoint assoc (k : Z) (ps : list (Z * Z)) : option Z :=
  match ps with
  | [] => None
  | (id, v) :: ps => if k =? id then Some v else assoc k ps
  end.

(** A pair that is not refused: not an HTTP/2 identifier, and 0 or 1 where the
    setting is a flag. *)
Definition pair_ok (p : Z * Z) : Prop :=
  (p.1 ∉ RESERVED_HTTP2) /\
  (p.1 = SETTINGS_ENABLE_CONNECT_PROTOCOL \/ p.1 = SETTINGS_H3_DATAGRAM -> p.2 = 0 \/ p.2 = 1).

Definition bound (old : option Z) (k : Z) (ps : list (Z * Z)) : option Z :=
  match assoc k ps with Some v => Some v | None => old end.
Definition bound_flag (old : option bool) (k : Z) (ps : list (Z * Z)) : option bool :=
  match assoc k ps with Some v => Some (v =? 1) | None => old end.

Definition override (s : Settings) (ps : list (Z * Z)) : Settings :=
  let 'MkSettings capacity size blocked connect datagram := s in
  MkSettings (bound capacity SETTINGS_QPACK_MAX_TABLE_CAPACITY ps)
    (bound size SETTINGS_MAX_FIELD_SECTION_SIZE ps)
    (bound blocked SETTINGS_QPACK_BLOCKED_STREAMS ps)
    (bound_flag connect SETTINGS_ENABLE_CONNECT_PROTOCOL ps)
    (bound_flag datagram SETTINGS_H3_DATAGRAM ps).

Definition settings_of (ps : list (Z * Z)) : Settings := override EMPTY ps.

(** ** Duplicates *)

Lemma equal_neighbours_NoDup l :
  StronglySorted Z.le l -> equal_neighbours l = None <-> NoDup l.
Proof.
  induction 1 as [|x l Hs IH Hle]; [split; [constructor|done]|].
  destruct l as [|y l]; [split; [intros _; apply NoDup_singleton | done]|].
  cbn [equal_neighbours]. rewrite NoDup_cons. destruct (Z.eqb_spec x y) as [->|Hne].
  - split; [done|]. intros [Hin _]. destruct Hin. left.
  - fold (equal_neighbours (y :: l)). rewrite IH. split; [|by intros [_ ?]]. intros Hn. split; [|done].
    apply Forall_cons in Hle as [Hxy Hle]. inversion Hs as [|?? Hs' Hyl]; subst.
    rewrite elem_of_cons. intros [->|Hin]; [done|].
    rewrite Forall_forall in Hyl. specialize (Hyl x Hin). lia.
Qed.

Lemma equal_neighbours_Some l id :
  StronglySorted Z.le l -> equal_neighbours l = Some id ->
  ~ NoDup l /\ id ∈ l /\ NoDup (filter (fun x => x < id) l).
Proof.
  induction 1 as [|x l Hs IH Hle]; [done|]. destruct l as [|y l]; [done|].
  cbn [equal_neighbours]. destruct (Z.eqb_spec x y) as [->|Hne].
  - intros [= ->]. split; [rewrite NoDup_cons; intros [Hin _]; destruct Hin; left|]. split; [left|].
    assert (filter (fun x => x < id) (id :: id :: l) = []) as ->; [|constructor].
    apply Forall_cons in Hle as [_ Hle].
    rewrite !filter_cons_False by lia. clear -Hle.
    induction Hle as [|z l Hz _ IH]; [done|]. by rewrite filter_cons_False by lia.
  - fold (equal_neighbours (y :: l)). intros (Hn & Hin & Hl)%IH.
    split; [by rewrite NoDup_cons; intros [_ ?]|]. split; [by right|].
    destruct (decide (x < id)); [|by rewrite filter_cons_False].
    rewrite filter_cons_True by done. apply NoDup_cons. split; [|done].
    rewrite list_elem_of_filter. intros [_ Hx].
    apply Forall_cons in Hle as [Hxy Hle]. inversion Hs as [|?? Hs' Hyl]; subst.
    apply elem_of_cons in Hx as [->|Hx]; [done|].
    rewrite Forall_forall in Hyl. specialize (Hyl x Hx). lia.
Qed.

Lemma duplicate_check (seen : list Z) :
  equal_neighbours (merge_sort Z.le seen) = None <-> NoDup seen.
Proof.
  rewrite equal_neighbours_NoDup by apply (StronglySorted_merge_sort _).
  by rewrite (merge_sort_Permutation Z.le seen).
Qed.

Lemma duplicate_found (seen : list Z) id :
  equal_neighbours (merge_sort Z.le seen) = Some id ->
  ~ NoDup seen /\ id ∈ seen /\ NoDup (filter (fun x => x < id) seen).
Proof.
  intros H%equal_neighbours_Some; [|apply (StronglySorted_merge_sort _)].
  by rewrite (merge_sort_Permutation Z.le seen) in H.
Qed.

(** ** Parsing *)

Lemma set_override s id v s' :
  set s id v = Ok s' <-> (id = SETTINGS_ENABLE_CONNECT_PROTOCOL \/ id = SETTINGS_H3_DATAGRAM ->
    v = 0 \/ v = 1) /\ s' = override s [(id, v)].
Proof.
  assert (forall i, flag i v = if decide (v = 0 \/ v = 1) then Ok (v =? 1) else Err (SettingValue i v)) as Hf.
  { intros i. unfold flag. case_decide as Hd; [by destruct Hd as [->| ->]|].
    destruct v as [|[]|]; try done; naive_solver. }
  destruct s as [c z b e d]. unfold set, override, bound, bound_flag, assoc. rewrite !Hf.
  unfold SETTINGS_QPACK_MAX_TABLE_CAPACITY, SETTINGS_MAX_FIELD_SECTION_SIZE,
    SETTINGS_QPACK_BLOCKED_STREAMS, SETTINGS_ENABLE_CONNECT_PROTOCOL, SETTINGS_H3_DATAGRAM.
  rewrite !(Z.eqb_sym _ id).
  repeat (match goal with |- context [id =? ?k] => destruct (Z.eqb_spec id k) as [->|] end; cbn);
    try case_decide; naive_solver.
Qed.

Lemma assoc_None k ps : k ∉ ps.*1 -> assoc k ps = None.
Proof.
  induction ps as [|[i v] ps IH]; [done|]. cbn. rewrite not_elem_of_cons. intros [Hne Hn].
  rewrite (proj2 (Z.eqb_neq _ _)) by done. by apply IH.
Qed.

Lemma override_cons s p ps :
  p.1 ∉ ps.*1 -> override (override s [p]) ps = override s (p :: ps).
Proof.
  intros Hn. destruct s, p as [i v]. cbn in Hn. unfold override, bound, bound_flag. cbn [assoc].
  assert (forall k, (k =? i) = true -> assoc k ps = None) as Hk.
  { intros k ->%Z.eqb_eq. by apply assoc_None. }
  f_equal; match goal with |- context [?k =? i] => destruct (k =? i) eqn:He end;
    rewrite ?(Hk _ He); done.
Qed.

Lemma parse_loop_ok fuel s seen rest s' seen' :
  (length rest <= fuel)%nat ->
  parse_loop fuel s seen rest = Ok (s', seen') /\ NoDup seen' <->
  exists ps, holds rest ps /\ seen' = seen ++ ps.*1 /\ NoDup seen' /\ Forall pair_ok ps /\
    s' = override s ps.
Proof.
  revert s seen rest. induction fuel as [|fuel IH]; intros s seen [|o rest] Hl; cbn in Hl; try lia.
  1, 2: cbn; split;
    [intros [[= <- <-] Hn]; exists []; rewrite app_nil_r; repeat (split; [constructor || done|]);
      by destruct s
    | intros (ps & Hh & -> & Hn & _ & ->); inversion Hh; subst;
        [rewrite app_nil_r in *; split; [by destruct s|done] | done]].
  cbn [parse_loop]. set (r := o :: rest) in *. change (S (length rest)) with (length r) in Hl.
  destruct (Varint.decode r) as [[id n1]|] eqn:H1; cbn [ok_or].
  2: { split; [by intros []|]. intros (ps & Hh & _). inversion Hh; subst; congruence. }
  destruct (Varint.decode (drop n1 r)) as [[v n2]|] eqn:H2; cbn [ok_or].
  2: { split; [by intros []|]. intros (ps & Hh & _). inversion Hh; subst; congruence. }
  assert (length (drop n2 (drop n1 r)) <= fuel)%nat as Hfuel.
  { apply Varint.varint_decode_used in H1, H2. rewrite !length_drop in *. lia. }
  assert (forall ps, holds r ps <-> exists qs, ps = (id, v) :: qs /\ holds (drop n2 (drop n1 r)) qs) as Hh.
  { intros ps. split; [intros H; inversion H; subst; naive_solver|].
    intros (qs & -> & Hq). by eapply holds_cons. }
  case_decide as Hres.
  { split; [by intros []|]. intros (ps & (qs & -> & _)%Hh & _ & _ & Hok & _).
    apply Forall_cons in Hok as [[Hok _] _]. done. }
  destruct (set s id v) as [s1|e] eqn:Hset.
  2: { split; [by intros []|]. intros (ps & (qs & -> & _)%Hh & _ & _ & Hok & _).
       apply Forall_cons in Hok as [[_ Hok] _].
       assert (set s id v = Ok (override s [(id, v)])) by (by apply set_override). congruence. }
  apply set_override in Hset as [Hflag ->]. rewrite IH by done. split.
  - intros (qs & Hq & -> & Hn & Hok & ->). exists ((id, v) :: qs). rewrite <- app_assoc.
    split; [apply Hh; eauto|]. split; [done|]. rewrite <- app_assoc in Hn. split; [done|].
    split; [by constructor|]. apply override_cons. apply NoDup_app in Hn as (_ & _ & Hn).
    by apply NoDup_cons in Hn as [? _].
  - intros (ps & (qs & -> & Hq)%Hh & -> & Hn & Hok & ->). exists qs.
    apply Forall_cons in Hok as [_ Hok]. rewrite <- app_assoc. do 2 (split; [done|]).
    split; [done|]. split; [done|]. symmetry. apply override_cons.
    apply NoDup_app in Hn as (_ & _ & Hn). by apply NoDup_cons in Hn as [? _].
Qed.

(** Exactly the well-formed payloads are accepted, and give what the pairs bind. *)
Lemma parse_ok payload s :
  parse payload = Ok s <->
  exists ps, holds payload ps /\ NoDup ps.*1 /\ Forall pair_ok ps /\ s = settings_of ps.
Proof.
  unfold parse. destruct (parse_loop (length payload) EMPTY [] payload) as [[s1 seen]|e] eqn:Hl.
  - destruct (equal_neighbours (merge_sort Z.le seen)) as [id|] eqn:Hd.
    + apply duplicate_found in Hd as [Hd _]. split; [done|].
      intros (ps & Hh & Hn & Hok & ->).
      assert (parse_loop (length payload) EMPTY [] payload = Ok (settings_of ps, ps.*1) /\ NoDup ps.*1)
        as [Heq _] by (apply parse_loop_ok; [done|]; by exists ps).
      rewrite Hl in Heq. injection Heq as -> ->. done.
    + apply duplicate_check in Hd. split.
      * intros [= <-]. destruct (proj1 (parse_loop_ok _ EMPTY [] payload s1 seen (Nat.le_refl _)))
          as (ps & Hh & -> & Hn & Hok & ->); [done|]. by exists ps.
      * intros (ps & Hh & Hn & Hok & ->).
        assert (parse_loop (length payload) EMPTY [] payload = Ok (settings_of ps, ps.*1) /\ NoDup ps.*1)
          as [Heq _] by (apply parse_loop_ok; [done|]; by exists ps).
        rewrite Hl in Heq. injection Heq as -> ->. done.
  - split; [done|]. intros (ps & Hh & Hn & Hok & ->).
    assert (parse_loop (length payload) EMPTY [] payload = Ok (settings_of ps, ps.*1) /\ NoDup ps.*1)
      as [Heq _] by (apply parse_loop_ok; [done|]; by exists ps).
    by rewrite Hl in Heq.
Qed.

(** ** Encoding *)

Definition varint_ok (v : Z) : Prop := 0 <= v <= Varint.MAX.
Definition option_ok (o : option Z) : Prop := match o with Some v => varint_ok v | None => True end.

Definition settings_ok (s : Settings) : Prop :=
  option_ok (qpack_max_table_capacity s) /\ option_ok (max_field_section_size s) /\
  option_ok (qpack_blocked_streams s).

Definition pair_encoding (p : Z * Z) : bytes := Varint.encoding p.1 ++ Varint.encoding p.2.
Definition pairs_encoding (ps : list (Z * Z)) : bytes := mbind pair_encoding ps.

Lemma pairs_encoding_cons p ps : pairs_encoding (p :: ps) = pair_encoding p ++ pairs_encoding ps.
Proof. done. Qed.

Definition present (ps : list (Z * option Z)) : list (Z * Z) :=
  omap (fun p => match p.2 with Some v => Some (p.1, v) | None => None end) ps.

Lemma pairs_encoding_octets ps : octets (pairs_encoding ps).
Proof.
  induction ps as [|p ps IH]; [constructor|]. rewrite pairs_encoding_cons.
  apply Forall_app_2; [|done]. apply Forall_app_2; apply Varint.varint_encoding_octets.
Qed.

Lemma holds_encoding ps :
  Forall (fun p => varint_ok p.1 /\ varint_ok p.2) ps -> holds (pairs_encoding ps) ps.
Proof.
  induction 1 as [|[id v] ps [Hi Hv] Hps IH]; [constructor|]. cbn in Hi, Hv.
  rewrite pairs_encoding_cons. unfold pair_encoding. cbn [fst snd]. rewrite <- app_assoc.
  assert (octets (Varint.encoding v ++ pairs_encoding ps)).
  { apply Forall_app_2; [apply Varint.varint_encoding_octets | apply pairs_encoding_octets]. }
  eapply holds_cons; [by apply Varint.varint_decode_encoding | |].
  - rewrite drop_app_length. apply Varint.varint_decode_encoding; [done|apply pairs_encoding_octets].
  - by rewrite !drop_app_length.
Qed.

Lemma push_pairs_encoding ps payload :
  Forall (fun p => varint_ok p.1 /\ varint_ok p.2) (present ps) ->
  push_pairs ps payload = Some (payload ++ pairs_encoding (present ps)).
Proof.
  revert payload. induction ps as [|[id [v|]] ps IH]; intros payload H; cbn [push_pairs].
  - by rewrite app_nil_r.
  - change (present ((id, Some v) :: ps)) with ((id, v) :: present ps) in *.
    apply Forall_cons in H as [[Hi Hv] H]. rewrite !Varint.varint_push_encoding, IH by done.
    rewrite pairs_encoding_cons. unfold pair_encoding. by rewrite !app_assoc.
  - by rewrite IH.
Qed.

(** The pairs a frame carries: what is present, and the reserved setting. *)
Definition reserved_pair (r : option ReservedPair) : list (Z * Z) :=
  match r with Some r => [(0x1F * n r + 0x21, value r)] | None => [] end.
Definition reserved_ok (r : option ReservedPair) : Prop :=
  match r with Some r => 0 <= n r <= H3Frame.MAX_N /\ varint_ok (value r) | None => True end.
Definition wire_pairs (s : Settings) (r : option ReservedPair) : list (Z * Z) :=
  present (pairs s) ++ reserved_pair r.

Lemma wire_pairs_ok s r :
  settings_ok s -> reserved_ok r ->
  Forall (fun p => varint_ok p.1 /\ varint_ok p.2) (wire_pairs s r).
Proof.
  destruct s as [c z b e d]. intros (Hc & Hz & Hb) Hr. unfold wire_pairs. apply Forall_app_2.
  - cbn in Hc, Hz, Hb. unfold varint_ok, Varint.MAX in *.
    destruct c, z, b, e as [[]|], d as [[]|]; cbn in *; rewrite ?Forall_cons, ?Forall_nil; cbn [fst snd]; unfold varint_ok, Varint.MAX in *; repeat split; first [lia | done].
  - destruct r as [[k v]|]; [|constructor]. cbn [reserved_ok n value] in Hr. destruct Hr as [Hk Hv].
    cbn [reserved_pair]. rewrite Forall_singleton. cbn [fst snd n value]. unfold H3Frame.MAX_N, varint_ok, Varint.MAX in *. lia.
Qed.

Lemma wire_pairs_NoDup s r : settings_ok s -> reserved_ok r -> NoDup (wire_pairs s r).*1.
Proof.
  destruct s as [c z b e d]. intros _ Hr. unfold wire_pairs. rewrite fmap_app. apply NoDup_app.
  split; [|split].
  - apply (bool_decide_unpack _). by destruct c, z, b, e as [[]|], d as [[]|].
  - intros i Hi Hir. destruct r as [[k v]|]; [|by apply elem_of_nil in Hir].
    cbn in Hir. apply list_elem_of_singleton in Hir as ->. cbn [reserved_ok n value] in Hr.
    assert (31 * k + 33 ∈ [1; 6; 7; 8; 51]) as Hin.
    { destruct c, z, b, e as [[]|], d as [[]|]; cbn in Hi;
        repeat (apply elem_of_cons in Hi as [->|Hi]); try by apply elem_of_nil in Hi.
      all: apply (bool_decide_unpack _); reflexivity. }
    repeat (apply elem_of_cons in Hin as [Hin|Hin]; [lia|]). by apply elem_of_nil in Hin.
  - destruct r; cbn; [apply NoDup_singleton | constructor].
Qed.

Lemma wire_pairs_pair_ok s r : settings_ok s -> reserved_ok r -> Forall pair_ok (wire_pairs s r).
Proof.
  destruct s as [c z b e d]. intros _ Hr. unfold wire_pairs. apply Forall_app_2.
  - destruct c, z, b, e as [[]|], d as [[]|]; cbn; rewrite ?Forall_cons, ?Forall_nil;
      unfold pair_ok; cbn [fst snd]; repeat split; try tauto;
      by apply (bool_decide_unpack _).
  - destruct r as [[k v]|]; [|constructor]. cbn [reserved_ok n value] in Hr. constructor; [|constructor].
    unfold pair_ok. cbn [fst snd n value]. split.
    + unfold RESERVED_HTTP2. rewrite !not_elem_of_cons. repeat split; try lia; apply not_elem_of_nil.
    + unfold SETTINGS_ENABLE_CONNECT_PROTOCOL, SETTINGS_H3_DATAGRAM. lia.
Qed.

Lemma settings_of_wire s r : settings_ok s -> reserved_ok r -> settings_of (wire_pairs s r) = s.
Proof.
  destruct s as [c z b e d]. intros _ Hr. unfold wire_pairs, settings_of, override, EMPTY.
  assert (forall k qs, k ∈ [1; 6; 7; 8; 51] -> assoc k (qs ++ reserved_pair r) = assoc k qs) as Ha.
  { intros k qs Hk. induction qs as [|[i v] qs IH]; cbn; [|by rewrite IH].
    destruct r as [[m v]|]; [|done]. cbn in *. rewrite (proj2 (Z.eqb_neq _ _)); [done|].
    repeat (apply elem_of_cons in Hk as [->|Hk]; [lia|]). by apply elem_of_nil in Hk. }
  unfold bound, bound_flag. rewrite !Ha by by apply (bool_decide_unpack _).
  by destruct c, z, b, e as [[]|], d as [[]|].
Qed.

(** What a decoder reads back from an encoded payload. *)
Lemma settings_parse_encoding s r :
  settings_ok s -> reserved_ok r -> parse (pairs_encoding (wire_pairs s r)) = Ok s.
Proof.
  intros Hs Hr. apply parse_ok. exists (wire_pairs s r).
  split; [by apply holds_encoding, wire_pairs_ok|]. split; [by apply wire_pairs_NoDup|].
  split; [by apply wire_pairs_pair_ok|]. by rewrite settings_of_wire.
Qed.

Lemma pairs_encoding_length ps : Forall (fun p => varint_ok p.1 /\ varint_ok p.2) ps ->
  len (pairs_encoding ps) <= 16 * len ps.
Proof.
  assert (forall v, varint_ok v -> (length (Varint.encoding v) <= 8)%nat) as Hv.
  { intros v Hv%Varint.varint_encoding_length. Varint.length_cases Hv; lia. }
  induction 1 as [|p ps [H1 H2] _ IH]; [done|]. rewrite pairs_encoding_cons, len_app, len_cons.
  unfold pair_encoding. rewrite len_app. apply Hv in H1, H2. unfold len in *. lia.
Qed.

Lemma settings_encode_encoding s r out :
  settings_ok s -> reserved_ok r ->
  let payload := pairs_encoding (wire_pairs s r) in
  len payload <= 96 /\
  encode s r out = Some (out ++ H3Frame.header_encoding H3Frame.SETTINGS (len payload) ++ payload).
Proof.
  intros Hs Hr payload. pose proof (wire_pairs_ok s r Hs Hr) as Hw.
  assert (len payload <= 96) as Hlen.
  { pose proof (pairs_encoding_length _ Hw) as Hl. fold payload in Hl.
    assert (len (wire_pairs s r) <= 6); [|lia]. unfold wire_pairs. rewrite len_app.
    destruct s as [[] [] [] [] []], r; unfold len; cbn [present pairs omap list_omap length fst snd reserved_pair fmap option_map option_fmap option_bind]; clear; cbn; lia. }
  split; [done|]. unfold encode.
  unfold wire_pairs in Hw. apply Forall_app in Hw as [Hw Hw'].
  rewrite push_pairs_encoding by done. cbn [app].
  assert (forall (k : bytes -> option bytes), (let! p := match r with
    | Some r => let! id := H3Frame.reserved (n r) in
        let! payload := Varint.push id (pairs_encoding (present (pairs s))) in
        Varint.push (value r) payload
    | None => Some (pairs_encoding (present (pairs s))) end in k p) = k payload) as ->.
  { intros k. unfold payload, wire_pairs, pairs_encoding. destruct r as [[m v]|]; cbn [n value reserved_pair].
    - destruct Hr as [Hm Hv]. cbn in Hm, Hv. rewrite H3Frame.reserved_value by done.
      rewrite !Varint.varint_push_encoding by (unfold H3Frame.MAX_N, varint_ok, Varint.MAX in *; lia || done).
      rewrite bind_app. cbn [mbind list_bind]. unfold pair_encoding. cbn [fst snd].
      by rewrite app_nil_r, !app_assoc.
    - by rewrite app_nil_r. }
  rewrite H3Frame.FrameHeader_encode_encoding; [by rewrite <- app_assoc | |].
  - by unfold H3Frame.SETTINGS, Varint.MAX.
  - unfold Varint.MAX, len in *. lia.
Qed.

(** ** Properties *)

(** A SETTINGS payload is accepted exactly when it is a sequence of whole pairs in
    which no identifier repeats, none is reserved from HTTP/2, and the flags are 0 or
    1; the settings are then what the pairs bind, unknown identifiers ignored. *)
Theorem settings_accepted payload s :
  parse payload = Ok s <->
  exists ps, holds payload ps /\ NoDup ps.*1 /\ Forall pair_ok ps /\ s = settings_of ps.
Proof. apply parse_ok. Qed.

(** The settings an endpoint sends are the settings its peer reads, whether or not
    a reserved setting is among them; and a duplicate the decoder names does occur
    twice, with no smaller identifier repeated. *)
Theorem settings_roundtrip s r out id :
  settings_ok s -> reserved_ok r ->
  (exists payload,
     encode s r out
       = Some (out ++ H3Frame.header_encoding H3Frame.SETTINGS (len payload) ++ payload) /\
     parse payload = Ok s) /\
  (forall payload, parse payload = Err (DuplicateSetting id) ->
     exists settings seen, parse_loop (length payload) EMPTY [] payload = Ok (settings, seen) /\
       ~ NoDup seen /\ id ∈ seen /\ NoDup (filter (fun x => x < id) seen)).
Proof.
  intros Hs Hr. split.
  - exists (pairs_encoding (wire_pairs s r)). split; [by apply settings_encode_encoding|by apply settings_parse_encoding].
  - intros payload. unfold parse.
    assert (forall fuel st seen rest, parse_loop fuel st seen rest <> Err (DuplicateSetting id)) as Hl.
    { induction fuel as [|fuel IH]; intros st seen [|o rest]; cbn [parse_loop]; try done.
      destruct (Varint.decode _) as [[? ?]|]; [|done]. cbn [ok_or].
      destruct (Varint.decode _) as [[? v]|]; [|done]. cbn [ok_or]. case_decide; [done|].
      destruct (set _ _ _) eqn:Hset; [apply IH|]. intros [= ->]. revert Hset. unfold set, flag.
      destruct st. repeat case_match; congruence. }
    destruct (parse_loop _ EMPTY [] payload) as [[settings seen]|e] eqn:Hp.
    + destruct (equal_neighbours _) as [i|] eqn:Hd; [|done]. intros [= ->].
      exists settings, seen. split; [done|]. by apply duplicate_found.
    + intros [= ->]. by apply Hl in Hp.
Qed.

Lemma settings_roundtrip_witness :
  let s := server Limits.Http3Limits_DEFAULT in
  (exists payload,
     encode s (Some (MkReservedPair 7 9)) [0]
       = Some ([0] ++ H3Frame.header_encoding H3Frame.SETTINGS (len payload) ++ payload) /\
     parse payload = Ok s) /\
  (forall payload, parse payload = Err (DuplicateSetting 6) ->
     exists settings seen, parse_loop (length payload) EMPTY [] payload = Ok (settings, seen) /\
       ~ NoDup seen /\ 6 ∈ seen /\ NoDup (filter (fun x => x < 6) seen)).
Proof.
  apply settings_roundtrip.
  - split; [|split]; split; discriminate.
  - split; split; discriminate.
Defined.
