(* ===== verification/H3Control.v ===== *)
(** * State across the frames of a control stream, and HTTP/3 datagrams
    (zero-h3, control.rs and datagram.rs) *)
From S2P Require Import Prelude.
From S2P Require Varint.
From S2P Require Import H3Error.
From S2P Require Import H3Settings.

Record PeerControl : Type := MkPeerControl {
  local : Role;
  peer_settings : option Settings;
  goaway : option Z;
  max_push_id : option Z;
  local_max_push_id : option Z;
}.

Definition PeerControl_new (local : Role) : PeerControl := MkPeerControl local None None None None.

(** The state after the call; an error leaves it as it was. *)
Definition receive (self : PeerControl) (frame : Frame) : result Error PeerControl :=
  let 'MkPeerControl local peer_settings goaway max_push_id local_max_push_id := self in
  match frame with
  | SettingsFrame settings =>
      Ok (MkPeerControl local (Some settings) goaway max_push_id local_max_push_id)
  | Goaway id =>
      if bool_decide (local = Client) && has id 0x03 then Err (GoawayStreamType id)
      else
        let? _ :=
          match goaway with
          | Some previous => if previous <? id then Err (GoawayIncreased id previous) else Ok tt
          | None => Ok tt
          end in
        Ok (MkPeerControl local peer_settings (Some id) max_push_id local_max_push_id)
  | MaxPushId push_id =>
      let? _ :=
        match max_push_id with
        | Some previous =>
            if push_id <? previous then Err (MaxPushIdDecreased push_id previous) else Ok tt
        | None => Ok tt
        end in
      Ok (MkPeerControl local peer_settings goaway (Some push_id) local_max_push_id)
  | CancelPush push_id =>
      let maximum := match local with Server => max_push_id | Client => local_max_push_id end in
      if match maximum with None => true | Some maximum => maximum <? push_id end then
        Err (PushIdAboveMaximum push_id)
      else match local with Server => Err (PushIdNotPromised push_id) | Client => Ok self end
  | Headers _ | PushPromise _ _ => Ok self
  end.

Definition sent_max_push_id (self : PeerControl) (push_id : Z) : PeerControl :=
  MkPeerControl (local self) (peer_settings self) (goaway self) (max_push_id self) (Some push_id).

Definition settings (self : PeerControl) : Settings := default EMPTY (peer_settings self).

(** ** The GOAWAY frames this endpoint sends *)

Record GoawaySender : Type := MkGoawaySender { sender_local : Role; last : option Z }.

Definition GRACEFUL_SERVER : Z := 0x3FFFFFFFFFFFFFFC.
Definition GRACEFUL_CLIENT : Z := Varint.MAX.

Definition GoawaySender_new (local : Role) : GoawaySender := MkGoawaySender local None.

(** The identifier to send, or [None] and the state as it was. *)
Definition send (self : GoawaySender) (id : Z) : GoawaySender * option Z :=
  if (Varint.MAX <? id) || (bool_decide (sender_local self = Server) && has id 0x03) then (self, None)
  else if match last self with Some last => last <? id | None => false end then (self, None)
  else (MkGoawaySender (sender_local self) (Some id), Some id).

(** ** Datagrams *)

Definition MAX_QUARTER_STREAM_ID : Z := 0x0FFFFFFFFFFFFFFF.

Record Datagram : Type := MkDatagram { quarter_stream_id : Z; payload : bytes }.

Definition Datagram_parse (data : bytes) : result Error Datagram :=
  let? (quarter_stream_id, len) := ok_or (Varint.decode data) DatagramTooShort in
  if MAX_QUARTER_STREAM_ID <? quarter_stream_id then Err (QuarterStreamIdTooLarge quarter_stream_id)
  else Ok (MkDatagram quarter_stream_id (drop len data)).

Definition stream_id (self : Datagram) : option Z :=
  if MAX_QUARTER_STREAM_ID <? quarter_stream_id self then None
  else checked_mul 64 (quarter_stream_id self) 4.

Definition Datagram_encode (stream_id : Z) (payload out : bytes) : option bytes :=
  if (Varint.MAX <? stream_id) || has stream_id 0x03 then None
  else
    let! out := Varint.push (Z.shiftr stream_id 2) out in
    Some (out ++ payload).

(** ** GOAWAY identifiers never grow *)

(** Frames received in order, until the first refusal. *)
Fixpoint receive_all (self : PeerControl) (frames : list Frame) : result Error PeerControl :=
  match frames with
  | [] => Ok self
  | f :: frames => let? self := receive self f in receive_all self frames
  end.

Definition goaway_ids (frames : list Frame) : list Z :=
  omap (fun f => match f with Goaway id => Some id | _ => None end) frames.
Definition max_push_ids (frames : list Frame) : list Z :=
  omap (fun f => match f with MaxPushId id => Some id | _ => None end) frames.

(** [l] with the value before it, when there is one. *)
Definition after (o : option Z) (l : list Z) : list Z := match o with Some v => v :: l | None => l end.

Fixpoint descending (l : list Z) : Prop :=
  match l with a :: (b :: _) as l => b <= a /\ descending l | _ => True end.
Fixpoint ascending (l : list Z) : Prop :=
  match l with a :: (b :: _) as l => a <= b /\ ascending l | _ => True end.

Lemma descending_tail a l : descending (a :: l) -> descending l.
Proof. destruct l; [done|]. by intros [_ ?]. Qed.
Lemma ascending_tail a l : ascending (a :: l) -> ascending l.
Proof. destruct l; [done|]. by intros [_ ?]. Qed.

Lemma receive_cases self f self' :
  receive self f = Ok self' ->
  local self' = local self /\ local_max_push_id self' = local_max_push_id self /\
  (forall l, descending (after (goaway self') l) ->
     descending (after (goaway self) (goaway_ids [f] ++ l))) /\
  (forall l, ascending (after (max_push_id self') l) ->
     ascending (after (max_push_id self) (max_push_ids [f] ++ l))) /\
  (local self = Client -> Forall (fun id => has id 0x03 = false) (goaway_ids [f])) /\
  (local self = Server -> match f with CancelPush _ => False | _ => True end).
Proof.
  destruct self as [r s g m lm]. destruct f as [h|i|st|i h|i|i]; cbn [receive]; intros H;
    try (injection H as <-; repeat (split; [done|]); done).
  - destruct (match _ with None => true | Some _ => _ end) in H; [done|].
    destruct r; [injection H as <-|done]. by repeat (split; [done|]).
  - destruct (_ && _) eqn:Hb; [done|]. destruct (match g with Some _ => _ | None => _ end) eqn:Hg; [|done].
    injection H as <-. do 2 (split; [done|]). split; [|split; [done|split; [|done]]].
    + intros l Hl. cbn in *. destruct g as [p|]; cbn in *; [|done].
      destruct (Z.ltb_spec p i); [done|]. split; [lia|done].
    + cbn. intros ->. constructor; [|constructor]. by destruct (has i 3).
  - destruct (match m with Some _ => _ | None => _ end) eqn:Hg; [|done].
    injection H as <-. do 2 (split; [done|]). split; [done|]. split; [|by split].
    intros l Hl. cbn in *. destruct m as [p|]; cbn in *; [|done].
    destruct (Z.ltb_spec i p); [done|]. split; [lia|done].
Qed.

Lemma receive_all_ordered self frames self' :
  receive_all self frames = Ok self' ->
  local self' = local self /\
  descending (after (goaway self) (goaway_ids frames)) /\
  ascending (after (max_push_id self) (max_push_ids frames)) /\
  (local self = Client -> Forall (fun id => has id 0x03 = false) (goaway_ids frames)) /\
  (local self = Server -> Forall (fun f => match f with CancelPush _ => False | _ => True end) frames).
Proof.
  revert self. induction frames as [|f frames IH]; intros self; cbn [receive_all].
  - intros [= <-]. split; [done|]. split; [by destruct (goaway self)|].
    split; [by destruct (max_push_id self)|]. split; constructor.
  - destruct (receive self f) as [self1|] eqn:Hr; [|done]. intros H.
    destruct (receive_cases _ _ _ Hr) as (Hl & _ & Hg & Hm & Hid & Hc).
    destruct (IH _ H) as (IHl & IHg & IHm & IHid & IHc). rewrite Hl in *.
    assert (forall (A : Type) (k : Frame -> option A), omap k (f :: frames) = omap k [f] ++ omap k frames) as Ho.
    { intros A k. cbn. by destruct (k f). }
    unfold goaway_ids, max_push_ids in *. rewrite !Ho. split; [done|]. split; [by apply Hg|].
    split; [by apply Hm|]. split.
    + intros Hcl. apply Forall_app_2; auto.
    + intros Hs. constructor; auto. by destruct f; try done; specialize (Hc Hs).
Qed.

(** The identifiers a sender accepts never grow, and a server's are stream IDs of
    requests. *)
Fixpoint send_all (self : GoawaySender) (ids : list Z) : GoawaySender * list Z :=
  match ids with
  | [] => (self, [])
  | id :: ids =>
      let '(self, sent) := send self id in
      let '(self, rest) := send_all self ids in
      (self, match sent with Some id => id :: rest | None => rest end)
  end.

Lemma send_all_ordered self ids :
  descending (after (last self) (send_all self ids).2) /\
  Forall (fun id => id <= Varint.MAX) (send_all self ids).2 /\
  (sender_local self = Server -> Forall (fun id => has id 0x03 = false) (send_all self ids).2).
Proof.
  revert self. induction ids as [|id ids IH]; intros self; cbn [send_all].
  - split; [by destruct (last self)|]. split; constructor.
  - unfold send. destruct ((_ <? _) || _) eqn:Hb.
    { specialize (IH self). by destruct (send_all self ids). }
    apply orb_false_iff in Hb as [Hmax%Z.ltb_ge Hb].
    destruct (match last self with Some _ => _ | None => _ end) eqn:Hl.
    { specialize (IH self). by destruct (send_all self ids). }
    specialize (IH (MkGoawaySender (sender_local self) (Some id))).
    destruct (send_all _ ids) as [s' rest]. cbn [snd last sender_local] in *.
    destruct IH as (IH1 & IH2 & IH3). split; [|split].
    + destruct (last self) as [p|]; [|done]. cbn [after] in *. apply Z.ltb_ge in Hl. by split.
    + by constructor.
    + intros Hs. constructor; [|auto]. rewrite Hs, bool_decide_eq_true_2 in Hb by done. done.
Qed.

(** ** Datagrams round trip *)

Lemma datagram_roundtrip id data out :
  0 <= id <= Varint.MAX -> id mod 4 = 0 -> octets data ->
  exists wire d, Datagram_encode id data out = Some (out ++ wire) /\
    Datagram_parse wire = Ok d /\ stream_id d = Some id /\ payload d = data.
Proof.
  intros Hid Hm Hd. unfold Datagram_encode, has.
  assert (Z.land id 3 = 0) as -> by (change 3 with (Z.ones 2); by rewrite Z.land_ones).
  rewrite (proj2 (Z.ltb_ge _ _)) by lia. cbn [orb negb Z.eqb].
  rewrite Z.shiftr_div_pow2 by lia. change (2 ^ 2) with 4.
  pose proof (Z.div_mod id 4 ltac:(lia)) as Hdm. rewrite Hm in Hdm. unfold Varint.MAX in Hid.
  assert (0 <= id / 4 <= MAX_QUARTER_STREAM_ID) as Hq by (unfold MAX_QUARTER_STREAM_ID; lia).
  rewrite Varint.varint_push_encoding by (unfold Varint.MAX, MAX_QUARTER_STREAM_ID in *; lia).
  exists (Varint.encoding (id / 4) ++ data), (MkDatagram (id / 4) data).
  split; [by rewrite app_assoc|]. unfold Datagram_parse, stream_id.
  rewrite Varint.varint_decode_encoding by (done || unfold Varint.MAX, MAX_QUARTER_STREAM_ID in *; lia).
  cbn [ok_or quarter_stream_id payload]. rewrite drop_app_length.
  rewrite (proj2 (Z.ltb_ge _ _)) by lia. split; [done|]. unfold checked_mul.
  unfold MAX_QUARTER_STREAM_ID in *. pow2. bool_lia. split; [|done]. f_equal. lia.
Qed.

(** ** Properties *)

(** On a control stream GOAWAY identifiers never grow and MAX_PUSH_ID never
    shrinks, in any sequence of frames the receiver accepts; a client only accepts
    GOAWAY for requests it started; a server, which promises no push, accepts no
    CANCEL_PUSH. *)
Theorem control_frames_ordered role frames self :
  receive_all (PeerControl_new role) frames = Ok self ->
  descending (goaway_ids frames) /\ ascending (max_push_ids frames) /\
  (role = Client -> Forall (fun id => has id 0x03 = false) (goaway_ids frames)) /\
  (role = Server -> Forall (fun f => match f with CancelPush _ => False | _ => True end) frames).
Proof. intros H. by apply receive_all_ordered in H as (_ & ? & ? & ? & ?). Qed.

Lemma control_frames_ordered_witness :
  let frames := [SettingsFrame EMPTY; Goaway 8; MaxPushId 2; Goaway 4; MaxPushId 2] in
  descending (goaway_ids frames) /\ ascending (max_push_ids frames) /\
  (Server = Client -> Forall (fun id => has id 0x03 = false) (goaway_ids frames)) /\
  (Server = Server -> Forall (fun f => match f with CancelPush _ => False | _ => True end) frames).
Proof.
  apply (control_frames_ordered Server _ (MkPeerControl Server (Some EMPTY) (Some 4) (Some 2) None)).
  reflexivity.
Defined.

(** What this endpoint announces in GOAWAY never grows, never exceeds 2^62-1, and
    from a server is always the identifier of a request stream, whatever the caller
    asks it to send. *)
Theorem goaway_sent_ordered role ids :
  let sent := (send_all (GoawaySender_new role) ids).2 in
  descending sent /\ Forall (fun id => id <= Varint.MAX) sent /\
  (role = Server -> Forall (fun id => has id 0x03 = false) sent).
Proof. apply (send_all_ordered (GoawaySender_new role) ids). Qed.

(** A datagram survives the wire: for every client-initiated bidirectional stream
    the payload comes back with the stream it was sent on. *)
Theorem datagram_survives id data out :
  0 <= id <= Varint.MAX -> id mod 4 = 0 -> octets data ->
  exists wire d, Datagram_encode id data out = Some (out ++ wire) /\
    Datagram_parse wire = Ok d /\ stream_id d = Some id /\ payload d = data.
Proof. apply datagram_roundtrip. Qed.

Lemma datagram_survives_witness :
  exists wire d, Datagram_encode 1236 [1; 2] [] = Some ([] ++ wire) /\
    Datagram_parse wire = Ok d /\ stream_id d = Some 1236 /\ payload d = [1; 2].
Proof.
  apply datagram_survives; [split; discriminate | reflexivity | by apply (bool_decide_unpack _)].
Defined.
