(* ===== verification/H3Capsule.v ===== *)
(** * The capsule protocol (zero-h3, capsule.rs) *)
From S2P Require Import Prelude.
From S2P Require Import Machine.
From S2P Require Varint.
From S2P Require Import H3Error.

Definition DATAGRAM : Z := 0x00.

Definition is_reserved_capsule_type (value : Z) : bool :=
  if Varint.MAX <? value then false
  else
    match checked_sub value 0x17 with
    | Some offset => offset mod 0x29 =? 0
    | None => false
    end.

Inductive CapsuleStep : Type :=
| NeedMore (consumed : nat)
| Datagram (payload : bytes) (consumed : nat)
| Skipped (capsule_type len : Z) (consumed : nat)
| Value (data : bytes) (consumed : nat) (end_ : bool).

Inductive CapsuleState : Type := InHeader | InValue (remaining : Z).

#[global] Instance CapsuleState_eq_dec : EqDecision CapsuleState.
Proof. solve_decision. Defined.

Record CapsuleDecoder : Type := MkCapsuleDecoder { max_datagram : Z; state : CapsuleState }.

Definition new (max_datagram : Z) : CapsuleDecoder := MkCapsuleDecoder max_datagram InHeader.

Definition capsule (d : CapsuleDecoder) (input : bytes) : CapsuleDecoder * CapsuleStep :=
  match Varint.decode input with
  | None => (d, NeedMore 0)
  | Some (capsule_type, type_len) =>
      match Varint.decode (drop type_len input) with
      | None => (d, NeedMore 0)
      | Some (n, len_len) =>
          let header_len := (type_len + len_len)%nat in
          if (capsule_type =? DATAGRAM) && (n <=? max_datagram d) then
            let total := saturating_add 64 (Z.of_nat header_len) n in
            if len input <? total then (d, NeedMore 0)
            else
              let total := Nat.min (Z.to_nat total) (length input) in
              (d, Datagram (drop header_len (take total input)) total)
          else (MkCapsuleDecoder (max_datagram d) (InValue n), Skipped capsule_type n header_len)
      end
  end.

Definition piece (d : CapsuleDecoder) (input : bytes) (remaining : Z) : CapsuleDecoder * CapsuleStep :=
  if (0 <? remaining) && bool_decide (input = []) then (d, NeedMore 0)
  else
    let take_ := Z.min remaining (len input) in
    let n := Nat.min (Z.to_nat take_) (length input) in
    let left := saturating_sub remaining take_ in
    (MkCapsuleDecoder (max_datagram d) (if left =? 0 then InHeader else InValue left),
     Value (take n input) n (left =? 0)).

Definition decode (d : CapsuleDecoder) (input : bytes) : CapsuleDecoder * CapsuleStep :=
  match state d with
  | InHeader => capsule d input
  | InValue remaining => piece d input remaining
  end.

Definition finish (d : CapsuleDecoder) (unconsumed : bytes) : result Error unit :=
  let inside := match state d with InValue remaining => 0 <? remaining | InHeader => false end in
  if inside || negb (bool_decide (unconsumed = [])) then Err CapsuleTruncated else Ok tt.

(** The buffer after the call, [None] when it is left unchanged. *)
Definition encode_capsule (capsule_type : Z) (value out : bytes) : option bytes :=
  let! _ := Varint.encoded_len capsule_type in
  let! _ := Varint.encoded_len (len value) in
  let! out := Varint.push capsule_type out in
  let! out := Varint.push (len value) out in
  Some (out ++ value).

Definition encode_datagram_capsule (payload out : bytes) : option bytes :=
  encode_capsule DATAGRAM payload out.

(** ** The decoder as a streaming decoder *)

Inductive Event : Type :=
| GotDatagram (payload : bytes)
| SkippedCapsule (capsule_type len : Z)
| ValueOctet (octet : Z)
| ValueEnd.

Definition events (s : CapsuleStep) : option (list Event * nat) :=
  match s with
  | NeedMore _ => None
  | Datagram p n => Some ([GotDatagram p], n)
  | Skipped t l n => Some ([SkippedCapsule t l], n)
  | Value data n end_ => Some (map ValueOctet data ++ (if end_ then [ValueEnd] else []), n)
  end.

Definition step (d : CapsuleDecoder) (input : bytes)
  : result Error (option (CapsuleDecoder * list Event * nat)) :=
  let '(d, s) := decode d input in
  match events s with
  | None => Ok None
  | Some (ev, n) => Ok (Some (d, ev, n))
  end.

Definition busy (d : CapsuleDecoder) : nat := match state d with InHeader => 0 | _ => 1 end.

Lemma capsule_piece_short d input remaining :
  input <> [] -> len input < remaining ->
  piece d input remaining =
    (MkCapsuleDecoder (max_datagram d) (InValue (remaining - len input)),
     Value input (length input) false).
Proof.
  intros Hne Hl. unfold piece. pose proof (len_nonneg input).
  rewrite (proj2 (Z.ltb_lt 0 remaining)), bool_decide_eq_false_2 by (done || lia). cbn [andb].
  rewrite (Z.min_r remaining) by lia.
  replace (Nat.min (Z.to_nat (len input)) (length input)) with (length input) by (unfold len; lia).
  rewrite firstn_all. unfold saturating_sub. rewrite Z.max_r by lia.
  by rewrite (proj2 (Z.eqb_neq (remaining - len input) 0)) by lia.
Qed.

Lemma capsule_piece_full d input remaining :
  remaining <= len input ->
  piece d input remaining =
    (MkCapsuleDecoder (max_datagram d) InHeader,
     Value (take (Z.to_nat remaining) input) (Z.to_nat remaining) true).
Proof.
  intros Hl. unfold piece.
  assert ((0 <? remaining) && bool_decide (input = []) = false) as ->.
  { apply andb_false_iff. destruct (Z.ltb_spec 0 remaining); [right|by left].
    apply bool_decide_eq_false. intros ->. unfold len in Hl. cbn [length] in Hl. lia. }
  rewrite Z.min_l by lia. rewrite Nat.min_l by (unfold len in Hl; lia).
  unfold saturating_sub. by rewrite Z.sub_diag.
Qed.

Lemma capsule_piece_waits d remaining : 0 < remaining -> piece d [] remaining = (d, NeedMore 0).
Proof. intros H. unfold piece. by rewrite (proj2 (Z.ltb_lt _ _)). Qed.

Lemma capsule_app d input more d' s :
  capsule d input = (d', s) -> events s <> None -> capsule d (input ++ more) = (d', s).
Proof.
  unfold capsule. destruct (Varint.decode input) as [[t n1]|] eqn:H1; [|by intros [= <- <-]].
  rewrite (Varint.varint_decode_app _ more _ _ H1). apply Varint.varint_decode_used in H1.
  rewrite drop_app_le by lia.
  destruct (Varint.decode (drop n1 input)) as [[l n2]|] eqn:H2; [|by intros [= <- <-]].
  rewrite (Varint.varint_decode_app _ more _ _ H2). apply Varint.varint_decode_used in H2. rewrite length_drop in H2.
  destruct (_ && _); [|done].
  destruct (Z.ltb_spec (len input) (saturating_add 64 (Z.of_nat (n1 + n2)) l)) as [|Hl];
    [by intros [= <- <-]|].
  rewrite (proj2 (Z.ltb_ge _ _)) by (rewrite len_app; pose proof (len_nonneg more); lia).
  unfold len in Hl. rewrite length_app, !Nat.min_l by lia. by rewrite take_app_le by lia.
Qed.

Lemma capsule_used d input d' s ev n :
  state d = InHeader -> capsule d input = (d', s) -> events s = Some (ev, n) ->
  (2 <= n <= length input)%nat.
Proof.
  intros Hst. unfold capsule. destruct (Varint.decode input) as [[t n1]|] eqn:H1; [|by intros [= <- <-]].
  destruct (Varint.decode (drop n1 input)) as [[l n2]|] eqn:H2; [|by intros [= <- <-]].
  pose proof (Varint.decode_range _ _ _ H1). pose proof (Varint.decode_range _ _ _ H2).
  apply Varint.varint_decode_used in H1, H2. rewrite length_drop in H2.
  destruct (_ && _); [|intros [= <- <-] [= _ <-]; lia].
  destruct (Z.ltb_spec (len input) (saturating_add 64 (Z.of_nat (n1 + n2)) l)) as [|Hl];
    [by intros [= <- <-]|].
  intros [= <- <-] [= _ <-]. unfold saturating_add, Varint.MAX in *. word_lia.
Qed.

Lemma capsule_decode_cases d :
  (state d = InHeader /\ forall input, decode d input = capsule d input) \/
  (exists r, state d = InValue r /\ forall input, decode d input = piece d input r).
Proof. unfold decode. destruct (state d) as [|r]; [left|right; exists r]; done. Qed.

#[global] Instance capsule_firm : FirmErrors step.
Proof.
  intros d input more e. unfold step. destruct (decode d input) as [? s]. by destruct (events s) as [[]|].
Qed.

#[global] Instance capsule_machine : Machine step busy.
Proof.
  split.
  - intros d. unfold busy. destruct (state d); lia.
  - intros d input d' ev n. unfold step.
    destruct (capsule_decode_cases d) as [[Hst ->]|(r & Hst & ->)].
    + destruct (capsule d input) as [d1 s] eqn:Hf. destruct (events s) as [[ev1 n1]|] eqn:He; [|done].
      intros [= <- <- <-]. pose proof (capsule_used _ _ _ _ _ _ Hst Hf He).
      unfold busy. destruct (state d1), (state d); lia.
    + replace (busy d) with 1%nat by (unfold busy; by rewrite Hst).
      destruct (Z.le_gt_cases r (len input)) as [Hl|Hl].
      * rewrite capsule_piece_full by done. intros [= <- _ <-]. cbn. unfold len in Hl. lia.
      * destruct (decide (input = [])) as [->|Hne]; [by rewrite capsule_piece_waits|].
        rewrite capsule_piece_short by done. intros [= <- _ <-]. cbn.
        assert (0 < length input)%nat by (destruct input; cbn; [done|lia]). lia.
  - intros d input more e d' ev n Herr H. by destruct (firm_refusal step _ _ more _ _ Herr H).
  - intros d input more d' ev n. unfold step at 1.
    destruct (capsule_decode_cases d) as [[Hst Hd]|(r & Hst & Hd)]; rewrite Hd.
    + destruct (capsule d input) as [d1 s] eqn:Hf. destruct (events s) as [[ev1 n1]|] eqn:He; [|done].
      intros [= <- <- <-]. left. unfold step.
      rewrite Hd, (capsule_app _ _ more _ _ Hf) by (by rewrite He). by rewrite He.
    + destruct (Z.le_gt_cases r (len input)) as [Hl|Hl].
      { unfold step. rewrite Hd.
        rewrite !capsule_piece_full by (rewrite ?len_app; pose proof (len_nonneg more); lia).
        rewrite take_app_le by (unfold len in Hl; lia). by left. }
      destruct (decide (input = [])) as [->|Hne]; [by rewrite capsule_piece_waits|].
      destruct (decide (more = [])) as [->|Hm].
      { rewrite app_nil_r. unfold step. rewrite Hd. by left. }
      rewrite capsule_piece_short by done. intros [= <- <- <-]. right.
      destruct (Z.le_gt_cases r (len (input ++ more))) as [Hb|Hb]; rewrite len_app in Hb;
        (eapply (split_exhausted step d); [done | |]); unfold step; rewrite ?Hd; unfold decode; cbn [state].
      * rewrite capsule_piece_full by (rewrite ?len_app; lia). cbn [events]. reflexivity.
      * rewrite !capsule_piece_full by (rewrite ?len_app; lia). cbn [events].
        assert (Z.to_nat r = length input + Z.to_nat (r - len input))%nat as -> by (unfold len in *; lia).
        by rewrite take_app_add, map_app, app_nil_r, app_assoc.
      * rewrite capsule_piece_short by (done || lia). cbn [events]. reflexivity.
      * rewrite capsule_piece_short by first [rewrite len_app; lia | by destruct input]. cbn [events].
        by rewrite len_app, length_app, map_app, !app_nil_r, Z.sub_add_distr.
Qed.

(** ** Capsules that were written read back, however they are cut *)

Definition capsule_ok (c : Z * bytes) : Prop :=
  0 <= c.1 <= Varint.MAX /\ octets c.2 /\ len c.2 <= 2 ^ 60.

Definition capsule_encoding (c : Z * bytes) : bytes :=
  Varint.encoding c.1 ++ Varint.encoding (len c.2) ++ c.2.

Definition capsule_events (d : CapsuleDecoder) (c : Z * bytes) : list Event :=
  if (c.1 =? DATAGRAM) && (len c.2 <=? max_datagram d) then [GotDatagram c.2]
  else SkippedCapsule c.1 (len c.2) :: map ValueOctet c.2 ++ [ValueEnd].

Lemma encode_capsule_encoding c out :
  capsule_ok c -> encode_capsule c.1 c.2 out = Some (out ++ capsule_encoding c).
Proof.
  intros (Ht & _ & Hl). unfold encode_capsule, capsule_encoding.
  assert (0 <= len c.2 <= Varint.MAX) as Hn by (unfold Varint.MAX, len in *; lia).
  destruct (Varint.encoded_len_spec _ Ht) as (? & -> & _).
  destruct (Varint.encoded_len_spec _ Hn) as (? & -> & _).
  by rewrite !Varint.varint_push_encoding, !app_assoc by done.
Qed.

Lemma capsule_encoding_octets c : capsule_ok c -> octets (capsule_encoding c).
Proof.
  intros (_ & Ho & _). unfold capsule_encoding. repeat apply Forall_app_2; [..|done];
    apply Varint.varint_encoding_octets.
Qed.

Lemma run_capsule d c more :
  state d = InHeader -> capsule_ok c -> octets more ->
  run step busy d (capsule_encoding c ++ more) =
    (let? (d', ev, m) := run step busy d more in
     Ok (d', capsule_events d c ++ ev, (length (capsule_encoding c) + m)%nat)).
Proof.
  intros Hst (Ht & Ho & Hl) Hm. destruct (capsule_decode_cases d) as [[_ Hd]|(r & Hr & _)]; [|congruence].
  assert (0 <= len c.2 <= Varint.MAX) as Hn by (unfold Varint.MAX, len in *; lia).
  rewrite (run_step step busy). unfold step at 1. rewrite Hd. unfold capsule, capsule_encoding, capsule_events.
  rewrite <- !app_assoc.
  assert (octets (c.2 ++ more)) by (by apply Forall_app_2).
  rewrite Varint.varint_decode_encoding by (first [done | apply Forall_app_2; [apply Varint.varint_encoding_octets | done]]).
  rewrite drop_app_length, Varint.varint_decode_encoding by done.
  destruct ((c.1 =? DATAGRAM) && (len c.2 <=? max_datagram d)).
  - set (h := (Varint.encoding c.1 ++ Varint.encoding (len c.2))).
    rewrite !app_assoc. fold h. rewrite <- length_app. fold h.
    assert (len h <= 16) as Hh.
    { unfold h. rewrite len_app. apply Varint.varint_encoding_length in Ht, Hn. unfold len at 1 2.
      Varint.length_cases Ht; Varint.length_cases Hn; lia. }
    assert (saturating_add 64 (Z.of_nat (length h)) (len c.2) = len (h ++ c.2)) as ->.
    { rewrite len_app. unfold saturating_add, len in *. pow2. lia. }
    rewrite (proj2 (Z.ltb_ge _ _)) by (rewrite (len_app (h ++ c.2)); pose proof (len_nonneg more); lia).
    rewrite Nat.min_l by (unfold len; rewrite !length_app; lia).
    unfold len. rewrite Nat2Z.id, take_app_length, drop_app_length. cbn [events].
    by rewrite drop_app_length.
  - cbn [events]. rewrite <- length_app, app_assoc, drop_app_length, (run_step step busy).
    unfold step at 1, decode. cbn [state].
    rewrite capsule_piece_full by (rewrite len_app; pose proof (len_nonneg more); lia).
    unfold len. rewrite Nat2Z.id, take_app_length. cbn [events max_datagram]. rewrite drop_app_length.
    replace (MkCapsuleDecoder (max_datagram d) InHeader) with d by (rewrite <- Hst; by destruct d).
    destruct (run step busy d more) as [[[d' ev] m]|]; [|done]. rewrite !length_app.
    do 2 f_equal. lia.
Qed.

Definition capsules_encoding (cs : list (Z * bytes)) : bytes := mbind capsule_encoding cs.

Lemma capsules_encoding_cons c cs :
  capsules_encoding (c :: cs) = capsule_encoding c ++ capsules_encoding cs.
Proof. done. Qed.

Lemma capsules_encoding_octets cs : Forall capsule_ok cs -> octets (capsules_encoding cs).
Proof.
  induction 1 as [|c cs Hc _ IH]; [constructor|]. rewrite capsules_encoding_cons.
  apply Forall_app_2; [by apply capsule_encoding_octets|done].
Qed.

Lemma run_capsules d cs :
  state d = InHeader -> Forall capsule_ok cs ->
  run step busy d (capsules_encoding cs)
    = Ok (d, mbind (capsule_events d) cs, length (capsules_encoding cs)).
Proof.
  intros Hst. induction 1 as [|c cs Hc Hcs IH].
  - rewrite (run_step step busy). unfold step.
    destruct (capsule_decode_cases d) as [[_ ->]|(r & Hr & _)]; [done|congruence].
  - rewrite capsules_encoding_cons, run_capsule by (done || by apply capsules_encoding_octets).
    by rewrite IH, length_app.
Qed.

(** ** Properties *)

(** Capsules survive the data stream however DATA frames and packets cut it: a
    datagram within the limit comes out whole, and every other capsule is announced
    and its value handed out octet for octet, with nothing left over. *)
Theorem capsules_delivered limit cs chunks :
  Forall capsule_ok cs -> concat chunks = capsules_encoding cs ->
  deliver step busy (new limit) [] chunks
    = Ok (new limit, mbind (capsule_events (new limit)) cs, []).
Proof.
  intros Hcs Hch. rewrite (deliver_concat step busy) by reflexivity.
  cbn [app]. rewrite Hch, run_capsules by done. by rewrite drop_all.
Qed.

Lemma capsules_delivered_witness :
  deliver step busy (new 4) [] [[0; 3; 1]; [2; 3; 0x17]; [2; 8]; []; [9]]
    = Ok (new 4, mbind (capsule_events (new 4)) [(0, [1; 2; 3]); (0x17, [8; 9])], []).
Proof.
  apply capsules_delivered.
  - repeat (constructor; [split; [split; discriminate
      | split; [by apply (bool_decide_unpack _) | discriminate]]|]). constructor.
  - reflexivity.
Defined.
