(* ===== verification/H3Decoder.v ===== *)
(** * The streaming frame decoder (zero-h3, decoder.rs)

    The decoder of one control, request or push stream: the order of frames as a
    state machine, the frames held whole, and the payloads handed out in pieces. *)
From S2P Require Import Prelude.
From S2P Require Limits.
From S2P Require Import Machine.
From S2P Require Varint.
From S2P Require H3Frame.
From S2P Require Import H3Error.
From S2P Require Import H3Settings.

Record FrameLimits : Type := MkFrameLimits { field_section : Z; settings : Z }.

Definition SETTINGS_PAYLOAD_LIMIT : Z := 4096.
Definition HEADER_BOUND : Z := 16.
Definition PUSH_ID_BOUND : Z := 8.

Definition encoded_field_section_bound (max_field_section_size : Z) : Z :=
  saturating_add 64 (saturating_mul 64 max_field_section_size 4) 20.

Definition min (a b : Z) : Z := if a <? b then a else b.

Definition from_limits (limits : Limits.Http3Limits) : FrameLimits :=
  let window := Limits.http3_stream_data limits in
  MkFrameLimits
    (min (encoded_field_section_bound (Limits.http3_max_field_section_size limits))
      (saturating_sub (saturating_sub window HEADER_BOUND) PUSH_ID_BOUND))
    (min SETTINGS_PAYLOAD_LIMIT (saturating_sub window HEADER_BOUND)).

Definition DEFAULT : FrameLimits := from_limits Limits.Http3Limits_DEFAULT.

Inductive Step : Type :=
| NeedMore (consumed : nat)
| StepFrame (frame : Frame) (consumed : nat)
| StepData (data : bytes) (consumed : nat) (end_ : bool)
| Skipped (frame_type : H3Frame.FrameType) (len : Z) (consumed : nat)
| Oversized (frame_type : H3Frame.FrameType) (len : Z) (consumed : nat)
| Discarded (data : bytes) (consumed : nat) (end_ : bool).

Inductive State : Type := InHeader | InData (remaining : Z) | InDiscard (remaining : Z).

Inductive Sequence : Type :=
| AwaitSettings
| OnControl
| Start
| Interim
| Header
| Body
| Trailers
| Tunnel.

#[global] Instance Sequence_eq_dec : EqDecision Sequence.
Proof. solve_decision. Defined.
#[global] Instance State_eq_dec : EqDecision State.
Proof. solve_decision. Defined.

Record FrameDecoder : Type := MkFrameDecoder {
  kind : StreamKind;
  role : Role;
  limits : FrameLimits;
  state : State;
  sequence : Sequence;
}.

Definition with_state (d : FrameDecoder) (s : State) : FrameDecoder :=
  MkFrameDecoder (kind d) (role d) (limits d) s (sequence d).
Definition with_sequence (d : FrameDecoder) (s : Sequence) : FrameDecoder :=
  MkFrameDecoder (kind d) (role d) (limits d) (state d) s.

Definition new (kind : StreamKind) (role : Role) (limits : FrameLimits) : FrameDecoder :=
  MkFrameDecoder kind role limits InHeader
    (match kind with KControl => AwaitSettings | KRequest | KPush => Start end).

(** [payload_frame]: a held payload. *)
Definition payload_frame (t : H3Frame.FrameType) (payload : bytes) : result Error Frame :=
  if t =? H3Frame.SETTINGS then let? s := parse payload in Ok (SettingsFrame s)
  else if t =? H3Frame.PUSH_PROMISE then
    let? (push_id, len) := ok_or (Varint.decode payload) (PayloadTruncated t) in
    Ok (PushPromise push_id (drop len payload))
  else if (t =? H3Frame.CANCEL_PUSH) || (t =? H3Frame.GOAWAY) || (t =? H3Frame.MAX_PUSH_ID) then
    let? (value, len) := ok_or (Varint.decode payload) (PayloadTruncated t) in
    if (len <? length payload)%nat then Err (PayloadTrailing t)
    else Ok (if t =? H3Frame.CANCEL_PUSH then CancelPush value
             else if t =? H3Frame.GOAWAY then Goaway value else MaxPushId value)
  else Ok (Headers payload).

(** Whether Table 1 of RFC 9114 Section 7 allows a known type on a stream. *)
Definition allowed (k : StreamKind) (t : H3Frame.FrameType) : bool :=
  match k with
  | KControl => (t =? H3Frame.CANCEL_PUSH) || (t =? H3Frame.SETTINGS) || (t =? H3Frame.GOAWAY)
      || (t =? H3Frame.MAX_PUSH_ID)
  | KRequest => (t =? H3Frame.DATA) || (t =? H3Frame.HEADERS) || (t =? H3Frame.PUSH_PROMISE)
  | KPush => (t =? H3Frame.DATA) || (t =? H3Frame.HEADERS)
  end.

Definition wrong_role (t : H3Frame.FrameType) (r : Role) : bool :=
  match r with Server => t =? H3Frame.PUSH_PROMISE | Client => t =? H3Frame.MAX_PUSH_ID end.

(** The last [match] of [check]. *)
Definition sequence_after (s : Sequence) (r : Role) (t : H3Frame.FrameType) : result Error Sequence :=
  let headers := t =? H3Frame.HEADERS in
  let data := t =? H3Frame.DATA in
  match s with
  | AwaitSettings => Ok OnControl
  | OnControl => if t =? H3Frame.SETTINGS then Err SecondSettings else Ok OnControl
  | Start =>
      if headers then Ok (match r with Server => Header | Client => Interim end)
      else if data then Err (OutOfSequence t) else Ok Start
  | Interim => if headers then Ok Interim else if data then Ok Body else Ok Interim
  | Header => if headers then Ok Trailers else if data then Ok Body else Ok Header
  | Body => if headers then Ok Trailers else if data then Ok Body else Ok Body
  | Trailers => if data || headers then Err (OutOfSequence t) else Ok Trailers
  | Tunnel => if data then Ok Tunnel else Err (OutOfSequence t)
  end.

(** The rules on a frame type, in the order of the code. *)
Definition check (d : FrameDecoder) (t : H3Frame.FrameType) : result Error Sequence :=
  if bool_decide (sequence d = AwaitSettings) && negb (t =? H3Frame.SETTINGS) then
    Err (MissingSettings t)
  else if H3Frame.is_reserved_http2 t then Err (ReservedFrameType t)
  else if negb (H3Frame.is_known t) then Ok (sequence d)
  else if negb (allowed (kind d) t) then Err (WrongStream t (kind d))
  else if wrong_role t (role d) then Err (WrongRole t)
  else sequence_after (sequence d) (role d) t.

(** [piece]: the octets of a payload that are there. *)
Definition piece (d : FrameDecoder) (input : bytes) (remaining : Z) (data : bool)
  : FrameDecoder * Step :=
  if (0 <? remaining) && bool_decide (input = []) then (d, NeedMore 0)
  else
    let take_ := Z.min remaining (len input) in
    let n := Nat.min (Z.to_nat take_) (length input) in
    let piece := take n input in
    let left := saturating_sub remaining take_ in
    let end_ := left =? 0 in
    let state := if end_ then InHeader else if data then InData left else InDiscard left in
    (with_state d state,
     if data then StepData piece n end_ else Discarded piece n end_).

(** The limit of a type held whole only up to a length. *)
Definition held_limit (d : FrameDecoder) (t : H3Frame.FrameType) : option Z :=
  if t =? H3Frame.HEADERS then Some (field_section (limits d))
  else if t =? H3Frame.PUSH_PROMISE then
    Some (saturating_add 64 (field_section (limits d)) PUSH_ID_BOUND)
  else None.

(** The length rules of the remaining types. *)
Definition length_rule (d : FrameDecoder) (t : H3Frame.FrameType) (len : Z) : result Error unit :=
  if (t =? H3Frame.SETTINGS) && (settings (limits d) <? len) then Err (ExcessiveLoad t len)
  else if (t =? H3Frame.CANCEL_PUSH) || (t =? H3Frame.GOAWAY) || (t =? H3Frame.MAX_PUSH_ID) then
    if len =? 0 then Err (PayloadTruncated t)
    else if PUSH_ID_BOUND <? len then Err (PayloadTrailing t)
    else Ok tt
  else Ok tt.

(** The end of [frame]: a frame held whole until its payload is there. *)
Definition whole (d : FrameDecoder) (input : bytes) (t : H3Frame.FrameType) (n : Z)
    (consumed : nat) (next : Sequence) : result Error (FrameDecoder * Step) :=
  let total := saturating_add 64 (Z.of_nat consumed) n in
  if len input <? total then Ok (d, NeedMore 0)
  else
    let total := Nat.min (Z.to_nat total) (length input) in
    let payload := drop consumed (take total input) in
    let? frame := payload_frame t payload in
    Ok (with_sequence d next, StepFrame frame total).

Definition frame (d : FrameDecoder) (input : bytes) : result Error (FrameDecoder * Step) :=
  match H3Frame.FrameHeader_parse input with
  | None => Ok (d, NeedMore 0)
  | Some header =>
      let t := H3Frame.frame_type header in
      let? next := check d t in
      let n := H3Frame.payload_len header in
      let consumed := H3Frame.header_len header in
      if t =? H3Frame.DATA then
        Ok (with_state (with_sequence d next) (InData n), StepData [] consumed false)
      else if negb (H3Frame.is_known t) then
        Ok (with_state d (InDiscard n), Skipped t n consumed)
      else
        match held_limit d t with
        | Some limit =>
            if (t =? H3Frame.PUSH_PROMISE) && (n =? 0) then Err (PayloadTruncated t)
            else if limit <? n then
              Ok (with_state (with_sequence d next) (InDiscard n), Oversized t n consumed)
            else whole d input t n consumed next
        | None =>
            let? _ := length_rule d t n in
            whole d input t n consumed next
        end
  end.

(** The state after the call; an error leaves it as it was. *)
Definition decode (d : FrameDecoder) (input : bytes) : result Error (FrameDecoder * Step) :=
  match state d with
  | InHeader => frame d input
  | InData remaining => Ok (piece d input remaining true)
  | InDiscard remaining => Ok (piece d input remaining false)
  end.

Definition tunnel (d : FrameDecoder) : FrameDecoder :=
  match kind d with KControl => d | _ => with_sequence d Tunnel end.

Definition final_response (d : FrameDecoder) : FrameDecoder :=
  match sequence d with Interim => with_sequence d Header | _ => d end.

Definition finish (d : FrameDecoder) (unconsumed : bytes) : result Error unit :=
  match kind d with
  | KControl => Err (CriticalStreamClosed 0x00)
  | _ =>
      let inside :=
        match state d with
        | InHeader => false
        | InData remaining | InDiscard remaining => 0 <? remaining
        end in
      if inside || negb (bool_decide (unconsumed = [])) then Err StreamEndedInFrame
      else
        match kind d, role d, sequence d with
        | KRequest, Server, Start => Err RequestIncomplete
        | _, _, _ => Ok tt
        end
  end.

(** ** The decoder as a streaming decoder

    The events of a step, one per octet where a payload is handed out in pieces. *)

Inductive Event : Type :=
| GotFrame (frame : Frame)
| DataOctet (octet : Z)
| DataEnd
| SkippedFrame (frame_type : H3Frame.FrameType) (len : Z)
| OversizedFrame (frame_type : H3Frame.FrameType) (len : Z)
| DiscardedOctet (octet : Z)
| DiscardedEnd.

Definition ended (end_ : bool) (e : Event) : list Event := if end_ then [e] else [].

Definition events (s : Step) : option (list Event * nat) :=
  match s with
  | NeedMore _ => None
  | StepFrame f n => Some ([GotFrame f], n)
  | StepData data n end_ => Some (map DataOctet data ++ ended end_ DataEnd, n)
  | Skipped t l n => Some ([SkippedFrame t l], n)
  | Oversized t l n => Some ([OversizedFrame t l], n)
  | Discarded data n end_ => Some (map DiscardedOctet data ++ ended end_ DiscardedEnd, n)
  end.

Definition step (d : FrameDecoder) (input : bytes)
  : result Error (option (FrameDecoder * list Event * nat)) :=
  let? (d, s) := decode d input in
  match events s with
  | None => Ok None
  | Some (ev, n) => Ok (Some (d, ev, n))
  end.

Definition busy (d : FrameDecoder) : nat := match state d with InHeader => 0 | _ => 1 end.

(** *** Payloads in pieces *)

Definition piece_state (data : bool) (left : Z) : State :=
  if left =? 0 then InHeader else if data then InData left else InDiscard left.

Lemma decoder_piece_short d input remaining data :
  input <> [] -> len input < remaining ->
  piece d input remaining data =
    (with_state d (if data then InData (remaining - len input) else InDiscard (remaining - len input)),
     if data then StepData input (length input) false else Discarded input (length input) false).
Proof.
  intros Hne Hl. unfold piece. pose proof (len_nonneg input).
  rewrite (proj2 (Z.ltb_lt 0 remaining)), bool_decide_eq_false_2 by (done || lia). cbn [andb].
  rewrite (Z.min_r remaining) by lia.
  replace (Nat.min (Z.to_nat (len input)) (length input)) with (length input) by (unfold len; lia).
  rewrite firstn_all. unfold saturating_sub. rewrite Z.max_r by lia.
  by rewrite (proj2 (Z.eqb_neq (remaining - len input) 0)) by lia.
Qed.

Lemma decoder_piece_full d input remaining data :
  remaining <= len input ->
  piece d input remaining data =
    (with_state d InHeader,
     if data then StepData (take (Z.to_nat remaining) input) (Z.to_nat remaining) true
     else Discarded (take (Z.to_nat remaining) input) (Z.to_nat remaining) true).
Proof.
  intros Hl. unfold piece.
  assert ((0 <? remaining) && bool_decide (input = []) = false) as ->.
  { apply andb_false_iff. destruct (Z.ltb_spec 0 remaining); [right|by left].
    apply bool_decide_eq_false. intros ->. unfold len in Hl; cbn [length] in Hl; lia. }
  rewrite Z.min_l by lia. rewrite Nat.min_l by (unfold len in Hl; lia).
  unfold saturating_sub. by rewrite Z.sub_diag.
Qed.

Lemma decoder_piece_waits d remaining data : 0 < remaining -> piece d [] remaining data = (d, NeedMore 0).
Proof. intros H. unfold piece. by rewrite (proj2 (Z.ltb_lt _ _)). Qed.

(** A piece on a longer buffer is the piece on the shorter one and what follows. *)
Lemma piece_split d input more remaining data d' s ev n :
  piece d input remaining data = (d', s) -> events s = Some (ev, n) ->
  piece d (input ++ more) remaining data = (d', s) \/
  (n = length input /\ exists left d2 s2 ev2 n2,
     state d' = (if data then InData left else InDiscard left) /\
     piece d' more left data = (d2, s2) /\ events s2 = Some (ev2, n2) /\
     exists s3, piece d (input ++ more) remaining data = (d2, s3) /\
       events s3 = Some (ev ++ ev2, (n + n2)%nat)).
Proof.
  intros Hp He. destruct (Z.le_gt_cases remaining (len input)) as [Hl|Hl].
  - left. rewrite decoder_piece_full in * by (rewrite ?len_app; pose proof (len_nonneg more); lia).
    rewrite take_app_le; [done|]. unfold len in Hl. lia.
  - destruct (decide (input = [])) as [->|Hne].
    { rewrite decoder_piece_waits in Hp by done. injection Hp as <- <-. done. }
    destruct (decide (more = [])) as [->|Hm]; [left; by rewrite app_nil_r|]. right.
    rewrite decoder_piece_short in Hp by done. injection Hp as <- <-.
    assert (n = length input) as -> by (by destruct data; injection He as _ <-). split; [done|].
    exists (remaining - len input).
    destruct (Z.le_gt_cases remaining (len (input ++ more))) as [Hb|Hb].
    + rewrite (decoder_piece_full d (input ++ more)) by done. rewrite len_app in Hb.
      rewrite (decoder_piece_full (with_state _ _)) by lia.
      assert (Z.to_nat remaining = length input + Z.to_nat (remaining - len input))%nat as ->
        by (unfold len in *; lia).
      rewrite take_app_add.
      destruct data; injection He as <-; do 4 eexists; do 3 (split; [reflexivity|]); eexists;
        (split; [reflexivity|]); cbn [events]; rewrite map_app, app_nil_r, app_assoc; done.
    + rewrite (decoder_piece_short d (input ++ more)) by (done || by destruct input). rewrite len_app in Hb.
      rewrite (decoder_piece_short (with_state _ _)) by (done || lia).
      rewrite len_app, length_app.
      destruct data; injection He as <-; do 4 eexists; do 3 (split; [reflexivity|]); eexists;
        (split; [unfold with_state; cbn; by rewrite Z.sub_add_distr|]);
        cbn [events ended]; by rewrite map_app, !app_nil_r.
Qed.

Lemma piece_progress d input remaining data d' s ev n :
  state d <> InHeader -> piece d input remaining data = (d', s) -> events s = Some (ev, n) ->
  (n <= length input)%nat /\ (busy d' < 2 * n + 1)%nat.
Proof.
  intros Hs Hp He. destruct (Z.le_gt_cases remaining (len input)) as [Hl|Hl].
  - rewrite decoder_piece_full in Hp by done. injection Hp as <- <-.
    assert (n = Z.to_nat remaining) as -> by (by destruct data; injection He as _ <-).
    cbn. unfold len in Hl. lia.
  - destruct (decide (input = [])) as [->|Hne].
    { rewrite decoder_piece_waits in Hp by done. injection Hp as <- <-. done. }
    rewrite decoder_piece_short in Hp by done. injection Hp as <- <-.
    assert (n = length input) as -> by (by destruct data; injection He as _ <-).
    assert (0 < length input)%nat by (destruct input; cbn; [done|lia]).
    unfold busy. cbn. destruct data; lia.
Qed.

(** *** Frame headers and whole frames *)

Lemma whole_app d input more t n consumed next d' s :
  (consumed <= length input)%nat ->
  whole d input t n consumed next = Ok (d', s) -> events s <> None ->
  whole d (input ++ more) t n consumed next = Ok (d', s).
Proof.
  intros Hc. unfold whole. destruct (Z.ltb_spec (len input) (saturating_add 64 (Z.of_nat consumed) n)) as [|Hl].
  { by intros [= <- <-]. }
  rewrite (proj2 (Z.ltb_ge _ _)) by (rewrite len_app; pose proof (len_nonneg more); lia).
  unfold len in Hl. rewrite length_app, !Nat.min_l by lia. by rewrite take_app_le by lia.
Qed.

Lemma whole_error d input more t n consumed next e :
  whole d input t n consumed next = Err e -> whole d (input ++ more) t n consumed next = Err e.
Proof.
  unfold whole. destruct (Z.ltb_spec (len input) (saturating_add 64 (Z.of_nat consumed) n)) as [|Hl];
    [done|].
  rewrite (proj2 (Z.ltb_ge _ _)) by (rewrite len_app; pose proof (len_nonneg more); lia).
  unfold len in Hl. rewrite length_app, !Nat.min_l by lia. by rewrite take_app_le by lia.
Qed.

Lemma whole_used d input t n consumed next d' s ev m :
  whole d input t n consumed next = Ok (d', s) -> events s = Some (ev, m) -> 0 <= n < 2 ^ 63 ->
  (consumed <= 16)%nat -> (consumed <= m <= length input)%nat /\ state d' = state d.
Proof.
  unfold whole. destruct (Z.ltb_spec (len input) (saturating_add 64 (Z.of_nat consumed) n)) as [|Hl].
  { by intros [= <- <-]. }
  destruct (payload_frame _ _); [|done]. intros [= <- <-] [= _ <-] Hn Hc.
  unfold saturating_add in *. unfold len in Hl. split; [|done]. word_lia.
Qed.

(** Decide every test of [frame] that does not look at the buffer. *)
Ltac frame_cases :=
  repeat match goal with
  | |- context [match check ?d ?t with _ => _ end] => destruct (check d t)
  | |- context [match held_limit ?d ?t with _ => _ end] => destruct (held_limit d t)
  | |- context [match length_rule ?d ?t ?n with _ => _ end] => destruct (length_rule d t n)
  | |- context [if ?b then _ else _] =>
      match b with context [len] => fail 1 | _ => destruct b end
  end.

Lemma frame_app d input more d' s :
  frame d input = Ok (d', s) -> events s <> None -> frame d (input ++ more) = Ok (d', s).
Proof.
  unfold frame. destruct (H3Frame.FrameHeader_parse input) as [h|] eqn:Hh; [|by intros [= <- <-]].
  rewrite (H3Frame.FrameHeader_parse_app _ more _ Hh).
  apply H3Frame.FrameHeader_parse_used in Hh. frame_cases; try done; apply whole_app; lia.
Qed.

Lemma frame_error d input more e : frame d input = Err e -> frame d (input ++ more) = Err e.
Proof.
  unfold frame. destruct (H3Frame.FrameHeader_parse input) as [h|] eqn:Hh; [|done].
  rewrite (H3Frame.FrameHeader_parse_app _ more _ Hh).
  frame_cases; try done; apply whole_error.
Qed.

Lemma frame_used d input d' s ev n :
  state d = InHeader -> frame d input = Ok (d', s) -> events s = Some (ev, n) ->
  (2 <= n <= length input)%nat.
Proof.
  intros Hs. unfold frame. destruct (H3Frame.FrameHeader_parse input) as [h|] eqn:Hh; [|by intros [= <- <-]].
  pose proof (H3Frame.FrameHeader_parse_used _ _ Hh).
  apply H3Frame.FrameHeader_parse_range in Hh as (_ & Hl & Hc).
  unfold Varint.MAX, H3Frame.MAX_HEADER_LEN in *.
  frame_cases; try done; try (intros [= <- <-] [= _ <-]; lia);
    intros Hw He; destruct (whole_used _ _ _ _ _ _ _ _ _ _ Hw He) as [??]; word_lia.
Qed.

Lemma decoder_decode_cases d :
  (state d = InHeader /\ forall input, decode d input = frame d input) \/
  (exists remaining data, state d = (if data : bool then InData remaining else InDiscard remaining) /\
     forall input, decode d input = Ok (piece d input remaining data)).
Proof.
  unfold decode. destruct (state d) as [|r|r]; [left|right; exists r, true|right; exists r, false]; done.
Qed.

Lemma decode_piece d remaining (data : bool) input :
  state d = (if data then InData remaining else InDiscard remaining) ->
  decode d input = Ok (piece d input remaining data).
Proof. unfold decode. by destruct data; intros ->. Qed.

#[global] Instance decoder_firm : FirmErrors step.
Proof.
  intros d input more e. unfold step. destruct (decoder_decode_cases d) as [[_ Hd]|(r & b & _ & Hd)];
    rewrite !Hd.
  - destruct (frame d input) as [[d1 s]|] eqn:Hf; [by destruct (events s) as [[]|]|].
    intros [= ->]. by rewrite (frame_error _ _ more _ Hf).
  - destruct (piece _ _ _ _) as [? s]. by destruct (events s) as [[]|].
Qed.

#[global] Instance decoder_machine : Machine step busy.
Proof.
  split.
  - intros d. unfold busy. destruct (state d); lia.
  - intros d input d' ev n. unfold step.
    destruct (decoder_decode_cases d) as [[Hst ->]|(r & b & Hst & ->)].
    + destruct (frame d input) as [[d1 s]|] eqn:Hf; [|done].
      destruct (events s) as [[ev1 n1]|] eqn:He; [|done]. intros [= <- <- <-].
      pose proof (frame_used _ _ _ _ _ _ Hst Hf He). unfold busy. destruct (state d1), (state d); lia.
    + destruct (piece d input r b) as [d1 s] eqn:Hp.
      destruct (events s) as [[ev1 n1]|] eqn:He; [|done]. intros [= <- <- <-].
      assert (state d <> InHeader) as Hne by (rewrite Hst; by destruct b).
      replace (busy d) with 1%nat by (unfold busy; rewrite Hst; by destruct b).
      by apply (piece_progress _ _ _ _ _ _ _ _ Hne Hp He).
  - intros d input more e d' ev n Herr H. by destruct (firm_refusal step _ _ more _ _ Herr H).
  - intros d input more d' ev n. unfold step at 1.
    destruct (decoder_decode_cases d) as [[Hst Hd]|(r & b & Hst & Hd)]; rewrite Hd.
    + destruct (frame d input) as [[d1 s]|] eqn:Hf; [|done].
      destruct (events s) as [[ev1 n1]|] eqn:He; [|done]. intros [= <- <- <-]. left.
      unfold step. rewrite Hd, (frame_app _ _ more _ _ Hf) by (by rewrite He). by rewrite He.
    + destruct (piece d input r b) as [d1 s] eqn:Hp.
      destruct (events s) as [[ev1 n1]|] eqn:He; [|done]. intros [= <- <- <-].
      destruct (piece_split _ _ more _ _ _ _ _ _ Hp He)
        as [Heq|(Hn & rem & d2 & s2 & ev2 & n2 & Hst2 & Hp2 & He2 & s3 & Heq & He3)].
      { left. unfold step. by rewrite Hd, Heq, He. }
      right. apply (split_exhausted step d d1 input more ev1 n1 d2 ev2 n2 Hn); unfold step.
      * by rewrite (decode_piece _ _ _ _ Hst2), Hp2, He2.
      * by rewrite Hd, Heq, He3.
Qed.

(** ** What a frame that was written reads back as *)

Definition payload_of (f : Frame) : bytes :=
  match f with
  | Headers section => section
  | CancelPush id | Goaway id | MaxPushId id => Varint.encoding id
  | SettingsFrame s => pairs_encoding (wire_pairs s None)
  | PushPromise id section => Varint.encoding id ++ section
  end.

Definition frame_ok (f : Frame) : Prop :=
  match f with
  | Headers section => octets section /\ len section <= 2 ^ 60
  | CancelPush id | Goaway id | MaxPushId id => varint_ok id
  | SettingsFrame s => settings_ok s
  | PushPromise id section => varint_ok id /\ octets section /\ len section <= 2 ^ 60
  end.

Definition frame_encoding (f : Frame) : bytes :=
  H3Frame.header_encoding (frame_type_of f) (len (payload_of f)) ++ payload_of f.

Lemma frame_type_range f : 0 <= frame_type_of f <= Varint.MAX.
Proof. by destruct f. Qed.

Lemma varint_encoding_len v : varint_ok v -> 1 <= len (Varint.encoding v) <= 8.
Proof. intros Hv%Varint.varint_encoding_length. unfold len. Varint.length_cases Hv; lia. Qed.

Lemma payload_len_bound f : frame_ok f -> len (payload_of f) <= 2 ^ 60 + 8.
Proof.
  destruct f as [h|i|s|i h|i|i]; cbn [frame_ok payload_of].
  - lia.
  - intros ?%varint_encoding_len. lia.
  - intros Hs. destruct (settings_encode_encoding s None [] Hs I) as [Hl _]. lia.
  - rewrite len_app. intros (?%varint_encoding_len & _ & ?). lia.
  - intros ?%varint_encoding_len. lia.
  - intros ?%varint_encoding_len. lia.
Qed.

Lemma payload_octets f : frame_ok f -> octets (payload_of f).
Proof.
  destruct f as [h|i|s|i h|i|i]; cbn [frame_ok payload_of];
    try (intros; apply Varint.varint_encoding_octets).
  - tauto.
  - intros _. apply pairs_encoding_octets.
  - intros (_ & ? & _). apply Forall_app_2; [apply Varint.varint_encoding_octets|done].
Qed.

Lemma Frame_encode_encoding f out : frame_ok f -> Frame_encode f out = Some (out ++ frame_encoding f).
Proof.
  intros Hf. pose proof (payload_len_bound f Hf) as Hl. unfold frame_encoding.
  destruct f as [h|i|s|i h|i|i]; cbn [frame_ok payload_of Frame_encode frame_type_of] in *.
  - rewrite H3Frame.append_encoding by (done || (cbn [len]; unfold Varint.MAX, len in *; cbn; lia)).
    change (len [] + len h) with (len h). done.
  - by rewrite H3Frame.append_integer_encoding.
  - by destruct (settings_encode_encoding s None out Hf I) as [_ ->].
  - destruct Hf as (Hi & Ho & Hh). destruct (H3Frame.header_encode_encoding i Hi) as (n & b & -> & ->).
    rewrite H3Frame.append_encoding, <- len_app; [done|done|].
    rewrite <- len_app. unfold Varint.MAX. lia.
  - by rewrite H3Frame.append_integer_encoding.
  - by rewrite H3Frame.append_integer_encoding.
Qed.

Lemma payload_frame_payload f : frame_ok f -> payload_frame (frame_type_of f) (payload_of f) = Ok f.
Proof.
  assert (forall i, varint_ok i -> Varint.decode (Varint.encoding i) = Some (i, length (Varint.encoding i))) as Hd.
  { intros i Hi. rewrite <- (app_nil_r (Varint.encoding i)) at 1. by apply Varint.varint_decode_encoding. }
  destruct f as [h|i|s|i h|i|i]; intros Hf; cbn [frame_ok payload_of frame_type_of] in *;
    unfold payload_frame; cbn [Z.eqb Pos.eqb orb H3Frame.HEADERS H3Frame.CANCEL_PUSH H3Frame.SETTINGS
      H3Frame.PUSH_PROMISE H3Frame.GOAWAY H3Frame.MAX_PUSH_ID].
  - done.
  - rewrite Hd by done. cbn [ok_or]. by rewrite Nat.ltb_irrefl.
  - by rewrite settings_parse_encoding.
  - destruct Hf as (Hi & Ho & _). rewrite Varint.varint_decode_encoding by done. cbn. by rewrite drop_app_length.
  - rewrite Hd by done. cbn [ok_or]. by rewrite Nat.ltb_irrefl.
  - rewrite Hd by done. cbn [ok_or]. by rewrite Nat.ltb_irrefl.
Qed.

(** The limits of the decoder on a frame. *)
Definition within_limits (d : FrameDecoder) (f : Frame) : Prop :=
  match f with
  | Headers section => len section <= field_section (limits d)
  | PushPromise id section =>
      len (Varint.encoding id) + len section <= field_section (limits d) + PUSH_ID_BOUND
  | SettingsFrame s => len (payload_of f) <= settings (limits d)
  | _ => True
  end.

Definition limits_ok (d : FrameDecoder) : Prop := 0 <= field_section (limits d) < 2 ^ 63.

Lemma whole_encoding d f more next :
  frame_ok f ->
  whole d (frame_encoding f ++ more) (frame_type_of f) (len (payload_of f))
      (length (H3Frame.header_encoding (frame_type_of f) (len (payload_of f)))) next
    = Ok (with_sequence d next, StepFrame f (length (frame_encoding f))).
Proof.
  intros Hf. pose proof (payload_len_bound f Hf) as Hl. unfold whole, frame_encoding.
  set (h := H3Frame.header_encoding _ _). set (p := payload_of f) in *.
  assert (len h <= 16) as Hh.
  { unfold h, H3Frame.header_encoding. rewrite len_app.
    pose proof (varint_encoding_len (frame_type_of f) (frame_type_range f)).
    assert (varint_ok (len p)) as Hv by (unfold varint_ok, Varint.MAX, len in *; lia).
    apply varint_encoding_len in Hv. lia. }
  assert (saturating_add 64 (Z.of_nat (length h)) (len p) = len (h ++ p)) as ->.
  { rewrite len_app. unfold saturating_add, len in *. pow2. lia. }
  rewrite (proj2 (Z.ltb_ge _ _)) by (rewrite (len_app (h ++ p)); pose proof (len_nonneg more); lia).
  rewrite Nat.min_l by (unfold len; rewrite !length_app; lia).
  unfold len at 1. rewrite Nat2Z.id, take_app_length, drop_app_length.
  unfold p at 1. rewrite payload_frame_payload by done. unfold len. by rewrite Nat2Z.id.
Qed.

Lemma frame_encoding_frame d f more next :
  frame_ok f -> within_limits d f -> limits_ok d -> octets more ->
  check d (frame_type_of f) = Ok next ->
  frame d (frame_encoding f ++ more)
    = Ok (with_sequence d next, StepFrame f (length (frame_encoding f))).
Proof.
  intros Hf Hw Hlim Hm Hc. pose proof (payload_len_bound f Hf) as Hl.
  rewrite <- (whole_encoding d f more next Hf). unfold frame.
  unfold frame_encoding at 1. rewrite <- app_assoc.
  rewrite H3Frame.FrameHeader_parse_encoding;
    [| apply frame_type_range | unfold Varint.MAX, len in *; lia
     | apply Forall_app_2; [by apply payload_octets | done]].
  cbn [H3Frame.frame_type H3Frame.payload_len H3Frame.header_len]. rewrite Hc.
  destruct f as [h|i|s|i h|i|i]; cbn [frame_type_of] in *;
    cbn [frame_ok within_limits payload_of] in Hf, Hw; unfold limits_ok in Hlim;
    unfold held_limit, length_rule, PUSH_ID_BOUND in *;
    cbn [Z.eqb Pos.eqb orb andb negb H3Frame.is_known H3Frame.DATA H3Frame.HEADERS H3Frame.CANCEL_PUSH
      H3Frame.SETTINGS H3Frame.PUSH_PROMISE H3Frame.GOAWAY H3Frame.MAX_PUSH_ID].
  - by rewrite (proj2 (Z.ltb_ge _ _)) by (cbn [payload_of]; lia).
  - apply varint_encoding_len in Hf. cbn [payload_of] in *. by bool_lia.
  - by rewrite (proj2 (Z.ltb_ge _ _)) by (cbn [payload_of]; lia).
  - destruct Hf as (Hi%varint_encoding_len & _ & Hh). pose proof (len_nonneg h).
    cbn [payload_of] in *. rewrite (len_app (Varint.encoding i) h) in *.
    rewrite (proj2 (Z.eqb_neq _ _)) by lia.
    by rewrite (proj2 (Z.ltb_ge _ _)) by (unfold saturating_add; pow2; lia).
  - apply varint_encoding_len in Hf. cbn [payload_of] in *. by bool_lia.
  - apply varint_encoding_len in Hf. cbn [payload_of] in *. by bool_lia.
Qed.

(** ** The order of frames *)

Lemma payload_frame_type t payload f :
  payload_frame t payload = Ok f -> H3Frame.is_known t = true -> t <> H3Frame.DATA ->
  frame_type_of f = t.
Proof.
  unfold payload_frame. intros H Hk Hd.
  destruct (Z.eqb_spec t H3Frame.SETTINGS) as [->|]; [destruct (parse payload); [by injection H as <-|done]|].
  destruct (Z.eqb_spec t H3Frame.PUSH_PROMISE) as [->|].
  { destruct (Varint.decode payload) as [[]|]; [by injection H as <-|done]. }
  destruct (Z.eqb_spec t H3Frame.CANCEL_PUSH) as [->|].
  { destruct (Varint.decode payload) as [[]|]; [|done]. cbn -[Nat.ltb] in H. destruct (_ <? _)%nat; by inversion H. }
  destruct (Z.eqb_spec t H3Frame.GOAWAY) as [->|].
  { destruct (Varint.decode payload) as [[]|]; [|done]. cbn -[Nat.ltb] in H. destruct (_ <? _)%nat; by inversion H. }
  destruct (Z.eqb_spec t H3Frame.MAX_PUSH_ID) as [->|].
  { destruct (Varint.decode payload) as [[]|]; [|done]. cbn -[Nat.ltb] in H. destruct (_ <? _)%nat; by inversion H. }
  injection H as <-. cbn. unfold H3Frame.is_known, H3Frame.DATA, H3Frame.SETTINGS, H3Frame.PUSH_PROMISE,
    H3Frame.CANCEL_PUSH, H3Frame.GOAWAY, H3Frame.MAX_PUSH_ID, H3Frame.HEADERS in *.
  destruct t as [|p|p]; try done. do 4 (destruct p as [p|p|]; try done).
Qed.

(** What one accepted frame header does to the decoder. *)
Inductive accepts (d : FrameDecoder) (t : H3Frame.FrameType) (next : Sequence)
  : FrameDecoder -> list Event -> Prop :=
| accepts_data n : t = H3Frame.DATA ->
    accepts d t next (with_state (with_sequence d next) (InData n)) []
| accepts_unknown n : H3Frame.is_known t = false ->
    accepts d t next (with_state d (InDiscard n)) [SkippedFrame t n]
| accepts_oversized n : t = H3Frame.HEADERS \/ t = H3Frame.PUSH_PROMISE ->
    accepts d t next (with_state (with_sequence d next) (InDiscard n)) [OversizedFrame t n]
| accepts_frame f : frame_type_of f = t -> t <> H3Frame.DATA ->
    accepts d t next (with_sequence d next) [GotFrame f].

Lemma whole_accepts d input t n consumed next d' s ev m :
  whole d input t n consumed next = Ok (d', s) -> events s = Some (ev, m) ->
  H3Frame.is_known t = true -> t <> H3Frame.DATA -> accepts d t next d' ev.
Proof.
  unfold whole. destruct (_ <? _); [by intros [= <- <-]|].
  destruct (payload_frame _ _) as [f|] eqn:Hp; [|done]. intros [= <- <-] [= <- _] Hk Hd.
  apply accepts_frame; [|done]. by eapply payload_frame_type.
Qed.

Lemma frame_accepts d input d' s ev n :
  frame d input = Ok (d', s) -> events s = Some (ev, n) ->
  exists t next, check d t = Ok next /\ accepts d t next d' ev.
Proof.
  unfold frame. destruct (H3Frame.FrameHeader_parse input) as [h|]; [|by intros [= <- <-]].
  set (t := H3Frame.frame_type h). destruct (check d t) as [next|] eqn:Hc; [|done].
  intros H He. exists t, next. split; [done|]. revert H.
  destruct (Z.eqb_spec t H3Frame.DATA) as [Ht|Hd].
  { intros [= <- <-]. injection He as <- _. by constructor. }
  destruct (H3Frame.is_known t) eqn:Hk; cbn [negb].
  2: { intros [= <- <-]. injection He as <- _. by constructor. }
  unfold held_limit. destruct (Z.eqb_spec t H3Frame.HEADERS) as [->|Hh].
  { destruct (_ && _); [done|]. destruct (_ <? _).
    - intros [= <- <-]. injection He as <- _. constructor. by left.
    - intros H. by eapply whole_accepts. }
  destruct (Z.eqb_spec t H3Frame.PUSH_PROMISE) as [->|Hp].
  { destruct (_ && _); [done|]. destruct (_ <? _).
    - intros [= <- <-]. injection He as <- _. constructor. by right.
    - intros H. by eapply whole_accepts. }
  destruct (length_rule _ _ _); [|done]. intros H. by eapply whole_accepts.
Qed.

(** A step is a frame header that is accepted or a piece of a payload. *)
Lemma step_cases d input d' ev n :
  step d input = Ok (Some (d', ev, n)) ->
  (state d = InHeader /\ exists t next, check d t = Ok next /\ accepts d t next d' ev) \/
  (exists remaining, state d = InData remaining /\
     (exists left, d' = with_state d left /\ (left = InHeader \/ exists k, left = InData k)) /\
     Forall (fun e => e = DataEnd \/ exists o, e = DataOctet o) ev) \/
  (exists remaining, state d = InDiscard remaining /\
     (exists left, d' = with_state d left /\ (left = InHeader \/ exists k, left = InDiscard k)) /\
     Forall (fun e => e = DiscardedEnd \/ exists o, e = DiscardedOctet o) ev).
Proof.
  unfold step. destruct (decoder_decode_cases d) as [[Hst ->]|(r & b & Hst & ->)].
  { destruct (frame d input) as [[d1 s]|] eqn:Hf; [|done].
    destruct (events s) as [[ev1 n1]|] eqn:He; [|done]. intros [= <- <- <-]. left.
    split; [done|]. by eapply frame_accepts. }
  assert (forall (g : Z -> Event) l e (c : bool),
    Forall (fun x => x = e \/ exists o, x = g o) (map g l ++ ended c e)) as Hev.
  { intros g l e c. apply Forall_app_2; [|destruct c; cbn; auto].
    apply Forall_fmap, Forall_forall. intros o _. right. by exists o. }
  intros H. right. destruct b; [left|right]; exists r; (split; [done|]); revert H;
    unfold piece; destruct (_ && _); try done; cbn [events]; intros [= <- <- _];
    (split; [|apply Hev]); eexists; (split; [reflexivity|]); destruct (_ =? 0); eauto.
Qed.

(** *** The control stream *)

Definition control_event (e : Event) : Prop :=
  match e with
  | GotFrame (CancelPush _ | Goaway _ | MaxPushId _) | SkippedFrame _ _ | DiscardedOctet _
  | DiscardedEnd => True
  | _ => False
  end.

(** A control stream the decoder accepts says nothing, or SETTINGS once and first. *)
Definition control_events (ev : list Event) : Prop :=
  ev = [] \/ exists s rest, ev = GotFrame (SettingsFrame s) :: rest /\ Forall control_event rest.

Definition control_inv (d : FrameDecoder) : Prop :=
  kind d = KControl /\
  ((sequence d = AwaitSettings /\ state d = InHeader) \/
   (sequence d = OnControl /\ forall r, state d <> InData r)).

Definition control_shape (d : FrameDecoder) (ev : list Event) : Prop :=
  if decide (sequence d = AwaitSettings) then control_events ev else Forall control_event ev.

Lemma control_header d t next d' ev :
  control_inv d -> state d = InHeader -> check d t = Ok next -> accepts d t next d' ev ->
  control_inv d' /\ forall ev2, control_shape d' ev2 -> control_shape d (ev ++ ev2).
Proof.
  intros [Hk Hs] Hst Hc Ha. unfold check, allowed in Hc. rewrite Hk in Hc.
  unfold control_inv, control_shape. destruct Hs as [[Hs _]|[Hs _]]; rewrite Hs in *; cbn [bool_decide] in Hc.
  - rewrite bool_decide_eq_true_2 in Hc by done. cbn [andb] in Hc.
    destruct (Z.eqb_spec t H3Frame.SETTINGS) as [->|]; [|done].
    cbn in Hc. destruct (wrong_role _ _) eqn:Hw; [by destruct (role d)|]. injection Hc as <-.
    inversion Ha as [| | |f Hf _]; subst; try done; [by destruct H|].
    destruct f; try done. cbn. split; [split; [done|]; right; rewrite Hst; by split|].
    intros ev2 H2. right. eauto.
  - rewrite bool_decide_eq_false_2 in Hc by done. cbn [andb] in Hc.
    destruct (H3Frame.is_reserved_http2 t); [done|].
    destruct (H3Frame.is_known t) eqn:Hkn; cbn [negb] in Hc.
    + destruct (_ || _) eqn:Hal in Hc; cbn [negb] in Hc; [|done].
      destruct (wrong_role _ _); [done|]. cbn in Hc.
      destruct (Z.eqb_spec t H3Frame.SETTINGS) as [|Hns]; [done|]. injection Hc as <-.
      assert (t = H3Frame.CANCEL_PUSH \/ t = H3Frame.GOAWAY \/ t = H3Frame.MAX_PUSH_ID) as Ht.
      { rewrite !orb_true_iff, !Z.eqb_eq in Hal. naive_solver. }
      inversion Ha as [| | |f Hf _]; subst.
      * by destruct Ht as [Ht|[Ht|Ht]].
      * congruence.
      * destruct H as [H|H]; rewrite H in Ht; by destruct Ht as [Ht|[Ht|Ht]].
      * cbn [with_sequence kind sequence state]. split; [split; [done|]; right; rewrite Hst; by split|].
        intros ev2 H2. cbn in H2 |- *. constructor; [|done].
        destruct f; try done; by destruct Ht as [Ht|[Ht|Ht]].
    + injection Hc as <-. inversion Ha as [| | |f Hf _]; subst; try done.
      * cbn [with_state kind sequence state]. rewrite Hs. split; [split; [done|]; right; by split|].
        intros ev2 H2. cbn in H2 |- *. constructor; done.
      * by destruct H as [->| ->].
      * by destruct f.
Qed.

Lemma control_run d input d' ev n :
  control_inv d -> run step busy d input = Ok (d', ev, n) -> control_shape d ev.
Proof.
  intros Hi H. revert Hi. revert d input d' ev n H.
  refine (run_ind step busy (fun d ev d' => control_inv d -> control_shape d ev) _ _).
  - intros d _. unfold control_shape. case_decide; [by left|constructor].
  - intros d input d1 ev1 n d2 ev2 Hs IH Hi.
    destruct (step_cases _ _ _ _ _ Hs) as [(Hst & t & next & Hc & Ha)|[(r & Hst & _)|(r & Hst & Hl & He)]].
    + destruct (control_header _ _ _ _ _ Hi Hst Hc Ha) as [Hi' Hsh]. by apply Hsh, IH.
    + destruct Hi as [_ [[_ ?]|[_ Hn]]]; [congruence|]. by destruct (Hn r).
    + destruct Hi as [Hk [[_ ?]|[Hs' Hn]]]; [congruence|].
      unfold control_shape. rewrite Hs'. cbn. apply Forall_app_2.
      { eapply Forall_impl; [exact He|]. by intros e [->|[o ->]]. }
      destruct Hl as (left & -> & Hleft).
      assert (control_inv (with_state d left)) as Hi'.
      { split; [done|]. right. split; [done|]. cbn. by destruct Hleft as [->|[k ->]]. }
      specialize (IH Hi'). unfold control_shape in IH. cbn in IH. by rewrite Hs' in IH.
Qed.

(** *** A request stream, as a server reads it *)

Definition is_headers (e : Event) : bool :=
  match e with
  | GotFrame (Headers _) => true
  | OversizedFrame t _ => t =? H3Frame.HEADERS
  | _ => false
  end.
Definition is_data (e : Event) : bool := match e with DataOctet _ | DataEnd => true | _ => false end.

(** Frames of a request besides the message itself: what is skipped. *)
Definition is_skip (e : Event) : bool :=
  match e with SkippedFrame _ _ | DiscardedOctet _ | DiscardedEnd => true | _ => false end.

(** Content, then at most the trailers. *)
Definition body_shape (m : list Event) : Prop :=
  exists data trailers, m = data ++ trailers /\ Forall (fun e => is_data e = true) data /\
    (trailers = [] \/ exists h, trailers = [h] /\ is_headers h = true).

Definition request_shape (s : Sequence) (m : list Event) : Prop :=
  match s with
  | Start => m = [] \/ exists h rest, m = h :: rest /\ is_headers h = true /\ body_shape rest
  | Header | Body => body_shape m
  | _ => m = []
  end.

(** The message part of a run: everything that is not skipped. *)
Definition message (ev : list Event) : list Event := filter (fun e => is_skip e = false) ev.

Definition request_inv (d : FrameDecoder) : Prop :=
  kind d = KRequest /\ role d = Server /\ sequence d ∈ [Start; Header; Body; Trailers] /\
  (forall r, state d = InData r -> sequence d = Body).

Lemma body_shape_data e m : is_data e = true -> body_shape m -> body_shape (e :: m).
Proof. intros He (data & tr & -> & Hd & Ht). exists (e :: data), tr. split; [done|]. split; [by constructor|done]. Qed.

Lemma body_shape_trailers h : is_headers h = true -> body_shape [h].
Proof. intros Hh. exists [], [h]. split; [done|]. split; [constructor|]. right. by exists h. Qed.

Lemma message_app a b : message (a ++ b) = message a ++ message b.
Proof. apply filter_app. Qed.

Lemma message_skip ev : Forall (fun e => is_skip e = true) ev -> message ev = [].
Proof.
  induction 1 as [|e ev He _ IH]; [done|]. unfold message. rewrite filter_cons_False by congruence. done.
Qed.

Lemma request_header d t next d' ev :
  request_inv d -> state d = InHeader -> check d t = Ok next -> accepts d t next d' ev ->
  request_inv d' /\
  forall m, request_shape (sequence d') m -> request_shape (sequence d) (message ev ++ m).
Proof.
  intros (Hk & Hr & Hs & _) Hst Hc Ha. unfold check, allowed, wrong_role in Hc. rewrite Hk, Hr in Hc.
  assert (sequence d <> AwaitSettings) as Hna.
  { intros Heq. rewrite Heq, !elem_of_cons, elem_of_nil in Hs. by repeat destruct Hs as [Hs|Hs]. }
  rewrite bool_decide_eq_false_2 in Hc by done. cbn [andb] in Hc.
  destruct (H3Frame.is_reserved_http2 t); [done|].
  destruct (H3Frame.is_known t) eqn:Hkn; cbn [negb] in Hc.
  2: { injection Hc as <-. inversion Ha as [| | |f Hf _]; subst; try done.
       - by destruct H as [->| ->].
       - by destruct f. }
  assert (t = H3Frame.DATA \/ t = H3Frame.HEADERS) as Ht.
  { destruct (Z.eqb_spec t H3Frame.DATA); [by left|]. destruct (Z.eqb_spec t H3Frame.HEADERS); [by right|].
    destruct (Z.eqb_spec t H3Frame.PUSH_PROMISE); done. }
  assert (request_inv (with_sequence d next) /\ (t = H3Frame.DATA -> next = Body /\
    (sequence d = Header \/ sequence d = Body)) /\ (t = H3Frame.HEADERS ->
    (sequence d = Start /\ next = Header) \/
    ((sequence d = Header \/ sequence d = Body) /\ next = Trailers))) as (Hi & HD & HH).
  { unfold request_inv. cbn [with_sequence kind role sequence state]. rewrite Hst.
    rewrite !elem_of_cons, elem_of_nil in Hs.
    destruct Ht as [->| ->]; cbn in Hc; destruct Hs as [Hs|[Hs|[Hs|[Hs|[]]]]]; rewrite Hs in *;
      try done; injection Hc as <-;
      (split; [repeat (split; [done|]); split; [by apply (bool_decide_unpack _)|done]|]);
      naive_solver. }
  inversion Ha as [k Hd|k Hu|k Ho|f Hf Hne]; subst d' ev.
  - destruct (HD Hd) as [-> Hseq]. split.
    + destruct Hi as (? & ? & Hin & _). repeat (split; [done|]). done.
    + intros m Hm. cbn in Hm |- *. destruct Hseq as [->| ->]; done.
  - congruence.
  - destruct Ho as [Ho|Ho]; [|rewrite Ho in Ht; by destruct Ht]. split.
    + destruct Hi as (? & ? & Hin & _). repeat (split; [done|]). done.
    + subst t. intros m Hm. cbn [with_state with_sequence sequence] in Hm. cbn.
      destruct (HH eq_refl) as [[-> ->]|[[->| ->] ->]]; cbn in Hm |- *.
      * right. by eexists _, _.
      * subst m. by apply body_shape_trailers.
      * subst m. by apply body_shape_trailers.
  - destruct Ht as [Ht|Ht]; [done|]. split; [done|]. rewrite Ht in Hf.
    destruct f; try done. intros m Hm. cbn [with_sequence sequence] in Hm. cbn.
    destruct (HH Ht) as [[-> ->]|[[->| ->] ->]]; cbn in Hm |- *.
    + right. by eexists _, _.
    + subst m. by apply body_shape_trailers.
    + subst m. by apply body_shape_trailers.
Qed.

Lemma request_run d input d' ev n :
  request_inv d -> run step busy d input = Ok (d', ev, n) ->
  request_shape (sequence d) (message ev).
Proof.
  intros Hi H. revert Hi. revert d input d' ev n H.
  refine (run_ind step busy (fun d ev d' => request_inv d -> request_shape (sequence d) (message ev)) _ _).
  - intros d (_ & _ & Hs & _). change (message []) with (@nil Event).
    assert (body_shape []) by (exists [], []; split; [done|]; split; [constructor|by left]).
    rewrite !elem_of_cons, elem_of_nil in Hs.
    destruct Hs as [->|[->|[->|[->|[]]]]]; cbn; [by left|done..].
  - intros d input d1 ev1 n d2 ev2 Hs IH Hi. rewrite message_app.
    destruct (step_cases _ _ _ _ _ Hs) as [(Hst & t & next & Hc & Ha)|[(r & Hst & Hl & He)|(r & Hst & Hl & He)]].
    + destruct (request_header _ _ _ _ _ Hi Hst Hc Ha) as [Hi' Hsh]. by apply Hsh, IH.
    + destruct Hl as (lft & -> & Hleft). destruct Hi as (Hk & Hr & Hin & Hb). pose proof (Hb r Hst) as Hseq.
      assert (request_inv (with_state d lft)) as Hi' by (repeat (split; [done|]); by intros).
      specialize (IH Hi'). cbn [with_state sequence] in IH. rewrite Hseq in *. cbn [request_shape] in *.
      clear -He IH. induction He as [|e ev1 Hd _ IHe]; [done|].
      unfold message. rewrite filter_cons_True by (by destruct Hd as [->|[o ->]]).
      apply body_shape_data; [by destruct Hd as [->|[o ->]]|]. exact IHe.
    + destruct Hl as (lft & -> & Hleft). destruct Hi as (Hk & Hr & Hin & Hb).
      assert (request_inv (with_state d lft)) as Hi'.
      { repeat (split; [done|]). cbn. intros k ->. by destruct Hleft as [|[]]. }
      rewrite (message_skip ev1); [by apply IH|].
      eapply Forall_impl; [exact He|]. by intros e [->|[o ->]].
Qed.

(** ** The decoder never waits for more than a flow-control window

    What a decoder leaves unread the transport has to hold, and a peer may only
    send as many octets as the window has room for: a decoder that waited for a
    whole window would wait for ever. *)

Lemma from_limits_bounds l :
  24 <= Limits.http3_stream_data l < 2 ^ 64 -> 0 <= Limits.http3_max_field_section_size l ->
  0 <= field_section (from_limits l) <= Limits.http3_stream_data l - 24 /\
  0 <= settings (from_limits l) <= Limits.http3_stream_data l - 16.
Proof.
  intros Hw Hf. unfold from_limits, min, encoded_field_section_bound, saturating_add, saturating_mul,
    saturating_sub, HEADER_BOUND, PUSH_ID_BOUND, SETTINGS_PAYLOAD_LIMIT. cbn [field_section settings].
  split; case_match; word_lia.
Qed.

Lemma whole_waits d input t n consumed next d' c :
  whole d input t n consumed next = Ok (d', NeedMore c) -> len input < Z.of_nat consumed + n.
Proof.
  unfold whole. destruct (Z.ltb_spec (len input) (saturating_add 64 (Z.of_nat consumed) n)) as [Hl|].
  - intros _. unfold saturating_add in Hl. lia.
  - by destruct (payload_frame _ _).
Qed.

Lemma frame_waits d input d' c w :
  octets input -> frame d input = Ok (d', NeedMore c) ->
  24 <= w -> 0 <= field_section (limits d) <= w - 24 -> settings (limits d) <= w - 16 ->
  len input < w.
Proof.
  intros Ho H Hw Hf Hs. unfold frame in H.
  destruct (H3Frame.FrameHeader_parse input) as [h|] eqn:Hh.
  2: { destruct (Nat.le_gt_cases H3Frame.MAX_HEADER_LEN (length input)) as [Hl|Hl].
       - apply H3Frame.FrameHeader_parse_prompt in Hl; [|done]. rewrite Hh in Hl. by destruct Hl.
       - unfold H3Frame.MAX_HEADER_LEN, len in *. lia. }
  apply H3Frame.FrameHeader_parse_range in Hh as (_ & Hl & Hc). unfold H3Frame.MAX_HEADER_LEN in Hc.
  set (t := H3Frame.frame_type h) in *. set (k := H3Frame.payload_len h) in *.
  destruct (check d t) as [next|] eqn:Hck; [|done].
  destruct (t =? H3Frame.DATA) eqn:Hd; [done|].
  destruct (H3Frame.is_known t) eqn:Hkn; cbn [negb] in H; [|done].
  unfold held_limit, length_rule in H.
  destruct (Z.eqb_spec t H3Frame.HEADERS) as [Ht|Hnh].
  { destruct (_ && _); [done|]. destruct (Z.ltb_spec (field_section (limits d)) k); [done|].
    apply whole_waits in H. lia. }
  destruct (Z.eqb_spec t H3Frame.PUSH_PROMISE) as [Ht|Hnp].
  { destruct (_ && _); [done|].
    destruct (Z.ltb_spec (saturating_add 64 (field_section (limits d)) PUSH_ID_BOUND) k); [done|].
    apply whole_waits in H. unfold saturating_add, PUSH_ID_BOUND in *. lia. }
  destruct (Z.eqb_spec t H3Frame.SETTINGS) as [Ht|Hns].
  { cbn [andb] in H. destruct (Z.ltb_spec (settings (limits d)) k); [done|].
    assert ((t =? H3Frame.CANCEL_PUSH) || (t =? H3Frame.GOAWAY) || (t =? H3Frame.MAX_PUSH_ID) = false)
      as Hid by (by rewrite Ht). rewrite Hid in H. apply whole_waits in H. lia. }
  assert ((t =? H3Frame.CANCEL_PUSH) || (t =? H3Frame.GOAWAY) || (t =? H3Frame.MAX_PUSH_ID) = true) as Hid.
  { revert Hkn Hd Hnh Hnp Hns. unfold H3Frame.is_known, H3Frame.DATA, H3Frame.SETTINGS,
      H3Frame.PUSH_PROMISE, H3Frame.CANCEL_PUSH, H3Frame.GOAWAY, H3Frame.MAX_PUSH_ID, H3Frame.HEADERS.
    clear. destruct t as [|p|p]; try done. do 4 (destruct p as [p|p|]; try done). }
  cbn [andb] in H. rewrite Hid in H. destruct (k =? 0); [done|]. unfold PUSH_ID_BOUND in H.
  destruct (Z.ltb_spec 8 k); [done|]. apply whole_waits in H. lia.
Qed.

Lemma decode_waits d input d' c w :
  octets input -> decode d input = Ok (d', NeedMore c) ->
  24 <= w -> 0 <= field_section (limits d) <= w - 24 -> settings (limits d) <= w - 16 ->
  len input < w.
Proof.
  intros Ho. destruct (decoder_decode_cases d) as [[_ ->]|(r & b & _ & ->)]; [by apply frame_waits|].
  intros [= H] ? _ _. destruct (decide (input = [])) as [->|Hne]; [unfold len; cbn [length]; lia|].
  unfold piece in H. rewrite (bool_decide_eq_false_2 _ Hne), andb_false_r in H. by destruct b.
Qed.

Lemma run_limits d input d' ev n : run step busy d input = Ok (d', ev, n) -> limits d' = limits d.
Proof.
  revert d input d' ev n.
  refine (run_ind step busy (fun d ev d' => limits d' = limits d) _ _); [done|].
  intros d input d1 ev1 n d2 ev2 Hs ->.
  destruct (step_cases _ _ _ _ _ Hs) as [(_ & t & next & _ & Ha)|[(r & _ & Hl & _)|(r & _ & Hl & _)]].
  - by destruct Ha.
  - by destruct Hl as (l & -> & _).
  - by destruct Hl as (l & -> & _).
Qed.

Lemma decoder_run_waits d input d' ev n w :
  octets input -> run step busy d input = Ok (d', ev, n) ->
  24 <= w -> 0 <= field_section (limits d) <= w - 24 -> settings (limits d) <= w - 16 ->
  len (drop n input) < w.
Proof.
  intros Ho Hr Hw Hf Hs. pose proof (run_waiting _ _ _ _ _ _ _ Hr) as Ha.
  rewrite <- (run_limits _ _ _ _ _ Hr) in Hf, Hs. unfold step in Ha.
  destruct (decode d' (drop n input)) as [[d1 s]|] eqn:Hd; [|done].
  destruct (events s) as [[ev1 n1]|] eqn:He; [done|]. destruct s; try done.
  eapply decode_waits; [by apply Forall_drop | exact Hd | done..].
Qed.

(** ** A stream that was written reads back, however it is cut

    What an endpoint writes on a stream: whole frames, DATA frames whose header is
    written first and whose content follows, and reserved frames. *)

Inductive Item : Type :=
| WholeFrame (f : Frame)
| Content (body : bytes)
| ReservedFrame (n : Z) (payload : bytes).

Definition item_write (i : Item) (out : bytes) : option bytes :=
  match i with
  | WholeFrame f => Frame_encode f out
  | Content body => let! out := H3Frame.encode_data_header (len body) out in Some (out ++ body)
  | ReservedFrame n payload => H3Frame.encode_reserved n payload out
  end.

Fixpoint write_items (items : list Item) (out : bytes) : option bytes :=
  match items with
  | [] => Some out
  | i :: items => let! out := item_write i out in write_items items out
  end.

Definition item_type (i : Item) : H3Frame.FrameType :=
  match i with
  | WholeFrame f => frame_type_of f
  | Content _ => H3Frame.DATA
  | ReservedFrame n _ => 0x1F * n + 0x21
  end.

Definition item_events (i : Item) : list Event :=
  match i with
  | WholeFrame f => [GotFrame f]
  | Content body => map DataOctet body ++ [DataEnd]
  | ReservedFrame n payload =>
      SkippedFrame (0x1F * n + 0x21) (len payload) :: map DiscardedOctet payload ++ [DiscardedEnd]
  end.

Definition item_ok (d : FrameDecoder) (i : Item) : Prop :=
  match i with
  | WholeFrame f => frame_ok f /\ within_limits d f
  | Content body => octets body /\ len body <= 2 ^ 60
  | ReservedFrame n payload => 0 <= n <= H3Frame.MAX_N /\ octets payload /\ len payload <= 2 ^ 60
  end.

(** The items are within the limits and in an order the stream allows. *)
Fixpoint items_ok (d : FrameDecoder) (items : list Item) : Prop :=
  match items with
  | [] => True
  | i :: items =>
      item_ok d i /\ exists next, check d (item_type i) = Ok next /\ items_ok (with_sequence d next) items
  end.

Definition item_encoding (i : Item) : bytes :=
  match i with
  | WholeFrame f => frame_encoding f
  | Content body => H3Frame.header_encoding H3Frame.DATA (len body) ++ body
  | ReservedFrame n payload => H3Frame.header_encoding (0x1F * n + 0x21) (len payload) ++ payload
  end.

Lemma item_write_encoding d i out : item_ok d i -> item_write i out = Some (out ++ item_encoding i).
Proof.
  destruct i as [f|body|n payload]; cbn [item_ok item_write item_encoding].
  - intros [Hf _]. by apply Frame_encode_encoding.
  - intros [_ Hl]. unfold H3Frame.encode_data_header.
    rewrite H3Frame.FrameHeader_encode_encoding by (unfold H3Frame.DATA, Varint.MAX, len in *; lia).
    by rewrite <- app_assoc.
  - intros (Hn & _ & Hl). unfold H3Frame.encode_reserved. rewrite H3Frame.reserved_value by done.
    unfold H3Frame.MAX_N in Hn.
    rewrite H3Frame.append_encoding by (unfold Varint.MAX, len in *; cbn [length]; lia).
    by rewrite app_nil_r, Z.add_0_r.
Qed.

Lemma item_encoding_octets d i : item_ok d i -> octets (item_encoding i).
Proof.
  destruct i as [f|body|n payload]; cbn [item_ok item_encoding]; intros H;
    (apply Forall_app_2; [apply H3Frame.header_encoding_octets|]); [apply payload_octets; tauto|tauto..].
Qed.

Lemma with_sequence_id d : with_sequence d (sequence d) = d.
Proof. by destruct d. Qed.

(** A payload handed out in pieces, when all of it is there. *)
Lemma run_payload d n (data : bool) body more :
  n = len body -> state d = (if data then InData n else InDiscard n) ->
  run step busy d (body ++ more) =
    (let? (d', ev, m) := run step busy (with_state d InHeader) more in
     Ok (d', (if data then map DataOctet body ++ [DataEnd] else map DiscardedOctet body ++ [DiscardedEnd])
             ++ ev, (length body + m)%nat)).
Proof.
  intros -> Hst. rewrite (run_step step busy). unfold step at 1. rewrite (decode_piece _ _ _ _ Hst).
  rewrite decoder_piece_full by (rewrite len_app; pose proof (len_nonneg more); lia).
  unfold len. rewrite Nat2Z.id, take_app_length.
  destruct data; cbn [events ended]; rewrite drop_app_length; done.
Qed.

Lemma run_item d i next more :
  state d = InHeader -> limits_ok d -> item_ok d i -> octets more ->
  check d (item_type i) = Ok next ->
  run step busy d (item_encoding i ++ more) =
    (let? (d', ev, m) := run step busy (with_sequence d next) more in
     Ok (d', item_events i ++ ev, (length (item_encoding i) + m)%nat)).
Proof.
  intros Hst Hlim Hi Hm Hc. destruct (decoder_decode_cases d) as [[_ Hd]|(r & [] & Hr & _)]; [|congruence..].
  destruct i as [f|body|n payload]; cbn [item_ok item_type item_encoding item_events] in *.
  - destruct Hi as [Hf Hw]. rewrite (run_step step busy). unfold step at 1. rewrite Hd.
    rewrite (frame_encoding_frame d f more next) by done. cbn [events]. by rewrite drop_app_length.
  - destruct Hi as [Ho Hl]. rewrite <- app_assoc, (run_step step busy). unfold step at 1. rewrite Hd. unfold frame.
    rewrite H3Frame.FrameHeader_parse_encoding;
      [| done | unfold Varint.MAX, len in *; lia | by apply Forall_app_2].
    cbn [H3Frame.frame_type H3Frame.payload_len H3Frame.header_len]. rewrite Hc. cbn [Z.eqb H3Frame.DATA events].
    cbn [map app ended]. rewrite drop_app_length.
    rewrite (run_payload _ (len body) true) by done.
    replace (with_state (with_state (with_sequence d next) (InData (len body))) InHeader)
      with (with_sequence d next) by (unfold with_state, with_sequence; cbn; by rewrite Hst).
    destruct (run step busy (with_sequence d next) more) as [[[d' ev] m]|]; [|done].
    rewrite length_app. do 2 f_equal. lia.
  - destruct Hi as (Hn & Ho & Hl). unfold H3Frame.MAX_N in Hn.
    destruct (H3Frame.is_reserved_unknown (0x1F * n + 0x21)) as [Hk Hh].
    { apply H3Frame.is_reserved_form; [lia|]. exists n. unfold H3Frame.MAX_N. lia. }
    rewrite <- app_assoc, (run_step step busy). unfold step at 1. rewrite Hd. unfold frame.
    rewrite H3Frame.FrameHeader_parse_encoding;
      [| unfold Varint.MAX; lia | unfold Varint.MAX, len in *; lia | by apply Forall_app_2].
    cbn [H3Frame.frame_type H3Frame.payload_len H3Frame.header_len]. rewrite Hc, Hk.
    rewrite (proj2 (Z.eqb_neq _ H3Frame.DATA)) by (unfold H3Frame.DATA; lia). cbn [negb events].
    rewrite drop_app_length. rewrite (run_payload _ (len payload) false) by done.
    assert (next = sequence d) as ->.
    { unfold check in Hc. rewrite Hh, Hk in Hc. destruct (_ && _); [done|]. by injection Hc. }
    rewrite with_sequence_id.
    replace (with_state (with_state d (InDiscard (len payload))) InHeader) with d
      by (unfold with_state; cbn; rewrite <- Hst; by destruct d).
    destruct (run step busy d more) as [[[d' ev] m]|]; [|done].
    rewrite length_app. do 2 f_equal. lia.
Qed.

Definition items_encoding (items : list Item) : bytes := mbind item_encoding items.

Lemma items_encoding_cons i items :
  items_encoding (i :: items) = item_encoding i ++ items_encoding items.
Proof. done. Qed.

Lemma item_ok_sequence d next i : item_ok (with_sequence d next) i <-> item_ok d i.
Proof. by destruct i as [[]| |]. Qed.

Lemma items_ok_octets d items : items_ok d items -> octets (items_encoding items).
Proof.
  revert d. induction items as [|i items IH]; intros d; [constructor|].
  intros (Hi & next & _ & Hr). rewrite items_encoding_cons.
  apply Forall_app_2; [by eapply item_encoding_octets | by eapply IH].
Qed.

Lemma write_items_encoding d items out :
  items_ok d items -> write_items items out = Some (out ++ items_encoding items).
Proof.
  revert d out. induction items as [|i items IH]; intros d out; cbn [items_ok write_items].
  - by rewrite app_nil_r.
  - intros (Hi & next & _ & Hr). rewrite (item_write_encoding d) by done.
    by rewrite (IH _ _ Hr), items_encoding_cons, app_assoc.
Qed.

Lemma run_items d items :
  state d = InHeader -> limits_ok d -> items_ok d items ->
  exists d', state d' = InHeader /\
    run step busy d (items_encoding items)
      = Ok (d', mbind item_events items, length (items_encoding items)).
Proof.
  revert d. induction items as [|i items IH]; intros d Hst Hlim; cbn [items_ok].
  - intros _. exists d. split; [done|]. rewrite (run_step step busy). unfold step.
    destruct (decoder_decode_cases d) as [[_ ->]|(r & [] & Hr & _)]; [done|congruence..].
  - intros (Hi & next & Hc & Hr).
    destruct (IH (with_sequence d next) Hst Hlim Hr) as (d' & Hst' & Hrun).
    exists d'. split; [done|]. rewrite items_encoding_cons.
    rewrite (run_item d i next) by (done || by eapply items_ok_octets).
    rewrite Hrun, length_app. done.
Qed.

(** ** Properties *)

(** C10. What an endpoint writes on a stream is what its peer's decoder reports, however
    QUIC cuts the octets: frames come out whole and equal, content octet for octet with
    its end marked, reserved frames as skipped, in the order written and with nothing
    left over. *)
Theorem stream_delivered kind role limits items chunks out :
  let d := new kind role limits in
  limits_ok d -> items_ok d items -> concat chunks = items_encoding items ->
  write_items items out = Some (out ++ concat chunks) /\
  exists d', state d' = InHeader /\
    deliver step busy d [] chunks = Ok (d', mbind item_events items, []).
Proof.
  intros d Hlim Hi Hch. rewrite Hch. split; [by apply (write_items_encoding d)|].
  destruct (run_items d items eq_refl Hlim Hi) as (d' & Hst & Hr). exists d'. split; [done|].
  rewrite (deliver_concat step busy) by reflexivity. cbn [app]. by rewrite Hch, Hr, drop_all.
Qed.

Lemma stream_delivered_witness :
  let d := new KRequest Server DEFAULT in
  write_items [WholeFrame (Headers [0xd1]); ReservedFrame 0 [7]; Content [104; 105]] []
    = Some ([] ++ concat [[1]; [1; 0xd1; 0x21]; [1; 7; 0]; [2; 104]; []; [105]]) /\
  exists d', state d' = InHeader /\
    deliver step busy d [] [[1]; [1; 0xd1; 0x21]; [1; 7; 0]; [2; 104]; []; [105]]
      = Ok (d', [GotFrame (Headers [0xd1]); SkippedFrame 0x21 1; DiscardedOctet 7; DiscardedEnd;
                 DataOctet 104; DataOctet 105; DataEnd], []).
Proof.
  apply (stream_delivered KRequest Server DEFAULT
    [WholeFrame (Headers [0xd1]); ReservedFrame 0 [7]; Content [104; 105]]).
  - vm_compute. split; [discriminate|reflexivity].
  - split.
    { split; [split; [by apply (bool_decide_unpack _)|discriminate]|]. vm_compute. discriminate. }
    exists Header. split; [reflexivity|]. split.
    { split; [split; discriminate|]. split; [by apply (bool_decide_unpack _)|discriminate]. }
    exists Header. split; [reflexivity|]. split.
    { split; [by apply (bool_decide_unpack _)|discriminate]. }
    exists Body. split; [reflexivity|exact I].
  - reflexivity.
Defined.

(** C20. Where the transport cuts the octets does not matter for any input, well-formed
    or not: the events, the error and the octets left are those of one delivery. *)
Theorem chunks_do_not_matter kind role limits chunks :
  let d := new kind role limits in
  deliver step busy d [] chunks =
    (let? (d', ev, n) := run step busy d (concat chunks) in Ok (d', ev, drop n (concat chunks))).
Proof. intros d. by rewrite (deliver_concat step busy) by reflexivity. Qed.

(** C16. A server's decoder only lets a request through in the order RFC 9114 Section
    4.1 gives: whatever the octets, apart from skipped frames the events are nothing,
    or one field section, then content, then at most one more field section. *)
Theorem request_order limits input d ev n :
  run step busy (new KRequest Server limits) input = Ok (d, ev, n) ->
  let m := message ev in
  m = [] \/ exists h content trailers, m = h :: content ++ trailers /\ is_headers h = true /\
    Forall (fun e => is_data e = true) content /\
    (trailers = [] \/ exists t, trailers = [t] /\ is_headers t = true).
Proof.
  intros H. apply request_run in H; [|repeat (split; [done|]); split; [left|done]].
  destruct H as [->|(h & rest & -> & Hh & c & t & -> & Hc & Ht)]; [by left|].
  right. by exists h, c, t.
Qed.

Lemma request_order_witness :
  let m := message [GotFrame (Headers []); DataOctet 5; DataEnd] in
  m = [] \/ exists h content trailers, m = h :: content ++ trailers /\ is_headers h = true /\
    Forall (fun e => is_data e = true) content /\
    (trailers = [] \/ exists t, trailers = [t] /\ is_headers t = true).
Proof.
  apply (request_order DEFAULT [1; 0; 0; 1; 5]
    (MkFrameDecoder KRequest Server DEFAULT InHeader Body) _ 5).
  vm_compute. reflexivity.
Defined.

(** On a control stream SETTINGS comes first and once: whatever the octets, the
    events are nothing, or SETTINGS followed by CANCEL_PUSH, GOAWAY, MAX_PUSH_ID and
    skipped frames only. *)
Theorem control_settings_first role limits input d ev n :
  run step busy (new KControl role limits) input = Ok (d, ev, n) -> control_events ev.
Proof.
  intros H. apply control_run in H; [exact H|]. split; [done|]. by left.
Qed.

Lemma control_settings_first_witness :
  control_events [GotFrame (SettingsFrame EMPTY); GotFrame (MaxPushId 9)].
Proof.
  apply (control_settings_first Server DEFAULT [4; 0; 0x0d; 1; 9]
    (MkFrameDecoder KControl Server DEFAULT InHeader OnControl) _ 5).
  vm_compute. reflexivity.
Defined.

(** C19. A decoder set up from the configured limits never waits for more octets than
    fit the stream's flow-control window, so a peer that fills the window always gets
    an answer: what a run leaves unread is shorter than the window. *)
Theorem window_never_deadlocks kind role l input d ev n :
  24 <= Limits.http3_stream_data l < 2 ^ 64 -> 0 <= Limits.http3_max_field_section_size l ->
  octets input ->
  run step busy (new kind role (from_limits l)) input = Ok (d, ev, n) ->
  len (drop n input) < Limits.http3_stream_data l.
Proof.
  intros Hw Hf Ho Hr. destruct (from_limits_bounds l Hw Hf) as [Hb [_ Hs]].
  eapply decoder_run_waits; [done | exact Hr | lia | exact Hb | exact Hs].
Qed.

Lemma window_never_deadlocks_witness :
  len (drop 0 [1; 0x44]) < Limits.http3_stream_data Limits.Http3Limits_DEFAULT.
Proof.
  apply (window_never_deadlocks KRequest Server Limits.Http3Limits_DEFAULT [1; 0x44]
    (new KRequest Server DEFAULT) [] 0).
  - split; [discriminate|reflexivity].
  - discriminate.
  - by apply (bool_decide_unpack _).
  - vm_compute. reflexivity.
Defined.
