(* ===== verification/HttpTypes.v ===== *)
(** * Methods, status codes and field names

    [zero-http-types]: the tables of [method.rs], [status.rs] and [header.rs] with
    their lookups.  A [StatusCode] is its number; a method or a field name the tables know
    is a constructor. *)
From S2P Require Import Prelude Scalar.

(** ** Methods *)

Inductive Method : Type :=
| Get | Head | Post | Put | Delete | Connect | Options | Trace | Patch.

#[global] Instance Method_eq_dec : EqDecision Method.
Proof. solve_decision. Defined.

Definition Method_ALL : list Method :=
  [Get; Head; Post; Put; Delete; Connect; Options; Trace; Patch].

Definition Method_id (m : Method) : Z :=
  match m with
  | Get => 0 | Head => 1 | Post => 2 | Put => 3 | Delete => 4 | Connect => 5 | Options => 6
  | Trace => 7 | Patch => 8
  end.

Definition Method_from_id (id : Z) : option Method :=
  match id with
  | 0 => Some Get | 1 => Some Head | 2 => Some Post | 3 => Some Put | 4 => Some Delete
  | 5 => Some Connect | 6 => Some Options | 7 => Some Trace | 8 => Some Patch
  | _ => None
  end.

Definition Method_as_str (m : Method) : bytes :=
  match m with
  | Get => bs "GET" | Head => bs "HEAD" | Post => bs "POST" | Put => bs "PUT"
  | Delete => bs "DELETE" | Connect => bs "CONNECT" | Options => bs "OPTIONS"
  | Trace => bs "TRACE" | Patch => bs "PATCH"
  end.

Definition Method_parse (token : bytes) : option Method :=
  if bool_decide (token = bs "GET") then Some Get
  else if bool_decide (token = bs "HEAD") then Some Head
  else if bool_decide (token = bs "POST") then Some Post
  else if bool_decide (token = bs "PUT") then Some Put
  else if bool_decide (token = bs "DELETE") then Some Delete
  else if bool_decide (token = bs "CONNECT") then Some Connect
  else if bool_decide (token = bs "OPTIONS") then Some Options
  else if bool_decide (token = bs "TRACE") then Some Trace
  else if bool_decide (token = bs "PATCH") then Some Patch
  else None.

Definition is_safe (m : Method) : bool :=
  match m with Get | Head | Options | Trace => true | _ => false end.
Definition is_idempotent (m : Method) : bool :=
  is_safe m || match m with Put | Delete => true | _ => false end.

(** ** Status codes *)

Abbreviation StatusCode := Z.

(** The table of [status_codes!]. *)
Definition STATUS_TABLE : list (StatusCode * string) := [
  (100, "Continue"%string);
  (101, "Switching Protocols"%string);
  (200, "OK"%string);
  (201, "Created"%string);
  (202, "Accepted"%string);
  (203, "Non-Authoritative Information"%string);
  (204, "No Content"%string);
  (205, "Reset Content"%string);
  (206, "Partial Content"%string);
  (300, "Multiple Choices"%string);
  (301, "Moved Permanently"%string);
  (302, "Found"%string);
  (303, "See Other"%string);
  (304, "Not Modified"%string);
  (305, "Use Proxy"%string);
  (307, "Temporary Redirect"%string);
  (308, "Permanent Redirect"%string);
  (400, "Bad Request"%string);
  (401, "Unauthorized"%string);
  (402, "Payment Required"%string);
  (403, "Forbidden"%string);
  (404, "Not Found"%string);
  (405, "Method Not Allowed"%string);
  (406, "Not Acceptable"%string);
  (407, "Proxy Authentication Required"%string);
  (408, "Request Timeout"%string);
  (409, "Conflict"%string);
  (410, "Gone"%string);
  (411, "Length Required"%string);
  (412, "Precondition Failed"%string);
  (413, "Content Too Large"%string);
  (414, "URI Too Long"%string);
  (415, "Unsupported Media Type"%string);
  (416, "Range Not Satisfiable"%string);
  (417, "Expectation Failed"%string);
  (421, "Misdirected Request"%string);
  (422, "Unprocessable Content"%string);
  (426, "Upgrade Required"%string);
  (500, "Internal Server Error"%string);
  (501, "Not Implemented"%string);
  (502, "Bad Gateway"%string);
  (503, "Service Unavailable"%string);
  (504, "Gateway Timeout"%string);
  (505, "HTTP Version Not Supported"%string)].

Definition CONTINUE : StatusCode := 100.
Definition OK : StatusCode := 200.
Definition SWITCHING_PROTOCOLS : StatusCode := 101.
Definition NO_CONTENT : StatusCode := 204.
Definition NOT_MODIFIED : StatusCode := 304.
Definition BAD_REQUEST : StatusCode := 400.
Definition UNAUTHORIZED : StatusCode := 401.
Definition NOT_FOUND : StatusCode := 404.
Definition METHOD_NOT_ALLOWED : StatusCode := 405.
Definition REQUEST_TIMEOUT : StatusCode := 408.
Definition CONTENT_TOO_LARGE : StatusCode := 413.
Definition URI_TOO_LONG : StatusCode := 414.
Definition EXPECTATION_FAILED : StatusCode := 417.
Definition MISDIRECTED_REQUEST : StatusCode := 421.
Definition UPGRADE_REQUIRED : StatusCode := 426.
Definition INTERNAL_SERVER_ERROR : StatusCode := 500.
Definition NOT_IMPLEMENTED : StatusCode := 501.
Definition SERVICE_UNAVAILABLE : StatusCode := 503.
Definition GATEWAY_TIMEOUT : StatusCode := 504.
Definition HTTP_VERSION_NOT_SUPPORTED : StatusCode := 505.

Definition StatusCode_new (code : Z) : option StatusCode :=
  if (100 <=? code) && (code <=? 599) then Some code else None.

Inductive StatusClass : Type :=
| Informational | Successful | Redirection | ClientError | ServerError.

Definition class (self : StatusCode) : StatusClass :=
  match self / 100 with
  | 1 => Informational | 2 => Successful | 3 => Redirection | 4 => ClientError | _ => ServerError
  end.

Definition class_default (self : StatusCode) : StatusCode := saturating_mul 16 (self / 100) 100.

Definition canonical_reason (self : StatusCode) : option string :=
  snd <$> (list_find (fun entry => entry.1 = self) STATUS_TABLE ≫= fun found => Some found.2).

Definition is_informational (self : StatusCode) : bool :=
  match class self with Informational => true | _ => false end.
Definition is_recognized (self : StatusCode) : bool :=
  match canonical_reason self with Some _ => true | None => false end.

(** Three decimal digits. *)
Definition digits3 (n : Z) : bytes := [0x30 + n / 100; 0x30 + n / 10 mod 10; 0x30 + n mod 10].

Definition status_line (self : StatusCode) : option bytes :=
  let! reason := canonical_reason self in
  Some (bs "HTTP/1.1 " ++ digits3 self ++ bs " " ++ bs reason ++ [13; 10]).

Definition BARE_STATUS_LINE_LEN : nat := 15.
Definition MAX_STATUS_LINE_LEN : nat := 44.

(** The octets written and the slice after it; [None] when it is too short. *)
Definition write_status_line (self : StatusCode) (out : bytes) : option (nat * bytes) :=
  match status_line self with
  | Some line =>
      let! _ := get_to (length line) out in
      Some (length line, line ++ drop (length line) out)
  | None =>
      let! _ := get_to BARE_STATUS_LINE_LEN out in
      Some (BARE_STATUS_LINE_LEN,
            bs "HTTP/1.1 " ++ digits3 self ++ bs " " ++ [13; 10] ++ drop BARE_STATUS_LINE_LEN out)
  end.

(** ** Field names *)

Inductive HeaderName : Type :=
| Accept
| AcceptCharset
| AcceptEncoding
| AcceptLanguage
| AcceptRanges
| Age
| Allow
| AuthenticationInfo
| Authorization
| CacheControl
| Connection
| ContentEncoding
| ContentLanguage
| ContentLength
| ContentLocation
| ContentRange
| ContentType
| Date
| ETag
| Expect
| Expires
| From
| Host
| IfMatch
| IfModifiedSince
| IfNoneMatch
| IfRange
| IfUnmodifiedSince
| LastModified
| Location
| MaxForwards
| MimeVersion
| Pragma
| ProxyAuthenticate
| ProxyAuthenticationInfo
| ProxyAuthorization
| Range
| Referer
| RetryAfter
| Server
| Te
| Trailer
| TransferEncoding
| Upgrade
| UserAgent
| Vary
| Via
| Warning
| WwwAuthenticate.

#[global] Instance HeaderName_eq_dec : EqDecision HeaderName.
Proof. solve_decision. Defined.

Definition MAX_HEADER_NAME_LEN : nat := 25.

(** The rows of [header_names!], in id order: the name, its lowercase and its
    registered spelling. *)
Definition HEADER_TABLE : list (HeaderName * bytes * bytes) := [
  (Accept, bs "accept", bs "Accept");
  (AcceptCharset, bs "accept-charset", bs "Accept-Charset");
  (AcceptEncoding, bs "accept-encoding", bs "Accept-Encoding");
  (AcceptLanguage, bs "accept-language", bs "Accept-Language");
  (AcceptRanges, bs "accept-ranges", bs "Accept-Ranges");
  (Age, bs "age", bs "Age");
  (Allow, bs "allow", bs "Allow");
  (AuthenticationInfo, bs "authentication-info", bs "Authentication-Info");
  (Authorization, bs "authorization", bs "Authorization");
  (CacheControl, bs "cache-control", bs "Cache-Control");
  (Connection, bs "connection", bs "Connection");
  (ContentEncoding, bs "content-encoding", bs "Content-Encoding");
  (ContentLanguage, bs "content-language", bs "Content-Language");
  (ContentLength, bs "content-length", bs "Content-Length");
  (ContentLocation, bs "content-location", bs "Content-Location");
  (ContentRange, bs "content-range", bs "Content-Range");
  (ContentType, bs "content-type", bs "Content-Type");
  (Date, bs "date", bs "Date");
  (ETag, bs "etag", bs "ETag");
  (Expect, bs "expect", bs "Expect");
  (Expires, bs "expires", bs "Expires");
  (From, bs "from", bs "From");
  (Host, bs "host", bs "Host");
  (IfMatch, bs "if-match", bs "If-Match");
  (IfModifiedSince, bs "if-modified-since", bs "If-Modified-Since");
  (IfNoneMatch, bs "if-none-match", bs "If-None-Match");
  (IfRange, bs "if-range", bs "If-Range");
  (IfUnmodifiedSince, bs "if-unmodified-since", bs "If-Unmodified-Since");
  (LastModified, bs "last-modified", bs "Last-Modified");
  (Location, bs "location", bs "Location");
  (MaxForwards, bs "max-forwards", bs "Max-Forwards");
  (MimeVersion, bs "mime-version", bs "MIME-Version");
  (Pragma, bs "pragma", bs "Pragma");
  (ProxyAuthenticate, bs "proxy-authenticate", bs "Proxy-Authenticate");
  (ProxyAuthenticationInfo, bs "proxy-authentication-info", bs "Proxy-Authentication-Info");
  (ProxyAuthorization, bs "proxy-authorization", bs "Proxy-Authorization");
  (Range, bs "range", bs "Range");
  (Referer, bs "referer", bs "Referer");
  (RetryAfter, bs "retry-after", bs "Retry-After");
  (Server, bs "server", bs "Server");
  (Te, bs "te", bs "TE");
  (Trailer, bs "trailer", bs "Trailer");
  (TransferEncoding, bs "transfer-encoding", bs "Transfer-Encoding");
  (Upgrade, bs "upgrade", bs "Upgrade");
  (UserAgent, bs "user-agent", bs "User-Agent");
  (Vary, bs "vary", bs "Vary");
  (Via, bs "via", bs "Via");
  (Warning, bs "warning", bs "Warning");
  (WwwAuthenticate, bs "www-authenticate", bs "WWW-Authenticate")].

Definition HeaderName_ALL : list HeaderName := (fun row => row.1.1) <$> HEADER_TABLE.

Definition HeaderName_id (h : HeaderName) : Z :=
  match h with
  | Accept => 0
  | AcceptCharset => 1
  | AcceptEncoding => 2
  | AcceptLanguage => 3
  | AcceptRanges => 4
  | Age => 5
  | Allow => 6
  | AuthenticationInfo => 7
  | Authorization => 8
  | CacheControl => 9
  | Connection => 10
  | ContentEncoding => 11
  | ContentLanguage => 12
  | ContentLength => 13
  | ContentLocation => 14
  | ContentRange => 15
  | ContentType => 16
  | Date => 17
  | ETag => 18
  | Expect => 19
  | Expires => 20
  | From => 21
  | Host => 22
  | IfMatch => 23
  | IfModifiedSince => 24
  | IfNoneMatch => 25
  | IfRange => 26
  | IfUnmodifiedSince => 27
  | LastModified => 28
  | Location => 29
  | MaxForwards => 30
  | MimeVersion => 31
  | Pragma => 32
  | ProxyAuthenticate => 33
  | ProxyAuthenticationInfo => 34
  | ProxyAuthorization => 35
  | Range => 36
  | Referer => 37
  | RetryAfter => 38
  | Server => 39
  | Te => 40
  | Trailer => 41
  | TransferEncoding => 42
  | Upgrade => 43
  | UserAgent => 44
  | Vary => 45
  | Via => 46
  | Warning => 47
  | WwwAuthenticate => 48
  end.

Definition HeaderName_from_id (id : Z) : option HeaderName :=
  if id <? 0 then None else HeaderName_ALL !! Z.to_nat id.

Definition as_bytes (h : HeaderName) : bytes :=
  match HEADER_TABLE !! Z.to_nat (HeaderName_id h) with Some (_, lower, _) => lower | None => [] end.
Definition canonical (h : HeaderName) : bytes :=
  match HEADER_TABLE !! Z.to_nat (HeaderName_id h) with Some (_, _, spelling) => spelling | None => [] end.

Definition parse_lowercase (name : bytes) : option HeaderName :=
  (fun found => found.2.1.1) <$> list_find (fun row => row.1.2 = name) HEADER_TABLE.

(** [make_ascii_lowercase] and [eq_ignore_ascii_case] of the standard library. *)
Definition lower (byte : Z) : Z := if is_upper byte then byte + 32 else byte.
Definition to_lower (l : bytes) : bytes := lower <$> l.
Definition eq_ignore_ascii_case (l m : bytes) : bool := bool_decide (to_lower l = to_lower m).

Definition HeaderName_parse (name : bytes) : option HeaderName :=
  if (MAX_HEADER_NAME_LEN <? length name)%nat then None else parse_lowercase (to_lower name).

Example parse_host : HeaderName_parse (bs "hOsT") = Some Host.
Proof. vm_compute. reflexivity. Qed.
Example write_404 : write_status_line 404 (replicate 24 0) = Some (24%nat, bs "HTTP/1.1 404 Not Found" ++ [13; 10]).
Proof. vm_compute. reflexivity. Qed.

(** ** Lookups *)

Lemma Method_parse_Some token m : Method_parse token = Some m <-> token = Method_as_str m.
Proof.
  unfold Method_parse. split.
  - repeat case_bool_decide; intros [= <-]; assumption.
  - intros ->. by destruct m.
Qed.

Lemma HEADER_TABLE_names :
  forallb (fun h => match HEADER_TABLE !! Z.to_nat (HeaderName_id h) with
                    | Some (h', lower, _) => bool_decide (h' = h) && bool_decide (to_lower lower = lower)
                        && (length lower <=? MAX_HEADER_NAME_LEN)%nat
                    | None => false end) HeaderName_ALL = true.
Proof. vm_compute. reflexivity. Qed.

Lemma HEADER_TABLE_NoDup : NoDup ((fun row => row.1.2) <$> HEADER_TABLE).
Proof. apply (bool_decide_unpack _). vm_compute. exact I. Qed.

Lemma HeaderName_ALL_elem h : h ∈ HeaderName_ALL.
Proof. apply (bool_decide_unpack _). destruct h; vm_compute; exact I. Qed.

Lemma HEADER_TABLE_lookup h :
  exists spelling, HEADER_TABLE !! Z.to_nat (HeaderName_id h) = Some (h, as_bytes h, spelling) /\
    to_lower (as_bytes h) = as_bytes h /\ (length (as_bytes h) <= MAX_HEADER_NAME_LEN)%nat.
Proof.
  pose proof HEADER_TABLE_names as H. rewrite forallb_forall in H.
  specialize (H h (proj1 (list_elem_of_In _ _) (HeaderName_ALL_elem h))). unfold as_bytes.
  destruct (HEADER_TABLE !! Z.to_nat (HeaderName_id h)) as [[[h' lower] spelling]|]; [|done].
  exists spelling. apply andb_prop in H as [[->%bool_decide_eq_true Hl%bool_decide_eq_true]%andb_prop Hn].
  split; [done|]. split; [done|]. by apply Nat.leb_le.
Qed.

Lemma parse_lowercase_Some name h : parse_lowercase name = Some h <-> name = as_bytes h.
Proof.
  unfold parse_lowercase. split.
  - destruct (list_find _ HEADER_TABLE) as [[i [[h' lower] spelling]]|] eqn:Hf; [|done].
    apply list_find_Some in Hf as (Hi & Hl & _). cbn in Hl |- *. intros [= ->]. subst name.
    destruct (HEADER_TABLE_lookup h) as (sp & Hh & _).
    assert (i = Z.to_nat (HeaderName_id h)) as ->; [|congruence].
    assert (HeaderName_ALL !! i = Some h) as H1 by (unfold HeaderName_ALL; by rewrite list_lookup_fmap, Hi).
    assert (HeaderName_ALL !! Z.to_nat (HeaderName_id h) = Some h) as H2
      by (unfold HeaderName_ALL; by rewrite list_lookup_fmap, Hh).
    assert (NoDup HeaderName_ALL) as Hnd by (apply (bool_decide_unpack _); vm_compute; exact I).
    by eapply NoDup_lookup.
  - intros ->. destruct (HEADER_TABLE_lookup h) as (sp & Hh & _).
    destruct (list_find _ HEADER_TABLE) as [[i [[h' lower] spelling]]|] eqn:Hf.
    + apply list_find_Some in Hf as (Hi & Hl & _). cbn in Hl |- *. f_equal.
      assert (i = Z.to_nat (HeaderName_id h)) as ->; [|congruence].
      eapply NoDup_lookup; [exact HEADER_TABLE_NoDup | |]; rewrite list_lookup_fmap.
      * by rewrite Hi.
      * rewrite Hh. cbn. by rewrite Hl.
    + exfalso. apply list_find_None in Hf. rewrite Forall_lookup in Hf. by apply (Hf _ _ Hh).
Qed.

Lemma length_to_lower l : length (to_lower l) = length l.
Proof. apply length_fmap. Qed.

(** A name is recognised in any case, and nothing else is. *)
Lemma HeaderName_parse_Some name h : HeaderName_parse name = Some h <-> to_lower name = as_bytes h.
Proof.
  unfold HeaderName_parse. destruct (Nat.ltb_spec MAX_HEADER_NAME_LEN (length name)) as [Hl|Hl].
  - split; [done|]. intros H. destruct (HEADER_TABLE_lookup h) as (_ & _ & _ & Hn).
    rewrite <- H, length_to_lower in Hn. lia.
  - apply parse_lowercase_Some.
Qed.

Lemma HeaderName_parse_as_bytes h : HeaderName_parse (as_bytes h) = Some h.
Proof. apply HeaderName_parse_Some. by destruct (HEADER_TABLE_lookup h) as (_ & _ & ? & _). Qed.

Lemma eq_ignore_ascii_case_spec l m : eq_ignore_ascii_case l m = true <-> to_lower l = to_lower m.
Proof. apply bool_decide_eq_true. Qed.
