(* ===== verification/H1List.v ===== *)
(** * The value grammars of the HTTP/1 head

    [zero-http1/src/list.rs]: optional whitespace, comma-separated lists,
    [Content-Length] and [Host]; with the address parser of the standard library
    that [is_ip_literal] calls. *)
From S2P Require Import Prelude Scalar.

Definition is_ows (byte : Z) : bool := (byte =? 0x20) || (byte =? 0x09).

Definition trim_ows (input : bytes) : bytes :=
  let start := default (length input) (position (fun byte => negb (is_ows byte)) input) in
  let end_ :=
    match rposition (fun byte => negb (is_ows byte)) input with
    | Some last => S last
    | None => start
    end in
  default [] (get_range start end_ input).

Definition list_elements (value : bytes) : list bytes :=
  filter (fun element => element <> []) (trim_ows <$> split_on (fun byte => byte =? 0x2c) value).

(** The [for] loop of [parse_content_length]. *)
Fixpoint content_length_loop (length : Z) (value : bytes) : option Z :=
  match value with
  | [] => Some length
  | byte :: value =>
      if is_digit byte then
        let! length := checked_mul 64 length 10 in
        let! length := checked_add 64 length (wrapping_sub 8 byte 0x30) in
        content_length_loop length value
      else None
  end.

Definition parse_content_length (value : bytes) : option Z :=
  match value with [] => None | _ => content_length_loop 0 value end.

Definition is_hexdigit (byte : Z) : bool :=
  is_digit byte || ((0x41 <=? byte) && (byte <=? 0x46)) || ((0x61 <=? byte) && (byte <=? 0x66)).

Definition is_unreserved (byte : Z) : bool :=
  is_digit byte || is_upper byte || is_lower byte || bool_decide (byte ∈ bs "-._~").

Definition is_sub_delim (byte : Z) : bool := bool_decide (byte ∈ bs "!$&'()*+,;=").

Fixpoint is_reg_name (rest : bytes) : bool :=
  match rest with
  | [] => true
  | byte :: after =>
      if byte =? 0x25 then
        match after with
        | high :: low :: tail => is_hexdigit high && is_hexdigit low && is_reg_name tail
        | _ => false
        end
      else (is_unreserved byte || is_sub_delim byte) && is_reg_name after
  end.

(** ** [Ipv6Addr::from_str] of the standard library

    Only whether the text is an address is used, so a reader answers with what it
    leaves. *)

(** [char::to_digit] *)
Definition to_digit (radix byte : Z) : option Z :=
  let digit :=
    if is_digit byte then byte - 0x30
    else if is_lower byte then byte - 0x61 + 10
    else if is_upper byte then byte - 0x41 + 10
    else radix in
  if digit <? radix then Some digit else None.

(** [read_number] with a limit on the digits. *)
Fixpoint read_digits (radix : Z) (allowed : nat) (result : Z) (input : bytes) : option (Z * bytes) :=
  match input with
  | byte :: rest =>
      match to_digit radix byte, allowed with
      | None, _ => Some (result, input)
      | Some _, O => None
      | Some digit, S allowed => read_digits radix allowed (result * radix + digit) rest
      end
  | [] => Some (result, [])
  end.

Definition read_number (radix : Z) (max_digits : nat) (allow_zero_prefix : bool) (max : Z)
    (input : bytes) : option bytes :=
  let! (result, rest) := read_digits radix max_digits 0 input in
  let digit_count := (length input - length rest)%nat in
  if (digit_count =? 0)%nat then None
  else if negb allow_zero_prefix && bool_decide (head input = Some 0x30) && (1 <? digit_count)%nat then None
  else if result <=? max then Some rest else None.

Definition read_separator (sep : Z) (index : nat) (inner : bytes -> option bytes) (input : bytes)
  : option bytes :=
  match index, input with
  | O, _ => inner input
  | S _, byte :: rest => if byte =? sep then inner rest else None
  | S _, [] => None
  end.

Fixpoint read_ipv4_parts (n index : nat) (input : bytes) : option bytes :=
  match n with
  | O => Some input
  | S n =>
      let! rest := read_separator 0x2e index (read_number 10 3 false 255) input in
      read_ipv4_parts n (S index) rest
  end.
Definition read_ipv4_addr : bytes -> option bytes := read_ipv4_parts 4 0.

(** [read_groups]: the groups read, whether the last two are an IPv4 address, and
    the rest; [n] groups of [limit] are still to read. *)
Fixpoint read_groups (n limit : nat) (input : bytes) : nat * bool * bytes :=
  match n with
  | O => (limit, false, input)
  | S n' =>
      let index := (limit - n)%nat in
      let ipv4 :=
        if (index <? limit - 1)%nat then read_separator 0x3a index read_ipv4_addr input else None in
      match ipv4 with
      | Some rest => ((index + 2)%nat, true, rest)
      | None =>
          match read_separator 0x3a index (read_number 16 4 true 65535) input with
          | Some rest => read_groups n' limit rest
          | None => (index, false, input)
          end
      end
  end.

Definition read_ipv6_addr (input : bytes) : option bytes :=
  let '(head_size, head_ipv4, rest) := read_groups 8 8 input in
  if (head_size =? 8)%nat then Some rest
  else if head_ipv4 then None
  else
    match rest with
    | 0x3a :: 0x3a :: rest =>
        let limit := (8 - (head_size + 1))%nat in
        let '(_, _, rest) := read_groups limit limit rest in Some rest
    | _ => None
    end.

Definition is_ipv6 (text : bytes) : bool := bool_decide (read_ipv6_addr text = Some []).

(** ** Hosts *)

Definition is_ip_literal (literal : bytes) : bool :=
  match literal with
  | 0x5b :: rest =>
      match reverse rest with
      | 0x5d :: inner =>
          match reverse inner with
          | (0x76 | 0x56) :: future =>
              match position (fun byte => byte =? 0x2e) future with
              | None => false
              | Some dot =>
                  let version := take dot future in
                  let tail := drop (S dot) future in
                  negb (bool_decide (version = [])) && forallb is_hexdigit version
                  && negb (bool_decide (tail = []))
                  && forallb (fun byte => is_unreserved byte || is_sub_delim byte || (byte =? 0x3a)) tail
              end
          | inner => is_ipv6 inner
          end
      | _ => false
      end
  | _ => false
  end.

Definition is_port (port : bytes) : bool :=
  match port with
  | [] => true
  | byte :: digits => (byte =? 0x3a) && forallb is_digit digits
  end.

Definition is_host_value (value : bytes) : bool :=
  match value with
  | 0x5b :: _ =>
      match position (fun byte => byte =? 0x5d) value with
      | None => false
      | Some close => is_ip_literal (take (S close) value) && is_port (drop (S close) value)
      end
  | _ =>
      match position (fun byte => byte =? 0x3a) value with
      | Some colon => is_reg_name (take colon value) && is_port (drop colon value)
      | None => is_reg_name value
      end
  end.

Definition is_digits (value : bytes) : bool := negb (bool_decide (value = [])) && forallb is_digit value.

Example host_values :
  map is_host_value [bs ""; bs "example.org"; bs "example.org:80"; bs "[::1]:8080"; bs "[1:2:3:4:5:6:7:8]";
    bs "[::ffff:192.0.2.1]"; bs "[v1.a:b]"; bs "a%2fb"; bs "[1::2::3]"; bs "[::1]x"; bs "a b"; bs "a%2";
    bs "::1"; bs "[::1"; bs "u@h"; bs "[1:2:3:4:5:6:7:8:9]"; bs "[::256.0.0.1]"; bs "h:8o"]
  = [true; true; true; true; true; true; true; true; false; false; false; false; false; false; false;
     false; false; false].
Proof. vm_compute. reflexivity. Qed.
Example elements : list_elements (bs " a , ,b;q=1	,") = [bs "a"; bs "b;q=1"].
Proof. vm_compute. reflexivity. Qed.
Example content_lengths :
  map parse_content_length [bs "0"; bs "18446744073709551615"; bs "18446744073709551616"; bs ""; bs "+1"; bs "1,1"]
  = [Some 0; Some 18446744073709551615; None; None; None; None].
Proof. vm_compute. reflexivity. Qed.

(** ** Content-Length *)

Definition decimal_from (acc : Z) (value : bytes) : Z :=
  fold_left (fun acc byte => acc * 10 + (byte - 0x30)) value acc.
Definition decimal (value : bytes) : Z := decimal_from 0 value.

Lemma decimal_from_ge value : forall acc,
  0 <= acc -> Forall (fun b => is_digit b = true) value -> acc <= decimal_from acc value.
Proof.
  unfold decimal_from. induction value as [|b value IH]; intros acc Hacc Hd; cbn [fold_left]; [lia|].
  apply Forall_cons in Hd as [Hb Hd]. unfold is_digit in Hb. specialize (IH (acc * 10 + (b - 48)) ltac:(lia) Hd). lia.
Qed.

Lemma content_length_loop_Some value : forall acc n, 0 <= acc < 2 ^ 64 ->
  content_length_loop acc value = Some n <->
  Forall (fun b => is_digit b = true) value /\ n = decimal_from acc value /\ n < 2 ^ 64.
Proof.
  induction value as [|b value IH]; intros acc n Hacc; cbn [content_length_loop].
  { cbn. split; [intros [= <-]; split; [constructor | lia] | by intros (_ & -> & _)]. }
  rewrite Forall_cons. destruct (is_digit b) eqn:Hb; [|by split; [|intros ([? _] & _)]].
  assert (wrapping_sub 8 b 0x30 = b - 0x30) as ->.
  { unfold wrapping_sub. rewrite Z.mod_small; [done|]. unfold is_digit in Hb. pow2. lia. }
  change (decimal_from acc (b :: value)) with (decimal_from (acc * 10 + (b - 0x30)) value).
  assert (0 <= b - 0x30) by (unfold is_digit in Hb; lia).
  unfold checked_mul, checked_add.
  destruct (Z.ltb_spec (acc * 10) (2 ^ 64)); [destruct (Z.ltb_spec (acc * 10 + (b - 0x30)) (2 ^ 64))|].
  - rewrite IH by lia. naive_solver.
  - split; [done|]. intros ([_ Hd] & -> & Hn). pose proof (decimal_from_ge value (acc * 10 + (b - 48)) ltac:(lia) Hd). lia.
  - split; [done|]. intros ([_ Hd] & -> & Hn). pose proof (decimal_from_ge value (acc * 10 + (b - 48)) ltac:(lia) Hd). lia.
Qed.

Lemma parse_content_length_Some value n :
  parse_content_length value = Some n <->
  value <> [] /\ Forall (fun b => is_digit b = true) value /\ n = decimal value /\ n < 2 ^ 64.
Proof.
  unfold parse_content_length, decimal. destruct value as [|b value]; [naive_solver|].
  rewrite content_length_loop_Some by lia. naive_solver.
Qed.
