(* ===== verification/H1Head.v ===== *)
(** * The HTTP/1 request head

    [zero-http1/src/head.rs] and [error.rs]: the parser of a request line and its
    field lines into spans of the caller's buffer and the caller's table, the
    classification of the target, and the decision how the body is delimited. *)
From S2P Require Import Prelude Scalar HttpTypes Limits H1List.

Record Reject : Type := MkReject {
  status : StatusCode;
  close : bool;
}.

Definition Reject_close (status : StatusCode) : Reject := MkReject status true.
Definition bad_request : Reject := Reject_close BAD_REQUEST.
Definition header_fields_too_large : Reject :=
  match StatusCode_new 431 with Some status => Reject_close status | None => bad_request end.

Record Span : Type := MkSpan {
  start : nat;
  end_ : nat;
}.
#[global] Instance Span_eq_dec : EqDecision Span.
Proof. solve_decision. Defined.

Definition EMPTY_SPAN : Span := MkSpan 0 0.
Definition Span_len (s : Span) : nat := end_ s - start s.
Definition Span_is_empty (s : Span) : bool := (end_ s <=? start s)%nat.
Definition Span_of (s : Span) (input : bytes) : bytes := default [] (get_range (start s) (end_ s) input).

Record Field : Type := MkField {
  name : Span;
  value : Span;
  id : option HeaderName;
}.
Definition EMPTY_FIELD : Field := MkField EMPTY_SPAN EMPTY_SPAN None.

Inductive Version : Type := Http10 | Http11.
#[global] Instance Version_eq_dec : EqDecision Version.
Proof. solve_decision. Defined.

Inductive TargetForm : Type := Origin | Absolute | Authority | Asterisk.

Inductive BodyLength : Type :=
| NoBody
| Length (octets : Z)
| Chunked.

Inductive Expect : Type := ExpectNone | ExpectContinue | ExpectOther.

Record Head : Type := MkHead {
  method : option Method;
  method_token : Span;
  target : Span;
  form : TargetForm;
  path : Span;
  authority : option Span;
  host : option Span;
  version : Version;
  field_count : nat;
  body : BodyLength;
  keep_alive : bool;
  expect : Expect;
  upgrade : bool;
  head_len : nat;
}.

Inductive Status : Type :=
| Complete (head : Head)
| Partial
| Rejected (reject : Reject).

Definition LONGEST_METHOD : nat := 7.
Definition VERSION_LEN : nat := 8.

(** [byte] is stdpp's lookup and [tail] its [drop]. *)
Abbreviation CR := 13 (only parsing).
Abbreviation LF := 10 (only parsing).
Abbreviation SP := 32 (only parsing).
Abbreviation HTAB := 9 (only parsing).
Abbreviation COLON := 58 (only parsing).

(** A step of the parser: go on with a value, or return. *)
Inductive flow (A : Type) : Type :=
| Go (a : A)
| Return (r : result Reject Status).
Arguments Go {A} a.
Arguments Return {A} r.
Notation "'let*' p := e 'in' k" :=
  (match e with Go p => k | Return r => Return r end)
  (at level 10, p pattern, e at level 150, k at level 200) : zs_scope.

(** [Err(reject)?] and [return need_more(..)] *)
Definition refuse {A} (reject : Reject) : flow A := Return (Err reject).

Inductive LineEnd : Type := Found | LinePartial | Invalid.

Definition expect_crlf (input : bytes) (at_ : nat) : LineEnd :=
  match input !! at_ with
  | None => LinePartial
  | Some CR =>
      match input !! S at_ with
      | None => LinePartial
      | Some LF => Found
      | Some _ => Invalid
      end
  | Some _ => Invalid
  end.

Definition need_more (input : bytes) (head_start : nat) (limits : Limits.Http1Limits)
  : result Reject Status :=
  if http1_max_head_bytes limits <? Z.of_nat (length input - head_start)
  then Err header_fields_too_large else Ok Partial.

Definition need_more_line (input : bytes) (line_start : nat) (limits : Limits.Http1Limits)
  : result Reject Status :=
  if http1_max_request_line limits <? Z.of_nat (length input - line_start)
  then Err (Reject_close URI_TOO_LONG) else Ok Partial.

Definition parse_version (input : bytes) : result Reject Version :=
  if (length input <? 5)%nat then Err bad_request
  else if negb (bool_decide (take 5 input = bs "HTTP/")) then Err bad_request
  else
    match drop 5 input with
    | [major; 0x2e; minor] =>
        if is_digit major && is_digit minor then
          if negb (major =? 0x31) then Err (Reject_close HTTP_VERSION_NOT_SUPPORTED)
          else Ok (if minor =? 0x30 then Http10 else Http11)
        else Err bad_request
    | _ => Err bad_request
    end.

(** The empty lines before the request line, over the octets still to read. *)
Fixpoint skip_empty (limits : Limits.Http1Limits) (rest : bytes) (pos : nat) : result Reject nat :=
  match rest with
  | CR :: LF :: rest =>
      let pos := (pos + 2)%nat in
      if http1_max_head_bytes limits <? Z.of_nat pos then Err header_fields_too_large
      else skip_empty limits rest pos
  | _ => Ok pos
  end.

(** The request line from [pos] on: the method token, the target, the version and
    the position after the line. *)
Definition request_line (input : bytes) (limits : Limits.Http1Limits) (pos : nat)
  : flow (Span * Span * Version * nat) :=
  let line_start := pos in
  let rest := drop pos input in
  let method_len := scan_header_name rest in
  if (LONGEST_METHOD <? method_len)%nat then refuse (Reject_close NOT_IMPLEMENTED)
  else if (method_len =? length rest)%nat then Return (Ok Partial)
  else if (method_len =? 0)%nat then refuse bad_request
  else
  let method_token := MkSpan pos (pos + method_len) in
  let pos := end_ method_token in
  if negb (bool_decide (input !! pos = Some SP)) then refuse bad_request
  else
  let pos := (pos + 1)%nat in
  let rest := drop pos input in
  let target_len := scan_target rest in
  if (target_len =? length rest)%nat then Return (need_more_line input line_start limits)
  else if (target_len =? 0)%nat then refuse bad_request
  else
  let target := MkSpan pos (pos + target_len) in
  let pos := end_ target in
  if negb (bool_decide (input !! pos = Some SP)) then refuse bad_request
  else
  let pos := (pos + 1)%nat in
  match get_range pos (pos + VERSION_LEN) input with
  | None => Return (need_more_line input line_start limits)
  | Some version_bytes =>
      match parse_version version_bytes with
      | Err e => refuse e
      | Ok version =>
          let pos := (pos + VERSION_LEN)%nat in
          match expect_crlf input pos with
          | LinePartial => Return (need_more_line input line_start limits)
          | Invalid => refuse bad_request
          | Found =>
              let pos := (pos + 2)%nat in
              if http1_max_request_line limits <? Z.of_nat (pos - line_start)
              then refuse (Reject_close URI_TOO_LONG)
              else Go (method_token, target, version, pos)
          end
      end
  end.

(** ** Fields *)

(** The [while] loop that drops whitespace at the end of a value of [k] octets. *)
Fixpoint value_end_loop (input : bytes) (value_start k : nat) : nat :=
  match k with
  | O => value_start
  | S k' =>
      match input !! (value_start + k')%nat with
      | Some byte => if is_ows byte then value_end_loop input value_start k' else (value_start + k)%nat
      | None => (value_start + k)%nat
      end
  end.

(** The fields the parser interprets while it fills the table. *)
Record Interpreted : Type := MkInterpreted {
  host_count : nat;
  seen_host : option Span;
  content_length_count : nat;
  content_length : option Span;
  transfer_encoding_seen : bool;
  transfer_encoding_invalid : bool;
  transfer_encoding_last_chunked : bool;
  transfer_encoding_other : bool;
  seen_close : bool;
  keep_alive_option : bool;
  upgrade_option : bool;
  upgrade_field : bool;
  seen_expect : Expect;
}.

Definition Interpreted_default : Interpreted :=
  MkInterpreted 0 None 0 None false false false false false false false false ExpectNone.

(** One coding of a [Transfer-Encoding] list: [any], [invalid], [last_chunked] and
    [other] after it. *)
Definition transfer_coding (acc : bool * bool * bool * bool) (coding : bytes) : bool * bool * bool * bool :=
  let '(_, invalid, _, other) := acc in
  let '(name, parameters) :=
    match position (fun byte => byte =? 0x3b) coding with
    | Some at_ => (trim_ows (take at_ coding), true)
    | None => (coding, false)
    end in
  let chunked := eq_ignore_ascii_case name (bs "chunked") in
  (true, invalid || (chunked && parameters), chunked, other || negb chunked).

(** One option of a [Connection] list: [close], [keep-alive] and [upgrade]. *)
Definition connection_option (acc : bool * bool * bool) (option : bytes) : bool * bool * bool :=
  let '(close, keep_alive, upgrade) := acc in
  if eq_ignore_ascii_case option (bs "close") then (true, keep_alive, upgrade)
  else if eq_ignore_ascii_case option (bs "keep-alive") then (close, true, upgrade)
  else if eq_ignore_ascii_case option (bs "upgrade") then (close, keep_alive, true)
  else acc.

Definition expectation (acc : Expect) (expectation : bytes) : Expect :=
  if eq_ignore_ascii_case expectation (bs "100-continue") then
    match acc with ExpectNone => ExpectContinue | _ => acc end
  else ExpectOther.

Definition interpret (seen : Interpreted) (id : option HeaderName) (value : Span) (input : bytes)
    (version : Version) : Interpreted :=
  let 'MkInterpreted hc h clc cl te ti tl to c ka uo uf e := seen in
  let bytes := Span_of value input in
  match id with
  | Some Host =>
      MkInterpreted (hc + 1) (match h with None => Some value | _ => h end) clc cl te ti tl to c ka uo uf e
  | Some ContentLength =>
      MkInterpreted hc h (clc + 1) (match cl with None => Some value | _ => cl end) te ti tl to c ka uo uf e
  | Some TransferEncoding =>
      let '(any, ti, tl, to) := fold_left transfer_coding (list_elements bytes) (false, ti, tl, to) in
      MkInterpreted hc h clc cl true (ti || negb any) tl to c ka uo uf e
  | Some Connection =>
      let '(c, ka, uo) := fold_left connection_option (list_elements bytes) (c, ka, uo) in
      MkInterpreted hc h clc cl te ti tl to c ka uo uf e
  | Some HttpTypes.Expect =>
      let e :=
        match version with
        | Http11 => fold_left expectation (list_elements bytes) e
        | Http10 => e
        end in
      MkInterpreted hc h clc cl te ti tl to c ka uo uf e
  | Some Upgrade => MkInterpreted hc h clc cl te ti tl to c ka uo true e
  | _ => seen
  end.

(** A turn of the field loop at [pos]: the end of the section, or a field and the
    position after its line. *)
Inductive field_step : Type :=
| SectionEnd (pos : nat)
| FieldLine (name value : Span) (pos : nat).

(** The part of the turn after the colon. *)
Definition field_value (input : bytes) (limits : Limits.Http1Limits) (head_start field_start : nat)
    (name : Span) (pos : nat) : flow field_step :=
  let pos := (pos + scan (drop pos input) is_ows)%nat in
  let value_start := pos in
  let value_len := scan_header_value (drop pos input) in
  let value_limit := (pos + value_len)%nat in
  match expect_crlf input value_limit with
  | LinePartial => Return (need_more input head_start limits)
  | Invalid => refuse bad_request
  | Found =>
      let value_end := value_end_loop input value_start value_len in
      let pos := (value_limit + 2)%nat in
      if http1_max_header_field limits <? Z.of_nat (pos - field_start)
      then refuse header_fields_too_large
      else Go (FieldLine name (MkSpan value_start value_end) pos)
  end.

Definition field_line (input : bytes) (limits : Limits.Http1Limits) (head_start pos : nat)
  : flow field_step :=
  let need_more := Return (need_more input head_start limits) in
  let rest := drop pos input in
  let field :=
    let field_start := pos in
    let name_len := scan_header_name rest in
    if (name_len =? length rest)%nat then need_more
    else if (name_len =? 0)%nat then refuse bad_request
    else
    let name := MkSpan pos (pos + name_len) in
    let pos := end_ name in
    if negb (bool_decide (input !! pos = Some COLON)) then refuse bad_request
    else field_value input limits head_start field_start name (pos + 1) in
  match head rest with
  | None => need_more
  | Some CR =>
      match rest !! 1%nat with
      | None => need_more
      | Some LF => Go (SectionEnd (pos + 2))
      | Some _ => refuse bad_request
      end
  | Some (LF | SP | HTAB) => refuse bad_request
  | Some _ => field
  end.

(** The loop; a field line takes an octet or more, so [length input] turns are
    enough, and the first [None] is never reached. *)
Fixpoint fields (fuel : nat) (input : bytes) (limits : Limits.Http1Limits) (version : Version)
    (head_start pos : nat) (table : list Field) (count : nat) (seen : Interpreted)
  : list Field * flow (nat * nat * Interpreted) :=
  match fuel with
  | O => (table, Return (Ok Partial))
  | S fuel =>
      match field_line input limits head_start pos with
      | Return r => (table, Return r)
      | Go (SectionEnd pos) => (table, Go (pos, count, seen))
      | Go (FieldLine name value pos) =>
          if http1_max_header_count limits <=? Z.of_nat count then
            (table, refuse header_fields_too_large)
          else
            match table !! count with
            | None => (table, refuse header_fields_too_large)
            | Some _ =>
                let id := HeaderName_parse (Span_of name input) in
                let table := <[count := MkField name value id]> table in
                let seen := interpret seen id value input version in
                fields fuel input limits version head_start pos table (count + 1) seen
            end
      end
  end.

(** ** The request target *)

Definition classify_absolute (target : Span) (bytes : bytes) (scheme_len : nat) (method : option Method)
  : result Reject (TargetForm * Span * option Span) :=
  if bool_decide (method = Some Connect) then Err bad_request
  else
  let scheme := take scheme_len bytes in
  if negb (eq_ignore_ascii_case scheme (bs "http") || eq_ignore_ascii_case scheme (bs "https"))
  then Err bad_request
  else
  let authority_start := (scheme_len + 3)%nat in
  let after := drop authority_start bytes in
  let authority_len :=
    default (length after) (position (fun byte => (byte =? 0x2f) || (byte =? 0x3f)) after) in
  let authority := take authority_len after in
  let host_start :=
    match position (fun byte => byte =? 0x40) authority with Some at_ => S at_ | None => O end in
  let host := drop host_start authority in
  if bool_decide (host = []) || negb (is_host_value host) then Err bad_request
  else
  let authority_span :=
    MkSpan (start target + authority_start + host_start) (start target + authority_start + authority_len) in
  let path := MkSpan (end_ authority_span) (end_ target) in
  Ok (Absolute, path, Some authority_span).

Definition classify_target (target : Span) (input : bytes) (method : option Method)
  : result Reject (TargetForm * Span * option Span) :=
  let bytes := Span_of target input in
  let authority_form :=
    if negb (bool_decide (method = Some Connect)) then Err bad_request
    else
      match rposition (fun byte => byte =? COLON) bytes with
      | None => Err bad_request
      | Some colon =>
          let host := take colon bytes in
          let port := drop (S colon) bytes in
          if bool_decide (host = []) || negb (is_host_value host) || negb (is_digits port)
          then Err bad_request
          else Ok (Authority, EMPTY_SPAN, Some target)
      end in
  if bool_decide (bytes = bs "*") then
    if negb (bool_decide (method = Some Options)) then Err bad_request
    else Ok (Asterisk, EMPTY_SPAN, None)
  else if bool_decide (head bytes = Some 0x2f) then
    if bool_decide (method = Some Connect) then Err bad_request
    else Ok (Origin, target, None)
  else
    match position (fun byte => byte =? COLON) bytes with
    | Some scheme_len =>
        if bool_decide (take 3 (drop scheme_len bytes) = bs "://")
        then classify_absolute target bytes scheme_len method
        else authority_form
    | None => authority_form
    end.

(** ** The body and the head *)

Definition framing (seen : Interpreted) (input : bytes) (version : Version)
  : result Reject BodyLength :=
  if transfer_encoding_seen seen then
    if bool_decide (version = Http10) || (0 <? content_length_count seen)%nat
       || transfer_encoding_invalid seen || negb (transfer_encoding_last_chunked seen)
    then Err bad_request
    else if transfer_encoding_other seen then Err (Reject_close NOT_IMPLEMENTED)
    else Ok Chunked
  else
    match content_length seen with
    | None => Ok NoBody
    | Some span =>
        if (1 <? content_length_count seen)%nat then Err bad_request
        else
          match parse_content_length (Span_of span input) with
          | Some length => Ok (Length length)
          | None => Err bad_request
          end
    end.

(** [parse] after the loop. *)
Definition conclude (input : bytes) (method_token target : Span) (version : Version)
    (pos count : nat) (seen : Interpreted) : result Reject Status :=
  let method := Method_parse (Span_of method_token input) in
  let? (form, path, target_authority) := classify_target target input method in
  if (1 <? host_count seen)%nat then Err bad_request
  else if (host_count seen =? 0)%nat && bool_decide (version = Http11) then Err bad_request
  else if match seen_host seen with Some host => negb (is_host_value (Span_of host input)) | None => false end
  then Err bad_request
  else
  let authority := match target_authority with Some _ => target_authority | None => seen_host seen end in
  let? body := framing seen input version in
  let keep_alive :=
    negb (seen_close seen) && match version with Http11 => true | Http10 => keep_alive_option seen end in
  let expect := match version with Http11 => seen_expect seen | Http10 => ExpectNone end in
  let upgrade := bool_decide (version = Http11) && upgrade_field seen && upgrade_option seen in
  Ok (Complete (MkHead method method_token target form path authority (seen_host seen) version count
                  body keep_alive expect upgrade pos)).

(** The table after the call and the outcome. *)
Definition parse (input : bytes) (table : list Field) (limits : Limits.Http1Limits)
  : list Field * result Reject Status :=
  match skip_empty limits input 0 with
  | Err e => (table, Err e)
  | Ok pos =>
      if (length input <=? pos)%nat || bool_decide (drop pos input = [CR]) then (table, Ok Partial)
      else
        let head_start := pos in
        match request_line input limits pos with
        | Return r => (table, r)
        | Go (method_token, target, version, pos) =>
            match fields (length input) input limits version head_start pos table 0 Interpreted_default with
            | (table, Return r) => (table, r)
            | (table, Go (pos, count, seen)) =>
                (table,
                 if http1_max_head_bytes limits <? Z.of_nat (pos - head_start)
                 then Err header_fields_too_large
                 else conclude input method_token target version pos count seen)
            end
        end
  end.

Definition parse_request (input : bytes) (table : list Field) (limits : Limits.Http1Limits)
  : list Field * Status :=
  match parse input table limits with
  | (table, Ok status) => (table, status)
  | (table, Err reject) => (table, Rejected reject)
  end.

Definition crlf (s : string) : bytes := bs s ++ [CR; LF].

Example parse_post :
  snd (parse_request
    (crlf "POST /submit HTTP/1.1" ++ crlf "Host: example.org" ++ crlf "Content-Length: 5 " ++ crlf "" ++ bs "hello")
    (replicate 4 EMPTY_FIELD) Http1Limits_DEFAULT)
  = Complete (MkHead (Some Post) (MkSpan 0 4) (MkSpan 5 12) Origin (MkSpan 5 12) (Some (MkSpan 29 40))
      (Some (MkSpan 29 40)) Http11 2 (Length 5) true ExpectNone false 64).
Proof. vm_compute. reflexivity. Qed.
