(* ===== verification/H1Grammar.v ===== *)
(** * The grammar of a request head

    RFC 9112 Sections 2 to 5 as text: a request line and field lines as records of
    their parts with the octets they are written as.  The parser of [H1Head] accepts
    exactly these texts, whatever octets follow them; the lemmas here say so for the
    parts, and [H1Request] for the head. *)
From S2P Require Import Prelude Scalar HttpTypes Limits H1List H1Head.

Abbreviation CRLF := [CR; LF].

(** A field line: the name, whitespace, the value and whitespace. *)
Record FieldText : Type := MkFieldText {
  text_name : bytes;
  before : bytes;
  text_value : bytes;
  after : bytes;
}.

Definition tokens (l : bytes) : Prop := l <> [] /\ Forall (fun b => is_tchar b = true) l.
Definition spaces (l : bytes) : Prop := Forall (fun b => is_ows b = true) l.

(** A value begins and ends with an octet that is not whitespace. *)
Definition trimmed (l : bytes) : Prop :=
  match head l with Some b => is_ows b = false | None => True end /\
  match last l with Some b => is_ows b = false | None => True end.

Definition field_ok (f : FieldText) : Prop :=
  tokens (text_name f) /\ spaces (before f) /\ spaces (after f) /\
  Forall (fun b => is_value_byte b = true) (text_value f) /\ trimmed (text_value f) /\
  (text_value f = [] -> after f = []).

Definition field_text (f : FieldText) : bytes :=
  text_name f ++ COLON :: before f ++ text_value f ++ after f ++ CRLF.

Record LineText : Type := MkLineText {
  text_method : bytes;
  text_target : bytes;
  text_version : bytes;
}.

Definition line_ok (l : LineText) (v : Version) : Prop :=
  tokens (text_method l) /\ (length (text_method l) <= LONGEST_METHOD)%nat /\
  text_target l <> [] /\ Forall (fun b => is_target_byte b = true) (text_target l) /\
  length (text_version l) = VERSION_LEN /\ parse_version (text_version l) = Ok v.

Definition line_text (l : LineText) : bytes :=
  text_method l ++ SP :: text_target l ++ SP :: text_version l ++ CRLF.

(** ** Positions *)

Lemma drop_drop_app {A} pos (input x y : list A) :
  drop pos input = x ++ y -> drop (pos + length x) input = y.
Proof. intros H. by rewrite <- drop_drop, H, drop_app_length. Qed.

Lemma lookup_drop_app {A} pos (input x y : list A) b :
  drop pos input = x ++ b :: y -> input !! (pos + length x)%nat = Some b.
Proof. intros H. rewrite <- lookup_drop, H. by rewrite list_lookup_middle. Qed.

Lemma drop_length_le {A} pos (input x y : list A) :
  drop pos input = x ++ y -> x <> [] -> (pos + length x + length y = length input)%nat.
Proof.
  intros H Hx. pose proof (f_equal length H) as Hl. rewrite length_drop, length_app in Hl.
  destruct x; [done|]. cbn [length] in *. lia.
Qed.

Lemma Span_of_drop pos (input x y : bytes) :
  drop pos input = x ++ y -> Span_of (MkSpan pos (pos + length x)) input = x.
Proof.
  intros H. unfold Span_of, get_range. cbn [start end_].
  replace (pos + length x - pos)%nat with (length x) by lia. case_decide as Hd.
  - by rewrite H, take_app_length.
  - destruct x as [|b x]; [done|]. apply drop_length_le in H; [|done]. lia.
Qed.

(** [expect_crlf] looks at the octets from there on. *)
Lemma expect_crlf_drop input at_ :
  expect_crlf input at_ =
    match drop at_ input with
    | [] | [CR] => LinePartial
    | CR :: LF :: _ => Found
    | _ => Invalid
    end.
Proof.
  unfold expect_crlf. rewrite <- (Nat.add_0_r at_), <- Nat.add_succ_r, <- !lookup_drop, Nat.add_0_r.
  destruct (drop at_ input) as [|b [|c l]]; [done| |]; cbn; by repeat case_match.
Qed.

Lemma expect_crlf_Found input at_ :
  expect_crlf input at_ = Found <-> exists more, drop at_ input = CRLF ++ more.
Proof.
  rewrite expect_crlf_drop. split.
  - intros H. destruct (drop at_ input) as [|b [|c l]]; [done|by repeat case_match|].
    exists l. repeat case_match; done.
  - by intros [more ->].
Qed.

Lemma tchar_value b : is_ows b = true -> is_value_byte b = true.
Proof. unfold is_ows, is_value_byte. lia. Qed.

(** ** Trimming *)

Lemma value_end_loop_spec input pos x : forall y z,
  drop pos input = (x ++ y) ++ z -> spaces y -> match last x with Some b => is_ows b = false | None => True end ->
  value_end_loop input pos (length (x ++ y)) = (pos + length x)%nat.
Proof.
  intros y. induction y as [|b y IH] using rev_ind; intros z Hd Hy Hx.
  - rewrite app_nil_r in *. destruct x as [|b x _] using rev_ind; [cbn; lia|].
    rewrite last_snoc in Hx. rewrite length_app. cbn [length].
    rewrite Nat.add_1_r. cbn [value_end_loop].
    rewrite <- app_assoc in Hd. erewrite lookup_drop_app by exact Hd. rewrite Hx. lia.
  - apply Forall_app in Hy as [Hy Hb]. apply Forall_cons in Hb as [Hb _].
    rewrite app_assoc, length_app. cbn [length]. rewrite Nat.add_1_r. cbn [value_end_loop].
    rewrite app_assoc, <- (app_assoc (x ++ y)) in Hd.
    erewrite lookup_drop_app by exact Hd. rewrite Hb. by eapply IH.
Qed.

(** Every text splits into a part that does not end in whitespace, and whitespace. *)
Lemma split_end l : exists x y, l = x ++ y /\ spaces y /\
  match last x with Some b => is_ows b = false | None => True end.
Proof.
  induction l as [|b l IH] using rev_ind; [exists [], []; repeat split; constructor|].
  destruct (is_ows b) eqn:Hb.
  - destruct IH as (x & y & -> & Hy & Hx). exists x, (y ++ [b]).
    split; [by rewrite app_assoc|]. split; [|done]. apply Forall_app. split; [done|]. by constructor.
  - exists (l ++ [b]), []. rewrite app_nil_r, last_snoc. repeat split; [constructor | done].
Qed.

(** ** A field line *)

Lemma tokens_head l : tokens l -> exists b l', l = b :: l' /\ is_tchar b = true /\
  is_ows b = false /\ b <> CR /\ b <> LF /\ b <> SP /\ b <> HTAB.
Proof.
  intros [Hne Hall]. destruct l as [|b l]; [done|]. apply Forall_cons in Hall as [Hb _].
  exists b, l. split; [done|]. split; [done|].
  assert (forall c, is_tchar c = false -> b <> c) as H by (intros c Hc ->; congruence).
  assert (b <> SP /\ b <> HTAB) as [Hsp Htab] by (split; apply H; reflexivity).
  repeat split; try (apply H; reflexivity). unfold is_ows.
  by rewrite (proj2 (Z.eqb_neq b 32)), (proj2 (Z.eqb_neq b 9)).
Qed.

(** The [match] on the first octet, away from line ends and whitespace. *)
Lemma first_octet_field {A} b (x y z : A) :
  b <> CR -> b <> LF -> b <> SP -> b <> HTAB ->
  match b with CR => x | LF | SP | HTAB => y | _ => z end = z.
Proof. intros. by repeat case_match; congruence. Qed.

Definition name_span (pos : nat) (f : FieldText) : Span := MkSpan pos (pos + length (text_name f)).
Definition value_start (pos : nat) (f : FieldText) : nat :=
  (pos + length (text_name f) + 1 + length (before f))%nat.
Definition value_span (pos : nat) (f : FieldText) : Span :=
  MkSpan (value_start pos f) (value_start pos f + length (text_value f)).

Lemma field_text_length f :
  length (field_text f)
  = (length (text_name f) + 1 + length (before f) + length (text_value f) + length (after f) + 2)%nat.
Proof. unfold field_text. rewrite !length_app. cbn [length]. rewrite !length_app. cbn [length]. lia. Qed.

Lemma scan_name (name : bytes) b rest : tokens name -> is_tchar b = false ->
  scan_header_name (name ++ b :: rest) = length name /\
  (0 < length name < length (name ++ b :: rest))%nat.
Proof.
  intros [Hne Hall] Hb. split; [by apply scan_run|].
  rewrite length_app. cbn [length]. destruct name; [done | cbn [length]; lia].
Qed.

Lemma field_line_name input limits head_start pos name rest :
  tokens name -> drop pos input = name ++ COLON :: rest ->
  field_line input limits head_start pos
    = field_value input limits head_start pos (MkSpan pos (pos + length name)) (pos + length name + 1).
Proof.
  intros Hname Hd. destruct (tokens_head _ Hname) as (b & l & Hbl & _ & _ & ? & ? & ? & ?).
  unfold field_line. rewrite Hd. replace (head (name ++ COLON :: rest)) with (Some b) by by rewrite Hbl.
  cbv beta iota. rewrite first_octet_field by done.
  destruct (scan_name name COLON rest Hname eq_refl) as [-> Hl].
  rewrite (proj2 (Nat.eqb_neq _ _)), (proj2 (Nat.eqb_neq _ 0)) by lia. cbn [end_].
  by rewrite (lookup_drop_app _ _ _ _ _ Hd).
Qed.

Lemma field_line_text input limits head_start pos f more :
  field_ok f -> drop pos input = field_text f ++ more ->
  Z.of_nat (length (field_text f)) <= http1_max_header_field limits ->
  field_line input limits head_start pos
    = Go (FieldLine (name_span pos f) (value_span pos f) (pos + length (field_text f))).
Proof.
  intros (Hname & Hb & Ha & Hv & [Hv1 Hv2] & Hempty) Hd Hlen.
  rewrite field_text_length in Hlen |- *.
  unfold field_text in Hd. rewrite <- !app_assoc in Hd. cbn [app] in Hd. rewrite <- !app_assoc in Hd.
  rewrite (field_line_name _ _ _ _ _ _ Hname Hd).
  apply drop_drop_app in Hd. change (COLON :: ?l) with ([COLON] ++ l) in Hd.
  apply drop_drop_app in Hd. cbn [length] in Hd.
  unfold field_value. rewrite Hd, scan_run; [| done | ].
  2: { destruct (text_value f); [|done]. by rewrite Hempty. }
  apply drop_drop_app in Hd. rewrite Hd. unfold scan_header_value. rewrite app_assoc, scan_run; [| |done].
  2: { apply Forall_app. split; [done|]. eapply Forall_impl; [exact Ha|]. apply tchar_value. }
  rewrite (app_assoc (text_value f)) in Hd.
  rewrite (proj2 (expect_crlf_Found _ _)) by (exists more; by apply drop_drop_app in Hd).
  rewrite (value_end_loop_spec _ _ _ _ _ Hd) by done. rewrite length_app.
  rewrite (proj2 (Z.ltb_ge _ _)) by lia.
  unfold name_span, value_span, value_start. do 2 f_equal. lia.
Qed.

Lemma scan_split (l : bytes) f : exists x y, l = x ++ y /\ scan l f = length x /\
  Forall (fun b => f b = true) x /\ match y with [] => True | b :: _ => f b = false end.
Proof.
  exists (take (scan l f) l), (drop (scan l f) l). split; [by rewrite take_drop|].
  split; [by rewrite length_take_le by apply scan_le|]. split; [apply scan_take|].
  destruct (drop (scan l f) l) as [|b y] eqn:Hd; [done|]. apply (scan_stop l f).
  by rewrite <- (Nat.add_0_r (scan l f)), <- lookup_drop, Hd.
Qed.

(** The value of an accepted line, with the whitespace around it. *)
Lemma field_value_sound input limits head_start field_start name pos r :
  field_value input limits head_start field_start name pos = Go r ->
  exists before value after more, drop pos input = before ++ value ++ after ++ CRLF ++ more /\
    spaces before /\ spaces after /\ Forall (fun b => is_value_byte b = true) value /\ trimmed value /\
    (value = [] -> after = []) /\
    r = FieldLine name (MkSpan (pos + length before) (pos + length before + length value))
          (pos + length (before ++ value ++ after) + 2) /\
    Z.of_nat (pos + length (before ++ value ++ after) + 2 - field_start) <= http1_max_header_field limits.
Proof.
  unfold field_value. intros H.
  destruct (scan_split (drop pos input) is_ows) as (before & rest & Hd & Hn & Hb & Hstop).
  rewrite Hn in H. pose proof (drop_drop_app _ _ _ _ Hd) as Hrest. rewrite Hrest in H.
  destruct (scan_split rest is_value_byte) as (vv & rest' & Hvv & Hn' & Hall & _).
  unfold scan_header_value in H. rewrite Hn' in H.
  destruct (expect_crlf _ _) eqn:Hcrlf; [|done..]. apply expect_crlf_Found in Hcrlf as [more Hmore].
  destruct (split_end vv) as (value & after & -> & Ha & Hlast).
  rewrite Hvv in Hrest. rewrite (drop_drop_app _ _ _ _ Hrest) in Hmore.
  rewrite (value_end_loop_spec _ _ _ _ _ Hrest) in H by done.
  destruct (Z.ltb_spec (http1_max_header_field limits)
    (Z.of_nat (pos + length before + length (value ++ after) + 2 - field_start))) as [|Hlim]; [done|].
  injection H as <-. apply Forall_app in Hall as [Hv _].
  assert (value = [] -> after = []) as Hempty.
  { intros ->. destruct after as [|b after]; [done|]. subst rest. cbn in Hstop.
    apply Forall_cons in Ha as [Hb' _]. congruence. }
  exists before, value, after, more. rewrite Hd, Hvv, Hmore, <- !app_assoc.
  rewrite !length_app in *. repeat split; try done.
  - destruct value as [|b value]; [done|]. subst rest. exact Hstop.
  - f_equal. lia.
  - lia.
Qed.

Lemma field_line_sound input limits head_start pos r :
  field_line input limits head_start pos = Go r ->
  match r with
  | SectionEnd pos' => exists more, drop pos input = CRLF ++ more /\ pos' = (pos + 2)%nat
  | FieldLine n v pos' => exists f more, field_ok f /\ drop pos input = field_text f ++ more /\
      n = name_span pos f /\ v = value_span pos f /\ pos' = (pos + length (field_text f))%nat /\
      Z.of_nat (length (field_text f)) <= http1_max_header_field limits
  end.
Proof.
  unfold field_line. destruct (drop pos input) as [|b rest] eqn:Hd; [done|]. cbn [head].
  destruct (decide (b = CR)) as [->|Hcr].
  { cbn. destruct rest as [|c rest]; [done|]. cbn. intros H.
    assert (c = LF) as -> by by repeat case_match. injection H as <-. by exists rest. }
  destruct (decide (b = LF)) as [->|Hlf]; [done|].
  destruct (decide (b = SP)) as [->|Hsp]; [done|].
  destruct (decide (b = HTAB)) as [->|Htab]; [done|].
  rewrite first_octet_field by done. rewrite <- Hd. clear b rest Hd Hcr Hlf Hsp Htab.
  destruct (scan_split (drop pos input) is_tchar) as (nm & rest & Hd & Hn & Hall & _).
  unfold scan_header_name. rewrite Hn.
  destruct (_ =? _)%nat; [done|]. destruct (Nat.eqb_spec (length nm) 0) as [|Hne]; [done|].
  cbn [end_]. destruct (input !! _) as [c|] eqn:Hc; [|done].
  case_bool_decide as Hcolon; [|done]. injection Hcolon as ->. cbn [negb]. intros H.
  rewrite <- lookup_drop, Hd, lookup_app_r, Nat.sub_diag in Hc by lia.
  destruct rest as [|c rest]; [done|]. injection Hc as ->.
  pose proof (drop_drop_app _ _ _ _ Hd) as Hcol. change (COLON :: rest) with ([COLON] ++ rest) in Hcol.
  apply drop_drop_app in Hcol. cbn [length] in Hcol.
  destruct (field_value_sound _ _ _ _ _ _ _ H)
    as (before & value & after & more & Hd' & Hb & Ha & Hv & Ht & He & -> & Hlim).
  set (f := MkFieldText nm before value after).
  assert (pos + length nm + 1 + length (before ++ value ++ after) + 2 = pos + length (field_text f))%nat
    as Hlen by (rewrite field_text_length, !length_app; cbn; lia).
  assert (tokens nm) by (split; [by intros -> | done]).
  exists f, more. split; [by unfold field_ok, f|].
  split. { rewrite Hd, <- Hcol, Hd'. unfold field_text, f. cbn.
    rewrite <- !app_assoc. cbn. by rewrite <- !app_assoc. }
  rewrite Hlen in Hlim. split; [done|]. split; [done|]. split; [done|]. lia.
Qed.

(** ** The request line *)

Definition method_span (pos : nat) (l : LineText) : Span := MkSpan pos (pos + length (text_method l)).
Definition target_start (pos : nat) (l : LineText) : nat := (pos + length (text_method l) + 1)%nat.
Definition target_span (pos : nat) (l : LineText) : Span :=
  MkSpan (target_start pos l) (target_start pos l + length (text_target l)).

Lemma line_text_length l :
  length (line_text l)
  = (length (text_method l) + 1 + length (text_target l) + 1 + length (text_version l) + 2)%nat.
Proof.
  unfold line_text. rewrite length_app. cbn [length]. rewrite length_app. cbn [length].
  rewrite length_app. cbn [length]. lia.
Qed.

(** The next octet of a buffer, and the buffer after it. *)
Lemma drop_cons {A} pos (input y : list A) b :
  drop pos input = b :: y -> input !! pos = Some b /\ drop (pos + 1) input = y.
Proof.
  intros H. split; [by rewrite <- (Nat.add_0_r pos), <- lookup_drop, H|].
  by rewrite <- drop_drop, H.
Qed.

Lemma get_range_drop {A} pos n (input x y : list A) :
  drop pos input = x ++ y -> length x = n -> x <> [] -> get_range pos (pos + n) input = Some x.
Proof.
  intros H <- Hx. pose proof (drop_length_le _ _ _ _ H Hx). unfold get_range.
  rewrite decide_True, H by lia. replace (pos + length x - pos)%nat with (length x) by lia.
  by rewrite take_app_length.
Qed.

Lemma request_line_text input limits pos l v more :
  line_ok l v -> drop pos input = line_text l ++ more ->
  Z.of_nat (length (line_text l)) <= http1_max_request_line limits ->
  request_line input limits pos
    = Go (method_span pos l, target_span pos l, v, (pos + length (line_text l))%nat).
Proof.
  intros (Hm & Hlong & Htne & Ht & Hvl & Hv) Hd Hlen. rewrite line_text_length in Hlen |- *.
  unfold line_text in Hd. rewrite <- app_assoc in Hd. cbn [app] in Hd.
  rewrite <- app_assoc in Hd. cbn [app] in Hd. rewrite <- app_assoc in Hd.
  unfold request_line. rewrite Hd. destruct (scan_name (text_method l) SP
    (text_target l ++ SP :: text_version l ++ CRLF ++ more) Hm eq_refl) as [-> Hl].
  rewrite (proj2 (Nat.ltb_ge _ _)), (proj2 (Nat.eqb_neq _ _)), (proj2 (Nat.eqb_neq _ 0)) by lia.
  cbn [end_]. apply drop_drop_app, drop_cons in Hd as [-> Hd]. rewrite Hd. cbn [negb bool_decide].
  unfold scan_target. rewrite scan_run by done.
  assert (0 < length (text_target l))%nat by (destruct (text_target l); [done | cbn; lia]).
  rewrite (proj2 (Nat.eqb_neq _ _)) by (rewrite length_app; cbn [length]; lia).
  rewrite (proj2 (Nat.eqb_neq _ 0)) by lia. apply drop_drop_app, drop_cons in Hd as [-> Hd].
  cbn [negb bool_decide decide decide_rel]. 
  rewrite (get_range_drop _ _ _ _ _ Hd Hvl), Hv by by destruct (text_version l).
  apply drop_drop_app in Hd. rewrite Hvl in Hd.
  rewrite (proj2 (expect_crlf_Found _ _)) by by exists more.
  rewrite (proj2 (Z.ltb_ge _ _)) by lia. unfold method_span, target_span, target_start.
  do 2 f_equal. lia.
Qed.

Lemma get_range_split {A} pos n (input x : list A) :
  get_range pos (pos + n) input = Some x ->
  length x = n /\ drop pos input = x ++ drop (pos + n) input.
Proof.
  unfold get_range. case_decide as Hd; [|done]. replace (pos + n - pos)%nat with n by lia.
  intros [= <-]. split; [rewrite length_take_le, ?length_drop; rewrite ?length_drop; lia|].
  by rewrite <- drop_drop, take_drop.
Qed.

Lemma request_line_sound input limits pos m t v pos' :
  request_line input limits pos = Go (m, t, v, pos') ->
  exists l more, line_ok l v /\ drop pos input = line_text l ++ more /\
    m = method_span pos l /\ t = target_span pos l /\ pos' = (pos + length (line_text l))%nat /\
    Z.of_nat (length (line_text l)) <= http1_max_request_line limits.
Proof.
  unfold request_line. destruct (scan_split (drop pos input) is_tchar) as (nm & rest & Hd & Hn & Hall & _).
  unfold scan_header_name. rewrite Hn. destruct (Nat.ltb_spec LONGEST_METHOD (length nm)); [done|].
  destruct (_ =? length (drop _ _))%nat; [done|]. destruct (Nat.eqb_spec (length nm) 0) as [|Hne]; [done|].
  cbn [end_]. destruct (input !! _) as [c|] eqn:Hc; [|done].
  case_bool_decide as Hsp; [|done]. injection Hsp as ->. cbn [negb].
  rewrite <- lookup_drop, Hd, lookup_app_r, Nat.sub_diag in Hc by lia.
  destruct rest as [|c rest]; [done|]. injection Hc as ->.
  pose proof Hd as Hr. apply drop_drop_app, drop_cons in Hr as [_ Hr]. rewrite Hr.
  destruct (scan_split rest is_target_byte) as (tg & rest' & -> & Hn' & Hall' & _).
  unfold scan_target. rewrite Hn'.
  destruct (_ =? length (tg ++ rest'))%nat; [done|]. destruct (Nat.eqb_spec (length tg) 0) as [|Hne']; [done|].
  destruct (input !! _) as [c|] eqn:Hc; [|done].
  case_bool_decide as Hsp; [|done]. injection Hsp as ->. cbn [negb].
  apply drop_drop_app in Hr. destruct rest' as [|c rest'].
  { rewrite <- (Nat.add_0_r (_ + length tg)), <- lookup_drop, Hr in Hc. done. }
  pose proof Hr as Hr'. apply drop_cons in Hr' as [Hc' Hr']. rewrite Hc in Hc'. injection Hc' as <-.
  destruct (get_range _ _ input) as [ver|] eqn:Hver; [|done].
  destruct (parse_version ver) as [v'|] eqn:Hv; [|done].
  apply get_range_split in Hver as [Hvl Hver]. rewrite Hr' in Hver.
  destruct (expect_crlf _ _) eqn:Hcrlf; [|done..]. apply expect_crlf_Found in Hcrlf as [more Hmore].
  rewrite Hmore in Hver. subst rest'.
  set (l := MkLineText nm tg ver).
  assert (length (line_text l) = length nm + 1 + length tg + 1 + length ver + 2)%nat as Hlen
    by apply line_text_length.
  destruct (Z.ltb_spec (http1_max_request_line limits) (Z.of_nat
    (pos + length nm + 1 + length tg + 1 + VERSION_LEN + 2 - pos))) as [|Hlim]; [done|].
  intros [= <- <- <- <-]. exists l, more.
  assert (tokens nm) by (split; [by intros -> | done]).
  split. { unfold line_ok, l. cbn. repeat split; try done; lia || (by intros ->). }
  split. { rewrite Hd. unfold line_text, l. cbn. rewrite <- app_assoc. cbn. rewrite <- app_assoc. cbn.
    by rewrite Hver, <- app_assoc. }
  split; [done|]. split; [done|]. split; lia.
Qed.
