(* ===== verification/H1Request.v ===== *)
(** * What the request parser accepts

    The parser of [H1Head] against the grammar of [H1Grammar]: it accepts exactly the
    texts of requests within the limits, the spans denote the parts of the text, a
    buffer cut anywhere inside a request waits for more, and the body of an accepted
    request is delimited in one way only. *)
From S2P Require Import Prelude Scalar HttpTypes Limits H1List H1Head H1Grammar.

Record RequestText : Type := MkRequestText {
  empty_lines : nat;
  line : LineText;
  field_lines : list FieldText;
}.

Definition fields_text (fs : list FieldText) : bytes := mbind field_text fs.

Definition empties (n : nat) : bytes := concat (replicate n CRLF).

Definition request_text (r : RequestText) : bytes :=
  empties (empty_lines r) ++ line_text (line r) ++ fields_text (field_lines r) ++ CRLF.

(** The request without the empty lines before it. *)
Definition head_text (r : RequestText) : bytes :=
  line_text (line r) ++ fields_text (field_lines r) ++ CRLF.

(** A request of version [v] that the limits and a table of [slots] entries allow. *)
Definition request_ok (limits : Limits.Http1Limits) (slots : nat) (v : Version) (r : RequestText) : Prop :=
  line_ok (line r) v /\ Forall field_ok (field_lines r) /\
  (empty_lines r = 0%nat \/ Z.of_nat (2 * empty_lines r) <= http1_max_head_bytes limits) /\
  Z.of_nat (length (line_text (line r))) <= http1_max_request_line limits /\
  Forall (fun f => Z.of_nat (length (field_text f)) <= http1_max_header_field limits) (field_lines r) /\
  (field_lines r = [] \/ Z.of_nat (length (field_lines r)) <= http1_max_header_count limits) /\
  (length (field_lines r) <= slots)%nat /\
  Z.of_nat (length (head_text r)) <= http1_max_head_bytes limits.

(** The table entries of the field lines that start at [pos]. *)
Fixpoint entries (pos : nat) (fs : list FieldText) : list Field :=
  match fs with
  | [] => []
  | f :: fs =>
      MkField (name_span pos f) (value_span pos f) (HeaderName_parse (text_name f))
        :: entries (pos + length (field_text f)) fs
  end.

Definition interpret_all (input : bytes) (version : Version) (seen : Interpreted) (l : list Field)
  : Interpreted :=
  fold_left (fun seen f => interpret seen (id f) (value f) input version) l seen.

(** ** Empty lines *)

Lemma length_empties n : length (empties n) = (2 * n)%nat.
Proof. unfold empties. induction n; cbn in *; lia. Qed.

Lemma empties_S n : empties (S n) = CR :: LF :: empties n.
Proof. done. Qed.

Definition starts_crlf (l : bytes) : bool := match l with CR :: LF :: _ => true | _ => false end.

Lemma starts_crlf_true l : starts_crlf l = true -> exists r, l = CR :: LF :: r.
Proof.
  destruct l as [|b [|c r]]; cbn [starts_crlf]; [done| |]; intros H; [by repeat case_match|].
  exists r. by repeat case_match.
Qed.

Lemma skip_empty_stop limits rest pos : starts_crlf rest = false -> skip_empty limits rest pos = Ok pos.
Proof.
  destruct rest as [|b [|c rest]]; cbn [starts_crlf skip_empty]; [done|by intros _; repeat case_match|].
  intros H. by repeat case_match.
Qed.

Lemma skip_empty_text limits n : forall rest pos,
  starts_crlf rest = false -> (n = 0%nat \/ Z.of_nat (pos + 2 * n) <= http1_max_head_bytes limits) ->
  skip_empty limits (empties n ++ rest) pos = Ok (pos + 2 * n)%nat.
Proof.
  induction n as [|n IH]; intros rest pos Hr Hl.
  - cbn [empties replicate concat app]. rewrite Nat.mul_0_r, Nat.add_0_r. by apply skip_empty_stop.
  - rewrite empties_S. cbn [app skip_empty]. rewrite (proj2 (Z.ltb_ge _ _)) by lia.
    rewrite IH; [f_equal; lia | done | right; lia].
Qed.

Lemma skip_empty_sound limits m : forall rest pos pos', (length rest <= m)%nat ->
  skip_empty limits rest pos = Ok pos' ->
  exists n rest', rest = empties n ++ rest' /\ starts_crlf rest' = false /\ pos' = (pos + 2 * n)%nat /\
    (n = 0%nat \/ Z.of_nat (pos + 2 * n) <= http1_max_head_bytes limits).
Proof.
  induction m as [|m IH]; intros rest pos pos' Hm H.
  { destruct rest; [|cbn in Hm; lia]. injection H as <-. exists 0%nat, []. repeat split; [lia | by left]. }
  destruct (starts_crlf rest) eqn:Hr.
  - apply starts_crlf_true in Hr as [r ->].
    cbn [skip_empty] in H. destruct (Z.ltb_spec (http1_max_head_bytes limits) (Z.of_nat (pos + 2))); [done|].
    apply IH in H as (n & rest' & -> & ? & -> & Hl); [|cbn [length] in Hm; lia].
    exists (S n), rest'. repeat split; [done | lia | right; lia].
  - exists 0%nat, rest. split; [done|]. split; [done|]. split; [|by left].
    rewrite skip_empty_stop in H by done. injection H. lia.
Qed.

(** ** The field lines *)

Lemma field_line_end input limits head_start pos more :
  drop pos input = CRLF ++ more -> field_line input limits head_start pos = Go (SectionEnd (pos + 2)).
Proof. intros H. unfold field_line. by rewrite H. Qed.

Lemma length_entries pos fs : length (entries pos fs) = length fs.
Proof. revert pos. induction fs; intros pos; cbn; auto. Qed.

(** The table with [l] written from [count] on. *)
Definition written (table : list Field) (count : nat) (l : list Field) : list Field :=
  take count table ++ l ++ drop (count + length l) table.

Lemma written_nil table count : written table count [] = table.
Proof. unfold written. cbn. by rewrite Nat.add_0_r, take_drop. Qed.

Lemma written_cons table count f l : (count < length table)%nat ->
  written (<[count := f]> table) (count + 1) l = written table count (f :: l).
Proof.
  intros H. unfold written. cbn [length]. rewrite insert_take_drop by done.
  rewrite take_app_ge, drop_app_ge by (rewrite length_take; lia).
  rewrite length_take, Nat.min_l by lia. replace (count + 1 - count)%nat with 1%nat by lia. cbn [take].
  replace (count + 1 + length l - count)%nat with (S (length l)) by lia. cbn [drop].
  rewrite drop_drop, <- app_assoc. by replace (S count + length l)%nat with (count + S (length l))%nat by lia.
Qed.

Lemma name_span_of input pos f more :
  drop pos input = field_text f ++ more -> Span_of (name_span pos f) input = text_name f.
Proof. unfold field_text. rewrite <- app_assoc. intros H. by apply Span_of_drop in H. Qed.

Lemma value_span_of input pos f more :
  drop pos input = field_text f ++ more -> Span_of (value_span pos f) input = text_value f.
Proof.
  unfold field_text. rewrite <- app_assoc. cbn [app]. rewrite <- !app_assoc. intros H.
  apply drop_drop_app, drop_cons in H as [_ H]. apply drop_drop_app in H. by apply Span_of_drop in H.
Qed.

Lemma fields_complete input limits version head_start fs : forall fuel pos table count seen more,
  Forall field_ok fs -> Forall (fun f => Z.of_nat (length (field_text f)) <= http1_max_header_field limits) fs ->
  drop pos input = fields_text fs ++ CRLF ++ more ->
  (count + length fs <= length table)%nat ->
  (fs = [] \/ Z.of_nat (count + length fs) <= http1_max_header_count limits) ->
  (length fs < fuel)%nat ->
  fields fuel input limits version head_start pos table count seen
  = (written table count (entries pos fs),
     Go ((pos + length (fields_text fs) + 2)%nat, (count + length fs)%nat,
         interpret_all input version seen (entries pos fs))).
Proof.
  induction fs as [|f fs IH]; intros [|fuel] pos table count seen more Hok Hlen Hd Ht Hc Hf;
    try (cbn in Hf; lia); cbn [fields].
  - erewrite field_line_end by exact Hd. cbn. by rewrite written_nil, !Nat.add_0_r.
  - apply Forall_cons in Hok as [Hf' Hok]. apply Forall_cons in Hlen as [Hl Hlen].
    unfold fields_text in Hd. cbn [mbind list_bind] in Hd. rewrite <- app_assoc in Hd.
    rewrite (field_line_text _ _ _ _ _ _ Hf' Hd Hl). cbn [length] in *.
    destruct Hc as [|Hc]; [done|]. rewrite (proj2 (Z.leb_gt _ _)) by lia.
    destruct (lookup_lt_is_Some_2 table count) as [old ->]; [lia|].
    rewrite (name_span_of _ _ _ _ Hd). pose proof (drop_drop_app _ _ _ _ Hd) as Hd'.
    erewrite IH; [| done | done | exact Hd' | rewrite length_insert; lia | right; lia | lia].
    cbn [entries interpret_all fold_left id value]. rewrite written_cons by lia.
    unfold fields_text. cbn [mbind list_bind]. rewrite length_app.
    match goal with |- (_, Go (?a, ?b, _)) = (_, Go (?c, ?d, _)) =>
      replace a with c by lia; replace b with d by lia end. done.
Qed.

Lemma fields_sound input limits version head_start fuel : forall pos table count seen table' pos' count' seen',
  fields fuel input limits version head_start pos table count seen = (table', Go (pos', count', seen')) ->
  exists fs more, Forall field_ok fs /\
    Forall (fun f => Z.of_nat (length (field_text f)) <= http1_max_header_field limits) fs /\
    drop pos input = fields_text fs ++ CRLF ++ more /\
    (fs = [] \/ (count + length fs <= length table)%nat /\ Z.of_nat (count + length fs) <= http1_max_header_count limits) /\
    table' = written table count (entries pos fs) /\ pos' = (pos + length (fields_text fs) + 2)%nat /\
    count' = (count + length fs)%nat /\ seen' = interpret_all input version seen (entries pos fs).
Proof.
  induction fuel as [|fuel IH]; intros pos table count seen table' pos' count' seen'; cbn [fields]; [done|].
  destruct (field_line input limits head_start pos) as [r|] eqn:Hl; [|done].
  apply field_line_sound in Hl. destruct r as [p|n v p].
  - destruct Hl as (more & Hd & ->). intros [= <- <- <- <-]. exists [], more. cbn.
    rewrite written_nil, !Nat.add_0_r. repeat split; [constructor.. | done | by left].
  - destruct Hl as (f & more & Hok & Hd & -> & -> & -> & Hlen).
    destruct (Z.leb_spec (http1_max_header_count limits) (Z.of_nat count)) as [|Hmax]; [done|].
    destruct (table !! count) as [old|] eqn:Hold; [|done]. apply lookup_lt_Some in Hold.
    rewrite (name_span_of _ _ _ _ Hd). intros H.
    apply IH in H as (fs & more' & Hoks & Hlens & Hd' & Hc & -> & -> & -> & ->).
    exists (f :: fs), more'. rewrite (drop_drop_app _ _ _ _ Hd) in Hd'. subst more.
    rewrite length_insert in Hc. cbn [entries interpret_all fold_left id value length].
    unfold fields_text in *. cbn [mbind list_bind]. rewrite written_cons, length_app by done.
    repeat split; try (by constructor); try lia.
    + by rewrite Hd, app_assoc.
    + right. destruct Hc as [->|[? ?]]; [cbn [length]; lia | lia].
Qed.

(** ** The whole head *)

Definition line_pos (r : RequestText) : nat := (2 * empty_lines r)%nat.
Definition fields_pos (r : RequestText) : nat := (line_pos r + length (line_text (line r)))%nat.
Definition head_entries (r : RequestText) : list Field := entries (fields_pos r) (field_lines r).

(** What the parser concludes from the parts of a request. *)
Definition concluded (input : bytes) (v : Version) (r : RequestText) : result Reject Status :=
  conclude input (method_span (line_pos r) (line r)) (target_span (line_pos r) (line r)) v
    (length (request_text r)) (length (field_lines r))
    (interpret_all input v Interpreted_default (head_entries r)).

Lemma length_request_text r :
  length (request_text r) = (fields_pos r + length (fields_text (field_lines r)) + 2)%nat.
Proof.
  unfold request_text, fields_pos, line_pos. rewrite !length_app, length_empties. cbn [length]. lia.
Qed.

Lemma length_head_text r :
  length (head_text r) = (length (line_text (line r)) + length (fields_text (field_lines r)) + 2)%nat.
Proof. unfold head_text. rewrite !length_app. cbn [length]. lia. Qed.

Lemma length_fields_text fs : (length fs <= length (fields_text fs))%nat.
Proof.
  unfold fields_text. induction fs as [|f fs IH]; cbn [length mbind list_bind]; [lia|].
  rewrite length_app, field_text_length. lia.
Qed.

Lemma line_text_head l v more : line_ok l v ->
  exists b c rest, line_text l ++ more = b :: c :: rest /\ is_tchar b = true /\ b <> CR /\
    starts_crlf (line_text l ++ more) = false.
Proof.
  intros [Hm _]. destruct (tokens_head _ Hm) as (b & m & Hbm & Ht & _ & Hcr & _).
  unfold line_text. rewrite Hbm. destruct m as [|c m]; cbn; do 3 eexists;
    (split; [reflexivity|]); (split; [done|]); (split; [done|]); by repeat case_match.
Qed.

Lemma drop_line_pos r more :
  drop (line_pos r) (request_text r ++ more)
  = line_text (line r) ++ fields_text (field_lines r) ++ CRLF ++ more.
Proof.
  unfold request_text, line_pos. rewrite <- length_empties, <- !app_assoc, drop_app_length. done.
Qed.

Lemma parse_complete table limits v r more :
  request_ok limits (length table) v r ->
  parse (request_text r ++ more) table limits
  = (written table 0 (head_entries r), concluded (request_text r ++ more) v r).
Proof.
  intros (Hl & Hf & He & Hll & Hfl & Hc & Ht & Hh). unfold parse.
  set (input := request_text r ++ more).
  pose proof (drop_line_pos r more) as Hd. fold input in Hd.
  assert (skip_empty limits input 0 = Ok (line_pos r)) as ->.
  { unfold input, request_text. rewrite <- app_assoc.
    destruct (line_text_head (line r) v (fields_text (field_lines r) ++ CRLF ++ more) Hl)
      as (_ & _ & _ & _ & _ & _ & Hs).
    apply (skip_empty_text limits (empty_lines r) _ 0); [by rewrite <- !app_assoc | done]. }
  destruct (line_text_head (line r) v (fields_text (field_lines r) ++ CRLF ++ more) Hl)
    as (b & c & rest & Hbc & _).
  assert (length input = length (request_text r) + length more)%nat as Hlen by apply length_app.
  pose proof (length_request_text r). pose proof (length_head_text r).
  rewrite (proj2 (Nat.leb_gt _ _)) by (unfold fields_pos in *; lia).
  cbn [orb]. rewrite bool_decide_eq_false_2 by by rewrite Hd, Hbc.
  rewrite (request_line_text _ _ _ _ _ _ Hl Hd Hll). apply drop_drop_app in Hd.
  pose proof (length_fields_text (field_lines r)).
  rewrite (fields_complete _ _ _ _ _ _ _ _ _ _ _ Hf Hfl Hd) by (done || lia).
  fold (fields_pos r). rewrite (proj2 (Z.ltb_ge _ _)) by (unfold fields_pos in *; lia).
  f_equal. unfold concluded. f_equal. lia.
Qed.

Lemma conclude_Complete input m t v pos count seen s :
  conclude input m t v pos count seen = Ok s -> exists h, s = Complete h.
Proof.
  unfold conclude. destruct (classify_target _ _ _) as [[[form path] auth]|]; [|done].
  do 3 (destruct (_ : bool); [done|]). destruct (framing _ _ _); [|done]. intros [= <-]. by eexists.
Qed.

(** Leaving the parser early is never a head. *)
Definition no_head {A} (f : flow A) : Prop :=
  match f with Go _ => True | Return r => forall h, r <> Ok (Complete h) end.

Lemma need_more_no_head input head_start limits h : need_more input head_start limits <> Ok (Complete h).
Proof. unfold need_more. by case_match. Qed.
Lemma need_more_line_no_head input pos limits h : need_more_line input pos limits <> Ok (Complete h).
Proof. unfold need_more_line. by case_match. Qed.

Ltac no_head :=
  repeat case_match; cbn; try done; intros h;
  (apply need_more_no_head || apply need_more_line_no_head || done).

Lemma request_line_no_head input limits pos : no_head (request_line input limits pos).
Proof. unfold request_line, refuse. no_head. Qed.

Lemma field_line_no_head input limits head_start pos : no_head (field_line input limits head_start pos).
Proof. unfold field_line, field_value, refuse. no_head. Qed.

Lemma fields_no_head fuel input limits version head_start : forall pos table count seen,
  no_head (fields fuel input limits version head_start pos table count seen).2.
Proof.
  induction fuel as [|fuel IH]; intros pos table count seen; cbn [fields]; [done|].
  pose proof (field_line_no_head input limits head_start pos) as Hl.
  destruct (field_line input limits head_start pos) as [[]|]; [done| |done].
  destruct (_ <=? _); [done|]. destruct (table !! count); [apply IH | done].
Qed.

Lemma parse_sound input table limits table' h :
  parse input table limits = (table', Ok (Complete h)) ->
  exists r v more, request_ok limits (length table) v r /\ input = request_text r ++ more /\
    table' = written table 0 (head_entries r) /\ concluded input v r = Ok (Complete h).
Proof.
  unfold parse. destruct (skip_empty limits input 0) as [pos|] eqn:Hs; [|done].
  apply (skip_empty_sound limits (length input)) in Hs as (n & rest & Hin & _ & -> & Hn); [|done].
  rewrite Nat.add_0_l in *. destruct (_ || _); [done|].
  pose proof (request_line_no_head input limits (2 * n)) as Hno.
  destruct (request_line input limits (2 * n)) as [[[[m t] v] pos]|] eqn:Hl.
  2: { intros [= _ ->]. by destruct (Hno h). }
  apply request_line_sound in Hl as (l & more & Hl & Hd & -> & -> & -> & Hll).
  pose proof (fields_no_head (length input) input limits v (2 * n) (2 * n + length (line_text l)) table 0
    Interpreted_default) as Hno'.
  destruct (fields _ _ _ _ _ _ _ _ _) as [tb [[[pos count] seen]|r']] eqn:Hf.
  2: { intros [= _ ->]. by destruct (Hno' h). }
  apply fields_sound in Hf as (fs & more' & Hok & Hfl & Hd' & Hc & -> & -> & -> & ->).
  destruct (Z.ltb_spec (http1_max_head_bytes limits)
    (Z.of_nat (2 * n + length (line_text l) + length (fields_text fs) + 2 - 2 * n))) as [|Hh]; [done|].
  intros [= <- Hconc].
  assert (rest = line_text l ++ more) as ->.
  { rewrite <- Hd, Hin, <- length_empties, drop_app_length. done. }
  rewrite (drop_drop_app _ _ _ _ Hd) in Hd'. subst more.
  exists (MkRequestText n l fs), v, more'.
  pose proof (length_head_text (MkRequestText n l fs)) as Hlh. cbn [line field_lines] in Hlh.
  pose proof (length_request_text (MkRequestText n l fs)) as Hlr. unfold fields_pos, line_pos in Hlr.
  cbn [line field_lines empty_lines] in Hlr.
  split. { unfold request_ok. cbn [line field_lines empty_lines]. repeat split; try done; try apply Hl.
    - destruct Hc as [->|[_ Hc]]; [by left | by right].
    - destruct Hc as [->|[Hc _]]; [cbn; lia | done].
    - lia. }
  split. { rewrite Hin. unfold request_text. cbn [line field_lines empty_lines]. by rewrite <- !app_assoc. }
  split; [done|]. unfold concluded. rewrite Hlr. exact Hconc.
Qed.

(** ** Spans stay inside the head *)

Lemma Span_of_prefix s input more :
  (end_ s <= length input)%nat -> Span_of s (input ++ more) = Span_of s input.
Proof.
  intros H. unfold Span_of, get_range. rewrite length_app.
  destruct (decide (start s <= end_ s <= length input)%nat) as [Hd|Hd].
  - rewrite decide_True by lia. cbn. rewrite drop_app_le, take_app_le by (rewrite ?length_drop; lia). done.
  - rewrite decide_False by lia. done.
Qed.

Definition within (n : nat) (o : option Span) : Prop :=
  match o with Some s => (end_ s <= n)%nat | None => True end.
Definition seen_within (n : nat) (seen : Interpreted) : Prop :=
  within n (seen_host seen) /\ within n (content_length seen).

Lemma interpret_prefix input more n seen id value v :
  (end_ value <= n)%nat -> n = length input -> seen_within n seen ->
  interpret seen id value (input ++ more) v = interpret seen id value input v /\
  seen_within n (interpret seen id value input v).
Proof.
  intros Hv -> [Hh Hc]. destruct seen as [hc h clc cl te ti tl to c ka uo uf e].
  cbn [seen_host content_length] in *. unfold interpret, seen_within. rewrite Span_of_prefix by done.
  split; [done|]. destruct id as [[]|]; cbn [seen_host content_length]; try done.
  - by destruct (fold_left connection_option _ _) as [[? ?] ?].
  - by destruct cl.
  - by destruct h.
  - by destruct (fold_left transfer_coding _ _) as [[[? ?] ?] ?].
Qed.

Lemma interpret_all_prefix input more v l : forall seen,
  Forall (fun f => (end_ (value f) <= length input)%nat) l -> seen_within (length input) seen ->
  interpret_all (input ++ more) v seen l = interpret_all input v seen l /\
  seen_within (length input) (interpret_all input v seen l).
Proof.
  unfold interpret_all. induction l as [|f l IH]; intros seen Hl Hs; cbn [fold_left]; [done|].
  apply Forall_cons in Hl as [Hf Hl].
  destruct (interpret_prefix input more _ seen (id f) (value f) v Hf eq_refl Hs) as [-> Hs'].
  by apply IH.
Qed.

Lemma entries_within fs : forall pos,
  Forall (fun f => (end_ (value f) <= pos + length (fields_text fs))%nat) (entries pos fs).
Proof.
  unfold fields_text. induction fs as [|f fs IH]; intros pos; cbn [entries mbind list_bind]; constructor.
  - cbn [value value_span end_]. rewrite length_app, field_text_length. unfold value_start. lia.
  - eapply Forall_impl; [apply IH|]. intros x Hx. cbn in Hx. rewrite length_app. lia.
Qed.

Lemma conclude_prefix input more m t v pos count seen :
  (end_ m <= length input)%nat -> (end_ t <= length input)%nat -> seen_within (length input) seen ->
  conclude (input ++ more) m t v pos count seen = conclude input m t v pos count seen.
Proof.
  intros Hm Ht [Hh Hc]. unfold conclude, classify_target, framing.
  rewrite !(Span_of_prefix m), !(Span_of_prefix t) by done.
  assert (match seen_host seen with
    | Some host => negb (is_host_value (Span_of host (input ++ more))) | None => false end
    = match seen_host seen with
    | Some host => negb (is_host_value (Span_of host input)) | None => false end) as ->.
  { destruct (seen_host seen); [|done]. by rewrite Span_of_prefix. }
  destruct (content_length seen) as [s|]; [|done]. by rewrite (Span_of_prefix s).
Qed.

(** The verdict on a request is that of its text, whatever follows. *)
Lemma concluded_prefix v r more : concluded (request_text r ++ more) v r = concluded (request_text r) v r.
Proof.
  unfold concluded.
  destruct (interpret_all_prefix (request_text r) more v (head_entries r) Interpreted_default) as [-> Hs].
  { eapply Forall_impl; [apply entries_within|]. intros f Hf. cbv beta in *.
    rewrite length_request_text. lia. }
  { done. }
  pose proof (length_request_text r). unfold fields_pos in *. pose proof (line_text_length (line r)).
  apply conclude_prefix; [..| done]; unfold method_span, target_span, target_start; cbn [end_]; lia.
Qed.

(** ** A request that is cut *)

(** Where a cut falls: inside the first part or after it. *)
Lemma app_cut {A} (x z a y : list A) :
  x ++ z = a ++ y -> (exists w, w <> [] /\ a = x ++ w) \/ (exists x2, x = a ++ x2 /\ x2 ++ z = y).
Proof.
  intros H. apply app_eq_app in H as (l & [[-> ->]|[-> ->]]); [right; by exists l|].
  destruct l as [|b l]; [right; exists []; by rewrite !app_nil_r|]. left. by exists (b :: l).
Qed.

Lemma crlf_cut (x w : bytes) : w <> [] -> x ++ w = CRLF -> x = [] \/ x = [CR].
Proof.
  intros Hw H. destruct x as [|b [|c x]]; [by left | injection H as -> _; by right |].
  injection H as _ _ H. by destruct x, w.
Qed.

Lemma expect_crlf_cut input at_ (x : bytes) :
  x = [] \/ x = [CR] -> drop at_ input = x -> expect_crlf input at_ = LinePartial.
Proof. intros Hx H. rewrite expect_crlf_drop, H. by destruct Hx as [-> | ->]. Qed.

Lemma field_value_cut input limits head_start field_start name pos s t :
  Forall (fun b => is_value_byte b = true) s -> (t = [] \/ t = [CR]) -> drop pos input = s ++ t ->
  field_value input limits head_start field_start name pos = Return (need_more input head_start limits).
Proof.
  intros Hs Ht Hd. unfold field_value. rewrite Hd.
  destruct (scan_split s is_ows) as (s1 & s2 & -> & _ & Hs1 & Hs2).
  assert (scan ((s1 ++ s2) ++ t) is_ows = length s1) as ->.
  { rewrite <- app_assoc. apply scan_run; [done|].
    destruct s2; [by destruct Ht as [-> | ->] | done]. }
  rewrite <- app_assoc in Hd. apply drop_drop_app in Hd. rewrite Hd.
  apply Forall_app in Hs as [_ Hs]. unfold scan_header_value.
  rewrite scan_run by (done || by destruct Ht as [-> | ->]).
  apply drop_drop_app in Hd. by rewrite (expect_crlf_cut _ _ t).
Qed.

Lemma field_line_cut_name input limits head_start pos x w :
  tokens (x ++ w) -> drop pos input = x ->
  field_line input limits head_start pos = Return (need_more input head_start limits).
Proof.
  intros Hname Hd. unfold field_line. rewrite Hd. destruct x as [|b x]; [done|].
  destruct (tokens_head _ Hname) as (b' & l & [= <- _] & _ & _ & ? & ? & ? & ?). cbn [head].
  cbv beta iota. rewrite first_octet_field by done. destruct Hname as [_ Hall].
  apply Forall_app in Hall as [Hall _]. unfold scan_header_name. by rewrite scan_all, Nat.eqb_refl.
Qed.

Lemma field_line_cut input limits head_start pos f x w :
  field_ok f -> w <> [] -> field_text f = x ++ w -> drop pos input = x ->
  field_line input limits head_start pos = Return (need_more input head_start limits).
Proof.
  intros (Hname & Hb & Ha & Hv & _) Hw Hf Hd. symmetry in Hf. unfold field_text in Hf.
  apply app_cut in Hf as [(w' & _ & Heq)|(x2 & -> & Hx2)].
  { apply (field_line_cut_name _ _ _ _ x w'); [by rewrite <- Heq | done]. }
  destruct x2 as [|c y].
  { rewrite app_nil_r in Hd. apply (field_line_cut_name _ _ _ _ (text_name f) []); [|done].
    by rewrite app_nil_r. }
  injection Hx2 as -> Hy. rewrite (field_line_name _ _ _ _ _ _ Hname Hd).
  apply drop_drop_app, drop_cons in Hd as [_ Hd].
  rewrite !app_assoc in Hy. assert (Forall (fun b => is_value_byte b = true)
    ((before f ++ text_value f) ++ after f)) as Hall.
  { apply Forall_app; split; [apply Forall_app; split|]; try done;
      (eapply Forall_impl; [eassumption|]; apply tchar_value). }
  apply app_cut in Hy as [(w' & _ & Heq)|(t & -> & Ht)].
  - apply (field_value_cut _ _ _ _ _ _ y []); [| by left | by rewrite app_nil_r].
    rewrite Heq in Hall. by apply Forall_app in Hall as [Hall _].
  - eapply field_value_cut; [exact Hall | by eapply crlf_cut | exact Hd].
Qed.

Lemma fields_cut input limits version head_start fs : forall fuel pos table count seen x w,
  Forall field_ok fs -> Forall (fun f => Z.of_nat (length (field_text f)) <= http1_max_header_field limits) fs ->
  drop pos input = x -> x ++ w = fields_text fs ++ CRLF -> w <> [] ->
  (count + length fs <= length table)%nat ->
  (fs = [] \/ Z.of_nat (count + length fs) <= http1_max_header_count limits) ->
  need_more input head_start limits = Ok Partial ->
  exists table', fields fuel input limits version head_start pos table count seen = (table', Return (Ok Partial)).
Proof.
  induction fs as [|f fs IH]; intros [|fuel] pos table count seen x w Hok Hlen Hd Hx Hw Ht Hc Hm;
    cbn [fields]; try by eexists.
  - exists table. unfold field_line. rewrite Hd, Hm.
    destruct (crlf_cut x w Hw Hx) as [-> | ->]; done.
  - apply Forall_cons in Hok as [Hf Hok]. apply Forall_cons in Hlen as [Hl Hlen].
    unfold fields_text in Hx. cbn [mbind list_bind] in Hx. rewrite <- app_assoc in Hx.
    apply app_cut in Hx as [(w' & Hw' & Heq)|(x2 & -> & Hx2)].
    + rewrite (field_line_cut _ _ _ _ _ _ _ Hf Hw' Heq Hd), Hm. by eexists.
    + rewrite (field_line_text _ _ _ _ _ _ Hf Hd Hl). cbn [length] in *.
      destruct Hc as [|Hc]; [done|]. rewrite (proj2 (Z.leb_gt _ _)) by lia.
      destruct (lookup_lt_is_Some_2 table count) as [old ->]; [lia|].
      apply drop_drop_app in Hd. eapply IH; try done; [rewrite length_insert; lia | right; lia].
Qed.

Lemma request_line_cut input limits pos l v x w :
  line_ok l v -> drop pos input = x -> x <> [] -> w <> [] -> line_text l = x ++ w ->
  Z.of_nat (length (line_text l)) <= http1_max_request_line limits ->
  request_line input limits pos = Return (Ok Partial).
Proof.
  intros (Hm & Hlong & Htne & Ht & Hvl & Hv) Hd Hxne Hw Hx Hlen.
  assert (need_more_line input pos limits = Ok Partial) as Hmore.
  { unfold need_more_line. rewrite <- length_drop, Hd. apply (f_equal length) in Hx.
    rewrite length_app in Hx. by rewrite (proj2 (Z.ltb_ge _ _)) by lia. }
  assert (forall y, Forall (fun b => is_tchar b = true) y -> (length y <= LONGEST_METHOD)%nat ->
    drop pos input = y -> request_line input limits pos = Return (Ok Partial)) as Hmethod.
  { intros y Hy Hyl Hyd. unfold request_line. rewrite Hyd. unfold scan_header_name.
    rewrite scan_all by done. by rewrite (proj2 (Nat.ltb_ge _ _)), Nat.eqb_refl by done. }
  symmetry in Hx. unfold line_text in Hx. apply app_cut in Hx as [(w' & _ & Heq)|(x2 & -> & Hx2)].
  { apply (Hmethod x); [| |done]; [destruct Hm as [_ Hm] |]; rewrite Heq in *.
    - by apply Forall_app in Hm as [Hm _].
    - rewrite length_app in Hlong. lia. }
  destruct x2 as [|c x3].
  { rewrite app_nil_r in Hd. destruct Hm. by apply (Hmethod (text_method l)). }
  injection Hx2 as -> Hx3. unfold request_line. rewrite Hd.
  destruct (scan_name (text_method l) SP x3 Hm eq_refl) as [-> Hl].
  rewrite (proj2 (Nat.ltb_ge _ _)), (proj2 (Nat.eqb_neq _ _)), (proj2 (Nat.eqb_neq _ 0)) by lia.
  cbn [end_]. apply drop_drop_app, drop_cons in Hd as [-> Hd]. rewrite Hd. cbn [negb bool_decide].
  rewrite Hmore. unfold scan_target.
  apply app_cut in Hx3 as [(w' & _ & Heq)|(x4 & -> & Hx4)].
  { rewrite Heq in Ht. apply Forall_app in Ht as [Ht _].
    rewrite scan_all by done. by rewrite Nat.eqb_refl. }
  destruct x4 as [|c x5].
  { rewrite app_nil_r, scan_all by done. by rewrite Nat.eqb_refl. }
  injection Hx4 as -> Hx5. rewrite scan_run by done.
  assert (0 < length (text_target l))%nat by (destruct (text_target l); [done | cbn; lia]).
  rewrite (proj2 (Nat.eqb_neq _ _)) by (rewrite length_app; cbn [length]; lia).
  rewrite (proj2 (Nat.eqb_neq _ 0)) by lia. apply drop_drop_app, drop_cons in Hd as [-> Hd].
  cbn [negb bool_decide decide decide_rel].
  apply app_cut in Hx5 as [(w' & Hw' & Heq)|(x6 & -> & Hx6)].
  - apply (f_equal length) in Heq. rewrite length_app, Hvl, <- Hd, length_drop in Heq.
    destruct (get_range _ _ input) as [ver|] eqn:Hver; [|done]. exfalso.
    unfold get_range in Hver. case_decide; [|done]. destruct w'; [done|]. cbn [length] in Heq. lia.
  - rewrite (get_range_drop _ _ _ _ _ Hd Hvl), Hv by by destruct (text_version l).
    apply drop_drop_app in Hd. rewrite Hvl in Hd.
    by rewrite (expect_crlf_cut _ _ x6) by (done || by eapply crlf_cut).
Qed.

Lemma empties_cut n : forall x z y, x ++ z = empties n ++ y -> (length x <= 2 * n)%nat ->
  exists m, (m <= n)%nat /\ (x = empties m \/ x = empties m ++ [CR]).
Proof.
  induction n as [|n IH]; intros x z y Hx Hl.
  { exists 0%nat. split; [done|]. destruct x; [by left | cbn in Hl; lia]. }
  rewrite empties_S in Hx. destruct x as [|b [|c x]].
  - exists 0%nat. split; [lia | by left].
  - injection Hx as -> _. exists 0%nat. split; [lia | by right].
  - injection Hx as -> -> Hx. cbn [length] in Hl. destruct (IH x z y Hx ltac:(lia)) as (m & Hm & Hxm).
    exists (S m). split; [lia|]. rewrite empties_S. destruct Hxm as [-> | ->]; [by left | by right].
Qed.

Lemma parse_cut table limits v r x w :
  request_ok limits (length table) v r -> w <> [] -> request_text r = x ++ w ->
  exists table', parse x table limits = (table', Ok Partial).
Proof.
  intros (Hl & Hf & He & Hll & Hfl & Hc & Ht & Hh) Hw Hx. unfold parse.
  destruct (Nat.le_gt_cases (length x) (2 * empty_lines r)) as [Hle|Hgt].
  - exists table. destruct (empties_cut (empty_lines r) x w _ (eq_sym Hx) Hle) as (m & Hm & Hxm).
    assert (exists y, x = empties m ++ y /\ (y = [] \/ y = [CR])) as (y & -> & Hy).
    { destruct Hxm as [-> | ->]; [exists []; rewrite app_nil_r | exists [CR]]; naive_solver. }
    rewrite (skip_empty_text limits m y 0) by (lia || by destruct Hy as [-> | ->]).
    rewrite Nat.add_0_l, <- length_empties, drop_app_length, length_app.
    destruct Hy as [-> | ->]; [by rewrite (proj2 (Nat.leb_le _ _)) by (cbn; lia)|].
    rewrite orb_comm. by rewrite bool_decide_eq_true_2.
  - symmetry in Hx. unfold request_text in Hx.
    apply app_cut in Hx as [(w' & Hw' & Heq)|(y & -> & Hy)].
    { exfalso. apply (f_equal length) in Heq. rewrite length_empties, length_app in Heq. lia. }
    rewrite length_app, length_empties in Hgt.
    destruct y as [|b y]; [cbn in Hgt; lia|].
    destruct (line_text_head (line r) v (fields_text (field_lines r) ++ CRLF) Hl)
      as (b' & c & rest & Hbc & _ & Hb' & _).
    assert (b = b') as -> by (rewrite <- Hy in Hbc; by injection Hbc).
    assert (starts_crlf (b' :: y) = false) as Hs by (cbn; destruct y; by repeat case_match).
    rewrite (skip_empty_text limits (empty_lines r) _ 0 Hs He), Nat.add_0_l.
    rewrite <- length_empties, drop_app_length.
    rewrite (proj2 (Nat.leb_gt _ _)) by (rewrite length_app; cbn [length]; lia).
    rewrite bool_decide_eq_false_2 by (intros [= ? ?]; done). cbn [orb].
    set (input := empties (empty_lines r) ++ b' :: y) in *.
    assert (drop (length (empties (empty_lines r))) input = b' :: y) as Hd by apply drop_app_length.
    assert (need_more input (length (empties (empty_lines r))) limits = Ok Partial) as Hmore.
    { unfold need_more. rewrite <- length_drop, Hd. fold (head_text r) in Hy.
      apply (f_equal length) in Hy. fold (head_text r) in Hy. rewrite length_app in Hy.
      rewrite (proj2 (Z.ltb_ge _ _)) by lia. done. }
    apply app_cut in Hy as [(w' & Hw' & Heq)|(y2 & Hy2 & Hx2)].
    + rewrite (request_line_cut _ _ _ _ _ _ _ Hl Hd ltac:(done) Hw' Heq Hll). by eexists.
    + rewrite Hy2 in Hd. rewrite (request_line_text _ _ _ _ _ _ Hl Hd Hll).
      apply drop_drop_app in Hd.
      destruct (fields_cut input limits v (length (empties (empty_lines r))) (field_lines r) (length input)
        _ table 0 Interpreted_default y2 w Hf Hfl Hd Hx2 Hw Ht Hc Hmore) as [tb ->].
      by eexists.
Qed.

(** ** What the parser has seen

    The values of the fields with a name, as spans and as octets. *)
Definition spans (name : HeaderName) (l : list Field) : list Span :=
  value <$> filter (fun f => id f = Some name) l.
Definition values (input : bytes) (name : HeaderName) (l : list Field) : list bytes :=
  (fun s => Span_of s input) <$> spans name l.

Lemma spans_cons name f l :
  spans name (f :: l) = (if decide (id f = Some name) then [value f] else []) ++ spans name l.
Proof. unfold spans. rewrite filter_cons. by case_decide. Qed.

Lemma values_nil input name l : values input name l = [] <-> spans name l = [].
Proof. unfold values. by destruct (spans name l). Qed.

(** A coding list of [chunked] alone. *)
Definition chunked_only (value : bytes) : Prop :=
  list_elements value <> [] /\
  forall coding, coding ∈ list_elements value -> to_lower coding = bs "chunked".

Lemma transfer_codings cs : forall any i l o any' i' l' o',
  fold_left transfer_coding cs (any, i, l, o) = (any', i', l', o') ->
  any' = any || negb (bool_decide (cs = [])) /\
  (i' = false -> o' = false -> i = false /\ o = false /\ forall c, c ∈ cs -> to_lower c = bs "chunked").
Proof.
  induction cs as [|c cs IH]; intros any i l o any' i' l' o'; cbn [fold_left].
  { intros [= <- <- <- <-]. rewrite orb_false_r. split; [done|]. intros. split; [done|]. split; [done|].
    intros c Hc. by apply elem_of_nil in Hc. }
  unfold transfer_coding at 2.
  destruct (position (fun byte => byte =? 59) c) as [at_|] eqn:Hp; intros [-> Hall]%IH;
    (split; [by rewrite orb_true_r|]); intros Hi Ho; specialize (Hall Hi Ho) as (Hi' & Ho' & Hall).
  - destruct (eq_ignore_ascii_case (trim_ows (take at_ c)) (bs "chunked")); [|by destruct o].
    by destruct i.
  - destruct (eq_ignore_ascii_case c (bs "chunked")) eqn:Hc; [|by destruct o].
    apply orb_false_elim in Hi' as [-> _]. apply orb_false_elim in Ho' as [-> _].
    split; [done|]. split; [done|]. intros c' [->|?]%elem_of_cons; [|by apply Hall].
    by apply eq_ignore_ascii_case_spec in Hc.
Qed.

(** What one field adds to what was seen. *)
Lemma interpret_seen input v seen f :
  let seen' := interpret seen (id f) (value f) input v in
  host_count seen' = (host_count seen + length (spans Host [f]))%nat /\
  seen_host seen' = (match seen_host seen with None => head (spans Host [f]) | s => s end) /\
  content_length_count seen' = (content_length_count seen + length (spans ContentLength [f]))%nat /\
  content_length seen' = (match content_length seen with None => head (spans ContentLength [f]) | s => s end) /\
  transfer_encoding_seen seen' = transfer_encoding_seen seen || negb (bool_decide (spans TransferEncoding [f] = [])) /\
  (transfer_encoding_invalid seen' = false -> transfer_encoding_other seen' = false ->
   transfer_encoding_invalid seen = false /\ transfer_encoding_other seen = false /\
   Forall chunked_only (values input TransferEncoding [f])).
Proof.
  destruct seen as [hc h clc cl te ti tl to c ka uo uf e]. unfold values. rewrite !spans_cons.
  change (spans ?n []) with (@nil Span). rewrite !app_nil_r. unfold interpret. cbn zeta.
  destruct (id f) as [n|] eqn:Hid; [destruct n|].
  all: repeat case_decide; try congruence.
  all: try (destruct (fold_left connection_option _ _) as [[? ?] ?]).
  all: try (destruct (fold_left transfer_coding _ _) as [[[any ti'] tl'] to'] eqn:Hf).
  all: cbn; rewrite ?Nat.add_0_r, ?orb_false_r; split_and!;
    try done; try (by destruct cl); try (by destruct h); try (by destruct te).
  intros Hi Ho. apply transfer_codings in Hf as [-> Hf].
  apply orb_false_elim in Hi as [Hi Hany]. destruct (Hf Hi Ho) as (-> & -> & Hall).
  split; [done|]. split; [done|]. constructor; [|constructor]. split; [|done].
  intros Hnil. by rewrite Hnil in Hany.
Qed.

Lemma spans_app name l m : spans name (l ++ m) = spans name l ++ spans name m.
Proof. unfold spans. by rewrite filter_app, fmap_app. Qed.

(** What the whole section adds. *)
Lemma interpret_all_seen input v l : forall seen,
  let seen' := interpret_all input v seen l in
  host_count seen' = (host_count seen + length (spans Host l))%nat /\
  seen_host seen' = (match seen_host seen with None => head (spans Host l) | s => s end) /\
  content_length_count seen' = (content_length_count seen + length (spans ContentLength l))%nat /\
  content_length seen' = (match content_length seen with None => head (spans ContentLength l) | s => s end) /\
  transfer_encoding_seen seen' = transfer_encoding_seen seen || negb (bool_decide (spans TransferEncoding l = [])) /\
  (transfer_encoding_invalid seen' = false -> transfer_encoding_other seen' = false ->
   Forall chunked_only (values input TransferEncoding l)).
Proof.
  unfold interpret_all. induction l as [|f l IH]; intros seen; cbn [fold_left].
  { cbn. rewrite !Nat.add_0_r, orb_false_r. split_and!; try done;
      try (by destruct (seen_host seen)); try (by destruct (content_length seen)). }
  destruct (interpret_seen input v seen f) as (Hh & Hs & Hc & Hl & Ht & Hte).
  destruct (IH (interpret seen (id f) (value f) input v)) as (Hh' & Hs' & Hc' & Hl' & Ht' & Hte').
  set (seen1 := interpret seen (id f) (value f) input v) in *.
  set (seen2 := fold_left _ l seen1) in *.
  assert (forall n, spans n (f :: l) = spans n [f] ++ spans n l) as Happ by (intros n; apply (spans_app n [f])).
  unfold values in *. rewrite !Happ, !length_app. cbn zeta. split_and!.
  - rewrite Hh', Hh. lia.
  - rewrite Hs', Hs. destruct (seen_host seen); [done|]. by destruct (spans Host [f]).
  - rewrite Hc', Hc. lia.
  - rewrite Hl', Hl. destruct (content_length seen); [done|]. by destruct (spans ContentLength [f]).
  - rewrite Ht', Ht, <- orb_assoc. f_equal.
    destruct (spans TransferEncoding [f]); [done|]. by destruct (spans TransferEncoding l).
  - intros Hi Ho. rewrite fmap_app. specialize (Hte' Hi Ho).
    assert (transfer_encoding_invalid seen1 = false /\ transfer_encoding_other seen1 = false) as [Hi1 Ho1].
    { clear -Hi Ho. subst seen2. revert Hi Ho. clearbody seen1. revert seen1.
      induction l as [|g l IHl]; intros seen1; cbn [fold_left]; [done|]. intros Hi Ho.
      destruct (IHl _ Hi Ho) as [Hi' Ho'].
      destruct (interpret_seen input v seen1 g) as (_ & _ & _ & _ & _ & Hg).
      destruct (Hg Hi' Ho') as (? & ? & _). done. }
    apply Forall_app. split; [|done]. by destruct (Hte Hi1 Ho1) as (_ & _ & ?).
Qed.

Lemma written_take table l : take (length l) (written table 0 l) = l.
Proof. unfold written. rewrite take_0. cbn [app]. by rewrite take_app_length. Qed.

(** The conclusions on the body and the host that the parser draws. *)
Lemma framing_safe input v l b :
  framing (interpret_all input v Interpreted_default l) input v = Ok b ->
  match b with
  | Chunked => v = Http11 /\ values input ContentLength l = [] /\
      values input TransferEncoding l <> [] /\ Forall chunked_only (values input TransferEncoding l)
  | Length n => values input TransferEncoding l = [] /\
      exists value, values input ContentLength l = [value] /\ value <> [] /\
        Forall (fun b => is_digit b = true) value /\ n = decimal value /\ n < 2 ^ 64
  | NoBody => values input TransferEncoding l = [] /\ values input ContentLength l = []
  end.
Proof.
  destruct (interpret_all_seen input v l Interpreted_default) as (_ & _ & Hc & Hl & Ht & Hte).
  set (seen := interpret_all input v Interpreted_default l) in *. cbn in Hc, Hl, Ht.
  unfold framing. rewrite Ht, Hl, Hc.
  case_bool_decide as Hspans; cbn [negb].
  - assert (values input TransferEncoding l = []) as -> by by apply values_nil.
    unfold values. destruct (spans ContentLength l) as [|s [|s' ss]] eqn:Hcl; cbn [head length].
    + by intros [= <-].
    + cbn. destruct (parse_content_length (Span_of s input)) as [n|] eqn:Hp; [|done].
      apply parse_content_length_Some in Hp as (? & ? & ? & ?). intros [= <-].
      split; [done|]. by exists (Span_of s input).
    + done.
  - destruct (bool_decide (v = Http10)) eqn:Hv; [done|]. apply bool_decide_eq_false_1 in Hv.
    destruct (Nat.ltb_spec 0 (length (spans ContentLength l))) as [|Hlen]; [done|]. cbn [orb].
    destruct (transfer_encoding_invalid seen); [done|].
    destruct (transfer_encoding_last_chunked seen); [|done]. cbn [orb negb].
    destruct (transfer_encoding_other seen); [done|]. intros [= <-].
    split; [by destruct v|].
    split; [apply values_nil; by destruct (spans ContentLength l); [|cbn in Hlen; lia]|].
    split; [by rewrite values_nil | by apply Hte].
Qed.

Lemma concluded_length input v r h n : concluded input v r = Ok (Complete h) -> body h = Length n -> 0 <= n.
Proof.
  unfold concluded, conclude. destruct (classify_target _ _ _) as [[[form path] auth]|]; [|done].
  do 3 (destruct (_ : bool); [done|]). destruct (framing _ _ _) as [b|] eqn:Hf; [|done]. intros [= <-] Hb. cbn [body] in Hb. subst b.
  apply framing_safe in Hf as (_ & value & _ & _ & Hd & -> & _). by apply decimal_from_ge.
Qed.

(** C4. The parser accepts exactly the texts of requests.  An accepted buffer is empty
    lines, a request line with single spaces, field lines and an empty line, all
    within the limits, and then anything; the table holds the spans of the field
    lines in order and nothing else of it changed; and conversely every such text is
    taken as far as the conclusions drawn from its parts. *)
Theorem request_grammar input table limits table' h :
  parse_request input table limits = (table', Complete h) <->
  exists r v more, request_ok limits (length table) v r /\ input = request_text r ++ more /\
    table' = written table 0 (head_entries r) /\
    concluded (request_text r) v r = Ok (Complete h).
Proof.
  unfold parse_request. split.
  - destruct (parse input table limits) as [tb [s|e]] eqn:Hp; [|done]. intros [= -> ->].
    apply parse_sound in Hp as (r & v & more & Hok & -> & -> & Hc). rewrite concluded_prefix in Hc.
    by exists r, v, more.
  - intros (r & v & more & Hok & -> & -> & Hc).
    by rewrite (parse_complete _ _ _ _ _ Hok), concluded_prefix, Hc.
Qed.

Lemma parse_request_complete input table limits table' h :
  parse_request input table limits = (table', Complete h) ->
  exists r v more, request_ok limits (length table) v r /\ input = request_text r ++ more /\
    table' = written table 0 (head_entries r) /\
    concluded (request_text r) v r = Ok (Complete h) /\ head_len h = length (request_text r).
Proof.
  unfold parse_request. destruct (parse input table limits) as [tb [s|e]] eqn:Hp; [|done].
  intros [= -> ->]. apply parse_sound in Hp as (r & v & more & Hok & -> & -> & Hc).
  rewrite concluded_prefix in Hc. exists r, v, more. repeat (split; [done|]).
  unfold concluded, conclude in Hc.
  destruct (classify_target _ _ _) as [[[form path] auth]|]; [|done].
  do 3 (destruct (_ : bool); [done|]). destruct (framing _ _ _); [|done]. by injection Hc as <-.
Qed.

(** C14. However a request arrives, it is parsed as it would be whole: a buffer that
    ends inside it is never refused, the parser asks for more; and once its last
    octet is there the answer is the same whatever follows.  So a refusal is final:
    no more octets could have made the buffer a request. *)
Theorem request_incremental input more table limits table' h :
  parse_request (input ++ more) table limits = (table', Complete h) ->
  if (head_len h <=? length input)%nat
  then parse_request input table limits = (table', Complete h)
  else snd (parse_request input table limits) = Partial.
Proof.
  intros (r & v & rest & Hok & Heq & -> & Hc & ->)%parse_request_complete.
  destruct (Nat.leb_spec (length (request_text r)) (length input)) as [Hle|Hgt].
  - apply app_cut in Heq as [(w & Hw & Hr)|(x2 & -> & _)].
    { apply (f_equal length) in Hr. rewrite length_app in Hr. destruct w; [done | cbn in Hr; lia]. }
    unfold parse_request. by rewrite (parse_complete _ _ _ _ _ Hok), concluded_prefix, Hc.
  - apply app_cut in Heq as [(w & Hw & Hr)|(x2 & -> & _)]; [|rewrite length_app in Hgt; lia].
    unfold parse_request. by destruct (parse_cut table limits v r input w Hok Hw Hr) as [tb ->].
Qed.

(** C5. No two readers can disagree about where an accepted request ends.  Its body is
    chunked only for an HTTP/1.1 request whose [Transfer-Encoding] fields name the
    chunked coding and nothing else and which has no [Content-Length]; it has a length
    only when exactly one [Content-Length] field does, as decimal digits that fit 64
    bits, and no [Transfer-Encoding]; otherwise neither field is there.  At most one
    [Host] is there, one in HTTP/1.1, and it is a host. *)
Theorem body_unambiguous input table limits table' h :
  parse_request input table limits = (table', Complete h) ->
  let fields := take (field_count h) table' in
  match body h with
  | Chunked => version h = Http11 /\ values input ContentLength fields = [] /\
      values input TransferEncoding fields <> [] /\
      Forall chunked_only (values input TransferEncoding fields)
  | Length n => values input TransferEncoding fields = [] /\
      exists value, values input ContentLength fields = [value] /\ value <> [] /\
        Forall (fun b => is_digit b = true) value /\ n = decimal value /\ n < 2 ^ 64
  | NoBody => values input TransferEncoding fields = [] /\ values input ContentLength fields = []
  end /\
  (length (values input Host fields) <= 1)%nat /\
  (version h = Http11 -> length (values input Host fields) = 1%nat) /\
  Forall (fun host => is_host_value host = true) (values input Host fields).
Proof.
  intros (r & v & more & _ & -> & -> & Hc & _)%parse_request_complete.
  rewrite <- (concluded_prefix v r more) in Hc. set (input := request_text r ++ more) in *.
  unfold concluded, conclude in Hc. cbn zeta.
  destruct (interpret_all_seen input v (head_entries r) Interpreted_default) as (Hn & Hs & _).
  cbn in Hn, Hs. rewrite Hn, Hs in Hc.
  destruct (classify_target _ _ _) as [[[form path] auth]|]; [|done].
  destruct (Nat.ltb_spec 1 (length (spans Host (head_entries r)))) as [|Hmax]; [done|].
  destruct (_ && _) eqn:Hmin; [done|]. destruct (match head _ with Some _ => _ | None => _ end) eqn:Hhost; [done|].
  destruct (framing _ _ _) as [b|] eqn:Hf; [|done]. injection Hc as <-. cbn [body field_count version].
  assert (length (field_lines r) = length (head_entries r)) as -> by (symmetry; apply length_entries).
  rewrite written_take. split; [by apply framing_safe|]. unfold values. rewrite length_fmap.
  split; [done|]. destruct (spans Host (head_entries r)) as [|s [|]]; [split|split|]; try done.
  - by intros ->.
  - cbn in Hhost. constructor; [|constructor]. by destruct (is_host_value _).
  - cbn in Hmax. lia.
Qed.

(** ** A request *)

Definition demo_request : bytes :=
  crlf "" ++ crlf "POST /submit HTTP/1.1" ++ crlf "Host: example.org" ++ crlf "Transfer-Encoding:	chunked " ++ crlf "".
Definition demo_table : list Field := replicate 4 EMPTY_FIELD.

Lemma body_unambiguous_witness : exists table' h,
  parse_request demo_request demo_table Http1Limits_DEFAULT = (table', Complete h) /\
  body h = Chunked /\
  Forall chunked_only (values demo_request TransferEncoding (take (field_count h) table')).
Proof.
  do 2 eexists. split; [vm_compute; reflexivity|]. split; [reflexivity|].
  match goal with |- Forall _ (values _ _ (take (field_count ?h) ?t)) =>
    destruct (body_unambiguous demo_request demo_table Http1Limits_DEFAULT t h
      ltac:(vm_compute; reflexivity)) as [(_ & _ & _ & Hall) _]; exact Hall end.
Defined.

Lemma request_incremental_witness : exists table' h,
  parse_request (demo_request ++ bs "5") demo_table Http1Limits_DEFAULT = (table', Complete h) /\
  parse_request demo_request demo_table Http1Limits_DEFAULT = (table', Complete h) /\
  snd (parse_request (bs "POST /sub") demo_table Http1Limits_DEFAULT) = Partial.
Proof.
  do 2 eexists. split; [vm_compute; reflexivity|]. split.
  - match goal with |- _ = (?t, Complete ?h) =>
      exact (request_incremental demo_request (bs "5") demo_table Http1Limits_DEFAULT t h
        ltac:(vm_compute; reflexivity)) end.
  - reflexivity.
Defined.

(** The chunked coding named twice is taken as one chunked body. *)
Example chunked_twice : exists table' h,
  parse_request (crlf "POST / HTTP/1.1" ++ crlf "Host: a" ++ crlf "Transfer-Encoding: chunked, chunked" ++ crlf "")
    demo_table Http1Limits_DEFAULT = (table', Complete h) /\ body h = Chunked.
Proof. do 2 eexists. split; [vm_compute; reflexivity | reflexivity]. Qed.
