(* ===== verification/H1Chunked.v ===== *)
(** * The chunked transfer coding

    [zero-http1/src/chunked.rs]: the streaming decoder, the encoder and the trailer
    section.  The state after a call is part of every result, a refusal included. *)
From S2P Require Import Prelude Scalar HttpTypes Limits H1List H1Head Machine.

Definition CHUNK_END : bytes := [CR; LF].
Definition LAST_CHUNK : bytes := bs "0" ++ [CR; LF; CR; LF].
Definition MAX_CHUNK_HEADER_LEN : nat := 18.

Inductive State : Type :=
| Size
| Data (remaining : Z)
| DataEnd
| Trailers
| Done.

Inductive Step : Type :=
| StepData (data : bytes) (consumed : nat)
| NeedMore (consumed : nat)
| StepDone (trailers : Span) (consumed : nat).

Record ChunkedDecoder : Type := MkChunkedDecoder { state : State }.

Definition new : ChunkedDecoder := MkChunkedDecoder Size.

Definition is_done (self : ChunkedDecoder) : bool :=
  match state self with Done => true | _ => false end.

(** Shifts what a step consumed by the framing octets before it. *)
Definition advance (step : Step) (by_ : nat) : Step :=
  match step with
  | StepData data consumed => StepData data (consumed + by_)
  | NeedMore consumed => NeedMore (consumed + by_)
  | StepDone trailers consumed =>
      StepDone (MkSpan (start trailers + by_) (end_ trailers + by_)) (consumed + by_)
  end.

(** [.map(|step| advance(step, by))] *)
Definition advanced (r : ChunkedDecoder * result Reject Step) (by_ : nat)
  : ChunkedDecoder * result Reject Step :=
  match r with (self, Ok step) => (self, Ok (advance step by_)) | (self, Err e) => (self, Err e) end.

Definition hex_value (byte : Z) : option Z :=
  if is_digit byte then Some (wrapping_sub 8 byte 0x30)
  else if (0x61 <=? byte) && (byte <=? 0x66) then Some (wrapping_add 8 (wrapping_sub 8 byte 0x61) 10)
  else if (0x41 <=? byte) && (byte <=? 0x46) then Some (wrapping_add 8 (wrapping_sub 8 byte 0x41) 10)
  else None.

Definition valid_extension (extension : bytes) : bool :=
  let first := default (length extension) (position (fun byte => negb (is_ows byte)) extension) in
  bool_decide (extension !! first = Some 0x3b).

Section decoder.
Context (limits : Limits.Http1Limits).

(** The [while] loop over the digits of a size: the size and the digits read. *)
Fixpoint size_digits (rest : bytes) (size : Z) (digits : nat) : result Reject (Z * nat) :=
  match rest with
  | [] => Ok (size, digits)
  | byte :: rest =>
      match hex_value byte with
      | None => Ok (size, digits)
      | Some digit =>
          let digits := S digits in
          if http1_max_chunk_size_digits limits <? Z.of_nat digits then Err bad_request
          else
            let? size :=
              ok_or (let! size := checked_mul 64 size 16 in checked_add 64 size digit) bad_request in
            size_digits rest size digits
      end
  end.

(** The loop of [trailer_section] from [pos] on; a turn takes two octets or more. *)
Fixpoint trailer_loop (fuel : nat) (input : bytes) (pos : nat) : ChunkedDecoder * result Reject Step :=
  let self := MkChunkedDecoder Trailers in
  match fuel with
  | O => (self, Ok (NeedMore 0))
  | S fuel =>
      if http1_max_trailer_bytes limits <? Z.of_nat pos then (self, Err header_fields_too_large)
      else
        let rest := drop pos input in
        let line :=
          match position is_cr_or_lf rest with
          | None =>
              if http1_max_trailer_bytes limits <? len rest
              then (self, Err header_fields_too_large)
              else (self, Ok (NeedMore 0))
          | Some line_len =>
              let line_end := (pos + line_len)%nat in
              match expect_crlf input line_end with
              | Found => trailer_loop fuel input (line_end + 2)
              | LinePartial => (self, Ok (NeedMore 0))
              | Invalid => (self, Err bad_request)
              end
          end in
        match head rest with
        | None => (self, Ok (NeedMore 0))
        | Some LF => (self, Err bad_request)
        | Some CR =>
            match rest !! 1%nat with
            | None => (self, Ok (NeedMore 0))
            | Some LF => (MkChunkedDecoder Done, Ok (StepDone (MkSpan 0 pos) (pos + 2)))
            | Some _ => (self, Err bad_request)
            end
        | Some _ => line
        end
  end.

(** Called in the state [Trailers]. *)
Definition trailer_section (input : bytes) : ChunkedDecoder * result Reject Step :=
  trailer_loop (S (length input)) input 0.

(** [decode] in the state [Data]. *)
Definition chunk_data (remaining : Z) (input : bytes) : ChunkedDecoder * result Reject Step :=
  if bool_decide (input = []) then (MkChunkedDecoder (Data remaining), Ok (NeedMore 0))
  else
    let take_ := Nat.min (Z.to_nat remaining) (length input) in
    let data := take take_ input in
    let left := saturating_sub remaining (Z.of_nat take_) in
    (MkChunkedDecoder (if left =? 0 then DataEnd else Data left), Ok (StepData data take_)).

(** Called in the state [Size]. *)
Definition size_line (input : bytes) : ChunkedDecoder * result Reject Step :=
  let self := MkChunkedDecoder Size in
  match size_digits input 0 0 with
  | Err e => (self, Err e)
  | Ok (size, digits) =>
      let pos := digits in
      if (length input <=? pos)%nat then (self, Ok (NeedMore 0))
      else if (digits =? 0)%nat then (self, Err bad_request)
      else
      let extension_start := pos in
      let extension_len := scan_header_value (drop pos input) in
      if http1_max_chunk_extension limits <? Z.of_nat extension_len then (self, Err bad_request)
      else
      let pos := (pos + extension_len)%nat in
      match expect_crlf input pos with
      | LinePartial => (self, Ok (NeedMore 0))
      | Invalid => (self, Err bad_request)
      | Found =>
          let pos := (pos + 2)%nat in
          let extension := default [] (get_range extension_start (extension_start + extension_len) input) in
          if negb (bool_decide (extension = [])) && negb (valid_extension extension)
          then (self, Err bad_request)
          else if size =? 0 then advanced (trailer_section (drop pos input)) pos
          else
            let rest := drop pos input in
            if bool_decide (rest = []) then (MkChunkedDecoder (Data size), Ok (NeedMore pos))
            else advanced (chunk_data size rest) pos
      end
  end.

Definition decode (self : ChunkedDecoder) (input : bytes) : ChunkedDecoder * result Reject Step :=
  match state self with
  | Size => size_line input
  | Data remaining => chunk_data remaining input
  | DataEnd =>
      match expect_crlf input 0 with
      | Found => advanced (size_line (drop 2 input)) 2
      | LinePartial => (self, Ok (NeedMore 0))
      | Invalid => (self, Err bad_request)
      end
  | Trailers => trailer_section input
  | Done => (self, Ok (StepDone EMPTY_SPAN 0))
  end.
End decoder.

(** ** The encoder *)

(** The digits of a size, least significant first; sixteen are enough for 64 bits. *)
Definition hex_glyph (digit : Z) : Z :=
  if digit <=? 9 then wrapping_add 8 0x30 digit else wrapping_add 8 0x61 (wrapping_sub 8 digit 10).

Fixpoint header_digits (fuel : nat) (value : Z) : bytes :=
  match fuel with
  | O => []
  | S fuel =>
      let glyph := hex_glyph (value mod 16) in
      let value := value / 16 in
      if value =? 0 then [glyph] else glyph :: header_digits fuel value
  end.

(** The octets written and the slice after it. *)
Definition chunk_header (len : Z) (out : bytes) : option (nat * bytes) :=
  let digits := header_digits 16 len in
  let count := length digits in
  let total := (count + 2)%nat in
  let! _ := get_to total out in
  Some (total, reverse digits ++ CHUNK_END ++ drop total out).

Definition encode_chunk (data out : bytes) : option (nat * bytes) :=
  match data with
  | [] => None
  | _ =>
      let! (header_len, header) := chunk_header (len data) (replicate MAX_CHUNK_HEADER_LEN 0) in
      let total := (header_len + length data + length CHUNK_END)%nat in
      let! _ := get_to total out in
      Some (total, take header_len header ++ data ++ CHUNK_END ++ drop total out)
  end.

(** ** Trailer fields *)

Definition is_trailer_allowed (name : bytes) : bool :=
  match HeaderName_parse name with
  | Some id =>
      match id with
      | Accept | AcceptCharset | AcceptEncoding | AcceptLanguage | Authorization | CacheControl
      | Connection | ContentEncoding | ContentLanguage | ContentLength | ContentLocation
      | ContentRange | ContentType | HttpTypes.Expect | Host | IfMatch | IfModifiedSince
      | IfNoneMatch | IfRange | IfUnmodifiedSince | MaxForwards | Pragma | ProxyAuthenticate
      | ProxyAuthorization | Range | Te | Trailer | TransferEncoding | Upgrade | Via
      | WwwAuthenticate => false
      | _ => true
      end
  | None =>
      negb (eq_ignore_ascii_case name (bs "cookie") || eq_ignore_ascii_case name (bs "set-cookie")
            || eq_ignore_ascii_case name (bs "keep-alive")
            || eq_ignore_ascii_case name (bs "proxy-connection")
            || eq_ignore_ascii_case name (bs "origin"))
  end.

(** The line at [pos]: its name, its value and the position after it. *)
Definition trailer_field (input : bytes) (section_end pos : nat) : result Reject (Span * Span * nat) :=
  let rest := default [] (get_range pos section_end input) in
  if match head rest with Some byte => is_ows byte | None => false end then Err bad_request
  else
  let name_len := scan_header_name rest in
  if (name_len =? 0)%nat then Err bad_request
  else
  let name := MkSpan pos (pos + name_len) in
  let pos := end_ name in
  if negb (bool_decide (input !! pos = Some COLON)) then Err bad_request
  else
  let pos := (pos + 1)%nat in
  let pos := (pos + scan (take (section_end - pos) (drop pos input)) is_ows)%nat in
  let value_start := pos in
  let value_len := scan_header_value (default [] (get_range pos section_end input)) in
  let value_limit := (pos + value_len)%nat in
  match expect_crlf input value_limit with
  | LinePartial | Invalid => Err bad_request
  | Found =>
      Ok (name, MkSpan value_start (value_end_loop input value_start value_len), (value_limit + 2)%nat)
  end.

Fixpoint trailers_loop (fuel : nat) (input : bytes) (section_end : nat) (limits : Limits.Http1Limits)
    (pos : nat) (table : list Field) (count : nat) : list Field * result Reject nat :=
  match fuel with
  | O => (table, Ok count)
  | S fuel =>
      if negb (pos <? section_end)%nat then (table, Ok count)
      else
        let line_start := pos in
        match trailer_field input section_end pos with
        | Err e => (table, Err e)
        | Ok (name, value, pos) =>
            if http1_max_header_field limits <? Z.of_nat (pos - line_start)
            then (table, Err header_fields_too_large)
            else if negb (is_trailer_allowed (Span_of name input))
            then trailers_loop fuel input section_end limits pos table count
            else
              match table !! count with
              | None => (table, Err header_fields_too_large)
              | Some _ =>
                  let slot := MkField name value (HeaderName_parse (Span_of name input)) in
                  trailers_loop fuel input section_end limits pos (<[count := slot]> table) (count + 1)
              end
        end
  end.

(** The table after the call and the outcome; a turn takes an octet or more. *)
Definition parse_trailers (input : bytes) (section : Span) (table : list Field) (limits : Limits.Http1Limits)
  : list Field * result Reject nat :=
  trailers_loop (S (Span_len section)) input (end_ section) limits (start section) table 0.

Definition CLOSE_ONLY : StatusCode := BAD_REQUEST.

Example chunk_26 : encode_chunk (bs "abcdefghijklmnopqrstuvwxyz") (replicate 40 7)
  = Some (32%nat, bs "1a" ++ CHUNK_END ++ bs "abcdefghijklmnopqrstuvwxyz" ++ CHUNK_END ++ replicate 8 7).
Proof. vm_compute. reflexivity. Qed.
Example decode_first :
  decode Http1Limits_DEFAULT new (bs "5;x=y" ++ CHUNK_END ++ bs "hel")
  = (MkChunkedDecoder (Data 2), Ok (StepData (bs "hel") 10)).
Proof. vm_compute. reflexivity. Qed.
Example decode_last :
  decode Http1Limits_DEFAULT new (bs "0" ++ CHUNK_END ++ bs "a: b" ++ CHUNK_END ++ CHUNK_END)
  = (MkChunkedDecoder Done, Ok (StepDone (MkSpan 3 9) 11)).
Proof. vm_compute. reflexivity. Qed.

Example two_trailers :
  let input := crlf "X-Sum: abc " ++ crlf "Host: evil" ++ crlf "x-trace: t1" ++ crlf "" in
  parse_trailers input (MkSpan 0 38) (replicate 3 EMPTY_FIELD) Http1Limits_DEFAULT
  = ([MkField (MkSpan 0 5) (MkSpan 7 10) None; MkField (MkSpan 25 32) (MkSpan 34 36) None; EMPTY_FIELD], Ok 2%nat).
Proof. vm_compute. reflexivity. Qed.
