(* ===== verification/H1Body.v ===== *)
(** * What the chunked decoder accepts

    The decoder of [H1Chunked] against the grammar of RFC 9112 Section 7.1, as a
    streaming decoder: it is an instance of [Machine], it takes exactly the chunked
    bodies within the limits, and a body that is cut anywhere is decoded alike. *)
From S2P Require Import Prelude Scalar HttpTypes Limits H1List H1Head H1Grammar H1Request.
From S2P Require Import Machine H1Chunked.

(** ** Size lines *)

Definition is_hex (b : Z) : bool := match hex_value b with Some _ => true | None => false end.
Definition hex_from (acc : Z) (l : bytes) : Z :=
  fold_left (fun acc b => acc * 16 + default 0 (hex_value b)) l acc.
Definition hex (l : bytes) : Z := hex_from 0 l.

Lemma hex_value_bound b d : hex_value b = Some d -> 0 <= d < 16.
Proof.
  unfold hex_value, is_digit, wrapping_sub, wrapping_add.
  intros H. repeat case_match; try done; injection H as <-; pow2;
    Z.to_euclidean_division_equations; lia.
Qed.

Lemma hex_from_ge l : forall acc, 0 <= acc -> acc <= hex_from acc l.
Proof.
  unfold hex_from. induction l as [|b l IH]; intros acc Hacc; cbn [fold_left]; [lia|].
  assert (0 <= default 0 (hex_value b)).
  { destruct (hex_value b) eqn:Hb; [apply hex_value_bound in Hb|]; cbn; unfold Datatypes.id; lia. }
  specialize (IH (acc * 16 + default 0 (hex_value b))). lia.
Qed.

(** A size and an extension the limits allow. *)
Record SizeText : Type := MkSizeText {
  size_text : bytes;
  extension : bytes;
}.

Definition size_value (t : SizeText) : Z := hex (size_text t).
Definition size_line_text (t : SizeText) : bytes := size_text t ++ extension t ++ CRLF.

Section limits.
Context (limits : Limits.Http1Limits).

Definition size_ok (t : SizeText) : Prop :=
  size_text t <> [] /\ Forall (fun b => is_hex b = true) (size_text t) /\
  Z.of_nat (length (size_text t)) <= http1_max_chunk_size_digits limits /\ size_value t < 2 ^ 64 /\
  Forall (fun b => is_value_byte b = true) (extension t) /\
  Z.of_nat (length (extension t)) <= http1_max_chunk_extension limits /\
  (extension t = [] \/ valid_extension (extension t) = true).

Definition not_hex (l : bytes) : Prop := match l with b :: _ => hex_value b = None | [] => True end.

Lemma size_digits_text d : forall rest size digits,
  0 <= size -> Forall (fun b => is_hex b = true) d -> not_hex rest ->
  Z.of_nat (digits + length d) <= http1_max_chunk_size_digits limits -> hex_from size d < 2 ^ 64 ->
  size_digits limits (d ++ rest) size digits = Ok (hex_from size d, (digits + length d)%nat).
Proof.
  induction d as [|b d IH]; intros rest size digits Hs Hd Hr Hn Hv; cbn [app size_digits length].
  - rewrite Nat.add_0_r. destruct rest as [|c rest]; cbn [size_digits]; [done|]. cbn in Hr. by rewrite Hr.
  - apply Forall_cons in Hd as [Hb Hd]. unfold is_hex in Hb.
    change (hex_from size (b :: d)) with (hex_from (size * 16 + default 0 (hex_value b)) d) in Hv |- *.
    destruct (hex_value b) as [v|] eqn:Hv'; [|done]. apply hex_value_bound in Hv' as Hvb.
    cbn [length] in Hn. cbn [default] in *. unfold Datatypes.id in *.
    pose proof (hex_from_ge d (size * 16 + v) ltac:(lia)).
    rewrite (proj2 (Z.ltb_ge _ _)) by lia. unfold checked_mul, checked_add.
    rewrite (proj2 (Z.ltb_lt (size * 16) (2 ^ 64))), (proj2 (Z.ltb_lt (size * 16 + v) (2 ^ 64))) by lia. cbn [ok_or].
    rewrite IH by (done || lia). do 2 f_equal. lia.
Qed.

Lemma size_digits_sound l : forall size digits v n, 0 <= size ->
  size_digits limits l size digits = Ok (v, n) ->
  exists d rest, l = d ++ rest /\ n = (digits + length d)%nat /\ v = hex_from size d /\
    Forall (fun b => is_hex b = true) d /\ not_hex rest /\
    (d = [] \/ v < 2 ^ 64 /\ Z.of_nat n <= http1_max_chunk_size_digits limits).
Proof.
  induction l as [|b l IH]; intros size digits v n Hs; cbn [size_digits].
  { intros [= <- <-]. exists [], []. cbn. rewrite Nat.add_0_r. by repeat split; [constructor | left]. }
  destruct (hex_value b) as [d|] eqn:Hb.
  2: { intros [= <- <-]. exists [], (b :: l). cbn. rewrite Nat.add_0_r. by repeat split; [constructor | | left]. }
  pose proof (hex_value_bound _ _ Hb). destruct (Z.ltb_spec (http1_max_chunk_size_digits limits) (Z.of_nat (S digits)));
    [done|]. unfold checked_mul, checked_add.
  destruct (Z.ltb_spec (size * 16) (2 ^ 64)); [|done].
  destruct (Z.ltb_spec (size * 16 + d) (2 ^ 64)); [|done]. cbn [ok_or]. intros Hl.
  apply IH in Hl as (d' & rest & -> & -> & -> & Hd & Hr & Hlim); [|lia].
  exists (b :: d'), rest. unfold hex_from. cbn [app length fold_left]. rewrite Hb. cbn [default]. unfold Datatypes.id.
  split; [done|]. split; [lia|]. split; [done|]. split; [constructor; [by unfold is_hex; rewrite Hb | done]|].
  split; [done|]. right. destruct Hlim as [->|[? ?]]; [cbn; lia | by split].
Qed.

(** Neither whitespace nor a semicolon is a digit, so an extension ends the size. *)
Lemma extension_not_hex t rest : size_ok t -> not_hex (extension t ++ CRLF ++ rest).
Proof.
  intros (_ & _ & _ & _ & _ & _ & [->|Hv]); [done|].
  destruct (extension t) as [|b e]; [done|]. cbn [app not_hex]. unfold valid_extension in Hv.
  apply bool_decide_eq_true in Hv. cbn [position] in Hv. destruct (is_ows b) eqn:Hb; cbn [negb] in Hv.
  - unfold is_ows in Hb. assert (b = 32 \/ b = 9) as [-> | ->] by lia; done.
  - injection Hv as ->. done.
Qed.

Lemma extension_stop (rest : bytes) e : Forall (fun b => is_value_byte b = true) e ->
  scan_header_value (e ++ CRLF ++ rest) = length e.
Proof. intros H. by apply scan_run. Qed.

(** What follows the line in the same call. *)
Definition after_size (n : Z) (rest : bytes) (by_ : nat) : ChunkedDecoder * result Reject Step :=
  if n =? 0 then advanced (trailer_section limits rest) by_
  else if bool_decide (rest = []) then (MkChunkedDecoder (Data n), Ok (NeedMore by_))
  else advanced (chunk_data n rest) by_.

Lemma size_line_complete t rest :
  size_ok t ->
  size_line limits (size_line_text t ++ rest) = after_size (size_value t) rest (length (size_line_text t)).
Proof.
  intros Hok. pose proof (extension_not_hex t rest Hok) as Hstop.
  destruct Hok as (Hne & Hd & Hn & Hv & He & Hel & Hext).
  unfold size_line_text. rewrite <- !app_assoc. unfold size_line.
  rewrite (size_digits_text _ _ 0 0) by (done || lia). rewrite Nat.add_0_l.
  fold (hex (size_text t)). fold (size_value t).
  set (input := size_text t ++ extension t ++ CRLF ++ rest).
  assert (drop (length (size_text t)) input = extension t ++ CRLF ++ rest) as Hdrop by apply drop_app_length.
  rewrite (proj2 (Nat.leb_gt _ _)) by (unfold input; rewrite !length_app; cbn [length]; lia).
  rewrite (proj2 (Nat.eqb_neq _ _)) by (destruct (size_text t); [done | cbn; lia]).
  rewrite Hdrop, extension_stop by done. rewrite (proj2 (Z.ltb_ge _ _)) by lia.
  pose proof (drop_drop_app _ _ _ _ Hdrop) as Hend.
  rewrite (proj2 (expect_crlf_Found _ _)) by by exists rest.
  assert (get_range (length (size_text t)) (length (size_text t) + length (extension t)) input
          = Some (extension t)) as -> by apply get_range_app.
  cbn [default]. unfold Datatypes.id.
  assert (negb (bool_decide (extension t = [])) && negb (valid_extension (extension t)) = false) as ->.
  { destruct Hext as [-> | ->]; [done | apply andb_false_r]. }
  apply drop_drop_app in Hend. cbn [length] in Hend. rewrite Hend.
  rewrite !length_app. cbn [length]. unfold after_size.
  replace (length (size_text t) + (length (extension t) + 2))%nat
    with (length (size_text t) + length (extension t) + 2)%nat by lia. done.
Qed.

(** A line that is cut waits. *)
Lemma size_line_cut t x w :
  size_ok t -> w <> [] -> size_line_text t = x ++ w ->
  size_line limits x = (MkChunkedDecoder Size, Ok (NeedMore 0)).
Proof.
  intros Hok Hw Hx. pose proof (extension_not_hex t [] Hok) as Hstop.
  destruct Hok as (Hne & Hd & Hn & Hv & He & Hel & Hext). symmetry in Hx. unfold size_line_text in Hx.
  assert (forall y z, size_text t = y ++ z -> size_line limits y = (MkChunkedDecoder Size, Ok (NeedMore 0)))
    as Hdigits.
  { intros y z Hyz. unfold size_line, size_value, hex in *. rewrite Hyz in Hd, Hn, Hv.
    apply Forall_app in Hd as [Hd _]. rewrite length_app in Hn. unfold hex_from in Hv.
    rewrite fold_left_app in Hv. fold (hex_from 0 y) in Hv. fold (hex_from (hex_from 0 y) z) in Hv.
    pose proof (hex_from_ge y 0 ltac:(lia)). pose proof (hex_from_ge z (hex_from 0 y) ltac:(lia)).
    rewrite <- (app_nil_r y) at 1. rewrite (size_digits_text _ _ 0 0) by (done || lia).
    by rewrite Nat.add_0_l, Nat.leb_refl. }
  apply app_cut in Hx as [(w' & _ & Heq)|(x2 & -> & Hx2)]; [by apply (Hdigits x w')|].
  destruct (decide (x2 = [])) as [->|Hx2ne].
  { apply (Hdigits _ []). by rewrite !app_nil_r. }
  unfold size_line. rewrite (size_digits_text _ _ 0 0); try (done || lia).
  2: { rewrite app_nil_r, <- Hx2 in Hstop. by destruct x2. }
  rewrite Nat.add_0_l. assert (0 < length x2)%nat by (destruct x2; [done | cbn; lia]).
  rewrite (proj2 (Nat.leb_gt _ _)) by (rewrite length_app; lia).
  rewrite (proj2 (Nat.eqb_neq _ _)) by (destruct (size_text t); [done | cbn; lia]).
  rewrite drop_app_length.
  assert (exists s y, x2 = s ++ y /\ (exists s', extension t = s ++ s') /\ (y = [] \/ y = [CR]))
    as (s & y & -> & [s' Hs] & Hy).
  { apply app_cut in Hx2 as [(w' & _ & Heq)|(y & -> & Hy)].
    - exists x2, []. rewrite app_nil_r. split; [done|]. split; [by exists w' | by left].
    - exists (extension t), y. split; [done|]. split; [exists []; by rewrite app_nil_r | by apply (crlf_cut y w)]. }
  rewrite Hs in He. apply Forall_app in He as [He _]. unfold scan_header_value.
  rewrite scan_run by (done || by destruct Hy as [-> | ->]).
  rewrite (proj2 (Z.ltb_ge _ _)) by (rewrite Hs, length_app in Hel; lia).
  rewrite (expect_crlf_cut _ _ y); [done.. |].
  by rewrite <- drop_drop, drop_app_length, drop_app_length.
Qed.

(** A line that is passed is one of the grammar. *)
Lemma size_line_sound input s r :
  size_line limits input = (s, Ok r) -> r <> NeedMore 0 ->
  exists t rest, size_ok t /\ input = size_line_text t ++ rest.
Proof.
  unfold size_line. destruct (size_digits limits input 0 0) as [[v n]|] eqn:Hd; [|done].
  apply size_digits_sound in Hd as (d & rest & -> & -> & -> & Hd & Hr & Hlim); [|lia].
  rewrite Nat.add_0_l in *. destruct (_ <=? _)%nat; [by intros [= _ <-]|].
  destruct (Nat.eqb_spec (length d) 0) as [|Hne]; [done|]. rewrite drop_app_length.
  destruct (scan_split rest is_value_byte) as (e & rest' & -> & Hn & He & _).
  unfold scan_header_value. rewrite Hn.
  destruct (Z.ltb_spec (http1_max_chunk_extension limits) (Z.of_nat (length e))); [done|].
  destruct (expect_crlf _ _) eqn:Hc; [|by intros [= _ <-]|done].
  apply expect_crlf_Found in Hc as [more Hmore].
  rewrite <- drop_drop, drop_app_length, drop_app_length in Hmore. subst rest'.
  rewrite get_range_app. cbn [default]. unfold Datatypes.id.
  destruct (negb (bool_decide (e = [])) && negb (valid_extension e)) eqn:Hv; [done|]. intros _ _.
  exists (MkSizeText d e), more. unfold size_line_text, size_ok, size_value. cbn [size_text extension].
  split; [|by rewrite <- !app_assoc].
  destruct Hlim as [->|[? ?]]; [by cbn in Hne|].
  repeat (split; [done || (by intros ->)|]). 
  case_bool_decide; [by left|]. right. by destruct (valid_extension e).
Qed.

(** ** The trailer section *)

Definition trailer_line (l : bytes) : Prop := l <> [] /\ Forall (fun b => is_cr_or_lf b = false) l.
Definition trailers_text (ls : list bytes) : bytes := mbind (fun l => l ++ CRLF) ls.
Definition trailers_ok (ls : list bytes) : Prop :=
  Forall trailer_line ls /\ Z.of_nat (length (trailers_text ls)) <= http1_max_trailer_bytes limits.

Lemma trailers_text_cons l ls : trailers_text (l :: ls) = l ++ CRLF ++ trailers_text ls.
Proof. unfold trailers_text. cbn [mbind list_bind]. by rewrite <- app_assoc. Qed.

Lemma length_trailers_text ls : (length ls <= length (trailers_text ls))%nat.
Proof.
  induction ls as [|l ls IH]; [cbn; lia|]. rewrite trailers_text_cons, !length_app. cbn [length]. lia.
Qed.

Lemma trailer_head l rest : trailer_line l -> exists b l', l ++ rest = b :: l' /\ b <> CR /\ b <> LF.
Proof.
  intros [Hne Hall]. destruct l as [|b l]; [done|]. apply Forall_cons in Hall as [Hb _].
  exists b, (l ++ rest). split; [done|]. unfold is_cr_or_lf in Hb. lia.
Qed.

Lemma trailer_head_eq (l rest l' : bytes) b : l ++ rest = b :: l' -> head (l ++ rest) = Some b.
Proof. by intros ->. Qed.

(** The [match] on the first octet of a line, away from line ends. *)
Lemma first_octet_line {A} b (x y z : A) :
  b <> CR -> b <> LF -> match b with LF => x | CR => y | _ => z end = z.
Proof. intros. by repeat case_match; congruence. Qed.

Lemma position_line l rest :
  trailer_line l -> position is_cr_or_lf (l ++ rest) = Nat.add (length l) <$> position is_cr_or_lf rest.
Proof. intros [_ Hall]. rewrite position_app. by apply position_None in Hall as ->. Qed.

Lemma trailer_complete ls : forall fuel input pos more,
  Forall trailer_line ls -> drop pos input = trailers_text ls ++ CRLF ++ more ->
  Z.of_nat (pos + length (trailers_text ls)) <= http1_max_trailer_bytes limits -> (length ls < fuel)%nat ->
  trailer_loop limits fuel input pos
  = (MkChunkedDecoder Done, Ok (StepDone (MkSpan 0 (pos + length (trailers_text ls)))
       (pos + length (trailers_text ls) + 2))).
Proof.
  induction ls as [|l ls IH]; intros [|fuel] input pos more Hls Hd Hmax Hf; cbn [length] in Hf; try lia;
    cbn [trailer_loop]; rewrite (proj2 (Z.ltb_ge _ _)) by lia.
  - rewrite Hd. cbn. by rewrite Nat.add_0_r.
  - apply Forall_cons in Hls as [Hl Hls]. rewrite trailers_text_cons, <- !app_assoc in Hd.
    destruct (trailer_head l (CRLF ++ trailers_text ls ++ CRLF ++ more) Hl) as (b & l' & Hb & ? & ?).
    rewrite Hd, (trailer_head_eq _ _ _ _ Hb). cbv beta iota.
    rewrite first_octet_line by done. rewrite position_line by done.
    cbn. rewrite Nat.add_0_r. apply drop_drop_app in Hd.
    rewrite (proj2 (expect_crlf_Found _ _)) by by eexists.
    apply drop_drop_app in Hd. cbn [length] in Hd.
    rewrite trailers_text_cons, !length_app in *. cbn [length] in *.
    rewrite (IH _ _ _ more) by (done || lia).
    fold (trailers_text ls). match goal with |- (_, Ok (StepDone (MkSpan _ ?a) _)) = (_, Ok (StepDone (MkSpan _ ?b) _)) =>
      by replace a with b by lia end.
Qed.

Lemma trailer_cut ls : forall fuel input pos x w,
  Forall trailer_line ls -> drop pos input = x -> trailers_text ls ++ CRLF = x ++ w -> w <> [] ->
  Z.of_nat (pos + length (trailers_text ls)) <= http1_max_trailer_bytes limits ->
  trailer_loop limits fuel input pos = (MkChunkedDecoder Trailers, Ok (NeedMore 0)).
Proof.
  induction ls as [|l ls IH]; intros [|fuel] input pos x w Hls Hd Hx Hw Hmax; cbn [trailer_loop]; try done;
    rewrite (proj2 (Z.ltb_ge _ _)) by lia.
  - rewrite Hd. by destruct (crlf_cut x w Hw (eq_sym Hx)) as [-> | ->].
  - apply Forall_cons in Hls as [Hl Hls]. symmetry in Hx. rewrite trailers_text_cons, <- !app_assoc in Hx.
    rewrite trailers_text_cons, !length_app in Hmax. cbn [length] in Hmax.
    apply app_cut in Hx as [(w' & _ & Heq)|(x2 & -> & Hx2)].
    + rewrite Hd. destruct x as [|b x]; [done|]. cbn [head]. rewrite Heq in Hl. destruct Hl as [_ Hl].
      apply Forall_app in Hl as [Hl _]. pose proof Hl as Hb. apply Forall_cons in Hb as [Hb _].
      rewrite first_octet_line by (unfold is_cr_or_lf in Hb; lia).
      apply position_None in Hl as ->. apply (f_equal length) in Heq. rewrite length_app in Heq.
      by rewrite (proj2 (Z.ltb_ge _ _)) by (unfold len; lia).
    + destruct (trailer_head l x2 Hl) as (b & l' & Hb & ? & ?).
      rewrite Hd, (trailer_head_eq _ _ _ _ Hb). cbv beta iota.
      rewrite first_octet_line by done. rewrite position_line by done.
      apply drop_drop_app in Hd. apply app_cut in Hx2 as [(w' & Hw' & Heq)|(x3 & -> & Hx3)].
      * destruct (crlf_cut x2 w' Hw' (eq_sym Heq)) as [-> | ->]; cbn.
        -- by rewrite (proj2 (Z.ltb_ge _ _)) by (rewrite app_nil_r; unfold len; lia).
        -- rewrite Nat.add_0_r. rewrite (expect_crlf_cut _ _ [CR]); [done | by right | done].
      * cbn. rewrite Nat.add_0_r. rewrite (proj2 (expect_crlf_Found _ _)) by by eexists.
        apply drop_drop_app in Hd. cbn [length] in Hd. apply (IH _ _ _ x3 w); try done. lia.
Qed.

Lemma trailer_sound fuel : forall input pos s r,
  trailer_loop limits fuel input pos = (s, Ok r) -> r <> NeedMore 0 ->
  exists ls more, Forall trailer_line ls /\ drop pos input = trailers_text ls ++ CRLF ++ more /\
    Z.of_nat (pos + length (trailers_text ls)) <= http1_max_trailer_bytes limits.
Proof.
  induction fuel as [|fuel IH]; intros input pos s r; cbn [trailer_loop]; [by intros [= _ <-]|].
  destruct (Z.ltb_spec (http1_max_trailer_bytes limits) (Z.of_nat pos)) as [|Hpos]; [done|].
  destruct (drop pos input) as [|b rest] eqn:Hd; cbn [head]; [by intros [= _ <-]|].
  destruct (decide (b = LF)) as [->|Hlf]; [done|].
  destruct (decide (b = CR)) as [->|Hcr].
  - cbn. destruct rest as [|c rest]; cbn; [by intros [= _ <-]|]. intros H _.
    assert (c = LF) as -> by by repeat case_match.
    exists [], rest. cbn. rewrite Nat.add_0_r. split; [constructor | done].
  - rewrite first_octet_line by done. rewrite <- Hd.
    destruct (position is_cr_or_lf (drop pos input)) as [k|] eqn:Hp.
    2: { destruct (_ <? _); [done | by intros [= _ <-]]. }
    apply position_Some in Hp as (c & Hc & Hend & Hall).
    destruct (expect_crlf input (pos + k)) eqn:He; [|by intros [= _ <-]|done].
    apply expect_crlf_Found in He as [more Hmore]. intros Hloop Hr.
    destruct (IH _ _ _ _ Hloop Hr) as (ls & more' & Hls & Hd' & Hmax).
    pose proof (drop_drop_app _ _ _ _ Hmore) as Hm. cbn [length] in Hm. rewrite Hd' in Hm. subst more.
    exists (take k (drop pos input) :: ls), more'.
    apply lookup_lt_Some in Hc as Hk. assert (length (take k (drop pos input)) = k) as Hlen
      by (rewrite length_take; lia).
    split; [constructor; [split; [|done]|done]|].
    { intros Hnil. rewrite Hnil in Hlen. cbn in Hlen. subst k. rewrite Hd in Hc. cbn in Hc. injection Hc as <-.
      unfold is_cr_or_lf in Hend. lia. }
    rewrite trailers_text_cons. split; [|rewrite !length_app; cbn [length]; lia].
    rewrite <- !app_assoc. rewrite <- Hmore, <- drop_drop. by rewrite take_drop.
Qed.
End limits.

(** ** The decoder as a streaming decoder

    The events of a step, one per octet of data; the caller stops at the end of the
    body, so that state waits. *)

Inductive Event : Type :=
| DataOctet (octet : Z)
| BodyEnd (trailers : bytes).

Definition observe (input : bytes) (r : ChunkedDecoder * result Reject Step)
  : result Reject (option (ChunkedDecoder * list Event * nat)) :=
  match r with
  | (_, Err e) => Err e
  | (s, Ok (StepData data n)) => Ok (Some (s, map DataOctet data, n))
  | (s, Ok (NeedMore O)) => Ok None
  | (s, Ok (NeedMore n)) => Ok (Some (s, [], n))
  | (s, Ok (StepDone trailers n)) => Ok (Some (s, [BodyEnd (Span_of trailers input)], n))
  end.

Definition step (limits : Limits.Http1Limits) (d : ChunkedDecoder) (input : bytes)
  : result Reject (option (ChunkedDecoder * list Event * nat)) :=
  if is_done d then Ok None else observe input (decode limits d input).

Definition busy (d : ChunkedDecoder) : nat := match state d with Data _ => 1 | _ => 0 end.

Section machine.
Context (limits : Limits.Http1Limits).

Abbreviation at_ s := (MkChunkedDecoder s).
Abbreviation go := (step limits).

Lemma Span_of_shift a b (line rest : bytes) :
  Span_of (MkSpan (a + length line) (b + length line)) (line ++ rest) = Span_of (MkSpan a b) rest.
Proof.
  unfold Span_of, get_range. cbn [start end_]. rewrite length_app.
  destruct (decide (a <= b <= length rest)%nat) as [H|H].
  - rewrite decide_True by lia. replace (b + length line - (a + length line))%nat with (b - a)%nat by lia.
    rewrite Nat.add_comm, <- drop_drop, drop_app_length. done.
  - rewrite decide_False by lia. done.
Qed.

(** A step after framing octets is resumed there. *)
Lemma observe_advanced line rest s1 r :
  (0 < length line)%nat -> (forall s, r = (s, Ok (NeedMore 0)) -> s = s1) ->
  observe (line ++ rest) (advanced r (length line)) = resumed s1 [] (length line) (observe rest r).
Proof.
  intros Hl Hs. destruct r as [s [[data n|n|[a b] n]|e]]; cbn [advanced advance observe start end_]; [| | |done].
  - cbn. by rewrite Nat.add_comm.
  - destruct (length line) as [|k]; [lia|]. destruct n as [|n]; [by rewrite (Hs s eq_refl)|].
    cbn. by replace (n + S k)%nat with (k + S n)%nat by lia.
  - rewrite Span_of_shift. cbn. by rewrite Nat.add_comm.
Qed.

Lemma trailer_wait fuel : forall input pos s n,
  trailer_loop limits fuel input pos = (s, Ok (NeedMore n)) -> s = at_ Trailers /\ n = 0%nat.
Proof.
  induction fuel as [|fuel IH]; intros input pos s n; cbn [trailer_loop]; [by intros [= <- <-]|].
  destruct (_ <? _); [done|]. intros H.
  repeat (case_match; try done); try (by injection H as <- <-); by apply IH in H.
Qed.

Lemma size_line_wait input s : size_line limits input = (s, Ok (NeedMore 0)) -> s = at_ Size.
Proof.
  unfold size_line. destruct (size_digits _ _ _ _) as [[v n]|]; [|done].
  destruct (_ <=? _)%nat; [by intros [= <-]|]. destruct (_ =? _)%nat; [done|]. destruct (_ <? _); [done|].
  destruct (expect_crlf _ _); [|by intros [= <-]|done]. destruct (_ && _); [done|].
  destruct (_ =? 0).
  - destruct (trailer_section _ _) as [s' [[| |]|]]; cbn; intros H; injection H; try done; lia.
  - destruct (bool_decide _); [intros H; injection H; lia|].
    unfold chunk_data. destruct (bool_decide _); cbn; intros H; injection H; try done; lia.
Qed.

(** A decoder that waits does not move, and one that reports the end is at the end. *)
Lemma trailer_end fuel : forall input pos s t n,
  trailer_loop limits fuel input pos = (s, Ok (StepDone t n)) -> s = at_ Done.
Proof.
  induction fuel as [|fuel IH]; intros input pos s t n; cbn [trailer_loop]; [done|].
  destruct (_ <? _); [done|]. intros H.
  repeat (case_match; try done); try (by injection H as <- <- <-); by apply IH in H.
Qed.

Lemma size_line_end input s t n : size_line limits input = (s, Ok (StepDone t n)) -> s = at_ Done.
Proof.
  unfold size_line. destruct (size_digits _ _ _ _) as [[v k]|]; [|done].
  destruct (_ <=? _)%nat; [done|]. destruct (_ =? _)%nat; [done|]. destruct (_ <? _); [done|].
  destruct (expect_crlf _ _); [|done|done]. destruct (_ && _); [done|].
  destruct (_ =? 0).
  - destruct (trailer_section _ _) as [s' [[| |]|]] eqn:Ht; cbn; intros H; try done. injection H as <- _ _. by apply trailer_end in Ht.
  - destruct (bool_decide _); [done|]. unfold chunk_data. by destruct (bool_decide _).
Qed.

Lemma decode_wait d input s : decode limits d input = (s, Ok (NeedMore 0)) -> s = d.
Proof.
  destruct d as [[|r| | |]]; unfold decode; cbn [state].
  - apply size_line_wait.
  - unfold chunk_data. destruct (bool_decide _); [by intros [= <-]|done].
  - destruct (expect_crlf _ _); [|by intros [= <-]|done].
    destruct (size_line _ _) as [s' [[| |]|]]; cbn; intros H; injection H; try done; lia.
  - intros H. by apply trailer_wait in H as [-> _].
  - done.
Qed.

Lemma decode_end d input s t n : decode limits d input = (s, Ok (StepDone t n)) -> s = at_ Done.
Proof.
  destruct d as [[|r| | |]]; unfold decode; cbn [state].
  - apply size_line_end.
  - unfold chunk_data. by destruct (bool_decide _).
  - destruct (expect_crlf _ _); [|done|done].
    destruct (size_line _ _) as [s' [[| |]|]] eqn:Hs; cbn; intros H; try done. injection H as <- _ _. by apply size_line_end in Hs.
  - apply trailer_end.
  - by intros [= <- _ _].
Qed.

(** The states the framing lines lead to. *)
Definition after_line (t : SizeText) : ChunkedDecoder :=
  at_ (if size_value t =? 0 then Trailers else Data (size_value t)).

Lemma step_size t rest : size_ok limits t ->
  go (at_ Size) (size_line_text t ++ rest)
  = resumed (after_line t) [] (length (size_line_text t)) (go (after_line t) rest).
Proof.
  intros Hok. assert (0 < length (size_line_text t))%nat as Hpos.
  { unfold size_line_text. rewrite !length_app. cbn [length]. lia. }
  unfold step at 1. cbn [is_done state]. unfold decode. cbn [state].
  rewrite (size_line_complete limits t rest Hok). unfold after_size, after_line.
  destruct (Z.eqb_spec (size_value t) 0) as [Hz|Hz].
  - rewrite (observe_advanced _ _ (at_ Trailers)); [done | done |]. intros s H.
    by apply trailer_wait in H as [-> _].
  - unfold step. cbn [is_done state]. unfold decode. cbn [state].
    case_bool_decide as Hr.
    + subst rest. unfold chunk_data. rewrite bool_decide_eq_true_2 by done. cbn.
      by destruct (length (size_line_text t)); [lia|].
    + apply observe_advanced; [done|]. intros s. unfold chunk_data. by rewrite bool_decide_eq_false_2.
Qed.

Lemma step_end rest : go (at_ DataEnd) (CRLF ++ rest) = resumed (at_ Size) [] 2 (go (at_ Size) rest).
Proof.
  unfold step, decode. cbn [is_done state].
  rewrite (proj2 (expect_crlf_Found _ _)) by by exists rest.
  change 2%nat with (length CRLF). rewrite drop_app_length.
  apply observe_advanced; [cbn; lia|]. apply size_line_wait.
Qed.

Lemma resumed_resumed (s1 s2 : ChunkedDecoder) (ev1 ev2 : list Event) n1 n2 (r : result Reject _) :
  resumed s1 ev1 n1 (resumed s2 ev2 n2 r) = resumed s2 (ev1 ++ ev2) (n1 + n2) r.
Proof. destruct r as [[[[s3 ev3] n3]|]|]; cbn; [|done..]. by rewrite app_assoc, Nat.add_assoc. Qed.

(** The laws of a streaming decoder, state by state. *)
Definition progresses (s : ChunkedDecoder) : Prop := forall input s' ev n,
  go s input = Ok (Some (s', ev, n)) -> (n <= length input)%nat /\ (busy s' < 2 * n + busy s)%nat.
Definition refuses (s : ChunkedDecoder) : Prop := forall input more e s' ev n,
  go s input = Err e -> go s (input ++ more) = Ok (Some (s', ev, n)) ->
  exists first rest e', drop n (input ++ more) = first ++ rest /\ go s' first = Err e'.
Definition splits (s : ChunkedDecoder) : Prop := forall input more s' ev n,
  go s input = Ok (Some (s', ev, n)) ->
  go s (input ++ more) = Ok (Some (s', ev, n)) \/
  go s (input ++ more) = resumed s' ev n (go s' (drop n input ++ more)).
Definition restricts (s : ChunkedDecoder) : Prop := forall input s' ev n,
  go s input = Ok (Some (s', ev, n)) -> go s (take n input) = Ok (Some (s', ev, n)).

Lemma busy_bound s : (busy s <= 1)%nat.
Proof. unfold busy. destruct (state s); lia. Qed.

(** A state whose every step begins with a line that leads to the state [next]. *)
Section lined.
Context (s : ChunkedDecoder) (lines : bytes -> ChunkedDecoder -> Prop).
Hypothesis lines_pos : forall line next, lines line next -> (0 < length line)%nat.
Hypothesis lines_step : forall line next rest, lines line next ->
  go s (line ++ rest) = resumed next [] (length line) (go next rest).
Hypothesis lines_sound : forall input r, go s input = Ok (Some r) ->
  exists line next rest, lines line next /\ input = line ++ rest.
Hypothesis lines_cut : forall line next x w, lines line next -> w <> [] -> line = x ++ w ->
  go s x = Ok None.

Lemma lined_progresses : (forall line next, lines line next -> progresses next) -> progresses s.
Proof.
  intros Hnext input s' ev n H. destruct (lines_sound _ _ H) as (line & next & rest & Hl & ->).
  pose proof (lines_pos _ _ Hl). rewrite (lines_step _ _ rest Hl) in H. rewrite length_app.
  pose proof (busy_bound s').
  destruct (go next rest) as [[[[s2 ev2] n2]|]|] eqn:H2; cbn in H; [| |done].
  - apply (Hnext _ _ Hl) in H2 as [? _]. injection H as -> <- <-. lia.
  - injection H as -> <- <-. lia.
Qed.

Lemma lined_refuses : (forall line next, lines line next -> refuses next) -> refuses s.
Proof.
  intros Hnext input more e s' ev n He H.
  destruct (lines_sound _ _ H) as (line & next & rest & Hl & Heq). rewrite Heq in H |- *.
  apply app_cut in Heq as [(w & Hw & Hx)|(x2 & -> & <-)].
  { rewrite (lines_cut _ _ _ _ Hl Hw Hx) in He. done. }
  rewrite (lines_step _ _ x2 Hl) in He. rewrite (lines_step _ _ (x2 ++ more) Hl) in H.
  destruct (go next x2) as [[[[? ?] ?]|]|e2] eqn:H2; try done.
  destruct (go next (x2 ++ more)) as [[[[s3 ev3] n3]|]|] eqn:H3; cbn in H; [| |done]; injection H as <- <- <-.
  - rewrite <- drop_drop, drop_app_length. by apply (Hnext _ _ Hl x2 more e2 s3 ev3 n3).
  - exists x2, more, e2. by rewrite drop_app_length.
Qed.

Lemma lined_splits : (forall line next, lines line next -> splits next) -> splits s.
Proof.
  intros Hnext input more s' ev n H. destruct (lines_sound _ _ H) as (line & next & rest & Hl & ->).
  rewrite <- app_assoc. rewrite (lines_step _ _ (rest ++ more) Hl). rewrite (lines_step _ _ rest Hl) in H.
  destruct (go next rest) as [[[[s2 ev2] n2]|]|] eqn:H2; cbn in H; [| |done]; injection H as <- <- <-.
  - destruct (Hnext _ _ Hl rest more s2 ev2 n2 H2) as [->| ->]; [by left|]. right.
    rewrite resumed_resumed. cbn [app]. by rewrite <- (drop_drop (line ++ rest)), drop_app_length.
  - right. by rewrite drop_app_length.
Qed.

Lemma lined_restricts : (forall line next, lines line next -> restricts next /\ (go next [] = Ok None \/ forall rest, go next rest <> Ok None)) -> restricts s.
Proof.
  intros Hnext input s' ev n H. destruct (lines_sound _ _ H) as (line & next & rest & Hl & ->). destruct (Hnext _ _ Hl) as [Hr Hw].
  rewrite (lines_step _ _ rest Hl) in H.
  destruct (go next rest) as [[[[s2 ev2] n2]|]|] eqn:H2; cbn in H; [| |done]; injection H as <- <- <-.
  - rewrite take_app_add, (lines_step _ _ (take n2 rest) Hl), (Hr _ _ _ _ H2). done.
  - rewrite take_app_length. rewrite <- (app_nil_r line) at 1. destruct Hw as [Hw|Hw]; [|by destruct (Hw rest)]. by rewrite (lines_step _ _ [] Hl), Hw.
Qed.
End lined.

(** *** Data *)

Lemma step_data_wait r : go (at_ (Data r)) [] = Ok None.
Proof. done. Qed.

Lemma step_data_full r (input : bytes) : input <> [] -> r <= len input ->
  go (at_ (Data r)) input
  = Ok (Some (at_ DataEnd, map DataOctet (take (Z.to_nat r) input), Z.to_nat r)).
Proof.
  intros Hne Hr. unfold step, decode, chunk_data. cbn [is_done state]. unfold len in Hr.
  rewrite bool_decide_eq_false_2 by done.
  rewrite Nat.min_l by lia. unfold saturating_sub. rewrite Z.max_l by lia. done.
Qed.

Lemma step_data_short r input : input <> [] -> len input < r ->
  go (at_ (Data r)) input
  = Ok (Some (at_ (Data (r - len input)), map DataOctet input, length input)).
Proof.
  intros Hne Hr. unfold step, decode, chunk_data. cbn [is_done state].
  rewrite bool_decide_eq_false_2 by done. unfold len in *.
  rewrite Nat.min_r by lia. unfold saturating_sub. rewrite Z.max_r by lia.
  rewrite (proj2 (Z.eqb_neq _ 0)) by lia. cbn. by rewrite firstn_all.
Qed.

Lemma data_cases r (input : bytes) :
  input = [] \/ (input <> [] /\ r <= len input) \/ (input <> [] /\ len input < r).
Proof.
  destruct (decide (input = [])); [by left|]. right.
  destruct (Z.le_gt_cases r (len input)); [by left | by right].
Qed.

Lemma data_progresses r : progresses (at_ (Data r)).
Proof.
  intros input s' ev n H. destruct (data_cases r input) as [->|[[Hne Hl]|[Hne Hl]]]; [done| |].
  - rewrite step_data_full in H by done. injection H as <- _ <-. cbn. unfold len in Hl. lia.
  - rewrite step_data_short in H by done. injection H as <- _ <-. cbn.
    destruct input; [done | cbn [length]; lia].
Qed.

Lemma data_refuses r : refuses (at_ (Data r)).
Proof.
  intros input more e s' ev n H. unfold step, decode, chunk_data in H. cbn [is_done state] in H.
  by case_bool_decide.
Qed.

Lemma data_splits r : splits (at_ (Data r)).
Proof.
  intros input more s' ev n H. destruct (data_cases r input) as [->|[[Hne Hl]|[Hne Hl]]]; [done| |].
  - left. rewrite step_data_full in H |- *
      by first [done | by destruct input | rewrite len_app; pose proof (len_nonneg more); lia].
    by rewrite take_app_le by (unfold len in Hl; lia).
  - rewrite step_data_short in H by done. injection H as <- <- <-. rewrite drop_all. cbn [app].
    destruct (decide (more = [])) as [->|Hm].
    { left. by rewrite app_nil_r, step_data_short. }
    right. destruct (Z.le_gt_cases r (len (input ++ more))) as [Hb|Hb]; rewrite len_app in Hb.
    + pose proof (len_nonneg input).
      rewrite !step_data_full by first [done | rewrite ?len_app; lia | by destruct input]. cbn [resumed].
      assert (Z.to_nat r = length input + Z.to_nat (r - len input))%nat as -> by (unfold len in *; lia).
      by rewrite take_app_add, map_app.
    + rewrite !step_data_short by first [done | rewrite ?len_app; lia | by destruct input]. cbn [resumed].
      by rewrite len_app, length_app, map_app, Z.sub_add_distr.
Qed.

Lemma data_restricts r : 0 < r -> restricts (at_ (Data r)).
Proof.
  intros Hr input s' ev n H. destruct (data_cases r input) as [->|[[Hne Hl]|[Hne Hl]]]; [done| |].
  - rewrite step_data_full in H by done. injection H as <- <- <-. unfold len in Hl.
    rewrite step_data_full; [by rewrite take_take, Nat.min_id| |unfold len; rewrite length_take; lia].
    destruct (Z.to_nat r) eqn:Hk; [lia|]. by destruct input.
  - rewrite step_data_short in H by done. injection H as <- <- <-. by rewrite take_ge, step_data_short by done.
Qed.

(** *** The trailer section *)

Lemma step_trailers ls more : trailers_ok limits ls ->
  go (at_ Trailers) (trailers_text ls ++ CRLF ++ more)
  = Ok (Some (at_ Done, [BodyEnd (trailers_text ls)], (length (trailers_text ls) + 2)%nat)).
Proof.
  intros [Hls Hmax]. unfold step, decode. cbn [is_done state]. unfold trailer_section.
  pose proof (length_trailers_text ls).
  rewrite (trailer_complete limits ls _ _ 0 more) by (done || rewrite ?length_app; lia).
  pose proof (Span_of_drop 0 (trailers_text ls ++ CRLF ++ more) (trailers_text ls) (CRLF ++ more) eq_refl) as Hs.
  rewrite Nat.add_0_l in *. cbn [observe]. by rewrite Hs.
Qed.

Lemma step_trailers_sound input r : go (at_ Trailers) input = Ok (Some r) ->
  exists ls more, trailers_ok limits ls /\ input = trailers_text ls ++ CRLF ++ more.
Proof.
  unfold step, decode. cbn [is_done state]. unfold trailer_section.
  destruct (trailer_loop _ _ _ _) as [s [st|e]] eqn:H; [|done]. intros Ho.
  destruct (trailer_sound limits _ _ _ _ _ H) as (ls & more & ? & ? & ?).
  { intros ->. done. }
  exists ls, more. done.
Qed.

Lemma step_trailers_cut ls x w : trailers_ok limits ls -> w <> [] -> trailers_text ls ++ CRLF = x ++ w ->
  go (at_ Trailers) x = Ok None.
Proof.
  intros [Hls Hmax] Hw Hx. unfold step, decode. cbn [is_done state]. unfold trailer_section.
  by rewrite (trailer_cut limits ls _ _ 0 x w).
Qed.

Lemma trailers_progresses : progresses (at_ Trailers).
Proof.
  intros input s' ev n H. destruct (step_trailers_sound _ _ H) as (ls & more & Hok & ->).
  rewrite step_trailers in H by done. injection H as <- _ <-. rewrite !length_app. cbn. lia.
Qed.

Lemma trailers_refuses : refuses (at_ Trailers).
Proof.
  intros input more e s' ev n He H. destruct (step_trailers_sound _ _ H) as (ls & rest & Hok & Heq).
  rewrite app_assoc in Heq. apply app_cut in Heq as [(w & Hw & Hx)|(x2 & -> & _)].
  - by rewrite (step_trailers_cut _ _ _ Hok Hw Hx) in He.
  - by rewrite <- app_assoc, step_trailers in He.
Qed.

Lemma trailers_splits : splits (at_ Trailers).
Proof.
  intros input more s' ev n H. left. destruct (step_trailers_sound _ _ H) as (ls & rest & Hok & ->).
  rewrite step_trailers in H by done. by rewrite <- !app_assoc, step_trailers.
Qed.

Lemma trailers_restricts : restricts (at_ Trailers).
Proof.
  intros input s' ev n H. destruct (step_trailers_sound _ _ H) as (ls & rest & Hok & ->).
  rewrite step_trailers in H by done. injection H as <- <- <-.
  rewrite app_assoc, take_app_length' by (by rewrite length_app). rewrite <- (app_nil_r (trailers_text ls ++ CRLF)), <- app_assoc.
  by apply step_trailers.
Qed.

Lemma trailers_wait : go (at_ Trailers) [] = Ok None \/ forall rest, go (at_ Trailers) rest <> Ok None.
Proof.
  unfold step, decode, trailer_section. cbn [is_done state trailer_loop Z.of_nat].
  change (Z.of_nat 0) with 0. destruct (http1_max_trailer_bytes limits <? 0); [by right|by left].
Qed.

(** *** The instance *)

Definition size_lines (line : bytes) (next : ChunkedDecoder) : Prop :=
  exists t, size_ok limits t /\ line = size_line_text t /\ next = after_line t.
Definition end_lines (line : bytes) (next : ChunkedDecoder) : Prop := line = CRLF /\ next = at_ Size.

Lemma size_lines_sound input r : go (at_ Size) input = Ok (Some r) ->
  exists line next rest, size_lines line next /\ input = line ++ rest.
Proof.
  unfold step, decode. cbn [is_done state].
  destruct (size_line limits input) as [s [st|e]] eqn:H; [|done]. intros Ho.
  destruct (size_line_sound limits _ _ _ H) as (t & rest & Hok & ->); [by intros ->|].
  exists (size_line_text t), (after_line t), rest. split; [by exists t | done].
Qed.

Lemma end_lines_sound input r : go (at_ DataEnd) input = Ok (Some r) ->
  exists line next rest, end_lines line next /\ input = line ++ rest.
Proof.
  unfold step, decode. cbn [is_done state].
  destruct (expect_crlf input 0) eqn:H; [|done..]. apply expect_crlf_Found in H as [more H]. intros _.
  exists CRLF, (at_ Size), more. by split.
Qed.

Lemma size_value_nonneg t : 0 <= size_value t.
Proof. apply hex_from_ge. lia. Qed.

Lemma size_laws : progresses (at_ Size) /\ refuses (at_ Size) /\ splits (at_ Size).
Proof.
  assert (forall line next, size_lines line next -> (0 < length line)%nat) as Hpos.
  { intros line next (t & _ & -> & _). unfold size_line_text. rewrite !length_app. cbn [length]. lia. }
  assert (forall line next rest, size_lines line next ->
    go (at_ Size) (line ++ rest) = resumed next [] (length line) (go next rest)) as Hstep.
  { intros line next rest (t & Hok & -> & ->). by apply step_size. }
  assert (forall line next x w, size_lines line next -> w <> [] -> line = x ++ w ->
    go (at_ Size) x = Ok None) as Hcut.
  { intros line next x w (t & Hok & -> & _) Hw Hx. unfold step, decode. cbn [is_done state].
    by rewrite (size_line_cut limits t x w). }
  assert (forall line next, size_lines line next -> progresses next /\ refuses next /\ splits next) as Hnext.
  { intros line next (t & Hok & _ & ->). unfold after_line. pose proof (size_value_nonneg t).
    destruct (Z.eqb_spec (size_value t) 0).
    - split; [apply trailers_progresses | split; [apply trailers_refuses | apply trailers_splits]].
    - split; [apply data_progresses | split; [apply data_refuses | apply data_splits]]. }
  split; [|split].
  - apply (lined_progresses _ size_lines Hpos Hstep size_lines_sound). intros. by eapply Hnext.
  - apply (lined_refuses _ size_lines Hstep size_lines_sound Hcut). intros. by eapply Hnext.
  - apply (lined_splits _ size_lines Hstep size_lines_sound). intros. by eapply Hnext.
Qed.

Lemma end_laws : progresses (at_ DataEnd) /\ refuses (at_ DataEnd) /\ splits (at_ DataEnd).
Proof.
  destruct size_laws as (Hp & Hr & Hs).
  assert (forall line next rest, end_lines line next ->
    go (at_ DataEnd) (line ++ rest) = resumed next [] (length line) (go next rest)) as Hstep.
  { intros line next rest [-> ->]. apply step_end. }
  assert (forall line next, end_lines line next -> (0 < length line)%nat) as Hpos
    by (intros line next [-> _]; cbn; lia).
  assert (forall line next x w, end_lines line next -> w <> [] -> line = x ++ w ->
    go (at_ DataEnd) x = Ok None) as Hcut.
  { intros line next x w [-> _] Hw Hx. by destruct (crlf_cut x w Hw (eq_sym Hx)) as [-> | ->]. }
  split; [|split].
  - apply (lined_progresses _ end_lines Hpos Hstep end_lines_sound). by intros line next [_ ->].
  - apply (lined_refuses _ end_lines Hstep end_lines_sound Hcut). by intros line next [_ ->].
  - apply (lined_splits _ end_lines Hstep end_lines_sound). by intros line next [_ ->].
Qed.

(** *** A step takes what it needs and no more *)

(** The states a decoder reaches: data is pending only while some is. *)
Definition decoder_ok (d : ChunkedDecoder) : Prop := forall r, state d = Data r -> 0 < r.

Lemma size_restricts : restricts (at_ Size).
Proof.
  apply (lined_restricts _ size_lines); [|exact size_lines_sound|].
  - intros line next rest (t & Hok & -> & ->). by apply step_size.
  - intros line next (t & Hok & _ & ->). unfold after_line. pose proof (size_value_nonneg t).
    destruct (Z.eqb_spec (size_value t) 0); split; [apply trailers_restricts|apply trailers_wait|apply data_restricts; lia|by left].
Qed.

Lemma end_restricts : restricts (at_ DataEnd).
Proof.
  apply (lined_restricts _ end_lines); [|exact end_lines_sound|].
  - intros line next rest [-> ->]. apply step_end.
  - intros line next [_ ->]. split; [apply size_restricts|by left].
Qed.

Lemma step_restricts d : decoder_ok d -> restricts d.
Proof.
  intros Hd. destruct d as [[|r| | |]]; [apply size_restricts|by apply data_restricts, Hd|apply end_restricts|apply trailers_restricts|by intros ?].
Qed.

Lemma data_step_ok r input d ev n : go (at_ (Data r)) input = Ok (Some (d, ev, n)) -> decoder_ok d.
Proof.
  intros H. destruct (data_cases r input) as [->|[[Hne Hl]|[Hne Hl]]]; [done| |].
  - rewrite step_data_full in H by done. injection H as <- _ _. by intros x.
  - rewrite step_data_short in H by done. injection H as <- _ _. intros x [= <-]. lia.
Qed.

Lemma size_step_ok input d ev n : go (at_ Size) input = Ok (Some (d, ev, n)) -> decoder_ok d.
Proof.
  intros H. destruct (size_lines_sound _ _ H) as (line & next & rest & (t & Hok & -> & ->) & ->).
  rewrite step_size in H by done. unfold after_line in H. pose proof (size_value_nonneg t).
  destruct (Z.eqb_spec (size_value t) 0).
  - destruct (go (at_ Trailers) rest) as [[[[d2 ev2] n2]|]|] eqn:H2; cbn in H; [| |done]; injection H as <- _ _; [|by intros x].
    destruct (step_trailers_sound _ _ H2) as (ls & more & Hls & ->). rewrite step_trailers in H2 by done. injection H2 as <- _ _. by intros x.
  - destruct (go (at_ (Data _)) rest) as [[[[d2 ev2] n2]|]|] eqn:H2; cbn in H; [| |done]; injection H as <- _ _; [by eapply data_step_ok|].
    intros x [= <-]. lia.
Qed.

Lemma step_ok d input d' ev n : go d input = Ok (Some (d', ev, n)) -> decoder_ok d'.
Proof.
  destruct d as [[|r| | |]]; intros H; [by eapply size_step_ok|by eapply data_step_ok| | |done].
  - destruct (end_lines_sound _ _ H) as (line & next & rest & [-> ->] & ->). rewrite step_end in H.
    destruct (go (at_ Size) rest) as [[[[d2 ev2] n2]|]|] eqn:H2; cbn in H; [| |done]; injection H as <- _ _; [by eapply size_step_ok|by intros x].
  - destruct (step_trailers_sound _ _ H) as (ls & more & Hls & ->). rewrite step_trailers in H by done. injection H as <- _ _. by intros x.
Qed.
End machine.

#[global] Instance chunked_machine limits : Machine (step limits) busy.
Proof.
  destruct (size_laws limits) as (Hp & Hr & Hs). destruct (end_laws limits) as (Hp' & Hr' & Hs').
  split.
  - apply busy_bound.
  - intros [[|r| | |]] input s' ev n H; [exact (Hp _ _ _ _ H) | exact (data_progresses limits r _ _ _ _ H)
      | exact (Hp' _ _ _ _ H) | exact (trailers_progresses limits _ _ _ _ H) | done].
  - intros [[|r| | |]] input more e s' ev n He H; [exact (Hr _ _ _ _ _ _ He H)
      | exact (data_refuses limits r _ _ _ _ _ _ He H) | exact (Hr' _ _ _ _ _ _ He H)
      | exact (trailers_refuses limits _ _ _ _ _ _ He H) | done].
  - intros [[|r| | |]] input more s' ev n H; [exact (Hs _ _ _ _ _ H) | exact (data_splits limits r _ _ _ _ _ H)
      | exact (Hs' _ _ _ _ _ H) | exact (trailers_splits limits _ _ _ _ _ H) | done].
Qed.

(** ** Chunked bodies *)

Record Chunk : Type := MkChunk {
  chunk_size : SizeText;
  chunk_octets : bytes;
}.

Record Body : Type := MkBody {
  chunks : list Chunk;
  last_size : SizeText;
  trailer_lines : list bytes;
}.

Definition chunk_text (c : Chunk) : bytes := size_line_text (chunk_size c) ++ chunk_octets c ++ CRLF.
Definition body_text (b : Body) : bytes :=
  mbind chunk_text (chunks b) ++ size_line_text (last_size b) ++ trailers_text (trailer_lines b) ++ CRLF.
Definition body_data (b : Body) : bytes := mbind chunk_octets (chunks b).
Definition body_events (b : Body) : list Event :=
  map DataOctet (body_data b) ++ [BodyEnd (trailers_text (trailer_lines b))].

Section bodies.
Context (limits : Limits.Http1Limits).
Abbreviation at_ s := (MkChunkedDecoder s).
Abbreviation run := (run (step limits) busy).

Definition chunk_ok (c : Chunk) : Prop :=
  size_ok limits (chunk_size c) /\ chunk_octets c <> [] /\ size_value (chunk_size c) = len (chunk_octets c).
Definition body_ok (b : Body) : Prop :=
  Forall chunk_ok (chunks b) /\ size_ok limits (last_size b) /\ size_value (last_size b) = 0 /\
  trailers_ok limits (trailer_lines b).

Lemma run_lined s line next rest :
  step limits s (line ++ rest) = resumed next [] (length line) (step limits next rest) ->
  run s (line ++ rest) = (let? (s', ev, n) := run next rest in Ok (s', ev, (length line + n)%nat)).
Proof.
  intros H. rewrite (run_resumed (step limits) busy s _ next [] (length line)) by by rewrite drop_app_length.
  rewrite drop_app_length. by destruct (run next rest) as [[[? ?] ?]|].
Qed.

Lemma run_size t rest : size_ok limits t ->
  run (at_ Size) (size_line_text t ++ rest)
  = (let? (s, ev, n) := run (after_line t) rest in Ok (s, ev, (length (size_line_text t) + n)%nat)).
Proof. intros H. by apply run_lined, step_size. Qed.

Lemma run_end rest :
  run (at_ DataEnd) (CRLF ++ rest) = (let? (s, ev, n) := run (at_ Size) rest in Ok (s, ev, (2 + n)%nat)).
Proof. apply (run_lined _ CRLF), step_end. Qed.

Lemma run_data data rest : data <> [] ->
  run (at_ (Data (len data))) (data ++ rest)
  = (let? (s, ev, n) := run (at_ DataEnd) rest in Ok (s, map DataOctet data ++ ev, (length data + n)%nat)).
Proof.
  intros Hne. rewrite (run_step (step limits) busy).
  rewrite step_data_full; [| by destruct data | rewrite len_app; pose proof (len_nonneg rest); lia].
  unfold len. rewrite Nat2Z.id, take_app_length, drop_app_length. done.
Qed.

Lemma run_done input : run (at_ Done) input = Ok (at_ Done, [], 0%nat).
Proof. by rewrite (run_step (step limits) busy). Qed.

Lemma run_trailers ls rest : trailers_ok limits ls ->
  run (at_ Trailers) (trailers_text ls ++ CRLF ++ rest)
  = Ok (at_ Done, [BodyEnd (trailers_text ls)], (length (trailers_text ls) + 2)%nat).
Proof.
  intros Hok. rewrite (run_step (step limits) busy), step_trailers by done. rewrite run_done.
  by rewrite Nat.add_0_r.
Qed.

Lemma run_body_cons c cs l ls :
  body_text (MkBody (c :: cs) l ls) = chunk_text c ++ body_text (MkBody cs l ls).
Proof. unfold body_text. cbn [chunks last_size trailer_lines mbind list_bind]. by rewrite <- app_assoc. Qed.

Lemma run_body b rest : body_ok b ->
  run new (body_text b ++ rest) = Ok (at_ Done, body_events b, length (body_text b)).
Proof.
  destruct b as [cs l ls]. intros (Hcs & Hl & Hz & Hls). cbn [chunks last_size trailer_lines] in *.
  change new with (at_ Size). induction Hcs as [|c cs (Hs & Hne & Hlen) _ IH].
  - unfold body_text. cbn [chunks last_size trailer_lines mbind list_bind app].
    rewrite <- !app_assoc, run_size by done. unfold after_line. rewrite Hz. cbn [Z.eqb].
    rewrite run_trailers by done. rewrite !length_app. done.
  - rewrite run_body_cons. unfold chunk_text. rewrite <- !app_assoc, run_size by done.
    unfold after_line. rewrite Hlen, (proj2 (Z.eqb_neq _ 0))
      by (unfold len; destruct (chunk_octets c); [done | cbn [length]; lia]).
    rewrite run_data, run_end, IH by done. unfold body_events, body_data.
    cbn [chunks trailer_lines mbind list_bind]. rewrite map_app, <- app_assoc, !length_app. cbn [length].
    done.
Qed.

Lemma run_waits s input s' ev n : step limits s input = Ok None -> run s input = Ok (s', ev, n) -> s' = s.
Proof. intros H. rewrite (run_step (step limits) busy), H. by intros [= <- _ _]. Qed.

Lemma run_body_sound k : forall input ev n, (length input <= k)%nat ->
  run (at_ Size) input = Ok (at_ Done, ev, n) ->
  exists b rest, body_ok b /\ input = body_text b ++ rest /\ ev = body_events b /\ n = length (body_text b).
Proof.
  induction k as [|k IH]; intros input ev n Hk H.
  { destruct input; [|cbn in Hk; lia]. by apply run_waits in H. }
  destruct (step limits (at_ Size) input) as [[r|]|e] eqn:Hs.
  2: { by apply run_waits in H. }
  2: { by rewrite (run_step (step limits) busy), Hs in H. }
  destruct (size_lines_sound limits _ _ Hs) as (line & next & rest & (t & Hok & -> & ->) & ->). clear r Hs.
  rewrite run_size in H by done. unfold after_line in H.
  destruct (Z.eqb_spec (size_value t) 0) as [Hz|Hz].
  - destruct (step limits (at_ Trailers) rest) as [[r|]|e] eqn:Hs.
    2: { by rewrite (run_step (step limits) busy), Hs in H. }
    2: { by rewrite (run_step (step limits) busy), Hs in H. }
    destruct (step_trailers_sound limits _ _ Hs) as (ls & more & Hls & ->).
    rewrite run_trailers in H by done. injection H as <- <-.
    exists (MkBody [] t ls), more. unfold body_text. cbn [chunks last_size trailer_lines mbind list_bind app].
    split; [done|]. rewrite <- !app_assoc. split; [done|]. split; [done|]. by rewrite !length_app.
  - destruct (run (at_ (Data (size_value t))) rest) as [[[s ev'] m]|] eqn:Hd; [|done].
    injection H as -> -> <-. pose proof (size_value_nonneg t) as Hpos.
    destruct (data_cases (size_value t) rest) as [->|[[Hne Hl]|[Hne Hl]]]; [done| |].
    2: { rewrite (run_step (step limits) busy), step_data_short, drop_all in Hd by done. by cbn in Hd. }
    set (v := size_value t) in *. unfold len in Hl.
    assert (exists data more, rest = data ++ more /\ v = len data /\ data <> []) as (data & more & -> & Hv & Hdne).
    { exists (take (Z.to_nat v) rest), (drop (Z.to_nat v) rest). rewrite take_drop. split; [done|].
      assert (length (take (Z.to_nat v) rest) = Z.to_nat v) as Hlen by (rewrite length_take; lia).
      split; [unfold len; lia|]. intros Hnil. rewrite Hnil in Hlen. cbn in Hlen. lia. }
    rewrite Hv, run_data in Hd by done.
    destruct (run (at_ DataEnd) more) as [[[s ev2] m2]|] eqn:He; [|done]. injection Hd as -> <- <-.
    destruct (step limits (at_ DataEnd) more) as [[r|]|e] eqn:Hs.
    2, 3: by rewrite (run_step (step limits) busy), Hs in He.
    destruct (end_lines_sound limits _ _ Hs) as (line & next & rest & [-> ->] & ->).
    rewrite run_end in He. destruct (run (at_ Size) rest) as [[[s ev3] m3]|] eqn:Hr; [|done].
    injection He as -> <- <-.
    apply IH in Hr as ([cs l ls] & rest' & (Hcs & Hl' & Hz' & Hls) & -> & -> & ->).
    2: { rewrite !length_app in Hk. cbn [length] in Hk. lia. }
    exists (MkBody (MkChunk t data :: cs) l ls), rest'.
    split; [split; [constructor; [done|exact Hcs] | done]|].
    rewrite run_body_cons. unfold chunk_text, body_events, body_data.
    cbn [chunk_size chunk_octets chunks trailer_lines mbind list_bind].
    rewrite map_app, !length_app, <- !app_assoc. cbn [length]. repeat split. lia.
Qed.

(** The octets that bring a new decoder to a state, step by step, with their events. *)
Definition brings (b : bytes) (d : ChunkedDecoder) (ev : list Event) : Prop :=
  decoder_ok d /\
  forall x, run new (b ++ x) = (let? (s, ev2, m) := run d x in Ok (s, ev ++ ev2, (length b + m)%nat)).

Lemma brings_nil : brings [] new [].
Proof. split; [by intros r|]. intros x. cbn [app length]. by destruct (run new x) as [[[s ev2] m]|]. Qed.

Lemma brings_step b d ev input d' ev' n : brings b d ev -> step limits d input = Ok (Some (d', ev', n)) ->
  brings (b ++ take n input) d' (ev ++ ev').
Proof.
  intros [Hd Hb] Hs. split; [by eapply step_ok|]. intros x. rewrite <- app_assoc, Hb.
  assert (n <= length input)%nat as Hn by (by apply machine_progress in Hs as [? _]).
  pose proof (step_restricts limits d Hd _ _ _ _ Hs) as Hr. rewrite (run_split (step limits) busy _ _ x _ _ _ Hr).
  rewrite drop_ge by (rewrite length_take; lia). cbn [app].
  destruct (run d' x) as [[[s ev2] m]|]; [|done]. by rewrite app_assoc, length_app, length_take, Nat.min_l, Nat.add_assoc by done.
Qed.

Lemma brings_body b ev : brings b (at_ Done) ev -> exists cb, body_ok cb /\ b = body_text cb /\ ev = body_events cb.
Proof.
  intros [_ Hb]. specialize (Hb []). rewrite run_done, !app_nil_r, Nat.add_0_r in Hb.
  apply (run_body_sound (length b)) in Hb as (cb & rest & Hok & -> & -> & Hl); [|done].
  exists cb. split; [done|]. split; [|done]. rewrite length_app in Hl. destruct rest; [apply app_nil_r|cbn in Hl; lia].
Qed.
End bodies.

(** ** What the encoder writes *)

Lemma hex_glyph_value d : 0 <= d < 16 -> hex_value (hex_glyph d) = Some d.
Proof.
  intros Hd. assert (forallb (fun d => bool_decide (hex_value (hex_glyph d) = Some d)) (seqZ 0 16) = true) as H
    by reflexivity.
  rewrite forallb_forall in H. apply (bool_decide_eq_true (hex_value _ = _)), H.
  apply list_elem_of_In, elem_of_seqZ. lia.
Qed.

(** The digits are those of the value, and there are as few as that. *)
Lemma header_digits_spec fuel : forall v, (0 < fuel)%nat -> 0 <= v < 16 ^ Z.of_nat fuel ->
  let d := reverse (header_digits fuel v) in
  hex d = v /\ Forall (fun b => is_hex b = true) d /\ d <> [] /\ (length d <= fuel)%nat.
Proof.
  induction fuel as [|fuel IH]; intros v Hf Hv; [lia|]. cbn [header_digits].
  pose proof (Z.mod_pos_bound v 16 ltac:(lia)) as Hm. pose proof (hex_glyph_value _ Hm) as Hg.
  assert (is_hex (hex_glyph (v mod 16)) = true) as Hh by (unfold is_hex; by rewrite Hg).
  pose proof (Z.div_mod v 16 ltac:(lia)) as Hdm.
  destruct (Z.eqb_spec (v / 16) 0) as [Hz|Hz].
  - split; [unfold hex, hex_from; cbn; rewrite Hg; cbn; unfold Datatypes.id; lia|].
    split; [by constructor|]. split; [done|]. cbn. lia.
  - rewrite Nat2Z.inj_succ, Z.pow_succ_r in Hv by lia.
    assert (0 <= v / 16 < 16 ^ Z.of_nat fuel) as Hv' by (split; [apply Z.div_pos | apply Z.div_lt_upper_bound]; lia).
    destruct fuel as [|fuel]; [change (16 ^ Z.of_nat 0) with 1 in Hv'; lia|].
    destruct (IH (v / 16)) as (IHv & IHh & IHn & IHl); [lia | done |].
    rewrite reverse_cons. unfold hex, hex_from in *. rewrite fold_left_app, IHv. cbn [fold_left].
    rewrite Hg. cbn [default]. unfold Datatypes.id. split; [lia|].
    split; [apply Forall_app; split; [done | by constructor]|].
    split; [by destruct (reverse _)|]. rewrite length_app. cbn [length]. lia.
Qed.

Definition header_text (v : Z) : SizeText := MkSizeText (reverse (header_digits 16 v)) [].

Lemma header_text_value v : word 64 v -> size_value (header_text v) = v.
Proof. intros Hv. apply (header_digits_spec 16); [lia | unfold word in Hv; pow2; lia]. Qed.

Lemma chunk_header_text v : word 64 v ->
  chunk_header v (replicate MAX_CHUNK_HEADER_LEN 0)
  = Some (length (size_line_text (header_text v)),
          size_line_text (header_text v) ++ replicate (MAX_CHUNK_HEADER_LEN - length (size_line_text (header_text v))) 0).
Proof.
  intros Hv. destruct (header_digits_spec 16 v) as (_ & _ & _ & Hl); [lia | unfold word in Hv; pow2; lia |].
  unfold chunk_header, size_line_text, header_text. cbn [size_text extension app].
  rewrite length_reverse in Hl.
  destruct (get_to _ _) as [x|] eqn:Hg.
  - rewrite drop_replicate, length_app, length_reverse. cbn [length]. unfold CHUNK_END. by rewrite <- app_assoc.
  - exfalso. unfold get_to in Hg. case_decide as H; [done|]. apply H.
    rewrite length_replicate. unfold MAX_CHUNK_HEADER_LEN. lia.
Qed.

(** The octets [encode_chunk] writes into some buffer. *)
Definition encodes (piece wire : bytes) : Prop :=
  exists out n out', encode_chunk piece out = Some (n, out') /\ wire = take n out'.

Definition encoded (piece : bytes) : Chunk := MkChunk (header_text (len piece)) piece.

Lemma encode_chunk_text piece wire : word 64 (len piece) -> encodes piece wire ->
  piece <> [] /\ wire = chunk_text (encoded piece).
Proof.
  intros Hw (out & n & out' & H & ->). assert (piece <> []) as Hne by by intros ->. split; [done|].
  assert (encode_chunk piece out =
    let! (header_len, header) := chunk_header (len piece) (replicate MAX_CHUNK_HEADER_LEN 0) in
    let total := (header_len + length piece + length CHUNK_END)%nat in
    let! _ := get_to total out in
    Some (total, take header_len header ++ piece ++ CHUNK_END ++ drop total out)) as Henc
    by by destruct piece.
  rewrite Henc, chunk_header_text in H by done. change CHUNK_END with CRLF in H. cbv zeta in H.
  destruct (get_to _ out) as [x|]; [|done]. injection H as <- <-.
  rewrite take_app_length. unfold chunk_text, encoded. cbn [chunk_size chunk_octets].
  change (CR :: LF :: ?rest) with (CRLF ++ rest).
  rewrite (app_assoc piece CRLF (drop _ _)), (app_assoc (size_line_text _)), take_app_length'; [done | lengths].
Qed.

Section encoder.
Context (limits : Limits.Http1Limits).
Hypothesis digits_allowed : 16 <= http1_max_chunk_size_digits limits.
Hypothesis extension_allowed : 0 <= http1_max_chunk_extension limits.
Hypothesis trailer_allowed : 0 <= http1_max_trailer_bytes limits.

Lemma header_text_ok v : word 64 v -> size_ok limits (header_text v).
Proof.
  intros Hw. pose proof (header_text_value v Hw) as Hv. unfold word in Hw.
  destruct (header_digits_spec 16 v) as (_ & Hh & Hn & Hl); [lia | pow2; lia |].
  unfold size_ok. rewrite Hv. cbn [header_text size_text extension length].
  repeat split; try done; try lia. by left.
Qed.

Lemma encoded_ok pieces wires :
  Forall (fun piece => word 64 (len piece)) pieces -> Forall2 encodes pieces wires ->
  let b := MkBody (map encoded pieces) (header_text 0) [] in
  body_ok limits b /\ concat wires ++ LAST_CHUNK = body_text b /\
  body_events b = map DataOctet (concat pieces) ++ [BodyEnd []].
Proof.
  intros Hw He b. unfold b, body_ok, body_text, body_events, body_data. cbn [chunks last_size trailer_lines].
  rewrite header_text_value by word_lia. revert Hw.
  induction He as [|piece wire pieces wires He _ IH]; intros Hw.
  - split; [|done]. split; [constructor|]. split; [apply header_text_ok; word_lia|]. split; [done|].
    split; [constructor | done].
  - apply Forall_cons in Hw as [Hp Hw]. apply encode_chunk_text in He as [Hne ->]; [|done].
    destruct (IH Hw) as ((Hcs & Hl & Hz & Ht) & Htext & Hev).
    split; [split; [constructor; [split; [by apply header_text_ok | split; [done | by apply header_text_value]] | done] | done]|].
    cbn [map mbind list_bind concat chunk_octets encoded]. rewrite !map_app, <- !app_assoc.
    split; [by rewrite Htext|]. by rewrite Hev.
Qed.
End encoder.

(** C6. The chunked decoder, run over octets in memory, ends exactly when they begin
    with a chunked body of RFC 9112 Section 7.1 within the limits: chunks of one octet
    or more whose size line has the size in hexadecimal and extensions within the
    bounds, a chunk of size zero, and trailer lines.  It then reports the content of
    the chunks and the trailer section, and takes the octets of the body alone. *)
Theorem chunked_grammar limits input ev n :
  run (step limits) busy new input = Ok (MkChunkedDecoder Done, ev, n) <->
  exists b more, body_ok limits b /\ input = body_text b ++ more /\ ev = body_events b /\ n = length (body_text b).
Proof.
  split.
  - apply (run_body_sound limits (length input)). done.
  - intros (b & more & Hok & -> & -> & ->). by apply run_body.
Qed.

(** C11. Octets written with [encode_chunk], followed by [LAST_CHUNK] and cut by the
    transport in any way, are decoded to the octets encoded, with an empty trailer
    section and nothing left over. *)
Theorem chunked_delivered limits pieces wires cuts :
  16 <= http1_max_chunk_size_digits limits -> 0 <= http1_max_chunk_extension limits ->
  0 <= http1_max_trailer_bytes limits ->
  Forall (fun piece => word 64 (len piece)) pieces -> Forall2 encodes pieces wires ->
  concat cuts = concat wires ++ LAST_CHUNK ->
  deliver (step limits) busy new [] cuts
  = Ok (MkChunkedDecoder Done, map DataOctet (concat pieces) ++ [BodyEnd []], []).
Proof.
  intros Hd Hx Ht Hw He Hcuts.
  destruct (encoded_ok limits Hd Hx Ht pieces wires Hw He) as (Hok & Htext & Hev).
  apply (deliver_complete (step limits) busy); [done|]. cbn [app]. rewrite Hcuts, Htext, <- Hev.
  rewrite <- (app_nil_r (body_text _)) at 1. by apply run_body.
Qed.

Lemma chunked_delivered_witness :
  deliver (step Http1Limits_DEFAULT) busy new []
    [bs "1"; bs "1" ++ [CR]; LF :: bs "a body of 17 octe"; CRLF ++ bs "2"; CRLF ++ bs "ts" ++ CRLF ++ LAST_CHUNK]
  = Ok (MkChunkedDecoder Done, map DataOctet (bs "a body of 17 octets") ++ [BodyEnd []], []).
Proof.
  apply (chunked_delivered Http1Limits_DEFAULT [bs "a body of 17 octe"; bs "ts"]
    [bs "11" ++ CRLF ++ bs "a body of 17 octe" ++ CRLF; bs "2" ++ CRLF ++ bs "ts" ++ CRLF]);
    [vm_compute; discriminate.. | | |].
  - repeat constructor; vm_compute; done.
  - constructor; [|constructor; [|constructor]]; exists (replicate 40 0); eexists _, _;
      (split; [vm_compute; reflexivity | vm_compute; reflexivity]).
  - reflexivity.
Defined.
