(* ===== verification/H1Trailers.v ===== *)
(** * What is kept of a trailer section

    [parse_trailers] of [H1Chunked] against the grammar: the fields kept are the
    allowed ones of the section, in order, and every line of the section is a field
    line. *)
From S2P Require Import Prelude Scalar HttpTypes Limits H1List H1Head H1Grammar H1Request H1Chunked H1Body.

(** Where the lines of a section begin. *)
Fixpoint positions (pos : nat) (fs : list FieldText) : list (nat * FieldText) :=
  match fs with
  | [] => []
  | f :: fs => (pos, f) :: positions (pos + length (field_text f)) fs
  end.

(** The fields of the lines that may be trailers. *)
Definition kept (pos : nat) (fs : list FieldText) : list Field :=
  omap (fun '(pos, f) =>
    if is_trailer_allowed (text_name f)
    then Some (MkField (name_span pos f) (value_span pos f) (HeaderName_parse (text_name f)))
    else None) (positions pos fs).

(** *** One line *)

Lemma range_of_section pos (input section more : bytes) :
  drop pos input = section ++ more ->
  default [] (get_range pos (pos + length section) input) = section.
Proof. apply Span_of_drop. Qed.

Lemma take_section pos section_end (input section more : bytes) :
  drop pos input = section ++ more -> section_end = (pos + length section)%nat ->
  take (section_end - pos) (drop pos input) = section.
Proof. intros -> ->. by rewrite Nat.add_comm, Nat.add_sub, take_app_length. Qed.

Lemma ows_head name rest : tokens name ->
  match head (name ++ rest) with Some byte => is_ows byte | None => false end = false.
Proof. intros H. by destruct (tokens_head _ H) as (b & l & -> & _ & Hb & _). Qed.

(** The octets after a value: a line end and the rest of the section. *)
Lemma trailer_field_parts input pos section name before value after rest more :
  tokens name -> spaces before -> spaces after -> Forall (fun b => is_value_byte b = true) value ->
  trimmed value -> (value = [] -> after = []) ->
  section = name ++ [COLON] ++ before ++ (value ++ after) ++ CRLF ++ rest -> drop pos input = section ++ more ->
  let at_ := (pos + length name + 1 + length before)%nat in
  trailer_field input (pos + length section) pos
  = Ok (MkSpan pos (pos + length name), MkSpan at_ (at_ + length value), (at_ + length (value ++ after) + 2)%nat).
Proof.
  intros Hname Hb Ha Hv [Hv1 Hv2] Hempty Hs Hd at_. unfold trailer_field.
  rewrite (range_of_section _ _ _ _ Hd). remember (pos + length section)%nat as section_end eqn:Hend.
  rewrite Hs in Hd, Hend |- *. clear section Hs. rewrite !length_app in Hend. cbn [length] in Hend.
  rewrite ows_head by done.
  destruct (scan_name name COLON (before ++ (value ++ after) ++ CRLF ++ rest) Hname eq_refl) as [Hn Hl].
  cbn [app] in Hn |- *. rewrite Hn, (proj2 (Nat.eqb_neq _ 0)) by lia. cbn [end_].
  rewrite <- app_assoc in Hd. cbn [app] in Hd. rewrite (lookup_drop_app _ _ _ _ _ Hd), bool_decide_eq_true_2 by done.
  cbn [negb]. apply drop_drop_app in Hd. apply (drop_drop_app _ _ [COLON]) in Hd. cbn [length] in Hd.
  rewrite (take_section _ _ _ _ _ Hd) by lengths.
  rewrite scan_run; [| done | destruct value; [by rewrite Hempty | done]].
  rewrite <- app_assoc in Hd. apply drop_drop_app in Hd. fold at_ in Hd |- *.
  replace section_end with (at_ + length ((value ++ after) ++ CR :: LF :: rest))%nat
    by (unfold at_; lengths).
  rewrite (range_of_section _ _ _ _ Hd). clear Hend.
  unfold scan_header_value. rewrite scan_run; [| |done].
  2: { apply Forall_app. split; [done|]. eapply Forall_impl; [exact Ha|]. apply tchar_value. }
  rewrite <- app_assoc in Hd.
  rewrite (proj2 (expect_crlf_Found _ _)) by (exists (rest ++ more); apply (drop_drop_app _ _ _ _ Hd)).
  by rewrite (value_end_loop_spec _ _ _ _ _ Hd).
Qed.

(** A line of the grammar is read as its parts. *)
Lemma trailer_field_text input pos f rest more :
  field_ok f -> drop pos input = (field_text f ++ rest) ++ more ->
  trailer_field input (pos + length (field_text f ++ rest)) pos
  = Ok (name_span pos f, value_span pos f, (pos + length (field_text f))%nat).
Proof.
  intros (Hname & Hb & Ha & Hv & Ht & Hempty) Hd.
  rewrite (trailer_field_parts _ _ _ (text_name f) (before f) (text_value f) (after f) rest more);
    try done.
  - unfold name_span, value_span, value_start. rewrite field_text_length, length_app. do 2 f_equal. lia.
  - unfold field_text. rewrite <- !app_assoc. cbn [app]. by rewrite <- !app_assoc.
Qed.

(** A scan that stops at CR stops within the line. *)
Lemma scan_line f l rest : f CR = false -> exists x y, l = x ++ y /\
  scan (l ++ CR :: rest) f = length x /\ Forall (fun b => f b = true) x /\
  match y with [] => True | b :: _ => f b = false end.
Proof.
  intros Hf. destruct (scan_split l f) as (x & y & -> & _ & Hx & Hy). exists x, y.
  split; [done|]. split; [|done]. rewrite <- app_assoc. apply scan_run; [done|]. by destruct y.
Qed.

(** A line that is read is one of the grammar. *)
Lemma trailer_field_sound input pos l rest more r :
  trailer_line l -> drop pos input = (l ++ CRLF ++ rest) ++ more ->
  trailer_field input (pos + length (l ++ CRLF ++ rest)) pos = Ok r ->
  exists f, field_ok f /\ l ++ CRLF = field_text f.
Proof.
  intros [_ Hl] Hd. unfold trailer_field. rewrite (range_of_section _ _ _ _ Hd). cbn [app] in Hd |- *.
  remember (pos + length (l ++ CR :: LF :: rest))%nat as section_end eqn:Hend.
  destruct (match head _ with Some _ => _ | None => _ end); [done|].
  destruct (scan_line is_tchar l (LF :: rest) eq_refl) as (name & l1 & -> & Hn & Hname & _).
  unfold scan_header_name. rewrite Hn. destruct (Nat.eqb_spec (length name) 0) as [|Hpos]; [done|]. cbn [end_].
  rewrite <- !app_assoc in Hd. case_bool_decide as Hcolon; [|done]. cbn [negb].
  rewrite <- lookup_drop, Hd, lookup_app_r, Nat.sub_diag in Hcolon by lia.
  destruct l1 as [|c l1]; [done|]. injection Hcolon as ->.
  assert (drop (pos + length name + 1) input = l1 ++ CR :: LF :: rest ++ more) as Hd1
    by (apply drop_drop_app in Hd; exact (drop_drop_app _ _ [COLON] _ Hd)).
  clear Hd. rename Hd1 into Hd.
  rewrite (take_section _ _ _ (l1 ++ CR :: LF :: rest) more).
  2: { by rewrite Hd, <- app_assoc. }
  2: { rewrite Hend. lengths. }
  destruct (scan_line is_ows l1 (LF :: rest) eq_refl) as (before & l2 & -> & Hn2 & Hb & Hstop). rewrite Hn2.
  rewrite <- app_assoc in Hd. apply drop_drop_app in Hd.
  remember (pos + length name + 1 + length before)%nat as at_ eqn:Hat.
  replace section_end with (at_ + length (l2 ++ CR :: LF :: rest))%nat.
  2: { rewrite Hend, Hat. lengths. }
  rewrite (range_of_section _ _ _ more) by by rewrite Hd, <- app_assoc.
  destruct (scan_line is_value_byte l2 (LF :: rest) eq_refl) as (vv & l3 & -> & Hn3 & Hv & _).
  unfold scan_header_value. rewrite Hn3. rewrite <- app_assoc in Hd. apply drop_drop_app in Hd.
  destruct (expect_crlf _ _) eqn:Hc; [|done..]. apply expect_crlf_Found in Hc as [more' Hc].
  rewrite Hd in Hc. intros _. rewrite !Forall_app, !Forall_cons, !Forall_app in Hl.
  destruct Hl as (_ & _ & _ & _ & Hl). destruct l3 as [|c l3].
  2: { injection Hc as -> _. by apply Forall_cons in Hl as [? _]. }
  destruct (split_end vv) as (value & after & -> & Ha & Hlast). apply Forall_app in Hv as [Hv _].
  exists (MkFieldText name before value after). split.
  - repeat split; cbn; try done; [by intros -> | |].
    + by destruct value.
    + intros ->. destruct after as [|b after]; [done|]. apply Forall_cons in Ha as [Ha _].
      cbn in Hstop. congruence.
  - unfold field_text. cbn. rewrite app_nil_r, <- !app_assoc. cbn. by rewrite <- !app_assoc.
Qed.

(** *** The loop *)

(** The line is the text of the field. *)
Definition line_of (limits : Limits.Http1Limits) (l : bytes) (f : FieldText) : Prop :=
  field_ok f /\ l ++ CRLF = field_text f /\
  Z.of_nat (length (field_text f)) <= http1_max_header_field limits.

Lemma kept_cons pos f fs :
  kept pos (f :: fs) =
    (if is_trailer_allowed (text_name f)
     then [MkField (name_span pos f) (value_span pos f) (HeaderName_parse (text_name f))] else [])
    ++ kept (pos + length (field_text f)) fs.
Proof. unfold kept. cbn. by destruct (is_trailer_allowed (text_name f)). Qed.

(** A turn on a line: it is a field, and then this is what the turn does. *)
Lemma trailers_turn fuel input pos l ls more limits table count table' n :
  trailer_line l -> drop pos input = trailers_text (l :: ls) ++ more ->
  let section_end := (pos + length (trailers_text (l :: ls)))%nat in
  let loop f := trailers_loop fuel input section_end limits (pos + length (field_text f)) in
  trailers_loop (S fuel) input section_end limits pos table count = (table', Ok n) <->
  exists f, line_of limits l f /\
    if is_trailer_allowed (text_name f)
    then (count < length table)%nat /\
      loop f (<[count := MkField (name_span pos f) (value_span pos f) (HeaderName_parse (text_name f))]> table)
        (count + 1)%nat = (table', Ok n)
    else loop f table count = (table', Ok n).
Proof.
  intros Hl Hd. rewrite trailers_text_cons in Hd |- *. intros section_end loop.
  cbn [trailers_loop]. rewrite (proj2 (Nat.ltb_lt pos section_end))
    by (unfold section_end; lengths). cbn [negb].
  assert (forall f, field_ok f -> l ++ CRLF = field_text f ->
    trailer_field input section_end pos = Ok (name_span pos f, value_span pos f, (pos + length (field_text f))%nat) /\
    Span_of (name_span pos f) input = text_name f) as Hturn.
  { intros f Hf Heq. rewrite app_assoc, Heq in Hd. split; [|by rewrite <- app_assoc in Hd; apply name_span_of in Hd].
    unfold section_end. rewrite app_assoc, Heq. by apply trailer_field_text with more. }
  split.
  - intros H. destruct (trailer_field input section_end pos) as [r|] eqn:Hr; [|done].
    destruct (trailer_field_sound _ _ _ _ _ _ Hl Hd Hr) as (f & Hf & Heq).
    destruct (Hturn f Hf Heq) as [Hr' Hn]. injection Hr' as ->.
    destruct (Z.ltb_spec (http1_max_header_field limits) (Z.of_nat (pos + length (field_text f) - pos)));
      [done|]. exists f. split; [split; [done|]; split; [done|]; lia|]. rewrite Hn in H.
    destruct (is_trailer_allowed (text_name f)); [|done]. cbn [negb] in H.
    destruct (table !! count) as [old|] eqn:Hold; [|done]. by apply lookup_lt_Some in Hold.
  - intros (f & (Hf & Heq & Hlen) & H). destruct (Hturn f Hf Heq) as [-> ->].
    rewrite (proj2 (Z.ltb_ge _ _)) by lia.
    destruct (is_trailer_allowed (text_name f)); [|done]. destruct H as [Hc H]. cbn [negb].
    by destruct (lookup_lt_is_Some_2 table count Hc) as [old ->].
Qed.

Lemma trailers_loop_kept ls : forall fuel input pos more limits table count table' n,
  Forall trailer_line ls -> drop pos input = trailers_text ls ++ more -> (length ls < fuel)%nat ->
  trailers_loop fuel input (pos + length (trailers_text ls)) limits pos table count = (table', Ok n) <->
  exists fs, Forall2 (line_of limits) ls fs /\ n = (count + length (kept pos fs))%nat /\
    (kept pos fs = [] \/ (n <= length table)%nat) /\ table' = written table count (kept pos fs).
Proof.
  induction ls as [|l ls IH]; intros [|fuel] input pos more limits table count table' n Hls Hd Hf;
    cbn [length] in Hf; try lia.
  - cbn [trailers_loop trailers_text mbind list_bind length]. rewrite Nat.add_0_r, Nat.ltb_irrefl. cbn [negb].
    split.
    + intros [= <- <-]. exists []. rewrite written_nil. cbn. rewrite Nat.add_0_r.
      split; [constructor|]. split; [done|]. split; [by left | done].
    + intros (fs & Hfs & -> & _ & ->). apply Forall2_nil_inv_l in Hfs as ->.
      by rewrite written_nil, Nat.add_0_r.
  - apply Forall_cons in Hls as [Hl Hls]. rewrite (trailers_turn _ _ _ _ _ more) by done.
    assert (forall f, line_of limits l f ->
      drop (pos + length (field_text f)) input = trailers_text ls ++ more /\
      (pos + length (trailers_text (l :: ls)) = pos + length (field_text f) + length (trailers_text ls))%nat) as Hnext.
    { intros f (_ & Heq & _). rewrite trailers_text_cons, app_assoc, Heq in *. rewrite <- app_assoc in Hd.
      split; [by apply drop_drop_app in Hd | lengths]. }
    split.
    + intros (f & Hf' & H). destruct (Hnext f Hf') as [Hd' Hend]. rewrite Hend in H.
      destruct (is_trailer_allowed (text_name f)) eqn:Ha.
      * destruct H as [Hc H]. apply (IH _ _ _ _ _ _ _ _ _ Hls Hd') in H as (fs & Hfs & -> & Hk & ->); [|lia].
        exists (f :: fs). rewrite kept_cons, Ha. rewrite length_insert in Hk. cbn [app length] in *.
        split; [by constructor|]. split; [lia|]. split; [|by rewrite written_cons].
        right. destruct Hk as [-> | Hk]; [cbn [length]; lia | lia].
      * apply (IH _ _ _ _ _ _ _ _ _ Hls Hd') in H as (fs & Hfs & -> & Hk & ->); [|lia].
        exists (f :: fs). rewrite kept_cons, Ha. split; [by constructor | done].
    + intros (fs & Hfs & Hn & Hk & ->). destruct fs as [|f fs]; [by inversion Hfs|].
      apply Forall2_cons in Hfs as [Hf' Hfs]. destruct (Hnext f Hf') as [Hd' Hend].
      exists f. split; [done|]. rewrite Hend. rewrite kept_cons in *.
      destruct (is_trailer_allowed (text_name f)) eqn:Ha; cbn [app length] in *.
      * destruct Hk as [|Hk]; [done|]. split; [lia|]. rewrite <- written_cons by lia.
        apply (IH _ _ _ _ _ _ _ _ _ Hls Hd'); [lia|]. exists fs. rewrite length_insert.
        split; [done|]. split; [lia|]. split; [by right | done].
      * apply (IH _ _ _ _ _ _ _ _ _ Hls Hd'); [lia|]. by exists fs.
Qed.

(** *** No field that frames the message *)

(** The fields a trailer section may not set: those that frame the message or concern the
    connection, route or modify the request, authenticate, or describe the content. *)
Definition FORBIDDEN : list bytes := bs <$>
  ["transfer-encoding"; "content-length"; "connection"; "te"; "trailer"; "upgrade"; "keep-alive"; "proxy-connection";
   "host"; "via"; "max-forwards"; "expect"; "origin"; "range"; "cache-control"; "pragma";
   "if-match"; "if-none-match"; "if-modified-since"; "if-unmodified-since"; "if-range";
   "accept"; "accept-charset"; "accept-encoding"; "accept-language";
   "authorization"; "proxy-authorization"; "proxy-authenticate"; "www-authenticate"; "cookie"; "set-cookie";
   "content-encoding"; "content-language"; "content-location"; "content-range"; "content-type"]%string.

(** A name is kept exactly when it is none of them, in any case. *)
Lemma allowed_exact name : is_trailer_allowed name = bool_decide (to_lower name ∉ FORBIDDEN).
Proof.
  unfold is_trailer_allowed. destruct (HeaderName_parse name) as [h|] eqn:Hh.
  - apply HeaderName_parse_Some in Hh. rewrite Hh. by destruct h; vm_compute.
  - unfold eq_ignore_ascii_case. assert (forall h, to_lower name <> as_bytes h) as Hnot by (intros h H%HeaderName_parse_Some; congruence).
    set (l := to_lower name) in *.
    set (plain := bs <$> ["cookie"; "set-cookie"; "keep-alive"; "proxy-connection"; "origin"]%string).
    assert (l ∈ FORBIDDEN <-> l ∈ plain) as Hiff.
    { assert (Forall (fun x => x ∈ plain \/ Exists (fun h => x = as_bytes h) HeaderName_ALL) FORBIDDEN) as Hall
        by (apply (bool_decide_unpack _); vm_compute; exact I).
      assert (Forall (fun x => x ∈ FORBIDDEN) plain) as Hsub by (apply (bool_decide_unpack _); vm_compute; exact I).
      rewrite Forall_forall in Hall, Hsub. split; [|apply Hsub].
      intros H. destruct (Hall _ H) as [|(h & _ & Hx)%Exists_exists]; [done|]. by apply Hnot in Hx. }
    rewrite bool_decide_not, (bool_decide_ext _ _ Hiff). f_equal. apply eq_true_iff_eq.
    rewrite !orb_true_iff, !bool_decide_eq_true. unfold plain. cbn [fmap list_fmap]. rewrite !elem_of_cons, elem_of_nil.
    change (to_lower (bs "cookie")) with (bs "cookie"). change (to_lower (bs "set-cookie")) with (bs "set-cookie").
    change (to_lower (bs "keep-alive")) with (bs "keep-alive"). change (to_lower (bs "proxy-connection")) with (bs "proxy-connection").
    change (to_lower (bs "origin")) with (bs "origin"). tauto.
Qed.

(** What a kept field is: its name is none of those, and is known by its identifier. *)
Definition harmless (input : bytes) (f : Field) : Prop :=
  (to_lower (Span_of (name f) input) ∉ FORBIDDEN) /\ forall h, id f = Some h <-> to_lower (Span_of (name f) input) = as_bytes h.

Lemma trailers_loop_harmless fuel input section_end limits : forall pos table count table' n,
  trailers_loop fuel input section_end limits pos table count = (table', Ok n) ->
  Forall (harmless input) (take count table) -> Forall (harmless input) (take n table').
Proof.
  induction fuel as [|fuel IH]; intros pos table count table' n; cbn [trailers_loop]; [by intros [= <- <-]|].
  destruct (negb _); [by intros [= <- <-]|].
  destruct (trailer_field _ _ _) as [[[nm v] next]|]; [|done]. destruct (_ <? _); [done|].
  destruct (is_trailer_allowed _) eqn:Ha; cbn [negb]; [|apply IH].
  destruct (table !! count) as [old|] eqn:Hold; [|done]. intros H Ht. apply (IH _ _ _ _ _ H).
  apply lookup_lt_Some in Hold. rewrite insert_take_drop by done.
  rewrite take_app_ge by (rewrite length_take; lia). apply Forall_app. split.
  - done.
  - rewrite length_take, Nat.min_l by lia. replace (count + 1 - count)%nat with 1%nat by lia. cbn [take].
    constructor; [|constructor]. unfold harmless. cbn [id name]. rewrite allowed_exact in Ha.
    split; [by apply bool_decide_eq_true in Ha|]. intros h. apply HeaderName_parse_Some.
Qed.

(** On a section the chunked decoder reports, [parse_trailers] succeeds exactly
    when every line of it is a field line within the limit and the allowed ones fit
    the table; the table then holds the allowed fields in the order of the section,
    with the positions of their names and trimmed values, and is unchanged after them. *)
Theorem trailers_kept x ls y table limits table' n :
  Forall trailer_line ls ->
  let section := MkSpan (length x) (length x + length (trailers_text ls)) in
  parse_trailers (x ++ trailers_text ls ++ y) section table limits = (table', Ok n) <->
  exists fs, Forall2 (line_of limits) ls fs /\ n = length (kept (length x) fs) /\ (n <= length table)%nat /\
    table' = written table 0 (kept (length x) fs).
Proof.
  intros Hls section. unfold parse_trailers, section, Span_len. cbn [start end_].
  rewrite (trailers_loop_kept ls _ _ _ y).
  - apply exist_proper. intros fs. rewrite Nat.add_0_l. split.
    + intros (? & -> & [-> | ?] & ?); repeat split; try done; cbn; lia.
    + intros (? & ? & ? & ?). repeat split; try done. by right.
  - done.
  - apply drop_app_length.
  - pose proof (length_trailers_text ls). lia.
Qed.

Lemma trailers_kept_witness :
  exists table' n, parse_trailers (bs "0" ++ CRLF ++ trailers_text [bs "Host: evil"; bs "x-sum:1 "] ++ CRLF)
    (MkSpan 3 24) (replicate 2 EMPTY_FIELD) Http1Limits_DEFAULT = (table', Ok n) /\
    table' !! 0%nat = Some (MkField (MkSpan 15 20) (MkSpan 21 22) None) /\
  exists fs, Forall2 (line_of Http1Limits_DEFAULT) [bs "Host: evil"; bs "x-sum:1 "] fs /\ n = length (kept 3 fs).
Proof.
  eexists _, _. split; [vm_compute; reflexivity|]. split; [reflexivity|].
  assert (Forall trailer_line [bs "Host: evil"; bs "x-sum:1 "]) as Hls.
  { repeat constructor; done. }
  destruct (proj1 (trailers_kept (bs "0" ++ CRLF) [bs "Host: evil"; bs "x-sum:1 "] CRLF
    (replicate 2 EMPTY_FIELD) Http1Limits_DEFAULT _ _ Hls) ltac:(vm_compute; reflexivity)) as (fs & H1 & H2 & _).
  exists fs. split; [exact H1 | exact H2].
Defined.

(** C15. Whatever the buffer, the span and the table: no field [parse_trailers] keeps has the
    name of one that frames, routes or modifies the message, authenticates or describes its
    content, however it is spelled, and its identifier is that of its name; and a name is
    refused for nothing else. *)
Theorem trailers_never_frame input section table limits table' n :
  parse_trailers input section table limits = (table', Ok n) ->
  Forall (fun f => let name := to_lower (Span_of (name f) input) in
    (name ∉ FORBIDDEN) /\ forall h, id f = Some h <-> name = as_bytes h) (take n table') /\
  forall name, is_trailer_allowed name = false <-> to_lower name ∈ FORBIDDEN.
Proof.
  intros H. split; [apply (trailers_loop_harmless _ _ _ _ _ _ _ _ _ H); constructor|].
  intros nm. rewrite allowed_exact, bool_decide_eq_false. split; [apply dec_stable|auto].
Qed.

Lemma trailers_never_frame_witness :
  exists table' n, parse_trailers (bs "eTaG: a" ++ CRLF ++ bs "TE: b" ++ CRLF ++ bs "Set-Cookie: c" ++ CRLF) (MkSpan 0 31)
    (replicate 2 EMPTY_FIELD) Http1Limits_DEFAULT = (table', Ok n) /\ n = 1%nat /\
  Forall (fun f => let name := to_lower (Span_of (name f) (bs "eTaG: a" ++ CRLF ++ bs "TE: b" ++ CRLF ++ bs "Set-Cookie: c" ++ CRLF)) in
    (name ∉ FORBIDDEN) /\ forall h, id f = Some h <-> name = as_bytes h) (take n table').
Proof.
  eexists _, _. split; [vm_compute; reflexivity|]. split; [reflexivity|].
  apply (trailers_never_frame (bs "eTaG: a" ++ CRLF ++ bs "TE: b" ++ CRLF ++ bs "Set-Cookie: c" ++ CRLF) (MkSpan 0 31)
    (replicate 2 EMPTY_FIELD) Http1Limits_DEFAULT).
  vm_compute. reflexivity.
Defined.
