(* ===== verification/WsClose.v ===== *)
(** * WebSocket close codes and Close bodies

    [zero-ws/src/close.rs].  A string slice is the octets of its encoding. *)
From stdpp Require Import pretty.
From S2P Require Import Prelude Utf8 Core.

Definition MAX_REASON : nat := 123.

Abbreviation CloseCode := Z.

Definition NORMAL : CloseCode := 1000.
Definition GOING_AWAY : CloseCode := 1001.
Definition PROTOCOL_ERROR : CloseCode := 1002.
Definition UNSUPPORTED_DATA : CloseCode := 1003.
Definition NO_STATUS : CloseCode := 1005.
Definition ABNORMAL : CloseCode := 1006.
Definition INVALID_PAYLOAD : CloseCode := 1007.
Definition POLICY_VIOLATION : CloseCode := 1008.
Definition MESSAGE_TOO_BIG : CloseCode := 1009.
Definition MANDATORY_EXTENSION : CloseCode := 1010.
Definition INTERNAL_ERROR : CloseCode := 1011.
Definition SERVICE_RESTART : CloseCode := 1012.
Definition TRY_AGAIN_LATER : CloseCode := 1013.
Definition BAD_GATEWAY : CloseCode := 1014.
Definition TLS_HANDSHAKE : CloseCode := 1015.

Definition is_valid (self : CloseCode) : bool :=
  within 1000 1003 self || within 1007 1014 self || within 3000 4999 self.

Definition is_sendable (self : CloseCode) : bool :=
  within 1000 1003 self || within 1007 1009 self || within 1011 1014 self || within 3000 4999 self.

Record Close : Type := MkClose {
  code : CloseCode;
  reason : bytes;
}.
#[global] Instance Close_eq_dec : EqDecision Close.
Proof. solve_decision. Defined.

Definition parse (payload : bytes) : result CloseCode Close :=
  match payload with
  | a :: b :: reason =>
      let code := from_be [a; b] in
      if negb (is_valid code) then Err PROTOCOL_ERROR
      else if from_utf8 reason then Ok (MkClose code reason) else Err INVALID_PAYLOAD
  | [] => Ok (MkClose NO_STATUS [])
  | _ => Err PROTOCOL_ERROR
  end.

(** The array after the call and the outcome; the array has 125 octets. *)
Definition body (code : CloseCode) (reason out : bytes) : bytes * result CloseCode nat :=
  if code =? NO_STATUS then (out, Ok 0%nat)
  else if negb (is_valid code) || (MAX_REASON <? length reason)%nat then (out, Err INTERNAL_ERROR)
  else (to_be 2 code ++ reason ++ drop (2 + length reason) out, Ok (2 + length reason)%nat).

Definition start_body (code : CloseCode) (reason out : bytes) : bytes * result Error nat :=
  if code =? NO_STATUS then (out, Ok 0%nat)
  else if negb (is_sendable code)
  then (out, Err (Protocol ("a server does not start a closing handshake with code " +:+ pretty code)))
  else if (MAX_REASON <? length reason)%nat
  then (out, Err (Limit ("a close reason carries at most " +:+ pretty MAX_REASON +:+ " octets, not "
                         +:+ pretty (length reason))))
  else
    let (out, r) := body code reason out in
    (out, map_err (fun _ => Protocol ("close code " +:+ pretty code)) r).

Example body_normal : body NORMAL (bs "bye") (replicate 125 0)
  = ([0x03; 0xe8] ++ bs "bye" ++ replicate 120 0, Ok 5%nat).
Proof. vm_compute. reflexivity. Qed.
Example start_refused : (start_body 1010 [] (replicate 125 0)).2
  = Err (Protocol "a server does not start a closing handshake with code 1010").
Proof. vm_compute. reflexivity. Qed.

(** The codes a body or a header is refused with may be sent. *)
Lemma parse_refused payload e : parse payload = Err e -> is_valid e = true.
Proof.
  unfold parse. destruct payload as [|a [|b l]]; [done | by intros [= <-] |].
  destruct (negb _); [by intros [= <-]|]. destruct (from_utf8 l); [done | by intros [= <-]].
Qed.
