(* ===== verification/WsFrame.v ===== *)
(** * WebSocket frames

    [zero-ws/src/frame.rs]: the header a server receives and the one it sends. *)
From stdpp Require Import pretty.
From S2P Require Import Prelude Utf8 Core WsClose.

Definition MAX_CONTROL_PAYLOAD : nat := 125.
Definition MAX_HEADER : nat := 14.

Inductive Opcode : Type := Continuation | Text | Binary | OpClose | Ping | Pong.
#[global] Instance Opcode_eq_dec : EqDecision Opcode.
Proof. solve_decision. Defined.

Definition from_bits (bits : Z) : option Opcode :=
  match bits with
  | 0x0 => Some Continuation | 0x1 => Some Text | 0x2 => Some Binary
  | 0x8 => Some OpClose | 0x9 => Some Ping | 0xA => Some Pong
  | _ => None
  end.

Definition bits (self : Opcode) : Z :=
  match self with
  | Continuation => 0x0 | Text => 0x1 | Binary => 0x2 | OpClose => 0x8 | Ping => 0x9 | Pong => 0xA
  end.

Definition is_control (self : Opcode) : bool := has (bits self) 0x8.

Record Header : Type := MkHeader {
  fin : bool;
  rsv : Z;
  opcode : Opcode;
  mask : bytes;
  payload_len : Z;
  header_len : nat;
}.

(** The length of the payload and the octets of its extended form; [Ok None] is a
    header that is not whole. *)
Definition extended_len (short : Z) (rest : bytes) : result CloseCode (option (Z * nat)) :=
  match short with
  | 126 =>
      match get_to 2 rest with
      | None => Ok None
      | Some bytes =>
          let len := from_be bytes in
          if len <? 126 then Err PROTOCOL_ERROR else Ok (Some (len, 2%nat))
      end
  | 127 =>
      match get_to 8 rest with
      | None => Ok None
      | Some bytes =>
          let len := from_be bytes in
          if negb (Z.shiftr len 63 =? 0) || (len <=? 0xFFFF) then Err PROTOCOL_ERROR
          else Ok (Some (len, 8%nat))
      end
  | _ => Ok (Some (short, 0%nat))
  end.

Definition decode (input : bytes) (allowed_rsv : Z) : result CloseCode (option Header) :=
  match input with
  | first :: second :: rest =>
      let fin := has first 0x80 in
      let rsv := Z.land (Z.shiftr first 4) 0x07 in
      if negb (Z.land rsv (not8 allowed_rsv) =? 0) then Err PROTOCOL_ERROR
      else
      let? opcode := ok_or (from_bits (Z.land first 0x0F)) PROTOCOL_ERROR in
      let short := Z.land second 0x7F in
      if is_control opcode && (negb fin || (Z.of_nat MAX_CONTROL_PAYLOAD <? short)) then Err PROTOCOL_ERROR
      else if Z.land second 0x80 =? 0 then Err PROTOCOL_ERROR
      else
      let?? (len, extended) := extended_len short rest in
      match get_to 4 (drop extended rest) with
      | None => Ok None
      | Some mask => Ok (Some (MkHeader fin rsv opcode mask len (6 + extended)))
      end
  | _ => Ok None
  end.

(** The array of ten octets after the call and the length of the header in it. *)
Definition encode (fin : bool) (opcode : Opcode) (len : Z) : bytes * nat :=
  let first := Z.lor (if fin then 0x80 else 0x00) (bits opcode) in
  if len <=? 125 then (first :: len :: replicate 8 0, 2%nat)
  else if len <=? 0xFFFF then (first :: 126 :: to_be 2 len ++ replicate 6 0, 4%nat)
  else (first :: 127 :: to_be 8 len, 10%nat).

(** The vector after the call. *)
Definition write (opcode : Opcode) (payload out : bytes) : bytes :=
  let (header, written) := encode true opcode (len payload) in
  out ++ take written header ++ payload.

Definition hex_digit (d : Z) : string :=
  match d with 0 => "0" | 1 => "1" | 2 => "2" | 8 => "8" | 9 => "9" | _ => "a" end.

(** The result with the vector after the call. *)
Definition write_message (opcode : Opcode) (payload out : bytes) : bytes * result Error unit :=
  match opcode with
  | Text =>
      if from_utf8 payload then (write opcode payload out, Ok tt)
      else (out, Err (Protocol "a text message is UTF-8 (RFC 6455 Section 5.6)"))
  | Binary => (write opcode payload out, Ok tt)
  | other =>
      (out, Err (Protocol ("a message is sent as text or binary, not opcode 0x" +:+ hex_digit (bits other))))
  end.

Definition write_ping (payload out : bytes) : bytes * result Error unit :=
  if (MAX_CONTROL_PAYLOAD <? length payload)%nat
  then (out, Err (Limit ("a ping carries at most " +:+ pretty MAX_CONTROL_PAYLOAD +:+ " octets, not "
                         +:+ pretty (length payload))))
  else (write Ping payload out, Ok tt).

Example rfc6455_5_7 : decode [0x81; 0x85; 0x37; 0xfa; 0x21; 0x3d; 0x7f] 0
  = Ok (Some (MkHeader true 0 Text [0x37; 0xfa; 0x21; 0x3d] 5 6)).
Proof. vm_compute. reflexivity. Qed.
Example write_256 : write Binary (replicate 256 7) [] = [0x82; 0x7e; 1; 0] ++ replicate 256 7.
Proof. vm_compute. reflexivity. Qed.

(** ** Frames on the wire *)

(** A frame of a client; the mask is an array of four octets. *)
Record Frame : Type := MkFrame {
  frame_fin : bool;
  frame_opcode : Opcode;
  frame_mask : bytes;
  frame_payload : bytes;
}.

(** The length in the fewest octets, after the MASK bit. *)
Definition length_text (mask_bit n : Z) : bytes :=
  if n <=? 125 then [mask_bit + n]
  else if n <=? 0xFFFF then (mask_bit + 126) :: to_be 2 n
  else (mask_bit + 127) :: to_be 8 n.

Definition first_octet (fin : bool) (opcode : Opcode) : Z := (if fin then 0x80 else 0) + bits opcode.

Definition header_text (fin : bool) (opcode : Opcode) (n : Z) (mask : bytes) : bytes :=
  first_octet fin opcode :: length_text 0x80 n ++ mask.

Definition header_ok (fin : bool) (opcode : Opcode) (n : Z) (mask : bytes) : Prop :=
  length mask = 4%nat /\ 0 <= n < 2 ^ 63 /\
  (is_control opcode = true -> fin = true /\ n <= Z.of_nat MAX_CONTROL_PAYLOAD).

Lemma first_octet_bits fin opcode :
  has (first_octet fin opcode) 0x80 = fin /\ Z.land (Z.shiftr (first_octet fin opcode) 4) 0x07 = 0 /\
  from_bits (Z.land (first_octet fin opcode) 0x0F) = Some opcode.
Proof. by destruct fin, opcode. Qed.

Lemma short_bits v : 0 <= v < 128 -> Z.land (0x80 + v) 0x7F = v /\ (Z.land (0x80 + v) 0x80 =? 0) = false.
Proof.
  intros Hv. rewrite land_7f, land_80_zero by word_lia.
  split; [|apply Z.ltb_ge; lia]. rewrite Z.add_comm. change 0x80 with (1 * 128).
  rewrite Z.mod_add by lia. by apply Z.mod_small.
Qed.

Lemma take_to_be n x rest : get_to n (to_be n x ++ rest) = Some (to_be n x).
Proof. rewrite <- (length_to_be n x) at 1. apply get_to_app. Qed.

Definition extended_octets (n : Z) : nat := if n <=? 125 then 0 else if n <=? 0xFFFF then 2 else 8.

Lemma length_header fin opcode n mask : length mask = 4%nat ->
  length (header_text fin opcode n mask)
  = (6 + extended_octets n)%nat.
Proof.
  intros Hm. unfold header_text, length_text, extended_octets. cbn [length]. rewrite length_app, Hm.
  destruct (n <=? 125); [done|]. by destruct (n <=? 0xFFFF).
Qed.

Lemma extended_len_text n rest : 0 <= n < 2 ^ 63 ->
  exists v, 0 <= v < 128 /\ (n <= 125 -> v = n) /\ (125 < n -> 125 < v) /\
    exists text, length_text 0x80 n = (0x80 + v) :: text /\
    extended_len v (text ++ rest)
    = Ok (Some (n, extended_octets n)) /\
    length text = extended_octets n.
Proof.
  intros Hn. unfold length_text, extended_octets. destruct (Z.leb_spec n 125) as [H1|H1]; [|destruct (Z.leb_spec n 0xFFFF) as [H2|H2]].
  - exists n. repeat (split; [lia|]). exists []. split; [done|]. split; [|done]. unfold extended_len.
    repeat (case_match; try lia; try done).
  - exists 126. repeat (split; [lia|]). exists (to_be 2 n). split; [done|]. split; [|done].
    cbn [extended_len]. rewrite take_to_be, from_be_to_be by lia. rewrite Z.mod_small by (cbn; lia).
    by rewrite (proj2 (Z.ltb_ge _ _)) by lia.
  - exists 127. repeat (split; [lia|]). exists (to_be 8 n). split; [done|]. split; [|done].
    cbn [extended_len]. rewrite take_to_be, from_be_to_be by lia.
    rewrite Z.mod_small by (pow2; change (8 * Z.of_nat 8) with 64; pow2; lia).
    rewrite Z.shiftr_div_pow2, Z.div_small by lia. cbn. by rewrite (proj2 (Z.leb_gt _ _)) by lia.
Qed.

(** A header in the fewest octets is decoded, whatever follows. *)
Lemma decode_text fin opcode n mask rest :
  header_ok fin opcode n mask ->
  decode (header_text fin opcode n mask ++ rest) 0
  = Ok (Some (MkHeader fin 0 opcode mask n (length (header_text fin opcode n mask)))).
Proof.
  intros (Hm & Hn & Hc). rewrite length_header by done. unfold header_text.
  destruct (extended_len_text n (mask ++ rest) Hn) as (v & Hv & Hshort & Hlong & text & -> & Hext & Hlen).
  cbn [app]. rewrite <- app_assoc. unfold decode.
  destruct (first_octet_bits fin opcode) as (-> & -> & ->).
  destruct (short_bits v Hv) as [-> ->]. cbn [ok_or].
  assert (is_control opcode && (negb fin || (Z.of_nat MAX_CONTROL_PAYLOAD <? v)) = false) as ->.
  { destruct (is_control opcode); [|done]. destruct (Hc eq_refl) as [-> Hmax].
    change (Z.of_nat MAX_CONTROL_PAYLOAD) with 125 in *. rewrite Hshort by done. cbn. lia. }
  change (negb (Z.land 0 (not8 0) =? 0)) with false. cbv iota. rewrite Hext, <- Hlen, drop_app_length.
  by rewrite <- Hm, get_to_app.
Qed.

(** A decoded header, or a refused one, stays so when more octets arrive. *)
Lemma get_to_more {A} n (l m r : list A) : get_to n l = Some r -> get_to n (l ++ m) = Some r.
Proof.
  intros [Hn ->]%get_to_Some. apply get_to_Some. rewrite length_app, take_app_le by done.
  split; [lia | done].
Qed.

Lemma extended_len_more short rest more r :
  extended_len short rest = Ok (Some r) -> extended_len short (rest ++ more) = Ok (Some r).
Proof.
  unfold extended_len. destruct (get_to 2 rest) as [a|] eqn:H2, (get_to 8 rest) as [b|] eqn:H8;
    try apply (get_to_more _ _ more) in H2 as ->; try apply (get_to_more _ _ more) in H8 as ->; try done;
    by repeat case_match.
Qed.

Lemma extended_len_err short rest more e :
  extended_len short rest = Err e -> extended_len short (rest ++ more) = Err e.
Proof.
  unfold extended_len. destruct (get_to 2 rest) as [a|] eqn:H2, (get_to 8 rest) as [b|] eqn:H8;
    try apply (get_to_more _ _ more) in H2 as ->; try apply (get_to_more _ _ more) in H8 as ->; try done;
    by repeat case_match.
Qed.

Lemma extended_len_octets short rest n k :
  extended_len short rest = Ok (Some (n, k)) -> (k <= length rest)%nat.
Proof.
  unfold extended_len. destruct (get_to 2 rest) as [a|] eqn:H2, (get_to 8 rest) as [b|] eqn:H8;
    try apply get_to_Some in H2 as [? _]; try apply get_to_Some in H8 as [? _];
    repeat case_match; intros [=]; subst; lia.
Qed.

Lemma decode_more input more allowed h :
  decode input allowed = Ok (Some h) -> decode (input ++ more) allowed = Ok (Some h).
Proof.
  destruct input as [|a [|b rest]]; [done..|]. cbn [app]. unfold decode.
  destruct (negb _); [done|]. destruct (from_bits _); [|done]. cbn [ok_or].
  destruct (_ && _); [done|]. destruct (_ =? 0); [done|].
  destruct (extended_len _ rest) as [[[n k]|]|] eqn:He; [|done..].
  rewrite (extended_len_more _ _ more _ He). apply extended_len_octets in He.
  rewrite drop_app_le by done. destruct (get_to 4 (drop k rest)) as [m|] eqn:Hg; [|done].
  by rewrite (get_to_more _ _ _ _ Hg).
Qed.

Lemma decode_err input more allowed e :
  decode input allowed = Err e -> decode (input ++ more) allowed = Err e.
Proof.
  destruct input as [|a [|b rest]]; [done..|]. cbn [app]. unfold decode.
  destruct (negb _); [done|]. destruct (from_bits _); [|done]. cbn [ok_or].
  destruct (_ && _); [done|]. destruct (_ =? 0); [done|].
  destruct (extended_len _ rest) as [[[n k]|]|] eqn:He; [| |].
  - by destruct (get_to 4 _).
  - done.
  - by rewrite (extended_len_err _ _ more _ He).
Qed.

Lemma extended_len_refused short rest e : extended_len short rest = Err e -> e = PROTOCOL_ERROR.
Proof.
  unfold extended_len. destruct (get_to 2 rest), (get_to 8 rest); repeat case_match; by intros [= <-].
Qed.

Lemma decode_refused input e : decode input 0 = Err e -> is_valid e = true.
Proof.
  destruct input as [|a [|b rest]]; [done..|]. unfold decode.
  destruct (negb _); [by intros [= <-]|]. destruct (from_bits _); cbn [ok_or]; [|by intros [= <-]].
  destruct (_ && _); [by intros [= <-]|]. destruct (_ =? 0); [by intros [= <-]|].
  destruct (extended_len _ rest) as [[[n k]|]|e'] eqn:He; [by destruct (get_to 4 _) | done |].
  apply extended_len_refused in He as ->. by intros [= <-].
Qed.

(** The header is in the buffer, its length is that of the payload of a frame, and
    six octets or more. *)
Lemma decode_bounds input allowed h :
  decode input allowed = Ok (Some h) ->
  (6 <= header_len h <= length input)%nat /\ 0 <= payload_len h /\ length (mask h) = 4%nat.
Proof.
  destruct input as [|a [|b rest]]; [done..|]. unfold decode.
  destruct (negb _); [done|]. destruct (from_bits _); [|done]. cbn [ok_or].
  destruct (_ && _); [done|]. destruct (_ =? 0); [done|].
  destruct (extended_len _ rest) as [[[n k]|]|] eqn:He; [|done..].
  destruct (get_to 4 (drop k rest)) as [m|] eqn:Hg; [|done]. intros [= <-]. cbn.
  apply get_to_Some in Hg as [Hl ->]. pose proof (extended_len_octets _ _ _ _ He) as Hk.
  rewrite length_drop in Hl. rewrite length_take, length_drop.
  split; [lia|]. split; [|lia].
  pose proof (Z.land_nonneg b 0x7f) as Hs. unfold extended_len in He.
  repeat (case_match; try done); injection He as <- _; lia.
Qed.

(** ** Every header that is decoded is one of the grammar *)

Lemma first_octet_inv b op : u8 b ->
  Z.land (Z.land (Z.shiftr b 4) 0x07) (not8 0) = 0 -> from_bits (Z.land b 0x0F) = Some op ->
  b = first_octet (has b 0x80) op.
Proof.
  intros Hb Hr Hop.
  pose proof (octet_forall (fun b => match from_bits (Z.land b 0x0F) with
    | Some op => negb (Z.land (Z.land (Z.shiftr b 4) 0x07) (not8 0) =? 0) || (b =? first_octet (has b 0x80) op)
    | None => true end) ltac:(vm_compute; reflexivity) b Hb) as H.
  cbv beta in H. rewrite Hop, Hr in H. cbn in H. lia.
Qed.

Lemma short_inv b : u8 b -> (Z.land b 0x80 =? 0) = false -> b = 0x80 + Z.land b 0x7F /\ 0 <= Z.land b 0x7F < 128.
Proof.
  intros Hb. rewrite land_80_zero, land_7f by done. intros H%Z.ltb_ge. unfold word in Hb. pow2.
  rewrite <- (Z.mod_unique b 128 1 (b - 128)) by lia. lia.
Qed.

Lemma get_to_octets n (l r : bytes) : octets l -> get_to n l = Some r -> octets r /\ len r = Z.of_nat n.
Proof. intros Ho [Hn ->]%get_to_Some. split; [by apply Forall_take | unfold len; rewrite length_take; lia]. Qed.

Lemma to_be_taken n (l : bytes) : octets (take n l) -> len (take n l) = Z.of_nat n ->
  to_be n (from_be (take n l)) = take n l.
Proof.
  intros Ho Hl. rewrite <- (to_be_from_be (take n l)) at 2 by done. f_equal. unfold len in Hl. lia.
Qed.

Lemma extended_len_inv v rest n k :
  octets rest -> 0 <= v < 128 -> extended_len v rest = Ok (Some (n, k)) ->
  0 <= n < 2 ^ 63 /\ length_text 0x80 n = (0x80 + v) :: take k rest /\ k = extended_octets n /\
  (v <= 125 -> n = v) /\ (125 < v -> 125 < n).
Proof.
  intros Ho Hv. unfold extended_len.
  destruct (decide (v = 126)) as [->|H126]; [|destruct (decide (v = 127)) as [->|H127]].
  - destruct (get_to 2 rest) as [l|] eqn:Hg; [|done]. destruct (get_to_octets _ _ _ Ho Hg) as [Hl Hlen].
    apply get_to_Some in Hg as [_ ->]. pose proof (from_be_bound _ Hl) as Hb. rewrite Hlen in Hb.
    change (2 ^ (8 * Z.of_nat 2)) with 65536 in Hb.
    destruct (Z.ltb_spec (from_be (take 2 rest)) 126); [done|]. intros [= <- <-].
    unfold length_text, extended_octets. rewrite (proj2 (Z.leb_gt _ 125)), (proj2 (Z.leb_le _ 0xFFFF)) by lia.
    split; [pow2; lia|]. split; [|split; [done|lia]]. f_equal.
    by rewrite to_be_taken.
  - destruct (get_to 8 rest) as [l|] eqn:Hg; [|done]. destruct (get_to_octets _ _ _ Ho Hg) as [Hl Hlen].
    apply get_to_Some in Hg as [_ ->].
    destruct (negb _ || _) eqn:Hc; [done|]. apply orb_false_iff in Hc as [Hs Hc].
    apply negb_false_iff, Z.eqb_eq in Hs. apply Z.leb_gt in Hc. rewrite Z.shiftr_div_pow2 in Hs by lia.
    intros [= <- <-]. unfold length_text, extended_octets.
    rewrite (proj2 (Z.leb_gt _ 125)), (proj2 (Z.leb_gt _ 0xFFFF)) by lia.
    split. { pose proof (Z.div_small_iff (from_be (take 8 rest)) (2 ^ 63)) as Hd. pow2. lia. }
    split; [|split; [done|lia]]. f_equal.
    by rewrite to_be_taken.
  - assert (extended_len v rest = Ok (Some (v, 0%nat))) as Hd.
    { unfold extended_len. repeat (case_match; try done); lia. }
    unfold extended_len in Hd. rewrite Hd. intros [= <- <-].
    unfold length_text, extended_octets. rewrite (proj2 (Z.leb_le _ 125)) by lia.
    split; [pow2; lia|]. split; [done|]. split; [done|]. lia.
Qed.

Lemma decode_inv input h : octets input -> decode input 0 = Ok (Some h) ->
  header_ok (fin h) (opcode h) (payload_len h) (mask h) /\ rsv h = 0 /\
  exists rest, input = header_text (fin h) (opcode h) (payload_len h) (mask h) ++ rest /\
    header_len h = length (header_text (fin h) (opcode h) (payload_len h) (mask h)).
Proof.
  intros Ho Hd. destruct (decode_bounds _ _ _ Hd) as (_ & _ & Hmask). revert Hd.
  destruct input as [|a [|b rest]]; [done..|]. apply Forall_cons in Ho as [Ha Ho].
  apply Forall_cons in Ho as [Hb Ho]. unfold decode.
  destruct (negb (Z.land _ (not8 0) =? 0)) eqn:Hr; [done|]. apply negb_false_iff, Z.eqb_eq in Hr.
  destruct (from_bits _) as [op|] eqn:Hop; [|done]. cbn [ok_or].
  destruct (_ && _) eqn:Hc; [done|]. destruct (Z.land b 0x80 =? 0) eqn:Hm; [done|].
  destruct (short_inv b Hb Hm) as [Hbv Hv]. set (v := Z.land b 0x7F) in *.
  destruct (extended_len v rest) as [[[n k]|]|] eqn:He; [|done..].
  destruct (get_to 4 (drop k rest)) as [m|] eqn:Hg; [|done]. intros [= <-].
  cbn [fin opcode payload_len mask header_len rsv] in *.
  destruct (extended_len_inv _ _ _ _ Ho Hv He) as (Hn & Ht & Hk & Hshort & Hlong).
  split; [split; [done|]; split; [done|]|split].
  - intros Hop'. rewrite Hop' in Hc. cbn [andb] in Hc. apply orb_false_iff in Hc as [Hf Hc].
    apply Z.ltb_ge in Hc. change (Z.of_nat MAX_CONTROL_PAYLOAD) with 125 in *.
    split; [by destruct (has a 0x80)|]. rewrite Hshort by done. done.
  - change (not8 0) with 0xff in Hr. rewrite land_ff in Hr.
    rewrite Z.mod_small in Hr; [done|]. pose proof (Z.land_nonneg (Z.shiftr a 4) 7).
    rewrite (Z.land_ones _ 3) by lia. pose proof (Z.mod_pos_bound (Z.shiftr a 4) 8). pow2. lia.
  - rewrite length_header, <- Hk by done. exists (drop 4 (drop k rest)). split; [|done].
    unfold header_text. rewrite Ht, <- Hbv, <- (first_octet_inv a op Ha Hr Hop). cbn [app].
    apply get_to_Some in Hg as [Hl ->]. by rewrite <- app_assoc, take_drop, take_drop.
Qed.

(** C21. A server reads a header from the front of its buffer exactly when the buffer
    begins with one of RFC 6455 Section 5.2: no reserved bit, a defined opcode, the
    mask, the length in the fewest octets and below 2^63, and a control frame final
    and of at most 125 octets.  What it reads are the parts of that header, and a
    buffer that is refused or decoded is so whatever octets follow. *)
Theorem ws_header_exact input :
  octets input ->
  (forall h, decode input 0 = Ok (Some h) <->
    exists fin opcode n mask rest, header_ok fin opcode n mask /\
      input = header_text fin opcode n mask ++ rest /\
      h = MkHeader fin 0 opcode mask n (length (header_text fin opcode n mask))) /\
  (forall r more, decode input 0 = r -> r <> Ok None -> decode (input ++ more) 0 = r).
Proof.
  intros Ho. split.
  - intros h. split.
    + intros Hd. destruct (decode_inv _ _ Ho Hd) as (Hok & Hr & rest & Hi & Hl).
      exists (fin h), (opcode h), (payload_len h), (mask h), rest. split; [done|]. split; [done|].
      rewrite <- Hl. destruct h. cbn in *. by subst.
    + intros (f & op & n & m & rest & Hok & -> & ->). by apply decode_text.
  - intros [[h|]|e] more Hd Hr; [by apply decode_more | done | by apply decode_err].
Qed.

Lemma ws_header_exact_witness :
  octets [0x81; 0x85; 0x37; 0xfa; 0x21; 0x3d; 0x7f] /\
  forall more, decode ([0x81; 0x85; 0x37; 0xfa; 0x21; 0x3d; 0x7f] ++ more) 0
  = Ok (Some (MkHeader true 0 Text [0x37; 0xfa; 0x21; 0x3d] 5 6)).
Proof.
  assert (octets [0x81; 0x85; 0x37; 0xfa; 0x21; 0x3d; 0x7f]) as Ho by (repeat constructor; word_lia).
  split; [exact Ho|]. intros more.
  exact (proj2 (ws_header_exact _ Ho) _ more rfc6455_5_7 ltac:(discriminate)).
Defined.
