(* ===== verification/WsSession.v ===== *)
(** * The WebSocket session

    [zero-ws/src/session.rs]: one server-side connection after the handshake.  Every
    operation passes the session along, on a refusal too. *)
From stdpp Require Import pretty.
From S2P Require Import Prelude Scalar Limits Core Utf8 WsClose WsFrame.

Definition CONTROL_WINDOW_MS : Z := 1000.

(** The text of an event is UTF-8. *)
Inductive Event : Type :=
| EventText (text : bytes)
| EventBinary (data : bytes)
| EventPing (data : bytes)
| EventPong (data : bytes)
| EventClose (close : Close).

Record Step : Type := MkStep {
  consumed : nat;
  event : option Event;
}.

Inductive State : Type := Open | CloseSent | Closed_ | Failed.
#[global] Instance State_eq_dec : EqDecision State.
Proof. solve_decision. Defined.

Inductive Kind : Type := KText | KBinary.
#[global] Instance Kind_eq_dec : EqDecision Kind.
Proof. solve_decision. Defined.

Record Partial : Type := MkPartial {
  partial_fin : bool;
  partial_mask : bytes;
  remaining : Z;
  offset : nat;
}.

Record Session : Type := MkSession {
  limits : Limits.WebSocketLimits;
  state : State;
  close_received : option CloseCode;
  message : option Kind;
  partial : option Partial;
  buffer : bytes;
  delivered : bool;
  utf8 : Utf8Validator;
  fragments : Z;
  window_start : Z;
  control_frames : Z;
  output : bytes;
}.

(** Assignments to the fields of [self]. *)
Definition with_state st (s : Session) : Session :=
  let 'MkSession l _ cr m p b d u f w c o := s in MkSession l st cr m p b d u f w c o.
Definition with_close_received cr (s : Session) : Session :=
  let 'MkSession l st _ m p b d u f w c o := s in MkSession l st cr m p b d u f w c o.
Definition with_message m (s : Session) : Session :=
  let 'MkSession l st cr _ p b d u f w c o := s in MkSession l st cr m p b d u f w c o.
Definition with_partial p (s : Session) : Session :=
  let 'MkSession l st cr m _ b d u f w c o := s in MkSession l st cr m p b d u f w c o.
Definition with_buffer b (s : Session) : Session :=
  let 'MkSession l st cr m p _ d u f w c o := s in MkSession l st cr m p b d u f w c o.
Definition with_delivered d (s : Session) : Session :=
  let 'MkSession l st cr m p b _ u f w c o := s in MkSession l st cr m p b d u f w c o.
Definition with_utf8 u (s : Session) : Session :=
  let 'MkSession l st cr m p b d _ f w c o := s in MkSession l st cr m p b d u f w c o.
Definition with_fragments f (s : Session) : Session :=
  let 'MkSession l st cr m p b d u _ w c o := s in MkSession l st cr m p b d u f w c o.
Definition with_window w c (s : Session) : Session :=
  let 'MkSession l st cr m p b d u f _ _ o := s in MkSession l st cr m p b d u f w c o.
Definition with_output o (s : Session) : Session :=
  let 'MkSession l st cr m p b d u f w c _ := s in MkSession l st cr m p b d u f w c o.

Definition new (limits : Limits.WebSocketLimits) : Session :=
  MkSession limits Open None None None [] false Utf8.new 0 0 0 [].

Definition write_frame (opcode : Opcode) (payload : bytes) (self : Session) : Session :=
  with_output (write opcode payload (output self)) self.

(** [let mut body = [0u8; MAX_CONTROL_PAYLOAD]; .. close::body(code, "", &mut body)] and
    the frame with what was written. *)
Definition write_close (code : CloseCode) (self : Session) : Session :=
  let (body, r) := WsClose.body code [] (replicate MAX_CONTROL_PAYLOAD 0) in
  let len := match r with Ok len => len | Err _ => O end in
  write_frame OpClose (take len body) self.

Definition fail (code : CloseCode) (self : Session) : Session * CloseCode :=
  let self := if bool_decide (state self = Open) then write_close code self else self in
  (with_state Failed self, code).

(** [return Err(self.fail(code))] *)
Definition failed {A} (code : CloseCode) (self : Session) : Session * result CloseCode A :=
  let (self, code) := fail code self in (self, Err code).

Definition absorb (self : Session) (input : bytes) : Session * result CloseCode (nat * bool) :=
  match partial self with
  | None => (self, Ok (O, false))
  | Some partial =>
      let take_ := Nat.min (Z.to_nat (remaining partial)) (length input) in
      let chunk := unmask (take take_ input) (rotate_key (partial_mask partial) (offset partial)) in
      let go (self : Session) :=
        let self := with_buffer (buffer self ++ chunk) self in
        let left := saturating_sub (remaining partial) (Z.of_nat take_) in
        let offset := (offset partial + take_)%nat in
        if 0 <? left
        then (with_partial (Some (MkPartial (partial_fin partial) (partial_mask partial) left offset)) self,
              Ok (take_, false))
        else (with_partial None self, Ok (take_, partial_fin partial)) in
      if bool_decide (message self = Some KText) then
        match Utf8.feed (utf8 self) chunk with
        | (utf8, Ok _) => go (with_utf8 utf8 self)
        | (utf8, Err _) => failed INVALID_PAYLOAD (with_utf8 utf8 self)
        end
      else go self
  end.

Definition finish_message (self : Session) : Session * result CloseCode (option Event) :=
  let kind := message self in
  let self := with_delivered true (with_fragments 0 (with_message None self)) in
  match kind with
  | Some KText =>
      let complete := is_complete (utf8 self) in
      let self := with_utf8 Utf8.new self in
      if negb complete then failed INVALID_PAYLOAD self
      else (self, Ok (if from_utf8 (buffer self) then Some (EventText (buffer self)) else None))
  | Some KBinary => (self, Ok (Some (EventBinary (buffer self))))
  | None => (self, Ok None)
  end.

(** What [absorb] took, the event it completed, and the octets before its input. *)
Definition absorbed (before : nat) (r : Session * result CloseCode (nat * bool))
  : Session * result CloseCode Step :=
  match r with
  | (self, Err code) => (self, Err code)
  | (self, Ok (used, false)) => (self, Ok (MkStep (before + used) None))
  | (self, Ok (used, true)) =>
      match finish_message self with
      | (self, Err code) => (self, Err code)
      | (self, Ok event) => (self, Ok (MkStep (before + used) event))
      end
  end.

Definition control (self : Session) (header : Header) (input : bytes) (now_ms : Z)
  : Session * result CloseCode Step :=
  let end_ := (header_len header + Z.to_nat (payload_len header))%nat in
  match get_range (header_len header) end_ input with
  | None => (self, Ok (MkStep 0 None))
  | Some payload =>
      let self :=
        if saturating_add 64 (window_start self) CONTROL_WINDOW_MS <=? now_ms
        then with_window now_ms 0 self else self in
      let self := with_window (window_start self) (saturating_add 32 (control_frames self) 1) self in
      if Limits.websocket_max_control_frames_per_second (limits self) <? control_frames self
      then failed POLICY_VIOLATION self
      else
      let payload := unmask payload (mask header) in
      match opcode header with
      | Ping =>
          let self :=
            match close_received self with
            | None => write_frame Pong payload self
            | Some _ => self
            end in
          (self, Ok (MkStep end_ (Some (EventPing payload))))
      | Pong => (self, Ok (MkStep end_ (Some (EventPong payload))))
      | _ =>
          match WsClose.parse payload with
          | Err code => failed code self
          | Ok close =>
              let self := with_close_received (Some (code close)) self in
              let self := if bool_decide (state self = Open) then write_close (code close) self else self in
              (with_state Closed_ self, Ok (MkStep end_ (Some (EventClose close))))
          end
      end
  end.

(** The kind of the message a data frame belongs to. *)
Definition kind_of (opcode : Opcode) (message : option Kind) : option Kind :=
  match opcode, message with
  | Continuation, Some kind => Some kind
  | Text, None => Some KText
  | Binary, None => Some KBinary
  | _, _ => None
  end.

Definition data (self : Session) (header : Header) (input : bytes) : Session * result CloseCode Step :=
  match kind_of (opcode header) (message self) with
  | None => failed PROTOCOL_ERROR self
  | Some kind =>
      let self := with_fragments (saturating_add 32 (fragments self) 1) self in
      let total := saturating_add 64 (len (buffer self)) (payload_len header) in
      if (Limits.websocket_max_message (limits self) <? total)
         || (Limits.websocket_max_fragments (limits self) <? fragments self)
      then failed MESSAGE_TOO_BIG self
      else
      let end_ := (header_len header + Z.to_nat (payload_len header))%nat in
      if fin header && bool_decide (message self = None) && (end_ <=? length input)%nat then
        let self := with_fragments 0 self in
        match get_range (header_len header) end_ input with
        | None => failed INTERNAL_ERROR self
        | Some payload =>
            let payload := unmask payload (mask header) in
            match kind with
            | KBinary => (self, Ok (MkStep end_ (Some (EventBinary payload))))
            | KText =>
                if from_utf8 payload then (self, Ok (MkStep end_ (Some (EventText payload))))
                else failed INVALID_PAYLOAD self
            end
        end
      else
        let self := with_message (Some kind) self in
        let self := with_partial (Some (MkPartial (fin header) (mask header) (payload_len header) 0)) self in
        absorbed (header_len header) (absorb self (drop (header_len header) input))
  end.

(** What was handed out is dropped at the next call. *)
Definition settled (self : Session) : Session :=
  if delivered self then with_buffer [] (with_delivered false self) else self.

Definition feed (self : Session) (input : bytes) (now_ms : Z) : Session * result CloseCode Step :=
  let self := settled self in
  match state self with
  | Closed_ | Failed => (self, Ok (MkStep (length input) None))
  | _ =>
      match partial self with
      | Some _ => absorbed 0 (absorb self input)
      | None =>
          match decode input 0 with
          | Err code => failed code self
          | Ok None => (self, Ok (MkStep 0 None))
          | Ok (Some header) =>
              if is_control (opcode header) then control self header input now_ms
              else data self header input
          end
      end
  end.

(** ** What the application sends *)

Definition ensure_open (self : Session) : result Error unit :=
  if bool_decide (state self = Open) then Ok tt else Err Closed.

Definition send_text (text : bytes) (self : Session) : Session * result Error unit :=
  match ensure_open self with
  | Err e => (self, Err e)
  | Ok _ => (write_frame Text text self, Ok tt)
  end.

Definition send_binary (data : bytes) (self : Session) : Session * result Error unit :=
  match ensure_open self with
  | Err e => (self, Err e)
  | Ok _ => (write_frame Binary data self, Ok tt)
  end.

Definition send_encoded (frame : bytes) (self : Session) : Session * result Error unit :=
  match ensure_open self with
  | Err e => (self, Err e)
  | Ok _ => (with_output (output self ++ frame) self, Ok tt)
  end.

Definition ping (data : bytes) (self : Session) : Session * result Error unit :=
  match ensure_open self with
  | Err e => (self, Err e)
  | Ok _ =>
      if (MAX_CONTROL_PAYLOAD <? length data)%nat
      then (self, Err (Limit ("a ping carries at most " +:+ pretty MAX_CONTROL_PAYLOAD +:+ " bytes, not "
                              +:+ pretty (length data))))
      else (write_frame Ping data self, Ok tt)
  end.

Definition close (code : CloseCode) (reason : bytes) (self : Session) : Session * result Error unit :=
  match ensure_open self with
  | Err e => (self, Err e)
  | Ok _ =>
      match start_body code reason (replicate MAX_CONTROL_PAYLOAD 0) with
      | (_, Err e) => (self, Err e)
      | (body, Ok len) => (with_state CloseSent (write_frame OpClose (take len body) self), Ok tt)
      end
  end.

Definition going_away (self : Session) : Session * result Error unit := close GOING_AWAY [] self.

Definition consume_output (written : nat) (self : Session) : Session :=
  let written := Nat.min written (length (output self)) in
  with_output (drop written (output self)) self.

Definition is_finished (self : Session) : bool :=
  match state self with Closed_ | Failed => true | _ => false end.

Definition close_code (self : Session) : option CloseCode := close_received self.

Example feed_hello :
  (feed (new WebSocketLimits_DEFAULT)
     ([0x81; 0x85; 0x37; 0xfa; 0x21; 0x3d] ++ [0x7f; 0x9f; 0x4d; 0x51; 0x58]) 0).2
  = Ok (MkStep 11 (Some (EventText (bs "Hello")))).
Proof. vm_compute. reflexivity. Qed.
Example feed_close :
  let r := feed (new WebSocketLimits_DEFAULT) ([0x88; 0x82; 0; 0; 0; 0] ++ [0x03; 0xe8]) 0 in
  r.2 = Ok (MkStep 8 (Some (EventClose (MkClose 1000 [])))) /\
  output r.1 = [0x88; 0x02; 0x03; 0xe8] /\ state r.1 = Closed_.
Proof. vm_compute. done. Qed.
