(* ===== verification/WsReceive.v ===== *)
(** * The session as a streaming decoder

    [Session::feed] called until it takes nothing more is an instance of [Machine]
    with firm errors: what a session reports, what it answers and how it fails do not
    depend on how the transport cut the octets.  Two paths of the code must agree for
    that: a message that is wholly in the buffer is delivered from it, and one that is
    not is gathered in the session's buffer with its text validated on the way. *)
From S2P Require Import Prelude Scalar Limits Core Utf8 WsClose WsFrame WsSession Machine.

(** ** Sessions up to what is no longer needed

    Between messages the gathered octets, the validator and the frame in progress have
    no content: [feed] drops what was delivered at the next call. *)
Definition normal (s : Session) : Session :=
  match message s with
  | None => with_partial None (with_utf8 Utf8.new (with_delivered false (with_buffer [] s)))
  | Some _ => settled s
  end.

(** The invariant of a session: in it [normal] is what [feed] does. *)
Definition steady (s : Session) : Prop :=
  is_finished s = true \/
  match message s with
  | None => partial s = None /\ utf8 s = Utf8.new /\ buffer (settled s) = []
  | Some kind => delivered s = false /\ (kind = KBinary -> utf8 s = Utf8.new)
  end.

Lemma normal_settled s : steady s -> is_finished s = false -> normal s = settled s.
Proof.
  destruct s as [l st cr m p b d u f w c o]. intros [H|H] Hl; [congruence|]. revert H. unfold normal. cbn.
  destruct m as [k|]; [done|]. intros (-> & -> & Hb). unfold settled in *. cbn in *. destruct d; cbn in *; by subst.
Qed.

Lemma normal_idem s : normal (normal s) = normal s.
Proof. destruct s as [l st cr [k|] p b [|] u f w c o]; done. Qed.

Lemma settled_normal s : settled (normal s) = normal s.
Proof. destruct s as [l st cr [k|] p b [|] u f w c o]; done. Qed.

Lemma feed_settled s input now : feed (settled s) input now = feed s input now.
Proof. unfold feed. replace (settled (settled s)) with (settled s); [done|]. by destruct s as [? ? ? ? ? ? [] ? ? ? ? ?]. Qed.

(** What the caller sees of a refusal: the code, and the octets to write. *)
Definition seen {A} (r : Session * result CloseCode A) : result (CloseCode * bytes) (Session * A) :=
  match r with (s, Ok a) => Ok (s, a) | (s, Err code) => Err (code, output s) end.

Definition events (e : option Event) : list Event := match e with Some e => [e] | None => [] end.

(** One call, as a step of a decoder; a call that takes nothing is the last. *)
Definition stepped (r : Session * result CloseCode Step)
  : result (CloseCode * bytes) (option (Session * list Event * nat)) :=
  match seen r with
  | Err e => Err e
  | Ok (s, MkStep n e) => if (n =? 0)%nat then Ok None else Ok (Some (normal s, events e, n))
  end.

Definition step (now : Z) (s : Session) (input : bytes)
  : result (CloseCode * bytes) (option (Session * list Event * nat)) :=
  stepped (feed (normal s) input now).

Definition busy (s : Session) : nat := 0.

(** ** Taking a payload in pieces *)

Definition failed_output (code : CloseCode) (s : Session) : bytes := output (fail code s).1.

Lemma seen_failed {A} code s : seen (failed (A:=A) code s) = Err (code, failed_output code s).
Proof. done. Qed.

Lemma failed_output_eq code s s' :
  state s = state s' -> output s = output s' -> failed_output code s = failed_output code s'.
Proof.
  destruct s, s'. cbn. intros -> ->. unfold failed_output, fail, write_close.
  destruct (WsClose.body code [] _). cbn. by case_bool_decide.
Qed.

(** A text is validated as it is gathered. *)
Definition checked (s : Session) (chunk : bytes) : option Utf8Validator :=
  if bool_decide (message s = Some KText) then steps_any (utf8 s) chunk else Some (utf8 s).

Definition gathered (p : Partial) (n : nat) (u : Utf8Validator) (chunk : bytes) (s : Session) : Session :=
  let left := saturating_sub (remaining p) (Z.of_nat n) in
  with_partial
    (if 0 <? left then Some (MkPartial (partial_fin p) (partial_mask p) left (offset p + n)) else None)
    (with_buffer (buffer s ++ chunk) (with_utf8 u s)).

Lemma absorb_seen s p input :
  partial s = Some p ->
  let n := Nat.min (Z.to_nat (remaining p)) (length input) in
  let chunk := unmask (take n input) (rotate_key (partial_mask p) (offset p)) in
  seen (absorb s input) =
    match checked s chunk with
    | None => Err (INVALID_PAYLOAD, failed_output INVALID_PAYLOAD s)
    | Some u =>
        Ok (gathered p n u chunk s,
            (n, negb (0 <? saturating_sub (remaining p) (Z.of_nat n)) && partial_fin p))
    end.
Proof.
  intros Hp n chunk. unfold absorb, checked. rewrite Hp. fold n. fold chunk.
  destruct s as [l st cr m p' b d u f w c o]. cbn [partial message utf8] in *. subst p'. unfold gathered.
  case_bool_decide.
  - pose proof (feed_any u chunk) as Hf. destruct (Utf8.feed u chunk) as [u' [[]|e]]; rewrite Hf.
    + cbn. by destruct (0 <? _).
    + rewrite seen_failed. unfold failed_output, fail. cbn. by case_bool_decide.
  - cbn. by destruct (0 <? _).
Qed.

Lemma gathered_fields p n u chunk s :
  message (gathered p n u chunk s) = message s /\ state (gathered p n u chunk s) = state s /\
  delivered (gathered p n u chunk s) = delivered s /\ utf8 (gathered p n u chunk s) = u /\
  failed_output INVALID_PAYLOAD (gathered p n u chunk s) = failed_output INVALID_PAYLOAD s.
Proof.
  destruct s as [l st cr m p' b d u' f w c o]. repeat split.
  unfold failed_output, gathered, fail. cbn. by case_bool_decide.
Qed.

(** A piece that does not end the payload. *)
Definition rest_of (p : Partial) (n : nat) : Partial :=
  MkPartial (partial_fin p) (partial_mask p) (remaining p - Z.of_nat n) (offset p + n).

Lemma absorb_short s p a :
  partial s = Some p -> (length a < Z.to_nat (remaining p))%nat ->
  seen (absorb s a) =
    match checked s (unmask a (rotate_key (partial_mask p) (offset p))) with
    | None => Err (INVALID_PAYLOAD, failed_output INVALID_PAYLOAD s)
    | Some u =>
        Ok (gathered p (length a) u (unmask a (rotate_key (partial_mask p) (offset p))) s, (length a, false))
    end /\
  forall u chunk, partial (gathered p (length a) u chunk s) = Some (rest_of p (length a)).
Proof.
  intros Hp Ha. assert (0 < saturating_sub (remaining p) (Z.of_nat (length a))) as Hleft
    by (unfold saturating_sub; lia).
  split.
  - rewrite (absorb_seen s p) by done. rewrite Nat.min_r, take_ge by lia.
    by rewrite (proj2 (Z.ltb_lt _ _) Hleft).
  - intros u chunk. destruct s as [l st cr m p' b d u' f w c o]. cbn in *. unfold gathered. cbn.
    rewrite (proj2 (Z.ltb_lt _ _) Hleft). unfold rest_of, saturating_sub in *. do 2 f_equal. lia.
Qed.

Lemma absorb_more s p a b :
  partial s = Some p -> (length a < Z.to_nat (remaining p))%nat ->
  seen (absorb s (a ++ b)) =
    (let? (s1, (n, _)) := seen (absorb s a) in
     let? (s2, (n2, d)) := seen (absorb s1 b) in
     Ok (s2, ((n + n2)%nat, d))).
Proof.
  intros Hp Ha. destruct (absorb_short s p a Hp Ha) as [-> Hnext].
  rewrite (absorb_seen s p) by done. set (ka := rotate_key (partial_mask p) (offset p)).
  set (m := Nat.min (Z.to_nat (remaining p - Z.of_nat (length a))) (length b)).
  assert (Nat.min (Z.to_nat (remaining p)) (length (a ++ b)) = length a + m)%nat as ->
    by (unfold m; rewrite length_app; lia).
  rewrite take_app_add. unfold ka at 1 2. rewrite unmask_split. fold ka.
  set (cb := unmask (take m b) _).
  destruct (checked s (unmask a ka)) as [u|] eqn:Hu.
  2: { unfold checked in *. case_bool_decide; [|done]. by rewrite steps_any_app, Hu. }
  pose proof (Hnext u (unmask a ka)) as Hp1.
  destruct (gathered_fields p (length a) u (unmask a ka) s) as (Hm1 & _ & _ & Hu1 & Hf1).
  rewrite (absorb_seen _ _ b Hp1), Hf1. cbn [rest_of remaining partial_mask offset partial_fin].
  fold m. fold cb.
  assert (checked s (unmask a ka ++ cb) = checked (gathered p (length a) u (unmask a ka) s) cb) as ->.
  { unfold checked in *. rewrite Hm1, Hu1. case_bool_decide; [|done]. by rewrite steps_any_app, Hu. }
  destruct (checked _ cb) as [u2|]; [|done]. do 2 f_equal.
  - destruct s as [l st cr ms p' bf d u' f w c o]. unfold gathered. cbn.
    replace (saturating_sub (remaining p) (Z.of_nat (length a + m)))
      with (saturating_sub (remaining p - Z.of_nat (length a)) (Z.of_nat m)) by (unfold saturating_sub; lia).
    rewrite app_assoc. f_equal. destruct (0 <? _); [|done]. do 2 f_equal. lia.
  - replace (saturating_sub (remaining p) (Z.of_nat (length a + m)))
      with (saturating_sub (remaining p - Z.of_nat (length a)) (Z.of_nat m)) by (unfold saturating_sub; lia).
    done.
Qed.

(** Octets past the end of the payload are not looked at. *)
Lemma absorb_long s p a b :
  partial s = Some p -> (Z.to_nat (remaining p) <= length a)%nat -> absorb s (a ++ b) = absorb s a.
Proof.
  intros Hp Ha. unfold absorb. rewrite Hp, length_app, !Nat.min_l by lia. by rewrite take_app_le.
Qed.

(** ** The end of a message *)

Lemma seen_absorbed before r :
  seen (absorbed before r) =
    (let? (s, (used, done)) := seen r in
     if done
     then let? (s, e) := seen (finish_message s) in Ok (s, MkStep (before + used) e)
     else Ok (s, MkStep (before + used) None)).
Proof.
  destruct r as [s [[used [|]]|e]]; [|done..]. cbn [absorbed seen].
  by destruct (finish_message s) as [s2 [e|e]].
Qed.

Definition gather (before : nat) (s : Session) (input : bytes)
  : result (CloseCode * bytes) (option (Session * list Event * nat)) :=
  stepped (absorbed before (absorb s input)).

Lemma gather_seen before s input :
  gather before s input =
    (let? (s, (used, done)) := seen (absorb s input) in
     let? (s, e) := (if done then seen (finish_message s) else Ok (s, None)) in
     if (before + used =? 0)%nat then Ok None else Ok (Some (normal s, events e, (before + used)%nat))).
Proof.
  unfold gather, stepped. rewrite seen_absorbed.
  destruct (seen (absorb s input)) as [[s1 [used [|]]]|e]; [|done..].
  by destruct (seen (finish_message s1)) as [[s2 e]|e].
Qed.

(** A session in the middle of a message. *)
Record midway (s : Session) (p : Partial) : Prop := {
  midway_partial : partial s = Some p;
  midway_message : message s <> None;
  midway_delivered : delivered s = false;
  midway_live : is_finished s = false;
}.

Lemma midway_normal s p : midway s p -> normal s = s.
Proof.
  intros [Hp Hm Hd _]. destruct s as [l st cr [k|] p' b d u f w c o]; [|done]. cbn in *. by subst.
Qed.

Lemma midway_gathered s p n u chunk :
  midway s p -> Z.of_nat n < remaining p -> midway (gathered p n u chunk s) (rest_of p n).
Proof.
  intros [Hp Hm Hd Hl] Hn. destruct s as [l st cr m p' b d u' f w c o]. cbn in *. unfold gathered. cbn.
  rewrite (proj2 (Z.ltb_lt 0 _)) by (unfold saturating_sub; lia). split; cbn; try done.
  unfold rest_of, saturating_sub. do 2 f_equal. lia.
Qed.

Section machine.
Context (now : Z).
Abbreviation step := (step now).

Lemma step_midway s p input : midway s p -> step s input = gather 0 s input.
Proof.
  intros H. unfold WsReceive.step, gather. rewrite (midway_normal s p H). unfold feed.
  replace (settled s) with s by (unfold settled; by rewrite (midway_delivered _ _ H)).
  rewrite (midway_partial _ _ H). pose proof (midway_live _ _ H) as Hl. unfold is_finished in Hl.
  by destruct (state s).
Qed.

(** How an outcome changes when more octets are in the buffer. *)
Definition extends (g : bytes -> result (CloseCode * bytes) (option (Session * list Event * nat)))
    (input more : bytes) : Prop :=
  g (input ++ more) = g input \/ g input = Ok None \/
  exists s' ev n, g input = Ok (Some (s', ev, n)) /\
    g (input ++ more) = resumed s' ev n (step s' (drop n input ++ more)).

Lemma gather_extends before s p hd input more :
  midway s p -> length hd = before -> extends (fun i => gather before s (drop before i)) (hd ++ input) more.
Proof.
  intros H <-. unfold extends. destruct (decide (more = [])) as [->|Hmore]; [left; by rewrite app_nil_r|].
  rewrite <- app_assoc, !drop_app_length.
  destruct (Nat.le_gt_cases (Z.to_nat (remaining p)) (length input)) as [Hl|Hl].
  { left. unfold gather. by rewrite (absorb_long _ p) by (done || apply H). }
  destruct (absorb_short s p input (midway_partial _ _ H) Hl) as [Ha Hnext].
  rewrite !gather_seen, (absorb_more s p) by (done || apply H). rewrite Ha.
  destruct (checked s _) as [u|]; [|by left]. right.
  destruct (length hd + length input =? 0)%nat eqn:H0; [by left|]. right.
  pose proof (midway_gathered s p (length input) u
    (unmask input (rotate_key (partial_mask p) (offset p))) H ltac:(lia)) as Hmid.
  set (s1 := gathered _ _ _ _ s) in *.
  exists s1, [], (length hd + length input)%nat. rewrite (midway_normal _ _ Hmid). split; [done|].
  rewrite drop_app_add, drop_all. cbn [app]. rewrite (step_midway _ _ _ Hmid), gather_seen.
  destruct (seen (absorb s1 more)) as [[s2 [n2 d]]|e] eqn:Hs2; [|done].
  assert (n2 <> 0)%nat as Hn2.
  { rewrite (absorb_seen _ _ more (midway_partial _ _ Hmid)) in Hs2.
    destruct (checked s1 _); [|done]. injection Hs2 as _ <- _. cbn [rest_of remaining].
    assert (length more <> 0)%nat by by destruct more. lia. }
  destruct (if d then _ else _) as [[s3 e]|e]; [|done].
  rewrite (proj2 (Nat.eqb_neq (0 + n2) 0)), (proj2 (Nat.eqb_neq (_ + _) 0)) by lia.
  cbn [resumed app]. by rewrite Nat.add_assoc.
Qed.

(** *** Data frames *)

(** The session that gathers the payload of a data frame. *)
Definition begun (s : Session) (h : Header) (kind : Kind) : Session :=
  with_partial (Some (MkPartial (fin h) (mask h) (payload_len h) 0))
    (with_message (Some kind) (with_fragments (saturating_add 32 (fragments s) 1) s)).

Definition frame_end (h : Header) : nat := header_len h + Z.to_nat (payload_len h).

Lemma normal_idle s : normal s = s -> message s = None ->
  exists l st cr f w c o, s = MkSession l st cr None None [] false Utf8.new f w c o.
Proof.
  destruct s as [l st cr m p b d u f w c o]. cbn. intros H ->. unfold normal in H. cbn in H.
  injection H as <- <- <- <-. by do 7 eexists.
Qed.

Lemma get_range_payload (h : Header) (input : bytes) : (frame_end h <= length input)%nat ->
  get_range (header_len h) (frame_end h) input = Some (take (Z.to_nat (payload_len h)) (drop (header_len h) input)).
Proof.
  intros H. unfold get_range, frame_end in *. rewrite decide_True by lia.
  by replace (header_len h + Z.to_nat (payload_len h) - header_len h)%nat with (Z.to_nat (payload_len h)) by lia.
Qed.

Lemma gather_whole s h kind input :
  normal s = s -> message s = None -> fin h = true -> (6 <= header_len h)%nat -> 0 <= payload_len h ->
  (frame_end h <= length input)%nat ->
  let payload := unmask (take (Z.to_nat (payload_len h)) (drop (header_len h) input)) (mask h) in
  let idle := with_fragments 0 s in
  gather (header_len h) (begun s h kind) (drop (header_len h) input) =
    match kind with
    | KBinary => Ok (Some (idle, [EventBinary payload], frame_end h))
    | KText =>
        if from_utf8 payload then Ok (Some (idle, [EventText payload], frame_end h))
        else Err (INVALID_PAYLOAD, failed_output INVALID_PAYLOAD s)
    end.
Proof.
  intros Hs Hm Hf Hh Hn Hend payload idle.
  destruct (normal_idle s Hs Hm) as (l & st & cr & f & w & c & o & ->). clear Hs Hm.
  rewrite gather_seen, (absorb_seen _ (MkPartial (fin h) (mask h) (payload_len h) 0)) by done.
  cbn [remaining partial_mask offset partial_fin].
  rewrite Nat.min_l by (rewrite length_drop; unfold frame_end in Hend; lia).
  rewrite unmask_rotate_0. fold payload.
  rewrite Hf, (proj2 (Z.ltb_ge 0 _)) by (unfold saturating_sub; lia). cbn [negb andb].
  assert ((header_len h + Z.to_nat (payload_len h) =? 0)%nat = false) as Hne by (apply Nat.eqb_neq; lia).
  unfold gathered. cbn [remaining]. rewrite (proj2 (Z.ltb_ge 0 _)) by (unfold saturating_sub; lia).
  destruct kind; unfold checked, begun; cbn -[unmask Nat.add failed_output failed].
  - rewrite bool_decide_eq_true_2 by done. rewrite from_utf8_steps.
    destruct (steps_any Utf8.new payload) as [u|] eqn:Hu.
    + unfold finish_message. cbn -[unmask Nat.add failed_output failed].
      destruct (is_complete u) eqn:Hc; cbn -[unmask Nat.add failed_output failed].
      * by rewrite Hne, from_utf8_steps, Hu, Hc.
      * rewrite seen_failed. do 2 f_equal. by apply failed_output_eq.
    + do 2 f_equal. by apply failed_output_eq.
  - rewrite bool_decide_eq_false_2 by done. by rewrite Hne.
Qed.

(** Every data frame is as if it were gathered. *)
Lemma data_gather s h input :
  normal s = s -> is_finished s = false -> (6 <= header_len h <= length input)%nat -> 0 <= payload_len h ->
  stepped (data s h input) =
    match kind_of (opcode h) (message s) with
    | None => Err (PROTOCOL_ERROR, failed_output PROTOCOL_ERROR s)
    | Some kind =>
        if (Limits.websocket_max_message (limits s) <? saturating_add 64 (len (buffer s)) (payload_len h))
           || (Limits.websocket_max_fragments (limits s) <? saturating_add 32 (fragments s) 1)
        then Err (MESSAGE_TOO_BIG, failed_output MESSAGE_TOO_BIG s)
        else gather (header_len h) (begun s h kind) (drop (header_len h) input)
    end.
Proof.
  intros Hs Hl Hh Hn. unfold data. destruct (kind_of (opcode h) (message s)) as [kind|]; [|done].
  replace (buffer (with_fragments _ s)) with (buffer s) by by destruct s.
  replace (limits (with_fragments _ s)) with (limits s) by by destruct s.
  replace (fragments (with_fragments _ s)) with (saturating_add 32 (fragments s) 1) by by destruct s.
  destruct (_ || _).
  { unfold stepped. rewrite seen_failed. do 2 f_equal. apply failed_output_eq; by destruct s. }
  replace (message (with_fragments _ s)) with (message s) by by destruct s.
  destruct (fin h && bool_decide (message s = None) && (header_len h + Z.to_nat (payload_len h) <=? length input)%nat)
    eqn:Hfast; [|done].
  apply andb_prop in Hfast as [[Hf Hm%bool_decide_eq_true]%andb_prop Hend%Nat.leb_le].
  fold (frame_end h) in Hend |- *. rewrite get_range_payload by done.
  rewrite gather_whole by (done || lia).
  replace (with_fragments 0 (with_fragments _ s)) with (with_fragments 0 s) by by destruct s.
  assert (normal (with_fragments 0 s) = with_fragments 0 s) as Hnorm.
  { destruct (normal_idle s Hs Hm) as (l & st & cr & f & w & c & o & ->). done. }
  assert ((frame_end h =? 0)%nat = false) as Hne by (apply Nat.eqb_neq; unfold frame_end; lia).
  destruct kind.
  - destruct (from_utf8 _); unfold stepped.
    + cbn -[Nat.eqb unmask]. by rewrite Hne, Hnorm.
    + rewrite seen_failed. do 2 f_equal. apply failed_output_eq; by destruct s.
  - unfold stepped. cbn -[Nat.eqb unmask]. by rewrite Hne, Hnorm.
Qed.

Lemma begun_midway s h kind :
  normal s = s -> is_finished s = false ->
  midway (begun s h kind) (MkPartial (fin h) (mask h) (payload_len h) 0).
Proof.
  intros Hs Hl. destruct s as [l st cr m p b d u f w c o]. cbn in *. split; cbn; try done.
  unfold normal in Hs. cbn in Hs. destruct m; [|by injection Hs].
  unfold settled in Hs. cbn in Hs. destruct d; [by injection Hs|done].
Qed.

Lemma data_extends s h input more :
  normal s = s -> is_finished s = false -> (6 <= header_len h <= length input)%nat -> 0 <= payload_len h ->
  extends (fun i => stepped (data s h i)) input more.
Proof.
  intros Hs Hl Hh Hn. unfold extends. rewrite !data_gather by (done || rewrite ?length_app; lia).
  destruct (kind_of _ _) as [kind|]; [|by left]. destruct (_ || _); [by left|].
  pose proof (gather_extends (header_len h) _ _ (take (header_len h) input) (drop (header_len h) input) more
    (begun_midway s h kind Hs Hl) ltac:(rewrite length_take; lia)) as H.
  unfold extends in H. by rewrite take_drop in H.
Qed.

(** *** Control frames *)

Lemma control_extends s h input more :
  (header_len h <= length input)%nat -> extends (fun i => stepped (control s h i now)) input more.
Proof.
  intros Hh. unfold extends, control. fold (frame_end h).
  destruct (Nat.le_gt_cases (frame_end h) (length input)) as [Hl|Hl].
  - left. rewrite !get_range_payload by (rewrite ?length_app; lia).
    rewrite drop_app_le, take_app_le by (rewrite ?length_drop; unfold frame_end in Hl; lia). done.
  - right. left. unfold get_range. by rewrite decide_False by lia.
Qed.

(** *** The laws *)

Lemma feed_normal s input :
  normal s = s -> is_finished s = false ->
  feed s input now =
    match partial s with
    | Some _ => absorbed 0 (absorb s input)
    | None =>
        match decode input 0 with
        | Err code => failed code s
        | Ok None => (s, Ok (MkStep 0 None))
        | Ok (Some header) =>
            if is_control (opcode header) then control s header input now else data s header input
        end
    end.
Proof.
  intros Hs Hl. unfold feed. replace (settled s) with s by by rewrite <- Hs, settled_normal.
  unfold is_finished in Hl. by destruct (state s).
Qed.

Lemma partial_midway s p : normal s = s -> is_finished s = false -> partial s = Some p -> midway s p.
Proof.
  intros Hs Hl Hp. destruct s as [l st cr m p' b d u f w c o]. cbn in *. subst p'.
  unfold normal in Hs. cbn in Hs. destruct m; [|by injection Hs].
  unfold settled in Hs. cbn in Hs. destruct d; [by injection Hs|]. by split.
Qed.

Lemma live_extends s input more : normal s = s -> is_finished s = false -> extends (step s) input more.
Proof.
  intros Hs Hl. unfold extends, WsReceive.step. rewrite Hs. fold step.
  rewrite !feed_normal by done. destruct (partial s) as [p|] eqn:Hp.
  - pose proof (gather_extends 0 s p [] input more (partial_midway s p Hs Hl Hp) eq_refl) as H.
    unfold extends in H. by rewrite !drop_0 in H.
  - destruct (decode input 0) as [[h|]|e] eqn:Hd.
    + rewrite (decode_more _ more _ _ Hd). destruct (decode_bounds _ _ _ Hd) as (Hh & Hn & _).
      destruct (is_control (opcode h)); [apply (control_extends s h input more); lia|].
      by apply (data_extends s h input more).
    + right. by left.
    + left. by rewrite (decode_err _ more _ _ Hd).
Qed.

Lemma step_finished s input : is_finished s = true ->
  step s input = if (length input =? 0)%nat then Ok None else Ok (Some (normal s, [], length input)).
Proof.
  intros Hl. unfold WsReceive.step, feed. rewrite settled_normal.
  assert (is_finished (normal s) = true) as H by by destruct s as [l st cr [k|] p b [|] u f w c o].
  unfold is_finished in H. destruct (state (normal s)); try done; unfold stepped; cbn -[Nat.eqb];
    by rewrite normal_idem.
Qed.

Lemma step_normal s input : step (normal s) input = step s input.
Proof. unfold WsReceive.step. by rewrite normal_idem. Qed.

Lemma step_extends s input more : extends (step s) input more.
Proof.
  destruct (is_finished s) eqn:Hl.
  - unfold extends. rewrite !step_finished by done.
    destruct (Nat.eqb_spec (length input) 0); [right; by left|].
    destruct (decide (more = [])) as [->|Hm]; [left; by rewrite app_nil_r, (proj2 (Nat.eqb_neq _ _))|].
    right. right. exists (normal s), [], (length input). split; [done|].
    rewrite drop_all, step_normal, step_finished by done. cbn [app]. rewrite length_app.
    assert (length more <> 0)%nat by by destruct more.
    by rewrite !(proj2 (Nat.eqb_neq _ 0)) by lia.
  - pose proof (live_extends (normal s) input more (normal_idem s)) as H.
    unfold extends in *. rewrite !step_normal in H. apply H.
    by destruct s as [l st cr [k|] p b [|] u f w c o].
Qed.

(** A step takes an octet or more, and only what is there. *)
Lemma stepped_pos r s' ev n : stepped r = Ok (Some (s', ev, n)) -> (0 < n)%nat.
Proof.
  unfold stepped. destruct (seen r) as [[s [k e]]|]; [|done].
  destruct (Nat.eqb_spec k 0); [done|]. intros [= _ _ <-]. lia.
Qed.

Lemma gather_bound before s p input s' ev n :
  partial s = Some p -> gather before s input = Ok (Some (s', ev, n)) -> (n <= before + length input)%nat.
Proof.
  intros Hp. rewrite gather_seen, (absorb_seen s p) by done. destruct (checked _ _); [|done].
  cbv beta iota. match goal with |- context [if ?d then seen _ else _] => destruct (if d then _ else _) as [[s2 e]|] end;
    [|done]. destruct (_ =? 0)%nat; [done|]. intros [= _ _ <-]. lia.
Qed.

Lemma control_bound s h input s' ev n :
  stepped (control s h input now) = Ok (Some (s', ev, n)) -> (n <= length input)%nat.
Proof.
  unfold control. fold (frame_end h). destruct (get_range _ _ _) as [payload|] eqn:Hg; [|done].
  unfold get_range in Hg. case_decide as Hr; [|done]. clear Hg. destruct (_ <? _); [by unfold stepped; rewrite seen_failed|].
  assert (forall s e, stepped (s, Ok (MkStep (frame_end h) (Some e))) = Ok (Some (s', ev, n)) ->
    (n <= length input)%nat) as Hstep.
  { intros s0 e. unfold stepped. cbn -[Nat.eqb]. destruct (_ =? _)%nat; [done|]. intros [= _ _ <-]. lia. }
  destruct (opcode h); try apply Hstep;
    (destruct (WsClose.parse _); [apply Hstep | by unfold stepped; rewrite seen_failed]).
Qed.

Lemma step_bound s input s' ev n : step s input = Ok (Some (s', ev, n)) -> (0 < n <= length input)%nat.
Proof.
  intros H. split; [by apply stepped_pos in H|]. destruct (is_finished s) eqn:Hl.
  { rewrite step_finished in H by done. destruct (_ =? 0)%nat; [done|]. by injection H as _ _ <-. }
  unfold WsReceive.step in H. rewrite feed_normal in H;
    [| apply normal_idem | by destruct s as [l st cr [k|] p b [|] u f w c o]].
  destruct (partial (normal s)) as [p|] eqn:Hp; [by apply (gather_bound 0 (normal s) p) in H|].
  destruct (decode input 0) as [[h|]|e] eqn:Hd; [|done|by unfold stepped in H; rewrite seen_failed in H].
  destruct (decode_bounds _ _ _ Hd) as (Hh & Hn & _).
  destruct (is_control (opcode h)); [by apply control_bound in H|].
  rewrite data_gather in H; [| apply normal_idem | by destruct s as [l st cr [k|] p b [|] u f w c o] | lia | done].
  destruct (kind_of _ _) as [k|]; [|done]. destruct (_ || _); [done|].
  apply (gather_bound _ _ (MkPartial (fin h) (mask h) (payload_len h) 0)) in H.
  - rewrite length_drop in H. lia.
  - by destruct s as [l st cr [k'|] p b [|] u f w c o].
Qed.

#[global] Instance session_firm : FirmErrors step.
Proof.
  intros s input more e H. destruct (step_extends s input more) as [->|[Hn|(s' & ev & n & Hs & _)]];
    congruence.
Qed.

#[global] Instance session_machine : Machine step busy.
Proof.
  split.
  - intros s. unfold busy. lia.
  - intros s input s' ev n H%step_bound. unfold busy. lia.
  - intros s input more e s' ev n He H. by rewrite (machine_error _ _ more _ He) in H.
  - intros s input more s' ev n H.
    destruct (step_extends s input more) as [Hs|[Hn|(s2 & ev2 & n2 & Hs & Hm)]].
    + left. by rewrite Hs.
    + congruence.
    + rewrite H in Hs. injection Hs as <- <- <-. by right.
Qed.

(** ** The caller's loop

    [feed] until it takes nothing more; the session keeps what it gathered. *)
Lemma normal_of_settled s : normal (settled s) = normal s.
Proof. by destruct s as [l st cr [k|] p b [|] u f w c o]. Qed.

Lemma finished_settled s : is_finished (settled s) = is_finished s.
Proof. by destruct s as [l st cr m p b [|] u f w c o]. Qed.

Lemma finished_normal s : is_finished (normal s) = is_finished s.
Proof. by destruct s as [l st cr [k|] p b [|] u f w c o]. Qed.

Lemma feed_finished s input : is_finished s = true -> feed s input now = (settled s, Ok (MkStep (length input) None)).
Proof.
  intros H. rewrite <- finished_settled in H. unfold feed. unfold is_finished in H. by destruct (state (settled s)).
Qed.

Lemma step_feed s input : steady s -> step s input = stepped (feed s input now).
Proof.
  intros Hs. unfold WsReceive.step. destruct (is_finished s) eqn:Hl.
  - rewrite !feed_finished by (done || by rewrite finished_normal). unfold stepped. cbn -[Nat.eqb].
    by rewrite settled_normal, normal_of_settled, normal_idem.
  - by rewrite normal_settled, feed_settled.
Qed.

Lemma absorb_steady s p input s' r :
  midway s p -> steady s -> absorb s input = (s', Ok r) ->
  steady s' /\ message s' <> None /\ is_finished s' = false /\ (snd r = true -> partial s' = None).
Proof.
  intros [Hp Hm Hd Hl] Hs H. pose proof (absorb_seen s p input Hp) as Ha. rewrite H in Ha. cbn in Ha.
  destruct (checked s _) as [u|] eqn:Hu; [|done]. injection Ha as -> ->.
  destruct s as [l st cr m p' b d u' f w c o]. cbn in *. destruct Hs as [|Hs]; [cbn in *; congruence|].
  cbn in Hs. destruct m as [k|]; [|done]. split; [right; cbn|].
  - split; [done|]. intros ->. unfold checked in Hu. cbn in Hu. rewrite bool_decide_eq_false_2 in Hu by done.
    injection Hu as <-. by apply Hs.
  - repeat split; try done. by destruct (0 <? _).
Qed.

Lemma finish_steady s s' r :
  steady s -> message s <> None -> partial s = None -> finish_message s = (s', Ok r) -> steady s'.
Proof.
  destruct s as [l st cr m p b d u f w c o]. cbn. intros Hs Hm -> H. unfold finish_message in H. cbn in H.
  destruct m as [[|]|]; [| |done].
  - destruct (is_complete u); cbn in H; [|done]. injection H as <- _. right. by cbn.
  - injection H as <- _. destruct Hs as [Hs|Hs]; [by left|]. right. cbn in *. by rewrite (proj2 Hs).
Qed.

Lemma absorbed_steady before s p input s' st :
  midway s p -> steady s -> absorbed before (absorb s input) = (s', Ok st) -> steady s'.
Proof.
  intros Hmid Hs. destruct (absorb s input) as [s1 [[n d]|e]] eqn:Ha; [|done].
  destruct (absorb_steady _ _ _ _ _ Hmid Hs Ha) as (Hs1 & Hm1 & Hl1 & Hp1). cbn [absorbed].
  destruct d; [|by intros [= <- _]]. destruct (finish_message s1) as [s2 [e|e]] eqn:Hf; [|done].
  intros [= <- _]. by apply (finish_steady s1 s2 e Hs1 Hm1 (Hp1 eq_refl)).
Qed.

Lemma failed_finished {A} code s s' (r : result CloseCode A) : failed code s = (s', r) -> is_finished s' = true.
Proof.
  unfold failed, fail. intros [= <- _]. case_bool_decide; [|by destruct s].
  unfold write_close. destruct (WsClose.body _ _ _). by destruct s.
Qed.

(** What a control frame leaves as it was. *)
Definition same_message (s s' : Session) : Prop :=
  message s' = message s /\ partial s' = partial s /\ utf8 s' = utf8 s /\ buffer s' = buffer s /\
  delivered s' = delivered s.

Lemma same_message_steady s s' : same_message s s' -> is_finished s = false -> steady s -> steady s'.
Proof.
  intros (Hm & Hp & Hu & Hb & Hd) Hl [|Hs]; [congruence|]. right.
  destruct s as [l st cr m p b d u f w c o], s' as [l' st' cr' m' p' b' d' u' f' w' c' o']. cbn in *. subst.
  destruct m; [done|]. by destruct d.
Qed.

Lemma control_same s h input s' st :
  control s h input now = (s', Ok st) -> same_message s s'.
Proof.
  destruct s as [l st0 cr m p b d u f w c o]. unfold control. cbn.
  destruct (get_range _ _ _); [|by intros [= <- _]].
  match goal with |- context [with_window _ _ (if ?c then _ else _)] => destruct c end; cbn.
  all: destruct (_ <? _); [done|].
  all: destruct (opcode h); try (destruct (WsClose.parse _) as [cl|]; [|done]);
    try destruct cr; try case_bool_decide; unfold write_close; try destruct (WsClose.body _ _ _);
    intros [= <- _]; unfold same_message; by repeat split.
Qed.

Lemma begun_steady s h kind :
  normal s = s -> steady s -> is_finished s = false -> kind_of (opcode h) (message s) = Some kind ->
  steady (begun s h kind).
Proof.
  intros Hn [|Hs] Hl Hk; [congruence|]. right. destruct s as [l st cr m p b d u f w c o]. cbn in *.
  destruct m as [k|].
  - destruct Hs as [-> Hu]. split; [done|]. intros ->. destruct (opcode h); try done.
    injection Hk as ->. by apply Hu.
  - destruct Hs as (-> & -> & _). unfold normal in Hn. cbn in Hn. by injection Hn as <- <-.
Qed.

Lemma data_steady s h input s' st :
  normal s = s -> steady s -> is_finished s = false -> data s h input = (s', Ok st) -> steady s'.
Proof.
  intros Hn Hs Hl. unfold data. destruct (kind_of _ _) as [kind|] eqn:Hk; [|done].
  destruct (_ || _); [done|]. destruct (fin h && _ && _) eqn:Hfast.
  - destruct (get_range _ _ _); [|done].
    assert (steady (with_fragments 0 (with_fragments (saturating_add 32 (fragments s) 1) s))) as Hs'.
    { apply (same_message_steady s); [|done..]. by destruct s. }
    destruct kind; [destruct (from_utf8 _); [|done]|]; by intros [= <- _].
  - intros H. apply (absorbed_steady _ _ (MkPartial (fin h) (mask h) (payload_len h) 0)) in H; [done| |].
    + by apply begun_midway.
    + by apply begun_steady.
Qed.

(** A refusal is a call of [fail], on a session that has sent nothing since. *)
Definition fails {A} (s : Session) (r : Session * result CloseCode A) : Prop :=
  match r with
  | (_, Ok _) => True
  | (s', Err e) => is_valid e = true /\ exists s2, state s2 = state s /\ output s2 = output s /\ s' = (fail e s2).1
  end.

Lemma failed_fails {A} code s s2 :
  is_valid code = true -> state s2 = state s -> output s2 = output s -> fails s (failed (A:=A) code s2).
Proof. intros Hv Hs Ho. unfold failed. destruct (fail code s2) as [s' e] eqn:Hf.
  assert (e = code) as -> by by injection Hf. split; [done|]. exists s2. by rewrite Hf. Qed.

Lemma absorb_fails s input : fails s (absorb s input).
Proof.
  unfold absorb. destruct (partial s) as [p|]; [|done]. case_bool_decide.
  - destruct (Utf8.feed _ _) as [u [[]|]]; [by destruct (_ <? _)|]. apply failed_fails; by destruct s.
  - by destruct (_ <? _).
Qed.

Lemma absorb_fields s input s' r : absorb s input = (s', Ok r) -> state s' = state s /\ output s' = output s.
Proof.
  unfold absorb. destruct (partial s) as [p|]; [|by intros [= <- _]]. case_bool_decide.
  - destruct (Utf8.feed _ _) as [u [[]|]]; [|done]. destruct (_ <? _); intros [= <- _]; by destruct s.
  - destruct (_ <? _); intros [= <- _]; by destruct s.
Qed.

Lemma finish_fails s : fails s (finish_message s).
Proof.
  unfold finish_message. destruct (message s) as [[|]|]; [|done..].
  destruct (negb _); [|done]. apply failed_fails; by destruct s.
Qed.

Lemma absorbed_fails before s input : fails s (absorbed before (absorb s input)).
Proof.
  pose proof (absorb_fails s input) as H. destruct (absorb s input) as [s1 [[n d]|e]] eqn:Ha; [|done].
  cbn [absorbed]. destruct d; [|done]. apply absorb_fields in Ha as [Hs Ho].
  pose proof (finish_fails s1) as H1. destruct (finish_message s1) as [s2 [e|e]]; [done|].
  destruct H1 as (Hv & s3 & Hs3 & Ho3 & ->). split; [done|]. exists s3. by rewrite Hs3, Ho3.
Qed.

Lemma fails_fields {A} s s1 (r : Session * result CloseCode A) :
  state s1 = state s -> output s1 = output s -> fails s1 r -> fails s r.
Proof.
  destruct r as [s' [a|e]]; [done|]. intros Hs Ho (Hv & s2 & Hs2 & Ho2 & ->).
  split; [done|]. exists s2. by rewrite Hs2, Ho2.
Qed.

Lemma control_fails s h input : fails s (control s h input now).
Proof.
  unfold control. destruct (get_range _ _ _) as [payload|]; [|done].
  set (s1 := with_window _ _ _).
  assert (state s1 = state s /\ output s1 = output s) as [Hs Ho]
    by (unfold s1; destruct (_ <=? now); by destruct s).
  clearbody s1. destruct (_ <? _); [by apply failed_fails|].
  destruct (opcode h); try done; (destruct (WsClose.parse _) as [|e] eqn:Hp; [done|];
    apply failed_fails; [by apply parse_refused with (1 := Hp) | done..]).
Qed.

Lemma data_fails s h input : fails s (data s h input).
Proof.
  unfold data. destruct (kind_of _ _) as [k|]; [|by apply failed_fails].
  destruct (_ || _); [apply failed_fails; by destruct s|]. destruct (_ && _).
  - destruct (get_range _ _ _); [|apply failed_fails; by destruct s].
    destruct k; [destruct (from_utf8 _); [done|apply failed_fails; by destruct s] | done].
  - eapply fails_fields; [| |apply absorbed_fails]; by destruct s.
Qed.

Lemma feed_fails s input : fails s (feed s input now).
Proof.
  apply (fails_fields s (settled s)); [by destruct s as [? ? ? ? ? ? [] ? ? ? ? ?]..|]. unfold feed.
  destruct (state (settled s)); try done;
    (destruct (partial (settled s)); [apply absorbed_fails|];
     destruct (decode input 0) as [[h|]|e] eqn:Hd;
     [destruct (is_control (opcode h)); [apply control_fails | apply data_fails] | done
     | apply failed_fails; [by apply decode_refused with (1 := Hd) | done..]]).
Qed.

Lemma feed_err s input s' e : feed s input now = (s', Err e) -> is_finished s' = true.
Proof.
  intros H. pose proof (feed_fails s input) as Hf. rewrite H in Hf. destruct Hf as (_ & s2 & _ & _ & ->).
  by apply (failed_finished (A:=unit) e s2 _ (Err e)).
Qed.

Lemma feed_steady s input s' r : steady s -> feed s input now = (s', r) -> steady s'.
Proof.
  intros Hs H. destruct r as [st|e]; [|left; by eapply feed_err].
  destruct (is_finished s) eqn:Hl.
  { rewrite feed_finished in H by done. injection H as <- _. left. by rewrite finished_settled. }
  pose proof (normal_settled s Hs Hl) as Hn. rewrite <- feed_settled, <- Hn in H.
  assert (steady (normal s)) as Hs'.
  { destruct Hs as [|Hs]; [congruence|]. right.
    destruct s as [l st0 cr [k|] p b [|] u f w c o]; cbn in *; try done; by destruct Hs. }
  rewrite feed_normal in H by (apply normal_idem || by rewrite finished_normal).
  rewrite <- finished_normal in Hl. pose proof (normal_idem s) as Hi.
  destruct (partial (normal s)) as [p|] eqn:Hp.
  { by apply (absorbed_steady _ _ p) in H; [|apply partial_midway|]. }
  destruct (decode input 0) as [[h|]|]; [|by injection H as <- _|done].
  destruct (is_control (opcode h)); [|by apply data_steady in H].
  apply control_same in H. by apply (same_message_steady _ _ H).
Qed.

(** A frame in progress has octets to come. *)
Definition pending (s : Session) : Prop := forall p, partial s = Some p -> 0 < remaining p.

Lemma absorb_pending s p input s' r : partial s = Some p -> absorb s input = (s', Ok r) -> pending s'.
Proof.
  intros Hp H. pose proof (absorb_seen s p input Hp) as Ha. rewrite H in Ha. cbn in Ha.
  destruct (checked s _) as [u|]; [|done]. injection Ha as -> _. unfold gathered, pending.
  destruct s as [l st cr m p' b d u' f w c o]. cbn. destruct (Z.ltb_spec 0 (saturating_sub (remaining p)
    (Z.of_nat (Nat.min (Z.to_nat (remaining p)) (length input))))); [|done]. by intros p2 [= <-].
Qed.

Lemma absorbed_pending before s p input s' st :
  partial s = Some p -> absorbed before (absorb s input) = (s', Ok st) -> pending s'.
Proof.
  intros Hp. destruct (absorb s input) as [s1 [[n d]|e]] eqn:Ha; [|done].
  pose proof (absorb_pending _ _ _ _ _ Hp Ha) as H1. cbn [absorbed]. destruct d; [|by intros [= <- _]].
  destruct (finish_message s1) as [s2 [e|e]] eqn:Hf; [|done]. intros [= <- _].
  unfold finish_message in Hf. destruct (message s1) as [[|]|].
  - destruct (negb _); [done|]. injection Hf as <- _. by destruct s1.
  - injection Hf as <- _. by destruct s1.
  - injection Hf as <- _. by destruct s1.
Qed.

Lemma pending_fields s s' : partial s' = partial s -> pending s -> pending s'.
Proof. unfold pending. by intros ->. Qed.

Lemma feed_pending s input s' st : pending s -> feed s input now = (s', Ok st) -> pending s'.
Proof.
  intros Hs. assert (pending (settled s)) as H0 by by destruct s as [? ? ? ? ? ? [] ? ? ? ? ?].
  unfold feed. generalize dependent (settled s). clear s Hs. intros s Hs.
  destruct (state s); [| | by intros [= <- _]..].
  all: destruct (partial s) as [p|] eqn:Hp; [by apply absorbed_pending with p|].
  all: destruct (decode input 0) as [[h|]|]; [|by intros [= <- _]|done].
  all: destruct (is_control (opcode h)).
  1, 3: intros (_ & Hp' & _)%control_same; by apply (pending_fields s).
  all: unfold data; destruct (kind_of _ _) as [k|]; [|done]; destruct (_ || _); [done|];
    destruct (_ && _).
  2, 4: by apply (absorbed_pending _ _ (MkPartial (fin h) (mask h) (payload_len h) 0)); destruct s.
  all: destruct (get_range _ _ _); [|done];
    (destruct k; [destruct (from_utf8 _); [|done]|]); intros [= <- _];
    (apply (pending_fields s); [by destruct s | done]).
Qed.

(** A call that takes nothing changes nothing. *)
Lemma gathered_nothing s p : partial s = Some p -> 0 < remaining p -> gathered p 0 (utf8 s) [] s = s.
Proof.
  intros Hp Hr. unfold gathered. rewrite (proj2 (Z.ltb_lt 0 _)) by (unfold saturating_sub; cbn; lia).
  destruct s as [l st cr m p' b d u f w c o]. cbn in *. subst p'. rewrite app_nil_r, Nat.add_0_r.
  destruct p. cbn in *. unfold saturating_sub. do 3 f_equal. lia.
Qed.

Lemma absorb_nothing s p input s' d :
  partial s = Some p -> 0 < remaining p -> absorb s input = (s', Ok (0%nat, d)) -> s' = s /\ d = false.
Proof.
  intros Hp Hr H. pose proof (absorb_seen s p input Hp) as Ha. rewrite H in Ha. cbn [seen] in Ha.
  destruct (checked s _) as [u|] eqn:Hu; [|done]. injection Ha as Hs' Hn Hd.
  rewrite <- Hn in *. rewrite (proj2 (Z.ltb_lt 0 _)) in Hd by (unfold saturating_sub; cbn; lia).
  split; [|done]. cbn [take] in *. change (unmask [] _) with (@nil Z) in *.
  assert (u = utf8 s) as -> by (unfold checked in Hu; case_bool_decide; by injection Hu as <-).
  by rewrite gathered_nothing in Hs'.
Qed.

Lemma absorbed_before before r s' st : absorbed before r = (s', Ok st) -> (before <= consumed st)%nat.
Proof.
  destruct r as [s1 [[n [|]]|]]; cbn [absorbed]; [|intros [= _ <-]; cbn; lia|done].
  destruct (finish_message s1) as [s2 [e|]]; [|done]. intros [= _ <-]. cbn. lia.
Qed.

Lemma control_before s h input s' st :
  control s h input now = (s', Ok st) -> s' = s \/ (header_len h <= consumed st)%nat.
Proof.
  unfold control. fold (frame_end h). destruct (get_range _ _ _); [|intros [= <- _]; by left].
  destruct (_ <? _); [done|]. intros H. right.
  assert (consumed st = frame_end h) as ->; [|unfold frame_end; lia].
  destruct (opcode h); try destruct (WsClose.parse _); try done; by injection H as _ <-.
Qed.

Lemma data_before s h input s' st : data s h input = (s', Ok st) -> (header_len h <= consumed st)%nat.
Proof.
  unfold data. fold (frame_end h). destruct (kind_of _ _) as [k|]; [|done]. destruct (_ || _); [done|].
  destruct (_ && _); [|apply absorbed_before]. destruct (get_range _ _ _); [|done].
  destruct k; [destruct (from_utf8 _); [|done]|]; intros [= _ <-]; unfold frame_end; cbn; lia.
Qed.

Lemma feed_nothing s input s' e :
  pending s -> feed s input now = (s', Ok (MkStep 0 e)) -> s' = settled s.
Proof.
  intros Hs. assert (pending (settled s)) as H0 by by destruct s as [? ? ? ? ? ? [] ? ? ? ? ?].
  unfold feed. generalize dependent (settled s). clear s Hs. intros s Hs.
  destruct (state s); [| | by intros [= <- _ _]..].
  all: destruct (partial s) as [p|] eqn:Hp.
  1, 3: destruct (absorb s input) as [s1 [[[|n] d]|]] eqn:Ha; [| |done];
    [ destruct (absorb_nothing _ _ _ _ _ Hp (Hs p Hp) Ha) as [-> ->]; by intros [= <- _]
    | cbn [absorbed]; destruct d; [|done]; by destruct (finish_message s1) as [? [?|?]] ].
  all: destruct (decode input 0) as [[h|]|] eqn:Hd; [|by intros [= <- _]|done].
  all: destruct (decode_bounds _ _ _ Hd) as (Hh & _ & _); destruct (is_control (opcode h)); intros H;
    [ apply control_before in H as [?|H]; [done | cbn in H; lia] | apply data_before in H; cbn in H; lia ].
Qed.
End machine.
