(* ===== verification/WsConversation.v ===== *)
(** * What a session makes of the frames of a client

    A specification of the receiving side on whole frames, and that the session, fed
    the octets of the frames cut in any way, refines it. *)
From S2P Require Import Prelude Scalar Limits Core Utf8 WsClose WsFrame WsSession Machine WsReceive.

(** ** The caller's loop

    [feed] until it takes nothing more; every call takes an octet, so the octets of
    the buffer are fuel enough. *)
Fixpoint pump (fuel : nat) (now : Z) (s : Session) (input : bytes)
  : result (CloseCode * bytes) (Session * list Event * nat) :=
  match fuel with
  | O => Ok (s, [], 0%nat)
  | S fuel =>
      match seen (feed s input now) with
      | Err e => Err e
      | Ok (s, MkStep n event) =>
          if (n =? 0)%nat then Ok (s, [], 0%nat)
          else
            let? (s, ev, m) := pump fuel now s (drop n input) in
            Ok (s, events event ++ ev, (n + m)%nat)
      end
  end.

(** Each read is appended to what the session left. *)
Fixpoint receive (now : Z) (s : Session) (left : bytes) (reads : list bytes)
  : result (CloseCode * bytes) (Session * list Event * bytes) :=
  match reads with
  | [] => Ok (s, [], left)
  | read :: reads =>
      let input := left ++ read in
      let? (s, ev, n) := pump (S (length input)) now s input in
      let? (s, ev', left) := receive now s (drop n input) reads in
      Ok (s, ev ++ ev', left)
  end.

Definition good (s : Session) : Prop := steady s /\ pending s.

Lemma new_good limits : good (new limits).
Proof. split; [by right | done]. Qed.

Lemma feed_good now s input s' st : good s -> feed s input now = (s', Ok st) -> good s'.
Proof. intros [Hs Hp] H. split; [by eapply feed_steady | by eapply feed_pending]. Qed.

(** Sessions that differ in what was delivered alone. *)
Definition agree (s1 s2 : Session) : Prop := normal s1 = normal s2.

Lemma normal_run now s s' input : normal s = normal s' ->
  match run (step now) busy s input, run (step now) busy s' input with
  | Ok (s1, ev1, n1), Ok (s2, ev2, n2) => agree s1 s2 /\ ev1 = ev2 /\ n1 = n2
  | Err e1, Err e2 => e1 = e2
  | _, _ => False
  end.
Proof.
  intros H. rewrite !(run_step (step now) busy).
  assert (step now s input = step now s' input) as -> by (rewrite <- step_normal, H; apply step_normal).
  destruct (step now s' input) as [[[[s1 ev] n]|]|e]; [|done..].
  by destruct (run (step now) busy s1 _) as [[[s2 ev2] n2]|].
Qed.

Lemma pump_run fuel : forall now s input, good s -> (length input < fuel)%nat ->
  match pump fuel now s input, run (step now) busy s input with
  | Ok (s1, ev1, n1), Ok (s2, ev2, n2) => good s1 /\ agree s1 s2 /\ ev1 = ev2 /\ n1 = n2
  | Err e1, Err e2 => e1 = e2
  | _, _ => False
  end.
Proof.
  induction fuel as [|fuel IH]; intros now s input Hg Hf; [lia|].
  rewrite (run_step (step now) busy), step_feed by apply Hg. cbn [pump]. unfold stepped.
  destruct (feed s input now) as [s1 [[n e]|e]] eqn:Hs; cbn [seen]; [|done].
  pose proof (feed_good _ _ _ _ _ Hg Hs) as Hg1.
  destruct (Nat.eqb_spec n 0) as [->|Hn].
  { apply feed_nothing in Hs as ->; [|apply Hg]. split; [done|]. split; [apply normal_of_settled | done]. }
  destruct input as [|b input].
  { pose proof (step_bound now s [] (normal s1) (events e) n) as Hb.
    rewrite step_feed in Hb by apply Hg. unfold stepped in Hb. rewrite Hs in Hb. cbn [seen] in Hb.
    rewrite (proj2 (Nat.eqb_neq n 0) Hn) in Hb. specialize (Hb eq_refl). cbn in Hb. lia. }
  specialize (IH now s1 (drop n (b :: input)) Hg1 ltac:(rewrite length_drop; cbn [length] in *; lia)).
  pose proof (normal_run now s1 (normal s1) (drop n (b :: input)) ltac:(by rewrite normal_idem)) as Hr.
  destruct (pump fuel now s1 _) as [[[s2 ev2] n2]|e2], (run (step now) busy s1 _) as [[[s3 ev3] n3]|e3],
    (run (step now) busy (normal s1) _) as [[[s4 ev4] n4]|e4]; try done; [|by subst].
  destruct IH as (? & ? & -> & ->), Hr as (? & -> & ->). split; [done|]. split; [|done]. unfold agree in *. congruence.
Qed.

(** The loop over reads is that of [Machine]. *)
Lemma receive_deliver reads : forall now s s' left, good s -> agree s s' ->
  match receive now s left reads, deliver (step now) busy s' left reads with
  | Ok (s1, ev1, left1), Ok (s2, ev2, left2) => good s1 /\ agree s1 s2 /\ ev1 = ev2 /\ left1 = left2
  | Err e1, Err e2 => e1 = e2
  | _, _ => False
  end.
Proof.
  induction reads as [|read reads IH]; intros now s s' left Hg Ha; cbn [receive deliver]; [done|].
  pose proof (pump_run (S (length (left ++ read))) now s (left ++ read) Hg ltac:(lia)) as Hp.
  pose proof (normal_run now s s' (left ++ read) Ha) as Hr.
  destruct (pump _ now s _) as [[[s1 ev1] n1]|e1], (run (step now) busy s _) as [[[s2 ev2] n2]|e2],
    (run (step now) busy s' _) as [[[s3 ev3] n3]|e3]; try done; [|by subst].
  destruct Hp as (Hg1 & Ha1 & -> & ->), Hr as (Ha2 & -> & ->).
  specialize (IH now s1 s3 (drop n3 (left ++ read)) Hg1 ltac:(unfold agree in *; congruence)).
  destruct (receive now s1 _ reads) as [[[s4 ev4] l4]|e4], (deliver _ _ s3 _ reads) as [[[s5 ev5] l5]|e5]; try done.
  destruct IH as (? & ? & -> & ->). done.
Qed.

(** ** The receiving side on frames *)

Record Talk : Type := MkTalk {
  talk_limits : Limits.WebSocketLimits;
  in_progress : option (Kind * bytes);
  talk_fragments : Z;
  talk_controls : Z;
  talk_open : bool;
  talk_closed : bool;
}.

(** A text so far is one that can still become UTF-8. *)
Definition viable (kind : Kind) (text : bytes) : bool :=
  match kind with
  | KText => match steps_any Utf8.new text with Some _ => true | None => false end
  | KBinary => true
  end.

Lemma viable_spec text : octets text -> viable KText text = true <-> exists more, Utf8.utf8 (text ++ more).
Proof.
  intros Ho. unfold viable. rewrite steps_any_octets by done. split.
  - destruct (steps Utf8.new text) as [u|] eqn:Hs; [|done]. intros _.
    destruct (steps_new _ _ Hs) as (w & p & -> & Hw & Hp). destruct (inside_completes _ _ Hp) as [q Hq].
    exists q. rewrite <- app_assoc. by apply utf8_app.
  - intros [more Hu%utf8_steps]. rewrite steps_app in Hu. by destruct (steps Utf8.new text).
Qed.

(** The answer to a Close or to a violation: nothing when a Close was sent. *)
Definition closing (t : Talk) (code : CloseCode) : bytes :=
  if talk_open t then write OpClose (if code =? NO_STATUS then [] else to_be 2 code) [] else [].

(** What one frame does: the state after it, what is reported and what is sent; or the
    code the connection fails with and the Close that is sent. *)
Definition hear (t : Talk) (f : Frame) : result (CloseCode * bytes) (Talk * list Event * bytes) :=
  let violation code := Err (code, closing t code) in
  let 'MkTalk limits m frags controls open closed := t in
  let payload := frame_payload f in
  if closed then Ok (t, [], [])
  else if is_control (frame_opcode f) then
    let controls := saturating_add 32 controls 1 in
    let t' := MkTalk limits m frags controls open false in
    if Limits.websocket_max_control_frames_per_second limits <? controls then violation POLICY_VIOLATION
    else
      match frame_opcode f with
      | Ping => Ok (t', [EventPing payload], write Pong payload [])
      | Pong => Ok (t', [EventPong payload], [])
      | _ =>
          match WsClose.parse payload with
          | Err code => violation code
          | Ok close => Ok (MkTalk limits m frags controls false true, [EventClose close], closing t (code close))
          end
      end
  else
    match kind_of (frame_opcode f) (fst <$> m) with
    | None => violation PROTOCOL_ERROR
    | Some kind =>
        let text := match m with Some (_, text) => text | None => [] end in
        let frags := saturating_add 32 frags 1 in
        if (Limits.websocket_max_message limits <? saturating_add 64 (len text) (len payload))
           || (Limits.websocket_max_fragments limits <? frags)
        then violation MESSAGE_TOO_BIG
        else
          let text := text ++ payload in
          if frame_fin f then
            let t' := MkTalk limits None 0 controls open false in
            match kind with
            | KText => if from_utf8 text then Ok (t', [EventText text], []) else violation INVALID_PAYLOAD
            | KBinary => Ok (t', [EventBinary text], [])
            end
          else if viable kind text then Ok (MkTalk limits (Some (kind, text)) frags controls open false, [], [])
          else violation INVALID_PAYLOAD
    end.

Fixpoint hear_all (t : Talk) (frames : list Frame) : result (CloseCode * bytes) (Talk * list Event * bytes) :=
  match frames with
  | [] => Ok (t, [], [])
  | f :: frames =>
      let? (t, ev, answer) := hear t f in
      match hear_all t frames with
      | Ok (t, ev', answers) => Ok (t, ev ++ ev', answer ++ answers)
      | Err (code, answers) => Err (code, answer ++ answers)
      end
  end.

(** The octets of a client's frame: masking is its own inverse. *)
Definition frame_text (f : Frame) : bytes :=
  header_text (frame_fin f) (frame_opcode f) (len (frame_payload f)) (frame_mask f)
  ++ unmask (frame_payload f) (frame_mask f).

Definition frame_ok (f : Frame) : Prop :=
  header_ok (frame_fin f) (frame_opcode f) (len (frame_payload f)) (frame_mask f).

(** ** The session refines it *)

Record sim (now : Z) (t : Talk) (s : Session) : Prop := {
  sim_limits : limits s = talk_limits t;
  sim_state : state s = if talk_closed t then Closed_ else if talk_open t then Open else CloseSent;
  sim_received : talk_closed t = false -> close_received s = None;
  sim_partial : talk_closed t = false -> partial s = None;
  sim_normal : normal s = s;
  sim_fragments : fragments s = talk_fragments t;
  sim_controls : control_frames s = talk_controls t;
  sim_window : now < saturating_add 64 (window_start s) CONTROL_WINDOW_MS \/ talk_controls t = 0;
  sim_message :
    match in_progress t with
    | None => message s = None
    | Some (kind, text) =>
        message s = Some kind /\ buffer s = text /\
        match kind with KText => steps_any Utf8.new text = Some (utf8 s) | KBinary => utf8 s = Utf8.new end
    end;
}.

Definition start (limits : Limits.WebSocketLimits) : Talk := MkTalk limits None 0 0 true false.

Lemma start_sim now limits : sim now (start limits) (new limits).
Proof. split; cbn; try done. by right. Qed.

Lemma write_app opcode payload out : write opcode payload out = out ++ write opcode payload [].
Proof. unfold write. by destruct (encode true opcode (len payload)). Qed.

Lemma write_close_output code s :
  is_valid code = true \/ code = NO_STATUS ->
  output (write_close code s) = output s ++ write OpClose (if code =? NO_STATUS then [] else to_be 2 code) [].
Proof.
  intros H. unfold write_close, WsClose.body. destruct (Z.eqb_spec code NO_STATUS) as [->|Hne].
  - destruct s. cbn. apply write_app.
  - destruct H as [Hv|]; [|done]. rewrite Hv. cbn [negb orb].
    change (MAX_REASON <? length (@nil Z))%nat with false. cbv iota. cbn [length Nat.add app].
    destruct s. cbn -[to_be write]. rewrite (take_app_length' (to_be 2 code)) by done. apply write_app.
Qed.

Lemma closing_failed now t s code : sim now t s -> talk_closed t = false -> is_valid code = true ->
  failed_output code s = output s ++ closing t code.
Proof.
  intros H Hc Hv. unfold failed_output, fail, closing. rewrite (sim_state _ _ _ H), Hc.
  destruct (talk_open t).
  - rewrite bool_decide_eq_true_2 by done. cbn [fst].
    replace (output (with_state Failed (write_close code s))) with (output (write_close code s))
      by (unfold write_close; destruct (WsClose.body _ _ _); by destruct s).
    apply write_close_output. by left.
  - rewrite bool_decide_eq_false_2 by done. rewrite app_nil_r. by destruct s.
Qed.

Lemma normal_iff s :
  normal s = s <->
  match message s with
  | None => partial s = None /\ utf8 s = Utf8.new /\ delivered s = false /\ buffer s = []
  | Some _ => delivered s = false
  end.
Proof.
  destruct s as [l st cr [k|] p b [|] u f w c o]; unfold normal, settled; cbn; split; try done.
  - by intros (_ & _ & ? & _).
  - by intros [= <- <- <-].
  - by intros (-> & -> & _ & ->).
Qed.

Lemma same_normal s s' : same_message s s' -> normal s = s -> normal s' = s'.
Proof. intros (Hm & Hp & Hu & Hb & Hd). rewrite !normal_iff. by rewrite Hm, Hp, Hu, Hb, Hd. Qed.

Lemma output_with_state st s : output (with_state st s) = output s.
Proof. by destruct s. Qed.

Lemma sim_output now t s o : sim now t s -> sim now t (with_output o s).
Proof.
  intros [? ? ? ? Hn ? ? ? ?]. split; try (by destruct s). apply (same_normal s); [by destruct s | done].
Qed.

Lemma sim_close now t s code :
  sim now t s ->
  sim now (MkTalk (talk_limits t) (in_progress t) (talk_fragments t) (talk_controls t) false true)
    (with_state Closed_ (with_close_received code s)).
Proof.
  intros [? ? ? ? Hn ? ? ? ?]. split; try (by destruct s). apply (same_normal s); [by destruct s | done].
Qed.

(** A control frame is charged to the budget of the second. *)
Definition charged (now : Z) (s : Session) : Session :=
  let s := if saturating_add 64 (window_start s) CONTROL_WINDOW_MS <=? now then with_window now 0 s else s in
  with_window (window_start s) (saturating_add 32 (control_frames s) 1) s.

Lemma sim_charged now t s :
  sim now t s -> now < 2 ^ 64 - 1 -> talk_closed t = false ->
  let t' := MkTalk (talk_limits t) (in_progress t) (talk_fragments t) (saturating_add 32 (talk_controls t) 1)
              (talk_open t) false in
  sim now t' (charged now s) /\ output (charged now s) = output s.
Proof.
  intros [? Hst ? ? Hn ? Hc Hw ?] Hnow Hcl.
  assert (normal (charged now s) = charged now s) as Hn'.
  { apply (same_normal s); [|done]. unfold charged. by destruct (_ <=? _), s. }
  revert Hn'. destruct s as [l st cr m p b d u f w c o']. unfold charged.
  cbn -[saturating_add] in *. rewrite Hcl in *. assert (now < saturating_add 64 now CONTROL_WINDOW_MS) as Hnext
    by (unfold saturating_add, CONTROL_WINDOW_MS; lia).
  destruct (Z.leb_spec (saturating_add 64 w CONTROL_WINDOW_MS) now) as [Hr|Hr]; cbn -[saturating_add].
  - destruct Hw as [Hw|Hw]; [lia|]. intros Hn'. split; [|done]. split; cbn -[saturating_add]; try done; [by rewrite Hw|by left].
  - intros Hn'. split; [|done]. split; cbn -[saturating_add]; try done; [by rewrite Hc|by left].
Qed.

Lemma parse_valid payload close : WsClose.parse payload = Ok close ->
  is_valid (code close) = true \/ code close = NO_STATUS.
Proof.
  unfold WsClose.parse. destruct payload as [|a [|b l]]; [intros [= <-]; by right | done |].
  destruct (is_valid _) eqn:Hv; [|done]. destruct (from_utf8 l); [|done]. intros [= <-]. by left.
Qed.

(** What a call on a whole frame must do for the specification. *)
Definition refines (now : Z) (s : Session) (n : nat)
    (got : result (CloseCode * bytes) (option (Session * list Event * nat)))
    (spec : result (CloseCode * bytes) (Talk * list Event * bytes)) : Prop :=
  match spec with
  | Err (code, answer) => got = Err (code, output s ++ answer)
  | Ok (t', ev, answer) =>
      exists s', got = Ok (Some (s', ev, n)) /\ sim now t' s' /\ output s' = output s ++ answer
  end.

Lemma refines_ok now t' s s' n e answer : (0 < n)%nat ->
  sim now t' s' -> output s' = output s ++ answer ->
  refines now s n (stepped (s', Ok (MkStep n e))) (Ok (t', events e, answer)).
Proof.
  intros Hn Hs Ho. exists s'. unfold stepped. cbn [seen].
  rewrite (proj2 (Nat.eqb_neq n 0)) by lia. rewrite (sim_normal _ _ _ Hs). done.
Qed.

Lemma control_refines now t s h payload input n :
  sim now t s -> now < 2 ^ 64 - 1 -> talk_closed t = false -> is_control (opcode h) = true ->
  get_range (header_len h) (header_len h + Z.to_nat (payload_len h)) input = Some (unmask payload (mask h)) ->
  n = (header_len h + Z.to_nat (payload_len h))%nat -> (0 < n)%nat ->
  refines now s n (stepped (control s h input now)) (hear t (MkFrame (fin h) (opcode h) (mask h) payload)).
Proof.
  intros Hs Hnow Hcl Hop Hg -> Hn. unfold control. rewrite Hg, unmask_twice.
  destruct (sim_charged now t s Hs Hnow Hcl) as [Hs1 Ho1]. fold (charged now s).
  set (s1 := charged now s) in *. clearbody s1. destruct t as [limits m frags controls open closed].
  cbn [talk_limits in_progress talk_fragments talk_controls talk_open talk_closed] in *. subst closed.
  unfold hear. cbn [frame_opcode frame_payload]. rewrite Hop.
  set (t := MkTalk limits m frags controls open false). set (t1 := MkTalk limits m frags (saturating_add 32 controls 1) open false) in *.
  assert (forall code, is_valid code = true -> stepped (failed code s1) = Err (code, output s ++ closing t code)) as Hfail.
  { intros code Hv. unfold stepped. rewrite seen_failed, (closing_failed now t1 s1 code Hs1 eq_refl Hv), Ho1. done. }
  rewrite (sim_limits _ _ _ Hs1), (sim_controls _ _ _ Hs1). cbn [talk_limits talk_controls t1].
  destruct (_ <? _); [by apply Hfail|].
  assert (forall e, refines now s (header_len h + Z.to_nat (payload_len h))
    (stepped (s1, Ok (MkStep (header_len h + Z.to_nat (payload_len h)) (Some e)))) (Ok (t1, [e], []))) as Hsame.
  { intros e. apply (refines_ok _ _ _ _ _ (Some e)); [done..|]. by rewrite app_nil_r. }
  destruct (opcode h); try done; [|rewrite (sim_received _ _ _ Hs1) by done].
  - destruct (WsClose.parse payload) as [cl|e] eqn:Hp.
    2: { apply Hfail. unfold WsClose.parse in Hp. destruct payload as [|a [|b l]]; [done|by injection Hp as <-|].
         destruct (negb _); [by injection Hp as <-|]. destruct (from_utf8 l); [done|by injection Hp as <-]. }
    apply (refines_ok _ _ _ _ _ (Some (EventClose cl))); [done| |].
    + pose proof (sim_close now t1 s1 (Some (code cl)) Hs1) as Hc.
      case_bool_decide; [|done]. unfold write_close. destruct (WsClose.body _ _ _) as [b r].
      apply (sim_output _ _ _ (write OpClose (take match r with Ok len => len | Err _ => 0%nat end b) (output s1))) in Hc.
      by destruct s1.
    + pose proof (sim_state _ _ _ Hs1) as Hst. cbn in Hst. unfold closing. cbn [talk_open t].
      replace (state (with_close_received (Some (code cl)) s1)) with (state s1) by by destruct s1.
      rewrite Hst. destruct open.
      * rewrite bool_decide_eq_true_2 by done.
        rewrite output_with_state, write_close_output by by apply parse_valid with payload.
        rewrite <- Ho1. by destruct s1.
      * rewrite bool_decide_eq_false_2, app_nil_r, <- Ho1 by done. by destruct s1.
  - apply (refines_ok _ _ _ _ _ (Some (EventPing payload))); [done| |].
    + unfold write_frame. by apply sim_output.
    + unfold write_frame. rewrite write_app, Ho1. by destruct s1.
Qed.

(** The text so far, and what the validator makes of it with the payload. *)
Definition so_far (t : Talk) : bytes := match in_progress t with Some (_, text) => text | None => [] end.

Lemma sim_so_far now t s : sim now t s -> message s = fst <$> in_progress t /\ buffer s = so_far t.
Proof.
  intros H. pose proof (sim_message _ _ _ H) as Hm. pose proof (proj1 (normal_iff s) (sim_normal _ _ _ H)) as Hn.
  unfold so_far. destruct (in_progress t) as [[k text]|].
  - by destruct Hm as (-> & -> & _).
  - rewrite Hm in *. by destruct Hn as (_ & _ & _ & ->).
Qed.

Definition validated (kind : Kind) (text : bytes) : option Utf8Validator :=
  match kind with KText => steps_any Utf8.new text | KBinary => Some Utf8.new end.

Lemma viable_validated kind text :
  viable kind text = match validated kind text with Some _ => true | None => false end.
Proof. by destruct kind. Qed.

Lemma sim_checked now t s h kind payload :
  sim now t s -> kind_of (opcode h) (message s) = Some kind ->
  checked (begun s h kind) payload = validated kind (so_far t ++ payload).
Proof.
  intros H Hk. pose proof (sim_message _ _ _ H) as Hm. pose proof (proj1 (normal_iff s) (sim_normal _ _ _ H)) as Hn.
  unfold so_far, checked. destruct (in_progress t) as [[k text]|].
  - destruct Hm as (Hm & _ & Hu). rewrite Hm in Hk. destruct (opcode h); try done. injection Hk as ->.
    destruct s, kind; cbn in *.
    + by rewrite bool_decide_eq_true_2, steps_any_app, Hu by done.
    + by rewrite bool_decide_eq_false_2, Hu by done.
  - rewrite Hm in Hn. destruct Hn as (_ & Hu & _). cbn [app]. destruct s, kind; cbn in *; subst.
    + by rewrite bool_decide_eq_true_2 by done.
    + by rewrite bool_decide_eq_false_2 by done.
Qed.

Lemma finished_sim now t s : sim now t s -> is_finished s = talk_closed t.
Proof. intros H. unfold is_finished. rewrite (sim_state _ _ _ H). by destruct (talk_closed t), (talk_open t). Qed.

(** The session once the payload of a data frame is gathered, and once the message is
    handed out. *)
Lemma sim_gathered now t s h kind payload u :
  sim now t s -> talk_closed t = false -> validated kind (so_far t ++ payload) = Some u ->
  let s' := gathered (MkPartial (fin h) (mask h) (len payload) 0) (length payload) u payload (begun s h kind) in
  sim now (MkTalk (talk_limits t) (Some (kind, so_far t ++ payload)) (saturating_add 32 (talk_fragments t) 1)
            (talk_controls t) (talk_open t) false) s' /\
  sim now (MkTalk (talk_limits t) None 0 (talk_controls t) (talk_open t) false)
    (normal (with_delivered true (with_fragments 0 (with_message None s')))) /\
  output s' = output s /\ message s' = Some kind /\ utf8 s' = u /\ buffer s' = so_far t ++ payload.
Proof.
  intros H Hc Hu s'. destruct (sim_so_far _ _ _ H) as [Hm Hb]. pose proof (finished_sim _ _ _ H) as Hl.
  destruct (begun_midway s h kind (sim_normal _ _ _ H) ltac:(congruence)) as [_ _ Hd _].
  destruct H as [Hlim Hst Hcr Hp Hn Hf Hcf Hw _]. rewrite Hc in *. subst s'.
  destruct s as [l st cr m p b d u0 f w c o]. unfold gathered, begun.
  rewrite (proj2 (Z.ltb_ge 0 _)) by (unfold saturating_sub, len; cbn; lia). cbn -[saturating_add] in *. subst d b.
  split; [|split; [|done]]; split; cbn -[saturating_add]; try done; [by subst|].
  split; [done|]. split; [done|]. destruct kind; cbn in Hu; [done | by injection Hu].
Qed.

Lemma hear_data t f : talk_closed t = false -> is_control (frame_opcode f) = false ->
  hear t f =
    (let violation code := Err (code, closing t code) in
     match kind_of (frame_opcode f) (fst <$> in_progress t) with
     | None => violation PROTOCOL_ERROR
     | Some kind =>
         let frags := saturating_add 32 (talk_fragments t) 1 in
         let text := so_far t ++ frame_payload f in
         let talk := MkTalk (talk_limits t) in
         if (Limits.websocket_max_message (talk_limits t)
               <? saturating_add 64 (len (so_far t)) (len (frame_payload f)))
            || (Limits.websocket_max_fragments (talk_limits t) <? frags)
         then violation MESSAGE_TOO_BIG
         else if frame_fin f then
           match kind with
           | KText =>
               if from_utf8 text then Ok (talk None 0 (talk_controls t) (talk_open t) false, [EventText text], [])
               else violation INVALID_PAYLOAD
           | KBinary => Ok (talk None 0 (talk_controls t) (talk_open t) false, [EventBinary text], [])
           end
         else if viable kind text
         then Ok (talk (Some (kind, text)) frags (talk_controls t) (talk_open t) false, [], [])
         else violation INVALID_PAYLOAD
     end).
Proof.
  destruct t as [limits m frags controls open closed]. cbn [talk_closed]. intros -> Hc.
  unfold hear. rewrite Hc. cbn [in_progress talk_limits talk_fragments talk_controls talk_open].
  destruct (kind_of _ _) as [kind|]; [|done]. by destruct (_ || _), (frame_fin f), kind.
Qed.

Lemma finish_seen s kind text :
  message s = Some kind -> buffer s = text -> validated kind text = Some (utf8 s) ->
  exists s', normal s' = normal (with_delivered true (with_fragments 0 (with_message None s))) /\
    output s' = output s /\
    seen (finish_message s) =
      (match kind with
       | KText =>
           if from_utf8 text then Ok (s', Some (EventText text))
           else Err (INVALID_PAYLOAD, failed_output INVALID_PAYLOAD s)
       | KBinary => Ok (s', Some (EventBinary text))
       end).
Proof.
  destruct s as [l st cr m p b d u f w c o]. cbn [message buffer utf8]. intros -> <- Hu. unfold finish_message.
  cbn [message]. destruct kind; [|by eexists].
  cbn -[failed failed_output]. rewrite from_utf8_steps. cbn in Hu. rewrite Hu. cbn [from_option].
  eexists (MkSession l st cr None p b true Utf8.new 0 w c o). split; [done|]. split; [done|].
  destruct (is_complete u) eqn:Hcu; cbn -[failed failed_output].
  - done.
  - rewrite seen_failed. do 2 f_equal. by apply failed_output_eq.
Qed.

Lemma output_normal s : output (normal s) = output s.
Proof. by destruct s as [l st cr [k|] p b [|] u f w c o]. Qed.

Lemma data_refines now t s h payload rest header :
  sim now t s -> talk_closed t = false -> is_control (opcode h) = false ->
  (6 <= header_len h)%nat -> payload_len h = len payload -> length header = header_len h ->
  refines now s (header_len h + length payload)
    (stepped (data s h (header ++ unmask payload (mask h) ++ rest)))
    (hear t (MkFrame (fin h) (opcode h) (mask h) payload)).
Proof.
  intros H Hc Hop Hh Hlen Hhead. destruct (sim_so_far _ _ _ H) as [Hm Hb].
  rewrite data_gather; [| by eapply sim_normal | by rewrite (finished_sim _ _ _ H)
    | rewrite length_app; lia | rewrite Hlen; unfold len; lia].
  rewrite hear_data by done. cbn [frame_opcode frame_payload frame_fin].
  assert (forall code, is_valid code = true ->
    refines now s (header_len h + length payload) (Err (code, failed_output code s)) (Err (code, closing t code))) as Hfail.
  { intros code Hv. cbn. by rewrite (closing_failed now t s). }
  rewrite Hb, Hlen, (sim_limits _ _ _ H), (sim_fragments _ _ _ H), <- Hm.
  destruct (kind_of (opcode h) (message s)) as [kind|] eqn:Hk; [|by apply Hfail].
  destruct (_ || _); [by apply Hfail|].
  rewrite (drop_app_length' header) by done. rewrite gather_seen.
  rewrite (absorb_seen _ (MkPartial (fin h) (mask h) (payload_len h) 0)) by by destruct s.
  cbn [remaining partial_mask offset partial_fin]. rewrite Hlen, unmask_rotate_0.
  assert (Nat.min (Z.to_nat (len payload)) (length (unmask payload (mask h) ++ rest)) = length payload) as ->
    by (unfold len; rewrite length_app, length_unmask; lia).
  rewrite take_app_length' by by rewrite length_unmask. rewrite unmask_twice.
  rewrite (sim_checked _ _ _ _ _ _ H Hk).
  rewrite (proj2 (Z.ltb_ge 0 _)) by (unfold saturating_sub, len; lia). cbn [negb andb].
  rewrite viable_validated. destruct (validated kind (so_far t ++ payload)) as [u|] eqn:Hu.
  2: { rewrite (failed_output_eq _ _ s) by by destruct s.
       destruct kind; [|done]. rewrite from_utf8_steps. cbn in Hu. rewrite Hu.
       destruct (fin h); by apply Hfail. }
  destruct (sim_gathered now t s h kind payload u H Hc Hu) as (Hs1 & Hs2 & Ho & Hm1 & Hu1 & Hb1).
  set (s1 := gathered _ _ _ _ _) in *. clearbody s1.
  assert ((header_len h + length payload =? 0)%nat = false) as Hne by (apply Nat.eqb_neq; lia).
  destruct (fin h).
  - destruct (finish_seen s1 kind _ Hm1 Hb1 ltac:(by rewrite Hu1)) as (s2 & Hn & Ho2 & ->).
    assert (forall e, refines now s (header_len h + length payload)
      (Ok (Some (normal s2, [e], header_len h + length payload)%nat))
      (Ok (MkTalk (talk_limits t) None 0 (talk_controls t) (talk_open t) false, [e], []))) as Hok.
    { intros e. exists (normal s2). rewrite output_normal, Ho2, Ho, app_nil_r, Hn. done. }
    destruct kind; [|rewrite Hne; apply Hok]. destruct (from_utf8 _); [rewrite Hne; apply Hok|].
    rewrite (failed_output_eq _ s1 s); [by apply Hfail | | done].
    rewrite (sim_state _ _ _ Hs1), (sim_state _ _ _ H), Hc. done.
  - rewrite Hne. exists s1. rewrite (sim_normal _ _ _ Hs1), Ho, app_nil_r. done.
Qed.

Lemma frame_text_length f : frame_ok f ->
  length (frame_text f) = (length (header_text (frame_fin f) (frame_opcode f) (len (frame_payload f)) (frame_mask f))
                           + length (frame_payload f))%nat.
Proof. intros _. unfold frame_text. by rewrite length_app, length_unmask. Qed.

Lemma frame_step now t s f rest :
  sim now t s -> now < 2 ^ 64 - 1 -> talk_closed t = false -> frame_ok f ->
  refines now s (length (frame_text f)) (WsReceive.step now s (frame_text f ++ rest)) (hear t f).
Proof.
  intros H Hnow Hc Hf. rewrite frame_text_length by done.
  unfold WsReceive.step. rewrite (sim_normal _ _ _ H).
  rewrite feed_normal by (by eapply sim_normal || by rewrite (finished_sim _ _ _ H)).
  rewrite (sim_partial _ _ _ H Hc). unfold frame_text. rewrite <- app_assoc, decode_text by done.
  set (head := header_text _ _ _ _). cbn [opcode].
  assert (6 <= length head)%nat as Hh by (unfold head; rewrite length_header by apply Hf; lia).
  destruct f as [fin op mask payload]. cbn [frame_fin frame_opcode frame_payload frame_mask] in *.
  set (h := MkHeader fin 0 op mask (len payload) (length head)).
  destruct (is_control op) eqn:Hop.
  - apply (control_refines now t s h payload); try done; cbn [header_len payload_len h WsFrame.mask].
    + unfold len. rewrite Nat2Z.id. unfold get_range. rewrite decide_True by (rewrite !length_app, length_unmask; lia).
      rewrite drop_app_length, <- (length_unmask payload mask).
      replace (length head + length (unmask payload mask) - length head)%nat with (length (unmask payload mask)) by lia.
      by rewrite take_app_length.
    + unfold len. by rewrite Nat2Z.id.
    + lia.
  - by apply (data_refines now t s h payload).
Qed.

Lemma hear_all_closed t frames : talk_closed t = true -> hear_all t frames = Ok (t, [], []).
Proof.
  intros H. induction frames as [|f frames IH]; [done|]. cbn [hear_all].
  assert (hear t f = Ok (t, [], [])) as ->; [|by rewrite IH].
  destruct t as [l m fr c o cl]. cbn in H. by subst cl.
Qed.

Lemma run_closed now s input : is_finished s = true ->
  exists s', run (WsReceive.step now) busy s input = Ok (s', [], length input) /\ normal s' = normal s.
Proof.
  intros H. rewrite (run_step (WsReceive.step now) busy), step_finished by done.
  destruct (Nat.eqb_spec (length input) 0) as [->|Hn]; [by eexists|].
  rewrite drop_all, (run_step (WsReceive.step now) busy), step_finished by by rewrite finished_normal.
  cbn [length Nat.eqb]. exists (normal s). by rewrite Nat.add_0_r, normal_idem.
Qed.

Lemma step_nil now t s : sim now t s -> WsReceive.step now s [] = Ok None.
Proof.
  intros H. destruct (talk_closed t) eqn:Hc.
  - by rewrite step_finished by by rewrite (finished_sim _ _ _ H).
  - unfold WsReceive.step. rewrite (sim_normal _ _ _ H).
    rewrite feed_normal by (by eapply sim_normal || by rewrite (finished_sim _ _ _ H)).
    by rewrite (sim_partial _ _ _ H Hc).
Qed.

Lemma frames_run now frames : now < 2 ^ 64 - 1 -> Forall frame_ok frames -> forall t s, sim now t s ->
  let text := frames ≫= frame_text in
  match hear_all t frames with
  | Ok (t', ev, answers) =>
      exists s', run (WsReceive.step now) busy s text = Ok (s', ev, length text) /\
        sim now t' (normal s') /\ output s' = output s ++ answers
  | Err (code, answers) => run (WsReceive.step now) busy s text = Err (code, output s ++ answers)
  end.
Proof.
  intros Hnow. induction 1 as [|f frames Hf _ IH]; intros t s H text; subst text.
  { cbn [hear_all mbind list_bind]. rewrite (run_step (WsReceive.step now) busy).
    exists s. rewrite (sim_normal _ _ _ H), app_nil_r. split; [|done].
    by rewrite (step_nil now t s H). }
  destruct (talk_closed t) eqn:Hc.
  { rewrite hear_all_closed by done.
    destruct (run_closed now s ((f :: frames) ≫= frame_text) ltac:(by rewrite (finished_sim _ _ _ H))) as (s' & Hr & Hn).
    exists s'. split; [done|]. rewrite Hn, (sim_normal _ _ _ H). split; [done|].
    rewrite <- (output_normal s'), Hn, output_normal. by rewrite app_nil_r. }
  cbn [hear_all]. rewrite bind_cons. pose proof (frame_step now t s f (frames ≫= frame_text) H Hnow Hc Hf) as Hstep.
  rewrite (run_step (WsReceive.step now) busy). unfold refines in Hstep.
  destruct (hear t f) as [[[t1 ev1] answer]|[code answer]]; [|by rewrite Hstep].
  destruct Hstep as (s1 & -> & H1 & Ho1). rewrite drop_app_length. specialize (IH t1 s1 H1).
  destruct (hear_all t1 frames) as [[[t2 ev2] answers]|[code answers]].
  - destruct IH as (s2 & -> & H2 & Ho2). exists s2. rewrite Ho2, Ho1, length_app, app_assoc. done.
  - by rewrite IH, Ho1, app_assoc.
Qed.

(** C7. However the transport cuts the frames of a client, the session reports, answers
    and refuses what the specification on whole frames does.  A message is delivered
    once, when its last fragment is in, with the fragments joined and unmasked; a
    text that is not UTF-8 fails with 1007 at the first frame after which it cannot
    become it, a message past the limits with 1009, a frame out of sequence with 1002
    and a flood of control frames with 1008; a Ping is answered by a Pong with its
    payload, a Close by a Close with its code unless one was sent, and what follows a
    Close is dropped.  All of it happens at one reading of the clock. *)
Theorem session_conversation limits now frames reads :
  Forall frame_ok frames -> now < 2 ^ 64 - 1 -> concat reads = frames ≫= frame_text ->
  match hear_all (start limits) frames with
  | Ok (t, ev, answers) =>
      exists s, receive now (new limits) [] reads = Ok (s, ev, []) /\
        output s = answers /\ sim now t (normal s)
  | Err e => receive now (new limits) [] reads = Err e
  end.
Proof.
  intros Hf Hnow Hreads. pose proof (start_sim now limits) as Hs.
  pose proof (frames_run now frames Hnow Hf _ _ Hs) as Hr.
  pose proof (receive_deliver reads now (new limits) (new limits) [] (new_good _) eq_refl) as Hd.
  rewrite (deliver_concat (WsReceive.step now) busy) in Hd
    by (rewrite (run_step (WsReceive.step now) busy); by rewrite (step_nil now _ _ Hs)).
  cbn [app] in Hd. rewrite Hreads in Hd.
  destruct (hear_all (start limits) frames) as [[[t ev] answers]|[code answers]].
  - destruct Hr as (s' & Hr & Hs' & Ho). rewrite Hr, drop_all in Hd.
    destruct (receive now (new limits) [] reads) as [[[s1 ev1] left]|]; [|done].
    destruct Hd as (_ & Ha & -> & ->). unfold agree in Ha. exists s1. split; [done|].
    rewrite Ha, <- (output_normal s1), Ha, output_normal. done.
  - rewrite Hr in Hd. destruct (receive now (new limits) [] reads) as [[[s1 ev1] left]|]; [done|]. by subst.
Qed.

(** Two fragments of a text around a Ping, then a Close, an octet at a time. *)
Definition said : list Frame :=
  [ MkFrame false Text [1; 2; 3; 4] (bs "he"); MkFrame true Ping [0; 0; 0; 0] (bs "?");
    MkFrame true Continuation [9; 9; 9; 9] (bs "llo"); MkFrame true OpClose [5; 6; 7; 8] [3; 232] ].

Definition said_talk : Talk := MkTalk Limits.WebSocketLimits_DEFAULT None 0 2 false true.

Example hear_said : hear_all (start Limits.WebSocketLimits_DEFAULT) said
  = Ok (said_talk, [EventPing (bs "?"); EventText (bs "hello"); EventClose (MkClose 1000 [])],
        [0x8A; 1; 63; 0x88; 2; 3; 232]).
Proof. vm_compute. reflexivity. Qed.

Lemma session_conversation_witness :
  exists s, receive 5 (new Limits.WebSocketLimits_DEFAULT) [] ((fun b => [b]) <$> (said ≫= frame_text))
    = Ok (s, [EventPing (bs "?"); EventText (bs "hello"); EventClose (MkClose 1000 [])], []) /\
    output s = [0x8A; 1; 63; 0x88; 2; 3; 232] /\ sim 5 said_talk (normal s).
Proof.
  assert (Forall frame_ok said) as Hf.
  { unfold said. repeat apply Forall_cons_2; [..|apply Forall_nil_2];
      (split; [reflexivity|]; split; [vm_compute; split; [discriminate|reflexivity]|];
       discriminate || (intros _; split; [reflexivity | vm_compute; discriminate])). }
  pose proof (session_conversation Limits.WebSocketLimits_DEFAULT 5 said ((fun b => [b]) <$> (said ≫= frame_text))
    Hf ltac:(reflexivity) ltac:(vm_compute; reflexivity)) as H.
  rewrite hear_said in H. exact H.
Defined.
