(* ===== verification/WsSend.v ===== *)
(** * What a session sends

    The octets a session gives to the transport, over any sequence of calls: whole
    frames of a server, in the order Section 5.5.1 of RFC 6455 wants. *)
From S2P Require Import Prelude Scalar Limits Core Utf8 WsClose WsFrame WsSession WsReceive WsConversation.

(** ** Frames of a server *)

Definition sent_text (f : Opcode * bytes) : bytes :=
  first_octet true f.1 :: length_text 0 (len f.2) ++ f.2.

Lemma encode_text opcode n : 0 <= n ->
  (let (header, written) := encode true opcode n in take written header)
  = first_octet true opcode :: length_text 0 n.
Proof.
  intros Hn. unfold encode, length_text.
  assert (Z.lor 0x80 (bits opcode) = first_octet true opcode) as -> by by destruct opcode.
  destruct (n <=? 125); [done|]. destruct (n <=? 0xFFFF).
  - cbn [take]. by rewrite (take_app_length' (to_be 2 n)).
  - cbn [take]. by rewrite take_ge by by rewrite length_to_be.
Qed.

Lemma write_sent opcode payload out : write opcode payload out = out ++ sent_text (opcode, payload).
Proof.
  unfold write, sent_text. pose proof (encode_text opcode (len payload)) as He.
  destruct (encode _ _ _) as [header written]. cbn [fst snd]. rewrite app_assoc, He by (unfold len; lia).
  by rewrite <- app_assoc.
Qed.

(** The body of a Close. *)
Definition close_body (payload : bytes) : Prop :=
  payload = [] \/
  exists code reason, is_valid code = true /\ Utf8.utf8 reason /\ payload = to_be 2 code ++ reason.

Record sendable (f : Opcode * bytes) : Prop := {
  sendable_length : len f.2 < 2 ^ 63;
  sendable_whole : f.1 <> Continuation;
  sendable_control : is_control f.1 = true -> len f.2 <= Z.of_nat MAX_CONTROL_PAYLOAD;
  sendable_text : f.1 = Text -> Utf8.utf8 f.2;
  sendable_close : f.1 = OpClose -> close_body f.2;
}.

(** One Close, and after it nothing but the answers to pings. *)
Definition ordered (open : bool) (frames : list (Opcode * bytes)) : Prop :=
  if open then Forall (fun f => f.1 <> OpClose) frames
  else exists before close after, frames = before ++ close :: after /\ Forall (fun f => f.1 <> OpClose) before /\
       close.1 = OpClose /\ Forall (fun f => f.1 = Pong) after.

Lemma ordered_snoc open frames f :
  ordered open frames -> f.1 <> OpClose -> (open = false -> f.1 = Pong) -> ordered open (frames ++ [f]).
Proof.
  intros Ho Hc Hp. destruct open; cbn in *.
  - apply Forall_app_2; [done | by rewrite Forall_singleton].
  - destruct Ho as (before & close & after & -> & Hb & Hcl & Ha). exists before, close, (after ++ [f]).
    rewrite <- app_assoc. split; [done|]. split; [done|]. split; [done|].
    apply Forall_app_2; [done | rewrite Forall_singleton; by apply Hp].
Qed.

Lemma ordered_close frames f : ordered true frames -> f.1 = OpClose -> ordered false (frames ++ [f]).
Proof. intros Ho Hc. exists frames, f, []. by repeat split. Qed.

(** The octets so far, those written included, are whole frames in order. *)
Definition sent (wire : bytes) (s : Session) : Prop :=
  exists frames, wire ++ output s = frames ≫= sent_text /\ Forall sendable frames /\
    ordered (bool_decide (state s = Open)) frames.

Lemma sent_same wire s s' : sent wire s -> output s' = output s -> state s' = state s -> sent wire s'.
Proof. unfold sent. by intros H -> ->. Qed.

Lemma sent_snoc wire s s' f :
  sent wire s -> output s' = output s ++ sent_text f -> sendable f ->
  (if bool_decide (f.1 = OpClose) then state s = Open /\ state s' <> Open
   else state s' = state s /\ (state s <> Open -> f.1 = Pong)) ->
  sent wire s'.
Proof.
  intros (frames & Hw & Hf & Ho) Hs' Hok Hst. exists (frames ++ [f]).
  rewrite Hs', app_assoc, Hw, bind_app. cbn [mbind list_bind]. rewrite app_nil_r. split; [done|].
  split; [apply Forall_app_2; [done | by rewrite Forall_singleton]|]. case_bool_decide as Hc.
  - destruct Hst as [Hopen Hst]. rewrite bool_decide_eq_true_2 in Ho by done.
    rewrite bool_decide_eq_false_2 by done. by apply ordered_close.
  - destruct Hst as [-> Hp]. apply ordered_snoc; [done..|]. intros Hn%bool_decide_eq_false. by apply Hp.
Qed.

(** ** The calls that write *)

Lemma close_sendable payload : close_body payload -> (length payload <= MAX_CONTROL_PAYLOAD)%nat ->
  sendable (OpClose, payload).
Proof.
  intros Hb Hl. unfold MAX_CONTROL_PAYLOAD in *.
  split; cbn; try done; unfold len; try (intros; unfold MAX_CONTROL_PAYLOAD; lia).
Qed.

Lemma code_close_body code : is_valid code = true \/ code = NO_STATUS ->
  close_body (if code =? NO_STATUS then [] else to_be 2 code).
Proof.
  intros H. destruct (Z.eqb_spec code NO_STATUS) as [|Hne]; [by left|]. right. destruct H as [Hv|]; [|done].
  exists code, []. rewrite app_nil_r. split; [done|]. split; [apply utf8_nil | done].
Qed.

Lemma write_close_sent code s : is_valid code = true \/ code = NO_STATUS ->
  exists payload, output (write_close code s) = output s ++ sent_text (OpClose, payload) /\
    sendable (OpClose, payload).
Proof.
  intros H. exists (if code =? NO_STATUS then [] else to_be 2 code).
  rewrite write_close_output by done. rewrite write_sent. split; [done|].
  apply close_sendable; [by apply code_close_body|]. unfold MAX_CONTROL_PAYLOAD. destruct (code =? NO_STATUS); [|rewrite length_to_be]; cbn; lia.
Qed.

Lemma state_write_close code s : state (write_close code s) = state s.
Proof. unfold write_close. destruct (WsClose.body _ _ _). by destruct s. Qed.

(** A Close is written, and the session is no longer open. *)
Lemma sent_closing wire s code st :
  sent wire s -> is_valid code = true \/ code = NO_STATUS -> st <> Open ->
  sent wire (with_state st (if bool_decide (state s = Open) then write_close code s else s)).
Proof.
  intros Hs Hc Hst. case_bool_decide as Ho.
  - destruct (write_close_sent code s Hc) as (payload & Hout & Hok).
    apply (sent_snoc wire s _ (OpClose, payload)); [done | by rewrite output_with_state | done |].
    split; [done|]. by destruct (write_close code s).
  - destruct Hs as (frames & Hw & Hf & Hord). exists frames. rewrite output_with_state.
    split; [done|]. split; [done|]. destruct s. cbn in *. by rewrite bool_decide_eq_false_2 in Hord |- *.
Qed.

Lemma sent_failed {A} wire code s s' (r : result CloseCode A) :
  sent wire s -> is_valid code = true -> failed code s = (s', r) -> sent wire s'.
Proof.
  unfold failed, fail. intros Hs Hv [= <- _]. apply sent_closing; [done | by left | done].
Qed.

(** ** Receiving *)

Lemma sent_absorb wire s input s' r : sent wire s -> absorb s input = (s', r) -> sent wire s'.
Proof.
  intros Hs. unfold absorb. destruct (partial s) as [p|]; [|by intros [= <- _]].
  case_bool_decide.
  - destruct (Utf8.feed _ _) as [u [[]|]].
    + destruct (_ <? _); intros [= <- _]; apply (sent_same wire s); done || by destruct s.
    + apply sent_failed; [|done]. apply (sent_same wire s); done || by destruct s.
  - destruct (_ <? _); intros [= <- _]; apply (sent_same wire s); done || by destruct s.
Qed.

Lemma sent_finish wire s s' r : sent wire s -> finish_message s = (s', r) -> sent wire s'.
Proof.
  intros Hs. unfold finish_message. destruct (message s) as [[|]|].
  - destruct (negb _); [apply sent_failed; [|done]|intros [= <- _]]; apply (sent_same wire s); done || by destruct s.
  - intros [= <- _]; apply (sent_same wire s); done || by destruct s.
  - intros [= <- _]; apply (sent_same wire s); done || by destruct s.
Qed.

Lemma sent_absorbed wire before s input s' r :
  sent wire s -> absorbed before (absorb s input) = (s', r) -> sent wire s'.
Proof.
  intros Hs. destruct (absorb s input) as [s1 [[n d]|e]] eqn:Ha; apply (sent_absorb wire) in Ha; try done.
  - cbn [absorbed]. destruct d; [|by intros [= <- _]]. destruct (finish_message s1) as [s2 [e|e]] eqn:Hf;
      apply (sent_finish wire) in Hf; try done; by intros [= <- _].
  - by intros [= <- _].
Qed.

Lemma sent_charged wire now s : sent wire s -> sent wire (charged now s).
Proof. intros Hs. apply (sent_same wire s); [done|..]; unfold charged; by destruct (_ <=? now), s. Qed.

(** The payload of a control frame fits one. *)
Lemma decode_control input h : decode input 0 = Ok (Some h) -> is_control (opcode h) = true ->
  payload_len h <= Z.of_nat MAX_CONTROL_PAYLOAD.
Proof.
  destruct input as [|a [|b rest]]; [done..|]. unfold decode.
  destruct (negb _); [done|]. destruct (from_bits _) as [op|]; [|done]. cbn [ok_or].
  destruct (_ && _) eqn:Hc; [done|]. destruct (_ =? 0); [done|].
  destruct (extended_len _ rest) as [[[n k]|]|] eqn:He; [|done..].
  destruct (get_to 4 (drop k rest)) as [m|]; [|done]. intros [= <-]. cbn [opcode payload_len].
  intros Hop. rewrite Hop in Hc. cbn [andb] in Hc. apply orb_false_iff in Hc as [_ Hc%Z.ltb_ge].
  unfold extended_len in He. change (Z.of_nat MAX_CONTROL_PAYLOAD) with 125 in *.
  repeat (case_match; try done; try lia); by injection He as <- _.
Qed.

Lemma sent_control wire s h input now s' r :
  sent wire s -> is_control (opcode h) = true -> payload_len h <= Z.of_nat MAX_CONTROL_PAYLOAD ->
  is_finished s = false ->
  control s h input now = (s', r) -> sent wire s'.
Proof.
  intros Hs Hop Hlen Hl. unfold control. fold (charged now s).
  destruct (get_range _ _ input) as [payload|] eqn:Hg; [|by intros [= <- _]].
  apply (sent_charged wire now) in Hs.
  assert (is_finished (charged now s) = false) as Hl' by (unfold charged; by destruct (_ <=? now), s).
  set (s1 := charged now s) in *. clearbody s1. clear s Hl.
  destruct (_ <? _); [by apply sent_failed|].
  destruct (opcode h); try done.
  - destruct (WsClose.parse _) as [cl|e] eqn:Hp.
    + intros [= <- _]. apply sent_closing; [|by eapply parse_valid | done].
      apply (sent_same wire s1); [done|..]; by destruct s1.
    + apply sent_failed; [done|]. by apply parse_refused with (1 := Hp).
  - destruct (close_received s1); intros [= <- _]; [done|].
    apply (sent_snoc wire s1 _ (Pong, unmask payload (mask h))); [done| | |].
    + unfold write_frame. rewrite write_sent. by destruct s1.
    + assert (len (unmask payload (mask h)) <= Z.of_nat MAX_CONTROL_PAYLOAD) as Hn.
      { unfold get_range in Hg. case_decide; [|done]. injection Hg as <-. unfold len.
        rewrite length_unmask, length_take, length_drop. lia. }
      split; cbn; try done. unfold MAX_CONTROL_PAYLOAD in Hn. pow2. lia.
    + rewrite bool_decide_eq_false_2 by done. split; [by destruct s1 | done].
  - by intros [= <- _].
Qed.

Lemma sent_data wire s h input s' r : sent wire s -> data s h input = (s', r) -> sent wire s'.
Proof.
  intros Hs. unfold data. destruct (kind_of _ _) as [kind|]; [|by apply sent_failed].
  assert (forall n, sent wire (with_fragments n s)) as Hf by (intros n; apply (sent_same wire s); done || by destruct s).
  destruct (_ || _); [by apply sent_failed|].
  destruct (_ && _).
  - assert (sent wire (with_fragments 0 (with_fragments (saturating_add 32 (fragments s) 1) s))) as H0
      by (apply (sent_same wire s); done || by destruct s).
    destruct (get_range _ _ _); [|by apply sent_failed].
    destruct kind; [destruct (from_utf8 _); [|by apply sent_failed]|]; by intros [= <- _].
  - apply sent_absorbed. apply (sent_same wire s); done || by destruct s.
Qed.

Lemma sent_settled wire s : sent wire s -> sent wire (settled s).
Proof. intros Hs. apply (sent_same wire s); [done|..]; by destruct s as [? ? ? ? ? ? [] ? ? ? ? ?]. Qed.

Lemma sent_feed wire s input now s' r : sent wire s -> feed s input now = (s', r) -> sent wire s'.
Proof.
  intros Hs. unfold feed. apply sent_settled in Hs. generalize dependent (settled s). clear s. intros s Hs.
  destruct (is_finished s) eqn:Hl.
  { unfold is_finished in Hl. destruct (state s); try done; by intros [= <- _]. }
  assert (match partial s with
      | Some _ => absorbed 0 (absorb s input)
      | None =>
          match decode input 0 with
          | Err code => failed code s
          | Ok None => (s, Ok (MkStep 0 None))
          | Ok (Some header) =>
              if is_control (opcode header) then control s header input now else data s header input
          end
      end = (s', r) -> sent wire s') as H; [|unfold is_finished in Hl; by destruct (state s)].
  destruct (partial s); [by apply sent_absorbed|].
  destruct (decode input 0) as [[h|]|e] eqn:Hd; [|by intros [= <- _]|].
  - destruct (is_control (opcode h)) eqn:Hop; [|by apply sent_data].
    apply sent_control; try done. by apply decode_control with (1 := Hd).
  - apply sent_failed; [done|]. by apply decode_refused with (1 := Hd).
Qed.

(** ** Any sequence of calls *)

Inductive Call : Type :=
| Feed (input : bytes) (now_ms : Z)
| SendText (text : bytes)
| SendBinary (data : bytes)
| SendPing (data : bytes)
| SendMessage (opcode : Opcode) (payload : bytes)
| SendEncodedPing (payload : bytes)
| EndSession (code : CloseCode) (reason : bytes)
| GoAway
| Written (n : nat).

(** A string is UTF-8 and a slice shorter than 2^63. *)
Definition call_ok (c : Call) : Prop :=
  match c with
  | SendText text => Utf8.utf8 text /\ len text < 2 ^ 63
  | SendBinary data => len data < 2 ^ 63
  | SendMessage _ payload => octets payload /\ len payload < 2 ^ 63
  | EndSession _ reason => Utf8.utf8 reason
  | _ => True
  end.

(** A frame encoded once, then queued with [send_encoded]. *)
Definition encoded (frame : bytes * result Error unit) (s : Session) : Session :=
  match frame with (frame, Ok _) => (send_encoded frame s).1 | _ => s end.

(** The octets the transport took so far, and the session. *)
Definition call (c : Call) (w : bytes * Session) : bytes * Session :=
  let (wire, s) := w in
  match c with
  | Feed input now => (wire, (feed s input now).1)
  | SendText text => (wire, (send_text text s).1)
  | SendBinary data => (wire, (send_binary data s).1)
  | SendPing data => (wire, (ping data s).1)
  | SendMessage opcode payload => (wire, encoded (write_message opcode payload []) s)
  | SendEncodedPing payload => (wire, encoded (write_ping payload []) s)
  | EndSession code reason => (wire, (close code reason s).1)
  | GoAway => (wire, (going_away s).1)
  | Written n => (wire ++ take n (output s), consume_output n s)
  end.

Definition calls (cs : list Call) (w : bytes * Session) : bytes * Session := fold_left (fun w c => call c w) cs w.

Lemma sendable_data op payload :
  op = Text \/ op = Binary -> (op = Text -> Utf8.utf8 payload) -> len payload < 2 ^ 63 -> sendable (op, payload).
Proof. intros [-> | ->] Hu Hl; by split. Qed.

Lemma sent_write_frame wire s op payload :
  sent wire s -> state s = Open -> op <> OpClose -> sendable (op, payload) -> sent wire (write_frame op payload s).
Proof.
  intros Hs Ho Hop Hok. apply (sent_snoc wire s _ (op, payload)); [done| |done|].
  - unfold write_frame. rewrite write_sent. by destruct s.
  - rewrite bool_decide_eq_false_2 by done. split; [by destruct s | done].
Qed.

(** What [start_body] writes is the body of a Close. *)
Lemma start_body_text code reason out r n : Utf8.utf8 reason ->
  start_body code reason out = (r, Ok n) -> close_body (take n r) /\ (length (take n r) <= MAX_CONTROL_PAYLOAD)%nat.
Proof.
  intros Hu. unfold start_body. destruct (Z.eqb_spec code NO_STATUS) as [->|Hne].
  { intros [= <- <-]. split; [by left | apply Nat.le_0_l]. }
  destruct (is_sendable code) eqn:Hs; [|done]. cbn [negb]. destruct (Nat.ltb_spec MAX_REASON (length reason)) as [|Hr]; [done|].
  unfold WsClose.body. destruct (Z.eqb_spec code NO_STATUS); [done|].
  assert (is_valid code = true) as Hv.
  { unfold is_sendable, is_valid, within in *. lia. }
  rewrite Hv, (proj2 (Nat.ltb_ge _ _)) by done. cbn [negb orb map_err]. intros [= <- <-].
  cbn [take]. rewrite take_app_length.
  split; [right; by exists code, reason|].
  cbn [length]. unfold MAX_REASON, MAX_CONTROL_PAYLOAD in *. lia.
Qed.

Lemma sent_close wire s code reason : sent wire s -> Utf8.utf8 reason -> sent wire (close code reason s).1.
Proof.
  intros Hs Hu. unfold close, ensure_open. case_bool_decide as Ho; [|done].
  destruct (start_body code reason _) as [body [n|e]] eqn:Hb; [|done].
  destruct (start_body_text _ _ _ _ _ Hu Hb) as [Hbody Hl].
  apply (sent_snoc wire s _ (OpClose, take n body)); [done| | by apply close_sendable |].
  - cbn [fst]. rewrite output_with_state. unfold write_frame. rewrite write_sent. by destruct s.
  - rewrite bool_decide_eq_true_2 by done. split; [done|]. by destruct s.
Qed.

Lemma sendable_ping payload : (length payload <= MAX_CONTROL_PAYLOAD)%nat -> sendable (Ping, payload).
Proof.
  intros Hn. unfold MAX_CONTROL_PAYLOAD in *. split; cbn; try done; unfold len; [pow2; lia|].
  intros _. unfold MAX_CONTROL_PAYLOAD. lia.
Qed.

Lemma sent_encoded wire s op payload :
  sent wire s -> op <> OpClose -> sendable (op, payload) -> sent wire (encoded (write op payload [], Ok tt) s).
Proof.
  intros Hs Hop Hok. unfold encoded, send_encoded, ensure_open. case_bool_decide; [|done].
  apply (sent_snoc wire s _ (op, payload)); [done| |done|].
  - rewrite write_sent. by destruct s.
  - rewrite bool_decide_eq_false_2 by done. split; [by destruct s | done].
Qed.

Lemma sent_call c wire s wire' s' : call_ok c -> sent wire s -> call c (wire, s) = (wire', s') -> sent wire' s'.
Proof.
  intros Hok Hs. destruct c; cbn [call call_ok] in *; intros [= <- <-].
  - destruct (feed s input now_ms) as [s' r] eqn:Hf. by apply (sent_feed wire) in Hf.
  - unfold send_text, ensure_open. case_bool_decide; [|done]. apply sent_write_frame; [done..|].
    apply sendable_data; tauto.
  - unfold send_binary, ensure_open. case_bool_decide; [|done]. apply sent_write_frame; [done..|].
    apply sendable_data; [tauto | done | done].
  - unfold ping, ensure_open. case_bool_decide; [|done].
    destruct (Nat.ltb_spec MAX_CONTROL_PAYLOAD (length data)); [done|].
    apply sent_write_frame; [done..|]. by apply sendable_ping.
  - destruct Hok as [Ho Hl]. unfold write_message. destruct opcode; try done.
    + destruct (from_utf8 payload) eqn:Hu; [|done]. apply sent_encoded; [done..|].
      apply sendable_data; [tauto | intros _; by apply from_utf8_spec | done].
    + apply sent_encoded; [done..|]. apply sendable_data; [tauto | done | done].
  - unfold write_ping. destruct (Nat.ltb_spec MAX_CONTROL_PAYLOAD (length payload)); [done|].
    apply sent_encoded; [done..|]. by apply sendable_ping.
  - by apply sent_close.
  - apply sent_close; [done | apply utf8_nil].
  - destruct Hs as (frames & Hw & Hf & Ho). exists frames. unfold consume_output.
    assert (output (with_output (drop (Nat.min n (length (output s))) (output s)) s)
            = drop (Nat.min n (length (output s))) (output s)) as -> by by destruct s.
    assert (take n (output s) = take (Nat.min n (length (output s))) (output s)) as ->.
    { destruct (Nat.le_gt_cases n (length (output s))); [by rewrite Nat.min_l|].
      rewrite Nat.min_r by lia. by rewrite !take_ge by lia. }
    rewrite <- app_assoc, take_drop. split; [done|]. split; [done|]. by destruct s.
Qed.

Lemma sent_calls cs : Forall call_ok cs -> forall wire s, sent wire s ->
  sent (calls cs (wire, s)).1 (calls cs (wire, s)).2.
Proof.
  induction 1 as [|c cs Hc _ IH]; intros wire s Hs; [done|]. unfold calls. cbn [fold_left].
  destruct (call c (wire, s)) as [wire' s'] eqn:Hcall. apply IH. by apply (sent_call c wire s).
Qed.

(** C8. Whatever a client sends and the application calls, in any order and however the
    transport takes the octets, what goes out is a sequence of whole frames without a
    mask: no reserved bit, never a fragment, texts and close reasons UTF-8, control
    frames of at most 125 octets, a Close with no body or with a code that may be
    sent.  There is at most one Close, and none while the session is open; after it
    nothing is sent but the Pongs that answer pings. *)
Theorem sent_frames limits cs : Forall call_ok cs ->
  let (wire, s) := calls cs ([], new limits) in
  exists frames, wire ++ output s = frames ≫= sent_text /\ Forall sendable frames /\
    ordered (bool_decide (state s = Open)) frames.
Proof.
  intros Hcs. pose proof (sent_calls cs Hcs [] (new limits)) as H.
  destruct (calls cs ([], new limits)) as [wire s]. apply H. exists []. split; [done|]. split; apply Forall_nil_2.
Qed.

(** The application ends the session, and a ping that was under way is answered. *)
Lemma sent_frames_witness :
  let w := calls [SendText (bs "hi"); EndSession 1000 []; Written 3; Feed [0x89; 0x81; 0; 0; 0; 0; 63] 0]
             ([], new Limits.WebSocketLimits_DEFAULT) in
  w.1 ++ output w.2 = [0x81; 2; 104; 105; 0x88; 2; 3; 232; 0x8A; 1; 63] /\
  exists frames, w.1 ++ output w.2 = frames ≫= sent_text /\ Forall sendable frames /\ ordered false frames.
Proof.
  split; [vm_compute; reflexivity|].
  assert (Forall call_ok [SendText (bs "hi"); EndSession 1000 []; Written 3; Feed [0x89; 0x81; 0; 0; 0; 0; 63] 0]) as Hcs.
  { repeat apply Forall_cons_2; [|apply utf8_nil | exact I | exact I | apply Forall_nil_2].
    split; [|reflexivity]. apply from_utf8_spec; [repeat constructor; word_lia | vm_compute; reflexivity]. }
  exact (sent_frames Limits.WebSocketLimits_DEFAULT _ Hcs).
Defined.

(** ** A session that failed *)

Lemma output_fail code s : is_valid code = true ->
  output (fail code s).1 = output s ++ (if bool_decide (state s = Open) then sent_text (OpClose, to_be 2 code) else []).
Proof.
  intros Hv. unfold fail. cbn [fst]. rewrite output_with_state. case_bool_decide; [|by rewrite app_nil_r].
  rewrite write_close_output by by left. rewrite write_sent. do 2 f_equal.
  destruct (Z.eqb_spec code NO_STATUS) as [->|]; done.
Qed.

(** C28. A refused call gives a code that may be sent, and ends the session: it sends one
    Close with that code, or nothing when a Close was sent already, then takes what
    still arrives without looking at it, and refuses what the application sends. *)
Theorem session_failure s input now s' code :
  feed s input now = (s', Err code) ->
  state s' = Failed /\ is_valid code = true /\
  output s' = output s ++ (if bool_decide (state s = Open) then sent_text (OpClose, to_be 2 code) else []) /\
  forall later, let (s2, r) := feed s' later.1 later.2 in
    r = Ok (MkStep (length later.1) None) /\ state s2 = Failed /\ output s2 = output s' /\
    forall text code reason, send_text text s2 = (s2, Err Closed) /\ send_binary text s2 = (s2, Err Closed) /\
      ping text s2 = (s2, Err Closed) /\ close code reason s2 = (s2, Err Closed).
Proof.
  intros H. pose proof (feed_fails now s input) as Hf. rewrite H in Hf.
  destruct Hf as (Hv & s1 & Hs1 & Ho1 & ->).
  assert (state (fail code s1).1 = Failed) as Hst.
  { unfold fail. cbn [fst]. by destruct (if bool_decide _ then _ else _). }
  split; [done|]. split; [done|]. split; [by rewrite output_fail, Hs1, Ho1|].
  set (s' := (fail code s1).1) in *. clearbody s'. clear H Hs1 Ho1.
  intros [later at_]. cbn [fst snd]. rewrite feed_finished by (unfold is_finished; by rewrite Hst).
  split; [done|]. assert (state (settled s') = Failed) as Hst' by by destruct s' as [? ? ? ? ? ? [] ? ? ? ? ?].
  split; [done|]. split; [by destruct s' as [? ? ? ? ? ? [] ? ? ? ? ?]|].
  intros. unfold send_text, send_binary, ping, close, ensure_open. by rewrite Hst', bool_decide_eq_false_2.
Qed.

(** A frame without a mask fails with 1002. *)
Lemma session_failure_witness :
  let s := (feed (new Limits.WebSocketLimits_DEFAULT) [0x81; 0x01; 65] 0).1 in
  state s = Failed /\ output s = [0x88; 2; 3; 234].
Proof.
  assert (feed (new Limits.WebSocketLimits_DEFAULT) [0x81; 0x01; 65] 0
    = ((feed (new Limits.WebSocketLimits_DEFAULT) [0x81; 0x01; 65] 0).1, Err PROTOCOL_ERROR)) as H
    by (vm_compute; reflexivity).
  destruct (session_failure _ _ _ _ _ H) as (Hs & _ & Ho & _). split; [exact Hs|].
  cbv zeta. rewrite Ho. vm_compute. reflexivity.
Defined.
