(* ===== verification/Base64.v ===== *)
(** * Base 64 and base64url

    [zero-base64/src/lib.rs]: the encoder and the strict decoder, into a caller's
    buffer and into a new one; a function that writes a buffer returns it.  The
    encodings are in bijection with the octet strings: the decoder accepts the text of
    an octet string and nothing else. *)
From S2P Require Import Prelude.

Inductive Alphabet : Type := Standard | UrlSafe.
#[global] Instance Alphabet_eq_dec : EqDecision Alphabet.
Proof. solve_decision. Defined.

Definition table (self : Alphabet) : bytes :=
  match self with
  | Standard => bs "ABCDEFGHIJKLMNOPQRSTUVWXYZabcdefghijklmnopqrstuvwxyz0123456789+/"
  | UrlSafe => bs "ABCDEFGHIJKLMNOPQRSTUVWXYZabcdefghijklmnopqrstuvwxyz0123456789-_"
  end.

Definition between (lo hi byte : Z) : bool := (lo <=? byte) && (byte <=? hi).

Definition value (self : Alphabet) (byte : Z) : option Z :=
  if between 65 90 byte then Some (wrapping_sub 8 byte 65)
  else if between 97 122 byte then Some (wrapping_add 8 (wrapping_sub 8 byte 97) 26)
  else if between 48 57 byte then Some (wrapping_add 8 (wrapping_sub 8 byte 48) 52)
  else if (byte =? 43) && bool_decide (self = Standard) then Some 62
  else if (byte =? 47) && bool_decide (self = Standard) then Some 63
  else if (byte =? 45) && bool_decide (self = UrlSafe) then Some 62
  else if (byte =? 95) && bool_decide (self = UrlSafe) then Some 63
  else None.

Definition PAD : Z := 61.

Inductive DecodeError : Type :=
| InvalidByte (offset : nat) (byte : Z)
| InvalidLength
| InvalidPadding
| NonZeroPadBits
| Full.
#[global] Instance DecodeError_eq_dec : EqDecision DecodeError.
Proof. solve_decision. Defined.

Definition encoded_len (len : Z) (pad : bool) : option Z :=
  let whole := len / 3 in
  let rest := len mod 3 in
  let! full := checked_mul 64 whole 4 in
  let tail := if rest =? 0 then 0 else if pad then 4 else if rest =? 1 then 2 else 3 in
  checked_add 64 full tail.

Definition decoded_len (len : Z) : Z :=
  let whole := len / 4 in
  let rest := len mod 4 in
  let tail := if rest =? 0 then 0 else if rest =? 2 then 1 else 2 in
  saturating_add 64 (saturating_mul 64 whole 3) tail.

(** [wrapping_shl] on an octet, by less than eight. *)
Definition shl (x s : Z) : Z := Z.shiftl x s mod 256.
Definition shr (x s : Z) : Z := Z.shiftr x s.

(** The values put into the output for each group of three octets, and for the rest. *)
Fixpoint sextets (input : bytes) : list Z :=
  match input with
  | a :: b :: c :: rest =>
      [ shr a 2; Z.lor (shl (Z.land a 0x03) 4) (shr b 4);
        Z.lor (shl (Z.land b 0x0F) 2) (shr c 6); Z.land c 0x3F ] ++ sextets rest
  | [a; b] => [ shr a 2; Z.lor (shl (Z.land a 0x03) 4) (shr b 4); shl (Z.land b 0x0F) 2 ]
  | [a] => [ shr a 2; shl (Z.land a 0x03) 4 ]
  | [] => []
  end.

Definition glyph (alphabet : Alphabet) (value : Z) : Z :=
  nth (Z.to_nat (Z.land value 0x3F)) (table alphabet) PAD.

(** The buffer after the call: a value past the end of the window has no slot. *)
Definition encode_slice (input : bytes) (alphabet : Alphabet) (pad : bool) (out : bytes)
  : bytes * result DecodeError nat :=
  match encoded_len (len input) pad with
  | None => (out, Err Full)
  | Some needed =>
      let needed := Z.to_nat needed in
      match get_to needed out with
      | None => (out, Err Full)
      | Some window =>
          let text := take needed (glyph alphabet <$> sextets input) in
          let left := drop (length text) window in
          (text ++ (if pad then replicate (length left) PAD else left) ++ drop needed out, Ok needed)
      end
  end.

(** The table is ASCII, so the octets are a string. *)
Definition encode (input : bytes) (alphabet : Alphabet) (pad : bool) : bytes :=
  let needed := Z.to_nat (default 0 (encoded_len (len input) pad)) in
  let (out, r) := encode_slice input alphabet pad (replicate needed 0) in
  take (match r with Ok written => written | Err _ => 0%nat end) out.

(** The octets before the trailing pads, and the number of pads. *)
Definition split_padding (input : bytes) (padded : bool) : result DecodeError (bytes * nat) :=
  let pads := match position (fun byte => negb (byte =? PAD)) (reverse input) with
              | Some n => n
              | None => length input
              end in
  if negb padded then if (pads =? 0)%nat then Ok (input, 0%nat) else Err InvalidPadding
  else if negb (len input mod 4 =? 0) then Err InvalidLength
  else if (2 <? pads)%nat then Err InvalidPadding
  else Ok (take (length input - pads) input, pads).

(** The values of a chunk of at most four octets; the missing ones are zero. *)
Fixpoint values_from (chunk : bytes) (offset : nat) (alphabet : Alphabet) : result DecodeError (list Z) :=
  match chunk with
  | [] => Ok []
  | byte :: chunk =>
      let? v := ok_or (value alphabet byte) (InvalidByte offset byte) in
      let? vs := values_from chunk (S offset) alphabet in
      Ok (v :: vs)
  end.

Definition values (chunk : bytes) (base : nat) (alphabet : Alphabet) : result DecodeError (list Z) :=
  let? vs := values_from chunk base alphabet in
  Ok (take 4 (vs ++ replicate 4 0)).

(** Successive calls of [put], each with [?]: the buffer and how much of it is written. *)
Fixpoint put (octets : bytes) (out : bytes) (written : nat) : bytes * result DecodeError nat :=
  match octets with
  | [] => (out, Ok written)
  | byte :: octets =>
      if (written <? length out)%nat then put octets (<[written := byte]> out) (S written) else (out, Err Full)
  end.

(** The chunks of four and the rest. *)
Fixpoint decode_chunks (data : bytes) (base pads : nat) (alphabet : Alphabet) (padded : bool)
    (out : bytes) (written : nat) : bytes * result DecodeError nat :=
  match data with
  | a :: b :: c :: d :: rest =>
      match values [a; b; c; d] base alphabet with
      | Err e => (out, Err e)
      | Ok v =>
          let v i := nth i v 0 in
          match put [Z.lor (shl (v 0%nat) 2) (shr (v 1%nat) 4); Z.lor (shl (v 1%nat) 4) (shr (v 2%nat) 2);
                     Z.lor (shl (v 2%nat) 6) (v 3%nat)] out written with
          | (out, Err e) => (out, Err e)
          | (out, Ok written) => decode_chunks rest (base + 4) pads alphabet padded out written
          end
      end
  | [] => (out, if negb (pads =? 0)%nat then Err InvalidPadding else Ok written)
  | [_; _] as rest =>
      if padded && negb (pads =? 2)%nat then (out, Err InvalidPadding)
      else
        match values rest base alphabet with
        | Err e => (out, Err e)
        | Ok v =>
            let v i := nth i v 0 in
            if has (v 1%nat) 0x0F then (out, Err NonZeroPadBits)
            else put [Z.lor (shl (v 0%nat) 2) (shr (v 1%nat) 4)] out written
        end
  | [_; _; _] as rest =>
      if padded && negb (pads =? 1)%nat then (out, Err InvalidPadding)
      else
        match values rest base alphabet with
        | Err e => (out, Err e)
        | Ok v =>
            let v i := nth i v 0 in
            if has (v 2%nat) 0x03 then (out, Err NonZeroPadBits)
            else put [Z.lor (shl (v 0%nat) 2) (shr (v 1%nat) 4); Z.lor (shl (v 1%nat) 4) (shr (v 2%nat) 2)] out written
        end
  | _ => (out, Err InvalidLength)
  end.

Definition decode_slice (input : bytes) (alphabet : Alphabet) (padded : bool) (out : bytes)
  : bytes * result DecodeError nat :=
  match split_padding input padded with
  | Err e => (out, Err e)
  | Ok (data, pads) => decode_chunks data 0 pads alphabet padded out 0
  end.

Definition decode (input : bytes) (alphabet : Alphabet) (padded : bool) : result DecodeError bytes :=
  match decode_slice input alphabet padded (replicate (Z.to_nat (decoded_len (len input))) 0) with
  | (out, Ok written) => Ok (take written out)
  | (_, Err e) => Err e
  end.

(** RFC 4648 Section 10 and the refusals of the other spellings. *)
Example base64_vectors :
  (fun s => encode (bs s) Standard true) <$> [""; "f"; "fo"; "foo"; "foob"; "fooba"; "foobar"]
  = bs <$> [""; "Zg=="; "Zm8="; "Zm9v"; "Zm9vYg=="; "Zm9vYmE="; "Zm9vYmFy"].
Proof. vm_compute. reflexivity. Qed.
Example base64_refused :
  (fun s => decode (bs s) Standard true) <$> ["Zh=="; "Zg="; "Zm9=v"; "Zg=A"; "Z g="; "===="]
  = [Err NonZeroPadBits; Err InvalidLength; Err InvalidLength; Err (InvalidByte 2 61); Err (InvalidByte 1 32);
     Err InvalidPadding].
Proof. vm_compute. reflexivity. Qed.

(** ** Alphabets *)

Definition sextet (v : Z) : Prop := 0 <= v < 64.

Lemma glyph_value al v : sextet v -> value al (glyph al v) = Some v /\ glyph al v <> PAD /\ u8 (glyph al v).
Proof.
  intros Hv.
  assert (forallb (fun v => bool_decide (value al (glyph al v) = Some v) && negb (glyph al v =? PAD)
                            && bool_decide (u8 (glyph al v))) (seqZ 0 64) = true) as H
    by (destruct al; vm_compute; reflexivity).
  rewrite forallb_forall in H. specialize (H v).
  rewrite <- list_elem_of_In, elem_of_seqZ in H. specialize (H Hv). apply andb_prop in H as [[H1 H2]%andb_prop H3].
  apply bool_decide_eq_true in H1, H3. split; [done|]. split; [|done]. intros He. by rewrite He in H2.
Qed.

Lemma value_glyph al b v : u8 b -> value al b = Some v -> sextet v /\ glyph al v = b.
Proof.
  intros Hb Hv.
  pose proof (octet_forall (fun b => match value al b with
    | Some v => (0 <=? v) && (v <? 64) && (glyph al v =? b) | None => true end)
    ltac:(destruct al; vm_compute; reflexivity) b Hb) as H.
  cbv beta in H. rewrite Hv in H. apply andb_prop in H as [[H1 H2]%andb_prop H3]. unfold sextet.
  split; [lia|]. by apply Z.eqb_eq.
Qed.

(** ** Groups of bits *)

Lemma shl_mul x s : 0 <= s <= 8 -> shl x s = (x mod 2 ^ (8 - s)) * 2 ^ s.
Proof.
  intros Hs. unfold shl. rewrite Z.shiftl_mul_pow2 by lia.
  replace 256 with (2 ^ (8 - s) * 2 ^ s) by (rewrite <- Z.pow_add_r by lia; by replace (8 - s + s) with 8 by lia).
  apply Z.mul_mod_distr_r; lia.
Qed.

Lemma lor_shl x y s : 0 <= s <= 8 -> 0 <= y < 2 ^ s -> Z.lor (shl x s) y = (x mod 2 ^ (8 - s)) * 2 ^ s + y.
Proof. intros Hs Hy. rewrite shl_mul, Z.lor_comm, lor_tag by done || lia. lia. Qed.

Lemma shr_div x s : 0 <= s -> shr x s = x / 2 ^ s.
Proof. intros Hs. unfold shr. by rewrite Z.shiftr_div_pow2. Qed.

Lemma land_low x k : 0 <= k -> Z.land x (Z.ones k) = x mod 2 ^ k.
Proof. apply Z.land_ones. Qed.

Ltac sextets :=
  unfold sextet, word in *; rewrite ?shr_div by lia;
  change 0x03 with (Z.ones 2); change 0x0F with (Z.ones 4); change 0x3F with (Z.ones 6);
  rewrite ?land_low by lia; rewrite ?lor_shl by (try lia; pow2; Z.to_euclidean_division_equations; lia);
  rewrite ?shl_mul by lia; cbn [Z.sub Z.add Z.opp Z.pos_sub]; pow2; Z.to_euclidean_division_equations; lia.

Lemma cut_high a b : u8 a -> u8 b ->
  Z.lor (shl (Z.land a 0x03) 4) (shr b 4) = (a mod 4) * 16 + b / 16.
Proof. intros. sextets. Qed.
Lemma cut_low b c : u8 b -> u8 c ->
  Z.lor (shl (Z.land b 0x0F) 2) (shr c 6) = (b mod 16) * 4 + c / 64.
Proof. intros. sextets. Qed.
Lemma cut_last c : Z.land c 0x3F = c mod 64.
Proof. exact (land_low c 6 ltac:(lia)). Qed.
Lemma join_high v w : sextet v -> sextet w -> Z.lor (shl v 2) (shr w 4) = v * 4 + w / 16.
Proof. intros. sextets. Qed.
Lemma join_mid v w : sextet v -> sextet w -> Z.lor (shl v 4) (shr w 2) = (v mod 16) * 16 + w / 4.
Proof. intros. sextets. Qed.
Lemma join_low v w : sextet v -> sextet w -> Z.lor (shl v 6) w = (v mod 4) * 64 + w.
Proof. intros. sextets. Qed.

Lemma has_0F v : has v 0x0F = false <-> v mod 16 = 0.
Proof. unfold has. rewrite (land_low v 4 ltac:(lia) : Z.land v 0x0F = _). by rewrite negb_false_iff, Z.eqb_eq. Qed.
Lemma has_03 v : has v 0x03 = false <-> v mod 4 = 0.
Proof. unfold has. rewrite (land_low v 2 ltac:(lia) : Z.land v 0x03 = _). by rewrite negb_false_iff, Z.eqb_eq. Qed.

(** ** Groups of three octets and of four characters *)

Lemma triples_ind (P : bytes -> Prop) :
  P [] -> (forall a, P [a]) -> (forall a b, P [a; b]) -> (forall a b c l, P l -> P (a :: b :: c :: l)) ->
  forall l, P l.
Proof.
  intros H0 H1 H2 H3. fix IH 1. intros [|a [|b [|c l]]]; [apply H0 | apply H1 | apply H2 | apply H3, IH].
Qed.

Lemma sextets_group a b c l : u8 a -> u8 b -> u8 c ->
  sextets (a :: b :: c :: l)
  = [a / 4; (a mod 4) * 16 + b / 16; (b mod 16) * 4 + c / 64; c mod 64] ++ sextets l.
Proof. intros Ha Hb Hc. cbn [sextets]. by rewrite cut_high, cut_low, cut_last, shr_div by (done || lia). Qed.

Lemma sextets_two a b : u8 a -> u8 b -> sextets [a; b] = [a / 4; (a mod 4) * 16 + b / 16; (b mod 16) * 4].
Proof.
  intros Ha Hb. cbn [sextets]. rewrite cut_high, shr_div by (done || lia). do 3 f_equal. sextets.
Qed.

Lemma sextets_one a : u8 a -> sextets [a] = [a / 4; (a mod 4) * 16].
Proof. intros Ha. cbn [sextets]. rewrite shr_div by lia. do 2 f_equal. sextets. Qed.

Ltac euclid := unfold sextet, word in *; pow2; Z.to_euclidean_division_equations; lia.

Lemma sextets_ok l : octets l -> Forall sextet (sextets l).
Proof.
  induction l as [|a|a b|a b c l IH] using triples_ind; intros Ho; repeat apply Forall_cons in Ho as [? Ho].
  - constructor.
  - rewrite sextets_one by done. repeat constructor; euclid.
  - rewrite sextets_two by done. repeat constructor; euclid.
  - rewrite sextets_group by done. repeat (apply Forall_cons; split; [euclid|]). by apply IH.
Qed.

(** How many pads the encoding of [n] octets ends with. *)
Definition pads_of (n : nat) (padded : bool) : nat :=
  if padded then match (n mod 3)%nat with 1%nat => 2%nat | 2%nat => 1%nat | _ => 0%nat end else 0%nat.

Lemma pads_of_group n padded : pads_of (3 + n) padded = pads_of n padded.
Proof. unfold pads_of. by rewrite <- Nat.Div0.add_mod_idemp_l. Qed.

Lemma length_sextets l : octets l ->
  Z.of_nat (length (sextets l)) = len l / 3 * 4 + (if len l mod 3 =? 0 then 0 else len l mod 3 + 1).
Proof.
  induction l as [|a|a b|a b c l IH] using triples_ind; intros Ho; [done..|].
  repeat apply Forall_cons in Ho as [? Ho]. rewrite sextets_group by done. rewrite length_app. cbn [length].
  rewrite Nat2Z.inj_add, IH by done. unfold len. cbn [length].
  replace (Z.of_nat (S (S (S (length l))))) with (Z.of_nat (length l) + 1 * 3) by lia.
  rewrite Z.div_add, Z.mod_add by lia. lia.
Qed.

(** ** The output buffer *)

Lemma put_room l : forall out written, (written + length l <= length out)%nat ->
  put l out written = (take written out ++ l ++ drop (written + length l) out, Ok (written + length l)%nat).
Proof.
  induction l as [|b l IH]; intros out written Hn; cbn [put length app] in *.
  { by rewrite Nat.add_0_r, take_drop. }
  rewrite (proj2 (Nat.ltb_lt written (length out))) by lia.
  rewrite IH by (rewrite length_insert; lia).
  rewrite (take_S_r _ _ b) by (apply list_lookup_insert_eq; lia).
  rewrite take_insert_ge by lia. rewrite drop_insert_lt by lia. rewrite <- app_assoc. cbn [app].
  by rewrite <- Nat.add_succ_comm.
Qed.

Lemma put_fits l : forall out written out' n, (written <= length out)%nat ->
  put l out written = (out', Ok n) -> (written + length l <= length out)%nat.
Proof.
  induction l as [|b l IH]; intros out written out' n Hw; cbn [put length]; [intros; lia|].
  destruct (Nat.ltb_spec written (length out)); [|done].
  intros H'%IH; rewrite ?length_insert in *; lia.
Qed.

(** ** Characters and their values *)

Lemma values_glyphs al vs : Forall sextet vs -> forall base,
  values (glyph al <$> vs) base al = Ok (take 4 (vs ++ replicate 4 0)).
Proof.
  intros Hvs base. unfold values. assert (forall base, values_from (glyph al <$> vs) base al = Ok vs) as ->; [|done].
  clear base. induction Hvs as [|v vs Hv _ IH]; intros base; [done|]. cbn [fmap list_fmap values_from].
  destruct (glyph_value al v Hv) as (-> & _). cbn [ok_or]. by rewrite IH.
Qed.

Lemma values_sound al chunk base r : octets chunk -> values chunk base al = Ok r ->
  exists vs, Forall sextet vs /\ chunk = glyph al <$> vs /\ length vs = length chunk /\ r = take 4 (vs ++ replicate 4 0).
Proof.
  intros Ho. unfold values. destruct (values_from chunk base al) as [vs|] eqn:Hv; [|done]. intros [= <-].
  exists vs. assert (Forall sextet vs /\ chunk = glyph al <$> vs /\ length vs = length chunk) as (? & ? & ?); [|done].
  revert base vs Hv. induction Ho as [|b chunk Hb _ IH]; intros base vs; cbn [values_from]; [by intros [= <-]|].
  destruct (value al b) as [v|] eqn:Hv; [|done]. cbn [ok_or].
  destruct (values_from chunk (S base) al) as [vs'|] eqn:Hvs; [|done]. intros [= <-].
  destruct (IH _ _ Hvs) as (H1 & H2 & H3). destruct (value_glyph _ _ _ Hb Hv) as [Hs Hg].
  split; [by constructor|]. cbn. rewrite Hg, <- H2, H3. done.
Qed.

(** What a write of some octets leaves of the buffer, then of some more. *)
Definition written_at (out : bytes) (n : nat) (l : bytes) : bytes := take n out ++ l ++ drop (n + length l) out.

Lemma written_app out n l m : (n + length l + length m <= length out)%nat ->
  written_at (written_at out n l) (n + length l) m = written_at out n (l ++ m).
Proof.
  intros Hn. unfold written_at.
  assert (length (take n out ++ l) = n + length l)%nat as Hl by lengths.
  rewrite (app_assoc (take n out) l). rewrite <- Hl at 1. rewrite take_app_length.
  rewrite drop_app_ge by lia. rewrite drop_drop, Hl, length_app, <- !app_assoc. do 4 f_equal. lia.
Qed.

Lemma length_written out n l : (n + length l <= length out)%nat -> length (written_at out n l) = length out.
Proof. intros. unfold written_at. lengths. Qed.

Lemma glyphs_nil out n : written_at out n [] = out.
Proof. unfold written_at. cbn [length app]. by rewrite Nat.add_0_r, take_drop. Qed.

(** ** The decoder and the encoder agree *)

Lemma decode_glyphs al padded d : octets d -> forall base out written,
  (written + length d <= length out)%nat ->
  decode_chunks (glyph al <$> sextets d) base (pads_of (length d) padded) al padded out written
  = (written_at out written d, Ok (written + length d)%nat).
Proof.
  induction d as [|a|a b|a b c d IH] using triples_ind; intros Ho base out written Hw;
    repeat apply Forall_cons in Ho as [? Ho].
  - cbn. rewrite glyphs_nil, Nat.add_0_r. by destruct padded.
  - rewrite sextets_one by done. set (v0 := a / 4). set (v1 := a mod 4 * 16).
    assert (sextet v0 /\ sextet v1) as [Hv0 Hv1] by (subst v0 v1; split; euclid).
    cbn [fmap list_fmap decode_chunks]. replace (padded && _) with false by by destruct padded.
    rewrite (values_glyphs al [v0; v1]) by (repeat apply Forall_cons_2; [done..|apply Forall_nil_2]). cbn [app take nth replicate].
    replace (has v1 15) with false.
    2: { symmetry. apply has_0F. subst v1. euclid. }
    rewrite join_high by done. rewrite put_room by done. replace (v0 * 4 + v1 / 16) with a by (subst v0 v1; euclid). done.
  - rewrite sextets_two by done. set (v0 := a / 4). set (v1 := _ + b / 16). set (v2 := b mod 16 * 4).
    assert (sextet v0 /\ sextet v1 /\ sextet v2) as (Hv0 & Hv1 & Hv2) by (subst v0 v1 v2; split; [|split]; euclid).
    cbn [fmap list_fmap decode_chunks]. replace (padded && _) with false by by destruct padded.
    rewrite (values_glyphs al [v0; v1; v2]) by (repeat apply Forall_cons_2; [done..|apply Forall_nil_2]). cbn [app take nth replicate].
    replace (has v2 3) with false.
    2: { symmetry. apply has_03. subst v2. euclid. }
    rewrite join_high, join_mid, put_room by done.
    replace (v0 * 4 + v1 / 16) with a by (subst v0 v1; euclid).
    replace (v1 mod 16 * 16 + v2 / 4) with b by (subst v1 v2; euclid). done.
  - rewrite sextets_group by done. set (v0 := a / 4). set (v1 := _ + b / 16). set (v2 := _ + c / 64). set (v3 := c mod 64).
    assert (sextet v0 /\ sextet v1 /\ sextet v2 /\ sextet v3) as (Hv0 & Hv1 & Hv2 & Hv3)
      by (subst v0 v1 v2 v3; repeat split; euclid).
    cbn [fmap list_fmap decode_chunks app].
    rewrite (values_glyphs al [v0; v1; v2; v3]) by (repeat apply Forall_cons_2; [done..|apply Forall_nil_2]). cbn [app take nth replicate].
    rewrite join_high, join_mid, join_low by done. rewrite put_room by (cbn [length] in *; lia).
    fold (written_at out written [v0 * 4 + v1 / 16; v1 mod 16 * 16 + v2 / 4; v2 mod 4 * 64 + v3]).
    replace (v0 * 4 + v1 / 16) with a by (subst v0 v1; euclid).
    replace (v1 mod 16 * 16 + v2 / 4) with b by (subst v1 v2; euclid).
    replace (v2 mod 4 * 64 + v3) with c by (subst v2 v3; euclid).
    change (length (a :: b :: c :: d)) with (3 + length d)%nat in *. rewrite pads_of_group. cbn [length] in *.
    rewrite (IH Ho) by (rewrite length_written; cbn [length]; lia).
    change (written + 3)%nat with (written + length [a; b; c])%nat. rewrite written_app by (cbn [length]; lia). cbn [length]. do 2 f_equal. lia.
Qed.

Lemma quads_ind (P : bytes -> Prop) :
  P [] -> (forall a, P [a]) -> (forall a b, P [a; b]) -> (forall a b c, P [a; b; c]) ->
  (forall a b c d l, P l -> P (a :: b :: c :: d :: l)) -> forall l, P l.
Proof.
  intros H0 H1 H2 H3 H4. fix IH 1. intros [|a [|b [|c [|d l]]]]; [apply H0 | apply H1 | apply H2 | apply H3 | apply H4, IH].
Qed.

(** The octets some sextets are the groups of. *)
Lemma two_sextets v0 v1 : sextet v0 -> sextet v1 -> v1 mod 16 = 0 ->
  let a := v0 * 4 + v1 / 16 in u8 a /\ sextets [a] = [v0; v1].
Proof.
  intros H0 H1 Hz a. assert (u8 a) as Ha by (subst a; euclid). split; [done|].
  rewrite sextets_one by done. subst a. repeat f_equal; euclid.
Qed.

Lemma three_sextets v0 v1 v2 : sextet v0 -> sextet v1 -> sextet v2 -> v2 mod 4 = 0 ->
  let a := v0 * 4 + v1 / 16 in let b := v1 mod 16 * 16 + v2 / 4 in
  u8 a /\ u8 b /\ sextets [a; b] = [v0; v1; v2].
Proof.
  intros H0 H1 H2 Hz a b. assert (u8 a) as Ha by (subst a; euclid). assert (u8 b) as Hb by (subst b; euclid).
  split; [done|]. split; [done|]. rewrite sextets_two by done. subst a b. repeat f_equal; euclid.
Qed.

Lemma four_sextets v0 v1 v2 v3 d : sextet v0 -> sextet v1 -> sextet v2 -> sextet v3 ->
  let a := v0 * 4 + v1 / 16 in let b := v1 mod 16 * 16 + v2 / 4 in let c := v2 mod 4 * 64 + v3 in
  u8 a /\ u8 b /\ u8 c /\ sextets (a :: b :: c :: d) = [v0; v1; v2; v3] ++ sextets d.
Proof.
  intros H0 H1 H2 H3 a b c. assert (u8 a) as Ha by (subst a; euclid).
  assert (u8 b) as Hb by (subst b; euclid). assert (u8 c) as Hc by (subst c; euclid).
  do 3 (split; [done|]). rewrite sextets_group by done. subst a b c. cbn [app]. repeat f_equal; euclid.
Qed.

Lemma put_sound l out written out' n : (written <= length out)%nat -> put l out written = (out', Ok n) ->
  out' = written_at out written l /\ n = (written + length l)%nat /\ (n <= length out)%nat.
Proof.
  intros Hw H. pose proof (put_fits _ _ _ _ _ Hw H) as Hf. rewrite put_room in H by done.
  injection H as <- <-. by repeat split.
Qed.

Lemma base64_sound al padded data : forall base pads out written out' n,
  octets data -> (written <= length out)%nat -> (padded = false -> pads = 0%nat) ->
  decode_chunks data base pads al padded out written = (out', Ok n) ->
  exists d, octets d /\ data = glyph al <$> sextets d /\ pads = pads_of (length d) padded /\
    n = (written + length d)%nat /\ (n <= length out)%nat /\ out' = written_at out written d.
Proof.
  induction data as [|x|x y|x y z|x y z w data IH] using quads_ind; intros base pads out written out' n Ho Hw Hp;
    cbn [decode_chunks].
  - destruct (Nat.eqb_spec pads 0) as [->|]; [|done]. intros [= <- <-]. exists []. rewrite glyphs_nil.
    split; [done|]. split; [done|]. split; [by destruct padded|]. cbn [length]. split; [lia|]. by split.
  - done.
  - destruct (padded && negb (pads =? 2)%nat) eqn:Hpads; [done|].
    destruct (values [x; y] base al) as [r|] eqn:Hv; [|done].
    destruct (values_sound _ _ _ _ Ho Hv) as ([|v0 [|v1 [|]]] & Hvs & Hg & Hl & ->); [done..| |done].
    rewrite Hg.
    cbn [app take replicate nth]. destruct (has v1 15) eqn:Hz; [done|]. apply has_0F in Hz.
    apply Forall_cons in Hvs as [H0 [H1 _]%Forall_cons]. rewrite join_high by done.
    destruct (two_sextets v0 v1 H0 H1 Hz) as [Ha Hs]. intros H. apply put_sound in H as (-> & -> & Hn); [|done].
    exists [v0 * 4 + v1 / 16]. rewrite Hs. split; [by rewrite Forall_singleton|]. split; [done|]. split; [|done].
    destruct padded; cbn in *; [by destruct (Nat.eqb_spec pads 2)|by apply Hp].
  - destruct (padded && negb (pads =? 1)%nat) eqn:Hpads; [done|].
    destruct (values [x; y; z] base al) as [r|] eqn:Hv; [|done].
    destruct (values_sound _ _ _ _ Ho Hv) as ([|v0 [|v1 [|v2 [|]]]] & Hvs & Hg & Hl & ->); [done..| |done].
    rewrite Hg.
    cbn [app take replicate nth]. destruct (has v2 3) eqn:Hz; [done|]. apply has_03 in Hz.
    apply Forall_cons in Hvs as [H0 [H1 [H2 _]%Forall_cons]%Forall_cons]. rewrite join_high, join_mid by done.
    destruct (three_sextets v0 v1 v2 H0 H1 H2 Hz) as (Ha & Hb & Hs).
    intros H. apply put_sound in H as (-> & -> & Hn); [|done].
    exists [v0 * 4 + v1 / 16; v1 mod 16 * 16 + v2 / 4]. rewrite Hs.
    split; [repeat apply Forall_cons_2; [done..|apply Forall_nil_2]|]. split; [done|]. split; [|done].
    destruct padded; cbn in *; [by destruct (Nat.eqb_spec pads 1)|by apply Hp].
  - destruct (values [x; y; z; w] base al) as [r|] eqn:Hv; [|done].
    apply (Forall_app _ [x; y; z; w] data) in Ho as [Hhead Ho].
    destruct (values_sound _ _ _ _ Hhead Hv) as ([|v0 [|v1 [|v2 [|v3 [|]]]]] & Hvs & Hg & Hl & ->); [done..| |done].
    cbn [app take replicate nth]. apply Forall_cons in Hvs as [H0 [H1 [H2 [H3 _]%Forall_cons]%Forall_cons]%Forall_cons].
    rewrite join_high, join_mid, join_low by done. injection Hg as -> -> -> ->.
    set (a := v0 * 4 + _). set (b := v1 mod 16 * 16 + _). set (c := v2 mod 4 * 64 + v3).
    destruct (put [a; b; c] out written) as [out1 [n1|]] eqn:Hput; [|done].
    apply put_sound in Hput as (-> & -> & Hn1); [|done]. intros H.
    apply IH in H as (d & Hd & -> & -> & -> & Hn & ->); [|done|by rewrite length_written|done].
    destruct (four_sextets v0 v1 v2 v3 d H0 H1 H2 H3) as (Ha & Hb & Hc & Hs).
    rewrite length_written in Hn by done. rewrite written_app by lia.
    exists ([a; b; c] ++ d). split; [apply Forall_app_2; [repeat apply Forall_cons_2; [done..|apply Forall_nil_2] | done]|].
    cbn [app]. subst a b c. rewrite Hs. cbn [length]. split; [done|]. change (S (S (S (length d)))) with (3 + length d)%nat.
    rewrite pads_of_group. cbn [length] in Hn. split; [done|]. split; [lia|]. split; [lia|done].
Qed.

(** ** Padding *)

(** The encoding of a short enough octet string. *)
Definition text (al : Alphabet) (pad : bool) (d : bytes) : bytes :=
  (glyph al <$> sextets d) ++ replicate (pads_of (length d) pad) PAD.

Lemma length_text al pad d : octets d -> len d < 2 ^ 63 -> encoded_len (len d) pad = Some (len (text al pad d)).
Proof.
  intros Ho Hd. unfold text. rewrite len_app. unfold len at 2 3. rewrite length_fmap, length_replicate, length_sextets by done.
  pose proof (len_nonneg d). unfold encoded_len, checked_mul, checked_add. pow2.
  assert (Z.of_nat (pads_of (length d) pad)
    = if pad then (if len d mod 3 =? 0 then 0 else 3 - len d mod 3) else 0) as ->.
  { unfold pads_of. destruct pad; [|done]. unfold len. change 3 with (Z.of_nat 3). rewrite <- Nat2Z.inj_mod.
    pose proof (Nat.mod_upper_bound (length d) 3).
    destruct (length d mod 3)%nat as [|[|[|]]]; [done..|lia]. }
  pose proof (Z.mod_pos_bound (len d) 3). pose proof (Z.div_mod (len d) 3).
  rewrite (proj2 (Z.ltb_lt (len d / 3 * 4) _)) by lia.
  destruct (Z.eqb_spec (len d mod 3) 0), pad, (Z.eqb_spec (len d mod 3) 1);
    rewrite (proj2 (Z.ltb_lt _ _)) by lia; f_equal; lia.
Qed.

Lemma encode_slice_text al pad d out : octets d -> len d < 2 ^ 63 -> (length (text al pad d) <= length out)%nat ->
  encode_slice d al pad out = (text al pad d ++ drop (length (text al pad d)) out, Ok (length (text al pad d))).
Proof.
  intros Ho Hd Hl. unfold encode_slice. rewrite (length_text al pad d) by done.
  unfold len. rewrite Nat2Z.id. unfold get_to. rewrite decide_True by done.
  assert (length (glyph al <$> sextets d) <= length (text al pad d))%nat as Hs by (unfold text; lengths).
  rewrite take_ge by done. set (left := drop _ (take _ out)).
  assert (length left = pads_of (length d) pad) as Hleft.
  { subst left. rewrite length_drop, length_take. unfold text in *. rewrite length_app, length_replicate in *. lia. }
  assert ((if pad then replicate (length left) PAD else left) = replicate (pads_of (length d) pad) PAD) as ->.
  { destruct pad; [by rewrite Hleft | by destruct left]. }
  by rewrite app_assoc.
Qed.

Lemma base64_encode_text al pad d : octets d -> len d < 2 ^ 63 -> encode d al pad = text al pad d.
Proof.
  intros Ho Hd. unfold encode. rewrite (length_text al pad d) by done. cbn [default from_option id].
  unfold len. rewrite Nat2Z.id, encode_slice_text by (done || by rewrite length_replicate).
  by rewrite take_app_length.
Qed.

Lemma reverse_pads data k :
  Forall (fun b => negb (b =? PAD) = true) data ->
  position (fun b => negb (b =? PAD)) (reverse (data ++ replicate k PAD))
  = if decide (data = []) then None else Some k.
Proof.
  intros Hd. rewrite reverse_app, reverse_replicate, position_app.
  assert (position (fun b => negb (b =? PAD)) (replicate k PAD) = None) as ->.
  { apply position_None. by apply Forall_replicate. }
  rewrite length_replicate. case_decide as Hnil; [by subst|].
  destruct data as [|b data _] using rev_ind; [done|]. rewrite reverse_snoc. cbn [position].
  apply Forall_app in Hd as [_ Hb]. rewrite Forall_singleton in Hb. rewrite Hb. cbn. f_equal. lia.
Qed.

Lemma split_padding_text data k padded :
  Forall (fun b => negb (b =? PAD) = true) data -> (padded = false -> k = 0%nat) -> (k <= 2)%nat ->
  (padded = true -> len (data ++ replicate k PAD) mod 4 = 0) ->
  split_padding (data ++ replicate k PAD) padded = Ok (data, k).
Proof.
  intros Hd Hk Hk2 Hlen. unfold split_padding. rewrite reverse_pads by done.
  set (pads := match (if decide (data = []) then None else Some k) with Some n => n | None => _ end).
  assert (pads = k) as ->.
  { subst pads. case_decide; [subst; by rewrite length_app, length_replicate | done]. }
  destruct padded; cbn [negb].
  - rewrite Hlen by done. cbn [Z.eqb negb]. rewrite (proj2 (Nat.ltb_ge 2 k)) by done. do 2 f_equal.
    rewrite length_app, length_replicate. rewrite take_app_length' by lia. done.
  - rewrite (Hk eq_refl). cbn. by rewrite app_nil_r.
Qed.

(** The pads in front of a reversed text. *)
Lemma leading_pads l :
  let n := match position (fun b => negb (b =? PAD)) l with Some n => n | None => length l end in
  l = replicate n PAD ++ drop n l.
Proof.
  induction l as [|b l IH]; [done|]. cbn [position]. destruct (Z.eqb_spec b PAD) as [->|]; cbn [negb]; [|done].
  destruct (position _ l); cbn [fmap option_fmap option_map length replicate drop app]; by f_equal.
Qed.

Lemma split_padding_sound input padded data k : split_padding input padded = Ok (data, k) ->
  input = data ++ replicate k PAD /\ (padded = false -> k = 0%nat).
Proof.
  unfold split_padding. pose proof (leading_pads (reverse input)) as Hl. cbv zeta in Hl. rewrite length_reverse in Hl.
  set (pads := match position _ _ with Some n => n | None => _ end) in *. clearbody pads.
  apply (f_equal reverse) in Hl. rewrite reverse_involutive, reverse_app, reverse_replicate in Hl.
  set (front := reverse (drop pads (reverse input))) in Hl. clearbody front.
  destruct padded; cbn [negb].
  - destruct (negb (len input mod 4 =? 0)); [done|]. destruct (2 <? pads)%nat; [done|]. intros [= <- <-].
    split; [|done]. rewrite Hl. f_equal. symmetry. apply take_app_length'. rewrite length_app, length_replicate. lia.
  - destruct (Nat.eqb_spec pads 0) as [Hp|]; [|done]. intros [= <- <-]. by rewrite app_nil_r.
Qed.

Lemma glyphs_no_pad al vs : Forall sextet vs -> Forall (fun b => negb (b =? PAD) = true) (glyph al <$> vs).
Proof.
  intros Hv. apply Forall_fmap. apply (Forall_impl _ _ _ Hv). intros v Hs. cbn.
  destruct (glyph_value al v Hs) as (_ & Hp & _). apply negb_true_iff. by apply Z.eqb_neq.
Qed.

Lemma text_octets al pad d : octets d -> octets (text al pad d).
Proof.
  intros Ho. apply Forall_app_2.
  - apply Forall_fmap. apply (Forall_impl _ _ _ (sextets_ok d Ho)). intros v Hv. by apply glyph_value.
  - apply Forall_replicate. unfold PAD. word_lia.
Qed.

(** The length of a padded encoding is a multiple of four. *)
Lemma padded_length al d : octets d -> len (text al true d) mod 4 = 0.
Proof.
  intros Ho. unfold text. rewrite len_app. unfold len at 1 2. rewrite length_fmap, length_replicate, length_sextets by done.
  unfold pads_of, len. change 3 with (Z.of_nat 3). rewrite <- Nat2Z.inj_mod.
  pose proof (Nat.mod_upper_bound (length d) 3). destruct (length d mod 3)%nat as [|[|[|]]]; [| | |lia].
  all: rewrite <- Z.add_assoc, Z.add_comm, Z.mod_add by lia; reflexivity.
Qed.

(** ** The bijection *)

Lemma decode_slice_text al padded d out : octets d -> (length d <= length out)%nat ->
  decode_slice (text al padded d) al padded out = (d ++ drop (length d) out, Ok (length d)).
Proof.
  intros Ho Hl. unfold decode_slice, text.
  rewrite split_padding_text.
  - rewrite decode_glyphs by (done || lia). done.
  - by apply glyphs_no_pad, sextets_ok.
  - by intros ->.
  - unfold pads_of. destruct padded; [|lia]. destruct (length d mod 3)%nat as [|[|[|]]]; lia.
  - intros ->. by apply padded_length.
Qed.

Lemma decode_slice_sound al padded input out out' n : octets input ->
  decode_slice input al padded out = (out', Ok n) ->
  exists d, octets d /\ input = text al padded d /\ n = length d /\ (n <= length out)%nat /\
    out' = d ++ drop n out.
Proof.
  intros Ho. unfold decode_slice. destruct (split_padding input padded) as [[data k]|] eqn:Hs; [|done].
  apply split_padding_sound in Hs as [-> Hk]. apply Forall_app in Ho as [Ho _]. intros H.
  apply base64_sound in H as (d & Hd & -> & -> & -> & Hn & ->); [|done|lia|done].
  exists d. split; [done|]. split; [done|]. split; [done|]. by split.
Qed.

(** The decoder's buffer has room for what the text is the encoding of. *)
Lemma decoded_room al padded d : octets d -> len d < 2 ^ 63 ->
  len d <= decoded_len (len (text al padded d)).
Proof.
  intros Ho Hd. pose proof (length_text al padded d Ho Hd) as H. pose proof (len_nonneg d).
  set (n := len (text al padded d)) in *. clearbody n. unfold encoded_len, checked_mul, checked_add in H.
  unfold decoded_len, saturating_add, saturating_mul. pow2.
  pose proof (Z.mod_pos_bound (len d) 3). pose proof (Z.div_mod (len d) 3).
  rewrite (proj2 (Z.ltb_lt (len d / 3 * 4) _)) in H by lia.
  destruct (Z.eqb_spec (len d mod 3) 0), padded, (Z.eqb_spec (len d mod 3) 1);
    rewrite (proj2 (Z.ltb_lt _ _)) in H by lia; injection H as <-;
    rewrite ?(Z.add_comm (len d / 3 * 4)), ?Z.div_add, ?Z.mod_add by lia;
    change (0 / 4) with 0; change (0 mod 4) with 0; change (2 / 4) with 0; change (2 mod 4) with 2;
    change (3 / 4) with 0; change (3 mod 4) with 3; change (4 / 4) with 1; change (4 mod 4) with 0;
    cbn -[Z.mul Z.add]; lia.
Qed.

Lemma base64_decode_text al padded d : octets d -> len d < 2 ^ 63 -> decode (text al padded d) al padded = Ok d.
Proof.
  intros Hd Hl. unfold decode. pose proof (decoded_room al padded d Hd Hl) as Hr.
  rewrite decode_slice_text by (done || rewrite length_replicate; unfold len in *; lia).
  by rewrite take_app_length.
Qed.

(** The decoder accepts an octet string's encoding in the chosen alphabet and
    padding, and nothing else: [decode] and [encode] are inverse to each other, so
    wrong or missing padding, pad bits that are not zero and octets outside the
    alphabet are all refused, and no two texts stand for the same octets. *)
Theorem base64_bijection input data al padded :
  octets input -> octets data -> len data < 2 ^ 63 ->
  decode input al padded = Ok data <-> encode data al padded = input.
Proof.
  intros Hi Hd Hl. rewrite base64_encode_text by done. split; [|intros <-; by apply base64_decode_text]. unfold decode.
  destruct (decode_slice _ _ _ _) as [out [n|]] eqn:Hs; [|done].
  apply decode_slice_sound in Hs as (d & Hd' & -> & -> & Hn & ->); [|done].
  rewrite take_app_length. by intros [= ->].
Qed.

Lemma base64_bijection_witness :
  decode (bs "Zm9vYg==") Standard true = Ok (bs "foob") /\ encode (bs "foob") Standard true = bs "Zm9vYg==".
Proof.
  split; [|vm_compute; reflexivity].
  apply base64_bijection; [vm_compute; repeat constructor; discriminate | vm_compute; repeat constructor; discriminate
    | reflexivity | vm_compute; reflexivity].
Defined.
