(* ===== verification/WsHandshake.v ===== *)
(** * The opening handshake of WebSocket

    [zero-ws/src/handshake.rs]: the checks of a client's handshake and the accept
    value.  SHA-1 is injected by the caller, so the digest is an interface here, as
    the trait [Digest] of [zero-core/src/primitive.rs] states it. *)
From stdpp Require Import pretty.
From S2P Require Import Prelude Scalar Core HttpTypes Base64.

(** ** The injected digest *)

(** A buffer that is filled is returned; a failed call may have written in it. *)
Class Digest : Type := {
  output_len : nat;
  digest : bytes -> bytes -> bytes * result Error unit;
}.

Class DigestLaws `{Digest} : Prop :=
  digest_fills data out out' : digest data out = (out', Ok tt) ->
    length out = output_len /\ length out' = output_len /\ octets out'.

Definition ensure_output_len (expected : nat) (out : bytes) : result Error unit :=
  if (length out =? expected)%nat then Ok tt
  else Err (Codec ("output buffer holds " +:+ pretty (length out) +:+ " bytes, the primitive produces "
                   +:+ pretty expected)).

(** ** Handshakes *)

Definition GUID : bytes := bs "258EAFA5-E914-47DA-95CA-C5AB0DC85B11".
Definition KEY_LEN : nat := 24.
Definition ACCEPT_LEN : nat := 28.
Definition VERSION : bytes := bs "13".

Record Config : Type := MkConfig {
  protocols : list bytes;
  origins : option (list bytes);
}.

Record Accepted : Type := MkAccepted {
  key : bytes;
  protocol : option bytes;
}.

Inductive Reason : Type :=
| RMethod | RHttpVersion | RHost | RUpgrade | RConnection | RKey | RMissingVersion | RVersion | ROrigin.
#[global] Instance Reason_eq_dec : EqDecision Reason.
Proof. solve_decision. Defined.

Record Refusal : Type := MkRefusal {
  reason : Reason;
  status : StatusCode;
  fields : list (bytes * bytes);
}.

Definition VERSION_FIELDS : list (bytes * bytes) := [(bs "Sec-WebSocket-Version", VERSION)].

Definition Refusal_new (reason : Reason) : Refusal :=
  let (status, fields) :=
    match reason with
    | RVersion => (426, VERSION_FIELDS)
    | ROrigin => (403, [])
    | _ => (400, [])
    end in
  MkRefusal reason status fields.

Inductive Single : Type := Absent | Once (value : bytes) | Repeated.

Definition Single_put (self : Single) (value : bytes) : Single :=
  match self with Absent => Once value | Once _ | Repeated => Repeated end.

(** [u8::is_ascii_whitespace] and [trim_ascii] of the standard library. *)
Definition is_ascii_whitespace (byte : Z) : bool :=
  (byte =? 0x20) || (byte =? 0x09) || (byte =? 0x0A) || (byte =? 0x0C) || (byte =? 0x0D).

Fixpoint trim_start (l : bytes) : bytes :=
  match l with
  | [] => []
  | b :: rest => if is_ascii_whitespace b then trim_start rest else l
  end.
Definition trim_ascii (l : bytes) : bytes := reverse (trim_start (reverse (trim_start l))).

Definition elements (value : bytes) : list bytes :=
  filter (fun element => element <> []) (trim_ascii <$> split_on (fun byte => byte =? 0x2C) value).

Definition has_token (value token : bytes) : bool :=
  existsb (fun element => eq_ignore_ascii_case element token) (elements value).

(** What the loop over the fields keeps. *)
Record Seen : Type := MkSeen {
  seen_host : bool;
  seen_upgrade : bool;
  seen_connection : bool;
  seen_key : Single;
  seen_version : Single;
  seen_origin : Single;
  seen_protocol : option bytes;
}.

Definition look (config : Config) (seen : Seen) (field : bytes * bytes) : Seen :=
  let (name, value) := field in
  let 'MkSeen host upgrade connection key version origin protocol := seen in
  let named := eq_ignore_ascii_case name in
  if named (bs "host") then MkSeen true upgrade connection key version origin protocol
  else if named (bs "upgrade")
  then MkSeen host (upgrade || has_token value (bs "websocket")) connection key version origin protocol
  else if named (bs "connection")
  then MkSeen host upgrade (connection || has_token value (bs "upgrade")) key version origin protocol
  else if named (bs "sec-websocket-key")
  then MkSeen host upgrade connection (Single_put key value) version origin protocol
  else if named (bs "sec-websocket-version")
  then MkSeen host upgrade connection key (Single_put version value) origin protocol
  else if named (bs "origin")
  then MkSeen host upgrade connection key version (Single_put origin value) protocol
  else if named (bs "sec-websocket-protocol") && bool_decide (protocol = None)
  then MkSeen host upgrade connection key version origin
         (snd <$> list_find (fun offered => offered ∈ protocols config) (elements value))
  else seen.

Definition is_valid_key (key : bytes) : bool :=
  (length key =? KEY_LEN)%nat
  && bool_decide ((decode_slice key Standard true (replicate 18 0)).2 = Ok 16%nat).

Definition negotiate (method : option Method) (http11_or_later : bool) (fields : list (bytes * bytes))
    (config : Config) : result Refusal Accepted :=
  let seen := fold_left (look config) fields (MkSeen false false false Absent Absent Absent None) in
  let refuse reason := Err (Refusal_new reason) in
  if negb (bool_decide (method = Some Get)) then refuse RMethod
  else if negb http11_or_later then refuse RHttpVersion
  else if negb (seen_host seen) then refuse RHost
  else if negb (seen_upgrade seen) then refuse RUpgrade
  else if negb (seen_connection seen) then refuse RConnection
  else
    match seen_key seen with
    | Once key =>
        if negb (is_valid_key key) then refuse RKey
        else
          match seen_version seen with
          | Absent => refuse RMissingVersion
          | Once value =>
              if bool_decide (value = VERSION) then
                let permitted :=
                  match origins config with
                  | None => true
                  | Some allowed =>
                      match seen_origin seen with
                      | Absent => true
                      | Once value => existsb (fun candidate => eq_ignore_ascii_case candidate value) allowed
                      | Repeated => false
                      end
                  end in
                if negb permitted then refuse ROrigin else Ok (MkAccepted key (seen_protocol seen))
              else refuse RVersion
          | Repeated => refuse RVersion
          end
    | _ => refuse RKey
    end.

Section response.
Context `{Digest}.

Definition accept (key : bytes) : result Error bytes :=
  if negb (length key =? KEY_LEN)%nat
  then Err (Protocol ("a Sec-WebSocket-Key is " +:+ pretty KEY_LEN +:+ " bytes, not " +:+ pretty (length key)))
  else
    let input := key ++ GUID in
    match digest input (replicate 20 0) with
    | (_, Err e) => Err e
    | (hash, Ok _) =>
        let (out, r) := encode_slice hash Standard true (replicate ACCEPT_LEN 0) in
        let? _ := map_err (fun _ => Codec "Full") r in
        Ok out
    end.

Record ResponseFields : Type := MkResponseFields {
  response_accept : bytes;
  response_protocol : option bytes;
}.

Definition response_fields (self : Accepted) : result Error ResponseFields :=
  let? accept := accept (key self) in
  Ok (MkResponseFields accept (protocol self)).

(** [ResponseFields::iter] *)
Definition response_iter (self : ResponseFields) : list (bytes * bytes) :=
  [(bs "Upgrade", bs "websocket"); (bs "Connection", bs "Upgrade");
   (bs "Sec-WebSocket-Accept", response_accept self)]
  ++ match response_protocol self with
     | Some protocol => [(bs "Sec-WebSocket-Protocol", protocol)]
     | None => []
     end.
End response.

(** Section 1.3 of RFC 6455. *)
Example handshake_rfc :
  negotiate (Some Get) true
    [(bs "Host", bs "server.example.com"); (bs "Upgrade", bs "websocket"); (bs "Connection", bs "keep-alive, Upgrade");
     (bs "Sec-WebSocket-Key", bs "dGhlIHNhbXBsZSBub25jZQ=="); (bs "Origin", bs "http://example.com");
     (bs "Sec-WebSocket-Protocol", bs "chat, superchat"); (bs "Sec-WebSocket-Version", bs "13")]
    (MkConfig [bs "superchat"] (Some [bs "HTTP://EXAMPLE.COM"]))
  = Ok (MkAccepted (bs "dGhlIHNhbXBsZSBub25jZQ==") (Some (bs "superchat"))).
Proof. vm_compute. reflexivity. Qed.

(** ** What the loop collects *)

(** The values of the fields with a name, in order. *)
Definition values_of (name : bytes) (fields : list (bytes * bytes)) : list bytes :=
  snd <$> filter (fun field => to_lower field.1 = name) fields.

Definition single (values : list bytes) : Single :=
  match values with [] => Absent | [value] => Once value | _ => Repeated end.

(** The first offered subprotocol the server speaks. *)
Definition chosen (config : Config) (values : list bytes) : option bytes :=
  head (filter (fun offered => offered ∈ protocols config) (values ≫= elements)).

Definition summary (config : Config) (fields : list (bytes * bytes)) : Seen :=
  let values name := values_of (bs name) fields in
  MkSeen (negb (bool_decide (values "host"%string = [])))
    (existsb (fun value => has_token value (bs "websocket")) (values "upgrade"%string))
    (existsb (fun value => has_token value (bs "upgrade")) (values "connection"%string))
    (single (values "sec-websocket-key"%string)) (single (values "sec-websocket-version"%string))
    (single (values "origin"%string)) (chosen config (values "sec-websocket-protocol"%string)).

Lemma values_of_snoc name fields field :
  values_of name (fields ++ [field])
  = values_of name fields ++ (if bool_decide (to_lower field.1 = name) then [field.2] else []).
Proof.
  unfold values_of. rewrite filter_app, fmap_app. f_equal. rewrite filter_cons.
  case_decide; case_bool_decide; by try done.
Qed.

Lemma single_snoc values value : single (values ++ [value]) = Single_put (single values) value.
Proof. destruct values as [|v [|w l]]; done. Qed.

Lemma find_head {A} (P : A -> Prop) `{forall x, Decision (P x)} l : snd <$> list_find P l = head (filter P l).
Proof.
  induction l as [|x l IH]; [done|]. cbn [list_find]. rewrite filter_cons. case_decide; [done|].
  rewrite <- IH. by destruct (list_find P l).
Qed.

Lemma chosen_snoc config values value :
  chosen config (values ++ [value])
  = if bool_decide (chosen config values = None)
    then snd <$> list_find (fun offered => offered ∈ protocols config) (elements value)
    else chosen config values.
Proof.
  unfold chosen. rewrite bind_app, filter_app, find_head. cbn [mbind list_bind]. rewrite app_nil_r.
  by destruct (filter _ (values ≫= elements)).
Qed.

Lemma lower_name name field literal : to_lower (bs literal) = bs literal ->
  eq_ignore_ascii_case name (bs literal) = bool_decide (to_lower (name, field : bytes).1 = bs literal).
Proof. intros H. unfold eq_ignore_ascii_case. by rewrite H. Qed.

(** Two literals are compared by evaluation. *)
Ltac literals :=
  repeat match goal with |- context [bool_decide (bs ?a = bs ?b)] =>
    first [ rewrite (bool_decide_eq_true_2 (bs a = bs b)) by reflexivity
          | rewrite (bool_decide_eq_false_2 (bs a = bs b)) by (vm_compute; discriminate) ]
  end.

Lemma look_summary config fields field :
  look config (summary config fields) field = summary config (fields ++ [field]).
Proof.
  destruct field as [name value]. unfold summary. rewrite !values_of_snoc. cbn [fst snd]. unfold look.
  rewrite !(lower_name name value) by (vm_compute; reflexivity). cbn [fst].
  repeat (match goal with |- context [bool_decide (to_lower name = bs ?l)] =>
    let Hl := fresh in destruct (decide (to_lower name = bs l)) as [Hl|Hl];
    [ rewrite Hl; literals | rewrite !(bool_decide_eq_false_2 _ Hl) ] end).
  all: rewrite ?app_nil_r, ?existsb_app, ?single_snoc, ?chosen_snoc; cbn [existsb andb]; rewrite ?orb_false_r; try done.
  - do 2 f_equal. symmetry. apply negb_true_iff, bool_decide_eq_false_2. by destruct (values_of (bs "host") fields).
  - by case_bool_decide.
Qed.

Lemma look_all config fields :
  fold_left (look config) fields (MkSeen false false false Absent Absent Absent None) = summary config fields.
Proof.
  induction fields as [|field fields IH] using rev_ind; [done|].
  rewrite fold_left_app, IH. cbn [fold_left]. apply look_summary.
Qed.

(** ** The key and the accept value *)

Lemma encode_length data n : octets data -> encoded_len (len data) true = Some n -> len data < 2 ^ 63 ->
  length (encode data Standard true) = Z.to_nat n.
Proof.
  intros Ho Hn Hl. rewrite base64_encode_text by done. rewrite (length_text Standard true data) in Hn by done.
  injection Hn as <-. unfold len. lia.
Qed.

Lemma is_valid_key_length nonce : octets nonce -> length nonce = 16%nat -> length (encode nonce Standard true) = KEY_LEN.
Proof.
  intros Ho Hn. assert (len nonce = 16) as Hl by (unfold len; lia).
  by rewrite (encode_length _ 24) by (rewrite ?Hl; done).
Qed.

Lemma is_valid_key_spec key : octets key ->
  is_valid_key key = true <-> exists nonce, octets nonce /\ length nonce = 16%nat /\ key = encode nonce Standard true.
Proof.
  intros Ho. unfold is_valid_key. rewrite andb_true_iff, bool_decide_eq_true, Nat.eqb_eq. split.
  - intros [_ H]. destruct (decode_slice key Standard true (replicate 18 0)) as [out r] eqn:Hd. cbn [snd] in H. subst r.
    apply decode_slice_sound in Hd as (d & Hd & -> & Hn & _); [|done]. exists d.
    rewrite base64_encode_text by (done || unfold len; lia). done.
  - intros (d & Hd & Hn & ->). split; [by apply is_valid_key_length|].
    rewrite base64_encode_text by (done || unfold len; lia).
    rewrite decode_slice_text by (done || rewrite Hn, length_replicate; lia). by rewrite Hn.
Qed.

(** The conditions of Section 4.2.1 of RFC 6455. *)
Record acceptable (method : option Method) (http11_or_later : bool) (fields : list (bytes * bytes))
    (config : Config) (a : Accepted) : Prop := {
  acceptable_method : method = Some Get;
  acceptable_version : http11_or_later = true;
  acceptable_host : values_of (bs "host") fields <> [];
  acceptable_upgrade : exists value, value ∈ values_of (bs "upgrade") fields /\ has_token value (bs "websocket") = true;
  acceptable_connection :
    exists value, value ∈ values_of (bs "connection") fields /\ has_token value (bs "upgrade") = true;
  acceptable_key :
    values_of (bs "sec-websocket-key") fields = [key a] /\
    exists nonce, octets nonce /\ length nonce = 16%nat /\ key a = encode nonce Standard true;
  acceptable_ws_version : values_of (bs "sec-websocket-version") fields = [VERSION];
  acceptable_origin : forall allowed, origins config = Some allowed ->
    match values_of (bs "origin") fields with
    | [] => True
    | [origin] => exists candidate, candidate ∈ allowed /\ to_lower candidate = to_lower origin
    | _ => False
    end;
  acceptable_protocol : protocol a = chosen config (values_of (bs "sec-websocket-protocol") fields);
}.

Lemma existsb_elem {A} (f : A -> bool) l : existsb f l = true <-> exists x, x ∈ l /\ f x = true.
Proof. rewrite existsb_exists. split; intros (x & Hx & Hf); exists x; split; done || by apply list_elem_of_In. Qed.

Lemma single_once values value : single values = Once value <-> values = [value].
Proof. destruct values as [|v [|w l]]; cbn; naive_solver. Qed.

Lemma values_octets fields name :
  Forall (fun field => octets field.2) fields -> Forall octets (values_of name fields).
Proof.
  intros Ho. unfold values_of. apply Forall_fmap, Forall_forall. intros f [_ Hf]%list_elem_of_filter.
  rewrite Forall_forall in Ho. by apply Ho.
Qed.

Lemma negotiate_sound method http11_or_later fields config a :
  Forall (fun field => octets field.2) fields ->
  negotiate method http11_or_later fields config = Ok a -> acceptable method http11_or_later fields config a.
Proof.
  intros Ho. unfold negotiate. rewrite look_all. unfold summary.
  cbn [seen_host seen_upgrade seen_connection seen_key seen_version seen_origin seen_protocol].
  destruct (bool_decide_reflect (method = Some Get)) as [Hm|]; [|done]. destruct http11_or_later; [|done].
  destruct (bool_decide_reflect (values_of (bs "host") fields = [])) as [|Hh]; [done|].
  destruct (existsb _ _) eqn:Hu; [|done]. destruct (existsb _ (values_of (bs "connection") _)) eqn:Hc; [|done].
  cbn [negb]. destruct (single _) as [|k|] eqn:Hk; [done| |done]. apply single_once in Hk.
  destruct (is_valid_key k) eqn:Hvk; [|done]. cbn [negb].
  destruct (single (values_of (bs "sec-websocket-version") _)) as [|v|] eqn:Hv; [done| |done].
  case_bool_decide; [|done]. subst v. apply single_once in Hv.
  destruct (negb _) eqn:Hp; [done|]. intros [= <-]. apply negb_false_iff in Hp.
  split; try done; [by apply existsb_elem | by apply existsb_elem | |].
  + split; [done|]. apply is_valid_key_spec; [|done]. pose proof (values_octets fields (bs "sec-websocket-key") Ho) as Hoct.
    rewrite Hk in Hoct. by rewrite Forall_singleton in Hoct.
  + intros allowed Ha. rewrite Ha in Hp. destruct (values_of (bs "origin") fields) as [|o [|]]; [done| |done].
    cbn in Hp. apply existsb_elem in Hp as (c & Hc' & He%eq_ignore_ascii_case_spec). by exists c.
Qed.

(** A handshake is accepted exactly when it meets the conditions of RFC 6455
    Section 4.2.1, and then with its key and with the first subprotocol it offers that
    the server speaks: a GET of HTTP/1.1 or later with a Host, an Upgrade that lists
    websocket and a Connection that lists upgrade in whatever case, one key that is
    the encoding of sixteen octets, one version that is 13, and no Origin or one that
    is allowed. *)
Theorem handshake_accepted method http11_or_later fields config a :
  Forall (fun field => octets field.2) fields ->
  negotiate method http11_or_later fields config = Ok a <-> acceptable method http11_or_later fields config a.
Proof.
  intros Ho. split; [by apply negotiate_sound|].
  unfold negotiate. rewrite look_all. unfold summary.
  cbn [seen_host seen_upgrade seen_connection seen_key seen_version seen_origin seen_protocol].
  intros [-> -> Hh Hu%existsb_elem Hc%existsb_elem [Hk Hkey] Hv Hor Hp].
  rewrite (bool_decide_eq_true_2 (Some Get = Some Get)), (bool_decide_eq_false_2 _ Hh), Hu, Hc, Hk by done.
  cbn [negb single]. apply is_valid_key_spec in Hkey; [|].
  2: { pose proof (values_octets fields (bs "sec-websocket-key") Ho) as Hoct. rewrite Hk in Hoct. by rewrite Forall_singleton in Hoct. }
  rewrite Hkey, Hv. cbn [negb single]. rewrite bool_decide_eq_true_2 by done.
  destruct (origins config) as [allowed|] eqn:Ha; cbn [negb]; [|by rewrite <- Hp; destruct a].
  specialize (Hor _ eq_refl). destruct (values_of (bs "origin") fields) as [|o [|]]; [by rewrite <- Hp; destruct a| |done].
  cbn [single]. rewrite (proj2 (existsb_elem _ allowed)); [by rewrite <- Hp; destruct a|].
  destruct Hor as (c & Hc' & He). exists c. split; [done|]. by apply eq_ignore_ascii_case_spec.
Qed.

(** The request of Section 1.3, and one without its Host. *)
Definition sample_fields : list (bytes * bytes) :=
  [(bs "Host", bs "server.example.com"); (bs "Upgrade", bs "WebSocket"); (bs "Connection", bs "keep-alive, Upgrade");
   (bs "Sec-WebSocket-Key", bs "dGhlIHNhbXBsZSBub25jZQ=="); (bs "Sec-WebSocket-Protocol", bs "chat, superchat");
   (bs "Sec-WebSocket-Version", bs "13")].
Definition sample_config : Config := MkConfig [bs "superchat"] None.
Definition sample_accepted : Accepted := MkAccepted (bs "dGhlIHNhbXBsZSBub25jZQ==") (Some (bs "superchat")).

Lemma sample_octets : Forall (fun field => octets field.2) sample_fields.
Proof.
  assert (forallb (fun field => forallb (fun b => (0 <=? b) && (b <? 256)) field.2) sample_fields = true) as H
    by (vm_compute; reflexivity).
  rewrite forallb_forall in H. apply Forall_forall. intros f Hf. apply list_elem_of_In, H in Hf.
  rewrite forallb_forall in Hf. apply Forall_forall. intros b Hb. apply list_elem_of_In, Hf in Hb. word_lia.
Qed.

Lemma handshake_accepted_witness :
  acceptable (Some Get) true sample_fields sample_config sample_accepted /\
  ~ acceptable (Some Get) true (drop 1 sample_fields) sample_config sample_accepted.
Proof.
  split.
  - apply handshake_accepted; [exact sample_octets | vm_compute; reflexivity].
  - intros H. apply handshake_accepted in H; [vm_compute in H; discriminate|].
    apply (Forall_drop _ 1), sample_octets.
Defined.

Section laws.
Context `{DigestLaws}.

Lemma accept_ok key hash :
  length key = KEY_LEN -> digest (key ++ GUID) (replicate 20 0) = (hash, Ok tt) ->
  accept key = Ok (encode hash Standard true) /\ length (encode hash Standard true) = ACCEPT_LEN.
Proof.
  intros Hk Hd. unfold accept. rewrite Hk, Nat.eqb_refl, Hd. cbn [negb].
  destruct (digest_fills _ _ _ Hd) as (Hout & Hlen & Ho). rewrite length_replicate in Hout.
  assert (length hash = 20%nat) as Hh by congruence. assert (len hash = 20) as Hl by (unfold len; lia).
  pose proof (encode_length hash 28 Ho ltac:(by rewrite Hl) ltac:(by rewrite Hl)) as Ht.
  change (Z.to_nat 28) with ACCEPT_LEN in Ht. split; [|done].
  rewrite base64_encode_text in * by (done || by rewrite Hl).
  rewrite encode_slice_text by (done || (by rewrite Hl) || (by rewrite length_replicate, Ht)).
  cbn [map_err]. rewrite drop_ge by by rewrite length_replicate, Ht. by rewrite app_nil_r.
Qed.

(** The answer to an accepted handshake: the accept value is the encoding of the
    digest of the client's key and the GUID, in 28 octets, and the subprotocol that
    was chosen is named, and only then. *)
Theorem handshake_answered method http11_or_later fields config a hash :
  Forall (fun field => octets field.2) fields ->
  negotiate method http11_or_later fields config = Ok a ->
  digest (key a ++ GUID) (replicate 20 0) = (hash, Ok tt) ->
  exists r, response_fields a = Ok r /\ decode (response_accept r) Standard true = Ok hash /\
    length (response_accept r) = ACCEPT_LEN /\
    response_iter r =
      [(bs "Upgrade", bs "websocket"); (bs "Connection", bs "Upgrade");
       (bs "Sec-WebSocket-Accept", encode hash Standard true)]
      ++ (match chosen config (values_of (bs "sec-websocket-protocol") fields) with
          | Some protocol => [(bs "Sec-WebSocket-Protocol", protocol)] | None => [] end).
Proof.
  intros Ho Hn Hd. apply negotiate_sound in Hn; [|done]. destruct (acceptable_key _ _ _ _ _ Hn) as [_ Hkey].
  destruct (accept_ok (key a) hash) as [Ha Hl]; [|done|].
  { destruct Hkey as (nonce & Hno & Hlen & Hk). rewrite Hk. by apply is_valid_key_length. }
  destruct (digest_fills _ _ _ Hd) as (Hout & Hlen & Hh). rewrite length_replicate in Hout.
  exists (MkResponseFields (encode hash Standard true) (protocol a)). unfold response_fields. rewrite Ha.
  split; [done|]. cbn [response_accept]. split; [|split; [done|]].
  - assert (len hash < 2 ^ 63) by (unfold len; rewrite Hlen, <- Hout; pow2; lia).
    rewrite base64_encode_text by done. by apply base64_decode_text.
  - unfold response_iter. cbn [response_protocol response_accept].
    by rewrite (acceptable_protocol _ _ _ _ _ Hn).
Qed.
End laws.

(** A digest that keeps the low twenty octets of the message. *)
#[local] Instance tail_digest : Digest := {|
  output_len := 20%nat;
  digest data out :=
    match ensure_output_len 20 out with
    | Ok _ => (to_be 20 (from_be data), Ok tt)
    | Err e => (out, Err e)
    end;
|}.
#[local] Instance tail_laws : DigestLaws.
Proof.
  intros data out out'. cbn. unfold ensure_output_len. destruct (Nat.eqb_spec (length out) 20) as [Hl|]; [|done].
  intros [= <-]. split; [done|]. split; [apply (length_to_be 20) | apply (to_be_octets 20)].
Qed.

Lemma handshake_answered_witness :
  exists r, response_fields sample_accepted = Ok r /\ length (response_accept r) = ACCEPT_LEN /\
    (response_iter r) !! 3%nat = Some (bs "Sec-WebSocket-Protocol", bs "superchat").
Proof.
  destruct (handshake_answered (Some Get) true sample_fields sample_config sample_accepted
    (to_be 20 (from_be (key sample_accepted ++ GUID))) sample_octets
    ltac:(vm_compute; reflexivity) ltac:(vm_compute; reflexivity)) as (r & Hr & _ & Hl & Hi).
  exists r. split; [exact Hr|]. split; [exact Hl|]. rewrite Hi. vm_compute. reflexivity.
Defined.
