(* ===== verification/Date.v ===== *)
(** * The civil calendar and decimal numbers

    [zero-date/src/civil.rs] and [decimal.rs].  The conversions work on eras of 400
    years without loops; they are shown to walk the calendar day by day, and to be
    inverse to each other. *)
From S2P Require Import Prelude.

(** Signed words: the value when it fits, as the checked operations answer. *)
Definition fits (lo hi x : Z) : option Z := if (lo <=? x) && (x <=? hi) then Some x else None.
Definition i64 (x : Z) : option Z := fits (- 2 ^ 63) (2 ^ 63 - 1) x.
Definition i32 (x : Z) : option Z := fits (- 2 ^ 31) (2 ^ 31 - 1) x.
Definition as_u8 (x : Z) : option Z := fits 0 255 x.

(** ** The calendar *)

Record CivilDate : Type := MkDate {
  year : Z;
  month : Z;
  day : Z;
}.
#[global] Instance CivilDate_eq_dec : EqDecision CivilDate.
Proof. solve_decision. Defined.

Definition MIN_DAYS : Z := -719528.
Definition MAX_DAYS : Z := 2932896.
Definition DAYS_PER_ERA : Z := 146097.
Definition DAYS_TO_ERA_START : Z := 719468.

Definition is_leap_year (year : Z) : bool :=
  (year mod 4 =? 0) && (negb (year mod 100 =? 0) || (year mod 400 =? 0)).

Definition days_in_month (year month : Z) : option Z :=
  match month with
  | 1 | 3 | 5 | 7 | 8 | 10 | 12 => Some 31
  | 4 | 6 | 9 | 11 => Some 30
  | 2 => Some (if is_leap_year year then 29 else 28)
  | _ => None
  end.

Definition in_range (days : Z) : bool := (MIN_DAYS <=? days) && (days <=? MAX_DAYS).

Definition civil_from_days (days : Z) : option CivilDate :=
  if negb (in_range days) then None
  else
    let! shifted := i64 (days + DAYS_TO_ERA_START) in
    let era := shifted / DAYS_PER_ERA in
    let day_of_era := shifted mod DAYS_PER_ERA in
    let! n := i64 (day_of_era - day_of_era / 1460) in
    let! n := i64 (n + day_of_era / 36524) in
    let! n := i64 (n - day_of_era / 146096) in
    let year_of_era := n / 365 in
    let! eras := i64 (era * 400) in
    let! year := i64 (year_of_era + eras) in
    let! n := i64 (year_of_era * 365) in
    let! n := i64 (n + year_of_era / 4) in
    let! days_before_year := i64 (n - year_of_era / 100) in
    let! day_of_year := i64 (day_of_era - days_before_year) in
    let! n := i64 (day_of_year * 5) in
    let! n := i64 (n + 2) in
    let shifted_month := n / 153 in
    let! n := i64 (shifted_month * 153) in
    let! n := i64 (n + 2) in
    let days_before_month := n / 5 in
    let! n := i64 (day_of_year - days_before_month) in
    let! day := i64 (n + 1) in
    let! month := if shifted_month <? 10 then i64 (shifted_month + 3) else i64 (shifted_month - 9) in
    let! year := if month <=? 2 then i64 (year + 1) else Some year in
    let! year := i32 year in
    let! month := as_u8 month in
    let! day := as_u8 day in
    Some (MkDate year month day).

Definition days_from_civil (date : CivilDate) : option Z :=
  let 'MkDate year month day := date in
  let! last := days_in_month year month in
  if (day =? 0) || (last <? day) then None
  else
    let! year := if month <=? 2 then i64 (year - 1) else Some year in
    let era := year / 400 in
    let year_of_era := year mod 400 in
    let! shifted_month := if 2 <? month then i64 (month - 3) else i64 (month + 9) in
    let! n := i64 (shifted_month * 153) in
    let! n := i64 (n + 2) in
    let! n := i64 (n / 5 + day) in
    let! day_of_year := i64 (n - 1) in
    let! n := i64 (year_of_era * 365) in
    let! n := i64 (n + year_of_era / 4) in
    let! n := i64 (n - year_of_era / 100) in
    let! day_of_era := i64 (n + day_of_year) in
    let! n := i64 (era * DAYS_PER_ERA) in
    let! n := i64 (n + day_of_era) in
    let! days := i64 (n - DAYS_TO_ERA_START) in
    if in_range days then Some days else None.

Definition weekday_from_days (days : Z) : Z := (days mod 7 + 4) mod 7.

(** ** Decimal numbers *)

Definition MAX_DECIMAL_LEN : nat := 20.

Record Decimal : Type := MkDecimal {
  buf : bytes;
  start : nat;
}.

(** The loop of [new]: each turn writes the digit before the ones written. *)
Fixpoint digits_loop (fuel : nat) (value : Z) (self : Decimal) : Decimal :=
  match fuel with
  | O => self
  | S fuel =>
      let start := (start self - 1)%nat in
      let buf := <[start := wrapping_add 8 48 (value mod 10)]> (buf self) in
      let value := value / 10 in
      if value =? 0 then MkDecimal buf start else digits_loop fuel value (MkDecimal buf start)
  end.

(** A word of 64 bits has at most twenty digits. *)
Definition Decimal_new (value : Z) : Decimal :=
  digits_loop MAX_DECIMAL_LEN value (MkDecimal (replicate MAX_DECIMAL_LEN 48) MAX_DECIMAL_LEN).

Definition as_bytes (self : Decimal) : bytes := drop (start self) (buf self).
Definition decimal_len (self : Decimal) : nat := MAX_DECIMAL_LEN - start self.

Example epoch : civil_from_days 0 = Some (MkDate 1970 1 1) /\ days_from_civil (MkDate 2000 2 29) = Some 11016.
Proof. split; vm_compute; reflexivity. Qed.
Example decimal_max : as_bytes (Decimal_new (2 ^ 64 - 1)) = bs "18446744073709551615".
Proof. vm_compute. reflexivity. Qed.
Example decimal_zero : as_bytes (Decimal_new 0) = bs "0".
Proof. vm_compute. reflexivity. Qed.

(** ** The walk *)

(** A date of the calendar with a four-digit year. *)
Definition real (date : CivilDate) : Prop :=
  0 <= year date <= 9999 /\ exists last, days_in_month (year date) (month date) = Some last /\ 1 <= day date <= last.

Definition next_day (date : CivilDate) : CivilDate :=
  let 'MkDate year month day := date in
  if day <? default 31 (days_in_month year month) then MkDate year month (day + 1)
  else if month <? 12 then MkDate year (month + 1) 1
  else MkDate (year + 1) 1 1.

(** Years that begin in March, months counted from March. *)
Definition march_year (date : CivilDate) : Z := if month date <=? 2 then year date - 1 else year date.
Definition march_month (date : CivilDate) : Z := if 2 <? month date then month date - 3 else month date + 9.
Definition month_start (m : Z) : Z := (153 * m + 2) / 5.
Definition year_start (y : Z) : Z := 365 * y + y / 4 - y / 100.
Definition day_of_year (date : CivilDate) : Z := month_start (march_month date) + day date - 1.
Definition day_number (date : CivilDate) : Z :=
  march_year date / 400 * 146097 + year_start (march_year date mod 400) + day_of_year date - DAYS_TO_ERA_START.

Ltac euclid := Z.to_euclidean_division_equations; lia.

Lemma fits_Some lo hi x : lo <= x <= hi -> fits lo hi x = Some x.
Proof. intros H. unfold fits. rewrite (proj2 (Z.leb_le lo x)), (proj2 (Z.leb_le x hi)) by lia. done. Qed.

Lemma leap_bool y : is_leap_year y = true <-> y mod 4 = 0 /\ (y mod 100 <> 0 \/ y mod 400 = 0).
Proof.
  unfold is_leap_year. rewrite andb_true_iff, orb_true_iff, negb_true_iff, !Z.eqb_eq, Z.eqb_neq. done.
Qed.

Lemma month_cases y m last : days_in_month y m = Some last ->
  (m = 1 \/ m = 3 \/ m = 5 \/ m = 7 \/ m = 8 \/ m = 10 \/ m = 12) /\ last = 31 \/
  (m = 4 \/ m = 6 \/ m = 9 \/ m = 11) /\ last = 30 \/
  m = 2 /\ last = (if is_leap_year y then 29 else 28).
Proof. unfold days_in_month. repeat (case_match; try done); intros [= <-]; lia. Qed.

Lemma days_in_month_bound y m last : days_in_month y m = Some last -> 1 <= m <= 12 /\ 28 <= last <= 31.
Proof. intros H%month_cases. destruct (is_leap_year y); lia. Qed.

(** The years before, in closed form. *)
Lemma years_closed y : y / 400 * 146097 + year_start (y mod 400) = 365 * y + y / 4 - y / 100 + y / 400.
Proof. unfold year_start. euclid. Qed.

Lemma div_step k y : 0 < k -> y / k = (y - 1) / k + (if y mod k =? 0 then 1 else 0).
Proof.
  intros Hk. pose proof (Z.div_mod y k). pose proof (Z.mod_pos_bound y k Hk).
  destruct (Z.eqb_spec (y mod k) 0).
  - rewrite <- (Z.div_unique (y - 1) k (y / k - 1) (k - 1)); lia.
  - rewrite <- (Z.div_unique (y - 1) k (y / k) (y mod k - 1)); lia.
Qed.

(** A year has 365 days, or 366 when it is a leap year. *)
Lemma leap_day y :
  (y / 4 - y / 100 + y / 400) - ((y - 1) / 4 - (y - 1) / 100 + (y - 1) / 400) = if is_leap_year y then 1 else 0.
Proof.
  rewrite (div_step 4 y), (div_step 100 y), (div_step 400 y) by lia.
  unfold is_leap_year. destruct (Z.eqb_spec (y mod 4) 0), (Z.eqb_spec (y mod 100) 0), (Z.eqb_spec (y mod 400) 0);
    cbn [andb orb negb]; euclid.
Qed.

(** One goal for each month, with its number and its last day. *)
Ltac months H :=
  apply month_cases in H as [[H ->]|[[H ->]|[-> ->]]];
  repeat match type of H with _ \/ _ => destruct H as [->|H] end; subst; cbn [Z.leb Z.ltb Z.compare Pos.compare Pos.compare_cont].

(** Arithmetic on numerals. *)
Ltac constants :=
  repeat match goal with
  | |- context [?f (Zpos ?a) (Zpos ?b)] =>
      lazymatch f with Z.add => idtac | Z.sub => idtac | Z.leb => idtac | Z.ltb => idtac | Z.div => idtac | Z.mul => idtac end;
      let v := eval vm_compute in (f (Zpos a) (Zpos b)) in change (f (Zpos a) (Zpos b)) with v
  | |- context [153 * 0 + 2] => change (153 * 0 + 2) with 2
  end.

Lemma real_bounds date : real date ->
  0 <= march_month date <= 11 /\ -1 <= march_year date <= 9999 /\ 0 <= day_of_year date <= 365 /\
  MIN_DAYS <= day_number date <= MAX_DAYS.
Proof.
  destruct date as [y m d]. intros (Hy & last & Hl & Hd). cbn [year month day] in *.
  unfold day_number. rewrite years_closed. unfold day_of_year, march_year, march_month, month_start.
  cbn [year month day]. unfold DAYS_TO_ERA_START, MIN_DAYS, MAX_DAYS.
  months Hl; repeat split; destruct (is_leap_year y); try lia; euclid.
Qed.

(** Every date of the range is computed without overflow. *)
Lemma days_from_civil_real date : real date -> days_from_civil date = Some (day_number date).
Proof.
  intros Hr. pose proof (real_bounds date Hr) as (Hmm & Hmy & Hdy & Hdn).
  destruct date as [y m d]. destruct Hr as (Hy & last & Hl & Hd). cbn [year month day] in *. unfold days_from_civil.
  rewrite Hl. rewrite (proj2 (Z.eqb_neq d 0)), (proj2 (Z.ltb_ge last d)) by lia. cbn [orb].
  assert ((if m <=? 2 then i64 (y - 1) else Some y) = Some (march_year (MkDate y m d))) as ->.
  { unfold march_year in *. cbn [year month] in *. destruct (m <=? 2); [|done]. apply fits_Some. lia. }
  assert ((if 2 <? m then i64 (m - 3) else i64 (m + 9)) = Some (march_month (MkDate y m d))) as ->.
  { unfold march_month in *. cbn [year month] in *. destruct (2 <? m); apply fits_Some; lia. }
  unfold day_number, day_of_year, month_start, year_start, in_range in *. cbn [day] in *.
  set (my := march_year _) in *. set (mm := march_month _) in *. clearbody my mm.
  unfold DAYS_PER_ERA, DAYS_TO_ERA_START in *.
  pose proof (Z.mod_pos_bound my 400). pose proof (Z.div_mod my 400).
  unfold i64. repeat (rewrite fits_Some by euclid).
  rewrite (Z.mul_comm mm 153), (Z.mul_comm (my mod 400) 365).
  match goal with |- (if ?b then Some ?x else _) = Some ?z => replace x with z by lia end.
  by rewrite (proj2 (Z.leb_le MIN_DAYS _)), (proj2 (Z.leb_le _ MAX_DAYS)) by lia.
Qed.

Lemma real_next date : real date -> date <> MkDate 9999 12 31 -> real (next_day date).
Proof.
  destruct date as [y m d]. intros (Hy & last & Hl & Hd) Hne. cbn [year month day] in *. unfold next_day. rewrite Hl.
  cbn [default from_option id]. destruct (Z.ltb_spec d last).
  { split; [done|]. exists last. cbn [year month day]. split; [done|]. lia. }
  assert (d = last) as -> by lia.
  destruct (Z.ltb_spec m 12).
  - assert (exists last', days_in_month y (m + 1) = Some last' /\ 1 <= last') as (last' & Hl' & H1).
    { months Hl; try lia; eexists; (split; [reflexivity|]); try lia; destruct (is_leap_year y); lia. }
    split; [done|]. exists last'. cbn [year month day]. split; [done|]. lia.
  - assert (m = 12 /\ last = 31) as [-> ->] by (months Hl; lia).
    split; [cbn; destruct (decide (y = 9999)) as [->|]; [done|lia]|]. exists 31. cbn. split; [done|]. lia.
Qed.

Lemma day_number_next date : real date -> day_number (next_day date) = day_number date + 1.
Proof.
  destruct date as [y m d]. intros (Hy & last & Hl & Hd). cbn [year month day] in *. unfold next_day. rewrite Hl.
  cbn [default from_option id]. pose proof (leap_day y) as Hleap.
  destruct (Z.ltb_spec d last).
  { unfold day_number, day_of_year, march_year, march_month. cbn [year month day]. lia. }
  assert (d = last) as -> by lia. unfold day_number. rewrite !years_closed.
  unfold day_of_year, march_year, march_month, month_start.
  months Hl; repeat progress (constants; cbn [year month day]; cbv iota); rewrite ?(Z.add_simpl_r y 1); try destruct (is_leap_year y); lia.
Qed.

(** ** The way back *)

Definition year_estimate (doe : Z) : Z := doe - doe / 1460 + doe / 36524 - doe / 146096.

Lemma estimate_step doe : year_estimate doe <= year_estimate (doe + 1).
Proof. unfold year_estimate. euclid. Qed.

Lemma estimate_mono a b : a <= b -> year_estimate a <= year_estimate b.
Proof.
  intros H. replace b with (a + Z.of_nat (Z.to_nat (b - a))) by lia. generalize (Z.to_nat (b - a)) as n.
  clear b H. induction n as [|n IH]; [by rewrite Z.add_0_r|].
  pose proof (estimate_step (a + Z.of_nat n)). replace (a + Z.of_nat (S n)) with (a + Z.of_nat n + 1) by lia. lia.
Qed.

(** The first and the last day of each of the 400 years of an era. *)
Lemma estimate_years :
  forallb (fun y => (365 * y <=? year_estimate (year_start y))
    && (year_estimate (year_start y + 364 + (if is_leap_year (y + 1) then 1 else 0)) <? 365 * (y + 1)))
    (seqZ 0 400) = true.
Proof. vm_compute. reflexivity. Qed.

Lemma estimate_year y doy : 0 <= y < 400 -> 0 <= doy <= 364 + (if is_leap_year (y + 1) then 1 else 0) ->
  year_estimate (year_start y + doy) / 365 = y.
Proof.
  intros Hy Hd. pose proof estimate_years as H. rewrite forallb_forall in H. specialize (H y).
  rewrite <- list_elem_of_In, elem_of_seqZ in H. specialize (H Hy). apply andb_prop in H as [H1%Z.leb_le H2%Z.ltb_lt].
  pose proof (estimate_mono (year_start y) (year_start y + doy) ltac:(lia)).
  pose proof (estimate_mono (year_start y + doy) (year_start y + 364 + (if is_leap_year (y + 1) then 1 else 0)) ltac:(lia)).
  symmetry. apply Z.div_unique with (year_estimate (year_start y + doy) - 365 * y); lia.
Qed.

Lemma leap_mod y : is_leap_year (y mod 400 + 1) = is_leap_year (y + 1).
Proof.
  apply eq_true_iff_eq. rewrite !leap_bool. 
  assert ((y mod 400 + 1) mod 4 = (y + 1) mod 4 /\ (y mod 400 + 1) mod 100 = (y + 1) mod 100 /\
    (y mod 400 + 1) mod 400 = (y + 1) mod 400) as (-> & -> & ->); [|done].
  split; [|split]; euclid.
Qed.

(** The day of the year is within it. *)
Lemma day_of_year_bound date : real date ->
  0 <= day_of_year date <= 364 + (if is_leap_year (march_year date + 1) then 1 else 0).
Proof.
  destruct date as [y m d]. intros (Hy & last & Hl & Hd). cbn [year month day] in *.
  unfold day_of_year, march_year, march_month, month_start. cbn [year month day].
  months Hl; replace (y - 1 + 1) with y by lia; destruct (is_leap_year _); euclid.
Qed.

(** The month and the day of a day of the year. *)
Lemma month_back date : real date ->
  (day_of_year date * 5 + 2) / 153 = march_month date /\
  day_of_year date - (march_month date * 153 + 2) / 5 + 1 = day date /\
  (if march_month date <? 10 then march_month date + 3 else march_month date - 9) = month date /\
  (if month date <=? 2 then march_year date + 1 else march_year date) = year date.
Proof.
  destruct date as [y m d]. intros (Hy & last & Hl & Hd). cbn [year month day] in *.
  unfold day_of_year, march_year, march_month, month_start. cbn [year month day].
  months Hl; repeat progress (constants; cbv iota); try destruct (is_leap_year y); repeat split; lia || euclid.
Qed.

Lemma civil_from_days_real date : real date -> civil_from_days (day_number date) = Some date.
Proof.
  intros Hr. pose proof (real_bounds date Hr) as (Hmm & Hmy & Hdy & Hdn).
  pose proof (day_of_year_bound date Hr) as Hdoy. pose proof (month_back date Hr) as (Hm1 & Hd1 & Hm2 & Hy2).
  rewrite <- leap_mod in Hdoy.
  pose proof (estimate_year (march_year date mod 400) (day_of_year date) ltac:(apply Z.mod_pos_bound; lia) Hdoy) as Hy.
  destruct Hr as (Hyr & last & Hl & Hd). pose proof (days_in_month_bound _ _ _ Hl) as (Hmb & Hlb).
  unfold civil_from_days, in_range. rewrite (proj2 (Z.leb_le MIN_DAYS _)), (proj2 (Z.leb_le _ MAX_DAYS)) by lia.
  cbn [andb negb].
  set (my := march_year date) in *. set (mm := march_month date) in *. set (doy := day_of_year date) in *.
  assert (day_number date + DAYS_TO_ERA_START = my / 400 * 146097 + (year_start (my mod 400) + doy)) as Hsh
    by (unfold day_number; fold my doy; lia).
  rewrite Hsh. pose proof (Z.mod_pos_bound my 400 ltac:(lia)). pose proof (Z.div_mod my 400 ltac:(lia)).
  set (r := my mod 400) in *. set (e := my / 400) in *.
  assert (0 <= year_start r + doy < 146097) as Hdoe.
  { unfold year_start. destruct (is_leap_year (r + 1)) eqn:Hlp; [apply leap_bool in Hlp|]; euclid. }
  unfold i64, i32, as_u8. unfold DAYS_PER_ERA. rewrite (fits_Some _ _ (e * 146097 + _)) by euclid.
  rewrite (Z.add_comm (e * 146097)), Z.div_add, Z.mod_add, (Z.div_small _ _ Hdoe), (Z.mod_small _ _ Hdoe) by lia.
  unfold year_estimate in Hy. set (doe := year_start r + doy) in *.
  rewrite (fits_Some _ _ (doe - doe / 1460)) by euclid. rewrite (fits_Some _ _ (_ + doe / 36524)) by euclid.
  rewrite (fits_Some _ _ (_ - doe / 146096)) by euclid. rewrite Hy.
  rewrite (fits_Some _ _ ((0 + e) * 400)) by euclid. rewrite (fits_Some _ _ (r + _)) by euclid.
  rewrite (fits_Some _ _ (r * 365)) by euclid. rewrite (fits_Some _ _ (r * 365 + _)) by euclid.
  rewrite (fits_Some _ _ (r * 365 + r / 4 - _)) by euclid.
  replace (doe - (r * 365 + r / 4 - r / 100)) with doy by (unfold doe, year_start; lia).
  rewrite (fits_Some _ _ doy), (fits_Some _ _ (doy * 5)), (fits_Some _ _ (doy * 5 + 2)) by lia. rewrite Hm1.
  rewrite (fits_Some _ _ (mm * 153)), (fits_Some _ _ (mm * 153 + 2)) by lia.
  rewrite (fits_Some _ _ (doy - _)) by euclid. rewrite Hd1, (fits_Some _ _ (day date)) by lia.
  assert ((if mm <? 10 then fits (- 2 ^ 63) (2 ^ 63 - 1) (mm + 3) else fits (- 2 ^ 63) (2 ^ 63 - 1) (mm - 9))
    = Some (month date)) as ->.
  { rewrite <- Hm2. destruct (mm <? 10); apply fits_Some; lia. }
  replace (r + (0 + e) * 400) with my by lia.
  assert ((if month date <=? 2 then fits (- 2 ^ 63) (2 ^ 63 - 1) (my + 1) else Some my) = Some (year date)) as ->.
  { rewrite <- Hy2. destruct (month date <=? 2); [apply fits_Some; lia | done]. }
  rewrite !fits_Some by lia. by destruct date.
Qed.

(** Every day of the range is a real date: the walk from the first one reaches it. *)
Lemma walk n : MIN_DAYS + Z.of_nat n <= MAX_DAYS ->
  exists date, real date /\ day_number date = MIN_DAYS + Z.of_nat n.
Proof.
  induction n as [|n IH]; intros Hn.
  - exists (MkDate 0 1 1). split; [|reflexivity]. split; [cbn; lia|]. exists 31. cbn. split; [done|lia].
  - destruct IH as (date & Hr & Hd); [lia|]. exists (next_day date).
    rewrite day_number_next by done. split; [|lia]. apply real_next; [done|]. intros ->.
    assert (day_number (MkDate 9999 12 31) = MAX_DAYS) by (vm_compute; reflexivity). lia.
Qed.

Lemma fits_inv lo hi x y : fits lo hi x = Some y -> y = x.
Proof. unfold fits. destruct (_ && _); [by intros [= <-] | done]. Qed.

(** A date that has a count is one of the calendar; the day is unsigned. *)
Lemma days_from_civil_only date days : 0 <= day date -> days_from_civil date = Some days -> real date.
Proof.
  destruct date as [y m d]. cbn [day]. intros Hd0. unfold days_from_civil.
  destruct (days_in_month y m) as [last|] eqn:Hl; [|done].
  destruct (Z.eqb_spec d 0); [done|]. destruct (Z.ltb_spec last d); [done|]. cbn [orb].
  intros Hdays. split; [|exists last; cbn; split; [done|lia]]. cbn [year].
  assert (in_range (day_number (MkDate y m d)) = true) as Hin.
  { revert Hdays. unfold day_number, day_of_year, march_year, march_month, month_start, year_start. cbn [year month day].
    destruct (if m <=? 2 then i64 (y - 1) else Some y) as [y'|] eqn:Hy'; [|done].
    assert (y' = if m <=? 2 then y - 1 else y) as <-
      by (destruct (m <=? 2); [by apply fits_inv in Hy' | by injection Hy']).
    destruct (if 2 <? m then i64 (m - 3) else i64 (m + 9)) as [m'|] eqn:Hm'; [|done].
    assert (m' = if 2 <? m then m - 3 else m + 9) as <- by (destruct (2 <? m); by apply fits_inv in Hm').
    repeat match goal with |- context [i64 ?x] =>
      let H := fresh in let z := fresh in destruct (i64 x) as [z|] eqn:H; [apply fits_inv in H; subst z | done] end.
    intros Hdays. unfold DAYS_PER_ERA in Hdays. rewrite (Z.mul_comm 153), (Z.mul_comm 365).
    match type of Hdays with (if in_range ?x then _ else _) = _ =>
      destruct (in_range x) eqn:Hr; [|done]; rewrite <- Hr; f_equal; lia end. }
  clear Hdays. unfold in_range in Hin. apply andb_prop in Hin as [H1%Z.leb_le H2%Z.leb_le]. revert H1 H2.
  unfold day_number. rewrite years_closed. unfold day_of_year, march_year, march_month, month_start.
  cbn [year month day]. unfold DAYS_TO_ERA_START, MIN_DAYS, MAX_DAYS. intros H1 H2.
  apply month_cases in Hl. destruct (is_leap_year y), (Z.leb_spec m 2), (Z.ltb_spec 2 m); euclid.
Qed.

(** C36. The conversions walk the calendar: the first day of the year 0 is MIN_DAYS, the
    day after a date, by the lengths of the months and the rule of leap years, is one
    more, and up to the last day of the year 9999 a count and a date determine each
    other; a count outside the range has no date, and a date that does not exist, or
    whose year has not four digits, has no count. *)
Theorem calendar :
  days_from_civil (MkDate 0 1 1) = Some MIN_DAYS /\ days_from_civil (MkDate 9999 12 31) = Some MAX_DAYS /\
  (forall date, real date -> date <> MkDate 9999 12 31 ->
     real (next_day date) /\ days_from_civil (next_day date) = (fun n => n + 1) <$> days_from_civil date) /\
  (forall days date, civil_from_days days = Some date <->
     real date /\ days_from_civil date = Some days) /\
  (forall days, in_range days = false <-> civil_from_days days = None) /\
  (forall date days, 0 <= day date -> days_from_civil date = Some days -> real date).
Proof.
  split; [reflexivity|]. split; [vm_compute; reflexivity|].
  assert (forall days, in_range days = true -> exists date, real date /\ day_number date = days) as Hwalk.
  { intros days Hr. unfold in_range in Hr. apply andb_prop in Hr as [H1%Z.leb_le H2%Z.leb_le].
    destruct (walk (Z.to_nat (days - MIN_DAYS))) as (date & Hreal & Hd); [lia|]. exists date. split; [done|lia]. }
  assert (forall days, in_range days = false -> civil_from_days days = None) as Hout
    by (intros days H; unfold civil_from_days; by rewrite H).
  split; [|split; [|split; [|apply days_from_civil_only]]].
  - intros date Hr Hne. pose proof (real_next date Hr Hne) as Hn. split; [done|].
    rewrite !days_from_civil_real by done. cbn. by rewrite day_number_next.
  - intros days date. split.
    + intros Hc. destruct (in_range days) eqn:Hr; [|by rewrite Hout in Hc].
      destruct (Hwalk days Hr) as (date' & Hreal & <-). rewrite civil_from_days_real in Hc by done.
      injection Hc as <-. split; [done|]. by apply days_from_civil_real.
    + intros [Hreal Hd]. rewrite days_from_civil_real in Hd by done. injection Hd as <-.
      by apply civil_from_days_real.
  - intros days. split; [apply Hout|]. intros Hc. destruct (in_range days) eqn:Hr; [|done].
    destruct (Hwalk days Hr) as (date & Hreal & <-). by rewrite civil_from_days_real in Hc.
Qed.

(** ** Decimal digits *)

(** The digits of a number of at most [k] digits. *)
Fixpoint digits (k : nat) (n : Z) : bytes :=
  match k with
  | O => []
  | S k => (if n / 10 =? 0 then [] else digits k (n / 10)) ++ [48 + n mod 10]
  end.

Definition value_from (acc : Z) (text : bytes) : Z := fold_left (fun acc b => acc * 10 + (b - 48)) text acc.

Lemma value_from_app acc l m : value_from acc (l ++ m) = value_from (value_from acc l) m.
Proof. apply fold_left_app. Qed.

Lemma pow10 k : 10 ^ Z.of_nat (S k) = 10 * 10 ^ Z.of_nat k.
Proof. rewrite Nat2Z.inj_succ, Z.pow_succ_r; lia. Qed.

Lemma digits_value k : forall n, 0 <= n < 10 ^ Z.of_nat k -> value_from 0 (digits k n) = n.
Proof.
  induction k as [|k IH]; intros n Hn; cbn [digits]; [cbn in *; lia|]. rewrite pow10 in Hn. rewrite value_from_app.
  destruct (Z.eqb_spec (n / 10) 0) as [Hz|Hz].
  - unfold value_from. cbn [fold_left]. euclid.
  - rewrite IH by euclid. unfold value_from. cbn [fold_left]. euclid.
Qed.

Lemma digits_digit k n : 0 <= n -> Forall (fun b => 48 <= b <= 57) (digits k n).
Proof.
  revert n. induction k as [|k IH]; intros n Hn; cbn [digits]; [constructor|].
  apply Forall_app_2; [|rewrite Forall_singleton; euclid].
  destruct (n / 10 =? 0); [constructor|]. apply IH. euclid.
Qed.

Lemma digits_length k n : (length (digits k n) <= k)%nat.
Proof.
  revert n. induction k as [|k IH]; intros n; cbn [digits]; [done|].
  rewrite length_app. cbn [length]. specialize (IH (n / 10)). destruct (n / 10 =? 0); cbn [length]; lia.
Qed.

(** No number but zero begins with a zero. *)
Lemma digits_head k n : 0 < n < 10 ^ Z.of_nat k -> exists b rest, digits k n = b :: rest /\ b <> 48.
Proof.
  revert n. induction k as [|k IH]; intros n Hn; [cbn in *; lia|]. rewrite pow10 in Hn. cbn [digits].
  destruct (Z.eqb_spec (n / 10) 0) as [Hz|Hz].
  - exists (48 + n mod 10), []. split; [done|]. euclid.
  - destruct (IH (n / 10)) as (b & rest & -> & Hb); [euclid|]. by eexists b, _.
Qed.

Lemma digits_loop_text k : forall n self, 0 <= n < 10 ^ Z.of_nat k -> n < 10 ^ Z.of_nat 20 ->
  (k <= start self <= length (buf self))%nat -> (0 < k)%nat ->
  let self' := digits_loop k n self in
  drop (start self') (buf self') = digits k n ++ drop (start self) (buf self) /\
  (start self' + length (digits k n))%nat = start self /\ length (buf self') = length (buf self).
Proof.
  induction k as [|k IH]; intros n self Hn H20 Hk Hpos; [lia|]. rewrite pow10 in Hn.
  cbn [digits_loop digits]. destruct self as [buf start]. cbn [Date.buf Date.start] in *.
  assert (wrapping_add 8 48 (n mod 10) = 48 + n mod 10) as ->.
  { unfold wrapping_add. rewrite Z.mod_small; [done|]. pow2. euclid. }
  set (d := 48 + n mod 10).
  assert (drop (start - 1) (<[(start - 1)%nat:=d]> buf) = d :: drop start buf) as Hdrop.
  { rewrite (drop_S (<[(start - 1)%nat:=d]> buf) d) by (apply list_lookup_insert_eq; lia).
    rewrite drop_insert_lt by lia. do 2 f_equal. lia. }
  destruct (Z.eqb_spec (n / 10) 0) as [Hz|Hz]; cbn [Date.buf Date.start].
  - rewrite Hdrop, length_insert. split; [done|]. cbn. lia.
  - assert (0 < k)%nat as Hk0 by (destruct k; [cbn in Hn; euclid | lia]).
    destruct (IH (n / 10) (MkDecimal (<[(start - 1)%nat:=d]> buf) (start - 1))) as (H1 & H2 & H3).
    + euclid.
    + euclid.
    + cbn. rewrite length_insert. lia.
    + done.
    + cbn [Date.buf Date.start] in *. rewrite H1, Hdrop, <- app_assoc. split; [done|]. rewrite length_app, H3, length_insert.
      cbn [length]. lia.
Qed.

Definition decimal_text (n : Z) : bytes := digits 20 n.

Lemma decimal_new_text n : 0 <= n < 2 ^ 64 -> as_bytes (Decimal_new n) = decimal_text n /\
  decimal_len (Decimal_new n) = length (decimal_text n).
Proof.
  intros Hn. assert (0 <= n < 10 ^ Z.of_nat 20) as H20 by (change (10 ^ Z.of_nat 20) with 100000000000000000000; pow2; lia).
  unfold Decimal_new, as_bytes, decimal_len, decimal_text. unfold MAX_DECIMAL_LEN.
  destruct (digits_loop_text 20 n (MkDecimal (replicate 20 48) 20) H20) as (H1 & H2 & _); [lia|cbn; lia|lia|].
  cbn [start buf] in *. rewrite H1. split; [by rewrite app_nil_r|]. lia.
Qed.

(** C38. A number of 64 bits is written in the fewest decimal digits: one to twenty
    digits, no leading zero, and their value is the number. *)
Theorem decimal_exact n : 0 <= n < 2 ^ 64 ->
  let text := as_bytes (Decimal_new n) in
  Forall (fun b => 48 <= b <= 57) text /\ value_from 0 text = n /\ (1 <= length text <= MAX_DECIMAL_LEN)%nat /\
  decimal_len (Decimal_new n) = length text /\ (head text = Some 48 -> n = 0).
Proof.
  intros Hn text. destruct (decimal_new_text n Hn) as [Ht Hl]. subst text. rewrite Ht, Hl.
  assert (0 <= n < 10 ^ Z.of_nat 20) as H20 by (change (10 ^ Z.of_nat 20) with 100000000000000000000; pow2; lia).
  unfold decimal_text. split; [apply digits_digit; lia|]. split; [by apply digits_value|].
  split; [split; [|apply digits_length]|].
  { cbn [digits]. rewrite length_app. cbn [length]. lia. }
  split; [done|]. intros Hh. destruct (decide (n = 0)) as [|Hne]; [done|].
  destruct (digits_head 20 n) as (b & rest & Hd & Hb); [lia|]. rewrite Hd in Hh. cbn in Hh. congruence.
Qed.

Lemma decimal_exact_witness : value_from 0 (as_bytes (Decimal_new 1024)) = 1024 /\ as_bytes (Decimal_new 1024) = bs "1024".
Proof. split; [apply (decimal_exact 1024); lia | vm_compute; reflexivity]. Defined.
