(* ===== verification/CoreBuf.v ===== *)
(** * The buffer that crosses the input and output seam

    [zero-core/src/buf.rs]: a fixed storage and how much of it is filled.  Its filled
    octets are a bounded list: what [put] appends to and [consume] takes the front of. *)
From S2P Require Import Prelude Core Date.

Record OwnedBuf : Type := MkOwnedBuf { storage : bytes; filled_len : nat }.

Definition with_capacity (capacity : nat) : OwnedBuf := MkOwnedBuf (replicate capacity 0) 0.
Definition from_vec (octets : bytes) : OwnedBuf := MkOwnedBuf octets (length octets).
Definition from_parts (storage : bytes) (filled : nat) : OwnedBuf := MkOwnedBuf storage (Nat.min filled (length storage)).
Definition into_parts (self : OwnedBuf) : bytes * nat := (storage self, filled_len self).
Definition capacity (self : OwnedBuf) : nat := length (storage self).
Definition len (self : OwnedBuf) : nat := filled_len self.
Definition is_empty (self : OwnedBuf) : bool := (filled_len self =? 0)%nat.
Definition remaining (self : OwnedBuf) : nat := length (storage self) - filled_len self.
Definition filled (self : OwnedBuf) : bytes := default [] (get_to (filled_len self) (storage self)).
Definition unfilled (self : OwnedBuf) : bytes :=
  if (filled_len self <=? length (storage self))%nat then drop (filled_len self) (storage self) else [].

Definition limit {A} (before after : string) (count left : nat) : result Error A :=
  Err (Limit (before +:+ string_of (decimal_text (Z.of_nat count)) +:+ " bytes exceeds the "
    +:+ string_of (decimal_text (Z.of_nat left)) +:+ after)).

Definition advance (self : OwnedBuf) (count : nat) : OwnedBuf * result Error unit :=
  match checked_add 64 (Z.of_nat (filled_len self)) (Z.of_nat count) with
  | Some filled =>
      if filled <=? Prelude.len (storage self) then (MkOwnedBuf (storage self) (filled_len self + count), Ok ())
      else (self, limit "advance of " " unfilled bytes" count (remaining self))
  | None => (self, limit "advance of " " unfilled bytes" count (remaining self))
  end.

(** The storage after the octets were copied to its unfilled part. *)
Definition put (self : OwnedBuf) (octets : bytes) : OwnedBuf * result Error unit :=
  let count := length octets in
  match get_to count (unfilled self) with
  | None => (self, limit "put of " " unfilled bytes" count (remaining self))
  | Some _ =>
      advance (MkOwnedBuf (take (filled_len self) (storage self) ++ octets ++ drop (filled_len self + count) (storage self))
        (filled_len self)) count
  end.

(** [copy_within(count..filled, 0)]. *)
Definition consume (self : OwnedBuf) (count : nat) : OwnedBuf * result Error unit :=
  if (count <=? filled_len self)%nat then
    let kept := (filled_len self - count)%nat in
    (MkOwnedBuf (take kept (drop count (storage self)) ++ drop kept (storage self)) kept, Ok ())
  else (self, limit "consume of " " filled bytes" count (filled_len self)).

Definition truncate (self : OwnedBuf) (len : nat) : OwnedBuf := MkOwnedBuf (storage self) (Nat.min (filled_len self) len).
Definition clear (self : OwnedBuf) : OwnedBuf := MkOwnedBuf (storage self) 0.
Definition into_vec (self : OwnedBuf) : bytes := take (filled_len self) (storage self).

(** ** What a buffer holds *)

Definition buf_ok (self : OwnedBuf) : Prop := (filled_len self <= length (storage self))%nat /\ Prelude.len (storage self) < 2 ^ 63.

Lemma filled_ok self : buf_ok self -> filled self = take (filled_len self) (storage self) /\ length (filled self) = filled_len self.
Proof.
  intros [Hl _]. unfold filled, get_to. rewrite decide_True by done. cbn. split; [done|]. rewrite length_take. lia.
Qed.

Lemma advance_ok self count : buf_ok self ->
  advance self count = if (count <=? remaining self)%nat then (MkOwnedBuf (storage self) (filled_len self + count), Ok ())
    else (self, limit "advance of " " unfilled bytes" count (remaining self)).
Proof.
  intros [Hl Hs]. unfold advance, checked_add, remaining, Prelude.len in *. pow2.
  destruct (Nat.leb_spec count (length (storage self) - filled_len self)).
  - by rewrite (proj2 (Z.ltb_lt _ _)), (proj2 (Z.leb_le _ _)) by lia.
  - destruct (Z.ltb_spec (Z.of_nat (filled_len self) + Z.of_nat count) 18446744073709551616); [|done].
    by rewrite (proj2 (Z.leb_gt _ _)) by lia.
Qed.

Lemma put_ok self octets : buf_ok self ->
  if (length octets <=? remaining self)%nat
  then exists self', put self octets = (self', Ok ()) /\ buf_ok self' /\ filled self' = filled self ++ octets /\
    capacity self' = capacity self
  else exists e, put self octets = (self, Err (Limit e)).
Proof.
  intros Hok. pose proof Hok as [Hl Hs]. unfold put, unfilled, get_to.
  rewrite (proj2 (Nat.leb_le (filled_len self) (length (storage self)))) by done. rewrite length_drop.
  fold (remaining self). destruct (Nat.leb_spec (length octets) (remaining self)) as [Hn|Hn].
  - rewrite decide_True by done. unfold remaining in *. set (b := MkOwnedBuf _ _).
    assert (length (storage b) = length (storage self)) as Hb by (cbn [b storage]; lengths).
    assert (buf_ok b) as Hbok by (split; [rewrite Hb; done|unfold Prelude.len; rewrite Hb; exact Hs]).
    rewrite advance_ok by done. unfold remaining. rewrite Hb. change (filled_len b) with (filled_len self).
    rewrite (proj2 (Nat.leb_le _ _)) by done. eexists. split; [done|]. set (b' := MkOwnedBuf _ _).
    assert (buf_ok b') as Hbok' by (split; [cbn [b' storage filled_len]; rewrite Hb; lia|apply Hbok]).
    split; [done|]. split; [|exact Hb]. destruct (filled_ok _ Hbok') as [-> _]. destruct (filled_ok _ Hok) as [-> _].
    cbn [b' b storage filled_len]. rewrite app_assoc, take_app_length'; [done|]. rewrite length_app, length_take. lia.
  - rewrite decide_False by lia. by eexists.
Qed.

Lemma consume_ok self count : buf_ok self ->
  if (count <=? len self)%nat
  then exists self', consume self count = (self', Ok ()) /\ buf_ok self' /\ filled self' = drop count (filled self) /\
    capacity self' = capacity self
  else exists e, consume self count = (self, Err (Limit e)).
Proof.
  intros Hok. pose proof Hok as [Hl Hs]. unfold consume, len. destruct (Nat.leb_spec count (filled_len self)) as [Hn|Hn]; [|by eexists].
  eexists. split; [done|]. set (b := MkOwnedBuf _ _).
  assert (length (storage b) = length (storage self)) as Hb by (cbn [b storage]; lengths).
  assert (buf_ok b) as Hbok by (split; [rewrite Hb; cbn [b filled_len]; lia|unfold Prelude.len; rewrite Hb; exact Hs]).
  split; [done|]. split; [|exact Hb]. destruct (filled_ok _ Hbok) as [-> _]. destruct (filled_ok _ Hok) as [-> _].
  cbn [b storage filled_len]. rewrite take_app_length' by (rewrite length_take, length_drop; lia).
  rewrite skipn_firstn_comm. done.
Qed.
