(* ===== verification/DateText.v ===== *)
(** * HTTP dates

    [zero-date/src/imf.rs] and [parse.rs]: the one format that is written and the three
    that are read.  A cursor is the octets it has left. *)
From S2P Require Import Prelude Date.

(** ** IMF-fixdate *)

Definition IMF_FIXDATE_LEN : nat := 29.
Definition MAX_UNIX_SECONDS : Z := 253402300799.
Definition SECONDS_PER_DAY : Z := 86400.
Definition SECONDS_PER_HOUR : Z := 3600.
Definition SECONDS_PER_MINUTE : Z := 60.

Definition DAY_NAMES : list bytes :=
  bs <$> ["Sun"; "Mon"; "Tue"; "Wed"; "Thu"; "Fri"; "Sat"]%string.
Definition LONG_DAY_NAMES : list bytes :=
  bs <$> ["Sunday"; "Monday"; "Tuesday"; "Wednesday"; "Thursday"; "Friday"; "Saturday"]%string.
Definition MONTH_NAMES : list bytes :=
  bs <$> ["Jan"; "Feb"; "Mar"; "Apr"; "May"; "Jun"; "Jul"; "Aug"; "Sep"; "Oct"; "Nov"; "Dec"]%string.

(** Octets copied into the array, when they fit there. *)
Definition put (out : bytes) (at_ : nat) (octets : bytes) : bytes :=
  match get_range at_ (at_ + length octets) out with
  | Some _ => take at_ out ++ octets ++ drop (at_ + length octets) out
  | None => out
  end.

Definition digit (value : Z) : Z := wrapping_add 8 48 (value mod 10).
Definition put_two_digits (out : bytes) (at_ : nat) (value : Z) : bytes :=
  put out at_ [digit (value / 10); digit value].
Definition put_four_digits (out : bytes) (at_ : nat) (value : Z) : bytes :=
  put out at_
    [digit (default 0 (as_u8 (value / 1000))); digit (default 0 (as_u8 (value / 100 mod 10)));
     digit (default 0 (as_u8 (value / 10 mod 10))); digit (default 0 (as_u8 (value mod 10)))].

Definition from_unix (unix_seconds : Z) : option bytes :=
  if MAX_UNIX_SECONDS <? unix_seconds then None
  else
    let! days := i64 (unix_seconds / SECONDS_PER_DAY) in
    let second_of_day := unix_seconds mod SECONDS_PER_DAY in
    let! date := civil_from_days days in
    let weekday := weekday_from_days days in
    let hour := second_of_day / SECONDS_PER_HOUR in
    let minute := second_of_day mod SECONDS_PER_HOUR / SECONDS_PER_MINUTE in
    let second := second_of_day mod SECONDS_PER_MINUTE in
    let out := bs "Sun, 00 Jan 0000 00:00:00 GMT" in
    let! name := DAY_NAMES !! Z.to_nat weekday in
    let out := put out 0 name in
    let out := put_two_digits out 5 (day date) in
    let! month := checked_sub (month date) 1 in
    let! name := MONTH_NAMES !! Z.to_nat month in
    let out := put out 8 name in
    let! year := fits 0 65535 (year date) in
    let out := put_four_digits out 12 year in
    let! hour := as_u8 hour in
    let out := put_two_digits out 17 hour in
    let! minute := as_u8 minute in
    let out := put_two_digits out 20 minute in
    let! second := as_u8 second in
    let out := put_two_digits out 23 second in
    Some out.

Definition imf_fixdate (unix_seconds : Z) : option bytes := from_unix unix_seconds.

(** ** The three formats that are read *)

Record Fields : Type := MkFields {
  f_year : Z; f_month : Z; f_day : Z;
  f_hour : Z; f_minute : Z; f_second : Z;
}.

(** [strip_prefix]: the octets after the prefix. *)
Fixpoint literal (expected rest : bytes) : option bytes :=
  match expected, rest with
  | [], _ => Some rest
  | e :: expected, b :: rest => if e =? b then literal expected rest else None
  | _, [] => None
  end.

Fixpoint one_of_from (index : nat) (names : list bytes) (rest : bytes) : option (nat * bytes) :=
  match names with
  | [] => None
  | name :: names =>
      match literal name rest with
      | Some rest => Some (index, rest)
      | None => one_of_from (S index) names rest
      end
  end.
Definition one_of (names : list bytes) (rest : bytes) : option (nat * bytes) := one_of_from 0 names rest.

(** The loop of [digits] over the octets it took. *)
Fixpoint digits_value (value : Z) (taken : bytes) : option Z :=
  match taken with
  | [] => Some value
  | byte :: taken =>
      if negb ((48 <=? byte) && (byte <=? 57)) then None
      else
        let! value := checked_mul 32 value 10 in
        let! value := checked_add 32 value (wrapping_sub 8 byte 48) in
        digits_value value taken
  end.

Definition digits (count : nat) (rest : bytes) : option (Z * bytes) :=
  let! taken := get_to count rest in
  let! value := digits_value 0 taken in
  Some (value, drop count rest).

Definition time_of_day (rest : bytes) : option (Z * Z * Z * bytes) :=
  let! (hour, rest) := digits 2 rest in
  let! rest := literal (bs ":") rest in
  let! (minute, rest) := digits 2 rest in
  let! rest := literal (bs ":") rest in
  let! (second, rest) := digits 2 rest in
  let! hour := as_u8 hour in
  let! minute := as_u8 minute in
  let! second := as_u8 second in
  Some (hour, minute, second, rest).

Definition month (rest : bytes) : option (Z * bytes) :=
  let! (index, rest) := one_of MONTH_NAMES rest in
  let! month := as_u8 (Z.of_nat index + 1) in
  Some (month, rest).

Definition done_ (rest : bytes) : bool := bool_decide (rest = []).

(** The local [imf_fixdate] of [parse.rs]. *)
Definition imf_fields (input : bytes) : option Fields :=
  let! (_, rest) := one_of DAY_NAMES input in
  let! rest := literal (bs ", ") rest in
  let! (day, rest) := digits 2 rest in
  let! day := as_u8 day in
  let! rest := literal (bs " ") rest in
  let! (month, rest) := month rest in
  let! rest := literal (bs " ") rest in
  let! (year, rest) := digits 4 rest in
  let! year := i32 year in
  let! rest := literal (bs " ") rest in
  let! (hour, minute, second, rest) := time_of_day rest in
  let! rest := literal (bs " GMT") rest in
  if done_ rest then Some (MkFields year month day hour minute second) else None.

Definition rfc850_date (input : bytes) (now_year : Z) : option Fields :=
  let! (_, rest) := one_of LONG_DAY_NAMES input in
  let! rest := literal (bs ", ") rest in
  let! (day, rest) := digits 2 rest in
  let! day := as_u8 day in
  let! rest := literal (bs "-") rest in
  let! (month, rest) := month rest in
  let! rest := literal (bs "-") rest in
  let! (two_digits, rest) := digits 2 rest in
  let! two_digits := i32 two_digits in
  let! rest := literal (bs " ") rest in
  let! (hour, minute, second, rest) := time_of_day rest in
  let! rest := literal (bs " GMT") rest in
  if negb (done_ rest) then None
  else
    let! century := i32 (Z.quot now_year 100 * 100) in
    let! year := i32 (century + two_digits) in
    let! ahead := i32 (year - now_year) in
    let! year := if 50 <? ahead then i32 (year - 100) else Some year in
    Some (MkFields year month day hour minute second).

Definition asctime_date (input : bytes) : option Fields :=
  let! (_, rest) := one_of DAY_NAMES input in
  let! rest := literal (bs " ") rest in
  let! (month, rest) := month rest in
  let! rest := literal (bs " ") rest in
  let! (day, rest) :=
    match literal (bs " ") rest with
    | Some rest => digits 1 rest
    | None => digits 2 rest
    end in
  let! day := as_u8 day in
  let! rest := literal (bs " ") rest in
  let! (hour, minute, second, rest) := time_of_day rest in
  let! rest := literal (bs " ") rest in
  let! (year, rest) := digits 4 rest in
  let! year := i32 year in
  if done_ rest then Some (MkFields year month day hour minute second) else None.

Definition unix_of (fields : Fields) : option Z :=
  let 'MkFields year month day hour minute second := fields in
  if (23 <? hour) || (59 <? minute) || (60 <? second) then None
  else
    let! days := days_from_civil (MkDate year month day) in
    if days <? 0 then Some 0
    else
      let! h := checked_mul 64 hour SECONDS_PER_HOUR in
      let! m := checked_mul 64 minute SECONDS_PER_MINUTE in
      let! seconds := checked_add 64 h m in
      let! seconds := checked_add 64 seconds second in
      let! days := checked_mul 64 days SECONDS_PER_DAY in
      checked_add 64 days seconds.

Definition parse_http_date (value : bytes) (now : Z) : option Z :=
  let! _ := head value in
  let! fields :=
    if bool_decide (value !! 3%nat = Some 44) then imf_fields value
    else if bool_decide (value !! 3%nat = Some 32) then asctime_date value
    else
      let! now_days := i64 (now / SECONDS_PER_DAY) in
      let! date := civil_from_days now_days in
      rfc850_date value (year date) in
  unix_of fields.

(** The three examples of RFC 9110 Section 5.6.7 name the same instant. *)
Example date_examples :
  (fun s => parse_http_date (bs s) 1780000000) <$>
    ["Sun, 06 Nov 1994 08:49:37 GMT"; "Sunday, 06-Nov-94 08:49:37 GMT"; "Sun Nov  6 08:49:37 1994";
     "Sat, 31 Dec 2016 23:59:60 GMT"; "Wed, 31 Dec 1969 23:59:59 GMT"; "Sun, 31 Nov 1994 08:49:37 GMT"]%string
  = [Some 784111777; Some 784111777; Some 784111777; Some 1483228800; Some 0; None].
Proof. vm_compute. reflexivity. Qed.
Example date_written : from_unix 784111777 = Some (bs "Sun, 06 Nov 1994 08:49:37 GMT").
Proof. vm_compute. reflexivity. Qed.

(** ** The texts *)

Definition two (v : Z) : bytes := [48 + v / 10; 48 + v mod 10].
Definition four (v : Z) : bytes := two (v / 100) ++ two (v mod 100).
Definition name (names : list bytes) (i : Z) : bytes := default [] (names !! Z.to_nat i).

Record Instant : Type := MkInstant { date : CivilDate; hour : Z; minute : Z; second : Z }.

(** A leap second is allowed when a date is read. *)
Definition instant_ok (i : Instant) : Prop :=
  real (date i) /\ 0 <= hour i <= 23 /\ 0 <= minute i <= 59 /\ 0 <= second i <= 60.

Definition time_text (i : Instant) : bytes := two (hour i) ++ bs ":" ++ two (minute i) ++ bs ":" ++ two (second i).
Definition month_text (i : Instant) : bytes := name MONTH_NAMES (Date.month (date i) - 1).

Definition imf_text (weekday : Z) (i : Instant) : bytes :=
  name DAY_NAMES weekday ++ bs ", " ++ two (day (date i)) ++ bs " " ++ month_text i ++ bs " "
  ++ four (year (date i)) ++ bs " " ++ time_text i ++ bs " GMT".
Definition rfc850_text (weekday : Z) (i : Instant) : bytes :=
  name LONG_DAY_NAMES weekday ++ bs ", " ++ two (day (date i)) ++ bs "-" ++ month_text i ++ bs "-"
  ++ two (year (date i) mod 100) ++ bs " " ++ time_text i ++ bs " GMT".
Definition asctime_text (weekday : Z) (i : Instant) : bytes :=
  name DAY_NAMES weekday ++ bs " " ++ month_text i ++ bs " "
  ++ (if day (date i) <? 10 then [32; 48 + day (date i)] else two (day (date i))) ++ bs " "
  ++ time_text i ++ bs " " ++ four (year (date i)).

(** The seconds since 1970; a date before then is 0. *)
Definition instant_unix (i : Instant) : Z :=
  let days := day_number (date i) in
  if days <? 0 then 0 else days * 86400 + hour i * 3600 + minute i * 60 + second i.

(** ** The cursor on them *)

Lemma literal_app l rest : literal l (l ++ rest) = Some rest.
Proof. induction l as [|b l IH]; cbn [literal app]; [done|]. by rewrite Z.eqb_refl. Qed.

Lemma day_name_read w rest : 0 <= w < 7 -> one_of DAY_NAMES (name DAY_NAMES w ++ rest) = Some (Z.to_nat w, rest).
Proof.
  intros Hw. assert (w = 0 \/ w = 1 \/ w = 2 \/ w = 3 \/ w = 4 \/ w = 5 \/ w = 6) as H by lia.
  repeat destruct H as [->|H]; try reflexivity. by subst.
Qed.

Lemma long_day_name_read w rest : 0 <= w < 7 ->
  one_of LONG_DAY_NAMES (name LONG_DAY_NAMES w ++ rest) = Some (Z.to_nat w, rest).
Proof.
  intros Hw. assert (w = 0 \/ w = 1 \/ w = 2 \/ w = 3 \/ w = 4 \/ w = 5 \/ w = 6) as H by lia.
  repeat destruct H as [->|H]; try reflexivity. by subst.
Qed.

Lemma month_read m rest : 1 <= m <= 12 -> month (name MONTH_NAMES (m - 1) ++ rest) = Some (m, rest).
Proof.
  intros Hm. assert (m = 1 \/ m = 2 \/ m = 3 \/ m = 4 \/ m = 5 \/ m = 6 \/ m = 7 \/ m = 8 \/ m = 9 \/ m = 10 \/
    m = 11 \/ m = 12) as H by lia.
  repeat destruct H as [->|H]; try reflexivity. by subst.
Qed.

Lemma digits_value_step acc b l : 0 <= acc < 100000 -> 48 <= b <= 57 ->
  digits_value acc (b :: l) = digits_value (acc * 10 + (b - 48)) l.
Proof.
  intros Ha Hb. cbn [digits_value]. rewrite (proj2 (Z.leb_le 48 b)), (proj2 (Z.leb_le b 57)) by lia. cbn [andb negb].
  unfold checked_mul, checked_add, wrapping_sub. rewrite (Z.mod_small (b - 48)) by word_lia.
  rewrite !(proj2 (Z.ltb_lt _ _)) by word_lia. done.
Qed.

Lemma two_read v rest : 0 <= v < 100 -> digits 2 (two v ++ rest) = Some (v, rest).
Proof.
  intros Hv. unfold digits. change 2%nat with (length (two v)) at 1. rewrite get_to_app. unfold two.
  rewrite !digits_value_step by euclid. cbn. do 2 f_equal. euclid.
Qed.

Lemma one_read v rest : 0 <= v < 10 -> digits 1 ([48 + v] ++ rest) = Some (v, rest).
Proof.
  intros Hv. unfold digits. change 1%nat with (length [48 + v]) at 1. rewrite get_to_app.
  rewrite digits_value_step by lia. cbn. do 2 f_equal. lia.
Qed.

Lemma four_read v rest : 0 <= v < 10000 -> digits 4 (four v ++ rest) = Some (v, rest).
Proof.
  intros Hv. unfold digits. change 4%nat with (length (four v)) at 1. rewrite get_to_app. unfold four, two. cbn [app].
  rewrite !digits_value_step by euclid. cbn -[Z.div Z.modulo Z.mul Z.add]. do 2 f_equal. euclid.
Qed.

Lemma u8_ok v : 0 <= v <= 255 -> as_u8 v = Some v.
Proof. apply fits_Some. Qed.
Lemma i32_ok v : - 2 ^ 31 <= v <= 2 ^ 31 - 1 -> i32 v = Some v.
Proof. apply fits_Some. Qed.

Lemma time_read i rest : instant_ok i ->
  time_of_day (time_text i ++ rest) = Some (hour i, minute i, second i, rest).
Proof.
  intros (_ & Hh & Hm & Hs). unfold time_of_day, time_text. rewrite <- !app_assoc.
  rewrite two_read by lia. rewrite literal_app, two_read by lia. rewrite literal_app, two_read by lia.
  by rewrite !u8_ok by lia.
Qed.

Definition fields_of (i : Instant) : Fields :=
  MkFields (year (date i)) (Date.month (date i)) (day (date i)) (hour i) (minute i) (second i).

Lemma real_parts d : real d -> 0 <= year d <= 9999 /\ 1 <= Date.month d <= 12 /\ 1 <= day d <= 31.
Proof. intros (Hy & last & Hl & Hd). apply days_in_month_bound in Hl. lia. Qed.

Lemma unix_of_fields i : instant_ok i -> unix_of (fields_of i) = Some (instant_unix i).
Proof.
  intros (Hr & Hh & Hm & Hs). unfold unix_of, fields_of, instant_unix.
  rewrite (proj2 (Z.ltb_ge 23 _)), (proj2 (Z.ltb_ge 59 _)), (proj2 (Z.ltb_ge 60 _)) by lia. cbn [orb].
  replace (MkDate (year (date i)) (Date.month (date i)) (day (date i))) with (date i) by by destruct (date i).
  rewrite days_from_civil_real by done. pose proof (real_bounds _ Hr) as (_ & _ & _ & Hn).
  destruct (Z.ltb_spec (day_number (date i)) 0); [done|].
  unfold checked_mul, checked_add, SECONDS_PER_DAY, SECONDS_PER_HOUR, SECONDS_PER_MINUTE.
  unfold MIN_DAYS, MAX_DAYS in *. rewrite !(proj2 (Z.ltb_lt _ (2 ^ 64))) by word_lia. f_equal. lia.
Qed.

Lemma imf_read w i : 0 <= w < 7 -> instant_ok i -> imf_fields (imf_text w i) = Some (fields_of i).
Proof.
  intros Hw Hi. destruct (real_parts (date i) (proj1 Hi)) as (Hy & Hm & Hd). unfold imf_fields, imf_text, month_text.
  rewrite day_name_read by done. rewrite literal_app, two_read by lia. rewrite u8_ok by lia.
  rewrite literal_app, month_read by done. rewrite literal_app, four_read by lia. rewrite i32_ok by lia.
  rewrite literal_app, time_read by done.
  replace (literal (bs " GMT") (bs " GMT")) with (Some (@nil Z)) by reflexivity. done.
Qed.

Lemma asctime_read w i : 0 <= w < 7 -> instant_ok i -> asctime_date (asctime_text w i) = Some (fields_of i).
Proof.
  intros Hw Hi. destruct (real_parts (date i) (proj1 Hi)) as (Hy & Hm & Hd). unfold asctime_date, asctime_text, month_text.
  rewrite day_name_read by done. rewrite literal_app, month_read by done. rewrite literal_app.
  assert (forall rest, match literal (bs " ") ((if day (date i) <? 10 then [32; 48 + day (date i)] else two (day (date i))) ++ rest) with
    | Some r => digits 1 r | None => digits 2 ((if day (date i) <? 10 then [32; 48 + day (date i)] else two (day (date i))) ++ rest)
    end = Some (day (date i), rest)) as ->.
  { intros rest. destruct (Z.ltb_spec (day (date i)) 10).
    - change (bs " ") with [32]. cbn [app literal Z.eqb Pos.eqb]. by apply (one_read (day (date i))); lia.
    - change (bs " ") with [32]. unfold two at 1. cbn [app literal].
      rewrite (proj2 (Z.eqb_neq 32 _)) by euclid. by apply two_read; lia. }
  rewrite u8_ok by lia. rewrite literal_app, time_read by done. rewrite literal_app.
  rewrite <- (app_nil_r (four _)), four_read by lia. by rewrite i32_ok by lia.
Qed.

Lemma rfc850_read w i now_year : 0 <= w < 7 -> instant_ok i -> 0 <= now_year <= 9999 ->
  exists y, y mod 100 = year (date i) mod 100 /\ now_year - 100 < y <= now_year + 50 /\
    (y / 100 = now_year / 100 \/ y / 100 = now_year / 100 - 1 /\ now_year + 50 < y + 100) /\
    rfc850_date (rfc850_text w i) now_year
    = Some (MkFields y (Date.month (date i)) (day (date i)) (hour i) (minute i) (second i)).
Proof.
  intros Hw Hi Hn. destruct (real_parts (date i) (proj1 Hi)) as (Hy & Hm & Hd). unfold rfc850_date, rfc850_text, month_text.
  rewrite long_day_name_read by done. rewrite literal_app, two_read by lia. rewrite u8_ok by lia.
  rewrite literal_app, month_read by done. rewrite literal_app, two_read by euclid. rewrite i32_ok by euclid.
  rewrite literal_app, time_read by done.
  replace (literal (bs " GMT") (bs " GMT")) with (Some (@nil Z)) by reflexivity. cbn [done_ negb bool_decide].
  rewrite Z.quot_div_nonneg by lia. rewrite (i32_ok (now_year / 100 * 100)) by euclid.
  set (yy := year (date i) mod 100). assert (0 <= yy < 100) by (subst yy; euclid).
  rewrite (i32_ok (_ + yy)) by euclid. rewrite (i32_ok (_ - now_year)) by euclid.
  set (y := now_year / 100 * 100 + yy). assert (y mod 100 = yy /\ y / 100 = now_year / 100) as [Hm1 Hm2] by (subst y; euclid).
  destruct (Z.ltb_spec 50 (y - now_year)).
  - exists (y - 100). split; [euclid|]. split; [euclid|]. split; [right; euclid|].
    rewrite i32_ok by euclid. done.
  - exists y. split; [done|]. split; [euclid|]. split; [by left|]. done.
Qed.

(** ** What is written is read back *)

Lemma put_at out a old c new n : out = a ++ old ++ c -> length a = n -> length old = length new ->
  put out n new = a ++ new ++ c.
Proof.
  intros -> <- Hl. unfold put, get_range. rewrite decide_True by (rewrite !length_app; lia).
  rewrite take_app_length, <- Hl, <- drop_drop, drop_app_length, drop_app_length. done.
Qed.

Lemma digit_low v : digit v = 48 + v mod 10.
Proof. unfold digit, wrapping_add. rewrite Z.mod_small; [done|]. pow2. euclid. Qed.

Lemma put_two_at out a old c v n : out = a ++ old ++ c -> length a = n -> length old = 2%nat -> 0 <= v < 100 ->
  put_two_digits out n v = a ++ two v ++ c.
Proof.
  intros Ho Ha Hl Hv. unfold put_two_digits. rewrite !digit_low.
  replace [48 + v / 10 mod 10; 48 + v mod 10] with (two v) by (unfold two; do 2 f_equal; euclid).
  by apply put_at with old.
Qed.

Lemma put_four_at out a old c v n : out = a ++ old ++ c -> length a = n -> length old = 4%nat -> 0 <= v < 10000 ->
  put_four_digits out n v = a ++ four v ++ c.
Proof.
  intros Ho Ha Hl Hv. unfold put_four_digits. rewrite !u8_ok by euclid. cbn [default from_option id].
  rewrite !digit_low.
  match goal with |- put _ _ ?l = _ => replace l with (four v) end.
  - by apply put_at with old.
  - unfold four, two. cbn [app].
    assert (v / 1000 mod 10 = v / 100 / 10 /\ v / 100 mod 10 mod 10 = v / 100 mod 10 /\
      v / 10 mod 10 mod 10 = v mod 100 / 10 /\ v mod 10 mod 10 = v mod 100 mod 10) as (-> & -> & -> & ->); [|done].
    repeat split; euclid.
Qed.

Lemma names_three names i : Forall (fun l => length l = 3%nat) names -> 0 <= i < len names ->
  names !! Z.to_nat i = Some (name names i) /\ length (name names i) = 3%nat.
Proof.
  intros Hn Hi. destruct (lookup_lt_is_Some_2 names (Z.to_nat i)) as [l Hl]; [unfold len in Hi; lia|].
  unfold name. rewrite Hl. split; [done|]. by apply (Forall_lookup_1 _ _ _ _ Hn Hl).
Qed.

Definition instant_of (date : CivilDate) (second_of_day : Z) : Instant :=
  MkInstant date (second_of_day / 3600) (second_of_day mod 3600 / 60) (second_of_day mod 60).

Lemma i64_ok v : - 2 ^ 63 <= v <= 2 ^ 63 - 1 -> i64 v = Some v.
Proof. apply fits_Some. Qed.

Lemma from_unix_text t : 0 <= t <= MAX_UNIX_SECONDS ->
  exists date, real date /\ day_number date = t / 86400 /\
    from_unix t = Some (imf_text (weekday_from_days (t / 86400)) (instant_of date (t mod 86400))).
Proof.
  intros Ht. unfold MAX_UNIX_SECONDS in Ht.
  assert (0 <= t / 86400 <= MAX_DAYS) as Hdays by (unfold MAX_DAYS; euclid).
  destruct (walk (Z.to_nat (t / 86400 - MIN_DAYS))) as (date & Hr & Hn); [unfold MIN_DAYS in *; lia|].
  exists date. rewrite Z2Nat.id in Hn by (unfold MIN_DAYS; lia).
  assert (day_number date = t / 86400) as Hd by (unfold MIN_DAYS in *; lia). split; [done|]. split; [done|].
  destruct (real_parts date Hr) as (Hy & Hm & Hdd). unfold from_unix, MAX_UNIX_SECONDS.
  rewrite (proj2 (Z.ltb_ge _ t)) by lia. unfold SECONDS_PER_DAY, SECONDS_PER_HOUR, SECONDS_PER_MINUTE.
  rewrite i64_ok by (unfold MAX_DAYS in *; pow2; lia).
  rewrite <- Hd, civil_from_days_real by done.
  set (w := weekday_from_days (day_number date)). assert (0 <= w < 7) as Hw by (subst w; unfold weekday_from_days; euclid).
  destruct (names_three DAY_NAMES w) as [Hwn Hwl]; [repeat constructor|done|]. rewrite Hwn.
  unfold checked_sub. rewrite (proj2 (Z.leb_le 1 _)) by lia.
  destruct (names_three MONTH_NAMES (Date.month date - 1)) as [Hmn Hml];
    [repeat constructor | change (len MONTH_NAMES) with 12; lia |]. rewrite Hmn.
  rewrite (fits_Some _ _ (year date)) by lia.
  set (sod := t mod 86400). assert (0 <= sod < 86400) as Hs by (subst sod; euclid).
  rewrite !u8_ok by euclid. f_equal. set (wn := name DAY_NAMES w) in *. set (mn := name MONTH_NAMES _) in *.
  rewrite (put_at _ [] (bs "Sun") (bs ", 00 Jan 0000 00:00:00 GMT") wn) by (done || by rewrite Hwl). cbn [app].
  rewrite (put_two_at _ (wn ++ bs ", ") (bs "00") (bs " Jan 0000 00:00:00 GMT") _ 5%nat);
    [| by rewrite <- app_assoc | by rewrite length_app, Hwl | done | lia].
  rewrite (put_at _ (wn ++ bs ", " ++ two (day date) ++ bs " ") (bs "Jan") (bs " 0000 00:00:00 GMT") mn);
    [| by rewrite <- !app_assoc | by rewrite !length_app, Hwl | by rewrite Hml].
  rewrite (put_four_at _ (wn ++ bs ", " ++ two (day date) ++ bs " " ++ mn ++ bs " ") (bs "0000") (bs " 00:00:00 GMT") _ 12%nat);
    [| by rewrite <- !app_assoc | by rewrite !length_app, Hwl, Hml | done | lia].
  rewrite (put_two_at _ (wn ++ bs ", " ++ two (day date) ++ bs " " ++ mn ++ bs " " ++ four (year date) ++ bs " ")
    (bs "00") (bs ":00:00 GMT") _ 17%nat);
    [| by rewrite <- !app_assoc | by rewrite !length_app, Hwl, Hml | done | euclid].
  rewrite (put_two_at _ (wn ++ bs ", " ++ two (day date) ++ bs " " ++ mn ++ bs " " ++ four (year date) ++ bs " "
      ++ two (sod / 3600) ++ bs ":") (bs "00") (bs ":00 GMT") _ 20%nat);
    [| by rewrite <- !app_assoc | by rewrite !length_app, Hwl, Hml | done | euclid].
  rewrite (put_two_at _ (wn ++ bs ", " ++ two (day date) ++ bs " " ++ mn ++ bs " " ++ four (year date) ++ bs " "
      ++ two (sod / 3600) ++ bs ":" ++ two (sod mod 3600 / 60) ++ bs ":") (bs "00") (bs " GMT") _ 23%nat);
    [| by rewrite <- !app_assoc | by rewrite !length_app, Hwl, Hml | done | euclid].
  unfold imf_text, instant_of, time_text, month_text. cbn [DateText.date DateText.hour DateText.minute DateText.second].
  fold mn. by rewrite <- !app_assoc.
Qed.

Lemma imf_third w i : 0 <= w < 7 -> imf_text w i !! 3%nat = Some 44 /\ asctime_text w i !! 3%nat = Some 32 /\
  (exists b, rfc850_text w i !! 3%nat = Some b /\ b <> 44 /\ b <> 32) /\
  head (imf_text w i) <> None /\ head (asctime_text w i) <> None /\ head (rfc850_text w i) <> None.
Proof.
  intros Hw. assert (w = 0 \/ w = 1 \/ w = 2 \/ w = 3 \/ w = 4 \/ w = 5 \/ w = 6) as H by lia.
  repeat destruct H as [->|H]; subst; unfold imf_text, asctime_text, rfc850_text; cbn;
    repeat split; try done; eexists; split; done.
Qed.

Lemma named_weekday days : 0 <= weekday_from_days days < 7.
Proof. unfold weekday_from_days. euclid. Qed.

Lemma year_of_instant t : 0 <= t <= MAX_UNIX_SECONDS ->
  exists date, i64 (t / 86400) = Some (t / 86400) /\ civil_from_days (t / 86400) = Some date /\ 0 <= year date <= 9999.
Proof.
  intros Ht. destruct (from_unix_text t Ht) as (date & Hr & Hn & _). exists date.
  split; [apply i64_ok; unfold MAX_UNIX_SECONDS in Ht; pow2; euclid|].
  rewrite <- Hn, civil_from_days_real by done. split; [done|]. apply (real_parts _ Hr).
Qed.

Lemma parse_imf w i now : 0 <= w < 7 -> parse_http_date (imf_text w i) now = (imf_fields (imf_text w i) ≫= unix_of).
Proof.
  intros Hw. destruct (imf_third w i Hw) as (H3 & _ & _ & H0 & _). unfold parse_http_date.
  destruct (head (imf_text w i)); [|done]. by rewrite H3.
Qed.

Lemma written_instant t date : 0 <= t -> real date -> day_number date = t / 86400 ->
  instant_ok (instant_of date (t mod 86400)) /\ instant_unix (instant_of date (t mod 86400)) = t.
Proof.
  intros Ht Hr Hd. split; [split; [done|]; cbn; repeat split; euclid|].
  unfold instant_unix. cbn [DateText.date instant_of hour minute second]. rewrite Hd.
  rewrite (proj2 (Z.ltb_ge _ 0)) by euclid. euclid.
Qed.

(** The same instant, its year replaced. *)
Definition in_year (i : Instant) (y : Z) : Instant :=
  MkInstant (MkDate y (Date.month (date i)) (day (date i))) (hour i) (minute i) (second i).

(** The three formats of a date are all read: every day of the proleptic Gregorian
    calendar from year 0 to 9999, every time of day, a leap second included, and whatever
    day of the week is named, is read from an IMF-fixdate and from an asctime date as the
    seconds since 1970 (0 when before then), whatever the time is now; a year of two digits
    is read as the one year with these digits that is at most 50 years ahead of now and
    less than 100 behind, which is the rule of RFC 9110. *)
Theorem dates_read w i now (Hw : 0 <= w < 7) (Hi : instant_ok i) (Hnow : 0 <= now <= MAX_UNIX_SECONDS) :
  parse_http_date (imf_text w i) now = Some (instant_unix i) /\
  parse_http_date (asctime_text w i) now = Some (instant_unix i) /\
  exists today y, civil_from_days (now / 86400) = Some today /\
    y mod 100 = year (date i) mod 100 /\ year today - 100 < y <= year today + 50 /\
    (instant_ok (in_year i y) -> parse_http_date (rfc850_text w i) now = Some (instant_unix (in_year i y))).
Proof.
  destruct (imf_third w i Hw) as (H3 & H3' & (b & Hb & Hb1 & Hb2) & H0 & H0' & H0''). rewrite parse_imf by done.
  rewrite imf_read by done. split; [by apply unix_of_fields|]. split.
  - unfold parse_http_date. rewrite H3'. destruct (head (asctime_text w i)); [|done]. cbn.
    rewrite asctime_read by done. by apply unix_of_fields.
  - destruct (year_of_instant now Hnow) as (today & Hn & Hd & Hy). destruct (rfc850_read w i (year today) Hw Hi Hy) as (y & Hm & Hr & _ & Hp).
    exists today, y. split; [done|]. split; [done|]. split; [lia|]. intros Hok.
    unfold parse_http_date, SECONDS_PER_DAY. destruct (head (rfc850_text w i)); [|done]. rewrite Hb, !bool_decide_eq_false_2 by congruence.
    rewrite Hn, Hd, Hp. exact (unix_of_fields (in_year i y) Hok).
Qed.

Lemma dates_read_witness :
  (exists today y, civil_from_days (1780000000 / 86400) = Some today /\ y mod 100 = 94 /\ year today - 100 < y <= year today + 50 /\
    (instant_ok (in_year (MkInstant (MkDate 1994 11 6) 8 49 37) y) ->
     parse_http_date (bs "Sunday, 06-Nov-94 08:49:37 GMT") 1780000000
     = Some (instant_unix (in_year (MkInstant (MkDate 1994 11 6) 8 49 37) y)))) /\
  parse_http_date (bs "Sun Nov  6 08:49:37 1994") 1780000000 = Some 784111777.
Proof.
  destruct (dates_read 0 (MkInstant (MkDate 1994 11 6) 8 49 37) 1780000000) as (_ & Ha & Hb).
  - lia.
  - split; [|cbn; lia]. split; [cbn; lia|]. exists 30. split; [done|cbn; lia].
  - unfold MAX_UNIX_SECONDS. lia.
  - exact (conj Hb Ha).
Defined.

(** C37. What is written is read back: every second from 1970 to the end of the year 9999 is
    written as the 29 octets of an IMF-fixdate with the day of the week of that day, which
    is read as the same second, and nothing is written for a later one. *)
Theorem date_written_read t now (Ht : 0 <= t) :
  if MAX_UNIX_SECONDS <? t then imf_fixdate t = None
  else exists text i, imf_fixdate t = Some text /\ length text = IMF_FIXDATE_LEN /\
    text = imf_text (weekday_from_days (day_number (date i))) i /\ instant_ok i /\ second i < 60 /\
    parse_http_date text now = Some t.
Proof.
  unfold imf_fixdate. destruct (Z.ltb_spec MAX_UNIX_SECONDS t).
  { unfold from_unix. by rewrite (proj2 (Z.ltb_lt _ _)). }
  destruct (from_unix_text t) as (date & Hr & Hn & ->); [lia|].
  destruct (written_instant t date Ht Hr Hn) as [Hok Hu].
  eexists _, (instant_of date (t mod 86400)). split; [done|]. split.
  - destruct (names_three DAY_NAMES (weekday_from_days (t / 86400))) as [_ Hw]; [by repeat constructor|apply named_weekday|].
    destruct (real_parts date Hr) as (_ & Hm & _).
    destruct (names_three MONTH_NAMES (Date.month date - 1)) as [_ Hmn]; [by repeat constructor|change (len MONTH_NAMES) with 12; lia|].
    unfold imf_text, month_text. cbn [DateText.date instant_of]. by rewrite !length_app, Hw, Hmn.
  - split; [cbn; by rewrite Hn|]. split; [done|]. split; [cbn; euclid|]. rewrite parse_imf by apply named_weekday.
    rewrite imf_read; [|apply named_weekday|done]. cbn [mbind option_bind]. by rewrite unix_of_fields, Hu.
Qed.

Lemma date_written_read_witness :
  exists text i, imf_fixdate 951782400 = Some text /\ length text = IMF_FIXDATE_LEN /\
    text = imf_text (weekday_from_days (day_number (date i))) i /\ instant_ok i /\ second i < 60 /\
    parse_http_date text 0 = Some 951782400.
Proof. apply (date_written_read 951782400 0). lia. Defined.
