(* ===== verification/HttpFields.v ===== *)
(** * Field names, field values, the bounded list of fields, and HTML escaping

    [zero-http-types/src/field.rs], [head.rs] and [escape.rs].  A name is equal to another
    when their spellings are, in any case: that is the equivalence [≡] here, and what the
    list answers respects it. *)
From S2P Require Import Prelude Scalar HttpTypes Utf8.

(** ** Validation *)

Definition is_tchar (byte : Z) : bool :=
  bool_decide (byte ∈ bs "!#$%&'*+-.^_`|~") || ((48 <=? byte) && (byte <=? 57))
  || ((65 <=? byte) && (byte <=? 90)) || ((97 <=? byte) && (byte <=? 122)).

Definition is_token (bytes_ : bytes) : bool := negb (bool_decide (bytes_ = [])) && forallb is_tchar bytes_.

Definition is_field_vchar (byte : Z) : bool :=
  ((0x21 <=? byte) && (byte <=? 0x7e)) || ((0x80 <=? byte) && (byte <=? 0xff)).

Inductive FieldError : Type :=
| EmptyName
| InvalidNameByte (at_ : nat)
| EdgeWhitespace
| InvalidValueByte (at_ : nat)
| TooMany (max : nat).
#[global] Instance FieldError_eq_dec : EqDecision FieldError.
Proof. solve_decision. Defined.

Definition validate_field_name (name : bytes) : result FieldError unit :=
  if bool_decide (name = []) then Err EmptyName
  else match position (fun byte => negb (is_tchar byte)) name with
       | Some at_ => Err (InvalidNameByte at_)
       | None => Ok ()
       end.

(** The closure [edge]. *)
Definition edge (byte : Z) : bool := (byte =? 0x20) || (byte =? 0x09).

Definition validate_field_value (value : bytes) : result FieldError unit :=
  if from_option edge false (head value) || from_option edge false (last value) then Err EdgeWhitespace
  else match position (fun byte => negb (is_field_vchar byte || edge byte)) value with
       | Some at_ => Err (InvalidValueByte at_)
       | None => Ok ()
       end.

(** ** Names *)

Inductive Name : Type :=
| Known (name : HeaderName)
| Other (bytes_ : bytes).

Definition Name_parse (name : bytes) : result FieldError Name :=
  let? _ := validate_field_name name in
  Ok (match HeaderName_parse name with Some known => Known known | None => Other name end).

Definition Name_as_bytes (self : Name) : bytes :=
  match self with Known name => as_bytes name | Other bytes_ => bytes_ end.

Definition Name_id (self : Name) : option HeaderName :=
  match self with Known name => Some name | Other _ => None end.

Definition matches (self : Name) (other : bytes) : bool := eq_ignore_ascii_case (Name_as_bytes self) other.

(** [PartialEq for Name] *)
Definition Name_eq (left right : Name) : bool :=
  match left, right with
  | Known l, Known r => bool_decide (l = r)
  | _, _ => matches left (Name_as_bytes right)
  end.

(** ** The list *)

Record Fields : Type := MkFields { entries : list (Name * bytes); max : nat }.

Definition with_max (max : nat) : Fields := MkFields [] max.
Definition Fields_len (self : Fields) : nat := length (entries self).

Definition insert (self : Fields) (name : Name) (value : bytes) : Fields * result FieldError unit :=
  if (max self <=? length (entries self))%nat then (self, Err (TooMany (max self)))
  else match validate_field_value value with
       | Err e => (self, Err e)
       | Ok _ => (MkFields (entries self ++ [(name, value)]) (max self), Ok ())
       end.

Definition insert_bytes (self : Fields) (name value : bytes) : Fields * result FieldError unit :=
  match Name_parse name with
  | Err e => (self, Err e)
  | Ok name => insert self name value
  end.

Definition remove (self : Fields) (name : bytes) : Fields * nat :=
  let before := length (entries self) in
  let kept := filter (fun entry => matches entry.1 name = false) (entries self) in
  (MkFields kept (max self), (before - length kept)%nat).

Definition set (self : Fields) (name : Name) (value : bytes) : Fields * result FieldError unit :=
  insert (remove self (Name_as_bytes name)).1 name value.

Definition get (self : Fields) (name : bytes) : option bytes :=
  (fun found => found.2.2) <$> list_find (fun entry => matches entry.1 name = true) (entries self).

Definition get_known (self : Fields) (name : HeaderName) : option bytes :=
  (fun found => found.2.2) <$> list_find (fun entry => Name_id entry.1 = Some name) (entries self).

Definition get_all (self : Fields) (name : bytes) : list bytes :=
  snd <$> filter (fun entry => matches entry.1 name = true) (entries self).

Definition contains (self : Fields) (name : bytes) : bool := bool_decide (is_Some (get self name)).

Definition clear (self : Fields) : Fields := MkFields [] (max self).

(** ** Heads *)

Inductive Scheme : Type := Http | Https | OtherScheme (bytes_ : bytes).

Definition Scheme_parse (scheme : bytes) : Scheme :=
  if eq_ignore_ascii_case scheme (bs "http") then Http
  else if eq_ignore_ascii_case scheme (bs "https") then Https
  else OtherScheme scheme.

Definition Scheme_as_bytes (self : Scheme) : bytes :=
  match self with Http => bs "http" | Https => bs "https" | OtherScheme bytes_ => bytes_ end.

Definition is_secure (self : Scheme) : bool := match self with Https => true | _ => false end.

Inductive Early : Type := Early_No | Early_Yes.

Record RequestHead : Type := MkRequestHead {
  method : Method; scheme : Scheme; authority : bytes; path : bytes; fields : Fields; early : Early }.
Definition RequestHead_new (method : Method) (max_fields : nat) : RequestHead :=
  MkRequestHead method Http [] [] (with_max max_fields) Early_No.

Record ResponseHead : Type := MkResponseHead { status : StatusCode; response_fields : Fields }.
Definition ResponseHead_new (status : StatusCode) (max_fields : nat) : ResponseHead :=
  MkResponseHead status (with_max max_fields).

Inductive BodyChunk : Type := ChunkData (octets : bytes) | ChunkTrailers (trailers : Fields) | ChunkEnd.

(** ** HTML escaping *)

Definition html_entity (byte : Z) : option bytes :=
  match byte with
  | 38 => Some (bs "&amp;")
  | 60 => Some (bs "&lt;")
  | 62 => Some (bs "&gt;")
  | 34 => Some (bs "&quot;")
  | 39 => Some (bs "&#x27;")
  | _ => None
  end.

(** The loop over [enumerate]: [rest] is the input from [index]. *)
Fixpoint escape_loop (input rest : bytes) (index copied_to : nat) (out : bytes) : bytes :=
  match rest with
  | [] => out ++ drop copied_to input
  | byte :: rest =>
      match html_entity byte with
      | Some entity =>
          let out := out ++ default [] (get_range copied_to index input) in
          let out := out ++ entity in
          escape_loop input rest (S index) (S index) out
      | None => escape_loop input rest (S index) copied_to out
      end
  end.

Definition escape_html_into (input out : bytes) : bytes := escape_loop input input 0 0 out.

(** A [str] is octets that are UTF-8; [String::from_utf8] answers them. *)
Definition escape_html (input : bytes) : bytes :=
  let out := escape_html_into input [] in
  if from_utf8 out then out else [].

Definition is_html_safe (input : bytes) : bool :=
  forallb (fun byte => bool_decide (html_entity byte = None)) input.

Example fields_example :
  let f := (insert_bytes (with_max 2) (bs "X-Id") (bs "1")).1 in
  let f := (insert_bytes f (bs "HOST") (bs "a b")).1 in
  (get f (bs "x-iD"), get_known f Host, (insert_bytes f (bs "x") []).2, get (set f (Known Host) (bs " ")).1 (bs "host"))
  = (Some (bs "1"), Some (bs "a b"), Err (TooMany 2), None).
Proof. vm_compute. reflexivity. Qed.
Example escape_example : escape_html (bs "<a href='x'>&") = bs "&lt;a href=&#x27;x&#x27;&gt;&amp;".
Proof. vm_compute. reflexivity. Qed.

(** ** The grammar of RFC 9110 Sections 5.1 and 5.5 *)

Lemma is_tchar_scalar b : u8 b -> is_tchar b = Scalar.is_tchar b.
Proof.
  revert b. assert (forall b, u8 b -> eqb (is_tchar b) (Scalar.is_tchar b) = true) as H.
  { apply octet_forall. vm_compute. reflexivity. }
  intros b Hb. by apply eqb_prop, H.
Qed.

Definition value_ok (v : bytes) : Prop :=
  Forall (fun b => is_field_vchar b || edge b = true) v /\
  (forall b, head v = Some b -> edge b = false) /\ (forall b, last v = Some b -> edge b = false).

Lemma validate_name_spec name :
  match validate_field_name name with
  | Ok _ => is_token name = true
  | Err EmptyName => name = []
  | Err (InvalidNameByte i) =>
      Forall (fun b => is_tchar b = true) (take i name) /\ exists b, name !! i = Some b /\ is_tchar b = false
  | Err _ => False
  end.
Proof.
  unfold validate_field_name, is_token. case_bool_decide as Hn; [done|]. cbn [negb andb].
  destruct (position _ name) as [i|] eqn:Hp.
  - apply position_Some in Hp as (b & Hb & Hf & Hbefore). split.
    + eapply Forall_impl; [exact Hbefore|]. intros c Hc. by apply negb_false_iff in Hc.
    + exists b. split; [done|]. by apply negb_true_iff.
  - apply position_None in Hp. apply forallb_forall. intros b Hb%list_elem_of_In.
    rewrite Forall_forall in Hp. specialize (Hp _ Hb). by apply negb_false_iff.
Qed.

Lemma validate_value_spec v :
  match validate_field_value v with
  | Ok _ => value_ok v
  | Err EdgeWhitespace => exists b, (head v = Some b \/ last v = Some b) /\ edge b = true
  | Err (InvalidValueByte i) =>
      Forall (fun b => is_field_vchar b || edge b = true) (take i v) /\
      exists b, v !! i = Some b /\ is_field_vchar b = false /\ edge b = false
  | Err _ => False
  end.
Proof.
  unfold validate_field_value. destruct (from_option edge false (head v)) eqn:Hh; cbn [orb].
  { destruct (head v) as [b|]; [|done]. exists b. cbn in Hh. auto. }
  destruct (from_option edge false (last v)) eqn:Hl.
  { destruct (last v) as [b|]; [|done]. exists b. cbn in Hl. auto. }
  destruct (position _ v) as [i|] eqn:Hp.
  - apply position_Some in Hp as (b & Hb & Hf%negb_true_iff & Hbefore).
    split; [eapply Forall_impl; [exact Hbefore|]; intros c Hc; by apply negb_false_iff in Hc|].
    exists b. by apply orb_false_iff in Hf.
  - apply position_None in Hp. split; [eapply Forall_impl; [exact Hp|]; intros c Hc; by apply negb_false_iff in Hc|].
    split; intros b Hb; [rewrite Hb in Hh | rewrite Hb in Hl]; done.
Qed.

Lemma value_ok_valid v : value_ok v <-> validate_field_value v = Ok ().
Proof.
  pose proof (validate_value_spec v) as H. split.
  - intros (Hall & Hh & Hl). destruct (validate_field_value v) as [[]|[]]; try done.
    + destruct H as (b & [Hb|Hb] & He); [rewrite Hh in He | rewrite Hl in He]; done.
    + destruct H as (_ & b & Hb & H1 & H2). rewrite Forall_lookup in Hall. specialize (Hall _ _ Hb).
      by rewrite H1, H2 in Hall.
  - intros Hv. by rewrite Hv in H.
Qed.

(** No value holds a line break or a NUL. *)
Lemma value_ok_lines v : value_ok v -> Forall (fun b => is_value_byte b = true) v.
Proof.
  intros [H _]. eapply Forall_impl; [exact H|]. intros b. unfold is_field_vchar, edge, is_value_byte. lia.
Qed.

Lemma is_tchar_token name : is_token name = true -> name <> [] /\ Forall (fun b => is_tchar b = true) name.
Proof.
  unfold is_token. intros [Hn%negb_true_iff%bool_decide_eq_false H]%andb_prop. split; [done|].
  rewrite Forall_forall. intros b Hb%list_elem_of_In. rewrite forallb_forall in H. by apply H.
Qed.

(** ** Names are their spellings in lowercase *)

Definition lower_name (n : Name) : bytes := to_lower (Name_as_bytes n).

#[global] Instance name_equiv : Equiv Name := fun left right => Name_eq left right = true.

Lemma lower_inj h h' : to_lower (as_bytes h) = to_lower (as_bytes h') -> h = h'.
Proof.
  intros H. destruct (HEADER_TABLE_lookup h) as (_ & _ & Hl & _). destruct (HEADER_TABLE_lookup h') as (_ & _ & Hl' & _).
  rewrite Hl, Hl' in H. pose proof (HeaderName_parse_as_bytes h). pose proof (HeaderName_parse_as_bytes h'). congruence.
Qed.

Lemma name_equiv_lower l r : l ≡ r <-> lower_name l = lower_name r.
Proof.
  unfold equiv, name_equiv, Name_eq, matches, lower_name.
  destruct l, r; cbn [Name_as_bytes]; rewrite ?eq_ignore_ascii_case_spec; try done. rewrite bool_decide_eq_true.
  split; [by intros ->|]. apply lower_inj.
Qed.

#[global] Instance name_equivalence : Equivalence (≡@{Name}).
Proof.
  split.
  - intros n. by apply name_equiv_lower.
  - intros l r H%name_equiv_lower. by apply name_equiv_lower.
  - intros a b c Hab%name_equiv_lower Hbc%name_equiv_lower. apply name_equiv_lower. congruence.
Qed.

#[global] Instance matches_proper : Proper ((≡) ==> eq ==> eq) matches.
Proof.
  intros l r H%name_equiv_lower ? other ->. unfold matches, eq_ignore_ascii_case.
  fold (lower_name l) (lower_name r). by rewrite H.
Qed.

(** A name as [Name::parse] makes it: a token, interned when the table has it. *)
Definition name_ok (n : Name) : Prop :=
  match n with Known _ => True | Other b => is_token b = true /\ HeaderName_parse b = None end.

Lemma Name_parse_ok name n : Name_parse name = Ok n -> name_ok n /\ lower_name n = to_lower name.
Proof.
  unfold Name_parse. pose proof (validate_name_spec name) as H. destruct (validate_field_name name); [|done].
  intros [= <-]. destruct (HeaderName_parse name) as [h|] eqn:Hp; [|done]. split; [done|].
  apply HeaderName_parse_Some in Hp. unfold lower_name. cbn [Name_as_bytes].
  destruct (HEADER_TABLE_lookup h) as (_ & _ & Hl & _). congruence.
Qed.

Lemma name_ok_known n h : name_ok n -> lower_name n = as_bytes h -> n = Known h.
Proof.
  destruct n as [h'|b]; unfold lower_name; cbn [Name_as_bytes name_ok].
  - intros _ H. f_equal. apply lower_inj. rewrite H. by destruct (HEADER_TABLE_lookup h) as (_ & _ & -> & _).
  - intros [_ Hn] H. apply HeaderName_parse_Some in H. congruence.
Qed.

Lemma token_lower b : is_token b = true -> is_token (to_lower b) = true.
Proof.
  unfold is_token. intros [Hn H]%andb_prop. apply andb_true_intro. split; [by destruct b|].
  rewrite forallb_forall in H |- *. intros x (y & <- & Hy)%in_map_iff. specialize (H y Hy). revert H.
  unfold lower. destruct (is_upper y) eqn:Hu; [|done]. intros _. unfold is_tchar, is_upper in *.
  replace ((97 <=? y + 32) && (y + 32 <=? 122)) with true by lia. apply orb_true_r.
Qed.

(** ** The list against an association list *)

Definition Fields_ok (f : Fields) : Prop :=
  (length (entries f) <= max f)%nat /\ Forall (fun entry => name_ok entry.1 /\ value_ok entry.2) (entries f).

(** What an observer of the list may tell: the names in lowercase and the values. *)
Definition pairs_of (f : Fields) : list (bytes * bytes) := (fun entry => (lower_name entry.1, entry.2)) <$> entries f.
Definition values_of (name : bytes) (l : list (bytes * bytes)) : list bytes :=
  snd <$> filter (fun pair => pair.1 = to_lower name) l.
Definition without (name : bytes) (l : list (bytes * bytes)) : list (bytes * bytes) :=
  filter (fun pair => pair.1 <> to_lower name) l.

Inductive Op : Type :=
| Insert (name : Name) (value : bytes)
| InsertBytes (name value : bytes)
| SetField (name : Name) (value : bytes)
| Remove (name : bytes)
| Clear.

Definition op_ok (o : Op) : Prop :=
  match o with Insert n _ | SetField n _ => name_ok n | _ => True end.

Definition run_op (f : Fields) (o : Op) : Fields * result FieldError unit :=
  match o with
  | Insert n v => insert f n v
  | InsertBytes n v => insert_bytes f n v
  | SetField n v => set f n v
  | Remove n => ((remove f n).1, Ok ())
  | Clear => (clear f, Ok ())
  end.
Definition run (f : Fields) (ops : list Op) : Fields := fold_left (fun f o => (run_op f o).1) ops f.

(** The same operations on the association list. *)
Definition append (max : nat) (l : list (bytes * bytes)) (name value : bytes)
  : list (bytes * bytes) * result FieldError unit :=
  if (max <=? length l)%nat then (l, Err (TooMany max))
  else match validate_field_value value with
       | Ok _ => (l ++ [(to_lower name, value)], Ok ())
       | Err e => (l, Err e)
       end.
Definition abstract_op (max : nat) (l : list (bytes * bytes)) (o : Op) : list (bytes * bytes) * result FieldError unit :=
  match o with
  | Insert n v => append max l (Name_as_bytes n) v
  | InsertBytes n v => match validate_field_name n with Ok _ => append max l n v | Err e => (l, Err e) end
  | SetField n v => append max (without (Name_as_bytes n) l) (Name_as_bytes n) v
  | Remove n => (without n l, Ok ())
  | Clear => ([], Ok ())
  end.

Lemma matches_lower n name : matches n name = bool_decide (lower_name n = to_lower name).
Proof. done. Qed.

Lemma pairs_without f name : pairs_of (remove f name).1 = without name (pairs_of f).
Proof.
  unfold pairs_of, without, remove. cbn [entries fst]. induction (entries f) as [|[n v] l IH]; [done|].
  cbn [fmap list_fmap]. rewrite !filter_cons. cbn [fst]. rewrite matches_lower.
  destruct (decide (lower_name n = to_lower name)) as [He|He].
  - rewrite decide_False by (by rewrite bool_decide_eq_true_2). rewrite decide_False by tauto. exact IH.
  - rewrite decide_True by (by apply bool_decide_eq_false_2). rewrite decide_True by done. cbn. f_equal. exact IH.
Qed.

Lemma length_pairs f : length (pairs_of f) = length (entries f).
Proof. apply length_fmap. Qed.

Lemma insert_append f n v : pairs_of (insert f n v).1 = (append (max f) (pairs_of f) (Name_as_bytes n) v).1 /\
  (insert f n v).2 = (append (max f) (pairs_of f) (Name_as_bytes n) v).2 /\ max (insert f n v).1 = max f.
Proof.
  unfold insert, append. rewrite length_pairs. destruct (_ <=? _)%nat; [done|].
  destruct (validate_field_value v); [|done]. split; [|done]. unfold pairs_of. cbn. by rewrite fmap_app.
Qed.

Lemma append_lower mx l n m v : to_lower n = to_lower m -> append mx l n v = append mx l m v.
Proof. intros H. unfold append. by rewrite H. Qed.

Lemma run_op_refines f o : op_ok o ->
  pairs_of (run_op f o).1 = (abstract_op (max f) (pairs_of f) o).1 /\
  (run_op f o).2 = (abstract_op (max f) (pairs_of f) o).2 /\ max (run_op f o).1 = max f.
Proof.
  destruct o as [n v|n v|n v|n|]; intros Ho; cbn [run_op abstract_op].
  - apply insert_append.
  - unfold insert_bytes. pose proof (Name_parse_ok n) as Hn. unfold Name_parse in *.
    destruct (validate_field_name n); [|done]. destruct (Hn _ eq_refl) as [_ Hl].
    rewrite <- (append_lower _ _ _ _ _ Hl). apply insert_append.
  - unfold set. rewrite <- pairs_without. apply (insert_append (remove f (Name_as_bytes n)).1).
  - split; [apply pairs_without|done].
  - done.
Qed.

Lemma insert_ok f n v : Fields_ok f -> name_ok n -> Fields_ok (insert f n v).1.
Proof.
  intros [Hl Hall] Hn. unfold insert. destruct (Nat.leb_spec (max f) (length (entries f))); [done|].
  destruct (validate_field_value v) as [[]|] eqn:Hv; [|done]. split; cbn [entries max fst].
  - lengths.
  - apply Forall_app_2; [done|]. apply Forall_cons_2; [|constructor]. split; [done|]. by apply value_ok_valid.
Qed.

Lemma remove_ok f name : Fields_ok f -> Fields_ok (remove f name).1.
Proof.
  intros [Hl Hall]. split; cbn [remove entries max fst].
  - etransitivity; [apply length_filter|done].
  - rewrite Forall_forall in Hall |- *. intros entry [_ He]%list_elem_of_filter. by apply Hall.
Qed.

Lemma run_op_ok f o : op_ok o -> Fields_ok f -> Fields_ok (run_op f o).1.
Proof.
  destruct o as [n v|n v|n v|n|]; intros Ho Hf; cbn [run_op].
  - by apply insert_ok.
  - unfold insert_bytes. destruct (Name_parse n) as [name|] eqn:Hn; [|done]. apply insert_ok; [done|]. exact (proj1 (Name_parse_ok _ _ Hn)).
  - apply insert_ok; [by apply remove_ok|done].
  - by apply remove_ok.
  - split; cbn; [lia|constructor].
Qed.

Lemma run_refines ops : forall f, Forall op_ok ops -> Fields_ok f ->
  Fields_ok (run f ops) /\ max (run f ops) = max f /\
  pairs_of (run f ops) = fold_left (fun l o => (abstract_op (max f) l o).1) ops (pairs_of f).
Proof.
  induction ops as [|o ops IH]; intros f Hops Hf; [done|]. apply Forall_cons in Hops as [Ho Hops].
  destruct (run_op_refines f o Ho) as (Hp & _ & Hm). cbn [run fold_left].
  destruct (IH _ Hops (run_op_ok f o Ho Hf)) as (H1 & H2 & H3). split; [done|]. split; [by rewrite <- Hm|].
  unfold run in *. rewrite H3, Hm, Hp. done.
Qed.

Lemma get_all_values f name : get_all f name = values_of name (pairs_of f).
Proof.
  unfold get_all, values_of, pairs_of. induction (entries f) as [|[n v] l IH]; [done|].
  cbn [fmap list_fmap]. rewrite !filter_cons. cbn [fst]. rewrite matches_lower.
  destruct (decide (lower_name n = to_lower name)) as [He|He].
  - rewrite decide_True by (by apply bool_decide_eq_true_2). cbn. f_equal. exact IH.
  - rewrite decide_False by (by rewrite bool_decide_eq_false_2). exact IH.
Qed.

Lemma find_filter {A} (P : A -> Prop) `{!forall x, Decision (P x)} l :
  (fun found => found.2) <$> list_find P l = head (filter P l).
Proof.
  induction l as [|x l IH]; [done|]. rewrite filter_cons. cbn [list_find]. destruct (decide (P x)); [done|].
  rewrite <- IH. by destruct (list_find P l) as [[]|].
Qed.

Lemma find_snd {A B} (P : A * B -> Prop) `{!forall x, Decision (P x)} l :
  (fun found => found.2.2) <$> list_find P l = head (snd <$> filter P l).
Proof.
  assert (forall m : list (A * B), head (snd <$> m) = snd <$> head m) as -> by (by intros []).
  rewrite <- find_filter. by destruct (list_find P l) as [[]|].
Qed.

Lemma filter_agree {A} (P Q : A -> Prop) `{!forall x, Decision (P x), !forall x, Decision (Q x)} l :
  Forall (fun x => P x <-> Q x) l -> filter P l = filter Q l.
Proof.
  induction 1 as [|x l Hx _ IH]; [done|]. rewrite !filter_cons, IH. destruct (decide (P x)), (decide (Q x)); tauto.
Qed.

Lemma get_known_get f h : Fields_ok f -> get_known f h = head (values_of (as_bytes h) (pairs_of f)).
Proof.
  intros [_ Hall]. rewrite <- get_all_values. unfold get_known. rewrite find_snd. unfold get_all. do 2 f_equal.
  apply filter_agree. rewrite Forall_forall in Hall |- *. intros [n v] He. destruct (Hall _ He) as [Hn _]. cbn [fst] in *.
  rewrite matches_lower, bool_decide_eq_true. destruct (HEADER_TABLE_lookup h) as (_ & _ & Hl & _). rewrite Hl. split.
  - destruct n as [h'|]; [|done]. intros [= ->]. exact Hl.
  - intros H. by rewrite (name_ok_known n h Hn H).
Qed.

(** The list of fields is a bounded association list from names in any case to values:
    after any operations with names as [Name::parse] makes them, it holds the pairs that the
    same operations leave on a plain list of lowercase names and values, never more than the
    bound, every one with a token for a name and a value without control octets or
    whitespace at its ends; an operation that is refused says why and leaves the list, but
    for the removal that [set] makes first; and [get], [get_known], [get_all] and [contains]
    answer what the plain list has, whether the name was interned or not. *)
Theorem fields_association ops o m name h (Hops : Forall op_ok (o :: ops)) :
  let f := run (with_max m) ops in
  let l := fold_left (fun l o => (abstract_op m l o).1) ops [] in
  pairs_of f = l /\ (length l <= m)%nat /\ max f = m /\
  Forall (fun pair => is_token pair.1 = true \/ (exists h, pair.1 = as_bytes h)) l /\
  Forall (fun pair => value_ok pair.2) l /\
  (run_op f o).2 = (abstract_op m l o).2 /\
  get_all f name = values_of name l /\ get f name = head (values_of name l) /\
  get_known f h = head (values_of (as_bytes h) l) /\
  contains f name = negb (bool_decide (values_of name l = [])).
Proof.
  apply Forall_cons in Hops as [Ho Hops]. intros f l.
  destruct (run_refines ops (with_max m) Hops) as (Hok & Hm & Hl); [split; cbn; [lia|constructor]|]. fold f in Hok, Hm, Hl.
  change (max f = m) in Hm.
  change (pairs_of (with_max m)) with (@nil (bytes * bytes)) in Hl. cbn [with_max max] in Hl. fold l in Hl.
  assert (get f name = head (values_of name l)) as Hget by (unfold get; by rewrite find_snd, <- Hl, <- get_all_values).
  split; [done|]. split; [rewrite <- Hl, length_pairs, <- Hm; apply Hok|]. split; [done|]. destruct Hok as [Hlen Hall].
  split; [|split; [|split; [|split; [|split; [|split]]]]].
  - rewrite <- Hl. apply Forall_fmap. eapply Forall_impl; [exact Hall|]. intros [[h'|b] v] [Hn _]; cbn in *.
    + right. exists h'. by destruct (HEADER_TABLE_lookup h') as (_ & _ & ? & _).
    + left. apply token_lower, Hn.
  - rewrite <- Hl. apply Forall_fmap. eapply Forall_impl; [exact Hall|]. by intros [n v] [_ Hv].
  - destruct (run_op_refines f o Ho) as (_ & H & _). rewrite H. by rewrite Hm, Hl.
  - by rewrite get_all_values, Hl.
  - done.
  - rewrite <- Hl. by apply get_known_get.
  - unfold contains. rewrite Hget. by destruct (values_of name l).
Qed.

Lemma fields_association_witness :
  let f := run (with_max 2) [Insert (Known Host) (bs "a"); InsertBytes (bs "X-Id") (bs "1"); SetField (Known Host) (bs "b")] in
  (run_op f (InsertBytes (bs "y") [])).2 = Err (TooMany 2) /\ get f (bs "HOST") = Some (bs "b") /\
  get_known f Host = Some (bs "b").
Proof.
  destruct (fields_association [Insert (Known Host) (bs "a"); InsertBytes (bs "X-Id") (bs "1"); SetField (Known Host) (bs "b")]
    (InsertBytes (bs "y") []) 2 (bs "HOST") Host) as (_ & _ & _ & _ & _ & H1 & _ & H2 & H3 & _).
  - rewrite !Forall_cons. by repeat split.
  - exact (conj H1 (conj H2 H3)).
Defined.

(** ** Escaping *)

Definition escaped (l : bytes) : bytes := mbind (fun b => default [b] (html_entity b)) l.

(** A reader of the five references. *)
Fixpoint unescape (l : bytes) : bytes :=
  match l with
  | 38 :: 97 :: 109 :: 112 :: 59 :: rest => 38 :: unescape rest
  | 38 :: 108 :: 116 :: 59 :: rest => 60 :: unescape rest
  | 38 :: 103 :: 116 :: 59 :: rest => 62 :: unescape rest
  | 38 :: 113 :: 117 :: 111 :: 116 :: 59 :: rest => 34 :: unescape rest
  | 38 :: 35 :: 120 :: 50 :: 55 :: 59 :: rest => 39 :: unescape rest
  | b :: rest => b :: unescape rest
  | [] => []
  end.

Definition special (b : Z) : bool := bool_decide (b ∈ bs "&<>'" ++ [34]).

Lemma entity_cases b : (html_entity b = None /\ special b = false) \/
  (b = 38 \/ b = 60 \/ b = 62 \/ b = 34 \/ b = 39).
Proof.
  destruct (decide (b = 38 \/ b = 60 \/ b = 62 \/ b = 34 \/ b = 39)) as [H|H]; [by right|left]. split.
  - unfold html_entity. destruct b as [|p|p]; [done| |done]. repeat (destruct p as [p|p|]; try done); exfalso; apply H; lia.
  - apply bool_decide_eq_false_2. intros Hin%list_elem_of_In. apply H. cbn in Hin. lia.
Qed.

Lemma unescape_plain b l : b <> 38 -> unescape (b :: l) = b :: unescape l.
Proof.
  intros Hb. destruct b as [|p|p]; [reflexivity| |reflexivity].
  repeat (destruct p as [p|p|]; try reflexivity). by destruct Hb.
Qed.

Lemma unescape_escaped l : unescape (escaped l) = l.
Proof.
  induction l as [|b l IH]; [done|]. unfold escaped. cbn [mbind list_bind]. fold (escaped l).
  destruct (entity_cases b) as [[Hb Hs]|Hb].
  - rewrite Hb. cbn [default app from_option id]. rewrite unescape_plain, IH; [done|]. by intros ->.
  - transitivity (b :: unescape (escaped l)); [|by rewrite IH].
    destruct Hb as [-> | [-> | [-> | [-> | ->]]]]; reflexivity.
Qed.

Lemma escape_loop_spec rest : forall before index copied out,
  index = length before -> (copied <= index)%nat ->
  escape_loop (before ++ rest) rest index copied out = out ++ drop copied before ++ escaped rest.
Proof.
  induction rest as [|b rest IH]; intros before index copied out -> Hc; cbn [escape_loop escaped mbind list_bind].
  - by rewrite !app_nil_r.
  - replace (before ++ b :: rest) with ((before ++ [b]) ++ rest) by (by rewrite <- app_assoc).
    destruct (html_entity b) as [entity|] eqn:Hb; cbn [default].
    + rewrite IH by (rewrite ?length_app; cbn; lia). rewrite drop_ge by (rewrite length_app; cbn; lia).
      unfold get_range. rewrite decide_True by (rewrite !length_app; cbn; lia). cbn [default].
      rewrite <- !app_assoc. f_equal. f_equal.
      rewrite drop_app_le by lia. rewrite take_app_length' by (rewrite length_drop; lia). done.
    + rewrite IH by (rewrite ?length_app; cbn; lia). rewrite drop_app_le by lia. by rewrite <- !app_assoc.
Qed.

Lemma escape_html_into_spec input out : escape_html_into input out = out ++ escaped input.
Proof. unfold escape_html_into. by rewrite (escape_loop_spec input []). Qed.

Lemma escaped_app l m : escaped (l ++ m) = escaped l ++ escaped m.
Proof. apply bind_app. Qed.

Lemma escaped_plain l : Forall (fun b => html_entity b = None) l -> escaped l = l.
Proof. induction 1 as [|b l Hb _ IH]; [done|]. unfold escaped in *. cbn. by rewrite Hb, IH. Qed.

Lemma entity_ascii b e : html_entity b = Some e -> 0 <= b < 128 /\ utf8 e.
Proof.
  destruct (entity_cases b) as [[Hb _]|Hb]; [congruence|]. intros He. split; [lia|].
  exists e. destruct Hb as [-> | [-> | [-> | [-> | ->]]]]; injection He as <-;
    (split; [repeat apply Forall_cons_2; try apply Forall_nil_2; unfold scalar; lia|reflexivity]).
Qed.

Lemma is_char_high ch b c l : is_char ch = true -> ch = b :: c :: l -> Forall (fun b => 128 <= b) ch.
Proof.
  intros H ->. destruct l as [|d [|e [|]]]; cbn [is_char] in H; try done; ranges; repeat apply Forall_cons_2; try apply Forall_nil_2; try lia.
Qed.

Lemma escaped_utf8 l : utf8 l -> utf8 (escaped l).
Proof.
  intros (cs & Hcs & ->). induction Hcs as [|c cs Hc _ IH]; [apply utf8_nil|].
  cbn [mbind list_bind]. rewrite escaped_app. apply utf8_app; [|exact IH].
  pose proof (is_char_encode c Hc) as Hch. destruct (encode_char c) as [|b [|b' l]] eqn:He; [done| |].
  - unfold escaped. cbn [mbind list_bind]. rewrite app_nil_r. destruct (html_entity b) as [e|] eqn:Hb.
    + apply (entity_ascii b e Hb).
    + by apply utf8_char.
  - rewrite escaped_plain; [by apply utf8_char|]. eapply Forall_impl; [exact (is_char_high _ _ _ _ Hch eq_refl)|].
    intros x Hx. destruct (html_entity x) as [e|] eqn:Hb; [|done]. apply entity_ascii in Hb as [? _]. cbn in Hx. lia.
Qed.

Lemma escaped_special l : Forall (fun b => special b = true -> b = 38) (escaped l).
Proof.
  induction l as [|b l IH]; [constructor|]. unfold escaped in *. cbn [mbind list_bind]. apply Forall_app_2; [|exact IH].
  destruct (entity_cases b) as [[Hb Hs]|Hb].
  - rewrite Hb. cbn. rewrite Forall_singleton. congruence.
  - destruct Hb as [-> | [-> | [-> | [-> | ->]]]]; cbn; rewrite !Forall_cons; repeat split; done || constructor.
Qed.

Lemma safe_plain l : is_html_safe l = true <-> Forall (fun b => html_entity b = None) l.
Proof.
  unfold is_html_safe. rewrite forallb_forall, Forall_forall.
  split; intros H b Hb; [apply list_elem_of_In in Hb | apply list_elem_of_In in Hb]; specialize (H b Hb); by apply bool_decide_eq_true in H || apply bool_decide_eq_true.
Qed.

Lemma utf8_octets l : utf8 l -> octets l.
Proof.
  intros (cs & Hcs & ->). induction Hcs as [|c cs Hc _ IH]; [constructor|]. apply Forall_app_2; [|exact IH].
  unfold encode_char, scalar in *.
  destruct (Z.ltb_spec c 0x80); [|destruct (Z.ltb_spec c 0x800); [|destruct (Z.ltb_spec c 0x10000)]];
    repeat apply Forall_cons_2; try apply Forall_nil_2; unfold word; Z.to_euclidean_division_equations; lia.
Qed.

Lemma escaped_grows l : (length l <= length (escaped l))%nat /\
  (length (escaped l) = length l -> Forall (fun b => html_entity b = None) l).
Proof.
  induction l as [|b l [IH1 IH2]]; [split; [done|constructor]|]. unfold escaped in *. cbn [mbind list_bind].
  rewrite length_app. cbn [length]. destruct (entity_cases b) as [[Hb _]|Hb].
  - rewrite Hb. cbn. split; [lia|]. intros H. apply Forall_cons_2; [done|]. apply IH2. lia.
  - assert (exists e, html_entity b = Some e /\ (2 <= length e)%nat) as (e & He & Hl)
      by (destruct Hb as [-> | [-> | [-> | [-> | ->]]]]; eexists; (split; [reflexivity|cbn; lia])).
    rewrite He. cbn. split; [lia|]. lia.
Qed.

Lemma ascii_utf8 l : forallb (fun c => within 0 0x7f c) l = true -> utf8 l.
Proof.
  intros H. exists l. induction l as [|c l IH]; [done|].
  cbn [forallb] in H. apply andb_prop in H as [Hc H]. destruct (IH H) as [IH1 IH2]. unfold within in Hc. split.
  - apply Forall_cons_2; [unfold scalar; lia|done].
  - cbn. unfold encode_char at 1. rewrite (proj2 (Z.ltb_lt c 0x80)) by lia. cbn. by f_equal.
Qed.

(** Text escaped for HTML is safe and loses nothing: the escape of any UTF-8 text is
    UTF-8, has no quote and no angle bracket, and every ampersand in it starts one of five
    references, for a reader that replaces these has the text back; text without the five
    characters, and no other, is its own escape; and appending to a buffer keeps what the
    buffer had. *)
Theorem escape_safe input out (Hin : utf8 input) :
  utf8 (escape_html input) /\ Forall (fun b => special b = true -> b = 38) (escape_html input) /\
  unescape (escape_html input) = input /\ (is_html_safe input = true <-> escape_html input = input) /\
  escape_html_into input out = out ++ escape_html input.
Proof.
  assert (escape_html input = escaped input) as ->.
  { unfold escape_html. rewrite escape_html_into_spec. cbn [app].
    rewrite (proj2 (from_utf8_spec (escaped input) (utf8_octets _ (escaped_utf8 _ Hin)))); [done|by apply escaped_utf8]. }
  split; [by apply escaped_utf8|]. split; [apply escaped_special|]. split; [apply unescape_escaped|].
  split; [|apply escape_html_into_spec]. rewrite safe_plain. split; [apply escaped_plain|].
  intros H. apply escaped_grows. by rewrite H.
Qed.

Lemma escape_safe_witness :
  unescape (escape_html (bs "a<b & c")) = bs "a<b & c" /\ escape_html_into (bs "<") (bs "x") = bs "x" ++ escape_html (bs "<").
Proof.
  split.
  - apply (escape_safe (bs "a<b & c") []). by apply ascii_utf8.
  - apply (escape_safe (bs "<") (bs "x")). by apply ascii_utf8.
Defined.
