(* ===== verification/H1Response.v ===== *)
(** * The response serializer

    [zero-http1/src/response.rs]: a writer over a buffer of the caller.  An operation is a
    state transformer that answers a result; the operations are composed in the little
    monad of [bind], as the question mark does. *)
From S2P Require Import Prelude Scalar HttpTypes HttpFields Date H1List H1Head H1Grammar H1Chunked H1Body Machine.

Inductive WriteError : Type := Full | InvalidName | InvalidValue | NoContentLength | NoStatus.
#[global] Instance WriteError_eq_dec : EqDecision WriteError.
Proof. solve_decision. Defined.

Definition body_allowed (head_request : bool) (status : StatusCode) : bool :=
  negb (head_request || is_informational status || (status =? 204) || (status =? 304)).
Definition content_length_allowed (status : StatusCode) : bool :=
  negb (is_informational status || (status =? 204)).

Record ResponseWriter : Type := MkWriter {
  out : bytes;
  written_len : nat;
  status : option StatusCode;
  head_request : bool;
}.

Definition W (A : Type) : Type := ResponseWriter -> ResponseWriter * result WriteError A.
Definition ret {A} (a : A) : W A := fun self => (self, Ok a).
Definition refuse {A} (e : WriteError) : W A := fun self => (self, Err e).
Definition bind {A B} (m : W A) (k : A -> W B) : W B := fun self =>
  match m self with
  | (self, Ok a) => k a self
  | (self, Err e) => (self, Err e)
  end.
Notation "'let*' p := m 'in' k" := (bind m (fun p => k)) (at level 10, p pattern, k at level 200).
Definition ask {A} (f : ResponseWriter -> A) : W A := fun self => (self, Ok (f self)).
Definition or_refuse {A} (o : option A) (e : WriteError) : W A :=
  match o with Some a => ret a | None => refuse e end.

Definition writer_new (out : bytes) (head_request : bool) : ResponseWriter := MkWriter out 0 None head_request.
Definition written_octets (self : ResponseWriter) : bytes := default [] (get_to (written_len self) (out self)).
Definition writer_body_allowed (self : ResponseWriter) : bool :=
  match status self with Some status => body_allowed (head_request self) status | None => false end.
Definition remaining (self : ResponseWriter) : Z := saturating_sub (len (out self)) (Z.of_nat (written_len self)).

(** [copy]; a slice never has an end past a word. *)
Definition copy (octets : bytes) : W unit := fun self =>
  let end_ := (written_len self + length octets)%nat in
  match get_range (written_len self) end_ (out self) with
  | None => (self, Err Full)
  | Some _ =>
      (MkWriter (take (written_len self) (out self) ++ octets ++ drop end_ (out self)) end_
         (status self) (head_request self), Ok ())
  end.

Definition status_line (code : StatusCode) : W unit := fun self =>
  let rest := drop (written_len self) (out self) in
  match write_status_line code rest with
  | None => (self, Err Full)
  | Some (written, rest) =>
      (MkWriter (take (written_len self) (out self) ++ rest) (written_len self + written) (Some code)
         (head_request self), Ok ())
  end.

Definition has_status : W StatusCode := fun self =>
  match status self with Some code => (self, Ok code) | None => (self, Err NoStatus) end.

Definition field_line (name value : bytes) : W unit :=
  let* _ := has_status in
  let* total := or_refuse
    (let! total := checked_add 64 (len name) 2 in
     let! total := checked_add 64 total (len value) in
     checked_add 64 total 2) Full in
  let* room := ask remaining in
  if room <? total then refuse Full
  else
    let* _ := copy name in
    let* _ := copy (bs ": ") in
    let* _ := copy value in
    copy [CR; LF].

Definition field (name value : bytes) : W unit :=
  match validate_field_name name with
  | Err _ => refuse InvalidName
  | Ok _ =>
      match validate_field_value value with
      | Err _ => refuse InvalidValue
      | Ok _ => field_line name value
      end
  end.

Definition field_id (name : HeaderName) (value : bytes) : W unit :=
  match validate_field_value value with
  | Err _ => refuse InvalidValue
  | Ok _ => field_line (canonical name) value
  end.

Definition content_length (n : Z) : W unit :=
  let* code := has_status in
  if negb (content_length_allowed code) then refuse NoContentLength
  else
    let decimal := Decimal_new n in
    field_line (canonical ContentLength) (Date.as_bytes decimal).

Definition chunked : W unit := field_line (canonical TransferEncoding) (bs "chunked").
Definition connection_close : W unit := field_line (canonical Connection) (bs "close").

Definition raw (block : bytes) : W unit :=
  let* _ := has_status in
  copy block.
Definition end_head : W unit :=
  let* _ := has_status in
  copy [CR; LF].

Definition body (octets : bytes) : W nat :=
  let* _ := has_status in
  let* allowed := ask writer_body_allowed in
  if negb allowed then ret O
  else
    let* _ := copy octets in
    ret (length octets).

Definition chunk (data : bytes) : W nat :=
  let* _ := has_status in
  let* allowed := ask writer_body_allowed in
  if bool_decide (data = []) || negb allowed then ret O
  else
    let* (header_len, header) := or_refuse (chunk_header (len data) (replicate MAX_CHUNK_HEADER_LEN 0)) Full in
    let* total := or_refuse
      (let! total := checked_add 64 (Z.of_nat header_len) (len data) in
       checked_add 64 total (len CHUNK_END)) Full in
    let* room := ask remaining in
    if room <? total then refuse Full
    else
      let* _ := copy (default [] (get_to header_len header)) in
      let* _ := copy data in
      let* _ := copy CHUNK_END in
      ret (Z.to_nat total).

Definition last_chunk : W nat :=
  let* _ := has_status in
  let* allowed := ask writer_body_allowed in
  if negb allowed then ret O
  else
    let* _ := copy LAST_CHUNK in
    ret (length LAST_CHUNK).

Example response_example :
  let m := let* _ := status_line 200 in let* _ := field_id ContentType (bs "text/plain") in
    let* _ := content_length 2 in let* _ := end_head in body (bs "ok") in
  let '(w, r) := m (writer_new (replicate 100 0) false) in
  (r, written_octets w)
  = (Ok 2%nat, bs "HTTP/1.1 200 OK" ++ CRLF ++ bs "Content-Type: text/plain" ++ CRLF ++ bs "Content-Length: 2" ++ CRLF
       ++ CRLF ++ bs "ok").
Proof. vm_compute. reflexivity. Qed.

(** The values a handler may try to split the response with are refused. *)
Example splitting_refused :
  (let* _ := status_line 200 in field_id Location (bs "/a" ++ CRLF ++ bs "Set-Cookie: x")) (writer_new (replicate 99 0) false)
  = ((status_line 200 (writer_new (replicate 99 0) false)).1, Err InvalidValue).
Proof. vm_compute. reflexivity. Qed.

(** ** What a call writes *)

(** The calls on a writer. *)
Inductive Call : Type :=
| StatusLine (code : StatusCode)
| FieldCall (name value : bytes)
| FieldId (name : HeaderName) (value : bytes)
| ContentLengthCall (n : Z)
| ChunkedCall
| CloseCall
| RawCall (block : bytes)
| EndHead
| BodyCall (octets : bytes)
| ChunkCall (data : bytes)
| LastChunkCall.

Definition done_ {A} (m : W A) : W nat := let* _ := m in ret O.

Definition call (c : Call) : W nat :=
  match c with
  | StatusLine code => done_ (status_line code)
  | FieldCall name value => done_ (field name value)
  | FieldId name value => done_ (field_id name value)
  | ContentLengthCall n => done_ (content_length n)
  | ChunkedCall => done_ chunked
  | CloseCall => done_ connection_close
  | RawCall block => done_ (raw block)
  | EndHead => done_ end_head
  | BodyCall octets => body octets
  | ChunkCall data => chunk data
  | LastChunkCall => last_chunk
  end.

Definition line (name value : bytes) : bytes := name ++ bs ": " ++ value ++ CRLF.
Definition status_text (code : StatusCode) : bytes :=
  default (bs "HTTP/1.1 " ++ digits3 code ++ bs " " ++ CRLF) (HttpTypes.status_line code).

(** The octets of a call, by the status so far and the method of the request. *)
Definition text (head : bool) (st : option StatusCode) (c : Call) : result WriteError bytes :=
  let with_status (k : StatusCode -> result WriteError bytes) :=
    match st with Some code => k code | None => Err NoStatus end in
  let body_text (t : bytes) := with_status (fun code => Ok (if body_allowed head code then t else [])) in
  match c with
  | StatusLine code => Ok (status_text code)
  | FieldCall name value =>
      if negb (is_token name) then Err InvalidName
      else if negb (is_ok (validate_field_value value)) then Err InvalidValue
      else with_status (fun _ => Ok (line name value))
  | FieldId name value =>
      if negb (is_ok (validate_field_value value)) then Err InvalidValue
      else with_status (fun _ => Ok (line (canonical name) value))
  | ContentLengthCall n => with_status (fun code =>
      if content_length_allowed code then Ok (line (bs "Content-Length") (decimal_text n)) else Err NoContentLength)
  | ChunkedCall => with_status (fun _ => Ok (line (bs "Transfer-Encoding") (bs "chunked")))
  | CloseCall => with_status (fun _ => Ok (line (bs "Connection") (bs "close")))
  | RawCall block => with_status (fun _ => Ok block)
  | EndHead => with_status (fun _ => Ok CRLF)
  | BodyCall octets => body_text octets
  | ChunkCall data => body_text (if bool_decide (data = []) then [] else chunk_text (encoded data))
  | LastChunkCall => body_text LAST_CHUNK
  end.

Definition counted (c : Call) (t : bytes) : nat :=
  match c with BodyCall _ | ChunkCall _ | LastChunkCall => length t | _ => O end.

(** ** The writer *)

(** A slice is shorter than [isize::MAX], and so is what a caller has a slice of. *)
Definition writer_ok (w : ResponseWriter) : Prop := (written_len w <= length (out w))%nat /\ len (out w) < 2 ^ 63.
Definition sized (c : Call) : Prop :=
  match c with
  | ContentLengthCall n => word 64 n
  | ChunkCall data => len data < 2 ^ 63
  | _ => True
  end.

Definition append (w : ResponseWriter) (t : bytes) : ResponseWriter :=
  MkWriter (take (written_len w) (out w) ++ t ++ drop (written_len w + length t) (out w))
    (written_len w + length t) (status w) (head_request w).
Definition room (w : ResponseWriter) (t : bytes) : bool := (written_len w + length t <=? length (out w))%nat.
Definition emit {A} (t : bytes) (a : A) : W A := fun w =>
  if room w t then (append w t, Ok a) else (w, Err Full).

Lemma copy_emit t w : copy t w = emit t () w.
Proof.
  unfold copy, emit, get_range, append, room. destruct (Nat.leb_spec (written_len w + length t) (length (out w))).
  - by rewrite decide_True by lia.
  - by rewrite decide_False by lia.
Qed.

Lemma append_app w s t : room w (s ++ t) = true -> append (append w s) t = append w (s ++ t).
Proof.
  intros H%Nat.leb_le. rewrite length_app in H.
  unfold append. cbn [out written_len status head_request]. rewrite length_app.
  assert (length (take (written_len w) (out w) ++ s) = (written_len w + length s)%nat) as Hl by (rewrite length_app, length_take; lia).
  f_equal; [|lia]. rewrite (app_assoc _ s), take_app_length' by lia.
  rewrite drop_app_ge by lia. rewrite drop_drop, <- !app_assoc. do 4 f_equal. lia.
Qed.

Lemma room_app w s t : room w (s ++ t) = true -> room w s = true /\ room (append w s) t = true.
Proof.
  unfold room. intros H%Nat.leb_le. rewrite length_app in H. split; apply Nat.leb_le; [lia|].
  cbn [append out written_len]. rewrite !length_app, length_take, length_drop. lia.
Qed.

(** Octets for which there is room may be copied piece by piece. *)
Lemma copies {A} s t (k : W A) (a : A) w : room w (s ++ t) = true ->
  (forall w, room w t = true -> k w = emit t a w) -> (let* _ := copy s in k) w = emit (s ++ t) a w.
Proof.
  intros Hr Hk. destruct (room_app w s t Hr) as [Hs Ht]. unfold bind. rewrite copy_emit. unfold emit at 1.
  rewrite Hs, Hk by done. unfold emit. by rewrite Ht, Hr, append_app.
Qed.

Lemma copied {A} t (a : A) w : room w t = true -> (let* _ := copy t in ret a) w = emit t a w.
Proof. intros Hr. unfold bind. rewrite copy_emit. unfold emit. by rewrite Hr. Qed.

Lemma room_remaining w t total : writer_ok w -> total = len t -> (remaining w <? total) = negb (room w t).
Proof.
  intros [Hl Hs] ->. unfold remaining, room, saturating_sub, len in *.
  destruct (Nat.leb_spec (written_len w + length t) (length (out w))); cbn [negb]; [apply Z.ltb_ge|apply Z.ltb_lt]; lia.
Qed.

Lemma field_line_emit name value w : writer_ok w -> field_line name value w =
  match status w with Some _ => emit (line name value) () w | None => (w, Err NoStatus) end.
Proof.
  intros Hw. unfold field_line, has_status, bind, ask. destruct (status w); [|done].
  assert (len (line name value) = len name + 2 + len value + 2) as Hlen 
    by (unfold line; rewrite !len_app; change (len (bs ": ")) with 2; change (len CRLF) with 2; lia).
  pose proof (len_nonneg name). pose proof (len_nonneg value).
  assert ((let! total := checked_add 64 (len name) 2 in let! total := checked_add 64 total (len value) in checked_add 64 total 2)
    = if len (line name value) <? 2 ^ 64 then Some (len (line name value)) else None) as ->.
  { rewrite Hlen. unfold checked_add. destruct (Z.ltb_spec (len name + 2 + len value + 2) (2 ^ 64)).
    - by rewrite !(proj2 (Z.ltb_lt _ _)) by lia.
    - destruct (Z.ltb_spec (len name + 2) (2 ^ 64)); [|done]. destruct (Z.ltb_spec (len name + 2 + len value) (2 ^ 64)); [|done].
      by rewrite (proj2 (Z.ltb_ge _ _)) by lia. }
  pose proof (room_remaining w (line name value) _ Hw eq_refl) as Hr.
  destruct (Z.ltb_spec (len (line name value)) (2 ^ 64)) as [Hf|Hf]; cbn [or_refuse ret refuse].
  - rewrite Hr. unfold emit. destruct (room w (line name value)) eqn:Hroom; cbn [negb]; [|done].
    change ((let* _ := copy name in let* _ := copy (bs ": ") in let* _ := copy value in copy CRLF) w
      = (append w (line name value), Ok ())).
    rewrite (copies name (bs ": " ++ value ++ CRLF) _ ());
      [change (emit (line name value) () w = (append w (line name value), Ok ())); unfold emit; by rewrite Hroom|done|]. intros w1 H1.
    apply copies; [done|]. intros w2 H2. apply copies; [done|]. intros w3 H3. apply copy_emit.
  - assert (room w (line name value) = false) as Hroom.
    { unfold room. apply Nat.leb_gt. destruct Hw as [_ Hs]. unfold len in *. pow2. lia. }
    unfold emit. by rewrite Hroom.
Qed.

Lemma status_line_emit code w : writer_ok w ->
  status_line code w = if room w (status_text code)
    then (MkWriter (out (append w (status_text code))) (written_len w + length (status_text code)) (Some code) (head_request w), Ok ())
    else (w, Err Full).
Proof.
  intros [Hw _]. unfold status_line, write_status_line, status_text. destruct (HttpTypes.status_line code) as [t|] eqn:Ht; cbn [default from_option Datatypes.id id].
  - unfold get_to. rewrite length_drop. unfold room. destruct (Nat.leb_spec (written_len w + length t) (length (out w))).
    + rewrite decide_True by lia. cbn [append out]. by rewrite drop_drop.
    + by rewrite decide_False by lia.
  - set (t := bs "HTTP/1.1 " ++ digits3 code ++ bs " " ++ CRLF). change BARE_STATUS_LINE_LEN with (length t).
    unfold get_to. rewrite length_drop. unfold room. destruct (Nat.leb_spec (written_len w + length t) (length (out w))).
    + rewrite decide_True by lia. cbn [append out]. rewrite drop_drop. unfold t. by rewrite <- !app_assoc.
    + by rewrite decide_False by lia.
Qed.

Lemma chunk_emit data w code : writer_ok w -> len data < 2 ^ 63 -> data <> [] -> status w = Some code ->
  body_allowed (head_request w) code = true ->
  chunk data w = emit (chunk_text (encoded data)) (length (chunk_text (encoded data))) w.
Proof.
  intros Hw Hd Hne Hs Ha. pose proof (len_nonneg data). unfold chunk, has_status, bind, ask, writer_body_allowed.
  rewrite Hs. cbv beta iota. rewrite Hs, Ha, bool_decide_eq_false_2 by done. cbn [negb orb].
  rewrite chunk_header_text by word_lia. cbn [or_refuse ret].
  set (h := size_line_text (header_text (len data))).
  assert (len (chunk_text (encoded data)) = Z.of_nat (length h) + len data + 2) as Hl
    by (unfold chunk_text; cbn [chunk_size chunk_octets encoded]; fold h; rewrite !len_app; change (len CRLF) with 2; unfold len; lia).
  assert (Z.of_nat (length h) <= 18) as Hh.
  { subst h. unfold size_line_text, header_text. cbn [size_text extension app]. rewrite length_app, length_reverse. cbn [length].
    destruct (header_digits_spec 16 (len data)) as (_ & _ & _ & Hl'); [lia|pow2; lia|]. rewrite length_reverse in Hl'. lia. }
  change (len CHUNK_END) with 2.
  assert ((let! total := checked_add 64 (Z.of_nat (length h)) (len data) in checked_add 64 total 2)
    = Some (len (chunk_text (encoded data)))) as ->.
  { unfold checked_add. rewrite !(proj2 (Z.ltb_lt _ _)) by (pow2; lia). by rewrite Hl. }
  cbn [or_refuse ret]. rewrite (room_remaining w (chunk_text (encoded data))) by done.
  unfold emit. destruct (room w _) eqn:Hr; cbn [negb refuse]; [|done].
  rewrite get_to_app. cbn [default from_option Datatypes.id id].
  change (chunk_text (encoded data)) with (h ++ data ++ CRLF) in *. unfold len. rewrite Nat2Z.id.
  change ((let* _ := copy h in let* _ := copy data in let* _ := copy CRLF in ret (length (h ++ data ++ CRLF))) w
    = (append w (h ++ data ++ CRLF), Ok (length (h ++ data ++ CRLF)))).
  rewrite (copies h (data ++ CRLF) _ (length (h ++ data ++ CRLF))); [unfold emit; by rewrite Hr|done|].
  intros w1 H1. apply copies; [done|]. intros w2 H2. by apply copied.
Qed.

(** The writer after a call that wrote [t]. *)
Definition after (c : Call) (w : ResponseWriter) (t : bytes) : ResponseWriter :=
  MkWriter (out (append w t)) (written_len w + length t)
    (match c with StatusLine code => Some code | _ => status w end) (head_request w).
Definition answer (c : Call) (w : ResponseWriter) (t : bytes) : ResponseWriter * result WriteError nat :=
  if room w t then (after c w t, Ok (counted c t)) else (w, Err Full).

Lemma emit_answer c t w : (forall code, c <> StatusLine code) -> counted c t = O ->
  done_ (emit t ()) w = answer c w t.
Proof.
  intros Hc H0. unfold done_, bind, emit, answer, after. rewrite H0. destruct (room w t); [|done]. cbn.
  destruct c; try done. by destruct (Hc code).
Qed.

Lemma after_nothing c w : writer_ok w -> (forall code, c <> StatusLine code) -> answer c w [] = (w, Ok O).
Proof.
  intros [Hw _] Hc. unfold answer, room, after. cbn [length]. rewrite Nat.add_0_r, (proj2 (Nat.leb_le _ _)) by done.
  unfold append. cbn [app out length]. rewrite Nat.add_0_r, take_drop.
  destruct w as [o n st h]; cbn. destruct c; try done. by destruct (Hc code).
Qed.

Lemma is_token_valid name : is_token name = is_ok (validate_field_name name).
Proof.
  pose proof (validate_name_spec name) as H. destruct (validate_field_name name) as [|[|i| | | ]]; cbn [is_ok]; try done.
  - by subst.
  - destruct H as (_ & b & Hb & Hf). apply not_true_iff_false. intros [_ Ht]%is_tchar_token.
    rewrite Forall_lookup in Ht. specialize (Ht _ _ Hb). cbn in Ht. congruence.
Qed.

Lemma bound_done {A B} (m : W A) (k : A -> W B) w : (let* a := m in k a) w = match m w with (w, Ok a) => k a w | (w, Err e) => (w, Err e) end.
Proof. done. Qed.

Lemma done_field name value c w : writer_ok w -> (forall code, c <> StatusLine code) -> counted c (line name value) = O ->
  done_ (field_line name value) w
  = match status w with Some _ => answer c w (line name value) | None => (w, Err NoStatus) end.
Proof.
  intros Hw Hc H0. rewrite <- emit_answer by done. unfold done_. rewrite !bound_done, field_line_emit by done.
  by destruct (status w).
Qed.

Lemma field_calls c w : writer_ok w -> sized c ->
  match c with FieldCall _ _ | FieldId _ _ | ContentLengthCall _ | ChunkedCall | CloseCall => True | _ => False end ->
  call c w = match text (head_request w) (status w) c with Ok t => answer c w t | Err e => (w, Err e) end.
Proof.
  intros Hw Hs Hc. destruct c as [|name value|name value|n| | | | | | |]; try done; cbn [call text].
  - unfold field. rewrite is_token_valid. destruct (validate_field_name name); [|done].
    cbn [is_ok negb]. destruct (validate_field_value value); [|done]. rewrite done_field with (c := FieldCall name value) by done.
    by destruct (status w).
  - unfold field_id. destruct (validate_field_value value); [|done]. rewrite done_field with (c := FieldId name value) by done.
    by destruct (status w).
  - unfold content_length, done_, has_status. rewrite !bound_done. destruct (status w) as [code|] eqn:Hst; [|done].
    destruct (content_length_allowed code); [|done]. cbn [negb]. destruct (decimal_new_text n Hs) as [-> _].
    change (canonical ContentLength) with (bs "Content-Length").
    rewrite field_line_emit by done. rewrite Hst. unfold emit, answer, after.
    destruct (room w _); [|done]. cbn [append status]. done.
  - unfold chunked. rewrite done_field with (c := ChunkedCall) by done. by destruct (status w).
  - unfold connection_close. rewrite done_field with (c := CloseCall) by done. by destruct (status w).
Qed.

Lemma copy_answer c t w : (forall code, c <> StatusLine code) ->
  (let* _ := copy t in ret (counted c t)) w = answer c w t.
Proof.
  intros Hc. unfold bind, answer, after. rewrite copy_emit. unfold emit. destruct (room w t); [|done]. cbn.
  destruct c; try done. by destruct (Hc code).
Qed.

Lemma call_exact c w : writer_ok w -> sized c ->
  call c w = match text (head_request w) (status w) c with
             | Ok t => answer c w t
             | Err e => (w, Err e)
             end.
Proof.
  intros Hw Hs. destruct c as [code| | | | | |block| |octets|data|]; try by apply field_calls.
  - cbn [call text]. unfold done_. rewrite bound_done, status_line_emit by done. unfold answer.
    by destruct (room w _).
  - cbn [call text]. unfold raw, done_, has_status. rewrite !bound_done. destruct (status w) as [code|] eqn:Hst; [|done].
    by rewrite <- copy_answer by done.
  - cbn [call text]. unfold end_head, done_, has_status. rewrite !bound_done. destruct (status w) as [code|] eqn:Hst; [|done].
    by rewrite <- copy_answer by done.
  - cbn [call text]. unfold body, has_status, ask. rewrite !bound_done. destruct (status w) as [code|] eqn:Hst; [|done].
    rewrite bound_done. unfold writer_body_allowed. rewrite Hst. destruct (body_allowed (head_request w) code); cbn [negb].
    + by rewrite <- copy_answer by done.
    + by rewrite after_nothing.
  - cbn [call text]. destruct (status w) as [code|] eqn:Hst.
    2:{ unfold chunk, has_status. rewrite bound_done. by rewrite Hst. }
    destruct (body_allowed (head_request w) code) eqn:Ha, (bool_decide (data = [])) eqn:Hd.
    2:{ apply bool_decide_eq_false in Hd. rewrite (chunk_emit data w code) by done. unfold emit, answer, after.
        destruct (room w _); [|done]. done. }
    all: rewrite after_nothing by done; unfold chunk, has_status, ask, writer_body_allowed; rewrite !bound_done, Hst;
      rewrite bound_done, Hst, Ha, Hd; done.
  - cbn [call text]. unfold last_chunk, has_status, ask. rewrite !bound_done. destruct (status w) as [code|] eqn:Hst; [|done].
    rewrite bound_done. unfold writer_body_allowed. rewrite Hst. destruct (body_allowed (head_request w) code); cbn [negb].
    + by rewrite <- (copy_answer LastChunkCall) by done.
    + by rewrite after_nothing.
Qed.

Lemma written_octets_append w t : writer_ok w -> room w t = true ->
  written_octets (append w t) = written_octets w ++ t /\
  drop (written_len (append w t)) (out (append w t)) = drop (length t) (drop (written_len w) (out w)) /\
  length (out (append w t)) = length (out w).
Proof.
  intros [Hw _] Hr%Nat.leb_le. unfold written_octets, append, get_to. cbn [out written_len].
  assert (length (take (written_len w) (out w) ++ t) = (written_len w + length t)%nat) as Hl by (rewrite length_app, length_take; lia).
  rewrite (app_assoc _ t). rewrite !decide_True by (rewrite ?length_app, ?length_take, ?length_drop; lia).
  cbn [default from_option Datatypes.id id]. rewrite take_app_length', drop_app_length' by lia. rewrite drop_drop.
  rewrite !length_app, length_take, length_drop. split; [done|]. split; [done|lia].
Qed.

Lemma after_ok c w t : writer_ok w -> room w t = true -> writer_ok (after c w t).
Proof.
  intros Hw Hr. destruct (written_octets_append w t Hw Hr) as (_ & _ & Hl). destruct Hw as [Hw Hs].
  apply Nat.leb_le in Hr. split; unfold after; cbn [out written_len]; [lia|]. unfold len in *. by rewrite Hl.
Qed.

Lemma after_written c w t : writer_ok w -> room w t = true -> written_octets (after c w t) = written_octets w ++ t.
Proof. apply written_octets_append. Qed.

(** Every call on the response writer appends the octets of its text or does nothing: a
    name that is no token, a value with control octets or whitespace at its ends, a
    Content-Length on a 1xx or 204 response, and anything before the status line are refused
    in this order, then what has no room; a call that is refused leaves the writer and its
    whole buffer as they were; one that is not leaves the octets before and after its text,
    and a call for the body answers how many octets it wrote. *)
Theorem writer_exact c w (Hw : writer_ok w) (Hs : sized c) :
  match text (head_request w) (status w) c with
  | Err e => call c w = (w, Err e)
  | Ok t =>
      if room w t then
        exists w', call c w = (w', Ok (counted c t)) /\ written_octets w' = written_octets w ++ t /\
          drop (written_len w') (out w') = drop (length t) (drop (written_len w) (out w)) /\
          length (out w') = length (out w) /\ writer_ok w' /\
          status w' = match c with StatusLine code => Some code | _ => status w end
      else call c w = (w, Err Full)
  end.
Proof.
  rewrite call_exact by done. destruct (text _ _ c) as [t|]; [|done]. unfold answer. destruct (room w t) eqn:Hr; [|done].
  destruct (written_octets_append w t Hw Hr) as (H1 & H2 & H3). exists (after c w t).
  split; [done|]. split; [done|]. split; [done|]. split; [done|]. split; [by apply after_ok|done].
Qed.

Lemma writer_exact_witness :
  exists w', call (StatusLine 204) (writer_new (replicate 30 0) false) = (w', Ok O) /\
    call (ContentLengthCall 3) w' = (w', Err NoContentLength).
Proof.
  assert (writer_ok (writer_new (replicate 30 0) false)) as Hw by (split; vm_compute; [lia|done]).
  destruct (writer_exact (StatusLine 204) _ Hw I) as (w' & Hc & _ & _ & _ & Hw' & Hst). exists w'. split; [exact Hc|].
  pose proof (writer_exact (ContentLengthCall 3) w' Hw' ltac:(cbn; word_lia)) as H. cbn [text] in H. by rewrite Hst in H.
Defined.

(** ** Whole responses *)

(** Calls in a row, whatever each answers, with the texts of those that were not refused. *)
Definition attempt (w : ResponseWriter) (c : Call) : ResponseWriter := (call c w).1.
Definition calls (w : ResponseWriter) (cs : list Call) : ResponseWriter := fold_left attempt cs w.
Fixpoint accepted (w : ResponseWriter) (cs : list Call) : list Call :=
  match cs with
  | [] => []
  | c :: cs => (if is_ok (call c w).2 then [c] else []) ++ accepted (attempt w c) cs
  end.
Definition all_accepted (w : ResponseWriter) (cs : list Call) : bool := bool_decide (length (accepted w cs) = length cs).

Definition keeps_status (c : Call) : Prop := match c with StatusLine _ => False | _ => True end.
Definition text_of (head : bool) (code : StatusCode) (c : Call) : bytes :=
  match text head (Some code) c with Ok t => t | Err _ => [] end.

Lemma attempt_cases w c code : writer_ok w -> sized c -> keeps_status c -> status w = Some code ->
  writer_ok (attempt w c) /\ status (attempt w c) = Some code /\ head_request (attempt w c) = head_request w /\
  ((call c w).2 = Ok (counted c (text_of (head_request w) code c)) /\ is_ok (text (head_request w) (Some code) c) = true /\
     written_octets (attempt w c) = written_octets w ++ text_of (head_request w) code c
   \/ is_ok (call c w).2 = false /\ attempt w c = w).
Proof.
  intros Hw Hs Hk Hst. unfold attempt. rewrite call_exact by done. rewrite Hst. unfold text_of.
  destruct (text _ _ c) as [t|e] eqn:Ht; [|by cbn; auto 6].
  unfold answer. destruct (room w t) eqn:Hr; [|by cbn; auto 6]. cbn [fst snd].
  split; [by apply after_ok|]. split; [by destruct c|]. split; [done|]. left. split; [done|]. split; [done|].
  by apply after_written.
Qed.

Lemma accepted_Forall (P : Call -> Prop) cs : forall w, Forall P cs -> Forall P (accepted w cs).
Proof.
  induction cs as [|c cs IH]; intros w H; [constructor|]. apply Forall_cons in H as [Hc H]. cbn [accepted].
  apply Forall_app_2; [|by apply IH]. destruct (is_ok _); repeat constructor; done.
Qed.

Lemma calls_written cs code : forall w, writer_ok w -> Forall sized cs -> Forall keeps_status cs -> status w = Some code ->
  let w' := calls w cs in
  writer_ok w' /\ status w' = Some code /\ head_request w' = head_request w /\
  Forall (fun c => is_ok (text (head_request w) (Some code) c) = true) (accepted w cs) /\
  written_octets w' = written_octets w ++ mbind (text_of (head_request w) code) (accepted w cs).
Proof.
  induction cs as [|c cs IH]; intros w Hw Hs Hk Hst; cbn [calls fold_left accepted].
  { split; [done|]. split; [done|]. split; [done|]. split; [constructor|]. by rewrite app_nil_r. }
  apply Forall_cons in Hs as [Hs0 Hs]. apply Forall_cons in Hk as [Hk0 Hk].
  destruct (attempt_cases w c code Hw Hs0 Hk0 Hst) as (Hw' & Hst' & Hh & Hc).
  destruct (IH _ Hw' Hs Hk Hst') as (H1 & H2 & H3 & H4 & H5). rewrite Hh in H3, H4, H5.
  split; [done|]. split; [done|]. split; [done|]. unfold calls in H5. rewrite H5. destruct Hc as [(-> & Ht & ->) | (-> & Ha)].
  - cbn [is_ok app]. split; [by apply Forall_cons_2|]. cbn [mbind list_bind]. by rewrite <- app_assoc.
  - cbn [is_ok app]. by rewrite Ha in *.
Qed.

(** *** The head *)

Definition field_call (c : Call) : Prop :=
  match c with FieldCall _ _ | FieldId _ _ | ContentLengthCall _ | ChunkedCall | CloseCall => True | _ => False end.

(** The field line of such a call, in the grammar of a head. *)
Definition call_field (c : Call) : FieldText :=
  let field name value := MkFieldText name [SP] value [] in
  match c with
  | FieldCall name value => field name value
  | FieldId name value => field (canonical name) value
  | ContentLengthCall n => field (bs "Content-Length") (decimal_text n)
  | ChunkedCall => field (bs "Transfer-Encoding") (bs "chunked")
  | _ => field (bs "Connection") (bs "close")
  end.

Lemma line_field name value : line name value = field_text (MkFieldText name [SP] value []).
Proof. done. Qed.

Lemma canonical_tokens : forallb (fun h => is_token (canonical h)) HeaderName_ALL = true.
Proof. vm_compute. reflexivity. Qed.

Lemma token_tokens name : is_token name = true -> tokens name.
Proof. apply is_tchar_token. Qed.

Lemma field_grammar name value : is_token name = true -> value_ok value -> field_ok (MkFieldText name [SP] value []).
Proof.
  intros Hn Hv. split; [by apply token_tokens|]. split; [by repeat constructor|]. split; [constructor|].
  split; [by apply value_ok_lines|]. split; [|done]. destruct Hv as (_ & Hh & Hl). unfold trimmed.
  cbn [text_value]. split; [destruct (head value) as [b|] | destruct (last value) as [b|]]; try done; [by apply (Hh b) | by apply (Hl b)].
Qed.

Lemma digits_value_ok l : Forall (fun b => 48 <= b <= 57) l -> value_ok l.
Proof.
  intros H. split; [eapply Forall_impl; [exact H|]; intros b Hb; cbn in Hb; unfold is_field_vchar, edge; lia|].
  rewrite Forall_lookup in H. split; intros b Hb.
  - rewrite head_lookup in Hb. specialize (H _ _ Hb). unfold edge. cbn in H. lia.
  - rewrite last_lookup in Hb. specialize (H _ _ Hb). unfold edge. cbn in H. lia.
Qed.

Lemma call_field_ok head code c : field_call c -> sized c -> is_ok (text head (Some code) c) = true ->
  text_of head code c = field_text (call_field c) /\ field_ok (call_field c).
Proof.
  intros Hc Hs Ht. unfold text_of. destruct c as [|name value|name value|n| | | | | | |]; try done; cbn [text] in *.
  - destruct (is_token name) eqn:Hn; [|done]. destruct (validate_field_value value) as [[]|] eqn:Hv; [|done]. cbn [negb is_ok].
    split; [apply line_field|]. by apply field_grammar; [|apply value_ok_valid].
  - destruct (validate_field_value value) as [[]|] eqn:Hv; [|done]. cbn [negb is_ok]. split; [apply line_field|].
    apply field_grammar; [|by apply value_ok_valid]. pose proof canonical_tokens as Hall. rewrite forallb_forall in Hall.
    apply Hall, list_elem_of_In, HeaderName_ALL_elem.
  - destruct (content_length_allowed code); [|done]. split; [apply line_field|]. apply field_grammar; [done|].
    apply digits_value_ok. apply digits_digit. cbn in Hs. word_lia.
  - split; [done|]. by apply field_grammar; [|apply value_ok_valid].
  - split; [done|]. by apply field_grammar; [|apply value_ok_valid].
Qed.

Lemma decimal_text_read n : word 64 n -> parse_content_length (decimal_text n) = Some n.
Proof.
  intros Hn. assert (0 <= n < 10 ^ Z.of_nat 20) as H20 by (change (10 ^ Z.of_nat 20) with 100000000000000000000; word_lia).
  apply parse_content_length_Some. split; [|split; [|split]].
  - intros H. destruct (decide (n = 0)) as [->|Hne]; [done|]. destruct (digits_head 20 n) as (b & rest & Hd & _); [lia|].
    unfold decimal_text in H. congruence.
  - eapply Forall_impl; [apply digits_digit; lia|]. intros b Hb. cbn in Hb. unfold is_digit. lia.
  - symmetry. by apply digits_value.
  - apply Hn.
Qed.

(** The octets that end lines. *)
Definition breaks (l : bytes) : bytes := filter (fun b => is_cr_or_lf b = true) l.

Lemma breaks_none l : Forall (fun b => is_cr_or_lf b = false) l -> breaks l = [].
Proof. induction 1 as [|b l Hb _ IH]; [done|]. unfold breaks in *. rewrite filter_cons_False; [done|]. by rewrite Hb. Qed.

Lemma breaks_line l : Forall (fun b => is_cr_or_lf b = false) l -> breaks (l ++ CRLF) = CRLF.
Proof. intros H. unfold breaks. rewrite filter_app. fold (breaks l). by rewrite breaks_none. Qed.

Lemma field_breaks f : field_ok f -> breaks (field_text f) = CRLF.
Proof.
  intros ((_ & Hn) & Hb & Ha & Hv & _). unfold field_text.
  replace (text_name f ++ COLON :: before f ++ text_value f ++ H1Grammar.after f ++ CRLF)
    with ((text_name f ++ [COLON] ++ before f ++ text_value f ++ H1Grammar.after f) ++ CRLF) by (by rewrite <- !app_assoc).
  apply breaks_line. repeat apply Forall_app_2.
  - eapply Forall_impl; [exact Hn|]. intros b H. apply not_true_iff_false. unfold is_cr_or_lf. intros Hbr.
    assert (b = 13 \/ b = 10) as [-> | ->] by lia; done.
  - by repeat constructor.
  - eapply Forall_impl; [exact Hb|]. intros b. unfold is_ows, is_cr_or_lf. lia.
  - eapply Forall_impl; [exact Hv|]. intros b. unfold is_value_byte, is_cr_or_lf. lia.
  - eapply Forall_impl; [exact Ha|]. intros b. unfold is_ows, is_cr_or_lf. lia.
Qed.

Lemma status_breaks code : 100 <= code <= 599 -> breaks (status_text code) = CRLF.
Proof.
  assert (forallb (fun n => bool_decide (breaks (status_text (Z.of_nat n)) = CRLF)) (seq 100 500) = true) as H
    by (vm_compute; reflexivity).
  intros Hc. rewrite forallb_forall in H. specialize (H (Z.to_nat code)). rewrite bool_decide_eq_true, Z2Nat.id in H by lia.
  apply H, in_seq. lia.
Qed.

(** C29. No response is split: after a status line, whatever fields a handler asks for and
    whatever the writer answered to each, the head that is ended is the status line, one
    field line for each call that was accepted, in order, with the name and the value of
    the call and a Content-Length that reads as its number, and the empty line; every field
    line is in the grammar that the parser of heads accepts, and there is no line break in
    the head but these: the head ends where [end_head] ended it. *)
Theorem head_never_split code cs out head w1 w3 :
  100 <= code <= 599 -> len out < 2 ^ 63 -> Forall (fun c => field_call c /\ sized c) cs ->
  call (StatusLine code) (writer_new out head) = (w1, Ok O) -> call EndHead (calls w1 cs) = (w3, Ok O) ->
  let fs := call_field <$> accepted w1 cs in
  written_octets w3 = status_text code ++ mbind field_text fs ++ CRLF /\
  Forall field_ok fs /\ breaks (written_octets w3) = mbind (fun _ => CRLF) (seq 0 (2 + length fs)) /\
  Forall (fun c => match c with
    | ContentLengthCall n => content_length_allowed code = true /\ parse_content_length (text_value (call_field c)) = Some n
    | _ => True end) (accepted w1 cs).
Proof.
  intros Hcode Hout Hcs H1 H3 fs. assert (writer_ok (writer_new out head)) as Hw0 by (split; cbn; [lia|done]).
  rewrite call_exact in H1 by done. cbn [text writer_new] in H1. unfold answer in H1.
  destruct (room (writer_new out head) (status_text code)) eqn:Hr; [|done]. injection H1 as <-.
  pose proof (after_ok (StatusLine code) _ _ Hw0 Hr) as Hw1. pose proof (after_written (StatusLine code) _ _ Hw0 Hr) as Ht1.
  set (w1 := after (StatusLine code) (writer_new out head) (status_text code)) in *.
  assert (Forall sized cs /\ Forall keeps_status cs /\ Forall field_call cs) as (Hs & Hk & Hf).
  { split; [|split]; (eapply Forall_impl; [exact Hcs|]); intros c [Hc Hsz]; [done|by destruct c|done]. }
  destruct (calls_written cs code w1 Hw1 Hs Hk eq_refl) as (Hw2 & Hst & _ & Hok & Ht2).
  rewrite call_exact in H3 by done. cbn [text] in H3. rewrite Hst in H3. unfold answer in H3.
  destruct (room _ CRLF) eqn:Hr3; [|done]. injection H3 as <-.
  assert (Forall (fun c => text_of head code c = field_text (call_field c) /\ field_ok (call_field c)) (accepted w1 cs)) as Hall.
  { pose proof (accepted_Forall _ cs w1 Hs) as Hs'. pose proof (accepted_Forall _ cs w1 Hf) as Hf'.
    rewrite Forall_forall in Hok, Hs', Hf' |- *. intros c Hc. eapply call_field_ok; [by apply Hf'|by apply Hs'|by apply (Hok c)]. }
  assert (Forall field_ok fs) as Hfs by (apply Forall_fmap; eapply Forall_impl; [exact Hall|]; by intros c [_ ?]).
  assert (mbind (text_of head code) (accepted w1 cs) = mbind field_text fs) as Hm.
  { subst fs. clear -Hall. induction Hall as [|c l [Hc _] _ IH]; [done|]. cbn [mbind list_bind fmap list_fmap]. by rewrite Hc, IH. }
  assert (written_octets (after EndHead (calls w1 cs) CRLF) = status_text code ++ mbind field_text fs ++ CRLF) as Hw.
  { rewrite after_written, Ht2, Ht1 by done. change (head_request w1) with head. by rewrite Hm, <- app_assoc. }
  split; [done|]. split; [done|]. split.
  - rewrite Hw. unfold breaks. rewrite !filter_app. fold (breaks (status_text code)). rewrite status_breaks by done.
    change (filter _ CRLF) with CRLF. change (2 + length fs)%nat with (S (S (length fs))).
    clear -Hfs. cbn [seq mbind list_bind]. f_equal. generalize 1%nat.
    induction Hfs as [|f fs Hf _ IH]; intros n; [done|]. cbn [mbind list_bind length seq]. rewrite filter_app.
    fold (breaks (field_text f)). rewrite field_breaks, <- app_assoc by done. f_equal. apply IH.
  - pose proof (accepted_Forall _ cs w1 Hs) as Hs'. rewrite Forall_forall in Hok, Hs' |- *. intros c Hc.
    specialize (Hok c Hc). specialize (Hs' c Hc). destruct c as [| | |n| | | | | | |]; try done. cbn [text] in Hok.
    destruct (content_length_allowed code); [|done]. split; [done|]. by apply decimal_text_read.
Qed.

Lemma head_never_split_witness :
  let w1 := (call (StatusLine 302) (writer_new (replicate 200 0) false)).1 in
  let cs := [FieldId Location (bs "/a" ++ CRLF ++ bs "Set-Cookie: x"); FieldCall (bs "X-Id") (bs "1"); ContentLengthCall 12] in
  let w3 := (call EndHead (calls w1 cs)).1 in
  breaks (written_octets w3) = mbind (fun _ => CRLF) (seq 0 4).
Proof.
  intros w1 cs w3.
  destruct (head_never_split 302 cs (replicate 200 0) false w1 w3) as (_ & _ & H & _).
  - lia.
  - vm_compute. reflexivity.
  - repeat constructor; vm_compute; done.
  - vm_compute. reflexivity.
  - vm_compute. reflexivity.
  - exact H.
Defined.

(** *** The body *)

Definition nonempty (pieces : list bytes) : list bytes := filter (fun piece => piece <> []) pieces.

Lemma encoded_body limits pieces :
  16 <= Limits.http1_max_chunk_size_digits limits -> 0 <= Limits.http1_max_chunk_extension limits ->
  0 <= Limits.http1_max_trailer_bytes limits -> Forall (fun piece => len piece < 2 ^ 63) pieces ->
  let b := MkBody (encoded <$> nonempty pieces) (header_text 0) [] in
  body_ok limits b /\ body_text b = mbind chunk_text (encoded <$> nonempty pieces) ++ LAST_CHUNK /\
  body_events b = map DataOctet (concat pieces) ++ [BodyEnd []].
Proof.
  intros Hd Hx Ht Hw b. unfold b, body_ok, body_text, body_events, body_data. cbn [chunks last_size trailer_lines].
  split; [|split; [done|]].
  - split; [|split; [apply header_text_ok; done || word_lia|split; [apply header_text_value; word_lia|split; [constructor|done]]]].
    apply Forall_fmap. rewrite Forall_forall in Hw |- *. intros piece [Hne Hp]%list_elem_of_filter. specialize (Hw _ Hp).
    pose proof (len_nonneg piece). assert (word 64 (len piece)) by word_lia.
    split; [by apply header_text_ok|]. split; [done|]. by apply header_text_value.
  - do 2 f_equal. clear. induction pieces as [|piece pieces IH]; [done|]. unfold nonempty in *. rewrite filter_cons.
    destruct (decide (piece <> [])) as [Hne|Hne].
    + cbn. by rewrite IH.
    + assert (piece = []) as -> by (destruct piece; [done|by exfalso; apply Hne]). cbn. exact IH.
Qed.

Lemma accepted_all cs : forall w, length (accepted w cs) = length cs -> accepted w cs = cs.
Proof.
  assert (forall cs w, (length (accepted w cs) <= length cs)%nat) as Hle.
  { clear cs. induction cs as [|c cs IH]; intros w; [done|]. cbn [accepted length]. rewrite length_app. specialize (IH (attempt w c)).
    destruct (is_ok _); cbn [length]; lia. }
  induction cs as [|c cs IH]; intros w; [done|]. cbn [accepted length]. rewrite length_app.
  specialize (Hle cs (attempt w c)). destruct (is_ok _); cbn [length app]; [intros [= H]; f_equal; by apply IH|lia].
Qed.

Lemma chunk_texts head code pieces : mbind (text_of head code) ((ChunkCall <$> pieces) ++ [LastChunkCall])
  = if body_allowed head code then mbind chunk_text (encoded <$> nonempty pieces) ++ LAST_CHUNK else [].
Proof.
  rewrite bind_app. cbn [mbind list_bind]. rewrite app_nil_r. unfold text_of at 2. cbn [text].
  assert (mbind (text_of head code) (ChunkCall <$> pieces)
    = if body_allowed head code then mbind chunk_text (encoded <$> nonempty pieces) else []) as ->; [|by destruct (body_allowed head code)].
  unfold nonempty. induction pieces as [|piece pieces IH]; [by destruct (body_allowed head code)|].
  cbn [fmap list_fmap mbind list_bind]. unfold text_of at 1. cbn [text]. change (list_fmap _ _ ?f ?l) with (f <$> l). rewrite IH, filter_cons.
  destruct (body_allowed head code); [|done]. destruct piece; [|done].
  by rewrite bool_decide_eq_true_2, decide_False by (done || tauto).
Qed.

Lemma body_texts head code pieces : mbind (text_of head code) (BodyCall <$> pieces)
  = if body_allowed head code then concat pieces else [].
Proof.
  induction pieces as [|piece pieces IH]; [by destruct (body_allowed head code)|].
  cbn [fmap list_fmap mbind list_bind]. unfold text_of at 1. cbn [text]. rewrite IH. by destruct (body_allowed head code).
Qed.

Lemma body_allowed_spec head code :
  body_allowed head code = negb (bool_decide (head = true \/ 100 <= code < 200 \/ code = 204 \/ code = 304)).
Proof.
  unfold body_allowed, is_informational, class. f_equal. symmetry. destruct head; [by apply bool_decide_eq_true_2; left|]. cbn [orb].
  assert (match match code / 100 with 1 => Informational | 2 => Successful | 3 => Redirection | 4 => ClientError | _ => ServerError end with
    Informational => true | _ => false end = bool_decide (100 <= code < 200)) as ->.
  { destruct (decide (code / 100 = 1)) as [H|H].
    - rewrite H. symmetry. apply bool_decide_eq_true_2. Z.to_euclidean_division_equations; lia.
    - rewrite bool_decide_eq_false_2 by (Z.to_euclidean_division_equations; lia).
      destruct (code / 100) as [|p|p]; [done| |done]. repeat (destruct p as [p|p|]; try done). }
  destruct (bool_decide_reflect (100 <= code < 200)); [apply bool_decide_eq_true_2; auto|].
  destruct (Z.eqb_spec code 204); [apply bool_decide_eq_true_2; auto|]. destruct (Z.eqb_spec code 304); [apply bool_decide_eq_true_2; auto|].
  apply bool_decide_eq_false_2. intros [?|[?|[?|?]]]; done.
Qed.

(** C30. A body is framed as the receiver reads it: chunks written one by one with the last
    chunk after them, all accepted, are a chunked body that the decoder of this library
    reads whole, whatever follows, with the octets of the chunks in order and no trailers,
    an empty chunk ending nothing; plain writes are their octets; and on a response to HEAD
    or with a 1xx, 204 or 304 status none of these writes an octet after the head.  The decoder
    is one whose limits allow a chunk size of the sixteen digits a 64-bit size can have. *)
Theorem body_as_framed limits w code pieces :
  16 <= Limits.http1_max_chunk_size_digits limits -> 0 <= Limits.http1_max_chunk_extension limits ->
  0 <= Limits.http1_max_trailer_bytes limits -> writer_ok w -> status w = Some code ->
  Forall (fun piece => len piece < 2 ^ 63) pieces ->
  let cs := (ChunkCall <$> pieces) ++ [LastChunkCall] in
  (all_accepted w cs = true -> exists wire, written_octets (calls w cs) = written_octets w ++ wire /\
     if bool_decide (head_request w = true \/ 100 <= code < 200 \/ code = 204 \/ code = 304) then wire = []
     else forall rest, run (step limits) busy new (wire ++ rest)
       = Ok (MkChunkedDecoder Done, map DataOctet (concat pieces) ++ [BodyEnd []], length wire)) /\
  (all_accepted w (BodyCall <$> pieces) = true ->
     written_octets (calls w (BodyCall <$> pieces))
     = written_octets w ++
       if bool_decide (head_request w = true \/ 100 <= code < 200 \/ code = 204 \/ code = 304) then [] else concat pieces).
Proof.
  intros Hd Hx Ht Hw Hst Hp cs. split; intros Hall%bool_decide_eq_true%accepted_all.
  - assert (Forall sized cs /\ Forall keeps_status cs) as [Hs Hk].
    { split; (apply Forall_app_2; [apply Forall_fmap|by repeat constructor]); (eapply Forall_impl; [exact Hp|]); done. }
    destruct (calls_written cs code w Hw Hs Hk Hst) as (_ & _ & _ & _ & H). rewrite Hall in H. eexists. split; [exact H|].
    unfold cs. rewrite chunk_texts, body_allowed_spec. destruct (bool_decide _); [done|]. cbn [negb]. intros rest.
    destruct (encoded_body limits pieces Hd Hx Ht Hp) as (Hok & <- & <-). by apply run_body.
  - destruct (calls_written (BodyCall <$> pieces) code w) as (_ & _ & _ & _ & H); [done|..|done|rewrite Hall, body_texts, body_allowed_spec in H; by destruct (bool_decide _)];
      apply Forall_fmap; (eapply Forall_impl; [exact Hp|]); done.
Qed.

Lemma body_as_framed_witness :
  let w := (call (StatusLine 200) (writer_new (replicate 60 0) false)).1 in
  let cs := (ChunkCall <$> [bs "hello"; []; bs "!"]) ++ [LastChunkCall] in
  exists wire, written_octets (calls w cs) = written_octets w ++ wire /\
    forall rest, run (step Limits.Http1Limits_DEFAULT) busy new (wire ++ rest)
      = Ok (MkChunkedDecoder Done, map DataOctet (bs "hello!") ++ [BodyEnd []], length wire).
Proof.
  destruct (body_as_framed Limits.Http1Limits_DEFAULT (call (StatusLine 200) (writer_new (replicate 60 0) false)).1 200
    [bs "hello"; []; bs "!"]) as [H _].
  - vm_compute. discriminate.
  - vm_compute. discriminate.
  - vm_compute. discriminate.
  - split; vm_compute; [lia|done].
  - vm_compute. reflexivity.
  - repeat constructor.
  - apply H. vm_compute. reflexivity.
Defined.

(** The rule on Content-Length is that of [content_length]; a caller that writes the field
    itself is not stopped. *)
Example content_length_as_field :
  let w := (call (StatusLine 204) (writer_new (replicate 99 0) false)).1 in
  ((call (ContentLengthCall 5) w).2, (call (FieldId ContentLength (bs "5")) w).2) = (Err NoContentLength, Ok O).
Proof. vm_compute. reflexivity. Qed.
