(* ===== verification/Uri.v ===== *)
(** * URIs

    [zero-uri/src/lib.rs]: percent-encoding, the normalisation of paths with the removal of
    dot-segments, and the split of a reference into its components.  A range is the pair of
    its ends; a buffer that is passed in comes back with the result. *)
From S2P Require Import Prelude Scalar.

Inductive UriError : Type :=
| InvalidPercent (at_ : nat)
| InvalidByte (at_ : nat)
| InvalidScheme
| InvalidPath.
#[global] Instance UriError_eq_dec : EqDecision UriError.
Proof. solve_decision. Defined.

Record Components : Type := MkComponents {
  scheme : option (nat * nat);
  authority : option (nat * nat);
  path : nat * nat;
  query : option (nat * nat);
  fragment : option (nat * nat);
}.
#[global] Instance Components_eq_dec : EqDecision Components.
Proof. solve_decision. Defined.

(** ** Octets *)

Definition is_alpha (byte : Z) : bool := is_upper byte || is_lower byte.
Definition is_unreserved (byte : Z) : bool :=
  is_alpha byte || is_digit byte || bool_decide (byte ∈ bs "-._~").
Definition is_sub_delim (byte : Z) : bool := bool_decide (byte ∈ bs "!$&'()*+,;=").
Definition is_gen_delim (byte : Z) : bool := bool_decide (byte ∈ bs ":/?#[]@").
Definition is_pchar (byte : Z) : bool := is_unreserved byte || is_sub_delim byte || bool_decide (byte ∈ bs ":@").
Definition is_query_byte (byte : Z) : bool := is_pchar byte || bool_decide (byte ∈ bs "/?").

Definition hex_value (byte : Z) : option Z :=
  if is_digit byte then Some (wrapping_sub 8 byte 48)
  else if (65 <=? byte) && (byte <=? 70) then Some (wrapping_add 8 (wrapping_sub 8 byte 65) 10)
  else if (97 <=? byte) && (byte <=? 102) then Some (wrapping_add 8 (wrapping_sub 8 byte 97) 10)
  else None.

Definition split_query (target : bytes) : bytes * option bytes :=
  match position (fun byte => byte =? 63) target with
  | Some at_ => (take at_ target, Some (drop (S at_) target))
  | None => (target, None)
  end.

(** ** Percent-encoding *)

Definition percent_octet (input : bytes) (at_ : nat) : result UriError Z :=
  let? high := ok_or (input !! (at_ + 1)%nat ≫= hex_value) (InvalidPercent at_) in
  let? low := ok_or (input !! (at_ + 2)%nat ≫= hex_value) (InvalidPercent at_) in
  Ok (Z.lor (low8 (Z.shiftl high 4)) low).

(** The loop from [at_] on; every turn takes an octet or more. *)
Fixpoint percent_loop (fuel : nat) (input : bytes) (at_ : nat) (out : bytes) : bytes * result UriError unit :=
  match fuel, input !! at_ with
  | O, _ | _, None => (out, Ok ())
  | S fuel, Some byte =>
      if byte =? 37 then
        match percent_octet input at_ with
        | Err e => (out, Err e)
        | Ok octet => percent_loop fuel input (at_ + 3) (out ++ [octet])
        end
      else percent_loop fuel input (at_ + 1) (out ++ [byte])
  end.
Definition percent_decode (input out : bytes) : bytes * result UriError unit :=
  percent_loop (length input) input 0 out.

(** ** Paths *)

Definition is_dot_segment (segment : bytes) : bool :=
  bool_decide (segment = bs ".") || bool_decide (segment = bs "..").

Fixpoint is_normal_loop (fuel : nat) (path : bytes) (at_ segment_start : nat) (normal : bool) : result UriError bool :=
  match fuel, path !! at_ with
  | O, _ | _, None => Ok (normal && negb (is_dot_segment (drop segment_start path)))
  | S fuel, Some byte =>
      if byte =? 37 then
        let? octet := percent_octet path at_ in
        let digits := get_range (at_ + 1) (at_ + 3) path in
        let normal :=
          if is_unreserved octet || from_option (existsb is_lower) false digits then false else normal in
        is_normal_loop fuel path (at_ + 3) segment_start normal
      else if byte =? 47 then
        let normal := if is_dot_segment (default [] (get_range segment_start at_ path)) then false else normal in
        is_normal_loop fuel path (at_ + 1) (at_ + 1) normal
      else if is_pchar byte then is_normal_loop fuel path (at_ + 1) segment_start normal
      else Err (InvalidByte at_)
  end.
Definition is_normal_path (path : bytes) : result UriError bool := is_normal_loop (length path) path 0 0 true.

Definition upper_hex (nibble : Z) : Z :=
  let nibble := Z.land nibble 0x0f in
  if nibble <=? 9 then wrapping_add 8 48 nibble else wrapping_add 8 65 (wrapping_sub 8 nibble 10).

(** *** Dot-segments *)

Fixpoint strip_prefix (prefix l : bytes) : option bytes :=
  match prefix, l with
  | [], _ => Some l
  | p :: prefix, b :: l => if p =? b then strip_prefix prefix l else None
  | _, [] => None
  end.

Definition complete_with_slash (after input : bytes) : bytes := drop (length input - length after - 1) input.

Definition pop_segment (output : bytes) : bytes :=
  match rposition (fun byte => byte =? 47) output with
  | Some at_ => take at_ output
  | None => []
  end.

(** Every turn leaves less of [rest]. *)
Fixpoint dots_loop (fuel : nat) (input rest output : bytes) : bytes :=
  match fuel, rest with
  | O, _ | _, [] => output
  | S fuel, _ =>
      match strip_prefix (bs "../") rest with
      | Some after => dots_loop fuel input after output
      | None =>
      match strip_prefix (bs "./") rest with
      | Some after => dots_loop fuel input after output
      | None =>
      match strip_prefix (bs "/./") rest with
      | Some [] => dots_loop fuel input [] (output ++ bs "/")
      | Some after => dots_loop fuel input (complete_with_slash after input) output
      | None =>
      if bool_decide (rest = bs "/.") then dots_loop fuel input (bs "/") output
      else
      match strip_prefix (bs "/../") rest with
      | Some after => dots_loop fuel input (complete_with_slash after input) (pop_segment output)
      | None =>
      if bool_decide (rest = bs "/..") then dots_loop fuel input (bs "/") (pop_segment output)
      else if bool_decide (rest = bs ".") || bool_decide (rest = bs "..") then dots_loop fuel input [] output
      else
        let start := if bool_decide (head rest = Some 47) then 1%nat else 0%nat in
        let end_ := match position (fun byte => byte =? 47) (drop start rest) with
                    | Some at_ => (at_ + start)%nat
                    | None => length rest
                    end in
        dots_loop fuel input (drop end_ rest) (output ++ take end_ rest)
      end end end end
  end.
Definition remove_dot_segments (path : bytes) : bytes := dots_loop (length path) path path [].

(** The first pass of [normalize_path]. *)
Fixpoint normal_loop (fuel : nat) (path : bytes) (at_ : nat) (scratch : bytes) : bytes * result UriError unit :=
  match fuel, path !! at_ with
  | O, _ | _, None => (scratch, Ok ())
  | S fuel, Some byte =>
      if byte =? 37 then
        match percent_octet path at_ with
        | Err e => (scratch, Err e)
        | Ok octet =>
            let scratch :=
              if is_unreserved octet then scratch ++ [octet]
              else scratch ++ [37; upper_hex (Z.shiftr octet 4); upper_hex (Z.land octet 0x0f)] in
            normal_loop fuel path (at_ + 3) scratch
        end
      else normal_loop fuel path (at_ + 1) (scratch ++ [byte])
  end.

(** The buffer, and the path that is borrowed from the argument or from the buffer. *)
Definition normalize_path (path scratch : bytes) : bytes * result UriError bytes :=
  match is_normal_path path with
  | Err e => (scratch, Err e)
  | Ok true => (scratch, Ok path)
  | Ok false =>
      match normal_loop (length path) path 0 [] with
      | (scratch, Err e) => (scratch, Err e)
      | (scratch, Ok _) => let scratch := remove_dot_segments scratch in (scratch, Ok scratch)
      end
  end.

Example normalize_examples :
  (fun s => (normalize_path (bs s) []).2) <$>
    ["/users/%41%62c"; "/a%2fb/%2F"; "/x/%2e%2E/admin"; "/bad%2"; "/a/./b#f"; "/a/b/c/./../../g"; "mid/content=5/../6"]%string
  = [Ok (bs "/users/Abc"); Ok (bs "/a%2Fb/%2F"); Ok (bs "/admin"); Err (InvalidPercent 4); Err (InvalidByte 6);
     Ok (bs "/a/g"); Ok (bs "mid/6")].
Proof. vm_compute. reflexivity. Qed.

(** ** References *)

(** The loop over a range; [check_bytes]. *)
Fixpoint check_loop (fuel : nat) (input : bytes) (at_ end_ : nat) (allowed : Z -> bool) : result UriError unit :=
  match fuel with
  | O => Ok ()
  | S fuel =>
      if (end_ <=? at_)%nat then Ok ()
      else
        match input !! at_ with
        | None => Ok ()
        | Some byte =>
            if byte =? 37 then
              let? _ := percent_octet input at_ in
              if (end_ <? at_ + 3)%nat then Err (InvalidPercent at_)
              else check_loop fuel input (at_ + 3) end_ allowed
            else if allowed byte then check_loop fuel input (at_ + 1) end_ allowed
            else Err (InvalidByte at_)
        end
  end.
Definition check_bytes (input : bytes) (range : nat * nat) (allowed : Z -> bool) : result UriError unit :=
  check_loop (length input) input range.1 range.2 allowed.

Definition is_scheme_byte (byte : Z) : bool := is_alpha byte || is_digit byte || bool_decide (byte ∈ bs "+-.").
Definition is_authority_byte (byte : Z) : bool :=
  is_unreserved byte || is_sub_delim byte || bool_decide (byte ∈ bs ":@[]").
Definition is_path_byte (byte : Z) : bool := is_pchar byte || (byte =? 47).

(** The offset after [start] of the first octet in [delims], or the end. *)
Definition until (delims : bytes) (input : bytes) (start : nat) : nat :=
  match position (fun byte => bool_decide (byte ∈ delims)) (drop start input) with
  | Some at_ => (start + at_)%nat
  | None => length input
  end.
Definition starts_with_slashes (input : bytes) (at_ : nat) : bool :=
  bool_decide (get_range at_ (at_ + 2) input = Some (bs "//")).

Definition parse_scheme (input : bytes) : result UriError (option (nat * nat) * nat) :=
  match position (fun byte => bool_decide (byte ∈ bs ":/?#")) input with
  | Some colon =>
      if bool_decide (input !! colon = Some 58) then
        let scheme := take colon input in
        if from_option is_alpha false (head scheme) && forallb is_scheme_byte scheme
        then Ok (Some (0%nat, colon), S colon)
        else Err InvalidScheme
      else Ok (None, O)
  | None => Ok (None, O)
  end.

Definition parse_authority (input : bytes) (at_ : nat) : result UriError (option (nat * nat) * nat) :=
  if starts_with_slashes input at_ then
    let start := (at_ + 2)%nat in
    let end_ := until (bs "/?#") input start in
    let? _ := check_bytes input (start, end_) is_authority_byte in
    Ok (Some (start, end_), end_)
  else Ok (None, at_).

Definition parse_path (input : bytes) (authority : option (nat * nat)) (at_ : nat) : result UriError (nat * nat) :=
  let path_end := until (bs "?#") input at_ in
  let? _ := check_bytes input (at_, path_end) is_path_byte in
  if bool_decide (authority = None) && starts_with_slashes input at_ then Err InvalidPath
  else Ok (at_, path_end).

Definition parse_query (input : bytes) (at_ : nat) : result UriError (option (nat * nat) * nat) :=
  if bool_decide (input !! at_ = Some 63) then
    let start := S at_ in
    let end_ := until (bs "#") input start in
    let? _ := check_bytes input (start, end_) is_query_byte in
    Ok (Some (start, end_), end_)
  else Ok (None, at_).

Definition parse_fragment (input : bytes) (at_ : nat) : result UriError (option (nat * nat)) :=
  if bool_decide (input !! at_ = Some 35) then
    let start := S at_ in
    let? _ := check_bytes input (start, length input) is_query_byte in
    Ok (Some (start, length input))
  else Ok None.

Definition parse (input : bytes) : result UriError Components :=
  let? (scheme, at_) := parse_scheme input in
  let? (authority, at_) := parse_authority input at_ in
  let? path := parse_path input authority at_ in
  let at_ := path.2 in
  let? (query, at_) := parse_query input at_ in
  let? fragment := parse_fragment input at_ in
  Ok (MkComponents scheme authority path query fragment).

Example parse_examples :
  parse <$> (bs <$> ["https://user@host:8080/p/a%20th?q=1#frag"; "//host/p"; "1http://x"; "/a%2"; "/p?q#f#g"]%string)
  = [Ok (MkComponents (Some (0, 5)) (Some (8, 22)) (22, 31) (Some (32, 35)) (Some (36, 40)))%nat;
     Ok (MkComponents None (Some (2, 6)) (6, 8) None None)%nat;
     Err InvalidScheme; Err (InvalidPercent 2); Err (InvalidByte 6)].
Proof. vm_compute. reflexivity. Qed.

(** ** The octets of a component: characters and triplets *)

Inductive Unit_ : Type :=
| Char (byte : Z)
| Triplet (high low : Z).

#[global] Instance Unit_eq_dec : EqDecision Unit_.
Proof. solve_decision. Defined.

Definition unit_text (u : Unit_) : bytes := match u with Char b => [b] | Triplet h l => [37; h; l] end.
Definition units_text (us : list Unit_) : bytes := mbind unit_text us.
Definition is_hex (b : Z) : bool := bool_decide (is_Some (hex_value b)).
Definition unit_wf (u : Unit_) : Prop :=
  match u with Char b => b <> 37 | Triplet h l => is_hex h = true /\ is_hex l = true end.

(** The octet that a unit stands for. *)
Definition digit (b : Z) : Z := default 0 (hex_value b).
Definition unit_octet (u : Unit_) : Z := match u with Char b => b | Triplet h l => digit h * 16 + digit l end.

(** A percent sign without two digits. *)
Definition bad_percent (l : bytes) : Prop :=
  exists rest, l = 37 :: rest /\ ~ (exists h l rest', rest = h :: l :: rest' /\ is_hex h = true /\ is_hex l = true).

Lemma units_app us vs : units_text (us ++ vs) = units_text us ++ units_text vs.
Proof. apply bind_app. Qed.

Lemma units_cons u us : units_text (u :: us) = unit_text u ++ units_text us.
Proof. done. Qed.

Lemma units_exist l : exists us rest, l = units_text us ++ rest /\ Forall unit_wf us /\ (rest = [] \/ bad_percent rest).
Proof.
  induction l as [l IH] using (induction_ltof1 _ (@length Z)). unfold ltof in IH.
  destruct l as [|b l]; [exists [], []; naive_solver|].
  destruct (decide (b = 37)) as [->|Hb].
  - destruct l as [|h [|lo l]]; [..|destruct (is_hex h) eqn:Hh; [destruct (is_hex lo) eqn:Hl|]].
    3:{ destruct (IH l) as (us & rest & -> & Hus & Hr); [cbn; lia|]. exists (Triplet h lo :: us), rest.
        split; [done|]. split; [by apply Forall_cons_2|done]. }
    all: eexists [], _; split; [reflexivity|]; split; [apply Forall_nil_2|]; right; eexists; split; [reflexivity|];
      intros (? & ? & ? & Heq & ? & ?); simplify_eq; congruence.
  - destruct (IH l) as (us & rest & -> & Hus & Hr); [cbn; lia|]. exists (Char b :: us), rest.
    split; [done|]. split; [by apply Forall_cons_2|done].
Qed.

Lemma hex_value_range b v : hex_value b = Some v -> 0 <= v < 16.
Proof.
  unfold hex_value, is_digit, wrapping_sub, wrapping_add. pow2.
  destruct (_ && _) eqn:H1; [intros [= <-]; rewrite Z.mod_small by lia; lia|].
  destruct ((65 <=? b) && _) eqn:H2; [intros [= <-]; rewrite !Z.mod_small by (rewrite ?Z.mod_small; lia); lia|].
  destruct ((97 <=? b) && _) eqn:H3; [intros [= <-]; rewrite !Z.mod_small by (rewrite ?Z.mod_small; lia); lia|done].
Qed.

Lemma is_hex_value b : is_hex b = true -> hex_value b = Some (digit b) /\ 0 <= digit b < 16.
Proof.
  unfold is_hex, digit. intros [v Hv]%bool_decide_eq_true. rewrite Hv. split; [done|]. by apply (hex_value_range b).
Qed.

Lemma percent_octet_triplet before h l rest : is_hex h = true -> is_hex l = true ->
  percent_octet (before ++ [37; h; l] ++ rest) (length before) = Ok (unit_octet (Triplet h l)).
Proof.
  intros [Hh Hh']%is_hex_value [Hl Hl']%is_hex_value. unfold percent_octet.
  assert (forall k, (before ++ [37; h; l] ++ rest) !! (length before + k)%nat = ([37; h; l] ++ rest) !! k) as Hk
    by (intros k; rewrite lookup_app_r by lia; f_equal; lia).
  rewrite !Hk. cbn [lookup list_lookup app mbind option_bind]. rewrite Hh, Hl. cbn [ok_or unit_octet].
  f_equal. unfold low8. rewrite Z.shiftl_mul_pow2 by lia. change (2 ^ 4) with 16. rewrite Z.mod_small by lia.
  pose proof (lor_tag (digit l) (digit h) 4 ltac:(lia) ltac:(pow2; lia)) as H. rewrite Z.lor_comm in H. change (2 ^ 4) with 16 in H. lia.
Qed.

Lemma percent_octet_bad before rest : bad_percent rest ->
  percent_octet (before ++ rest) (length before) = Err (InvalidPercent (length before)).
Proof.
  intros (l & -> & Hbad). unfold percent_octet.
  assert (forall k, (before ++ 37 :: l) !! (length before + k)%nat = (37 :: l) !! k) as Hk
    by (intros k; rewrite lookup_app_r by lia; f_equal; lia).
  rewrite !Hk. cbn [lookup list_lookup].
  destruct l as [|h [|lo l]]; cbn; [done| |]; destruct (hex_value h) eqn:Hh; cbn; try done.
  destruct (hex_value lo) eqn:Hl; [|done]. exfalso. apply Hbad. exists h, lo, l. unfold is_hex. by rewrite Hh, Hl.
Qed.

(** *** The loops on them *)

(** The check of a component that is read as [us] with [rest] after it. *)
Fixpoint check_units (allowed : Z -> bool) (at_ : nat) (us : list Unit_) (rest : bytes) : result UriError unit :=
  match us with
  | [] => match rest with [] => Ok () | _ => Err (InvalidPercent at_) end
  | Char b :: us => if allowed b then check_units allowed (S at_) us rest else Err (InvalidByte at_)
  | Triplet _ _ :: us => check_units allowed (3 + at_) us rest
  end.

Lemma bad_percent_head rest : bad_percent rest -> exists l, rest = 37 :: l.
Proof. intros (l & -> & _). by exists l. Qed.

(** The octet at the cursor. *)
Lemma cursor before (l : bytes) : (before ++ l) !! length before = head l.
Proof. rewrite lookup_app_r by lia. rewrite Nat.sub_diag. by destruct l. Qed.

Lemma length_unit_text u : (1 <= length (unit_text u))%nat.
Proof. destruct u; cbn; lia. Qed.

(** The octets read when a loop of the file is at the end of [before]. *)
Record reading (input before : bytes) (us : list Unit_) (rest : bytes) (fuel : nat) : Prop := {
  read_input : input = before ++ units_text us ++ rest;
  read_wf : Forall unit_wf us;
  read_rest : rest = [] \/ bad_percent rest;
  read_fuel : (length (units_text us ++ rest) <= fuel)%nat }.

Lemma reading_start input us rest : input = units_text us ++ rest -> Forall unit_wf us -> rest = [] \/ bad_percent rest ->
  reading input [] us rest (length input).
Proof. intros -> ? ?. by split. Qed.

Lemma reading_cons input before u us rest fuel : reading input before (u :: us) rest (S fuel) ->
  reading input (before ++ unit_text u) us rest fuel /\ unit_wf u.
Proof.
  intros [-> Hwf Hr Hf]. apply Forall_cons in Hwf as [Hu Hwf]. split; [|done]. pose proof (length_unit_text u).
  unfold units_text in *. cbn [mbind list_bind] in *. rewrite !length_app in Hf.
  split; [by rewrite <- !app_assoc|done|done|].
  unfold units_text. rewrite !length_app. lia.
Qed.

Lemma reading_fuel input before us rest fuel : reading input before us rest fuel ->
  us = [] /\ rest = [] \/ exists fuel', fuel = S fuel'.
Proof.
  intros [_ _ _ Hf]. destruct fuel as [|fuel]; [|right; by exists fuel]. left.
  destruct us as [|u us]; [destruct rest; [done|cbn in Hf; lia]|]. pose proof (length_unit_text u).
  unfold units_text in Hf. cbn [mbind list_bind] in Hf. rewrite !length_app in Hf. lia.
Qed.

Lemma reading_end input before fuel : reading input before [] [] fuel -> input !! length before = None.
Proof. intros [-> _ _ _]. by rewrite cursor. Qed.

Lemma reading_bad input before rest fuel : reading input before [] rest fuel -> rest <> [] ->
  input !! length before = Some 37 /\ percent_octet input (length before) = Err (InvalidPercent (length before)).
Proof.
  intros [-> _ Hr _] Hne. destruct Hr as [|Hb]; [done|]. destruct (bad_percent_head _ Hb) as [l Hl]. split.
  - change (units_text []) with (@nil Z). cbn [app]. rewrite cursor. by rewrite Hl.
  - by apply percent_octet_bad.
Qed.

Lemma reading_char input before b us rest fuel : reading input before (Char b :: us) rest fuel ->
  input !! length before = Some b.
Proof. intros [-> _ _ _]. by rewrite cursor. Qed.

Lemma reading_triplet input before h l us rest fuel : reading input before (Triplet h l :: us) rest fuel ->
  input !! length before = Some 37 /\ percent_octet input (length before) = Ok (unit_octet (Triplet h l)) /\
  get_range (length before + 1) (length before + 3) input = Some [h; l].
Proof.
  intros [-> Hwf _ _]. apply Forall_cons in Hwf as [[Hh Hl] _]. split; [by rewrite cursor|]. split.
  - unfold units_text. cbn [mbind list_bind]. rewrite <- app_assoc. by apply percent_octet_triplet.
  - change (units_text (Triplet h l :: us) ++ rest) with ([37] ++ [h; l] ++ (units_text us ++ rest)).
    rewrite (app_assoc before). pose proof (get_range_app (before ++ [37]) [h; l] (units_text us ++ rest)) as H.
    rewrite length_app in H. cbn [length] in H. rewrite <- Nat.add_assoc in H. exact H.
Qed.

Lemma percent_loop_spec us : forall input before rest fuel out, reading input before us rest fuel ->
  percent_loop fuel input (length before) out
  = (out ++ map unit_octet us, check_units (fun _ => true) (length before) us rest).
Proof.
  induction us as [|u us IH]; intros input before rest fuel out Hread.
  - cbn [map check_units]. rewrite app_nil_r. destruct rest as [|b rest].
    + destruct fuel; cbn [percent_loop]; [done|]. by rewrite (reading_end _ _ _ Hread).
    + destruct (reading_fuel _ _ _ _ _ Hread) as [[_ ?]|[f ->]]; [done|].
      destruct (reading_bad _ _ _ _ Hread) as [H1 H2]; [done|]. cbn [percent_loop]. by rewrite H1, H2.
  - destruct (reading_fuel _ _ _ _ _ Hread) as [[? _]|[f ->]]; [done|].
    destruct (reading_cons _ _ _ _ _ _ Hread) as [Hnext Hu]. specialize (IH _ _ _ _ (out ++ [unit_octet u]) Hnext).
    rewrite length_app in IH. destruct u as [b|h l]; cbn [percent_loop check_units map unit_text length] in *.
    + rewrite (reading_char _ _ _ _ _ _ Hread). rewrite (proj2 (Z.eqb_neq b 37)) by done.
      cbn [unit_octet] in *. rewrite IH, <- app_assoc. by rewrite Nat.add_1_r.
    + destruct (reading_triplet _ _ _ _ _ _ _ Hread) as (-> & -> & _). cbn [Z.eqb Pos.eqb].
      rewrite IH, <- app_assoc. by rewrite (Nat.add_comm (length before) 3).
Qed.

(** The first pass: a triplet of an unreserved octet is that octet, another is written with
    capitals. *)
Definition normal_unit (u : Unit_) : bytes :=
  match u with
  | Char b => [b]
  | Triplet _ _ =>
      let octet := unit_octet u in
      if is_unreserved octet then [octet]
      else [37; upper_hex (Z.shiftr octet 4); upper_hex (Z.land octet 0x0f)]
  end.

Lemma normal_loop_spec us : forall input before fuel out, reading input before us [] fuel ->
  normal_loop fuel input (length before) out = (out ++ mbind normal_unit us, Ok ()).
Proof.
  induction us as [|u us IH]; intros input before fuel out Hread.
  - cbn [mbind list_bind]. rewrite app_nil_r. destruct fuel; cbn [normal_loop]; [done|]. by rewrite (reading_end _ _ _ Hread).
  - destruct (reading_fuel _ _ _ _ _ Hread) as [[? _]|[f ->]]; [done|].
    destruct (reading_cons _ _ _ _ _ _ Hread) as [Hnext Hu]. specialize (IH _ _ _ (out ++ normal_unit u) Hnext).
    rewrite length_app in IH. destruct u as [b|h l]; cbn [normal_loop mbind list_bind unit_text length] in *.
    + rewrite (reading_char _ _ _ _ _ _ Hread). rewrite (proj2 (Z.eqb_neq b 37)) by done.
      cbn [normal_unit] in *. by rewrite IH, <- app_assoc.
    + destruct (reading_triplet _ _ _ _ _ _ _ Hread) as (-> & -> & _). cbn [Z.eqb Pos.eqb].
      rewrite app_assoc, <- IH. unfold normal_unit. by destruct (is_unreserved _).
Qed.

(** A triplet that the first pass leaves. *)
Definition canonical_unit (u : Unit_) : bool :=
  match u with
  | Char _ => true
  | Triplet h l => negb (is_unreserved (unit_octet u)) && negb (is_lower h || is_lower l)
  end.
Definition is_slash (b : Z) : bool := b =? 47.
Definition segments (path : bytes) : list bytes := split_on is_slash path.

Lemma split_on_nonempty {A} (f : A -> bool) (l : list A) : split_on f l <> [].
Proof. destruct l as [|x l]; cbn; [done|]. destruct (f x); [done|]. by destruct (split_on f l). Qed.

Lemma split_on_app {A} (f : A -> bool) (l m : list A) : Forall (fun x => f x = false) l ->
  split_on f (l ++ m) = match split_on f m with [] => [l] | p :: ps => (l ++ p) :: ps end.
Proof.
  pose proof (split_on_nonempty f m). induction 1 as [|x l Hx _ IH]; cbn [app split_on]; [by destruct (split_on f m)|].
  rewrite Hx, IH. by destruct (split_on f m).
Qed.

Lemma split_on_sep {A} (f : A -> bool) (l : list A) x m : Forall (fun x => f x = false) l -> f x = true ->
  split_on f (l ++ x :: m) = l :: split_on f m.
Proof. intros Hl Hx. rewrite split_on_app by done. cbn [split_on]. by rewrite Hx, app_nil_r. Qed.

Lemma unit_no_slash u : unit_wf u -> u <> Char 47 -> Forall (fun b => is_slash b = false) (unit_text u).
Proof.
  destruct u as [b|h l]; cbn [unit_text unit_wf]; intros Hu Hne.
  - apply Forall_cons_2; [|constructor]. apply Z.eqb_neq. congruence.
  - assert (forall b, is_hex b = true -> is_slash b = false) as Hhex.
    { intros b Hb. unfold is_slash. destruct (Z.eqb_spec b 47) as [->|]; done. }
    destruct Hu as [Hh Hl]. repeat apply Forall_cons_2; auto.
Qed.

Lemma is_normal_loop_spec us : forall input before fuel rest start normal, reading input before us rest fuel ->
  (start <= length before)%nat -> Forall (fun b => is_slash b = false) (drop start before) ->
  is_normal_loop fuel input (length before) start normal
  = (let? _ := check_units is_path_byte (length before) us rest in
     Ok (normal && forallb canonical_unit us
         && forallb (fun s => negb (is_dot_segment s)) (segments (drop start before ++ units_text us)))).
Proof.
  induction us as [|u us IH]; intros input before fuel rest start normal Hread Hs Hseg.
  - cbn [check_units forallb]. destruct rest as [|b rest].
    + assert (is_normal_loop fuel input (length before) start normal = Ok (normal && negb (is_dot_segment (drop start input)))) as ->.
      { destruct fuel; cbn [is_normal_loop]; [done|]. by rewrite (reading_end _ _ _ Hread). }
      destruct Hread as [-> _ _ _]. change (units_text []) with (@nil Z). rewrite !app_nil_r, andb_true_r.
      unfold segments. rewrite <- (app_nil_r (drop start before)) at 2. rewrite split_on_app by done. cbn. by rewrite app_nil_r, andb_true_r.
    + destruct (reading_fuel _ _ _ _ _ Hread) as [[_ ?]|[f ->]]; [done|].
      destruct (reading_bad _ _ _ _ Hread) as [H1 H2]; [done|]. cbn [is_normal_loop]. by rewrite H1, H2.
  - destruct (reading_fuel _ _ _ _ _ Hread) as [[? _]|[f ->]]; [done|].
    destruct (reading_cons _ _ _ _ _ _ Hread) as [Hnext Hu].
    assert (drop start before ++ units_text (u :: us) = drop start (before ++ unit_text u) ++ units_text us) as Htext
      by (rewrite drop_app_le, <- app_assoc by done; done).
    destruct (decide (u = Char 47)) as [->|Hne].
    + specialize (IH _ _ _ _ (length (before ++ [47])) (if is_dot_segment (drop start before) then false else normal) Hnext).
      rewrite drop_all in IH. cbn [is_normal_loop check_units]. rewrite (reading_char _ _ _ _ _ _ Hread). cbn [Z.eqb Pos.eqb].
      assert (get_range start (length before) input = Some (drop start before)) as ->.
      { destruct Hread as [-> _ _ _]. unfold get_range. rewrite decide_True by (rewrite length_app; lia).
        rewrite drop_app_le by done. rewrite take_app_length' by (rewrite length_drop; lia). done. }
      cbn [default from_option Datatypes.id id]. cbn [unit_text] in *.
      replace (length before + 1)%nat with (length (before ++ [47])) by (rewrite length_app; done).
      rewrite IH by (lia || constructor). rewrite length_app, Nat.add_1_r. change (is_path_byte 47) with true. cbv iota.
      destruct (check_units is_path_byte (S (length before)) us rest); [|done]. unfold segments, units_text. cbn [mbind list_bind unit_text app forallb canonical_unit].
      rewrite split_on_sep by done. cbn [app forallb]. f_equal. destruct (is_dot_segment _); cbn [negb andb]; [|done].
      by rewrite andb_false_r.
    + pose proof (unit_no_slash u Hu Hne) as Hsl. rewrite Htext. cbn [check_units forallb].
      assert (Forall (fun b => is_slash b = false) (drop start (before ++ unit_text u))) as Hseg'
        by (rewrite drop_app_le by done; by apply Forall_app_2).
      assert (start <= length (before ++ unit_text u))%nat as Hs' by (rewrite length_app; lia).
      destruct u as [b|h l]; cbn [is_normal_loop unit_text] in *.
      * rewrite (reading_char _ _ _ _ _ _ Hread). rewrite (proj2 (Z.eqb_neq b 37)) by done.
        assert ((b =? 47) = false) as Hb by (apply Z.eqb_neq; congruence). rewrite Hb. unfold is_path_byte at 1. rewrite Hb, orb_false_r.
        destruct (is_pchar b); [|done]. specialize (IH _ _ _ _ start normal Hnext Hs' Hseg'). rewrite length_app in IH.
        cbn [length] in IH. rewrite IH, Nat.add_1_r. done.
      * destruct (reading_triplet _ _ _ _ _ _ _ Hread) as (-> & -> & ->). cbn [Z.eqb Pos.eqb from_option existsb].
        specialize (IH _ _ _ _ start (if is_unreserved (unit_octet (Triplet h l)) || (is_lower h || (is_lower l || false)) then false else normal) Hnext Hs' Hseg').
        rewrite length_app in IH. cbn [length] in IH. rewrite IH, (Nat.add_comm _ 3). destruct (check_units is_path_byte (3 + length before) us rest); [|done].
        f_equal. f_equal. unfold canonical_unit at 2. rewrite orb_false_r.
        destruct (is_unreserved _), (is_lower h || is_lower l), normal; done.
Qed.

(** *** Dot-segments *)

Definition slashed (segs : list bytes) : bytes := mbind (fun s => 47 :: s) segs.
Definition join (segs : list bytes) : bytes := match segs with [] => [] | s :: segs => s ++ slashed segs end.

(** Section 5.2.4 on segments: [first] is the segment before the first slash, [stack] the
    others that are kept, the last one first. *)
Fixpoint resolve (first : bytes) (stack segs : list bytes) : list bytes :=
  match segs with
  | [] => first :: reverse stack
  | s :: segs =>
      if bool_decide (s = bs ".") then
        match segs with [] => first :: reverse ([] :: stack) | _ => resolve first stack segs end
      else if bool_decide (s = bs "..") then
        let '(first, stack) := match stack with [] => ([], []) | _ :: stack => (first, stack) end in
        match segs with [] => first :: reverse ([] :: stack) | _ => resolve first stack segs end
      else resolve first (s :: stack) segs
  end.

(** Leading dot-segments of a relative path are dropped. *)
Fixpoint resolved (segs : list bytes) : list bytes :=
  match segs with
  | [] => [[]]
  | s :: segs => if is_dot_segment s then resolved segs else resolve s [] segs
  end.

Definition plain (s : bytes) : Prop := Forall (fun b => is_slash b = false) s.

Lemma segments_join segs : segs <> [] -> Forall plain segs -> segments (join segs) = segs.
Proof.
  destruct segs as [|s segs]; [done|]. intros _ H. cbn [join]. revert s H.
  induction segs as [|s' segs IH]; intros s H; apply Forall_cons in H as [Hs H].
  - change (slashed []) with (@nil Z). rewrite <- (app_nil_r s) at 2. unfold segments. rewrite split_on_app by done. cbn. by rewrite app_nil_r.
  - unfold segments in *. cbn [slashed mbind list_bind]. cbn [app]. rewrite split_on_sep by done. f_equal. by apply IH.
Qed.

Lemma join_segments path : join (segments path) = path /\ Forall plain (segments path) /\ segments path <> [].
Proof.
  unfold segments. induction path as [|b path (IH1 & IH2 & IH3)]; cbn [split_on]; [by repeat constructor|].
  destruct (is_slash b) eqn:Hb.
  - split; [|split; [apply Forall_cons_2; [constructor|done]|done]]. apply Z.eqb_eq in Hb as ->. cbn [join app].
    destruct (split_on is_slash path) as [|s segs]; [done|]. cbn [slashed mbind list_bind app]. by f_equal.
  - destruct (split_on is_slash path) as [|s segs]; [done|]. apply Forall_cons in IH2 as [Hs Hsegs].
    split; [cbn [join app] in *; by f_equal|]. split; [|done]. apply Forall_cons_2; [apply Forall_cons_2; done|done].
Qed.

Lemma slashed_app l m : slashed (l ++ m) = slashed l ++ slashed m.
Proof. apply bind_app. Qed.

(** A prefix of one segment between slashes. *)
Lemma strip_segment x s segs : plain x -> plain s ->
  strip_prefix (x ++ [47]) (s ++ slashed segs)
  = if bool_decide (s = x) then match segs with [] => None | s' :: segs => Some (s' ++ slashed segs) end else None.
Proof.
  intros Hx. revert s. induction Hx as [|b x Hb _ IH]; intros s Hs; destruct Hs as [|c s Hc Hs]; cbn [app strip_prefix].
  - rewrite bool_decide_eq_true_2 by done. by destruct segs as [|s' segs].
  - rewrite bool_decide_eq_false_2 by done. unfold is_slash in Hc. by rewrite Z.eqb_sym, Hc.
  - rewrite bool_decide_eq_false_2 by done. unfold is_slash in Hb. destruct segs as [|s' segs]; [done|]. cbn. by rewrite Hb.
  - destruct (Z.eqb_spec b c) as [->|Hne].
    + rewrite IH by done. by rewrite (bool_decide_ext (c :: s = c :: x) (s = x)) by naive_solver.
    + by rewrite bool_decide_eq_false_2 by congruence.
Qed.

Lemma whole_segment x s segs : plain x -> plain s ->
  bool_decide (s ++ slashed segs = x) = bool_decide (s = x) && bool_decide (segs = []).
Proof.
  intros Hx Hs. destruct segs as [|s' segs].
  - change (slashed []) with (@nil Z). rewrite app_nil_r. by rewrite (bool_decide_eq_true_2 (@nil bytes = [])), andb_true_r.
  - rewrite (bool_decide_eq_false_2 (s' :: segs = [])), andb_false_r by done. apply bool_decide_eq_false_2. intros <-.
    apply Forall_app in Hx as [_ Hx]. cbn in Hx. apply Forall_cons in Hx as [H _]. done.
Qed.

Lemma pop_segment_slash base s : plain s -> pop_segment (base ++ 47 :: s) = base.
Proof.
  intros Hs. unfold pop_segment, rposition. rewrite reverse_app, reverse_cons, <- app_assoc.
  assert (position (fun b => b =? 47) (reverse s ++ [47] ++ reverse base) = Some (length s)) as ->.
  { apply position_Some. exists 47. rewrite lookup_app_r, length_reverse, Nat.sub_diag by (rewrite length_reverse; lia).
    split; [done|]. split; [done|]. rewrite take_app_length' by (by rewrite length_reverse). by apply Forall_reverse. }
  cbn. rewrite length_app. cbn [length]. replace (length base + S (length s) - 1 - length s)%nat with (length base) by lia.
  apply take_app_length.
Qed.

Lemma pop_segment_plain base : plain base -> pop_segment base = [].
Proof.
  intros H. unfold pop_segment. destruct (rposition _ base) as [i|] eqn:Hp; [|done].
  assert (rposition (fun b => b =? 47) base = None) by (by apply rposition_None). congruence.
Qed.

Lemma pop_stack first stack : plain first -> Forall plain stack ->
  pop_segment (first ++ slashed (reverse stack))
  = let '(first, stack) := match stack with [] => ([], []) | _ :: stack => (first, stack) end in first ++ slashed (reverse stack).
Proof.
  intros Hf Hs. destruct Hs as [|s stack Hs _]; [cbn; rewrite app_nil_r; by apply pop_segment_plain|].
  rewrite reverse_cons, slashed_app, app_assoc. cbn [slashed mbind list_bind]. rewrite app_nil_r. by apply pop_segment_slash.
Qed.

Lemma dots_loop_nil fuel input output : dots_loop fuel input [] output = output.
Proof. by destruct fuel. Qed.

Lemma dots_loop_slash fuel input output : dots_loop (S fuel) input [47] output = output ++ [47].
Proof. cbn. apply dots_loop_nil. Qed.

Lemma slashed_cons s segs : slashed (s :: segs) = 47 :: s ++ slashed segs.
Proof. done. Qed.

Lemma cons_iff {A} (x : A) l m : x :: l = x :: m <-> l = m.
Proof. split; [by intros [= ->]|by intros ->]. Qed.

(** The branches of a turn at a slash. *)
Lemma dots_step fuel input s segs output : plain s -> Forall plain segs ->
  dots_loop (S fuel) input (slashed (s :: segs)) output
  = if bool_decide (s = bs ".") then
      match segs with
      | [] => dots_loop fuel input [47] output
      | [[]] => output ++ [47]
      | s' :: segs' => dots_loop fuel input (complete_with_slash (s' ++ slashed segs') input) output
      end
    else if bool_decide (s = bs "..") then
      match segs with
      | [] => dots_loop fuel input [47] (pop_segment output)
      | s' :: segs' => dots_loop fuel input (complete_with_slash (s' ++ slashed segs') input) (pop_segment output)
      end
    else dots_loop fuel input (slashed segs) (output ++ 47 :: s).
Proof.
  intros Hs Hsegs. rewrite slashed_cons. cbn [dots_loop].
  change (strip_prefix (bs "../") (47 :: s ++ slashed segs)) with (@None bytes).
  change (strip_prefix (bs "./") (47 :: s ++ slashed segs)) with (@None bytes).
  change (strip_prefix (bs "/./") (47 :: s ++ slashed segs)) with (strip_prefix (bs "." ++ [47]) (s ++ slashed segs)).
  change (strip_prefix (bs "/../") (47 :: s ++ slashed segs)) with (strip_prefix (bs ".." ++ [47]) (s ++ slashed segs)).
  rewrite !strip_segment by (done || by repeat constructor).
  rewrite (bool_decide_ext (47 :: s ++ slashed segs = bs "/.") (s ++ slashed segs = bs ".")) by (apply (cons_iff 47 _ (bs "."))).
  rewrite (bool_decide_ext (47 :: s ++ slashed segs = bs "/..") (s ++ slashed segs = bs "..")) by (apply (cons_iff 47 _ (bs ".."))).
  rewrite !whole_segment by (done || by repeat constructor).
  destruct (bool_decide_reflect (s = bs ".")) as [->|H1].
  - destruct segs as [|s' segs]; [done|]. destruct s' as [|b s']; [|done]. cbn [app].
    destruct segs as [|s'' segs]; [|done]. cbn. apply dots_loop_nil.
  - destruct (bool_decide_reflect (s = bs "..")) as [->|H2]; [by destruct segs|]. cbn [andb].
    rewrite !bool_decide_eq_false_2 by done. cbn [orb]. rewrite bool_decide_eq_true_2 by done.
    change (drop 1 (47 :: s ++ slashed segs)) with (s ++ slashed segs).
    destruct segs as [|s' segs].
    + change (slashed []) with (@nil Z). rewrite app_nil_r. rewrite (proj2 (position_None _ s)) by exact Hs.
      by rewrite drop_all, firstn_all.
    + assert (position (fun b => b =? 47) (s ++ slashed (s' :: segs)) = Some (length s)) as ->.
      { apply position_Some. exists 47. rewrite lookup_app_r, Nat.sub_diag by lia. split; [done|]. split; [done|].
        by rewrite take_app_length. }
      rewrite Nat.add_1_r. cbn [drop take]. by rewrite drop_app_length, take_app_length.
Qed.

Lemma complete_suffix before after input : input = before ++ 47 :: after -> complete_with_slash after input = 47 :: after.
Proof.
  intros ->. unfold complete_with_slash. rewrite length_app. cbn [length].
  replace (length before + S (length after) - length after - 1)%nat with (length before) by lia. apply drop_app_length.
Qed.

Lemma dots_loop_slashed segs : forall fuel input before first stack, (length (slashed segs) <= fuel)%nat ->
  plain first -> Forall plain stack -> Forall plain segs -> input = before ++ slashed segs ->
  dots_loop fuel input (slashed segs) (first ++ slashed (reverse stack)) = join (resolve first stack segs).
Proof.
  induction segs as [|s segs IH]; intros fuel input before first stack Hf Hfirst Hstack Hsegs Hin.
  { apply dots_loop_nil. }
  apply Forall_cons in Hsegs as [Hs Hsegs]. rewrite slashed_cons in Hf. cbn [length] in Hf. rewrite length_app in Hf.
  destruct fuel as [|fuel]; [lia|]. rewrite dots_step by done. cbn [resolve].
  assert (forall first stack, first ++ slashed (reverse ([] :: stack)) = (first ++ slashed (reverse stack)) ++ [47]) as Hend
    by (intros; by rewrite reverse_cons, slashed_app, app_assoc).
  assert (input = (before ++ 47 :: s) ++ slashed segs) as Hin' by (rewrite Hin, slashed_cons, <- app_assoc; done).
  assert (forall first stack, plain first -> Forall plain stack -> segs <> [] ->
    match segs with [] => [] | s' :: segs' => dots_loop fuel input (complete_with_slash (s' ++ slashed segs') input) (first ++ slashed (reverse stack)) end
    = join (resolve first stack segs)) as Hnext.
  { intros f st Hf' Hst Hne. destruct segs as [|s' segs']; [done|]. rewrite (complete_suffix (before ++ 47 :: s)) by exact Hin'.
    apply (IH fuel input (before ++ 47 :: s)); try done. lia. }
  destruct (bool_decide_reflect (s = bs ".")) as [->|H1]; [|destruct (bool_decide_reflect (s = bs "..")) as [->|H2]].
  - destruct segs as [|s' segs]; [destruct fuel; [cbn in Hf; lia|]; rewrite dots_loop_slash; cbn [join]; by rewrite Hend|].
    specialize (Hnext first stack Hfirst Hstack ltac:(done)). destruct s'; [destruct segs as [|s'' segs]|]; [|exact Hnext..].
    cbn [resolve]. change (bool_decide ([] = bs ".")) with false. change (bool_decide ([] = bs "..")) with false. cbn [join resolve]. by rewrite Hend.
  - rewrite pop_stack by done. destruct (match stack with [] => _ | _ :: _ => _ end) as [first' stack'] eqn:Hpop.
    assert (plain first' /\ Forall plain stack') as [Hf' Hst'].
    { destruct Hstack as [|x st Hx Hst]; injection Hpop as <- <-; split; done || constructor. }
    destruct segs as [|s' segs].
    + destruct fuel; [cbn in Hf; lia|]. rewrite dots_loop_slash. cbn [join]. by rewrite Hend.
    + by apply (Hnext first' stack').
  - rewrite <- (IH fuel input (before ++ 47 :: s)); [|lia|done|by apply Forall_cons_2|done|done].
    by rewrite reverse_cons, slashed_app, app_assoc; cbn [slashed mbind list_bind]; rewrite app_nil_r.
Qed.

Lemma dots_loop_first fuel input c s segs : plain (c :: s) -> is_dot_segment (c :: s) = false ->
  dots_loop (S fuel) input (c :: s ++ slashed segs) [] = dots_loop fuel input (slashed segs) (c :: s).
Proof.
  intros Hs Hd. apply orb_false_iff in Hd as [H1%bool_decide_eq_false H2%bool_decide_eq_false].
  assert ((47 =? c) = false) as Hc by (apply Forall_cons in Hs as [Hc _]; unfold is_slash in Hc; by rewrite Z.eqb_sym).
  cbn [dots_loop].
  change (c :: s ++ slashed segs) with ((c :: s) ++ slashed segs).
  change (bs "../") with (bs ".." ++ [47]). change (bs "./") with (bs "." ++ [47]).
  rewrite !strip_segment by (done || by repeat constructor). rewrite !bool_decide_eq_false_2 by done.
  assert (forall x, strip_prefix (47 :: x) ((c :: s) ++ slashed segs) = None) as Hsl by (intros x; cbn [strip_prefix app]; by rewrite Hc).
  change (bs "/./") with (47 :: bs "./"). change (bs "/../") with (47 :: bs "../"). rewrite !Hsl.
  assert (forall x, bool_decide ((c :: s) ++ slashed segs = 47 :: x) = false) as Hne
    by (intros x; apply bool_decide_eq_false_2; intros [= ->]; done).
  change (bs "/.") with (47 :: bs "."). change (bs "/..") with (47 :: bs ".."). rewrite !Hne.
  rewrite !whole_segment by (done || by repeat constructor). 
  rewrite (bool_decide_eq_false_2 (c :: s = bs ".")), (bool_decide_eq_false_2 (c :: s = bs "..")) by done. cbn [andb orb].
  assert (bool_decide (head ((c :: s) ++ slashed segs) = Some 47) = false) as ->
    by (apply bool_decide_eq_false_2; intros [= ->]; done).
  rewrite drop_0. change ([] ++ ?l) with l.
  destruct segs as [|s' segs].
  - change (slashed []) with (@nil Z). rewrite app_nil_r. rewrite (proj2 (position_None _ (c :: s))) by exact Hs.
    by rewrite drop_all, firstn_all.
  - assert (position (fun b => b =? 47) ((c :: s) ++ slashed (s' :: segs)) = Some (length (c :: s))) as ->.
    { apply position_Some. exists 47. rewrite lookup_app_r, Nat.sub_diag by lia. split; [done|]. split; [done|].
      by rewrite take_app_length. }
    rewrite Nat.add_0_r. by rewrite drop_app_length, take_app_length.
Qed.

Lemma dots_loop_leading segs : forall fuel input before, segs <> [] -> (length (join segs) <= fuel)%nat -> Forall plain segs ->
  input = before ++ join segs -> dots_loop fuel input (join segs) [] = join (resolved segs).
Proof.
  induction segs as [|s segs IH]; intros fuel input before Hne Hf Hsegs Hin; [done|]. clear Hne.
  apply Forall_cons in Hsegs as [Hs Hsegs]. cbn [resolved]. destruct (is_dot_segment s) eqn:Hd.
  - destruct segs as [|s' segs].
    { apply orb_prop in Hd as [Hd|Hd]; apply bool_decide_eq_true in Hd as ->; (destruct fuel; [done|apply dots_loop_nil]). }
    assert (exists d, In d [bs "."; bs ".."] /\ s = d) as (d & Hin' & ->).
    { apply orb_prop in Hd as [Hd|Hd]; apply bool_decide_eq_true in Hd as ->; eexists; split; try reflexivity; cbn; auto. }
    cbn [join] in *. rewrite slashed_cons in *. rewrite length_app in Hf. cbn [length] in Hf.
    assert (dots_loop fuel input (d ++ 47 :: s' ++ slashed segs) [] = dots_loop (pred fuel) input (s' ++ slashed segs) []) as ->.
    { destruct fuel; [cbn in Hin'; destruct Hin' as [<-|[<-|[]]]; cbn in Hf; lia|]. by destruct Hin' as [<-|[<-|[]]]. }
    apply (IH _ _ (before ++ d ++ [47])); [done| |done|by rewrite Hin, <- !app_assoc].
    destruct Hin' as [<-|[<-|[]]]; cbn in Hf |- *; lia.
  - destruct s as [|c s].
    + apply (dots_loop_slashed segs fuel input before [] []); done || constructor.
    + destruct fuel; [cbn in Hf; lia|]. cbn [join app] in *. rewrite dots_loop_first by done.
      replace (c :: s) with ((c :: s) ++ slashed (reverse [])) at 1 by (by rewrite app_nil_r).
      cbn [length] in Hf. rewrite length_app in Hf.
      apply (dots_loop_slashed segs fuel input (before ++ c :: s)); try done; [lia|by rewrite Hin, <- app_assoc].
Qed.

Lemma remove_dot_segments_resolved path : remove_dot_segments path = join (resolved (segments path)).
Proof.
  destruct (join_segments path) as (Hj & Hp & Hne). unfold remove_dot_segments.
  pose proof (dots_loop_leading (segments path) (length path) path [] Hne) as H. rewrite Hj in H. by apply H.
Qed.

(** *** What is resolved *)

Lemma resolve_Forall (P : bytes -> Prop) segs : P [] -> forall first stack, P first -> Forall P stack -> Forall P segs ->
  Forall P (resolve first stack segs).
Proof.
  intros H0. induction segs as [|s segs IH]; intros first stack Hf Hst Hsegs; cbn [resolve].
  - apply Forall_cons_2; [done|]. by apply Forall_reverse.
  - apply Forall_cons in Hsegs as [Hs Hsegs]. assert (Forall P (reverse ([] :: stack))) as Hend
      by (by apply Forall_reverse, Forall_cons_2).
    repeat case_bool_decide.
    + destruct segs; [by apply Forall_cons_2|by apply IH].
    + destruct Hst as [|x st Hx Hst]; (destruct segs; [apply Forall_cons_2; [done|] | apply IH; done || constructor]).
      all: apply Forall_reverse, Forall_cons_2; done || constructor.
    + apply IH; [done|by apply Forall_cons_2|done].
Qed.

Lemma resolved_Forall (P : bytes -> Prop) segs : P [] -> Forall P segs -> Forall P (resolved segs).
Proof.
  intros H0. induction 1 as [|s segs Hs Hsegs IH]; cbn [resolved]; [by repeat constructor|].
  destruct (is_dot_segment s); [done|]. apply resolve_Forall; done || constructor.
Qed.

Definition no_dots (segs : list bytes) : Prop := Forall (fun s => is_dot_segment s = false) segs.

Lemma resolve_no_dots segs : forall first stack, is_dot_segment first = false -> no_dots stack -> no_dots (resolve first stack segs).
Proof.
  induction segs as [|s segs IH]; intros first stack Hf Hst; cbn [resolve].
  - apply Forall_cons_2; [done|]. by apply Forall_reverse.
  - assert (no_dots (reverse ([] :: stack))) as Hend by (apply Forall_reverse, Forall_cons_2; done).
    destruct (bool_decide_reflect (s = bs ".")); [destruct segs; [by apply Forall_cons_2|by apply IH]|].
    destruct (bool_decide_reflect (s = bs "..")).
    + destruct Hst as [|x st Hx Hst]; (destruct segs; [apply Forall_cons_2; [done|] | apply IH; done || constructor]).
      all: apply Forall_reverse, Forall_cons_2; done || constructor.
    + apply IH; [done|]. apply Forall_cons_2; [|done]. unfold is_dot_segment. by rewrite !bool_decide_eq_false_2.
Qed.

Lemma resolved_shape segs : Forall plain segs -> Forall plain (resolved segs) /\ no_dots (resolved segs) /\ resolved segs <> [].
Proof.
  induction 1 as [|s segs Hs Hsegs IH]; cbn [resolved]; [by repeat constructor|]. destruct (is_dot_segment s) eqn:Hd; [done|].
  split; [apply resolve_Forall; done || constructor|]. split; [apply resolve_no_dots; done || constructor|].
  assert (forall segs first stack, resolve first stack segs <> []) as H; [|by apply H].
  clear. induction segs as [|s segs IH]; intros first stack; cbn [resolve]; [done|].
  repeat case_bool_decide; [destruct segs; done || apply IH| |apply IH]. destruct stack; destruct segs; done || apply IH.
Qed.

Lemma resolve_id segs : forall first stack, no_dots segs -> resolve first stack segs = first :: reverse stack ++ segs.
Proof.
  induction segs as [|s segs IH]; intros first stack H; cbn [resolve]; [by rewrite app_nil_r|].
  apply Forall_cons in H as [Hs H]. apply orb_false_iff in Hs as [-> ->]. rewrite IH by done. by rewrite reverse_cons, <- app_assoc.
Qed.

Lemma resolved_id segs : segs <> [] -> no_dots segs -> resolved segs = segs.
Proof. destruct segs as [|s segs]; [done|]. intros _ [Hs H]%Forall_cons. cbn [resolved]. rewrite Hs. by rewrite resolve_id. Qed.

Lemma resolve_map (P : bytes -> Prop) (f : bytes -> bytes) segs : f [] = [] ->
  (forall s, P s -> bool_decide (f s = bs ".") = bool_decide (s = bs ".") /\ bool_decide (f s = bs "..") = bool_decide (s = bs "..")) ->
  forall first stack, Forall P segs -> resolve (f first) (f <$> stack) (f <$> segs) = f <$> resolve first stack segs.
Proof.
  intros H0 Hf. induction segs as [|s segs IH]; intros first stack Hp; cbn [resolve fmap list_fmap].
  - change (list_fmap _ _ f ?l) with (f <$> l). by rewrite fmap_reverse.
  - apply Forall_cons in Hp as [Hs Hp]. destruct (Hf s Hs) as [-> ->].
    assert (forall first stack, f first :: reverse ([] :: (f <$> stack)) = f <$> first :: reverse ([] :: stack)) as Hend.
    { intros fi st. cbn [fmap list_fmap]. change (list_fmap _ _ f ?l) with (f <$> l). by rewrite fmap_reverse, fmap_cons, H0. }
    destruct (bool_decide (s = bs ".")); [destruct segs; [apply Hend|by apply IH]|].
    destruct (bool_decide (s = bs "..")).
    + destruct stack as [|x stack]; cbn [fmap list_fmap]; change (list_fmap _ _ f ?l) with (f <$> l).
      * destruct segs; [cbn; by rewrite H0|]. specialize (IH [] [] Hp). rewrite H0 in IH. exact IH.
      * destruct segs; [apply Hend|by apply IH].
    + by apply (IH first (s :: stack)).
Qed.

Lemma resolved_map (P : bytes -> Prop) (f : bytes -> bytes) segs : f [] = [] ->
  (forall s, P s -> bool_decide (f s = bs ".") = bool_decide (s = bs ".") /\ bool_decide (f s = bs "..") = bool_decide (s = bs "..")) ->
  Forall P segs -> resolved (f <$> segs) = f <$> resolved segs.
Proof.
  intros H0 Hf. induction 1 as [|s segs Hs Hsegs IH]; [cbn; by rewrite H0|]. cbn [resolved fmap list_fmap].
  change (list_fmap _ _ f ?l) with (f <$> l). unfold is_dot_segment. destruct (Hf s Hs) as [-> ->]. destruct (_ || _); [done|].
  by apply (resolve_map P f segs H0 Hf s []).
Qed.

(** *** The first pass, on units *)

Definition norm_unit (u : Unit_) : Unit_ :=
  match u with
  | Char b => Char b
  | Triplet h l => if is_unreserved (unit_octet u) then Char (unit_octet u) else Triplet (upper_hex (digit h)) (upper_hex (digit l))
  end.

Lemma upper_hex_facts v : 0 <= v < 16 ->
  is_hex (upper_hex v) = true /\ digit (upper_hex v) = v /\ is_lower (upper_hex v) = false.
Proof.
  intros Hv. assert (forallb (fun n => let b := upper_hex (Z.of_nat n) in is_hex b && (digit b =? Z.of_nat n) && negb (is_lower b)) (seq 0 16) = true) as H
    by (vm_compute; reflexivity).
  rewrite forallb_forall in H. specialize (H (Z.to_nat v) ltac:(apply in_seq; lia)). rewrite Z2Nat.id in H by lia.
  apply andb_prop in H as [[H1 H2%Z.eqb_eq]%andb_prop H3%negb_true_iff]. done.
Qed.

Lemma is_hex_range b : is_hex b = true -> 48 <= b <= 102.
Proof.
  unfold is_hex, hex_value, is_digit. intros [v Hv]%bool_decide_eq_true. destruct ((48 <=? b) && _) eqn:H1; [lia|].
  destruct ((65 <=? b) && _) eqn:H2; [lia|]. destruct ((97 <=? b) && _) eqn:H3; [lia|done].
Qed.

Lemma upper_digit b : is_hex b = true -> is_lower b = false -> upper_hex (digit b) = b.
Proof.
  intros Hb. pose proof (is_hex_range b Hb).
  assert (forallb (fun n => let b := Z.of_nat n in implb (is_hex b && negb (is_lower b)) (upper_hex (digit b) =? b)) (seq 0 103) = true) as Hall
    by (vm_compute; reflexivity).
  rewrite forallb_forall in Hall. specialize (Hall (Z.to_nat b) ltac:(apply in_seq; lia)). rewrite Z2Nat.id in Hall by lia.
  intros Hl. cbv beta zeta in Hall. rewrite Hb, Hl in Hall. by apply Z.eqb_eq.
Qed.

Lemma unreserved_path b : is_unreserved b = true -> is_path_byte b = true /\ b <> 37 /\ b <> 47.
Proof.
  intros H. split; [unfold is_path_byte, is_pchar; by rewrite H|]. split; intros ->; vm_compute in H; discriminate.
Qed.

Lemma norm_unit_facts u : unit_wf u ->
  unit_wf (norm_unit u) /\ unit_octet (norm_unit u) = unit_octet u /\ canonical_unit (norm_unit u) = true /\
  normal_unit u = unit_text (norm_unit u) /\ (norm_unit u = Char 47 <-> u = Char 47) /\
  (canonical_unit u = true -> norm_unit u = u).
Proof.
  destruct u as [b|h l]; intros Hu; [done|]. destruct Hu as [Hh Hl].
  pose proof (is_hex_value h Hh) as [_ Hdh]. pose proof (is_hex_value l Hl) as [_ Hdl].
  destruct (upper_hex_facts _ Hdh) as (Hh1 & Hh2 & Hh3). destruct (upper_hex_facts _ Hdl) as (Hl1 & Hl2 & Hl3).
  unfold norm_unit, normal_unit. destruct (is_unreserved (unit_octet (Triplet h l))) eqn:Hun.
  - destruct (unreserved_path _ Hun) as (_ & H37 & H47). split; [done|]. split; [done|]. split; [done|]. split; [done|].
    split; [split; [by intros [= ?]|done]|]. unfold canonical_unit. by rewrite Hun.
  - split; [done|]. split; [cbn [unit_octet] in *; by rewrite Hh2, Hl2|]. split.
    { unfold canonical_unit. cbn [unit_octet] in *. by rewrite Hh2, Hl2, Hun, Hh3, Hl3. }
    split; [|split; [done|]].
    + cbn [unit_octet unit_text]. rewrite Z.shiftr_div_pow2 by lia. change 15 with (Z.ones 4). rewrite Z.land_ones by lia.
      change (2 ^ 4) with 16. repeat f_equal; Z.to_euclidean_division_equations; lia.
    + unfold canonical_unit. intros [_ [H1 H2]%negb_true_iff%orb_false_iff]%andb_prop. by rewrite !upper_digit.
Qed.

(** *** Segments of units *)

Definition is_sep (u : Unit_) : bool := bool_decide (u = Char 47).

Lemma split_segments us : Forall unit_wf us ->
  segments (units_text us) = units_text <$> split_on is_sep us /\ Forall (Forall unit_wf) (split_on is_sep us).
Proof.
  unfold segments. induction 1 as [|u us Hu Hus [IH1 IH2]]; [by repeat constructor|].
  unfold units_text in *. cbn [mbind list_bind split_on].
  assert (is_sep u = bool_decide (u = Char 47)) as Hsep by done. destruct (bool_decide_reflect (u = Char 47)) as [->|Hne]; rewrite Hsep.
  - cbn [unit_text app split_on]. split; [|apply Forall_cons_2; [constructor|done]].
    change (is_slash 47) with true. cbv iota. rewrite IH1. done.
  - rewrite split_on_app by (by apply unit_no_slash). rewrite IH1.
    pose proof (split_on_nonempty is_sep us). destruct (split_on is_sep us) as [|s segs]; [done|].
    apply Forall_cons in IH2 as [Hs Hsegs]. split; [done|]. apply Forall_cons_2; [by apply Forall_cons_2|done].
Qed.

Lemma split_map us : Forall unit_wf us -> split_on is_sep (map norm_unit us) = map (map norm_unit) (split_on is_sep us).
Proof.
  induction 1 as [|u us Hu _ IH]; [done|]. cbn [map split_on].
  destruct (norm_unit_facts u Hu) as (_ & _ & _ & _ & Hsep & _). assert (is_sep (norm_unit u) = is_sep u) as -> by (by apply bool_decide_ext).
  rewrite IH. destruct (is_sep u); [done|]. by destruct (split_on is_sep us).
Qed.

(** What a segment stands for. *)
Definition meaning (s : bytes) : bytes := (percent_decode s []).1.

Lemma meaning_units us : Forall unit_wf us -> meaning (units_text us) = map unit_octet us.
Proof.
  intros H. unfold meaning, percent_decode.
  pose proof (percent_loop_spec us (units_text us) [] [] (length (units_text us)) []) as Hp. cbn [length] in Hp. rewrite Hp; [done|].
  apply reading_start; [by rewrite app_nil_r|done|by left].
Qed.

(** A text in the form that normalisation makes. *)
Definition canonical_text (s : bytes) : Prop := exists us, s = units_text us /\
  Forall (fun u => unit_wf u /\ canonical_unit u = true /\ match u with Char b => is_path_byte b = true | _ => True end) us.

Lemma canonical_nil : canonical_text [].
Proof. by exists []. Qed.

Lemma canonical_app s t : canonical_text s -> canonical_text t -> canonical_text (s ++ t).
Proof.
  intros (us & -> & Hus) (vs & -> & Hvs). exists (us ++ vs). by split; [rewrite units_app|apply Forall_app_2].
Qed.

Lemma canonical_join segs : Forall canonical_text segs -> canonical_text (join segs).
Proof.
  destruct 1 as [|s segs Hs H]; [apply canonical_nil|]. cbn [join]. apply canonical_app; [done|]. clear -H.
  induction H as [|s segs Hs _ IH]; [apply canonical_nil|]. rewrite slashed_cons.
  change (47 :: s ++ slashed segs) with ([47] ++ s ++ slashed segs). apply canonical_app; [|by apply canonical_app].
  exists [Char 47]. split; [done|]. by repeat constructor.
Qed.

Lemma canonical_octet u c : unit_wf u -> canonical_unit u = true -> is_unreserved c = true -> unit_octet u = c -> u = Char c.
Proof.
  destruct u as [b|h l]; intros Hu Hcan Hc H; [by cbn in H; subst|]. unfold canonical_unit in Hcan. rewrite H, Hc in Hcan. done.
Qed.

Lemma canonical_dots s : canonical_text s -> bool_decide (meaning s = bs ".") = bool_decide (s = bs ".") /\
  bool_decide (meaning s = bs "..") = bool_decide (s = bs "..").
Proof.
  intros (us & -> & Hus). assert (Forall unit_wf us) as Hwf by (eapply Forall_impl; [exact Hus|]; by intros u [? _]).
  rewrite meaning_units by done.
  assert (forall l, Forall (fun c => is_unreserved c = true) l -> map unit_octet us = l <-> units_text us = l) as Hiff.
  2:{ split; apply bool_decide_ext; apply Hiff; by repeat constructor. }
  intros l Hl. split.
  - intros <-. clear Hwf. induction Hus as [|u us (Hu & Hc & _) _ IH]; [done|]. cbn [map] in *. apply Forall_cons in Hl as [Hl0 Hl].
    rewrite (canonical_octet u _ Hu Hc Hl0 eq_refl). unfold units_text in *. cbn. by rewrite IH.
  - intros <-. clear Hus. induction Hwf as [|u us Hu _ IH]; [done|]. unfold units_text in *. cbn [map mbind list_bind] in *.
    destruct u as [b|h lo]; cbn [unit_text app] in *.
    + apply Forall_cons in Hl as [_ Hl]. cbn. by rewrite IH.
    + apply Forall_cons in Hl as [Hl _]. done.
Qed.

Lemma normal_canonical path : canonical_text path -> no_dots (segments path) -> is_normal_path path = Ok true.
Proof.
  intros (us & -> & Hus) Hd. unfold is_normal_path.
  pose proof (is_normal_loop_spec us (units_text us) [] (length (units_text us)) [] 0 true) as H. cbn [length] in H. rewrite H; clear H.
  - assert (forall n, check_units is_path_byte n us [] = Ok ()) as ->.
    { clear Hd. induction Hus as [|u us (_ & _ & Hb) _ IH]; intros n; [done|]. destruct u; cbn [check_units]; [by rewrite Hb, IH|apply IH]. }
    assert (forallb canonical_unit us = true) as ->.
    { apply forallb_forall. intros u Hu%list_elem_of_In. rewrite Forall_forall in Hus. by apply (Hus u). }
    assert (forallb (fun s => negb (is_dot_segment s)) (segments (drop 0 [] ++ units_text us)) = true) as ->; [|done].
    apply forallb_forall. intros s Hs%list_elem_of_In. unfold no_dots in Hd. rewrite Forall_forall in Hd. by rewrite Hd.
  - apply reading_start; [by rewrite app_nil_r| |by left]. eapply Forall_impl; [exact Hus|]. by intros u [? _].
  - lia.
  - constructor.
Qed.

(** A text of allowed characters and triplets. *)
Definition component (allowed : Z -> bool) (s : bytes) : Prop := exists us, s = units_text us /\
  Forall (fun u => unit_wf u /\ match u with Char b => allowed b = true | _ => True end) us.

Lemma component_wf allowed us :
  Forall (fun u => unit_wf u /\ match u with Char b => allowed b = true | _ => True end) us -> Forall unit_wf us.
Proof. intros H. eapply Forall_impl; [exact H|]. by intros u [? _]. Qed.

(** What refuses a text: a percent sign without digits, or a character. *)
Definition refused (allowed : Z -> bool) (s : bytes) (e : UriError) : Prop :=
  match e with
  | InvalidPercent i => component allowed (take i s) /\ bad_percent (drop i s)
  | InvalidByte i => component allowed (take i s) /\ exists b, s !! i = Some b /\ b <> 37 /\ allowed b = false
  | _ => False
  end.

Lemma check_units_spec allowed us rest : forall pre, component allowed pre -> Forall unit_wf us -> rest = [] \/ bad_percent rest ->
  match check_units allowed (length pre) us rest with
  | Ok _ => rest = [] /\ component allowed (pre ++ units_text us)
  | Err e => refused allowed (pre ++ units_text us ++ rest) e
  end.
Proof.
  induction us as [|u us IH]; intros pre Hpre Hus Hr; cbn [check_units].
  - change (units_text []) with (@nil Z). rewrite app_nil_r. destruct rest as [|b rest]; [done|]. destruct Hr as [|Hb]; [done|].
    cbn [app refused]. by rewrite take_app_length, drop_app_length.
  - apply Forall_cons in Hus as [Hu Hus].
    assert (pre ++ units_text (u :: us) ++ rest = (pre ++ unit_text u) ++ units_text us ++ rest) as Hs by (by rewrite units_cons, <- !app_assoc).
    assert (pre ++ units_text (u :: us) = (pre ++ unit_text u) ++ units_text us) as Hs' by (by rewrite units_cons, <- app_assoc).
    assert (match u with Char b => allowed b = true | _ => True end -> component allowed (pre ++ unit_text u)) as Hext.
    { intros Hb. destruct Hpre as (vs & -> & Hvs). exists (vs ++ [u]). split; [rewrite units_app; by cbn; rewrite app_nil_r|].
      apply Forall_app_2; [done|]. by repeat constructor. }
    destruct u as [b|h l].
    + destruct (allowed b) eqn:Hb.
      * rewrite Hs, Hs'. specialize (IH (pre ++ [b]) (Hext eq_refl) Hus Hr). rewrite length_app, Nat.add_1_r in IH. exact IH.
      * cbn [refused]. rewrite take_app_length, cursor. split; [done|]. by exists b.
    + rewrite Hs, Hs'. specialize (IH _ (Hext I) Hus Hr). rewrite length_app, Nat.add_comm in IH. exact IH.
Qed.

Lemma normal_units us : Forall unit_wf us -> units_text (map norm_unit us) = mbind normal_unit us.
Proof.
  induction 1 as [|u us Hu _ IH]; [done|]. unfold units_text in *. cbn [map mbind list_bind].
  destruct (norm_unit_facts u Hu) as (_ & _ & _ & -> & _). by rewrite IH.
Qed.

Lemma norm_canonical us : Forall (fun u => unit_wf u /\ match u with Char b => is_path_byte b = true | _ => True end) us ->
  canonical_text (units_text (map norm_unit us)).
Proof.
  intros H. exists (map norm_unit us). split; [done|]. apply Forall_map. eapply Forall_impl; [exact H|]. intros u [Hu Hb].
  destruct (norm_unit_facts u Hu) as (H1 & _ & H3 & _). split; [done|]. split; [done|].
  unfold norm_unit. destruct u as [b|h l]; [done|]. destruct (is_unreserved _) eqn:Hun; [|done]. by apply unreserved_path.
Qed.

(** The text that normalisation answers, whether or not it was normal. *)
Lemma normalize_units us scratch (path := units_text us) :
  Forall (fun u => unit_wf u /\ match u with Char b => is_path_byte b = true | _ => True end) us ->
  (normalize_path path scratch).2 = Ok (join (resolved (segments (units_text (map norm_unit us))))).
Proof.
  intros Hus. pose proof (component_wf _ _ Hus) as Hwf.
  assert (reading path [] us [] (length path)) as Hread by (apply reading_start; [by rewrite app_nil_r|done|by left]).
  unfold normalize_path, is_normal_path.
  pose proof (is_normal_loop_spec us path [] (length path) [] 0 true Hread) as H. cbn [length] in H. rewrite H; [clear H|lia|constructor].
  pose proof (check_units_spec is_path_byte us [] [] (ex_intro _ [] (conj eq_refl (Forall_nil_2 _))) Hwf (or_introl eq_refl)) as Hok.
  cbn [length] in Hok. rewrite app_nil_r in Hok.
  destruct (check_units is_path_byte 0 us []) as [|e] eqn:Hc.
  2:{ exfalso. clear -Hus Hc. revert Hc. generalize 0%nat. induction Hus as [|u us [_ Hb] _ IH]; intros n; cbn [check_units]; [done|].
      destruct u; [rewrite Hb|]; apply IH. }
  clear Hok Hc. change (drop 0 [] ++ units_text us) with path. cbn [andb].
  destruct (forallb canonical_unit us && forallb (fun s => negb (is_dot_segment s)) (segments path)) eqn:Hn.
  - apply andb_prop in Hn as [Hcan Hd]. cbn [snd]. assert (map norm_unit us = us) as ->.
    { clear -Hwf Hcan. induction Hwf as [|u us Hu _ IH]; [done|]. cbn [map forallb] in *. apply andb_prop in Hcan as [H1 H2].
      destruct (norm_unit_facts u Hu) as (_ & _ & _ & _ & _ & ->); [|done]. by rewrite IH. }
    destruct (join_segments path) as (Hj & _ & Hne). rewrite resolved_id; [f_equal; symmetry; exact Hj|exact Hne|].
    apply Forall_forall. intros s Hs%list_elem_of_In. rewrite forallb_forall in Hd. by apply negb_true_iff, Hd.
  - pose proof (normal_loop_spec us path [] (length path) [] Hread) as H. cbn [length app] in H. rewrite H.
    cbn [snd]. by rewrite remove_dot_segments_resolved, normal_units.
Qed.

Lemma normalize_ok us scratch : Forall (fun u => unit_wf u /\ match u with Char b => is_path_byte b = true | _ => True end) us ->
  exists out, (normalize_path (units_text us) scratch).2 = Ok out /\ canonical_text out /\ no_dots (segments out) /\
    meaning <$> segments out = resolved (meaning <$> segments (units_text us)).
Proof.
  intros Hus. pose proof (component_wf _ _ Hus) as Hwf. eexists. split; [by apply normalize_units|].
  assert (Forall unit_wf (map norm_unit us)) as Hwf'
    by (apply Forall_map; eapply Forall_impl; [exact Hwf|]; intros u Hu; by apply norm_unit_facts).
  destruct (split_segments us Hwf) as [Hsegs Hsplit]. destruct (split_segments _ Hwf') as [Hsegs' Hsplit'].
  rewrite split_map in Hsegs' by done. set (N := segments (units_text (map norm_unit us))) in *.
  assert (Forall plain N) as Hplain by apply join_segments. destruct (resolved_shape N Hplain) as (Hp & Hd & Hne).
  assert (Forall canonical_text N) as Hcan.
  { rewrite Hsegs'. apply Forall_fmap, Forall_map. clear -Hus. induction Hus as [|u us Hu Hus IH]; [repeat constructor; apply canonical_nil|].
    cbn [split_on]. destruct (is_sep u); [apply Forall_cons_2; [apply canonical_nil|done]|].
    pose proof (split_on_nonempty is_sep us). destruct (split_on is_sep us) as [|s segs]; [done|].
    apply Forall_cons in IH as [Hs IH]. apply Forall_cons_2; [|done]. cbn. cbn in Hs.
    change (units_text (norm_unit u :: map norm_unit s)) with (unit_text (norm_unit u) ++ units_text (map norm_unit s)).
    apply canonical_app; [|exact Hs]. pose proof (norm_canonical [u] (Forall_cons_2 _ _ _ Hu (Forall_nil_2 _))) as Hc.
    cbn in Hc. by rewrite app_nil_r in Hc. }
  split; [apply canonical_join, resolved_Forall; [apply canonical_nil|done]|].
  rewrite segments_join by done. split; [done|].
  rewrite <- (resolved_map canonical_text meaning) by (done || apply canonical_dots). f_equal.
  rewrite Hsegs', Hsegs. change (map (map norm_unit) ?l) with (map norm_unit <$> l). rewrite <- !list_fmap_compose. apply list_fmap_ext. intros i s Hi. cbn.
  assert (Forall unit_wf s) as Hs by (rewrite Forall_lookup in Hsplit; by apply (Hsplit i)).
  rewrite !meaning_units; [|done|apply Forall_map; eapply Forall_impl; [exact Hs|]; intros u Hu; by apply norm_unit_facts].
  rewrite map_map. apply map_ext_Forall. eapply Forall_impl; [exact Hs|]. intros u Hu. by apply norm_unit_facts.
Qed.

(** C33. Normalisation keeps what a path means and makes it plain: the segments of the
    result, each with its triplets replaced by their octets, are those of the path with its
    dot-segments resolved as Section 5.2.4 does, so that an encoded dot counts as a dot, an
    encoded slash never separates, and no dot-segment is left to climb with; the result has
    only characters and triplets of a path, no triplet of an unreserved octet and no small
    hexadecimal letters, and is its own normalisation.  Every text of path characters and
    triplets has one, and any other is refused at its first octet that is no part of one. *)
Theorem normalize_meaning path scratch :
  match (normalize_path path scratch).2 with
  | Ok out => component is_path_byte path /\ canonical_text out /\ no_dots (segments out) /\
      meaning <$> segments out = resolved (meaning <$> segments path) /\
      forall scratch', normalize_path out scratch' = (scratch', Ok out)
  | Err e => refused is_path_byte path e
  end.
Proof.
  destruct (units_exist path) as (us & rest & -> & Hus & Hr).
  pose proof (check_units_spec is_path_byte us rest [] (ex_intro _ [] (conj eq_refl (Forall_nil_2 _))) Hus Hr) as Hc.
  cbn [app length] in Hc. destruct (check_units is_path_byte 0 us rest) as [[]|e] eqn:He.
  - destruct Hc as [-> (vs & Hv & Hvs)]. rewrite app_nil_r, Hv. destruct (normalize_ok vs scratch Hvs) as (out & -> & Hcan & Hd & Hm).
    split; [by exists vs|]. split; [done|]. split; [done|]. split; [done|]. intros scratch'. unfold normalize_path.
    by rewrite normal_canonical.
  - unfold normalize_path, is_normal_path.
    pose proof (is_normal_loop_spec us _ [] _ rest 0 true (reading_start _ us rest eq_refl Hus Hr)) as H.
    cbn [length] in H. rewrite H, He; [exact Hc|lia|constructor].
Qed.

(** Percent-decoding is total on texts without stray percent signs: it appends one octet
    for each character and triplet, and otherwise stops at the first percent sign without
    two digits, having appended what came before it. *)
Theorem percent_decode_exact input out :
  exists us rest, input = units_text us ++ rest /\ Forall unit_wf us /\
    percent_decode input out
    = (out ++ map unit_octet us, match rest with [] => Ok () | _ => Err (InvalidPercent (length input - length rest)) end) /\
    (rest = [] \/ bad_percent rest).
Proof.
  destruct (units_exist input) as (us & rest & -> & Hus & Hr). exists us, rest. split; [done|]. split; [done|]. split; [|done].
  unfold percent_decode. pose proof (percent_loop_spec us _ [] rest _ out (reading_start _ us rest eq_refl Hus Hr)) as H.
  cbn [length] in H. rewrite H. f_equal.
  pose proof (check_units_spec (fun _ => true) us rest [] (ex_intro _ [] (conj eq_refl (Forall_nil_2 _))) Hus Hr) as Hc.
  clear H Hc. rewrite length_app, Nat.add_sub. change (length (units_text us)) with (0 + length (units_text us))%nat. generalize 0%nat.
  induction us as [|u us IH]; intros n; cbn [check_units]; [rewrite Nat.add_0_r; by destruct rest|].
  apply Forall_cons in Hus as [_ Hus]. rewrite units_cons, length_app, Nat.add_assoc.
  destruct u; cbn [unit_text length]; rewrite IH by done; rewrite (Nat.add_comm n); done.
Qed.

(** ** The grammar of a reference *)

Lemma check_loop_step fuel input at_ end_ allowed : check_loop (S fuel) input at_ end_ allowed
  = if (end_ <=? at_)%nat then Ok () else match input !! at_ with None => Ok () | Some byte =>
      if byte =? 37 then let? _ := percent_octet input at_ in
        if (end_ <? at_ + 3)%nat then Err (InvalidPercent at_) else check_loop fuel input (at_ + 3) end_ allowed
      else if allowed byte then check_loop fuel input (at_ + 1) end_ allowed else Err (InvalidByte at_) end.
Proof. done. Qed.

Lemma check_loop_spec allowed post us : forall fuel pre rest, Forall unit_wf us -> rest = [] \/ bad_percent rest ->
  (length (units_text us ++ rest) <= fuel)%nat ->
  check_loop fuel (pre ++ units_text us ++ rest ++ post) (length pre) (length pre + length (units_text us ++ rest)) allowed
  = check_units allowed (length pre) us rest.
Proof.
  induction us as [|u us IH]; intros fuel pre rest Hus Hr Hf.
  - change (units_text []) with (@nil Z) in *. cbn [app check_units] in *. destruct rest as [|b rest].
    { destruct fuel; [done|]. rewrite check_loop_step. by rewrite (proj2 (Nat.leb_le _ _)) by (cbn; lia). }
    destruct fuel as [|fuel]; [cbn in Hf; lia|]. rewrite check_loop_step.
    rewrite (proj2 (Nat.leb_gt _ _)) by (cbn; lia). destruct Hr as [|Hb]; [done|].
    destruct (bad_percent_head _ Hb) as [l [= -> ->]]. rewrite cursor. cbn [head app Z.eqb Pos.eqb].
    destruct (decide (length l < 2)%nat) as [Hl|Hl].
    + unfold percent_octet. destruct (_ ≫= hex_value); [cbn [ok_or]|done]. destruct (_ ≫= hex_value); [cbn [ok_or]|done].
      by rewrite (proj2 (Nat.ltb_lt _ _)) by (cbn; lia).
    + rewrite percent_octet_bad; [done|]. exists (l ++ post). split; [done|]. intros (h & lo & l' & Heq & Hh & Hlo).
      destruct l as [|a [|b l]]; [cbn in Hl; lia..|]. injection Heq as -> -> _. destruct Hb as (l0 & [= <-] & Hno). apply Hno. by exists h, lo, l.
  - apply Forall_cons in Hus as [Hu Hus]. rewrite units_cons, <- !app_assoc in *. rewrite length_app in Hf |- *.
    pose proof (length_unit_text u). destruct fuel as [|fuel]; [lia|]. rewrite check_loop_step.
    rewrite (proj2 (Nat.leb_gt _ _)) by lia. rewrite cursor.
    specialize (IH fuel (pre ++ unit_text u) rest Hus Hr ltac:(lia)). rewrite <- !app_assoc, !length_app, <- Nat.add_assoc in IH. rewrite length_app.
    destruct u as [b|h l]; cbn [unit_text app head length check_units] in *.
    + rewrite (proj2 (Z.eqb_neq b 37)) by done. destruct (allowed b); [|done]. rewrite IH. by rewrite Nat.add_1_r.
    + cbn [Z.eqb Pos.eqb]. destruct Hu as [Hh Hl].
      pose proof (percent_octet_triplet pre h l (units_text us ++ rest ++ post) Hh Hl) as Ho. cbn [app] in Ho. rewrite Ho.
      rewrite (proj2 (Nat.ltb_ge _ _)) by lia. rewrite IH. by rewrite (Nat.add_comm (length pre) 3).
Qed.

Lemma check_units_ok allowed us :
  Forall (fun u => unit_wf u /\ match u with Char b => allowed b = true | _ => True end) us ->
  forall n, check_units allowed n us [] = Ok ().
Proof. induction 1 as [|u us [_ Hb] _ IH]; intros n; cbn [check_units]; [done|]. destruct u; [rewrite Hb|]; apply IH. Qed.

Lemma check_units_component allowed us rest n : Forall unit_wf us -> check_units allowed n us rest = Ok () ->
  rest = [] /\ component allowed (units_text us).
Proof.
  intros Hus H. cut (rest = [] /\ Forall (fun u => unit_wf u /\ match u with Char b => allowed b = true | _ => True end) us).
  { intros [-> Hall]. split; [done|]. by exists us. }
  revert n H. induction Hus as [|u us Hu _ IH]; intros n H; cbn [check_units] in H; [by destruct rest|].
  destruct u as [b|h l]; [destruct (allowed b) eqn:Hb; [|done]|]; destruct (IH _ H) as [-> Hall];
    (split; [done|]; apply Forall_cons_2; done).
Qed.

Lemma check_component pre a post allowed e : (length pre + length a)%nat = e ->
  check_bytes (pre ++ a ++ post) (length pre, e) allowed = Ok () <-> component allowed a.
Proof.
  intros <-. unfold check_bytes. cbn [fst snd]. split.
  - destruct (units_exist a) as (us & rest & -> & Hus & Hr). rewrite <- app_assoc.
    rewrite check_loop_spec; [|done..|rewrite !length_app; lia].
    intros H. destruct (check_units_component _ _ _ _ Hus H) as [-> Hc]. by rewrite app_nil_r.
  - intros (us & -> & Hus). pose proof (check_loop_spec allowed post us (length (pre ++ units_text us ++ post)) pre []) as H.
    rewrite app_nil_r in H. cbn [app] in H. rewrite H; [by apply check_units_ok|by eapply component_wf|by left|].
    rewrite !length_app. lia.
Qed.

(** *** Cutting at delimiters *)

Definition free (delims l : bytes) : Prop := Forall (fun b => ~ b ∈ delims) l.
Definition starts_in (delims l : bytes) : Prop := match l with [] => True | b :: _ => b ∈ delims end.

Lemma cut_exists delims t : exists a rest, t = a ++ rest /\ free delims a /\ starts_in delims rest.
Proof.
  induction t as [|b t (a & rest & -> & Ha & Hr)]; [by exists [], []; repeat constructor|].
  destruct (decide (b ∈ delims)) as [Hb|Hb].
  - by exists [], (b :: a ++ rest); repeat constructor.
  - exists (b :: a), rest. split; [done|]. split; [by apply Forall_cons_2|done].
Qed.

Lemma position_cut delims a rest : free delims a -> starts_in delims rest ->
  position (fun byte => bool_decide (byte ∈ delims)) (a ++ rest) = match rest with [] => None | _ => Some (length a) end.
Proof.
  intros Ha Hr. assert (Forall (fun b => bool_decide (b ∈ delims) = false) a) as Ha'
    by (eapply Forall_impl; [exact Ha|]; intros b Hb; by apply bool_decide_eq_false_2).
  destruct rest as [|b rest]; [rewrite app_nil_r; by apply position_None|].
  apply position_Some. exists b. rewrite cursor. split; [done|]. split; [by apply bool_decide_eq_true_2|]. by rewrite take_app_length.
Qed.

Lemma until_cut delims pre a rest : free delims a -> starts_in delims rest ->
  until delims (pre ++ a ++ rest) (length pre) = (length pre + length a)%nat.
Proof.
  intros Ha Hr. unfold until. rewrite drop_app_length, position_cut by done. destruct rest; [|done].
  rewrite app_nil_r, length_app. done.
Qed.

Lemma cut_unique delims a t b s : free delims a -> starts_in delims t -> a ++ t = b ++ s -> free delims b -> starts_in delims s ->
  a = b /\ t = s.
Proof.
  intros Ha Ht Heq Hb Hs. pose proof (position_cut _ _ _ Ha Ht) as H. rewrite Heq, (position_cut _ _ _ Hb Hs) in H.
  destruct t, s; try discriminate H; [by rewrite !app_nil_r in Heq|]. injection H as H. by apply app_inj_1 in Heq.
Qed.

Lemma slashes_at pre t : starts_with_slashes (pre ++ t) (length pre) = bool_decide (take 2 t = bs "//").
Proof.
  unfold starts_with_slashes, get_range. rewrite length_app.
  destruct (decide (length pre <= length pre + 2 <= length pre + length t)%nat) as [H|H].
  - rewrite drop_app_length. replace (length pre + 2 - length pre)%nat with 2%nat by lia. apply bool_decide_ext. split; [by intros [= ->]|by intros ->].
  - rewrite !bool_decide_eq_false_2; [done| |done]. intros Ht. destruct t as [|x [|y t]]; try discriminate Ht. cbn in H. lia.
Qed.

Lemma component_free delims allowed s : component allowed s ->
  Forall (fun d => allowed d = false /\ is_hex d = false /\ d <> 37) delims -> free delims s.
Proof.
  intros (us & -> & Hus) Hd. rewrite Forall_forall in Hd.
  induction Hus as [|u us [Hu Ha] _ IH]; [constructor|]. rewrite units_cons. apply Forall_app_2; [|exact IH].
  destruct u as [b|h l]; cbn [unit_text].
  - apply Forall_cons_2; [|constructor]. intros Hb. destruct (Hd b Hb) as [? _]. congruence.
  - destruct Hu as [Hh Hl]. repeat apply Forall_cons_2; try apply Forall_nil_2; intros Hb; destruct (Hd _ Hb) as (_ & ? & ?); congruence.
Qed.

Lemma authority_free a : component is_authority_byte a -> free (bs "/?#") a.
Proof. intros H. apply (component_free _ _ _ H). repeat constructor; done. Qed.
Lemma path_free p : component is_path_byte p -> free (bs "?#") p.
Proof. intros H. apply (component_free _ _ _ H). repeat constructor; done. Qed.
Lemma query_free q : component is_query_byte q -> free (bs "#") q.
Proof. intros H. apply (component_free _ _ _ H). repeat constructor; done. Qed.

Definition scheme_ok (s : bytes) : Prop := from_option is_alpha false (head s) && forallb is_scheme_byte s = true.

(** No colon before the first slash, question mark or number sign. *)
Definition no_scheme (input : bytes) : Prop :=
  forall a rest, input = a ++ rest -> free (bs ":/?#") a -> head rest <> Some 58.

Lemma scheme_free s : scheme_ok s -> free (bs ":/?#") s.
Proof.
  intros [_ H]%andb_prop. rewrite forallb_forall in H. apply Forall_forall. intros b Hb%list_elem_of_In Hd. specialize (H b Hb).
  apply list_elem_of_In in Hd. cbn in Hd. destruct Hd as [<-|[<-|[<-|[<-|[]]]]]; done.
Qed.

Lemma scheme_iff input sc at_ : parse_scheme input = Ok (sc, at_) <->
  (sc = None /\ at_ = 0%nat /\ no_scheme input) \/
  (exists s t, input = s ++ 58 :: t /\ scheme_ok s /\ sc = Some (0%nat, length s) /\ at_ = S (length s)).
Proof.
  destruct (cut_exists (bs ":/?#") input) as (a & rest & -> & Ha & Hr). unfold parse_scheme. rewrite position_cut by done.
  assert (forall s t, a ++ rest = s ++ 58 :: t -> scheme_ok s -> a = s /\ rest = 58 :: t) as Huniq.
  { intros s t Heq Hs. pose proof (position_cut _ _ _ Ha Hr) as H1. rewrite Heq in H1.
    rewrite (position_cut (bs ":/?#") s (58 :: t)) in H1; [|by apply scheme_free|apply list_elem_of_In; cbn; tauto].
    destruct rest as [|b rest]; [done|]. injection H1 as H1. by apply app_inj_1 in Heq as [-> ->]. }
  assert (head rest <> Some 58 -> no_scheme (a ++ rest)) as Hno.
  { intros Hh a' rest' Heq Ha' Hr'. destruct rest' as [|c rest']; [done|]. injection Hr' as ->.
    pose proof (position_cut _ _ _ Ha Hr) as H1. rewrite Heq in H1.
    rewrite (position_cut (bs ":/?#") a' (58 :: rest')) in H1; [|done|apply list_elem_of_In; cbn; tauto].
    destruct rest as [|b rest]; [done|]. injection H1 as H1. apply app_inj_1 in Heq as [-> Heq]; [|done]. injection Heq as -> _. done. }
  destruct rest as [|b rest].
  - split; [intros [= <- <-]; left; split; [done|]; split; [done|]; by apply Hno|].
    intros [(-> & -> & _)|(s & t & Heq & Hs & _)]; [done|]. by destruct (Huniq s t Heq Hs).
  - rewrite cursor. cbn [head]. rewrite take_app_length. destruct (bool_decide_reflect (Some b = Some 58)) as [[= ->]|Hb].
    + destruct (from_option is_alpha false (head a) && forallb is_scheme_byte a) eqn:Hs.
      * split; [intros [= <- <-]; right; by exists a, rest|]. intros [(_ & _ & Hn)|(s & t & Heq & Hs' & -> & ->)].
        { by destruct (Hn a (58 :: rest) eq_refl Ha). }
        by destruct (Huniq s t Heq Hs') as [-> _].
      * split; [done|]. intros [(_ & _ & Hn)|(s & t & Heq & Hs' & -> & ->)]; [by destruct (Hn a (58 :: rest) eq_refl Ha)|].
        destruct (Huniq s t Heq Hs') as [-> _]. unfold scheme_ok in Hs'. congruence.
    + split; [intros [= <- <-]; left; split; [done|]; split; [done|]; by apply Hno|].
      intros [(-> & -> & _)|(s & t & Heq & Hs & _)]; [done|]. destruct (Huniq s t Heq Hs) as [_ [= -> _]]. done.
Qed.

(** The check of a component after [pre], and the cursor after it. *)
Lemma component_iff {A} pre x t allowed (k : A) r : (let? _ := check_bytes (pre ++ x ++ t) (length pre, (length pre + length x)%nat) allowed in Ok k) = Ok r
  <-> component allowed x /\ r = k.
Proof.
  rewrite <- (check_component pre x t allowed _ eq_refl). destruct (check_bytes _ _ _) as [[]|]; naive_solver.
Qed.

Lemma authority_iff pre t au at_ : parse_authority (pre ++ t) (length pre) = Ok (au, at_) <->
  (au = None /\ at_ = length pre /\ take 2 t <> bs "//") \/
  (exists a t', t = bs "//" ++ a ++ t' /\ component is_authority_byte a /\ starts_in (bs "/?#") t' /\
     au = Some (length pre + 2, length pre + 2 + length a)%nat /\ at_ = (length pre + 2 + length a)%nat).
Proof.
  unfold parse_authority. rewrite slashes_at. destruct (bool_decide_reflect (take 2 t = bs "//")) as [Ht|Ht].
  2:{ split; [intros [= <- <-]; by left|]. intros [(-> & -> & _)|(a & t' & -> & _)]; done. }
  assert (exists u, t = bs "//" ++ u) as [u ->] by (destruct t as [|x [|y u]]; try discriminate Ht; injection Ht as -> ->; by exists u).
  destruct (cut_exists (bs "/?#") u) as (a & t' & -> & Ha & Hr).
  assert (forall b s, a ++ t' = b ++ s -> free (bs "/?#") b -> starts_in (bs "/?#") s -> a = b /\ t' = s) as Huniq
    by (intros b s Heq Hb Hs; exact (cut_unique _ _ _ _ _ Ha Hr Heq Hb Hs)).
  rewrite !app_assoc. replace (length pre + 2)%nat with (length (pre ++ bs "//")) by (rewrite length_app; done).
  rewrite <- !app_assoc, (app_assoc pre), until_cut by done. rewrite component_iff. split.
  - intros [Hc [= -> ->]]. right. by exists a, t'.
  - intros [(_ & _ & Hn)|(b & s & Heq & Hb & Hs & -> & ->)]; [done|]. apply app_inv_head in Heq.
    destruct (Huniq b s Heq (authority_free b Hb) Hs) as [-> ->]. done.
Qed.

Lemma path_iff pre t au range : parse_path (pre ++ t) au (length pre) = Ok range <->
  exists p t', t = p ++ t' /\ component is_path_byte p /\ starts_in (bs "?#") t' /\
    range = (length pre, length pre + length p)%nat /\ (au = None -> take 2 t <> bs "//").
Proof.
  unfold parse_path. destruct (cut_exists (bs "?#") t) as (p & t' & -> & Hp & Hr). rewrite until_cut by done. rewrite slashes_at.
  destruct (check_bytes _ _ _) as [[]|e] eqn:Hc.
  - apply check_component in Hc; [|done]. destruct (bool_decide (au = None) && bool_decide (take 2 (p ++ t') = bs "//")) eqn:Hs.
    + split; [done|]. apply andb_prop in Hs as [Hau%bool_decide_eq_true Hs%bool_decide_eq_true].
      intros (q & s & _ & _ & _ & _ & Hno). by destruct (Hno Hau).
    + split.
      * intros [= <-]. exists p, t'. do 4 (split; [done|]). intros ->. apply andb_false_iff in Hs as [Hs|Hs]; [done|by apply bool_decide_eq_false in Hs].
      * intros (q & s & Heq & Hq & Hs' & -> & _). by destruct (cut_unique _ _ _ _ _ Hp Hr Heq (path_free q Hq) Hs') as [-> _].
  - split; [done|]. intros (q & s & Heq & Hq & Hs & _). destruct (cut_unique _ _ _ _ _ Hp Hr Heq (path_free q Hq) Hs) as [-> ->].
    rewrite (proj2 (check_component pre q s _ _ eq_refl) Hq) in Hc. done.
Qed.

Lemma query_iff pre t qu at_ : parse_query (pre ++ t) (length pre) = Ok (qu, at_) <->
  (qu = None /\ at_ = length pre /\ head t <> Some 63) \/
  (exists x t', t = 63 :: x ++ t' /\ component is_query_byte x /\ starts_in (bs "#") t' /\
     qu = Some (length pre + 1, length pre + 1 + length x)%nat /\ at_ = (length pre + 1 + length x)%nat).
Proof.
  unfold parse_query. rewrite cursor. destruct (bool_decide_reflect (head t = Some 63)) as [Ht|Ht].
  2:{ split; [intros [= <- <-]; by left|]. intros [(-> & -> & _)|(x & t' & -> & _)]; done. }
  destruct t as [|b u]; [done|]. injection Ht as ->. destruct (cut_exists (bs "#") u) as (x & t' & -> & Hx & Hr).
  rewrite <- Nat.add_1_r. replace (length pre + 1)%nat with (length (pre ++ [63])) by (rewrite length_app; done).
  change (pre ++ 63 :: x ++ t') with (pre ++ [63] ++ x ++ t'). rewrite (app_assoc pre), until_cut by done. rewrite component_iff. split.
  - intros [Hc [= -> ->]]. right. by exists x, t'.
  - intros [(_ & _ & Hn)|(y & s & Heq & Hy & Hs & -> & ->)]; [done|]. injection Heq as Heq.
    by destruct (cut_unique _ _ _ _ _ Hx Hr Heq (query_free y Hy) Hs) as [-> ->].
Qed.

Lemma fragment_iff pre t fr : parse_fragment (pre ++ t) (length pre) = Ok fr <->
  (fr = None /\ head t <> Some 35) \/
  (exists x, t = 35 :: x /\ component is_query_byte x /\ fr = Some (length pre + 1, length pre + 1 + length x)%nat).
Proof.
  unfold parse_fragment. rewrite cursor. destruct (bool_decide_reflect (head t = Some 35)) as [Ht|Ht].
  2:{ split; [intros [= <-]; by left|]. intros [(-> & _)|(x & -> & _)]; done. }
  destruct t as [|b x]; [done|]. injection Ht as ->.
  rewrite <- Nat.add_1_r. replace (length pre + 1)%nat with (length (pre ++ [35])) by (rewrite length_app; done).
  replace (length (pre ++ 35 :: x)) with (length (pre ++ [35%Z]) + length x)%nat by (rewrite !length_app; cbn; lia).
  replace (pre ++ 35 :: x) with ((pre ++ [35]) ++ x ++ []) by (by rewrite app_nil_r, <- app_assoc). rewrite component_iff. split.
  - intros [Hc ->]. right. by exists x.
  - intros [(_ & Hn)|(y & [= ->] & Hy & ->)]; done.
Qed.

(** A reference of Section 4.1 by its components. *)
Record Reference : Type := MkReference {
  r_scheme : option bytes; r_authority : option bytes; r_path : bytes; r_query : option bytes; r_fragment : option bytes }.

Definition opt_text (f : bytes -> bytes) (o : option bytes) : bytes := from_option f [] o.
Definition after_path (r : Reference) : bytes :=
  opt_text (fun q => bs "?" ++ q) (r_query r) ++ opt_text (fun f => bs "#" ++ f) (r_fragment r).
Definition hierarchy (r : Reference) : bytes := opt_text (fun a => bs "//" ++ a) (r_authority r) ++ r_path r ++ after_path r.
Definition reference_text (r : Reference) : bytes := opt_text (fun s => s ++ bs ":") (r_scheme r) ++ hierarchy r.

Definition optional (P : bytes -> Prop) (o : option bytes) : Prop := from_option P True o.
Definition reference_ok (r : Reference) : Prop :=
  match r_scheme r with Some s => scheme_ok s | None => no_scheme (hierarchy r) end /\
  optional (component is_authority_byte) (r_authority r) /\ component is_path_byte (r_path r) /\
  optional (component is_query_byte) (r_query r) /\ optional (component is_query_byte) (r_fragment r) /\
  match r_authority r with
  | Some _ => head (r_path r) = None \/ head (r_path r) = Some 47
  | None => take 2 (r_path r) <> bs "//"
  end.

(** Where the components are in the text. *)
Definition spans (r : Reference) : Components :=
  let n := match r_scheme r with Some s => S (length s) | None => 0%nat end in
  let m := match r_authority r with Some a => (n + 2 + length a)%nat | None => n end in
  let p := (m + length (r_path r))%nat in
  let q := match r_query r with Some x => (p + 1 + length x)%nat | None => p end in
  MkComponents ((fun s => (0%nat, length s)) <$> r_scheme r)
    ((fun a => (n + 2, n + 2 + length a)%nat) <$> r_authority r) (m, p)
    ((fun x => (p + 1, p + 1 + length x)%nat) <$> r_query r)
    ((fun x => (q + 1, q + 1 + length x)%nat) <$> r_fragment r).

Lemma parse_stages input c : parse input = Ok c <-> exists sc at1 au at2 pa qu at3 fr,
  parse_scheme input = Ok (sc, at1) /\ parse_authority input at1 = Ok (au, at2) /\ parse_path input au at2 = Ok pa /\
  parse_query input pa.2 = Ok (qu, at3) /\ parse_fragment input at3 = Ok fr /\ c = MkComponents sc au pa qu fr.
Proof.
  unfold parse. split.
  - destruct (parse_scheme input) as [[sc at1]|] eqn:H1; [|done]. destruct (parse_authority input at1) as [[au at2]|] eqn:H2; [|done].
    destruct (parse_path input au at2) as [pa|] eqn:H3; [|done]. cbv zeta.
    destruct (parse_query input pa.2) as [[qu at3]|] eqn:H4; [|done]. destruct (parse_fragment input at3) as [fr|] eqn:H5; [|done].
    intros [= <-]. by exists sc, at1, au, at2, pa, qu, at3, fr.
  - by intros (sc & at1 & au & at2 & pa & qu & at3 & fr & -> & -> & -> & -> & -> & ->).
Qed.

Lemma starts_after_path r : starts_in (bs "?#") (after_path r).
Proof.
  unfold after_path. destruct (r_query r); [cbn; by left|]. destruct (r_fragment r); [cbn; right; by left|done].
Qed.

Lemma no_slashes pa r : take 2 pa <> bs "//" -> take 2 (pa ++ after_path r) <> bs "//".
Proof.
  intros H Ht. apply H. pose proof (starts_after_path r) as Hs. destruct (after_path r) as [|b l]; [by rewrite app_nil_r in Ht|].
  destruct pa as [|x [|y pa]]; cbn in Ht |- *; [injection Ht as -> _|injection Ht as _ ->|done]; apply list_elem_of_In in Hs; cbn in Hs; lia.
Qed.

Lemma spans_complete r : reference_ok r -> parse (reference_text r) = Ok (spans r).
Proof.
  destruct r as [sc au pa qu fr]. unfold reference_ok, reference_text. cbn [r_scheme r_authority r_path r_query r_fragment].
  intros (Hsc & Hau & Hpa & Hqu & Hfr & Hjoin). set (r := MkReference sc au pa qu fr) in *.
  set (p1 := opt_text (fun s => s ++ bs ":") sc). set (p2 := p1 ++ opt_text (fun a => bs "//" ++ a) au).
  set (p3 := p2 ++ pa). set (p4 := p3 ++ opt_text (fun q => bs "?" ++ q) qu).
  assert (p1 ++ hierarchy r = p2 ++ pa ++ after_path r) as E2 by (subst p2; by rewrite <- app_assoc).
  assert (p1 ++ hierarchy r = p3 ++ after_path r) as E3 by (rewrite E2; subst p3; by rewrite <- app_assoc).
  assert (p1 ++ hierarchy r = p4 ++ opt_text (fun f => bs "#" ++ f) fr) as E4 by (rewrite E3; subst p4; by rewrite <- app_assoc).
  apply parse_stages. exists (scheme (spans r)), (length p1), (authority (spans r)), (length p2), (path (spans r)), (query (spans r)), (length p4), (fragment (spans r)).
  assert (length p1 = match sc with Some s => S (length s) | None => 0%nat end) as L1
    by (subst p1; destruct sc as [s|]; cbn; [rewrite length_app; cbn; lia|done]).
  assert (length p2 = match au with Some a => (length p1 + 2 + length a)%nat | None => length p1 end) as L2
    by (subst p2; rewrite length_app; destruct au as [a|]; cbn; lia).
  assert (length p3 = (length p2 + length pa)%nat) as L3 by (subst p3; by rewrite length_app).
  assert (length p4 = match qu with Some x => (length p3 + 1 + length x)%nat | None => length p3 end) as L4
    by (subst p4; rewrite length_app; destruct qu as [x|]; cbn; lia).
  unfold spans. cbn [r scheme authority path query fragment r_scheme r_authority r_path r_query r_fragment snd].
  rewrite <- L1, <- L2, <- L3, <- L4.
  split; [|split; [|split; [|split; [|split; [|done]]]]].
  - apply scheme_iff. destruct sc as [s|]; [right; exists s, (hierarchy r)|by left].
    split; [subst p1; cbn; by rewrite <- app_assoc|]. split; [done|]. split; [done|exact L1].
  - apply authority_iff. destruct au as [a|].
    + right. exists a, (pa ++ after_path r). split; [unfold hierarchy; subst r; cbn [r_authority opt_text from_option r_path]; by rewrite <- app_assoc|].
      split; [done|]. split; [|by rewrite L2]. destruct pa as [|b pa]; [|destruct Hjoin as [|[= ->]]; [done|by left]].
      pose proof (starts_after_path r) as H. destruct (after_path r); [done|]. cbn [app starts_in] in *. right. exact H.
    + left. split; [done|]. split; [exact L2|]. unfold hierarchy. subst r. cbn [r_authority opt_text from_option r_path app].
      by apply no_slashes.
  - rewrite E2. apply path_iff. exists pa, (after_path r). split; [done|]. split; [done|]. split; [apply starts_after_path|]. split; [by rewrite L3|].
    intros Hau'. destruct au; [done|]. by apply no_slashes.
  - rewrite E3. apply query_iff. destruct qu as [x|].
    + right. exists x, (opt_text (fun f => bs "#" ++ f) fr). split; [unfold after_path; subst r; cbn; done|]. split; [done|].
      split; [|by rewrite L4]. destruct fr; [by left|done].
    + left. split; [done|]. split; [exact L4|]. unfold after_path. subst r. cbn. by destruct fr.
  - rewrite E4. apply fragment_iff. destruct fr as [x|]; [right; by exists x|by left].
Qed.

Lemma head_app_None {A} (l m : list A) : head (l ++ m) = None -> l = [].
Proof. by destruct l. Qed.

(** A tail that starts at a delimiter ends with what the last stages read. *)
Lemma query_sound pre t qu at3 fr : starts_in (bs "?#") t ->
  parse_query (pre ++ t) (length pre) = Ok (qu, at3) -> parse_fragment (pre ++ t) at3 = Ok fr ->
  exists q f, t = opt_text (fun q => bs "?" ++ q) q ++ opt_text (fun f => bs "#" ++ f) f /\
    optional (component is_query_byte) q /\ optional (component is_query_byte) f /\
    qu = (fun x => (length pre + 1, length pre + 1 + length x)%nat) <$> q /\
    fr = (fun x => (at3 + 1, at3 + 1 + length x)%nat) <$> f /\
    at3 = match q with Some x => (length pre + 1 + length x)%nat | None => length pre end.
Proof.
  intros Ht Hq Hf. apply query_iff in Hq as [(-> & -> & Hno)|(x & t' & -> & Hx & Ht' & -> & ->)].
  - apply fragment_iff in Hf as [(-> & Hno')|(y & -> & Hy & ->)]; [exists None, None | by exists None, (Some y)].
    destruct t as [|b t]; [done|]. exfalso. apply list_elem_of_In in Ht. cbn in Ht, Hno, Hno'.
    destruct Ht as [<-|[<-|[]]]; [by apply Hno|by apply Hno'].
  - change (pre ++ 63 :: x ++ t') with (pre ++ ([63] ++ x) ++ t') in Hf. rewrite app_assoc in Hf.
    assert (length (pre ++ [63] ++ x) = (length pre + 1 + length x)%nat) as Hl by (rewrite !length_app; cbn; lia).
    rewrite <- Hl in Hf. apply fragment_iff in Hf as [(-> & Hno')|(y & -> & Hy & ->)].
    + exists (Some x), None. split; [|done]. destruct t' as [|b t']; [cbn; by rewrite app_nil_r|].
      apply list_elem_of_In in Ht'. cbn in Ht'. destruct Ht' as [<-|[]]. done.
    + exists (Some x), (Some y). cbn [fmap option_fmap option_map]. by rewrite Hl.
Qed.

Lemma spans_sound input c : parse input = Ok c -> exists r, reference_ok r /\ input = reference_text r /\ c = spans r.
Proof.
  intros (sc & at1 & au & at2 & pa & qu & at3 & fr & H1 & H2 & H3 & H4 & H5 & ->)%parse_stages.
  assert (exists s t, input = opt_text (fun s => s ++ bs ":") s ++ t /\ match s with Some s => scheme_ok s | None => no_scheme t end /\
    sc = (fun s => (0%nat, length s)) <$> s /\ at1 = length (opt_text (fun s => s ++ bs ":") s)) as (s & t & -> & Hs & -> & ->).
  { apply scheme_iff in H1 as [(-> & -> & Hn)|(s & t & -> & Hs & -> & ->)]; [by exists None, input|].
    exists (Some s), t. cbn. rewrite <- app_assoc, length_app. cbn. repeat split; [done|lia]. }
  set (p1 := opt_text (fun s => s ++ bs ":") s) in *.
  assert (exists a t', t = opt_text (fun a => bs "//" ++ a) a ++ t' /\ optional (component is_authority_byte) a /\
    match a with Some _ => starts_in (bs "/?#") t' | None => take 2 t' <> bs "//" end /\
    au = (fun a => (length p1 + 2, length p1 + 2 + length a)%nat) <$> a /\
    at2 = length (p1 ++ opt_text (fun a => bs "//" ++ a) a)) as (a & t' & -> & Ha & Hj & -> & ->).
  { apply authority_iff in H2 as [(-> & -> & Hn)|(a & t' & -> & Ha & Ht' & -> & ->)].
    - exists None, t. cbn. by rewrite app_nil_r.
    - exists (Some a), t'. cbn. split; [done|]. split; [done|]. split; [done|]. split; [done|]. rewrite length_app. cbn. lia. }
  set (a1 := opt_text (fun a => bs "//" ++ a) a) in *. rewrite app_assoc in H3, H4, H5.
  apply path_iff in H3 as (p & t & -> & Hp & Ht & -> & Hno). cbn [snd] in H4.
  replace (length (p1 ++ a1) + length p)%nat with (length ((p1 ++ a1) ++ p)) in * by (by rewrite length_app).
  rewrite app_assoc in H4, H5. destruct (query_sound _ _ _ _ _ Ht H4 H5) as (q & f & -> & Hq & Hf & -> & -> & ->).
  exists (MkReference s a p q f). split; [|split].
  - unfold reference_ok. cbn [r_scheme r_authority r_path r_query r_fragment]. split; [exact Hs|]. do 4 (split; [done|]).
    destruct a as [a|].
    + destruct p as [|b p]; [by left|right]. apply list_elem_of_In in Hj. cbn [In bs] in Hj. cbn. f_equal.
      pose proof (path_free _ Hp) as Hfree. apply Forall_cons in Hfree as [Hb _]. cbn in Hj. destruct Hj as [<-|[<-|[<-|[]]]]; [done|..];
        exfalso; apply Hb, list_elem_of_In; cbn; auto.
    + intros Htake. apply (Hno eq_refl). destruct p as [|x [|y p]]; try discriminate Htake. exact Htake.
  - done.
  - unfold spans. cbn [r_scheme r_authority r_path r_query r_fragment].
    assert (length p1 = match s with Some s => S (length s) | None => 0%nat end) as L1
      by (subst p1; destruct s as [s|]; cbn; [rewrite length_app; cbn; lia|done]).
    rewrite <- L1.
    assert (length (p1 ++ a1) = match a with Some a => (length p1 + 2 + length a)%nat | None => length p1 end) as L2
      by (subst a1; rewrite length_app; destruct a as [a|]; cbn; lia).
    rewrite <- L2. by rewrite (length_app (p1 ++ a1) p).
Qed.

(** C34. A reference is split exactly as the grammar of RFC 3986 says: the parser accepts a
    text when, and only when, it is a scheme, an authority, a path, a query and a fragment,
    each but the path optional, with their delimiters and the characters and triplets each
    may have, where a path after an authority is empty or starts with a slash, one without
    does not start with two, and a text without a scheme has no colon in its first segment;
    the answer is where these components are, so they are determined by the text. *)
Theorem reference_grammar input c :
  parse input = Ok c <-> exists r, reference_ok r /\ input = reference_text r /\ c = spans r.
Proof.
  split; [apply spans_sound|]. intros (r & Hr & -> & ->). by apply spans_complete.
Qed.
