(* ===== verification/Qs.v ===== *)
(** * Query strings

    [zero-qs/src/lib.rs]: the pairs of a query string or form body, as the URL Standard
    decodes them.  A [String] is octets that are UTF-8. *)
From S2P Require Import Prelude Scalar Utf8 Uri.

(** [rest] is [None] once the last sequence was taken. *)
Record Pairs : Type := MkPairs { rest : option bytes }.

Definition parse (input : bytes) : Pairs := MkPairs (Some input).

(** One turn of the loop of [next_raw]: the sequence before the next ampersand. *)
Definition sequence (rest : bytes) : bytes * option bytes :=
  match position (fun byte => byte =? 38) rest with
  | Some at_ => (take at_ rest, Some (drop (S at_) rest))
  | None => (rest, None)
  end.

Definition split_pair (sequence : bytes) : bytes * bytes :=
  match position (fun byte => byte =? 61) sequence with
  | Some at_ => (take at_ sequence, drop (S at_) sequence)
  | None => (sequence, [])
  end.

(** A turn that goes on leaves fewer octets. *)
Fixpoint next_loop (fuel : nat) (self : Pairs) : Pairs * option (bytes * bytes) :=
  match fuel, rest self with
  | O, _ | _, None => (self, None)
  | S fuel, Some rest =>
      let '(seq, after) := sequence rest in
      let self := MkPairs after in
      if bool_decide (seq = []) then next_loop fuel self else (self, Some (split_pair seq))
  end.
Definition octets_left (self : Pairs) : nat := match rest self with Some rest => S (length rest) | None => O end.
Definition next_raw (self : Pairs) : Pairs * option (bytes * bytes) := next_loop (octets_left self) self.

(** ** Decoding *)

(** [String::from_utf8_lossy]: the validator of the standard library answers the valid
    prefix and the length of the invalid sequence after it, none at the end. *)
Definition REPLACEMENT : bytes := [0xef; 0xbf; 0xbd].
Fixpoint lossy (fuel : nat) (input : bytes) : bytes :=
  match fuel with
  | O => []
  | S fuel =>
      match Utf8.validate_utf8 input with
      | Ok _ => input
      | Err e =>
          take (Utf8.valid_up_to e) input ++ REPLACEMENT
          ++ match Utf8.error_len e with
             | Some n => lossy fuel (drop (Utf8.valid_up_to e + n) input)
             | None => []
             end
      end
  end.
Definition from_utf8_lossy (input : bytes) : bytes := lossy (S (length input)) input.

Fixpoint decode_loop (fuel : nat) (input : bytes) (at_ : nat) (out : bytes) : bytes :=
  match fuel, input !! at_ with
  | O, _ | _, None => out
  | S fuel, Some byte =>
      if byte =? 43 then decode_loop fuel input (at_ + 1) (out ++ [32])
      else if byte =? 37 then
        match input !! (at_ + 1)%nat ≫= hex_value, input !! (at_ + 2)%nat ≫= hex_value with
        | Some high, Some low_ => decode_loop fuel input (at_ + 3) (out ++ [Z.lor (low8 (Z.shiftl high 4)) low_])
        | _, _ => decode_loop fuel input (at_ + 1) (out ++ [37])
        end
      else decode_loop fuel input (at_ + 1) (out ++ [byte])
  end.
Definition decode (input : bytes) : bytes := from_utf8_lossy (decode_loop (length input) input 0 []).

Definition next_pair (self : Pairs) : Pairs * option (bytes * bytes) :=
  match next_raw self with
  | (self, Some (name, value)) => (self, Some (decode name, decode value))
  | (self, None) => (self, None)
  end.

(** [take(max_pairs).collect()]; a pair takes an octet or more. *)
Fixpoint collect (max_pairs : nat) (self : Pairs) : list (bytes * bytes) :=
  match max_pairs with
  | O => []
  | S max_pairs => match next_pair self with (self, Some found) => found :: collect max_pairs self | (_, None) => [] end
  end.
Definition parse_all (input : bytes) (max_pairs : nat) : list (bytes * bytes) := collect max_pairs (parse input).

Fixpoint find_pair (fuel : nat) (self : Pairs) (name : bytes) : option bytes :=
  match fuel with
  | O => None
  | S fuel =>
      match next_pair self with
      | (self, Some (found, value)) => if bool_decide (found = name) then Some value else find_pair fuel self name
      | (_, None) => None
      end
  end.
Definition get (input name : bytes) : option bytes := find_pair (S (octets_left (parse input))) (parse input) name.

Example query_examples :
  (parse_all (bs "a=1&&b=x+y%20z&c&=d&e=%zz%E2%82%AC%ff") 9, get (bs "a=1&a=2") (bs "a"), parse_all (bs "a&b&c") 2)
  = ([(bs "a", bs "1"); (bs "b", bs "x y z"); (bs "c", []); ([], bs "d");
      (bs "e", bs "%zz" ++ [0xe2; 0x82; 0xac] ++ REPLACEMENT)], Some (bs "1"), [(bs "a", []); (bs "b", [])]).
Proof. vm_compute. reflexivity. Qed.

(** ** Pairs *)

Definition sequences (input : bytes) : list bytes :=
  filter (fun s => s <> []) (split_on (fun byte => byte =? 38) input).
Definition decoded (seq : bytes) : bytes * bytes := let '(name, value) := split_pair seq in (decode name, decode value).

(** The sequences that an iterator has left. *)
Definition left_over (self : Pairs) : list bytes := match rest self with Some rest => sequences rest | None => [] end.

Lemma sequence_split input :
  let '(seq, after) := sequence input in
  sequences input = (if bool_decide (seq = []) then [] else [seq]) ++ left_over (MkPairs after) /\
  (octets_left (MkPairs after) < octets_left (MkPairs (Some input)))%nat.
Proof.
  unfold sequence, sequences, left_over, octets_left. cbn [rest].
  destruct (position (fun byte => byte =? 38) input) as [i|] eqn:Hp.
  - pose proof (position_lt _ _ _ Hp) as Hi. apply position_Some in Hp as (b & Hb & Hf & Hall). split; [|rewrite length_drop; lia].
    rewrite <- (take_drop_middle input i b Hb) at 1. rewrite split_on_sep by done. rewrite filter_cons.
    destruct (bool_decide_reflect (take i input = [])); [by rewrite decide_False by tauto|by rewrite decide_True].
  - apply position_None in Hp. split; [|lia]. rewrite <- (app_nil_r input) at 1. rewrite split_on_app by done. cbn [split_on].
    rewrite app_nil_r, filter_cons. destruct (bool_decide_reflect (input = [])); [by rewrite decide_False by tauto|by rewrite decide_True].
Qed.

Lemma next_loop_spec fuel : forall self, (octets_left self <= fuel)%nat ->
  match next_loop fuel self with
  | (self', Some found) => exists seq, left_over self = seq :: left_over self' /\ found = split_pair seq /\ (octets_left self' < octets_left self)%nat
  | (_, None) => left_over self = []
  end.
Proof.
  induction fuel as [|fuel IH]; intros [[input|]] Hf; cbn [next_loop rest]; try done; [cbn in Hf; lia|].
  pose proof (sequence_split input) as H. destruct (sequence input) as [seq after]. destruct H as [Hs Hl].
  change (left_over (MkPairs (Some input))) with (sequences input). rewrite Hs.
  destruct (bool_decide_reflect (seq = [])) as [->|Hne]; [|by exists seq].
  specialize (IH (MkPairs after) ltac:(lia)). destruct (next_loop fuel (MkPairs after)) as [self' [found|]]; [|done].
  destruct IH as (s & H1 & H2 & H3). exists s. split; [done|]. split; [done|lia].
Qed.

Lemma next_pair_spec self :
  match next_pair self with
  | (self', Some found) => exists seq, left_over self = seq :: left_over self' /\ found = decoded seq /\ (octets_left self' < octets_left self)%nat
  | (_, None) => left_over self = []
  end.
Proof.
  unfold next_pair, next_raw. pose proof (next_loop_spec _ self (Nat.le_refl _)) as H.
  destruct (next_loop (octets_left self) self) as [self' [[name value]|]]; [|done].
  destruct H as (seq & H1 & H2 & H3). exists seq. split; [done|]. split; [|done]. unfold decoded. by rewrite <- H2.
Qed.

Lemma collect_spec n : forall self, collect n self = take n (decoded <$> left_over self).
Proof.
  induction n as [|n IH]; intros self; [done|]. cbn [collect]. pose proof (next_pair_spec self) as H.
  destruct (next_pair self) as [self' [found|]]; [|by rewrite H].
  destruct H as (seq & -> & -> & _). cbn [fmap list_fmap take]. f_equal. apply IH.
Qed.

Lemma find_pair_spec name fuel : forall self, (octets_left self < fuel)%nat ->
  find_pair fuel self name = snd <$> head (filter (fun found => found.1 = name) (decoded <$> left_over self)).
Proof.
  induction fuel as [|fuel IH]; intros self Hf; [lia|]. cbn [find_pair]. pose proof (next_pair_spec self) as H.
  destruct (next_pair self) as [self' [[found value]|]]; [|by rewrite H].
  destruct H as (seq & -> & Hd & Hl). cbn [fmap list_fmap]. rewrite <- Hd, filter_cons. cbn [fst].
  destruct (bool_decide_reflect (found = name)); [by rewrite decide_True|]. rewrite decide_False by done. apply IH. lia.
Qed.

(** ** Decoding *)

Lemma lossy_utf8 l : utf8 l -> octets l -> from_utf8_lossy l = l.
Proof.
  intros Hl Ho. apply from_utf8_spec in Hl; [|done]. unfold from_utf8_lossy. cbn [lossy]. unfold from_utf8 in Hl.
  by destruct (Utf8.validate_utf8 l).
Qed.

(** The serializer of the URL Standard: what is not a letter, a digit or one of four marks
    is a triplet, a space a plus. *)
Definition form_octet (b : Z) : bytes :=
  if is_alpha b || is_digit b || bool_decide (b ∈ bs "*-._") then [b]
  else if b =? 32 then [43]
  else [37; upper_hex (b / 16); upper_hex (b mod 16)].
Definition form_text (l : bytes) : bytes := mbind form_octet l.
Definition form_pair (p : bytes * bytes) : bytes := form_text p.1 ++ [61] ++ form_text p.2.
Fixpoint form (pairs : list (bytes * bytes)) : bytes :=
  match pairs with
  | [] => []
  | [p] => form_pair p
  | p :: pairs => form_pair p ++ [38] ++ form pairs
  end.

Lemma form_octet_cases b : u8 b ->
  (form_octet b = [b] /\ b <> 37 /\ b <> 43 /\ b <> 38 /\ b <> 61) \/ (form_octet b = [43] /\ b = 32) \/
  (form_octet b = [37; upper_hex (b / 16); upper_hex (b mod 16)]).
Proof.
  intros Hb. unfold form_octet. destruct (is_alpha b || is_digit b || _) eqn:Ha.
  - left. split; [done|]. repeat split; intros ->; vm_compute in Ha; discriminate.
  - destruct (Z.eqb_spec b 32); [right; by left|by right; right].
Qed.

Lemma decode_form l : octets l -> forall fuel input before out, input = before ++ form_text l ->
  (length (form_text l) <= fuel)%nat -> decode_loop fuel input (length before) out = out ++ l.
Proof.
  induction 1 as [|b l Hb _ IH]; intros fuel input before out -> Hf; unfold form_text in *; cbn [mbind list_bind] in *.
  - rewrite (app_nil_r out). destruct fuel; cbn [decode_loop]; [done|]. by rewrite cursor.
  - specialize (IH (pred fuel) ((before ++ form_octet b) ++ mbind form_octet l) (before ++ form_octet b) (out ++ [b]) eq_refl).
    rewrite <- !app_assoc in IH. rewrite length_app in IH, Hf.
    destruct (form_octet_cases b Hb) as [(Heq & H37 & H43 & _)|[(Heq & ->)|Heq]]; rewrite Heq in *; cbn [length app] in *;
      (destruct fuel as [|fuel]; [lia|]); cbn [decode_loop pred] in *; rewrite cursor; cbn [head].
    + rewrite (proj2 (Z.eqb_neq b 43)), (proj2 (Z.eqb_neq b 37)) by done. apply IH. lia.
    + apply IH. lia.
    + cbn [Z.eqb Pos.eqb].
      assert (forall k, (before ++ 37 :: upper_hex (b / 16) :: upper_hex (b mod 16) :: mbind form_octet l) !! (length before + k)%nat
        = (37 :: upper_hex (b / 16) :: upper_hex (b mod 16) :: mbind form_octet l) !! k) as Hk
        by (intros k; rewrite lookup_app_r by lia; f_equal; lia).
      rewrite !Hk. cbn [lookup list_lookup mbind option_bind].
      assert (0 <= b / 16 < 16 /\ 0 <= b mod 16 < 16) as [Hh Hl] by (unfold word in Hb; pow2; Z.to_euclidean_division_equations; lia).
      destruct (upper_hex_facts _ Hh) as ([-> _]%is_hex_value & -> & _). destruct (upper_hex_facts _ Hl) as ([-> _]%is_hex_value & -> & _).
      unfold low8. rewrite Z.shiftl_mul_pow2 by lia. change (2 ^ 4) with 16. rewrite (Z.mod_small (b / 16 * 16)) by lia.
      pose proof (lor_tag (b mod 16) (b / 16) 4 ltac:(lia) ltac:(pow2; lia)) as Hlor. rewrite Z.lor_comm in Hlor.
      change (2 ^ 4) with 16 in Hlor. rewrite Hlor. replace (b mod 16 + b / 16 * 16) with b by (Z.to_euclidean_division_equations; lia).
      apply IH. lia.
Qed.

Lemma form_text_plain l : octets l -> Forall (fun b => b <> 38 /\ b <> 61) (form_text l).
Proof.
  induction 1 as [|b l Hb _ IH]; [constructor|]. unfold form_text in *. cbn [mbind list_bind]. apply Forall_app_2; [|exact IH].
  destruct (form_octet_cases b Hb) as [(-> & _ & _ & H38 & H61)|[(-> & _)| ->]]; [by repeat constructor|by repeat constructor|].
  assert (0 <= b / 16 < 16 /\ 0 <= b mod 16 < 16) as [Hh Hl] by (unfold word in Hb; pow2; Z.to_euclidean_division_equations; lia).
  destruct (upper_hex_facts _ Hh) as (H1%is_hex_range & _). destruct (upper_hex_facts _ Hl) as (H2 & _).
  destruct (upper_hex_facts _ Hh) as (H3 & _).
  assert (forall b, is_hex b = true -> b <> 38 /\ b <> 61) as Hhex by (intros c Hc; split; intros ->; vm_compute in Hc; discriminate).
  repeat apply Forall_cons_2; try apply Forall_nil_2; [done|by apply Hhex|by apply Hhex].
Qed.

Lemma decode_form_text l : utf8 l -> octets l -> decode (form_text l) = l.
Proof.
  intros Hl Ho. unfold decode. pose proof (decode_form l Ho (length (form_text l)) (form_text l) [] [] eq_refl (Nat.le_refl _)) as H.
  cbn [length app] in H. rewrite H. by apply lossy_utf8.
Qed.

Definition text_pair (p : bytes * bytes) : Prop := utf8 p.1 /\ utf8 p.2 /\ octets p.1 /\ octets p.2.

Lemma form_pair_plain p : text_pair p -> Forall (fun b => (b =? 38) = false) (form_pair p) /\ form_pair p <> [].
Proof.
  intros (_ & _ & H1%form_text_plain & H2%form_text_plain). split; [|unfold form_pair; by destruct (form_text p.1)].
  apply Forall_app_2; [|apply Forall_app_2; [by repeat constructor|]]; (eapply Forall_impl; [eassumption|]); intros b [Hb _]; by apply Z.eqb_neq.
Qed.

Lemma decoded_form_pair p : text_pair p -> decoded (form_pair p) = p.
Proof.
  intros (H1 & H2 & H3 & H4). unfold decoded, split_pair, form_pair. pose proof (form_text_plain _ H3) as Hp.
  assert (position (fun byte => byte =? 61) (form_text p.1 ++ [61] ++ form_text p.2) = Some (length (form_text p.1))) as ->.
  { apply position_Some. exists 61. rewrite cursor. split; [done|]. split; [done|]. rewrite take_app_length.
    eapply Forall_impl; [exact Hp|]. intros b [_ Hb]. by apply Z.eqb_neq. }
  rewrite take_app_length, app_assoc. rewrite drop_app_length' by (rewrite length_app; cbn; lia).
  rewrite !decode_form_text by done. by destruct p.
Qed.

Lemma sequences_form pairs : Forall text_pair pairs -> sequences (form pairs) = form_pair <$> pairs.
Proof.
  induction 1 as [|p pairs Hp Hpairs IH]; [done|]. destruct (form_pair_plain p Hp) as [Hplain Hne]. unfold sequences in *.
  assert (sequences (form_pair p) = [form_pair p]) as Hone.
  { unfold sequences. rewrite <- (app_nil_r (form_pair p)) at 1. rewrite split_on_app by done. cbn [split_on].
    rewrite app_nil_r, filter_cons, decide_True by done. done. }
  destruct pairs as [|p' pairs]; [exact Hone|].
  change (form (p :: p' :: pairs)) with (form_pair p ++ 38 :: form (p' :: pairs)). rewrite split_on_sep by done.
  rewrite filter_cons, decide_True by done. rewrite IH. done.
Qed.

(** A query string is read as the URL Standard says: the pairs are those of the
    nonempty sequences between ampersands, in order, each split at its first equals sign
    and decoded, as many as were asked for, and a lookup answers the value of the first
    pair whose decoded name it is; every turn of the iterator leaves fewer octets, so it
    ends. *)
Theorem query_pairs input max_pairs name :
  parse_all input max_pairs = take max_pairs (decoded <$> sequences input) /\
  get input name = snd <$> head (filter (fun found => found.1 = name) (decoded <$> sequences input)) /\
  forall self, (octets_left (next_pair self).1 < octets_left self)%nat \/ (next_pair self).2 = None.
Proof.
  split; [|split].
  - unfold parse_all. rewrite collect_spec. done.
  - unfold get. rewrite find_pair_spec; [done|lia].
  - intros self. pose proof (next_pair_spec self) as H. destruct (next_pair self) as [self' [found|]]; [left|by right].
    by destruct H as (_ & _ & _ & H).
Qed.

(** C35. What a form sends is what the handler reads: any list of pairs of texts, written by
    the serializer of the URL Standard, whatever octets they hold, is parsed back to the
    same pairs. *)
Theorem form_roundtrip pairs max_pairs (Hp : Forall text_pair pairs) :
  parse_all (form pairs) max_pairs = take max_pairs pairs.
Proof.
  unfold parse_all. rewrite collect_spec. cbn [left_over parse rest]. rewrite sequences_form by done. f_equal.
  induction Hp as [|p pairs Hp Hpairs IH]; [done|]. cbn [fmap list_fmap]. by rewrite decoded_form_pair, IH.
Qed.

Lemma form_roundtrip_witness :
  parse_all (form [(bs "a&b", bs "1 + 1 = 2%"); (bs "", [0xe2; 0x82; 0xac])]) 5 = [(bs "a&b", bs "1 + 1 = 2%"); (bs "", [0xe2; 0x82; 0xac])].
Proof.
  apply (form_roundtrip [(bs "a&b", bs "1 + 1 = 2%"); (bs "", [0xe2; 0x82; 0xac])] 5).
  assert (forall l, bool_decide (octets l) = true -> from_utf8 l = true -> utf8 l /\ octets l) as H.
  { intros l Ho%bool_decide_eq_true Hu. split; [by apply from_utf8_spec|done]. }
  assert (forall a b, bool_decide (octets a) = true -> from_utf8 a = true -> bool_decide (octets b) = true -> from_utf8 b = true -> text_pair (a, b)) as Hpair
    by (intros a b Ha Ha' Hb Hb'; destruct (H a Ha Ha'), (H b Hb Hb'); done).
  repeat apply Forall_cons_2; try apply Forall_nil_2; apply Hpair; vm_compute; reflexivity.
Defined.
