(* ===== verification/HttpError.v ===== *)
(** * Error answers

    [zero-http/src/error.rs]: the registry of statuses and codes, and the two JSON shapes
    an error is answered in. *)
From S2P Require Import Prelude Core HttpTypes Date.

Definition PROBLEM_MEDIA_TYPE : bytes := bs "application/problem+json".
Definition LEGACY_MEDIA_TYPE : bytes := bs "application/json".

Inductive ErrorShape : Type := ProblemShape | LegacyShape.

Definition media_type (self : ErrorShape) : bytes :=
  match self with ProblemShape => PROBLEM_MEDIA_TYPE | LegacyShape => LEGACY_MEDIA_TYPE end.
Definition content_type_line (self : ErrorShape) : bytes :=
  match self with
  | ProblemShape => bs "Content-Type: application/problem+json" ++ [13; 10]
  | LegacyShape => bs "Content-Type: application/json" ++ [13; 10]
  end.

Definition reason (status : StatusCode) : bytes := bs (default "Error"%string (canonical_reason status)).

Definition REGISTRY : list (string * StatusCode) := [
  ("protocol", BAD_REQUEST);
  ("codec", BAD_REQUEST);
  ("auth", UNAUTHORIZED);
  ("limit", CONTENT_TOO_LARGE);
  ("internal", INTERNAL_SERVER_ERROR);
  ("io", INTERNAL_SERVER_ERROR);
  ("panic", INTERNAL_SERVER_ERROR);
  ("unsupported", NOT_IMPLEMENTED);
  ("closed", SERVICE_UNAVAILABLE);
  ("timeout", SERVICE_UNAVAILABLE);
  ("upstream_timeout", GATEWAY_TIMEOUT);
  ("not_found", NOT_FOUND);
  ("method_not_allowed", METHOD_NOT_ALLOWED);
  ("not_implemented", NOT_IMPLEMENTED);
  ("target", BAD_REQUEST);
  ("uri", BAD_REQUEST);
  ("misdirected", MISDIRECTED_REQUEST)
]%string.

Definition UPSTREAM : string := "upstream".

Definition status_for (error : Error) : StatusCode :=
  match error with
  | Protocol _ | Codec _ => BAD_REQUEST
  | Auth _ => UNAUTHORIZED
  | Limit _ => CONTENT_TOO_LARGE
  | Io _ => INTERNAL_SERVER_ERROR
  | Unsupported _ => NOT_IMPLEMENTED
  | Closed => SERVICE_UNAVAILABLE
  | Timeout operation => if bool_decide (operation = UPSTREAM) then GATEWAY_TIMEOUT else SERVICE_UNAVAILABLE
  end.

Definition code_for (error : Error) : string :=
  match error with
  | Protocol _ => "protocol"
  | Codec _ => "codec"
  | Auth _ => "auth"
  | Limit _ => "limit"
  | Io _ => "io"
  | Unsupported _ => "unsupported"
  | Closed => "closed"
  | Timeout operation => if bool_decide (operation = UPSTREAM) then "upstream_timeout" else "timeout"
  end.

Record Problem : Type := MkProblem {
  status : StatusCode;
  code : string;
  detail : option string;
}.

Definition Problem_new (status : StatusCode) (code : string) : Problem := MkProblem status code None.
Definition from_error (error : Error) : Problem :=
  MkProblem (status_for error) (code_for error)
    match error with
    | Protocol message | Codec message | Limit message => Some message
    | _ => None
    end.
Definition panicked : Problem := Problem_new INTERNAL_SERVER_ERROR "panic".
Definition title (self : Problem) : option string := canonical_reason (status self).

(** ** JSON text *)

Definition hex_digit (n : Z) : Z := if n <? 10 then 0x30 + n else 0x61 + (n - 10).

Definition escaped (byte : Z) : bytes :=
  if byte =? 0x22 then bs "\" ++ [0x22]
  else if byte =? 0x5C then bs "\\"
  else if byte =? 0x0A then bs "\n"
  else if byte =? 0x0D then bs "\r"
  else if byte =? 0x09 then bs "\t"
  else if byte <=? 0x1F then bs "\u00" ++ [hex_digit (byte / 16); hex_digit (byte mod 16)]
  else [byte].

Definition write_string (out text : bytes) : bytes := out ++ [0x22] ++ mbind escaped text ++ [0x22].

(** A name of a member as the literals write it. *)
Definition quoted (name : string) : bytes := [0x22] ++ bs name ++ [0x22].

Definition write_problem (out : bytes) (status : StatusCode) (code : bytes) (detail details : option bytes) : bytes :=
  let out := out ++ bs "{" ++ quoted "type" ++ bs ":" ++ quoted "about:blank" in
  let out :=
    match canonical_reason status with
    | Some title => write_string (out ++ bs "," ++ quoted "title" ++ bs ":") (bs title)
    | None => out
    end in
  let out := out ++ bs "," ++ quoted "status" ++ bs ":" ++ decimal_text status in
  let out := write_string (out ++ bs "," ++ quoted "code" ++ bs ":") code in
  let out :=
    match detail with
    | Some detail => write_string (out ++ bs "," ++ quoted "detail" ++ bs ":") detail
    | None => out
    end in
  let out :=
    match details with
    | Some details => out ++ bs "," ++ quoted "details" ++ bs ":" ++ details
    | None => out
    end in
  out ++ bs "}".

Definition write_json (self : Problem) (out : bytes) : bytes :=
  write_problem out (status self) (bs (code self)) (bs <$> detail self) None.

Definition write_body (self : Problem) (shape : ErrorShape) (out : bytes) : bytes :=
  match shape with
  | ProblemShape => write_json self out
  | LegacyShape =>
      let out := write_string (out ++ bs "{" ++ quoted "error" ++ bs ":") (reason (status self)) in
      let out :=
        match detail self with
        | Some detail => write_string (out ++ bs "," ++ quoted "message" ++ bs ":") (bs detail)
        | None => out
        end in
      out ++ bs "}"
  end.

Definition error_status (status : StatusCode) : StatusCode :=
  if 400 <=? status then status else INTERNAL_SERVER_ERROR.

Definition write_host_error (shape : ErrorShape) (status : StatusCode) (code : bytes) (message details : option bytes)
  (out : bytes) : bytes :=
  match shape with
  | ProblemShape => write_problem out status code message details
  | LegacyShape =>
      let out := write_string (out ++ bs "{" ++ quoted "error" ++ bs ":") (default (reason status) message) in
      let out := write_string (out ++ bs "," ++ quoted "code" ++ bs ":") code in
      let out := out ++ bs "," ++ quoted "statusCode" ++ bs ":" ++ decimal_text status in
      let out :=
        match details with
        | Some details => out ++ bs "," ++ quoted "details" ++ bs ":" ++ details
        | None => out
        end in
      out ++ bs "}"
  end.

Example timeout_body :
  write_body (Problem_new SERVICE_UNAVAILABLE "timeout") LegacyShape [] = bs "{" ++ quoted "error" ++ bs ":" ++ quoted "Service Unavailable" ++ bs "}".
Proof. vm_compute. reflexivity. Qed.

(** ** What is written *)

(** The text of a JSON string read back (RFC 8259 Section 7), as far as the writer uses
    the grammar: an escape of two characters, or four hexadecimal digits under 256. *)
Definition hex_of (b : Z) : option Z :=
  if (48 <=? b) && (b <=? 57) then Some (b - 48)
  else if (97 <=? b) && (b <=? 102) then Some (b - 87) else None.

(** What an escape stands for, by the octets after the reverse solidus. *)
Definition read_escape (l : bytes) : option (Z * bytes) :=
  match l with
  | e :: rest =>
      if e =? 0x22 then Some (0x22, rest)
      else if e =? 0x5C then Some (0x5C, rest)
      else if e =? 0x6E then Some (0x0A, rest)
      else if e =? 0x72 then Some (0x0D, rest)
      else if e =? 0x74 then Some (0x09, rest)
      else
        match l with
        | [] | [_] | [_; _] | [_; _; _] | [_; _; _; _] => None
        | u :: z :: y :: high :: low :: rest =>
            if (u =? 0x75) && (z =? 0x30) && (y =? 0x30) then
              let! high := hex_of high in
              let! low := hex_of low in
              Some (high * 16 + low, rest)
            else None
        end
  | [] => None
  end.

(** The string after its opening quotation mark, and the octets after it. *)
Inductive String_text : bytes -> bytes -> bytes -> Prop :=
| string_end rest : String_text (0x22 :: rest) [] rest
| string_plain b l text rest : 0x20 <= b -> b <> 0x22 -> b <> 0x5C ->
    String_text l text rest -> String_text (b :: l) (b :: text) rest
| string_escape e b l text rest : read_escape e = Some (b, l) ->
    String_text l text rest -> String_text (0x5C :: e) (b :: text) rest.

(** At most one text is read from given octets. *)
Lemma string_once l text rest text' rest' :
  String_text l text rest -> String_text l text' rest' -> text = text' /\ rest = rest'.
Proof.
  intros H. revert text' rest'. induction H; intros text' rest' H'; inversion H'; subst; try done; try lia.
  - edestruct IHString_text; [done|]. by subst.
  - match goal with H1 : read_escape ?e = Some _, H2 : read_escape ?e = Some _ |- _ =>
      rewrite H1 in H2; injection H2 as ? ?; subst end.
    edestruct IHString_text; [done|]. by subst.
Qed.

Definition escape_ok (b : Z) : bool :=
  forallb (fun c => 0x20 <=? c) (escaped b) &&
  (if b <=? 0x1F then bool_decide (read_escape (drop 1 (escaped b)) = Some (b, [])) && (hd 0 (escaped b) =? 0x5C) else true).

Lemma escapes_ok : forallb escape_ok (seqZ 0 256) = true.
Proof. vm_compute. reflexivity. Qed.

Lemma read_escape_app e b l m : read_escape e = Some (b, l) -> read_escape (e ++ m) = Some (b, l ++ m).
Proof.
  unfold read_escape. destruct e as [|a e]; [done|]. cbn [app].
  intros H. destruct (a =? 0x22), (a =? 0x5C), (a =? 0x6E), (a =? 0x72), (a =? 0x74); try by simplify_eq.
  do 4 (destruct e as [|? e]; [done|]). cbn [app].
  destruct (_ && _ && _); [|done]. destruct (hex_of _); [|done]. destruct (hex_of _); [|done]. by simplify_eq.
Qed.

Lemma escaped_text b l text rest : u8 b -> String_text l text rest -> String_text (escaped b ++ l) (b :: text) rest.
Proof.
  intros Hb Hl. pose proof (octet_forall _ escapes_ok b Hb) as Hok. unfold escape_ok in Hok.
  apply andb_prop in Hok as [_ Hok]. revert Hok. unfold escaped.
  repeat match goal with |- context [if b =? ?k then _ else _] => destruct (Z.eqb_spec b k) as [->|] end;
    try (intros _; cbn; by eapply string_escape; [reflexivity|]).
  destruct (Z.leb_spec b 0x1F) as [Hc|Hc].
  - intros [Hr%bool_decide_eq_true _]%andb_prop. cbn [drop bs app] in Hr |- *.
    eapply string_escape; [|done]. apply (read_escape_app _ _ [] l) in Hr. exact Hr.
  - intros _. apply string_plain; [lia..|done].
Qed.

Lemma written_text text rest : octets text -> String_text (mbind escaped text ++ [0x22] ++ rest) text rest.
Proof.
  induction 1 as [|b text Hb Ht IH]; [constructor|].
  rewrite bind_cons, <- app_assoc. by apply escaped_text.
Qed.

Lemma escape_is_plain b : u8 b -> Forall (fun c => 0x20 <= c) (escaped b).
Proof.
  intros Hb. pose proof (octet_forall _ escapes_ok b Hb) as Hok. unfold escape_ok in Hok.
  apply andb_prop in Hok as [Hok _]. rewrite forallb_forall in Hok. apply Forall_forall.
  intros c Hc%list_elem_of_In. apply Z.leb_le. by apply Hok.
Qed.

(** ** The objects

    A body is an object: its members in order, each a name and a string, a number or a
    value of the caller. *)

Inductive Value : Type := Text (text : bytes) | Number (n : Z) | Raw (json : bytes).

Definition value_text (v : Value) : bytes :=
  match v with
  | Text text => [0x22] ++ mbind escaped text ++ [0x22]
  | Number n => decimal_text n
  | Raw json => json
  end.
Definition member_text (m : string * Value) : bytes := quoted m.1 ++ bs ":" ++ value_text m.2.
Definition object_text (members : list (string * Value)) : bytes :=
  match members with
  | [] => bs "{}"
  | m :: ms => bs "{" ++ member_text m ++ mbind (fun m => bs "," ++ member_text m) ms ++ bs "}"
  end.

Definition given {A} (f : A -> Value) (name : string) (o : option A) : list (string * Value) :=
  match o with Some a => [(name, f a)] | None => [] end.

Definition problem_members (status : StatusCode) (code : bytes) (detail details : option bytes) : list (string * Value) :=
  ("type"%string, Text (bs "about:blank")) :: given (fun t => Text (bs t)) "title" (canonical_reason status)
  ++ [("status"%string, Number status); ("code"%string, Text code)] ++ given Text "detail" detail
  ++ given Raw "details" details.
Definition legacy_members (status : StatusCode) (detail : option bytes) : list (string * Value) :=
  ("error"%string, Text (reason status)) :: given Text "message" detail.
Definition host_members (shape : ErrorShape) (status : StatusCode) (code : bytes) (message details : option bytes) :=
  match shape with
  | ProblemShape => problem_members status code message details
  | LegacyShape =>
      [("error"%string, Text (default (reason status) message)); ("code"%string, Text code);
       ("statusCode"%string, Number status)] ++ given Raw "details" details
  end.

Lemma write_problem_text out status code detail details :
  write_problem out status code detail details = out ++ object_text (problem_members status code detail details).
Proof.
  unfold write_problem, problem_members, object_text, write_string.
  destruct (canonical_reason status), detail, details; cbn [given app mbind list_bind];
    unfold member_text, value_text; cbn [fst snd];
    change (mbind escaped (bs "about:blank")) with (bs "about:blank"); rewrite <- !app_assoc; cbn [app];
    rewrite ?app_nil_r, <- ?app_assoc; reflexivity.
Qed.

Definition body_members (self : Problem) (shape : ErrorShape) : list (string * Value) :=
  match shape with
  | ProblemShape => problem_members (status self) (bs (code self)) (bs <$> detail self) None
  | LegacyShape => legacy_members (status self) (bs <$> detail self)
  end.

Lemma write_body_text self shape out : write_body self shape out = out ++ object_text (body_members self shape).
Proof.
  destruct shape; [apply write_problem_text|]. destruct self as [st c d]. unfold write_body, body_members, legacy_members, write_string.
  destruct d; cbn [given app mbind list_bind fmap option_fmap option_map status detail]; unfold object_text, member_text, value_text;
    cbn [fst snd mbind list_bind]; rewrite <- ?app_assoc; cbn [app]; rewrite ?app_nil_r, <- ?app_assoc; reflexivity.
Qed.

Lemma write_host_error_text shape status code message details out :
  write_host_error shape status code message details out = out ++ object_text (host_members shape status code message details).
Proof.
  destruct shape; [apply write_problem_text|]. unfold write_host_error, host_members, write_string.
  destruct details; cbn [given app]; unfold object_text, member_text, value_text;
    cbn [fst snd mbind list_bind]; rewrite <- ?app_assoc; cbn [app]; rewrite ?app_nil_r, <- ?app_assoc; reflexivity.
Qed.

Lemma bs_octets s : octets (bs s).
Proof.
  induction s as [|c s IH]; constructor; [|done].
  pose proof (Ascii.N_ascii_bounded c). word_lia.
Qed.

(** An error is answered by its row and nothing more: the code and the status of any
    error of the core are a row of the registry, an error status; the body in either
    shape, the host's too, is one JSON object of the members the shape lists, the
    status among them; a message reaches the client only from the three variants that
    describe the request, with a client error; and any text written in a body, an
    unbroken string of no control octets, is read back as it was, and as nothing else. *)
Theorem error_answered e shape out :
  (code_for e, status_for e) ∈ REGISTRY /\ 400 <= status_for e < 600 /\ error_status (status_for e) = status_for e /\
  write_body (from_error e) shape out = out ++ object_text (body_members (from_error e) shape) /\
  (forall status code message details,
    write_host_error shape status code message details out
    = out ++ object_text (host_members shape status code message details)) /\
  (forall m, detail (from_error e) = Some m ->
    status_for e < 500 /\ (e = Protocol m \/ e = Codec m \/ e = Limit m)) /\
  (forall text rest, octets text ->
    String_text (mbind escaped text ++ [0x22] ++ rest) text rest /\
    (forall text' rest', String_text (mbind escaped text ++ [0x22] ++ rest) text' rest' -> text' = text /\ rest' = rest) /\
    Forall (fun c => 0x20 <= c) (mbind escaped text)).
Proof.
  repeat apply conj.
  - destruct e as [| | | | | |operation|]; cbn [code_for status_for]; try case_bool_decide; apply list_elem_of_In; repeat first [left; reflexivity | right].
  - destruct e as [| | | | | |operation|]; cbn [status_for]; try case_bool_decide; done.
  - destruct e as [| | | | | |operation|]; cbn [status_for]; try case_bool_decide; done.
  - destruct e as [| | | | | |operation|]; cbn [status_for]; try case_bool_decide; done.
  - apply write_body_text.
  - intros. apply write_host_error_text.
  - intros m. destruct e; try done; cbn; intros [= <-]; (split; [reflexivity | naive_solver]).
  - intros text rest Ht. pose proof (written_text text rest Ht) as Hw. repeat apply conj; [done| |].
    + intros text' rest' H'. destruct (string_once _ _ _ _ _ H' Hw); done.
    + clear Hw. induction Ht as [|b text Hb Ht IH]; [constructor|].
      rewrite bind_cons. apply Forall_app_2; [by apply escape_is_plain | done].
Qed.
