(* ===== verification/HttpRecord.v ===== *)
(** * The per-request record

    [zero-http/src/record.rs], with the response body of [exchange.rs] and the claim of
    [takeover.rs]: what a request is made of, what the handler answers, and how both are
    reset.  The parts of the record are grouped by who writes them: the driver
    ([Received]), the router ([Routing]) and the handler ([Answer]). *)
From S2P Require Import Prelude HttpTypes HttpError H1Head.

Definition BODY_KEEP : Z := 65536.
Definition TRAILER_TABLE : nat := 16.
Definition RESPONSE_HEAD_CAPACITY : nat := 4096.

(** The standard library's socket address. *)
Inductive SocketAddr : Type :=
| AddrV4 (ip port : Z)
| AddrV6 (ip port flowinfo scope_id : Z).

Record HostSpan : Type := MkHostSpan { span_start : Z; span_len : Z }.

(** [Miss]: the [Allow] set is the mask it is kept as. *)
Record Miss : Type := MkMiss { miss_status : StatusCode; allow : Z }.

(** An external body is what its [bytes] answers. *)
Inductive ResponseBody : Type := Owned (octets : bytes) | External (octets : bytes).

Definition body_bytes (self : ResponseBody) : bytes := match self with Owned b | External b => b end.
Definition body_len (self : ResponseBody) : nat := match self with Owned b | External b => length b end.
Definition owned_mut (self : ResponseBody) : bytes := match self with Owned b => b | External _ => [] end.
Definition body_clear (self : ResponseBody) : ResponseBody := Owned [].

Inductive TakeOver : Type := Upgrade | Stream.
#[global] Instance TakeOver_eq_dec : EqDecision TakeOver.
Proof. solve_decision. Defined.
Record Claim : Type := MkClaim { kind : TakeOver; token : Z }.

Record Received : Type := MkReceived {
  head : bytes;
  fields : list Field;
  parsed : option Head;
  body : bytes;
  trailers : bytes;
  peer : option SocketAddr;
  secure : bool;
  misdirected : bool;
}.

Record Routing : Type := MkRouting {
  scratch : bytes;
  route_path : bytes;
  params : list HostSpan;
  param_count : nat;
  miss : option Miss;
}.

Record Answer : Type := MkAnswer {
  status : option StatusCode;
  response_fields : bytes;
  response_body : ResponseBody;
  touched : bool;
  response_head : bytes;
  claim : option Claim;
  advertise_upgrade : bool;
}.

Record RequestRecord : Type := MkRecord {
  received : Received;
  routing : Routing;
  charge : Z;
  answer : Answer;
  close : bool;
  continued : bool;
  hold : bool;
}.

Definition with_received (r : RequestRecord) (x : Received) : RequestRecord :=
  MkRecord x (routing r) (charge r) (answer r) (close r) (continued r) (hold r).
Definition with_routing (r : RequestRecord) (x : Routing) : RequestRecord :=
  MkRecord (received r) x (charge r) (answer r) (close r) (continued r) (hold r).
Definition with_charge (r : RequestRecord) (x : Z) : RequestRecord :=
  MkRecord (received r) (routing r) x (answer r) (close r) (continued r) (hold r).
Definition with_answer (r : RequestRecord) (x : Answer) : RequestRecord :=
  MkRecord (received r) (routing r) (charge r) x (close r) (continued r) (hold r).
Definition with_close (r : RequestRecord) (x : bool) : RequestRecord :=
  MkRecord (received r) (routing r) (charge r) (answer r) x (continued r) (hold r).
Definition with_continued (r : RequestRecord) (x : bool) : RequestRecord :=
  MkRecord (received r) (routing r) (charge r) (answer r) (close r) x (hold r).
Definition with_hold (r : RequestRecord) (x : bool) : RequestRecord :=
  MkRecord (received r) (routing r) (charge r) (answer r) (close r) (continued r) x.
Definition with_parsed (r : RequestRecord) (x : option Head) : RequestRecord :=
  let q := received r in
  with_received r (MkReceived (head q) (fields q) x (body q) (trailers q) (peer q) (secure q) (misdirected q)).
Definition with_fields (r : RequestRecord) (x : list Field) : RequestRecord :=
  let q := received r in
  with_received r (MkReceived (head q) x (parsed q) (body q) (trailers q) (peer q) (secure q) (misdirected q)).
Definition with_body (r : RequestRecord) (x : bytes) : RequestRecord :=
  let q := received r in
  with_received r (MkReceived (head q) (fields q) (parsed q) x (trailers q) (peer q) (secure q) (misdirected q)).
Definition with_trailers (r : RequestRecord) (x : bytes) : RequestRecord :=
  let q := received r in
  with_received r (MkReceived (head q) (fields q) (parsed q) (body q) x (peer q) (secure q) (misdirected q)).
Definition with_response_head (a : Answer) (x : bytes) : Answer :=
  MkAnswer (status a) (response_fields a) (response_body a) (touched a) x (claim a) (advertise_upgrade a).
Definition with_claim (a : Answer) (x : option Claim) : Answer :=
  MkAnswer (status a) (response_fields a) (response_body a) (touched a) (response_head a) x (advertise_upgrade a).
Definition with_status (a : Answer) (x : option StatusCode) : Answer :=
  MkAnswer x (response_fields a) (response_body a) (touched a) (response_head a) (claim a) (advertise_upgrade a).

Definition empty_answer : Answer := MkAnswer None [] (Owned []) false [] None false.
Definition empty_routing : Routing := MkRouting [] [] (replicate 16 (MkHostSpan 0 0)) 0 None.

(** [Record::new] *)
Definition Record_new (table : Z) : RequestRecord :=
  MkRecord (MkReceived [] (replicate (Z.to_nat (Z.max table 1)) EMPTY_FIELD) None [] [] None false false)
    empty_routing 0 empty_answer false false false.
Definition default_record : RequestRecord :=
  MkRecord (MkReceived [] [] None [] [] None false false) empty_routing 0 empty_answer false false false.

Definition record_method (self : RequestRecord) : option Method := parsed (received self) ≫= method.
Definition record_head_request (self : RequestRecord) : bool := bool_decide (record_method self = Some HttpTypes.Head).
Definition record_safe (self : RequestRecord) : bool :=
  match record_method self with Some method => is_safe method | None => false end.
Definition record_version (self : RequestRecord) : Version :=
  match parsed (received self) with Some head => version head | None => Http11 end.
Definition record_keep_alive (self : RequestRecord) : bool :=
  match parsed (received self) with Some head => keep_alive head | None => false end.
Definition record_upgrade (self : RequestRecord) : bool :=
  match parsed (received self) with Some head => upgrade head | None => false end.
Definition live_fields (self : RequestRecord) : list Field :=
  let count := match parsed (received self) with Some head => field_count head | None => O end in
  default [] (get_to count (fields (received self))).
Definition live_params (self : RequestRecord) : list HostSpan :=
  default [] (get_to (param_count (routing self)) (params (routing self))).

Definition clear_response (self : RequestRecord) : RequestRecord :=
  with_answer self (MkAnswer None [] (body_clear (response_body (answer self))) false [] None false).

Definition problem (self : RequestRecord) (problem : Problem) (shape : ErrorShape) : RequestRecord :=
  let self := clear_response self in
  let body := Owned (write_body problem shape (owned_mut (response_body (answer self)))) in
  with_answer self
    (MkAnswer (Some (HttpError.status problem)) (response_fields (answer self) ++ content_type_line shape) body true
       (response_head (answer self)) (claim (answer self)) (advertise_upgrade (answer self))).

(** [answer]: the driver's own answer. *)
Definition answer_with (self : RequestRecord) (status : StatusCode) (shape : ErrorShape) : RequestRecord :=
  if status =? CONTENT_TOO_LARGE then problem self (Problem_new CONTENT_TOO_LARGE "limit") shape
  else if status =? SERVICE_UNAVAILABLE then problem self (Problem_new SERVICE_UNAVAILABLE "timeout") shape
  else
    let self := clear_response self in
    with_answer self (with_status (answer self) (Some status)).

(** [reset]; the spare capacity of the buffers is not state. *)
Definition reset (self : RequestRecord) : RequestRecord :=
  MkRecord (MkReceived [] (fields (received self)) None [] [] None false false)
    (MkRouting [] [] (params (routing self)) 0 None) 0 (answer (clear_response self)) false false false.

Example answers :
  let r := answer_with (Record_new 1) CONTENT_TOO_LARGE LegacyShape in
  (status (answer r), response_fields (answer r), body_bytes (response_body (answer r)))
  = (Some 413, bs "Content-Type: application/json" ++ [13; 10],
     bs "{" ++ quoted "error" ++ bs ":" ++ quoted "Content Too Large" ++ bs "}") /\
  answer (answer_with (Record_new 1) REQUEST_TIMEOUT ProblemShape) = with_status empty_answer (Some 408).
Proof. vm_compute. done. Qed.

(** What a reset keeps is the sizes of the tables: a record used again is a new one but
    for the spans left beyond its counts, which [live_fields] and [live_params] hide. *)
Lemma reset_fresh self :
  received (reset self) = MkReceived [] (fields (received self)) None [] [] None false false /\
  live_fields (reset self) = [] /\ live_params (reset self) = [] /\ answer (reset self) = empty_answer.
Proof. done. Qed.

Lemma answer_with_received self status shape :
  received (answer_with self status shape) = received self /\ charge (answer_with self status shape) = charge self /\
  close (answer_with self status shape) = close self /\ claim (answer (answer_with self status shape)) = None.
Proof. unfold answer_with. repeat case_match; done. Qed.
