(* ===== verification/HttpCall.v ===== *)
(** * The handler's view of a call

    [zero-http/src/call.rs]: what a handler reads of its request and how it builds the
    response.  A method of [Response] that can fail answers the state it leaves beside
    its result.  Routing, the export to a host and the read hold are not here. *)
From S2P Require Import Prelude Core Qs Scalar HttpTypes HttpFields HttpError Date H1Head H1Grammar H1Response HttpRecord.

(** ** Names the driver writes *)

Definition DRIVER_FIELDS : list HeaderName := [ContentLength; Connection; TransferEncoding; HttpTypes.Date].

Definition is_driver_field (name : bytes) : bool :=
  match HeaderName_parse name with Some id => bool_decide (id ∈ DRIVER_FIELDS) | None => false end.

Inductive TargetRoute : Type := PathTarget (path : bytes) | ServerTarget (status : StatusCode) | NotAPath (status : StatusCode).

Definition target_route (head : Head) (input : bytes) : TargetRoute :=
  match form head with
  | Asterisk => match method head with Some Options => ServerTarget OK | _ => NotAPath BAD_REQUEST end
  | _ => PathTarget (Span_of (path head) input)
  end.

(** ** The request *)

(** [headers]: names and values in order. *)
Definition headers (self : RequestRecord) : list (bytes * bytes) :=
  (fun field => (Span_of (name field) (head (received self)), Span_of (value field) (head (received self)))) <$> live_fields self.
Definition header (self : RequestRecord) (name : bytes) : option bytes :=
  list_find (fun field => eq_ignore_ascii_case field.1 name = true) (headers self) ≫= fun found => Some found.2.2.
Definition header_id (self : RequestRecord) (name : HeaderName) : option bytes :=
  list_find (fun field => id field = Some name) (live_fields self) ≫=
  fun found => Some (Span_of (value found.2) (head (received self))).

(** ** The response *)

Definition codec {A} (message : string) : result Error A := Err (Codec message).

Definition check_name (name : bytes) : result Error unit :=
  let? _ := map_err (fun _ => Codec "invalid field name") (validate_field_name name) in
  if is_driver_field name then codec ("the driver writes " +:+ string_of (Qs.from_utf8_lossy name) +:+ " itself") else Ok ().
Definition check_id (name : HeaderName) : result Error unit :=
  if bool_decide (name ∈ DRIVER_FIELDS) then codec ("the driver writes " +:+ string_of (canonical name) +:+ " itself") else Ok ().
Definition check_value (value : bytes) : result Error unit :=
  map_err (fun _ => Codec "invalid field value") (validate_field_value value).

Definition with_fields_touched (a : Answer) (x : bytes) : Answer :=
  MkAnswer (status a) x (response_body a) true (response_head a) (claim a) (advertise_upgrade a).
Definition with_response_fields (a : Answer) (x : bytes) : Answer :=
  MkAnswer (status a) x (response_body a) (touched a) (response_head a) (claim a) (advertise_upgrade a).

Definition set_status (a : Answer) (status : StatusCode) : Answer :=
  MkAnswer (Some status) (response_fields a) (response_body a) true (response_head a) (claim a) (advertise_upgrade a).

Definition push_line (a : Answer) (name value : bytes) : Answer * result Error unit :=
  match check_value value with
  | Err e => (a, Err e)
  | Ok _ => (with_fields_touched a (response_fields a ++ name ++ bs ": " ++ value ++ CRLF), Ok ())
  end.

(** The position of the first CRLF: [windows(2).position(..)]. *)
Fixpoint crlf_at (l : bytes) : option nat :=
  match l with
  | a :: ((b :: _) as rest) => if (a =? CR) && (b =? LF) then Some O else S <$> crlf_at rest
  | _ => None
  end.

(** The lines kept; a turn takes a line.  The octets kept are moved to the front. *)
Fixpoint remove_loop (fuel : nat) (rest name : bytes) : bytes :=
  match fuel, rest with
  | O, _ | _, [] => []
  | S fuel, _ =>
      let n := match crlf_at rest with Some end_ => (end_ + 2)%nat | None => length rest end in
      let line := take n rest in
      let line_name := hd [] (split_on (fun b => b =? COLON) line) in
      let kept := remove_loop fuel (drop n rest) name in
      if negb (eq_ignore_ascii_case line_name name) then line ++ kept else kept
  end.
Definition remove_lines (fields name : bytes) : bytes := remove_loop (length fields) fields name.

Definition put_header (a : Answer) (name value : bytes) : Answer * result Error unit :=
  match check_name name with Err e => (a, Err e) | Ok _ => push_line a name value end.
Definition put_header_id (a : Answer) (name : HeaderName) (value : bytes) : Answer * result Error unit :=
  match check_id name with Err e => (a, Err e) | Ok _ => push_line a (canonical name) value end.
Definition set_header (a : Answer) (name value : bytes) : Answer * result Error unit :=
  match (let? _ := check_name name in check_value value) with
  | Err e => (a, Err e)
  | Ok _ => push_line (with_response_fields a (remove_lines (response_fields a) name)) name value
  end.
Definition set_header_id (a : Answer) (name : HeaderName) (value : bytes) : Answer * result Error unit :=
  match (let? _ := check_id name in check_value value) with
  | Err e => (a, Err e)
  | Ok _ =>
      let name := canonical name in
      push_line (with_response_fields a (remove_lines (response_fields a) name)) name value
  end.
Definition remove_header (a : Answer) (name : bytes) : Answer :=
  with_response_fields a (remove_lines (response_fields a) name).
Definition content_type (a : Answer) (value : bytes) : Answer * result Error unit := put_header_id a ContentType value.

(** [Display] of a status. *)
Definition status_display (status : StatusCode) : bytes :=
  match canonical_reason status with
  | Some reason => decimal_text status ++ bs " " ++ bs reason
  | None => decimal_text status
  end.
Definition redirect (a : Answer) (status : StatusCode) (location : bytes) : Answer * result Error unit :=
  if negb (bool_decide (status ∈ [301; 302; 303; 307; 308])) then
    (a, codec (string_of (status_display status) +:+ " is not a redirect status"))
  else
    match validate_field_value location with
    | Err _ => (a, codec "invalid Location value")
    | Ok _ => put_header_id (set_status a status) Location location
    end.
Definition redirect_preserving (a : Answer) (permanent : bool) (location : bytes) : Answer * result Error unit :=
  redirect a (if permanent then 308 else 307) location.

Definition put_body (a : Answer) (octets : bytes) : Answer :=
  MkAnswer (status a) (response_fields a) (Owned (owned_mut (response_body a) ++ octets)) true (response_head a)
    (claim a) (advertise_upgrade a).

(** ** The calls that end or take over the connection *)

(** [trim_ascii] *)
Definition is_ascii_whitespace (b : Z) : bool := bool_decide (b ∈ [0x20; 0x09; 0x0A; 0x0C; 0x0D]).
Definition trim_start (l : bytes) : bytes := drop (default (length l) (position (fun b => negb (is_ascii_whitespace b)) l)) l.
Definition trim_ascii (l : bytes) : bytes := reverse (trim_start (reverse (trim_start l))).

Definition offers (self : RequestRecord) (protocol : bytes) : bool :=
  existsb (fun field =>
    eq_ignore_ascii_case field.1 (bs "upgrade") &&
    existsb (fun element => eq_ignore_ascii_case (trim_ascii element) protocol)
      (split_on (fun byte => byte =? 0x2C) field.2)) (headers self).

Definition upgrade (self : RequestRecord) (protocol : bytes) (token : Z) : RequestRecord * result Error unit :=
  if negb (record_upgrade self && offers self protocol) then
    (self, Err (Protocol ("the request did not offer to upgrade to " +:+ string_of (Qs.from_utf8_lossy protocol))))
  else
    match put_header_id (set_status (answer self) SWITCHING_PROTOCOLS) HttpTypes.Upgrade protocol with
    | (a, Err e) => (with_answer self a, Err e)
    | (a, Ok _) => (with_answer self (with_claim a (Some (MkClaim HttpRecord.Upgrade token))), Ok ())
    end.

Definition upgrade_required (self : RequestRecord) (protocol : bytes) : RequestRecord * result Error unit :=
  match put_header_id (answer self) HttpTypes.Upgrade protocol with
  | (a, Err e) => (with_answer self a, Err e)
  | (a, Ok _) =>
      let a := set_status a UPGRADE_REQUIRED in
      (with_answer self (MkAnswer (status a) (response_fields a) (response_body a) (touched a) (response_head a) (claim a) true),
       Ok ())
  end.

Definition stream (self : RequestRecord) (token : Z) : RequestRecord * result Error unit :=
  if record_head_request self then (self, Err (Protocol "a response to HEAD carries no body to stream"))
  else (with_answer self (with_claim (answer self) (Some (MkClaim Stream token))), Ok ()).

Definition close_after_response (self : RequestRecord) : RequestRecord := with_close self true.

Definition call_problem (self : RequestRecord) (p : Problem) (shape : ErrorShape) : RequestRecord := problem self p shape.

(** [give_response] of [exchange.rs]: the response a host built on an exchange, moved to
    the record's after the lines it holds. *)
Definition give_response (from a : Answer) : Answer :=
  let fields := if bool_decide (response_fields a = []) then response_fields from else response_fields a ++ response_fields from in
  MkAnswer (match status from with Some status => Some status | None => status a end) fields (response_body from)
    (touched a || touched from) (response_head a) (claim a) (advertise_upgrade a).

(** [take_request] of [exchange.rs], on the record: the head, the body, the trailers and the
    route path move to an exchange whose own are empty, and the charge with them. *)
Definition take_request (r : RequestRecord) : RequestRecord :=
  let q := received r in
  let t := routing r in
  MkRecord (MkReceived [] (fields q) (parsed q) [] [] (peer q) (secure q) (misdirected q))
    (MkRouting (scratch t) [] (params t) (param_count t) (miss t)) 0 (answer r) (close r) (continued r) (hold r).

(** [restore_head] of [exchange.rs], for an action that needs the head. *)
Definition restore_head (r : RequestRecord) (octets path : bytes) : RequestRecord :=
  let q := received r in
  let t := routing r in
  with_routing (with_received r (MkReceived octets (fields q) (parsed q) (body q) (trailers q) (peer q) (secure q) (misdirected q)))
    (MkRouting (scratch t) path (params t) (param_count t) (miss t)).

(** ** What handlers do

    A handler reaches the record by these calls only; a host builds its response with those
    of [Response] on an exchange and the worker imports it.  What the router found is a
    parameter of [Route]. *)

Inductive ResponseCall : Type :=
| SetStatus (status : StatusCode)
| PutHeader (name value : bytes)
| PutHeaderId (name : HeaderName) (value : bytes)
| SetHeader (name value : bytes)
| SetHeaderId (name : HeaderName) (value : bytes)
| RemoveHeader (name : bytes)
| Redirect (status : StatusCode) (location : bytes)
| PutBody (octets : bytes).

Inductive HandlerCall : Type :=
| Respond (c : ResponseCall)
| WriteProblem (p : Problem) (shape : ErrorShape)
| AskUpgrade (protocol : bytes) (token : Z)
| RequireUpgrade (protocol : bytes)
| AskStream (token : Z)
| CloseAfter
| Route (found : Routing)
| Export
| RestoreHead (octets path : bytes)
| Import (cs : list ResponseCall).

Definition respond (a : Answer) (c : ResponseCall) : Answer :=
  match c with
  | SetStatus status => set_status a status
  | PutHeader name value => (put_header a name value).1
  | PutHeaderId name value => (put_header_id a name value).1
  | SetHeader name value => (set_header a name value).1
  | SetHeaderId name value => (set_header_id a name value).1
  | RemoveHeader name => remove_header a name
  | Redirect status location => (redirect a status location).1
  | PutBody octets => put_body a octets
  end.

Definition handle (r : RequestRecord) (c : HandlerCall) : RequestRecord :=
  match c with
  | Respond c => with_answer r (respond (answer r) c)
  | WriteProblem p shape => call_problem r p shape
  | AskUpgrade protocol token => (upgrade r protocol token).1
  | RequireUpgrade protocol => (upgrade_required r protocol).1
  | AskStream token => (stream r token).1
  | CloseAfter => close_after_response r
  | Route found => with_routing r found
  | Export => take_request r
  | RestoreHead octets path => restore_head r octets path
  | Import cs => with_answer r (give_response (fold_left respond cs empty_answer) (answer r))
  end.

(** ** What the response fields are *)

Definition Line : Type := (bytes * bytes)%type.
Definition lines_text (ls : list Line) : bytes := mbind (fun l => line l.1 l.2) ls.

Definition accepts (name value : bytes) : bool :=
  is_token name && negb (is_driver_field name) && is_ok (validate_field_value value).
Definition line_ok (l : Line) : Prop := accepts l.1 l.2 = true.

(** Setting a field replaces every line of its name, in any case. *)
Definition others (name : bytes) (ls : list Line) : list Line := filter (fun l => eq_ignore_ascii_case l.1 name = false) ls.
Definition added (name value : bytes) (ls : list Line) : list Line :=
  if accepts name value then ls ++ [(name, value)] else ls.
Definition replaced (name value : bytes) (ls : list Line) : list Line :=
  if accepts name value then others name ls ++ [(name, value)] else ls.

Definition respond_lines (ls : list Line) (c : ResponseCall) : list Line :=
  match c with
  | SetStatus _ | PutBody _ => ls
  | PutHeader name value => added name value ls
  | PutHeaderId name value => added (canonical name) value ls
  | SetHeader name value => replaced name value ls
  | SetHeaderId name value => replaced (canonical name) value ls
  | RemoveHeader name => others name ls
  | Redirect status location =>
      if bool_decide (status ∈ [301; 302; 303; 307; 308]) then added (bs "Location") location ls else ls
  end.

Definition handle_lines (r : RequestRecord) (ls : list Line) (c : HandlerCall) : list Line :=
  match c with
  | Respond c => respond_lines ls c
  | WriteProblem _ shape => [(bs "Content-Type", media_type shape)]
  | AskUpgrade protocol _ => if record_upgrade r && offers r protocol then added (bs "Upgrade") protocol ls else ls
  | RequireUpgrade protocol => added (bs "Upgrade") protocol ls
  | AskStream _ | CloseAfter | Route _ | Export | RestoreHead _ _ => ls
  | Import cs => ls ++ fold_left respond_lines cs []
  end.

Lemma tokens_harmless name : is_token name = true -> Forall (fun b => is_cr_or_lf b = false /\ (b =? COLON) = false) name.
Proof.
  intros [_ H]%is_tchar_token. eapply Forall_impl; [exact H|]. intros b Hb.
  split; apply not_true_iff_false; unfold is_cr_or_lf; intros Hc; [assert (b = 13 \/ b = 10) as [-> | ->] by lia; done|].
  apply Z.eqb_eq in Hc as ->. done.
Qed.

Lemma line_ok_parts l : line_ok l -> is_token l.1 = true /\ is_driver_field l.1 = false /\ value_ok l.2.
Proof.
  unfold line_ok, accepts. intros [[H1 H2%negb_true_iff]%andb_prop H3]%andb_prop. split; [done|]. split; [done|].
  apply value_ok_valid. by destruct (validate_field_value l.2) as [[]|].
Qed.

Lemma crlf_at_line t rest : Forall (fun b => is_cr_or_lf b = false) t -> crlf_at (t ++ CRLF ++ rest) = Some (length t).
Proof.
  induction 1 as [|b t Hb _ IH]; [done|]. cbn [app crlf_at length].
  change (t ++ 13 :: 10 :: rest) with (t ++ CRLF ++ rest). rewrite IH.
  destruct (t ++ CRLF ++ rest) as [|c l] eqn:He; [by destruct t|].
  destruct (Z.eqb_spec b 13) as [->|]; done.
Qed.

Lemma split_on_head {A} (f : A -> bool) n x l :
  Forall (fun b => f b = false) n -> f x = true -> hd [] (split_on f (n ++ x :: l)) = n.
Proof.
  intros Hn Hx. induction Hn as [|b n Hb _ IH]; cbn [app split_on]; [by rewrite Hx|]. rewrite Hb.
  destruct (split_on f (n ++ x :: l)); cbn [hd] in *; by subst.
Qed.

Lemma line_body l : line_ok l -> exists t, line l.1 l.2 = t ++ CRLF /\ Forall (fun b => is_cr_or_lf b = false) t.
Proof.
  intros (Hn & _ & Hv)%line_ok_parts. exists (l.1 ++ bs ": " ++ l.2). split; [unfold line; by rewrite <- !app_assoc|].
  repeat apply Forall_app_2.
  - eapply Forall_impl; [by apply tokens_harmless|]. by intros b [? _].
  - by repeat constructor.
  - eapply Forall_impl; [by apply value_ok_lines|]. intros b. unfold is_value_byte, is_cr_or_lf. lia.
Qed.

Lemma remove_loop_lines name ls : Forall line_ok ls -> forall fuel, (length (lines_text ls) <= fuel)%nat ->
  remove_loop fuel (lines_text ls) name = lines_text (others name ls).
Proof.
  induction 1 as [|l ls Hl _ IH]; intros fuel Hf; [by destruct fuel|].
  destruct (line_body l Hl) as (t & Ht & Hb). pose proof (line_ok_parts l Hl) as (Hn & _ & _).
  unfold lines_text in *. rewrite bind_cons in *. rewrite length_app in Hf.
  assert (line l.1 l.2 <> []) as Hne by (rewrite Ht; by destruct t).
  destruct fuel as [|fuel]; [destruct (line l.1 l.2); [done|cbn in Hf; lia]|].
  assert (length (line l.1 l.2) = (length t + 2)%nat) as Hlen by (rewrite Ht, length_app; done).
  remember (line l.1 l.2 ++ mbind (fun l => line l.1 l.2) ls) as rest eqn:Hrest.
  assert (crlf_at rest = Some (length t)) as Hc by (rewrite Hrest, Ht, <- app_assoc; by apply crlf_at_line).
  assert (take (length t + 2) rest = line l.1 l.2) as Htake by (rewrite Hrest, <- Hlen; apply take_app_length).
  assert (drop (length t + 2) rest = mbind (fun l => line l.1 l.2) ls) as Hdrop by (rewrite Hrest, <- Hlen; apply drop_app_length).
  destruct rest as [|b rest']; [by destruct (line l.1 l.2)|].
  cbn [remove_loop]. rewrite Hc, Htake, Hdrop, IH by lia.
  unfold line at 1. cbn [bs app]. rewrite split_on_head; [|eapply Forall_impl; [by apply tokens_harmless|]; by intros ? [_ ?]|done].
  unfold others. rewrite filter_cons. destruct (eq_ignore_ascii_case l.1 name) eqn:He; cbn [negb].
  - by rewrite decide_False.
  - by rewrite decide_True, bind_cons.
Qed.

Lemma remove_lines_text name ls : Forall line_ok ls -> remove_lines (lines_text ls) name = lines_text (others name ls).
Proof. intros H. by apply remove_loop_lines. Qed.

Lemma canonical_names h :
  is_token (canonical h) = true /\ is_driver_field (canonical h) = bool_decide (h ∈ DRIVER_FIELDS).
Proof.
  assert (forallb (fun h => is_token (canonical h)
    && eqb (is_driver_field (canonical h)) (bool_decide (h ∈ DRIVER_FIELDS))) HeaderName_ALL = true) as H
    by (vm_compute; reflexivity).
  rewrite forallb_forall in H. specialize (H h (proj1 (list_elem_of_In _ _) (HeaderName_ALL_elem h))).
  apply andb_prop in H as [? ?%eqb_prop]. done.
Qed.

Lemma checks name value :
  (match check_name name with Err _ => false | Ok _ => is_ok (check_value value) end) = accepts name value.
Proof.
  unfold check_name, accepts, check_value. pose proof (validate_name_spec name) as Hn. unfold validate_field_name, is_token in *.
  destruct (bool_decide (name = [])) eqn:Hne; [done|]. cbn [negb andb] in *.
  destruct (position _ name) as [i|] eqn:Hp; cbn [map_err].
  - destruct (forallb is_tchar name) eqn:Hf; [|done]. apply position_Some in Hp as (b & Hb & Hb' & _).
    rewrite forallb_forall in Hf. specialize (Hf b). rewrite Hf in Hb'; [done|]. apply list_elem_of_In. by eapply list_elem_of_lookup_2.
  - rewrite Hn. cbn [andb]. destruct (is_driver_field name); [done|]. cbn [negb andb]. by destruct (validate_field_value value).
Qed.

Lemma checks_id h value :
  (match check_id h with Err _ => false | Ok _ => is_ok (check_value value) end) = accepts (canonical h) value.
Proof.
  unfold check_id, accepts, check_value. destruct (canonical_names h) as [-> ->]. cbn [andb].
  destruct (bool_decide _); [done|]. by destruct (validate_field_value value).
Qed.

(** The state a call that may write a line leaves. *)
Lemma put_header_fields a name value : response_fields (put_header a name value).1
  = response_fields a ++ if accepts name value then line name value else [].
Proof.
  rewrite <- checks. unfold put_header, push_line. destruct (check_name name); [|by rewrite app_nil_r].
  destruct (check_value value); [done|by rewrite app_nil_r].
Qed.

Lemma put_header_id_fields a h value : response_fields (put_header_id a h value).1
  = response_fields a ++ if accepts (canonical h) value then line (canonical h) value else [].
Proof.
  rewrite <- checks_id. unfold put_header_id, push_line. destruct (check_id h); [|by rewrite app_nil_r].
  destruct (check_value value); [done|by rewrite app_nil_r].
Qed.

Lemma set_header_fields a name value : response_fields (set_header a name value).1
  = if accepts name value then remove_lines (response_fields a) name ++ line name value else response_fields a.
Proof.
  rewrite <- checks. unfold set_header, push_line. destruct (check_name name); [|done].
  by destruct (check_value value).
Qed.

Lemma set_header_id_fields a h value : response_fields (set_header_id a h value).1
  = if accepts (canonical h) value then remove_lines (response_fields a) (canonical h) ++ line (canonical h) value
    else response_fields a.
Proof.
  rewrite <- checks_id. unfold set_header_id, push_line. destruct (check_id h); [|done].
  by destruct (check_value value).
Qed.

Lemma lines_text_app ls ms : lines_text (ls ++ ms) = lines_text ls ++ lines_text ms.
Proof. apply bind_app. Qed.

Lemma added_text name value ls : lines_text (added name value ls)
  = lines_text ls ++ if accepts name value then line name value else [].
Proof. unfold added. destruct (accepts name value); [rewrite lines_text_app; cbn|]; by rewrite !app_nil_r. Qed.

Lemma added_ok name value ls : Forall line_ok ls -> Forall line_ok (added name value ls).
Proof. unfold added. intros H. destruct (accepts name value) eqn:Ha; [|done]. apply Forall_app_2; [done|by repeat constructor]. Qed.

Lemma others_ok name ls : Forall line_ok ls -> Forall line_ok (others name ls).
Proof.
  rewrite !Forall_forall. intros H l [_ Hl]%list_elem_of_filter. by apply H.
Qed.

Lemma replaced_text name value ls : Forall line_ok ls -> lines_text (replaced name value ls)
  = if accepts name value then remove_lines (lines_text ls) name ++ line name value else lines_text ls.
Proof.
  intros Hls. unfold replaced. destruct (accepts name value); [|done]. rewrite lines_text_app, remove_lines_text by done.
  cbn. by rewrite app_nil_r.
Qed.

Lemma replaced_ok name value ls : Forall line_ok ls -> Forall line_ok (replaced name value ls).
Proof.
  unfold replaced. intros H. destruct (accepts name value) eqn:Ha; [|done].
  apply Forall_app_2; [by apply others_ok|by repeat constructor].
Qed.

Lemma respond_refines a ls c : response_fields a = lines_text ls -> Forall line_ok ls ->
  response_fields (respond a c) = lines_text (respond_lines ls c) /\ Forall line_ok (respond_lines ls c).
Proof.
  intros Ha Hls. destruct c as [st|n v|h v|n v|h v|n|st l|o]; cbn [respond respond_lines].
  - done.
  - rewrite put_header_fields, added_text, Ha. split; [done|by apply added_ok].
  - rewrite put_header_id_fields, added_text, Ha. split; [done|by apply added_ok].
  - rewrite set_header_fields, replaced_text, Ha by done. split; [done|by apply replaced_ok].
  - rewrite set_header_id_fields, replaced_text, Ha by done. split; [done|by apply replaced_ok].
  - cbn. rewrite Ha, remove_lines_text by done. split; [done|by apply others_ok].
  - unfold redirect. destruct (bool_decide _); cbn [negb]; [|done]. change (bs "Location") with (canonical Location).
    destruct (validate_field_value l) eqn:Hv.
    + rewrite put_header_id_fields, added_text. cbn [set_status response_fields]. rewrite Ha. split; [done|by apply added_ok].
    + rewrite added_text. cbn [fst]. rewrite Ha. unfold accepts. rewrite Hv, andb_false_r, app_nil_r. split; [done|].
      unfold added, accepts. by rewrite Hv, andb_false_r.
  - done.
Qed.

Lemma responds_refine cs : forall a ls, response_fields a = lines_text ls -> Forall line_ok ls ->
  response_fields (fold_left respond cs a) = lines_text (fold_left respond_lines cs ls) /\
  Forall line_ok (fold_left respond_lines cs ls).
Proof.
  induction cs as [|c cs IH]; intros a ls Ha Hls; [done|]. cbn [fold_left].
  destruct (respond_refines a ls c Ha Hls). by apply IH.
Qed.

Fixpoint handle_all_lines (r : RequestRecord) (ls : list Line) (cs : list HandlerCall) : list Line :=
  match cs with
  | [] => ls
  | c :: cs => handle_all_lines (handle r c) (handle_lines r ls c) cs
  end.

Lemma handle_refines r ls c : response_fields (answer r) = lines_text ls -> Forall line_ok ls ->
  response_fields (answer (handle r c)) = lines_text (handle_lines r ls c) /\ Forall line_ok (handle_lines r ls c).
Proof.
  intros Hr Hls. destruct c as [c|p shape|protocol token|protocol|token| |found| |octets path|cs]; cbn [handle handle_lines].
  - by apply respond_refines.
  - split; [by destruct shape|]. repeat constructor. by destruct shape.
  - unfold upgrade. destruct (record_upgrade r && offers r protocol); cbn [negb]; [|done].
    pose proof (put_header_id_fields (set_status (answer r) SWITCHING_PROTOCOLS) HttpTypes.Upgrade protocol) as Hp.
    cbn [set_status response_fields] in Hp. rewrite Hr in Hp. change (canonical HttpTypes.Upgrade) with (bs "Upgrade") in Hp.
    rewrite <- added_text in Hp.
    destruct (put_header_id _ _ _) as [a [[]|e]]; (split; [exact Hp|by apply added_ok]).
  - unfold upgrade_required.
    pose proof (put_header_id_fields (answer r) HttpTypes.Upgrade protocol) as Hp.
    rewrite Hr in Hp. change (canonical HttpTypes.Upgrade) with (bs "Upgrade") in Hp. rewrite <- added_text in Hp.
    destruct (put_header_id _ _ _) as [a [[]|e]]; (split; [exact Hp|by apply added_ok]).
  - unfold stream. by destruct (record_head_request r).
  - done.
  - done.
  - done.
  - done.
  - destruct (responds_refine cs empty_answer [] eq_refl ltac:(constructor)) as [Hi Hok].
    cbn [answer with_answer]. unfold give_response. cbn [response_fields]. split; [|by apply Forall_app_2].
    rewrite lines_text_app, <- Hr, <- Hi. case_bool_decide as He; [by rewrite He|done].
Qed.

Lemma handle_all_refines cs : forall r ls, response_fields (answer r) = lines_text ls -> Forall line_ok ls ->
  response_fields (answer (fold_left handle cs r)) = lines_text (handle_all_lines r ls cs) /\
  Forall line_ok (handle_all_lines r ls cs).
Proof.
  induction cs as [|c cs IH]; intros r ls Hr Hls; [done|]. cbn [fold_left handle_all_lines].
  destruct (handle_refines r ls c Hr Hls). by apply IH.
Qed.

(** Nothing a handler does changes what its response is framed by. *)
Definition kept (q : Received) : option Head * option SocketAddr * bool * bool := (parsed q, peer q, secure q, misdirected q).

Lemma handle_kept r c : kept (received (handle r c)) = kept (received r).
Proof.
  destruct c; cbn [handle]; try done.
  - unfold upgrade. repeat case_match; done.
  - unfold upgrade_required. repeat case_match; done.
  - unfold stream. case_match; done.
Qed.

Lemma handle_all_kept cs : forall r, kept (received (fold_left handle cs r)) = kept (received r).
Proof. induction cs as [|c cs IH]; intros r; [done|]. cbn [fold_left]. rewrite IH. apply handle_kept. Qed.

Lemma line_is_field l : line_ok l -> line l.1 l.2 = field_text (MkFieldText l.1 [SP] l.2 []) /\
  field_ok (MkFieldText l.1 [SP] l.2 []) /\ (forall h, h ∈ DRIVER_FIELDS -> to_lower l.1 <> HttpTypes.as_bytes h).
Proof.
  intros (Hn & Hd & Hv)%line_ok_parts. split; [done|]. split; [by apply field_grammar|].
  intros h Hh H. unfold is_driver_field in Hd. apply HeaderName_parse_Some in H. rewrite H in Hd.
  by rewrite bool_decide_eq_true_2 in Hd.
Qed.

(** C32. The response fields are an association list that never frames: whatever a handler,
    or a host whose response is imported, calls on a new response and however often it is
    refused, the octets are the lines a list of fields says, which grows by the fields
    added, loses every line of a name in any case when the name is set or removed and
    starts again from a problem; each is a field line of the grammar of RFC 9112, none of
    them names a field the driver writes, in any case; and the parsed request, its peer and
    its security stay as received. *)
Theorem handler_fields r cs : answer r = empty_answer ->
  let r' := fold_left handle cs r in
  let ls := handle_all_lines r [] cs in
  response_fields (answer r') = lines_text ls /\
  lines_text ls = mbind (fun l => field_text (MkFieldText l.1 [SP] l.2 [])) ls /\
  Forall (fun l => field_ok (MkFieldText l.1 [SP] l.2 []) /\ forall h, h ∈ DRIVER_FIELDS -> to_lower l.1 <> HttpTypes.as_bytes h) ls /\
  kept (received r') = kept (received r).
Proof.
  intros Hr r' ls. destruct (handle_all_refines cs r [] ltac:(by rewrite Hr) ltac:(constructor)) as [Ht Hok].
  split; [done|]. split; [|split].
  - fold ls in Hok. clear -Hok. induction Hok as [|l ls Hl _ IH]; [done|]. unfold lines_text in *. rewrite !bind_cons, IH.
    by destruct (line_is_field l Hl) as [<- _].
  - eapply Forall_impl; [exact Hok|]. intros l Hl. by destruct (line_is_field l Hl) as (_ & ? & ?).
  - apply handle_all_kept.
Qed.

Lemma handler_fields_witness :
  let r := Record_new 1 in
  let cs := [Respond (PutHeader (bs "X-A") (bs "1")); Respond (PutHeader (bs "connection") (bs "close"));
    Respond (SetHeader (bs "x-a") (bs "2")); Respond (PutHeader (bs "X") (bs "a" ++ CRLF ++ bs "b"))] in
  response_fields (answer (fold_left handle cs r)) = bs "x-a: 2" ++ CRLF.
Proof.
  intros r cs. destruct (handler_fields r cs eq_refl) as [H _]. rewrite H. vm_compute. reflexivity.
Defined.
