(* ===== verification/HttpRing.v ===== *)
(** * The pipelining ring

    [zero-http/src/ring.rs]: the requests of a connection in request order, in a circular
    array, and the slots their running handlers live in.  The future type [F] is a
    parameter; polling is the runtime's.  The ring refines a queue: [queue] lists the
    entries from the head, and every operation is one on that list. *)
From S2P Require Import Prelude Limits HttpTypes H1Head H1Chunked HttpRecord.

Definition CAP : nat := Z.to_nat PIPELINE_CODEC_CAP.

Inductive Framing : Type := FramingLength (remaining : Z) | FramingChunked (decoder : ChunkedDecoder).

Inductive Stage : Type :=
| Body (framing : Framing) (continue_pending : bool) (max_body : Z)
| Waiting
| Running
| Done.

(** An [Instant] is a number of nanoseconds. *)
Record Entry : Type := MkEntry {
  record : option RequestRecord;
  stage : Stage;
  accepted : Z;
  last_byte : Z;
  safe : bool;
  upgrade : bool;
  body_bytes : Z;
  slot : option nat;
}.

Definition Entry_new (record : RequestRecord) (stage : Stage) (now : Z) : Entry :=
  MkEntry (Some record) stage now now (record_safe record) (record_upgrade record) 0 None.

Definition with_record (e : Entry) (x : option RequestRecord) : Entry :=
  MkEntry x (stage e) (accepted e) (last_byte e) (safe e) (upgrade e) (body_bytes e) (slot e).
Definition with_stage (e : Entry) (x : Stage) : Entry :=
  MkEntry (record e) x (accepted e) (last_byte e) (safe e) (upgrade e) (body_bytes e) (slot e).
Definition with_last_byte (e : Entry) (x : Z) : Entry :=
  MkEntry (record e) (stage e) (accepted e) x (safe e) (upgrade e) (body_bytes e) (slot e).
Definition with_body_bytes (e : Entry) (x : Z) : Entry :=
  MkEntry (record e) (stage e) (accepted e) (last_byte e) (safe e) (upgrade e) x (slot e).
Definition with_slot (e : Entry) (x : option nat) : Entry :=
  MkEntry (record e) (stage e) (accepted e) (last_byte e) (safe e) (upgrade e) (body_bytes e) x.

Definition is_body (s : Stage) : bool := match s with Body _ _ _ => true | _ => false end.
Definition is_waiting (s : Stage) : bool := match s with Waiting => true | _ => false end.
Definition is_running (s : Stage) : bool := match s with Running => true | _ => false end.
Definition is_done (s : Stage) : bool := match s with Done => true | _ => false end.

Section ring.
Context {F : Type}.

(** The top of [free_slots] comes first. *)
Record Ring : Type := MkRing {
  entries : list (option Entry);
  futures : list (option F);
  free_slots : list nat;
  head : nat;
  len : nat;
}.

Definition new : Ring := MkRing (replicate CAP None) [] [] 0 0.
Definition is_empty (self : Ring) : bool := (len self =? 0)%nat.
Definition position (self : Ring) (index : nat) : nat := ((head self + index) mod CAP)%nat.

Definition entry (self : Ring) (position : nat) : option Entry := mjoin (entries self !! position).

(** A write through [entry_mut]. *)
Definition set_entry (self : Ring) (position : nat) (e : option Entry) : Ring :=
  MkRing (<[position := e]> (entries self)) (futures self) (free_slots self) (head self) (len self).
Definition modify_entry (self : Ring) (position : nat) (f : Entry -> Entry) : Ring :=
  match entry self position with Some e => set_entry self position (Some (f e)) | None => self end.

Definition push (self : Ring) (e : Entry) : result Entry (nat * Ring) :=
  if (CAP <=? len self)%nat then Err e
  else
    let position := position self (len self) in
    match entries self !! position with
    | Some _ =>
        Ok (position, MkRing (<[position := Some e]> (entries self)) (futures self) (free_slots self) (head self) (S (len self)))
    | None => Err e
    end.

Definition first (self : Ring) : option Entry := if (len self =? 0)%nat then None else entry self (head self).

(** The position [last_mut] changes. *)
Definition last_position (self : Ring) : nat := position self (len self - 1).
Definition last_mut (self : Ring) : option Entry := if (len self =? 0)%nat then None else entry self (last_position self).

Definition body_pending (self : Ring) : bool :=
  match last_mut self with Some e => is_body (stage e) | None => false end.
Definition upgrade_pending (self : Ring) : bool :=
  match last_mut self with Some e => upgrade e && negb (is_body (stage e)) | None => false end.

Definition index_of (self : Ring) (position : nat) : option nat :=
  let index := ((position + CAP - head self) mod CAP)%nat in
  if (index <? len self)%nat then Some index else None.

(** The future dropped is the second component. *)
Definition clear_future (self : Ring) (position : nat) : Ring * option F :=
  match entry self position with
  | None => (self, None)
  | Some e =>
      match slot e with
      | None => (self, None)
      | Some slot =>
          (MkRing (<[position := Some (with_slot e None)]> (entries self)) (<[slot := None]> (futures self))
             (slot :: free_slots self) (head self) (len self), mjoin (futures self !! slot))
      end
  end.

(** The entry removed, and the future dropped. *)
Definition pop_front (self : Ring) : Ring * option Entry * option F :=
  if (len self =? 0)%nat then (self, None, None)
  else
    let position := head self in
    let (self, dropped) := clear_future self position in
    let e := entry self position in
    (MkRing (<[position := None]> (entries self)) (futures self) (free_slots self) ((head self + 1) mod CAP)%nat (len self - 1),
     e, dropped).

Definition pop_back (self : Ring) : Ring * option Entry * option F :=
  if (len self =? 0)%nat then (self, None, None)
  else
    let position := position self (len self - 1) in
    let (self, dropped) := clear_future self position in
    let e := entry self position in
    (MkRing (<[position := None]> (entries self)) (futures self) (free_slots self) (head self) (len self - 1), e, dropped).

Definition start (self : Ring) (position : nat) (future : F) : Ring * bool :=
  let '(slot, self) :=
    match free_slots self with
    | slot :: free => (slot, MkRing (entries self) (futures self) free (head self) (len self))
    | [] => (length (futures self), MkRing (entries self) (futures self ++ [None]) [] (head self) (len self))
    end in
  match entry self position with
  | None => (MkRing (entries self) (futures self) (slot :: free_slots self) (head self) (len self), false)
  | Some e =>
      match futures self !! slot with
      | None => (self, false)
      | Some _ =>
          (MkRing (<[position := Some (with_stage (with_slot e (Some slot)) Running)]> (entries self))
             (<[slot := Some future]> (futures self)) (free_slots self) (head self) (len self), true)
      end
  end.

(** The future of the entry at a position. *)
Definition future_at (self : Ring) (position : nat) : option F :=
  entry self position ≫= fun e => slot e ≫= fun slot => mjoin (futures self !! slot).
End ring.
Arguments Ring F : clear implicits.

Definition record_at (entries : list (option Entry)) (head index : nat) : option RequestRecord :=
  mjoin (entries !! ((head + index) mod CAP)%nat) ≫= record.

Example ring_wraps :
  let e := Entry_new (Record_new 2) Waiting 0 in
  let fill (r : Ring unit) := match push r e with Ok (_, r) => r | Err _ => r end in
  let r := Nat.iter CAP fill new in
  let r' := (Nat.iter 5 (fun r => (pop_front r).1.1) r) in
  (len r, is_ok (push r e), position r' 0, match push r' e with Ok (p, _) => p | Err _ => 99%nat end) = (32%nat, false, 5%nat, 0%nat).
Proof. vm_compute. reflexivity. Qed.

(** ** The ring as a queue *)

(** A list read through its indices. *)
Lemma omap_seq {A} (f : nat -> option A) n :
  (forall i, (i < n)%nat -> is_Some (f i)) ->
  length (omap f (seq 0 n)) = n /\ forall i, omap f (seq 0 n) !! i = if (i <? n)%nat then f i else None.
Proof.
  induction n as [|n IH]; intros H; [by split|].
  destruct IH as [Hl Hi]; [intros i Hn; apply H; lia|].
  destruct (H n ltac:(lia)) as [x Hx]. rewrite seq_S, omap_app. cbn [Nat.add omap list_omap]. rewrite Hx.
  split; [rewrite length_app, Hl; cbn; lia|]. intros i. destruct (Nat.ltb_spec i (S n)).
  - destruct (decide (i = n)) as [->|].
    + by rewrite lookup_app_r, Hl, Nat.sub_diag by lia.
    + rewrite lookup_app_l, Hi by lia. by rewrite (proj2 (Nat.ltb_lt i n)) by lia.
  - rewrite lookup_app_r by lia. rewrite Hl. by destruct (i - n)%nat as [|k] eqn:Hk; [lia|].
Qed.

Section queue.
Context {F : Type}.
Implicit Types r : Ring F.

Definition at_ r (index : nat) : option Entry := entry r (position r index).
Definition queue r : list Entry := omap (at_ r) (seq 0 (len r)).

Record ring_shape r : Prop := {
  entries_length : length (entries r) = CAP;
  head_bound : (head r < CAP)%nat;
  len_bound : (len r <= CAP)%nat;
  occupied : forall i, (i < CAP)%nat -> (is_Some (at_ r i) <-> (i < len r)%nat);
}.

(** Every slot is free and empty, or held by one entry. *)
Record ring_ok r : Prop := {
  shape : ring_shape r;
  slots : free_slots r ++ omap slot (queue r) ≡ₚ seq 0 (length (futures r));
  free_empty : Forall (fun s => futures r !! s = Some None) (free_slots r);
}.

Lemma position_in_ring r i : (position r i < CAP)%nat.
Proof. apply Nat.mod_upper_bound. done. Qed.

Lemma mod_cap h i : (h < CAP)%nat -> (i < CAP)%nat -> ((h + i) mod CAP = if (h + i <? CAP)%nat then h + i else h + i - CAP)%nat.
Proof.
  intros Hh Hi. destruct (Nat.ltb_spec (h + i) CAP); [by apply Nat.mod_small|].
  replace (h + i)%nat with (h + i - CAP + 1 * CAP)%nat at 1 by lia. rewrite Nat.Div0.mod_add. apply Nat.mod_small. lia.
Qed.

Lemma position_inj r i j : (head r < CAP)%nat -> (i < CAP)%nat -> (j < CAP)%nat -> position r i = position r j -> i = j.
Proof.
  unfold position. intros Hh Hi Hj. rewrite !mod_cap by done.
  destruct (Nat.ltb_spec (head r + i) CAP), (Nat.ltb_spec (head r + j) CAP); lia.
Qed.

Lemma position_index r p : (head r < CAP)%nat -> (p < CAP)%nat -> exists i, (i < CAP)%nat /\ p = position r i.
Proof.
  intros Hh Hp. exists (if (head r <=? p)%nat then p - head r else p + CAP - head r)%nat. unfold position.
  destruct (Nat.leb_spec (head r) p); (split; [lia|]); rewrite mod_cap by lia;
    destruct (Nat.ltb_spec (head r + (p - head r)) CAP), (Nat.ltb_spec (head r + (p + CAP - head r)) CAP); lia.
Qed.

Lemma index_of_position r i : ring_shape r -> (i < CAP)%nat ->
  index_of r (position r i) = if (i <? len r)%nat then Some i else None.
Proof.
  intros [_ Hh _ _] Hi. unfold index_of, position.
  assert (((head r + i) mod CAP + CAP - head r) mod CAP = i)%nat as ->; [|done].
  rewrite (mod_cap (head r) i) by done. destruct (Nat.ltb_spec (head r + i) CAP).
  - replace (head r + i + CAP - head r)%nat with (i + 1 * CAP)%nat by lia. rewrite Nat.Div0.mod_add. by apply Nat.mod_small.
  - replace (head r + i - CAP + CAP - head r)%nat with i by lia. by apply Nat.mod_small.
Qed.

Lemma queue_lookup r i : ring_shape r -> queue r !! i = if (i <? len r)%nat then at_ r i else None.
Proof.
  intros H. apply omap_seq. intros j Hj. apply occupied; [done| |done]. pose proof (len_bound _ H). lia.
Qed.

Lemma queue_length r : ring_shape r -> length (queue r) = len r.
Proof.
  intros H. apply omap_seq. intros j Hj. apply occupied; [done| |done]. pose proof (len_bound _ H). lia.
Qed.

Lemma queue_some r i e : ring_shape r -> queue r !! i = Some e <-> ((i < len r)%nat /\ at_ r i = Some e).
Proof. intros H. rewrite queue_lookup by done. destruct (Nat.ltb_spec i (len r)); [naive_solver|]. split; [done|lia]. Qed.

Lemma queue_set r i e e' : ring_shape r -> queue r !! i = Some e ->
  queue (set_entry r (position r i) (Some e')) = <[i := e']> (queue r).
Proof.
  intros Hok [Hi He]%queue_some; [|done]. pose proof (len_bound _ Hok). pose proof (head_bound _ Hok).
  set (r' := set_entry r (position r i) (Some e')).
  assert (forall j, (j < CAP)%nat -> at_ r' j = if decide (j = i) then Some e' else at_ r j) as Hat.
  { intros j Hj. unfold at_, entry, r', set_entry. cbn [entries]. change (position _ j) with (position r j).
    destruct (decide (j = i)) as [->|Hne].
    - rewrite list_lookup_insert_eq; [done|]. rewrite (entries_length _ Hok). apply position_in_ring.
    - rewrite list_lookup_insert_ne; [done|]. intros Hp. apply Hne. symmetry. apply (position_inj r); [done|lia|lia|done]. }
  apply list_eq. intros j. unfold queue at 1. destruct (omap_seq (at_ r') (len r)) as [_ Hq].
  { intros k Hk. rewrite Hat by lia. case_decide; [done|]. apply (occupied _ Hok); lia. }
  change (len r') with (len r). rewrite Hq. destruct (Nat.ltb_spec j (len r)) as [Hj|Hj].
  - rewrite Hat by lia. case_decide as Hd; [subst; by rewrite list_lookup_insert_eq by (rewrite queue_length; done)|].
    rewrite list_lookup_insert_ne by done. rewrite queue_lookup by done. by rewrite (proj2 (Nat.ltb_lt j (len r))).
  - symmetry. apply lookup_ge_None. rewrite length_insert, queue_length; done.
Qed.

Lemma set_shape r i e e' : ring_shape r -> queue r !! i = Some e -> ring_shape (set_entry r (position r i) (Some e')).
Proof.
  intros Hok Hq. assert (Hq' := Hq). apply queue_some in Hq' as [Hi He]; [|done].
  destruct Hok as [Hl Hh Hn Ho]. split; [cbn; by rewrite length_insert|done|done|]. intros j Hj. cbn [set_entry len].
  destruct (decide (j = i)) as [->|Hne].
  - unfold at_, entry. cbn [set_entry entries]. change (position _ i) with (position r i).
    rewrite list_lookup_insert_eq by (rewrite Hl; apply position_in_ring). cbn. naive_solver.
  - rewrite <- Ho by done. unfold at_, entry. cbn [set_entry entries]. change (position _ j) with (position r j).
    rewrite list_lookup_insert_ne; [done|]. intros Hp. apply Hne. symmetry. apply (position_inj r); [done|lia|lia|done].
Qed.

(** What a change of one entry does to the slots held. *)
Lemma slots_insert (q : list Entry) i e e' : q !! i = Some e ->
  exists l, omap slot q ≡ₚ option_list (slot e) ++ l /\ omap slot (<[i := e']> q) ≡ₚ option_list (slot e') ++ l.
Proof.
  intros Hq. destruct (list_elem_of_split_length _ _ _ Hq) as (l1 & l2 & -> & ->). exists (omap slot (l1 ++ l2)).
  assert (forall x, omap slot (l1 ++ x :: l2) ≡ₚ option_list (slot x) ++ omap slot (l1 ++ l2)) as H.
  { intros x. rewrite !omap_app. cbn [omap list_omap]. destruct (slot x); cbn [option_list app]; [|done].
    by rewrite <- Permutation_middle. }
  split; [apply H|]. rewrite insert_app_r_alt, Nat.sub_diag by done. apply H.
Qed.

(** The tail and the head of the queue. *)
Lemma push_queue r e : ring_shape r -> (len r < CAP)%nat ->
  exists r', push r e = Ok (position r (len r), r') /\ ring_shape r' /\ queue r' = queue r ++ [e] /\
    futures r' = futures r /\ free_slots r' = free_slots r /\ head r' = head r.
Proof.
  intros Hok Hn. unfold push. rewrite (proj2 (Nat.leb_gt CAP (len r))) by done. destruct Hok as [Hl Hh Hb Ho].
  destruct (lookup_lt_is_Some_2 (entries r) (position r (len r))) as [o ->]; [rewrite Hl; apply position_in_ring|].
  eexists. split; [done|]. set (r' := MkRing _ _ _ _ _).
  assert (forall j, (j < CAP)%nat -> at_ r' j = if decide (j = len r) then Some e else at_ r j) as Hat.
  { intros j Hj. unfold at_, entry, r'. cbn [entries]. change (position _ j) with (position r j) in *.
    destruct (decide (j = len r)) as [->|Hne].
    - by rewrite list_lookup_insert_eq by (rewrite Hl; apply position_in_ring).
    - rewrite list_lookup_insert_ne; [done|]. intros Hp. apply Hne. symmetry. apply (position_inj r); [done|lia|lia|done]. }
  assert (ring_shape r') as Hok'.
  { split; [cbn; by rewrite length_insert|done|cbn; lia|]. intros j Hj. rewrite Hat by done. cbn [r' len].
    case_decide; [split; [lia|done]|]. rewrite Ho by done. lia. }
  split; [done|]. split; [|done]. apply list_eq. intros j. rewrite queue_lookup by done. cbn [r' len].
  assert (ring_shape r) as Hr by done. pose proof (queue_length r Hr).
  destruct (Nat.ltb_spec j (S (len r))).
  - rewrite Hat by lia. case_decide as Hd.
    + subst j. by rewrite lookup_app_r, H, Nat.sub_diag by lia.
    + rewrite lookup_app_l, queue_lookup by (done || lia). by rewrite (proj2 (Nat.ltb_lt j (len r))) by lia.
  - symmetry. apply lookup_ge_None. rewrite length_app. cbn. lia.
Qed.

Lemma omap_once {A} (f : A -> option nat) (l : list A) i j x y k :
  NoDup (omap f l) -> l !! i = Some x -> l !! j = Some y -> f x = Some k -> f y = Some k -> i = j.
Proof.
  intros Hnd Hi Hj Hx Hy. destruct (list_elem_of_split_length _ _ _ Hi) as (l1 & l2 & -> & ->).
  rewrite omap_app in Hnd. cbn [omap list_omap] in Hnd. rewrite Hx in Hnd. apply NoDup_app in Hnd as (_ & H1 & H2).
  apply NoDup_cons in H2 as [H2 _]. destruct (decide (j = length l1)) as [|Hne]; [done|]. exfalso.
  assert (forall l, y ∈ l -> k ∈ omap f l) as Hin by (intros l Hl; apply list_elem_of_omap; eauto).
  destruct (decide (j < length l1)%nat).
  - rewrite lookup_app_l in Hj by done. apply (H1 k); [apply Hin; by eapply list_elem_of_lookup_2|]. apply list_elem_of_In. by left.
  - rewrite lookup_app_r in Hj by lia. destruct (j - length l1)%nat eqn:Hd; [lia|]. apply H2, Hin. by eapply list_elem_of_lookup_2.
Qed.

Lemma slots_NoDup r : ring_ok r -> NoDup (free_slots r ++ omap slot (queue r)).
Proof. intros H. rewrite (slots _ H). apply NoDup_seq. Qed.

Lemma slot_owner r i j e e' k : ring_ok r -> queue r !! i = Some e -> queue r !! j = Some e' ->
  slot e = Some k -> slot e' = Some k -> i = j.
Proof. intros (_ & _ & H)%slots_NoDup%NoDup_app Hi Hj He He'. by eapply omap_once. Qed.

Lemma slot_bound r i e k : ring_ok r -> queue r !! i = Some e -> slot e = Some k ->
  (k < length (futures r))%nat /\ k ∉ free_slots r.
Proof.
  intros Hok Hi He. assert (k ∈ omap slot (queue r)) as Hk.
  { apply list_elem_of_omap. exists e. split; [by eapply list_elem_of_lookup_2|done]. }
  split.
  - assert (k ∈ seq 0 (length (futures r))) as Hs by (rewrite <- (slots _ Hok); apply elem_of_app; by right).
    apply list_elem_of_In, in_seq in Hs. lia.
  - intros Hf. apply slots_NoDup, NoDup_app in Hok as (_ & H & _). by apply (H k).
Qed.

(** The future of an entry, and the ring as a list of entries with their futures. *)
Definition fut r (e : Entry) : option F := slot e ≫= fun slot => mjoin (futures r !! slot).
Definition view r : list (Entry * option F) := (fun e => (with_slot e None, fut r e)) <$> queue r.

Lemma view_lookup r i : view r !! i = (fun e => (with_slot e None, fut r e)) <$> queue r !! i.
Proof. apply list_lookup_fmap. Qed.

Lemma view_length r : ring_ok r -> length (view r) = len r.
Proof. intros [H _ _]. unfold view. rewrite length_fmap. by apply queue_length. Qed.

(** Entries keep their futures when the slots they hold are not written. *)
Lemma view_insert r r' i e e' : ring_ok r -> queue r !! i = Some e -> queue r' = <[i := e']> (queue r) ->
  (forall j x, j <> i -> queue r !! j = Some x -> fut r' x = fut r x) ->
  view r' = <[i := (with_slot e' None, fut r' e')]> (view r).
Proof.
  intros Hok He Hq Hf. assert (i < length (queue r))%nat as Hi by (by eapply lookup_lt_Some).
  apply list_eq. intros j. rewrite view_lookup, Hq. destruct (decide (j = i)) as [->|Hne].
  - rewrite !list_lookup_insert_eq; [done|unfold view; by rewrite length_fmap|done].
  - rewrite !list_lookup_insert_ne by done. rewrite view_lookup. destruct (queue r !! j) as [x|] eqn:Hj; [|done].
    cbn. by rewrite (Hf j x).
Qed.

Lemma set_ok r i e e' : ring_ok r -> queue r !! i = Some e -> slot e' = slot e ->
  let r' := set_entry r (position r i) (Some e') in
  ring_ok r' /\ view r' = <[i := (with_slot e' None, fut r e)]> (view r).
Proof.
  intros Hok He Hs r'. destruct Hok as [Hsh Hp Hf]. assert (queue r' = <[i := e']> (queue r)) as Hq by (by eapply queue_set).
  assert (ring_ok r) as Hok by done. split.
  - split; [by eapply set_shape| |done]. rewrite Hq. destruct (slots_insert _ _ _ e' He) as (l & H1 & H2).
    cbn [r' set_entry free_slots futures]. by rewrite H2, Hs, <- H1.
  - rewrite (view_insert r r' i e e'); [|done..]. unfold fut. by rewrite Hs.
Qed.

Lemma clear_ok r i e : ring_ok r -> queue r !! i = Some e ->
  let '(r', dropped) := clear_future r (position r i) in
  ring_ok r' /\ dropped = fut r e /\ queue r' = <[i := with_slot e None]> (queue r) /\
  view r' = <[i := (with_slot e None, None)]> (view r) /\ head r' = head r /\ len r' = len r.
Proof.
  intros Hok He. assert (Hat := He). apply queue_some in Hat as [Hi Hat]; [|apply Hok]. unfold clear_future, at_ in *. rewrite Hat.
  destruct (slot e) as [k|] eqn:Hs.
  - destruct (slot_bound r i e k Hok He Hs) as [Hk Hkf]. set (r' := MkRing _ _ _ _ _).
    change (entries r') with (entries (set_entry r (position r i) (Some (with_slot e None)))) in *.
    assert (ring_shape (set_entry r (position r i) (Some (with_slot e None)))) as Hsh by (eapply set_shape; [apply Hok|done]).
    assert (queue r' = <[i := with_slot e None]> (queue r)) as Hq.
    { rewrite <- (queue_set r i e (with_slot e None)) by (done || apply Hok). done. }
    split; [split|split; [|split; [|split; [|done]]]].
    + by destruct Hsh as [? ? ? ?]; split.
    + rewrite Hq. destruct (slots_insert _ _ _ (with_slot e None) He) as (l & H1 & H2). rewrite H2. rewrite Hs in H1.
      cbn [r' free_slots futures option_list slot with_slot app]. rewrite length_insert, <- (slots _ Hok), H1.
      cbn [option_list app]. by rewrite Permutation_middle.
    + cbn [r' free_slots futures]. constructor; [by rewrite list_lookup_insert_eq|].
      pose proof (free_empty _ Hok) as Hfe. rewrite Forall_forall in Hfe |- *. intros x Hx.
      rewrite list_lookup_insert_ne; [by apply Hfe|]. by intros ->.
    + unfold fut. by rewrite Hs.
    + done.
    + rewrite (view_insert r r' i e (with_slot e None)); [done..|]. intros j x Hne Hx. unfold fut. destruct (slot x) as [k'|] eqn:Hs'; [|done].
      cbn. rewrite list_lookup_insert_ne; [done|]. intros ->. apply Hne. by eapply slot_owner.
  - assert (with_slot e None = e) as Hid by (destruct e; cbn in *; by subst). rewrite Hid.
    rewrite (list_insert_id (queue r)) by done. split; [done|]. unfold fut. rewrite Hs. split; [done|]. split; [done|].
    split; [|done]. rewrite list_insert_id; [done|]. rewrite view_lookup, He. cbn. by rewrite Hid; unfold fut; rewrite Hs.
Qed.

(** Taking an entry away, once its future is. *)
Definition without_front r : Ring F :=
  MkRing (<[head r := None]> (entries r)) (futures r) (free_slots r) ((head r + 1) mod CAP)%nat (len r - 1).
Definition without_back r : Ring F :=
  MkRing (<[position r (len r - 1) := None]> (entries r)) (futures r) (free_slots r) (head r) (len r - 1).

Lemma position_0 r : (head r < CAP)%nat -> position r 0 = head r.
Proof. intros H. unfold position. rewrite Nat.add_0_r. by apply Nat.mod_small. Qed.

Lemma position_S r j : (head r < CAP)%nat -> (S j < CAP)%nat -> position (without_front r) j = position r (S j).
Proof. intros H Hj. unfold position. cbn [without_front head]. rewrite Nat.Div0.add_mod_idemp_l. f_equal. lia. Qed.

Lemma remove_front r : ring_shape r -> (0 < len r)%nat ->
  ring_shape (without_front r) /\ queue (without_front r) = drop 1 (queue r).
Proof.
  intros Hsh Hn. destruct Hsh as [Hl Hh Hb Ho]. assert (ring_shape r) as Hsh by done.
  set (r' := without_front r). assert (0 < CAP)%nat as Hc by lia.
  assert (head r' < CAP)%nat as Hh' by (cbn; by apply Nat.mod_upper_bound).
  assert (forall j, (S j < CAP)%nat -> at_ r' j = at_ r (S j)) as Hat.
  { intros j Hj. unfold at_, entry, r'. rewrite position_S by done. cbn [without_front entries].
    rewrite list_lookup_insert_ne; [done|]. rewrite <- position_0 by done. intros Hp. apply position_inj in Hp; [lia..]. }
  assert (at_ r' (CAP - 1) = None) as Hlast.
  { unfold at_, entry. assert (position r' (CAP - 1) = head r) as ->.
    { unfold position, r'. cbn [without_front head]. rewrite Nat.Div0.add_mod_idemp_l.
      replace (head r + 1 + (CAP - 1))%nat with (head r + 1 * CAP)%nat by lia. rewrite Nat.Div0.mod_add. by apply Nat.mod_small. }
    cbn [r' without_front entries]. by rewrite list_lookup_insert_eq by lia. }
  assert (ring_shape r') as Hsh'.
  { split; [cbn; by rewrite length_insert|done|cbn; lia|]. intros j Hj. cbn [r' without_front len].
    destruct (decide (j = CAP - 1)%nat) as [->|].
    - rewrite Hlast. split; [intros [? ?]; done|lia].
    - rewrite Hat, Ho by lia. lia. }
  split; [done|]. apply list_eq. intros j. rewrite queue_lookup, lookup_drop, queue_lookup by done. cbn [r' without_front len Nat.add].
  destruct (Nat.ltb_spec j (len r - 1)), (Nat.ltb_spec (S j) (len r)); try lia; [|done]. apply Hat. lia.
Qed.

Lemma remove_back r : ring_shape r -> (0 < len r)%nat ->
  ring_shape (without_back r) /\ queue (without_back r) = take (len r - 1) (queue r).
Proof.
  intros Hsh Hn. destruct Hsh as [Hl Hh Hb Ho]. assert (ring_shape r) as Hsh by done.
  set (r' := without_back r).
  assert (forall j, (j < CAP)%nat -> at_ r' j = if decide (j = len r - 1)%nat then None else at_ r j) as Hat.
  { intros j Hj. unfold at_, entry, r'. cbn [without_back entries]. change (position _ j) with (position r j).
    destruct (decide (j = len r - 1)%nat) as [->|Hne].
    - by rewrite list_lookup_insert_eq by (rewrite Hl; apply position_in_ring).
    - rewrite list_lookup_insert_ne; [done|]. intros Hp. apply Hne. symmetry. apply (position_inj r); [done|lia|lia|done]. }
  assert (ring_shape r') as Hsh'.
  { split; [cbn; by rewrite length_insert|done|cbn; lia|]. intros j Hj. cbn [r' without_back len]. rewrite Hat by done.
    case_decide; [subst; split; [intros [? ?]; done|lia]|]. rewrite Ho by lia. lia. }
  split; [done|]. apply list_eq. intros j. rewrite queue_lookup by done. cbn [r' without_back len].
  destruct (Nat.ltb_spec j (len r - 1)).
  - rewrite lookup_take_lt, queue_lookup by done. rewrite Hat by lia. rewrite decide_False by lia.
    by rewrite (proj2 (Nat.ltb_lt j (len r))) by lia.
  - by rewrite lookup_take_ge by lia.
Qed.

Lemma pop_front_ok r e : ring_ok r -> queue r !! 0%nat = Some e ->
  exists r', pop_front r = (r', Some (with_slot e None), fut r e) /\ ring_ok r' /\ view r' = drop 1 (view r) /\
    queue r' = drop 1 (queue r).
Proof.
  intros Hok He. assert (Hn := He). apply queue_some in Hn as [Hn _]; [|apply Hok]. pose proof (head_bound _ (shape _ Hok)) as Hh.
  pose proof (clear_ok r 0 e Hok He) as Hc. rewrite position_0 in Hc by done. unfold pop_front.
  rewrite (proj2 (Nat.eqb_neq (len r) 0)) by lia. destruct (clear_future r (head r)) as [r1 d].
  destruct Hc as (Hok1 & -> & Hq & Hv & Hh1 & Hl1).
  assert (queue r1 !! 0%nat = Some (with_slot e None)) as He1 by (rewrite Hq; apply list_lookup_insert_eq; by eapply lookup_lt_Some).
  assert (entry r1 (head r) = Some (with_slot e None)) as ->.
  { apply queue_some in He1 as [_ He1]; [|apply Hok1]. unfold at_ in He1. rewrite position_0 in He1 by (by rewrite Hh1). by rewrite <- Hh1. }
  exists (without_front r1). split; [unfold without_front; by rewrite Hh1|].
  destruct (remove_front r1) as [Hsh' Hq']; [apply Hok1|lia|]. split; [|split; [|rewrite Hq', Hq; by destruct (queue r)]].
  - split; [done| |apply Hok1]. rewrite Hq'. cbn [without_front free_slots futures]. rewrite <- (slots _ Hok1).
    destruct (queue r1) as [|e1 q1]; [done|]. injection He1 as ->. done.
  - unfold view in *. rewrite Hq', fmap_drop. change (fut (without_front r1)) with (fut r1).
    change (fun e => (with_slot e None, fut (without_front r1) e)) with (fun e => (with_slot e None, fut r1 e)). rewrite Hv.
    destruct (queue r) as [|e0 q]; done.
Qed.

Lemma pop_back_ok r e : ring_ok r -> queue r !! (len r - 1)%nat = Some e ->
  exists r', pop_back r = (r', Some (with_slot e None), fut r e) /\ ring_ok r' /\ view r' = take (len r - 1) (view r) /\
    queue r' = take (len r - 1) (queue r).
Proof.
  intros Hok He. assert (Hn := He). apply queue_some in Hn as [Hn _]; [|apply Hok].
  pose proof (clear_ok r _ e Hok He) as Hc. unfold pop_back.
  rewrite (proj2 (Nat.eqb_neq (len r) 0)) by lia. destruct (clear_future r (position r (len r - 1))) as [r1 d].
  destruct Hc as (Hok1 & -> & Hq & Hv & Hh1 & Hl1).
  assert (queue r1 !! (len r - 1)%nat = Some (with_slot e None)) as He1
    by (rewrite Hq; apply list_lookup_insert_eq; by eapply lookup_lt_Some).
  assert (position r1 (len r1 - 1) = position r (len r - 1)) as Hp by (unfold position; by rewrite Hh1, Hl1).
  assert (entry r1 (position r (len r - 1)) = Some (with_slot e None)) as ->.
  { apply queue_some in He1 as [_ He1]; [|apply Hok1]. unfold at_ in He1. by rewrite <- Hl1, Hp in He1. }
  exists (without_back r1). split; [unfold without_back; by rewrite Hp|].
  destruct (remove_back r1) as [Hsh' Hq']; [apply Hok1|lia|].
  split; [|split; [|rewrite Hq', Hq, Hl1; by rewrite take_insert_ge by lia]].
  - split; [done| |apply Hok1]. rewrite Hq'. cbn [without_back free_slots futures]. rewrite <- (slots _ Hok1).
    rewrite <- (take_drop (len r1 - 1) (queue r1)) at 2. rewrite omap_app.
    assert (drop (len r1 - 1) (queue r1) = [with_slot e None]) as ->; [|cbn; by rewrite app_nil_r].
    rewrite Hl1. erewrite drop_S by exact He1. rewrite drop_ge; [done|]. rewrite queue_length by apply Hok1. lia.
  - unfold view in *. rewrite Hq', fmap_take.
    change (fun e => (with_slot e None, fut (without_back r1) e)) with (fun e => (with_slot e None, fut r1 e)). rewrite Hv, Hl1.
    by rewrite take_insert_ge by lia.
Qed.

Lemma push_ok r e : ring_ok r -> slot e = None -> (len r < CAP)%nat ->
  exists r', push r e = Ok (position r (len r), r') /\ ring_ok r' /\ view r' = view r ++ [(e, None)].
Proof.
  intros Hok Hs Hn. destruct (push_queue r e (shape _ Hok) Hn) as (r' & Hp & Hsh & Hq & Hfu & Hfr & Hh).
  exists r'. split; [done|]. split.
  - split; [done| |rewrite Hfr, Hfu; apply Hok]. rewrite Hq, omap_app, Hfr, Hfu. cbn. rewrite Hs. cbn.
    rewrite app_nil_r. apply Hok.
  - unfold view. rewrite Hq, fmap_app. f_equal; [apply list_fmap_ext; intros j x _; unfold fut; by rewrite Hfu|].
    cbn. unfold fut. rewrite Hs. cbn. f_equal. f_equal. destruct e; cbn in *; by subst.
Qed.

(** A slot for a new handler: one that is free, or a new one. *)
Definition take_slot r : nat * Ring F :=
  match free_slots r with
  | slot :: free => (slot, MkRing (entries r) (futures r) free (head r) (len r))
  | [] => (length (futures r), MkRing (entries r) (futures r ++ [None]) [] (head r) (len r))
  end.

Lemma take_slot_ok r : ring_ok r -> let '(k, r1) := take_slot r in
  queue r1 = queue r /\ ring_shape r1 /\ k :: free_slots r1 ++ omap slot (queue r) ≡ₚ seq 0 (length (futures r1)) /\
  Forall (fun s => futures r1 !! s = Some None) (k :: free_slots r1) /\
  (forall x s, x ∈ queue r -> slot x = Some s -> futures r1 !! s = futures r !! s).
Proof.
  intros Hok. unfold take_slot. destruct Hok as [Hsh Hp Hf]. assert (Hok : ring_ok r) by done.
  destruct (free_slots r) as [|k free].
  - split; [done|]. split; [by destruct Hsh as [? ? ? ?]; split|]. cbn [free_slots futures app] in *.
    rewrite length_app. cbn [length]. rewrite Nat.add_1_r, seq_S, Hp. cbn [Nat.add]. split; [by rewrite Permutation_cons_append|].
    split; [repeat constructor; by rewrite lookup_app_r, Nat.sub_diag by lia|].
    intros x s Hx Hs. rewrite lookup_app_l; [done|]. apply list_elem_of_lookup_1 in Hx as [j Hx]. by destruct (slot_bound r j x s).
  - split; [done|]. split; [by destruct Hsh as [? ? ? ?]; split|]. by cbn [free_slots futures app] in *.
Qed.

Lemma start_ok r i e f : ring_ok r -> queue r !! i = Some e -> slot e = None ->
  exists r', start r (position r i) f = (r', true) /\ ring_ok r' /\ view r' = <[i := (with_stage e Running, Some f)]> (view r) /\
    head r' = head r /\ exists k, queue r' = <[i := with_stage (with_slot e (Some k)) Running]> (queue r).
Proof.
  intros Hok He Hs. pose proof (take_slot_ok r Hok) as Ht. unfold start. fold (take_slot r). destruct (take_slot r) as [k r1] eqn:Htk.
  destruct Ht as (Hq & Hsh & Hp & Hf & Hsame).
  assert (head r1 = head r /\ entries r1 = entries r) as [Hh Hen].
  { unfold take_slot in Htk. destruct (free_slots r); injection Htk as <- <-; done. }
  assert (position r i = position r1 i) as -> by (unfold position; by rewrite Hh).
  assert (He1 := He). rewrite <- Hq in He1. assert (Hat := He1). apply queue_some in Hat as [Hi Hat]; [|done]. unfold at_ in Hat. rewrite Hat.
  apply Forall_cons in Hf as [Hk Hf]. rewrite Hk. eexists. split; [done|]. set (r' := MkRing _ _ _ _ _).
  set (e' := with_stage (with_slot e (Some k)) Running) in *.
  assert (queue r' = <[i := e']> (queue r)) as Hq'.
  { rewrite <- Hq, <- (queue_set r1 i e e') by done. done. }
  assert (k ∉ free_slots r1 ++ omap slot (queue r)) as Hfresh.
  { apply (NoDup_cons_1_1 k). rewrite Hp. apply NoDup_seq. }
  assert (forall j x s, queue r !! j = Some x -> slot x = Some s -> s <> k) as Hne.
  { intros j x s Hx Hxs ->. apply Hfresh, elem_of_app. right. apply list_elem_of_omap. exists x. split; [by eapply list_elem_of_lookup_2|done]. }
  split; [split|split; [|split; [exact Hh|by exists k]]].
  - destruct (set_shape r1 i e e' Hsh He1) as [? ? ? ?]. by split.
  - rewrite Hq'. destruct (slots_insert _ _ _ e' He) as (l & H1 & H2). rewrite H2. rewrite Hs in H1. cbn [option_list app] in H1.
    cbn [r' futures free_slots e' with_stage with_slot slot option_list app]. rewrite length_insert, <- Hp, H1.
    by rewrite Permutation_middle.
  - cbn [r' futures free_slots]. rewrite Forall_forall in Hf |- *. intros s Hs'. rewrite list_lookup_insert_ne; [by apply Hf|].
    intros ->. apply Hfresh, elem_of_app. by left.
  - rewrite (view_insert r r' i e e' Hok He Hq').
    + f_equal. unfold fut. cbn [e' with_stage with_slot slot mbind option_bind r' futures].
      rewrite list_lookup_insert_eq by (by eapply lookup_lt_Some). cbn. f_equal. unfold with_stage. cbn. by rewrite Hs.
    + intros j x Hj Hx. unfold fut. destruct (slot x) as [s|] eqn:Hxs; [|done]. cbn [mbind option_bind r' futures].
      rewrite list_lookup_insert_ne by (intros Heq; by apply (Hne j x s)). f_equal. eapply Hsame; [by eapply list_elem_of_lookup_2|done].
Qed.

Lemma new_ok : ring_ok (new (F := F)) /\ view (new (F := F)) = [].
Proof.
  split; [|done]. split; [|done|by constructor].
  split; [done|cbn [head new]; vm_compute; lia|cbn [len new]; lia|]. intros i Hi. unfold at_, entry, new. cbn [entries len].
  rewrite lookup_replicate_2 by (apply position_in_ring). cbn. split; [intros [? ?]; done|lia].
Qed.

(** A future written in its slot. *)
Definition set_future r (slot : nat) (future : option F) : Ring F :=
  MkRing (entries r) (<[slot := future]> (futures r)) (free_slots r) (head r) (len r).

Lemma set_future_ok r i e k o : ring_ok r -> queue r !! i = Some e -> slot e = Some k ->
  ring_ok (set_future r k o) /\ view (set_future r k o) = <[i := (with_slot e None, o)]> (view r).
Proof.
  intros Hok He Hs. destruct (slot_bound r i e k Hok He Hs) as [Hk Hkf]. set (r' := set_future r k o). split; [split|].
  - by destruct (shape _ Hok) as [? ? ? ?]; split.
  - cbn [r' set_future free_slots futures]. rewrite length_insert. apply Hok.
  - pose proof (free_empty _ Hok) as Hf. cbn [r' set_future free_slots futures]. rewrite Forall_forall in Hf |- *. intros s Hs'.
    rewrite list_lookup_insert_ne; [by apply Hf|]. by intros ->.
  - rewrite (view_insert r r' i e e Hok He).
    + f_equal. unfold fut. rewrite Hs. cbn. by rewrite list_lookup_insert_eq.
    + change (queue r') with (queue r). by rewrite list_insert_id.
    + intros j x Hne Hx. unfold fut. destruct (slot x) as [k'|] eqn:Hs'; [|done]. cbn.
      rewrite list_lookup_insert_ne; [done|]. intros ->. apply Hne. by eapply slot_owner.
Qed.

(** A polled future that completed leaves its slot empty. *)
Definition take_future r (position : nat) : Ring F :=
  match entry r position ≫= slot with
  | Some slot => set_future r slot None
  | None => r
  end.

Lemma at_queue r i : ring_shape r -> (i < CAP)%nat -> entry r (position r i) = queue r !! i.
Proof.
  intros Hsh Hi. rewrite queue_lookup by done. fold (at_ r i). destruct (Nat.ltb_spec i (len r)); [done|].
  destruct (at_ r i) eqn:He; [|done]. assert (i < len r)%nat; [|lia]. by apply (occupied _ Hsh).
Qed.

Lemma first_queue r : ring_shape r -> first r = queue r !! 0%nat.
Proof.
  intros Hsh. unfold first. destruct (Nat.eqb_spec (len r) 0) as [Hn|Hn].
  - symmetry. apply lookup_ge_None. rewrite queue_length by done. lia.
  - rewrite <- at_queue by (done || (pose proof (len_bound _ Hsh); lia)). by rewrite position_0 by apply Hsh.
Qed.

Lemma last_queue r : ring_shape r -> last_mut r = queue r !! (len r - 1)%nat.
Proof.
  intros Hsh. unfold last_mut, last_position. destruct (Nat.eqb_spec (len r) 0) as [Hn|Hn].
  - symmetry. apply lookup_ge_None. rewrite queue_length by done. lia.
  - apply at_queue; [done|]. pose proof (len_bound _ Hsh). lia.
Qed.

(** The slots ever made: as many as handlers ever ran at once. *)
Lemma start_slots r i e f : ring_ok r -> queue r !! i = Some e -> slot e = None ->
  length (futures (start r (position r i) f).1) = Nat.max (length (futures r)) (S (length (omap slot (queue r)))).
Proof.
  intros Hok He Hs. pose proof (take_slot_ok r Hok) as Ht. unfold start. fold (take_slot r).
  assert (length (futures r) = length (free_slots r) + length (omap slot (queue r)))%nat as Hlen.
  { pose proof (Permutation_length (slots _ Hok)) as H. rewrite length_app, length_seq in H. lia. }
  destruct (take_slot r) as [k r1] eqn:Htk. destruct Ht as (Hq & Hsh & _ & Hf & _).
  assert (length (futures r1) = Nat.max (length (futures r)) (S (length (omap slot (queue r))))) as Hl.
  { unfold take_slot in Htk. destruct (free_slots r) eqn:Hfr; injection Htk as <- <-; cbn [futures length] in *; [rewrite length_app; cbn|]; lia. }
  destruct (entry r1 (position r i)); [|done]. apply Forall_cons in Hf as [-> _]. cbn [fst futures]. by rewrite length_insert.
Qed.

(** The ring is a queue in a circle: whatever ring the operations built, a push appends
    the entry, or is refused when 32 are held; a pop takes the first or the last entry
    with the future it ran, which is dropped; starting a handler and clearing its future
    change only that entry, in whichever slots the handlers live: no two share one, none
    is lost, and there are as many as handlers ever ran at once; the positions given out
    name the entries until they leave. *)
Theorem ring_is_queue r : ring_ok r ->
  length (view r) = len r /\ (len r <= CAP)%nat /\
  (forall e, slot e = None -> match push r e with
    | Ok (p, r') => ring_ok r' /\ view r' = view r ++ [(e, None)] /\ index_of r' p = Some (length (view r))
    | Err e' => e' = e /\ length (view r) = CAP end) /\
  (let '(r', e, f) := pop_front r in ring_ok r' /\ view r' = drop 1 (view r) /\
    (e, f) = match view r with [] => (None, None) | (e, f) :: _ => (Some e, f) end) /\
  (let '(r', e, f) := pop_back r in ring_ok r' /\ view r' = take (length (view r) - 1) (view r) /\
    (e, f) = match last (view r) with None => (None, None) | Some (e, f) => (Some e, f) end) /\
  (forall i e f, view r !! i = Some (e, f) ->
    (let '(r', dropped) := clear_future r (position r i) in
      ring_ok r' /\ dropped = f /\ view r' = <[i := (e, None)]> (view r)) /\
    (forall e0 g, queue r !! i = Some e0 -> slot e0 = None -> exists r', start r (position r i) g = (r', true) /\ ring_ok r' /\
      view r' = <[i := (with_stage e Running, Some g)]> (view r) /\
      length (futures r') = Nat.max (length (futures r)) (S (length (omap slot (queue r)))))).
Proof.
  intros Hok. pose proof (view_length r Hok) as Hl. pose proof (len_bound _ (shape _ Hok)) as Hb.
  split; [done|]. split; [done|]. split; [|split; [|split]].
  - intros e Hs. destruct (Nat.ltb_spec (len r) CAP) as [Hn|Hn].
    + destruct (push_ok r e Hok Hs Hn) as (r' & Hp & Hok' & Hv). rewrite Hp. split; [done|]. split; [done|].
      destruct (push_queue r e (shape _ Hok) Hn) as (r1 & Hp1 & _ & _ & _ & _ & Hh). rewrite Hp in Hp1. injection Hp1 as <-.
      assert (position r (len r) = position r' (len r)) as -> by (unfold position; by rewrite Hh).
      rewrite index_of_position by (done || apply Hok'). rewrite Hl, <- (view_length r' Hok'), Hv, length_app, Hl. change (length [(e, None)]) with 1%nat.
      by rewrite (proj2 (Nat.ltb_lt (len r) (len r + 1))) by lia.
    + unfold push. rewrite (proj2 (Nat.leb_le CAP (len r))) by lia. split; [done|lia].
  - destruct (queue r !! 0%nat) as [e|] eqn:He.
    + destruct (pop_front_ok r e Hok He) as (r' & -> & Hok' & Hv & _). split; [done|]. split; [done|].
      unfold view. by destruct (queue r) as [|e0 q]; [|injection He as ->].
    + assert (len r = 0%nat) as Hz by (apply lookup_ge_None in He; rewrite queue_length in He by apply Hok; lia).
      unfold pop_front. rewrite Hz. split; [done|]. destruct (view r) as [|[e f] l] eqn:Hvw; [done|cbn in Hl; lia].
  - destruct (queue r !! (len r - 1)%nat) as [e|] eqn:He.
    + destruct (pop_back_ok r e Hok He) as (r' & -> & Hok' & Hv & _). split; [done|]. split; [by rewrite Hl|].
      rewrite last_lookup, Hl, <- Nat.sub_1_r, view_lookup, He. done.
    + assert (len r = 0%nat) as Hz.
      { apply lookup_ge_None in He. rewrite queue_length in He by apply Hok. lia. }
      unfold pop_back. rewrite Hz. split; [done|]. destruct (view r) as [|[e f] l] eqn:Hvw; [done|cbn in Hl; lia].
  - intros i e f Hv. rewrite view_lookup in Hv. destruct (queue r !! i) as [e0|] eqn:He; [|done]. injection Hv as <- <-. split.
    + pose proof (clear_ok r i e0 Hok He) as Hc. destruct (clear_future r (position r i)). naive_solver.
    + intros e1 g [= <-] Hs. destruct (start_ok r i e0 g Hok He Hs) as (r' & Hst & Hok' & Hv' & _). exists r'. split; [done|]. split; [done|].
      split; [rewrite Hv'; unfold with_stage; cbn; by rewrite Hs|].
      pose proof (start_slots r i e0 g Hok He Hs) as Hsl. by rewrite Hst in Hsl.
Qed.
End queue.

Lemma ring_is_queue_witness :
  let e := Entry_new (Record_new 2) Waiting 7 in
  match push (new (F := unit)) e with Ok (p, r') => view r' = [(e, None)] /\ index_of r' p = Some 0%nat | Err _ => False end.
Proof.
  intros e. destruct (ring_is_queue (new (F := unit)) (proj1 new_ok)) as (_ & _ & H & _).
  specialize (H e eq_refl). destruct (push new e) as [[p r']|] eqn:He; [|vm_compute in He; discriminate].
  destruct H as (_ & H1 & H2). split; [exact H1|exact H2].
Defined.
