(* ===== verification/HttpSerialize.v ===== *)
(** * The bytes of a response

    The part of [zero-http/src/conn.rs] that turns a record into octets: the head the
    driver writes around the fields of the handler, what a write in progress sends, and the
    host of an authority. *)
From S2P Require Import Prelude Scalar HttpTypes HttpFields Date DateText H1Head H1Grammar H1Response HttpError HttpRecord HttpCall HttpRing.

Definition CONTINUE : bytes := bs "HTTP/1.1 100 Continue" ++ CRLF ++ CRLF.
Definition MAX_RESPONSE_HEAD : Z := 16 * 1024 * 1024.
Definition SLICES : nat := 1 + 2 * CAP.

(** ** The host of an authority *)

Definition HTTPS : bytes := bs "https://".

(** [strip_suffix(b".")]. *)
Definition strip_dot (host : bytes) : bytes :=
  match last host with Some b => if b =? 0x2E then take (length host - 1) host else host | None => host end.

Definition host_of (authority : bytes) : bytes :=
  let host :=
    if (match authority with b :: _ => b =? 0x5B | [] => false end) then
      let end_ := match Prelude.position (fun byte => byte =? 0x5D) authority with Some at_ => S at_ | None => length authority end in
      default authority (get_to end_ authority)
    else
      match rposition (fun byte => byte =? 0x3A) authority with
      | Some colon =>
          if forallb is_digit (drop (S colon) authority) then default authority (get_to colon authority) else authority
      | None => authority
      end in
  strip_dot host.

Example hosts : host_of <$> [bs "example.org:8443"; bs "example.org."; bs "[::1]:443"; bs "a:b"]
  = [bs "example.org"; bs "example.org"; bs "[::1]"; bs "a:b"].
Proof. reflexivity. Qed.

(** ** The head *)

(** [Date::set_unix] of [zero-io/src/date.rs]: the block every response carries. *)
Definition date_block (unix : Z) : bytes :=
  let date :=
    match DateText.from_unix unix with
    | Some date => date
    | None =>
        match DateText.from_unix DateText.MAX_UNIX_SECONDS with
        | Some date => date
        | None => default [] (DateText.from_unix 0)
        end
    end in
  bs "Date: " ++ date ++ CRLF.

Record HeadParts : Type := MkHeadParts {
  parts_status : StatusCode;
  parts_head_request : bool;
  date : bytes;
  server : bytes;
  parts_body_len : Z;
  parts_close : bool;
  keep_alive_10 : bool;
  switches : bool;
  advertises : bool;
  streams : bool;
}.

Definition write_head (parts : HeadParts) (fields : bytes) : W unit :=
  let* _ := status_line (parts_status parts) in
  let* _ := raw (date parts) in
  let* _ := if bool_decide (server parts = []) then ret tt else raw (server parts) in
  let* _ := if content_length_allowed (parts_status parts) && negb (streams parts)
            then content_length (parts_body_len parts) else ret tt in
  let* _ := raw fields in
  let* _ := if switches parts || advertises parts then field_id Connection (bs "Upgrade") else ret tt in
  let* _ := if parts_close parts then connection_close
            else if keep_alive_10 parts then field_id Connection (bs "keep-alive") else ret tt in
  end_head.

(** The buffer is doubled until the head fits, up to [MAX_RESPONSE_HEAD]; thirteen turns
    take the least capacity past that. *)
Fixpoint serialize_loop (fuel : nat) (capacity : Z) (parts : HeadParts) (fields : bytes) : option bytes :=
  match fuel with
  | O => None
  | S fuel =>
      match write_head parts fields (writer_new (replicate (Z.to_nat capacity) 0) (parts_head_request parts)) with
      | (writer, Ok _) => Some (take (written_len writer) (out writer))
      | (_, Err _) =>
          if capacity <? MAX_RESPONSE_HEAD then serialize_loop fuel (saturating_mul 64 capacity 2) parts fields else None
      end
  end.
Definition SERIALIZE_FUEL : nat := 13.

(** A claim holds only for the response it was made for. *)
Definition honoured (record : RequestRecord) : option TakeOver :=
  let status := default OK (HttpRecord.status (HttpRecord.answer record)) in
  match kind <$> claim (HttpRecord.answer record) with
  | Some Upgrade => if status =? SWITCHING_PROTOCOLS then Some Upgrade else None
  | Some Stream => if body_allowed (record_head_request record) status then Some Stream else None
  | None => None
  end.

Definition head_parts (date server : bytes) (record : RequestRecord) (close : bool) : HeadParts :=
  let taken := honoured record in
  let close := match taken with Some Upgrade => false | Some Stream => true | None => close end in
  {| parts_status := default OK (HttpRecord.status (HttpRecord.answer record));
     parts_head_request := record_head_request record;
     date := date;
     server := server;
     parts_body_len := Z.of_nat (body_len (response_body (HttpRecord.answer record)));
     parts_close := close;
     keep_alive_10 := negb close && bool_decide (record_version record = Http10) && record_keep_alive record;
     switches := bool_decide (taken = Some Upgrade);
     advertises := advertise_upgrade (HttpRecord.answer record);
     streams := bool_decide (taken = Some Stream) |}.

Definition bare (parts : HeadParts) : HeadParts :=
  {| parts_status := INTERNAL_SERVER_ERROR; parts_head_request := parts_head_request parts; date := date parts;
     server := server parts; parts_body_len := 0; parts_close := parts_close parts; keep_alive_10 := keep_alive_10 parts;
     switches := false; advertises := false; streams := false |}.

(** [capacity] is what the allocator gave the buffer of the head. *)
Definition serialize (date server : bytes) (capacity : Z) (record : RequestRecord) (close : bool) : RequestRecord :=
  let parts := head_parts date server record close in
  let record :=
    match honoured record with
    | None => with_answer record (with_claim (HttpRecord.answer record) None)
    | Some _ => record
    end in
  let owed_continue := switches parts && negb (continued record)
    && match parsed (received record) with Some head => match expect head with ExpectContinue => true | _ => false end | None => false end in
  let fields := response_fields (HttpRecord.answer record) in
  match serialize_loop SERIALIZE_FUEL (Z.max capacity (Z.of_nat RESPONSE_HEAD_CAPACITY)) parts fields with
  | Some head =>
      with_answer record (with_response_head (HttpRecord.answer record) ((if owed_continue then CONTINUE else []) ++ head))
  | None =>
      let record := clear_response record in
      let answer := with_status (HttpRecord.answer record) (Some INTERNAL_SERVER_ERROR) in
      let head :=
        match write_head (bare parts) [] (writer_new (replicate RESPONSE_HEAD_CAPACITY 0) (parts_head_request parts)) with
        | (writer, Ok _) => take (written_len writer) (out writer)
        | (_, Err _) => []
        end in
      with_answer record (with_response_head answer head)
  end.

(** ** A write *)

Definition sends_body (record : RequestRecord) : bool :=
  body_allowed (record_head_request record) (default OK (HttpRecord.status (HttpRecord.answer record))).

Definition response_len (record : RequestRecord) : Z :=
  let body := if sends_body record then body_len (response_body (HttpRecord.answer record)) else O in
  saturating_add 64 (Prelude.len (response_head (HttpRecord.answer record))) (Z.of_nat body).

Record Writing : Type := MkWriting { count : nat; prefix : bool; written : Z; total : Z }.

Definition push_slice (slices : list bytes) (octets : bytes) : list bytes :=
  if bool_decide (octets = []) then slices
  else if (length slices <? SLICES)%nat then slices ++ [octets] else slices.

Fixpoint response_slices (indices : list nat) (entries : list (option Entry)) (head : nat) (slices : list bytes) : list bytes :=
  match indices with
  | [] => slices
  | index :: indices =>
      match record_at entries head index with
      | None => slices
      | Some record =>
          let slices := push_slice slices (response_head (HttpRecord.answer record)) in
          let slices := if sends_body record then push_slice slices (HttpRecord.body_bytes (response_body (HttpRecord.answer record))) else slices in
          response_slices indices entries head slices
      end
  end.

(** [IoSlice::advance_slices]. *)
Fixpoint advance_slices (slices : list bytes) (n : nat) : list bytes :=
  match slices with
  | [] => []
  | s :: rest => if (length s <=? n)%nat then advance_slices rest (n - length s) else drop n s :: rest
  end.

(** The slices still to write. *)
Definition fill_slices (entries : list (option Entry)) (head : nat) (writing : Writing) : list bytes :=
  let slices := response_slices (seq 0 (count writing)) entries head (if prefix writing then push_slice [] CONTINUE else []) in
  if written writing <? Prelude.len (concat slices) then advance_slices slices (Z.to_nat (written writing)) else slices.

(** ** What a head is *)

(** A step of the head appends its text or finds no room. *)
Definition writes (code : StatusCode) (t : bytes) (m : W unit) : Prop :=
  forall w, writer_ok w -> H1Response.status w = Some code ->
  if room w t then m w = (append w t, Ok ()) else exists w', m w = (w', Err Full).

Lemma append_ok w t : writer_ok w -> room w t = true -> writer_ok (append w t).
Proof.
  intros Hw Hr. destruct (written_octets_append w t Hw Hr) as (_ & _ & Hl). destruct Hw as [Hw Hs].
  apply Nat.leb_le in Hr. split; cbn [append written_len out] in *; [lia|]. unfold Prelude.len in *. by rewrite Hl.
Qed.

Lemma writes_seq code s t m (k : W unit) : writes code s m -> writes code t k -> writes code (s ++ t) (let* _ := m in k).
Proof.
  intros Hm Hk w Hw Hst. specialize (Hm w Hw Hst). unfold bind. destruct (room w (s ++ t)) eqn:Hr.
  - destruct (room_app _ _ _ Hr) as [Hs Ht]. rewrite Hs in Hm. rewrite Hm.
    specialize (Hk (append w s) (append_ok _ _ Hw Hs) Hst). rewrite Ht in Hk. by rewrite Hk, append_app.
  - destruct (room w s) eqn:Hs; [|destruct Hm as [w' ->]; by exists w'].
    rewrite Hm. specialize (Hk (append w s) (append_ok _ _ Hw Hs) Hst).
    destruct (room (append w s) t) eqn:Ht; [|done]. exfalso. apply Nat.leb_le in Hs, Ht. apply Nat.leb_gt in Hr.
    rewrite length_app in Hr. cbn [append written_len out] in Ht. destruct Hw as [Hw _].
    rewrite !length_app, length_take, length_drop in Ht. lia.
Qed.

Lemma writes_emit code t m :
  (forall w, writer_ok w -> H1Response.status w = Some code -> m w = emit t () w) -> writes code t m.
Proof. intros H w Hw Hst. rewrite H by done. unfold emit. destruct (room w t); [done|by eexists]. Qed.

Lemma writes_nothing code : writes code [] (ret tt).
Proof.
  intros w [Hw _] _. unfold room, ret. cbn [length]. rewrite Nat.add_0_r, (proj2 (Nat.leb_le _ _)) by done.
  f_equal. unfold append. cbn [app length]. rewrite Nat.add_0_r, take_drop. by destruct w.
Qed.

Lemma writes_raw code t : writes code t (raw t).
Proof. apply writes_emit. intros w Hw Hst. unfold raw, has_status, bind. rewrite Hst. apply copy_emit. Qed.

Lemma writes_end code : writes code CRLF end_head.
Proof. apply writes_emit. intros w Hw Hst. unfold end_head, has_status, bind. rewrite Hst. apply copy_emit. Qed.

Lemma writes_line code name value m : (forall w, m w = field_line name value w) -> writes code (line name value) m.
Proof. intros H. apply writes_emit. intros w Hw Hst. by rewrite H, field_line_emit, Hst. Qed.

Lemma writes_length code n : word 64 n -> content_length_allowed code = true ->
  writes code (line (bs "Content-Length") (decimal_text n)) (content_length n).
Proof.
  intros Hn Ha. apply writes_emit. intros w Hw Hst. unfold content_length, has_status, bind. rewrite Hst, Ha. cbn [negb].
  destruct (decimal_new_text n Hn) as [-> _]. change (canonical ContentLength) with (bs "Content-Length").
  by rewrite field_line_emit, Hst.
Qed.

Lemma writes_if code (b : bool) s t m k : writes code s m -> writes code t k ->
  writes code (if b then s else t) (if b then m else k).
Proof. by destruct b. Qed.

(** The head, piece by piece. *)
Definition length_text (parts : HeadParts) : bytes :=
  if content_length_allowed (parts_status parts) && negb (streams parts)
  then line (bs "Content-Length") (decimal_text (parts_body_len parts)) else [].
Definition connection_text (parts : HeadParts) : bytes :=
  (if switches parts || advertises parts then line (bs "Connection") (bs "Upgrade") else [])
  ++ (if parts_close parts then line (bs "Connection") (bs "close")
      else if keep_alive_10 parts then line (bs "Connection") (bs "keep-alive") else []).
Definition fields_text (parts : HeadParts) (fields : bytes) : bytes :=
  date parts ++ server parts ++ length_text parts ++ fields ++ connection_text parts.
Definition head_text (parts : HeadParts) (fields : bytes) : bytes :=
  status_text (parts_status parts) ++ fields_text parts fields ++ CRLF.

Lemma write_head_rest parts fields : word 64 (parts_body_len parts) ->
  writes (parts_status parts) (fields_text parts fields ++ CRLF)
    (let* _ := raw (date parts) in
     let* _ := if bool_decide (server parts = []) then ret tt else raw (server parts) in
     let* _ := if content_length_allowed (parts_status parts) && negb (streams parts)
               then content_length (parts_body_len parts) else ret tt in
     let* _ := raw fields in
     let* _ := if switches parts || advertises parts then field_id Connection (bs "Upgrade") else ret tt in
     let* _ := if parts_close parts then connection_close
               else if keep_alive_10 parts then field_id Connection (bs "keep-alive") else ret tt in
     end_head).
Proof.
  intros Hn. unfold fields_text, connection_text. rewrite <- !app_assoc.
  apply writes_seq; [apply writes_raw|]. apply writes_seq.
  { case_bool_decide as Hs; [rewrite Hs; apply writes_nothing|apply writes_raw]. }
  apply writes_seq.
  { unfold length_text. destruct (content_length_allowed (parts_status parts)) eqn:Ha; cbn [andb]; [|apply writes_nothing].
    apply writes_if; [by apply writes_length|apply writes_nothing]. }
  apply writes_seq; [apply writes_raw|]. apply writes_seq.
  { apply writes_if; [by apply writes_line|apply writes_nothing]. }
  apply writes_seq; [|apply writes_end].
  apply writes_if; [by apply writes_line|]. apply writes_if; [by apply writes_line|apply writes_nothing].
Qed.

Lemma write_head_text parts fields out hr : word 64 (parts_body_len parts) -> Prelude.len out < 2 ^ 63 ->
  if (length (head_text parts fields) <=? length out)%nat
  then exists w, write_head parts fields (writer_new out hr) = (w, Ok ()) /\
    take (written_len w) (H1Response.out w) = head_text parts fields
  else exists w, write_head parts fields (writer_new out hr) = (w, Err Full).
Proof.
  intros Hn Ho. assert (writer_ok (writer_new out hr)) as Hw0 by (split; cbn; [lia|done]).
  pose proof (write_head_rest parts fields Hn) as Hrest. set (st := status_text (parts_status parts)).
  match type of Hrest with writes _ _ ?m => set (rest := m) in Hrest end.
  set (w1 := MkWriter (H1Response.out (append (writer_new out hr) st)) (length st) (Some (parts_status parts)) hr).
  assert (write_head parts fields (writer_new out hr)
    = if room (writer_new out hr) st then rest w1 else (writer_new out hr, Err Full)) as Hstep.
  { unfold write_head. unfold bind at 1. rewrite status_line_emit by done. fold st. by destruct (room (writer_new out hr) st). }
  assert (forall t, room (writer_new out hr) t = (length t <=? length out)%nat) as Hroom by done.
  destruct (room (writer_new out hr) st) eqn:Hr.
  - assert (writer_ok w1) as Hw1.
    { destruct (append_ok _ _ Hw0 Hr) as [H1 H2]. split; [exact H1|exact H2]. }
    specialize (Hrest w1 Hw1 eq_refl).
    assert (room w1 (fields_text parts fields ++ CRLF) = (length (head_text parts fields) <=? length out)%nat) as Hr1.
    { unfold room, head_text. fold st. cbn [w1 written_len H1Response.out].
      destruct (written_octets_append _ _ Hw0 Hr) as (_ & _ & ->). cbn [writer_new H1Response.out]. by rewrite (length_app st). }
    rewrite Hr1 in Hrest. destruct (length (head_text parts fields) <=? length out)%nat eqn:Hle.
    + eexists. split; [by rewrite Hstep|]. destruct (written_octets_append w1 _ Hw1 Hr1) as (Hwr & _ & _).
      destruct (append_ok w1 _ Hw1 Hr1) as [Hok _]. unfold written_octets, get_to in Hwr. rewrite decide_True in Hwr by done.
      cbn [default from_option Datatypes.id id] in Hwr. rewrite Hwr. unfold head_text. fold st. f_equal.
      destruct (written_octets_append _ _ Hw0 Hr) as (Hw & _ & _). exact Hw.
    + destruct Hrest as [w2 Hrest]. exists w2. by rewrite Hstep.
  - rewrite (proj2 (Nat.leb_gt _ _)); [eexists; by rewrite Hstep|]. apply Nat.leb_gt in Hr. cbn [writer_new written_len H1Response.out] in Hr.
    unfold head_text. rewrite length_app. fold st. lia.
Qed.

(** The buffer is large enough in the end, unless no buffer may be. *)
Lemma serialize_loop_text parts fields : word 64 (parts_body_len parts) -> forall fuel capacity,
  0 < capacity < 2 ^ 63 -> MAX_RESPONSE_HEAD <= capacity * 2 ^ (Z.of_nat fuel - 1) -> (0 < fuel)%nat ->
  serialize_loop fuel capacity parts fields = Some (head_text parts fields) \/
  serialize_loop fuel capacity parts fields = None /\ MAX_RESPONSE_HEAD < Prelude.len (head_text parts fields).
Proof.
  intros Hn. induction fuel as [|fuel IH]; intros capacity Hc Hm Hf; [lia|]. cbn [serialize_loop].
  assert (Prelude.len (replicate (Z.to_nat capacity) 0) < 2 ^ 63) as Ho by (unfold Prelude.len; rewrite length_replicate; lia).
  pose proof (write_head_text parts fields _ (parts_head_request parts) Hn Ho) as Hw. rewrite length_replicate in Hw.
  destruct (Nat.leb_spec (length (head_text parts fields)) (Z.to_nat capacity)) as [Hle|Hgt].
  - destruct Hw as (w & -> & Ht). left. by rewrite Ht.
  - destruct Hw as (w & ->). destruct (Z.ltb_spec capacity MAX_RESPONSE_HEAD) as [Hs|Hs].
    + assert (saturating_mul 64 capacity 2 = capacity * 2) as ->.
      { unfold saturating_mul, MAX_RESPONSE_HEAD in *. pow2. lia. }
      destruct fuel as [|fuel].
      * exfalso. change (Z.of_nat 1 - 1) with 0 in Hm. lia.
      * apply IH; [unfold MAX_RESPONSE_HEAD in *; pow2; lia| |lia].
        replace (Z.of_nat (S (S fuel)) - 1) with (1 + (Z.of_nat (S fuel) - 1)) in Hm by lia.
        rewrite Z.pow_add_r in Hm by lia. change (2 ^ 1) with 2 in Hm. lia.
    + right. split; [done|]. unfold Prelude.len. lia.
Qed.

(** The [Server] line of the configuration ([server.rs]): a value that is valid, or none. *)
Definition server_block (value : option bytes) : bytes :=
  match value with Some value => bs "Server: " ++ value ++ CRLF | None => [] end.

(** What leaves for a record, and the lines of its head. *)
Definition response_octets (record : RequestRecord) : bytes :=
  response_head (HttpRecord.answer record) ++ if sends_body record then HttpRecord.body_bytes (response_body (HttpRecord.answer record)) else [].

Definition given_line (b : bool) (name value : bytes) : list Line := if b then [(name, value)] else [].
Definition all_lines (parts : HeadParts) (date_value : bytes) (server_value : option bytes) (ls : list Line) : list Line :=
  (bs "Date", date_value) :: match server_value with Some v => [(bs "Server", v)] | None => [] end
  ++ given_line (content_length_allowed (parts_status parts) && negb (streams parts)) (bs "Content-Length") (decimal_text (parts_body_len parts))
  ++ ls ++ given_line (switches parts || advertises parts) (bs "Connection") (bs "Upgrade")
  ++ given_line (parts_close parts) (bs "Connection") (bs "close")
  ++ given_line (negb (parts_close parts) && keep_alive_10 parts) (bs "Connection") (bs "keep-alive").

(** The values of the lines of a name, in any case. *)
Definition named (h : HeaderName) (ls : list Line) : list bytes :=
  omap (fun l => if bool_decide (to_lower l.1 = HttpTypes.as_bytes h) then Some l.2 else None) ls.

Definition owed (record : RequestRecord) : bool :=
  bool_decide (honoured record = Some Upgrade) && negb (continued record)
  && match parsed (received record) with Some head => match expect head with ExpectContinue => true | _ => false end | None => false end.

Lemma all_lines_text parts v sv ls : date parts = line (bs "Date") v -> server parts = server_block sv ->
  lines_text (all_lines parts v sv ls) = fields_text parts (lines_text ls).
Proof.
  intros Hd Hs. unfold all_lines, fields_text, length_text, connection_text, given_line. rewrite Hd, Hs.
  unfold lines_text at 1. rewrite bind_cons, !bind_app. cbn [fst snd]. f_equal. f_equal; [destruct sv; cbn; by rewrite ?app_nil_r|].
  f_equal; [by destruct (_ && _); cbn; rewrite ?app_nil_r|]. f_equal.
  f_equal; [by destruct (_ || _); cbn; rewrite ?app_nil_r|].
  by destruct (parts_close parts), (keep_alive_10 parts); cbn; rewrite ?app_nil_r.
Qed.

Lemma named_app h ls ms : named h (ls ++ ms) = named h ls ++ named h ms.
Proof. apply omap_app. Qed.

Lemma named_cons h l ls : named h (l :: ls) = (if bool_decide (to_lower l.1 = HttpTypes.as_bytes h) then [l.2] else []) ++ named h ls.
Proof. unfold named. cbn. by destruct (bool_decide _). Qed.

Lemma named_given h b name value : named h (given_line b name value)
  = if b && bool_decide (to_lower name = HttpTypes.as_bytes h) then [value] else [].
Proof. destruct b; [|done]. cbn. by destruct (bool_decide _). Qed.

(** The lines of a handler never bear a name of the driver. *)
Lemma named_handler h ls : h ∈ DRIVER_FIELDS -> Forall line_ok ls -> named h ls = [].
Proof.
  intros Hh. induction 1 as [|l ls Hl _ IH]; [done|]. unfold named in *. cbn [omap list_omap]. rewrite IH.
  destruct (line_is_field l Hl) as (_ & _ & Hne). by rewrite bool_decide_eq_false_2 by (by apply Hne).
Qed.

Lemma record_parts date server record close :
  parts_status (head_parts date server record close) = default OK (HttpRecord.status (HttpRecord.answer record)) /\
  switches (head_parts date server record close) = bool_decide (honoured record = Some Upgrade).
Proof. done. Qed.

Lemma serialize_head date server capacity record close :
  0 <= capacity < 2 ^ 63 -> Z.of_nat (body_len (response_body (HttpRecord.answer record))) < 2 ^ 64 ->
  let parts := head_parts date server record close in
  let text := head_text parts (response_fields (HttpRecord.answer record)) in
  let a := with_claim (HttpRecord.answer record)
    (match honoured record with Some _ => claim (HttpRecord.answer record) | None => None end) in
  serialize date server capacity record close
    = with_answer record (with_response_head a ((if owed record then CONTINUE else []) ++ text)) \/
  MAX_RESPONSE_HEAD < Prelude.len text /\ exists head,
    serialize date server capacity record close
    = with_answer record (MkAnswer (Some INTERNAL_SERVER_ERROR) [] (Owned []) false head None false) /\
    (head = [] \/ head = head_text (bare parts) []).
Proof.
  intros Hc Hb parts text a.
  assert (word 64 (parts_body_len parts)) as Hn by (unfold parts, head_parts; cbn [parts_body_len]; word_lia).
  set (cap := Z.max capacity (Z.of_nat RESPONSE_HEAD_CAPACITY)).
  assert (with_answer (match honoured record with None => with_answer record (with_claim (HttpRecord.answer record) None) | Some _ => record end) = with_answer record) as Hw
    by (by destruct (honoured record)).
  assert (HttpRecord.answer (match honoured record with None => with_answer record (with_claim (HttpRecord.answer record) None) | Some _ => record end) = a) as Ha.
  { unfold a. destruct (honoured record); [by destruct (HttpRecord.answer record)|done]. }
  assert (response_fields a = response_fields (HttpRecord.answer record)) as Hf by done.
  unfold serialize. fold parts. fold cap.
  destruct (serialize_loop_text parts (response_fields (HttpRecord.answer record)) Hn SERIALIZE_FUEL cap) as [Hl|[Hl Hbig]].
  - unfold cap, RESPONSE_HEAD_CAPACITY. lia.
  - unfold cap, RESPONSE_HEAD_CAPACITY, MAX_RESPONSE_HEAD. change (Z.of_nat SERIALIZE_FUEL - 1) with 12. lia.
  - unfold SERIALIZE_FUEL. lia.
  - left. rewrite Ha, Hf, Hl. unfold owed. fold text. change (switches parts) with (bool_decide (honoured record = Some Upgrade)). by destruct (honoured record).
  - right. split; [done|]. rewrite Ha, Hf, Hl. unfold clear_response. rewrite Ha.
    pose proof (write_head_text (bare parts) [] (replicate RESPONSE_HEAD_CAPACITY 0) (parts_head_request parts) ltac:(split; done) ltac:(done)) as Hbare.
    destruct (_ <=? _)%nat in Hbare; destruct Hbare as (w & Hbare).
    + destruct Hbare as [-> Ht]. rewrite Ht. eexists. split; [by destruct (honoured record)|by right].
    + rewrite Hbare. eexists. split; [by destruct (honoured record)|by left].
Qed.

Lemma all_lines_named parts v sv ls : Forall line_ok ls ->
  named ContentLength (all_lines parts v sv ls)
    = (if content_length_allowed (parts_status parts) && negb (streams parts) then [decimal_text (parts_body_len parts)] else []) /\
  named TransferEncoding (all_lines parts v sv ls) = [] /\ named HttpTypes.Date (all_lines parts v sv ls) = [v] /\
  named Connection (all_lines parts v sv ls)
    = (if switches parts || advertises parts then [bs "Upgrade"] else [])
      ++ (if parts_close parts then [bs "close"] else if keep_alive_10 parts then [bs "keep-alive"] else []).
Proof.
  intros Hls. assert (forall h, h ∈ DRIVER_FIELDS -> named h (all_lines parts v sv ls) =
    (if bool_decide (to_lower (bs "Date") = HttpTypes.as_bytes h) then [v] else []) ++
    (match sv with Some s => if bool_decide (to_lower (bs "Server") = HttpTypes.as_bytes h) then [s] else [] | None => [] end) ++
    named h (given_line (content_length_allowed (parts_status parts) && negb (streams parts)) (bs "Content-Length") (decimal_text (parts_body_len parts))) ++
    named h (given_line (switches parts || advertises parts) (bs "Connection") (bs "Upgrade")) ++
    named h (given_line (parts_close parts) (bs "Connection") (bs "close")) ++
    named h (given_line (negb (parts_close parts) && keep_alive_10 parts) (bs "Connection") (bs "keep-alive"))) as H.
  { intros h Hh. unfold all_lines. rewrite named_cons, !named_app, (named_handler h ls Hh Hls).
    f_equal. f_equal. by destruct sv; [rewrite named_cons, app_nil_r|]. }
  rewrite (H ContentLength), (H TransferEncoding), (H HttpTypes.Date), (H Connection), !named_given
    by (apply list_elem_of_In; cbn; tauto).
  repeat apply conj; destruct sv; 
    repeat match goal with |- context [bool_decide (to_lower ?l = HttpTypes.as_bytes ?h)] =>
      let b := eval vm_compute in (bool_decide (to_lower l = HttpTypes.as_bytes h)) in
      change (bool_decide (to_lower l = HttpTypes.as_bytes h)) with b end; rewrite ?andb_true_r, ?andb_false_r; cbn [app]; try done;
    by destruct (content_length_allowed _), (streams parts), (switches parts), (advertises parts), (parts_close parts), (keep_alive_10 parts).
Qed.

Lemma all_lines_ok parts v sv ls : word 64 (parts_body_len parts) -> value_ok v -> (forall s, sv = Some s -> value_ok s) -> Forall line_ok ls ->
  Forall (fun l => field_ok (MkFieldText l.1 [SP] l.2 [])) (all_lines parts v sv ls).
Proof.
  intros Hn Hv Hs Hls.
  assert (forall b name value, is_token name = true -> value_ok value ->
    Forall (fun l => field_ok (MkFieldText l.1 [SP] l.2 [])) (given_line b name value)) as Hg.
  { intros b name value Hna Hva. destruct b; constructor; [by apply field_grammar|constructor]. }
  unfold all_lines. constructor; [by apply field_grammar|]. repeat apply Forall_app_2; try (apply Hg; [done|apply value_ok_valid; vm_compute; reflexivity]).
  - destruct sv as [s|]; constructor; [apply field_grammar; [done|by apply Hs]|constructor].
  - apply Hg; [done|]. apply digits_value_ok, digits_digit. word_lia.
  - eapply Forall_impl; [exact Hls|]. intros l Hl. by destruct (line_is_field l Hl) as (_ & ? & _).
Qed.

(** ** Sizes *)

Lemma name_length_bytes names i : Forall (fun l => length l = 3%nat /\ Forall (fun b => is_field_vchar b = true) l) names ->
  0 <= i < Prelude.len names -> length (DateText.name names i) = 3%nat /\ Forall (fun b => is_field_vchar b = true) (DateText.name names i).
Proof.
  intros Hn Hi. destruct (lookup_lt_is_Some_2 names (Z.to_nat i)) as [l Hl]; [unfold Prelude.len in Hi; lia|].
  unfold DateText.name. rewrite Hl. cbn. by apply (Forall_lookup_1 _ _ _ _ Hn Hl).
Qed.

Lemma two_vchar v : 0 <= v < 100 -> Forall (fun b => is_field_vchar b = true) (DateText.two v).
Proof.
  intros Hv. unfold DateText.two. assert (0 <= v / 10 <= 9 /\ 0 <= v mod 10 <= 9) as [? ?].
  { pose proof (Z.mod_pos_bound v 10 ltac:(lia)). split; [|lia]. split; [apply Z.div_pos; lia|]. apply Z.lt_succ_r, Z.div_lt_upper_bound; lia. }
  repeat constructor; unfold is_field_vchar; lia.
Qed.

Lemma date_block_line t : 0 <= t -> exists v, date_block t = line (bs "Date") v /\ length v = 29%nat /\ value_ok v.
Proof.
  intros Ht. set (t' := Z.min t DateText.MAX_UNIX_SECONDS). assert (0 <= t' <= DateText.MAX_UNIX_SECONDS) as Ht' by (unfold t', DateText.MAX_UNIX_SECONDS; lia).
  destruct (DateText.from_unix_text t' Ht') as (d & Hr & Hd & Hf). set (w := weekday_from_days _) in Hf.
  assert (date_block t = line (bs "Date") (DateText.imf_text w (DateText.instant_of d (t' mod 86400)))) as Hb.
  { unfold date_block. destruct (Z.leb_spec t DateText.MAX_UNIX_SECONDS) as [Hle|Hgt].
    - assert (t' = t) as Heq by (unfold t'; lia). rewrite <- Heq at 1. by rewrite Hf.
    - assert (t' = DateText.MAX_UNIX_SECONDS) as Heq by (unfold t'; lia).
      assert (DateText.from_unix t = None) as -> by (unfold DateText.from_unix; by rewrite (proj2 (Z.ltb_lt _ t)) by done).
      rewrite <- Heq at 1. by rewrite Hf. }
  exists (DateText.imf_text w (DateText.instant_of d (t' mod 86400))). split; [done|].
  assert (0 <= w < 7) as Hw by apply DateText.named_weekday. destruct (DateText.real_parts d Hr) as (Hy & Hm & Hday).
  assert (0 <= t' mod 86400 < 86400) as Hs by (apply Z.mod_pos_bound; lia). set (s := t' mod 86400) in *.
  destruct (name_length_bytes DateText.DAY_NAMES w) as [Hdl Hdv]; [repeat constructor|done|].
  destruct (name_length_bytes DateText.MONTH_NAMES (Date.month d - 1)) as [Hml Hmv]; [repeat constructor|change (Prelude.len _) with 12; lia|].
  assert (0 <= s / 3600 < 100 /\ 0 <= s mod 3600 / 60 < 100 /\ 0 <= s mod 60 < 100) as (H1 & H2 & H3).
  { pose proof (Z.mod_pos_bound s 60 ltac:(lia)). pose proof (Z.mod_pos_bound s 3600 ltac:(lia)).
    repeat split; try lia; try (apply Z.div_pos; lia); apply Z.div_lt_upper_bound; lia. }
  assert (0 <= year d / 100 < 100 /\ 0 <= year d mod 100 < 100) as (H4 & H5).
  { pose proof (Z.mod_pos_bound (year d) 100 ltac:(lia)). repeat split; try lia; [apply Z.div_pos; lia|apply Z.div_lt_upper_bound; lia]. }
  unfold DateText.imf_text, DateText.time_text, DateText.month_text, DateText.four, DateText.instant_of. cbn [DateText.date DateText.hour DateText.minute DateText.second].
  split; [rewrite !length_app, Hdl, Hml; reflexivity|]. split.
  - assert (forall l, Forall (fun b => is_field_vchar b = true) l -> Forall (fun b => is_field_vchar b || edge b = true) l) as Himp.
    { intros l Hl. eapply Forall_impl; [exact Hl|]. by intros b ->. }
    repeat apply Forall_app_2; try (apply Himp; first [done|by apply two_vchar; lia]); by repeat constructor.
  - split; intros b Hbb.
    + destruct (DateText.name DateText.DAY_NAMES w) as [|x l]; [done|]. injection Hbb as <-. apply Forall_cons in Hdv as [Hx _].
      unfold is_field_vchar, edge in *. lia.
    + rewrite !app_assoc, last_app in Hbb. by injection Hbb as <-.
Qed.

Lemma status_text_length code : (length (status_text code) <= 64)%nat.
Proof.
  unfold status_text, HttpTypes.status_line, HttpTypes.canonical_reason.
  destruct (list_find _ STATUS_TABLE) as [[i [c s]]|] eqn:Hf; cbn; [|lia].
  apply list_find_Some in Hf as (Hi & _ & _). apply list_elem_of_lookup_2 in Hi.
  assert (forallb (fun e => (length (bs e.2) <=? 44)%nat) STATUS_TABLE = true) as Ht by reflexivity.
  rewrite forallb_forall in Ht. specialize (Ht _ (proj1 (list_elem_of_In _ _) Hi)). apply Nat.leb_le in Ht. cbn in Ht.
  rewrite length_app. cbn. lia.
Qed.

Lemma status_text_nonempty code : status_text code <> [].
Proof. unfold status_text, HttpTypes.status_line. by destruct (canonical_reason code). Qed.

Lemma head_text_length parts fields : word 64 (parts_body_len parts) ->
  Prelude.len (head_text parts fields) <= 256 + Prelude.len (date parts) + Prelude.len (server parts) + Prelude.len fields.
Proof.
  intros Hn. pose proof (status_text_length (parts_status parts)) as Hs.
  assert (length (decimal_text (parts_body_len parts)) <= 20)%nat as Hd by apply Date.digits_length.
  unfold head_text, fields_text, Prelude.len. rewrite !length_app.
  assert (length (length_text parts) <= 40)%nat.
  { unfold length_text. destruct (_ && _); [|cbn; lia]. unfold line. revert Hd.
    generalize (decimal_text (parts_body_len parts)). intros text Hd. rewrite !length_app. cbn. lia. }
  assert (length (connection_text parts) <= 60)%nat.
  { unfold connection_text. rewrite length_app. destruct (_ || _), (parts_close parts), (keep_alive_10 parts); cbn; lia. }
  cbn [length]. lia.
Qed.

(** C31. A response is framed by the driver alone: for any record whose response fields were
    built by a handler, the head that is sent is the status line, field lines of the
    grammar and the empty line, after a 100 Continue where one is owed; whatever the handler
    did, its only Content-Length is the decimal length of the body, and is there exactly
    when the status allows it and the body is not streamed, it has no Transfer-Encoding and
    one Date, and its Connection options are those of the driver; the body that follows is
    all of the length said, or nothing for HEAD, 1xx, 204 and 304.  This is of a head of at most
    [MAX_RESPONSE_HEAD] (16 MiB) octets; the driver can answer a longer one with a 500 of its own.
    The claim survives only for the response it was made for. *)
Theorem response_framed date_value server_value capacity record ls close :
  let date := line (bs "Date") date_value in
  let server := server_block server_value in
  let parts := head_parts date server record close in
  let a := HttpRecord.answer record in
  0 <= capacity < 2 ^ 63 -> Prelude.len (HttpRecord.body_bytes (response_body a)) < 2 ^ 63 ->
  value_ok date_value -> (forall v, server_value = Some v -> value_ok v) ->
  response_fields a = lines_text ls -> Forall line_ok ls ->
  Prelude.len (head_text parts (response_fields a)) <= MAX_RESPONSE_HEAD ->
  let record' := serialize date server capacity record close in
  let status := default OK (HttpRecord.status a) in
  let all := all_lines parts date_value server_value ls in
  response_octets record' = (if owed record then CONTINUE else []) ++ status_text status
    ++ mbind (fun l => field_text (MkFieldText l.1 [SP] l.2 [])) all ++ CRLF
    ++ (if body_allowed (record_head_request record) status then HttpRecord.body_bytes (response_body a) else []) /\
  Forall (fun l => field_ok (MkFieldText l.1 [SP] l.2 [])) all /\
  named ContentLength all = (if content_length_allowed status && negb (bool_decide (honoured record = Some Stream))
    then [decimal_text (Prelude.len (HttpRecord.body_bytes (response_body a)))] else []) /\
  named TransferEncoding all = [] /\ named HttpTypes.Date all = [date_value] /\
  named Connection all = (if bool_decide (honoured record = Some Upgrade) || advertise_upgrade a then [bs "Upgrade"] else [])
    ++ (if parts_close parts then [bs "close"] else if keep_alive_10 parts then [bs "keep-alive"] else []) /\
  claim (HttpRecord.answer record') = (match honoured record with Some _ => claim a | None => None end) /\
  received record' = received record.
Proof.
  intros date server parts a Hc Hb Hd Hs Hf Hls Hfit record' status all.
  assert (Z.of_nat (body_len (response_body a)) = Prelude.len (HttpRecord.body_bytes (response_body a))) as Hbl by by destruct (response_body a).
  assert (word 64 (parts_body_len parts)) as Hn by (change (parts_body_len parts) with (Z.of_nat (body_len (response_body a))); rewrite Hbl; word_lia).
  destruct (serialize_head date server capacity record close) as [He|[Hbig _]]; [done|fold a; rewrite Hbl; word_lia| |fold a parts in Hbig; lia].
  fold a parts in He. fold record' in He.
  destruct (all_lines_named parts date_value server_value ls Hls) as (H1 & H2 & H3 & H4).
  assert (parts_body_len parts = Prelude.len (HttpRecord.body_bytes (response_body a))) as Hpl by done. rewrite Hpl in H1.
  pose proof (all_lines_ok parts date_value server_value ls Hn Hd Hs Hls) as Hok.
  split; [|split; [exact Hok|split; [exact H1|split; [exact H2|split; [exact H3|split; [exact H4|split; by rewrite He]]]]]].
  assert (mbind (fun l => field_text (MkFieldText l.1 [SP] l.2 [])) all = fields_text parts (response_fields a)) as ->.
  { rewrite Hf, <- (all_lines_text parts date_value server_value ls) by done. done. }
  unfold response_octets. rewrite He. unfold sends_body. cbn [HttpRecord.answer with_answer with_response_head response_head response_body with_claim].
  unfold head_text. change (parts_status parts) with status. by rewrite <- !app_assoc.
Qed.

Lemma response_framed_witness :
  let v := bs "Sun, 06 Nov 1994 08:49:37 GMT" in
  let r := fold_left handle [Respond (PutHeader (bs "X-A") (bs "1")); Respond (PutBody (bs "hello"))] (Record_new 1) in
  response_octets (serialize (line (bs "Date") v) (server_block None) 0 r true)
  = bs "HTTP/1.1 200 OK" ++ CRLF ++ bs "Date: Sun, 06 Nov 1994 08:49:37 GMT" ++ CRLF ++ bs "Content-Length: 5" ++ CRLF
    ++ bs "X-A: 1" ++ CRLF ++ bs "Connection: close" ++ CRLF ++ CRLF ++ bs "hello".
Proof.
  intros v r. destruct (response_framed v None 0 r [(bs "X-A", bs "1")] true) as [H _].
  - lia.
  - vm_compute. reflexivity.
  - apply value_ok_valid. vm_compute. reflexivity.
  - discriminate.
  - vm_compute. reflexivity.
  - repeat constructor.
  - vm_compute. discriminate.
  - rewrite H. vm_compute. reflexivity.
Defined.
