(* ===== verification/HttpConn.v ===== *)
(** * The connection driver

    [zero-http/src/conn.rs]: one connection as a state ([Conn]) and the turns of its loop
    ([tick], then what [wait] produces, then [apply]).  The sockets, the pool of blocks, the
    clock and the handlers are outside: what they answer is an argument of the operation
    that asks ([Env], [Event], [Polled]).  An [Instant] is a number of nanoseconds, and a
    block given back to the pool is no more. *)
From S2P Require Import Prelude Core Scalar Limits HttpTypes CoreBuf H1Head H1Chunked H1Grammar HttpError HttpRecord HttpCall HttpRing HttpSerialize.

Definition RECORDS_KEPT : nat := 4096.
Definition LINGER : Z := from_secs 1.
Definition BUDGET_RETRY : Z := from_millis 1.

(** ** The input *)

Inductive Input : Type :=
| NoInput
| Block (buf : OwnedBuf) (consumed : nat)
| Heap (octets : bytes) (consumed : nat).

Definition tail (self : Input) : bytes :=
  match self with
  | NoInput => []
  | Block buf consumed => drop consumed (filled buf)
  | Heap octets consumed => drop consumed octets
  end.

Definition input_is_empty (self : Input) : bool := bool_decide (tail self = []).

(** What is consumed is part of a buffer in memory: the sum does not saturate. *)
Definition input_consume (self : Input) (count : nat) : Input :=
  match self with
  | NoInput => NoInput
  | Block buf consumed => Block buf (consumed + count)
  | Heap octets consumed => Heap octets (consumed + count)
  end.

Definition compact (self : Input) : Input :=
  match self with
  | NoInput => NoInput
  | Block buf consumed =>
      if (CoreBuf.len buf <=? consumed)%nat then NoInput
      else if (0 <? consumed)%nat then
        match CoreBuf.consume buf consumed with
        | (buf, Ok _) => Block buf 0
        | (buf, Err _) => Block (CoreBuf.clear buf) 0
        end
      else self
  | Heap octets consumed =>
      if (length octets <=? consumed)%nat then NoInput
      else if (0 <? consumed)%nat then Heap (drop consumed octets) 0
      else self
  end.

Definition absorb (self : Input) (new : OwnedBuf) : Input :=
  match compact self with
  | NoInput => Block new 0
  | Block buf consumed =>
      let moved := Heap (filled buf ++ filled new) 0 in
      if (CoreBuf.len new <=? CoreBuf.remaining buf)%nat then
        match CoreBuf.put buf (filled new) with (buf, Ok _) => Block buf consumed | (_, Err _) => moved end
      else moved
  | Heap octets consumed => Heap (octets ++ filled new) consumed
  end.

(** [clear] leaves nothing, whichever the input was: heap octets go with the value. *)
Definition input_clear (self : Input) : Input := match self with NoInput | Block _ _ | Heap _ _ => NoInput end.

(** ** What the connections of a core share *)

(** The settings: the limits, the [Server] line, what the handler answers when it is asked,
    the peer and the authorities.  [ip_literal] reads an address with the standard library's
    parser. *)
Record Settings : Type := MkSettings {
  limits : Http1Limits;
  server_line : bytes;
  budget : Z;
  is_secure : bool;
  error_shape : ErrorShape;
  handler_limit : option Method -> bytes -> option Z;
  peer_addr : SocketAddr;
  authorities : option (list bytes);
  ip_literal : bytes -> option bytes;
}.

(** The top of [records] comes first; [dropped] is what the handler was told. *)
Record Shared : Type := MkShared {
  records : list RequestRecord;
  bodies : Z;
  canceled : option Head;
  dropped : list Z;
}.

Definition count_body (self : Shared) (octets : Z) : Shared :=
  MkShared (records self) (saturating_add 64 (bodies self) octets) (canceled self) (dropped self).
Definition uncount_body (self : Shared) (octets : Z) : Shared :=
  MkShared (records self) (saturating_sub (bodies self) octets) (canceled self) (dropped self).
Definition set_canceled (self : Shared) (x : option Head) : Shared :=
  MkShared (records self) (bodies self) x (dropped self).

Definition over_budget (conf : Settings) (self : Shared) (leased handler_leased : Z) : bool :=
  budget conf <? saturating_add 64 (saturating_add 64 leased (bodies self)) handler_leased.

Definition take_record (conf : Settings) (self : Shared) : RequestRecord * Shared :=
  match records self with
  | record :: rest => (record, MkShared rest (bodies self) (canceled self) (dropped self))
  | [] => (Record_new (http1_header_table_entries (limits conf)), self)
  end.

Definition give_record (record : RequestRecord) (self : Shared) : Shared :=
  let told := match claim (HttpRecord.answer record) with Some claim => dropped self ++ [token claim] | None => dropped self end in
  let self := uncount_body (MkShared (records self) (bodies self) (canceled self) told) (charge record) in
  if (length (records self) <? RECORDS_KEPT)%nat
  then MkShared (reset record :: records self) (bodies self) (canceled self) (dropped self)
  else self.

(** ** A handler at work

    The future of a request is its record until it completes.  Dropped before that, it
    returns the charge and leaves the parsed head. *)

Definition drop_future (future : option RequestRecord) (self : Shared) : Shared :=
  match future with
  | Some record => set_canceled (uncount_body self (charge record)) (parsed (received record))
  | None => self
  end.

Inductive Outcome : Type := Handled | Failed (error : Error) | Panicked.

(** What one poll of the handler does: the calls it makes, and whether it completes. *)
Inductive Polled : Type :=
| Pending (calls : list HandlerCall)
| Ready (calls : list HandlerCall) (outcome : Outcome).

(** [run_handler], a poll at a time: the record, and whether the future completed. *)
Definition run_handler (conf : Settings) (record : RequestRecord) (polled : Polled) : RequestRecord * bool :=
  if misdirected (received record) then
    (problem record (Problem_new MISDIRECTED_REQUEST "misdirected") (error_shape conf), true)
  else
    match polled with
    | Pending calls => (fold_left handle calls record, false)
    | Ready calls outcome =>
        let record := fold_left handle calls record in
        (match outcome with
         | Handled => record
         | Failed error => problem record (from_error error) (error_shape conf)
         | Panicked => problem record panicked (error_shape conf)
         end, true)
    end.

(** ** The state of a connection *)

Record Conn : Type := MkConn {
  input : Input;
  next : option RequestRecord;
  head_since : option Z;
  idle_since : Z;
  ring : Ring RequestRecord;
  writing : option Writing;
  sent_at : Z;
  completed : list (nat * RequestRecord);
  requests : Z;
  conn_close : bool;
  draining : bool;
  retry_read_at : option Z;
  aborted : bool;
  taking : bool;
  taken : option RequestRecord;
  read_held : bool;
  shared : Shared;
}.

Definition set_input (x : Input) (c : Conn) : Conn :=
  MkConn x (next c) (head_since c) (idle_since c) (ring c) (writing c) (sent_at c) (completed c) (requests c)
    (conn_close c) (draining c) (retry_read_at c) (aborted c) (taking c) (taken c) (read_held c) (shared c).
Definition set_next (x : option RequestRecord) (c : Conn) : Conn :=
  MkConn (input c) x (head_since c) (idle_since c) (ring c) (writing c) (sent_at c) (completed c) (requests c)
    (conn_close c) (draining c) (retry_read_at c) (aborted c) (taking c) (taken c) (read_held c) (shared c).
Definition set_head_since (x : option Z) (c : Conn) : Conn :=
  MkConn (input c) (next c) x (idle_since c) (ring c) (writing c) (sent_at c) (completed c) (requests c)
    (conn_close c) (draining c) (retry_read_at c) (aborted c) (taking c) (taken c) (read_held c) (shared c).
Definition set_idle_since (x : Z) (c : Conn) : Conn :=
  MkConn (input c) (next c) (head_since c) x (ring c) (writing c) (sent_at c) (completed c) (requests c)
    (conn_close c) (draining c) (retry_read_at c) (aborted c) (taking c) (taken c) (read_held c) (shared c).
Definition set_ring (x : Ring RequestRecord) (c : Conn) : Conn :=
  MkConn (input c) (next c) (head_since c) (idle_since c) x (writing c) (sent_at c) (completed c) (requests c)
    (conn_close c) (draining c) (retry_read_at c) (aborted c) (taking c) (taken c) (read_held c) (shared c).
Definition set_writing (x : option Writing) (c : Conn) : Conn :=
  MkConn (input c) (next c) (head_since c) (idle_since c) (ring c) x (sent_at c) (completed c) (requests c)
    (conn_close c) (draining c) (retry_read_at c) (aborted c) (taking c) (taken c) (read_held c) (shared c).
Definition set_sent_at (x : Z) (c : Conn) : Conn :=
  MkConn (input c) (next c) (head_since c) (idle_since c) (ring c) (writing c) x (completed c) (requests c)
    (conn_close c) (draining c) (retry_read_at c) (aborted c) (taking c) (taken c) (read_held c) (shared c).
Definition set_completed (x : list (nat * RequestRecord)) (c : Conn) : Conn :=
  MkConn (input c) (next c) (head_since c) (idle_since c) (ring c) (writing c) (sent_at c) x (requests c)
    (conn_close c) (draining c) (retry_read_at c) (aborted c) (taking c) (taken c) (read_held c) (shared c).
Definition set_requests (x : Z) (c : Conn) : Conn :=
  MkConn (input c) (next c) (head_since c) (idle_since c) (ring c) (writing c) (sent_at c) (completed c) x
    (conn_close c) (draining c) (retry_read_at c) (aborted c) (taking c) (taken c) (read_held c) (shared c).
Definition set_conn_close (x : bool) (c : Conn) : Conn :=
  MkConn (input c) (next c) (head_since c) (idle_since c) (ring c) (writing c) (sent_at c) (completed c)
    (requests c) x (draining c) (retry_read_at c) (aborted c) (taking c) (taken c) (read_held c) (shared c).
Definition set_draining (x : bool) (c : Conn) : Conn :=
  MkConn (input c) (next c) (head_since c) (idle_since c) (ring c) (writing c) (sent_at c) (completed c)
    (requests c) (conn_close c) x (retry_read_at c) (aborted c) (taking c) (taken c) (read_held c) (shared c).
Definition set_retry_read_at (x : option Z) (c : Conn) : Conn :=
  MkConn (input c) (next c) (head_since c) (idle_since c) (ring c) (writing c) (sent_at c) (completed c)
    (requests c) (conn_close c) (draining c) x (aborted c) (taking c) (taken c) (read_held c) (shared c).
Definition set_aborted (x : bool) (c : Conn) : Conn :=
  MkConn (input c) (next c) (head_since c) (idle_since c) (ring c) (writing c) (sent_at c) (completed c)
    (requests c) (conn_close c) (draining c) (retry_read_at c) x (taking c) (taken c) (read_held c)
    (shared c).
Definition set_taking (x : bool) (c : Conn) : Conn :=
  MkConn (input c) (next c) (head_since c) (idle_since c) (ring c) (writing c) (sent_at c) (completed c)
    (requests c) (conn_close c) (draining c) (retry_read_at c) (aborted c) x (taken c) (read_held c)
    (shared c).
Definition set_taken (x : option RequestRecord) (c : Conn) : Conn :=
  MkConn (input c) (next c) (head_since c) (idle_since c) (ring c) (writing c) (sent_at c) (completed c)
    (requests c) (conn_close c) (draining c) (retry_read_at c) (aborted c) (taking c) x (read_held c)
    (shared c).
Definition set_read_held (x : bool) (c : Conn) : Conn :=
  MkConn (input c) (next c) (head_since c) (idle_since c) (ring c) (writing c) (sent_at c) (completed c)
    (requests c) (conn_close c) (draining c) (retry_read_at c) (aborted c) (taking c) (taken c) x (shared c).
Definition set_shared (x : Shared) (c : Conn) : Conn :=
  MkConn (input c) (next c) (head_since c) (idle_since c) (ring c) (writing c) (sent_at c) (completed c)
    (requests c) (conn_close c) (draining c) (retry_read_at c) (aborted c) (taking c) (taken c) (read_held c)
    x.


(** What the operations of one turn read of the world: the clock, again where it is read
    later, the seconds of the date line, what the allocator gave the buffer of a head, and
    whether a read hold is in place.  A hold goes only with the future that took it, which
    [expire] may drop; what runs after it in that turn does not ask again. *)
Record Env : Type := MkEnv { now : Z; later : Z; unix : Z; head_capacity : Z; held : bool }.

Definition Conn_new (shared : Shared) (now later : Z) : Conn :=
  MkConn NoInput None None now HttpRing.new None later [] 0 false false None false false None false shared.

Section conn.
Context (conf : Settings).

Definition serves (record : RequestRecord) (head : Head) : bool :=
  let octets := HttpRecord.head (received record) in
  if (match form head with Absolute => true | _ => false end) && negb (is_secure conf)
     && match get_to (length HTTPS) (Span_of (target head) octets) with
        | Some scheme => eq_ignore_ascii_case scheme HTTPS
        | None => false
        end
  then false
  else
    match authorities conf, H1Head.authority head with
    | None, _ | _, None => true
    | Some names, Some authority =>
        let host := host_of (Span_of authority octets) in
        match ip_literal conf host with
        | Some address => existsb (fun name => bool_decide (name = address)) names
        | None => existsb (fun name => eq_ignore_ascii_case name host) names
        end
    end.

Definition max_pipelined : nat := Z.to_nat (Z.min (Z.max (http1_max_pipelined (limits conf)) 1) (Z.of_nat CAP)).

Definition driver_serialize (env : Env) (record : RequestRecord) (close : bool) : RequestRecord :=
  serialize (date_block (unix env)) (server_line conf) (head_capacity env) record close.

(** [self.ring.clear_future(position)] with what the future dropped does. *)
Definition cancel (position : nat) (c : Conn) : Conn :=
  let (ring, future) := clear_future (ring c) position in
  set_shared (drop_future future (shared c)) (set_ring ring c).

Definition release_entry (entry : Entry) (c : Conn) : Conn :=
  let shared := uncount_body (shared c) (HttpRing.body_bytes entry) in
  set_shared (match record entry with Some record => give_record record shared | None => shared end) c.

(** The last entry leaves the ring, and its future with it. *)
Definition pop_last (c : Conn) : Conn * option Entry :=
  let '(ring, entry, future) := pop_back (ring c) in
  (set_shared (drop_future future (shared c)) (set_ring ring c), entry).

Fixpoint discard_loop (turns : nat) (from : nat) (c : Conn) : Conn :=
  match turns with
  | O => c
  | S turns =>
      if (from <? HttpRing.len (ring c))%nat then
        match pop_last c with
        | (c, Some entry) => discard_loop turns from (release_entry entry c)
        | (c, None) => discard_loop turns from c
        end
      else c
  end.
Definition discard_from (from : nat) (c : Conn) : Conn := discard_loop (HttpRing.len (ring c)) from c.

(** A write through [entry_mut] at a position. *)
Definition change_entry (position : nat) (f : Entry -> Entry) (c : Conn) : Conn :=
  set_ring (modify_entry (ring c) position f) c.

Definition complete (env : Env) (position : nat) (record : RequestRecord) (c : Conn) : Conn :=
  let last := negb (HttpRing.is_empty (ring c)) && (HttpRing.position (ring c) (HttpRing.len (ring c) - 1) =? position)%nat in
  let close := HttpRecord.close record || (conn_close c && last) in
  let record := driver_serialize env record close in
  let claimed := bool_decide (is_Some (claim (HttpRecord.answer record))) in
  let c :=
    if claimed || HttpRecord.close record then
      let c := set_taking (taking c || claimed) c in
      let c := set_conn_close (conn_close c || HttpRecord.close record) c in
      match index_of (ring c) position with
      | Some index => discard_from (S index) c
      | None => c
      end
    else c in
  let c := cancel position c in
  match entry (ring c) position with
  | Some _ =>
      change_entry position (fun e =>
        with_stage (with_record (with_body_bytes e (saturating_add 64 (HttpRing.body_bytes e) (charge record)))
          (Some (with_charge record 0))) Done) c
  | None => set_shared (give_record record (shared c)) c
  end.

(** The list is taken from its end. *)
Fixpoint drain_loop (env : Env) (completed : list (nat * RequestRecord)) (c : Conn) : Conn :=
  match completed with
  | [] => c
  | (position, record) :: completed => drain_loop env completed (complete env position record c)
  end.
Definition drain_completed (env : Env) (c : Conn) : Conn :=
  drain_loop env (reverse (completed c)) (set_completed [] c).

(** No further request is read; the last response says so. *)
Definition mark_close (env : Env) (c : Conn) : Conn :=
  let c := set_conn_close true c in
  if HttpRing.is_empty (ring c) then c
  else
    let last := (HttpRing.len (ring c) - 1)%nat in
    let in_batch := match writing c with Some writing => (last <? count writing)%nat | None => false end in
    if in_batch then c
    else
      change_entry (HttpRing.position (ring c) last) (fun e =>
        match stage e, record e with
        | Done, Some record => with_record e (Some (driver_serialize env record true))
        | _, _ => e
        end) c.

Definition give_next (c : Conn) : Conn :=
  match next c with
  | Some record => set_shared (give_record record (shared c)) (set_next None c)
  | None => c
  end.

Definition eof (env : Env) (c : Conn) : Conn :=
  let c := set_head_since None (set_input (input_clear (input c)) c) in
  let c := give_next c in
  let c :=
    if body_pending (ring c) then
      match pop_last c with
      | (c, Some entry) => release_entry entry c
      | (c, None) => c
      end
    else c in
  mark_close env c.

(** The front of the ring after its response was written: its record, when a claim takes
    over; the second component says that the record closes the connection. *)
Definition pop_written (c : Conn) : Conn * bool :=
  let '(ring, entry, future) := pop_front (ring c) in
  let c := set_shared (drop_future future (shared c)) (set_ring ring c) in
  match entry with
  | None => (c, false)
  | Some e =>
      let closes := match record e with Some record => HttpRecord.close record | None => false end in
      let claims := match record e with Some record => bool_decide (is_Some (claim (HttpRecord.answer record))) | None => false end in
      if claims then (release_entry (with_record e None) (set_taken (record e) c), closes)
      else (release_entry e c, closes)
  end.

Fixpoint pop_batch (count : nat) (c : Conn) (closed : bool) : Conn * bool :=
  match count with
  | O => (c, closed)
  | S count => let (c, closes) := pop_written c in pop_batch count c (closed || closes)
  end.

(** The head entry after its 100 Continue was written. *)
Definition continue_written (e : Entry) : Entry :=
  let e := match stage e with
           | Body framing _ max_body => with_stage e (Body framing false max_body)
           | _ => e
           end in
  match record e with Some record => with_record e (Some (with_continued record true)) | None => e end.

Definition wrote (now : Z) (taken_octets : nat) (c : Conn) : Conn :=
  match writing c with
  | None => c
  | Some w =>
      let c := set_sent_at now c in
      let written := saturating_add 64 (HttpSerialize.written w) (Z.of_nat taken_octets) in
      if written <? total w then set_writing (Some (MkWriting (count w) (prefix w) written (total w))) c
      else
        let c := set_writing None c in
        let c := if prefix w then change_entry (HttpRing.position (ring c) 0) continue_written c else c in
        let (c, closed) := pop_batch (count w) c false in
        let c := if closed then set_conn_close true (discard_from 0 c) else c in
        if HttpRing.is_empty (ring c) then set_idle_since now c else c
  end.

(** ** The deadlines *)

Fixpoint each_entry (f : Entry -> Entry) (index count : nat) (r : Ring RequestRecord) : Ring RequestRecord :=
  match count with
  | O => r
  | S count => each_entry f (S index) count (modify_entry r (HttpRing.position r index) f)
  end.

Definition resume_reading (env : Env) (c : Conn) : Conn :=
  let c :=
    if read_held c && negb (held env) then
      let c := match head_since c with Some _ => set_head_since (Some (now env)) c | None => c end in
      set_ring (each_entry (fun e => if is_body (stage e) then with_last_byte e (now env) else e) 0 (HttpRing.len (ring c)) (ring c)) c
    else c in
  set_read_held (held env) c.

(** Answer the [index]th request with a status and close. *)
Definition fail_at (env : Env) (index : nat) (status : StatusCode) (c : Conn) : Conn :=
  let c := discard_from (S index) c in
  let position := HttpRing.position (ring c) index in
  let c := set_shared (set_canceled (shared c) None) c in
  let c := cancel position c in
  let canceled := canceled (shared c) in
  let c := set_shared (set_canceled (shared c) None) c in
  let kept := entry (ring c) position ≫= record in
  let c := change_entry position (fun e => with_record e None) c in
  let '(record, c) :=
    match kept with
    | Some record => (record, c)
    | None =>
        let (record, shared) := take_record conf (shared c) in
        (with_parsed record canceled, set_shared shared c)
    end in
  let record := driver_serialize env (with_close (answer_with record status (error_shape conf)) true) true in
  let c := change_entry position (fun e => with_stage (with_record e (Some record)) Done) c in
  mark_close env (set_input (input_clear (input c)) c).

(** Answer a request that has no entry yet and close. *)
Definition answer_now (env : Env) (record : RequestRecord) (status : StatusCode) (c : Conn) : Conn :=
  let record := driver_serialize env (with_close (answer_with record status (error_shape conf)) true) true in
  let c :=
    match push (ring c) (Entry_new record Done (now env)) with
    | Ok (_, ring) => set_ring ring c
    | Err entry => set_aborted true (release_entry entry c)
    end in
  mark_close env (set_input (input_clear (input c)) c).

Definition idle (c : Conn) : bool :=
  HttpRing.is_empty (ring c) && input_is_empty (input c) && bool_decide (head_since c = None)
  && negb (bool_decide (is_Some (writing c))).

Definition expired (env : Env) (e : Entry) : option StatusCode :=
  let total := accepted e + http1_request_total (limits conf) in
  match stage e with
  | Body _ _ _ =>
      if (negb (held env) && (last_byte e + http1_body_read_idle (limits conf) <=? now env)) || (total <=? now env)
      then Some REQUEST_TIMEOUT else None
  | Waiting | Running => if total <=? now env then Some SERVICE_UNAVAILABLE else None
  | Done => None
  end.

Fixpoint first_expired (env : Env) (index count : nat) (r : Ring RequestRecord) : option (nat * StatusCode) :=
  match count with
  | O => None
  | S count =>
      match entry r (HttpRing.position r index) ≫= expired env with
      | Some status => Some (index, status)
      | None => first_expired env (S index) count r
      end
  end.

Definition expire (env : Env) (c : Conn) : Conn :=
  let c := match retry_read_at c with Some at_ => if at_ <=? now env then set_retry_read_at None c else c | None => c end in
  if bool_decide (is_Some (writing c)) && (sent_at c + http1_send_idle (limits conf) <=? now env) then set_aborted true c
  else if idle c && negb (conn_close c) && (idle_since c + http1_idle_keep_alive (limits conf) <=? now env) then set_conn_close true c
  else if negb (held env)
          && match head_since c with Some since => since + http1_header_read_timeout (limits conf) <=? now env | None => false end then
    let c := set_input (input_clear (input c)) (set_head_since None c) in
    let '(record, c) :=
      match next c with
      | Some record => (record, set_next None c)
      | None => let (record, shared) := take_record conf (shared c) in (record, set_shared shared c)
      end in
    answer_now env record REQUEST_TIMEOUT c
  else
    match first_expired env 0 (HttpRing.len (ring c)) (ring c) with
    | Some (index, status) => fail_at env index status c
    | None => c
    end.

Definition note (earliest : option Z) (at_ : Z) : option Z :=
  Some (match earliest with Some current => Z.min current at_ | None => at_ end).

Definition note_entry (held_now : bool) (earliest : option Z) (e : Entry) : option Z :=
  match stage e with
  | Body _ _ _ =>
      let earliest := if held_now then earliest else note earliest (last_byte e + http1_body_read_idle (limits conf)) in
      note earliest (accepted e + http1_request_total (limits conf))
  | Waiting | Running => note earliest (accepted e + http1_request_total (limits conf))
  | Done => earliest
  end.

Fixpoint note_entries (held_now : bool) (index count : nat) (r : Ring RequestRecord) (earliest : option Z) : option Z :=
  match count with
  | O => earliest
  | S count =>
      note_entries held_now (S index) count r
        (match entry r (HttpRing.position r index) with Some e => note_entry held_now earliest e | None => earliest end)
  end.

Definition next_deadline (now_ : Z) (held_now : bool) (c : Conn) : option Z :=
  let earliest := retry_read_at c in
  let earliest := if idle c && negb (conn_close c) then note earliest (idle_since c + http1_idle_keep_alive (limits conf)) else earliest in
  let earliest := match writing c with Some _ => note earliest (sent_at c + http1_send_idle (limits conf)) | None => earliest end in
  let earliest :=
    match head_since c with
    | Some since => if held_now then earliest else note earliest (since + http1_header_read_timeout (limits conf))
    | None => earliest
    end in
  (fun at_ => Z.max at_ now_) <$> note_entries held_now 0 (HttpRing.len (ring c)) (ring c) earliest.

(** ** Heads and bodies *)

Inductive Fed : Type := Progress | Stalled | Reject (status : StatusCode).

(** What the octets of the input do to an entry with a body: the entry, the octets consumed
    and counted, none where nothing is, and whether to go on.  The 100 may be omitted once
    content arrived. *)
Definition fed_entry (env : Env) (e : Entry) (s : Stage) (r : RequestRecord) (n : Z) : Entry :=
  with_last_byte (with_body_bytes (with_record (with_stage e s) (Some r)) n) (now env).

Definition feed (env : Env) (e : Entry) (framing : Framing) (max_body : Z) (r : RequestRecord) (rest : bytes) : Entry * nat * Z * Fed :=
  let counted (n : nat) := saturating_add 64 (HttpRing.body_bytes e) (Z.of_nat n) in
  match framing with
  | FramingLength remaining =>
      let take_ := Nat.min (Z.to_nat remaining) (length rest) in
      let remaining := saturating_sub remaining (Z.of_nat take_) in
      (fed_entry env e (if remaining =? 0 then Waiting else Body (FramingLength remaining) false max_body)
         (with_body r (HttpRecord.body (received r) ++ take take_ rest)) (counted take_), take_, Z.of_nat take_, Progress)
  | FramingChunked decoder =>
      let (decoder, step) := decode (limits conf) decoder rest in
      let s := Body (FramingChunked decoder) false max_body in
      let same := fed_entry env e s r (HttpRing.body_bytes e) in
      match step with
      | Ok (StepData data consumed) =>
          if max_body <? Prelude.len (HttpRecord.body (received r)) + Prelude.len data then (same, 0%nat, 0, Reject CONTENT_TOO_LARGE)
          else (fed_entry env e s (with_body r (HttpRecord.body (received r) ++ data)) (counted (length data)), consumed, Prelude.len data, Progress)
      | Ok (NeedMore consumed) => (same, consumed, 0, if (consumed =? 0)%nat then Stalled else Progress)
      | Ok (StepDone section consumed) =>
          match parse_trailers rest section (replicate TRAILER_TABLE EMPTY_FIELD) (limits conf) with
          | (_, Err reject) => (same, 0%nat, 0, Reject (H1Head.status reject))
          | (_, Ok _) => (fed_entry env e Waiting (with_trailers r (HttpRecord.trailers (received r) ++ Span_of section rest)) (HttpRing.body_bytes e), consumed, 0, Progress)
          end
      | Err reject => (same, 0%nat, 0, Reject (H1Head.status reject))
      end
  end.

Definition feed_body (env : Env) (c : Conn) : Conn * Fed :=
  match last_mut (ring c) with
  | None => (c, Stalled)
  | Some e =>
      match stage e, record e with
      | Body framing _ max_body, Some record =>
          let rest := tail (input c) in
          if bool_decide (rest = []) then (c, Stalled)
          else
            let '(e, consumed, counted, fed) := feed env e framing max_body record rest in
            let c := change_entry (last_position (ring c)) (fun _ => e) c in
            let c := set_shared (count_body (shared c) counted) c in
            (set_input (input_consume (input c) consumed) c, fed)
      | _, _ => (c, Stalled)
      end
  end.

Definition body_limit (record : RequestRecord) (head : Head) : Z :=
  default (http1_max_body (limits conf))
    (handler_limit conf (method head) (Span_of (path head) (HttpRecord.head (received record)))).

Definition owes_continue (c : Conn) (head : Head) : bool :=
  match expect head with ExpectContinue => true | _ => false end && bool_decide (version head = Http11) && input_is_empty (input c).

(** The record of an accepted head. *)
Definition taken_in (record : RequestRecord) (head : Head) (octets : bytes) : RequestRecord :=
  let q := received record in
  let record := with_received record
    (MkReceived (HttpRecord.head q ++ octets) (HttpRecord.fields q) (Some head) (HttpRecord.body q) (HttpRecord.trailers q)
       (Some (peer_addr conf)) (is_secure conf) (misdirected q)) in
  let q := received record in
  with_received record
    (MkReceived (HttpRecord.head q) (HttpRecord.fields q) (parsed q) (HttpRecord.body q) (HttpRecord.trailers q)
       (HttpRecord.peer q) (secure q) (negb (serves record head))).

Definition push_entry (entry : Entry) (c : Conn) : Conn :=
  match push (ring c) entry with
  | Ok (_, ring) => set_ring ring c
  | Err entry => set_aborted true (release_entry entry c)
  end.

Definition accept (env : Env) (record : RequestRecord) (head : Head) (c : Conn) : Conn :=
  let c := set_requests (saturating_add 32 (requests c) 1) c in
  let octets := default [] (get_to (head_len head) (tail (input c))) in
  let record := taken_in record head octets in
  let c := set_input (input_consume (input c) (head_len head)) c in
  let last := http1_max_requests_per_connection (limits conf) <=? requests c in
  let c := if negb (keep_alive head) || last then set_conn_close true c else c in
  match expect head with
  | ExpectOther => answer_now env record EXPECTATION_FAILED c
  | _ =>
      let queue (s : Stage) := push_entry (Entry_new record s (now env)) c in
      match H1Head.body head with
      | NoBody => queue Waiting
      | Length length =>
          if length =? 0 then queue Waiting
          else
            let max_body := body_limit record head in
            if max_body <? length then answer_now env record CONTENT_TOO_LARGE c
            else queue (Body (FramingLength length) (owes_continue c head) max_body)
      | Chunked => queue (Body (FramingChunked H1Chunked.new) (owes_continue c head) (body_limit record head))
      end
  end.

Definition parse_head (env : Env) (c : Conn) : Conn * bool :=
  let '(record, c) :=
    match next c with
    | Some record => (record, c)
    | None => let (record, shared) := take_record conf (shared c) in (record, set_shared shared c)
    end in
  let (table, status) := parse_request (tail (input c)) (HttpRecord.fields (received record)) (limits conf) in
  let record := with_fields record table in
  match status with
  | Complete head => (accept env record head (set_head_since None (set_next None c)), true)
  | Partial =>
      (set_head_since (match head_since c with Some since => Some since | None => Some (now env) end) (set_next (Some record) c), false)
  | Rejected reject => (answer_now env record (H1Head.status reject) (set_head_since None (set_next None c)), false)
  end.

(** Each turn takes octets, or goes on to a body that then does. *)
Fixpoint process_loop (fuel : nat) (env : Env) (c : Conn) : Conn :=
  match fuel with
  | O => c
  | S fuel =>
      if input_is_empty (input c) then c
      else if body_pending (ring c) then
        match feed_body env c with
        | (c, Progress) => process_loop fuel env c
        | (c, Stalled) => c
        | (c, Reject status) => fail_at env (HttpRing.len (ring c) - 1) status c
        end
      else if taking c || upgrade_pending (ring c) then c
      else if conn_close c then set_input (input_clear (input c)) c
      else if (max_pipelined <=? HttpRing.len (ring c))%nat || held env then c
      else
        match parse_head env c with
        | (c, true) => process_loop fuel env c
        | (c, false) => c
        end
  end.
Definition process_fuel (c : Conn) : nat := S (2 * length (tail (input c)) + (if body_pending (ring c) then 1 else 0)).
Definition process_input (env : Env) (c : Conn) : Conn :=
  let c := process_loop (process_fuel c) env c in
  set_input (compact (input c)) c.

(** ** Handlers and writes *)

Definition start_at (position : nat) (c : Conn) : Conn :=
  match entry (ring c) position ≫= record with
  | None => c
  | Some record =>
      let counted := match entry (ring c) position with Some e => HttpRing.body_bytes e | None => 0 end in
      let record := with_hold (with_charge record (saturating_add 64 (charge record) counted)) true in
      let c := change_entry position (fun e => with_body_bytes (with_record e None) 0) c in
      let (ring, started) := start (ring c) position record in
      let c := set_ring ring c in
      if started then c else set_aborted true c
  end.

Fixpoint start_loop (index turns : nat) (all_safe_before : bool) (c : Conn) : Conn :=
  match turns with
  | O => c
  | S turns =>
      let position := HttpRing.position (ring c) index in
      match entry (ring c) position with
      | None => start_loop (S index) turns all_safe_before c
      | Some e =>
          let c :=
            if is_waiting (stage e) && ((index =? 0)%nat || (all_safe_before && safe e)) then start_at position c else c in
          let started := match entry (ring c) position with Some e => is_running (stage e) || is_done (stage e) | None => false end in
          start_loop (S index) turns (all_safe_before && safe e && started) c
      end
  end.
Definition start_runnable (c : Conn) : Conn := start_loop 0 (HttpRing.len (ring c)) true c.

(** The done responses at the head of the ring, and their length. *)
Fixpoint batch (index turns : nat) (r : Ring RequestRecord) (count : nat) (total : Z) : nat * Z :=
  match turns with
  | O => (count, total)
  | S turns =>
      match entry r (HttpRing.position r index) with
      | Some e =>
          match stage e, record e with
          | Done, Some record => batch (S index) turns r (S count) (saturating_add 64 total (response_len record))
          | _, _ => (count, total)
          end
      | None => (count, total)
      end
  end.

Definition plan_write (env : Env) (c : Conn) : Conn :=
  if bool_decide (is_Some (writing c)) || aborted c then c
  else
    let (count, total) := batch 0 (HttpRing.len (ring c)) (ring c) 0 0 in
    if (0 <? count)%nat then set_sent_at (later env) (set_writing (Some (MkWriting count false 0 total)) c)
    else
      let owes := match first (ring c) with
                  | Some e => match stage e with Body _ continue_pending _ => continue_pending | _ => false end
                  | None => false
                  end in
      if owes then set_sent_at (later env) (set_writing (Some (MkWriting 0 true 0 (Prelude.len CONTINUE))) c) else c.

Definition tick (env : Env) (c : Conn) : Conn :=
  let c := resume_reading env c in
  let c := expire env c in
  let c := process_input env c in
  let c := start_runnable c in
  plan_write env c.

(** ** The loop *)

Definition finished (c : Conn) : bool :=
  bool_decide (is_Some (taken c)) || aborted c
  || (conn_close c && HttpRing.is_empty (ring c) && negb (bool_decide (is_Some (writing c)))).

Definition want_read (c : Conn) : bool :=
  (input_is_empty (input c) || bool_decide (is_Some (head_since c)))
  && (negb (conn_close c) || body_pending (ring c))
  && negb (bool_decide (is_Some (retry_read_at c)))
  && negb (taking c) && negb (upgrade_pending (ring c)).

(** The octets a write offers to the socket. *)
Definition to_write (c : Conn) : bytes :=
  match writing c with Some w => concat (fill_slices (entries (ring c)) (HttpRing.head (ring c)) w) | None => [] end.

(** [poll_running]: every running handler is polled once; [polled] is what each does, by
    position. *)
Definition poll_at (position : nat) (polled : nat -> Polled) (c : Conn) : Conn :=
  match entry (ring c) position with
  | Some e =>
      if is_running (stage e) then
        match future_at (ring c) position, slot e with
        | Some record, Some slot =>
            match run_handler conf record (polled position) with
            | (record, true) =>
                set_completed (completed c ++ [(position, record)]) (set_ring (take_future (ring c) position) c)
            | (record, false) =>
                set_ring (set_future (ring c) slot (Some record)) c
            end
        | _, _ => c
        end
      else c
  | None => c
  end.

Fixpoint poll_loop (index turns : nat) (polled : nat -> Polled) (c : Conn) : Conn :=
  match turns with
  | O => c
  | S turns => poll_loop (S index) turns polled (poll_at (HttpRing.position (ring c) index) polled c)
  end.
Definition poll_running (polled : nat -> Polled) (c : Conn) : Conn := poll_loop 0 (HttpRing.len (ring c)) polled c.

Inductive Event : Type :=
| ReadData (buf : OwnedBuf)
| ReadEof
| ReadNoBudget
| ReadErr
| Wrote (octets : nat)
| WroteErr
| Progressed
| TimerFired
| ShutdownSeen.

(** The polls of one [wait]: it goes on while no handler completes. *)
Inductive waits (c : Conn) : Conn -> Prop :=
| wait_ends polled : waits c (poll_running polled c)
| wait_goes_on polled c' : completed (poll_running polled c) = [] -> waits (poll_running polled c) c' -> waits c c'.

(** The events [wait] can end with: what to read, write and wait for is decided before the
    first poll, in [before]. *)
Definition can_happen (before after : Conn) (now_ : Z) (held_before held_now : bool) (event : Event) : Prop :=
  match event with
  | ReadData buf => want_read before = true /\ held_now = false /\ buf_ok buf /\ (0 < CoreBuf.len buf)%nat
  | ReadEof | ReadNoBudget | ReadErr => want_read before = true /\ held_now = false
  | Wrote octets => to_write before <> [] /\ (octets <= length (to_write before))%nat
  | WroteErr => to_write before <> []
  | Progressed => completed after <> [] \/ (held_before = true /\ held_now = false)
  | TimerFired => is_Some (next_deadline now_ held_before before)
  | ShutdownSeen => draining before = false
  end.

Definition apply (env : Env) (event : Event) (c : Conn) : Conn :=
  let c := drain_completed env c in
  match event with
  | ReadData buf => set_input (absorb (input c) buf) c
  | ReadEof => eof env c
  | ReadNoBudget => set_retry_read_at (Some (now env + BUDGET_RETRY)) c
  | ReadErr | WroteErr | Wrote O => set_aborted true c
  | Wrote octets => wrote (now env) octets c
  | Progressed | TimerFired => c
  | ShutdownSeen => mark_close env (set_draining true c)
  end.

(** The end of [run]: what is left in the input and the record that takes the socket over. *)
Definition finish (c : Conn) : Conn * bytes * option RequestRecord :=
  let leftover := tail (input c) in
  let c := set_input (input_clear (input c)) c in
  let c := give_next c in
  let c := discard_from 0 c in
  if aborted c then
    (match taken c with Some record => set_shared (give_record record (shared c)) (set_taken None c) | None => c end, leftover, None)
  else (set_taken None c, leftover, taken c).
End conn.

(** ** Runs *)

Definition example_settings : Settings := {|
  limits := Http1Limits_DEFAULT; server_line := []; budget := 0; is_secure := false; error_shape := ProblemShape;
  handler_limit := fun _ _ => None; peer_addr := AddrV4 0 0; authorities := None; ip_literal := fun _ => None |}.
Definition example_shared : Shared := MkShared [] 0 None [].
Definition at_second (s : Z) : Env := MkEnv (from_secs s) (from_secs s) s 0 false.
Definition example_conn : Conn := Conn_new example_shared 0 0.

(** A turn: the bookkeeping, a poll of the handlers and an event, with what the socket took. *)
Definition turn (s : Z) (polled : nat -> Polled) (event : Event) (c : Conn) : Conn :=
  apply example_settings (at_second s) event (poll_running example_settings polled (tick example_settings (at_second s) c)).
Definition all_written (c : Conn) : Event := Wrote (length (to_write c)).

(** Two requests in one read and their bodies, answered in order though the second handler
    is done first. *)
Example pipelined :
  let requests := crlf "GET /a HTTP/1.1" ++ crlf "Host: h" ++ crlf "" ++ crlf "GET /b HTTP/1.1" ++ crlf "Host: h" ++ crlf "" in
  let says s : Polled := Ready [Respond (PutBody (bs s))] Handled in
  let c := turn 1 (fun _ => Pending []) (ReadData (from_vec requests)) example_conn in
  let c := turn 2 (fun p => if (p =? 0)%nat then Pending [] else says "second") Progressed c in
  let c := turn 3 (fun _ => says "first") Progressed c in
  let c := tick example_settings (at_second 4) c in
  let sent := to_write c in
  let c := turn 4 (fun _ => Pending []) (all_written c) c in
  (sent, HttpRing.len (ring c), finished c)
  = (bs "HTTP/1.1 200 OK" ++ CRLF ++ date_block 3 ++ bs "Content-Length: 5" ++ CRLF ++ CRLF ++ bs "first"
     ++ bs "HTTP/1.1 200 OK" ++ CRLF ++ date_block 2 ++ bs "Content-Length: 6" ++ CRLF ++ CRLF ++ bs "second", 0%nat, false).
Proof. vm_compute. reflexivity. Qed.

(** A head that is only begun is timed out even when what is before it in the ring claimed
    the connection: its 408 is then written behind the head of the stream.  The first
    response is slow to leave. *)
Example timeout_behind_claim :
  let requests := crlf "GET /a HTTP/1.1" ++ crlf "Host: h" ++ crlf "" ++ crlf "GET /s HTTP/1.1" ++ crlf "Host: h" ++ crlf "" ++ bs "GET" in
  let answers p : Polled := if (p =? 0)%nat then Ready [] Handled else Pending [] in
  let c := turn 1 answers (ReadData (from_vec requests)) example_conn in
  let c := turn 2 answers Progressed c in
  let c := turn 3 (fun _ => Ready [AskStream 7] Handled) (Wrote 10) c in
  let c := turn 40 answers (Wrote 10) c in
  let c := turn 41 answers (all_written (tick example_settings (at_second 41) c)) c in
  to_write (tick example_settings (at_second 42) c)
  = bs "HTTP/1.1 200 OK" ++ CRLF ++ date_block 3 ++ bs "Connection: close" ++ CRLF ++ CRLF
    ++ bs "HTTP/1.1 408 Request Timeout" ++ CRLF ++ date_block 40 ++ bs "Content-Length: 0" ++ CRLF ++ bs "Connection: close" ++ CRLF ++ CRLF.
Proof. vm_compute. reflexivity. Qed.

(** A claim whose handler is canceled goes down with its record: the handler is not told. *)
Example canceled_claim_untold :
  let request := crlf "GET /s HTTP/1.1" ++ crlf "Host: h" ++ crlf "" in
  let c := turn 1 (fun _ => Pending []) (ReadData (from_vec request)) example_conn in
  let c := turn 2 (fun _ => Pending [AskStream 7]) ReadErr c in
  (aborted c, dropped (shared (finish (tick example_settings (at_second 3) c)).1.1)) = (true, []).
Proof. vm_compute. reflexivity. Qed.
