(* ===== verification/HttpConnView.v ===== *)
(** * What the operations of the driver do to the ring

    Every operation of [HttpConn] on the ring in closed form, over the list of entries with
    their futures ([HttpRing.view]); the rest of the connection is framed. *)
From S2P Require Import Prelude Core Limits HttpTypes CoreBuf H1Head H1Chunked HttpRecord HttpCall HttpRing HttpSerialize HttpConn.

Abbreviation Seen := (Entry * option RequestRecord)%type.
Definition seen (c : Conn) : list Seen := view (ring c).

(** A record ready for a request. *)
Definition fresh (r : RequestRecord) : Prop :=
  HttpRecord.answer r = empty_answer /\ HttpRecord.close r = false /\ charge r = 0 /\
  received r = MkReceived [] (HttpRecord.fields (received r)) None [] [] None false false.
Definition shared_ok (s : Shared) : Prop := Forall fresh (records s).

(** An entry that holds a slot has a future there, but where [P] says otherwise. *)
Definition live_but (P : nat -> Prop) (r : Ring RequestRecord) : Prop :=
  forall i e, queue r !! i = Some e -> is_Some (slot e) -> is_Some (fut r e) \/ P i.

(** It holds still when the entries that hold slots are as they were. *)
Lemma live_keep P r r' :
  (forall j e', queue r' !! j = Some e' -> is_Some (slot e') -> queue r !! j = Some e' /\ view r' !! j = view r !! j) ->
  live_but P r -> live_but P r'.
Proof.
  intros H Hl j e' Hj Hs. destruct (H j e' Hj Hs) as [Hq Hv]. rewrite !view_lookup, Hj, Hq in Hv. injection Hv as ->.
  by apply (Hl j).
Qed.

(** Only the ring, whose head stays, and what is shared change. *)
Record leads (c c' : Conn) (v : list Seen) : Prop := {
  leads_ok : ring_ok (ring c');
  leads_seen : seen c' = v;
  leads_head : HttpRing.head (ring c') = HttpRing.head (ring c);
  leads_shared : shared_ok (shared c) -> shared_ok (shared c');
  leads_live : forall P, live_but P (ring c) -> live_but P (ring c');
  leads_frame : c' = set_shared (shared c') (set_ring (ring c') c);
}.

Lemma leads_refl c : ring_ok (ring c) -> leads c c (seen c).
Proof. by split; [| | | | |destruct c]. Qed.

Lemma leads_trans c c1 c2 v1 v2 : leads c c1 v1 -> leads c1 c2 v2 -> leads c c2 v2.
Proof.
  intros [? ? Hh1 Hs1 Hl1 H1] [? ? Hh2 Hs2 Hl2 H2]. split; [done|done|congruence|tauto|auto|]. rewrite H2 at 1. rewrite H1. by destruct c.
Qed.

Lemma fresh_reset r : fresh (reset r).
Proof. done. Qed.

Lemma fresh_new n : fresh (Record_new n).
Proof. done. Qed.

Lemma give_record_ok r s : shared_ok s -> shared_ok (give_record r s).
Proof.
  intros H. unfold give_record. destruct (length _ <? _)%nat; [|done]. constructor; [apply fresh_reset|done].
Qed.

Lemma take_record_ok conf s : shared_ok s -> let (r, s') := take_record conf s in fresh r /\ shared_ok s' /\
  canceled s' = canceled s.
Proof.
  intros H. unfold take_record. destruct (records s) as [|r l] eqn:Hr; [done|].
  unfold shared_ok in *. rewrite Hr in H. by apply Forall_cons in H as [? ?].
Qed.

Lemma drop_future_ok f s : shared_ok s -> shared_ok (drop_future f s).
Proof. by destruct f. Qed.

(** ** Positions *)

Lemma position_head (r r' : Ring RequestRecord) i : HttpRing.head r' = HttpRing.head r -> HttpRing.position r' i = HttpRing.position r i.
Proof. unfold HttpRing.position. by intros ->. Qed.

Lemma seen_length c : ring_ok (ring c) -> length (seen c) = HttpRing.len (ring c).
Proof. apply view_length. Qed.

Lemma seen_at c i e f : ring_ok (ring c) -> seen c !! i = Some (e, f) ->
  exists e0, queue (ring c) !! i = Some e0 /\ e = with_slot e0 None /\ f = fut (ring c) e0 /\
    entry (ring c) (HttpRing.position (ring c) i) = Some e0 /\ (i < CAP)%nat.
Proof.
  intros Hok H. unfold seen in H. rewrite view_lookup in H. destruct (queue (ring c) !! i) as [e0|] eqn:He; [|done].
  injection H as <- <-. exists e0. assert (i < CAP)%nat as Hi.
  { assert (Hl := He). apply lookup_lt_Some in Hl. rewrite queue_length in Hl by apply Hok.
    pose proof (len_bound _ (shape _ Hok)). lia. }
  rewrite at_queue by (done || apply Hok). done.
Qed.

Lemma seen_none c i : ring_ok (ring c) -> (i < CAP)%nat -> seen c !! i = None -> entry (ring c) (HttpRing.position (ring c) i) = None.
Proof.
  intros Hok Hi H. rewrite at_queue by (done || apply Hok). unfold seen in H. rewrite view_lookup in H.
  by destruct (queue (ring c) !! i).
Qed.

(** A change of an entry that leaves its slot alone. *)
Definition slotless (g : Entry -> Entry) : Prop := forall e s, g (with_slot e s) = with_slot (g e) s.

Lemma slotless_slot g e : slotless g -> slot (g e) = slot e.
Proof.
  intros H. assert (e = with_slot e (slot e)) as He by (by destruct e). rewrite He at 1. by rewrite H.
Qed.

Lemma change_leads c i e f g : ring_ok (ring c) -> seen c !! i = Some (e, f) -> slotless g ->
  leads c (change_entry (HttpRing.position (ring c) i) g c) (<[i := (g e, f)]> (seen c)).
Proof.
  intros Hok H Hg. destruct (seen_at c i e f Hok H) as (e0 & He & -> & -> & Hat & _).
  unfold change_entry, modify_entry. rewrite Hat.
  destruct (set_ok (ring c) i e0 (g e0) Hok He (slotless_slot g e0 Hg)) as [Hok' Hv].
  split; [exact Hok'| |done|done| |by destruct c].
  - unfold seen. cbn [ring set_ring]. rewrite Hv. by rewrite Hg.
  - intros P Hl j e' Hj Hs. cbn [ring set_ring] in *. rewrite (queue_set _ _ e0) in Hj by (done || apply Hok).
    apply list_lookup_insert_Some in Hj as [(<- & <- & _)|[_ Hj]]; [|exact (Hl j e' Hj Hs)].
    rewrite slotless_slot in Hs by done. destruct (Hl i e0 He Hs) as [Hf|]; [left|by right].
    unfold fut in *. by rewrite slotless_slot.
Qed.

Lemma cancel_leads c i e f : ring_ok (ring c) -> seen c !! i = Some (e, f) ->
  let c' := cancel (HttpRing.position (ring c) i) c in
  leads c c' (<[i := (e, None)]> (seen c)) /\
  canceled (shared c') = match f with Some r => parsed (received r) | None => canceled (shared c) end.
Proof.
  intros Hok H c'. destruct (seen_at c i e f Hok H) as (e0 & He & -> & -> & Hat & _). unfold c', cancel.
  pose proof (clear_ok (ring c) i e0 Hok He) as Hc. destruct (clear_future _ _) as [r' d].
  destruct Hc as (Hok' & -> & Hq & Hv & Hh & _). split; [|by destruct (fut (ring c) e0)].
  split; [done|exact Hv|done|apply drop_future_ok| |by destruct c].
  intros P. apply live_keep. cbn [ring set_shared set_ring]. intros j e' Hj Hs. rewrite Hq in Hj.
  apply list_lookup_insert_Some in Hj as [(_ & <- & _)|[Hne Hj]]; [by destruct Hs|]. by rewrite Hv, list_lookup_insert_ne.
Qed.

Lemma cancel_live c i e f P : ring_ok (ring c) -> seen c !! i = Some (e, f) ->
  live_but (fun j => P j \/ j = i) (ring c) -> live_but P (ring (cancel (HttpRing.position (ring c) i) c)).
Proof.
  intros Hok H Hl. destruct (seen_at c i e f Hok H) as (e0 & He & _). unfold cancel.
  pose proof (clear_ok (ring c) i e0 Hok He) as Hc. destruct (clear_future _ _) as [r' d].
  destruct Hc as (Hok' & _ & Hq & Hv & _). cbn [ring set_shared set_ring]. intros j e' Hj Hs.
  assert (Hj' := Hj). rewrite Hq in Hj'. apply list_lookup_insert_Some in Hj' as [(_ & <- & _)|[Hne Hj']]; [by destruct Hs|].
  assert (live_but (fun j => P j \/ j = i) r') as Hl'.
  { eapply live_keep; [|exact Hl]. intros k x Hk Hx. rewrite Hq in Hk.
    apply list_lookup_insert_Some in Hk as [(_ & <- & _)|[Hnk Hk]]; [by destruct Hx|]. by rewrite Hv, list_lookup_insert_ne. }
  destruct (Hl' j e' Hj Hs) as [|[|]]; [by left|by right|done].
Qed.

Lemma release_leads c e : ring_ok (ring c) -> leads c (release_entry e c) (seen c).
Proof.
  intros Hok. unfold release_entry. split; [done|done|done| |done|by destruct c]. intros H. cbn [shared set_shared].
  destruct (record e); [by apply give_record_ok|done].
Qed.

Lemma pop_last_leads c e f : ring_ok (ring c) -> last (seen c) = Some (e, f) ->
  let (c', o) := pop_last c in leads c c' (take (length (seen c) - 1) (seen c)) /\ o = Some e.
Proof.
  intros Hok H. rewrite last_lookup in H. rewrite <- Nat.sub_1_r in H. destruct (seen_at c _ e f Hok H) as (e0 & He & -> & -> & _).
  rewrite seen_length in * by done. destruct (pop_back_ok (ring c) e0 Hok He) as (r' & Hp & Hok' & Hv & Hq).
  unfold pop_last. rewrite Hp. split; [|done]. split; [done|exact Hv| |apply drop_future_ok| |by destruct c].
  2:{ intros P. apply live_keep. cbn [ring set_shared set_ring]. intros j e' Hj _. rewrite Hq in Hj.
      apply lookup_take_Some in Hj as [Hj Hn]. by rewrite Hv, lookup_take_lt. }
  unfold pop_back in Hp. destruct (HttpRing.len (ring c) =? 0)%nat; [by injection Hp as <-|].
  pose proof (clear_ok (ring c) _ e0 Hok He) as Hc. destruct (clear_future _ _) as [r1 d]. injection Hp as <- _ _.
  by destruct Hc as (_ & _ & _ & _ & Hh & _).
Qed.

Lemma discard_loop_leads from : forall turns c, ring_ok (ring c) -> (length (seen c) <= from + turns)%nat ->
  leads c (discard_loop turns from c) (take from (seen c)).
Proof.
  induction turns as [|turns IH]; intros c Hok Hn; cbn [discard_loop].
  { rewrite take_ge by lia. by apply leads_refl. }
  rewrite <- (seen_length c Hok). destruct (Nat.ltb_spec from (length (seen c))) as [Hf|Hf].
  - destruct (last (seen c)) as [[e f]|] eqn:Hl; [|by apply last_None in Hl; rewrite Hl in Hf; cbn in Hf; lia].
    pose proof (pop_last_leads c e f Hok Hl) as Hp. destruct (pop_last c) as [c1 o]. destruct Hp as [H1 ->].
    pose proof (release_leads c1 e (leads_ok _ _ _ H1)) as H2. rewrite (leads_seen _ _ _ H1) in H2.
    pose proof (leads_trans _ _ _ _ _ H1 H2) as H3. eapply leads_trans; [exact H3|].
    specialize (IH (release_entry e c1) (leads_ok _ _ _ H3)). rewrite (leads_seen _ _ _ H3), length_take, take_take in IH.
    rewrite (Nat.min_l from) in IH by lia. apply IH. lia.
  - rewrite take_ge by lia. by apply leads_refl.
Qed.

Lemma discard_leads c from : ring_ok (ring c) -> leads c (discard_from from c) (take from (seen c)).
Proof. intros Hok. apply discard_loop_leads; [done|]. rewrite seen_length by done. lia. Qed.

Lemma push_leads c e : ring_ok (ring c) -> slot e = None -> (length (seen c) < CAP)%nat ->
  leads c (push_entry e c) (seen c ++ [(e, None)]) /\ exists p r', push (ring c) e = Ok (p, r') /\ push_entry e c = set_ring r' c.
Proof.
  intros Hok Hs Hn. rewrite seen_length in Hn by done. destruct (push_ok (ring c) e Hok Hs Hn) as (r' & Hp & Hok' & Hv).
  destruct (push_queue (ring c) e (shape _ Hok) Hn) as (r1 & Hp1 & _ & Hq & _). rewrite Hp in Hp1. injection Hp1 as <-.
  unfold push_entry. rewrite Hp. split; [|by eauto]. split; [done|exact Hv| |done| |by destruct c].
  2:{ intros P. apply live_keep. cbn [ring set_ring]. intros j e' Hj Hsl. rewrite Hq in Hj.
      apply lookup_snoc_Some in Hj as [[Hj1 Hj]|[_ <-]]; [|rewrite Hs in Hsl; by destruct Hsl].
      rewrite Hv, lookup_app_l; [done|]. rewrite view_length by done. by rewrite queue_length in Hj1 by apply Hok. }
  unfold push in Hp. destruct (CAP <=? _)%nat; [done|]. destruct (entries (ring c) !! _); [|done]. by injection Hp as <-.
Qed.

(** ** Answers *)

Section conn.
Context (conf : Settings).

(** A record whose response is serialized. *)
Definition closes (r : RequestRecord) : bool := HttpRecord.close r || bool_decide (is_Some (claim (HttpRecord.answer r))).

Definition close_entry (env : Env) (e : Entry) : Entry :=
  match stage e, record e with
  | Done, Some record => with_record e (Some (driver_serialize conf env record true))
  | _, _ => e
  end.

Definition in_batch (c : Conn) (i : nat) : bool :=
  match writing c with Some w => (i <? count w)%nat | None => false end.

(** The list once the last response says that the connection closes. *)
Definition reclosed (env : Env) (c : Conn) (v : list Seen) : list Seen :=
  match last v with
  | Some (e, f) => if in_batch c (length v - 1) then v else <[(length v - 1)%nat := (close_entry env e, f)]> v
  | None => v
  end.

Lemma mark_close_leads env c : ring_ok (ring c) ->
  leads (set_conn_close true c) (mark_close conf env c) (reclosed env c (seen c)).
Proof.
  intros Hok. set (c1 := set_conn_close true c). assert (ring_ok (ring c1)) as Hok1 by done.
  pose proof (seen_length c Hok) as Hl. unfold reclosed, mark_close. fold c1. unfold HttpRing.is_empty.
  change (HttpRing.len (ring c1)) with (HttpRing.len (ring c)). change (writing c1) with (writing c).
  destruct (last (seen c)) as [[e f]|] eqn:Hlast.
  - assert (Hn := Hlast). rewrite last_lookup, <- Nat.sub_1_r in Hn. apply lookup_lt_Some in Hn.
    rewrite (proj2 (Nat.eqb_neq _ 0)) by lia. rewrite <- Hl. fold (in_batch c (length (seen c) - 1)).
    destruct (in_batch c (length (seen c) - 1)); [by apply (leads_refl c1)|]. 
    rewrite last_lookup, <- Nat.sub_1_r in Hlast. apply (change_leads c1 (length (seen c) - 1) e f (close_entry env)); [done|done|].
    intros e0 s. unfold close_entry. cbn [stage record with_slot]. by destruct (stage e0), (record e0).
  - apply last_None in Hlast. rewrite Hlast in Hl. rewrite <- Hl. by apply (leads_refl c1).
Qed.

Definition done_entry (e : Entry) (r : RequestRecord) (charged : Z) : Entry :=
  with_stage (with_record (with_body_bytes e (saturating_add 64 (HttpRing.body_bytes e) charged)) (Some r)) Done.

Lemma complete_leads env i e r c : ring_ok (ring c) -> seen c !! i = Some (e, None) ->
  exists close, let r' := driver_serialize conf env r close in
  let v := <[i := (done_entry e (with_charge r' 0) (charge r'), None)]> (seen c) in
  leads (if closes r' then set_conn_close (conn_close c || HttpRecord.close r')
           (set_taking (taking c || bool_decide (is_Some (claim (HttpRecord.answer r')))) c) else c)
    (complete conf env (HttpRing.position (ring c) i) r c) (if closes r' then take (S i) v else v) /\
  forall P, live_but (fun j => P j \/ j = i) (ring c) -> live_but P (ring (complete conf env (HttpRing.position (ring c) i) r c)).
Proof.
  intros Hok H. unfold complete. set (close := HttpRecord.close r || _). exists close.
  set (r' := driver_serialize conf env r close). set (claimed := bool_decide _). cbv zeta.
  assert (closes r' = claimed || HttpRecord.close r') as -> by apply orb_comm.
  destruct (seen_at c i e None Hok H) as (e0 & Hq & _ & _ & _ & Hi).
  match goal with |- leads ?x (match entry (ring (cancel _ ?y)) _ with _ => _ end) _ /\ _ => set (c1 := y); set (c0 := x) end.
  assert (leads c0 c1 (if claimed || HttpRecord.close r' then take (S i) (seen c) else seen c)) as H1.
  { unfold c0, c1. destruct (claimed || HttpRecord.close r'); [|by apply leads_refl].
    change (ring (set_conn_close _ (set_taking _ c))) with (ring c).
    rewrite (index_of_position (ring c) i (shape _ Hok) Hi). assert (Hl := H). apply lookup_lt_Some in Hl.
    rewrite seen_length in Hl by done. rewrite (proj2 (Nat.ltb_lt i _)) by done.
    exact (discard_leads (set_conn_close (conn_close c || HttpRecord.close r') (set_taking (taking c || claimed) c)) (S i) Hok). }
  assert (seen c1 !! i = Some (e, None)) as Hs1.
  { rewrite (leads_seen _ _ _ H1). destruct (claimed || HttpRecord.close r'); [|done]. by rewrite lookup_take_lt by lia. }
  assert (HttpRing.position (ring c1) i = HttpRing.position (ring c) i) as Hp1.
  { apply position_head. rewrite (leads_head _ _ _ H1). unfold c0. by destruct (claimed || HttpRecord.close r'). }
  destruct (cancel_leads c1 i e None (leads_ok _ _ _ H1) Hs1) as [H2 _]. rewrite Hp1 in H2.
  set (c2 := cancel _ c1) in *. rewrite list_insert_id in H2 by done.
  assert (seen c2 !! i = Some (e, None)) as Hs2 by (by rewrite (leads_seen _ _ _ H2)).
  destruct (seen_at c2 i e None (leads_ok _ _ _ H2) Hs2) as (e2 & _ & _ & _ & Hat & _).
  rewrite (position_head _ _ i (leads_head _ _ _ H2)), Hp1 in Hat. rewrite Hat.
  pose proof (change_leads c2 i e None (fun e => done_entry e (with_charge r' 0) (charge r')) (leads_ok _ _ _ H2) Hs2 ltac:(done)) as H3.
  rewrite (position_head _ _ i (leads_head _ _ _ H2)), Hp1 in H3.
  split; cycle 1.
  { intros P HP. apply (leads_live _ _ _ H3). unfold c2. rewrite <- Hp1. eapply cancel_live; [apply H1|exact Hs1|].
    apply (leads_live _ _ _ H1). unfold c0. by destruct (claimed || HttpRecord.close r'). }
  eapply leads_trans; [exact H1|]. eapply leads_trans; [exact H2|].
  match goal with |- leads _ _ ?w => assert (w = <[i := (done_entry e (with_charge r' 0) (charge r'), None)]> (seen c2)) as -> end; [|exact H3].
  rewrite (leads_seen _ _ _ H2), (leads_seen _ _ _ H1). destruct (claimed || HttpRecord.close r'); [|done]. by rewrite take_insert_lt by lia.
Qed.

(** The record a failed request is answered on: its own, or one that carries its head. *)
Definition failing (env : Env) (status : StatusCode) (r : RequestRecord) : RequestRecord :=
  driver_serialize conf env (with_close (answer_with r status (error_shape conf)) true) true.

Definition shut_now (c : Conn) : Conn := set_conn_close true (set_input NoInput c).

Lemma shut_frame c c' : c' = set_shared (shared c') (set_ring (ring c') c) ->
  set_conn_close true (set_input (input_clear (input c')) c') = set_shared (shared c') (set_ring (ring c') (shut_now c)).
Proof. intros ->. unfold shut_now. cbn. by destruct (input c). Qed.

Lemma fail_at_leads env i status c e f : ring_ok (ring c) -> shared_ok (shared c) -> seen c !! i = Some (e, f) ->
  exists r, parsed (received r) = match record e with Some r => parsed (received r)
    | None => match f with Some f => parsed (received f) | None => None end end /\
  leads (shut_now c) (fail_at conf env i status c)
    (reclosed env c (take i (seen c) ++ [(with_stage (with_record e (Some (failing env status r))) Done, None)])).
Proof.
  intros Hok Hsh H. unfold fail_at. destruct (seen_at c i e f Hok H) as (e0 & _ & _ & _ & _ & Hi).
  pose proof (discard_leads c (S i) Hok) as H1. set (c1 := discard_from (S i) c) in *. set (p := HttpRing.position (ring c1) i).
  set (c2 := set_shared (set_canceled (shared c1) None) c1).
  assert (leads c1 c2 (seen c1)) as H2 by (split; [apply H1|done|done|done|done|by destruct c1]).
  assert (seen c2 !! i = Some (e, f)) as Hs2.
  { change (seen c2) with (seen c1). rewrite (leads_seen _ _ _ H1). by rewrite lookup_take_lt by lia. }
  destruct (cancel_leads c2 i e f (leads_ok _ _ _ H2) Hs2) as [H3 Hcan].
  change (HttpRing.position (ring c2) i) with p in *. set (c3 := cancel p c2) in *.
  set (canceled := HttpConn.canceled (shared c3)) in *. set (c4 := set_shared (set_canceled (shared c3) None) c3).
  assert (leads c3 c4 (seen c3)) as H4 by (split; [apply H3|done|done|done|done|by destruct c3]).
  assert (seen c4 !! i = Some (e, None)) as Hs4.
  { change (seen c4) with (seen c3). rewrite (leads_seen _ _ _ H3). apply list_lookup_insert_eq. by eapply lookup_lt_Some. }
  pose proof (leads_trans _ _ _ _ _ (leads_trans _ _ _ _ _ H1 H2) (leads_trans _ _ _ _ _ H3 H4)) as H14.
  assert (HttpRing.position (ring c4) i = p) as Hp4 by (apply position_head; exact (leads_head _ _ _ H3)).
  destruct (seen_at c4 i e None (leads_ok _ _ _ H14) Hs4) as (e4 & _ & He4 & _ & Hat & _). rewrite Hp4 in Hat.
  assert (entry (ring c4) p ≫= record = record e) as -> by (rewrite Hat, He4; done).
  pose proof (change_leads c4 i e None (fun e => with_record e None) (leads_ok _ _ _ H14) Hs4 ltac:(done)) as H5. rewrite Hp4 in H5.
  set (c5 := change_entry p _ c4) in *. pose proof (leads_trans _ _ _ _ _ H14 H5) as H15.
  set (pick := match record e with Some record => (record, c5) | None => _ end).
  assert (exists r c6, pick = (r, c6) /\ leads c5 c6 (seen c5) /\
    parsed (received r) = match record e with Some r => parsed (received r)
      | None => match f with Some f => parsed (received f) | None => None end end)
    as (r & c6 & -> & H6 & Hr).
  { unfold pick. destruct (record e) as [r|]; [exists r, c5; split; [done|split; [apply leads_refl, H15|done]]|].
    pose proof (take_record_ok conf (shared c5) (leads_shared _ _ _ H15 Hsh)) as Ht.
    destruct (take_record conf (shared c5)) as [r0 s']. destruct Ht as (Hf & Hs & _).
    exists (with_parsed r0 canceled), (set_shared s' c5). split; [done|]. split; [split; [apply H15|done|done|done|done|by destruct c5]|].
    cbn. rewrite Hcan. by destruct f. }
  exists r. split; [done|]. fold (failing env status r).
  pose proof (leads_trans _ _ _ _ _ H15 H6) as H16.
  assert (seen c6 !! i = Some (with_record e None, None)) as Hs6.
  { rewrite (leads_seen _ _ _ H6), (leads_seen _ _ _ H5). apply list_lookup_insert_eq. by eapply lookup_lt_Some. }
  pose proof (change_leads c6 i _ None (fun e => with_stage (with_record e (Some (failing env status r))) Done) (leads_ok _ _ _ H16) Hs6 ltac:(done)) as H7.
  assert (HttpRing.position (ring c6) i = p) as Hp6.
  { apply position_head. rewrite (leads_head _ _ _ H6), (leads_head _ _ _ H5). exact (leads_head _ _ _ H3). }
  rewrite Hp6 in H7. set (c7 := change_entry p _ c6) in *. pose proof (leads_trans _ _ _ _ _ H16 H7) as H17.
  assert (seen c7 = take i (seen c) ++ [(with_stage (with_record e (Some (failing env status r))) Done, None)]) as Hs7.
  { rewrite (leads_seen _ _ _ H7), (leads_seen _ _ _ H6), (leads_seen _ _ _ H5). change (seen c4) with (seen c3).
    rewrite (leads_seen _ _ _ H3). change (seen c2) with (seen c1). rewrite (leads_seen _ _ _ H1), !list_insert_insert_eq.
    erewrite take_S_r by exact H. rewrite insert_app_r_alt by (rewrite length_take; lia).
    replace (i - length (take i (seen c)))%nat with 0%nat; [done|]. rewrite length_take. apply lookup_lt_Some in H. lia. }
  set (c8 := set_input (input_clear (input c7)) c7).
  assert (ring_ok (ring c8)) as Hok8 by apply H17.
  pose proof (mark_close_leads env c8 Hok8) as H9. change (seen c8) with (seen c7) in H9. rewrite Hs7 in H9.
  assert (writing c7 = writing c) as Hw by (by rewrite (leads_frame _ _ _ H17)).
  assert (reclosed env c8 = reclosed env c) as Hre.
  { unfold reclosed, in_batch. change (writing c8) with (writing c7). by rewrite Hw. }
  rewrite Hre in H9. eapply leads_trans; [|exact H9].
  split; [apply H17|done|apply H17|apply H17|apply H17|]. exact (shut_frame c c7 (leads_frame _ _ _ H17)).
Qed.

Definition answered (env : Env) (r : RequestRecord) (status : StatusCode) : Seen :=
  (Entry_new (failing env status r) Done (now env), None).

Lemma answer_now_leads env r status c : ring_ok (ring c) -> (length (seen c) < CAP)%nat ->
  leads (shut_now c) (answer_now conf env r status c) (reclosed env c (seen c ++ [answered env r status])).
Proof.
  intros Hok Hn. unfold answer_now. fold (failing env status r). set (e := Entry_new (failing env status r) Done (now env)).
  fold (push_entry e c). destruct (push_leads c e Hok eq_refl Hn) as [H1 _]. set (c1 := push_entry e c) in *.
  set (c2 := set_input (input_clear (input c1)) c1). assert (ring_ok (ring c2)) as Hok2 by apply H1.
  pose proof (mark_close_leads env c2 Hok2) as H2. change (seen c2) with (seen c1) in H2. rewrite (leads_seen _ _ _ H1) in H2.
  assert (reclosed env c2 = reclosed env c) as Hre.
  { unfold reclosed, in_batch. change (writing c2) with (writing c1). by rewrite (leads_frame _ _ _ H1). }
  rewrite Hre in H2. eapply leads_trans; [|exact H2].
  split; [apply H1|done|apply H1|apply H1|apply H1|]. exact (shut_frame c c1 (leads_frame _ _ _ H1)).
Qed.

Lemma give_next_leads c : ring_ok (ring c) -> leads (set_next None c) (give_next c) (seen c).
Proof.
  intros Hok. unfold give_next. destruct (next c) as [r|] eqn:Hn.
  - split; [done|done|done|apply give_record_ok|done|by destruct c].
  - assert (set_next None c = c) as -> by (destruct c; cbn in *; by subst). by apply leads_refl.
Qed.

Definition without_body (v : list Seen) : list Seen :=
  match last v with Some (e, _) => if is_body (stage e) then take (length v - 1) v else v | None => v end.

Lemma last_seen c : ring_ok (ring c) ->
  last (seen c) = (fun e => (with_slot e None, fut (ring c) e)) <$> last_mut (ring c).
Proof.
  intros Hok. rewrite last_queue by apply Hok. rewrite last_lookup, seen_length by done. unfold seen.
  by rewrite view_lookup, Nat.sub_1_r.
Qed.

Lemma body_pending_seen c : ring_ok (ring c) ->
  body_pending (ring c) = match last (seen c) with Some (e, _) => is_body (stage e) | None => false end.
Proof. intros Hok. rewrite last_seen by done. unfold body_pending. by destruct (last_mut (ring c)). Qed.

Lemma eof_leads env c : ring_ok (ring c) ->
  leads (set_head_since None (set_next None (shut_now c))) (eof conf env c) (reclosed env c (without_body (seen c))).
Proof.
  intros Hok. unfold eof. set (c1 := set_head_since None (set_input (input_clear (input c)) c)).
  assert (ring_ok (ring c1)) as Hok1 by done. pose proof (give_next_leads c1 Hok1) as H1. set (c2 := give_next c1) in *.
  change (seen c1) with (seen c) in H1.
  set (c3 := if body_pending (ring c2) then _ else c2).
  assert (leads c2 c3 (without_body (seen c))) as H3.
  { unfold c3, without_body. rewrite body_pending_seen by apply H1. rewrite (leads_seen _ _ _ H1).
    destruct (last (seen c)) as [[e f]|] eqn:Hl; [|rewrite <- (leads_seen _ _ _ H1); apply leads_refl, H1].
    destruct (is_body (stage e)); [|rewrite <- (leads_seen _ _ _ H1); apply leads_refl, H1].
    assert (seen c2 = seen c) as Hs2 by apply H1. pose proof Hl as Hl2. rewrite <- Hs2 in Hl2.
    pose proof (pop_last_leads c2 e f (leads_ok _ _ _ H1) Hl2) as H4. destruct (pop_last c2) as [c4 o]. destruct H4 as [H4 ->].
    pose proof (release_leads c4 e (leads_ok _ _ _ H4)) as H5. rewrite (leads_seen _ _ _ H4), Hs2 in H5.
    rewrite Hs2 in H4. by eapply leads_trans. }
  pose proof (mark_close_leads env c3 (leads_ok _ _ _ H3)) as H4. rewrite (leads_seen _ _ _ H3) in H4.
  pose proof (leads_trans _ _ _ _ _ H1 H3) as H13.
  assert (reclosed env c3 = reclosed env c) as Hre.
  { unfold reclosed, in_batch. rewrite (leads_frame _ _ _ H13). done. }
  rewrite Hre in H4. eapply leads_trans; [|exact H4]. split; [apply H13|reflexivity|apply H13|apply H13|apply H13|].
  pose proof (leads_frame _ _ _ H13) as Hf. unfold shut_now. rewrite Hf. cbn. by destruct c, input.
Qed.

(** ** What was written *)

Definition entry_closes (x : Seen) : bool := match record x.1 with Some r => HttpRecord.close r | None => false end.

Lemma pop_written_leads c e f v : ring_ok (ring c) -> live_but (fun _ => False) (ring c) -> seen c = (e, f) :: v ->
  let (c', closed) := pop_written c in
  exists t, ring_ok (ring c') /\ seen c' = v /\ (shared_ok (shared c) -> shared_ok (shared c')) /\
  live_but (fun _ => False) (ring c') /\
  c' = set_shared (shared c') (set_ring (ring c') (set_taken t c)) /\ closed = entry_closes (e, f).
Proof.
  intros Hok Hl Hs. assert (seen c !! 0%nat = Some (e, f)) as H by (by rewrite Hs).
  destruct (seen_at c 0 e f Hok H) as (e0 & He & -> & -> & _). unfold pop_written.
  destruct (pop_front_ok (ring c) e0 Hok He) as (r' & -> & Hok' & Hv & Hq).
  set (c1 := set_shared _ (set_ring r' c)). assert (shared_ok (shared c) -> shared_ok (shared c1)) as Hsh by apply drop_future_ok.
  assert (seen c1 = v) as Hv1 by (unfold seen in *; cbn [ring c1 set_shared set_ring]; by rewrite Hv, Hs).
  assert (live_but (fun _ => False) (ring c1)) as Hl1.
  { cbn [ring c1 set_shared set_ring]. intros j e' Hj Hslot. left. assert (Hj' := Hj). rewrite Hq, lookup_drop in Hj'.
    destruct (Hl _ e' Hj' Hslot) as [Hf|[]]. assert (view r' !! j = view (ring c) !! (1 + j)%nat) as Hvj by (by rewrite Hv, lookup_drop).
    rewrite !view_lookup, Hj, Hj' in Hvj. injection Hvj as ->. done. }
  cbn [record with_slot]. set (claims := match record e0 with Some r => bool_decide _ | None => false end).
  destruct claims.
  - exists (record e0). set (c2 := set_taken (record e0) c1). pose proof (release_leads c2 (with_record (with_slot e0 None) None) Hok') as H2.
    split; [apply H2|]. split; [exact (eq_trans (leads_seen _ _ _ H2) Hv1)|]. split; [intros Hx; apply (leads_shared _ _ _ H2), Hsh, Hx|].
    split; [exact (leads_live _ _ _ H2 _ Hl1)|]. split; [|done]. rewrite (leads_frame _ _ _ H2) at 1. by destruct c.
  - exists (taken c). pose proof (release_leads c1 (with_slot e0 None) Hok') as H2.
    split; [apply H2|]. split; [exact (eq_trans (leads_seen _ _ _ H2) Hv1)|]. split; [intros Hx; apply (leads_shared _ _ _ H2), Hsh, Hx|].
    split; [exact (leads_live _ _ _ H2 _ Hl1)|]. split; [|done]. rewrite (leads_frame _ _ _ H2) at 1. by destruct c.
Qed.

Lemma pop_batch_leads n : forall c closed, ring_ok (ring c) -> live_but (fun _ => False) (ring c) -> (n <= length (seen c))%nat ->
  let (c', closed') := pop_batch n c closed in
  exists t, ring_ok (ring c') /\ seen c' = drop n (seen c) /\ (shared_ok (shared c) -> shared_ok (shared c')) /\
  live_but (fun _ => False) (ring c') /\
  c' = set_shared (shared c') (set_ring (ring c') (set_taken t c)) /\ closed' = closed || existsb entry_closes (take n (seen c)).
Proof.
  induction n as [|n IH]; intros c closed Hok Hl Hn; cbn [pop_batch].
  - exists (taken c). split; [done|]. split; [done|]. split; [done|]. split; [done|]. split; [by destruct c|by rewrite orb_false_r].
  - destruct (seen c) as [|[e f] v] eqn:Hs; [cbn in Hn; lia|]. pose proof (pop_written_leads c e f v Hok Hl Hs) as Hp.
    destruct (pop_written c) as [c1 closes1]. destruct Hp as (t1 & Hok1 & Hs1 & Hsh1 & Hl1 & Hf1 & ->).
    specialize (IH c1 (closed || entry_closes (e, f)) Hok1 Hl1). rewrite Hs1 in IH. cbn [length] in Hn.
    destruct (pop_batch n c1 _) as [c2 closed2]. destruct IH as (t2 & Hok2 & Hs2 & Hsh2 & Hl2 & Hf2 & ->); [lia|].
    exists t2. split; [done|]. split; [done|]. split; [tauto|]. split; [done|].
    split; [rewrite Hf2 at 1; rewrite Hf1; by destruct c|]. cbn [take existsb]. by rewrite orb_assoc.
Qed.

(** ** Reading resumes *)

Lemma each_entry_leads g : slotless g -> forall n i c, ring_ok (ring c) -> (length (seen c) = i + n)%nat ->
  leads c (set_ring (each_entry g i n (ring c)) c) (take i (seen c) ++ ((fun x => (g x.1, x.2)) <$> drop i (seen c))).
Proof.
  intros Hg. induction n as [|n IH]; intros i c Hok Hn; cbn [each_entry].
  - rewrite Nat.add_0_r in Hn. rewrite drop_ge, take_ge, app_nil_r by lia. assert (set_ring (ring c) c = c) as -> by (by destruct c).
    by apply leads_refl.
  - destruct (lookup_lt_is_Some_2 (seen c) i) as [[e f] Hi]; [lia|]. pose proof (change_leads c i e f g Hok Hi Hg) as H1.
    unfold change_entry in H1. set (c1 := set_ring _ c) in H1.
    specialize (IH (S i) c1 (leads_ok _ _ _ H1)). rewrite (leads_seen _ _ _ H1), length_insert in IH.
    pose proof (leads_trans _ _ _ _ _ H1 (IH ltac:(lia))) as H2. cbn [ring set_ring c1] in H2.
    assert (set_ring (each_entry g (S i) n (modify_entry (ring c) (HttpRing.position (ring c) i) g)) c1
      = set_ring (each_entry g (S i) n (modify_entry (ring c) (HttpRing.position (ring c) i) g)) c) as Heq by (by destruct c).
    rewrite Heq in H2. erewrite (drop_S _ _ i) by exact Hi. cbn [fmap list_fmap fst snd].
    rewrite drop_insert_lt in H2 by lia. erewrite take_S_r in H2 by (apply list_lookup_insert_eq; lia).
    rewrite take_insert_ge in H2 by lia. by rewrite <- app_assoc in H2.
Qed.

Definition resumed (env : Env) (c : Conn) : Conn :=
  set_read_held (held env)
    (if read_held c && negb (held env) then match head_since c with Some _ => set_head_since (Some (now env)) c | None => c end else c).
Definition touch (env : Env) (e : Entry) : Entry := if is_body (stage e) then with_last_byte e (now env) else e.

Lemma resume_leads env c : ring_ok (ring c) ->
  leads (resumed env c) (resume_reading env c)
    (if read_held c && negb (held env) then (fun x => (touch env x.1, x.2)) <$> seen c else seen c).
Proof.
  intros Hok. unfold resume_reading, resumed. destruct (read_held c && negb (held env)); [|by apply (leads_refl (set_read_held _ c))].
  set (c1 := match head_since c with Some _ => _ | None => c end). assert (ring c1 = ring c /\ seen c1 = seen c) as [Hr Hs].
  { unfold c1. by destruct (head_since c). }
  assert (ring_ok (ring c1)) as Hok1 by (by rewrite Hr).
  pose proof (each_entry_leads (touch env) ltac:(intros e s; unfold touch; cbn; by destruct (is_body (stage e))) (HttpRing.len (ring c)) 0
    (set_read_held (held env) c1) Hok1) as H. change (seen (set_read_held _ c1)) with (seen c1) in H. rewrite Hs in H.
  rewrite seen_length in H by done. specialize (H eq_refl). cbn [take drop app] in H. rewrite drop_0 in H.
  cbn [ring set_read_held] in H. rewrite Hr in H. rewrite Hr. exact H.
Qed.

(** ** Bodies *)

Lemma replace_leads c i e0 e' : ring_ok (ring c) -> queue (ring c) !! i = Some e0 -> slot e' = slot e0 ->
  leads c (change_entry (HttpRing.position (ring c) i) (fun _ => e') c) (<[i := (with_slot e' None, fut (ring c) e0)]> (seen c)).
Proof.
  intros Hok He Hs. assert (entry (ring c) (HttpRing.position (ring c) i) = Some e0) as Hat.
  { assert (i < CAP)%nat. { apply lookup_lt_Some in He as Hl. rewrite queue_length in Hl by apply Hok. pose proof (len_bound _ (shape _ Hok)). lia. }
    by rewrite at_queue by (done || apply Hok). }
  unfold change_entry, modify_entry. rewrite Hat. destruct (set_ok (ring c) i e0 e' Hok He Hs) as [Hok' Hv].
  split; [exact Hok'|exact Hv|done|done| |by destruct c].
  intros P Hl j e Hj Hsl. cbn [ring set_ring] in *. rewrite (queue_set _ _ e0) in Hj by (done || apply Hok).
  apply list_lookup_insert_Some in Hj as [(<- & <- & _)|[_ Hj]]; [|exact (Hl j e Hj Hsl)].
  rewrite Hs in Hsl. destruct (Hl i e0 He Hsl) as [Hf|]; [left|by right]. unfold fut in *. by rewrite Hs.
Qed.

Lemma feed_slot env e s framing max_body r rest :
  feed conf env (with_slot e s) framing max_body r rest
  = let '(e', n, k, fed) := feed conf env e framing max_body r rest in (with_slot e' s, n, k, fed).
Proof.
  unfold feed. destruct framing as [remaining|decoder]; [done|]. cbn [HttpRing.body_bytes with_slot].
  destruct (decode (limits conf) decoder rest) as [d [step|e']]; [|done]. destruct step as [data consumed|consumed|section consumed]; [|done|].
  - by destruct (max_body <? _).
  - by destruct (parse_trailers _ _ _ _) as [t [u|e']].
Qed.

Lemma feed_keeps env e framing max_body r rest : let '(e', _, _, _) := feed conf env e framing max_body r rest in slot e' = slot e.
Proof.
  unfold feed. destruct framing as [remaining|decoder]; [done|].
  destruct (decode (limits conf) decoder rest) as [d [step|e']]; [|done]. destruct step as [data consumed|consumed|section consumed]; [|done|].
  - by destruct (max_body <? _).
  - by destruct (parse_trailers _ _ _ _) as [t [u|e']].
Qed.

Lemma feed_body_leads env c e f framing pending max_body r :
  ring_ok (ring c) -> last (seen c) = Some (e, f) -> stage e = Body framing pending max_body -> record e = Some r ->
  tail (input c) <> [] ->
  let '(e', n, k, fed) := feed conf env e framing max_body r (tail (input c)) in
  leads (set_input (input_consume (input c) n) c) (feed_body conf env c).1 (<[(length (seen c) - 1)%nat := (e', f)]> (seen c)) /\
  (feed_body conf env c).2 = fed.
Proof.
  intros Hok Hl Hst Hr Ht. assert (Hl' := Hl). rewrite last_seen in Hl' by done.
  destruct (last_mut (ring c)) as [e0|] eqn:Hlast; [|done]. injection Hl' as <- <-. cbn [stage record with_slot] in Hst, Hr.
  assert (Hq := Hlast). rewrite last_queue in Hq by apply Hok. rewrite feed_slot. unfold feed_body. rewrite Hlast, Hst, Hr.
  rewrite bool_decide_eq_false_2 by done.
  pose proof (feed_keeps env e0 framing max_body r (tail (input c))) as Hs.
  destruct (feed conf env e0 framing max_body r (tail (input c))) as [[[e' n] k] fed]. split; [|done].
  pose proof (replace_leads c _ e0 e' Hok Hq Hs) as [A B C D E F]. rewrite seen_length by done. cbn [fst].
  split; [exact A|exact B|exact C|exact D|exact E|]. unfold last_position. rewrite F at 1. by destruct c.
Qed.

(** ** Starting handlers *)

Definition start_seen (x : Seen) : Seen :=
  match record x.1 with
  | Some r => (with_stage (with_body_bytes (with_record x.1 None) 0) Running,
               Some (with_hold (with_charge r (saturating_add 64 (charge r) (HttpRing.body_bytes x.1))) true))
  | None => x
  end.

(** The requests started, from the first one on. *)
Fixpoint starts (is_first all_safe_before : bool) (v : list Seen) : list Seen :=
  match v with
  | [] => []
  | x :: v =>
      let x' := if is_waiting (stage x.1) && (is_first || (all_safe_before && safe x.1)) then start_seen x else x in
      x' :: starts false (all_safe_before && safe x.1 && (is_running (stage x'.1) || is_done (stage x'.1))) v
  end.

Definition live (c : Conn) : Prop := live_but (fun _ => False) (ring c).

Lemma no_slot c i e0 : live c -> queue (ring c) !! i = Some e0 -> fut (ring c) e0 = None -> slot e0 = None.
Proof.
  intros Hl He Hf. destruct (slot e0) eqn:Hs; [|done]. destruct (Hl i e0 He ltac:(by rewrite Hs)) as [H|[]].
  rewrite Hf in H. by destruct H.
Qed.

Lemma start_at_leads c i e : ring_ok (ring c) -> live c -> seen c !! i = Some (e, None) ->
  leads c (start_at (HttpRing.position (ring c) i) c) (<[i := start_seen (e, None)]> (seen c)).
Proof.
  intros Hok Hlive H. destruct (seen_at c i e None Hok H) as (e0 & Hq & -> & Hf & Hat & Hi). unfold start_at. rewrite Hat. cbn [mbind option_bind].
  unfold start_seen. cbn [record with_slot fst]. destruct (record e0) as [r|] eqn:Hr; [|rewrite list_insert_id by done; by apply leads_refl].
  set (r' := with_hold _ true). pose proof (change_leads c i _ None (fun e => with_body_bytes (with_record e None) 0) Hok H ltac:(done)) as H1.
  set (c1 := change_entry _ _ c) in *. cbn beta in H1.
  assert (seen c1 !! i = Some (with_body_bytes (with_record (with_slot e0 None) None) 0, None)) as Hs1.
  { rewrite (leads_seen _ _ _ H1). apply list_lookup_insert_eq. by apply lookup_lt_Some in H. }
  destruct (seen_at c1 i _ _ (leads_ok _ _ _ H1) Hs1) as (e1 & Hq1 & He1 & Hf1 & _ & _).
  assert (live c1) as Hlive1 by (by apply (leads_live _ _ _ H1)).
  pose proof (no_slot c1 i e1 Hlive1 Hq1 (eq_sym Hf1)) as Hn1.
  destruct (start_ok (ring c1) i e1 r' (leads_ok _ _ _ H1) Hq1 Hn1) as (r2 & Hst & Hok2 & Hv2 & Hh2 & k & Hq2).
  assert (HttpRing.position (ring c1) i = HttpRing.position (ring c) i) as Hp by (apply position_head, (leads_head _ _ _ H1)).
  rewrite <- Hp, Hst. eapply leads_trans; [exact H1|].
  assert (e1 = with_slot e1 None) as Hself by (destruct e1; cbn in Hn1; by rewrite Hn1). rewrite <- Hself in He1. subst e1.
  split; [exact Hok2| |done|done| |by destruct c1].
  - unfold seen. cbn [ring set_ring]. rewrite Hv2. fold (seen c1). rewrite (leads_seen _ _ _ H1), list_insert_insert_eq. done.
  - intros P Hl j e' Hj Hsl. cbn [ring set_ring] in *. rewrite Hq2 in Hj.
    assert (view r2 !! j = <[i := (with_stage (with_body_bytes (with_record (with_slot e0 None) None) 0) Running, Some r')]> (view (ring c1)) !! j)
      as Hvj by (by rewrite Hv2).
    rewrite view_lookup, Hq2 in Hvj. apply list_lookup_insert_Some in Hj as [(<- & <- & Hlt)|[Hne Hj]].
    + left. rewrite !list_lookup_insert_eq in Hvj by (done || (rewrite view_length by apply H1; by rewrite queue_length in Hlt by apply H1)).
      injection Hvj as ->. done.
    + rewrite !list_lookup_insert_ne, view_lookup, Hj in Hvj by done. injection Hvj as ->. by apply (Hl j).
Qed.

Lemma start_loop_leads n : forall i all_safe c, ring_ok (ring c) -> live c -> (length (seen c) = i + n)%nat ->
  Forall (fun x => is_waiting (stage x.1) = true -> x.2 = None) (seen c) ->
  leads c (start_loop i n all_safe c) (take i (seen c) ++ starts (i =? 0)%nat all_safe (drop i (seen c))).
Proof.
  induction n as [|n IH]; intros i all_safe c Hok Hlive Hn Hall; cbn [start_loop].
  - rewrite Nat.add_0_r in Hn. rewrite drop_ge, take_ge, app_nil_r by lia. by apply leads_refl.
  - destruct (lookup_lt_is_Some_2 (seen c) i) as [[e f] Hi]; [lia|].
    destruct (seen_at c i e f Hok Hi) as (e0 & _ & He & _ & Hat & _). rewrite Hat.
    assert (is_waiting (stage e0) = is_waiting (stage e) /\ safe e0 = safe e) as [-> ->] by (by rewrite He).
    set (b := is_waiting (stage e) && _). set (c1 := if b then _ else c).
    assert (leads c c1 (<[i := if b then start_seen (e, f) else (e, f)]> (seen c))) as H1.
    { unfold c1. destruct b eqn:Hb; [|rewrite list_insert_id by done; by apply leads_refl].
      assert (f = None) as ->. { rewrite Forall_lookup in Hall. apply (Hall i (e, f) Hi). by apply andb_prop in Hb as [? _]. }
      by apply start_at_leads. }
    set (x' := if b then start_seen (e, f) else (e, f)) in *.
    assert (seen c1 !! i = Some x') as Hi1 by (rewrite (leads_seen _ _ _ H1); apply list_lookup_insert_eq; lia).
    destruct x' as [e' f'] eqn:Hx'. destruct (seen_at c1 i e' f' (leads_ok _ _ _ H1) Hi1) as (e1 & _ & He1 & _ & Hat1 & _).
    rewrite (position_head _ _ i (leads_head _ _ _ H1)) in Hat1. rewrite Hat1.
    assert (stage e1 = stage e') as -> by (by rewrite He1).
    set (all' := all_safe && safe e && _).
    specialize (IH (S i) all' c1 (leads_ok _ _ _ H1) (leads_live _ _ _ H1 _ Hlive)).
    rewrite (leads_seen _ _ _ H1), length_insert in IH. specialize (IH ltac:(lia)).
    assert (Forall (fun x => is_waiting (stage x.1) = true -> x.2 = None) (<[i := (e', f')]> (seen c))) as Hall'.
    { apply Forall_insert; [done|]. cbn [fst snd]. intros Hw. unfold x' in Hx'. destruct b eqn:Hb.
      - unfold start_seen in Hx'. cbn [fst] in Hx'. destruct (record e); injection Hx' as <- <-; [done|].
        rewrite Forall_lookup in Hall. by apply (Hall i (e, f) Hi).
      - injection Hx' as <- <-. rewrite Forall_lookup in Hall. by apply (Hall i (e, f) Hi). }
    pose proof (leads_trans _ _ _ _ _ H1 (IH Hall')) as H2. change (S i =? 0)%nat with false in H2.
    erewrite (drop_S _ _ i) by exact Hi. cbn [starts fst snd]. fold b. fold x'. rewrite Hx'. cbn [fst snd]. fold all'.
    rewrite drop_insert_lt in H2 by lia. erewrite take_S_r in H2 by (apply list_lookup_insert_eq; lia).
    rewrite take_insert_ge in H2 by lia. by rewrite <- app_assoc in H2.
Qed.

Lemma start_leads c : ring_ok (ring c) -> live c ->
  Forall (fun x => is_waiting (stage x.1) = true -> x.2 = None) (seen c) ->
  leads c (start_runnable c) (starts true true (seen c)).
Proof.
  intros Hok Hlive Hall. pose proof (start_loop_leads (HttpRing.len (ring c)) 0 true c Hok Hlive) as H.
  rewrite seen_length in H by done. exact (H eq_refl Hall).
Qed.
End conn.

(** ** Writes *)

Definition seen_octets (x : Seen) : bytes := match record x.1 with Some r => response_octets r | None => [] end.

(** The octets of a write: those of the first responses, or the interim one. *)
Definition batch_octets (v : list Seen) (w : Writing) : bytes :=
  (if prefix w then CONTINUE else []) ++ concat (seen_octets <$> take (count w) v).

Lemma response_len_octets r : Prelude.len (response_octets r) < 2 ^ 64 -> response_len r = Prelude.len (response_octets r).
Proof.
  unfold response_len, response_octets, saturating_add, Prelude.len. rewrite length_app. destruct (sends_body r).
  - assert (body_len (response_body (HttpRecord.answer r)) = length (HttpRecord.body_bytes (response_body (HttpRecord.answer r)))) as ->
      by (by destruct (response_body (HttpRecord.answer r))). pow2. lia.
  - cbn [length]. pow2. lia.
Qed.

(** The responses that are done before any that is not. *)
Fixpoint ready (v : list Seen) : list RequestRecord :=
  match v with
  | [] => []
  | x :: v => match stage x.1, record x.1 with Done, Some r => r :: ready v | _, _ => [] end
  end.

Lemma batch_ready c : ring_ok (ring c) -> forall n i k t, (length (seen c) = i + n)%nat -> 0 <= t ->
  t + Prelude.len (concat (response_octets <$> ready (drop i (seen c)))) < 2 ^ 64 ->
  batch i n (ring c) k t = ((k + length (ready (drop i (seen c))))%nat, t + Prelude.len (concat (response_octets <$> ready (drop i (seen c))))).
Proof.
  intros Hok. induction n as [|n IH]; intros i k t Hn Ht Hb; cbn [batch].
  - rewrite drop_ge by lia. unfold Prelude.len. cbn [ready fmap list_fmap concat length]. f_equal; lia.
  - destruct (lookup_lt_is_Some_2 (seen c) i) as [[e f] Hi]; [lia|].
    destruct (seen_at c i e f Hok Hi) as (e0 & _ & He & _ & Hat & _). rewrite Hat. erewrite drop_S in Hb |- * by exact Hi.
    assert (stage e = stage e0 /\ record e = record e0) as [Hs Hr] by (by rewrite He).
    cbn [ready fst] in Hb |- *. rewrite Hs, Hr in Hb |- *.
    destruct (stage e0) as [fr cp mb| | |]; try (unfold Prelude.len; cbn [length fmap list_fmap concat]; f_equal; lia).
    destruct (record e0) as [r|]; [|unfold Prelude.len; cbn [length fmap list_fmap concat]; f_equal; lia].
    cbn [fmap list_fmap concat length] in Hb |- *. unfold Prelude.len in Hb |- *. rewrite length_app in Hb |- *.
    rewrite response_len_octets by (unfold Prelude.len; lia). unfold saturating_add. rewrite Z.min_l by (unfold Prelude.len; lia).
    rewrite IH by (unfold Prelude.len; lia). unfold Prelude.len. f_equal; lia.
Qed.

Lemma advance_slices_drop s : forall n, concat (advance_slices s n) = drop n (concat s).
Proof.
  induction s as [|l s IH]; intros n; cbn [advance_slices concat]; [by rewrite drop_nil|].
  destruct (Nat.leb_spec (length l) n).
  - rewrite IH, drop_app_ge by lia. done.
  - cbn [concat]. by rewrite drop_app_le by lia.
Qed.

Lemma push_slice_octets slices t : (length slices < SLICES)%nat ->
  concat (push_slice slices t) = concat slices ++ t /\ (length (push_slice slices t) <= S (length slices))%nat.
Proof.
  intros Hn. unfold push_slice. case_bool_decide as He; [subst; rewrite app_nil_r; split; [done|lia]|].
  rewrite (proj2 (Nat.ltb_lt _ _)) by done. rewrite concat_app, length_app. cbn. rewrite app_nil_r. split; [done|lia].
Qed.

Lemma response_slices_octets en h : forall indices slices, (length slices + 2 * length indices <= SLICES)%nat ->
  (forall i, i ∈ indices -> is_Some (record_at en h i)) ->
  concat (response_slices indices en h slices)
  = concat slices ++ concat ((fun i => match record_at en h i with Some r => response_octets r | None => [] end) <$> indices).
Proof.
  induction indices as [|i indices IH]; intros slices Hn Hall; cbn [response_slices fmap list_fmap concat]; [by rewrite app_nil_r|].
  destruct (Hall i ltac:(by apply list_elem_of_here)) as [r Hr]. rewrite Hr. cbn [length] in Hn.
  destruct (push_slice_octets slices (response_head (HttpRecord.answer r))) as [H1 H1l]; [lia|].
  set (s1 := push_slice slices _) in *. unfold response_octets at 1.
  set (s2 := if sends_body r then _ else s1).
  assert (concat s2 = concat slices ++ response_head (HttpRecord.answer r) ++ (if sends_body r then HttpRecord.body_bytes (response_body (HttpRecord.answer r)) else [])
    /\ (length s2 <= 2 + length slices)%nat) as [H2 H2l].
  { unfold s2. destruct (sends_body r); [|rewrite app_nil_r; split; [done|lia]].
    destruct (push_slice_octets s1 (HttpRecord.body_bytes (response_body (HttpRecord.answer r)))) as [H2 H2l]; [lia|].
    rewrite H2, H1, <- app_assoc. split; [done|lia]. }
  rewrite IH, H2, <- !app_assoc; [done|lia|]. intros j Hj. apply Hall. by apply list_elem_of_further.
Qed.

Lemma to_write_octets c w : ring_ok (ring c) -> writing c = Some w -> (count w <= length (seen c))%nat ->
  (forall i x, seen c !! i = Some x -> (i < count w)%nat -> is_Some (record x.1)) ->
  0 <= written w < Prelude.len (batch_octets (seen c) w) ->
  to_write c = drop (Z.to_nat (written w)) (batch_octets (seen c) w).
Proof.
  intros Hok Hw Hn Hall Hwr. unfold to_write. rewrite Hw. unfold fill_slices.
  assert (length (seen c) <= CAP)%nat as Hcap by (rewrite seen_length by done; apply Hok).
  assert (forall i, (i < count w)%nat -> record_at (entries (ring c)) (HttpRing.head (ring c)) i = seen c !! i ≫= fun x => record x.1) as Hat.
  { intros i Hi. destruct (lookup_lt_is_Some_2 (seen c) i) as [[e f] Hx]; [lia|].
    destruct (seen_at c i e f Hok Hx) as (e0 & _ & He & _ & Hen & _). change (entry (ring c) (HttpRing.position (ring c) i) ≫= record = (seen c !! i ≫= fun x => record x.1)).
    by rewrite Hx, Hen, He. }
  set (p := if prefix w then push_slice [] CONTINUE else []).
  assert (concat p = (if prefix w then CONTINUE else []) /\ (length p <= 1)%nat) as [Hp Hpl]
    by (unfold p; destruct (prefix w); split; [reflexivity|apply Nat.leb_le; reflexivity|reflexivity|apply Nat.leb_le; reflexivity]).
  set (slices := response_slices _ _ _ p). assert (concat slices = batch_octets (seen c) w) as Hs.
  { unfold slices. rewrite response_slices_octets, Hp.
    - unfold batch_octets. f_equal. f_equal. apply list_eq. intros i. rewrite !list_lookup_fmap.
      destruct (decide (i < count w)%nat) as [Hi|Hi].
      + rewrite lookup_seq_lt, lookup_take_lt by done. destruct (lookup_lt_is_Some_2 (seen c) i) as [x Hx]; [lia|].
        cbn. rewrite Hat, Hx by done. done.
      + rewrite lookup_seq_ge, lookup_take_ge by lia. done.
    - rewrite length_seq. unfold SLICES. lia.
    - intros i Hi. apply elem_of_seq in Hi. rewrite Hat by lia. destruct (lookup_lt_is_Some_2 (seen c) i) as [x Hx]; [lia|].
      rewrite Hx. cbn. apply (Hall i x Hx). lia. }
  rewrite Hs, (proj2 (Z.ltb_lt _ _)) by apply Hwr. by rewrite advance_slices_drop, Hs.
Qed.
