(* ===== verification/HttpPipeline.v ===== *)
(** * Pipelining: responses in the order of the requests

    The invariant of the driver of [HttpConn]: whatever arrives, however the handlers
    interleave and whenever deadlines fire, the responses leave whole and in the order in
    which their requests were accepted, up to the first that ends the connection. *)
From stdpp Require Import sorting.
From S2P Require Import Prelude Core Limits HttpTypes CoreBuf Date DateText HttpFields H1Head H1Chunked H1Grammar H1Response HttpError HttpRecord HttpCall HttpRing HttpSerialize HttpConn HttpConnView.

(** ** The order of a line of requests *)

(** A request by its parsed head, none when no head was parsed, and its answer. *)
Abbreviation Item := (option Head * option RequestRecord)%type.
Definition is_last (x : Item) : bool := match x.2 with Some r => closes r | None => false end.

(** The line answers what was accepted, in order: up to an answer that is the last, or as a
    whole, and then nothing is missing unless the connection shuts. *)
Definition ordered (accepted : list (option Head)) (line : list Item) (shut : Prop) : Prop :=
  (exists m x, line !! m = Some x /\ is_last x = true /\ (take (S m) line).*1 `prefix_of` accepted) \/
  (line.*1 `prefix_of` accepted /\ (shut \/ line.*1 = accepted)).

Lemma ordered_push acc line id a (P : Prop) :
  ordered acc line False -> ordered (acc ++ [id]) (line ++ [(id, a)]) P.
Proof.
  intros [(m & x & Hm & Hx & Hp)|[Hp [[]|<-]]].
  - left. exists m, x. apply lookup_lt_Some in Hm as Hl. rewrite lookup_app_l, take_app_le by lia. split; [done|]. split; [done|].
    by apply prefix_app_r.
  - right. rewrite fmap_app. split; [done|by right].
Qed.

Lemma ordered_shut acc line (P Q : Prop) : (P -> Q) -> ordered acc line P -> ordered acc line Q.
Proof. intros H [?|[? [?|?]]]; [by left|right|right]; auto. Qed.

Lemma ordered_set acc line k x x' P : line !! k = Some x -> x'.1 = x.1 -> (is_last x = true -> is_last x' = true) ->
  ordered acc line P -> ordered acc (<[k := x']> line) P.
Proof.
  intros Hk H1 Hl Ho.
  assert (forall n, (take n (<[k := x']> line)).*1 = (take n line).*1) as Hf.
  { intros n. rewrite !fmap_take. f_equal. rewrite list_fmap_insert, H1. apply list_insert_id. by rewrite list_lookup_fmap, Hk. }
  destruct Ho as [(m & y & Hm & Hy & Hp)|[Hp Hq]].
  - left. exists m. destruct (decide (m = k)) as [->|Hne].
    + exists x'. rewrite list_lookup_insert_eq by (by apply lookup_lt_Some in Hm). rewrite Hk in Hm. injection Hm as ->. rewrite Hf. auto.
    + exists y. rewrite list_lookup_insert_ne, Hf by done. auto.
  - right. specialize (Hf (length line)). rewrite !take_ge in Hf by (rewrite ?length_insert; lia). by rewrite Hf.
Qed.

Lemma ordered_cut acc line k x P Q : line !! k = Some x -> is_last x = true -> forall n, (k < n)%nat ->
  ordered acc line P -> ordered acc (take n line) Q.
Proof.
  intros Hk Hl n Hn Ho. left.
  assert (forall m, (take (S m) line).*1 `prefix_of` acc -> (m <= k)%nat \/ (take (S k) line).*1 `prefix_of` acc) as Hm.
  { intros m Hp. destruct (decide (m <= k)%nat); [by left|]. right. etrans; [|exact Hp].
    rewrite !fmap_take. rewrite <- (take_drop (S k) (take (S m) line.*1)), take_take, Nat.min_l by lia. by apply prefix_app_r. }
  assert (forall m y, line !! m = Some y -> is_last y = true -> (m <= k)%nat -> (take (S m) line).*1 `prefix_of` acc ->
    exists m y, take n line !! m = Some y /\ is_last y = true /\ (take (S m) (take n line)).*1 `prefix_of` acc) as Hdone.
  { intros m y Hy Hly Hle Hp. exists m, y. rewrite lookup_take_lt, take_take, Nat.min_l by lia. done. }
  destruct Ho as [(m & y & Hy & Hly & Hp)|[Hp _]].
  - destruct (Hm m Hp) as [Hle|Hk']; [by eapply Hdone|]. by apply (Hdone k x).
  - apply (Hdone k x); [done..|]. etrans; [|exact Hp]. rewrite fmap_take. apply prefix_take.
Qed.

Lemma ordered_drop_last acc line x (P Q : Prop) : is_last x = false -> Q -> ordered acc (line ++ [x]) P -> ordered acc line Q.
Proof.
  intros Hx HQ [(m & y & Hm & Hy & Hp)|[Hp _]].
  - left. exists m, y. apply lookup_snoc_Some in Hm as [[Hlt Hm]|[_ <-]]; [|congruence].
    rewrite take_app_le in Hp by lia. done.
  - right. split; [|by left]. etrans; [|exact Hp]. rewrite fmap_app. by apply prefix_app_r.
Qed.

(** What the order says of a response. *)
Lemma ordered_answers acc line P k x : ordered acc line P -> line !! k = Some x ->
  (forall j y, (j < k)%nat -> line !! j = Some y -> is_last y = false) -> acc !! k = Some x.1.
Proof.
  intros Ho Hk Hno.
  assert (forall n, (k < n)%nat -> (take n line).*1 `prefix_of` acc -> acc !! k = Some x.1) as Hd.
  { intros n Hn [l ->]. rewrite lookup_app_l by (rewrite length_fmap, length_take; apply lookup_lt_Some in Hk; lia).
    by rewrite list_lookup_fmap, lookup_take_lt, Hk by lia. }
  destruct Ho as [(m & y & Hm & Hy & Hp)|[Hp _]].
  - apply (Hd (S m)); [|done]. destruct (decide (m < k)%nat); [|lia]. by rewrite (Hno m y) in Hy.
  - apply (Hd (S (length line))); [apply lookup_lt_Some in Hk; lia|]. by rewrite take_ge by lia.
Qed.

(** ** Records on their way *)

Section pipeline.
Context (conf : Settings).

(** The [Server] line is one of [server_block], of a bounded size. *)
Definition settings_ok : Prop :=
  exists value, server_line conf = server_block value /\ (forall v, value = Some v -> value_ok v) /\
  Prelude.len (server_line conf) <= 65536.

Definition env_ok (env : Env) : Prop := 0 <= unix env /\ 0 <= head_capacity env < 2 ^ 63.

(** What memory bounds: a body, and the fields a handler wrote, here 8 MiB. *)
Definition small (r : RequestRecord) : Prop :=
  Prelude.len (HttpRecord.body_bytes (response_body (HttpRecord.answer r))) < 2 ^ 63 /\
  Prelude.len (response_fields (HttpRecord.answer r)) <= 2 ^ 23.

Definition handled (r : RequestRecord) : Prop :=
  exists ls, response_fields (HttpRecord.answer r) = lines_text ls /\ Forall line_ok ls.

(** The response of a record was serialized from what a handler, or the driver, left. *)
Record made_from (env : Env) (close : bool) (r0 r : RequestRecord) : Prop := {
  from_env : env_ok env;
  from_handled : handled r0;
  from_small : small r0;
  from_answer : HttpRecord.answer r = HttpRecord.answer (driver_serialize conf env r0 close);
  from_parsed : parsed (received r) = parsed (received r0);
  from_close : HttpRecord.close r = HttpRecord.close r0;
}.
Definition made (r : RequestRecord) : Prop := exists env close r0, made_from env close r0 r.

Context (conf_ok : settings_ok).

Lemma serialize_fits env r close : env_ok env -> small r ->
  exists head, driver_serialize conf env r close
    = with_answer r (with_response_head (with_claim (HttpRecord.answer r)
        (match honoured r with Some _ => claim (HttpRecord.answer r) | None => None end)) head) /\
    head <> [].
Proof.
  intros [Hu Hc] [Hb Hf]. destruct conf_ok as (sv & _ & _ & Hsl).
  destruct (serialize_head (date_block (unix env)) (server_line conf) (head_capacity env) r close Hc) as [He|[Hbig _]].
  - assert (Z.of_nat (body_len (response_body (HttpRecord.answer r))) = Prelude.len (HttpRecord.body_bytes (response_body (HttpRecord.answer r)))) as ->
      by by destruct (response_body (HttpRecord.answer r)). word_lia.
  - eexists. split; [exact He|]. unfold head_text. destruct (owed r); [done|]. pose proof (status_text_nonempty (parts_status (head_parts (date_block (unix env)) (server_line conf) r close))) as Hne.
    by destruct (status_text _).
  - exfalso. revert Hbig. apply Z.le_ngt. etrans; [apply head_text_length|].
    + cbn [parts_body_len head_parts].
      assert (Z.of_nat (body_len (response_body (HttpRecord.answer r))) = Prelude.len (HttpRecord.body_bytes (response_body (HttpRecord.answer r)))) as ->
        by by destruct (response_body (HttpRecord.answer r)). word_lia.
    + cbn [date server head_parts]. destruct (date_block_line (unix env) Hu) as (v & -> & Hv & _).
      unfold line, Prelude.len in *. rewrite !length_app, Hv. unfold MAX_RESPONSE_HEAD. change (length (bs "Date")) with 4%nat.
      change (length (bs ": ")) with 2%nat. change (length CRLF) with 2%nat. pow2. lia.
Qed.

Lemma honoured_same r a : HttpRecord.status a = HttpRecord.status (HttpRecord.answer r) -> 
  claim a = (match honoured r with Some _ => claim (HttpRecord.answer r) | None => None end) ->
  forall r', HttpRecord.answer r' = a -> parsed (received r') = parsed (received r) -> honoured r' = honoured r.
Proof.
  intros Hs Hc r' Ha Hp. unfold honoured. rewrite Ha, Hs, Hc.
  assert (record_head_request r' = record_head_request r) as -> by (unfold record_head_request, record_method; by rewrite Hp).
  unfold honoured. destruct (claim (HttpRecord.answer r)) as [[[] tok]|]; cbn [kind fmap option_fmap option_map]; [| |done];
    [destruct (default OK _ =? _) eqn:He | destruct (body_allowed _ _) eqn:He]; cbn [kind fmap option_fmap option_map]; rewrite ?He; done.
Qed.

(** A made response stays one when the driver serializes it again, and is the last as before. *)
Lemma made_again env r close : env_ok env -> made r ->
  made (driver_serialize conf env r close) /\ closes (driver_serialize conf env r close) = closes r /\
  parsed (received (driver_serialize conf env r close)) = parsed (received r).
Proof.
  intros Henv (env0 & close0 & r0 & [He Hh Hs Ha Hp Hc]).
  destruct (serialize_fits env0 r0 close0 He Hs) as (head0 & H0 & _). rewrite H0 in Ha. cbn [HttpRecord.answer with_answer] in Ha.
  assert (honoured r = honoured r0) as Hhon.
  { eapply (honoured_same r0 (HttpRecord.answer r)); [by rewrite Ha|by rewrite Ha|done|done]. }
  assert (small r) as Hsr by (unfold small in *; by rewrite Ha).
  assert (handled r) as Hhr by (unfold handled in *; by rewrite Ha).
  destruct (serialize_fits env r close Henv Hsr) as (head & H1 & _).
  split; [|split].
  - exists env, close, r. by split; [| | | |rewrite H1|rewrite H1].
  - rewrite H1. unfold closes. cbn [HttpRecord.close with_answer HttpRecord.answer with_response_head with_claim claim]. f_equal.
    rewrite Hhon, Ha. cbn [with_response_head with_claim claim]. by destruct (honoured r0).
  - by rewrite H1.
Qed.

Lemma made_serialize env r close : env_ok env -> handled r -> small r ->
  made (driver_serialize conf env r close) /\ parsed (received (driver_serialize conf env r close)) = parsed (received r) /\
  HttpRecord.close (driver_serialize conf env r close) = HttpRecord.close r.
Proof.
  intros He Hh Hs. destruct (serialize_fits env r close He Hs) as (head & H1 & _). rewrite H1. split; [|done].
  exists env, close, r. by split; [| | |rewrite H1| |].
Qed.

(** The driver's own answers. *)
Lemma answer_with_small r status shape : handled (answer_with r status shape) /\ small (answer_with r status shape).
Proof.
  unfold answer_with. destruct (status =? CONTENT_TOO_LARGE); [|destruct (status =? SERVICE_UNAVAILABLE)].
  1,2: split; [exists [(bs "Content-Type", media_type shape)]; split; [by destruct shape|repeat constructor; by destruct shape]|].
  1,2: split; destruct shape; apply Z.ltb_lt || apply Z.leb_le; vm_compute; reflexivity.
  split; [by exists []|]. split; by apply Z.ltb_lt || apply Z.leb_le.
Qed.

Lemma failing_made env status r : env_ok env -> made (failing conf env status r) /\ closes (failing conf env status r) = true /\
  parsed (received (failing conf env status r)) = parsed (received r).
Proof.
  intros He. unfold failing. destruct (answer_with_small r status (error_shape conf)) as [Hh Hs].
  destruct (answer_with_received r status (error_shape conf)) as (Hr & _ & _ & _).
  destruct (made_serialize env (with_close (answer_with r status (error_shape conf)) true) true He Hh Hs) as (Hm & Hp & Hc).
  split; [done|]. unfold closes. rewrite Hc, Hp. cbn. by rewrite Hr.
Qed.

(** ** Entries *)

Definition building (r : RequestRecord) : Prop := HttpRecord.answer r = empty_answer.

Definition entry_ok (x : Seen) : Prop :=
  match stage x.1 with
  | Body _ _ _ | Waiting => x.2 = None /\ exists r, record x.1 = Some r /\ building r
  | Running =>
      (record x.1 = None /\ exists f, x.2 = Some f /\ handled f) \/ (x.2 = None /\ exists r, record x.1 = Some r /\ handled r /\ small r)
  | Done => x.2 = None /\ exists r, record x.1 = Some r /\ made r
  end.

Definition id_of (x : Seen) : option Head :=
  match record x.1, x.2 with
  | Some r, _ => parsed (received r)
  | None, Some f => parsed (received f)
  | None, None => None
  end.
Definition item (x : Seen) : Item := (id_of x, if is_done (stage x.1) then record x.1 else None).

(** ** The invariant *)

(** What was written whole: an interim response, or the response of a request. *)
Inductive Message : Type := Interim | Response (id : option Head) (r : RequestRecord).
Definition message_octets (m : Message) : bytes := match m with Interim => CONTINUE | Response _ r => response_octets r end.
Definition answers (sent : list Message) : list Item := omap (fun m => match m with Interim => None | Response id r => Some (id, Some r) end) sent.
Definition line_of (sent : list Message) (E : list Seen) : list Item := answers sent ++ (item <$> E).

(** Nothing is pushed any more. *)
Definition shut (c : Conn) : Prop := conn_close c = true /\ head_since c = None.

Definition write_ok (c : Conn) (E : list Seen) : Prop :=
  forall w, writing c = Some w -> (count w <= length E)%nat /\
    (forall i x, (i < count w)%nat -> E !! i = Some x -> stage x.1 = Done) /\
    total w = Prelude.len (batch_octets E w) /\ 0 <= written w < total w /\ (prefix w = true -> count w = 0%nat) /\ total w < 2 ^ 64.

Definition in_progress (c : Conn) (E : list Seen) : bytes :=
  match writing c with Some w => take (Z.to_nat (written w)) (batch_octets E w) | None => [] end.

Record Inv (c : Conn) (E : list Seen) (accepted : list (option Head)) (sent : list Message) (wire : bytes) : Prop := {
  inv_entries : Forall entry_ok E;
  inv_order : ordered accepted (line_of sent E) (shut c);
  inv_write : write_ok c E;
  inv_made : forall id r, Response id r ∈ sent -> made r;
  inv_wire : wire = concat (message_octets <$> sent) ++ in_progress c E;
  inv_head : is_Some (head_since c) -> (length E < max_pipelined conf)%nat;
  inv_next : forall r, next c = Some r -> fresh r;
  inv_shared : shared_ok (shared c);
}.

(** The entries being written are as they were. *)
Definition kept_batch (c : Conn) (E E' : list Seen) : Prop :=
  forall w, writing c = Some w -> take (count w) E' = take (count w) E /\ (count w <= length E')%nat.

Lemma kept_refl c E : write_ok c E -> kept_batch c E E.
Proof. intros H w Hw. by destruct (H w Hw). Qed.

Lemma kept_trans c E E1 E2 : kept_batch c E E1 -> kept_batch c E1 E2 -> kept_batch c E E2.
Proof. intros H1 H2 w Hw. destruct (H1 w Hw) as [H _], (H2 w Hw) as [H' ?]. split; [congruence|done]. Qed.

Lemma kept_writing c c' E E' : writing c' = writing c -> kept_batch c E E' -> kept_batch c' E E'.
Proof. intros Hw H w Hc. apply H. congruence. Qed.

(** An entry that is not done is not being written. *)
Lemma busy_index c E k x w : write_ok c E -> E !! k = Some x -> is_done (stage x.1) = false -> writing c = Some w -> (count w <= k)%nat.
Proof.
  intros H Hk Hx Hw. destruct (H w Hw) as (_ & Hd & _). destruct (decide (k < count w)%nat) as [Hlt|]; [|lia].
  by rewrite (Hd k x Hlt Hk) in Hx.
Qed.

Lemma kept_set c E k x' : write_ok c E -> (forall w, writing c = Some w -> (count w <= k)%nat) -> kept_batch c E (<[k := x']> E).
Proof. intros H Hk w Hw. rewrite take_insert_ge, length_insert by (by apply Hk). split; [done|]. by destruct (H w Hw). Qed.

Lemma kept_cut c E n : write_ok c E -> (forall w, writing c = Some w -> (count w <= n)%nat) -> kept_batch c E (take n E).
Proof.
  intros H Hn w Hw. specialize (Hn w Hw). rewrite take_take, Nat.min_l, length_take by done. split; [done|]. destruct (H w Hw). lia.
Qed.

Lemma kept_app c E l : write_ok c E -> kept_batch c E (E ++ l).
Proof. intros H w Hw. destruct (H w Hw) as [Hl _]. rewrite take_app_le, length_app by done. split; [done|lia]. Qed.

Lemma kept_write c c' E E' : write_ok c E -> kept_batch c E E' -> writing c' = writing c -> write_ok c' E' /\ in_progress c' E' = in_progress c E.
Proof.
  intros H Hk Hw. assert (forall w, writing c = Some w -> batch_octets E' w = batch_octets E w) as Hb.
  { intros w Hcw. unfold batch_octets. by destruct (Hk w Hcw) as [-> _]. }
  split.
  - intros w Hcw. rewrite Hw in Hcw. destruct (H w Hcw) as (H1 & H2 & H3 & H4 & H5 & H6). destruct (Hk w Hcw) as [Ht Hl].
    split; [done|]. split; [|by rewrite Hb]. intros i x Hi Hx. apply (H2 i x Hi). rewrite <- (lookup_take_lt E (count w)), <- Ht by done.
    by rewrite lookup_take_lt.
  - unfold in_progress. rewrite Hw. destruct (writing c) as [w|] eqn:Hcw; [|done]. by rewrite Hb.
Qed.

Lemma inv_step c c' E E' acc acc' sent wire : Inv c E acc sent wire -> writing c' = writing c -> kept_batch c E E' ->
  Forall entry_ok E' -> ordered acc' (line_of sent E') (shut c') ->
  (is_Some (head_since c') -> (length E' < max_pipelined conf)%nat) -> (forall r, next c' = Some r -> fresh r) -> shared_ok (shared c') ->
  Inv c' E' acc' sent wire.
Proof.
  intros HI Hw Hk He Ho Hh Hn Hs. destruct (kept_write c c' E E' (inv_write _ _ _ _ _ HI) Hk Hw) as [Hw' Hp].
  split; [done|done|done|apply HI|rewrite Hp; apply HI|done..].
Qed.

Lemma order_set acc sent E k x x' P : E !! k = Some x -> id_of x' = id_of x ->
  (is_last (item x) = true -> is_last (item x') = true) ->
  ordered acc (line_of sent E) P -> ordered acc (line_of sent (<[k := x']> E)) P.
Proof.
  intros Hk Hid Hl Ho. unfold line_of in *. rewrite list_fmap_insert, <- insert_app_r.
  apply (ordered_set _ _ _ (item x)); [|exact Hid|exact Hl|exact Ho]. rewrite lookup_app_r by lia.
  replace (length (answers sent) + k - length (answers sent))%nat with k by lia. by rewrite list_lookup_fmap, Hk.
Qed.

Lemma order_cut acc sent E k x P Q n : E !! k = Some x -> is_last (item x) = true -> (k < n)%nat ->
  ordered acc (line_of sent E) P -> ordered acc (line_of sent (take n E)) Q.
Proof.
  intros Hk Hl Hn Ho. unfold line_of in *.
  assert (answers sent ++ (item <$> take n E) = take (length (answers sent) + n) (answers sent ++ (item <$> E))) as ->.
  { rewrite take_app_ge by lia. f_equal. rewrite fmap_take. f_equal. lia. }
  apply (ordered_cut _ _ (length (answers sent) + k) (item x) P); [|exact Hl|lia|exact Ho].
  rewrite lookup_app_r by lia. replace (length (answers sent) + k - length (answers sent))%nat with k by lia. by rewrite list_lookup_fmap, Hk.
Qed.

Lemma order_push acc sent E x P : ordered acc (line_of sent E) False -> ordered (acc ++ [id_of x]) (line_of sent (E ++ [x])) P.
Proof. intros Ho. unfold line_of in *. rewrite fmap_app, app_assoc. by apply ordered_push. Qed.

(** ** Closing the last response *)

Lemma reclosed_keeps env c E : env_ok env -> Forall entry_ok E -> write_ok c E ->
  Forall entry_ok (reclosed conf env c E) /\ kept_batch c E (reclosed conf env c E) /\
  id_of <$> reclosed conf env c E = id_of <$> E /\
  forall acc sent P, ordered acc (line_of sent E) P -> ordered acc (line_of sent (reclosed conf env c E)) P.
Proof.
  intros Henv He Hw. unfold reclosed. destruct (last E) as [[e f]|] eqn:Hl; [|by split; [|split; [apply kept_refl|]]].
  destruct (in_batch c (length E - 1)) eqn:Hb; [by split; [|split; [apply kept_refl|]]|].
  rewrite last_lookup, <- Nat.sub_1_r in Hl. set (k := (length E - 1)%nat) in *.
  assert (entry_ok (e, f)) as Hx by (by eapply Forall_lookup_1).
  assert (entry_ok (close_entry conf env e, f) /\ id_of (close_entry conf env e, f) = id_of (e, f) /\
    is_last (item (close_entry conf env e, f)) = is_last (item (e, f))) as (H1 & H2 & H3).
  { unfold close_entry. destruct (stage e) eqn:Hs; try done. destruct (record e) as [r|] eqn:Hr; [|done].
    unfold entry_ok in Hx. cbn [fst snd] in Hx. rewrite Hs, Hr in Hx. destruct Hx as (-> & r' & [= <-] & Hm).
    destruct (made_again env r true Henv Hm) as (Hm' & Hc & Hp).
    split; [|split].
    - unfold entry_ok. cbn [fst snd with_record stage record]. rewrite Hs. split; [done|]. by eexists.
    - unfold id_of. cbn. by rewrite Hr.
    - unfold is_last, item. cbn [fst snd with_record stage record]. rewrite Hs, Hr. cbn. done. }
  assert (forall w, writing c = Some w -> (count w <= k)%nat) as Hkw.
  { intros w Hcw. unfold in_batch in Hb. rewrite Hcw in Hb. by apply Nat.ltb_ge in Hb. }
  split; [by apply Forall_insert|]. split; [by apply kept_set|]. split.
  - rewrite list_fmap_insert, H2. apply list_insert_id. by rewrite list_lookup_fmap, Hl.
  - intros acc sent P. eapply order_set; [exact Hl|done|]. by rewrite H3.
Qed.

(** ** Failing a request *)

Lemma leads_fields c c' v : leads c c' v -> writing c' = writing c /\ head_since c' = head_since c /\ next c' = next c /\
  conn_close c' = conn_close c /\ input c' = input c /\ completed c' = completed c /\ taking c' = taking c /\ aborted c' = aborted c.
Proof. intros [_ _ _ _ _ ->]. done. Qed.

Lemma fail_inv env i status c e f acc sent wire : env_ok env -> ring_ok (ring c) ->
  Inv c (seen c) acc sent wire -> seen c !! i = Some (e, f) -> is_done (stage e) = false ->
  let c' := fail_at conf env i status c in
  ring_ok (ring c') /\ (live c -> live c') /\ Inv c' (seen c') acc sent wire /\ conn_close c' = true /\ input c' = NoInput /\
  id_of <$> seen c' = take (S i) (id_of <$> seen c) /\ completed c' = completed c.
Proof.
  intros Henv Hok HI Hi Hd c'. destruct (fail_at_leads conf env i status c e f Hok (inv_shared _ _ _ _ _ HI) Hi) as (r & Hr & HL).
  fold c' in HL. destruct (failing_made env status r Henv) as (Hm & Hc & Hp).
  set (x := (with_stage (with_record e (Some (failing conf env status r))) Done, None) : Seen) in *.
  assert (take i (seen c) ++ [x] = take (S i) (<[i := x]> (seen c))) as Hcut.
  { rewrite take_insert_lt by lia. erewrite take_S_r by exact Hi. rewrite insert_app_r_alt by (rewrite length_take; lia).
    replace (i - length (take i (seen c)))%nat with 0%nat; [done|]. rewrite length_take. apply lookup_lt_Some in Hi. lia. }
  assert (entry_ok x) as Hx by (split; [done|by exists (failing conf env status r)]).
  assert (id_of x = id_of (e, f)) as Hid by (unfold id_of; cbn; by rewrite Hp, Hr).
  assert (is_last (item x) = true) as Hlast by done.
  assert (forall w, writing c = Some w -> (count w <= i)%nat) as Hkw by (intros w; eapply busy_index; [apply HI|exact Hi|done]).
  pose proof (inv_entries _ _ _ _ _ HI) as He. assert (i < length (seen c))%nat as Hil by (by apply lookup_lt_Some in Hi).
  assert (kept_batch c (seen c) (take (S i) (<[i := x]> (seen c)))) as Hk.
  { rewrite take_insert_lt by lia. intros w Hw. specialize (Hkw w Hw).
    rewrite take_insert_ge, take_take, Nat.min_l, length_insert, length_take by lia. split; [done|lia]. }
  assert (Forall entry_ok (take (S i) (<[i := x]> (seen c)))) as He' by (by apply Forall_take, Forall_insert).
  rewrite Hcut in HL. destruct (kept_write c c _ _ (inv_write _ _ _ _ _ HI) Hk eq_refl) as [Hw' _].
  destruct (reclosed_keeps env c _ Henv He' Hw') as (H1 & H2 & H3 & H4).
  destruct (leads_fields _ _ _ HL) as (F1 & F2 & F3 & F4 & F5 & F6 & _ & _).
  split; [apply HL|]. split; [intros Hl; by apply (leads_live _ _ _ HL)|].
  rewrite (leads_seen _ _ _ HL). split; [|split; [done|split; [done|split; [|done]]]].
  - eapply inv_step; [exact HI|done|by eapply kept_trans|done| |..].
    + apply H4. eapply order_cut; [apply list_lookup_insert_eq, Hil|done|lia|]. eapply order_set; [exact Hi|done|done|apply HI].
    + rewrite F2. intros Hh. pose proof (inv_head _ _ _ _ _ HI Hh). apply (f_equal length) in H3. rewrite !length_fmap in H3.
      rewrite H3, length_take, length_insert. lia.
    + rewrite F3. apply HI.
    + apply (leads_shared _ _ _ HL), HI.
  - rewrite H3. rewrite fmap_take, list_fmap_insert, Hid. f_equal. apply list_insert_id. by rewrite list_lookup_fmap, Hi.
Qed.

(** ** New requests *)

Definition ids (c : Conn) : list (option Head) := id_of <$> seen c.

Lemma answer_now_inv env r status c acc sent wire : env_ok env -> ring_ok (ring c) -> Inv c (seen c) acc sent wire ->
  ordered acc (line_of sent (seen c)) False -> (length (seen c) < CAP)%nat -> head_since c = None ->
  let c' := answer_now conf env r status c in let id := parsed (received r) in
  ring_ok (ring c') /\ (live c -> live c') /\ Inv c' (seen c') (acc ++ [id]) sent wire /\ conn_close c' = true /\ input c' = NoInput /\
  ids c' = ids c ++ [id] /\ completed c' = completed c.
Proof.
  intros Henv Hok HI Ho Hn Hh c' id. pose proof (answer_now_leads conf env r status c Hok Hn) as HL. fold c' in HL.
  destruct (failing_made env status r Henv) as (Hm & Hc & Hp). set (x := answered conf env r status) in *.
  assert (entry_ok x) as Hx by (split; [done|by eexists]).
  assert (id_of x = id) as Hid by (unfold id_of; cbn; done).
  pose proof (kept_app c (seen c) [x] (inv_write _ _ _ _ _ HI)) as Hk.
  destruct (kept_write c c _ _ (inv_write _ _ _ _ _ HI) Hk eq_refl) as [Hw' _].
  assert (Forall entry_ok (seen c ++ [x])) as He' by (apply Forall_app_2; [apply HI|by constructor]).
  destruct (reclosed_keeps env c _ Henv He' Hw') as (H1 & H2 & H3 & H4).
  destruct (leads_fields _ _ _ HL) as (F1 & F2 & F3 & F4 & F5 & F6 & _ & _).
  split; [apply HL|]. split; [intros Hl; by apply (leads_live _ _ _ HL)|].
  unfold ids. rewrite (leads_seen _ _ _ HL). split; [|split; [done|split; [done|split; [|done]]]].
  - eapply inv_step; [exact HI|done|by eapply kept_trans|done| |..].
    + apply H4. rewrite <- Hid. by apply order_push.
    + rewrite F2. cbn. rewrite Hh. by intros [? ?].
    + rewrite F3. apply HI.
    + apply (leads_shared _ _ _ HL), HI.
  - rewrite H3, fmap_app. change (id_of <$> [x]) with [id_of x]. by rewrite Hid.
Qed.

Lemma push_inv e c acc sent wire : ring_ok (ring c) -> Inv c (seen c) acc sent wire -> entry_ok (e, None) -> slot e = None ->
  ordered acc (line_of sent (seen c)) False -> (length (seen c) < CAP)%nat -> head_since c = None ->
  let c' := push_entry e c in
  ring_ok (ring c') /\ (live c -> live c') /\ Inv c' (seen c') (acc ++ [id_of (e, None)]) sent wire /\ conn_close c' = conn_close c /\
  ids c' = ids c ++ [id_of (e, None)] /\ completed c' = completed c /\ input c' = input c /\ head_since c' = None.
Proof.
  intros Hok HI He Hs Ho Hn Hh c'. destruct (push_leads c e Hok Hs Hn) as [HL _]. fold c' in HL.
  destruct (leads_fields _ _ _ HL) as (F1 & F2 & F3 & F4 & F5 & F6 & _ & _).
  split; [apply HL|]. split; [intros Hl; by apply (leads_live _ _ _ HL)|].
  unfold ids. rewrite (leads_seen _ _ _ HL). split; [|split; [done|split; [by rewrite fmap_app|by rewrite F2]]].
  eapply inv_step; [exact HI|done|apply kept_app, HI|apply Forall_app_2; [apply HI|by constructor]|by apply order_push|..].
  - rewrite F2, Hh. by intros [? ?].
  - rewrite F3. apply HI.
  - apply (leads_shared _ _ _ HL), HI.
Qed.

(** A record a head was parsed into. *)
Lemma taken_in_ok record head octets : fresh record ->
  building (taken_in conf record head octets) /\ parsed (received (taken_in conf record head octets)) = Some head /\
  HttpRecord.close (taken_in conf record head octets) = false /\ charge (taken_in conf record head octets) = 0 /\
  HttpRecord.body (received (taken_in conf record head octets)) = [].
Proof. intros (H1 & H2 & H3 & H4). unfold building, taken_in. cbn. split; [done|]. split; [done|]. split; [done|]. split; [done|]. by rewrite H4. Qed.

Lemma max_pipelined_cap : (1 <= max_pipelined conf <= CAP)%nat.
Proof. unfold max_pipelined. assert (CAP = 32%nat) as -> by reflexivity. lia. Qed.

Lemma inv_fields c c' E acc sent wire : Inv c E acc sent wire -> writing c' = writing c -> (shut c -> shut c') ->
  (is_Some (head_since c') -> (length E < max_pipelined conf)%nat) -> (forall r, next c' = Some r -> fresh r) -> shared_ok (shared c') ->
  Inv c' E acc sent wire.
Proof.
  intros HI Hw Hs Hh Hn Hsh. eapply inv_step; [exact HI|done|apply kept_refl, HI|apply HI| |done..].
  eapply ordered_shut; [exact Hs|apply HI].
Qed.

(** What a turn of the parser leaves: the requests it took in are at the end of the ring. *)
Record took (c c' : Conn) (acc new : list (option Head)) (sent : list Message) (wire : bytes) : Prop := {
  took_ring : ring_ok (ring c');
  took_live : live c -> live c';
  took_inv : Inv c' (seen c') (acc ++ new) sent wire;
  took_ids : ids c' = ids c ++ new;
  took_done : completed c' = completed c;
  took_close : conn_close c = true -> conn_close c' = true /\ new = [];
}.

Lemma took_trans c c1 c2 acc new1 new2 sent wire : took c c1 acc new1 sent wire -> took c1 c2 (acc ++ new1) new2 sent wire ->
  took c c2 acc (new1 ++ new2) sent wire.
Proof.
  intros [A1 B1 C1 D1 E1 F1] [A2 B2 C2 D2 E2 F2]. split; [done|tauto|by rewrite app_assoc|by rewrite D2, D1, app_assoc|congruence|].
  intros H. destruct (F1 H) as [H1 ->]. by destruct (F2 H1) as [H2 ->].
Qed.

Lemma took_same c c' acc sent wire : ring_ok (ring c) -> ring c' = ring c -> Inv c' (seen c) acc sent wire -> completed c' = completed c ->
  (conn_close c = true -> conn_close c' = true) -> took c c' acc [] sent wire.
Proof.
  intros Hok Hr HI Hc Hcl. assert (seen c' = seen c) as Hs by (unfold seen; by rewrite Hr).
  split; [by rewrite Hr|unfold live; by rewrite Hr|by rewrite app_nil_r, Hs|by rewrite app_nil_r; unfold ids; rewrite Hs|done|auto].
Qed.

Lemma order_open c E acc sent wire : Inv c E acc sent wire -> conn_close c = false -> ordered acc (line_of sent E) False.
Proof. intros HI Hc. eapply ordered_shut; [|apply HI]. unfold shut. rewrite Hc. by intros [? _]. Qed.

Lemma accept_inv env record head c acc sent wire : env_ok env -> ring_ok (ring c) -> Inv c (seen c) acc sent wire -> fresh record ->
  conn_close c = false -> head_since c = None -> (length (seen c) < CAP)%nat ->
  took c (accept conf env record head c) acc [Some head] sent wire /\ head_since (accept conf env record head c) = None.
Proof.
  intros Henv Hok HI Hf Hc Hh Hn. unfold accept. set (c1 := set_requests _ c). set (octets := default [] _).
  destruct (taken_in_ok record head octets Hf) as (Hb & Hp & _). set (r := taken_in conf record head octets) in *.
  set (c2 := set_input _ c1). set (c3 := if _ || _ then set_conn_close true c2 else c2).
  pose proof (order_open c (seen c) acc sent wire HI Hc) as Ho.
  assert (ring c3 = ring c /\ seen c3 = seen c /\ head_since c3 = None /\ completed c3 = completed c /\ Inv c3 (seen c) acc sent wire) as (Hr3 & Hs3 & Hh3 & Hc3 & HI3).
  { unfold c3. destruct (_ || _); cbn; (split; [done|]; split; [done|]; split; [done|]; split; [done|]);
      (eapply inv_fields; [exact HI|done|unfold shut; rewrite Hc; by intros [? _]|cbn; rewrite Hh; by intros [? ?]|apply HI|apply HI]). }
  assert (forall s, building r -> (match s with Body _ _ _ | Waiting => True | _ => False end) ->
    took c (push_entry (Entry_new r s (now env)) c3) acc [Some head] sent wire /\ head_since (push_entry (Entry_new r s (now env)) c3) = None) as Hpush.
  { intros s _ Hs. rewrite <- Hs3 in HI3.
    destruct (push_inv (Entry_new r s (now env)) c3 acc sent wire) as (A & B & C & D & E & F & G & H); try done.
    - by rewrite Hr3.
    - unfold entry_ok. cbn. destruct s; try done; (split; [done|by exists r]).
    - by rewrite Hs3.
    - by rewrite Hs3.
    - split; [|done]. assert (id_of (Entry_new r s (now env), None) = Some head) as Hid by exact Hp. rewrite Hid in C, E. split; [done| |done| |by rewrite F|by rewrite Hc].
      + intros Hl. apply B. unfold live. by rewrite Hr3.
      + rewrite E. unfold ids. by rewrite Hs3. }
  assert (forall status, took c (answer_now conf env r status c3) acc [Some head] sent wire /\ head_since (answer_now conf env r status c3) = None) as Hans.
  { intros status. rewrite <- Hs3 in HI3. assert (ring_ok (ring c3)) as Hok3 by (by rewrite Hr3).
    destruct (answer_now_inv env r status c3 acc sent wire) as (A & B & C & D & E & F & G); try done; try (by rewrite Hs3).
    rewrite Hp in C, F. split.
    - split; [done| |done| |by rewrite G|by rewrite Hc].
      + intros Hl. apply B. unfold live. by rewrite Hr3.
      + rewrite F. unfold ids. by rewrite Hs3.
    - destruct (leads_fields _ _ _ (answer_now_leads conf env r status c3 Hok3 ltac:(by rewrite Hs3))) as (_ & -> & _). done. }
  destruct (expect head); [| |apply Hans]; (destruct (H1Head.body head) as [|n|]; [by apply Hpush| |by apply Hpush]);
    (destruct (n =? 0); [by apply Hpush|]; destruct (_ <? n); [apply Hans|by apply Hpush]).
Qed.

Lemma feed_entry_ok env e framing max_body r rest : building r ->
  let '(e', _, _, fed) := feed conf env e framing max_body r rest in
  exists r', record e' = Some r' /\ building r' /\ parsed (received r') = parsed (received r) /\
    ((exists fr, stage e' = Body fr false max_body) \/ (stage e' = Waiting /\ fed = Progress)).
Proof.
  intros Hb. unfold feed. destruct framing as [remaining|decoder].
  - eexists. split; [done|]. split; [done|]. split; [done|]. cbn. destruct (_ =? 0); [by right|left; by eexists].
  - destruct (decode (limits conf) decoder rest) as [d [step|e']]; [|eexists; split; [done|]; split; [done|]; split; [done|]; left; by eexists].
    destruct step as [data consumed|consumed|section consumed].
    + destruct (max_body <? _); eexists; (split; [done|]; split; [done|]; split; [done|]; left; by eexists).
    + eexists. split; [done|]. split; [done|]. split; [done|]. left. by eexists.
    + destruct (parse_trailers _ _ _ _) as [t [u|e']]; eexists; (split; [done|]; split; [done|]; split; [done|]); [by right|left; by eexists].
Qed.

Lemma pending_entry c acc sent wire : ring_ok (ring c) -> Inv c (seen c) acc sent wire -> body_pending (ring c) = true ->
  exists e framing pending max_body r, last (seen c) = Some (e, None) /\ seen c !! (length (seen c) - 1)%nat = Some (e, None) /\
    stage e = Body framing pending max_body /\ record e = Some r /\ building r.
Proof.
  intros Hok HI Hp. rewrite body_pending_seen in Hp by done. destruct (last (seen c)) as [[e f]|] eqn:Hl; [|done].
  assert (Hi := Hl). rewrite last_lookup, <- Nat.sub_1_r in Hi.
  pose proof (Forall_lookup_1 _ _ _ _ (inv_entries _ _ _ _ _ HI) Hi) as He. unfold entry_ok in He. cbn [fst snd] in He.
  destruct (stage e) as [framing pending max_body| | |] eqn:Hs; try done. destruct He as (-> & r & Hr & Hb). by exists e, framing, pending, max_body, r.
Qed.

Lemma feed_inv env c acc sent wire : ring_ok (ring c) -> Inv c (seen c) acc sent wire -> body_pending (ring c) = true ->
  tail (input c) <> [] ->
  let '(c', fed) := feed_body conf env c in
  took c c' acc [] sent wire /\ head_since c' = head_since c /\ conn_close c' = conn_close c /\ length (seen c') = length (seen c) /\
  (forall status, fed = Reject status -> exists e f, seen c' !! (length (seen c') - 1)%nat = Some (e, f) /\ is_done (stage e) = false).
Proof.
  intros Hok HI Hbp Ht. destruct (pending_entry c acc sent wire Hok HI Hbp) as (e & framing & pending & max_body & r & Hl & Hi & Hs & Hr & Hb).
  pose proof (feed_body_leads conf env c e None framing pending max_body r Hok Hl Hs Hr Ht) as HL.
  pose proof (feed_entry_ok env e framing max_body r (tail (input c)) Hb) as Hf.
  destruct (feed conf env e framing max_body r (tail (input c))) as [[[e' n] k] fed].
  destruct (feed_body conf env c) as [c' fed']. destruct HL as [HL Hfed]. cbn [fst snd] in HL, Hfed. subst fed'.
  destruct Hf as (r' & Hr' & Hb' & Hp' & Hst). set (i := (length (seen c) - 1)%nat) in *.
  destruct (leads_fields _ _ _ HL) as (F1 & F2 & F3 & F4 & F5 & F6 & _ & _).
  assert (i < length (seen c))%nat as Hil by (by apply lookup_lt_Some in Hi).
  assert (forall w, writing c = Some w -> (count w <= i)%nat) as Hkw.
  { intros w. eapply busy_index; [apply HI|exact Hi|]. cbn. by rewrite Hs. }
  assert (id_of (e', None) = id_of (e, None)) as Hid by (unfold id_of; cbn; by rewrite Hr', Hr).
  assert (ids c' = ids c) as Hids.
  { unfold ids. rewrite (leads_seen _ _ _ HL), list_fmap_insert, Hid. apply list_insert_id. by rewrite list_lookup_fmap, Hi. }
  split; [|split; [done|split; [done|split; [by rewrite (leads_seen _ _ _ HL), length_insert|]]]].
  - split; [apply HL|intros Hlv; by apply (leads_live _ _ _ HL)| |by rewrite app_nil_r|done|by rewrite F4].
    rewrite app_nil_r, (leads_seen _ _ _ HL). eapply inv_step; [exact HI|done|apply kept_set; [apply HI|done]| | |..].
    + apply Forall_insert; [apply HI|]. unfold entry_ok. cbn [fst snd]. destruct Hst as [[fr ->]|[-> _]]; (split; [done|by exists r']).
    + unfold shut. rewrite F4, F2. eapply order_set; [exact Hi|exact Hid| |apply HI]. unfold is_last, item. cbn. by rewrite Hs.
    + rewrite F2, length_insert. apply HI.
    + rewrite F3. apply HI.
    + apply (leads_shared _ _ _ HL), HI.
  - intros status ->. rewrite (leads_seen _ _ _ HL), length_insert. fold i. exists e', None. rewrite list_lookup_insert_eq by done. split; [done|].
    by destruct Hst as [[fr ->]|[_ ?]].
Qed.

Lemma parse_inv env c acc sent wire : env_ok env -> ring_ok (ring c) -> Inv c (seen c) acc sent wire -> conn_close c = false ->
  (length (seen c) < max_pipelined conf)%nat -> exists new, took c (parse_head conf env c).1 acc new sent wire.
Proof.
  intros Henv Hok HI Hc Hn. pose proof max_pipelined_cap as Hcap. unfold parse_head.
  set (pick := match next c with Some record => (record, c) | None => _ end).
  assert (exists r c1, pick = (r, c1) /\ fresh r /\ leads c c1 (seen c)) as (r & c1 & -> & Hf & HL).
  { unfold pick. destruct (next c) as [r|] eqn:Hnx; [exists r, c; split; [done|split; [by eapply inv_next|by apply leads_refl]]|].
    pose proof (take_record_ok conf (shared c) (inv_shared _ _ _ _ _ HI)) as Ht. destruct (take_record conf (shared c)) as [r s'].
    destruct Ht as (Hf & Hs & _). exists r, (set_shared s' c). split; [done|]. split; [done|]. by split; [| | | | |destruct c]. }
  destruct (leads_fields _ _ _ HL) as (F1 & F2 & F3 & F4 & F5 & F6 & _ & _).
  assert (shared_ok (shared c1)) as Hsh by apply (leads_shared _ _ _ HL), HI.
  rewrite F5. destruct (parse_request _ _ _) as [table status].
  assert (fresh (with_fields r table)) as Hfr.
  { destruct Hf as (H1 & H2 & H3 & H4). split; [done|]. split; [done|]. split; [done|]. cbn. rewrite H4. done. }
  set (c2 := set_head_since None (set_next None c1)).
  assert (Inv c2 (seen c) acc sent wire) as HI2.
  { eapply inv_fields; [exact HI|done|unfold shut; rewrite Hc; by intros [? _]|by intros [? ?]|done|done]. }
  assert (seen c2 = seen c) as Hs2 by apply HL. assert (took c c2 acc [] sent wire) as Ht2.
  { split; [apply HL|intros Hl; by apply (leads_live _ _ _ HL)|by rewrite app_nil_r, Hs2|by rewrite app_nil_r; unfold ids; rewrite Hs2|done|].
    by rewrite Hc. }
  rewrite <- Hs2 in HI2. assert (ring_ok (ring c2)) as Hok2 by apply HL.
  destruct status as [head| |reject].
  - exists [Some head]. destruct (accept_inv env (with_fields r table) head c2 acc sent wire Henv Hok2 HI2 Hfr) as [Ht _];
      [by cbn; rewrite F4|done|rewrite Hs2; lia|]. rewrite <- (app_nil_r acc) in Ht. exact (took_trans _ _ _ _ _ _ _ _ Ht2 Ht).
  - exists []. cbn [fst]. split; [apply HL|intros Hl; by apply (leads_live _ _ _ HL)| | |done|by rewrite Hc].
    + rewrite app_nil_r. set (c3 := set_head_since _ _). assert (seen c3 = seen c) as -> by apply HL.
      eapply inv_fields; [exact HI|done|unfold shut; rewrite Hc; by intros [? _]|done| |done]. cbn. by intros ? [= <-].
    + rewrite app_nil_r. unfold ids. set (c3 := set_head_since _ _). assert (seen c3 = seen c) as -> by apply HL. done.
  - exists [None]. cbn [fst]. destruct (answer_now_inv env (with_fields r table) (H1Head.status reject) c2 acc sent wire) as (A & B & C & D & E & F & G); try done.
    + rewrite Hs2. rewrite Hs2 in HI2. eapply order_open; [exact HI2|by cbn; rewrite F4].
    + rewrite Hs2. lia.
    + assert (parsed (received (with_fields r table)) = None) as Hp by (destruct Hfr as (_ & _ & _ & ->); done).
      rewrite Hp in C, F. split; [done| |done| |by rewrite G|by rewrite Hc].
      * intros Hl. by apply B, (leads_live _ _ _ HL).
      * rewrite F. unfold ids. by rewrite Hs2.
Qed.

Lemma process_loop_inv env fuel : forall c acc sent wire, env_ok env -> ring_ok (ring c) -> Inv c (seen c) acc sent wire ->
  exists new, took c (process_loop conf fuel env c) acc new sent wire.
Proof.
  induction fuel as [|fuel IH]; intros c acc sent wire Henv Hok HI; cbn [process_loop];
    assert (forall c', ring c' = ring c -> completed c' = completed c -> conn_close c' = conn_close c -> Inv c' (seen c) acc sent wire ->
      exists new, took c c' acc new sent wire) as Hstay
    by (intros c' Hr Hcd Hcl HI'; exists []; apply took_same; [done|done|done|done|by rewrite Hcl]).
  { by apply Hstay. }
  destruct (input_is_empty (input c)) eqn:Hin; [by apply Hstay|].
  unfold input_is_empty in Hin. apply bool_decide_eq_false in Hin.
  destruct (body_pending (ring c)) eqn:Hbp.
  - pose proof (feed_inv env c acc sent wire Hok HI Hbp Hin) as Hf. destruct (feed_body conf env c) as [c1 fed].
    destruct Hf as (Ht & Hh & Hcl & Hlen & Hrej). destruct fed as [| |status].
    + pose proof (took_inv _ _ _ _ _ _ Ht) as HI1. rewrite app_nil_r in HI1.
      destruct (IH c1 acc sent wire Henv (took_ring _ _ _ _ _ _ Ht) HI1) as [new Hn]. exists new.
      rewrite <- (app_nil_r acc) in Hn. exact (took_trans _ _ _ _ _ _ _ _ Ht Hn).
    + by exists [].
    + exists []. destruct (Hrej status eq_refl) as (e & f & Hi & Hd). pose proof (took_inv _ _ _ _ _ _ Ht) as HI1. rewrite app_nil_r in HI1.
      assert (HttpRing.len (ring c1) - 1 = length (seen c1) - 1)%nat as -> by (by rewrite seen_length by apply Ht).
      destruct (fail_inv env (length (seen c1) - 1) status c1 e f acc sent wire Henv (took_ring _ _ _ _ _ _ Ht) HI1 Hi Hd)
        as (A & B & C & D & E & F & G). split; [done| |by rewrite app_nil_r| |by rewrite G; apply Ht|done].
      * intros Hl. by apply B, Ht.
      * rewrite app_nil_r. unfold ids at 1. rewrite F. fold (ids c1). rewrite (took_ids _ _ _ _ _ _ Ht), app_nil_r. apply take_ge.
        unfold ids. rewrite length_fmap. lia.
  - destruct (taking c || upgrade_pending (ring c)); [by apply Hstay|]. destruct (conn_close c) eqn:Hcl.
    { apply Hstay; [done|done|done|]. eapply inv_fields; [exact HI|done|done|apply HI|apply HI|apply HI]. }
    destruct (_ || held env) eqn:Hstop; [by apply Hstay|]. apply orb_false_iff in Hstop as [Hn _]. apply Nat.leb_gt in Hn.
    rewrite <- seen_length in Hn by done.
    destruct (parse_inv env c acc sent wire Henv Hok HI Hcl Hn) as [new1 H1].
    destruct (parse_head conf env c) as [c1 go]. cbn [fst] in H1. destruct go; [|by exists new1].
    destruct (IH c1 (acc ++ new1) sent wire Henv (took_ring _ _ _ _ _ _ H1) (took_inv _ _ _ _ _ _ H1)) as [new2 H2].
    exists (new1 ++ new2). exact (took_trans _ _ _ _ _ _ _ _ H1 H2).
Qed.

Lemma made_nonempty r : made r -> response_octets r <> [].
Proof.
  intros (env & close & r0 & [He Hh Hs Ha Hp Hc]). destruct (serialize_fits env r0 close He Hs) as (head & H0 & Hne).
  unfold response_octets. rewrite Ha, H0. cbn. by destruct head.
Qed.

(** ** The turn of the loop *)

Lemma pointwise_inv c c' E' acc sent wire : ring_ok (ring c) -> Inv c (seen c) acc sent wire -> leads c c' E' ->
  Forall2 (fun x x' => x' = x \/ (is_done (stage x.1) = false /\ entry_ok x' /\ item x' = item x)) (seen c) E' ->
  ring_ok (ring c') /\ (live c -> live c') /\ Inv c' (seen c') acc sent wire /\ ids c' = ids c.
Proof.
  intros Hok HI HL Hall. destruct (leads_fields _ _ _ HL) as (F1 & F2 & F3 & F4 & _).
  assert (item <$> E' = item <$> seen c) as Hit.
  { clear -Hall. induction Hall as [|x x' E E' [->|(_ & _ & H)] _ IH]; cbn; congruence. }
  assert (Forall entry_ok E') as He.
  { pose proof (inv_entries _ _ _ _ _ HI) as H. clear -Hall H. induction Hall as [|x x' E E' [->|(_ & Hx & _)] _ IH]; [done| |];
      apply Forall_cons in H as [? ?]; constructor; auto. }
  split; [apply HL|]. split; [intros Hl; by apply (leads_live _ _ _ HL)|]. unfold ids. rewrite (leads_seen _ _ _ HL). split.
  - eapply inv_step; [exact HI|done| |done| |..].
    + intros w Hw. destruct (inv_write _ _ _ _ _ HI w Hw) as (Hl & Hd & _). rewrite <- (Forall2_length _ _ _ Hall). split; [|done].
      apply list_eq. intros i. destruct (decide (i < count w)%nat) as [Hi|Hi]; [|by rewrite !lookup_take_ge by lia].
      rewrite !lookup_take_lt by done. destruct (seen c !! i) as [x|] eqn:Hx.
      * destruct (Forall2_lookup_l _ _ _ _ _ Hall Hx) as (x' & -> & [->|(Hnd & _)]); [done|]. by rewrite (Hd i x Hi Hx) in Hnd.
      * apply lookup_ge_None in Hx. apply lookup_ge_None. by rewrite <- (Forall2_length _ _ _ Hall).
    + unfold line_of, shut. rewrite Hit, F2, F4. apply HI.
    + rewrite F2, <- (Forall2_length _ _ _ Hall). apply HI.
    + rewrite F3. apply HI.
    + apply (leads_shared _ _ _ HL), HI.
  - assert (forall l, id_of <$> l = (item <$> l).*1) as Hid by (intros l; by rewrite <- list_fmap_compose).
    by rewrite !Hid, Hit.
Qed.

Lemma starts_pointwise E : Forall entry_ok E -> forall is_first all_safe,
  Forall2 (fun x x' => x' = x \/ (is_done (stage x.1) = false /\ entry_ok x' /\ item x' = item x)) E (starts is_first all_safe E).
Proof.
  induction 1 as [|x E Hx _ IH]; intros is_first all_safe; cbn [starts]; [done|]. constructor; [|apply IH].
  destruct (is_waiting (stage x.1) && _) eqn:Hw; [|by left]. apply andb_prop in Hw as [Hw _]. right.
  destruct x as [e f]. unfold entry_ok in Hx. cbn [fst snd] in *. destruct (stage e) eqn:Hs; try done.
  destruct Hx as (-> & r & Hr & Hb). split; [done|]. unfold start_seen. cbn [fst]. rewrite Hr. split.
  - left. split; [done|]. eexists. split; [done|]. exists []. cbn. unfold building in Hb. by rewrite Hb.
  - unfold item, id_of. cbn. by rewrite Hr, Hs.
Qed.

Lemma waiting_idle E : Forall entry_ok E -> Forall (fun x : Seen => is_waiting (stage x.1) = true -> x.2 = None) E.
Proof.
  intros H. eapply Forall_impl; [exact H|]. intros [e f] Hx Hw. unfold entry_ok in Hx. cbn [fst snd] in *.
  by destruct (stage e); try done; destruct Hx.
Qed.

Lemma start_inv c acc sent wire : ring_ok (ring c) -> live c -> Inv c (seen c) acc sent wire ->
  let c' := start_runnable c in ring_ok (ring c') /\ (live c -> live c') /\ Inv c' (seen c') acc sent wire /\ ids c' = ids c.
Proof.
  intros Hok Hl HI c'. pose proof (start_leads c Hok Hl (waiting_idle _ (inv_entries _ _ _ _ _ HI))) as HL.
  eapply pointwise_inv; [done|done|exact HL|]. apply starts_pointwise, HI.
Qed.

Lemma resume_inv env c acc sent wire : ring_ok (ring c) -> Inv c (seen c) acc sent wire ->
  let c' := resume_reading env c in ring_ok (ring c') /\ (live c -> live c') /\ Inv c' (seen c') acc sent wire /\ ids c' = ids c /\
  completed c' = completed c /\ conn_close c' = conn_close c.
Proof.
  intros Hok HI c'. pose proof (resume_leads env c Hok) as HL. fold c' in HL. set (c0 := resumed env c) in *.
  assert (ring c0 = ring c /\ seen c0 = seen c /\ Inv c0 (seen c) acc sent wire /\ completed c0 = completed c /\ conn_close c0 = conn_close c)
    as (Hr & Hs & HI0 & Hc & Hcl).
  { unfold c0, resumed. destruct (_ && _); [destruct (head_since c) eqn:Hh|]; (split; [done|]; split; [done|]; split; [|done]);
      (eapply inv_fields; [exact HI|done|unfold shut; cbn; rewrite ?Hh; by intros [? ?]|cbn; rewrite ?Hh; intros [? ?]; apply HI; rewrite ?Hh; by eauto|apply HI|apply HI]). }
  assert (ring_ok (ring c0)) as Hok0 by (by rewrite Hr). rewrite <- Hs in HI0.
  destruct (leads_fields _ _ _ HL) as (_ & _ & _ & F4 & _ & F6 & _).
  assert (Forall2 (fun x x' => x' = x \/ (is_done (stage x.1) = false /\ entry_ok x' /\ item x' = item x)) (seen c0) (if read_held c && negb (held env) then (fun x => (touch env x.1, x.2)) <$> seen c else seen c)) as Hall.
  { pose proof (inv_entries _ _ _ _ _ HI0) as He. rewrite Hs in He |- *.
    assert (Forall2 (fun x x' => x' = x \/ (is_done (stage x.1) = false /\ entry_ok x' /\ item x' = item x)) (seen c) (seen c)) as Hid.
    { apply Forall2_same_length_lookup. split; [done|]. intros i x y Hx Hy. left. congruence. }
    destruct (_ && _); [|done]. clear -He. induction He as [|[e f] E Hx _ IH]; [constructor|]. constructor; [|exact IH].
    cbn [fst snd]. unfold touch. unfold entry_ok in Hx. cbn [fst snd] in Hx. destruct (stage e) eqn:Hs; cbn [is_body]; [right|by left..].
    split; [done|]. split; [|unfold item, id_of; cbn; by rewrite Hs]. unfold entry_ok. cbn. by rewrite Hs. }
  destruct (pointwise_inv c0 c' _ acc sent wire Hok0 HI0 HL Hall) as (A & B & C & D).
  split; [done|]. split; [unfold live in *; by rewrite <- Hr|]. split; [done|]. split; [unfold ids in *; by rewrite D, Hs|].
  split; [by rewrite F6|by rewrite F4].
Qed.

(** A turn takes requests in at the end of the ring, or fails one and cuts it there. *)
Record turned (c c' : Conn) (acc new : list (option Head)) (sent : list Message) (wire : bytes) : Prop := {
  turned_ring : ring_ok (ring c');
  turned_live : live c -> live c';
  turned_inv : Inv c' (seen c') (acc ++ new) sent wire;
  turned_ids : ids c' = ids c ++ new \/ (new = [] /\ ids c' `prefix_of` ids c /\ conn_close c' = true);
  turned_done : completed c' = completed c;
}.

Lemma turned_same c c' acc sent wire : ring_ok (ring c) -> ring c' = ring c -> Inv c' (seen c) acc sent wire -> completed c' = completed c ->
  turned c c' acc [] sent wire.
Proof.
  intros Hok Hr HI Hc. assert (seen c' = seen c) as Hs by (unfold seen; by rewrite Hr).
  split; [by rewrite Hr|unfold live; by rewrite Hr|by rewrite app_nil_r, Hs|left; by rewrite app_nil_r; unfold ids; rewrite Hs|done].
Qed.

Lemma first_expired_some env r n : forall i k status, first_expired conf env i n r = Some (k, status) ->
  (i <= k < i + n)%nat /\ exists e, entry r (HttpRing.position r k) = Some e /\ expired conf env e = Some status.
Proof.
  induction n as [|n IH]; intros i k status; cbn [first_expired]; [done|].
  destruct (entry r (HttpRing.position r i)) as [e|] eqn:He; cbn [mbind option_bind].
  - destruct (expired conf env e) as [s|] eqn:Hx; [intros [= <- <-]; split; [lia|by exists e]|].
    intros H. destruct (IH _ _ _ H) as [? ?]. split; [lia|done].
  - intros H. destruct (IH _ _ _ H) as [? ?]. split; [lia|done].
Qed.

Lemma expired_busy env e status : expired conf env e = Some status -> is_done (stage e) = false.
Proof. unfold expired. by destruct (stage e). Qed.

Lemma expire_inv env c acc sent wire : env_ok env -> ring_ok (ring c) -> Inv c (seen c) acc sent wire ->
  exists new, turned c (expire conf env c) acc new sent wire.
Proof.
  intros Henv Hok HI. unfold expire. set (c0 := match retry_read_at c with Some _ => _ | None => c end).
  assert (ring c0 = ring c /\ completed c0 = completed c /\ head_since c0 = head_since c /\ next c0 = next c /\ shared c0 = shared c
    /\ conn_close c0 = conn_close c /\ input c0 = input c /\ Inv c0 (seen c) acc sent wire) as (Hr & Hcd & Hh & Hnx & Hsh & Hcl & Hin & HI0).
  { unfold c0. destruct (retry_read_at c); [destruct (_ <=? _)|]; (repeat (split; [done|])); try done.
    eapply inv_fields; [exact HI|done|done|apply HI|apply HI|apply HI]. }
  assert (seen c0 = seen c) as Hs by (unfold seen; by rewrite Hr).
  destruct (bool_decide _ && _).
  { exists []. apply turned_same; [done|done| |done]. eapply inv_fields; [exact HI0|done|done|apply HI0|apply HI0|apply HI0]. }
  destruct (idle c0 && _ && _).
  { exists []. apply turned_same; [done|done| |done]. eapply inv_fields; [exact HI0|done| |apply HI0|apply HI0|apply HI0].
    by intros [? ?]. }
  destruct (negb (held env) && _) eqn:Htimeout.
  - destruct (head_since c) as [since|] eqn:Hhs; [|rewrite Hh in Htimeout; by rewrite andb_false_r in Htimeout].
    set (c1 := set_input _ (set_head_since None c0)).
    set (pick := match next c1 with Some record => (record, set_next None c1) | None => _ end).
    assert (ordered acc (line_of sent (seen c)) False) as Ho.
    { eapply ordered_shut; [|apply HI]. unfold shut. rewrite Hhs. by intros [? ?]. }
    assert (exists r c2, pick = (r, c2) /\ fresh r /\ ring c2 = ring c /\ Inv c2 (seen c) acc sent wire /\ completed c2 = completed c /\ head_since c2 = None)
      as (r & c2 & -> & Hf & Hr2 & HI2 & Hcd2 & Hh2).
    { unfold pick. change (next c1) with (next c0). destruct (next c0) as [r|] eqn:Hn.
      - exists r, (set_next None c1). split; [done|]. split; [eapply inv_next; [exact HI0|done]|]. split; [done|]. split; [|done].
        eapply inv_step; [exact HI0|done|apply kept_refl, HI0|apply HI0| |by intros [? ?]|done|apply HI0].
        eapply ordered_shut; [|exact Ho]. done.
      - pose proof (take_record_ok conf (shared c1) (inv_shared _ _ _ _ _ HI0)) as Ht.
        destruct (take_record conf (shared c1)) as [r s']. destruct Ht as (Hf & Hso & _). exists r, (set_shared s' c1).
        split; [done|]. split; [done|]. split; [done|]. split; [|done].
        eapply inv_step; [exact HI0|done|apply kept_refl, HI0|apply HI0| |by intros [? ?]|cbn; by rewrite Hn|done].
        eapply ordered_shut; [|exact Ho]. done. }
    assert (seen c2 = seen c) as Hs2 by (unfold seen; by rewrite Hr2).
    assert (ring_ok (ring c2)) as Hok2 by (by rewrite Hr2). rewrite <- Hs2 in HI2.
    pose proof max_pipelined_cap as Hcap. pose proof (inv_head _ _ _ _ _ HI ltac:(by rewrite Hhs)) as Hlen.
    destruct (answer_now_inv env r REQUEST_TIMEOUT c2 acc sent wire Henv Hok2 HI2) as (A & B & C & D & E & F & G); [by rewrite Hs2|rewrite Hs2; lia|done|].
    exists [parsed (received r)]. split; [done| |done| |by rewrite G].
    + intros Hl. apply B. unfold live. by rewrite Hr2.
    + left. rewrite F. unfold ids. by rewrite Hs2.
  - destruct (first_expired conf env 0 (HttpRing.len (ring c0)) (ring c0)) as [[i status]|] eqn:Hf;
      [|exists []; by apply turned_same].
    apply first_expired_some in Hf as (Hi & e0 & He & Hx). assert (Hok0 := Hok). rewrite <- Hr in Hok0. rewrite <- Hs in HI0.
    destruct (lookup_lt_is_Some_2 (seen c0) i) as [[e f] Hie]; [rewrite seen_length by done; lia|].
    destruct (seen_at c0 i e f Hok0 Hie) as (e1 & _ & Hee & _ & He1 & _). rewrite He in He1. injection He1 as <-.
    destruct (fail_inv env i status c0 e f acc sent wire Henv Hok0 HI0 Hie) as (A & B & C & D & E & F & G).
    { rewrite Hee. cbn. by eapply expired_busy. }
    exists []. split; [done| |by rewrite app_nil_r| |by rewrite G].
    + intros Hl. apply B. unfold live. by rewrite Hr.
    + right. split; [done|]. split; [|done]. unfold ids. rewrite F, Hs. apply prefix_take.
Qed.

Lemma ready_take E : Forall entry_ok E ->
  let n := length (ready E) in (n <= length E)%nat /\ response_octets <$> ready E = seen_octets <$> take n E /\
  (forall i x, (i < n)%nat -> E !! i = Some x -> stage x.1 = Done) /\ Forall made (ready E).
Proof.
  induction 1 as [|[e f] E Hx _ IH]; cbn [ready length]; [by split|]. unfold entry_ok in Hx. cbn [fst snd] in *.
  destruct (stage e) eqn:Hs; try (split; [cbn; lia|]; split; [done|]; split; [intros i x Hi; cbn in Hi; lia|done]).
  destruct Hx as (-> & r & Hr & Hm). rewrite Hr. destruct IH as (H1 & H2 & H3 & H4). cbn [length take fmap list_fmap].
  split; [lia|]. split; [f_equal; [unfold seen_octets; cbn; by rewrite Hr|done]|]. split; [|by constructor].
  intros [|i] x Hi Hx; [by injection Hx as <-|]. apply (H3 i x); [lia|done].
Qed.

Lemma concat_nonempty (l : list bytes) : l <> [] -> Forall (fun t => t <> []) l -> 0 < Prelude.len (concat l).
Proof. intros Hl H. destruct l as [|t l]; [done|]. apply Forall_cons in H as [Ht _]. cbn. unfold Prelude.len. rewrite length_app. destruct t; [done|cbn; lia]. Qed.

Lemma plan_inv env c acc sent wire : ring_ok (ring c) -> Inv c (seen c) acc sent wire ->
  Prelude.len (concat (seen_octets <$> seen c)) < 2 ^ 63 ->
  let c' := plan_write env c in ring c' = ring c /\ Inv c' (seen c) acc sent wire /\ completed c' = completed c /\ conn_close c' = conn_close c.
Proof.
  intros Hok HI Hmem c'. unfold c', plan_write. destruct (bool_decide (is_Some (writing c)) || aborted c) eqn:Hb; [done|].
  apply orb_false_iff in Hb as [Hw _]. apply bool_decide_eq_false in Hw.
  destruct (writing c) as [w|] eqn:Hcw; [by destruct Hw|].
  destruct (ready_take (seen c) (inv_entries _ _ _ _ _ HI)) as (H1 & H2 & H3 & H4). set (n := length (ready (seen c))) in *.
  assert (Prelude.len (concat (response_octets <$> ready (seen c))) < 2 ^ 63) as Hmem'.
  { rewrite H2. eapply Z.le_lt_trans; [|exact Hmem]. rewrite <- (take_drop n (seen c)) at 2. rewrite fmap_app, concat_app.
    unfold Prelude.len. rewrite length_app. lia. }
  pose proof (batch_ready c Hok (HttpRing.len (ring c)) 0 0 0) as Hba. rewrite seen_length in Hba by done. specialize (Hba eq_refl ltac:(lia)).
  rewrite drop_0 in Hba. rewrite Hba by (pow2; lia). cbn [Nat.add]. fold n. rewrite Z.add_0_l.
  assert (forall w t, 0 <= written w < total w -> (count w <= n)%nat -> (prefix w = true -> count w = 0%nat) -> written w = 0 -> total w < 2 ^ 64 ->
    total w = Prelude.len (batch_octets (seen c) w) -> Inv (set_sent_at t (set_writing (Some w) c)) (seen c) acc sent wire) as Hset.
  { intros w t Hwr Hcn Hp Hw0 Ht64 Ht. split; [apply HI|apply HI| |apply HI| |apply HI|apply HI|apply HI].
    - intros w' [= <-]. split; [lia|]. split; [intros i x Hi; apply H3; lia|]. done.
    - rewrite (inv_wire _ _ _ _ _ HI). f_equal. unfold in_progress. cbn. rewrite Hcw, Hw0. done. }
  destruct (Nat.ltb_spec 0 n) as [Hn|Hn].
  - split; [done|]. split; [|done]. apply Hset; cbn [written total count prefix]; try done.
    + split; [done|]. apply concat_nonempty; [|apply Forall_fmap; eapply Forall_impl; [exact H4|]; intros r Hm; by apply made_nonempty].
      unfold n in Hn. by destruct (ready (seen c)); [cbn in Hn; lia|].
    + pow2. lia.
    + unfold batch_octets. cbn. by rewrite H2.
  - destruct (match first (ring c) with Some _ => _ | None => false end); [|done].
    split; [done|]. split; [|done]. apply Hset; cbn [written total count prefix]; try done; lia.
Qed.

Lemma tick_inv env c acc sent wire : env_ok env -> ring_ok (ring c) -> live c -> Inv c (seen c) acc sent wire -> completed c = [] ->
  Prelude.len (concat (seen_octets <$> seen (tick conf env c))) < 2 ^ 63 ->
  let c' := tick conf env c in let new := drop (length (ids c)) (ids c') in
  ring_ok (ring c') /\ live c' /\ Inv c' (seen c') (acc ++ new) sent wire /\ completed c' = [].
Proof.
  intros Henv Hok Hl HI Hcd Hmem c' new.
  destruct (resume_inv env c acc sent wire Hok HI) as (Ok1 & L1 & I1 & D1 & C1 & K1). set (c1 := resume_reading env c) in *.
  destruct (expire_inv env c1 acc sent wire Henv Ok1 I1) as [new2 [Ok2 L2 I2 D2 C2]]. set (c2 := expire conf env c1) in *.
  destruct (process_loop_inv env (process_fuel c2) c2 (acc ++ new2) sent wire Henv Ok2 I2) as [new3 [Ok3 L3 I3 D3 C3 K3]].
  set (c3 := process_loop conf (process_fuel c2) env c2) in *.
  set (c4 := set_input (compact (input c3)) c3).
  assert (Inv c4 (seen c4) ((acc ++ new2) ++ new3) sent wire) as I4.
  { eapply inv_fields; [exact I3|done|done|apply I3|apply I3|apply I3]. }
  destruct (start_inv c4 _ sent wire Ok3 (L3 (L2 (L1 Hl))) I4) as (Ok5 & L5 & I5 & D5). set (c5 := start_runnable c4) in *.
  assert (c' = plan_write env c5) as Hc' by done.
  assert (ring c' = ring c5) as Hrc.
  { rewrite Hc'. unfold plan_write. destruct (_ || _); [done|]. destruct (batch _ _ _ _ _) as [k t]. destruct (_ <? k)%nat; [done|]. by destruct (match first _ with Some _ => _ | None => _ end). }
  assert (Prelude.len (concat (seen_octets <$> seen c5)) < 2 ^ 63) as Hmem5.
  { assert (seen c' = seen c5) as Heq by (unfold seen; by rewrite Hrc). fold c' in Hmem. by rewrite Heq in Hmem. }
  destruct (plan_inv env c5 _ sent wire Ok5 I5 Hmem5) as (R6 & I6 & C6 & _). rewrite <- Hc' in *.
  assert (seen c' = seen c5) as Hs by (unfold seen; by rewrite Hrc).
  assert (completed c5 = completed c4) as C5.
  { assert (leads c4 c5 (starts true true (seen c4))) as HL by (apply start_leads; [exact Ok3|exact (L3 (L2 (L1 Hl)))|apply waiting_idle, I4]).
    by destruct (leads_fields _ _ _ HL) as (_ & _ & _ & _ & _ & -> & _). }
  assert (new = new2 ++ new3) as Hnew.
  { assert (ids c' = ids c2 ++ new3) as Hic by (unfold ids at 1; rewrite Hs; fold (ids c5); rewrite D5; exact D3).
    unfold new. rewrite Hic. destruct D2 as [D2|(-> & [l D2] & K2)].
    - rewrite D2, D1, <- app_assoc, drop_app_length. done.
    - destruct (K3 K2) as [_ ->]. rewrite app_nil_r. apply drop_ge. rewrite <- D1, D2, length_app. lia. }
  rewrite Hrc. split; [done|]. split; [unfold live; rewrite Hrc; apply L5, (L3 (L2 (L1 Hl)))|].
  rewrite Hs, Hnew, app_assoc. split; [done|]. rewrite C6, C5. exact (eq_trans C3 (eq_trans C2 (eq_trans C1 Hcd))).
Qed.

(** ** Handlers at work *)

Lemma run_handler_ok f polled : handled f ->
  handled (run_handler conf f polled).1 /\ parsed (received (run_handler conf f polled).1) = parsed (received f).
Proof.
  intros (ls & Hls & Hok).
  assert (forall r p, handled (problem r p (error_shape conf)) /\ parsed (received (problem r p (error_shape conf))) = parsed (received r)) as Hp.
  { intros r p. split; [|done]. exists [(bs "Content-Type", media_type (error_shape conf))]. split; [by destruct (error_shape conf)|].
    repeat constructor. by destruct (error_shape conf). }
  assert (forall cs, handled (fold_left handle cs f) /\ parsed (received (fold_left handle cs f)) = parsed (received f)) as Hcs.
  { intros cs. destruct (handle_all_refines cs f ls Hls Hok) as [H1 H2]. split; [by eexists|].
    pose proof (handle_all_kept cs f) as Hk. unfold kept in Hk. congruence. }
  unfold run_handler. destruct (misdirected (received f)); [apply Hp|].
  destruct polled as [cs|cs outcome]; [apply Hcs|]. destruct (Hcs cs) as [H1 H2].
  destruct outcome as [|error|]; [done| |]; cbn [fst]; (split; [apply Hp|]; rewrite <- H2; apply Hp).
Qed.

(** The completed records, in the order of the ring, put back where they belong. *)
Abbreviation Out := (nat * RequestRecord)%type.
Definition put_out (v : list Seen) (o : Out) : list Seen := alter (fun x : Seen => (with_record x.1 (Some o.2), None)) o.1 v.
Definition eff (outs : list Out) (v : list Seen) : list Seen := fold_left put_out outs v.

Lemma eff_snoc outs o v : eff (outs ++ [o]) v = put_out (eff outs v) o.
Proof. unfold eff. by rewrite fold_left_app. Qed.

Lemma eff_length outs : forall v, length (eff outs v) = length v.
Proof. induction outs as [|o outs IH]; intros v; [done|]. cbn. fold (eff outs (put_out v o)). rewrite IH. apply length_alter. Qed.

Lemma eff_lookup outs : forall i v, i ∉ outs.*1 -> eff outs v !! i = v !! i.
Proof.
  induction outs as [|o outs IH]; intros i v Hi; [done|]. cbn in *. apply not_elem_of_cons in Hi as [Hne Hi]. fold (eff outs (put_out v o)).
  rewrite IH by done. unfold put_out. by apply list_lookup_alter_ne.
Qed.

Lemma eff_insert outs : forall i x v, i ∉ outs.*1 -> eff outs (<[i := x]> v) = <[i := x]> (eff outs v).
Proof.
  induction outs as [|o outs IH]; intros i x v Hi; [done|]. cbn in *. apply not_elem_of_cons in Hi as [Hne Hi].
  fold (eff outs (put_out (<[i := x]> v) o)) (eff outs (put_out v o)). rewrite <- IH by done. f_equal. unfold put_out.
  apply list_eq. intros j. destruct (decide (j = o.1)) as [->|Hj].
  - rewrite list_lookup_alter, !list_lookup_insert_ne, list_lookup_alter by done. done.
  - rewrite list_lookup_alter_ne by done. destruct (decide (j = i)) as [->|Hji].
    + destruct (decide (i < length v)%nat); [by rewrite !list_lookup_insert_eq by (rewrite ?length_alter; done)|].
      rewrite !lookup_ge_None_2; [done|rewrite length_insert, length_alter; lia|rewrite length_insert; lia].
    + rewrite !list_lookup_insert_ne, list_lookup_alter_ne by done. done.
Qed.

Lemma eff_take outs n : forall v, eff outs (take n v) = take n (eff outs v).
Proof.
  induction outs as [|o outs IH]; intros v; [done|]. cbn. fold (eff outs (put_out (take n v) o)) (eff outs (put_out v o)).
  rewrite <- IH. f_equal. unfold put_out. apply list_eq. intros j. destruct (decide (j < n)%nat) as [Hj|Hj].
  - rewrite lookup_take_lt by done. destruct (decide (j = o.1)) as [->|Hne].
    + by rewrite !list_lookup_alter, lookup_take_lt.
    + by rewrite !list_lookup_alter_ne, lookup_take_lt.
  - rewrite (lookup_take_ge _ n j) by lia. apply lookup_ge_None. rewrite length_alter, length_take. lia.
Qed.

(** The outputs in hand: of running entries without their future, in order. *)
Record outs_ok (c : Conn) (outs : list Out) : Prop := {
  outs_sorted : StronglySorted lt outs.*1;
  outs_running : forall o, o ∈ outs -> exists e, seen c !! o.1 = Some (e, None) /\ stage e = Running;
}.

(** ** Completion *)

(** The entry completed is the one the output was put back to. *)
Lemma eff_complete outs i r (x y : Seen) v (cut : bool) : v !! i = Some y -> i ∉ outs.*1 ->
  eff outs (if cut then take (S i) (<[i := x]> v) else <[i := x]> v)
  = let E := <[i := x]> (put_out (eff outs v) (i, r)) in if cut then take (S i) E else E.
Proof.
  intros Hi Hni. assert (<[i := x]> (put_out (eff outs v) (i, r)) = eff outs (<[i := x]> v)) as ->; [|by destruct cut; [apply eff_take|]].
  rewrite eff_insert by done. unfold put_out. cbn [fst snd]. assert (i < length (eff outs v))%nat by (rewrite eff_length; by apply lookup_lt_Some in Hi).
  apply list_eq. intros j. destruct (decide (j = i)) as [->|Hne].
  - by rewrite !list_lookup_insert_eq by (rewrite ?length_alter; done).
  - by rewrite !list_lookup_insert_ne, list_lookup_alter_ne by done.
Qed.

Lemma complete_inv env c outs i r acc sent wire : env_ok env -> ring_ok (ring c) -> outs_ok c (outs ++ [(i, r)]) ->
  live_but (fun j => j ∈ (outs ++ [(i, r)]).*1) (ring c) ->
  Inv c (eff (outs ++ [(i, r)]) (seen c)) acc sent wire ->
  let c' := complete conf env (HttpRing.position (ring c) i) r c in
  ring_ok (ring c') /\ outs_ok c' outs /\ live_but (fun j => j ∈ outs.*1) (ring c') /\
  Inv c' (eff outs (seen c')) acc sent wire /\ writing c' = writing c /\ HttpRing.head (ring c') = HttpRing.head (ring c) /\
  completed c' = completed c /\ kept_batch c (eff (outs ++ [(i, r)]) (seen c)) (eff outs (seen c')).
Proof.
  intros Henv Hok [Hsort Hrun] Hlive HI c'. destruct (Hrun (i, r)) as (e & Hi & Hst); [apply elem_of_app; right; by apply list_elem_of_singleton|].
  cbn [fst] in Hi. rewrite fmap_app in Hsort, Hlive. cbn in Hsort, Hlive.
  assert (forall j, j ∈ outs.*1 -> (j < i)%nat) as Hlt.
  { clear -Hsort. intros j Hj. eapply StronglySorted_app_1_elem_of; [exact Hsort|done|by apply list_elem_of_singleton]. }
  assert (i ∉ outs.*1) as Hni by (intros Hin; specialize (Hlt i Hin); lia).
  destruct (complete_leads conf env i e r c Hok Hi) as (close & HL & Hlv). set (r' := driver_serialize conf env r close) in *.
  set (x := (done_entry e (with_charge r' 0) (charge r'), None) : Seen) in *.
  set (c0 := if closes r' then _ else c) in HL. fold c' in HL, Hlv.
  rewrite eff_snoc in HI. unfold put_out in HI. cbn [fst snd] in HI. set (E := eff outs (seen c)) in *.
  assert (E !! i = Some (e, None)) as HEi by (unfold E; by rewrite eff_lookup).
  set (E1 := alter _ i E) in HI.
  assert (E1 !! i = Some (with_record e (Some r), None)) as HE1i by (unfold E1; by rewrite list_lookup_alter_eq, HEi).
  assert (eff outs (seen c') = if closes r' then take (S i) (<[i := x]> E1) else <[i := x]> E1) as HE'.
  { rewrite (leads_seen _ _ _ HL). exact (eff_complete outs i r x _ (seen c) (closes r') Hi Hni). }
  pose proof (Forall_lookup_1 _ _ _ _ (inv_entries _ _ _ _ _ HI) HE1i) as Hrec. unfold entry_ok in Hrec. cbn [fst snd with_record stage record] in Hrec.
  rewrite Hst in Hrec. destruct Hrec as [[? _]|(_ & r0 & [= <-] & Hh & Hsm)]; [done|].
  destruct (made_serialize env r close Henv Hh Hsm) as (Hm & Hp & Hcl). fold r' in Hm, Hp, Hcl.
  assert (made (with_charge r' 0)) as Hm'.
  { destruct Hm as (env1 & cl1 & r1 & [? ? ? ? ? ?]). exists env1, cl1, r1. by split. }
  assert (entry_ok x) as Hx by (split; [done|by eexists]).
  assert (id_of x = id_of (with_record e (Some r), None)) as Hid by (unfold id_of; cbn; by rewrite Hp).
  destruct (leads_fields _ _ _ HL) as (F1 & F2 & F3 & F4 & F5 & F6 & F7 & _).
  assert (writing c0 = writing c /\ head_since c0 = head_since c /\ next c0 = next c /\ shared c0 = shared c /\ completed c0 = completed c /\ HttpRing.head (ring c0) = HttpRing.head (ring c)
    /\ (shut c -> shut c0)) as (G1 & G2 & G3 & G4 & G5 & G6 & G7).
  { unfold c0, shut. destruct (closes r'); cbn; (repeat (split; [done|])); [|done]. intros [-> ?]. done. }
  assert (forall w, writing c = Some w -> (count w <= i)%nat) as Hkw.
  { intros w. eapply busy_index; [apply HI|exact HE1i|]. cbn. by rewrite Hst. }
  assert (kept_batch c E1 (eff outs (seen c'))) as Hkept.
  { rewrite HE'. destruct (closes r'); [|apply kept_set; [apply HI|done]]. eapply kept_trans; [apply kept_set; [apply HI|done]|].
    apply kept_cut; [|intros w Hw; specialize (Hkw w Hw); lia].
    by destruct (kept_write c c _ _ (inv_write _ _ _ _ _ HI) (kept_set c E1 i x (inv_write _ _ _ _ _ HI) Hkw) eq_refl). }
  rewrite eff_snoc. change (put_out (eff outs (seen c)) (i, r)) with E1.
  split; [apply HL|]. split; [|split; [|split; [|split; [congruence|split; [rewrite (leads_head _ _ _ HL); done|split; [congruence|exact Hkept]]]]]].
  - split; [by apply StronglySorted_app_1_l in Hsort|]. intros o Ho. destruct (Hrun o) as (e1 & He1 & Hs1); [apply elem_of_app; by left|].
    exists e1. split; [|done]. assert (o.1 < i)%nat as Hoi by (apply Hlt, list_elem_of_fmap; by exists o).
    rewrite (leads_seen _ _ _ HL). destruct (closes r'); [rewrite lookup_take_lt by lia|]; by rewrite list_lookup_insert_ne by lia.
  - apply Hlv. intros j e1 Hj Hs1. destruct (Hlive j e1 Hj Hs1) as [|Hin]; [by left|right]. apply elem_of_app in Hin as [?|Hin]; [by left|right].
    by apply list_elem_of_singleton in Hin.
  - rewrite HE' in Hkept |- *. eapply inv_step; [exact HI|congruence|exact Hkept| | |rewrite F2, G2|rewrite F3, G3; apply HI|apply (leads_shared _ _ _ HL); rewrite G4; apply HI].
    + destruct (closes r'); [apply Forall_take|]; (apply Forall_insert; [apply HI|done]).
    + assert (ordered acc (line_of sent (<[i := x]> E1)) (shut c')) as Ho.
      { eapply order_set; [exact HE1i|exact Hid| |]; [unfold is_last, item; cbn; by rewrite Hst|].
        eapply ordered_shut; [|apply HI]. unfold shut in *. rewrite F2, F4. exact G7. }
      destruct (closes r') eqn:Hc; [|done]. eapply order_cut; [apply list_lookup_insert_eq; by apply lookup_lt_Some in HE1i| |lia|exact Ho].
      unfold is_last, item. cbn. exact Hc.
    + intros Hh'. pose proof (inv_head _ _ _ _ _ HI Hh') as Hn. destruct (closes r'); [rewrite length_take|]; rewrite length_insert; lia.
Qed.

Lemma drain_inv env outs : forall c acc sent wire, env_ok env -> ring_ok (ring c) -> outs_ok c outs ->
  live_but (fun j => j ∈ outs.*1) (ring c) -> Inv c (eff outs (seen c)) acc sent wire -> completed c = [] ->
  let c' := drain_loop conf env (reverse ((fun o => (HttpRing.position (ring c) o.1, o.2)) <$> outs)) c in
  ring_ok (ring c') /\ live c' /\ Inv c' (seen c') acc sent wire /\ writing c' = writing c /\ completed c' = [] /\
  kept_batch c (eff outs (seen c)) (seen c').
Proof.
  induction outs as [|[i r] outs IH] using rev_ind; intros c acc sent wire Henv Hok Ho Hl HI Hcd c'.
  - split; [done|]. split; [|do 3 (split; [done|]); apply kept_refl, HI]. intros j e Hj Hs. destruct (Hl j e Hj Hs) as [|Hin]; [by left|]. by apply elem_of_nil in Hin.
  - unfold c'. rewrite fmap_app, reverse_app. cbn [fmap list_fmap reverse rev_append app fst snd drain_loop].
    destruct (complete_inv env c outs i r acc sent wire Henv Hok Ho Hl HI) as (A & B & C & D & E & F & G & K).
    set (c1 := complete conf env (HttpRing.position (ring c) i) r c) in *.
    destruct (IH c1 acc sent wire Henv A B C D ltac:(congruence)) as (A1 & B1 & C1 & D1 & E1 & K1).
    assert ((fun o : Out => (HttpRing.position (ring c1) o.1, o.2)) <$> outs = (fun o => (HttpRing.position (ring c) o.1, o.2)) <$> outs) as Hpos.
    { apply list_fmap_ext. intros j o _. by rewrite (position_head _ _ _ F). }
    rewrite Hpos in *. do 3 (split; [done|]). split; [congruence|]. split; [done|]. eapply kept_trans; [exact K|]. by eapply kept_writing.
Qed.

(** The state while the handlers are polled. *)
Record polling (c0 c : Conn) (outs : list Out) (n : nat) (acc : list (option Head)) (sent : list Message) (wire : bytes) : Prop := {
  polling_ring : ring_ok (ring c);
  polling_head : HttpRing.head (ring c) = HttpRing.head (ring c0);
  polling_frame : c = set_completed (completed c) (set_ring (ring c) c0);
  polling_done : completed c = (fun o => (HttpRing.position (ring c) o.1, o.2)) <$> outs;
  polling_outs : outs_ok c outs;
  polling_bound : Forall (fun o => o.1 < n)%nat outs;
  polling_live : live_but (fun j => j ∈ outs.*1) (ring c);
  polling_inv : Inv c (eff outs (seen c)) acc sent wire;
  polling_kept : kept_batch c0 (seen c0) (eff outs (seen c));
  polling_entries : (seen c).*1 = (seen c0).*1;
  polling_ids : id_of <$> eff outs (seen c) = id_of <$> seen c0;
}.

Lemma fut_seen c i e f : ring_ok (ring c) -> seen c !! i = Some (e, f) -> future_at (ring c) (HttpRing.position (ring c) i) = f.
Proof. intros Hok H. destruct (seen_at c i e f Hok H) as (e0 & _ & _ & -> & Hat & _). unfold future_at. by rewrite Hat. Qed.

Lemma polled_fields c E x i acc sent wire w : Inv c E acc sent wire -> E !! i = Some w -> is_done (stage w.1) = false ->
  forall c', entry_ok x -> item x = item w -> writing c' = writing c -> head_since c' = head_since c -> next c' = next c -> shared c' = shared c ->
  conn_close c' = conn_close c -> Inv c' (<[i := x]> E) acc sent wire.
Proof.
  intros HI Hi Hd c' Hx Hit H1 H2 H3 H4 H5. eapply inv_step; [exact HI|done|apply kept_set; [apply HI|intros w'; eapply busy_index; [apply HI|exact Hi|done]]| | |..].
  - apply Forall_insert; [apply HI|done].
  - unfold line_of. rewrite list_fmap_insert, Hit, list_insert_id by (by rewrite list_lookup_fmap, Hi). unfold shut. rewrite H2, H5. apply HI.
  - rewrite H2, length_insert. apply HI.
  - rewrite H3. apply HI.
  - rewrite H4. apply HI.
Qed.

Lemma polled_kept c0 c E x i acc sent wire w : Inv c E acc sent wire -> E !! i = Some w -> is_done (stage w.1) = false ->
  writing c = writing c0 -> kept_batch c0 (seen c0) E -> kept_batch c0 (seen c0) (<[i := x]> E).
Proof.
  intros HI Hi Hd Hw Hk. eapply kept_trans; [exact Hk|]. apply (kept_writing c); [done|].
  apply kept_set; [apply HI|]. intros w'. eapply busy_index; [apply HI|exact Hi|done].
Qed.

Lemma polled_ids (E : list Seen) ids x i w : E !! i = Some w -> id_of x = id_of w -> id_of <$> E = ids -> id_of <$> <[i := x]> E = ids.
Proof. intros Hi Hx <-. rewrite list_fmap_insert, Hx. apply list_insert_id. by rewrite list_lookup_fmap, Hi. Qed.

Lemma poll_at_inv c0 c outs n polled acc sent wire : polling c0 c outs n acc sent wire -> (n < length (seen c))%nat ->
  let c' := poll_at conf (HttpRing.position (ring c) n) polled c in
  (forall o, o ∈ completed c' -> small o.2) ->
  length (seen c') = length (seen c) /\ exists outs', polling c0 c' outs' (S n) acc sent wire.
Proof.
  intros [Hok Hh Hf Hd [Hsort Hrun] Hb Hl HI Hk0 Hent Hids] Hn c' Hsmall. assert (writing c = writing c0) as Hwr0 by (by rewrite Hf).
  assert (polling c0 c outs (S n) acc sent wire) as Hstay.
  { split; try done. eapply Forall_impl; [exact Hb|]. cbn. lia. }
  destruct (lookup_lt_is_Some_2 (seen c) n Hn) as [[e f] Hi]. destruct (seen_at c n e f Hok Hi) as (e0 & Hq & He & Hfe & Hat & Hcap).
  revert Hsmall. unfold c', poll_at. rewrite Hat. assert (stage e0 = stage e) as Hse by (by rewrite He).
  destruct (is_running (stage e0)) eqn:Hr; [|by eauto]. rewrite (fut_seen c n e f Hok Hi).
  assert (n ∉ outs.*1) as Hno.
  { intros (o & -> & Ho)%list_elem_of_fmap. rewrite Forall_forall in Hb. specialize (Hb o Ho). cbn in Hb. lia. }
  destruct f as [r|]; [|by eauto]. destruct (slot e0) as [k|] eqn:Hs; [|by eauto].
  assert (eff outs (seen c) !! n = Some (e, Some r)) as HEn by (by rewrite eff_lookup).
  assert (stage e = Running) as Hst by (rewrite Hse in Hr; by destruct (stage e)).
  pose proof (Forall_lookup_1 _ _ _ _ (inv_entries _ _ _ _ _ HI) HEn) as Hx. unfold entry_ok in Hx. cbn [fst snd] in Hx. rewrite Hst in Hx.
  destruct Hx as [(Hrec & ? & [= <-] & Hhan)|[? _]]; [|done].
  destruct (run_handler_ok r (polled (HttpRing.position (ring c) n)) Hhan) as [Hh' Hp'].
  destruct (run_handler conf r (polled (HttpRing.position (ring c) n))) as [r' []]; cbn [fst] in Hh', Hp'.
  - intros Hsmall. assert (take_future (ring c) (HttpRing.position (ring c) n) = set_future (ring c) k None) as Htf by (unfold take_future; by rewrite Hat; cbn; rewrite Hs).
    rewrite Htf in *. destruct (set_future_ok (ring c) n e0 k None Hok Hq Hs) as [Hok' Hv']. rewrite <- He in Hv'. fold (seen c) in Hv'.
    match goal with |- length (seen ?x) = _ /\ _ => set (c2 := x) in * end. assert (seen c2 = <[n := (e, None)]> (seen c)) as Hs2 by exact Hv'.
    assert (small r') as Hsm by (apply (Hsmall (HttpRing.position (ring c) n, r')); apply elem_of_app; right; by apply list_elem_of_singleton).
    split; [by rewrite Hs2, length_insert|]. exists (outs ++ [(n, r')]).
    assert (eff (outs ++ [(n, r')]) (seen c2) = <[n := (with_record e (Some r'), None)]> (eff outs (seen c))) as HE2.
    { rewrite eff_snoc, Hs2, eff_insert by done. unfold put_out. cbn [fst snd].
      apply list_eq. intros j. assert (n < length (eff outs (seen c)))%nat by (by rewrite eff_length). destruct (decide (j = n)) as [->|Hne].
      - by rewrite list_lookup_alter_eq, !list_lookup_insert_eq.
      - by rewrite list_lookup_alter_ne, !list_lookup_insert_ne. }
    assert ((seen c2).*1 = (seen c0).*1) as Hent2 by (rewrite Hs2, list_fmap_insert, <- Hent; apply list_insert_id; by rewrite list_lookup_fmap, Hi).
    split; [exact Hok'|done| | | | | | |rewrite HE2; eapply polled_kept; [exact HI|exact HEn|cbn; by rewrite Hst|done|done]|exact Hent2|rewrite HE2; eapply polled_ids; [exact HEn|unfold id_of; cbn; by rewrite Hrec, Hp'|exact Hids]].
    + unfold c2. rewrite Hf. by destruct c0.
    + unfold c2. cbn. by rewrite Hd, fmap_app.
    + split.
      * rewrite fmap_app. apply StronglySorted_app_2; [|done|repeat constructor]. intros j j' Hj ->%list_elem_of_singleton.
        apply list_elem_of_fmap in Hj as (o & -> & Ho). rewrite Forall_forall in Hb. by apply (Hb o).
      * intros o [Ho| ->%list_elem_of_singleton]%elem_of_app; cbn [fst].
        -- destruct (Hrun o Ho) as (e1 & He1 & Hs1). exists e1. rewrite Hs2, list_lookup_insert_ne; [done|].
           rewrite Forall_forall in Hb. specialize (Hb o Ho). cbn in Hb. lia.
        -- exists e. rewrite Hs2. split; [by apply list_lookup_insert_eq|done].
    + apply Forall_app_2; [eapply Forall_impl; [exact Hb|]; cbn; lia|repeat constructor; cbn; lia].
    + intros j e' Hj Hsl. cbn [ring c2 set_completed set_ring] in *. rewrite fmap_app.
      destruct (decide (j = n)) as [->|Hne]; [right; apply elem_of_app; right; by apply list_elem_of_singleton|].
      destruct (Hl j e' Hj Hsl) as [Hfu|Hin]; [left|right; apply elem_of_app; by left].
      assert (view (set_future (ring c) k None) !! j = view (ring c) !! j) as Hvj by (rewrite Hv'; by rewrite list_lookup_insert_ne).
      rewrite !view_lookup in Hvj. change (queue (set_future (ring c) k None)) with (queue (ring c)) in Hj, Hvj. rewrite Hj in Hvj. injection Hvj as ->. done.
    + rewrite HE2. eapply polled_fields; [exact HI|exact HEn|cbn; by rewrite Hst| | |done..].
      * unfold entry_ok. cbn. rewrite Hst. right. split; [done|]. by exists r'.
      * unfold item, id_of. cbn. by rewrite Hst, Hrec, Hp'.
  - intros _. destruct (set_future_ok (ring c) n e0 k (Some r') Hok Hq Hs) as [Hok' Hv']. rewrite <- He in Hv'. fold (seen c) in Hv'.
    match goal with |- length (seen ?x) = _ /\ _ => set (c2 := x) in * end. assert (seen c2 = <[n := (e, Some r')]> (seen c)) as Hs2 by exact Hv'.
    split; [by rewrite Hs2, length_insert|]. exists outs.
    assert ((seen c2).*1 = (seen c0).*1) as Hent2 by (rewrite Hs2, list_fmap_insert, <- Hent; apply list_insert_id; by rewrite list_lookup_fmap, Hi).
    split; [exact Hok'|done| |done| | | | |rewrite Hs2, eff_insert by done; eapply polled_kept; [exact HI|exact HEn|cbn; by rewrite Hst|done|done]|exact Hent2|rewrite Hs2, eff_insert by done; eapply polled_ids; [exact HEn|unfold id_of; cbn; by rewrite Hrec, Hp'|exact Hids]].
    + unfold c2. rewrite Hf. by destruct c0.
    + split; [done|]. intros o Ho. destruct (Hrun o Ho) as (e1 & He1 & Hs1). exists e1. rewrite Hs2, list_lookup_insert_ne; [done|].
      rewrite Forall_forall in Hb. specialize (Hb o Ho). cbn in Hb. lia.
    + eapply Forall_impl; [exact Hb|]. cbn. lia.
    + intros j e' Hj Hsl. cbn [ring c2 set_ring] in *. destruct (Hl j e' Hj Hsl) as [Hfu|Hin]; [left|by right].
      assert (view (set_future (ring c) k (Some r')) !! j = <[n := (e, Some r')]> (view (ring c)) !! j) as Hvj by (by rewrite Hv').
      rewrite !view_lookup in Hvj. change (queue (set_future (ring c) k (Some r'))) with (queue (ring c)) in *. rewrite Hj in Hvj.
      destruct (decide (j = n)) as [->|Hne].
      * rewrite list_lookup_insert_eq in Hvj by (rewrite view_length by done; by rewrite seen_length in Hn). injection Hvj as _ ->. done.
      * rewrite list_lookup_insert_ne, view_lookup, Hj in Hvj by done. injection Hvj as ->. done.
    + rewrite Hs2, eff_insert by done. eapply polled_fields; [exact HI|exact HEn|cbn; by rewrite Hst| | |done..].
      * unfold entry_ok. cbn. rewrite Hst. left. split; [done|]. by exists r'.
      * unfold item, id_of. cbn. by rewrite Hst, Hrec, Hp'.
Qed.

Lemma poll_loop_done polled n : forall i c o, o ∈ completed c -> o ∈ completed (poll_loop conf i n polled c).
Proof.
  induction n as [|n IH]; intros i c o Ho; [done|]. cbn [poll_loop]. apply IH. unfold poll_at.
  destruct (entry _ _) as [e|]; [|done]. destruct (is_running _); [|done]. destruct (future_at _ _), (slot e); try done.
  destruct (run_handler _ _ _) as [r' []]; [|done]. cbn. apply elem_of_app. by left.
Qed.

Lemma poll_loop_inv polled acc sent wire c0 n : forall i c outs, polling c0 c outs i acc sent wire -> (length (seen c) = i + n)%nat ->
  (forall o, o ∈ completed (poll_loop conf i n polled c) -> small o.2) ->
  exists outs', polling c0 (poll_loop conf i n polled c) outs' (i + n) acc sent wire.
Proof.
  induction n as [|n IH]; intros i c outs Hp Hn Hsmall; cbn [poll_loop] in *; [rewrite Nat.add_0_r; by exists outs|].
  destruct (poll_at_inv c0 c outs i polled acc sent wire Hp ltac:(lia)) as (Hlen & outs1 & H1).
  { intros o Ho. apply Hsmall. by apply poll_loop_done. }
  destruct (IH (S i) _ outs1 H1 ltac:(lia) Hsmall) as [outs2 H2]. exists outs2. by rewrite Nat.add_succ_r.
Qed.

Lemma poll_inv polled c acc sent wire : ring_ok (ring c) -> live c -> Inv c (seen c) acc sent wire -> completed c = [] ->
  (forall o, o ∈ completed (poll_running conf polled c) -> small o.2) ->
  exists outs, polling c (poll_running conf polled c) outs (HttpRing.len (ring c)) acc sent wire.
Proof.
  intros Hok Hl HI Hcd Hsmall. apply (poll_loop_inv polled acc sent wire c _ 0 c []); [|by apply seen_length|done].
  split; [done|done|by destruct c|done| |done| |done|apply kept_refl, HI|done|done].
  - split; [constructor|]. intros o Ho. by apply elem_of_nil in Ho.
  - intros j e Hj Hs. left. by destruct (Hl j e Hj Hs) as [|[]].
Qed.

(** ** Events *)

(** What an event leaves: nothing is in hand, and the line still answers in order. *)
Record settled (c : Conn) (acc : list (option Head)) (sent : list Message) (wire : bytes) : Prop := {
  settled_ring : ring_ok (ring c);
  settled_live : live c;
  settled_inv : Inv c (seen c) acc sent wire;
  settled_done : completed c = [];
}.

Lemma settled_fields c c' acc sent wire : settled c acc sent wire -> ring c' = ring c -> writing c' = writing c -> head_since c' = head_since c ->
  conn_close c' = conn_close c -> next c' = next c -> shared c' = shared c -> completed c' = completed c -> settled c' acc sent wire.
Proof.
  intros [Hok Hl HI Hd] H1 H2 H3 H4 H5 H6 H7. assert (seen c' = seen c) as Hs by (unfold seen; by rewrite H1).
  split; [by rewrite H1|unfold live; by rewrite H1| |congruence]. rewrite Hs.
  eapply inv_fields; [exact HI|done|unfold shut; by rewrite H3, H4|rewrite H3; apply HI|rewrite H5; apply HI|rewrite H6; apply HI].
Qed.

Lemma drained env c0 c outs n acc sent wire : env_ok env -> polling c0 c outs n acc sent wire ->
  settled (drain_completed conf env c) acc sent wire /\ writing (drain_completed conf env c) = writing c /\
  kept_batch c0 (seen c0) (seen (drain_completed conf env c)).
Proof.
  intros Henv [Hok Hh Hf Hd Ho Hb Hl HI Hk0 _]. unfold drain_completed. rewrite Hd.
  set (c1 := set_completed [] c).
  assert (Inv c1 (eff outs (seen c)) acc sent wire) as HI1 by (eapply inv_fields; [exact HI|done|done|apply HI|apply HI|apply HI]).
  destruct (drain_inv env outs c1 acc sent wire Henv Hok) as (A & B & C & D & E & K).
  - split; [by destruct Ho|]. intros o Hin. by apply Ho.
  - exact Hl.
  - exact HI1.
  - done.
  - split; [by split|]. split; [exact D|]. eapply kept_trans; [exact Hk0|]. apply (kept_writing c1); [change (writing c0 = writing c); by rewrite Hf|exact K].
Qed.

Lemma mark_close_settled env c acc sent wire : env_ok env -> settled c acc sent wire -> settled (mark_close conf env c) acc sent wire.
Proof.
  intros Henv [Hok Hl HI Hd]. pose proof (mark_close_leads conf env c Hok) as HL.
  destruct (reclosed_keeps env c (seen c) Henv (inv_entries _ _ _ _ _ HI) (inv_write _ _ _ _ _ HI)) as (H1 & H2 & H3 & H4).
  destruct (leads_fields _ _ _ HL) as (F1 & F2 & F3 & F4 & F5 & F6 & _ & _).
  split; [apply HL|by apply (leads_live _ _ _ HL)| |by rewrite F6]. rewrite (leads_seen _ _ _ HL).
  eapply inv_step; [exact HI|done|done|done| |..].
  - apply H4. eapply ordered_shut; [|apply HI]. unfold shut. rewrite F2, F4. by intros [_ ?].
  - rewrite F2. intros Hh. apply (f_equal length) in H3. rewrite !length_fmap in H3. rewrite H3. by apply HI.
  - rewrite F3. apply HI.
  - apply (leads_shared _ _ _ HL), HI.
Qed.

Lemma eof_settled env c acc sent wire : env_ok env -> settled c acc sent wire -> settled (eof conf env c) acc sent wire.
Proof.
  intros Henv [Hok Hl HI Hd]. pose proof (eof_leads conf env c Hok) as HL.
  assert (Forall entry_ok (without_body (seen c)) /\ kept_batch c (seen c) (without_body (seen c)) /\
    (ordered acc (line_of sent (without_body (seen c))) True)) as (He & Hk & Ho).
  { unfold without_body. destruct (last (seen c)) as [[e f]|] eqn:Hlast.
    - assert (Hi := Hlast). rewrite last_lookup, <- Nat.sub_1_r in Hi. destruct (is_body (stage e)) eqn:Hb.
      + assert (is_done (stage e) = false) as Hnd by (by destruct (stage e)).
        split; [apply Forall_take, HI|]. split; [apply kept_cut; [apply HI|]; intros w; eapply busy_index; [apply HI|exact Hi|done]|].
        eapply (ordered_drop_last _ _ (item (e, f))); [unfold is_last, item; cbn; by rewrite Hnd|done|].
        replace (line_of sent (take (length (seen c) - 1) (seen c)) ++ [item (e, f)]) with (line_of sent (seen c)); [apply HI|].
        unfold line_of. rewrite <- app_assoc. f_equal. rewrite <- (take_drop (length (seen c) - 1) (seen c)) at 1.
        erewrite (drop_S (seen c)) by exact Hi. rewrite fmap_app, drop_ge by lia. done.
      + split; [apply HI|]. split; [apply kept_refl, HI|]. eapply ordered_shut; [|apply HI]. done.
    - split; [apply HI|]. split; [apply kept_refl, HI|]. eapply ordered_shut; [|apply HI]. done. }
  destruct (kept_write c c _ _ (inv_write _ _ _ _ _ HI) Hk eq_refl) as [Hw' _].
  destruct (reclosed_keeps env c _ Henv He Hw') as (H1 & H2 & H3 & H4).
  destruct (leads_fields _ _ _ HL) as (F1 & F2 & F3 & F4 & F5 & F6 & _ & _).
  split; [apply HL|by apply (leads_live _ _ _ HL)| |by rewrite F6]. rewrite (leads_seen _ _ _ HL).
  eapply inv_step; [exact HI|done|by eapply kept_trans|done| |..].
  - apply H4. eapply ordered_shut; [|exact Ho]. unfold shut. by rewrite F2, F4.
  - rewrite F2. by intros [? ?].
  - rewrite F3. done.
  - apply (leads_shared _ _ _ HL), HI.
Qed.

(** The responses of done entries. *)
Definition response_of (x : Seen) : Message := Response (id_of x) (default default_record (record x.1)).

Lemma responses E : Forall entry_ok E -> Forall (fun x : Seen => stage x.1 = Done) E ->
  answers (response_of <$> E) = item <$> E /\ concat (message_octets <$> (response_of <$> E)) = concat (seen_octets <$> E) /\
  (forall id r, Response id r ∈ response_of <$> E -> made r).
Proof.
  induction 1 as [|[e f] E Hx _ IH]; intros Hd; [by split; [|split; [|intros id r Hin; by apply elem_of_nil in Hin]]|].
  apply Forall_cons in Hd as [Hs Hd]. cbn [fst] in Hs. destruct (IH Hd) as (H1 & H2 & H3).
  unfold entry_ok in Hx. cbn [fst snd] in Hx. rewrite Hs in Hx. destruct Hx as (-> & r & Hr & Hm).
  unfold answers in *. cbn [fmap list_fmap omap list_omap concat]. split; [|split].
  - unfold response_of at 1. cbn. rewrite H1. f_equal. unfold item, id_of. cbn. by rewrite Hs, Hr.
  - rewrite H2. f_equal. unfold response_of, seen_octets. cbn. by rewrite Hr.
  - intros id r' [Heq|Hin]%elem_of_cons; [|by eapply H3]. unfold response_of in Heq. cbn in Heq. rewrite Hr in Heq. by injection Heq as -> ->.
Qed.

Lemma answers_app s t : answers (s ++ t) = answers s ++ answers t.
Proof. apply omap_app. Qed.

Lemma continue_leads c acc sent wire : ring_ok (ring c) -> Inv c (seen c) acc sent wire -> writing c = None ->
  let c' := change_entry (HttpRing.position (ring c) 0) continue_written c in
  ring_ok (ring c') /\ (live c -> live c') /\ Inv c' (seen c') acc sent wire /\ length (seen c') = length (seen c) /\
  c' = set_ring (ring c') c.
Proof.
  intros Hok HI Hw c'. assert (c' = set_ring (ring c') c) as Hc' by (unfold c', change_entry; by destruct c).
  destruct (seen c !! 0%nat) as [[e f]|] eqn:Hi.
  - pose proof (change_leads c 0 e f continue_written Hok Hi) as HL. specialize (HL ltac:(intros e0 s; by destruct e0 as [[?|] [? ? ?| | |] ? ? ? ? ? ?])).
    fold c' in HL. pose proof (Forall_lookup_1 _ _ _ _ (inv_entries _ _ _ _ _ HI) Hi) as Hx.
    destruct (leads_fields _ _ _ HL) as (F1 & F2 & F3 & F4 & F5 & F6 & _ & _).
    assert (entry_ok (continue_written e, f) /\ id_of (continue_written e, f) = id_of (e, f) /\ is_last (item (continue_written e, f)) = is_last (item (e, f))) as (H1 & H2 & H3).
    { unfold entry_ok, is_last, item, id_of, continue_written in *. cbn [fst snd] in *. destruct (stage e) eqn:Hs; cbn [record stage with_stage].
      - destruct Hx as (-> & r & -> & Hb). cbn. split; [split; [done|by eexists]|done].
      - destruct Hx as (-> & r & Hr & Hb). rewrite Hr. cbn. rewrite Hs. split; [split; [done|by eexists]|done].
      - destruct Hx as [(Hr & f' & -> & Hh)|(-> & r & Hr & Hh & Hsm)]; rewrite Hr; cbn; rewrite ?Hs, ?Hr; (split; [|done]); [left; by eauto|right; split; [done|by eexists]].
      - destruct Hx as (-> & r & Hr & (env & close & r0 & [? ? ? ? ? ?])). rewrite Hr. cbn. rewrite Hs. cbn.
        split; [|done]. split; [done|]. eexists. split; [done|]. exists env, close, r0. by split. }
    split; [apply HL|]. split; [intros Hl; by apply (leads_live _ _ _ HL)|]. rewrite (leads_seen _ _ _ HL), length_insert.
    split; [|done]. eapply inv_step; [exact HI|done| |by apply Forall_insert; [apply HI|]| |..].
    + intros w Hcw. by rewrite Hw in Hcw.
    + unfold shut. rewrite F2, F4. eapply order_set; [exact Hi|done|by rewrite H3|apply HI].
    + rewrite F2, length_insert. apply HI.
    + rewrite F3. apply HI.
    + apply (leads_shared _ _ _ HL), HI.
  - assert (entry (ring c) (HttpRing.position (ring c) 0) = None) as He by (apply seen_none; [done|vm_compute; lia|done]).
    assert (c' = c) as -> by (unfold c', change_entry, modify_entry; rewrite He; by destruct c). done.
Qed.

Lemma line_of_taken E sent : Forall entry_ok E -> forall n, (n <= length E)%nat -> Forall (fun x : Seen => stage x.1 = Done) (take n E) ->
  line_of (sent ++ (response_of <$> take n E)) (drop n E) = line_of sent E.
Proof.
  intros He n Hn Hd. destruct (responses (take n E)) as (H & _); [by apply Forall_take|done|].
  unfold line_of. rewrite answers_app, H, <- app_assoc, <- fmap_app. by rewrite take_drop.
Qed.

Lemma order_sent_closed acc sent E n P Q : Forall entry_ok E -> (n <= length E)%nat -> Forall (fun x : Seen => stage x.1 = Done) (take n E) ->
  existsb entry_closes (take n E) = true -> ordered acc (line_of sent E) P ->
  ordered acc (line_of (sent ++ (response_of <$> take n E)) []) Q.
Proof.
  intros He Hn Hd Hx Ho. apply existsb_exists in Hx as (x & Hin & Hc). apply list_elem_of_In, list_elem_of_lookup_1 in Hin as [k Hk].
  assert (Hk' := Hk). apply lookup_take_Some in Hk' as [Hk' Hkn].
  assert (is_last (item x) = true) as Hl.
  { pose proof (Forall_lookup_1 _ _ _ _ He Hk') as Hx. pose proof (Forall_lookup_1 _ _ _ _ Hd Hk) as Hs. cbn in Hs.
    unfold entry_ok in Hx. rewrite Hs in Hx. destruct Hx as (_ & r & Hr & _). unfold is_last, item, entry_closes, closes in *. cbn. rewrite Hs, Hr in *. cbn. by rewrite Hc. }
  pose proof (order_cut acc sent E k x P Q n Hk' Hl Hkn Ho) as H.
  assert (line_of (sent ++ (response_of <$> take n E)) [] = line_of sent (take n E)) as ->; [|done].
  destruct (responses (take n E)) as (Hr & _); [by apply Forall_take|done|]. unfold line_of. cbn. by rewrite app_nil_r, answers_app, Hr.
Qed.

(** How many responses a write completes. *)
Definition popped (n : nat) (c : Conn) : nat :=
  match writing c with
  | Some w => if saturating_add 64 (written w) (Z.of_nat n) <? total w then 0 else count w
  | None => 0
  end.

Lemma wrote_settled now n c w acc sent wire : settled c acc sent wire -> writing c = Some w ->
  (n <= length (batch_octets (seen c) w) - Z.to_nat (written w))%nat ->
  let wire' := wire ++ take n (drop (Z.to_nat (written w)) (batch_octets (seen c) w)) in
  exists sent', settled (wrote now n c) acc sent' wire' /\ length (answers sent') = (length (answers sent) + popped n c)%nat.
Proof.
  intros [Hok Hl HI Hd] Hw Hn wire'. destruct (inv_write _ _ _ _ _ HI w Hw) as (W1 & W2 & W3 & W4 & W5 & W6).
  set (B := batch_octets (seen c) w) in *. unfold Prelude.len in W3.
  pose proof (inv_wire _ _ _ _ _ HI) as Hwire. unfold in_progress in Hwire. rewrite Hw in Hwire. fold B in Hwire.
  assert (wire' = concat (message_octets <$> sent) ++ take (Z.to_nat (written w) + n) B) as Hwire'.
  { unfold wire'. rewrite Hwire, <- app_assoc. f_equal. rewrite <- (take_drop (Z.to_nat (written w)) B) at 3.
    rewrite take_app_ge by (rewrite length_take; lia). f_equal. f_equal. rewrite length_take. lia. }
  unfold wrote, popped. rewrite Hw. assert (saturating_add 64 (written w) (Z.of_nat n) = written w + Z.of_nat n) as ->.
  { unfold saturating_add. rewrite Z.min_l; [done|]. pow2. lia. }
  destruct (Z.ltb_spec (written w + Z.of_nat n) (total w)) as [Hlt|Hge].
  - exists sent. split; [|lia]. split; [done|done| |done]. change (seen (set_writing _ _)) with (seen c).
    split; [apply HI|apply HI| |apply HI| |apply HI|apply HI|apply HI].
    + intros w' [= <-]. cbn. unfold batch_octets. cbn. fold (batch_octets (seen c) w). fold B. split; [done|]. split; [done|].
      split; [done|]. split; [lia|]. done.
    + rewrite Hwire'. f_equal. unfold in_progress. cbn. unfold batch_octets. cbn. fold (batch_octets (seen c) w). fold B. f_equal. lia.
  - assert (Z.to_nat (written w) + n = length B)%nat as Hall by lia. rewrite take_ge in Hwire' by lia.
    set (c1 := set_writing None (set_sent_at now c)).
    assert (settled c1 acc (sent ++ if prefix w then [Interim] else []) (concat (message_octets <$> sent) ++ if prefix w then CONTINUE else [])) as S1.
    { split; [done|done| |done]. change (seen c1) with (seen c).
      split; [apply HI| |by intros w' ?| | |apply HI|apply HI|apply HI].
      - unfold line_of. rewrite answers_app. replace (answers (if prefix w then [Interim] else [])) with (@nil Item) by (by destruct (prefix w)).
        rewrite app_nil_r. apply HI.
      - intros id r [Hin|Hin]%elem_of_app; [by eapply (inv_made _ _ _ _ _ HI)|]. destruct (prefix w); [|by apply elem_of_nil in Hin].
        by apply list_elem_of_singleton in Hin.
      - unfold in_progress. cbn. rewrite app_nil_r, fmap_app, concat_app. f_equal. by destruct (prefix w). }
    set (sent1 := sent ++ _) in *. set (wire1 := concat _ ++ (if prefix w then CONTINUE else [])) in *.
    set (c2 := if prefix w then change_entry (HttpRing.position (ring c1) 0) continue_written c1 else c1).
    assert (settled c2 acc sent1 wire1 /\ length (seen c2) = length (seen c) /\ writing c2 = None /\ (prefix w = false -> c2 = c1)) as (S2 & L2 & Hw2 & Hc2).
    { unfold c2. destruct (prefix w); [|done]. destruct S1 as [Ok1 Lv1 I1 D1].
      destruct (continue_leads c1 acc sent1 wire1 Ok1 I1 eq_refl) as (A & B' & C & D & E). split; [split; auto; by rewrite E|].
      split; [done|]. split; [by rewrite E|done]. }
    destruct S2 as [Ok2 Lv2 I2 D2].
    assert (Forall (fun x : Seen => stage x.1 = Done) (take (count w) (seen c2)) /\ wire' = wire1 ++ concat (seen_octets <$> take (count w) (seen c2))) as [Hdone Hwire2].
    { destruct (prefix w) eqn:Hp.
      - rewrite (W5 eq_refl) in *. split; [constructor|]. rewrite Hwire'. unfold wire1, B, batch_octets. rewrite Hp, (W5 eq_refl). cbn. by rewrite !app_nil_r.
      - rewrite (Hc2 eq_refl). change (seen c1) with (seen c). split.
        + apply Forall_forall. intros x Hx. apply list_elem_of_lookup_1 in Hx as [i Hx]. apply lookup_take_Some in Hx as [Hx Hi]. by eapply W2.
        + rewrite Hwire'. unfold wire1, B, batch_octets. rewrite Hp. cbn. by rewrite app_nil_r. }
    destruct (responses _ (Forall_take _ (count w) _ (inv_entries _ _ _ _ _ I2)) Hdone) as (R1 & R2 & R3).
    set (sent2 := sent1 ++ (response_of <$> take (count w) (seen c2))).
    pose proof (pop_batch_leads (count w) c2 false Ok2 Lv2 ltac:(lia)) as Hpop. fold c2. destruct (pop_batch (count w) c2 false) as [c3 closed].
    destruct Hpop as (t & Ok3 & S3 & Sh3 & Lv3 & F3 & ->). cbn [orb].
    assert (forall c' E', ring_ok (ring c') -> live c' -> seen c' = E' -> E' = drop (count w) (seen c2) \/ E' = [] -> ordered acc (line_of sent2 E') (shut c') ->
      writing c' = None -> head_since c' = head_since c2 -> next c' = next c2 -> shared_ok (shared c') -> completed c' = [] -> settled c' acc sent2 wire') as Hfin.
    { intros c' E' A1 A2 A3 A4 A5 A6 A7 A8 A9 A10. split; [done|done| |done]. rewrite A3. split.
      - destruct A4 as [->| ->]; [apply Forall_drop, I2|done].
      - done.
      - intros w'. by rewrite A6.
      - intros id r [Hin|Hin]%elem_of_app; [by eapply (inv_made _ _ _ _ _ I2)|by eapply R3].
      - rewrite Hwire2. unfold sent2, in_progress. rewrite A6, app_nil_r, fmap_app, concat_app, R2. f_equal.
        rewrite (inv_wire _ _ _ _ _ I2). unfold in_progress. by rewrite Hw2, app_nil_r.
      - rewrite A7. intros Hh. pose proof (inv_head _ _ _ _ _ I2 Hh). destruct A4 as [->| ->]; [rewrite length_drop|cbn]; lia.
      - rewrite A8. apply I2.
      - done. }
    assert (length (answers sent2) = length (answers sent) + count w)%nat as Hcount.
    { unfold sent2, sent1. rewrite !answers_app, R1, !length_app, length_fmap, length_take. destruct (prefix w); cbn; lia. }
    exists sent2. split; [|exact Hcount]. pose proof (inv_order _ _ _ _ _ I2) as Ho2. assert (count w <= length (seen c2))%nat as Hcl by lia.
    set (c4 := if existsb entry_closes (take (count w) (seen c2)) then set_conn_close true (discard_from 0 c3) else c3).
    assert (settled c4 acc sent2 wire') as S4.
    { unfold c4. destruct (existsb entry_closes (take (count w) (seen c2))) eqn:Hx.
      - pose proof (discard_leads c3 0 Ok3) as HL. rewrite S3 in HL. cbn [take] in HL. destruct (leads_fields _ _ _ HL) as (G1 & G2 & G3 & G4 & G5 & G6 & _ & _).
        apply (Hfin _ []); [apply HL|by apply (leads_live _ _ _ HL)|apply HL|by right| |cbn; rewrite G1, F3; exact Hw2|cbn; rewrite G2, F3; done|cbn; rewrite G3, F3; done| |cbn; rewrite G6, F3; exact D2].
        + eapply order_sent_closed; [apply I2|done|done|done|exact Ho2].
        + apply (leads_shared _ _ _ HL), Sh3, I2.
      - apply (Hfin _ (drop (count w) (seen c2))); [done|done|done|by left| |rewrite F3; exact Hw2|rewrite F3; done|rewrite F3; done|apply Sh3, I2|rewrite F3; exact D2].
        unfold sent2. rewrite line_of_taken; [|apply I2|done|done]. eapply ordered_shut; [|exact Ho2]. unfold shut. by rewrite F3. }
    destruct (HttpRing.is_empty (ring c4)); [|done]. by eapply settled_fields.
Qed.

(** ** A whole turn *)

(** What an event put on the wire. *)
Definition out (before : Conn) (event : Event) : bytes :=
  match event with Wrote n => take n (to_write before) | _ => [] end.

Lemma no_outs c0 c outs n acc sent wire : polling c0 c outs n acc sent wire -> completed c = [] -> outs = [].
Proof. intros H Hd. rewrite (polling_done _ _ _ _ _ _ _ H) in Hd. by destruct outs. Qed.

Lemma waits_inv c c' acc sent wire : settled c acc sent wire -> waits conf c c' -> Forall (fun o => small o.2) (completed c') ->
  exists outs n, polling c c' outs n acc sent wire.
Proof.
  intros Hs Hw Hsmall. revert Hs. induction Hw as [c polled|c polled c' Hd Hw IH]; intros [Hok Hl HI Hcd].
  - destruct (poll_inv polled c acc sent wire Hok Hl HI Hcd) as [outs H]; [by apply Forall_forall|]. by exists outs, (HttpRing.len (ring c)).
  - destruct (poll_inv polled c acc sent wire Hok Hl HI Hcd) as [outs H]; [intros o Ho; rewrite Hd in Ho; by apply elem_of_nil in Ho|].
    rewrite (no_outs _ _ _ _ _ _ _ H Hd) in H. destruct H as [P1 P2 P3 P4 P5 P6 P7 P8 P9 P10 P11].
    destruct (IH Hsmall) as (outs' & n & [Q1 Q2 Q3 Q4 Q5 Q6 Q7 Q8 Q9 Q10 Q11]).
    { split; [done| |done|done]. intros j e Hj He. destruct (P7 j e Hj He) as [|Hin]; [by left|]. by apply elem_of_nil in Hin. }
    exists outs', n. split; [done|congruence| |done|done|done|done|done| |congruence|by rewrite Q11].
    + rewrite Q3 at 1. rewrite P3. by destruct c.
    + eapply kept_trans; [exact P9|]. apply (kept_writing (poll_running conf polled c)); [by rewrite P3|exact Q9].
Qed.

Lemma ready_octets c acc sent wire : settled c acc sent wire -> 
  to_write c = match writing c with Some w => drop (Z.to_nat (written w)) (batch_octets (seen c) w) | None => [] end.
Proof.
  intros [Hok Hl HI Hd]. destruct (writing c) as [w|] eqn:Hw; [|unfold to_write; by rewrite Hw].
  destruct (inv_write _ _ _ _ _ HI w Hw) as (W1 & W2 & W3 & W4 & W5 & W6).
  apply to_write_octets; [done..| |by rewrite <- W3]. intros i x Hx Hi.
  pose proof (Forall_lookup_1 _ _ _ _ (inv_entries _ _ _ _ _ HI) Hx) as He. unfold entry_ok in He. rewrite (W2 i x Hi Hx) in He.
  destruct He as (_ & r & -> & _). by eexists.
Qed.

Definition gone (before : Conn) (event : Event) : nat :=
  match event with Wrote (S n) => popped (S n) before | _ => 0 end.

Lemma apply_settled env before after (now_ : Z) hb hn event acc sent wire : env_ok env -> settled before acc sent wire ->
  waits conf before after -> Forall (fun o => small o.2) (completed after) -> can_happen conf before after now_ hb hn event ->
  exists sent', settled (apply conf env event after) acc sent' (wire ++ out before event) /\
    length (answers sent') = (length (answers sent) + gone before event)%nat.
Proof.
  intros Henv Hs Hw Hsmall Hcan. destruct (waits_inv _ _ _ _ _ Hs Hw Hsmall) as (outs & n & HP).
  assert (writing after = writing before) as Hwr by (rewrite (polling_frame _ _ _ _ _ _ _ HP); done).
  destruct (drained env _ _ _ _ _ _ _ Henv HP) as (Hd & Hwr' & Hk). unfold apply. set (c := drain_completed conf env after) in *.
  destruct event as [buf| | | |[|k]| | | |]; cbn [out]; rewrite ?take_0, ?app_nil_r;
    try (exists sent; split; [|cbn; lia]; first [done|by eapply settled_fields|by apply eof_settled|by apply mark_close_settled; [|eapply settled_fields]]).
  destruct Hcan as [_ Hn]. rewrite (ready_octets before acc sent wire Hs) in *.
  destruct (writing before) as [w|] eqn:Hwb; [|cbn in Hn; lia]. destruct (Hk w Hwb) as [Ht _].
  assert (batch_octets (seen c) w = batch_octets (seen before) w) as Hb by (unfold batch_octets; by rewrite Ht).
  rewrite <- Hb in Hn |- *. rewrite length_drop in Hn. assert (popped (S k) before = popped (S k) c) as Hpop by (unfold popped; by rewrite Hwr', Hwr, Hwb).
  unfold gone. rewrite Hpop. apply (wrote_settled _ (S k) c w acc sent wire); [done|congruence|done].
Qed.

(** ** Runs

    A run of the loop of [Conn::run]: with what a connection accepted, the entries [tick] put
    behind those of the ring, with the octets it received and with those it wrote.  Between two turns the other
    connections of the core may change what is shared. *)
Definition came (event : Event) : bytes := match event with ReadData buf => filled buf | _ => [] end.

Inductive Reach : Conn -> list (option Head) -> bytes -> bytes -> Prop :=
| reach_new sh now_ later_ : shared_ok sh -> Reach (Conn_new sh now_ later_) [] [] []
| reach_shared c accepted got wire sh : Reach c accepted got wire -> shared_ok sh -> Reach (set_shared sh c) accepted got wire
| reach_turn c accepted got wire env after now_ hb hn event env' :
    Reach c accepted got wire ->
    let before := tick conf env c in
    env_ok env -> env_ok env' ->
    Prelude.len (concat (seen_octets <$> seen before)) < 2 ^ 63 ->
    finished before = false ->
    waits conf before after ->
    Forall (fun o => small o.2) (completed after) ->
    can_happen conf before after now_ hb hn event ->
    Reach (apply conf env' event after) (accepted ++ drop (length (ids c)) (ids before)) (got ++ came event) (wire ++ out before event).

Lemma new_settled sh now_ later_ : shared_ok sh -> settled (Conn_new sh now_ later_) [] [] [].
Proof.
  intros Hs. destruct (new_ok (F := RequestRecord)) as [Hok Hv].
  assert (seen (Conn_new sh now_ later_) = []) as Hse by exact Hv.
  split; [exact Hok|by intros j e Hj| |done]. rewrite Hse. split; try done.
  - right. split; [done|by right].
  - intros id r Hin. by apply elem_of_nil in Hin.
  - by intros [? ?].
Qed.

Lemma reach_settled c accepted got wire : Reach c accepted got wire -> exists sent, settled c accepted sent wire.
Proof.
  induction 1 as [sh now_ later_ Hs|c accepted got wire sh _ [sent [Hok Hl HI Hd]] Hs|c accepted got wire env after now_ hb hn event env' _ [sent [Hok Hl HI Hd]] before Henv Henv' Hmem Hf Hw Hsmall Hcan].
  - exists []. by apply new_settled.
  - exists sent. split; [done|done| |done]. change (seen (set_shared sh c)) with (seen c).
    eapply inv_fields; [exact HI|done|done|apply HI|apply HI|done].
  - destruct (tick_inv env c accepted sent wire Henv Hok Hl HI Hd Hmem) as (A & B & C & D). fold before in A, B, C, D.
    destruct (apply_settled env' before after now_ hb hn event (accepted ++ drop (length (ids c)) (ids before)) sent wire) as (sent' & Hs & _); [done|by split|done..|].
    by exists sent'.
Qed.

(** The requests of a connection, by their heads: those answered and those in the ring. *)
Definition line (sent : list Message) (c : Conn) : list Item := line_of sent (seen c).

(** C2. Pipelining (RFC 9112 section 9.3.2).  However the octets of a connection arrive, however
    its handlers interleave, complete and fail, whichever deadlines fire and however little
    the socket takes of each write, what a connection has written is a sequence of whole
    messages, interim responses and responses serialized by the driver, and of the part that
    was written of those that leave now.  The responses, then the entries of the ring, are those of the
    accepted requests in order, up to the first response that ends the connection; and
    nothing accepted is left without its place while the connection is open and no response
    ended it.  An entry is named by the identity [Reach] gives its request when it is accepted;
    the handlers of a reachable connection answer with bodies shorter than 2^63 octets and with
    at most 2^23 octets of fields. *)
Theorem responses_in_order c accepted got wire : Reach c accepted got wire ->
  exists sent,
    wire = concat (message_octets <$> sent) ++ in_progress c (seen c) /\
    (forall id r, Response id r ∈ sent -> made r) /\
    (forall k x, line sent c !! k = Some x -> (forall j y, (j < k)%nat -> line sent c !! j = Some y -> is_last y = false) -> accepted !! k = Some x.1) /\
    (conn_close c = false -> Forall (fun x => is_last x = false) (line sent c) -> (line sent c).*1 = accepted).
Proof.
  intros [sent [Hok Hl HI Hd]]%reach_settled. exists sent. pose proof (inv_order _ _ _ _ _ HI) as Ho.
  split; [apply HI|]. split; [apply HI|]. split.
  - intros k x Hk Hno. by eapply ordered_answers.
  - intros Hc Hno. destruct Ho as [(m & x & Hm & Hx & _)|[_ [[? _]|?]]]; [|congruence|done].
    rewrite (Forall_lookup_1 _ _ _ _ Hno Hm) in Hx. done.
Qed.
End pipeline.

(** A run of [turn]s of [HttpConn] whose sockets answer at once. *)
Lemma example_settings_ok : settings_ok example_settings.
Proof. exists None. split; [reflexivity|]. split; [done|]. by apply Z.leb_le. Qed.

Definition smallb (r : RequestRecord) : bool :=
  (Prelude.len (HttpRecord.body_bytes (response_body (HttpRecord.answer r))) <? 2 ^ 63) &&
  (Prelude.len (response_fields (HttpRecord.answer r)) <=? 2 ^ 23).

Lemma reach_example_turn s polled event c accepted got wire : Reach example_settings c accepted got wire ->
  let before := tick example_settings (at_second s) c in
  let after := poll_running example_settings polled before in
  (0 <=? s) && (Prelude.len (concat (seen_octets <$> seen before)) <? 2 ^ 63) && negb (finished before) &&
    forallb (fun o => smallb o.2) (completed after) = true ->
  can_happen example_settings before after (from_secs s) false false event ->
  Reach example_settings (turn s polled event c) (accepted ++ drop (length (ids c)) (ids before)) (got ++ came event) (wire ++ out before event).
Proof.
  intros H before after [[[Hs%Z.leb_le Hm%Z.ltb_lt]%andb_prop Hf%negb_true_iff]%andb_prop Hsmall]%andb_prop Hcan.
  eapply reach_turn; [exact H|split; [exact Hs|done]..|exact Hm|exact Hf|constructor| |exact Hcan].
  apply Forall_forall. intros o Ho. rewrite forallb_forall in Hsmall. specialize (Hsmall o ltac:(by apply list_elem_of_In)).
  apply andb_prop in Hsmall as [?%Z.ltb_lt ?%Z.leb_le]. done.
Qed.

(** A request, its handler, and a write of which the socket takes seventeen octets. *)
Definition example_request : bytes := crlf "GET /a HTTP/1.1" ++ crlf "Host: h" ++ crlf "".
Definition example_events : list (Z * (nat -> Polled) * Event) :=
  [(1, fun _ => Pending [], ReadData (from_vec example_request));
   (2, fun _ => Ready [Respond (PutBody (bs "hello"))] Handled, Progressed);
   (3, fun _ => Pending [], Wrote 17)].
Definition example_run : Conn := fold_left (fun c t => turn t.1.1 t.1.2 t.2 c) example_events example_conn.

Lemma example_reach : exists accepted, length accepted = 1%nat /\
  Reach example_settings example_run accepted example_request (crlf "HTTP/1.1 200 OK").
Proof.
  pose proof (reach_new example_settings example_shared 0 0 ltac:(constructor)) as R0.
  pose proof (reach_example_turn 1 (fun _ => Pending []) (ReadData (from_vec example_request)) _ _ _ _ R0 ltac:(vm_compute; reflexivity)) as R1.
  specialize (R1 ltac:(split; [vm_compute; reflexivity|split; [reflexivity|split; [split; [reflexivity|by apply Z.ltb_lt]|vm_compute; lia]]])).
  pose proof (reach_example_turn 2 (fun _ => Ready [Respond (PutBody (bs "hello"))] Handled) Progressed _ _ _ _ R1
    ltac:(vm_compute; reflexivity) ltac:(left; vm_compute; discriminate)) as R2.
  pose proof (reach_example_turn 3 (fun _ => Pending []) (Wrote 17) _ _ _ _ R2
    ltac:(vm_compute; reflexivity) ltac:(split; [vm_compute; discriminate|vm_compute; lia])) as R3.
  match type of R3 with Reach _ _ ?accepted ?got ?wire =>
    assert (got = example_request) as Hg by (vm_compute; reflexivity); assert (wire = crlf "HTTP/1.1 200 OK") as Hw by (vm_compute; reflexivity);
    rewrite Hg, Hw in R3; exists accepted; split; [vm_compute; reflexivity|exact R3] end.
Qed.

Lemma responses_in_order_witness : exists accepted,
  length accepted = 1%nat /\ Reach example_settings example_run accepted example_request (crlf "HTTP/1.1 200 OK") /\
  exists sent, crlf "HTTP/1.1 200 OK" = concat (message_octets <$> sent) ++ in_progress example_run (seen example_run) /\
    (forall k x, line sent example_run !! k = Some x -> (forall j y, (j < k)%nat -> line sent example_run !! j = Some y -> is_last y = false) -> accepted !! k = Some x.1).
Proof.
  destruct example_reach as (accepted & Hlen & HR). exists accepted. split; [exact Hlen|]. split; [exact HR|].
  destruct (responses_in_order example_settings example_settings_ok _ _ _ _ HR) as (sent & Hw & _ & Hk & _).
  exists sent. split; [exact Hw|exact Hk].
Defined.
