(* ===== verification/HttpRequests.v ===== *)
(** * Requests: each handler gets the octets of one request

    The other direction of [HttpPipeline]: the octets a connection received are the requests
    it took in, one after the other, each with its body as its head frames it, and what a
    handler starts with is the whole of one of them. *)
From S2P Require Import Prelude Machine H1Body H1Request H1Grammar Core Limits HttpTypes CoreBuf H1Head H1Chunked HttpRecord HttpCall HttpRing HttpSerialize HttpConn HttpConnView HttpPipeline.

(** ** The input *)

Definition input_ok (self : Input) : Prop :=
  match self with
  | NoInput => True
  | Block buf consumed => buf_ok buf /\ (consumed <= CoreBuf.len buf)%nat
  | Heap octets consumed => (consumed <= length octets)%nat
  end.

Lemma consume_tail self n : input_ok self -> (n <= length (tail self))%nat ->
  input_ok (input_consume self n) /\ tail (input_consume self n) = drop n (tail self).
Proof.
  destruct self as [|buf consumed|octets consumed]; cbn; [intros _ _; by rewrite drop_nil| |].
  - intros [Hok Hc] Hn. destruct (filled_ok buf Hok) as [_ Hl]. rewrite length_drop, Hl in Hn. rewrite drop_drop. split; [|done].
    split; [done|]. unfold CoreBuf.len. unfold CoreBuf.len in Hc. lia.
  - intros Hc Hn. rewrite length_drop in Hn. rewrite drop_drop. split; [lia|done].
Qed.

Lemma compact_tail self : input_ok self -> input_ok (compact self) /\ tail (compact self) = tail self.
Proof.
  destruct self as [|buf consumed|octets consumed]; cbn [input_ok compact]; [done| |].
  - intros [Hok Hc]. destruct (filled_ok buf Hok) as [_ Hl]. destruct (Nat.leb_spec (CoreBuf.len buf) consumed) as [Hle|Hgt].
    { split; [done|]. cbn. rewrite drop_ge; [done|]. unfold CoreBuf.len in *. lia. }
    destruct (Nat.ltb_spec 0 consumed) as [Hpos|]; [|done].
    pose proof (consume_ok buf consumed Hok) as H. unfold CoreBuf.len in *. rewrite (proj2 (Nat.leb_le _ _)) in H by lia.
    destruct H as (buf' & -> & Hok' & Hf & _). split; [split; [done|lia]|]. cbn. by rewrite Hf, drop_0.
  - intros Hc. destruct (Nat.leb_spec (length octets) consumed); [split; [done|]; cbn; by rewrite drop_ge|].
    destruct (Nat.ltb_spec 0 consumed); [|done]. split; [cbn; lia|]. cbn. by rewrite drop_0.
Qed.

Lemma absorb_tail self new : input_ok self -> buf_ok new -> input_ok (absorb self new) /\ tail (absorb self new) = tail self ++ filled new.
Proof.
  intros Hok Hn. destruct (compact_tail self Hok) as [Hok1 Ht]. unfold absorb. rewrite <- Ht. clear Ht.
  assert (match compact self with Block _ k | Heap _ k => k = 0%nat | NoInput => True end) as Hz.
  { destruct self as [|buf consumed|octets consumed]; cbn [compact]; [done| |].
    - destruct (Nat.leb_spec (CoreBuf.len buf) consumed); [done|]. destruct (Nat.ltb_spec 0 consumed); [|lia].
      by destruct (CoreBuf.consume buf consumed) as [? []].
    - destruct (Nat.leb_spec (length octets) consumed); [done|]. destruct (Nat.ltb_spec 0 consumed); [done|lia]. }
  destruct (compact self) as [|buf consumed|octets consumed]; [by split; [split; [done|lia]|]| |]; subst consumed; cbn [tail]; rewrite drop_0.
  - destruct Hok1 as [Hb _]. destruct (CoreBuf.len new <=? CoreBuf.remaining buf)%nat.
    + pose proof (put_ok buf (filled new) Hb) as Hp. destruct (_ <=? _)%nat in Hp.
      * destruct Hp as (buf' & -> & Hb' & Hf & _). split; [split; [done|lia]|]. cbn. by rewrite drop_0.
      * destruct Hp as [e ->]. split; [cbn; lia|]. cbn. by rewrite drop_0.
    + split; [cbn; lia|]. cbn. by rewrite drop_0.
  - split; [cbn; lia|]. cbn. by rewrite drop_0.
Qed.

(** ** What a request is *)

Section requests.
Context (conf : Settings).

(** The limit of its body. *)
Definition limit_of (h : Head) (q : Received) : Z :=
  default (http1_max_body (limits conf)) (handler_limit conf (method h) (Span_of (path h) (HttpRecord.head q))).

(** The head: a text of the grammar, from which everything the handler sees of it is read. *)
Record request_head (text : bytes) (h : Head) (q : Received) : Prop := {
  head_text : exists r v table, text = request_text r /\ request_ok (limits conf) (length table) v r /\
    concluded text v r = Ok (Complete h) /\ HttpRecord.fields q = H1Request.written table 0 (head_entries r);
  head_octets : HttpRecord.head q = text;
  head_parsed : parsed q = Some h;
  head_whole : head_len h = length text;
}.

(** The octets after the head are the body, as the head frames it. *)
Definition framed (h : Head) (b : bytes) (q : Received) : Prop :=
  match H1Head.body h with
  | NoBody => b = [] /\ HttpRecord.body q = [] /\ HttpRecord.trailers q = []
  | Length n => b = HttpRecord.body q /\ Prelude.len b = n /\ HttpRecord.trailers q = []
  | Chunked => exists cb, H1Body.body_ok (limits conf) cb /\ b = H1Body.body_text cb /\
      HttpRecord.body q = H1Body.body_data cb /\ HttpRecord.trailers q = H1Body.trailers_text (H1Body.trailer_lines cb)
  end.

Definition within (m : Z) (q : Received) : Prop := HttpRecord.body q = [] \/ Prelude.len (HttpRecord.body q) <= m.

Definition whole (t : bytes) (q : Received) : Prop :=
  exists text h b, t = text ++ b /\ request_head text h q /\ framed h b q /\ within (limit_of h q) q.

(** A request whose body is still arriving, and the octets of it that came. *)
Definition partly (f : Framing) (m : Z) (q : Received) (cur : bytes) : Prop :=
  exists text h b, cur = text ++ b /\ request_head text h q /\ m = limit_of h q /\ HttpRecord.trailers q = [] /\
    match f with
    | FramingLength remaining =>
        H1Head.body h = Length (Prelude.len b + remaining) /\ HttpRecord.body q = b /\ 0 < remaining /\ Prelude.len b + remaining <= m
    | FramingChunked d =>
        H1Head.body h = Chunked /\ H1Body.brings (limits conf) b d (map H1Body.DataOctet (HttpRecord.body q)) /\ within m q
    end.

Lemma head_body text h q x y : request_head text h q ->
  request_head text h (MkReceived (HttpRecord.head q) (HttpRecord.fields q) (parsed q) x y (HttpRecord.peer q) (secure q) (misdirected q)).
Proof. intros [? ? ? ?]. by split. Qed.

Lemma data_no_end ev cb : map H1Body.DataOctet ev <> H1Body.body_events cb.
Proof.
  unfold H1Body.body_events. intros H. assert (H1Body.BodyEnd (H1Body.trailers_text (H1Body.trailer_lines cb)) ∈ map H1Body.DataOctet ev) as Hin.
  { rewrite H. apply elem_of_app. right. by apply list_elem_of_singleton. }
  by apply list_elem_of_In, in_map_iff in Hin as (x & Hx & _).
Qed.

Lemma data_octets_inj (x y : bytes) : map H1Body.DataOctet x = map H1Body.DataOctet y -> x = y.
Proof. revert y. induction x as [|a x IH]; intros [|b y]; cbn; try done. intros [= -> H]. by rewrite (IH y H). Qed.

(** A step of the decoder, seen from the driver. *)
Lemma chunked_step b d ev rest : H1Body.brings (limits conf) b d (map H1Body.DataOctet ev) ->
  match decode (limits conf) d rest with
  | (d', Ok (StepData data n)) => H1Body.brings (limits conf) (b ++ take n rest) d' (map H1Body.DataOctet (ev ++ data)) /\ (n <= length rest)%nat
  | (d', Ok (NeedMore n)) => H1Body.brings (limits conf) (b ++ take n rest) d' (map H1Body.DataOctet ev) /\ (n <= length rest)%nat
  | (d', Ok (StepDone section n)) => (n <= length rest)%nat /\
      exists cb, H1Body.body_ok (limits conf) cb /\ b ++ take n rest = H1Body.body_text cb /\
        ev = H1Body.body_data cb /\ Span_of section rest = H1Body.trailers_text (H1Body.trailer_lines cb)
  | (_, Err _) => True
  end.
Proof.
  intros Hb. destruct (decode (limits conf) d rest) as [d' r] eqn:Hdec.
  assert (H1Chunked.is_done d = false) as Hnd.
  { destruct d as [[]]; try done. destruct (H1Body.brings_body (limits conf) b _ Hb) as (cb & _ & _ & He).
    exfalso. by eapply data_no_end. }
  assert (forall s evs n, H1Body.observe rest (d', r) = Ok (Some (s, evs, n)) ->
    H1Body.brings (limits conf) (b ++ take n rest) s (map H1Body.DataOctet ev ++ evs) /\ (n <= length rest)%nat) as Hstep.
  { intros s evs n Ho. assert (H1Body.step (limits conf) d rest = Ok (Some (s, evs, n))) as Hs by (unfold H1Body.step; by rewrite Hnd, Hdec).
    split; [by eapply H1Body.brings_step|]. by apply machine_progress in Hs as [? _]. }
  destruct r as [[data n|n|section n]|e]; [| | |done].
  - rewrite map_app. by apply Hstep.
  - destruct n as [|n]; [|rewrite <- (app_nil_r (map _ ev)); by apply Hstep].
    apply H1Body.decode_wait in Hdec as ->. rewrite take_0, app_nil_r. split; [done|lia].
  - destruct (Hstep d' [H1Body.BodyEnd (Span_of section rest)] n eq_refl) as [Hn Hl]. split; [done|].
    apply H1Body.decode_end in Hdec as ->. destruct (H1Body.brings_body (limits conf) _ _ Hn) as (cb & Hok & Ht & He).
    exists cb. split; [done|]. split; [done|]. unfold H1Body.body_events in He. apply app_inj_tail in He as [He [= Hspan]].
    split; [by apply data_octets_inj|done].
Qed.

(** What octets of the input do to a request whose body is arriving. *)
Definition fed_ok (max_body : Z) (t : bytes) (e : Entry) (fed : Fed) : Prop :=
  exists r, record e = Some r /\
    match stage e, fed with
    | _, Reject _ => exists f, stage e = Body f false max_body
    | Body f _ m, _ => m = max_body /\ partly f m (received r) t
    | Waiting, Progress => whole t (received r)
    | _, _ => False
    end.

Lemma feed_length env e remaining m r rest cur : partly (FramingLength remaining) m (received r) cur -> rest <> [] ->
  let '(e', n, _, fed) := feed conf env e (FramingLength remaining) m r rest in
  (0 < n <= length rest)%nat /\ fed_ok m (cur ++ take n rest) e' fed.
Proof.
  intros (text & h & b & -> & Hh & -> & Ht & Hb & Hbody & Hr & Hm) Hne. unfold feed.
  set (n := Nat.min (Z.to_nat remaining) (length rest)). assert (0 < length rest)%nat by (destruct rest; [done|cbn; lia]).
  split; [lia|]. eexists. split; [done|]. assert (length (take n rest) = n) as Hl by (rewrite length_take; lia).
  set (r' := with_body r _). assert (request_head text h (received r')) as Hh' by (destruct Hh; by split).
  assert (limit_of h (received r') = limit_of h (received r)) as Hlim by done.
  assert (Prelude.len (b ++ take n rest) = Prelude.len b + Z.of_nat n) as Hlen by (unfold Prelude.len; rewrite length_app, Hl; lia).
  unfold saturating_sub. destruct (Z.eqb_spec (Z.max 0 (remaining - Z.of_nat n)) 0) as [Hz|Hz]; cbn [stage fed_entry with_stage].
  - exists text, h, (b ++ take n rest). rewrite <- app_assoc. split; [done|]. split; [done|]. unfold framed. rewrite Hb.
    assert (HttpRecord.body (received r') = b ++ take n rest) as Hbody' by (cbn; by rewrite Hbody).
    split; [split; [done|split; [lia|done]]|]. right. rewrite Hbody', Hlim. lia.
  - split; [done|]. exists text, h, (b ++ take n rest). rewrite <- app_assoc. split; [done|]. split; [done|]. split; [done|]. split; [done|].
    split; [rewrite Hb; f_equal; lia|]. split; [cbn; by rewrite Hbody|]. split; lia.
Qed.

Lemma feed_chunked env e d m r rest cur : partly (FramingChunked d) m (received r) cur ->
  let '(e', n, _, fed) := feed conf env e (FramingChunked d) m r rest in
  (n <= length rest)%nat /\ fed_ok m (cur ++ take n rest) e' fed.
Proof.
  intros (text & h & b & -> & Hh & -> & Ht & Hb & Hbr & Hw). unfold feed.
  pose proof (chunked_step b d _ rest Hbr) as Hs. destruct (decode (limits conf) d rest) as [d' [step|reject]].
  2: { split; [lia|]. eexists. split; [done|]. cbn. by eexists. }
  assert (forall n, (text ++ b) ++ take n rest = text ++ b ++ take n rest) as Happ by (intros n; by rewrite app_assoc).
  destruct step as [data n|n|section n].
  - destruct Hs as [Hs Hn]. destruct (Z.ltb_spec (limit_of h (received r)) (Prelude.len (HttpRecord.body (received r)) + Prelude.len data)) as [|Hle].
    { split; [lia|]. eexists. split; [done|]. cbn. by eexists. }
    split; [done|]. eexists. split; [done|]. cbn [stage fed_entry with_stage with_last_byte with_body_bytes with_record]. split; [done|].
    exists text, h, (b ++ take n rest). rewrite Happ. split; [done|]. split; [destruct Hh; by split|]. split; [done|]. split; [done|].
    split; [done|]. split; [exact Hs|]. right. cbn [received with_body with_received HttpRecord.body]. unfold Prelude.len in *. rewrite length_app. lia.
  - destruct Hs as [Hs Hn]. split; [done|]. exists r. split; [done|]. cbn [stage fed_entry with_stage with_last_byte with_body_bytes with_record].
    assert (partly (FramingChunked d') (limit_of h (received r)) (received r) ((text ++ b) ++ take n rest)) as Hp.
    { exists text, h, (b ++ take n rest). rewrite Happ. done. }
    by destruct (n =? 0)%nat.
  - destruct Hs as (Hn & cb & Hok & Hb' & Hd & Hspan). destruct (parse_trailers _ _ _ _) as [t [u|reject]].
    + split; [done|]. eexists. split; [done|]. cbn [stage fed_entry with_stage with_last_byte with_body_bytes with_record].
      exists text, h, (b ++ take n rest). rewrite Happ. split; [done|]. split; [destruct Hh; by split|]. split; [|exact Hw].
      unfold framed. rewrite Hb. exists cb. split; [done|]. split; [done|]. split; [exact Hd|]. cbn. by rewrite Ht, Hspan.
    + split; [lia|]. eexists. split; [done|]. cbn. by eexists.
Qed.

(** ** The requests in the ring *)

(** What an entry holds of a request no handler has yet. *)
Inductive Arrival : Type :=
| Settled
| Arriving (f : Framing) (m : Z) (q : Received)
| Whole (q : Received).

Definition arrival (x : Seen) : Arrival :=
  match stage x.1, record x.1 with
  | Body f _ m, Some r => Arriving f m (received r)
  | Waiting, Some r => Whole (received r)
  | _, _ => Settled
  end.
Definition arrivals (c : Conn) : list Arrival := arrival <$> seen c.

Definition pending_in (l : list Arrival) : option (Framing * Z * Received) :=
  match last l with Some (Arriving f m q) => Some (f, m, q) | _ => None end.
Definition pending (c : Conn) : option (Framing * Z * Received) := pending_in (arrivals c).

(** Requests are taken in, and octets of the input are still of use. *)
Definition is_open (c : Conn) : Prop := conn_close c = false /\ taking c = false.
Definition flowing (c : Conn) : Prop := is_open c \/ is_Some (pending c).

Definition current (c : Conn) (cur : bytes) : Prop :=
  match pending c with Some (f, m, q) => partly f m q cur | None => cur = [] end.

(** [texts] are the requests that came whole, [base] those whose responses were written: what
    the ring holds are the next ones, and the octets received are these requests, the one
    that is arriving and the input, which is discarded once it is of no use. *)
Record Arrived (c : Conn) (base : nat) (texts : list bytes) (got : bytes) : Prop := {
  arr_whole : forall i q, arrivals c !! i = Some (Whole q) -> exists t, texts !! (base + i)%nat = Some t /\ whole t q;
  arr_body : forall i f m q, arrivals c !! i = Some (Arriving f m q) -> (base + i)%nat = length texts;
  arr_open : is_open c -> (base + length (arrivals c) = length texts + if pending c is Some _ then 1 else 0)%nat;
  arr_stream : exists rest, got = concat texts ++ rest /\ (flowing c -> exists cur, rest = cur ++ tail (input c) /\ current c cur);
  arr_input : input_ok (input c);
  arr_texts : Forall (fun t => exists q, whole t q) texts;
}.

(** An operation that takes nothing in: entries are settled, or leave from the end. *)
Record same (c c' : Conn) : Prop := {
  same_less : forall i a, arrivals c' !! i = Some a -> a = Settled \/ arrivals c !! i = Some a;
  same_open : is_open c' -> is_open c /\ length (arrivals c') = length (arrivals c) /\ pending c' = pending c;
  same_pending : pending c' = None \/ pending c' = pending c;
  same_input : flowing c' -> tail (input c') = tail (input c);
  same_ok : input_ok (input c) -> input_ok (input c');
}.

Lemma pending_at c f m q : pending c = Some (f, m, q) -> arrivals c !! (length (arrivals c) - 1)%nat = Some (Arriving f m q).
Proof.
  unfold pending, pending_in. rewrite last_lookup, Nat.sub_1_r. destruct (arrivals c !! _) as [[]|]; try done. by intros [= -> -> ->].
Qed.

Lemma same_arrived c c' base texts got : same c c' -> Arrived c base texts got -> Arrived c' base texts got.
Proof.
  intros [Sl So Sp Si Sk] [Aw Ab Ao (rest & Hg & As) Ai At]. split.
  - intros i q H. destruct (Sl i _ H) as [|H2]; [done|]. by apply Aw.
  - intros i f m q H. destruct (Sl i _ H) as [|H2]; [done|]. by eapply Ab.
  - intros Ho. destruct (So Ho) as (Ho' & -> & ->). by apply Ao.
  - exists rest. split; [done|]. intros Hf. rewrite (Si Hf). unfold current.
    assert (flowing c /\ pending c' = pending c) as [Hfc ->]; [|by apply As].
    destruct Hf as [Ho|Hs]; [destruct (So Ho) as (? & _ & ?); split; [by left|done]|].
    destruct Sp as [Hn|Heq]; [rewrite Hn in Hs; by destruct Hs|]. split; [right; by rewrite <- Heq|done].
  - auto.
  - done.
Qed.

(** Nothing of the requests changes. *)
Lemma same_eq c c' : arrivals c' = arrivals c -> (is_open c' -> is_open c) -> tail (input c') = tail (input c) ->
  (input_ok (input c) -> input_ok (input c')) -> same c c'.
Proof. intros Ha Ho Hi Hk. assert (pending c' = pending c) as Hp by (unfold pending; by rewrite Ha). split; [rewrite Ha; auto|by rewrite Ha, Hp; auto|by right|done|done]. Qed.

(** The connection closes: what is left is settled at its end, or is nothing more. *)
Lemma same_shut c c' : (forall i a, arrivals c' !! i = Some a -> a = Settled \/ arrivals c !! i = Some a) ->
  ~ is_open c' -> pending c' = None -> (input_ok (input c) -> input_ok (input c')) -> same c c'.
Proof.
  intros Hl Ho Hp Hk. split; [done|by intros ?|by left| |done]. intros [?|[? Hs]]; [done|]. by rewrite Hp in Hs.
Qed.

Lemma pending_snoc l a : pending_in (l ++ [a]) = match a with Arriving f m q => Some (f, m, q) | _ => None end.
Proof. unfold pending_in. by rewrite last_snoc. Qed.

(** ** The operations that take nothing in *)

Lemma reclosed_arrivals env c v : arrival <$> reclosed conf env c v = arrival <$> v.
Proof.
  unfold reclosed. destruct (last v) as [[e f]|] eqn:Hl; [|done]. destruct (in_batch c _); [done|].
  rewrite list_fmap_insert. apply list_insert_id. rewrite list_lookup_fmap, last_lookup, <- Nat.sub_1_r in *. rewrite Hl. cbn. f_equal.
  unfold arrival, close_entry. cbn. destruct (stage e) eqn:Hs; cbn; rewrite ?Hs; try done. destruct (record e); cbn; by rewrite Hs.
Qed.

Lemma leads_arrivals c c' v : leads c c' v -> arrivals c' = arrival <$> v.
Proof. intros H. unfold arrivals. by rewrite (leads_seen _ _ _ H). Qed.

Lemma mark_close_same env c : ring_ok (ring c) -> same c (mark_close conf env c).
Proof.
  intros Hok. pose proof (mark_close_leads conf env c Hok) as HL. destruct (leads_fields _ _ _ HL) as (_ & _ & _ & F4 & F5 & _).
  apply same_eq.
  - by rewrite (leads_arrivals _ _ _ HL), reclosed_arrivals.
  - intros [H _]. by rewrite F4 in H.
  - by rewrite F5.
  - by rewrite F5.
Qed.

Lemma failed_same c c' i : arrivals c' = take i (arrivals c) ++ [Settled] -> conn_close c' = true -> input c' = NoInput -> same c c'.
Proof.
  intros Ha Hc Hi. apply same_shut.
  - intros j a. rewrite Ha. intros [H|[_ H]]%lookup_app_Some; [right; by apply lookup_take_Some in H as [? _]|left].
    by destruct (j - _)%nat as [|[]]; cbn in H; [injection H as <-|..].
  - intros [H _]. by rewrite Hc in H.
  - unfold pending. rewrite Ha. apply pending_snoc.
  - by rewrite Hi.
Qed.

Lemma fail_at_arrivals env i status c e f : ring_ok (ring c) -> shared_ok (shared c) -> seen c !! i = Some (e, f) ->
  let c' := fail_at conf env i status c in
  arrivals c' = take i (arrivals c) ++ [Settled] /\ conn_close c' = true /\ input c' = NoInput.
Proof.
  intros Hok Hsh Hi c'. destruct (fail_at_leads conf env i status c e f Hok Hsh Hi) as (r & _ & HL). fold c' in HL.
  destruct (leads_fields _ _ _ HL) as (_ & _ & _ & -> & -> & _).
  rewrite (leads_arrivals _ _ _ HL), reclosed_arrivals, fmap_app, fmap_take. done.
Qed.

Lemma answer_now_same env r status c c1 : ring_ok (ring c1) -> arrivals c1 = arrivals c -> (length (seen c1) < CAP)%nat ->
  same c (answer_now conf env r status c1).
Proof.
  intros Hok Hs Hn. pose proof (answer_now_leads conf env r status c1 Hok Hn) as HL.
  destruct (leads_fields _ _ _ HL) as (_ & _ & _ & F4 & F5 & _).
  pose proof (leads_arrivals _ _ _ HL) as Ha. rewrite reclosed_arrivals, fmap_app in Ha. fold (arrivals c1) in Ha. rewrite Hs in Ha. apply same_shut.
  - intros j a. rewrite Ha. intros [H|[_ H]]%lookup_app_Some; [by right|left].
    by destruct (j - _)%nat as [|[]]; cbn in H; [injection H as <-|..].
  - intros [H _]. by rewrite F4 in H.
  - unfold pending. rewrite Ha. apply pending_snoc.
  - by rewrite F5.
Qed.

Lemma eof_same env c base texts got : ring_ok (ring c) -> Forall (entry_ok conf) (seen c) -> Arrived c base texts got -> same c (eof conf env c).
Proof.
  intros Hok He HA. pose proof (eof_leads conf env c Hok) as HL. destruct (leads_fields _ _ _ HL) as (_ & _ & _ & F4 & F5 & _).
  pose proof (leads_arrivals _ _ _ HL) as Ha. rewrite reclosed_arrivals in Ha.
  assert (arrivals (eof conf env c) = arrivals c /\ pending c = None \/
    arrivals (eof conf env c) = take (length (arrivals c) - 1) (arrivals c) /\ exists f m q, arrivals c !! (length (arrivals c) - 1)%nat = Some (Arriving f m q)) as Hcase.
  { rewrite Ha. unfold without_body, pending, pending_in. destruct (last (seen c)) as [[e f]|] eqn:Hl.
    2: { left. apply last_None in Hl. unfold arrivals. by rewrite Hl. }
    assert (Hi := Hl). rewrite last_lookup, <- Nat.sub_1_r in Hi. pose proof (Forall_lookup_1 _ _ _ _ He Hi) as Hx.
    assert (last (arrivals c) = Some (arrival (e, f))) as Hla by (unfold arrivals; rewrite fmap_last, Hl; done).
    unfold entry_ok in Hx. cbn [fst snd] in Hx. destruct (stage e) as [fr cp m| | |] eqn:Hs; cbn [is_body].
    - right. destruct Hx as (_ & r & Hr & _). unfold arrivals. rewrite fmap_take, length_fmap. split; [done|]. exists fr, m, (received r).
      rewrite list_lookup_fmap, Hi. cbn. unfold arrival. cbn. by rewrite Hs, Hr.
    - left. split; [done|]. rewrite Hla. unfold arrival. cbn. rewrite Hs. by destruct (record e).
    - left. split; [done|]. rewrite Hla. unfold arrival. cbn. by rewrite Hs.
    - left. split; [done|]. rewrite Hla. unfold arrival. cbn. by rewrite Hs. }
  apply same_shut.
  - intros j a. destruct Hcase as [[-> _]|[-> _]]; [by right|]. intros [H _]%lookup_take_Some. by right.
  - intros [H _]. by rewrite F4 in H.
  - destruct Hcase as [[Heq Hp]|[Heq (f & m & q & Hlast)]]; [unfold pending; by rewrite Heq|].
    unfold pending, pending_in. rewrite Heq, last_lookup. destruct (take _ _ !! _) as [[|f' m' q'|]|] eqn:Hj; try done.
    apply lookup_take_Some in Hj as [Hj Hlt]. pose proof (arr_body _ _ _ _ HA _ _ _ _ Hj). pose proof (arr_body _ _ _ _ HA _ _ _ _ Hlast). lia.
  - by rewrite F5.
Qed.

Lemma resume_same env c : ring_ok (ring c) -> same c (resume_reading env c).
Proof.
  intros Hok. pose proof (resume_leads env c Hok) as HL. destruct (leads_fields _ _ _ HL) as (_ & _ & _ & F4 & F5 & _ & F7 & _).
  assert (conn_close (resumed env c) = conn_close c /\ input (resumed env c) = input c /\ taking (resumed env c) = taking c) as (G1 & G2 & G3).
  { unfold resumed. destruct (_ && _); [|done]. by destruct (head_since c). }
  apply same_eq.
  - rewrite (leads_arrivals _ _ _ HL). destruct (_ && _); [|done]. rewrite <- list_fmap_compose. apply list_fmap_ext. intros i [e f] _.
    unfold arrival, touch. cbn. destruct (stage e) eqn:Hs; cbn [is_body]; cbn; by rewrite Hs.
  - unfold is_open. by rewrite F4, F7, G1, G3.
  - by rewrite F5, G2.
  - by rewrite F5, G2.
Qed.

Lemma expire_same env c acc sent wire : ring_ok (ring c) -> Inv conf c (seen c) acc sent wire -> same c (expire conf env c).
Proof.
  intros Hok HI. unfold expire. set (c0 := match retry_read_at c with Some _ => _ | None => c end).
  assert (ring c0 = ring c /\ head_since c0 = head_since c /\ shared c0 = shared c /\ conn_close c0 = conn_close c /\ taking c0 = taking c /\ input c0 = input c)
    as (Hr & Hh & Hsh & Hcl & Htk & Hin).
  { unfold c0. destruct (retry_read_at c); [destruct (_ <=? _)|]; done. }
  assert (arrivals c0 = arrivals c) as Hs by (unfold arrivals, seen; by rewrite Hr).
  assert (forall c', ring c' = ring c0 -> taking c' = taking c -> (conn_close c' = false -> conn_close c = false) -> input c' = input c -> same c c') as Hstay.
  { intros c' H1 H2 H3 H4. apply same_eq; [unfold arrivals, seen; by rewrite H1, Hr|unfold is_open; rewrite H2; naive_solver|by rewrite H4|by rewrite H4]. }
  destruct (bool_decide _ && _); [apply Hstay; cbn; congruence|].
  destruct (idle c0 && _ && _); [apply Hstay; cbn; congruence|].
  destruct (negb (held env) && _) eqn:Htimeout.
  - destruct (head_since c) as [since|] eqn:Hhs; [|rewrite Hh in Htimeout; by rewrite andb_false_r in Htimeout].
    pose proof (inv_head _ _ _ _ _ _ HI ltac:(by rewrite Hhs)) as Hlen. pose proof (max_pipelined_cap conf) as Hcap.
    set (c1 := set_input _ (set_head_since None c0)).
    set (pick := match next c1 with Some record => (record, set_next None c1) | None => _ end).
    assert (ring pick.2 = ring c) as Hp.
    { unfold pick. destruct (next c1); [done|]. by destruct (take_record conf (shared c1)). }
    destruct pick as [r c2]. cbn [snd] in Hp. assert (seen c2 = seen c) as Hs2 by (unfold seen; by rewrite Hp).
    apply answer_now_same; [by rewrite Hp|unfold arrivals; by rewrite Hs2|rewrite Hs2; lia].
  - destruct (first_expired conf env 0 (HttpRing.len (ring c0)) (ring c0)) as [[i status]|] eqn:Hf; [|apply Hstay; congruence].
    apply first_expired_some in Hf as (Hi & e0 & He & Hx). assert (ring_ok (ring c0)) as Hok0 by (by rewrite Hr).
    destruct (lookup_lt_is_Some_2 (seen c0) i) as [[e f] Hie]; [rewrite seen_length by done; lia|].
    destruct (fail_at_arrivals env i status c0 e f Hok0 ltac:(rewrite Hsh; apply HI) Hie) as (H1 & H2 & H3).
    rewrite Hs in H1. by apply (failed_same c _ i).
Qed.

Lemma starts_arrivals v : Forall (entry_ok conf) v -> forall is_first all_safe i a,
  (arrival <$> starts is_first all_safe v) !! i = Some a ->
  (a = Settled /\ exists q, (arrival <$> v) !! i = Some (Whole q)) \/ (arrival <$> v) !! i = Some a.
Proof.
  induction 1 as [|x v Hx _ IH]; intros is_first all_safe [|i] a; cbn [starts fmap list_fmap]; [done|done| |apply IH].
  intros [= <-]. destruct (_ && _) eqn:Hw; [|by right]. apply andb_prop in Hw as [Hw _]. left.
  destruct x as [e f]. unfold entry_ok in Hx. cbn [fst snd] in *. destruct (stage e) eqn:Hs; try done.
  destruct Hx as (-> & r & Hr & _). unfold start_seen. cbn [fst]. rewrite Hr. split; [done|]. exists (received r). cbn. unfold arrival. cbn. by rewrite Hs, Hr.
Qed.

Lemma starts_length v : forall is_first all_safe, length (starts is_first all_safe v) = length v.
Proof. induction v as [|x v IH]; intros; cbn [starts length]; [done|]. by rewrite IH. Qed.

Lemma start_same c acc sent wire : ring_ok (ring c) -> live c -> Inv conf c (seen c) acc sent wire -> same c (start_runnable c).
Proof.
  intros Hok Hl HI. pose proof (start_leads c Hok Hl (waiting_idle conf _ (inv_entries _ _ _ _ _ _ HI))) as HL.
  destruct (leads_fields _ _ _ HL) as (_ & _ & _ & F4 & F5 & _ & F7 & _). pose proof (leads_arrivals _ _ _ HL) as Ha.
  assert (length (arrivals (start_runnable c)) = length (arrivals c)) as Hlen.
  { rewrite Ha. unfold arrivals. by rewrite !length_fmap, starts_length. }
  assert (pending (start_runnable c) = pending c) as Hp.
  { unfold pending, pending_in. rewrite !last_lookup, Hlen. destruct (arrivals (start_runnable c) !! _) as [a|] eqn:H1.
    - rewrite Ha in H1. destruct (starts_arrivals _ (inv_entries _ _ _ _ _ _ HI) _ _ _ _ H1) as [(-> & q & H2)|H2]; fold (arrivals c) in H2; by rewrite H2.
    - apply lookup_ge_None in H1. rewrite Hlen in H1. by rewrite (proj2 (lookup_ge_None _ _) H1). }
  split; [|unfold is_open; rewrite F4, F7; by intros ?|by right|by rewrite F5|by rewrite F5].
  intros i a. rewrite Ha. intros [(-> & _)|H]%starts_arrivals; [by left|by right|apply HI].
Qed.

Lemma complete_same env i e r c : ring_ok (ring c) -> seen c !! i = Some (e, None) -> stage e = Running ->
  same c (complete conf env (HttpRing.position (ring c) i) r c).
Proof.
  intros Hok Hi Hs. destruct (complete_leads conf env i e r c Hok Hi) as (close & HL & _). cbv zeta in HL.
  set (c' := complete _ _ _ _ _) in *. set (r' := driver_serialize conf env r close) in *.
  destruct (leads_fields _ _ _ HL) as (_ & _ & _ & F4 & F5 & _ & F7 & _). pose proof (leads_arrivals _ _ _ HL) as Ha.
  assert (arrival <$> <[i := (done_entry e (with_charge r' 0) (charge r'), None)]> (seen c) = arrivals c) as Heq.
  { unfold arrivals. rewrite list_fmap_insert. apply list_insert_id. rewrite list_lookup_fmap, Hi. cbn. unfold arrival. cbn. by rewrite Hs. }
  unfold closes in *. destruct (HttpRecord.close r' || _) eqn:Hc; cbn [conn_close input taking set_conn_close set_taking] in *.
  - rewrite fmap_take, Heq in Ha. apply same_shut.
    + intros j a. rewrite Ha. intros [H _]%lookup_take_Some. by right.
    + intros [H1 H2]. rewrite F4 in H1. rewrite F7 in H2. apply orb_false_iff in H1 as [_ H1], H2 as [_ H2]. by rewrite H1, H2 in Hc.
    + assert (arrivals c !! i = Some Settled) as Hai by (unfold arrivals; rewrite list_lookup_fmap, Hi; cbn; unfold arrival; cbn; by rewrite Hs).
      unfold pending. rewrite Ha. erewrite take_S_r by exact Hai. apply pending_snoc.
    + by rewrite F5.
  - rewrite Heq in Ha. apply same_eq; [done|unfold is_open; by rewrite F4, F7|by rewrite F5|by rewrite F5].
Qed.

Lemma drain_arrived env outs : forall c acc sent wire base texts got, settings_ok conf -> env_ok env -> ring_ok (ring c) -> outs_ok c outs ->
  live_but (fun j => j ∈ outs.*1) (ring c) -> Inv conf c (eff outs (seen c)) acc sent wire -> Arrived c base texts got ->
  Arrived (drain_loop conf env (reverse ((fun o => (HttpRing.position (ring c) o.1, o.2)) <$> outs)) c) base texts got.
Proof.
  induction outs as [|[i r] outs IH] using rev_ind; intros c acc sent wire base texts got Hset Henv Hok Ho Hl HI HA; [done|].
  rewrite fmap_app, reverse_app. cbn [fmap list_fmap reverse rev_append app fst snd drain_loop].
  destruct (complete_inv conf Hset env c outs i r acc sent wire Henv Hok Ho Hl HI) as (A & B & C & D & E & F & G & K).
  destruct Ho as [_ Hrun]. destruct (Hrun (i, r)) as (e & Hi & Hst); [apply elem_of_app; right; by apply list_elem_of_singleton|].
  pose proof (same_arrived _ _ _ _ _ (complete_same env i e r c Hok Hi Hst) HA) as HA1.
  set (c1 := complete conf env (HttpRing.position (ring c) i) r c) in *. specialize (IH c1 acc sent wire base texts got Hset Henv A B C D HA1).
  assert ((fun o : nat * RequestRecord => (HttpRing.position (ring c1) o.1, o.2)) <$> outs = (fun o => (HttpRing.position (ring c) o.1, o.2)) <$> outs) as Hpos.
  { apply list_fmap_ext. intros j o _. by rewrite (position_head _ _ _ F). }
  by rewrite Hpos in IH.
Qed.

(** ** The operations that take octets in *)

Lemma pending_last c e framing continue_pending m r : last (seen c) = Some (e, None) -> stage e = Body framing continue_pending m -> record e = Some r ->
  pending c = Some (framing, m, received r).
Proof. intros Hl Hs Hr. unfold pending, pending_in, arrivals. rewrite fmap_last, Hl. cbn. unfold arrival. cbn. by rewrite Hs, Hr. Qed.

Lemma insert_last {A} (l : list A) i x : l <> [] -> i = (length l - 1)%nat -> last (<[i := x]> l) = Some x.
Proof.
  intros Hl ->. rewrite last_lookup, <- Nat.sub_1_r, length_insert. apply list_lookup_insert_eq.
  destruct l; [done|]. cbn [length]. lia.
Qed.

Lemma feed_arrived env c acc sent wire base texts got : ring_ok (ring c) -> Inv conf c (seen c) acc sent wire ->
  body_pending (ring c) = true -> tail (input c) <> [] -> Arrived c base texts got ->
  let '(c', fed) := feed_body conf env c in
  match fed with
  | Reject _ => take (length (arrivals c) - 1) (arrivals c') = take (length (arrivals c) - 1) (arrivals c) /\
      length (arrivals c') = length (arrivals c)
  | _ => exists texts', texts `prefix_of` texts' /\ Arrived c' base texts' got
  end.
Proof.
  intros Hok HI Hbp Ht HA. destruct (pending_entry conf c acc sent wire Hok HI Hbp) as (e & framing & cp & m & r & Hl & Hi & Hs & Hr & _).
  pose proof (feed_body_leads conf env c e None framing cp m r Hok Hl Hs Hr Ht) as HL.
  pose proof (pending_last c e framing cp m r Hl Hs Hr) as Hp.
  destruct (arr_stream _ _ _ _ HA) as (rest & Hgot & Hstream). destruct (Hstream ltac:(right; by rewrite Hp)) as (cur & -> & Hcur).
  unfold current in Hcur. rewrite Hp in Hcur. pose proof (pending_at _ _ _ _ Hp) as Hai.
  assert (let '(e', n, _, fed) := feed conf env e framing m r (tail (input c)) in
    (n <= length (tail (input c)))%nat /\ fed_ok m (cur ++ take n (tail (input c))) e' fed) as Hf.
  { destruct framing as [remaining|d]; [|by apply feed_chunked]. pose proof (feed_length env e remaining m r _ _ Hcur Ht) as H.
    destruct (feed _ _ _ _ _ _ _) as [[[e' n] k] fed]. destruct H as [? ?]. split; [lia|done]. }
  destruct (feed conf env e framing m r (tail (input c))) as [[[e' n] k] fed]. destruct Hf as (Hn & r' & Hr' & Hst).
  destruct (feed_body conf env c) as [c' fed']. destruct HL as [HL Hfed]. cbn [fst snd] in HL, Hfed. subst fed'.
  pose proof (leads_arrivals _ _ _ HL) as Ha. destruct (leads_fields _ _ _ HL) as (_ & _ & _ & F4 & F5 & _ & F7 & _).
  cbn [conn_close input taking set_input] in F4, F5, F7. rewrite list_fmap_insert in Ha. fold (arrivals c) in Ha.
  assert (length (arrivals c) = length (seen c)) as Hlen by (unfold arrivals; by rewrite length_fmap). rewrite <- Hlen in Ha.
  set (i := (length (arrivals c) - 1)%nat) in *.
  assert (arrivals c <> []) as Hne by (intros Hn0; by rewrite Hn0 in Hai).
  assert (length (arrivals c') = length (arrivals c)) as Hlen' by (by rewrite Ha, length_insert).
  assert (i < length (arrivals c))%nat as Hil by (by apply lookup_lt_Some in Hai).
  destruct (consume_tail (input c) n (arr_input _ _ _ _ HA) Hn) as [Hok' Ht']. rewrite <- F5 in Hok', Ht'.
  assert (got = concat texts ++ (cur ++ take n (tail (input c))) ++ tail (input c')) as Hgot'.
  { rewrite Ht', Hgot, <- app_assoc, take_drop. done. }
  assert (is_open c' -> (base + length (arrivals c') = S (length texts))%nat) as Hopen.
  { rewrite Hlen'. unfold is_open. rewrite F4, F7. intros Ho. pose proof (arr_open _ _ _ _ HA Ho) as H. rewrite Hp in H. lia. }
  assert (forall j a, arrivals c' !! j = Some a -> j <> i -> arrivals c !! j = Some a) as Hother.
  { intros j a. rewrite Ha. intros Hj Hne'. by rewrite list_lookup_insert_ne in Hj. }
  pose proof (arr_body _ _ _ _ HA _ _ _ _ Hai) as Hbi.
  assert (match fed with Reject _ => False | _ => True end -> exists texts', texts `prefix_of` texts' /\ Arrived c' base texts' got) as Hmain.
  2: { destruct fed as [| |status]; [by apply Hmain..|]. split; [|done]. rewrite Ha. by rewrite take_insert_ge by lia. }
  intros Hfed. destruct (stage e') as [f' cp' m'| | |] eqn:Hs'; [| |by destruct fed..].
  - assert (m' = m /\ partly f' m' (received r') (cur ++ take n (tail (input c)))) as [-> Hpart] by (destruct fed; [exact Hst|exact Hst|destruct Hfed]).
    assert (arrival (e', None) = Arriving f' m (received r')) as Hx by (unfold arrival; cbn; by rewrite Hs', Hr').
    assert (pending c' = Some (f', m, received r')) as Hp' by (unfold pending, pending_in; by rewrite Ha, Hx, insert_last by done).
    exists texts. split; [done|]. split; [| | | |done|apply HA].
    + intros j q Hj. destruct (decide (j = i)) as [->|Hji]; [|by apply HA, Hother].
      rewrite Ha, Hx, list_lookup_insert_eq in Hj by done. done.
    + intros j f m0 q Hj. destruct (decide (j = i)) as [->|Hji]; [done|]. eapply HA. by apply Hother.
    + rewrite Hp'. intros Ho. rewrite Hopen by done. lia.
    + eexists. split; [exact Hgot'|]. intros _. eexists. split; [done|]. unfold current. by rewrite Hp'.
  - assert (whole (cur ++ take n (tail (input c))) (received r')) as Hw by (by destruct fed).
    assert (arrival (e', None) = Whole (received r')) as Hx by (unfold arrival; cbn; by rewrite Hs', Hr').
    assert (pending c' = None) as Hp' by (unfold pending, pending_in; by rewrite Ha, Hx, insert_last by done).
    exists (texts ++ [cur ++ take n (tail (input c))]). split; [by apply prefix_app_r|].
    split; [| | | |done|apply Forall_app_2; [apply HA|apply Forall_singleton; by eexists]].
    + intros j q Hj. destruct (decide (j = i)) as [->|Hji].
      * rewrite Ha, Hx, list_lookup_insert_eq in Hj by done. injection Hj as <-. eexists. split; [|exact Hw]. rewrite Hbi.
        rewrite lookup_app_r by lia. by rewrite Nat.sub_diag.
      * destruct (arr_whole _ _ _ _ HA j q (Hother _ _ Hj Hji)) as (t & Htx & Hwt). exists t. split; [|done].
        rewrite lookup_app_l; [done|by apply lookup_lt_Some in Htx].
    + intros j f m0 q Hj. destruct (decide (j = i)) as [->|Hji].
      * rewrite Ha, Hx, list_lookup_insert_eq in Hj by done. done.
      * pose proof (arr_body _ _ _ _ HA _ _ _ _ (Hother _ _ Hj Hji)). lia.
    + rewrite Hp', length_app. cbn. intros Ho. rewrite Hopen by done. lia.
    + exists (tail (input c')). split; [rewrite Hgot', concat_app; cbn; by rewrite app_nil_r, <- !app_assoc|].
      intros _. exists []. split; [done|]. unfold current. by rewrite Hp'.
Qed.

Lemma push_arrived c c' base texts got a t : is_open c -> pending c = None -> Arrived c base texts got ->
  arrivals c' = arrivals c ++ [a] -> tail (input c) = t ++ tail (input c') -> input_ok (input c') ->
  match a with Settled => False | Arriving f m q => partly f m q t | Whole q => whole t q end ->
  exists texts', texts `prefix_of` texts' /\ Arrived c' base texts' got.
Proof.
  intros Ho Hp HA Ha Ht Hok Hx. pose proof (arr_open _ _ _ _ HA Ho) as Hl. rewrite Hp, Nat.add_0_r in Hl.
  destruct (arr_stream _ _ _ _ HA) as (rest & -> & Hs). destruct (Hs ltac:(by left)) as (cur & -> & Hcur). unfold current in Hcur.
  rewrite Hp in Hcur. subst cur. cbn [app].
  assert (pending c' = match a with Arriving f m q => Some (f, m, q) | _ => None end) as Hp' by (unfold pending; rewrite Ha; apply pending_snoc).
  assert (forall j b, arrivals c' !! j = Some b -> arrivals c !! j = Some b \/ (j = length (arrivals c) /\ b = a)) as Hsplit.
  { intros j b. rewrite Ha. intros [[_ H]|[-> ->]]%lookup_snoc_Some; [by left|by right]. }
  assert (forall j f m q, arrivals c !! j = Some (Arriving f m q) -> False) as Hnone.
  { intros j f m q Hj. pose proof (arr_body _ _ _ _ HA _ _ _ _ Hj). apply lookup_lt_Some in Hj. lia. }
  destruct a as [|f m q|q]; [done| |].
  - exists texts. split; [done|]. split; [| | | |done|apply HA].
    + intros j q' [H|[_ H]]%Hsplit; [by apply HA|done].
    + intros j f' m' q' [H|[-> _]]%Hsplit; [by apply Hnone in H|done].
    + intros _. rewrite Hp', Ha, length_app. cbn. lia.
    + eexists. split; [done|]. intros _. exists t. split; [done|]. unfold current. by rewrite Hp'.
  - exists (texts ++ [t]). split; [by apply prefix_app_r|]. split; [| | | |done|apply Forall_app_2; [apply HA|apply Forall_singleton; by eexists]].
    + intros j q' [H|[-> [= ->]]]%Hsplit.
      * destruct (arr_whole _ _ _ _ HA j q' H) as (t' & Htx & Hw). exists t'. split; [|done].
        rewrite lookup_app_l; [done|by apply lookup_lt_Some in Htx].
      * exists t. split; [|done]. rewrite Hl, lookup_app_r by lia. by rewrite Nat.sub_diag.
    + intros j f' m' q' [H|[_ H]]%Hsplit; [by apply Hnone in H|done].
    + intros _. rewrite Hp', Ha, !length_app. cbn. lia.
    + exists (tail (input c')). split; [rewrite concat_app, Ht; cbn; by rewrite app_nil_r, <- app_assoc|].
      intros _. exists []. split; [done|]. unfold current. by rewrite Hp'.
Qed.

Lemma accept_arrived env r0 h c0 c base texts got table table' : ring_ok (ring c) -> (length (seen c) < CAP)%nat ->
  is_open c -> pending c = None -> Arrived c base texts got ->
  ring c0 = ring c -> input c0 = input c ->
  received r0 = MkReceived [] table' None [] [] None false false ->
  parse_request (tail (input c)) table (limits conf) = (table', Complete h) ->
  exists texts', texts `prefix_of` texts' /\ Arrived (accept conf env r0 h c0) base texts' got.
Proof.
  intros Hok Hn Ho Hp HA Hr Hin Hq Hparse.
  apply parse_request_complete in Hparse as (rt & v & more & Hrok & Ht & -> & Hc & Hl). set (text := request_text rt) in *.
  unfold accept. cbn [input set_requests]. rewrite Hin.
  assert (default [] (get_to (head_len h) (tail (input c))) = text) as ->.
  { unfold get_to. rewrite Ht, length_app, decide_True by lia. cbn. by rewrite Hl, take_app_length. }
  set (r := taken_in conf r0 h text). set (q := received r).
  assert (request_head text h q) as Hh.
  { unfold q, r, taken_in. cbn. rewrite Hq. split; cbn; [|done|done|done]. exists rt, v, table. done. }
  assert (HttpRecord.body q = [] /\ HttpRecord.trailers q = []) as [Hbody Htr] by (unfold q, r, taken_in; cbn; by rewrite Hq).
  destruct (consume_tail (input c) (head_len h) (arr_input _ _ _ _ HA)) as [Hok' Ht']; [rewrite Ht, length_app; lia|].
  set (c2 := set_input _ _). set (c3 := if _ || _ then set_conn_close true c2 else c2).
  assert (ring c3 = ring c /\ input c3 = input_consume (input c) (head_len h)) as [Hr3 Hi3] by (unfold c3; by destruct (_ || _)).
  assert (seen c3 = seen c) as Hs3 by (unfold seen; by rewrite Hr3).
  assert (forall status, exists texts', texts `prefix_of` texts' /\ Arrived (answer_now conf env r status c3) base texts' got) as Hans.
  { intros status. exists texts. split; [done|]. eapply same_arrived; [|exact HA].
    apply answer_now_same; [by rewrite Hr3|unfold arrivals; by rewrite Hs3|by rewrite Hs3]. }
  assert (forall s, match arrival (Entry_new r s (now env), None) with Settled => False | Arriving f m q => partly f m q text | Whole q => whole text q end ->
    exists texts', texts `prefix_of` texts' /\ Arrived (push_entry (Entry_new r s (now env)) c3) base texts' got) as Hpush.
  { intros s Hx. destruct (push_leads c3 (Entry_new r s (now env))) as [HL _]; [by rewrite Hr3|done|by rewrite Hs3|].
    destruct (leads_fields _ _ _ HL) as (_ & _ & _ & _ & F5 & _). eapply push_arrived; [exact Ho|exact Hp|exact HA| | | |exact Hx].
    - rewrite (leads_arrivals _ _ _ HL), fmap_app, Hs3. done.
    - rewrite F5, Hi3, Ht', Ht, Hl, drop_app_length. done.
    - by rewrite F5, Hi3. }
  assert (whole text q -> exists texts', texts `prefix_of` texts' /\ Arrived (push_entry (Entry_new r Waiting (now env)) c3) base texts' got) as Hwait
    by (intros Hw; by apply Hpush).
  assert (framed h [] q -> whole text q) as Hnil.
  { intros Hf. exists text, h, []. rewrite app_nil_r. split; [done|]. split; [done|]. split; [done|]. by left. }
  destruct (expect h); [| |apply Hans].
  all: destruct (H1Head.body h) as [|n|] eqn:Hb.
  1,4: apply Hwait, Hnil; unfold framed; by rewrite Hb.
  1,3: destruct (Z.eqb_spec n 0) as [->|Hnz]; [apply Hwait, Hnil; unfold framed; by rewrite Hb, Hbody|];
    destruct (Z.ltb_spec (body_limit conf r h) n) as [|Hle]; [apply Hans|]; apply Hpush; change (partly (FramingLength n) (body_limit conf r h) q text).
  1,2: exists text, h, []; rewrite app_nil_r; (split; [done|]); (split; [exact Hh|]); (split; [done|]); (split; [exact Htr|]);
    rewrite Hb; unfold Prelude.len; cbn; (split; [done|]); (split; [exact Hbody|]); pose proof (concluded_length _ _ _ _ _ Hc Hb); unfold body_limit in Hle; fold q in Hle; split; [lia|]; exact Hle.
  all: apply Hpush; change (partly (FramingChunked H1Chunked.new) (body_limit conf r h) q text); exists text, h, []; rewrite app_nil_r; (split; [done|]); (split; [exact Hh|]); (split; [done|]); (split; [exact Htr|]);
    (split; [done|]); unfold within; rewrite Hbody; (split; [apply H1Body.brings_nil|by left]).
Qed.

Lemma parse_arrived env c acc sent wire base texts got : ring_ok (ring c) -> Inv conf c (seen c) acc sent wire ->
  is_open c -> pending c = None -> (length (seen c) < max_pipelined conf)%nat -> Arrived c base texts got ->
  exists texts', texts `prefix_of` texts' /\ Arrived (parse_head conf env c).1 base texts' got.
Proof.
  intros Hok HI Ho Hp Hn HA. pose proof (max_pipelined_cap conf) as Hcap. unfold parse_head.
  set (pick := match next c with Some record => (record, c) | None => _ end).
  assert (exists r c1, pick = (r, c1) /\ fresh r /\ ring c1 = ring c /\ input c1 = input c /\ conn_close c1 = conn_close c /\ taking c1 = taking c)
    as (r & c1 & -> & Hf & Hr & Hin & Hcl & Htk).
  { unfold pick. destruct (next c) as [r|] eqn:Hnx; [exists r, c; split; [done|split; [by eapply (inv_next _ _ _ _ _ _ HI)|done]]|].
    pose proof (take_record_ok conf (shared c) (inv_shared _ _ _ _ _ _ HI)) as Ht. destruct (take_record conf (shared c)) as [r s'].
    destruct Ht as (Hf & _). by exists r, (set_shared s' c). }
  rewrite Hin. destruct (parse_request (tail (input c)) _ _) as [table status] eqn:Hpr.
  assert (received (with_fields r table) = MkReceived [] table None [] [] None false false) as Hrec.
  { destruct Hf as (_ & _ & _ & Hf). cbn. rewrite Hf. done. }
  assert (arrivals c1 = arrivals c) as Ha by (unfold arrivals, seen; by rewrite Hr).
  destruct status as [h| |reject]; cbn [fst].
  - eapply (accept_arrived env _ h _ c); [done|lia|done|done|exact HA|done|exact Hin|exact Hrec|exact Hpr].
  - exists texts. split; [done|]. eapply same_arrived; [|exact HA]. apply same_eq; [exact Ha|unfold is_open; cbn; by rewrite Hcl, Htk|cbn; by rewrite Hin..].
  - exists texts. split; [done|]. eapply same_arrived; [|exact HA]. apply answer_now_same; [by cbn; rewrite Hr|exact Ha|].
    change (seen (set_head_since None (set_next None c1))) with (seen c1). unfold seen. rewrite Hr. fold (seen c). lia.
Qed.

Lemma not_pending c : ring_ok (ring c) -> body_pending (ring c) = false -> pending c = None.
Proof.
  intros Hok Hb. rewrite body_pending_seen in Hb by done. unfold pending, pending_in, arrivals. rewrite fmap_last.
  destruct (last (seen c)) as [[e f]|]; [|done]. cbn. unfold arrival. cbn. by destruct (stage e), (record e).
Qed.

Lemma process_arrived env fuel : forall c acc sent wire base texts got, settings_ok conf -> env_ok env -> ring_ok (ring c) ->
  Inv conf c (seen c) acc sent wire -> Arrived c base texts got ->
  exists texts', texts `prefix_of` texts' /\ Arrived (process_loop conf fuel env c) base texts' got.
Proof.
  induction fuel as [|fuel IH]; intros c acc sent wire base texts got Hset Henv Hok HI HA; cbn [process_loop].
  { by exists texts. }
  destruct (input_is_empty (input c)) eqn:Hin; [by exists texts|].
  unfold input_is_empty in Hin. apply bool_decide_eq_false in Hin.
  destruct (body_pending (ring c)) eqn:Hbp.
  - pose proof (feed_inv conf env c acc sent wire Hok HI Hbp Hin) as Hf. pose proof (feed_arrived env c acc sent wire base texts got Hok HI Hbp Hin HA) as Hfa.
    destruct (feed_body conf env c) as [c1 fed]. destruct Hf as (Ht & _ & _ & _ & Hrej).
    pose proof (took_inv _ _ _ _ _ _ _ Ht) as HI1. rewrite app_nil_r in HI1. destruct fed as [| |status].
    + destruct Hfa as (texts1 & Hp1 & HA1). destruct (IH c1 acc sent wire base texts1 got Hset Henv (took_ring _ _ _ _ _ _ _ Ht) HI1 HA1) as (texts2 & Hp2 & HA2).
      exists texts2. split; [by etrans|done].
    + exact Hfa.
    + exists texts. split; [done|]. eapply same_arrived; [|exact HA]. destruct (Hrej status eq_refl) as (e & f & Hi & Hd).
      destruct Hfa as [Htake Hlen]. assert (length (arrivals c1) = length (seen c1)) as Hl by (unfold arrivals; by rewrite length_fmap).
      assert (HttpRing.len (ring c1) - 1 = length (seen c1) - 1)%nat as -> by (by rewrite seen_length by apply Ht).
      destruct (fail_at_arrivals env (length (seen c1) - 1) status c1 e f (took_ring _ _ _ _ _ _ _ Ht) (inv_shared _ _ _ _ _ _ HI1) Hi) as (A & B & C).
      apply (failed_same _ _ (length (arrivals c) - 1)); [|done|done]. by rewrite A, <- Hl, Hlen, Htake.
  - destruct (taking c || upgrade_pending (ring c)) eqn:Htk; [by exists texts|]. apply orb_false_iff in Htk as [Htk _].
    pose proof (not_pending c Hok Hbp) as Hp. destruct (conn_close c) eqn:Hcl.
    { exists texts. split; [done|]. eapply same_arrived; [|exact HA]. apply same_shut; [by right|unfold is_open; cbn; rewrite Hcl; by intros [? _]|exact Hp|].
      cbn. by destruct (input c). }
    destruct (_ || held env) eqn:Hstop; [by exists texts|]. apply orb_false_iff in Hstop as [Hn _]. apply Nat.leb_gt in Hn.
    rewrite <- seen_length in Hn by done.
    destruct (parse_inv conf Hset env c acc sent wire Henv Hok HI Hcl Hn) as [new1 H1].
    destruct (parse_arrived env c acc sent wire base texts got Hok HI ltac:(by split) Hp Hn HA) as (texts1 & Hp1 & HA1).
    destruct (parse_head conf env c) as [c1 go]. cbn [fst] in H1, HA1. destruct go; [|by exists texts1].
    destruct (IH c1 (acc ++ new1) sent wire base texts1 got Hset Henv (took_ring _ _ _ _ _ _ _ H1) (took_inv _ _ _ _ _ _ _ H1) HA1) as (texts2 & Hp2 & HA2).
    exists texts2. split; [by etrans|done].
Qed.

(** ** A turn *)

Lemma arrivals_entries c c' : (seen c).*1 = (seen c').*1 -> arrivals c = arrivals c'.
Proof.
  intros H. assert (forall d, arrivals d = (fun e => arrival (e, None)) <$> (seen d).*1) as Ha.
  { intros d. unfold arrivals. rewrite <- list_fmap_compose. by apply list_fmap_ext. }
  by rewrite !Ha, H.
Qed.

Lemma same_plain c c' : ring c' = ring c -> input c' = input c -> conn_close c' = conn_close c -> taking c' = taking c -> same c c'.
Proof.
  intros Hr Hi Hc Ht. apply same_eq; [unfold arrivals, seen; by rewrite Hr|unfold is_open; by rewrite Hc, Ht|by rewrite Hi|by rewrite Hi].
Qed.

Lemma drained_arrived env c0 c outs n acc sent wire base texts got : settings_ok conf -> env_ok env ->
  polling conf c0 c outs n acc sent wire -> Arrived c0 base texts got -> Arrived (drain_completed conf env c) base texts got.
Proof.
  intros Hset Henv HP HA. pose proof (polling_frame _ _ _ _ _ _ _ _ HP) as Hf. pose proof (polling_entries _ _ _ _ _ _ _ _ HP) as He.
  destruct HP as [Hok Hh _ Hd Ho Hb Hl HI _ _]. unfold drain_completed. rewrite Hd.
  set (c1 := set_completed [] c). apply (drain_arrived env outs c1 acc sent wire base texts got Hset Henv Hok); [by destruct Ho|exact Hl| |].
  - eapply inv_fields; [exact HI|done|done|apply HI|apply HI|apply HI].
  - eapply same_arrived; [|exact HA]. apply same_eq; [by apply arrivals_entries| |change (tail (input c) = tail (input c0)); by rewrite Hf|change (input c1) with (input c); by rewrite Hf].
    unfold is_open. change (conn_close c1) with (conn_close c). change (taking c1) with (taking c). by rewrite Hf.
Qed.

(** Responses leave from the head of the ring. *)
Lemma popped_arrived c c' n base texts got : Arrived c base texts got -> (n <= length (arrivals c))%nat ->
  (forall i a, (i < n)%nat -> arrivals c !! i = Some a -> a = Settled) ->
  arrivals c' = drop n (arrivals c) -> input c' = input c -> conn_close c' = conn_close c -> taking c' = taking c ->
  Arrived c' (base + n) texts got.
Proof.
  intros [Aw Ab Ao (rest & Hg & As) Ai At] Hn Hdone Ha Hi Hc Ht.
  assert (pending c' = pending c) as Hp.
  { unfold pending, pending_in. rewrite Ha. destruct (decide (n = length (arrivals c))) as [->|Hne].
    - rewrite drop_ge by done. cbn. rewrite last_lookup, <- Nat.sub_1_r. destruct (arrivals c !! _) as [a|] eqn:Hl; [|done].
      assert (Hl' := Hl). apply lookup_lt_Some in Hl'. by rewrite (Hdone _ a Hl' Hl).
    - rewrite !last_lookup, length_drop, lookup_drop. by replace (n + Nat.pred (length (arrivals c) - n))%nat with (Nat.pred (length (arrivals c))) by lia. }
  split.
  - intros i q. rewrite Ha, lookup_drop. intros H. destruct (Aw _ _ H) as (t & ? & ?). exists t. by rewrite <- Nat.add_assoc.
  - intros i f m q. rewrite Ha, lookup_drop, <- Nat.add_assoc. apply Ab.
  - unfold is_open. rewrite Hc, Ht, Hp, Ha, length_drop. intros Ho. rewrite <- Ao by done. lia.
  - exists rest. split; [done|]. unfold flowing, is_open, current. by rewrite Hc, Ht, Hp, Hi.
  - by rewrite Hi.
  - done.
Qed.

Lemma continue_arrivals c : ring_ok (ring c) -> let c' := change_entry (HttpRing.position (ring c) 0) continue_written c in
  arrivals c' = arrivals c /\ c' = set_ring (ring c') c.
Proof.
  intros Hok c'. split; [|unfold c', change_entry; by destruct c]. destruct (seen c !! 0%nat) as [[e f]|] eqn:Hi.
  - pose proof (change_leads c 0 e f continue_written Hok Hi) as HL. specialize (HL ltac:(intros e0 s; by destruct e0 as [[?|] [? ? ?| | |] ? ? ? ? ? ?])).
    fold c' in HL. rewrite (leads_arrivals _ _ _ HL). unfold arrivals. rewrite list_fmap_insert. apply list_insert_id.
    rewrite list_lookup_fmap, Hi. cbn. f_equal. by destruct e as [[?|] [? ? ?| | |] ? ? ? ? ? ?].
  - assert (entry (ring c) (HttpRing.position (ring c) 0) = None) as He by (apply seen_none; [done|vm_compute; lia|done]).
    unfold c', change_entry, modify_entry. rewrite He. by destruct c.
Qed.

Lemma wrote_arrived now_ n c acc sent wire base texts got : settled conf c acc sent wire -> Arrived c base texts got ->
  Arrived (wrote now_ n c) (base + popped n c) texts got.
Proof.
  intros [Hok Hl HI Hd] HA. unfold wrote, popped. destruct (writing c) as [w|] eqn:Hw; [|by rewrite Nat.add_0_r].
  destruct (_ <? total w); [rewrite Nat.add_0_r; eapply same_arrived; [|exact HA]; by apply same_plain|].
  destruct (inv_write _ _ _ _ _ _ HI w Hw) as (W1 & W2 & _ & _ & W5 & _).
  set (c1 := set_writing None (set_sent_at now_ c)). change (ring (set_writing None (set_sent_at now_ c))) with (ring c).
  assert (forall c', Arrived c' (base + count w) texts got -> Arrived (if HttpRing.is_empty (ring c') then set_idle_since now_ c' else c') (base + count w) texts got) as Hidle.
  { intros c' HA'. destruct (HttpRing.is_empty _); [|done]. eapply same_arrived; [|exact HA']; by apply same_plain. }
  destruct (prefix w).
  - rewrite W5 by done. cbn [pop_batch]. destruct (continue_arrivals c1 Hok) as [Ha Hf]. change (ring c1) with (ring c) in Ha, Hf.
    set (c2 := change_entry _ _ c1) in *. rewrite W5 in Hidle by done. apply Hidle. rewrite Nat.add_0_r. eapply same_arrived; [|exact HA].
    apply same_eq; [exact Ha|by rewrite Hf|by rewrite Hf|by rewrite Hf].
  - pose proof (pop_batch_leads (count w) c1 false Hok Hl W1) as Hpop. destruct (pop_batch (count w) c1 false) as [c3 closed].
    destruct Hpop as (t & Ok3 & S3 & _ & Lv3 & F3 & Hcl).
    assert (Arrived c3 (base + count w) texts got) as HA3.
    { apply (popped_arrived c); [done|unfold arrivals; rewrite length_fmap; lia| |unfold arrivals; by rewrite S3, fmap_drop|by rewrite F3..].
      intros i a Hi. unfold arrivals. rewrite list_lookup_fmap. destruct (seen c !! i) as [x|] eqn:Hx; [|done]. intros [= <-].
      unfold arrival. by rewrite (W2 i x Hi Hx). }
    apply Hidle. destruct closed; [|done]. pose proof (discard_leads c3 0 Ok3) as HL. rewrite take_0 in HL.
    destruct (leads_fields _ _ _ HL) as (_ & _ & _ & _ & F5 & _). pose proof (leads_arrivals _ _ _ HL) as Ha.
    eapply same_arrived; [|exact HA3]. apply same_shut.
    + intros i a. change (arrivals (set_conn_close true ?x)) with (arrivals x). by rewrite Ha.
    + by intros [? _].
    + unfold pending. change (arrivals (set_conn_close true ?x)) with (arrivals x). by rewrite Ha.
    + cbn. by rewrite F5.
Qed.

Lemma apply_arrived env before after (now_ : Z) hb hn event acc sent wire base texts got : settings_ok conf -> env_ok env ->
  settled conf before acc sent wire -> waits conf before after -> Forall (fun o => small o.2) (completed after) ->
  can_happen conf before after now_ hb hn event -> Arrived before base texts got ->
  Arrived (apply conf env event after) (base + gone before event) texts (got ++ came event).
Proof.
  intros Hset Henv Hs Hw Hsmall Hcan HA. destruct (waits_inv conf _ _ _ _ _ Hs Hw Hsmall) as (outs & n & HP).
  pose proof (drained_arrived env _ _ _ _ _ _ _ _ _ _ Hset Henv HP HA) as HA1. destruct (drained conf Hset env _ _ _ _ _ _ _ Henv HP) as (Hd & Hwr & _).
  assert (writing after = writing before) as Hwr0 by (rewrite (polling_frame _ _ _ _ _ _ _ _ HP); done).
  unfold apply. set (c := drain_completed conf env after) in *.
  destruct event as [buf| | | |[|k]| | | |]; cbn [came gone]; rewrite ?Nat.add_0_r, ?app_nil_r;
    try (first [done|by eapply same_arrived; [|exact HA1]; by apply same_plain]).
  - destruct HA1 as [Aw Ab Ao (rest & -> & As) Ai At]. destruct Hcan as (_ & _ & Hbuf & _). destruct (absorb_tail (input c) buf Ai Hbuf) as [Hok Ht].
    split; [done|done|done| |done|done]. exists (rest ++ filled buf). split; [by rewrite app_assoc|]. intros Hf. destruct (As Hf) as (cur & -> & Hcur).
    exists cur. split; [|done]. cbn [input set_input]. by rewrite Ht, app_assoc.
  - eapply same_arrived; [|exact HA1]. eapply eof_same; [apply Hd|apply (inv_entries _ _ _ _ _ _ (settled_inv _ _ _ _ _ Hd))|exact HA1].
  - assert (popped (S k) before = popped (S k) c) as -> by (unfold popped; by rewrite Hwr, Hwr0). by eapply wrote_arrived.
  - eapply same_arrived; [|exact HA1]. pose proof (mark_close_same env (set_draining true c) (settled_ring _ _ _ _ _ Hd)) as [S1 S2 S3 S4 S5]. by split.
Qed.

(** ** Handlers *)

(** The state in which a turn starts handlers. *)
Definition before_start (env : Env) (c : Conn) : Conn := process_input conf env (expire conf env (resume_reading env c)).

Lemma tick_split env c : tick conf env c = plan_write env (start_runnable (before_start env c)).
Proof. done. Qed.

(** Its steps, each from a state the invariant holds of. *)
Lemma before_start_steps env c acc sent wire : settings_ok conf -> env_ok env -> settled conf c acc sent wire ->
  let c1 := resume_reading env c in let c2 := expire conf env c1 in let c3 := process_loop conf (process_fuel c2) env c2 in
  exists acc2 acc3,
    (ring_ok (ring c1) /\ Inv conf c1 (seen c1) acc sent wire) /\
    (ring_ok (ring c2) /\ Inv conf c2 (seen c2) acc2 sent wire) /\
    before_start env c = set_input (compact (input c3)) c3 /\
    ring_ok (ring (before_start env c)) /\ live (before_start env c) /\ Inv conf (before_start env c) (seen (before_start env c)) acc3 sent wire.
Proof.
  intros Hset Henv [Hok Hl HI Hd] c1 c2 c3. destruct (resume_inv conf env c acc sent wire Hok HI) as (Ok1 & L1 & I1 & _). fold c1 in Ok1, L1, I1.
  destruct (expire_inv conf Hset env c1 acc sent wire Henv Ok1 I1) as [new2 [Ok2 L2 I2 _ _]]. fold c2 in Ok2, L2, I2.
  destruct (process_loop_inv conf Hset env (process_fuel c2) c2 (acc ++ new2) sent wire Henv Ok2 I2) as [new3 [Ok3 L3 I3 _ _ _]]. fold c3 in Ok3, L3, I3.
  exists (acc ++ new2), ((acc ++ new2) ++ new3). split; [done|]. split; [done|]. split; [done|]. split; [exact Ok3|]. split; [exact (L3 (L2 (L1 Hl)))|].
  eapply inv_fields; [exact I3|done|done|apply I3|apply I3|apply I3].
Qed.

Lemma before_start_ok env c acc sent wire base texts got : settings_ok conf -> env_ok env -> settled conf c acc sent wire ->
  Arrived c base texts got ->
  let c' := before_start env c in
  exists acc' texts', texts `prefix_of` texts' /\ ring_ok (ring c') /\ live c' /\ Inv conf c' (seen c') acc' sent wire /\
    Arrived c' base texts' got.
Proof.
  intros Hset Henv Hs HA c'. destruct (before_start_steps env c acc sent wire Hset Henv Hs) as (acc2 & acc3 & [Ok1 I1] & [Ok2 I2] & Heq & Ok & Lv & HI).
  pose proof (same_arrived _ _ _ _ _ (resume_same env c (settled_ring _ _ _ _ _ Hs)) HA) as A1. set (c1 := resume_reading env c) in *.
  pose proof (same_arrived _ _ _ _ _ (expire_same env c1 acc sent wire Ok1 I1) A1) as A2. set (c2 := expire conf env c1) in *.
  destruct (process_arrived env (process_fuel c2) c2 acc2 sent wire base texts got Hset Henv Ok2 I2 A2) as (texts' & Hp & A3).
  exists acc3, texts'. split; [done|]. split; [exact Ok|]. split; [exact Lv|]. split; [exact HI|]. unfold c'. rewrite Heq.
  set (c3 := process_loop conf (process_fuel c2) env c2) in *.
  destruct A3 as [Aw Ab Ao (rest & Hg & As) Ai At]. destruct (compact_tail (input c3) Ai) as [Hok' Ht]. split; [done|done|done| |done|done].
  exists rest. split; [done|]. intros Hf. destruct (As Hf) as (cur & -> & Hcur). exists cur. split; [|done].
  cbn [input set_input]. by rewrite Ht.
Qed.

Lemma plan_fields env c : ring (plan_write env c) = ring c /\ input (plan_write env c) = input c /\
  conn_close (plan_write env c) = conn_close c /\ taking (plan_write env c) = taking c.
Proof.
  unfold plan_write. destruct (_ || _); [done|]. destruct (batch _ _ _ _ _) as [k t]. destruct (_ <? k)%nat; [done|].
  by destruct (match first _ with Some _ => _ | None => _ end).
Qed.

Lemma tick_arrived env c acc sent wire base texts got : settings_ok conf -> env_ok env -> settled conf c acc sent wire ->
  Arrived c base texts got -> exists texts', texts `prefix_of` texts' /\ Arrived (tick conf env c) base texts' got.
Proof.
  intros Hset Henv Hs HA. destruct (before_start_ok env c acc sent wire base texts got Hset Henv Hs HA) as (acc' & texts' & Hp & Hok & Hl & HI & HA').
  exists texts'. split; [done|]. rewrite tick_split. pose proof (same_arrived _ _ _ _ _ (start_same _ _ _ _ Hok Hl HI) HA') as A2.
  eapply same_arrived; [|exact A2]. destruct (plan_fields env (start_runnable (before_start env c))) as (? & ? & ? & ?). by apply same_plain.
Qed.

Lemma new_arrived sh now_ later_ : Arrived (Conn_new sh now_ later_) 0 [] [].
Proof.
  assert (arrivals (Conn_new sh now_ later_) = []) as Ha.
  { destruct (new_ok (F := RequestRecord)) as [_ Hv]. unfold arrivals, seen. cbn [ring Conn_new]. by rewrite Hv. }
  assert (pending (Conn_new sh now_ later_) = None) as Hp by (unfold pending; by rewrite Ha).
  split; rewrite ?Ha, ?Hp; try done. exists []. split; [done|]. intros _. exists []. split; [done|]. unfold current. by rewrite Hp.
Qed.

Lemma reach_arrived c accepted got wire : settings_ok conf -> Reach conf c accepted got wire ->
  exists sent texts, settled conf c accepted sent wire /\ Arrived c (length (answers sent)) texts got.
Proof.
  intros Hset. induction 1 as [sh now_ later_ Hs|c accepted got wire sh _ (sent & texts & [Hok Hl HI Hd] & HA) Hs|c accepted got wire env after now_ hb hn event env' _ (sent & texts & Hse & HA) before Henv Henv' Hmem Hf Hw Hsmall Hcan].
  - exists [], []. split; [by apply new_settled|apply new_arrived].
  - exists sent, texts. split.
    + split; [done|done| |done]. change (seen (set_shared sh c)) with (seen c). eapply inv_fields; [exact HI|done|done|apply HI|apply HI|done].
    + eapply same_arrived; [|exact HA]. by apply same_plain.
  - destruct (tick_arrived env c accepted sent wire _ texts got Hset Henv Hse HA) as (texts' & _ & HA'). fold before in HA'.
    destruct Hse as [Hok Hl HI Hd]. destruct (tick_inv conf Hset env c accepted sent wire Henv Hok Hl HI Hd Hmem) as (A & B & C & D). fold before in A, B, C, D.
    assert (settled conf before (accepted ++ drop (length (ids c)) (ids before)) sent wire) as Hsb by by split.
    destruct (apply_settled conf Hset env' before after now_ hb hn event _ sent wire Henv' Hsb Hw Hsmall Hcan) as (sent' & Hs' & Hcount).
    exists sent', texts'. split; [exact Hs'|]. rewrite Hcount. eapply apply_arrived; [done|exact Henv'|exact Hsb|done..].
Qed.

(** The handler that a turn starts for the [i]th entry of the ring, with its record. *)
Definition starts_at (c : Conn) (i : nat) (f : RequestRecord) : Prop :=
  exists e e', seen c !! i = Some (e, None) /\ stage e = Waiting /\ seen (start_runnable c) !! i = Some (e', Some f) /\ stage e' = Running.

Lemma starts_received v : forall is_first all_safe i e e' f, Forall (fun x : Seen => is_waiting (stage x.1) = true -> x.2 = None) v ->
  v !! i = Some (e, None) -> starts is_first all_safe v !! i = Some (e', Some f) -> exists r, record e = Some r /\ received f = received r.
Proof.
  induction v as [|x v IH]; intros is_first all_safe [|i] e e' f Hall; cbn [starts lookup list_lookup]; [done..| |apply Forall_cons in Hall as [_ Hall]; by apply IH].
  intros [= ->]. destruct (_ && _); [|done]. unfold start_seen. cbn [fst]. destruct (record e) as [r|]; [|done]. intros [= _ <-]. by exists r.
Qed.

(** C1. No request is smuggled and none is lost.  The octets a connection received begin with
    whole requests, one after the other: each is a text of the grammar of heads and a body as
    that head frames it, by its length or as a chunked body of RFC 9112 section 7.1 with its
    content, within the limit of its target, whether it was answered or not.  While the
    connection takes requests in, there are as many of them as responses written and entries of
    the ring, the one whose body is arriving not counted; and while it does, or a body is
    arriving, what follows them is exactly the part that came of that one and the input not read
    yet: no octet is dropped and none is read twice.  The handler a turn starts for the [i]th
    entry of the ring is given exactly the octets of the [i]th request behind those that were
    answered, and the whole of it. *)
Theorem handlers_get_their_request c accepted got wire env : settings_ok conf -> Reach conf c accepted got wire -> env_ok env ->
  let c' := before_start env c in
  exists sent texts rest,
    wire = concat (message_octets <$> sent) ++ in_progress c (seen c) /\
    got = concat texts ++ rest /\
    Forall (fun t => exists q, whole t q) texts /\
    (is_open c' -> (length (answers sent) + length (seen c') = length texts + if pending c' is Some _ then 1 else 0)%nat) /\
    (flowing c' -> exists cur, rest = cur ++ tail (input c') /\ current c' cur) /\
    (forall i f, starts_at c' i f -> exists t, texts !! (length (answers sent) + i)%nat = Some t /\ whole t (received f)).
Proof.
  intros Hset HR Henv c'. destruct (reach_arrived c accepted got wire Hset HR) as (sent & texts & Hs & HA).
  destruct (before_start_ok env c _ sent wire _ texts got Hset Henv Hs HA) as (acc' & texts' & Hp & Hok & Hl & HI & HA'). fold c' in Hok, Hl, HI, HA'.
  destruct (arr_stream _ _ _ _ HA') as (rest & Hg & Hf). exists sent, texts', rest. split; [apply (inv_wire _ _ _ _ _ _ (settled_inv _ _ _ _ _ Hs))|].
  split; [done|]. split; [apply HA'|]. split; [intros Ho; rewrite <- (arr_open _ _ _ _ HA' Ho); unfold arrivals; by rewrite length_fmap|].
  split; [done|]. intros i f (e & e' & Hi & Hst & Hi' & _).
  pose proof (waiting_idle conf _ (inv_entries _ _ _ _ _ _ HI)) as Hidle. rewrite (leads_seen _ _ _ (start_leads c' Hok Hl Hidle)) in Hi'.
  destruct (starts_received _ _ _ _ _ _ _ Hidle Hi Hi') as (r & Hr & ->). apply (arr_whole _ _ _ _ HA').
  unfold arrivals. rewrite list_lookup_fmap, Hi. cbn. unfold arrival. cbn. by rewrite Hst, Hr.
Qed.
End requests.

(** A chunked request in two reads, and the request behind it. *)
Definition example_parts : list bytes :=
  [crlf "POST /a HTTP/1.1" ++ crlf "Host: h" ++ crlf "Transfer-Encoding: chunked" ++ crlf "" ++ crlf "5" ++ bs "hel";
   crlf "lo" ++ crlf "0" ++ crlf "" ++ example_request ++ bs "GET"].
Definition example_arrivals : Conn :=
  fold_left (fun c t => turn t.1 (fun _ => Pending []) (ReadData (from_vec t.2)) c) (zip [1; 2] example_parts) example_conn.

Lemma example_arrived : exists accepted, Reach example_settings example_arrivals accepted (concat example_parts) [].
Proof.
  pose proof (reach_new example_settings example_shared 0 0 ltac:(constructor)) as R0.
  pose proof (reach_example_turn 1 (fun _ => Pending []) (ReadData (from_vec (default [] (example_parts !! 0%nat)))) _ _ _ _ R0 ltac:(vm_compute; reflexivity)) as R1.
  specialize (R1 ltac:(split; [vm_compute; reflexivity|split; [reflexivity|split; [split; [reflexivity|by apply Z.ltb_lt]|vm_compute; lia]]])).
  pose proof (reach_example_turn 2 (fun _ => Pending []) (ReadData (from_vec (default [] (example_parts !! 1%nat)))) _ _ _ _ R1 ltac:(vm_compute; reflexivity)) as R2.
  specialize (R2 ltac:(split; [vm_compute; reflexivity|split; [reflexivity|split; [split; [reflexivity|by apply Z.ltb_lt]|vm_compute; lia]]])).
  match type of R2 with Reach _ _ ?accepted ?got ?wire =>
    assert (got = concat example_parts) as Hg by (vm_compute; reflexivity); assert (wire = []) as Hw by (vm_compute; reflexivity);
    rewrite Hg, Hw in R2; exists accepted; exact R2 end.
Qed.

Lemma handlers_get_their_request_witness :
  let c' := before_start example_settings (at_second 3) example_arrivals in
  exists f texts n t, starts_at c' 0 f /\ HttpRecord.body (received f) = bs "hello" /\
    texts !! n = Some t /\ whole example_settings t (received f) /\ concat texts `prefix_of` concat example_parts.
Proof.
  cbv zeta. destruct example_arrived as (accepted & HR).
  destruct (handlers_get_their_request example_settings _ _ _ _ (at_second 3) example_settings_ok HR) as (sent & texts & rest & _ & Hg & _ & _ & _ & Hf);
    [split; [by apply Z.leb_le|done]|].
  assert (exists f, starts_at (before_start example_settings (at_second 3) example_arrivals) 0 f /\ HttpRecord.body (received f) = bs "hello") as (f & Hs & Hb).
  { eexists. split; [do 2 eexists; split; [vm_compute; reflexivity|split; [reflexivity|split; [vm_compute; reflexivity|reflexivity]]]|vm_compute; reflexivity]. }
  destruct (Hf 0%nat f Hs) as (t & Ht & Hw). exists f, texts, (length (answers sent) + 0)%nat, t.
  split; [exact Hs|]. split; [exact Hb|]. split; [exact Ht|]. split; [exact Hw|]. by exists rest.
Defined.
