(* ===== verification/HttpStarts.v ===== *)
(** * Handlers run together only when they are safe

    RFC 9112 section 9.3.2 lets a server process pipelined requests together when all of them
    have safe methods.  The invariant of the driver: an entry behind the head of the ring has a
    handler only if it and every entry before it are safe, and those have been started. *)
From stdpp Require Import sorting.
From S2P Require Import Prelude Core Limits HttpTypes CoreBuf H1Head H1Chunked HttpRecord HttpCall HttpRing HttpSerialize HttpConn HttpConnView HttpPipeline HttpRequests.
#[local] Open Scope Z_scope.

Inductive Phase : Type := Unstarted | Busy | Answered.

Definition phase (s : Stage) : Phase :=
  match s with Body _ _ _ | Waiting => Unstarted | Running => Busy | Done => Answered end.

Abbreviation Tag := (Phase * bool)%type.
Definition tag (x : Seen) : Tag := (phase (stage x.1), safe x.1).
Definition tags (c : Conn) : list Tag := tag <$> seen c.

Definition exclusive (T : list Tag) : Prop :=
  forall i s, T !! i = Some (Busy, s) ->
    i = 0%nat \/ (s = true /\ forall j t, (j < i)%nat -> T !! j = Some t -> t.2 = true /\ t.1 <> Unstarted).

(** After the first [n] entries left, nothing was started and nothing that was is waiting again. *)
Definition calm (n : nat) (T T' : list Tag) : Prop :=
  forall i s, T' !! i = Some (Busy, s) -> T !! (n + i)%nat = Some (Busy, s) /\
    forall j t', (j < i)%nat -> T' !! j = Some t' -> exists p, T !! (n + j)%nat = Some (p, t'.2) /\ (p <> Unstarted -> t'.1 <> Unstarted).

Lemma calm_exclusive n T T' : calm n T T' -> exclusive T -> exclusive T'.
Proof.
  intros Hc He i s Hi. destruct (Hc i s Hi) as [H1 H2]. destruct (He _ _ H1) as [?|[-> Hj]]; [left; lia|right].
  split; [done|]. intros j t Hlt Ht. destruct (H2 j t Hlt Ht) as (p & Hp & Hk). destruct (Hj (n + j)%nat (p, t.2) ltac:(lia) Hp) as [? ?]. auto.
Qed.

Lemma calm_refl T : calm 0 T T.
Proof. intros i s Hi. split; [done|]. intros j [p b] _ Ht. by exists p. Qed.

Lemma calm_drop n T : calm n T (drop n T).
Proof. intros i s. rewrite lookup_drop. intros Hi. split; [done|]. intros j [p b] _. rewrite lookup_drop. intros Ht. by exists p. Qed.

Lemma calm_take T n : calm 0 T (take n T).
Proof.
  intros i s [Hi _]%lookup_take_Some. split; [done|]. intros j [p b] _ [Ht _]%lookup_take_Some. by exists p.
Qed.

Lemma calm_trans T T1 T2 : calm 0 T T1 -> calm 0 T1 T2 -> calm 0 T T2.
Proof.
  intros H1 H2 i s Hi. destruct (H2 i s Hi) as [A B]. destruct (H1 _ _ A) as [C D]. split; [done|]. intros j t Hj Ht.
  destruct (B j t Hj Ht) as (p & Hp & Hk). destruct (D j _ Hj Hp) as (p' & Hp' & Hk'). exists p'. cbn in *. split; [done|auto].
Qed.

Lemma calm_snoc T t : t.1 <> Busy -> calm 0 T (T ++ [t]).
Proof.
  intros Ht i s [[Hl Hi]|[-> ->]]%lookup_snoc_Some; [|done]. split; [done|]. intros j [p b] Hj Hjt.
  rewrite lookup_app_l in Hjt by lia. by exists p.
Qed.

Lemma calm_answer T i p s : T !! i = Some (p, s) -> calm 0 T (<[i := (Answered, s)]> T).
Proof.
  intros Hi k b. destruct (decide (k = i)) as [->|Hne]; [rewrite list_lookup_insert_eq by (by apply lookup_lt_Some in Hi); done|].
  rewrite list_lookup_insert_ne by done. intros Hk. split; [done|]. intros j [q b'] Hj Hjt. destruct (decide (j = i)) as [->|Hnj].
  - rewrite list_lookup_insert_eq in Hjt by (by apply lookup_lt_Some in Hi). injection Hjt as <- <-. by exists p.
  - rewrite list_lookup_insert_ne in Hjt by done. by exists q.
Qed.

(** The safe methods of RFC 9110 section 9.2.1. *)
Definition safe_request (id : option H1Head.Head) : bool :=
  match id ≫= method with Some m => bool_decide (m ∈ [Get; HttpTypes.Head; Options; Trace]) | None => false end.

(** The flag of an entry says whether its request has a safe method. *)
Definition honest (v : list Seen) : Prop := Forall (fun x => safe x.1 = safe_request (id_of x)) v.

Lemma record_safe_request r : record_safe r = safe_request (parsed (received r)).
Proof.
  unfold record_safe, safe_request, record_method. destruct (parsed (received r) ≫= method) as [m|]; [|done]. by destruct m.
Qed.

Lemma honest_insert (v : list Seen) i x y : v !! i = Some x -> safe y.1 = safe x.1 -> id_of y = id_of x -> honest v -> honest (<[i := y]> v).
Proof. intros Hi Hs Hid Hv. apply Forall_insert; [done|]. rewrite Hs, Hid. exact (Forall_lookup_1 _ _ _ _ Hv Hi). Qed.

Lemma honest_labels (v w : list Seen) : (fun x => safe x.1) <$> w = (fun x => safe x.1) <$> v -> id_of <$> w = id_of <$> v -> honest v -> honest w.
Proof.
  unfold honest. rewrite !Forall_lookup. intros Hs Hid Hv i x Hi.
  assert (exists y, v !! i = Some y /\ safe y.1 = safe x.1 /\ id_of y = id_of x) as (y & Hy & <- & <-); [|by eapply Hv].
  pose proof (f_equal (fun l => l !! i) Hs) as Hs'. pose proof (f_equal (fun l => l !! i) Hid) as Hid'. cbn beta in Hs', Hid'.
  rewrite !list_lookup_fmap, Hi in Hs'. rewrite !list_lookup_fmap, Hi in Hid'. destruct (v !! i) as [y|]; [|done].
  cbn in Hs', Hid'. exists y. split; [done|]. split; congruence.
Qed.

(** An operation that starts no handler and forgets no request. *)
Definition keeps (c c' : Conn) : Prop := calm 0 (tags c) (tags c') /\ (honest (seen c) -> honest (seen c')).

Lemma keeps_ring c c' : ring c' = ring c -> keeps c c'.
Proof. intros Hr. unfold keeps, tags, seen. rewrite Hr. split; [apply calm_refl|done]. Qed.

Lemma keeps_trans c c1 c2 : keeps c c1 -> keeps c1 c2 -> keeps c c2.
Proof. intros [A B] [C D]. split; [by eapply calm_trans|auto]. Qed.

Section starts.
Context (conf : Settings).

Lemma serialize_received env r close : received (driver_serialize conf env r close) = received r.
Proof. unfold driver_serialize, serialize. destruct (honoured r); by destruct (serialize_loop _ _ _ _). Qed.

Lemma failing_received env status r : received (failing conf env status r) = received r.
Proof. unfold failing. rewrite serialize_received. cbn. by destruct (answer_with_received r status (error_shape conf)) as [-> _]. Qed.

Lemma leads_tags c c' v : leads c c' v -> tags c' = tag <$> v.
Proof. intros H. unfold tags. by rewrite (leads_seen _ _ _ H). Qed.

Lemma reclosed_tags env c v : tag <$> reclosed conf env c v = tag <$> v.
Proof.
  unfold reclosed. destruct (last v) as [[e f]|] eqn:Hl; [|done]. destruct (in_batch c _); [done|].
  rewrite list_fmap_insert. apply list_insert_id. rewrite list_lookup_fmap, last_lookup, <- Nat.sub_1_r in *. rewrite Hl. cbn. f_equal.
  unfold tag, close_entry. cbn. destruct (stage e) eqn:Hs; cbn; rewrite ?Hs; try done. destruct (record e); cbn; by rewrite Hs.
Qed.

Lemma reclosed_honest env c v : honest v -> honest (reclosed conf env c v).
Proof.
  intros Hv. unfold reclosed. destruct (last v) as [[e f]|] eqn:Hl; [|done]. destruct (in_batch c _); [done|].
  rewrite last_lookup, <- Nat.sub_1_r in Hl. apply (honest_insert _ _ _ _ Hl); [| |done]; unfold close_entry; cbn [fst].
  - destruct (stage e); try done. by destruct (record e).
  - destruct (stage e); try done. destruct (record e) as [r|] eqn:Hr; [|done]. unfold id_of. cbn. by rewrite Hr, serialize_received.
Qed.

(** What the entries become, when it is known up to the response that says that the connection closes. *)
Lemma reclosed_keeps_tags env c0 c1 c c' v : leads c1 c' (reclosed conf env c0 v) -> calm 0 (tags c) (tag <$> v) ->
  (honest (seen c) -> honest v) -> keeps c c'.
Proof.
  intros HL Hc Hh. split; [by rewrite (leads_tags _ _ _ HL), reclosed_tags|]. intros H. rewrite (leads_seen _ _ _ HL). by apply reclosed_honest, Hh.
Qed.

Lemma mark_close_keeps env c : ring_ok (ring c) -> keeps c (mark_close conf env c).
Proof. intros Hok. eapply reclosed_keeps_tags; [exact (mark_close_leads conf env c Hok)|apply calm_refl|done]. Qed.

Lemma fail_at_keeps env i status c e f : ring_ok (ring c) -> shared_ok (shared c) -> seen c !! i = Some (e, f) ->
  keeps c (fail_at conf env i status c).
Proof.
  intros Hok Hsh Hi. destruct (fail_at_leads conf env i status c e f Hok Hsh Hi) as (r & Hr & HL).
  eapply reclosed_keeps_tags; [exact HL| |].
  - rewrite fmap_app, fmap_take. eapply calm_trans; [apply calm_take|]. by apply calm_snoc.
  - intros Hv. apply Forall_app_2; [by apply Forall_take|]. apply Forall_singleton. pose proof (Forall_lookup_1 _ _ _ _ Hv Hi) as He.
    cbn in He |- *. rewrite He. f_equal. unfold id_of. cbn. by rewrite failing_received, Hr.
Qed.

Lemma answer_now_keeps env r status c : ring_ok (ring c) -> (length (seen c) < CAP)%nat -> keeps c (answer_now conf env r status c).
Proof.
  intros Hok Hn. eapply reclosed_keeps_tags; [exact (answer_now_leads conf env r status c Hok Hn)| |].
  - rewrite fmap_app. by apply calm_snoc.
  - intros Hv. apply Forall_app_2; [done|]. apply Forall_singleton. cbn. by rewrite record_safe_request.
Qed.

Lemma eof_keeps env c : ring_ok (ring c) -> keeps c (eof conf env c).
Proof.
  intros Hok. assert (without_body (seen c) = seen c \/ without_body (seen c) = take (length (seen c) - 1) (seen c)) as Hw.
  { unfold without_body. destruct (last (seen c)) as [[e f]|]; [|by left]. destruct (is_body _); [by right|by left]. }
  eapply reclosed_keeps_tags; [exact (eof_leads conf env c Hok)| |].
  - destruct Hw as [-> | ->]; [apply calm_refl|]. rewrite fmap_take. apply calm_take.
  - intros Hv. destruct Hw as [-> | ->]; [done|by apply Forall_take].
Qed.

Lemma resume_keeps env c : ring_ok (ring c) -> keeps c (resume_reading env c).
Proof.
  intros Hok. pose proof (resume_leads env c Hok) as HL. unfold keeps. rewrite (leads_tags _ _ _ HL), (leads_seen _ _ _ HL).
  destruct (_ && _); [|split; [apply calm_refl|done]].
  assert (tag <$> ((fun x => (touch env x.1, x.2)) <$> seen c) = tags c) as Ht.
  { rewrite <- list_fmap_compose. apply list_fmap_ext. intros i [e f] _. unfold tag, touch. cbn. by destruct (stage e) eqn:Hs; cbn; rewrite ?Hs. }
  rewrite Ht. split; [apply calm_refl|]. apply honest_labels; rewrite <- list_fmap_compose; apply list_fmap_ext; intros i [e f] _; unfold touch, id_of; cbn;
    by destruct (is_body (stage e)).
Qed.

Lemma complete_keeps env outs i e r c : ring_ok (ring c) -> seen c !! i = Some (e, None) -> i ∉ outs.*1 ->
  let c' := complete conf env (HttpRing.position (ring c) i) r c in
  calm 0 (tags c) (tags c') /\ (honest (eff (outs ++ [(i, r)]) (seen c)) -> honest (eff outs (seen c'))).
Proof.
  intros Hok Hi Hno c'. destruct (complete_leads conf env i e r c Hok Hi) as (close & HL & _). cbv zeta in HL. fold c' in HL.
  rewrite (leads_tags _ _ _ HL), (leads_seen _ _ _ HL). set (r' := driver_serialize conf env r close). split.
  - assert (calm 0 (tags c) (tag <$> <[i := (done_entry e (with_charge r' 0) (charge r'), None)]> (seen c))) as Hc.
    { rewrite list_fmap_insert. apply (calm_answer _ _ (phase (stage e)) (safe e)). unfold tags. by rewrite list_lookup_fmap, Hi. }
    destruct (closes r'); [|exact Hc]. rewrite fmap_take. eapply calm_trans; [exact Hc|apply calm_take].
  - rewrite (eff_complete outs i r _ _ (seen c) (closes r') Hi Hno), eff_snoc. cbv zeta. intros Hv.
    assert (put_out (eff outs (seen c)) (i, r) !! i = Some (with_record e (Some r), None)) as Hat.
    { unfold put_out. cbn [fst snd]. by rewrite list_lookup_alter_eq, eff_lookup, Hi. }
    set (E := <[i := _]> (put_out _ _)). assert (honest E) as HE.
    { apply (honest_insert _ _ _ _ Hat); [done| |exact Hv]. unfold id_of. cbn. unfold r'. by rewrite serialize_received. }
    destruct (closes r'); [by apply Forall_take|exact HE].
Qed.

Lemma expire_keeps env c acc sent wire : ring_ok (ring c) -> Inv conf c (seen c) acc sent wire -> keeps c (expire conf env c).
Proof.
  intros Hok HI. unfold expire. set (c0 := match retry_read_at c with Some _ => _ | None => c end).
  assert (ring c0 = ring c /\ head_since c0 = head_since c /\ shared c0 = shared c) as (Hr & Hh & Hsh).
  { unfold c0. destruct (retry_read_at c); [destruct (_ <=? _)|]; done. }
  assert (forall c', ring c' = ring c0 -> keeps c c') as Hstay by (intros c' H1; apply keeps_ring; congruence).
  destruct (bool_decide _ && _); [by apply Hstay|].
  destruct (idle c0 && _ && _); [by apply Hstay|].
  destruct (negb (held env) && _) eqn:Htimeout.
  - destruct (head_since c) as [since|] eqn:Hhs; [|rewrite Hh in Htimeout; by rewrite andb_false_r in Htimeout].
    pose proof (inv_head _ _ _ _ _ _ HI ltac:(by rewrite Hhs)) as Hlen. pose proof (max_pipelined_cap conf) as Hcap.
    set (c1 := set_input _ (set_head_since None c0)).
    set (pick := match next c1 with Some record => (record, set_next None c1) | None => _ end).
    assert (ring pick.2 = ring c) as Hp.
    { unfold pick. destruct (next c1); [done|]. by destruct (take_record conf (shared c1)). }
    destruct pick as [r c2]. cbn [snd] in Hp. assert (seen c2 = seen c) as Hs2 by (unfold seen; by rewrite Hp).
    eapply keeps_trans; [by apply (keeps_ring c c2)|]. apply answer_now_keeps; [by rewrite Hp|rewrite Hs2; lia].
  - destruct (first_expired conf env 0 (HttpRing.len (ring c0)) (ring c0)) as [[i status]|] eqn:Hf; [|by apply Hstay].
    apply first_expired_some in Hf as (Hi & _). assert (ring_ok (ring c0)) as Hok0 by (by rewrite Hr).
    destruct (lookup_lt_is_Some_2 (seen c0) i) as [[e f] Hie]; [rewrite seen_length by done; lia|].
    eapply keeps_trans; [by apply (keeps_ring c c0)|]. eapply fail_at_keeps; [done|rewrite Hsh; apply HI|done].
Qed.

(** ** Taking in *)

Lemma feed_tag env e framing cp max_body r rest : stage e = Body framing cp max_body -> let '(e', _, _, _) := feed conf env e framing max_body r rest in
  forall f, tag (e', f) = tag (e, f).
Proof.
  intros Hs. assert (forall s n r', phase s = Unstarted -> forall f, tag (fed_entry env e s r' n, f) = tag (e, f)) as H.
  { intros s n r' Hp f. unfold tag. cbn. by rewrite Hp, Hs. }
  unfold feed. destruct framing as [remaining|decoder].
  - intros f. apply H. by destruct (_ =? 0).
  - destruct (decode (limits conf) decoder rest) as [d [step|e']]; [|by apply H]. destruct step as [data consumed|consumed|section consumed]; [|by apply H|].
    + destruct (max_body <? _); by apply H.
    + destruct (parse_trailers _ _ _ _) as [t [u|e']]; by apply H.
Qed.

Lemma feed_body_keeps env c acc sent wire : ring_ok (ring c) -> Inv conf c (seen c) acc sent wire -> body_pending (ring c) = true -> tail (input c) <> [] ->
  keeps c (feed_body conf env c).1.
Proof.
  intros Hok HI Hbp Ht. destruct (pending_entry conf c acc sent wire Hok HI Hbp) as (e & framing & cp & m & r & Hl & Hi & Hs & Hr & Hb).
  pose proof (feed_entry_ok conf env e framing m r (tail (input c)) Hb) as Hfe.
  pose proof (feed_body_leads conf env c e None framing cp m r Hok Hl Hs Hr Ht) as HL.
  pose proof (feed_tag env e framing cp m r (tail (input c)) Hs) as Hf.
  destruct (feed conf env e framing m r (tail (input c))) as [[[e' n] k] fed]. destruct HL as [HL _].
  destruct Hfe as (r' & Hr' & _ & Hp & _). split.
  - rewrite (leads_tags _ _ _ HL), list_fmap_insert, Hf, list_insert_id; [apply calm_refl|]. by rewrite list_lookup_fmap, Hi.
  - intros Hv. rewrite (leads_seen _ _ _ HL). apply (honest_insert _ _ _ _ Hi); [by specialize (Hf None); injection Hf| |done].
    unfold id_of. cbn. by rewrite Hr, Hr', Hp.
Qed.

Lemma accept_keeps env r h c : ring_ok (ring c) -> (length (seen c) < CAP)%nat -> keeps c (accept conf env r h c).
Proof.
  intros Hok Hn. unfold accept. set (octets := default [] _). set (record := taken_in conf r h octets).
  set (c2 := set_input _ _). set (c3 := if _ || _ then set_conn_close true c2 else c2).
  assert (ring c3 = ring c) as Hr3 by (unfold c3; by destruct (_ || _)). assert (seen c3 = seen c) as Hs3 by (unfold seen; by rewrite Hr3).
  assert (ring_ok (ring c3)) as Hok3 by (by rewrite Hr3). rewrite <- Hs3 in Hn.
  assert (forall c', keeps c3 c' -> keeps c c') as Hfrom by (intros c'; apply keeps_trans; by apply keeps_ring).
  assert (forall status, keeps c (answer_now conf env record status c3)) as Hans by (intros; by apply Hfrom, answer_now_keeps).
  assert (forall s, phase s = Unstarted -> keeps c (push_entry (Entry_new record s (now env)) c3)) as Hpush.
  { intros s Hs. apply Hfrom. destruct (push_leads c3 (Entry_new record s (now env)) Hok3 eq_refl Hn) as [HL _]. split.
    - rewrite (leads_tags _ _ _ HL), fmap_app. apply calm_snoc. cbn. by rewrite Hs.
    - intros Hv. rewrite (leads_seen _ _ _ HL). apply Forall_app_2; [done|]. apply Forall_singleton. cbn. apply record_safe_request. }
  destruct (expect h); [| |apply Hans]; (destruct (H1Head.body h) as [|n|]; [by apply Hpush| |by apply Hpush]);
    (destruct (n =? 0); [by apply Hpush|]; destruct (_ <? n); [apply Hans|by apply Hpush]).
Qed.

Lemma parse_keeps env c : ring_ok (ring c) -> (length (seen c) < CAP)%nat -> keeps c (parse_head conf env c).1.
Proof.
  intros Hok Hn. unfold parse_head. set (pick := match next c with Some record => (record, c) | None => _ end).
  assert (ring pick.2 = ring c) as Hp by (unfold pick; destruct (next c); [done|]; by destruct (take_record conf (shared c))).
  destruct pick as [r c1]. cbn [snd] in Hp. destruct (parse_request _ _ _) as [table status].
  assert (forall c' c'', ring c' = ring c -> (ring_ok (ring c') -> (length (seen c') < CAP)%nat -> keeps c' c'') -> keeps c c'') as Hsame.
  { intros c' c'' Hr' H. eapply keeps_trans; [by apply (keeps_ring c c')|]. apply H; [by rewrite Hr'|unfold seen; by rewrite Hr']. }
  destruct status as [h| |reject]; cbn [fst].
  - eapply (Hsame (set_head_since None (set_next None c1)) _ Hp). apply accept_keeps.
  - by apply keeps_ring.
  - eapply (Hsame (set_head_since None (set_next None c1)) _ Hp). apply answer_now_keeps.
Qed.

Lemma process_input_keeps env fuel : forall c acc sent wire, settings_ok conf -> env_ok env -> ring_ok (ring c) ->
  Inv conf c (seen c) acc sent wire -> keeps c (process_loop conf fuel env c).
Proof.
  induction fuel as [|fuel IH]; intros c acc sent wire Hset Henv Hok HI; cbn [process_loop]; [by apply keeps_ring|].
  destruct (input_is_empty (input c)) eqn:Hin; [by apply keeps_ring|].
  unfold input_is_empty in Hin. apply bool_decide_eq_false in Hin.
  destruct (body_pending (ring c)) eqn:Hbp.
  - pose proof (feed_inv conf env c acc sent wire Hok HI Hbp Hin) as Hf. pose proof (feed_body_keeps env c acc sent wire Hok HI Hbp Hin) as Hft.
    destruct (feed_body conf env c) as [c1 fed]. destruct Hf as (Ht & _ & _ & _ & Hrej). cbn [fst] in Hft.
    pose proof (took_inv _ _ _ _ _ _ _ Ht) as HI1. rewrite app_nil_r in HI1. pose proof (took_ring _ _ _ _ _ _ _ Ht) as Hok1.
    destruct fed as [| |status]; [eapply keeps_trans; [exact Hft|]; by eapply IH|exact Hft|].
    destruct (Hrej status eq_refl) as (e & f & Hi & Hd). eapply keeps_trans; [exact Hft|].
    rewrite <- seen_length by done. eapply fail_at_keeps; [done|apply HI1|exact Hi].
  - destruct (taking c || upgrade_pending (ring c)); [by apply keeps_ring|]. destruct (conn_close c) eqn:Hcl; [by apply keeps_ring|].
    destruct (_ || held env) eqn:Hstop; [by apply keeps_ring|]. apply orb_false_iff in Hstop as [Hn _]. apply Nat.leb_gt in Hn.
    rewrite <- seen_length in Hn by done. pose proof (max_pipelined_cap conf) as Hcap.
    destruct (parse_inv conf Hset env c acc sent wire Henv Hok HI Hcl Hn) as [new1 H1].
    pose proof (parse_keeps env c Hok ltac:(lia)) as Hc1.
    destruct (parse_head conf env c) as [c1 go]. cbn [fst] in H1, Hc1. destruct go; [|exact Hc1].
    eapply keeps_trans; [exact Hc1|]. eapply IH; [done|done|apply (took_ring _ _ _ _ _ _ _ H1)|apply (took_inv _ _ _ _ _ _ _ H1)].
Qed.

(** ** Starting *)

Definition begun (x : Seen) : bool := is_running (stage x.1) || is_done (stage x.1).

Lemma starts_lookup v : forall is_first all_safe i x, v !! i = Some x ->
  starts is_first all_safe v !! i
  = Some (if is_waiting (stage x.1) && ((is_first && (i =? 0)%nat) ||
            (all_safe && forallb (fun y : Seen => safe y.1) (take (S i) v) && forallb begun (take i (starts is_first all_safe v))))
          then start_seen x else x).
Proof.
  induction v as [|y v IH]; intros is_first all_safe [|i] x; [done|done| |]; cbn [starts lookup list_lookup].
  - intros [= ->]. cbn [take forallb]. rewrite !andb_true_r. by destruct is_first, all_safe.
  - intros Hi. rewrite (IH _ _ _ _ Hi). cbn [take forallb]. f_equal.
    set (y' := if is_waiting (stage y.1) && _ then start_seen y else y). fold (begun y'). set (all' := all_safe && safe y.1 && begun y').
    assert (forall a b, (all' && a && b) = (all_safe && (safe y.1 && a) && (begun y' && b))) as ->.
    { intros [] []; unfold all'; by destruct all_safe, (safe y.1), (begun y'). }
    by destruct is_first.
Qed.

Lemma start_seen_tag x : is_waiting (stage x.1) = true -> (start_seen x = x \/ phase (stage (start_seen x).1) = Busy) /\ safe (start_seen x).1 = safe x.1.
Proof. intros Hw. unfold start_seen. destruct (record x.1); [split; [by right|done]|split; [by left|done]]. Qed.

Lemma begun_phase (x : Seen) : begun x = true <-> phase (stage x.1) <> Unstarted.
Proof. unfold begun. by destruct (stage x.1). Qed.

Lemma starts_exclusive v : exclusive (tag <$> v) -> exclusive (tag <$> starts true true v).
Proof.
  intros He i s. rewrite list_lookup_fmap. destruct (starts true true v !! i) as [x'|] eqn:Hx'; [|done]. intros [= Hp Hsafe].
  destruct (lookup_lt_is_Some_2 v i) as [x Hx]; [rewrite <- (starts_length v true true); by apply lookup_lt_Some in Hx'|].
  assert (forall j y', starts true true v !! j = Some y' -> exists y, v !! j = Some y /\ safe y'.1 = safe y.1 /\ (phase (stage y.1) <> Unstarted -> phase (stage y'.1) <> Unstarted)) as Hall.
  { intros j y' Hj. destruct (lookup_lt_is_Some_2 v j) as [y Hy]; [rewrite <- (starts_length v true true); by apply lookup_lt_Some in Hj|].
    rewrite (starts_lookup v true true j y Hy) in Hj. injection Hj as <-. exists y. split; [done|]. destruct (is_waiting (stage y.1)) eqn:Hw; cbn [andb].
    - destruct (_ || _); [|done]. destruct (start_seen_tag y Hw) as [Hs ->]. split; [done|]. destruct Hs as [->| ->]; done.
    - done. }
  rewrite (starts_lookup v true true i x Hx) in Hx'. injection Hx' as <-.
  destruct (is_waiting (stage x.1) && _) eqn:Hc.
  - apply andb_prop in Hc as [Hw Hc]. apply orb_prop in Hc as [Hc|Hc]; [left; by apply Nat.eqb_eq in Hc|]. right.
    cbn [andb] in Hc. apply andb_prop in Hc as [H1 H2]. rewrite forallb_forall in H1, H2.
    assert (forall y, y ∈ take (S i) v -> safe y.1 = true) as Hsf by (intros y Hy; apply H1; by apply list_elem_of_In).
    split.
    + rewrite <- Hsafe. destruct (start_seen_tag x Hw) as [_ ->]. apply Hsf. apply list_elem_of_lookup_2 with i. by rewrite lookup_take_lt by lia.
    + intros j t Hj. rewrite list_lookup_fmap. destruct (starts true true v !! j) as [y'|] eqn:Hy'; [|done]. intros [= <-].
      destruct (Hall j y' Hy') as (y & Hy & Hsy & _). cbn. split.
      * rewrite Hsy. apply Hsf. apply list_elem_of_lookup_2 with j. by rewrite lookup_take_lt by lia.
      * apply begun_phase, H2, list_elem_of_In, list_elem_of_lookup_2 with j. by rewrite lookup_take_lt by lia.
  - destruct (He i s) as [->|[-> Hj]]; [rewrite list_lookup_fmap, Hx; cbn; unfold tag; by rewrite Hp, Hsafe|by left|]. right. split; [done|].
    intros j t Hlt. rewrite list_lookup_fmap. destruct (starts true true v !! j) as [y'|] eqn:Hy'; [|done]. intros [= <-].
    destruct (Hall j y' Hy') as (y & Hy & Hsy & Hph). destruct (Hj j (tag y) Hlt) as [A B]; [by rewrite list_lookup_fmap, Hy|].
    cbn in *. rewrite Hsy. split; [exact A|exact (Hph B)].
Qed.

Lemma starts_honest v : forall is_first all_safe, honest v -> honest (starts is_first all_safe v).
Proof.
  induction v as [|x v IH]; intros is_first all_safe Hv; [done|]. apply Forall_cons in Hv as [Hx Hv]. cbn [starts]. constructor; [|by apply IH].
  destruct (_ && _); [|done]. unfold start_seen. destruct x as [e f]. cbn [fst] in *. destruct (record e) as [r|] eqn:Hr; [|done].
  cbn. rewrite Hx. unfold id_of. cbn. by rewrite Hr.
Qed.

(** ** Events *)

Lemma drain_keeps env outs : forall c acc sent wire, settings_ok conf -> env_ok env -> ring_ok (ring c) -> outs_ok c outs ->
  live_but (fun j => j ∈ outs.*1) (ring c) -> Inv conf c (eff outs (seen c)) acc sent wire ->
  let c' := drain_loop conf env (reverse ((fun o => (HttpRing.position (ring c) o.1, o.2)) <$> outs)) c in
  calm 0 (tags c) (tags c') /\ (honest (eff outs (seen c)) -> honest (seen c')).
Proof.
  induction outs as [|[i r] outs IH] using rev_ind; intros c acc sent wire Hset Henv Hok Ho Hl HI; [split; [apply calm_refl|done]|].
  rewrite fmap_app, reverse_app. cbn [fmap list_fmap reverse rev_append app fst snd drain_loop].
  destruct (complete_inv conf Hset env c outs i r acc sent wire Henv Hok Ho Hl HI) as (A & B & C & D & E & F & G & K).
  destruct Ho as [Hsort Hrun]. destruct (Hrun (i, r)) as (e & Hi & Hst); [apply elem_of_app; right; by apply list_elem_of_singleton|].
  assert (i ∉ outs.*1) as Hno.
  { rewrite fmap_app in Hsort. intros Hin. assert (i < i)%nat; [|lia].
    eapply StronglySorted_app_1_elem_of; [exact Hsort|exact Hin|by apply list_elem_of_singleton]. }
  destruct (complete_keeps env outs i e r c Hok Hi Hno) as [Hc Hh].
  set (c1 := complete conf env (HttpRing.position (ring c) i) r c) in *. specialize (IH c1 acc sent wire Hset Henv A B C D).
  assert ((fun o : nat * RequestRecord => (HttpRing.position (ring c1) o.1, o.2)) <$> outs = (fun o => (HttpRing.position (ring c) o.1, o.2)) <$> outs) as Hpos.
  { apply list_fmap_ext. intros j o _. by rewrite (position_head _ _ _ F). }
  rewrite Hpos in IH. destruct IH as [IH1 IH2]. split; [by eapply calm_trans|auto].
Qed.

Lemma tags_entries c c' : (seen c).*1 = (seen c').*1 -> tags c = tags c'.
Proof.
  intros H. assert (forall d, tags d = (fun e => (phase (stage e), safe e)) <$> (seen d).*1) as Ha.
  { intros d. unfold tags. by rewrite <- list_fmap_compose. }
  by rewrite !Ha, H.
Qed.

Lemma drained_keeps env c0 c outs n acc sent wire : settings_ok conf -> env_ok env -> polling conf c0 c outs n acc sent wire ->
  keeps c0 (drain_completed conf env c).
Proof.
  intros Hset Henv [Hok Hh Hf Hd Ho Hb Hl HI _ He Hids]. unfold drain_completed. rewrite Hd. set (c1 := set_completed [] c).
  assert (Inv conf c1 (eff outs (seen c1)) acc sent wire) as HI1 by (eapply inv_fields; [exact HI|done|done|apply HI|apply HI|apply HI]).
  destruct (drain_keeps env outs c1 acc sent wire Hset Henv Hok) as [Hc Hho]; [by destruct Ho|exact Hl|exact HI1|]. split.
  - rewrite <- (tags_entries _ _ He). exact Hc.
  - intros Hv. apply Hho. apply (honest_labels (seen c0)); [|exact Hids|exact Hv]. change (seen c1) with (seen c).
    assert (forall l v, (fun x : Seen => safe x.1) <$> eff l v = (fun x => safe x.1) <$> v) as ->.
    { induction l as [|o l IH]; intros v; [done|]. cbn. fold (eff l (put_out v o)). rewrite IH. unfold put_out.
      apply list_eq. intros j. rewrite !list_lookup_fmap. destruct (decide (j = o.1)) as [->|Hne]; [|by rewrite list_lookup_alter_ne].
      rewrite list_lookup_alter_eq. by destruct (v !! o.1). }
    apply (f_equal (fmap safe)) in He. by rewrite <- !list_fmap_compose in He.
Qed.

(** The flags of the entries tell the truth, and those behind the head of the ring were started on them. *)
Definition sound (c : Conn) : Prop := exclusive (tags c) /\ honest (seen c).

Lemma keeps_sound c c' : keeps c c' -> sound c -> sound c'.
Proof. intros [Hc Hh] [He Hv]. split; [by eapply calm_exclusive|auto]. Qed.

Lemma wrote_sound now_ n c acc sent wire : settled conf c acc sent wire -> sound c -> sound (wrote now_ n c).
Proof.
  intros [Hok Hl HI Hd] Hsound. unfold wrote, popped. destruct (writing c) as [w|] eqn:Hw; [|done].
  destruct (_ <? total w); [done|].
  destruct (inv_write _ _ _ _ _ _ HI w Hw) as (W1 & W2 & _ & _ & W5 & _).
  set (c1 := set_writing None (set_sent_at now_ c)). change (ring (set_writing None (set_sent_at now_ c))) with (ring c).
  assert (forall c', sound c' -> sound (if HttpRing.is_empty (ring c') then set_idle_since now_ c' else c')) as Hidle
    by (intros c' Hc'; by destruct (HttpRing.is_empty _)).
  destruct (prefix w).
  - rewrite W5 by done. cbn [pop_batch]. apply Hidle. set (c2 := change_entry _ _ c1).
    destruct (seen c1 !! 0%nat) as [[e f]|] eqn:Hi.
    + pose proof (change_leads c1 0 e f continue_written Hok Hi) as HL. specialize (HL ltac:(intros e0 s; by destruct e0 as [[?|] [? ? ?| | |] ? ? ? ? ? ?])).
      apply (keeps_sound c1); [|exact Hsound]. unfold keeps, c2. rewrite (leads_tags _ _ _ HL), (leads_seen _ _ _ HL), list_fmap_insert. split.
      * unfold tags. rewrite list_insert_id; [apply calm_refl|]. rewrite list_lookup_fmap, Hi. cbn. f_equal. by destruct e as [[?|] [? ? ?| | |] ? ? ? ? ? ?].
      * apply (honest_insert _ _ _ _ Hi); by destruct e as [[?|] [? ? ?| | |] ? ? ? ? ? ?].
    + assert (entry (ring c1) (HttpRing.position (ring c1) 0) = None) as He by (apply seen_none; [done|vm_compute; lia|done]).
      unfold c2, change_entry, modify_entry. by rewrite He.
  - pose proof (pop_batch_leads (count w) c1 false Hok Hl W1) as Hpop. destruct (pop_batch (count w) c1 false) as [c3 closed].
    destruct Hpop as (t & Ok3 & S3 & _). apply Hidle. destruct closed.
    + pose proof (discard_leads c3 0 Ok3) as HL. rewrite take_0 in HL. apply leads_seen in HL.
      unfold sound, tags. change (seen (set_conn_close true ?x)) with (seen x). rewrite HL. split; [by intros i s|constructor].
    + destruct Hsound as [He Hv]. unfold sound, tags. rewrite S3, fmap_drop. split; [|by apply Forall_drop].
      eapply calm_exclusive; [apply calm_drop|exact He].
Qed.

Lemma apply_sound env before after event acc sent wire : settings_ok conf -> env_ok env ->
  settled conf before acc sent wire -> waits conf before after -> Forall (fun o => small o.2) (completed after) ->
  sound before -> sound (apply conf env event after).
Proof.
  intros Hset Henv Hs Hw Hsmall HA. destruct (waits_inv conf _ _ _ _ _ Hs Hw Hsmall) as (outs & n & HP).
  pose proof (keeps_sound _ _ (drained_keeps env _ _ _ _ _ _ _ Hset Henv HP) HA) as HA1.
  destruct (drained conf Hset env _ _ _ _ _ _ _ Henv HP) as (Hd & _ & _). unfold apply. set (c := drain_completed conf env after) in *.
  assert (ring_ok (ring c)) as Hok by apply Hd.
  destruct event as [buf| | | |[|k]| | | |]; try exact HA1.
  - exact (keeps_sound _ _ (eof_keeps env c Hok) HA1).
  - exact (wrote_sound (now env) (S k) c _ _ _ Hd HA1).
  - exact (keeps_sound _ _ (mark_close_keeps env (set_draining true c) Hok) HA1).
Qed.

Lemma tick_sound env c acc sent wire : settings_ok conf -> env_ok env -> settled conf c acc sent wire ->
  sound c -> sound (tick conf env c).
Proof.
  intros Hset Henv Hs HA. destruct (before_start_steps conf env c acc sent wire Hset Henv Hs) as (acc2 & acc3 & [Ok1 I1] & [Ok2 I2] & Heq & Ok & Lv & HI).
  assert (sound (before_start conf env c)) as [He Hv].
  { rewrite Heq. apply (keeps_sound _ _ (process_input_keeps env _ _ acc2 sent wire Hset Henv Ok2 I2)).
    apply (keeps_sound _ _ (expire_keeps env _ acc sent wire Ok1 I1)). exact (keeps_sound _ _ (resume_keeps env c (settled_ring _ _ _ _ _ Hs)) HA). }
  rewrite tick_split. destruct (plan_fields env (start_runnable (before_start conf env c))) as (Hr & _).
  unfold sound, tags, seen. rewrite Hr. fold (seen (start_runnable (before_start conf env c))).
  rewrite (leads_seen _ _ _ (start_leads _ Ok Lv (waiting_idle conf _ (inv_entries _ _ _ _ _ _ HI)))).
  split; [by apply starts_exclusive|by apply starts_honest].
Qed.

Lemma reach_sound c accepted got wire : settings_ok conf -> Reach conf c accepted got wire -> sound c.
Proof.
  intros Hset. induction 1 as [sh now_ later_ Hs|c accepted got wire sh _ IH Hs|c accepted got wire env after now_ hb hn event env' HR IH before Henv Henv' Hmem Hf Hw Hsmall Hcan].
  - destruct (new_ok (F := RequestRecord)) as [_ Hv]. unfold sound, tags, seen. cbn [ring Conn_new]. rewrite Hv. split; [by intros i s|constructor].
  - exact IH.
  - destruct (reach_settled conf Hset c accepted got wire HR) as [sent Hse]. pose proof Hse as [Hok Hl HI Hd].
    destruct (tick_inv conf Hset env c accepted sent wire Henv Hok Hl HI Hd Hmem) as (A & B & C & D). fold before in A, B, C, D.
    apply (apply_sound env' before after event (accepted ++ drop (length (ids c)) (ids before)) sent wire); [done|done|by split|done..|].
    by apply (tick_sound env c accepted sent wire).
Qed.

Lemma head_started env c acc sent wire x : settings_ok conf -> env_ok env -> settled conf c acc sent wire ->
  seen (tick conf env c) !! 0%nat = Some x -> stage x.1 <> Waiting.
Proof.
  intros Hset Henv Hs. rewrite tick_split. destruct (plan_fields env (start_runnable (before_start conf env c))) as (Hr & _).
  unfold seen. rewrite Hr. fold (seen (start_runnable (before_start conf env c))).
  destruct (before_start_steps conf env c acc sent wire Hset Henv Hs) as (acc2 & acc3 & _ & _ & _ & Ok & Lv & HI).
  pose proof (inv_entries _ _ _ _ _ _ HI) as He. rewrite (leads_seen _ _ _ (start_leads _ Ok Lv (waiting_idle conf _ He))).
  destruct (seen (before_start conf env c)) as [|y v]; [done|]. apply Forall_cons in He as [Hy _]. cbn [starts lookup list_lookup]. intros [= <-].
  cbn [orb]. rewrite andb_true_r. destruct y as [e f]. unfold entry_ok in Hy. cbn [fst snd] in *. destruct (stage e) eqn:Hst; cbn [is_waiting fst]; try congruence.
  destruct Hy as (_ & r & Hr' & _). unfold start_seen. cbn [fst]. by rewrite Hr'.
Qed.

(** C3. Pipelined requests are processed together only when that is safe (RFC 9112 section
    9.3.2): whatever happened on a connection, when a turn has started its handlers, one that is
    not at the head of the ring runs only if its request, and every request before it, has
    one of the safe methods of RFC 9110 section 9.2.1, GET, HEAD, OPTIONS and TRACE, and each of
    those before it has its handler or its response; and the request at the head is never
    kept waiting for its handler.  The request of an entry is the head in the record it holds
    or, while its handler runs, in the record its handler was given. *)
Theorem unsafe_run_alone c accepted got wire env : settings_ok conf -> Reach conf c accepted got wire -> env_ok env ->
  let v := seen (tick conf env c) in
  (forall i j x y, (i < j)%nat -> v !! i = Some x -> v !! j = Some y -> stage y.1 = Running ->
    safe_request (id_of x) = true /\ safe_request (id_of y) = true /\ (stage x.1 = Running \/ stage x.1 = Done)) /\
  (forall x, v !! 0%nat = Some x -> stage x.1 <> Waiting).
Proof.
  intros Hset HR Henv v. destruct (reach_settled conf Hset c accepted got wire HR) as [sent Hs]. split.
  - destruct (tick_sound env c accepted sent wire Hset Henv Hs (reach_sound c accepted got wire Hset HR)) as [He Hv]. fold v in Hv.
    intros i j x y Hij Hx Hy Hrun. destruct (He j (safe y.1)) as [->|[Hsy Hall]]; [unfold tags; rewrite list_lookup_fmap; fold v; rewrite Hy; cbn; unfold tag; by rewrite Hrun|lia|].
    destruct (Hall i (tag x) Hij) as [H1 H2]; [unfold tags; rewrite list_lookup_fmap; fold v; by rewrite Hx|]. cbn in H1, H2.
    rewrite <- (Forall_lookup_1 _ _ _ _ Hv Hx), <- (Forall_lookup_1 _ _ _ _ Hv Hy).
    split; [done|]. split; [done|]. destruct (stage x.1); [done|done|by left|by right].
  - intros x. by eapply head_started.
Qed.
End starts.

(** Two requests with safe methods, both running. *)
Lemma unsafe_run_alone_witness : exists c accepted got wire x y,
  Reach example_settings c accepted got wire /\
  seen (tick example_settings (at_second 2) c) !! 0%nat = Some x /\ seen (tick example_settings (at_second 2) c) !! 1%nat = Some y /\
  stage x.1 = Running /\ stage y.1 = Running /\ safe_request (id_of x) = true /\ safe_request (id_of y) = true.
Proof.
  pose proof (reach_new example_settings example_shared 0 0 ltac:(constructor)) as R0.
  pose proof (reach_example_turn 1 (fun _ => Pending []) (ReadData (from_vec (example_request ++ example_request))) _ _ _ _ R0 ltac:(vm_compute; reflexivity)) as R1.
  specialize (R1 ltac:(split; [vm_compute; reflexivity|split; [reflexivity|split; [split; [reflexivity|by apply Z.ltb_lt]|vm_compute; lia]]])).
  match type of R1 with Reach _ ?c ?accepted ?got ?wire => exists c, accepted, got, wire end.
  destruct (unsafe_run_alone example_settings _ _ _ _ (at_second 2) example_settings_ok R1) as [Hall _]; [split; [by apply Z.leb_le|done]|].
  eexists _, _. split; [exact R1|]. split; [vm_compute; reflexivity|]. split; [vm_compute; reflexivity|]. split; [reflexivity|]. split; [reflexivity|].
  refine ((fun H => conj (proj1 H) (proj1 (proj2 H))) (Hall 0%nat 1%nat _ _ _ _ _ _)); [lia|vm_compute; reflexivity|vm_compute; reflexivity|reflexivity].
Defined.
