(* ===== verification/SseEncode.v ===== *)
(** * Server-sent events: writing a stream

    [zero-sse/src/encode.rs]: an event as field lines, a comment as comment lines, and
    the keep-alive schedule; with what the writer refuses and the lines of a payload
    against the line ends of WHATWG HTML Section 9.2.5.  A [str] is its octets. *)
From S2P Require Import Prelude Scalar Core Date.


Definition CONTENT_TYPE : bytes := bs "text/event-stream; charset=utf-8".
Definition RESPONSE_FIELDS : list (bytes * bytes) :=
  [(bs "Content-Type", CONTENT_TYPE); (bs "Cache-Control", bs "no-store")].
Definition KEEP_ALIVE_MS : Z := 15000.
Definition KEEP_ALIVE_COMMENT : bytes := [58; 10].

Record Event : Type := MkEvent {
  event : option bytes;
  id : option bytes;
  retry : option Z;
  data : option bytes;
}.

Definition check (field : string) (value : bytes) (nul_allowed : bool) : result Error unit :=
  let bad :=
    existsb (fun byte => (byte =? 13) || (byte =? 10) || (negb nul_allowed && (byte =? 0))) value in
  if bad then
    Err (Protocol ("an SSE `" +:+ field +:+ "` value may not hold CR or LF"
                   +:+ (if nul_allowed then "" else " or U+0000")))
  else Ok tt.

(** [text.get(from..)] *)
Definition get_from {A} (from : nat) (l : list A) : option (list A) :=
  if decide (from <= length l)%nat then Some (drop from l) else None.

(** A turn takes the line and its end off [rest]. *)
Fixpoint lines_loop (fuel : nat) (rest : option bytes) : list bytes :=
  match fuel, rest with
  | S fuel, Some text =>
      match position is_cr_or_lf text with
      | Some at_ =>
          let skip := if bool_decide (take 2 (drop at_ text) = [13; 10]) then 2%nat else 1%nat in
          take at_ text :: lines_loop fuel (get_from (at_ + skip) text)
      | None => text :: lines_loop fuel None
      end
  | _, _ => []
  end.
Definition lines (data : bytes) : list bytes := lines_loop (S (S (length data))) (Some data).

Definition field (out name value : bytes) : bytes := out ++ name ++ bs ": " ++ value ++ [10].

(** The loop of [decimal]: [start] and the digits written from it on. *)
Fixpoint decimal_loop (fuel : nat) (value : Z) (start : nat) (digits : bytes) : nat * bytes :=
  match fuel with
  | O => (start, digits)
  | S fuel =>
      let start := (start - 1)%nat in
      let digits := <[start := saturating_add 8 48 (value mod 10)]> digits in
      let value := value / 10 in
      if (value =? 0) || (start =? 0)%nat then (start, digits)
      else decimal_loop fuel value start digits
  end.
Definition decimal (value : Z) (digits : bytes) : bytes :=
  let (start, digits) := decimal_loop (length digits) value (length digits) digits in
  drop start digits.

Definition encode (event_ : Event) (out : bytes) : bytes * result Error unit :=
  match (match event event_ with Some name => check "event" name true | None => Ok tt end) with
  | Err e => (out, Err e)
  | Ok _ =>
  match (match id event_ with Some id => check "id" id false | None => Ok tt end) with
  | Err e => (out, Err e)
  | Ok _ =>
      let out := match event event_ with Some name => field out (bs "event") name | None => out end in
      let out := match id event_ with Some id => field out (bs "id") id | None => out end in
      let out := match retry event_ with
                 | Some retry => field out (bs "retry") (decimal retry (replicate 20 0))
                 | None => out end in
      let out := match data event_ with
                 | Some data => fold_left (fun out line => field out (bs "data") line) (lines data) out
                 | None => out end in
      (out ++ [10], Ok tt)
  end
  end.

Definition comment (text out : bytes) : bytes * result Error unit :=
  (fold_left (fun out line => out ++ [58] ++ line ++ [10]) (lines text) out, Ok tt).

(** ** The keep-alive schedule *)

Record KeepAlive : Type := MkKeepAlive { interval_ms : Z; last_ms : Z }.
Definition KeepAlive_new (interval_ms now_ms : Z) : KeepAlive := MkKeepAlive interval_ms now_ms.
Definition wrote (self : KeepAlive) (now_ms : Z) : KeepAlive :=
  MkKeepAlive (interval_ms self) (Z.max (last_ms self) now_ms).
Definition deadline (self : KeepAlive) : Z := saturating_add 64 (last_ms self) (interval_ms self).
Definition is_due (self : KeepAlive) (now_ms : Z) : bool := deadline self <=? now_ms.

Example encode_lines :
  (encode (MkEvent None None None (Some (bs "YHOO" ++ [10] ++ bs "+2" ++ [13; 10] ++ bs "10" ++ [13] ++ bs "end"))) []).1
  = bs "data: YHOO" ++ [10] ++ bs "data: +2" ++ [10] ++ bs "data: 10" ++ [10] ++ bs "data: end" ++ [10; 10].
Proof. vm_compute. reflexivity. Qed.
Example encode_all_fields :
  (encode (MkEvent (Some (bs "update")) (Some (bs "42")) (Some (2 ^ 64 - 1)) None) []).1
  = bs "event: update" ++ [10] ++ bs "id: 42" ++ [10] ++ bs "retry: 18446744073709551615" ++ [10; 10].
Proof. vm_compute. reflexivity. Qed.
Example comment_empty_lines : (comment [13; 13; 10] []).1 = [58; 10; 58; 10; 58; 10].
Proof. vm_compute. reflexivity. Qed.

(** ** The lines of a text

    A line ends at CRLF, at LF, or at CR. *)
Definition push_front (b : Z) (ls : list bytes) : list bytes :=
  match ls with [] => [[b]] | l :: ls => (b :: l) :: ls end.
Fixpoint pieces (text : bytes) : list bytes :=
  match text with
  | [] => [[]]
  | b :: rest =>
      if is_cr_or_lf b then
        [] :: match rest with
              | c :: rest' => if (b =? 13) && (c =? 10) then pieces rest' else pieces rest
              | [] => [[]]
              end
      else push_front b (pieces rest)
  end.

Lemma pieces_cons text : exists l ls, pieces text = l :: ls.
Proof.
  destruct text as [|b rest]; cbn [pieces]; [by eexists _, _|].
  destruct (is_cr_or_lf b); [by eexists _, _|]. destruct (pieces rest); by eexists _, _.
Qed.

Lemma pieces_run part rest :
  Forall (fun b => is_cr_or_lf b = false) part ->
  pieces (part ++ rest) = match pieces rest with [] => [] | l :: ls => (part ++ l) :: ls end.
Proof.
  induction 1 as [|b part Hb _ IH]; cbn [app pieces]; [by destruct (pieces rest)|].
  rewrite Hb, IH. destruct (pieces_cons rest) as (l & ls & ->). done.
Qed.

Lemma lines_loop_pieces n : forall text fuel, (length text <= n)%nat -> (length text + 1 < fuel)%nat ->
  lines_loop fuel (Some text) = pieces text.
Proof.
  induction n as [|n IH]; intros text [|fuel] Hn Hf; try lia.
  { destruct text; [|cbn in Hn; lia]. cbn. by destruct fuel. }
  cbn [lines_loop]. destruct (position is_cr_or_lf text) as [at_|] eqn:Hp.
  2: { apply position_None in Hp. pose proof (pieces_run text [] Hp) as H.
       cbn [pieces] in H. rewrite !app_nil_r in H. rewrite H. by destruct fuel. }
  apply position_Some in Hp as (b & Hb & Hc & Hpre).
  pose proof (lookup_lt_Some _ _ _ Hb) as Hlt. pose proof (drop_S _ _ _ Hb) as Hd.
  replace (pieces text) with (pieces (take at_ text ++ b :: drop (S at_) text)) by (by rewrite <- Hd, take_drop).
  rewrite Hd, pieces_run by done. cbn [pieces]. rewrite Hc, app_nil_r.
  f_equal. unfold get_from. assert (b = 13 \/ b = 10) as Hb13 by (unfold is_cr_or_lf in Hc; lia).
  destruct (drop (S at_) text) as [|c rest] eqn:Hrest.
  - pose proof (f_equal length Hrest) as Hl. rewrite length_drop in Hl. cbn [length] in Hl.
    rewrite bool_decide_eq_false_2 by (cbn [take]; congruence). rewrite decide_True, drop_ge by lia. apply IH; cbn [length]; lia.
  - change (take 2 (b :: c :: rest)) with [b; c]. assert (length (c :: rest) = length text - S at_)%nat as Hl by (by rewrite <- Hrest, length_drop).
    cbn [length] in Hl. destruct (bool_decide_reflect ([b; c] = [13; 10])) as [[= -> ->]|Hne].
    + cbn [Z.eqb andb]. rewrite decide_True by lia.
      replace (drop (at_ + 2) text) with rest.
      2: { replace (at_ + 2)%nat with (S at_ + 1)%nat by lia. rewrite <- drop_drop, Hrest. done. }
      apply IH; lia.
    + assert ((b =? 13) && (c =? 10) = false) as ->.
      { destruct (Z.eqb_spec b 13), (Z.eqb_spec c 10); try done. congruence. }
      rewrite decide_True by lia. replace (at_ + 1)%nat with (S at_) by lia. rewrite Hrest.
      apply IH; cbn [length]; lia.
Qed.

Lemma lines_pieces text : lines text = pieces text.
Proof. apply (lines_loop_pieces (length text)); lia. Qed.

Lemma pieces_plain n : forall text, (length text <= n)%nat ->
  Forall (Forall (fun b => is_cr_or_lf b = false)) (pieces text).
Proof.
  induction n as [|n IH]; intros [|b rest] Hn; cbn [length pieces] in *; try lia; [by repeat constructor..|].
  destruct (is_cr_or_lf b) eqn:Hb.
  - constructor; [constructor|]. destruct rest as [|c rest]; [by repeat constructor|]. cbn [length] in Hn.
    destruct ((b =? 13) && (c =? 10)); apply IH; cbn [length]; lia.
  - pose proof (IH rest ltac:(lia)) as H. destruct (pieces_cons rest) as (l & ls & E). rewrite E in *.
    cbn [push_front]. apply Forall_cons in H as [Hl Hls]. by repeat constructor.
Qed.

(** The text with every line end written as LF, which is how a client rejoins it. *)
Fixpoint with_lf (text : bytes) : bytes :=
  match text with
  | [] => []
  | b :: rest =>
      if b =? 13 then
        10 :: match rest with
              | c :: rest' => if c =? 10 then with_lf rest' else with_lf rest
              | [] => []
              end
      else b :: with_lf rest
  end.

(** Each line with LF after it. *)
Definition ended (ls : list bytes) : bytes := mbind (fun l => l ++ [10]) ls.

Lemma ended_pieces n : forall text, (length text <= n)%nat -> ended (pieces text) = with_lf text ++ [10].
Proof.
  induction n as [|n IH]; intros [|b rest] Hn; cbn [length pieces with_lf] in *; try lia; [done..|].
  unfold is_cr_or_lf. destruct (Z.eqb_spec b 13) as [->|H13]; cbn [orb].
  - cbn [ended mbind list_bind app]. f_equal. destruct rest as [|c rest]; [done|]. cbn [length] in Hn.
    destruct (c =? 10); cbn [andb]; apply IH; cbn [length]; lia.
  - destruct (Z.eqb_spec b 10) as [->|H10].
    + cbn [ended mbind list_bind app]. f_equal. rewrite <- (IH rest) by lia. by destruct rest.
    + rewrite <- app_comm_cons, <- (IH rest) by lia. by destruct (pieces_cons rest) as (l & ls & ->).
Qed.

Lemma ended_lines text : ended (lines text) = with_lf text ++ [10].
Proof. rewrite lines_pieces. by apply (ended_pieces (length text)). Qed.

(** ** Decimal digits *)

Lemma decimal_digits_loop fuel : forall value digits, 0 <= value ->
  decimal_loop fuel value fuel digits =
  let d := digits_loop fuel value (MkDecimal digits fuel) in (start d, buf d).
Proof.
  induction fuel as [|fuel IH]; intros value digits Hv; [done|].
  cbn [decimal_loop digits_loop Date.start Date.buf]. rewrite Nat.sub_1_r. cbn [Nat.pred].
  assert (saturating_add 8 48 (value mod 10) = wrapping_add 8 48 (value mod 10)) as ->.
  { unfold saturating_add, wrapping_add. pose proof (Z.mod_pos_bound value 10 ltac:(lia)). rewrite (Z.mod_small (48 + _)) by word_lia. word_lia. }
  destruct (value / 10 =? 0); cbn [orb]; [done|]. destruct fuel as [|fuel]; [done|]. cbn [Nat.eqb].
  apply IH. apply Z.div_pos; lia.
Qed.

Lemma decimal_written n : 0 <= n < 2 ^ 64 -> decimal n (replicate 20 0) = decimal_text n.
Proof.
  intros Hn. assert (0 <= n < 10 ^ Z.of_nat 20) as H20.
  { change (10 ^ Z.of_nat 20) with 100000000000000000000. pow2. lia. }
  unfold decimal. rewrite length_replicate, decimal_digits_loop by lia. cbn [fst snd].
  destruct (digits_loop_text 20 n (MkDecimal (replicate 20 0) 20) H20) as (H1 & _); [lia|cbn; lia|lia|].
  cbn [start buf] in H1. by rewrite H1, app_nil_r.
Qed.

(** ** What is written *)

Definition line_of (name value : bytes) : bytes := name ++ bs ": " ++ value ++ [10].
Definition line_if (name : bytes) (value : option bytes) : bytes :=
  match value with Some value => line_of name value | None => [] end.
Definition event_text (e : Event) : bytes :=
  line_if (bs "event") (event e) ++ line_if (bs "id") (id e)
  ++ line_if (bs "retry") (decimal_text <$> retry e)
  ++ match data e with Some data => mbind (line_of (bs "data")) (pieces data) | None => [] end
  ++ [10].
Definition comment_line (line : bytes) : bytes := [58] ++ line ++ [10].
Definition comment_text (text : bytes) : bytes := mbind comment_line (pieces text).

Lemma fold_append {A} (f : A -> bytes) l : forall out,
  fold_left (fun out x => out ++ f x) l out = out ++ mbind f l.
Proof.
  induction l as [|x l IH]; intros out; cbn [fold_left mbind list_bind]; [by rewrite app_nil_r|].
  by rewrite IH, <- app_assoc.
Qed.

Lemma comment_written text out : comment text out = (out ++ comment_text text, Ok tt).
Proof.
  unfold comment. rewrite lines_pieces. f_equal.
  apply (fold_append comment_line).
Qed.

Definition plain (nul_allowed : bool) (value : bytes) : Prop :=
  Forall (fun b => b <> 13 /\ b <> 10 /\ (nul_allowed = false -> b <> 0)) value.

Lemma check_plain field value nul_allowed : check field value nul_allowed = Ok tt <-> plain nul_allowed value.
Proof.
  unfold check, plain. destruct (existsb _ value) eqn:H.
  - split; [done|]. intros Hp. apply existsb_exists in H as (b & Hb%list_elem_of_In & Hbad).
    rewrite Forall_forall in Hp. destruct (Hp b Hb) as (H1 & H2 & H3). destruct nul_allowed; cbn in Hbad; lia.
  - split; [|done]. intros _. apply Forall_forall. intros b Hb%list_elem_of_In.
    rewrite <- not_true_iff_false, existsb_exists in H.
    repeat split; intros; intros ->; apply H; [exists 13|exists 10|exists 0]; (split; [done|]); by subst.
Qed.

(** What a client would take for the end of the line, or would ignore, is refused and
    nothing is written. *)
Definition sendable (e : Event) : Prop :=
  from_option (plain true) True (event e) /\ from_option (plain false) True (id e).

Lemma encode_written e out : from_option (word 64) True (retry e) ->
  sendable e -> encode e out = (out ++ event_text e, Ok tt).
Proof.
  intros Hr [He Hi]. unfold encode, event_text.
  assert ((match event e with Some name => check "event" name true | None => Ok tt end) = Ok tt) as ->.
  { destruct (event e); [by apply check_plain|done]. }
  assert ((match id e with Some i => check "id" i false | None => Ok tt end) = Ok tt) as ->.
  { destruct (id e); [by apply check_plain|done]. }
  f_equal. unfold field. destruct (data e) as [d|].
  - rewrite lines_pieces, (fold_append (line_of (bs "data"))).
    destruct (event e), (id e), (retry e); cbn [line_if fmap option_fmap option_map]; unfold line_of; cbn in Hr;
      rewrite ?decimal_written by done; by rewrite ?app_nil_l, <- ?app_assoc.
  - destruct (event e), (id e), (retry e); cbn [line_if fmap option_fmap option_map]; unfold line_of; cbn in Hr;
      rewrite ?decimal_written by done; by rewrite ?app_nil_l, <- ?app_assoc.
Qed.

Lemma encode_refused e out : ~ sendable e -> exists err, encode e out = (out, Err err).
Proof.
  intros Hs. unfold encode. unfold sendable in Hs.
  destruct (match event e with Some name => check "event" name true | None => Ok tt end) as [[]|err] eqn:He;
    [|by exists err].
  destruct (match id e with Some i => check "id" i false | None => Ok tt end) as [[]|err] eqn:Hi; [|by exists err].
  exfalso. apply Hs. split.
  - destruct (event e); cbn; [by apply check_plain in He|done].
  - destruct (id e); cbn; [by apply check_plain in Hi|done].
Qed.
