(* ===== verification/SseDecode.v ===== *)
(** * Server-sent events: reading a stream

    [zero-sse/src/decode.rs]: the incremental decoder of a client, and
    [last_event_id] of [lib.rs].  A chunk may end anywhere, so the decoder keeps the
    line in progress, whether the last octet was CR, and the octets that may be a byte
    order mark.  [octet] is what one octet does; the loop over lines is it on every
    octet, and so the chunks of a stream do not matter. *)
From stdpp Require Import pretty.
From S2P Require Import Prelude Scalar Core HttpTypes Utf8 Qs.
#[local] Open Scope Z_scope.

Definition STOP_RECONNECTING : Z := NO_CONTENT.

Definition last_event_id (value : bytes) : option bytes :=
  if bool_decide (value = []) || existsb (fun byte => (byte =? 0) || (byte =? 10) || (byte =? 13)) value
  then None
  else if from_utf8 value then Some value else None.

Definition BOM : bytes := [0xef; 0xbb; 0xbf].

Record Message : Type := MkMessage { event : bytes; data : bytes; id : bytes }.

#[global] Instance Message_eq_dec : EqDecision Message.
Proof. solve_decision. Defined.

Record Decoder : Type := MkDecoder {
  max_event : nat;
  head : bytes;
  bom_done : bool;
  after_cr : bool;
  line : bytes;
  data_buffer : bytes;
  event_type : bytes;
  last_id_buffer : bytes;
  last_id : bytes;
  retry : option Z;
}.

Definition new (max_event : nat) : Decoder := MkDecoder max_event [] false false [] [] [] [] [] None.

Definition set_head (d : Decoder) (v : bytes) (seen : bool) : Decoder :=
  let 'MkDecoder m _ _ a l b e i s r := d in MkDecoder m v seen a l b e i s r.
Definition set_after_cr (d : Decoder) (v : bool) : Decoder :=
  let 'MkDecoder m h f _ l b e i s r := d in MkDecoder m h f v l b e i s r.
Definition set_line (d : Decoder) (v : bytes) : Decoder :=
  let 'MkDecoder m h f a _ b e i s r := d in MkDecoder m h f a v b e i s r.
Definition set_data (d : Decoder) (v : bytes) : Decoder :=
  let 'MkDecoder m h f a l _ e i s r := d in MkDecoder m h f a l v e i s r.
Definition set_event_type (d : Decoder) (v : bytes) : Decoder :=
  let 'MkDecoder m h f a l b _ i s r := d in MkDecoder m h f a l b v i s r.
Definition set_last_id_buffer (d : Decoder) (v : bytes) : Decoder :=
  let 'MkDecoder m h f a l b e _ s r := d in MkDecoder m h f a l b e v s r.
Definition set_last_id (d : Decoder) (v : bytes) : Decoder :=
  let 'MkDecoder m h f a l b e i _ r := d in MkDecoder m h f a l b e i v r.
Definition set_retry (d : Decoder) (v : option Z) : Decoder :=
  let 'MkDecoder m h f a l b e i s _ := d in MkDecoder m h f a l b e i s v.

(** The decoder and the messages after a call, with its verdict. *)
Abbreviation outcome := (Decoder * list Message * result Error unit)%type.

Definition extend_line (self : Decoder) (part : bytes) : Decoder * result Error unit :=
  if (max_event self <? length (line self) + length part)%nat then
    (self, Err (Limit ("an event stream line passed " +:+ pretty (max_event self) +:+ " bytes")))
  else (set_line self (line self ++ part), Ok tt).

Definition dispatch (self : Decoder) (out : list Message) : Decoder * list Message :=
  let self := set_last_id self (from_utf8_lossy (last_id_buffer self)) in
  match data_buffer self with
  | [] => (set_event_type self [], out)
  | _ =>
      let self :=
        if bool_decide (last (data_buffer self) = Some 10)
        then set_data self (take (length (data_buffer self) - 1) (data_buffer self)) else self in
      let event :=
        match event_type self with [] => bs "message" | _ => from_utf8_lossy (event_type self) end in
      let out := out ++ [MkMessage event (from_utf8_lossy (data_buffer self)) (last_id self)] in
      (set_event_type (set_data self []) [], out)
  end.

Definition retry_value (value : bytes) : Z :=
  fold_left (fun total digit =>
    saturating_add 64 (saturating_mul 64 total 10) (saturating_sub digit 48)) value 0.

(** The field name and the value, one leading space of it removed. *)
Definition split_field (line : bytes) : bytes * bytes :=
  match position (fun byte => byte =? 58) line with
  | Some at_ =>
      let value := drop 1 (drop at_ line) in
      (take at_ line, match value with 32 :: value => value | _ => value end)
  | None => (line, [])
  end.

Definition process_field (self : Decoder) (line : bytes) (out : list Message) : outcome :=
  let (name, value) := split_field line in
  if bool_decide (name = bs "event") then (set_event_type self value, out, Ok tt)
  else if bool_decide (name = bs "data") then
    if (max_event self <? length (data_buffer self) + length value + 1)%nat then
      (self, out, Err (Limit ("an event's data passed " +:+ pretty (max_event self) +:+ " bytes")))
    else (set_data self (data_buffer self ++ value ++ [10]), out, Ok tt)
  else if bool_decide (name = bs "id") && negb (existsb (fun byte => byte =? 0) value) then
    (set_last_id_buffer self value, out, Ok tt)
  else if bool_decide (name = bs "retry") && negb (bool_decide (value = [])) && forallb is_digit value then
    (set_retry self (Some (retry_value value)), out, Ok tt)
  else (self, out, Ok tt).

Definition process (self : Decoder) (line : bytes) (out : list Message) : outcome :=
  match line with
  | [] => (dispatch self out, Ok tt)
  | first :: _ => if first =? 58 then (self, out, Ok tt) else process_field self line out
  end.

(** A turn takes the end of the line before, or a line and its end, or all that is left. *)
Fixpoint lines_loop (fuel : nat) (self : Decoder) (rest : bytes) (out : list Message) : outcome :=
  match fuel, rest with
  | O, _ | _, [] => (self, out, Ok tt)
  | S fuel, first :: tail =>
      if after_cr self && (first =? 10) then lines_loop fuel (set_after_cr self false) tail out
      else
        let self := set_after_cr self false in
        match find_cr_or_lf rest with
        | None => let (self, verdict) := extend_line self rest in (self, out, verdict)
        | Some at_ =>
            match extend_line self (take at_ rest) with
            | (self, Err e) => (self, out, Err e)
            | (self, Ok _) =>
                let tail := drop at_ rest in
                let self := set_after_cr self (bool_decide (tail !! 0%nat = Some 13)) in
                let rest := drop 1 tail in
                let line := line self in
                let self := set_line self [] in
                let '(self, out, verdict) := process self line out in
                let self := set_line self [] in
                match verdict with
                | Err e => (self, out, Err e)
                | Ok _ => lines_loop fuel self rest out
                end
            end
        end
  end.
Definition lines (self : Decoder) (rest : bytes) (out : list Message) : outcome :=
  lines_loop (length rest) self rest out.

Definition feed (self : Decoder) (chunk : bytes) (out : list Message) : outcome :=
  if negb (bom_done self) then
    let take_ := Nat.min (length BOM - length (head self)) (length chunk) in
    let head_ := head self ++ take take_ chunk in
    let chunk := drop take_ chunk in
    if (length head_ <? length BOM)%nat && bool_decide (take (length head_) BOM = head_) then
      (set_head self head_ false, out, Ok tt)
    else
      let self := set_head self [] true in
      match (if bool_decide (head_ <> BOM) then lines self head_ out else (self, out, Ok tt)) with
      | (self, out, Err e) => (self, out, Err e)
      | (self, out, Ok _) => lines self chunk out
      end
  else lines self chunk out.

Definition fed (text : bytes) : list Message * result Error unit * option Z :=
  let '(d, out, v) := feed (new 64) text [] in (out, v, retry d).

Example feed_two_lines : fed (bs "data: a" ++ [13; 10] ++ bs "data:b" ++ [10; 10])
  = ([MkMessage (bs "message") (bs "a" ++ [10] ++ bs "b") []], Ok tt, None).
Proof. vm_compute. reflexivity. Qed.
Example feed_bom_fields : fed (BOM ++ bs "event: e" ++ [13] ++ bs "id: 7" ++ [13] ++ bs "retry: 12" ++ [13] ++ bs "data" ++ [13; 13])
  = ([MkMessage (bs "e") [] (bs "7")], Ok tt, Some 12).
Proof. vm_compute. reflexivity. Qed.
Example feed_unfinished : fed (bs "data: never" ++ [10]) = ([], Ok tt, None).
Proof. vm_compute. reflexivity. Qed.
Example feed_long : (let '(_, v, _) := fed (repeat 97 65) in v)
  = Err (Limit "an event stream line passed 64 bytes").
Proof. vm_compute. reflexivity. Qed.

(** ** One octet *)

(** A complete line: the line in progress is processed and forgotten. *)
Definition end_line (self : Decoder) (out : list Message) : outcome :=
  let '(self', out, verdict) := process (set_line self []) (line self) out in
  (set_line self' [], out, verdict).

Definition octet (self : Decoder) (out : list Message) (b : Z) : outcome :=
  if after_cr self && (b =? 10) then (set_after_cr self false, out, Ok tt)
  else if is_cr_or_lf b then end_line (set_after_cr self (b =? 13)) out
  else let (self, verdict) := extend_line (set_after_cr self false) [b] in (self, out, verdict).

Fixpoint octets_run (self : Decoder) (l : bytes) (out : list Message) : outcome :=
  match l with
  | [] => (self, out, Ok tt)
  | b :: l =>
      match octet self out b with
      | (self, out, Err e) => (self, out, Err e)
      | (self, out, Ok _) => octets_run self l out
      end
  end.

(** What can be seen of a call: the messages, the verdict, and the decoder unless the
    stream was refused. *)
Definition same (x y : outcome) : Prop :=
  x.1.2 = y.1.2 /\ x.2 = y.2 /\ (is_ok x.2 = true -> x.1.1 = y.1.1).
#[export] Instance same_equiv : Equivalence same.
Proof.
  split; unfold same.
  - done.
  - intros x y (H1 & H2 & H). split; [done|]. split; [done|]. intros Hok. symmetry. apply H. by rewrite H2.
  - intros x y z (H1 & H2 & H) (H1' & H2' & H'). split; [congruence|]. split; [congruence|].
    intros Hok. rewrite H by done. apply H'. by rewrite <- H2.
Qed.

(** One call, then another unless it was refused. *)
Definition andThen (x : outcome) (k : Decoder -> list Message -> outcome) : outcome :=
  match x with (self, out, Err e) => (self, out, Err e) | (self, out, Ok _) => k self out end.

#[export] Instance andThen_same : Proper (same ==> pointwise_relation _ (pointwise_relation _ same) ==> same) andThen.
Proof.
  intros [[d o] [[]|e]] [[d' o'] [[]|e']] (Ho & Hv & Hd) k k' Hk; cbn in *; try done.
  rewrite Hd by done. subst. apply Hk.
Qed.

Lemma andThen_assoc x k k' : andThen (andThen x k) k' = andThen x (fun d o => andThen (k d o) k').
Proof. by destruct x as [[d o] [[]|e]]. Qed.

Lemma octets_run_app l m : forall d out, octets_run d (l ++ m) out = andThen (octets_run d l out) (fun d out => octets_run d m out).
Proof.
  induction l as [|b l IH]; intros d out; cbn [app octets_run]; [done|].
  destruct (octet d out b) as [[d' o] [[]|e]]; [apply IH|done].
Qed.

(** The line in progress is within the limit, and what may be a mark is the front of one. *)
Record wf (d : Decoder) : Prop := {
  wf_line : (length (line d) <= max_event d)%nat;
  wf_head : if bom_done d then head d = [] else (length (head d) < 3)%nat /\ take (length (head d)) BOM = head d;
}.

Ltac open_decoder d := destruct d as [? ?h ?f ?a ?ln ?buf ?ev ?i ?s ?r]; cbn [set_head set_after_cr set_line set_data set_event_type
  set_last_id_buffer set_last_id set_retry max_event head bom_done after_cr line data_buffer event_type
  last_id_buffer last_id retry] in *.

Lemma process_keeps d l out d' out' v : process d l out = (d', out', v) ->
  max_event d' = max_event d /\ head d' = head d /\ bom_done d' = bom_done d /\ after_cr d' = after_cr d /\ line d' = line d.
Proof.
  intros H. unfold process in H. destruct l as [|c l].
  - injection H as H _. apply (f_equal fst) in H. cbn [fst] in H. subst d'. unfold dispatch.
    open_decoder d. destruct buf; [done|]. by destruct (bool_decide _).
  - destruct (c =? 58); [by injection H as <- _ _|]. unfold process_field in H.
    destruct (split_field (c :: l)) as [name value]. open_decoder d.
    repeat match type of H with context [if ?c then _ else _] => destruct c end; by injection H as <- _ _.
Qed.

Lemma octet_wf d out b d' out' v : wf d -> octet d out b = (d', out', v) -> v = Ok tt -> wf d'.
Proof.
  intros [Hl Hh] H ->. unfold octet, end_line, extend_line in H.
  destruct (after_cr d && (b =? 10)); [injection H as <- _; split; by open_decoder d|].
  destruct (is_cr_or_lf b).
  - destruct (process _ _ out) as [[d1 o1] v1] eqn:Hp. apply process_keeps in Hp as (H1 & H2 & H3 & _).
    injection H as <- _ _. split; open_decoder d; open_decoder d1; subst; [cbn; lia|done].
  - destruct (Nat.ltb_spec (max_event (set_after_cr d false)) (length (line (set_after_cr d false)) + length [b])) as [|Hle];
      [done|]. injection H as <- _. split; open_decoder d; [rewrite length_app; cbn in *; lia|done].
Qed.

Lemma octets_run_wf l : forall d out d' out', wf d -> octets_run d l out = (d', out', Ok tt) -> wf d'.
Proof.
  induction l as [|b l IH]; intros d out d' out' Hw; cbn [octets_run]; [by intros [= <- _]|].
  destruct (octet d out b) as [[d1 o1] [[]|e]] eqn:Ho; [|done]. apply IH. by eapply octet_wf.
Qed.

(** ** The loop over lines is the octets one by one *)

Lemma set_after_cr_false d : after_cr d = false -> set_after_cr d false = d.
Proof. open_decoder d. by intros ->. Qed.

Lemma extend_line_run part : forall d out, after_cr d = false -> wf d ->
  Forall (fun b => is_cr_or_lf b = false) part ->
  same (let (d, v) := extend_line d part in (d, out, v)) (octets_run d part out).
Proof.
  induction part as [|b part IH]; intros d out Ha Hw Hp.
  { unfold extend_line. cbn [length octets_run]. rewrite Nat.add_0_r.
    destruct (Nat.ltb_spec (max_event d) (length (line d))); [destruct Hw; lia|].
    replace (set_line d (line d ++ [])) with d; [done|]. open_decoder d. by rewrite app_nil_r. }
  apply Forall_cons in Hp as [Hb Hp]. cbn [octets_run]. unfold octet. rewrite Ha, Hb, set_after_cr_false by done.
  cbn [andb]. unfold extend_line at 2. cbn [length].
  destruct (Nat.ltb_spec (max_event d) (length (line d) + 1)) as [Hlt|Hge].
  - unfold extend_line. cbn [length]. rewrite (proj2 (Nat.ltb_lt _ _)) by lia. done.
  - rewrite <- IH; [|by open_decoder d| |done].
    + unfold extend_line. open_decoder d. rewrite length_app. cbn [length]. rewrite <- Nat.add_assoc. cbn [Nat.add].
      destruct (_ <? _)%nat; [done|]. by rewrite <- app_assoc.
    + destruct Hw as [H1 H2]. split; open_decoder d; [rewrite length_app; cbn; lia|done].
Qed.

Lemma lines_loop_run n : forall fuel d rest out, (length rest <= n)%nat -> (length rest <= fuel)%nat -> wf d ->
  same (lines_loop fuel d rest out) (octets_run d rest out).
Proof.
  induction n as [|n IH]; intros [|fuel] d [|first tail] out Hn Hf Hw; cbn [length] in *; try lia; try done.
  cbn [lines_loop]. destruct (after_cr d && (first =? 10)) eqn:Hlf.
  { cbn [octets_run]. unfold octet at 1. rewrite Hlf. apply IH; [lia..|]. destruct Hw. split; by open_decoder d. }
  set (d0 := set_after_cr d false). set (rest := first :: tail) in *.
  assert (wf d0) as Hw0 by (destruct Hw; split; by subst d0; open_decoder d).
  assert (octets_run d rest out = octets_run d0 rest out) as ->.
  { subst rest. cbn [octets_run]. f_equal. unfold octet. rewrite Hlf. subst d0. open_decoder d. done. }
  assert (after_cr d0 = false) as Ha0 by (by subst d0; open_decoder d). clearbody d0.
  unfold find_cr_or_lf. destruct (position is_cr_or_lf rest) as [at_|] eqn:Hp.
  2: { apply position_None in Hp. by apply extend_line_run. }
  apply position_Some in Hp as (b & Hb & Hc & Hpre). pose proof (lookup_lt_Some _ _ _ Hb) as Hlt.
  pose proof (drop_S _ _ _ Hb) as Hd.
  assert (octets_run d0 rest out = octets_run d0 (take at_ rest ++ b :: drop (S at_) rest) out) as -> by (by rewrite <- Hd, take_drop).
  rewrite octets_run_app, <- (extend_line_run (take at_ rest) d0 out Ha0 Hw0 Hpre).
  destruct (extend_line d0 (take at_ rest)) as [d1 [[]|e]] eqn:He; [|done]. cbn [andThen].
  assert (wf d1 /\ after_cr d1 = false) as [Hw1 Ha1].
  { unfold extend_line in He. destruct (Nat.ltb_spec (max_event d0) (length (line d0) + length (take at_ rest))); [done|].
    injection He as <-. destruct Hw0. split; [split|]; open_decoder d0; by rewrite ?length_app. }
  cbn [octets_run]. unfold octet at 1. rewrite Ha1, Hc. cbn [andb]. unfold end_line.
  rewrite Hd. cbn [lookup list_lookup drop].
  assert (bool_decide (Some b = Some 13) = (b =? 13)) as ->.
  { destruct (Z.eqb_spec b 13) as [->|]; [by rewrite bool_decide_eq_true_2|rewrite bool_decide_eq_false_2; congruence]. }
  destruct (process _ _ out) as [[d2 o2] [[]|e]] eqn:Hpr; [|done].
  change (drop 0 (drop (S at_) rest)) with (drop (S at_) rest).
  apply IH; [rewrite length_drop; subst rest; cbn [length] in *; lia..|].
  apply process_keeps in Hpr as (H1 & H2 & H3 & _). destruct Hw1 as [_ Hh].
  split; open_decoder d1; open_decoder d2; subst; [cbn; lia|done].
Qed.

Lemma lines_run d rest out : wf d -> same (lines d rest out) (octets_run d rest out).
Proof. intros Hw. by apply (lines_loop_run (length rest)). Qed.

(** ** Chunks *)

(** The octets that may still be a byte order mark; the stream without its mark. *)
Definition may_be_mark (l : bytes) : bool := (length l <? 3)%nat && bool_decide (take (length l) BOM = l).
Definition unmarked (l : bytes) : bytes := if bool_decide (take 3 l = BOM) then drop 3 l else l.

Definition feed_plain (d : Decoder) (chunk : bytes) (out : list Message) : outcome :=
  if bom_done d then octets_run d chunk out
  else if may_be_mark (head d ++ chunk) then (set_head d (head d ++ chunk) false, out, Ok tt)
  else octets_run (set_head d [] true) (unmarked (head d ++ chunk)) out.

Lemma lines_then d l m out : wf d ->
  same (andThen (lines d l out) (fun d out => lines d m out)) (octets_run d (l ++ m) out).
Proof.
  intros Hw. rewrite octets_run_app.
  transitivity (andThen (octets_run d l out) (fun d out => lines d m out)).
  { apply (andThen_same _ _ (lines_run d l out Hw)). by intros ? ?. }
  destruct (octets_run d l out) as [[d' o'] [[]|e]] eqn:Hr; [|done]. apply lines_run. by eapply octets_run_wf.
Qed.

Lemma feed_same d chunk out : wf d -> same (feed d chunk out) (feed_plain d chunk out).
Proof.
  intros Hwf. pose proof Hwf as [Hl Hh]. unfold feed, feed_plain. destruct (bom_done d) eqn:Hb; cbn [negb]; [by apply lines_run|].
  destruct Hh as [Hlen Hpre]. change (length BOM) with 3%nat. set (k := Nat.min (3 - length (head d)) (length chunk)).
  assert (take 3 (head d ++ chunk) = head d ++ take k chunk) as Ht.
  { rewrite take_app_ge by lia. f_equal. unfold k. destruct (Nat.min_spec (3 - length (head d)) (length chunk)) as [[? ->]|[? ->]]; [done|].
    by rewrite !take_ge by lia. }
  assert (length (head d ++ take k chunk) = Nat.min 3 (length (head d ++ chunk))) as Hlk by (rewrite <- Ht; by rewrite length_take).
  assert (head d ++ chunk = (head d ++ take k chunk) ++ drop k chunk) as Hsplit by (by rewrite <- app_assoc, take_drop).
  assert (wf (set_head d [] true)) as Hw by (split; by open_decoder d).
  unfold may_be_mark. destruct (Nat.ltb_spec (length (head d ++ take k chunk)) 3) as [Hs|Hs]; cbn [andb].
  - assert (drop k chunk = []) as Hnil.
    { apply length_zero_iff_nil. apply (f_equal length) in Hsplit. rewrite (length_app (_ ++ _) (drop k chunk)) in Hsplit. lia. }
    rewrite Hnil, app_nil_r in Hsplit. rewrite Hsplit, (proj2 (Nat.ltb_lt _ _) Hs). cbn [andb].
    destruct (bool_decide_reflect (take (length (head d ++ take k chunk)) BOM = head d ++ take k chunk)) as [|Hno]; [done|].
    unfold unmarked. rewrite bool_decide_eq_true_2 by (intros E; rewrite E in Hs; cbn in Hs; lia).
    rewrite bool_decide_eq_false_2.
    2: { rewrite (take_ge (head d ++ _)) by lia. intros E. rewrite E in Hs. cbn in Hs. lia. }
    pose proof (lines_then _ (head d ++ take k chunk) (drop k chunk) out Hw) as H. rewrite Hnil in H |- *. by rewrite app_nil_r in H.
  - rewrite (proj2 (Nat.ltb_ge _ _)) by lia. cbn [andb]. unfold unmarked. rewrite Ht.
    destruct (bool_decide_reflect (head d ++ take k chunk = BOM)) as [E|E].
    + rewrite bool_decide_eq_false_2 by (intros H; by apply H). rewrite Hsplit, E.
      change (drop 3 (BOM ++ drop k chunk)) with (drop k chunk). by apply lines_run.
    + rewrite bool_decide_eq_true_2 by done. rewrite Hsplit. by apply lines_then.
Qed.

Lemma feed_plain_wf d chunk out d' out' : wf d -> feed_plain d chunk out = (d', out', Ok tt) -> wf d'.
Proof.
  intros [Hl Hh]. unfold feed_plain. destruct (bom_done d) eqn:Hb.
  { apply octets_run_wf. split; by rewrite ?Hb. }
  destruct (may_be_mark _) eqn:Hm.
  - intros [= <- _]. apply andb_true_iff in Hm as [H1%Nat.ltb_lt H2%bool_decide_eq_true]. split; by open_decoder d.
  - apply octets_run_wf. split; by open_decoder d.
Qed.

Lemma unmarked_app l m : may_be_mark l = false -> unmarked (l ++ m) = unmarked l ++ m.
Proof.
  unfold may_be_mark, unmarked. intros H. destruct (Nat.ltb_spec (length l) 3) as [Hs|Hs]; cbn [andb] in H.
  - apply bool_decide_eq_false in H. rewrite !bool_decide_eq_false_2; [done| |].
    + rewrite take_ge by lia. intros ->. cbn in Hs. lia.
    + intros E. apply H. rewrite <- E, take_take, Nat.min_l by lia. by rewrite take_app_length.
  - rewrite take_app_le by lia. destruct (bool_decide _); [|done]. by rewrite drop_app_le by lia.
Qed.

Lemma may_be_mark_app l m : may_be_mark (l ++ m) = true -> may_be_mark l = true.
Proof.
  unfold may_be_mark. rewrite !andb_true_iff, !Nat.ltb_lt, !bool_decide_eq_true, length_app. intros [H1 H2]. split; [lia|].
  apply (f_equal (take (length l))) in H2. by rewrite take_take, Nat.min_l, take_app_length in H2 by lia.
Qed.

Lemma octet_bom d out b d' out' v : octet d out b = (d', out', v) -> bom_done d' = bom_done d.
Proof.
  unfold octet, end_line, extend_line. destruct (after_cr d && (b =? 10)); [intros [= <- _ _]; by open_decoder d|].
  destruct (is_cr_or_lf b).
  - destruct (process _ _ out) as [[d2 o2] v2] eqn:Hp. apply process_keeps in Hp as (_ & _ & H3 & _).
    intros [= <- _ _]. open_decoder d. open_decoder d2. by subst.
  - destruct (_ <? _)%nat; intros [= <- _ _]; by open_decoder d.
Qed.

Lemma octets_run_bom l : forall d out d' out' v, octets_run d l out = (d', out', v) -> bom_done d' = bom_done d.
Proof.
  induction l as [|b l IH]; intros d out d' out' v; cbn [octets_run]; [by intros [= <- _ _]|].
  destruct (octet d out b) as [[d1 o1] [[]|e]] eqn:Ho; apply octet_bom in Ho as <-; [apply IH|by intros [= <- _ _]].
Qed.

Lemma unmarked_feed_app d a b out :
  feed_plain d (a ++ b) out = andThen (feed_plain d a out) (fun d out => feed_plain d b out).
Proof.
  assert (forall d l, bom_done d = true -> octets_run d (l ++ b) out
    = andThen (octets_run d l out) (fun d out => feed_plain d b out)) as Hdone.
  { intros d0 l Hb. rewrite octets_run_app. destruct (octets_run d0 l out) as [[d' o'] [[]|e]] eqn:Hr; [|done].
    apply octets_run_bom in Hr. cbn [andThen]. unfold feed_plain. by rewrite Hr, Hb. }
  unfold feed_plain at 1 2. destruct (bom_done d) eqn:Hb; [by apply Hdone|].
  rewrite app_assoc. destruct (may_be_mark (head d ++ a)) eqn:Ha; cbn [andThen].
  { unfold feed_plain. open_decoder d. by subst. }
  destruct (may_be_mark ((head d ++ a) ++ b)) eqn:Hab; [apply may_be_mark_app in Hab; congruence|].
  rewrite unmarked_app by done. apply Hdone. by open_decoder d.
Qed.

(** A client feeds chunk after chunk and stops at the first error. *)
Fixpoint feed_all (d : Decoder) (chunks : list bytes) (out : list Message) : outcome :=
  match chunks with
  | [] => (d, out, Ok tt)
  | chunk :: chunks =>
      match feed d chunk out with
      | (d, out, Err e) => (d, out, Err e)
      | (d, out, Ok _) => feed_all d chunks out
      end
  end.

Lemma unmarked_feed_all chunks : forall d out, wf d -> same (feed_all d chunks out) (feed_plain d (concat chunks) out).
Proof.
  induction chunks as [|chunk chunks IH]; intros d out Hw; cbn [feed_all concat].
  - unfold feed_plain. destruct Hw as [_ Hh]. destruct (bom_done d) eqn:Hb; [done|]. destruct Hh as [H1 H2].
    rewrite app_nil_r. unfold may_be_mark. rewrite (proj2 (Nat.ltb_lt _ _) H1), bool_decide_eq_true_2 by done. cbn [andb].
    split; [done|]. split; [done|]. intros _. open_decoder d. by subst.
  - rewrite unmarked_feed_app. change (same (andThen (feed d chunk out) (fun d out => feed_all d chunks out))
      (andThen (feed_plain d chunk out) (fun d out => feed_plain d (concat chunks) out))).
    pose proof (feed_same d chunk out Hw) as Hf.
    transitivity (andThen (feed_plain d chunk out) (fun d out => feed_all d chunks out)).
    { apply (andThen_same _ _ Hf). by intros ? ?. }
    destruct (feed_plain d chunk out) as [[d' o'] [[]|e]] eqn:Hp; [|done]. apply IH. by eapply feed_plain_wf.
Qed.

(** However a stream is cut into chunks, the messages, the verdict and, when nothing was
    refused, the decoder are those of one chunk. *)
Lemma chunks_do_not_show d chunks out : wf d -> same (feed_all d chunks out) (feed d (concat chunks) out).
Proof. intros Hw. rewrite unmarked_feed_all by done. symmetry. by apply feed_same. Qed.

Lemma new_wf m : wf (new m).
Proof. split; cbn; [lia|]. split; [lia|done]. Qed.
