(* ===== verification/SseStream.v ===== *)
(** * Server-sent events: what is written is what is heard

    The writer of [SseEncode] against the decoder of [SseDecode]: the events of a server,
    with comments between them, reach the client as messages whatever the cuts of the
    stream, and nothing in a payload or a comment becomes a field. *)
From S2P Require Import Prelude Scalar Core Date Utf8 Qs SseEncode SseDecode.

(** ** What a server says and a client hears *)

Inductive Item : Type := Said (e : Event) | Noted (text : bytes).

Definition write_item (item : Item) (out : bytes) : bytes * result Error unit :=
  match item with Said e => encode e out | Noted text => comment text out end.

Fixpoint write_items (items : list Item) (out : bytes) : result Error bytes :=
  match items with
  | [] => Ok out
  | item :: items =>
      match write_item item out with
      | (out, Ok _) => write_items items out
      | (_, Err e) => Err e
      end
  end.

(** The client's last event ID and reconnection time. *)
Record Heard : Type := MkHeard { heard_id : bytes; heard_retry : option Z }.

Definition hear (h : Heard) (item : Item) : Heard * list Message :=
  match item with
  | Noted _ => (h, [])
  | Said e =>
      let heard := MkHeard (default (heard_id h) (SseEncode.id e))
                     (match SseEncode.retry e with Some ms => Some ms | None => heard_retry h end) in
      let name := match SseEncode.event e with None | Some [] => bs "message" | Some name => name end in
      (heard, match SseEncode.data e with
              | Some text => [MkMessage name (with_lf text) (heard_id heard)]
              | None => [] end)
  end.

Fixpoint hear_all (h : Heard) (items : list Item) : Heard * list Message :=
  match items with
  | [] => (h, [])
  | item :: items =>
      let (h, ms) := hear h item in
      let (h, ms') := hear_all h items in (h, ms ++ ms')
  end.

(** A [str] is the octets of a text; a reconnection time is a word. *)
Definition str (s : bytes) : Prop := octets s /\ utf8 s.
Definition text_item (item : Item) : Prop :=
  match item with
  | Said e =>
      from_option str True (SseEncode.event e) /\ from_option str True (SseEncode.id e)
      /\ from_option (word 64) True (SseEncode.retry e) /\ from_option str True (SseEncode.data e)
  | Noted text => str text
  end.

Definition item_text (item : Item) : bytes :=
  match item with Said e => event_text e | Noted text => comment_text text end.

Lemma write_item_ok item out out' : text_item item -> write_item item out = (out', Ok tt) ->
  out' = out ++ item_text item /\ match item with Said e => sendable e | Noted _ => True end.
Proof.
  destruct item as [e|text]; cbn [write_item item_text text_item].
  - intros (_ & _ & Hr & _) H. assert (Decision (sendable e)) as [Hs|Hs].
    { unfold sendable, plain. destruct (SseEncode.event e), (SseEncode.id e); cbn; apply _. }
    + rewrite encode_written in H by done. by injection H as <-.
    + destruct (encode_refused e out Hs) as [err He]. congruence.
  - intros _. rewrite comment_written. by intros [= <-].
Qed.

(** ** Texts *)

Lemma encode_char_high c : scalar c -> c <> 13 -> c <> 10 ->
  Forall (fun b => is_cr_or_lf b = false) (encode_char c).
Proof.
  unfold scalar, encode_char, is_cr_or_lf. intros Hc H13 H10.
  destruct (Z.ltb_spec c 0x80); [repeat constructor; lia|].
  destruct (Z.ltb_spec c 0x800); [|destruct (Z.ltb_spec c 0x10000)];
    repeat constructor; Z.to_euclidean_division_equations; lia.
Qed.

Lemma with_lf_run part rest : Forall (fun b => is_cr_or_lf b = false) part ->
  with_lf (part ++ rest) = part ++ with_lf rest.
Proof.
  induction 1 as [|b part Hb _ IH]; cbn [app with_lf]; [done|]. unfold is_cr_or_lf in Hb.
  destruct (Z.eqb_spec b 13); [done|]. by rewrite IH.
Qed.

Lemma utf8_with_lf n : forall cs, (length cs <= n)%nat -> Forall scalar cs -> utf8 (with_lf (mbind encode_char cs)).
Proof.
  assert (utf8 [10]) as Hlf by (by apply utf8_char).
  induction n as [|n IH]; intros [|c cs] Hn Hs; cbn [length] in *; try lia; [apply utf8_nil..|].
  apply Forall_cons in Hs as [Hc Hs]. cbn [mbind list_bind]. destruct (decide (c = 13)) as [->|H13].
  - cbn [encode_char Z.ltb Z.compare app with_lf Z.eqb]. change (encode_char 13) with [13]. cbn [app with_lf Z.eqb Pos.eqb].
    destruct cs as [|c' cs]; [done|]. cbn [mbind list_bind length] in *. apply Forall_cons in Hs as [Hc' Hs].
    destruct (decide (c' = 10)) as [->|H10].
    + change (encode_char 10) with [10]. cbn [app Z.eqb Pos.eqb]. apply (utf8_app [10]); [done|]. apply IH; [lia|done].
    + assert (utf8 (with_lf (encode_char c' ++ mbind encode_char cs))) as H.
      { apply (IH (c' :: cs)); [cbn; lia|by constructor]. }
      destruct (encode_char c' ++ mbind encode_char cs) as [|b rest] eqn:E; [done|].
      assert ((b =? 10) = false) as ->; [|by apply (utf8_app [10])].
      apply Z.eqb_neq. intros ->. unfold encode_char, scalar in *. revert E.
      destruct (Z.ltb_spec c' 0x80); [|destruct (Z.ltb_spec c' 0x800); [|destruct (Z.ltb_spec c' 0x10000)]];
        cbn [app]; intros [= E _]; revert E; Z.to_euclidean_division_equations; lia.
  - destruct (decide (c = 10)) as [->|H10].
    + change (encode_char 10) with [10]. cbn [app with_lf Z.eqb Pos.eqb]. apply (utf8_app [10]); [done|]. apply IH; [lia|done].
    + rewrite with_lf_run by (by apply encode_char_high). apply utf8_app; [|apply IH; [lia|done]].
      apply utf8_char. by apply is_char_encode.
Qed.

Lemma octets_with_lf n : forall l, (length l <= n)%nat -> octets l -> octets (with_lf l).
Proof.
  induction n as [|n IH]; intros [|b l] Hn Ho; cbn [length with_lf] in *; try lia; [constructor..|].
  apply Forall_cons in Ho as [Hb Ho]. destruct (b =? 13).
  - constructor; [word_lia|]. destruct l as [|c l]; [constructor|]. cbn [length] in Hn.
    destruct (c =? 10); [|apply IH; [cbn; lia|done]]. apply Forall_cons in Ho as [_ Ho]. apply IH; [lia|done].
  - constructor; [done|]. apply IH; [lia|done].
Qed.

Lemma str_with_lf s : str s -> str (with_lf s).
Proof.
  intros [Ho (cs & Hcs & ->)]. split; [by eapply octets_with_lf|]. by eapply (utf8_with_lf (length cs)).
Qed.

Lemma str_lossy s : str s -> from_utf8_lossy s = s.
Proof. intros [Ho Hu]. by apply lossy_utf8. Qed.

(** ** One line *)

Definition plain_line (l : bytes) : Prop := Forall (fun b => is_cr_or_lf b = false) l.

(** A decoder between lines. *)
Definition between (m : nat) (b e i s : bytes) (r : option Z) : Decoder := MkDecoder m [] true false [] b e i s r.

Lemma run_line m b e i s r l out : plain_line l -> (length l <= m)%nat ->
  octets_run (between m b e i s r) (l ++ [10]) out =
  let '(d, out, v) := process (between m b e i s r) l out in (set_line d [], out, v).
Proof.
  intros Hp Hl. rewrite octets_run_app.
  assert (forall k, Forall (fun b => is_cr_or_lf b = false) l -> (length k + length l <= m)%nat ->
    octets_run (MkDecoder m [] true false k b e i s r) l out = (MkDecoder m [] true false (k ++ l) b e i s r, out, Ok tt)) as Hrun.
  { clear Hp Hl. induction l as [|c l IH]; intros k Hp Hl; cbn [octets_run length] in *; [by rewrite app_nil_r|].
    apply Forall_cons in Hp as [Hc Hp]. unfold octet. cbn [after_cr andb]. rewrite Hc. unfold extend_line. cbn [max_event line set_after_cr set_line length].
    rewrite (proj2 (Nat.ltb_ge _ _)) by lia. rewrite IH; [by rewrite <- app_assoc|done|]. rewrite length_app. cbn. lia. }
  unfold between at 1. rewrite Hrun by (done || cbn; lia). cbn [app andThen octets_run]. unfold octet. cbn [after_cr andb].
  unfold is_cr_or_lf, end_line. cbn [Z.eqb Pos.eqb orb set_after_cr set_line line]. change (MkDecoder m [] true false [] b e i s r) with (between m b e i s r).
  destruct (process _ l out) as [[d o] [[]|err]]; done.
Qed.

Lemma run_field m b e i s r name value out :
  plain_line name -> plain_line value -> (length name + 2 + length value <= m)%nat ->
  Forall (fun c => (c =? 58) = false) name -> name <> [] ->
  octets_run (between m b e i s r) (line_of name value) out =
  let '(d, out, v) := process_field (between m b e i s r) (name ++ bs ": " ++ value) out in (set_line d [], out, v).
Proof.
  intros Hn Hv Hl Hc Hne. unfold line_of.
  replace (name ++ bs ": " ++ value ++ [10]) with ((name ++ bs ": " ++ value) ++ [10]) by (by rewrite <- !app_assoc).
  rewrite run_line.
  - destruct name as [|c name]; [done|]. cbn [app process]. apply Forall_cons in Hc as [-> _]. done.
  - apply Forall_app_2; [done|]. apply Forall_app_2; [by repeat constructor|done].
  - rewrite !length_app. cbn. lia.
Qed.

Lemma split_written name value : Forall (fun c => (c =? 58) = false) name ->
  split_field (name ++ bs ": " ++ value) = (name, value).
Proof.
  intros Hc. unfold split_field.
  assert (position (fun byte => byte =? 58) (name ++ bs ": " ++ value) = Some (length name)) as ->.
  { apply position_Some. exists 58. change (bs ": " ++ value) with (58 :: 32 :: value).
    rewrite list_lookup_middle by done. by rewrite take_app_length. }
  by rewrite take_app_length, drop_app_length.
Qed.

Ltac written_field :=
  rewrite run_field; [|by repeat constructor|done|cbn; lia|by repeat constructor|done];
  unfold process_field; rewrite split_written by (by repeat constructor); cbn [between].

Section fields.
Context (m : nat) (b e i s : bytes) (r : option Z) (out : list Message) (value : bytes).
Hypothesis value_plain : plain_line value.

Lemma run_event : (7 + length value <= m)%nat ->
  octets_run (between m b e i s r) (line_of (bs "event") value) out = (between m b value i s r, out, Ok tt).
Proof. intros Hl. by written_field. Qed.

Lemma run_id : (4 + length value <= m)%nat -> Forall (fun c => c <> 0) value ->
  octets_run (between m b e i s r) (line_of (bs "id") value) out = (between m b e value s r, out, Ok tt).
Proof.
  intros Hl H0. written_field. cbn [bool_decide decide andb].
  assert (existsb (fun byte => byte =? 0) value = false) as ->; [|done].
  apply not_true_iff_false. rewrite existsb_exists. intros (x & Hx%list_elem_of_In & E).
  rewrite Forall_forall in H0. specialize (H0 x Hx). lia.
Qed.

Lemma run_data_field : (6 + length value <= m)%nat -> (length b + length value + 1 <= m)%nat ->
  octets_run (between m b e i s r) (line_of (bs "data") value) out = (between m (b ++ value ++ [10]) e i s r, out, Ok tt).
Proof.
  intros Hl Hb. written_field. rewrite bool_decide_eq_false_2, bool_decide_eq_true_2 by done.
  cbn [between max_event data_buffer set_data].
  rewrite (proj2 (Nat.ltb_ge _ _)) by lia. done.
Qed.
End fields.

(** The digits of a word are read back: no product saturates. *)
Lemma retry_value_from l : forall acc, 0 <= acc -> Forall (fun b => 48 <= b <= 57) l -> value_from acc l < 2 ^ 64 ->
  fold_left (fun total digit => saturating_add 64 (saturating_mul 64 total 10) (saturating_sub digit 48)) l acc
  = value_from acc l.
Proof.
  induction l as [|b l IH]; intros acc Ha Hd Hv; [done|]. apply Forall_cons in Hd as [Hb Hd].
  unfold value_from in *. cbn [fold_left] in *. fold (value_from (acc * 10 + (b - 48)) l) in *.
  assert (forall l acc, 0 <= acc -> Forall (fun b => 48 <= b <= 57) l -> acc <= value_from acc l) as Hmono.
  { clear. induction l as [|b l IH]; intros acc Ha Hd; [cbn; lia|]. apply Forall_cons in Hd as [Hb Hd].
    unfold value_from in *. cbn [fold_left]. specialize (IH (acc * 10 + (b - 48)) ltac:(lia) Hd). lia. }
  pose proof (Hmono l (acc * 10 + (b - 48)) ltac:(lia) Hd).
  replace (saturating_add 64 (saturating_mul 64 acc 10) (saturating_sub b 48)) with (acc * 10 + (b - 48)).
  2: { unfold saturating_add, saturating_mul, saturating_sub. pow2. lia. }
  apply IH; [lia|done..].
Qed.

Lemma run_retry m b e i s r out value : Forall (fun b => 48 <= b <= 57) value -> value <> [] ->
  value_from 0 value < 2 ^ 64 -> (7 + length value <= m)%nat ->
  octets_run (between m b e i s r) (line_of (bs "retry") value) out
  = (between m b e i s (Some (value_from 0 value)), out, Ok tt).
Proof.
  intros Hd Hne Hv Hl.
  assert (plain_line value).
  { eapply Forall_impl; [exact Hd|]. intros c Hc. unfold is_cr_or_lf. cbn beta in Hc. lia. }
  written_field. rewrite !(bool_decide_eq_false_2 (bs "retry" = _)), bool_decide_eq_true_2, bool_decide_eq_false_2 by done.
  assert (forallb is_digit value = true) as ->.
  { apply forallb_forall. intros c Hc%list_elem_of_In. rewrite Forall_forall in Hd. specialize (Hd c Hc).
    cbn beta in Hd. unfold is_digit. lia. }
  cbn [andb negb between set_retry set_line]. unfold retry_value. by rewrite retry_value_from.
Qed.

Lemma run_retry_written m b e i s r out n : 0 <= n < 2 ^ 64 -> (7 + length (decimal_text n) <= m)%nat ->
  octets_run (between m b e i s r) (line_of (bs "retry") (decimal_text n)) out = (between m b e i s (Some n), out, Ok tt).
Proof.
  intros Hn Hl. assert (0 <= n < 10 ^ Z.of_nat 20) as H20.
  { change (10 ^ Z.of_nat 20) with 100000000000000000000. pow2. lia. }
  assert (value_from 0 (decimal_text n) = n) as Hv by (by apply digits_value).
  rewrite run_retry; [by rewrite Hv|apply digits_digit; lia| |lia|done].
  unfold decimal_text. cbn [digits]. by destruct (if n / 10 =? 0 then _ else _).
Qed.

(** ** The lines of a payload *)

Lemma run_data_lines m e i s r out ls : forall b, Forall plain_line ls ->
  (length b + length (mbind (line_of (bs "data")) ls) <= m)%nat ->
  octets_run (between m b e i s r) (mbind (line_of (bs "data")) ls) out = (between m (b ++ ended ls) e i s r, out, Ok tt).
Proof.
  induction ls as [|l ls IH]; intros b Hp Hl; cbn [mbind list_bind ended] in *; [by rewrite app_nil_r|].
  apply Forall_cons in Hp as [Hpl Hp]. rewrite octets_run_app.
  assert (length (line_of (bs "data") l) = 7 + length l)%nat as Hll by (unfold line_of; rewrite !length_app; cbn; lia).
  rewrite length_app in Hl. rewrite run_data_field by (done || lia). cbn [andThen].
  rewrite IH; [by rewrite <- !app_assoc|done|]. rewrite !length_app. cbn [length]. lia.
Qed.

Lemma run_comment m b e i s r out ls : Forall plain_line ls ->
  (length (mbind comment_line ls) <= m)%nat ->
  octets_run (between m b e i s r) (mbind comment_line ls) out = (between m b e i s r, out, Ok tt).
Proof.
  induction ls as [|l ls IH]; intros Hp Hl; cbn [mbind list_bind] in *; [done|].
  apply Forall_cons in Hp as [Hpl Hp]. rewrite octets_run_app. rewrite length_app in Hl.
  change (comment_line l) with ((58 :: l) ++ [10]) in *. rewrite length_app in Hl. cbn [length] in Hl.
  rewrite run_line; [|by constructor|cbn; lia]. cbn [process Z.eqb Pos.eqb between set_line andThen]. apply IH; [done|]. lia.
Qed.

Lemma run_blank m b e i s r out :
  octets_run (between m b e i s r) [10] out =
  let '(d, out) := dispatch (between m b e i s r) out in (set_line d [], out, Ok tt).
Proof.
  rewrite (run_line m b e i s r []) by (by constructor || cbn; lia). cbn [process].
  by destruct (dispatch _ out) as [d o].
Qed.

(** ** A whole item *)

(** Between events a client holds the ID and the time it heard. *)
Definition listening (m : nat) (h : Heard) : Decoder :=
  between m [] [] (heard_id h) (heard_id h) (heard_retry h).

Lemma run_line_if (name : bytes) (value : option bytes) (step : bytes -> Decoder) d out :
  (forall v, value = Some v -> octets_run d (line_of name v) out = (step v, out, Ok tt)) ->
  octets_run d (line_if name value) out = (match value with Some v => step v | None => d end, out, Ok tt).
Proof. intros H. destruct value as [v|]; [by apply H|done]. Qed.

Lemma plain_ends nul value : plain nul value -> plain_line value.
Proof. intros H. eapply Forall_impl; [exact H|]. intros b (H1 & H2 & _). unfold is_cr_or_lf. lia. Qed.

Lemma dispatch_data m b e i s r out : str i -> str e -> str b ->
  dispatch (between m (b ++ [10]) e i s r) out =
  (between m [] [] i i r, out ++ [MkMessage (match e with [] => bs "message" | _ => e end) b i]).
Proof.
  intros Hi He Hb. unfold dispatch, between. cbn [set_last_id last_id_buffer data_buffer].
  rewrite last_snoc, bool_decide_eq_true_2, str_lossy by done.
  destruct (b ++ [10]) as [|c rest] eqn:E; [by destruct b|]. rewrite <- E.
  cbn [set_data data_buffer event_type last_id set_event_type]. rewrite length_app. cbn [length].
  rewrite Nat.add_sub, take_app_length, (str_lossy b) by done. by destruct e; [|rewrite str_lossy].
Qed.

Lemma run_event_text m h e out : str (heard_id h) -> text_item (Said e) -> sendable e ->
  (length (event_text e) <= m)%nat ->
  let (h', ms) := hear h (Said e) in
  str (heard_id h') /\ octets_run (listening m h) (event_text e) out = (listening m h', out ++ ms, Ok tt).
Proof.
  intros Hh (He & Hi & Hr & Hd) [Hse Hsi] Hl. cbn [hear].
  set (i := default (heard_id h) (SseEncode.id e)).
  set (r := match SseEncode.retry e with Some ms => Some ms | None => heard_retry h end).
  set (n := match SseEncode.event e with Some name => name | None => [] end).
  assert (str i) as Hstr by (subst i; by destruct (SseEncode.id e)). split; [done|].
  unfold event_text in Hl |- *. rewrite !length_app in Hl. cbn [length] in Hl. unfold listening.
  rewrite octets_run_app, (run_line_if _ _ (fun v => between m [] v (heard_id h) (heard_id h) (heard_retry h))).
  2: { intros v Hv. rewrite Hv in *. apply run_event; [by eapply plain_ends|].
       revert Hl. cbn [line_if]. unfold line_of. rewrite !length_app. cbn [length bs]. lia. }
  replace (match SseEncode.event e with Some v => between m [] v _ _ _ | None => _ end)
    with (between m [] n (heard_id h) (heard_id h) (heard_retry h)) by (subst n; by destruct (SseEncode.event e)).
  cbn [andThen]. rewrite octets_run_app, (run_line_if _ _ (fun v => between m [] n v (heard_id h) (heard_retry h))).
  2: { intros v Hv. rewrite Hv in *. apply run_id; [by eapply plain_ends| |].
       - revert Hl. cbn [line_if]. unfold line_of. rewrite !length_app. cbn [length bs]. lia.
       - eapply Forall_impl; [exact Hsi|]. intros b (_ & _ & H0). by apply H0. }
  replace (match SseEncode.id e with Some v => between m [] n v _ _ | None => _ end)
    with (between m [] n i (heard_id h) (heard_retry h)) by (subst i; by destruct (SseEncode.id e)).
  cbn [andThen]. rewrite octets_run_app.
  assert (octets_run (between m [] n i (heard_id h) (heard_retry h)) (line_if (bs "retry") (decimal_text <$> SseEncode.retry e)) out
    = (between m [] n i (heard_id h) r, out, Ok tt)) as ->.
  { subst r. destruct (SseEncode.retry e) as [ms|]; [|done]. cbn [fmap option_fmap option_map line_if].
    apply run_retry_written; [done|]. revert Hl. cbn [fmap option_fmap option_map line_if]. unfold line_of.
    rewrite !length_app. cbn [length bs]. lia. }
  cbn [andThen]. destruct (SseEncode.data e) as [text|] eqn:Hdata.
  - rewrite octets_run_app, run_data_lines; [|by apply (pieces_plain (length text))|cbn [length]; lia].
    cbn [andThen app]. rewrite (ended_pieces (length text)), run_blank by done.
    rewrite dispatch_data; [|done| |by apply str_with_lf].
    2: { subst n. destruct (SseEncode.event e); [done|]. split; [constructor|apply utf8_nil]. }
    unfold listening. cbn [between set_line heard_id heard_retry]. unfold n. by destruct (SseEncode.event e) as [[|]|].
  - cbn [app]. rewrite run_blank. unfold dispatch. cbn [between set_last_id last_id_buffer data_buffer set_event_type set_line].
    by rewrite str_lossy, app_nil_r by done.
Qed.

Lemma hear_item m h item out : str (heard_id h) -> text_item item ->
  match item with Said e => sendable e | Noted _ => True end -> (length (item_text item) <= m)%nat ->
  let (h', ms) := hear h item in
  str (heard_id h') /\ octets_run (listening m h) (item_text item) out = (listening m h', out ++ ms, Ok tt).
Proof.
  destruct item as [e|text]; [apply run_event_text|]. intros Hh Ht _ Hl. cbn [hear item_text] in *. split; [done|].
  unfold comment_text in *. unfold listening. rewrite run_comment; [by rewrite app_nil_r| |done]. by apply (pieces_plain (length text)).
Qed.

Lemma hear_items items : forall m h text out stream, str (heard_id h) -> Forall text_item items ->
  write_items items text = Ok stream -> Forall (fun item => (length (write_item item []).1 <= m)%nat) items ->
  exists more, stream = text ++ more /\
  let (h', ms) := hear_all h items in octets_run (listening m h) more out = (listening m h', out ++ ms, Ok tt).
Proof.
  induction items as [|item items IH]; intros m h text out stream Hh Ht Hw Hl; cbn [write_items hear_all] in *.
  { injection Hw as <-. exists []. by rewrite !app_nil_r. }
  apply Forall_cons in Ht as [Hti Ht]. apply Forall_cons in Hl as [Hli Hl].
  destruct (write_item item text) as [text' [[]|err]] eqn:Hi; [|done].
  apply write_item_ok in Hi as [-> Hs]; [|done].
  assert (write_item item [] = (item_text item, Ok tt)) as Hi.
  { destruct item as [e|t]; cbn [write_item item_text]; [|apply comment_written]. destruct Hti as (_ & _ & Hr & _). by apply encode_written. }
  rewrite Hi in Hli. cbn [fst] in Hli.
  pose proof (hear_item m h item out Hh Hti Hs Hli) as Hrun. destruct (hear h item) as [h1 ms1]. destruct Hrun as [Hh1 Hrun].
  destruct (IH m h1 _ (out ++ ms1) _ Hh1 Ht Hw Hl) as (more & -> & Hmore).
  exists (item_text item ++ more). split; [by rewrite app_assoc|].
  rewrite octets_run_app, Hrun. cbn [andThen]. destruct (hear_all h1 items) as [h2 ms2]. by rewrite Hmore, app_assoc.
Qed.

Lemma item_text_first item : exists b rest, item_text item = b :: rest /\ b <> 0xef.
Proof.
  destruct item as [e|text]; cbn [item_text].
  - unfold event_text. destruct (SseEncode.event e); [by eexists _, _|]. destruct (SseEncode.id e); [by eexists _, _|].
    destruct (SseEncode.retry e); [by eexists _, _|]. destruct (SseEncode.data e) as [text|]; [|by eexists _, _].
    destruct (pieces_cons text) as (l & ls & ->). by eexists _, _.
  - unfold comment_text. destruct (pieces_cons text) as (l & ls & ->). by eexists _, _.
Qed.

Lemma unmarked_first b rest : b <> 0xef -> may_be_mark (b :: rest) = false /\ unmarked (b :: rest) = b :: rest.
Proof.
  intros Hb. unfold may_be_mark, unmarked. split.
  - destruct (Nat.ltb_spec (length (b :: rest)) 3); [|done]. apply bool_decide_eq_false_2. cbn [length]. intros E. by injection E as <- _.
  - rewrite bool_decide_eq_false_2; [done|]. intros E. by injection E as -> _.
Qed.

(** C23. What a server writes is what a client hears, in whatever chunks the stream
    arrives.  For events and comments that were accepted, none longer than the limit of
    the client, every event with data becomes one message: its type is the one given, or
    [message]; its data is the text with each line end as LF; its ID is the last one
    given.  Events without data and comments become none, the reconnection time is the
    last one given, and nothing of a payload or a comment is read as a field. *)
Theorem stream_heard items m chunks :
  Forall text_item items -> write_items items [] = Ok (concat chunks) ->
  Forall (fun item => (length (write_item item []).1 <= m)%nat) items ->
  let (h, ms) := hear_all (MkHeard [] None) items in
  exists d, feed_all (new m) chunks [] = (d, ms, Ok tt) /\ last_id d = heard_id h /\ SseDecode.retry d = heard_retry h.
Proof.
  intros Ht Hw Hl. pose proof (unmarked_feed_all chunks (new m) [] (new_wf m)) as Hsame.
  destruct (hear_items items m (MkHeard [] None) [] [] _ ltac:(split; [constructor|apply utf8_nil]) Ht Hw Hl)
    as (more & Hmore & Hrun). cbn [app] in Hmore. subst more.
  destruct items as [|item items].
  { cbn [write_items] in Hw. injection Hw as Hw. rewrite <- Hw in *. cbn in Hsame. destruct (feed_all _ _ _) as [[d o] v].
    destruct Hsame as (H1 & H2 & H3). cbn in H1, H2, H3. subst. exists d. by rewrite H3. }
  assert (exists b rest, concat chunks = b :: rest /\ b <> 0xef) as (b & rest & Hc & Hb).
  { cbn [write_items] in Hw. destruct (write_item item []) as [t [[]|]] eqn:Hi; [|done].
    apply Forall_cons in Ht as [Hti Ht]. apply write_item_ok in Hi as [-> _]; [|done]. apply Forall_cons in Hl as [_ Hl].
    destruct (hear_items items m (MkHeard [] None) _ [] _ ltac:(split; [constructor|apply utf8_nil]) Ht Hw Hl) as (more & -> & _).
    destruct (item_text_first item) as (b & rest & -> & Hb). by eexists b, _. }
  revert Hsame. unfold feed_plain. cbn [new bom_done head app]. rewrite Hc in Hrun |- *.
  destruct (unmarked_first b rest Hb) as [-> ->].
  change (set_head (new m) [] true) with (listening m (MkHeard [] None)).
  destruct (hear_all _ _) as [h ms]. rewrite Hrun. destruct (feed_all _ _ _) as [[d o] v]. intros (H1 & H2 & H3).
  cbn in H1, H2, H3. subst. exists d. by rewrite H3.
Qed.

Definition example_items : list Item :=
  [Said (MkEvent (Some (bs "update")) (Some (bs "42")) (Some 1000) (Some (bs "a" ++ [13; 10] ++ bs " b" ++ [13])));
   Noted (bs "x" ++ [10] ++ bs "data: injected" ++ [10; 10]); Said (MkEvent None None None (Some []))].
Definition example_stream : bytes := match write_items example_items [] with Ok stream => stream | Err _ => [] end.

Lemma stream_heard_witness :
  let (h, ms) := hear_all (MkHeard [] None) example_items in
  ms = [MkMessage (bs "update") (bs "a" ++ [10] ++ bs " b" ++ [10]) (bs "42"); MkMessage (bs "message") [] (bs "42")] /\
  exists d, feed_all (new 80) ((fun b => [b]) <$> example_stream) [] = (d, ms, Ok tt) /\ last_id d = heard_id h /\
    SseDecode.retry d = heard_retry h.
Proof.
  split; [vm_compute; reflexivity|].
  apply (stream_heard example_items 80 ((fun b => [b]) <$> example_stream)).
  - repeat constructor; cbn; try (apply (bool_decide_unpack _); vm_compute; exact I).
    all: try (apply from_utf8_spec; [apply (bool_decide_unpack _); vm_compute; exact I | vm_compute; reflexivity]).
  - vm_compute. reflexivity.
  - apply (bool_decide_unpack _). vm_compute. exact I.
Defined.
