(* ===== verification/Router.v ===== *)
(** * The router

    [zero-router/src/lib.rs]: a trie over path segments with mounted child routers.  A
    node and a router are the nested inductives the code has; a method that hands out a
    reference to a leaf takes what is done with it.  Here are the data and the operations;
    [RouterTree] has the laws of the trie and [RouterTable] what a router resolves to. *)
From S2P Require Import Prelude HttpTypes Uri Qs.
#[local] Set Warnings "-register-all".

Definition MAX_PARAMS : nat := 16.
Definition MAX_SEGMENTS : nat := 64.
Definition METHODS : nat := length Method_ALL.

Inductive RouteError : Type :=
| NoLeadingSlash | InvalidPattern | EmptyParameterName | CatchAllNotLast | TooManyParameters
| ParameterConflict | Duplicate | RootMount | TooManySegments.
#[global] Instance RouteError_eq_dec : EqDecision RouteError.
Proof. solve_decision. Defined.

Inductive TrailingSlash : Type := Ignore | Strict.

(** ** [Allow]: a word of 16 bits *)

Definition Allow : Type := Z.
Definition Allow_insert (self : Allow) (method : Method) : Allow :=
  Z.lor self (Z.shiftl 1 (Method_id method) mod 2 ^ 16).
Definition Allow_contains (self : Allow) (method : Method) : bool :=
  negb (Z.land self (Z.shiftl 1 (Method_id method) mod 2 ^ 16) =? 0).
Definition Allow_is_empty (self : Allow) : bool := self =? 0.
Definition Allow_iter (self : Allow) : list Method := filter (fun method => Allow_contains self method = true) Method_ALL.
Fixpoint write_loop (methods : list Method) (first : bool) (out : bytes) : bytes :=
  match methods with
  | [] => out
  | method :: methods =>
      write_loop methods false ((if first then out else out ++ bs ", ") ++ Method_as_str method)
  end.
Definition Allow_write (self : Allow) (out : bytes) : bytes := write_loop (Allow_iter self) true out.

(** ** [Params]: arrays of [MAX_PARAMS] and how much of them is used *)

Record Params : Type := MkParams {
  names : list bytes;
  ranges : list (nat * nat);
  len_ : nat;
}.
Definition Params_new : Params := MkParams (replicate MAX_PARAMS []) (replicate MAX_PARAMS (0, 0)%nat) 0.
Definition push (self : Params) (name : bytes) (range : nat * nat) : Params * bool :=
  match names self !! len_ self with
  | None => (self, false)
  | Some _ => (MkParams (<[len_ self := name]> (names self)) (<[len_ self := range]> (ranges self)) (len_ self + 1), true)
  end.
Definition pop (self : Params) : Params := MkParams (names self) (ranges self) (len_ self - 1).
Definition Params_get (self : Params) (index : nat) : option (bytes * (nat * nat)) :=
  if (len_ self <=? index)%nat then None
  else let! name := names self !! index in let! range := ranges self !! index in Some (name, range).
Definition Params_iter (self : Params) : list (bytes * (nat * nat)) := omap (Params_get self) (seq 0 (len_ self)).
Definition by_name (self : Params) (name : bytes) : option (nat * nat) :=
  snd <$> List.find (fun found => bool_decide (found.1 = name)) (Params_iter self).
Definition shift_params (params : Params) (by_ : nat) : Params :=
  fold_left (fun shifted '(name, (start, end_)) => (push shifted name ((start + by_)%nat, (end_ + by_)%nat)).1)
    (Params_iter params) Params_new.

(** ** Order of octet strings, and [binary_search_by] of the standard library on a
    sorted slice *)

Fixpoint bytes_cmp (l m : bytes) : comparison :=
  match l, m with
  | [], [] => Eq
  | [], _ :: _ => Lt
  | _ :: _, [] => Gt
  | a :: l, b :: m => match a ?= b with Eq => bytes_cmp l m | c => c end
  end.

(** Where [key] is, or where it would be inserted. *)
Fixpoint binary_search {A} (l : list (bytes * A)) (key : bytes) : result nat nat :=
  match l with
  | [] => Err 0%nat
  | (known, _) :: l =>
      match bytes_cmp known key with
      | Lt => match binary_search l key with Ok i => Ok (S i) | Err i => Err (S i) end
      | Eq => Ok 0%nat
      | Gt => Err 0%nat
      end
  end.
Definition insert_at {A} (i : nat) (x : A) (l : list A) : list A := take i l ++ x :: drop i l.

Inductive Segment : Type := Static (segment : bytes) | Param (name : bytes) | CatchAll (name : bytes).
#[global] Instance Segment_eq_dec : EqDecision Segment.
Proof. solve_decision. Defined.

Section router.
Context {T : Type}.

Record Leaf : Type := MkLeaf { handlers : list (option T); leaf_pattern : bytes }.
Definition Leaf_new (pattern : bytes) : Leaf := MkLeaf (replicate METHODS None) pattern.
Definition handler (self : Leaf) (method : Method) : option T :=
  mjoin (handlers self !! Z.to_nat (Method_id method)).
Definition allow_registered (self : Leaf) : Allow :=
  fold_left (fun allow method =>
    match handler self method with Some _ => Allow_insert allow method | None => allow end) Method_ALL 0.
Definition Leaf_allow (self : Leaf) : Allow :=
  let allow := allow_registered self in
  let allow := if Allow_contains allow Get then Allow_insert allow Head else allow in
  Allow_insert allow Options.

Inductive Node : Type :=
  MkNode (statics : list (bytes * Node)) (param : option (bytes * Node))
    (catch_all : option (bytes * Leaf)) (leaf : option Leaf).
Definition statics (self : Node) := let 'MkNode s _ _ _ := self in s.
Definition param (self : Node) := let 'MkNode _ p _ _ := self in p.
Definition catch_all (self : Node) := let 'MkNode _ _ c _ := self in c.
Definition leaf (self : Node) := let 'MkNode _ _ _ l := self in l.
Definition Node_new : Node := MkNode [] None None None.

Inductive Router : Type :=
  MkRouter (root : Node) (mounts : list (bytes * Router)) (trailing_slash : TrailingSlash).
Definition root (self : Router) := let 'MkRouter r _ _ := self in r.
Definition mounts (self : Router) := let 'MkRouter _ m _ := self in m.
Definition trailing_slash (self : Router) := let 'MkRouter _ _ t := self in t.
Definition Router_new : Router := MkRouter Node_new [] Ignore.
Definition with_trailing_slash (self : Router) (t : TrailingSlash) : Router := MkRouter (root self) (mounts self) t.

(** ** Registering *)

Definition starts_with_slash (l : bytes) : bool := match l with 47 :: _ => true | _ => false end.
Definition strip_slash (l : bytes) : bytes :=
  if bool_decide (last l = Some 47) then take (length l - 1) l else l.

Definition normalize_pattern (pattern : bytes) : result RouteError bytes :=
  if negb (starts_with_slash pattern) then Err NoLeadingSlash
  else map_err (fun _ => InvalidPattern) (normalize_path (split_query pattern).1 []).2.

Definition parse_segment (segment : bytes) : result RouteError Segment :=
  match segment with
  | 58 :: name => match name with [] => Err EmptyParameterName | _ => Ok (Param name) end
  | 42 :: name => Ok (CatchAll (match name with [] => [42] | _ => name end))
  | _ => Ok (Static segment)
  end.
Fixpoint parse_segments (pieces : list bytes) (segments : list Segment) : result RouteError (list Segment) :=
  match pieces with
  | [] => Ok segments
  | piece :: pieces =>
      if (MAX_SEGMENTS <? length segments)%nat then Err TooManySegments
      else let? segment := parse_segment piece in parse_segments pieces (segments ++ [segment])
  end.
Definition is_catch_all (segment : Segment) : bool := match segment with CatchAll _ => true | _ => false end.
Definition parse_pattern (normalized : bytes) : result RouteError (list Segment) :=
  match normalized with
  | 47 :: rest =>
      match rest with
      | [] => Ok []
      | _ =>
          let? segments := parse_segments (split_on is_slash rest) [] in
          if (MAX_SEGMENTS <? length segments)%nat && negb (from_option is_catch_all false (last segments))
          then Err TooManySegments else Ok segments
      end
  | _ => Err NoLeadingSlash
  end.

(** The nodes on the way are there after the call, also after a refused one; [use] is
    what the caller does with the leaf. *)
Fixpoint leaf_for (node : Node) (segments : list Segment) (pattern : bytes) (params : nat)
    (use : Leaf -> Leaf * result RouteError unit) : Node * result RouteError unit :=
  match segments with
  | [] =>
      let (leaf, verdict) := use (default (Leaf_new pattern) (leaf node)) in
      (MkNode (statics node) (param node) (catch_all node) (Some leaf), verdict)
  | Static segment :: rest =>
      let (position, statics) :=
        match binary_search (statics node) segment with
        | Ok position => (position, statics node)
        | Err position => (position, insert_at position (segment, Node_new) (statics node))
        end in
      match statics !! position with
      | None => (MkNode statics (param node) (catch_all node) (leaf node), Err InvalidPattern)
      | Some (known, child) =>
          let (child, verdict) := leaf_for child rest pattern params use in
          (MkNode (<[position := (known, child)]> statics) (param node) (catch_all node) (leaf node), verdict)
      end
  | Param name :: rest =>
      let params := (params + 1)%nat in
      if (MAX_PARAMS <? params)%nat then (node, Err TooManyParameters)
      else
        let (known, child) := default (name, Node_new) (param node) in
        let (child, verdict) :=
          if bool_decide (known = name) then leaf_for child rest pattern params use
          else (child, Err ParameterConflict) in
        (MkNode (statics node) (Some (known, child)) (catch_all node) (leaf node), verdict)
  | CatchAll name :: rest =>
      match rest with
      | _ :: _ => (node, Err CatchAllNotLast)
      | [] =>
          let params := (params + 1)%nat in
          if (MAX_PARAMS <? params)%nat then (node, Err TooManyParameters)
          else
            let (known, child) := default (name, Leaf_new pattern) (catch_all node) in
            let (child, verdict) :=
              if bool_decide (known = name) then use child else (child, Err ParameterConflict) in
            (MkNode (statics node) (param node) (Some (known, child)) (leaf node), verdict)
      end
  end.

Definition register (method : Method) (descriptor : T) (leaf : Leaf) : Leaf * result RouteError unit :=
  match handlers leaf !! Z.to_nat (Method_id method) with
  | None => (leaf, Err Duplicate)
  | Some (Some _) => (leaf, Err Duplicate)
  | Some None =>
      (MkLeaf (<[Z.to_nat (Method_id method) := Some descriptor]> (handlers leaf)) (leaf_pattern leaf), Ok tt)
  end.

Definition route_segments (self : Router) (pattern : bytes) : result RouteError (list Segment) :=
  let? normalized := normalize_pattern pattern in
  let normalized :=
    match trailing_slash self with
    | Ignore => if (1 <? length normalized)%nat then strip_slash normalized else normalized
    | Strict => normalized
    end in
  parse_pattern normalized.

Definition route (self : Router) (method : Method) (pattern : bytes) (descriptor : T)
    : Router * result RouteError unit :=
  match route_segments self pattern with
  | Err e => (self, Err e)
  | Ok segments =>
      let (root, verdict) := leaf_for (root self) segments pattern 0 (register method descriptor) in
      (MkRouter root (mounts self) (trailing_slash self), verdict)
  end.

(** Whether a mount comes before a new one with the prefix [trimmed]. *)
Definition before (existing trimmed : bytes) : bool :=
  match (length existing ?= length trimmed)%nat with
  | Gt => true
  | Lt => false
  | Eq => match bytes_cmp existing trimmed with Gt => false | _ => true end
  end.
(** [partition_point] of a slice that is partitioned. *)
Fixpoint partition_point {A} (f : A -> bool) (l : list A) : nat :=
  match l with [] => 0 | x :: l => if f x then S (partition_point f l) else 0 end.

Definition mount_prefix (prefix : bytes) : result RouteError bytes :=
  let? normalized := normalize_pattern prefix in
  let trimmed := strip_slash normalized in
  match trimmed with
  | [] => Err RootMount
  | _ =>
      if existsb (fun byte => (byte =? 58) || (byte =? 42)) trimmed then Err InvalidPattern
      else if (MAX_SEGMENTS <? length (List.filter (fun byte => (byte =? 47)%Z) trimmed))%nat then Err TooManySegments
      else Ok trimmed
  end.
Definition mount (self : Router) (prefix : bytes) (router : Router) : Router * result RouteError unit :=
  match mount_prefix prefix with
  | Err e => (self, Err e)
  | Ok trimmed =>
      let position := partition_point (fun existing => before existing.1 trimmed) (mounts self) in
      (MkRouter (root self) (insert_at position (trimmed, router) (mounts self)) (trailing_slash self), Ok tt)
  end.

(** ** Resolving *)

Inductive Resolution : Type :=
| Matched (descriptor : T) (params : Params) (head : bool)
| NotFound
| MethodNotAllowed (allow : Allow)
| OptionsAnswer (allow : Allow)
| NotImplemented.

(** The ranges of the segments after the leading slash; [None] when there are more than
    [MAX_SEGMENTS]. *)
Fixpoint segments_loop (rest : bytes) (offset start : nat) (segments : list (nat * nat))
  : option (list (nat * nat) * nat) :=
  match rest with
  | [] => Some (segments, start)
  | byte :: rest =>
      if byte =? 47 then
        if (length segments <? MAX_SEGMENTS)%nat then
          segments_loop rest (offset + 1) (offset + 2) (segments ++ [(start, (offset + 1)%nat)])
        else None
      else segments_loop rest (offset + 1) start segments
  end.
Definition path_segments (path rest : bytes) : option (list (nat * nat)) :=
  match rest with
  | [] => Some []
  | _ =>
      match segments_loop rest 0 1 [] with
      | None => None
      | Some (segments, start) =>
          if (length segments <? MAX_SEGMENTS)%nat then Some (segments ++ [(start, length path)]) else None
      end
  end.

Definition slice (path : bytes) (range : nat * nat) : bytes := default [] (get_range range.1 range.2 path).

(** A child that is tried, or nothing. *)
Fixpoint find (node : Node) (path : bytes) (segments : list (nat * nat)) (params : Params) (catch : bool)
    : Params * option Leaf :=
  match segments with
  | [] =>
      match leaf node with
      | Some leaf => (params, Some leaf)
      | None =>
          if catch then
            match catch_all node with
            | Some (name, leaf) =>
                let (params, pushed) := push params name (length path, length path) in
                (params, if pushed then Some leaf else None)
            | None => (params, None)
            end
          else (params, None)
      end
  | (start, end_) :: rest =>
      let segment := slice path (start, end_) in
      let static :=
        match binary_search (statics node) segment with
        | Ok position =>
            match statics node !! position with
            | Some (_, child) => find child path rest params catch
            | None => (params, None)
            end
        | Err _ => (params, None)
        end in
      match static with
      | (params, Some leaf) => (params, Some leaf)
      | (params, None) =>
          let parameter :=
            match param node with
            | Some (name, child) =>
                if negb (bool_decide (segment = [])) then
                  let (params, pushed) := push params name (start, end_) in
                  if pushed then
                    match find child path rest params catch with
                    | (params, Some leaf) => (params, Some leaf)
                    | (params, None) => (pop params, None)
                    end
                  else (params, None)
                else (params, None)
            | None => (params, None)
            end in
          match parameter with
          | (params, Some leaf) => (params, Some leaf)
          | (params, None) =>
              if catch then
                match catch_all node with
                | Some (name, leaf) =>
                    let (params, pushed) := push params name (start, length path) in
                    (params, if pushed then Some leaf else None)
                | None => (params, None)
                end
              else (params, None)
          end
      end
  end.

Definition dispatch (leaf : Leaf) (method : Method) (params : Params) : Resolution :=
  match handler leaf method with
  | Some descriptor => Matched descriptor params false
  | None =>
      match (if bool_decide (method = Head) then handler leaf Get else None) with
      | Some descriptor => Matched descriptor params true
      | None =>
          let allow := Leaf_allow leaf in
          if bool_decide (method = Options) then OptionsAnswer allow else MethodNotAllowed allow
      end
  end.

(** What the child of a mount gets, when the mount covers the path. *)
Definition child_path (prefix path : bytes) : option bytes :=
  match strip_prefix prefix path with
  | None => None
  | Some [] => Some [47]
  | Some (b :: remainder) => if b =? 47 then Some (b :: remainder) else None
  end.
Definition shift_resolution (resolution : Resolution) (by_ : nat) : Resolution :=
  match resolution with
  | Matched descriptor params head => Matched descriptor (shift_params params by_) head
  | other => other
  end.
Definition trimmed_path (t : TrailingSlash) (path : bytes) : bytes :=
  match t with
  | Ignore => if (1 <? length path)%nat then strip_slash path else path
  | Strict => path
  end.

(** The first mount that covers the path answers. *)
Definition try_mounts (resolve_child : Router -> bytes -> Resolution) (otherwise : Resolution) (path : bytes)
  : list (bytes * Router) -> Resolution :=
  fix go (mounts : list (bytes * Router)) : Resolution :=
    match mounts with
    | [] => otherwise
    | (prefix, router) :: mounts =>
        match child_path prefix path with
        | None => go mounts
        | Some child => shift_resolution (resolve_child router child) (length prefix)
        end
    end.

Fixpoint resolve_method (self : Router) (method : Method) (path : bytes) : Resolution :=
  let 'MkRouter root mounts trailing_slash := self in
  let path := trimmed_path trailing_slash path in
  match path with
  | 47 :: rest =>
      match path_segments path rest with
      | None => NotFound
      | Some segments =>
          match find root path segments Params_new false with
          | (params, Some leaf) => dispatch leaf method params
          | (_, None) =>
              let otherwise :=
                match find root path segments Params_new true with
                | (params, Some leaf) => dispatch leaf method params
                | (_, None) => NotFound
                end in
              try_mounts (fun router child => resolve_method router method child) otherwise path mounts
          end
      end
  | _ => NotFound
  end.

Definition resolve (self : Router) (method path : bytes) : Resolution :=
  match Method_parse method with
  | None => NotImplemented
  | Some method => resolve_method self method path
  end.

Record Resolved : Type := MkResolved { resolution : Resolution; path_ : bytes; query : option bytes }.
Definition resolve_target (self : Router) (method target scratch : bytes) : bytes * result UriError Resolved :=
  let (path, query) := split_query target in
  match normalize_path path scratch with
  | (scratch, Err e) => (scratch, Err e)
  | (scratch, Ok path) => (scratch, Ok (MkResolved (resolve self method path) path query))
  end.

(** ** Introspection *)

Record RouteInfo : Type := MkRouteInfo { method_ : Method; pattern_ : bytes; descriptor_ : T }.
Definition collect_leaf (prefix : bytes) (leaf : Leaf) : list RouteInfo :=
  omap (fun method =>
    (fun descriptor => MkRouteInfo method (prefix ++ leaf_pattern leaf) descriptor) <$> handler leaf method) Method_ALL.
Fixpoint collect (node : Node) (prefix : bytes) (out : list RouteInfo) : list RouteInfo :=
  let 'MkNode statics param catch_all leaf := node in
  let out := match leaf with Some leaf => out ++ collect_leaf prefix leaf | None => out end in
  let out := match catch_all with Some (_, leaf) => out ++ collect_leaf prefix leaf | None => out end in
  let out :=
    (fix each (statics : list (bytes * Node)) (out : list RouteInfo) : list RouteInfo :=
       match statics with
       | [] => out
       | (_, child) :: statics => each statics (collect child prefix out)
       end) statics out in
  match param with Some (_, child) => collect child prefix out | None => out end.
Fixpoint routes (self : Router) : list RouteInfo :=
  let 'MkRouter root mounts _ := self in
  collect root [] []
  ++ (fix each (mounts : list (bytes * Router)) : list RouteInfo :=
        match mounts with
        | [] => []
        | (prefix, router) :: mounts =>
            map (fun route => MkRouteInfo (method_ route) (from_utf8_lossy prefix ++ pattern_ route) (descriptor_ route))
              (routes router) ++ each mounts
        end) mounts.
End router.
Arguments Leaf : clear implicits.
Arguments Node : clear implicits.
Arguments Router : clear implicits.
Arguments Resolution : clear implicits.

(** ** The application of the crate's tests *)

Definition routed (r : Router Z) (m : Method) (p : string) (d : Z) : Router Z := (route r m (bs p) d).1.
Definition app_admin : Router Z :=
  routed (routed (routed Router_new Get "/" 20) Get "/list" 21) Get "/users/:id" 22.
Definition app_routes : Router Z :=
  let r := routed (routed (routed Router_new Get "/" 1) Get "/users" 2) Post "/users" 3 in
  let r := routed (routed (routed r Get "/users/me" 4) Get "/users/:id" 5) Delete "/users/:id" 6 in
  let r := routed (routed r Get "/users/:id/posts/:post" 7) Get "/files/:name" 8 in
  let r := routed (routed r Get "/static/*path" 9) Get "/*" 10 in
  (mount r (bs "/admin") app_admin).1.
Definition answers (r : Router Z) (m t : string) : option (Z * list (string * string) * bool) :=
  match (resolve_target r (bs m) (bs t) []).2 with
  | Ok resolved =>
      match resolution resolved with
      | Matched d params head =>
          Some (d, (fun '(n, range) => (string_of n, string_of (slice (path_ resolved) range))) <$> Params_iter params, head)
      | _ => None
      end
  | Err _ => None
  end.

Example app_answers :
  (fun '(m, t) => answers app_routes m t) <$>
    [("GET", "/users/me"); ("HEAD", "/users/%34%32/posts/7?x"); ("GET", "/static/css/site.css"); ("GET", "/static/");
     ("GET", "/users//x"); ("GET", "/admin/users/9"); ("GET", "/admin/unknown")]%string
  = [Some (4, [], false); Some (7, [("id", "42"); ("post", "7")], true); Some (9, [("path", "css/site.css")], false);
     Some (9, [("path", "")], false); Some (10, [("*", "users//x")], false); Some (22, [("id", "9")], false); None]%string.
Proof. vm_compute. reflexivity. Qed.
Example app_strict :
  answers (with_trailing_slash app_routes Strict) "GET" "/users/" = Some (10, [("*", "users/")]%string, false).
Proof. vm_compute. reflexivity. Qed.
Example app_allow :
  match resolve_method app_routes Put (bs "/users/42") with
  | MethodNotAllowed allow => string_of (Allow_write allow []) = "GET, HEAD, DELETE, OPTIONS"%string
  | _ => False
  end.
Proof. vm_compute. reflexivity. Qed.
Example app_lists : length (routes app_routes) = 13%nat.
Proof. vm_compute. reflexivity. Qed.

(** A refused pattern leaves its parameter name on the trie. *)
Example refused_name_stays :
  let (r, v) := route (T := Z) Router_new Get (bs "/a/:x/*rest/b") 1 in
  v = Err CatchAllNotLast /\ (route r Get (bs "/a/:y") 2).2 = Err ParameterConflict /\ routes r = [].
Proof. vm_compute. repeat split; reflexivity. Qed.
