(* ===== verification/RouterTree.v ===== *)
(** * The trie of a router

    The leaf a pattern leads to ([node_get]) with its laws under [leaf_for], the parameters
    as the list that was captured, and what [find] answers: the leaf of the pattern that
    comes first in the order static, parameter, end, catch-all among those that match. *)
From stdpp Require Import sorting.
From S2P Require Import Prelude HttpTypes Uri Router.
#[local] Open Scope Z_scope.
#[local] Set Warnings "-register-all".

(** ** Order of octet strings *)

Lemma bytes_cmp_eq l : forall m, bytes_cmp l m = Eq <-> l = m.
Proof.
  induction l as [|a l IH]; intros [|b m]; cbn; try (split; congruence).
  destruct (Z.compare_spec a b) as [->|H|H]; [rewrite IH; split; congruence|split; [done|intros [= ->]; lia]..].
Qed.

Lemma bytes_cmp_refl l : bytes_cmp l l = Eq.
Proof. by apply bytes_cmp_eq. Qed.

Lemma bytes_cmp_antisym l : forall m, bytes_cmp m l = CompOpp (bytes_cmp l m).
Proof.
  induction l as [|a l IH]; intros [|b m]; cbn; try done. rewrite (Z.compare_antisym a b).
  destruct (a ?= b); cbn; [apply IH|done..].
Qed.

Lemma bytes_cmp_trans l : forall m n, bytes_cmp l m = Lt -> bytes_cmp m n = Lt -> bytes_cmp l n = Lt.
Proof.
  induction l as [|a l IH]; intros [|b m] [|c n]; cbn; try done.
  destruct (a ?= b) eqn:H1, (b ?= c) eqn:H2, (a ?= c) eqn:H3; try done; try (by apply IH);
    rewrite ?Z.compare_eq_iff, ?Z.compare_lt_iff, ?Z.compare_gt_iff in *; lia.
Qed.

(** ** Sorted association lists *)

Section sorted.
Context {A : Type}.
Implicit Types l : list (bytes * A).

Definition ascending l : Prop := StronglySorted (fun x y => bytes_cmp x.1 y.1 = Lt) l.

Fixpoint assoc l (key : bytes) : option A :=
  match l with [] => None | (k, v) :: l => if decide (k = key) then Some v else assoc l key end.

Lemma assoc_Some l key v : assoc l key = Some v -> (key, v) ∈ l.
Proof.
  induction l as [|[k w] l IH]; cbn; [done|]. destruct (decide (k = key)) as [->|]; [intros [= ->]; by left|].
  intros H. right. by apply IH.
Qed.

Lemma ascending_assoc_lt l k key : Forall (fun y => bytes_cmp k y.1 = Lt) l -> bytes_cmp k key <> Lt -> assoc l key = None.
Proof.
  induction 1 as [|[y v] l Hy _ IH]; intros Hk; cbn; [done|]. destruct (decide (y = key)) as [->|]; [done|]. by apply IH.
Qed.

(** The search is the lookup; the place of insertion keeps the order. *)
Lemma binary_search_spec l key : ascending l ->
  match binary_search l key with
  | Ok i => (exists v, l !! i = Some (key, v) /\ assoc l key = Some v) /\
      (forall v k, assoc (<[i := (key, v)]> l) k = if decide (key = k) then Some v else assoc l k) /\
      (forall v, ascending (<[i := (key, v)]> l))
  | Err i => assoc l key = None /\
      (forall v k, assoc (insert_at i (key, v) l) k = if decide (key = k) then Some v else assoc l k) /\
      (forall v, ascending (insert_at i (key, v) l)) /\ (forall v, insert_at i (key, v) l !! i = Some (key, v))
  end.
Proof.
  induction 1 as [|[k w] l Hs IH Hk]; cbn [binary_search].
  { cbn. repeat split; try done. intros v. repeat constructor. }
  destruct (bytes_cmp k key) eqn:Hc.
  - apply bytes_cmp_eq in Hc as ->. split; [exists w; cbn; by rewrite decide_True|]. split.
    + intros v k. cbn. by destruct (decide (key = k)).
    + intros v. cbn. by constructor.
  - destruct (binary_search l key) as [i|i].
    + destruct IH as ((v & Hv & Ha) & Hset & Hasc). split; [|split].
      * exists v. cbn. rewrite decide_False; [done|]. intros ->. by rewrite bytes_cmp_refl in Hc.
      * intros v' k'. cbn. rewrite Hset. repeat destruct (decide _); congruence || (subst; by rewrite bytes_cmp_refl in Hc).
      * intros v'. cbn. constructor; [apply Hasc|]. apply Forall_insert; [done|done].
    + destruct IH as (Ha & Hset & Hasc & Hat). split; [|split; [|split]].
      * cbn. rewrite decide_False; [done|]. intros ->. by rewrite bytes_cmp_refl in Hc.
      * intros v' k'. change (insert_at (S i) (key, v') ((k, w) :: l)) with ((k, w) :: insert_at i (key, v') l). cbn [assoc].
        rewrite Hset. repeat destruct (decide _); congruence || (subst; by rewrite bytes_cmp_refl in Hc).
      * intros v'. change (insert_at (S i) (key, v') ((k, w) :: l)) with ((k, w) :: insert_at i (key, v') l).
        constructor; [apply Hasc|]. unfold insert_at. apply Forall_app_2; [by apply Forall_take|].
        constructor; [done|by apply Forall_drop].
      * intros v'. apply Hat.
  - assert (bytes_cmp key k = Lt) as Hlt by (by rewrite bytes_cmp_antisym, Hc).
    split; [|split; [|split]]; [| |intros v; cbn|done].
    + cbn. rewrite decide_False; [|intros ->; by rewrite bytes_cmp_refl in Hc].
      apply (ascending_assoc_lt _ k); [done|]. by rewrite Hc.
    + intros v k'. cbn. by destruct (decide (key = k')).
    + constructor; [by constructor|]. constructor; [done|]. eapply Forall_impl; [exact Hk|]. intros y Hy. by eapply bytes_cmp_trans.
Qed.
End sorted.

(** ** Parameters *)

Abbreviation capture := (bytes * (nat * nat))%type.

Record params_ok (ps : Params) : Prop := {
  params_names : length (names ps) = MAX_PARAMS;
  params_ranges : length (ranges ps) = MAX_PARAMS;
  params_len : (len_ ps <= MAX_PARAMS)%nat;
}.
Definition captured (ps : Params) : list capture := take (len_ ps) (zip (names ps) (ranges ps)).

Lemma params_new_ok : params_ok Params_new.
Proof. split; unfold MAX_PARAMS; cbn; lia. Qed.

Lemma take_insert_snoc {A} (l : list A) i x : (i < length l)%nat -> take (i + 1) (<[i := x]> l) = take i l ++ [x].
Proof.
  intros Hi. rewrite Nat.add_1_r, (take_S_r _ _ x) by (by apply list_lookup_insert_eq). by rewrite take_insert_ge by lia.
Qed.

Lemma push_captured ps name range : params_ok ps -> (len_ ps < MAX_PARAMS)%nat ->
  exists ps', push ps name range = (ps', true) /\ params_ok ps' /\ captured ps' = captured ps ++ [(name, range)] /\
    len_ ps' = S (len_ ps).
Proof.
  intros [Hn Hr Hl] Hlt. unfold push. destruct (lookup_lt_is_Some_2 (names ps) (len_ ps)) as [x ->]; [lia|].
  eexists. split; [done|]. split; [split; cbn [names ranges len_]; rewrite ?length_insert; lia|]. split; [|cbn; lia].
  unfold captured. cbn [names ranges len_]. rewrite <- insert_zip_with. apply take_insert_snoc.
  rewrite length_zip_with. lia.
Qed.

Lemma pop_ok ps : params_ok ps -> params_ok (pop ps).
Proof. intros [Hn Hr Hl]. split; cbn [pop names ranges len_]; lia. Qed.

Lemma captured_pop ps cs c : params_ok ps -> captured ps = cs ++ [c] -> captured (pop ps) = cs /\ len_ (pop ps) = length cs.
Proof.
  intros [Hn Hr Hl] H. assert (length (captured ps) = len_ ps) as Hlen.
  { unfold captured. rewrite length_take, length_zip_with. lia. }
  rewrite H, length_app in Hlen. cbn [length] in Hlen. split; [|cbn; lia].
  assert (captured (pop ps) = take (len_ ps - 1) (captured ps)) as ->.
  { unfold captured, pop. cbn [len_ names ranges]. by rewrite take_take, Nat.min_l by lia. }
  rewrite H, take_app_le, take_ge by lia. done.
Qed.

Lemma captured_length ps : params_ok ps -> length (captured ps) = len_ ps.
Proof. intros [Hn Hr Hl]. unfold captured. rewrite length_take, length_zip_with. lia. Qed.

Lemma omap_seq_lookup {A} (f : nat -> option A) l : forall k,
  (forall i, (i < length l)%nat -> f (k + i)%nat = l !! i) -> omap f (seq k (length l)) = l.
Proof.
  induction l as [|x l IH]; intros k H; [done|]. cbn [length seq omap list_omap].
  pose proof (H 0%nat ltac:(cbn; lia)) as H0. rewrite Nat.add_0_r in H0. rewrite H0. cbn. f_equal.
  apply IH. intros i Hi. replace (S k + i)%nat with (k + S i)%nat by lia. apply (H (S i)). cbn. lia.
Qed.

Lemma params_iter_captured ps : params_ok ps -> Params_iter ps = captured ps.
Proof.
  intros Hok. unfold Params_iter. rewrite <- (captured_length ps Hok) at 1. apply omap_seq_lookup. intros i Hi. cbn [Nat.add].
  rewrite captured_length in Hi by done. destruct Hok as [Hn Hr Hl]. unfold Params_get.
  rewrite (proj2 (Nat.leb_gt _ _)) by lia. unfold captured. rewrite lookup_take_lt, lookup_zip_with by lia.
  destruct (names ps !! i), (ranges ps !! i); done.
Qed.

Definition shift_capture (by_ : nat) (c : capture) : capture := (c.1, ((c.2.1 + by_)%nat, (c.2.2 + by_)%nat)).

Lemma shift_params_ok ps by_ : params_ok ps ->
  params_ok (shift_params ps by_) /\ captured (shift_params ps by_) = shift_capture by_ <$> captured ps.
Proof.
  intros Hok. unfold shift_params. rewrite params_iter_captured by done.
  assert (forall cs ps', params_ok ps' -> (len_ ps' + length cs <= MAX_PARAMS)%nat ->
    let r := fold_left (fun shifted '(name, (start, end_)) => (push shifted name ((start + by_)%nat, (end_ + by_)%nat)).1) cs ps' in
    params_ok r /\ captured r = captured ps' ++ (shift_capture by_ <$> cs)) as Hf.
  { induction cs as [|[n [s e]] cs IH]; intros ps' Hok' Hl; cbn [fold_left fmap list_fmap]; [by rewrite app_nil_r|].
    cbn [length] in Hl. destruct (push_captured ps' n ((s + by_)%nat, (e + by_)%nat) Hok' ltac:(lia)) as (ps2 & -> & Hok2 & Hc & Hl2).
    cbn [fst]. destruct (IH ps2 Hok2 ltac:(lia)) as [H1 H2]. split; [done|]. by rewrite H2, Hc, <- app_assoc. }
  destruct (Hf (captured ps) Params_new params_new_ok) as [H1 H2]; [|done].
  rewrite captured_length by done. cbn. by destruct Hok.
Qed.

Section tree.
Context {T : Type}.
Implicit Types (n : Node T) (p q : list Segment) (l : Leaf T).

(** ** Where a pattern leads *)

Fixpoint node_get (n : Node T) (p : list Segment) : option (Leaf T) :=
  match p with
  | [] => leaf n
  | Static s :: p => let! child := assoc (statics n) s in node_get child p
  | Param x :: p => match param n with Some (y, child) => if decide (x = y) then node_get child p else None | None => None end
  | CatchAll x :: p =>
      match p with
      | [] => match catch_all n with Some (y, l) => if decide (x = y) then Some l else None | None => None end
      | _ :: _ => None
      end
  end.

Definition registered n p (m : Method) : option T := let! found := node_get n p in handler found m.

Lemma node_get_new p : node_get Node_new p = None.
Proof. by destruct p as [|[s|x|x] [|]]. Qed.

(** ** Well-formed tries: children in order, room for every parameter, no leaf without
    a handler *)

Definition leaf_ok (l : Leaf T) : Prop := length (handlers l) = METHODS /\ exists m, is_Some (handler l m).

Inductive node_wf : nat -> Node T -> Prop :=
| Node_wf k statics param catch_all leaf :
    ascending statics -> Forall (fun c => node_wf k c.2) statics ->
    (forall x child, param = Some (x, child) -> (k < MAX_PARAMS)%nat /\ node_wf (S k) child) ->
    (forall x l, catch_all = Some (x, l) -> (k < MAX_PARAMS)%nat /\ leaf_ok l) ->
    (forall l, leaf = Some l -> leaf_ok l) ->
    node_wf k (MkNode statics param catch_all leaf).

Lemma node_wf_new k : node_wf k Node_new.
Proof. constructor; try done; constructor. Qed.

Lemma node_wf_child k n s child : node_wf k n -> assoc (statics n) s = Some child -> node_wf k child.
Proof.
  intros [k' ss pa ca le _ Hc _ _ _] H%assoc_Some. cbn in H. rewrite Forall_forall in Hc. apply (Hc (s, child) H).
Qed.

Lemma node_get_ok p : forall k n l, node_wf k n -> node_get n p = Some l -> leaf_ok l.
Proof.
  induction p as [|[s|x|x] p IH]; intros k n l Hw; cbn [node_get].
  - destruct Hw. cbn. auto.
  - destruct (assoc (statics n) s) as [c|] eqn:Ha; [|done]. eapply IH. by eapply node_wf_child.
  - destruct Hw as [k ss pa ca le _ _ Hp _ _]. cbn. destruct pa as [[y c]|]; [|done].
    destruct (decide (x = y)); [|done]. eapply IH. by eapply Hp.
  - destruct p; [|done]. destruct Hw as [k ss pa ca le _ _ _ Hc _]. cbn. destruct ca as [[y c]|]; [|done].
    destruct (decide (x = y)); [|done]. intros [= <-]. by eapply Hc.
Qed.

(** ** Registering *)

Lemma Method_id_inj m m' : Z.to_nat (Method_id m) = Z.to_nat (Method_id m') <-> m = m'.
Proof. split; [|by intros ->]. by destruct m, m'. Qed.

Lemma handler_new pattern m : handler (T := T) (Leaf_new pattern) m = None.
Proof. by destruct m. Qed.

Lemma register_spec m d l l' v : length (handlers l) = METHODS -> register m d l = (l', v) ->
  match v with
  | Ok _ => handler l m = None /\ leaf_ok l' /\
      forall m', handler l' m' = if decide (m' = m) then Some d else handler l m'
  | Err e => l' = l /\ handler l m <> None
  end.
Proof.
  intros Hl. unfold register. assert (Z.to_nat (Method_id m) < length (handlers l))%nat as Hlt by (rewrite Hl; destruct m; cbn; lia).
  destruct (lookup_lt_is_Some_2 _ _ Hlt) as [h Hh]. unfold handler. rewrite Hh. destruct h as [h|]; intros [= <- <-]; [done|].
  split; [done|].
  assert (forall m', mjoin (<[Z.to_nat (Method_id m):=Some d]> (handlers l) !! Z.to_nat (Method_id m'))
    = if decide (m' = m) then Some d else mjoin (handlers l !! Z.to_nat (Method_id m'))) as Hm.
  { intros m'. destruct (decide (m' = m)) as [->|Hne]; [by rewrite list_lookup_insert_eq|].
    rewrite list_lookup_insert_ne; [done|]. intros E%Method_id_inj. congruence. }
  split; [|exact Hm]. split; [by cbn; rewrite length_insert|]. exists m. unfold handler. cbn. rewrite Hm, decide_True by done. by eexists.
Qed.

Definition dead_end (v : result RouteError unit) : Prop := match v with Ok _ => False | Err _ => True end.

(** The leaf [use] is given, and what holds after it. *)
Lemma use_leaf m d pattern (o : option (Leaf T)) l' v : (forall l, o = Some l -> leaf_ok l) ->
  register m d (default (Leaf_new pattern) o) = (l', v) ->
  leaf_ok l' /\
  match v with
  | Ok _ => (let! found := o in handler found m) = None /\
      forall m', handler l' m' = if decide (m' = m) then Some d else let! found := o in handler found m'
  | Err _ => o = Some l'
  end.
Proof.
  intros Ho H. destruct o as [l|]; cbn [default] in H.
  - destruct (Ho l eq_refl) as [Hlen Hsome]. apply register_spec in H; [|done]. destruct v.
    + by destruct H as (H1 & H2 & H3).
    + destruct H as [-> _]. done.
  - pose proof (register_spec m d (Leaf_new pattern) l' v eq_refl H) as Hr. destruct v as [[]|e].
    + destruct Hr as (_ & H2 & H3). split; [done|]. split; [done|]. intros m'. rewrite H3. by rewrite handler_new.
    + destruct Hr as [_ Hr]. by rewrite handler_new in Hr.
Qed.

(** What [leaf_for] does for a pattern: on success its handler is added, and a refused
    call changes where no pattern leads. *)
Definition registers m d k n p (r : Node T * result RouteError unit) : Prop :=
  node_wf k r.1 /\
  match r.2 with
  | Ok _ => registered n p m = None /\
      forall q m', registered r.1 q m' = if decide (q = p /\ m' = m) then Some d else registered n q m'
  | Err _ => forall q, node_get r.1 q = node_get n q
  end.

Ltac other_pattern := rewrite decide_False by (intros [[=] _]; congruence); done.
Ltac same_pattern := apply decide_ext; split; [by intros [-> ->] | by intros [[= ->] ->]].

Lemma registers_end m d pattern k n : node_wf k n -> registers m d k n [] (leaf_for n [] pattern k (register m d)).
Proof.
  intros Hw. cbn [leaf_for]. destruct (register m d _) as [l' v'] eqn:Hr.
  destruct Hw as [k ss pa ca le Ha Hs Hp Hc Hl]. cbn [leaf statics param catch_all] in *.
  apply use_leaf in Hr as [Hok Hv]; [|done].
  split; [constructor; try done; by intros found [= <-]|]. cbn [fst snd]. destruct v' as [[]|e].
  - destruct Hv as [H1 H2]. split; [done|]. intros q m'. unfold registered.
    destruct q as [|a q]; cbn [node_get leaf].
    { rewrite H2. apply decide_ext. tauto. }
    rewrite decide_False by (by intros [[=] _]). by destruct a.
  - subst le. by intros [|[] q].
Qed.

(** The place of a static child, made when it is not there. *)
Definition static_place (ss : list (bytes * Node T)) (s : bytes) : nat * list (bytes * Node T) :=
  match binary_search ss s with
  | Ok position => (position, ss)
  | Err position => (position, insert_at position (s, Node_new) ss)
  end.

Lemma insert_at_set (ss : list (bytes * Node T)) i x y : insert_at i x ss !! i = Some x ->
  <[i := y]> (insert_at i x ss) = insert_at i y ss.
Proof.
  intros Hat. pose proof (lookup_lt_Some _ _ _ Hat) as Hlt. unfold insert_at in *.
  rewrite length_app, length_take in Hlt. cbn [length] in Hlt. rewrite length_drop in Hlt.
  rewrite insert_app_r_alt by (rewrite length_take; lia). rewrite length_take.
  replace (i - Nat.min i (length ss))%nat with 0%nat by lia. done.
Qed.

Lemma static_place_spec k ss s : ascending ss -> Forall (fun c => node_wf k c.2) ss ->
  exists i ss1, static_place ss s = (i, ss1) /\
    let child := default Node_new (assoc ss s) in
    ss1 !! i = Some (s, child) /\ node_wf k child /\
    forall c, ascending (<[i := (s, c)]> ss1) /\
      (forall s', assoc (<[i := (s, c)]> ss1) s' = if decide (s = s') then Some c else assoc ss s') /\
      (node_wf k c -> Forall (fun c => node_wf k c.2) (<[i := (s, c)]> ss1)).
Proof.
  intros Ha Hs. unfold static_place. pose proof (binary_search_spec ss s Ha) as Hb.
  destruct (binary_search ss s) as [i|i].
  - destruct Hb as ((c & Hi & Hac) & Hg & Hb). rewrite Hac. exists i, ss. split; [done|]. split; [done|].
    split; [rewrite Forall_forall in Hs; apply (Hs (s, c)); by eapply list_elem_of_lookup_2|].
    intros c'. split; [done|]. split; [done|]. intros Hc'. by apply Forall_insert.
  - destruct Hb as (Hno & Hg & Hb & Hat). rewrite Hno. eexists i, _. split; [done|]. split; [apply Hat|].
    split; [apply node_wf_new|]. intros c. rewrite insert_at_set by apply Hat. split; [done|]. split; [done|].
    intros Hc'. unfold insert_at. apply Forall_app_2; [by apply Forall_take|]. constructor; [done|by apply Forall_drop].
Qed.

Lemma registers_static m d pattern k n s p :
  (forall child, node_wf k child -> registers m d k child p (leaf_for child p pattern k (register m d))) ->
  node_wf k n -> registers m d k n (Static s :: p) (leaf_for n (Static s :: p) pattern k (register m d)).
Proof.
  intros IH Hw. cbn [leaf_for]. destruct Hw as [k ss pa ca le Ha Hs Hp Hc Hl]. cbn [leaf statics param catch_all] in *.
  destruct (static_place_spec k ss s Ha Hs) as (i & ss1 & Hplace & Hi & Hchild & Hset).
  fold (static_place ss s). rewrite Hplace, Hi. specialize (IH _ Hchild).
  destruct (leaf_for (default Node_new (assoc ss s)) p pattern k (register m d)) as [child v].
  destruct IH as [Hw' Hv]. cbn [fst snd] in *. destruct (Hset child) as (Hasc & Hget & Hall).
  split; [constructor; auto|]. cbn [fst snd].
  assert (forall q, node_get (default Node_new (assoc ss s)) q = let! c := assoc ss s in node_get c q) as Hc0.
  { intros q. destruct (assoc ss s); [done|]. apply node_get_new. }
  destruct v as [[]|e].
  - destruct Hv as [H1 H2]. unfold registered in *. split; [cbn [node_get statics]; by rewrite <- Hc0|].
    intros q m'. destruct q as [|[s'|y|y] q]; try other_pattern. cbn [node_get statics]. rewrite Hget.
    destruct (decide (s = s')) as [<-|Hne]; [|other_pattern]. rewrite H2, <- Hc0. same_pattern.
  - intros [|[s'|y|y] q]; try done. cbn [node_get statics]. rewrite Hget. destruct (decide (s = s')) as [<-|]; [|done].
    rewrite Hv. apply Hc0.
Qed.

(** A child under a name: what is found under another name is nothing. *)
Lemma named_other {A B} (o : option (bytes * A)) known (f : A -> option B) x :
  (forall y c, o = Some (y, c) -> y = known) -> x <> known ->
  match o with Some (y, c) => if decide (x = y) then f c else None | None => None end = None.
Proof. intros Hn Hx. destruct o as [[y c]|]; [|done]. by rewrite decide_False by (rewrite (Hn _ _ eq_refl); done). Qed.

Lemma registers_param m d pattern k n x p :
  (forall child, node_wf (S k) child -> registers m d (S k) child p (leaf_for child p pattern (S k) (register m d))) ->
  node_wf k n -> registers m d k n (Param x :: p) (leaf_for n (Param x :: p) pattern k (register m d)).
Proof.
  intros IH Hw. cbn [leaf_for]. destruct (Nat.ltb_spec MAX_PARAMS (k + 1)); [done|].
  destruct Hw as [k ss pa ca le Ha Hs Hp Hc Hl]. cbn [leaf statics param catch_all] in *.
  destruct (default (x, Node_new) pa) as [known child0] eqn:Hd.
  assert (node_wf (S k) child0) as Hchild.
  { destruct pa as [[y c]|]; cbn in Hd; injection Hd as <- <-; [by eapply Hp|apply node_wf_new]. }
  assert (forall q, match pa with Some (y, c) => if decide (known = y) then node_get c q else None | None => None end
    = node_get child0 q) as Hc0.
  { intros q. destruct pa as [[y c]|]; cbn in Hd; injection Hd as <- <-; [by rewrite decide_True|by rewrite node_get_new]. }
  assert (forall y c, pa = Some (y, c) -> y = known) as Hname by (intros y c ->; cbn in Hd; congruence).
  destruct (bool_decide_reflect (known = x)) as [->|Hne].
  2: { assert (pa = Some (known, child0)) as ->.
       { destruct pa as [[y c]|]; cbn in Hd; [by injection Hd as <- <-|congruence]. }
       split; [by constructor; auto|done]. }
  replace (k + 1)%nat with (S k) in * by lia. specialize (IH _ Hchild).
  destruct (leaf_for child0 p pattern (S k) (register m d)) as [child v]. destruct IH as [Hw' Hv]. cbn [fst snd] in *.
  split; [constructor; auto; intros y c [= <- <-]; split; [lia|done]|]. cbn [fst snd]. destruct v as [[]|e].
  - destruct Hv as [H1 H2]. unfold registered in *. split; [cbn [node_get param]; by rewrite Hc0|].
    intros q m'. destruct q as [|[s'|y|y] q]; try other_pattern. cbn [node_get param].
    destruct (decide (y = x)) as [->|Hy]; [rewrite H2, Hc0; same_pattern|].
    rewrite decide_False by (intros [[=] _]; congruence). by rewrite (named_other pa x).
  - intros [|[s'|y|y] q]; try done. cbn [node_get param].
    destruct (decide (y = x)) as [->|Hy]; [by rewrite Hv, Hc0|]. by rewrite (named_other pa x).
Qed.

Lemma registers_catch_all m d pattern k n x p : node_wf k n ->
  registers m d k n (CatchAll x :: p) (leaf_for n (CatchAll x :: p) pattern k (register m d)).
Proof.
  intros Hw. cbn [leaf_for]. destruct p as [|a p]; [|done]. destruct (Nat.ltb_spec MAX_PARAMS (k + 1)); [done|].
  destruct Hw as [k ss pa ca le Ha Hs Hp Hc Hl]. cbn [leaf statics param catch_all] in *.
  destruct (default (x, Leaf_new pattern) ca) as [known l0] eqn:Hd.
  destruct (bool_decide_reflect (known = x)) as [->|Hne].
  2: { assert (ca = Some (known, l0)) as ->.
       { destruct ca as [[y c]|]; cbn in Hd; [by injection Hd as <- <-|congruence]. }
       split; [by constructor|done]. }
  destruct (register m d l0) as [l' v'] eqn:Hr.
  assert (l0 = default (Leaf_new pattern) (snd <$> ca) /\ forall y c, ca = Some (y, c) -> y = x) as [-> Hname].
  { destruct ca as [[y c]|]; cbn in Hd; simplify_eq; (split; [done|]); intros; by simplify_eq. }
  apply use_leaf in Hr as [Hok Hv].
  2: { intros found. destruct ca as [[y c]|]; cbn; [|done]. intros [= ->]. by eapply Hc. }
  split; [constructor; auto; intros y c [= <- <-]; split; [lia|done]|]. cbn [fst snd].
  assert (match ca with Some (y, c) => if decide (x = y) then Some c else None | None => None end = (snd <$> ca)) as Hca.
  { destruct ca as [[y c]|]; [|done]. cbn. by rewrite (Hname _ _ eq_refl), decide_True. }
  destruct v' as [[]|e].
  - destruct Hv as [H1 H2]. unfold registered. split; [cbn [node_get catch_all]; by rewrite Hca|].
    intros q m'. destruct q as [|[s'|y|y] q]; try other_pattern. cbn [node_get catch_all].
    destruct q as [|b q]; [|other_pattern]. destruct (decide (y = x)) as [->|Hy]; [rewrite Hca, H2; apply decide_ext; tauto|].
    cbn. rewrite (named_other ca x) by done. other_pattern.
  - intros [|[s'|y|y] q]; try done. cbn [node_get catch_all]. destruct q; [|done].
    destruct (decide (y = x)) as [->|Hy]; [by rewrite Hca, Hv|].
    by rewrite (named_other ca x).
Qed.

Lemma leaf_for_registers m d pattern p : forall k n, node_wf k n ->
  registers m d k n p (leaf_for n p pattern k (register m d)).
Proof.
  induction p as [|[s|x|x] p IH]; intros k n Hw.
  - by apply registers_end.
  - apply registers_static; auto.
  - apply registers_param; auto.
  - by apply registers_catch_all.
Qed.
End tree.

(** ** Matching *)

(** What a pattern captures of a path whose segments are the ranges [segs]. *)
Fixpoint captures (path : bytes) (p : list Segment) (segs : list (nat * nat)) : option (list capture) :=
  match p, segs with
  | [], [] => Some []
  | [CatchAll x], [] => Some [(x, (length path, length path))]
  | [CatchAll x], (start, _) :: _ => Some [(x, (start, length path))]
  | Static s :: p, seg :: segs => if bool_decide (slice path seg = s) then captures path p segs else None
  | Param x :: p, seg :: segs =>
      if bool_decide (slice path seg = []) then None else cons (x, seg) <$> captures path p segs
  | _, _ => None
  end.

Definition open_ended (p : list Segment) : bool := existsb is_catch_all p.
Definition allowed (catch : bool) (p : list Segment) : bool := catch || negb (open_ended p).

(** Which pattern comes first: a static segment before a parameter before a catch-all,
    and the end of the pattern before a catch-all. *)
Definition rank (s : Segment) : nat := match s with Static _ => 0 | Param _ => 1 | CatchAll _ => 2 end.
Fixpoint prefer (p q : list Segment) : bool :=
  match p, q with
  | [], _ => true
  | _ :: _, [] => false
  | a :: p, b :: q =>
      match (rank a ?= rank b)%nat with Lt => true | Gt => false | Eq => prefer p q end
  end.

Lemma prefer_refl p : prefer p p = true.
Proof. induction p as [|a p IH]; cbn; [done|]. by rewrite Nat.compare_refl. Qed.

Lemma prefer_total p : forall q, prefer p q = true \/ prefer q p = true.
Proof.
  induction p as [|a p IH]; intros [|b q]; cbn; auto. rewrite (Nat.compare_antisym (rank a) (rank b)).
  destruct (rank a ?= rank b)%nat; cbn; auto.
Qed.

Lemma prefer_trans p : forall q r, prefer p q = true -> prefer q r = true -> prefer p r = true.
Proof.
  induction p as [|a p IH]; intros [|b q] [|c r]; cbn; try done.
  destruct (Nat.compare_spec (rank a) (rank b)) as [Hab|Hab|Hab], (Nat.compare_spec (rank b) (rank c)) as [Hbc|Hbc|Hbc]; try done.
  - rewrite Hab, Hbc, Nat.compare_refl. apply IH.
  - intros _ _. by rewrite (proj2 (Nat.compare_lt_iff _ _)) by lia.
  - intros _ _. by rewrite (proj2 (Nat.compare_lt_iff _ _)) by lia.
  - intros _ _. by rewrite (proj2 (Nat.compare_lt_iff _ _)) by lia.
Qed.

Section find.
Context {T : Type}.
Implicit Types (n : Node T) (p q : list Segment).

(** Two patterns of one trie that match the same path and rank the same are one. *)
Lemma prefer_antisym path p : forall n q segs,
  is_Some (node_get n p) -> is_Some (node_get n q) -> is_Some (captures path p segs) -> is_Some (captures path q segs) ->
  prefer p q = true -> prefer q p = true -> p = q.
Proof.
  induction p as [|a p IH]; intros n [|b q] segs Hp Hq Hcp Hcq H1 H2; cbn in H1, H2; try done.
  rewrite (Nat.compare_antisym (rank a) (rank b)) in H2. destruct (rank a ?= rank b)%nat eqn:Hr; try done.
  apply Nat.compare_eq_iff in Hr. destruct a as [s|x|x], b as [s'|y|y]; try done; cbn [node_get] in Hp, Hq.
  - destruct segs as [|seg segs]; cbn [captures] in Hcp, Hcq; [by destruct Hcp|].
    destruct (bool_decide_reflect (slice path seg = s)) as [<-|]; [|by destruct Hcp].
    destruct (bool_decide_reflect (slice path seg = s')) as [<-|]; [|by destruct Hcq].
    destruct (assoc (statics n) (slice path seg)) as [c|]; [|by destruct Hp]. f_equal. by eapply (IH c).
  - destruct (param n) as [[z c]|]; [|by destruct Hp]. destruct (decide (x = z)) as [->|]; [|by destruct Hp].
    destruct (decide (y = z)) as [->|]; [|by destruct Hq].
    destruct segs as [|seg segs]; cbn [captures] in Hcp, Hcq; [by destruct Hcp|].
    destruct (bool_decide (slice path seg = [])); [by destruct Hcp|].
    rewrite fmap_is_Some in Hcp, Hcq. f_equal. by eapply (IH c).
  - destruct p, q; try by (destruct Hp as [? Hp] || destruct Hq as [? Hq]).
    destruct (catch_all n) as [[z c]|]; [|by destruct Hp]. destruct (decide (x = z)) as [->|]; [|by destruct Hp].
    destruct (decide (y = z)) as [->|]; [done|by destruct Hq].
Qed.

(** The answer of [find] below a node that captured [ps]. *)
Definition found (path : bytes) n segs (ps : Params) (catch : bool) (r : Params * option (Leaf T)) : Prop :=
  params_ok r.1 /\
  match r.2 with
  | None => captured r.1 = captured ps /\
      forall p, is_Some (node_get n p) -> allowed catch p = true -> captures path p segs = None
  | Some l => exists p caps, node_get n p = Some l /\ allowed catch p = true /\ captures path p segs = Some caps /\
      captured r.1 = captured ps ++ caps /\
      forall q, is_Some (node_get n q) -> allowed catch q = true -> is_Some (captures path q segs) -> prefer p q = true
  end.

Lemma found_static path n s seg segs child ps catch r l : slice path seg = s -> assoc (statics n) s = Some child ->
  found path child segs ps catch (r, Some l) -> found path n (seg :: segs) ps catch (r, Some l).
Proof.
  intros Hs Hchild [Hok (p & caps & Hg & Ha & Hc & Hcap & Hbest)]. split; [done|]. cbn [fst snd] in *.
  exists (Static s :: p), caps. cbn [node_get captures]. rewrite Hchild, bool_decide_eq_true_2 by done.
  split; [done|]. split; [done|]. split; [done|]. split; [done|].
  intros [|[s'|y|y] q] Hq Haq Hcq; try done; cbn [captures] in Hcq; [by destruct Hcq|].
  cbn [node_get] in Hq. destruct (bool_decide_reflect (slice path seg = s')) as [<-|]; [|by destruct Hcq].
  cbn [prefer rank]. rewrite Nat.compare_refl. apply Hbest; [|done|done]. by rewrite Hs, Hchild in Hq.
Qed.

Lemma found_param path n x seg segs child ps ps1 catch r l : slice path seg <> [] -> param n = Some (x, child) ->
  captured ps1 = captured ps ++ [(x, seg)] ->
  (forall s q, is_Some (node_get n (Static s :: q)) -> allowed catch q = true -> captures path (Static s :: q) (seg :: segs) = None) ->
  found path child segs ps1 catch (r, Some l) -> found path n (seg :: segs) ps catch (r, Some l).
Proof.
  intros Hs Hchild Hps1 Hstatic [Hok (p & caps & Hg & Ha & Hc & Hcap & Hbest)]. split; [done|]. cbn [fst snd] in *.
  exists (Param x :: p), ((x, seg) :: caps). cbn [node_get captures]. rewrite Hchild, decide_True, bool_decide_eq_false_2 by done.
  split; [done|]. split; [done|]. split; [by rewrite Hc|]. split; [by rewrite Hcap, Hps1, <- app_assoc|].
  intros [|[s'|y|y] q] Hq Haq Hcq; try done.
  - by destruct Hcq.
  - exfalso. rewrite (Hstatic s' q Hq Haq) in Hcq. by destruct Hcq.
  - cbn [prefer rank]. rewrite Nat.compare_refl. cbn [node_get] in Hq. rewrite Hchild in Hq.
    destruct (decide (y = x)) as [->|]; [|by destruct Hq]. cbn [captures] in Hcq. rewrite bool_decide_eq_false_2 in Hcq by done.
    rewrite fmap_is_Some in Hcq. by apply Hbest.
Qed.

(** The catch-all is what is left, or there is nothing. *)
Definition ends_open (q : list Segment) : bool := match q with CatchAll _ :: _ => true | _ => false end.

Definition try_catch_all (path : bytes) n (start : nat) (ps : Params) (catch : bool) : Params * option (Leaf T) :=
  if catch then
    match catch_all n with
    | Some (name, leaf) =>
        let (params, pushed) := push ps name (start, length path) in (params, if pushed then Some leaf else None)
    | None => (ps, None)
    end
  else (ps, None).

Lemma found_catch_all path n segs ps ps0 (catch : bool) k : params_ok ps -> captured ps = captured ps0 -> len_ ps = k -> node_wf k n ->
  (forall q, is_Some (node_get n q) -> allowed catch q = true -> ends_open q = false -> captures path q segs = None) ->
  found path n segs ps0 catch (try_catch_all path n (match segs with [] => length path | (start, _) :: _ => start end) ps catch).
Proof.
  intros Hok Hps Hlen Hw Hno. unfold try_catch_all. set (start := match segs with [] => _ | _ => _ end).
  assert (forall x l, catch_all n = Some (x, l) -> (k < MAX_PARAMS)%nat) as Hk.
  { intros x l. destruct Hw as [k ss pa ca le _ _ _ Hc _]. cbn. intros ->. by eapply Hc. }
  assert ((catch = true -> catch_all n = None) -> found path n segs ps0 catch (ps, None)) as Hnone.
  { intros Hn. split; [done|]. split; [done|]. intros p Hp Ha. destruct (ends_open p) eqn:He; [|by apply Hno].
    destruct p as [|[| |x] p]; try done. destruct catch; [|done]. cbn [node_get] in Hp. rewrite Hn in Hp by done.
    destruct p; by destruct Hp. }
  destruct catch; [|by apply Hnone]. destruct (catch_all n) as [[x l]|] eqn:Hca; [|by apply Hnone].
  destruct (push_captured ps x (start, length path) Hok) as (ps1 & -> & Hok1 & Hc1 & _); [rewrite Hlen; by eapply Hk|].
  split; [done|]. cbn [fst snd]. exists [CatchAll x], [(x, (start, length path))]. cbn [node_get]. rewrite Hca, decide_True by done.
  split; [done|]. split; [done|]. split; [subst start; by destruct segs as [|[]]|]. split; [by rewrite Hc1, Hps|].
  intros q Hq Haq Hcq. destruct (ends_open q) eqn:He; [|rewrite (Hno q Hq Haq He) in Hcq; by destruct Hcq].
  by destruct q as [|[| |y] q].
Qed.

(** A step of [find] that failed leaves the parameters as they were. *)
Definition failed (ps : Params) (r : Params * option (Leaf T)) : Prop :=
  params_ok r.1 /\ captured r.1 = captured ps /\ r.2 = None.

Lemma find_found path segs : forall k n ps catch, node_wf k n -> params_ok ps -> len_ ps = k ->
  found path n segs ps catch (find n path segs ps catch).
Proof.
  induction segs as [|[start end_] segs IH]; intros k n ps catch Hw Hok Hlen; cbn [find].
  { destruct (leaf n) as [l|] eqn:Hl.
    - split; [done|]. exists [], []. split; [done|]. split; [by destruct catch|]. split; [done|]. split; [by rewrite app_nil_r|]. done.
    - apply (found_catch_all path n [] ps ps catch k); try done. intros [|[|x|x] q] Hq _ He; try done.
      cbn [node_get] in Hq. rewrite Hl in Hq. by destruct Hq. }
  set (seg := (start, end_)). set (static := match binary_search _ _ with Ok _ => _ | Err _ => _ end).
  assert ((exists l, static.2 = Some l /\ found path n (seg :: segs) ps catch static) \/ failed ps static /\
    (forall q s, is_Some (node_get n (Static s :: q)) -> allowed catch q = true -> captures path (Static s :: q) (seg :: segs) = None)) as Hstatic.
  { subst static. assert (ascending (statics n)) as Ha by (by destruct Hw).
    pose proof (binary_search_spec _ (slice path (start, end_)) Ha) as Hb. destruct (binary_search _ _) as [i|i].
    - destruct Hb as [(child & -> & Hchild) _]. pose proof (node_wf_child k n _ child Hw Hchild) as Hwc.
      specialize (IH k child ps catch Hwc Hok Hlen). destruct (find child path segs ps catch) as [r [l|]].
      + left. exists l. split; [done|]. by eapply found_static.
      + right. destruct IH as (H1 & H2 & H3). split; [done|]. intros q s Hq Haq. cbn [captures].
        destruct (bool_decide_reflect (slice path seg = s)) as [<-|]; [|done]. apply H3; [|done].
        cbn [node_get] in Hq. subst seg. by rewrite Hchild in Hq.
    - right. split; [done|]. destruct Hb as [Hnone _]. intros q s Hq _. cbn [captures].
      destruct (bool_decide_reflect (slice path seg = s)) as [<-|]; [|done]. cbn [node_get] in Hq.
      subst seg. rewrite Hnone in Hq. by destruct Hq. }
  clearbody static. destruct static as [ps1 o]. destruct Hstatic as [(l & Hl & Hf)|[(Hok1 & Hc1 & Hn) Hstatic]]; cbn [fst snd] in *; subst o; [done|].
  assert (len_ ps1 = k) as Hlen1 by (rewrite <- !captured_length in * by done; congruence).
  set (parameter := match param n with Some _ => _ | None => _ end).
  assert ((exists l, parameter.2 = Some l /\ found path n (seg :: segs) ps catch parameter) \/ failed ps parameter /\
    (forall q x, is_Some (node_get n (Param x :: q)) -> allowed catch q = true -> captures path (Param x :: q) (seg :: segs) = None)) as Hparam.
  { subst parameter. destruct (param n) as [[x child]|] eqn:Hp.
    2: { right. split; [done|]. intros q x Hq _. cbn [node_get] in Hq. rewrite Hp in Hq. by destruct Hq. }
    destruct (bool_decide_reflect (slice path seg = [])) as [He|He]; cbn [negb].
    { right. split; [done|]. intros q y _ _. cbn [captures]. by rewrite bool_decide_eq_true_2. }
    assert ((k < MAX_PARAMS)%nat /\ node_wf (S k) child) as [Hk Hwc].
    { destruct Hw as [k ss pa ca le _ _ Hpa _ _]. cbn in Hp. by eapply Hpa. }
    destruct (push_captured ps1 x seg Hok1 ltac:(lia)) as (ps2 & -> & Hok2 & Hc2 & Hl2).
    specialize (IH (S k) child ps2 catch Hwc Hok2 ltac:(lia)). destruct (find child path segs ps2 catch) as [r [l|]].
    - left. exists l. split; [done|]. eapply found_param; [done|done| |by intros; apply Hstatic|done]. by rewrite Hc2, Hc1.
    - right. destruct IH as (H1 & H2 & H3). cbn [fst snd] in *. rewrite Hc2 in H2. split.
      + split; [by apply pop_ok|]. destruct (captured_pop r _ _ H1 H2) as [Hp1 _]. cbn [fst snd]. by rewrite Hp1.
      + intros q y Hq Haq. cbn [captures]. rewrite bool_decide_eq_false_2 by done. cbn [node_get] in Hq. rewrite Hp in Hq.
        destruct (decide (y = x)) as [->|]; [|by destruct Hq]. by rewrite (H3 q Hq Haq). }
  clearbody parameter. destruct parameter as [ps2 o]. destruct Hparam as [(l & Hl & Hf)|[(Hok2 & Hc2 & Hn) Hparam]]; cbn [fst snd] in *; subst o; [done|].
  apply (found_catch_all path n (seg :: segs) ps2 ps catch k); try done.
  - rewrite <- !captured_length in * by done. congruence.
  - intros [|[s|x|x] q] Hq Haq He; try done; [by apply Hstatic|by apply Hparam].
Qed.
End find.
