(* ===== verification/RouterTable.v ===== *)
(** * What a router resolves to

    A reference for the router: a table of the accepted routes and of the mounts, in the
    order they were registered, scanned from the first entry to the last.  The trie, its
    sorted children and its sorted mounts answer as the table does, and a refused
    registration changes no answer. *)
From stdpp Require Import sorting.
From S2P Require Import Prelude HttpTypes Uri Router RouterTree.
#[local] Open Scope Z_scope.
#[local] Set Warnings "-register-all".

(** ** The segments of a path *)

Fixpoint spans (start : nat) (pieces : list bytes) : list (nat * nat) :=
  match pieces with
  | [] => []
  | piece :: pieces => (start, (start + length piece)%nat) :: spans (start + length piece + 1) pieces
  end.
Definition segments_of (path : bytes) : option (list (nat * nat)) :=
  match path with
  | [] => None
  | _ :: [] => Some []
  | _ :: rest =>
      let segs := spans 1 (split_on is_slash rest) in
      if (length segs <=? MAX_SEGMENTS)%nat then Some segs else None
  end.

(** ** The allowed methods *)

Definition answers_method (reg : Method -> bool) (m : Method) : bool :=
  reg m || (bool_decide (m = Head) && reg Get) || bool_decide (m = Options).
Definition methods_allowed (reg : Method -> bool) : list Method :=
  filter (fun m => answers_method reg m = true) Method_ALL.

(** ** The reference *)

Section table.
Context {T : Type}.

Record Entry : Type := MkEntry { e_pattern : list Segment; e_method : Method; e_descriptor : T }.

(** The routes in the order they were accepted, the mounts in theirs. *)
Inductive Table : Type :=
  MkTable (entries : list Entry) (children : list (bytes * Table)) (slash : TrailingSlash).

Inductive Answer : Type :=
| AMatched (descriptor : T) (captured : list capture) (head : bool)
| ANotFound
| ANotAllowed (methods : list Method)
| AOptions (methods : list Method)
| ANotImplemented.

Fixpoint entry_lookup (entries : list Entry) (p : list Segment) (m : Method) : option T :=
  match entries with
  | [] => None
  | e :: entries => if decide (p = e_pattern e /\ m = e_method e) then Some (e_descriptor e) else entry_lookup entries p m
  end.

(** The first of the patterns that match, by [prefer]. *)
Definition best (path : bytes) (segs : list (nat * nat)) (catch : bool) (entries : list Entry) : option (list Segment) :=
  fold_left (fun acc e =>
    let p := e_pattern e in
    if allowed catch p && bool_decide (is_Some (captures path p segs)) then
      match acc with
      | Some q => if prefer q p then Some q else Some p
      | None => Some p
      end
    else acc) entries None.

Definition answer_at (entries : list Entry) (path : bytes) (segs : list (nat * nat)) (p : list Segment) (m : Method) : Answer :=
  let caps := default [] (captures path p segs) in
  let reg m := bool_decide (is_Some (entry_lookup entries p m)) in
  match entry_lookup entries p m with
  | Some d => AMatched d caps false
  | None =>
      match (if bool_decide (m = Head) then entry_lookup entries p Get else None) with
      | Some d => AMatched d caps true
      | None => if bool_decide (m = Options) then AOptions (methods_allowed reg) else ANotAllowed (methods_allowed reg)
      end
  end.

Definition shift_answer (by_ : nat) (a : Answer) : Answer :=
  match a with AMatched d caps head => AMatched d (shift_capture by_ <$> caps) head | other => other end.

(** A covering mount takes the place of the one before when its prefix is longer. *)
Definition longer {A} (acc : option (nat * A)) (n : nat) (a : A) : option (nat * A) :=
  match acc with Some (n', a') => if (n' <? n)%nat then Some (n, a) else acc | None => Some (n, a) end.

(** The answer of the mount with the longest prefix that covers the path. *)
Definition pick (answer : Table -> bytes -> Answer) (path : bytes)
  : list (bytes * Table) -> option (nat * Answer) -> option (nat * Answer) :=
  fix go (children : list (bytes * Table)) (acc : option (nat * Answer)) :=
    match children with
    | [] => acc
    | (prefix, t) :: children =>
        match child_path prefix path with
        | None => go children acc
        | Some child => go children (longer acc (length prefix) (shift_answer (length prefix) (answer t child)))
        end
    end.

(** Patterns without a catch-all, then the mount with the longest prefix, then the rest. *)
Fixpoint reference (t : Table) (m : Method) (path : bytes) : Answer :=
  let 'MkTable entries children slash := t in
  let path := trimmed_path slash path in
  if negb (starts_with_slash path) then ANotFound
  else
    match segments_of path with
    | None => ANotFound
    | Some segs =>
        match best path segs false entries with
        | Some p => answer_at entries path segs p m
        | None =>
            match pick (fun t child => reference t m child) path children None with
            | Some (_, a) => a
            | None =>
                match best path segs true entries with
                | Some p => answer_at entries path segs p m
                | None => ANotFound
                end
            end
        end
    end.

Definition reference_resolve (t : Table) (method path : bytes) : Answer :=
  match Method_parse method with Some m => reference t m path | None => ANotImplemented end.

(** ** Routers and their tables *)

Definition view (r : Resolution T) : Answer :=
  match r with
  | Matched d ps head => AMatched d (Params_iter ps) head
  | NotFound => ANotFound
  | MethodNotAllowed allow => ANotAllowed (Allow_iter allow)
  | OptionsAnswer allow => AOptions (Allow_iter allow)
  | NotImplemented => ANotImplemented
  end.

(** A program that builds a router, refused calls included, and what it accepted. *)
Inductive Built : Router T -> Table -> Prop :=
| Built_new : Built Router_new (MkTable [] [] Ignore)
| Built_slash r entries children slash s :
    Built r (MkTable entries children slash) ->
    Built (with_trailing_slash r s) (MkTable entries children s)
| Built_route r entries children slash m pattern d r' segments :
    Built r (MkTable entries children slash) ->
    route r m pattern d = (r', Ok tt) -> route_segments r pattern = Ok segments ->
    Built r' (MkTable (entries ++ [MkEntry segments m d]) children slash)
| Built_route_refused r t m pattern d r' e :
    Built r t -> route r m pattern d = (r', Err e) -> Built r' t
| Built_mount r entries children slash child tc prefix r' trimmed :
    Built r (MkTable entries children slash) -> Built child tc ->
    mount r prefix child = (r', Ok tt) -> mount_prefix prefix = Ok trimmed ->
    Built r' (MkTable entries (children ++ [(trimmed, tc)]) slash)
| Built_mount_refused r t child prefix r' e :
    Built r t -> mount r prefix child = (r', Err e) -> Built r' t.

End table.
Arguments Entry : clear implicits.
Arguments Table : clear implicits.
Arguments Answer : clear implicits.

(** ** Segments *)

Lemma spans_push start b piece pieces : spans start ((b :: piece) :: pieces) =
  match spans (S start) (piece :: pieces) with (_, e) :: l => (start, e) :: l | [] => [] end.
Proof. cbn. f_equal; [f_equal; lia|f_equal; lia]. Qed.

Lemma split_on_cons f (l : bytes) : exists p ps, split_on f l = p :: ps.
Proof. induction l as [|b l (p & ps & IH)]; cbn; [by eexists _, _|]. rewrite IH. destruct (f b); by eexists _, _. Qed.

(** The loop with the segment that began at [start] and is at [offset + 1]. *)
Lemma segments_loop_spans rest : forall offset start acc, (start <= offset + 1)%nat ->
  let segs := match spans (offset + 1) (split_on is_slash rest) with (_, e) :: l => (start, e) :: l | [] => [] end in
  match segments_loop rest offset start acc with
  | None => (MAX_SEGMENTS < length acc + length segs)%nat
  | Some (l, s) => l ++ [(s, (offset + 1 + length rest)%nat)] = acc ++ segs
  end.
Proof.
  induction rest as [|b rest IH]; intros offset start acc Hs; cbv zeta; cbn [segments_loop split_on].
  { done. }
  destruct (split_on_cons is_slash rest) as (p & ps & E). change (is_slash b) with (b =? 47). destruct (b =? 47).
  - rewrite E. cbn [spans length]. replace (offset + 1 + 0 + 1)%nat with (offset + 1 + 1)%nat by lia. destruct (Nat.ltb_spec (length acc) MAX_SEGMENTS) as [Hl|Hl]; [|lia].
    specialize (IH (offset + 1)%nat (offset + 2)%nat (acc ++ [(start, (offset + 1)%nat)]) ltac:(lia)). cbv zeta in IH.
    rewrite E in IH. cbn [spans] in IH. destruct (segments_loop rest _ _ _) as [[l s]|].
    + replace (offset + 1 + S (length rest))%nat with (offset + 1 + 1 + length rest)%nat by lia. rewrite IH, <- app_assoc. cbn [app].
      repeat (lia || f_equal).
    + rewrite length_app in IH. cbn [length] in *. lia.
  - rewrite E. cbn iota. specialize (IH (offset + 1)%nat start acc ltac:(lia)). cbv zeta in IH. rewrite E in IH.
    rewrite spans_push. replace (S (offset + 1)) with (offset + 1 + 1)%nat by lia.
    destruct (segments_loop rest _ _ _) as [[l s]|].
    + replace (offset + 1 + length (b :: rest))%nat with (offset + 1 + 1 + length rest)%nat by (cbn; lia). rewrite IH. done.
    + done.
Qed.

Lemma path_segments_of b rest : path_segments (b :: rest) rest = segments_of (b :: rest).
Proof.
  unfold path_segments, segments_of. destruct rest as [|c rest]; [done|].
  pose proof (segments_loop_spans (c :: rest) 0 1 [] ltac:(lia)) as H. cbv zeta in H. cbn [Nat.add app length] in H.
  destruct (split_on_cons is_slash (c :: rest)) as (p & ps & E). rewrite E in *.
  change (spans 1 (p :: ps)) with ((1, (1 + length p)%nat) :: spans (1 + length p + 1) ps)%nat in *. cbn iota in H.
  remember ((1, (1 + length p)%nat) :: spans (1 + length p + 1) ps)%nat as segs.
  destruct (segments_loop (c :: rest) 0 1 []) as [[l s]|].
  - subst segs. rewrite <- H, length_app. cbn [length].
    destruct (Nat.ltb_spec (length l) MAX_SEGMENTS), (Nat.leb_spec (length l + 1) MAX_SEGMENTS); done || lia.
  - destruct (Nat.leb_spec (length segs) MAX_SEGMENTS); [lia|done].
Qed.

(** ** Allow *)

Lemma method_bit m : Z.shiftl 1 (Method_id m) mod 2 ^ 16 = 2 ^ Method_id m.
Proof. by destruct m. Qed.

Lemma Allow_contains_bit a m : Allow_contains a m = Z.testbit a (Method_id m).
Proof.
  unfold Allow_contains. rewrite method_bit. destruct (Z.eqb_spec (Z.land a (2 ^ Method_id m)) 0) as [H|H].
  - apply (f_equal (fun x => Z.testbit x (Method_id m))) in H. rewrite Z.land_spec, Z.bits_0, Z.pow2_bits_true in H by (by destruct m).
    by rewrite andb_true_r in H.
  - destruct (Z.testbit a (Method_id m)) eqn:Hb; [done|]. destruct H. apply Z.bits_inj'. intros n Hn.
    rewrite Z.land_spec, Z.bits_0. destruct (decide (n = Method_id m)) as [->|Hne]; [by rewrite Hb|].
    rewrite Z.pow2_bits_false by congruence. by rewrite andb_false_r.
Qed.

Lemma Allow_contains_insert a m m' : Allow_contains (Allow_insert a m) m' = bool_decide (m' = m) || Allow_contains a m'.
Proof.
  rewrite !Allow_contains_bit. unfold Allow_insert. rewrite method_bit, Z.lor_spec, orb_comm. f_equal.
  destruct (bool_decide_reflect (m' = m)) as [->|Hne]; [apply Z.pow2_bits_true; by destruct m|].
  apply Z.pow2_bits_false. intros E. apply Hne. by destruct m, m'.
Qed.

Section built.
Context {T : Type}.
Implicit Types (e : Entry T) (entries : list (Entry T)).

Lemma leaf_allow_iter (l : Leaf T) : Allow_iter (Leaf_allow l) = methods_allowed (fun m => bool_decide (is_Some (handler l m))).
Proof.
  set (reg := fun m => bool_decide (is_Some (handler l m))).
  assert (forall m, Allow_contains (allow_registered l) m = reg m) as Hreg.
  { assert (forall ms a m, Allow_contains (fold_left (fun allow method =>
        match handler l method with Some _ => Allow_insert allow method | None => allow end) ms a) m
      = Allow_contains a m || (existsb (fun m' => bool_decide (m = m')) ms && reg m)) as H.
    { induction ms as [|m1 ms IH]; intros a m; cbn [fold_left existsb]; [by rewrite orb_false_r|]. rewrite IH.
      destruct (handler l m1) eqn:Hm1.
      - rewrite Allow_contains_insert. destruct (bool_decide_reflect (m = m1)) as [->|]; cbn [orb andb]; [|done].
        assert (reg m1 = true) as -> by (unfold reg; rewrite Hm1; by apply bool_decide_eq_true_2). by rewrite orb_true_r.
      - destruct (bool_decide_reflect (m = m1)) as [->|]; cbn [orb andb]; [|done].
        assert (reg m1 = false) as -> by (unfold reg; rewrite Hm1; apply bool_decide_eq_false_2; by intros []). by rewrite andb_false_r. }
    intros m. unfold allow_registered. rewrite H. destruct m; cbn [Method_ALL existsb]; by rewrite Allow_contains_bit. }
  unfold Allow_iter, methods_allowed. apply list_filter_iff. intros m. unfold answers_method, Leaf_allow.
  rewrite Allow_contains_insert, (Hreg Get), <- (Hreg m). destruct (reg Get).
  - rewrite Allow_contains_insert. destruct (bool_decide (m = Options)), (bool_decide (m = Head)), (Allow_contains _ m); done.
  - rewrite andb_false_r, orb_false_r. destruct (bool_decide (m = Options)), (Allow_contains _ m); done.
Qed.

(** ** The first of the patterns *)

Definition matching path segs (catch : bool) (p : list Segment) : Prop := allowed catch p = true /\ is_Some (captures path p segs).

Lemma best_spec path segs catch entries :
  match best path segs catch entries with
  | Some p => p ∈ e_pattern <$> entries /\ matching path segs catch p /\
      forall q, q ∈ e_pattern <$> entries -> matching path segs catch q -> prefer p q = true
  | None => forall q, q ∈ e_pattern <$> entries -> ~ matching path segs catch q
  end.
Proof.
  unfold best. induction entries as [|e entries IH] using rev_ind; cbn [fmap list_fmap]; [intros q Hq; by apply not_elem_of_nil in Hq|].
  rewrite fold_left_app, fmap_app. cbn [fold_left fmap list_fmap].
  assert (forall q, q ∈ (e_pattern <$> entries) ++ [e_pattern e] <-> q ∈ e_pattern <$> entries \/ q = e_pattern e) as Hin.
  { intros q. by rewrite elem_of_app, list_elem_of_singleton. }
  destruct (allowed catch (e_pattern e) && _) eqn:Hm.
  - apply andb_true_iff in Hm as [Hal Hcap%bool_decide_eq_true]. assert (matching path segs catch (e_pattern e)) as Hme by done.
    destruct (fold_left _ entries None) as [p|].
    + destruct IH as (H1 & H2 & H3). destruct (prefer p (e_pattern e)) eqn:Hp.
      * split; [rewrite Hin; by left|]. split; [done|]. intros q [Hq| ->]%Hin; [by apply H3|done].
      * assert (prefer (e_pattern e) p = true) as Hp' by (destruct (prefer_total p (e_pattern e)); congruence).
        split; [rewrite Hin; by right|]. split; [done|]. intros q [Hq| ->]%Hin Hmq; [|apply prefer_refl].
        eapply prefer_trans; [exact Hp'|by apply H3].
    + split; [rewrite Hin; by right|]. split; [done|]. intros q [Hq| ->]%Hin Hmq; [by destruct (IH q)|apply prefer_refl].
  - assert (~ matching path segs catch (e_pattern e)) as Hme.
    { intros [H1 H2]. rewrite H1 in Hm. cbn in Hm. by rewrite bool_decide_eq_true_2 in Hm. }
    destruct (fold_left _ entries None) as [p|].
    + destruct IH as (H1 & H2 & H3). split; [rewrite Hin; by left|]. split; [done|].
      intros q [Hq| ->]%Hin Hmq; [by apply H3|done].
    + intros q [Hq| ->]%Hin; [by apply IH|done].
Qed.

(** A trie holds the entries of a table. *)
Definition holds (n : Node T) entries : Prop :=
  node_wf 0 n /\ forall p m, registered n p m = entry_lookup entries p m.

Lemma entry_lookup_app entries e p m :
  entry_lookup (entries ++ [e]) p m =
  match entry_lookup entries p m with
  | Some d => Some d
  | None => if decide (p = e_pattern e /\ m = e_method e) then Some (e_descriptor e) else None
  end.
Proof. induction entries as [|f entries IH]; cbn; [done|]. destruct (decide (p = e_pattern f /\ m = e_method f)); [done|apply IH]. Qed.

Lemma entry_lookup_pattern entries p m : is_Some (entry_lookup entries p m) -> p ∈ e_pattern <$> entries.
Proof.
  induction entries as [|e entries IH]; cbn; [by intros []|]. destruct (decide (p = e_pattern e /\ m = e_method e)) as [[-> _]|].
  - intros _. by left.
  - intros H. right. by apply IH.
Qed.

Lemma entry_pattern_lookup entries p : p ∈ e_pattern <$> entries -> exists m, is_Some (entry_lookup entries p m).
Proof.
  induction entries as [|e entries IH]; cbn; [by intros H%not_elem_of_nil|]. intros [->|H]%elem_of_cons.
  - exists (e_method e). by rewrite decide_True.
  - destruct (IH H) as [m Hm]. exists m. by destruct (decide _).
Qed.

Lemma holds_pattern n entries p : holds n entries -> is_Some (node_get n p) <-> p ∈ e_pattern <$> entries.
Proof.
  intros [Hw Hr]. split.
  - intros [l Hl]. destruct (node_get_ok p 0 n l Hw Hl) as [_ [m Hm]]. apply (entry_lookup_pattern _ _ m).
    rewrite <- Hr. unfold registered. by rewrite Hl.
  - intros [m Hm]%entry_pattern_lookup. rewrite <- Hr in Hm. unfold registered in Hm. destruct (node_get n p); [done|by destruct Hm].
Qed.

Lemma view_dispatch n entries p l path segs ps caps m : holds n entries -> node_get n p = Some l -> params_ok ps ->
  captures path p segs = Some caps -> captured ps = caps ->
  view (dispatch l m ps) = answer_at entries path segs p m.
Proof.
  intros [Hw Hr] Hl Hok Hc Hcap. assert (forall m, handler l m = entry_lookup entries p m) as Hh.
  { intros m'. rewrite <- Hr. unfold registered. by rewrite Hl. }
  unfold dispatch, answer_at. rewrite Hc, !Hh. cbn [default].
  assert (Params_iter ps = caps) as Hps by (by rewrite params_iter_captured).
  destruct (entry_lookup entries p m); cbn [view]; [by rewrite Hps|].
  destruct (if bool_decide (m = Head) then _ else None); cbn [view]; [by rewrite Hps|].
  assert (Allow_iter (Leaf_allow l) = methods_allowed (fun m => bool_decide (is_Some (entry_lookup entries p m)))) as Ha.
  { rewrite leaf_allow_iter. unfold methods_allowed. apply list_filter_iff. intros m'. unfold answers_method. by rewrite !Hh. }
  destruct (bool_decide (m = Options)); cbn [view]; by rewrite Ha.
Qed.

Definition resolution_ok (r : Resolution T) : Prop := match r with Matched _ ps _ => params_ok ps | _ => True end.

Lemma dispatch_ok l m ps : params_ok ps -> resolution_ok (dispatch (T := T) l m ps).
Proof.
  intros Hok. unfold dispatch. destruct (handler l m); [done|].
  destruct (if bool_decide (m = Head) then _ else None); [done|]. by destruct (bool_decide _).
Qed.

(** [find] is the scan of the table. *)
Lemma find_best n entries path segs catch : holds n entries ->
  match find n path segs Params_new catch with
  | (ps, Some l) => exists p, best path segs catch entries = Some p /\ params_ok ps /\
      forall m, view (dispatch l m ps) = answer_at entries path segs p m
  | (_, None) => best path segs catch entries = None
  end.
Proof.
  intros Hh. pose proof (find_found path segs 0 n Params_new catch (proj1 Hh) params_new_ok eq_refl) as Hf.
  pose proof (best_spec path segs catch entries) as Hb. destruct (find n path segs Params_new catch) as [ps [l|]].
  - destruct Hf as (Hok & p & caps & Hg & Ha & Hc & Hcap & Hbest). cbn [fst snd] in *.
    assert (is_Some (node_get n p)) as Hgp by by eexists. pose proof Hgp as Hpe. apply (holds_pattern _ _ _ Hh) in Hpe.
    assert (matching path segs catch p) as Hmp by (split; [done|by eexists]).
    destruct (best path segs catch entries) as [q|]; [|by destruct (Hb p)].
    destruct Hb as (Hq & [Hqa Hqc] & Hqb). pose proof Hq as Hgq. apply (holds_pattern _ _ _ Hh) in Hgq.
    assert (p = q) as <-.
    { eapply prefer_antisym; [exact Hgp|exact Hgq|by destruct Hmp|exact Hqc|by apply Hbest|by apply Hqb]. }
    exists p. split; [done|]. split; [done|]. intros m. by eapply view_dispatch.
  - destruct Hf as (Hok & _ & Hno). cbn [fst snd] in *. destruct (best path segs catch entries) as [q|]; [|done].
    destruct Hb as (Hq & [Hqa Hqc] & _). apply (holds_pattern _ _ _ Hh) in Hq. rewrite (Hno q Hq Hqa) in Hqc. by destruct Hqc.
Qed.

(** ** Mounts *)

Section mounts.
Context {A : Type}.
Implicit Types (l rs : list (bytes * A)) (x y : bytes * A).

Fixpoint first_cover (path : bytes) l : option (bytes * A) :=
  match l with
  | [] => None
  | x :: l => match child_path x.1 path with Some _ => Some x | None => first_cover path l end
  end.
Definition cover_step (path : bytes) (acc : option (nat * (bytes * A))) x : option (nat * (bytes * A)) :=
  match child_path x.1 path with Some _ => longer acc (length x.1) x | None => acc end.
Definition longest_cover (path : bytes) l : option (nat * (bytes * A)) := fold_left (cover_step path) l None.

(** The mounts of a router, from those registered. *)
Definition place l x : list (bytes * A) := insert_at (partition_point (fun existing => before existing.1 x.1) l) x l.
Definition arrange rs : list (bytes * A) := fold_left place rs [].

Definition ordered l : Prop := StronglySorted (fun x y => before x.1 y.1 = true) l.

Lemma before_trans p q r : before p q = true -> before q r = true -> before p r = true.
Proof.
  unfold before. destruct (Nat.compare_spec (length p) (length q)) as [H1|H1|H1], (Nat.compare_spec (length q) (length r)) as [H2|H2|H2];
    try done; destruct (Nat.compare_spec (length p) (length r)) as [H3|H3|H3]; try done; try lia.
  destruct (bytes_cmp p q) eqn:E1; [apply bytes_cmp_eq in E1 as <-| |done]; [done|].
  destruct (bytes_cmp q r) eqn:E2; [apply bytes_cmp_eq in E2 as <-| |done]; [by rewrite E1|].
  by rewrite (bytes_cmp_trans p q r).
Qed.

Lemma before_total p q : before p q = false -> before q p = true.
Proof.
  unfold before. rewrite (Nat.compare_antisym (length p) (length q)), (bytes_cmp_antisym p q).
  destruct (length p ?= length q)%nat; cbn; try done. by destruct (bytes_cmp p q).
Qed.

Lemma partition_ordered l p : ordered l ->
  let i := partition_point (fun existing => before existing.1 p) l in
  Forall (fun x => before x.1 p = true) (take i l) /\ Forall (fun x => before x.1 p = false) (drop i l).
Proof.
  induction 1 as [|x l Hs [IH1 IH2] Hx]; cbn; [by split|]. destruct (before x.1 p) eqn:Hb; cbn.
  - split; [by constructor|done].
  - split; [constructor|]. constructor; [done|]. eapply Forall_impl; [exact Hx|]. intros y Hy. cbn beta in Hy.
    destruct (before y.1 p) eqn:Hyp; [|done]. by rewrite (before_trans x.1 y.1 p) in Hb.
Qed.

Lemma ordered_app l1 l2 x : ordered (l1 ++ l2) -> Forall (fun y => before y.1 x.1 = true) l1 ->
  Forall (fun y => before x.1 y.1 = true) l2 -> ordered (l1 ++ x :: l2).
Proof.
  induction l1 as [|y l1 IH]; cbn [app]; intros Hs H1 H2; [by constructor|].
  apply StronglySorted_inv in Hs as [Hs Hy]. apply Forall_cons in H1 as [Hyx H1]. constructor; [by apply IH|].
  apply Forall_app in Hy as [Hy1 Hy2]. apply Forall_app_2; [done|]. by constructor.
Qed.

Lemma place_ordered l x : ordered l -> ordered (place l x).
Proof.
  intros Hs. destruct (partition_ordered l x.1 Hs) as [H1 H2]. unfold place, insert_at. apply ordered_app; [by rewrite take_drop|done|].
  eapply Forall_impl; [exact H2|]. intros y Hy. by apply before_total.
Qed.

Lemma first_cover_app path l m : first_cover path (l ++ m) =
  match first_cover path l with Some x => Some x | None => first_cover path m end.
Proof. induction l as [|x l IH]; cbn [app first_cover]; [done|]. by destruct (child_path x.1 path). Qed.

Lemma first_cover_Some path l x : first_cover path l = Some x -> x ∈ l /\ is_Some (child_path x.1 path).
Proof.
  induction l as [|y l IH]; cbn [first_cover]; [done|]. destruct (child_path y.1 path) as [c|] eqn:Hc.
  - intros [= <-]. split; [by left|]. rewrite Hc. by eexists.
  - intros H. destruct (IH H). split; [by right|done].
Qed.

Lemma strip_prefix_Some prefix : forall text rest, strip_prefix prefix text = Some rest -> text = prefix ++ rest.
Proof.
  induction prefix as [|p prefix IH]; intros [|b text] rest; cbn [strip_prefix app]; try (by intros [= ->]).
  destruct (Z.eqb_spec p b) as [->|]; [|done]. intros H. by rewrite (IH _ _ H).
Qed.

Lemma cover_unique p q path : is_Some (child_path p path) -> is_Some (child_path q path) -> length p = length q -> p = q.
Proof.
  unfold child_path. destruct (strip_prefix p path) as [r|] eqn:Hp; [|by intros []]. intros _.
  destruct (strip_prefix q path) as [r'|] eqn:Hq; [|by intros []]. intros _ Hl.
  apply strip_prefix_Some in Hp, Hq. rewrite Hp in Hq. by apply app_inj_1 in Hq as [-> _].
Qed.

Lemma before_length p q : before p q = true -> (length q <= length p)%nat.
Proof. unfold before. destruct (Nat.compare_spec (length p) (length q)); done || lia. Qed.

(** The first in order is the longest, and the earliest of its length. *)
Lemma first_longest path rs : ordered (arrange rs) /\
  longest_cover path rs = (fun x => (length x.1, x)) <$> first_cover path (arrange rs).
Proof.
  induction rs as [|x rs [IHs IH]] using rev_ind; [split; [constructor|done]|].
  unfold arrange, longest_cover in *. rewrite !fold_left_app. cbn [fold_left]. rewrite IH.
  set (l := fold_left place rs []) in *. split; [by apply place_ordered|].
  destruct (partition_ordered l x.1 IHs) as [H1 H2]. unfold place, insert_at. set (i := partition_point _ l) in *.
  rewrite <- (take_drop i l) at 1. rewrite !first_cover_app. cbn [first_cover]. unfold cover_step.
  destruct (child_path x.1 path) as [c|] eqn:Hc; [|done].
  destruct (first_cover path (take i l)) as [y|] eqn:Hy.
  - apply first_cover_Some in Hy as [Hy _]. rewrite Forall_forall in H1. specialize (H1 y Hy).
    apply before_length in H1. cbn [fmap option_fmap option_map longer]. by rewrite (proj2 (Nat.ltb_ge _ _)).
  - destruct (first_cover path (drop i l)) as [y|] eqn:Hy2; cbn [fmap option_fmap option_map longer]; [|done].
    apply first_cover_Some in Hy2 as [Hy2 Hcy]. rewrite Forall_forall in H2. specialize (H2 y Hy2).
    destruct (Nat.ltb_spec (length y.1) (length x.1)) as [|Hge]; [done|]. exfalso.
    pose proof (before_length _ _ (before_total _ _ H2)) as Hle.
    assert (y.1 = x.1) as Heq by (apply (cover_unique _ _ path); [done|by eexists|lia]).
    rewrite Heq in H2. unfold before in H2. by rewrite Nat.compare_refl, bytes_cmp_refl in H2.
Qed.
End mounts.

(** ** The router and its table *)

Definition answers (r : Router T) (t : Table T) : Prop :=
  forall m path, resolution_ok (resolve_method r m path) /\ view (resolve_method r m path) = reference t m path.

(** What every registration keeps. *)
Definition agrees (r : Router T) (t : Table T) : Prop :=
  let 'MkTable entries children slash := t in
  holds (root r) entries /\ trailing_slash r = slash /\
  exists rs, mounts r = arrange rs /\ Forall2 (fun x y => x.1 = y.1 /\ answers x.2 y.2) rs children.

Lemma try_mounts_cover (f : Router T -> bytes -> Resolution T) otherwise path ms :
  try_mounts f otherwise path ms =
  match first_cover path ms with
  | Some (prefix, router) => shift_resolution (f router (default [] (child_path prefix path))) (length prefix)
  | None => otherwise
  end.
Proof.
  induction ms as [|[prefix router] ms IH]; [done|]. cbn [try_mounts first_cover fst].
  destruct (child_path prefix path) eqn:E; [by rewrite E|]. apply IH.
Qed.

Lemma longer_fmap {A B} (f : A -> B) acc n a :
  longer (prod_map id f <$> acc) n (f a) = prod_map id f <$> longer acc n a.
Proof. destruct acc as [[n' a']|]; [|done]. unfold longer. cbn [fmap option_fmap option_map prod_map fst snd]. unfold id. by destruct (n' <? n)%nat.
Qed.

Definition child_answer (m : Method) (path : bytes) (x : bytes * Router T) : Answer T :=
  shift_answer (length x.1) (view (resolve_method x.2 m (default [] (child_path x.1 path)))).

Lemma pick_cover (rs : list (bytes * Router T)) (children : list (bytes * Table T)) (m : Method) path :
  Forall2 (fun x y => x.1 = y.1 /\ answers x.2 y.2) rs children -> forall acc : option (nat * (bytes * Router T)),
  pick (fun t child => reference t m child) path children (prod_map id (child_answer m path) <$> acc) =
  prod_map id (child_answer m path) <$> fold_left (cover_step path) rs acc.
Proof.
  induction 1 as [|[p r] [q t] rs children [Hp Ha] _ IH]; intros acc; [done|].
  cbn [fst snd] in *. subst q. cbn [pick fold_left]. unfold cover_step at 2. cbn [fst].
  destruct (child_path p path) as [child|] eqn:Hc; [|apply IH].
  rewrite <- IH, <- longer_fmap. unfold child_answer at 3. cbn [fst snd]. rewrite Hc. cbn [default].
  change (id child) with child. by rewrite (proj2 (Ha m child)).
Qed.

Lemma view_shift (r : Resolution T) by_ : resolution_ok r ->
  resolution_ok (shift_resolution r by_) /\ view (shift_resolution r by_) = shift_answer by_ (view r).
Proof.
  destruct r as [d ps head| | | |]; cbn; try done. intros Hok. destruct (shift_params_ok ps by_ Hok) as [H1 H2].
  split; [done|]. by rewrite !params_iter_captured, H2.
Qed.

Lemma agrees_answers r t : agrees r t -> answers r t.
Proof.
  destruct r as [n ms ts], t as [entries children slash]. intros (Hh & Hs & rs & Hms & Hrs) m path.
  cbn [root mounts trailing_slash] in *. subst slash ms.
  cbn [resolve_method reference]. set (p := trimmed_path ts path).
  destruct p as [|b rest]; [done|]. unfold starts_with_slash.
  destruct (decide (b = 47)) as [->|Hb].
  2: { assert (forall (A : Type) (x y : A), match b with 47 => x | _ => y end = y) as Hm.
       { intros A x y. destruct b as [|[[[[[[]|[]|]|[]|]|[]|]|[]|]|[[[[]|[]|]|[]|]|[]|]|]|]; done. }
       rewrite !Hm. done. }
  cbn [negb]. rewrite path_segments_of. destruct (segments_of (47 :: rest)) as [segs|]; [|done].
  pose proof (find_best n entries (47 :: rest) segs false Hh) as Hf.
  destruct (find n (47 :: rest) segs Params_new false) as [ps [l|]].
  { destruct Hf as (q & -> & Hok & Hv). split; [by apply dispatch_ok|apply Hv]. }
  rewrite Hf. rewrite try_mounts_cover. pose proof (pick_cover rs children m (47 :: rest) Hrs None) as Hpick. cbn [fmap option_fmap option_map] in Hpick.
  rewrite Hpick. change (fold_left (cover_step (47 :: rest)) rs None) with (longest_cover (47 :: rest) rs).
  destruct (first_longest (47 :: rest) rs) as [_ ->]. destruct (first_cover (47 :: rest) (arrange rs)) as [[prefix router]|] eqn:Hc.
  - cbn [fmap option_fmap option_map prod_map fst snd]. apply view_shift.
    apply first_cover_Some in Hc as [Hin _].
    assert (exists t, answers router t) as [t Ht]; [|by apply Ht].
    assert ((prefix, router) ∈ rs) as Hin2.
    { revert Hin. clear. unfold arrange. induction rs as [|x rs IH] using rev_ind; [done|]. rewrite fold_left_app. cbn [fold_left].
      unfold place at 1, insert_at. set (l := fold_left place rs []) in *. set (i := partition_point _ l).
      rewrite elem_of_app, elem_of_cons. intros H. apply elem_of_app. destruct H as [H|[->|H]].
      - left. apply IH. by eapply elem_of_take_inv || (rewrite <- (take_drop i l); apply elem_of_app; by left).
      - right. by apply list_elem_of_singleton.
      - left. apply IH. rewrite <- (take_drop i l). apply elem_of_app. by right. }
    apply list_elem_of_lookup_1 in Hin2 as [i Hi]. destruct (Forall2_lookup_l _ _ _ _ _ Hrs Hi) as ([q t] & _ & _ & Ha). by exists t.
  - cbn [fmap option_fmap option_map]. pose proof (find_best n entries (47 :: rest) segs true Hh) as Ht.
    destruct (find n (47 :: rest) segs Params_new true) as [ps' [l|]].
    + destruct Ht as (q & -> & Hok & Hv). split; [by apply dispatch_ok|apply Hv].
    + by rewrite Ht.
Qed.

Lemma route_agrees r entries children slash m pattern d r' segments :
  agrees r (MkTable entries children slash) -> route r m pattern d = (r', Ok tt) -> route_segments r pattern = Ok segments ->
  agrees r' (MkTable (entries ++ [MkEntry segments m d]) children slash).
Proof.
  intros ([Hw Hr] & Hs & rs & Hms & Hrs) H Hseg. unfold route in H. rewrite Hseg in H.
  pose proof (leaf_for_registers m d pattern segments 0 (root r) Hw) as Hl.
  destruct (leaf_for (root r) segments pattern 0 (register m d)) as [n v]. injection H as <- ->.
  destruct Hl as (Hw' & H1 & H2). cbn [fst snd] in *. split; [|by split; [|exists rs]]. split; [done|]. intros p m'.
  cbn [root]. rewrite H2, entry_lookup_app, <- Hr. cbn [e_pattern e_method e_descriptor].
  destruct (decide (p = segments /\ m' = m)) as [[-> ->]|]; [by rewrite H1|]. by destruct (registered (root r) p m').
Qed.

Lemma route_refused_agrees r t m pattern d r' err : agrees r t -> route r m pattern d = (r', Err err) -> agrees r' t.
Proof.
  intros Ha H. unfold route in H. destruct (route_segments r pattern) as [segments|e']; [|by injection H as <- _].
  destruct t as [entries children slash]. destruct Ha as ([Hw Hr] & Hs & rs & Hms & Hrs).
  pose proof (leaf_for_registers m d pattern segments 0 (root r) Hw) as Hl.
  destruct (leaf_for (root r) segments pattern 0 (register m d)) as [n v]. injection H as <- ->.
  destruct Hl as (Hw' & H2). cbn [fst snd] in *. split; [|by split; [|exists rs]]. split; [done|]. intros p m'.
  cbn [root]. unfold registered. rewrite H2. apply Hr.
Qed.

Lemma built_agrees r t : Built r t -> agrees r t.
Proof.
  induction 1 as [|r entries children slash s _ IH|r entries children slash m pattern d r' segments _ IH Hroute Hseg
    |r t m pattern d r' e _ IH Hroute|r entries children slash child tc prefix r' trimmed _ IH _ IHc Hm Hp|r t child prefix r' e _ IH Hm].
  - split; [split; [apply node_wf_new|]|split; [done|by exists []]]. intros p m. unfold registered. cbn [root Router_new].
    by rewrite node_get_new.
  - destruct IH as (H1 & H2 & H3). by split; [|split].
  - by eapply route_agrees.
  - by eapply route_refused_agrees.
  - destruct IH as (H1 & H2 & rs & H3 & H4). unfold mount in Hm. rewrite Hp in Hm. injection Hm as <-.
    split; [done|]. split; [done|]. exists (rs ++ [(trimmed, child)]). split.
    + cbn [mounts]. unfold arrange. rewrite fold_left_app, H3. done.
    + apply Forall2_app; [done|]. constructor; [|done]. split; [done|]. by apply agrees_answers.
  - unfold mount in Hm. destruct (mount_prefix prefix); [done|]. by injection Hm as <- _.
Qed.

(** C22. A router answers as the table of what was registered: the answer is that of the
    first matching pattern, static segments before parameters before catch-alls, with
    what it captures of the path; a mount with the longest prefix that covers the path
    answers before any catch-all, as its own table does; without a route for the method
    the answer names exactly the methods the path has, with HEAD for GET and OPTIONS.
    What was refused, in whatever order, shows in no answer. *)
Theorem router_answers (r : Router T) (t : Table T) method path : Built r t -> view (resolve r method path) = reference_resolve t method path.
Proof.
  intros H. unfold resolve, reference_resolve. destruct (Method_parse method) as [m|]; [|done].
  by apply (agrees_answers r t (built_agrees r t H)).
Qed.
End built.

(** A router by the calls that build it. *)
Definition entry (m : Method) (d : Z) (segments : list Segment) : Entry Z := MkEntry segments m d.
Definition example_child : Router Z := (route Router_new Get (bs "/users/:id") 22).1.
Definition example_1 : Router Z := (route Router_new Get (bs "/users/:id") 5).1.
Definition example_2 : Router Z := (route example_1 Get (bs "/users/:name/x") 9).1.
Definition example_3 : Router Z := (route example_2 Delete (bs "/users/%6de") 4).1.
Definition example_4 : Router Z := (route example_3 Get (bs "/*") 10).1.
Definition example_router : Router Z := (mount example_4 (bs "/admin/") example_child).1.
Definition example_table : Table Z :=
  MkTable [entry Get 5 [Static (bs "users"); Param (bs "id")]; entry Delete 4 [Static (bs "users"); Static (bs "me")];
           entry Get 10 [CatchAll (bs "*")]]
    [(bs "/admin", MkTable [entry Get 22 [Static (bs "users"); Param (bs "id")]] [] Ignore)] Ignore.

Lemma router_answers_witness :
  view (resolve example_router (bs "GET") (bs "/admin/users/7")) = AMatched 22 [(bs "id", (13, 14)%nat)] false /\
  view (resolve example_router (bs "GET") (bs "/users/me")) = ANotAllowed [Delete; Options] /\
  view (resolve example_router (bs "HEAD") (bs "/users/7/")) = reference_resolve example_table (bs "HEAD") (bs "/users/7/").
Proof.
  split; [vm_compute; reflexivity|]. split; [vm_compute; reflexivity|]. apply router_answers.
  eapply (Built_mount example_4 _ [] Ignore example_child (MkTable [entry Get 22 [Static (bs "users"); Param (bs "id")]] [] Ignore) (bs "/admin/"));
    [|eapply (Built_route Router_new [] [] Ignore Get (bs "/users/:id") 22); [apply Built_new|vm_compute; reflexivity..]|vm_compute; reflexivity..].
  eapply (Built_route example_3 [_; _] [] Ignore Get (bs "/*") 10); [|vm_compute; reflexivity..].
  eapply (Built_route example_2 [_] [] Ignore Delete (bs "/users/%6de") 4); [|vm_compute; reflexivity..].
  eapply (Built_route_refused example_1 _ Get (bs "/users/:name/x") 9); [|vm_compute; reflexivity].
  eapply (Built_route Router_new [] [] Ignore Get (bs "/users/:id") 5); [apply Built_new|vm_compute; reflexivity..].
Defined.
