(* ===== verification/JsonFloat.v ===== *)
(** * Binary64 numbers as decimal text

    The standard library's [f64]: [str::parse], which rounds a decimal literal to the
    nearest number, ties to even, and [Display], which writes the shortest digits that
    read back.  The JSON parser and writer (zero-json) call both.  A finite number is its
    sign, its significand and its exponent; what is written is read back. *)
From S2P Require Import Prelude Date.

(** [Finite neg m e] is [m * 2^e]; [MIN_EXP] and [MAX_EXP] are the least and the
    greatest exponent of the format. *)
Inductive f64 : Type := Finite (neg : bool) (m e : Z) | Infinite (neg : bool) | NaN.
#[global] Instance f64_eq_dec : EqDecision f64.
Proof. solve_decision. Defined.

Definition MIN_EXP : Z := -1074.
Definition MAX_EXP : Z := 971.
Definition is_finite (x : f64) : bool := match x with Finite _ _ _ => true | _ => false end.
Definition canonical (m e : Z) : Prop :=
  (2 ^ 52 <= m < 2 ^ 53 /\ MIN_EXP <= e <= MAX_EXP) \/ (0 <= m < 2 ^ 52 /\ e = MIN_EXP).

(** ** Rounding a ratio *)

(** [num / den] divided by [2^e], as a ratio. *)
Definition up (num e : Z) : Z := num * 2 ^ Z.max 0 (- e).
Definition down (den e : Z) : Z := den * 2 ^ Z.max 0 e.

(** The greatest power of two that is not above the ratio. *)
Definition log2_ratio (num den : Z) : Z :=
  let k := Z.log2 num - Z.log2 den in
  if down den k <=? up num k then k else k - 1.

Definition round_half_even (a b : Z) : Z :=
  let q := a / b in
  let r := a mod b in
  if 2 * r <? b then q else if b <? 2 * r then q + 1 else if Z.even q then q else q + 1.

Definition round_ratio (neg : bool) (num den : Z) : f64 :=
  if num =? 0 then Finite neg 0 MIN_EXP
  else
    let e := Z.max MIN_EXP (log2_ratio num den - 52) in
    let m := round_half_even (up num e) (down den e) in
    let '(m, e) := if m =? 2 ^ 53 then (2 ^ 52, e + 1) else (m, e) in
    if MAX_EXP <? e then Infinite neg else Finite neg m e.

(** The decimal [digits * 10^exponent]. *)
Definition of_decimal (neg : bool) (digits exponent : Z) : f64 :=
  round_ratio neg (digits * 10 ^ Z.max 0 exponent) (10 ^ Z.max 0 (- exponent)).

(** ** [str::parse]: the decimal forms *)

Definition is_digit (b : Z) : bool := (48 <=? b) && (b <=? 57).
Fixpoint digit_run (l : bytes) : bytes * bytes :=
  match l with
  | [] => ([], [])
  | b :: rest => if is_digit b then let (ds, after) := digit_run rest in (b :: ds, after) else ([], l)
  end.
Definition sign (l : bytes) : bool * bytes :=
  match l with
  | [] => (false, [])
  | b :: rest => if b =? 45 then (true, rest) else if b =? 43 then (false, rest) else (false, l)
  end.
Definition fraction (l : bytes) : bytes * bytes :=
  match l with 46 :: l => digit_run l | _ => ([], l) end.
Definition exponent (l : bytes) : option (Z * bytes) :=
  match l with
  | b :: l' =>
      if (b =? 101) || (b =? 69) then
        let (neg, l') := sign l' in
        match digit_run l' with
        | ([], _) => None
        | (ds, rest) => Some (if neg then - value_from 0 ds else value_from 0 ds, rest)
        end
      else Some (0, l)
  | [] => Some (0, [])
  end.
Definition f64_parse (text : bytes) : option f64 :=
  let (neg, l) := sign text in
  let (whole, l) := digit_run l in
  let (frac, l) := fraction l in
  match whole ++ frac with
  | [] => None
  | ds =>
      match exponent l with
      | Some (e, []) => Some (of_decimal neg (value_from 0 ds) (e - len frac))
      | _ => None
      end
  end.

(** ** [Display]: the shortest digits, without an exponent *)

Definition exact_decimal (m e : Z) : Z * Z := if 0 <=? e then (m * 2 ^ e, 0) else (m * 5 ^ (- e), e).
Definition digit_count (n : Z) : nat := length (digits (Z.to_nat (Z.log2 n + 1)) n).

(** Of the two decimals of [n] digits around the number, one that reads back as it;
    the nearer when both do. *)
Definition of_length (x : f64) (neg : bool) (d e : Z) (n : nat) : option (Z * Z) :=
  let cut := Z.of_nat (digit_count d - n) in
  let unit := 10 ^ cut in
  let low := d / unit in
  let reads d' := bool_decide (of_decimal neg d' (e + cut) = x) in
  match reads low, reads (low + 1) with
  | true, true => Some (if d - low * unit <=? (low + 1) * unit - d then low else low + 1, e + cut)
  | true, false => Some (low, e + cut)
  | false, true => Some (low + 1, e + cut)
  | false, false => None
  end.
(** Seventeen digits are always enough; the exact decimal is what is left otherwise. *)
Fixpoint shortest_from (x : f64) (neg : bool) (d e : Z) (lengths : list nat) : Z * Z :=
  match lengths with
  | [] => (d, e)
  | n :: lengths =>
      match of_length x neg d e n with Some found => found | None => shortest_from x neg d e lengths end
  end.
Definition shortest (neg : bool) (m e : Z) : Z * Z :=
  let (d, k) := exact_decimal m e in shortest_from (Finite neg m e) neg d k (seq 1 17).

(** Trailing zeros of the digits go to the exponent. *)
Fixpoint strip_zeros (fuel : nat) (d e : Z) : Z * Z :=
  match fuel with
  | O => (d, e)
  | S fuel => if (d mod 10 =? 0) && negb (d =? 0) then strip_zeros fuel (d / 10) (e + 1) else (d, e)
  end.
Definition digits_text (d : Z) : bytes := digits (S (Z.to_nat (Z.log2 d))) d.
Definition zeros (n : Z) : bytes := replicate (Z.to_nat n) 48.
Definition layout (d e : Z) : bytes :=
  if d =? 0 then [48]
  else
    let (d, e) := strip_zeros (digit_count d) d e in
    let text := digits_text d in
    if 0 <=? e then text ++ zeros e
    else
      let point := len text + e in
      if 0 <? point then take (Z.to_nat point) text ++ [46] ++ drop (Z.to_nat point) text
      else bs "0." ++ zeros (- point) ++ text.
Definition f64_display (x : f64) : bytes :=
  match x with
  | Finite neg m e => let (d, k) := shortest neg m e in (if neg then [45] else []) ++ layout d k
  | Infinite neg => if neg then bs "-inf" else bs "inf"
  | NaN => bs "NaN"
  end.

Example parse_floats :
  f64_parse <$> [bs "0.1"; bs "1e23"; bs "-0.0"; bs "2.2250738585072014e-308"; bs "5e-324"; bs "1.7976931348623159e308"; bs "1e"]
  = [Some (Finite false 7205759403792794 (-56)); Some (Finite false 5960464477539062 24); Some (Finite true 0 (-1074));
     Some (Finite false 4503599627370496 (-1074)); Some (Finite false 1 (-1074)); Some (Infinite false); None].
Proof. vm_compute. reflexivity. Qed.
Definition shown (s : string) : string := from_option (fun x => string_of (f64_display x)) ""%string (f64_parse (bs s)).
Example display_floats :
  shown <$> ["0.1"; "1e23"; "-0.0"; "100"; "5e-324"; "0.30000000000000004"; "123456789.125"; "9007199254740993"]%string
  = ["0.1"; "100000000000000000000000"; "-0"; "100"; "0." +:+ String.concat "" (repeat "0" 323) +:+ "5"; "0.30000000000000004"; "123456789.125"; "9007199254740992"]%string.
Proof. vm_compute. reflexivity. Qed.

(** ** Ratios *)

(** [2^k] is at most the ratio. *)
Definition reaches (num den k : Z) : Prop := down den k <= up num k.

Lemma max_split j k : 0 <= k - j ->
  2 ^ Z.max 0 k * 2 ^ Z.max 0 (- j) = 2 ^ Z.max 0 j * 2 ^ Z.max 0 (- k) * 2 ^ (k - j).
Proof. intros H. rewrite <- !Z.pow_add_r by lia. f_equal. lia. Qed.

Lemma pow2_pos k : 0 <= k -> 0 < 2 ^ k.
Proof. intros H. apply Z.pow_pos_nonneg; lia. Qed.

Lemma reaches_mono num den j k : 0 < den -> j <= k -> reaches num den k -> reaches num den j.
Proof.
  unfold reaches, up, down. intros Hd Hjk H.
  pose proof (max_split j k ltac:(lia)) as Hs.
  pose proof (pow2_pos (Z.max 0 (- j)) ltac:(lia)) as P1. pose proof (pow2_pos (Z.max 0 (- k)) ltac:(lia)) as P2.
  pose proof (pow2_pos (k - j) ltac:(lia)) as P3. pose proof (pow2_pos (Z.max 0 j) ltac:(lia)) as P4.
  apply (Z.mul_le_mono_pos_r _ _ (2 ^ Z.max 0 (- k))); [done|].
  apply (Z.mul_le_mono_pos_r _ _ (2 ^ Z.max 0 (- j))) in H; [|done].
  replace (den * 2 ^ Z.max 0 k * 2 ^ Z.max 0 (- j)) with (den * (2 ^ Z.max 0 k * 2 ^ Z.max 0 (- j))) in H by lia.
  rewrite Hs in H. nia.
Qed.

Lemma reaches_cross num den num' den' k : 0 < den -> 0 < den' -> num * den' = num' * den ->
  reaches num den k -> reaches num' den' k.
Proof.
  unfold reaches, up, down. intros Hd Hd' Hc H.
  apply (Z.mul_le_mono_pos_r _ _ den); [done|]. apply (Z.mul_le_mono_pos_r _ _ den') in H; [|done]. nia.
Qed.

Lemma reaches_log num den : 0 < num -> 0 < den ->
  let k := Z.log2 num - Z.log2 den in reaches num den (k - 1) /\ ~ reaches num den (k + 1).
Proof.
  intros Hn Hd. cbv zeta. unfold reaches, up, down.
  pose proof (Z.log2_spec num Hn) as [Hn1 Hn2]. pose proof (Z.log2_spec den Hd) as [Hd1 Hd2].
  pose proof (Z.log2_nonneg num). pose proof (Z.log2_nonneg den). set (a := Z.log2 num) in *. set (b := Z.log2 den) in *.
  unfold Z.succ in *. rewrite Z.pow_add_r in Hn2, Hd2 by lia.
  assert (forall j, 2 ^ a * 2 ^ Z.max 0 (b - a - j) * 2 ^ Z.max 0 j = 2 ^ b * 2 ^ Z.max 0 (a - b + j) * 2 ^ Z.max 0 (- j)) as Hs.
  { intros j. rewrite <- !Z.pow_add_r by lia. f_equal. lia. }
  split.
  - pose proof (Hs (-1)) as E. replace (- (a - b - 1)) with (b - a - -1) by lia. replace (a - b - 1) with (a - b + -1) by lia.
    change (Z.max 0 (-1)) with 0 in E. change (Z.max 0 (- -1)) with 1 in E. rewrite Z.mul_1_r in E.
    pose proof (pow2_pos (Z.max 0 (b - a - -1)) ltac:(lia)). pose proof (pow2_pos (Z.max 0 (a - b + -1)) ltac:(lia)). nia.
  - pose proof (Hs 1) as E. replace (- (a - b + 1)) with (b - a - 1) by lia.
    change (Z.max 0 1) with 1 in E. change (Z.max 0 (- (1))) with 0 in E. rewrite Z.mul_1_r in E.
    pose proof (pow2_pos (Z.max 0 (b - a - 1)) ltac:(lia)). pose proof (pow2_pos (Z.max 0 (a - b + 1)) ltac:(lia)). nia.
Qed.

(** The logarithm by what it promises. *)
Lemma log2_ratio_spec num den : 0 < num -> 0 < den ->
  reaches num den (log2_ratio num den) /\ ~ reaches num den (log2_ratio num den + 1).
Proof.
  intros Hn Hd. destruct (reaches_log num den Hn Hd) as [H1 H2]. unfold log2_ratio. cbv zeta.
  destruct (Z.leb_spec (down den (Z.log2 num - Z.log2 den)) (up num (Z.log2 num - Z.log2 den))) as [H|H]; [done|].
  split; [done|]. replace (Z.log2 num - Z.log2 den - 1 + 1) with (Z.log2 num - Z.log2 den) by lia. unfold reaches. lia.
Qed.

Lemma log2_ratio_unique num den k : 0 < num -> 0 < den -> reaches num den k -> ~ reaches num den (k + 1) -> log2_ratio num den = k.
Proof.
  intros Hn Hd H1 H2. destruct (log2_ratio_spec num den Hn Hd) as [H3 H4]. set (j := log2_ratio num den) in *.
  destruct (Z.lt_trichotomy j k) as [H|[H|H]]; [|done|].
  - destruct H4. apply (reaches_mono _ _ (j + 1) k); [done|lia|done].
  - destruct H2. apply (reaches_mono _ _ (k + 1) j); [done|lia|done].
Qed.

Lemma log2_ratio_cross num den num' den' : 0 < num -> 0 < den -> 0 < num' -> 0 < den' -> num * den' = num' * den ->
  log2_ratio num den = log2_ratio num' den'.
Proof.
  intros Hn Hd Hn' Hd' Hc. destruct (log2_ratio_spec num' den' Hn' Hd') as [H1 H2]. apply log2_ratio_unique; [done..| |].
  - by apply (reaches_cross num' den').
  - intros H. apply H2. by apply (reaches_cross num den).
Qed.

Lemma round_half_even_scale a b c : 0 <= a -> 0 < b -> 0 < c -> round_half_even (a * c) (b * c) = round_half_even a b.
Proof.
  intros Ha Hb Hc. unfold round_half_even. rewrite Z.div_mul_cancel_r, Z.mul_mod_distr_r by lia.
  assert ((2 * (a mod b * c) <? b * c) = (2 * (a mod b) <? b)) as ->.
  { destruct (Z.ltb_spec (2 * (a mod b)) b), (Z.ltb_spec (2 * (a mod b * c)) (b * c)); done || nia. }
  assert ((b * c <? 2 * (a mod b * c)) = (b <? 2 * (a mod b))) as ->; [|done].
  destruct (Z.ltb_spec b (2 * (a mod b))), (Z.ltb_spec (b * c) (2 * (a mod b * c))); done || nia.
Qed.

Lemma round_half_even_cross a b a' b' : 0 <= a -> 0 < b -> 0 <= a' -> 0 < b' -> a * b' = a' * b ->
  round_half_even a b = round_half_even a' b'.
Proof.
  intros Ha Hb Ha' Hb' Hc. rewrite <- (round_half_even_scale a b b'), <- (round_half_even_scale a' b' b) by done.
  by rewrite Hc, (Z.mul_comm b b').
Qed.

(** Rounding looks at the ratio only. *)
Lemma round_ratio_cross neg num den num' den' : 0 <= num -> 0 < den -> 0 <= num' -> 0 < den' -> num * den' = num' * den ->
  round_ratio neg num den = round_ratio neg num' den'.
Proof.
  intros Hn Hd Hn' Hd' Hc. unfold round_ratio. destruct (Z.eqb_spec num 0) as [->|H0].
  { by replace num' with 0 by nia. }
  destruct (Z.eqb_spec num' 0) as [->|H0']; [nia|].
  rewrite (log2_ratio_cross num den num' den') by (done || lia). set (e := Z.max MIN_EXP _).
  rewrite (round_half_even_cross (up num e) (down den e) (up num' e) (down den' e)); [done|..]; unfold up, down;
    pose proof (pow2_pos (Z.max 0 e) ltac:(lia)); pose proof (pow2_pos (Z.max 0 (- e)) ltac:(lia)); nia.
Qed.

Lemma of_decimal_cross neg d e d' e' : 0 <= d -> 0 <= d' ->
  d * 10 ^ Z.max 0 e * 10 ^ Z.max 0 (- e') = d' * 10 ^ Z.max 0 e' * 10 ^ Z.max 0 (- e) -> of_decimal neg d e = of_decimal neg d' e'.
Proof.
  intros Hd Hd' H. unfold of_decimal.
  assert (forall k, 0 < 10 ^ Z.max 0 k) as Hp by (intros k; apply Z.pow_pos_nonneg; lia).
  pose proof (Hp e). pose proof (Hp e'). pose proof (Hp (- e)). pose proof (Hp (- e')). apply round_ratio_cross; done || nia.
Qed.

(** A zero more among the digits and one less in the exponent. *)
Lemma of_decimal_shift neg d e k : 0 <= d -> 0 <= k -> of_decimal neg (d * 10 ^ k) (e - k) = of_decimal neg d e.
Proof.
  intros Hd Hk. apply of_decimal_cross; [apply Z.mul_nonneg_nonneg; [lia|apply Z.pow_nonneg; lia]|lia|].
  rewrite <- !Z.mul_assoc, <- !Z.pow_add_r by lia. do 2 f_equal. lia.
Qed.

(** ** A number of the format is its own rounding *)

Lemma round_exact neg m e : canonical m e -> round_ratio neg (m * 2 ^ Z.max 0 e) (2 ^ Z.max 0 (- e)) = Finite neg m e.
Proof.
  intros Hm. unfold round_ratio. pose proof (pow2_pos (Z.max 0 e) ltac:(lia)) as P1. pose proof (pow2_pos (Z.max 0 (- e)) ltac:(lia)) as P2.
  destruct (Z.eqb_spec (m * 2 ^ Z.max 0 e) 0) as [H0|H0].
  { assert (m = 0) as -> by nia. destruct Hm as [[? _]|[_ ->]]; [lia|done]. }
  assert (0 < m) as Hpos by (unfold canonical in Hm; nia).
  assert (log2_ratio (m * 2 ^ Z.max 0 e) (2 ^ Z.max 0 (- e)) = Z.log2 m + e) as ->.
  { pose proof (Z.log2_spec m Hpos) as [H1 H2]. pose proof (Z.log2_nonneg m) as H3. set (b := Z.log2 m) in *.
    apply log2_ratio_unique; [nia|done|..]; unfold reaches, up, down.
    - assert (2 ^ Z.max 0 (- e) * 2 ^ Z.max 0 (b + e) = 2 ^ b * 2 ^ Z.max 0 e * 2 ^ Z.max 0 (- (b + e))) as ->.
      { rewrite <- !Z.pow_add_r by lia. f_equal. lia. }
      pose proof (pow2_pos (Z.max 0 (- (b + e))) ltac:(lia)). nia.
    - replace (b + e + 1) with (Z.succ b + e) by lia.
      assert (2 ^ Z.max 0 (- e) * 2 ^ Z.max 0 (Z.succ b + e) = 2 ^ Z.succ b * 2 ^ Z.max 0 e * 2 ^ Z.max 0 (- (Z.succ b + e))) as ->.
      { rewrite <- !Z.pow_add_r by lia. f_equal. lia. }
      pose proof (pow2_pos (Z.max 0 (- (Z.succ b + e))) ltac:(lia)). nia. }
  assert (Z.max MIN_EXP (Z.log2 m + e - 52) = e) as ->.
  { destruct Hm as [[[H1 H2] H3]|[[H1 H2] ->]].
    - assert (Z.log2 m = 52) as -> by (apply Z.log2_unique; [lia|]; change (Z.succ 52) with 53; lia). lia.
    - assert (Z.log2 m < 52) by (apply Z.log2_lt_pow2; lia). lia. }
  assert (round_half_even (up (m * 2 ^ Z.max 0 e) e) (down (2 ^ Z.max 0 (- e)) e) = m) as ->.
  { unfold up, down. replace (m * 2 ^ Z.max 0 e * 2 ^ Z.max 0 (- e)) with (m * (2 ^ Z.max 0 (- e) * 2 ^ Z.max 0 e)) by lia.
    assert (0 < 2 ^ Z.max 0 (- e) * 2 ^ Z.max 0 e) as P by nia. set (b := 2 ^ Z.max 0 (- e) * 2 ^ Z.max 0 e) in *.
    unfold round_half_even. rewrite Z.div_mul, Z.mod_mul by lia. by rewrite (proj2 (Z.ltb_lt _ _)) by lia. }
  assert ((m =? 2 ^ 53) = false) as -> by (apply Z.eqb_neq; unfold canonical in Hm; lia).
  assert ((MAX_EXP <? e) = false) as ->; [|done]. apply Z.ltb_ge. unfold canonical, MIN_EXP, MAX_EXP in *. lia.
Qed.

Lemma exact_decimal_spec neg m e : canonical m e -> let (d, k) := exact_decimal m e in 0 <= d /\ of_decimal neg d k = Finite neg m e.
Proof.
  intros Hm. assert (0 <= m) as H0 by (unfold canonical in Hm; lia). unfold exact_decimal. destruct (Z.leb_spec 0 e) as [He|He].
  - pose proof (pow2_pos e He). split; [nia|]. rewrite <- (round_exact neg m e Hm). unfold of_decimal.
    change (Z.max 0 0) with 0. change (Z.max 0 (- 0)) with 0. by rewrite (Z.max_r 0 e), (Z.max_l 0 (- e)), !Z.pow_0_r, Z.mul_1_r by lia.
  - pose proof (Z.pow_nonneg 5 (- e) ltac:(lia)). split; [nia|]. rewrite <- (round_exact neg m e Hm). unfold of_decimal.
    rewrite (Z.max_l 0 e), (Z.max_r 0 (- e)), !Z.pow_0_r, !Z.mul_1_r by lia. replace (10 ^ (- e)) with (5 ^ (- e) * 2 ^ (- e)) by (by rewrite <- Z.pow_mul_l).
    pose proof (pow2_pos (- e) ltac:(lia)). pose proof (Z.pow_pos_nonneg 5 (- e) ltac:(lia) ltac:(lia)).
    apply round_ratio_cross; nia.
Qed.

(** ** What is written is read back *)

Lemma of_length_reads x neg d e n d' e' : 0 <= d -> of_length x neg d e n = Some (d', e') -> 0 <= d' /\ of_decimal neg d' e' = x.
Proof.
  intros Hd. unfold of_length. set (cut := Z.of_nat _). set (low := d / 10 ^ cut).
  assert (0 <= low) as Hlow by (apply Z.div_pos; [done|apply Z.pow_pos_nonneg; lia]).
  destruct (bool_decide_reflect (of_decimal neg low (e + cut) = x)) as [H1|H1],
    (bool_decide_reflect (of_decimal neg (low + 1) (e + cut) = x)) as [H2|H2]; intros [= <- <-]; try (split; [lia|done]).
  destruct (_ <=? _); split; done || lia.
Qed.

Lemma shortest_spec neg m e : canonical m e ->
  let (d, k) := shortest neg m e in 0 <= d /\ of_decimal neg d k = Finite neg m e.
Proof.
  intros Hm. unfold shortest. pose proof (exact_decimal_spec neg m e Hm) as H. destruct (exact_decimal m e) as [d k].
  induction (seq 1 17) as [|n ns IH]; cbn [shortest_from]; [done|].
  destruct (of_length _ neg d k n) as [[d' k']|] eqn:Hn; [|done]. apply of_length_reads in Hn; [done|by destruct H].
Qed.

Lemma strip_zeros_spec neg fuel : forall d e, 0 < d ->
  let (d', e') := strip_zeros fuel d e in 0 < d' /\ of_decimal neg d' e' = of_decimal neg d e.
Proof.
  induction fuel as [|fuel IH]; intros d e Hd; cbn [strip_zeros]; [done|].
  destruct (Z.eqb_spec (d mod 10) 0) as [H|H]; cbn [andb]; [|done].
  assert ((d =? 0) = false) as -> by lia. cbn [negb].
  assert (d = d / 10 * 10) as Hd10 by (rewrite (Z.div_mod d 10) at 1; lia).
  specialize (IH (d / 10) (e + 1) ltac:(lia)). destruct (strip_zeros fuel (d / 10) (e + 1)) as [d' e'].
  destruct IH as [H1 H2]. split; [done|]. rewrite H2. symmetry. rewrite Hd10 at 1.
  replace e with (e + 1 - 1) at 1 by lia. apply (of_decimal_shift neg (d / 10) (e + 1) 1); lia.
Qed.

Definition digits_only (l : bytes) : Prop := Forall (fun b => 48 <= b <= 57) l.

Lemma digits_text_spec d : 0 < d -> digits_only (digits_text d) /\ value_from 0 (digits_text d) = d /\
  exists b rest, digits_text d = b :: rest /\ b <> 48.
Proof.
  intros Hd. unfold digits_text. assert (0 <= d < 10 ^ Z.of_nat (S (Z.to_nat (Z.log2 d)))) as Hb.
  { pose proof (Z.log2_spec d Hd) as [_ H]. pose proof (Z.log2_nonneg d). rewrite Nat2Z.inj_succ, Z2Nat.id by lia.
    pose proof (Z.pow_le_mono_l 2 10 (Z.succ (Z.log2 d)) ltac:(lia)). lia. }
  split; [apply digits_digit; lia|]. split; [by apply digits_value|]. apply digits_head. lia.
Qed.

Lemma digit_run_app ds rest : digits_only ds -> match rest with [] => True | b :: _ => is_digit b = false end ->
  digit_run (ds ++ rest) = (ds, rest).
Proof.
  induction 1 as [|b ds Hb _ IH]; intros Hr; cbn [app digit_run].
  - destruct rest as [|b rest]; cbn [digit_run]; [done|]. by rewrite Hr.
  - assert (is_digit b = true) as -> by (unfold is_digit; lia). by rewrite IH.
Qed.

Definition sign_text (neg : bool) : bytes := if neg then [45] else [].

Lemma sign_digits neg b rest : 48 <= b <= 57 -> sign (sign_text neg ++ b :: rest) = (neg, b :: rest).
Proof.
  intros Hb. destruct neg; [done|]. cbn [sign_text app sign].
  by destruct (Z.eqb_spec b 45), (Z.eqb_spec b 43); try lia.
Qed.

Lemma parse_fraction neg whole frac : digits_only whole -> whole <> [] -> digits_only frac ->
  f64_parse (sign_text neg ++ whole ++ [46] ++ frac) = Some (of_decimal neg (value_from 0 (whole ++ frac)) (- len frac)).
Proof.
  intros Hw Hne Hf. destruct whole as [|b whole]; [done|]. pose proof Hw as [Hb _]%Forall_cons. unfold f64_parse.
  cbn [app]. rewrite sign_digits by done.
  change (b :: whole ++ 46 :: frac) with ((b :: whole) ++ 46 :: frac). rewrite digit_run_app by done.
  cbn [fraction]. pose proof (digit_run_app frac [] Hf I) as E. rewrite app_nil_r in E. rewrite E. cbn [app exponent].
  do 2 f_equal.
Qed.

Lemma value_zeros acc n : value_from acc (zeros n) = acc * 10 ^ Z.max 0 n.
Proof.
  unfold zeros. destruct (Z.le_gt_cases 0 n) as [Hn|Hn].
  - rewrite Z.max_r by done. rewrite <- (Z2Nat.id n) at 2 by done. induction (Z.to_nat n) as [|k IH] in acc |- *.
    + unfold value_from. cbn. lia.
    + rewrite replicate_S_end, value_from_app, IH, pow10. unfold value_from. cbn [fold_left]. lia.
  - rewrite Z.max_l by lia. replace (Z.to_nat n) with 0%nat by lia. unfold value_from. cbn. lia.
Qed.

Lemma zeros_digits n : digits_only (zeros n).
Proof. unfold zeros. apply Forall_replicate. lia. Qed.

(** A whole part as numbers have it: no zero in front of another digit. *)
Definition whole_part (l : bytes) : Prop := digits_only l /\ (l = [48] \/ exists b rest, l = b :: rest /\ b <> 48).

(** The text of a number with a point, as the writer gives it. *)
Definition pointed (text : bytes) : bytes :=
  if existsb (fun byte => (byte =? 46) || (byte =? 101) || (byte =? 69)) text then text else text ++ bs ".0".

Lemma pointed_digits neg l : digits_only l -> pointed (sign_text neg ++ l) = sign_text neg ++ l ++ [46; 48].
Proof.
  intros H. unfold pointed. assert (existsb (fun byte => (byte =? 46) || (byte =? 101) || (byte =? 69)) (sign_text neg ++ l) = false) as ->.
  { apply not_true_iff_false. rewrite existsb_exists. intros (b & Hb & E). apply in_app_iff in Hb as [Hb|Hb].
    - destruct neg; [|done]. destruct Hb as [<-|[]]. done.
    - apply list_elem_of_In in Hb. unfold digits_only in H. rewrite Forall_forall in H. specialize (H b Hb). cbn beta in H. lia. }
  by rewrite <- app_assoc.
Qed.

Lemma pointed_point neg whole frac : pointed (sign_text neg ++ whole ++ [46] ++ frac) = sign_text neg ++ whole ++ [46] ++ frac.
Proof.
  unfold pointed. assert (existsb (fun byte => (byte =? 46) || (byte =? 101) || (byte =? 69)) (sign_text neg ++ whole ++ [46] ++ frac) = true) as ->; [|done].
  apply existsb_exists. exists 46. split; [|done]. rewrite !in_app_iff. right. right. left. by left.
Qed.

Lemma layout_written neg d e : 0 <= d -> exists whole frac,
  pointed (sign_text neg ++ layout d e) = sign_text neg ++ whole ++ [46] ++ frac /\ whole_part whole /\ digits_only frac /\ frac <> [] /\
  f64_parse (sign_text neg ++ whole ++ [46] ++ frac) = Some (of_decimal neg d e).
Proof.
  intros Hd. unfold layout. destruct (Z.eqb_spec d 0) as [->|H0].
  { exists [48], [48]. rewrite pointed_digits by (repeat constructor; lia). split; [done|].
    assert (digits_only [48]) by (repeat constructor; lia). split; [split; [done|by left]|]. split; [done|]. split; [done|].
    rewrite parse_fraction by done. f_equal. }
  pose proof (strip_zeros_spec neg (digit_count d) d e ltac:(lia)) as Hs. destruct (strip_zeros (digit_count d) d e) as [d' e'].
  destruct Hs as [Hd' <-]. destruct (digits_text_spec d' Hd') as (Hdig & Hval & b & rest & Htext & Hb). set (text := digits_text d') in *.
  destruct (Z.leb_spec 0 e') as [He|He]; [|destruct (Z.ltb_spec 0 (len text + e')) as [Hp|Hp]].
  - exists (text ++ zeros e'), [48]. assert (digits_only (text ++ zeros e')) as Hw by (apply Forall_app_2; [done|apply zeros_digits]).
    rewrite pointed_digits by done. split; [done|]. split; [split; [done|]; right; rewrite Htext; by eexists b, _|].
    split; [repeat constructor; lia|]. split; [done|].
    rewrite parse_fraction; [|done|by rewrite Htext|repeat constructor; lia]. f_equal. rewrite !value_from_app, value_zeros, Hval.
    rewrite Z.max_r by done. unfold value_from. cbn [fold_left]. change (len [48]) with 1.
    replace (d' * 10 ^ e' * 10 + (48 - 48)) with (d' * 10 ^ (e' + 1)) by (rewrite Z.pow_add_r by lia; lia).
    replace (- (1)) with (e' - (e' + 1)) by lia. apply of_decimal_shift; lia.
  - set (point := Z.to_nat (len text + e')). exists (take point text), (drop point text).
    assert (0 < point < length text)%nat as Hpt by (unfold point, len in *; lia).
    rewrite (pointed_point neg (take point text) (drop point text)). split; [done|].
    assert (digits_only (take point text) /\ digits_only (drop point text)) as [Hw Hf] by (split; [by apply Forall_take|by apply Forall_drop]).
    assert (take point text = b :: take (point - 1) rest) as Ht.
    { rewrite Htext. destruct point; [lia|]. cbn. by rewrite Nat.sub_0_r. }
    split; [split; [done|right; rewrite Ht; by eexists b, _]|]. split; [done|]. split.
    { intros E. apply (f_equal length) in E. rewrite length_drop in E. cbn [length] in E. lia. }
    rewrite parse_fraction by (done || by rewrite Ht). rewrite take_drop, Hval. do 2 f_equal.
    unfold len. rewrite length_drop. subst point. unfold len in *. lia.
  - exists [48], (zeros (- (len text + e')) ++ text).
    assert (digits_only (zeros (- (len text + e')) ++ text)) as Hf by (apply Forall_app_2; [apply zeros_digits|done]).
    change (bs "0." ++ zeros (- (len text + e')) ++ text) with ([48] ++ [46] ++ zeros (- (len text + e')) ++ text).
    rewrite (pointed_point neg [48]). split; [done|]. split; [split; [repeat constructor; lia|by left]|]. split; [done|]. split.
    { rewrite Htext. intros E%app_eq_nil. by destruct E. }
    rewrite parse_fraction by (done || (repeat constructor; lia)). f_equal. rewrite !value_from_app, value_zeros.
    change (value_from 0 [48]) with 0. rewrite Z.mul_0_l, Hval. f_equal. rewrite len_app. unfold zeros, len in *. rewrite length_replicate. lia.
Qed.

(** What the writer puts for a finite number: a sign, a whole part and a fraction, which
    read back as the number. *)
Lemma float_written neg m e : canonical m e -> exists whole frac,
  pointed (f64_display (Finite neg m e)) = sign_text neg ++ whole ++ [46] ++ frac /\ whole_part whole /\ digits_only frac /\ frac <> [] /\
  f64_parse (sign_text neg ++ whole ++ [46] ++ frac) = Some (Finite neg m e).
Proof.
  intros Hm. cbn [f64_display]. pose proof (shortest_spec neg m e Hm) as H. destruct (shortest neg m e) as [d k].
  destruct H as [Hd <-]. apply (layout_written neg d k Hd).
Qed.
