(* ===== verification/JsonValue.v ===== *)
(** * Values

    [zero-core/src/value.rs]: the value model the codecs share, with the induction
    principle that goes through the lists of an array and an object.  A [String] is its
    octets. *)
From S2P Require Import Prelude JsonFloat.
#[local] Set Warnings "-register-all".

Inductive Value : Type :=
| Null
| Bool (flag : bool)
| Int (number : Z)
| Float (number : f64)
| Str (text : bytes)
| Bytes (content : bytes)
| Array (items : list Value)
| Object (members : list (bytes * Value)).

Definition kind (self : Value) : string :=
  match self with
  | Null => "null" | Bool _ => "bool" | Int _ => "int" | Float _ => "float" | Str _ => "string"
  | Bytes _ => "bytes" | Array _ => "array" | Object _ => "object"
  end.
Definition is_null (self : Value) : bool := match self with Null => true | _ => false end.
Definition as_bool (self : Value) : option bool := match self with Bool value => Some value | _ => None end.
Definition as_i64 (self : Value) : option Z := match self with Int value => Some value | _ => None end.
(** [as f64] rounds to the nearest number. *)
Definition as_f64 (self : Value) : option f64 :=
  match self with
  | Float value => Some value
  | Int value => Some (round_ratio (value <? 0) (Z.abs value) 1)
  | _ => None
  end.
Definition as_str (self : Value) : option bytes := match self with Str value => Some value | _ => None end.
Definition as_bytes (self : Value) : option bytes := match self with Bytes value => Some value | _ => None end.
Definition as_array (self : Value) : option (list Value) := match self with Array value => Some value | _ => None end.
Definition as_object (self : Value) : option (list (bytes * Value)) :=
  match self with Object value => Some value | _ => None end.
Definition get (self : Value) (key : bytes) : option Value :=
  let! members := as_object self in
  snd <$> List.find (fun member => bool_decide (member.1 = key)) members.

Section induction.
Variable P : Value -> Prop.
Hypothesis P_null : P Null.
Hypothesis P_bool : forall flag, P (Bool flag).
Hypothesis P_int : forall number, P (Int number).
Hypothesis P_float : forall number, P (Float number).
Hypothesis P_str : forall text, P (Str text).
Hypothesis P_bytes : forall content, P (Bytes content).
Hypothesis P_array : forall items, Forall P items -> P (Array items).
Hypothesis P_object : forall members, Forall (fun m => P m.2) members -> P (Object members).

Fixpoint value_ind' (v : Value) : P v :=
  match v with
  | Null => P_null
  | Bool flag => P_bool flag
  | Int number => P_int number
  | Float number => P_float number
  | Str text => P_str text
  | Bytes content => P_bytes content
  | Array items =>
      P_array items ((fix go (l : list Value) : Forall P l :=
        match l with [] => List.Forall_nil _ | v :: l => @List.Forall_cons Value P v l (value_ind' v) (go l) end) items)
  | Object members =>
      P_object members ((fix go (l : list (bytes * Value)) : Forall (fun m => P m.2) l :=
        match l with [] => List.Forall_nil _ | m :: l => @List.Forall_cons (bytes * Value) (fun m => P m.2) m l (value_ind' m.2) (go l) end) members)
  end.
End induction.
