(* ===== verification/JsonParse.v ===== *)
(** * The JSON parser

    [zero-json/src/parse.rs]: the recursive parser over its cursor, with the limits on
    size and nesting, the strings with their escapes, the numbers, and the merging of
    repeated names.  A parser is its offset and its depth; after an error it is dropped.
    [JsonGrammar] has the grammar it decides. *)
From stdpp Require Import pretty sorting.
From S2P Require Import Prelude Scalar Core Utf8 JsonFloat JsonValue.
#[local] Open Scope Z_scope.

Definition DEFAULT_DEPTH : nat := 64.
Definition DEFAULT_SIZE : nat := Z.to_nat 1048576.
Definition DEPTH_CAP : nat := 256.
Definition MAX_SAFE_INTEGER : Z := 9007199254740991.

Inductive TopLevel : Type := Any | ObjectOrArray.
Inductive BigIntegers : Type := Lossy | Strings.
Record Options : Type := MkOptions {
  max_size : nat;
  max_depth : nat;
  top_level : TopLevel;
  big_integers : BigIntegers;
}.
Definition Options_DEFAULT : Options := MkOptions DEFAULT_SIZE DEFAULT_DEPTH Any Lossy.

Inductive ErrorKind : Type :=
| TooLarge | TooDeep | UnexpectedEnd | UnexpectedByte | InvalidNumber | InvalidEscape | InvalidUtf8
| ControlCharacter | LoneSurrogate | TrailingBytes | NotObjectOrArray.
Record ParseError : Type := MkParseError { error_kind : ErrorKind; offset : nat }.

Definition describe (e : ParseError) : string :=
  let what :=
    match error_kind e with
    | TooLarge => "the text is larger than the limit"
    | TooDeep => "the nesting is deeper than the limit"
    | UnexpectedEnd => "the text ends inside a value"
    | UnexpectedByte => "unexpected byte"
    | InvalidNumber => "invalid number"
    | InvalidEscape => "invalid escape"
    | InvalidUtf8 => "a string is not UTF-8"
    | ControlCharacter => "an unescaped control character in a string"
    | LoneSurrogate => "a lone surrogate escape"
    | TrailingBytes => "bytes after the value"
    | NotObjectOrArray => "the top-level value is not an object or array"
    end%string in
  what +:+ " at offset " +:+ pretty (offset e).
Definition into_error (e : ParseError) : Error :=
  match error_kind e with
  | TooLarge | TooDeep => Limit ("json: " +:+ describe e)
  | _ => Codec ("json: " +:+ describe e)
  end.

(** ** Repeated names *)

Definition SCANNED_MEMBERS : nat := 16.

Abbreviation members_list := (list (bytes * Value)).

(** The member of [merged] that takes the value, or a new one. *)
Fixpoint merge_member (merged : members_list) (name : bytes) (value : Value) : members_list :=
  match merged with
  | [] => [(name, value)]
  | (existing, old) :: merged =>
      if bool_decide (existing = name) then (existing, value) :: merged
      else (existing, old) :: merge_member merged name value
  end.
Definition merge_scanned (members : members_list) : members_list :=
  fold_left (fun merged '(name, value) => merge_member merged name value) members [].

(** The order of [sort_unstable_by]: names by their octets, then the index, so that no
    two elements compare equal. *)
Fixpoint name_cmp (l m : bytes) : comparison :=
  match l, m with
  | [], [] => Eq
  | [], _ :: _ => Lt
  | _ :: _, [] => Gt
  | a :: l, b :: m => match a ?= b with Eq => name_cmp l m | c => c end
  end.
Definition name_at (members : members_list) (index : nat) : bytes := from_option fst [] (members !! index).
Definition name_le (members : members_list) (left right : nat) : Prop :=
  match name_cmp (name_at members left) (name_at members right) with
  | Lt => True | Eq => (left <= right)%nat | Gt => False
  end.
#[global] Instance name_le_dec members : RelDecision (name_le members).
Proof. intros left right. unfold name_le. destruct (name_cmp _ _); apply _. Defined.

(** [chunk_by]: runs of indices with the same name. *)
Fixpoint chunks (members : members_list) (order : list nat) : list (list nat) :=
  match order with
  | [] => []
  | i :: order =>
      match chunks members order with
      | (j :: group) :: groups =>
          if bool_decide (name_at members i = name_at members j) then (i :: j :: group) :: groups
          else [i] :: (j :: group) :: groups
      | groups => [i] :: groups
      end
  end.

(** What a group of indices changes: which of them are kept, and the value to move. *)
Definition group_step (state : list bool * list (nat * nat)) (group : list nat) : list bool * list (nat * nat) :=
  match head group, last group with
  | Some first, Some last_ =>
      if (first =? last_)%nat then state
      else (fold_left (fun keep later => <[later := false]> keep) (List.tl group) state.1, state.2 ++ [(first, last_)])
  | _, _ => state
  end.
Definition swap_values (members : members_list) (repeat_ : nat * nat) : members_list :=
  let (first, last_) := repeat_ in
  match members !! first, members !! last_ with
  | Some kept, Some latest =>
      if (first <? last_)%nat then <[first := (kept.1, latest.2)]> (<[last_ := (latest.1, kept.2)]> members) else members
  | _, _ => members
  end.
Definition merge_sorted (members : members_list) : members_list :=
  let order := merge_sort (name_le members) (seq 0 (length members)) in
  let (keep, repeats) := fold_left group_step (chunks members order) (replicate (length members) true, []) in
  let members := fold_left swap_values repeats members in
  (zip members keep) ≫= (fun '(member, kept) => if (kept : bool) then [member] else []).
Definition merge_repeated (members : members_list) : members_list :=
  if (length members <=? SCANNED_MEMBERS)%nat then merge_scanned members else merge_sorted members.

(** ** Integers *)

Definition as_i64_magnitude (magnitude : Z) : option Z := if magnitude <? 2 ^ 63 then Some magnitude else None.
Fixpoint magnitude_loop (magnitude : Z) (digits : bytes) : option Z :=
  match digits with
  | [] => Some magnitude
  | byte :: digits =>
      let! magnitude := checked_mul 64 magnitude 10 in
      let! magnitude := checked_add 64 magnitude (wrapping_sub 8 byte 48) in
      magnitude_loop magnitude digits
  end.
Definition parse_i64 (literal : bytes) : option Z :=
  let (negative, digits) := match literal with 45 :: rest => (true, rest) | _ => (false, literal) end in
  let! magnitude := magnitude_loop 0 digits in
  if (negative : bool) then
    if magnitude =? 2 ^ 63 then Some (- 2 ^ 63) else Z.opp <$> as_i64_magnitude magnitude
  else as_i64_magnitude magnitude.

(** ** The parser *)

Record Parser : Type := MkParser { at_ : nat; depth : nat }.

Section parser.
Context (input : bytes) (max_depth : nat) (big_integers : BigIntegers).

Definition left (self : Parser) : bytes := drop (at_ self) input.
Definition peek (self : Parser) : option Z := input !! at_ self.
Definition advance (self : Parser) (n : nat) : Parser := MkParser (at_ self + n) (depth self).
Definition set_at (self : Parser) (at_ : nat) : Parser := MkParser at_ (depth self).
Definition error (self : Parser) (kind : ErrorKind) : ParseError := MkParseError kind (at_ self).
Definition end_or (self : Parser) (kind : ErrorKind) : ParseError :=
  if (length input <=? at_ self)%nat then error self UnexpectedEnd else error self kind.

Definition is_ws (byte : Z) : bool := (byte =? 32) || (byte =? 9) || (byte =? 10) || (byte =? 13).
Definition skip_ws (self : Parser) : Parser := advance self (scan (left self) is_ws).

Definition enter (self : Parser) : result ParseError Parser :=
  let self := MkParser (at_ self) (depth self + 1) in
  if (max_depth <? depth self)%nat then Err (error self TooDeep) else Ok self.
Definition leave (self : Parser) : Parser := MkParser (at_ self) (depth self - 1).

Fixpoint matching (rest word : bytes) : nat :=
  match rest, word with
  | a :: rest, b :: word => if a =? b then S (matching rest word) else O
  | _, _ => O
  end.
Definition literal (self : Parser) (word : bytes) (value : Value) : result ParseError (Value * Parser) :=
  let rest := left self in
  if bool_decide (take (length word) rest = word) then Ok (value, advance self (length word))
  else Err (end_or (advance self (matching rest word)) UnexpectedByte).

(** *** Numbers *)

Definition digits_end (from : nat) : nat := from + scan (drop from input) JsonFloat.is_digit.
Definition digit_at (from : nat) : bool := from_option JsonFloat.is_digit false (input !! from).

Definition number_whole (self : Parser) (from : nat) : result ParseError nat :=
  match input !! from with
  | Some byte =>
      if byte =? 48 then Ok (from + 1)%nat
      else if (49 <=? byte) && (byte <=? 57) then Ok (digits_end from)
      else Err (end_or (set_at self from) InvalidNumber)
  | None => Err (end_or (set_at self from) InvalidNumber)
  end.
Definition number_fraction (self : Parser) (from : nat) : result ParseError (nat * bool) :=
  if bool_decide (input !! from = Some 46) then
    let from := (from + 1)%nat in
    if digit_at from then Ok (digits_end from, true) else Err (end_or (set_at self from) InvalidNumber)
  else Ok (from, false).
Definition number_exponent (self : Parser) (from : nat) : result ParseError (nat * bool) :=
  if bool_decide (input !! from = Some 101) || bool_decide (input !! from = Some 69) then
    let from := (from + 1)%nat in
    let from :=
      if bool_decide (input !! from = Some 43) || bool_decide (input !! from = Some 45) then (from + 1)%nat else from in
    if digit_at from then Ok (digits_end from, true) else Err (end_or (set_at self from) InvalidNumber)
  else Ok (from, false).

(** The value of a literal: an integer, its digits, or a float; [None] when the float is
    not finite. *)
Definition number_value (literal : bytes) (is_float : bool) : option Value :=
  let float :=
    match f64_parse literal with
    | Some float => if is_finite float then Some (Float float) else None
    | None => None
    end in
  if is_float then float
  else
    match parse_i64 literal with
    | Some integer =>
        let safe := (- MAX_SAFE_INTEGER <=? integer) && (integer <=? MAX_SAFE_INTEGER) in
        Some (match big_integers with Strings => if safe then Int integer else Str literal | Lossy => Int integer end)
    | None => match big_integers with Strings => Some (Str literal) | Lossy => float end
    end.
Definition number (self : Parser) : result ParseError (Value * Parser) :=
  let start := at_ self in
  let from := if bool_decide (input !! start = Some 45) then (start + 1)%nat else start in
  let? from := number_whole self from in
  let? (from, fraction) := number_fraction self from in
  let? (from, exponent) := number_exponent self from in
  let literal := take (from - start) (drop start input) in
  match number_value literal (fraction || exponent) with
  | Some value => Ok (value, set_at self from)
  | None =>
      (** a literal of the grammar is a decimal, so it is the range that is refused *)
      Err (MkParseError InvalidNumber (if is_ok (ok_or (f64_parse literal) tt) then start else from))
  end.

(** *** Strings *)

Definition hex_digit (byte : Z) : option Z :=
  if (48 <=? byte) && (byte <=? 57) then Some (wrapping_sub 8 byte 48)
  else if (97 <=? byte) && (byte <=? 102) then Some (wrapping_add 8 (wrapping_sub 8 byte 97) 10)
  else if (65 <=? byte) && (byte <=? 70) then Some (wrapping_add 8 (wrapping_sub 8 byte 65) 10)
  else None.
Fixpoint hex_loop (n : nat) (self : Parser) (unit : Z) : result ParseError (Z * Parser) :=
  match n with
  | O => Ok (unit, self)
  | S n =>
      match peek self ≫= hex_digit with
      | None => Err (end_or self InvalidEscape)
      | Some digit => hex_loop n (advance self 1) (Z.lor (Z.shiftl unit 4 mod 2 ^ 16) digit)
      end
  end.
Definition hex4 (self : Parser) : result ParseError (Z * Parser) := hex_loop 4 self 0.

(** [char::from_u32] *)
Definition from_u32 (code : Z) : option Z :=
  if ((0xd800 <=? code) && (code <=? 0xdfff)) || (0x10ffff <? code) then None else Some code.

Definition escape_unit (escape_at : nat) (self : Parser) : result ParseError (Z * Parser) :=
  let? (unit, self) := hex4 self in
  if (0xd800 <=? unit) && (unit <=? 0xdbff) then
    if bool_decide (take 2 (left self) = [92; 117]) then
      let? (low, self) := hex4 (advance self 2) in
      if (0xdc00 <=? low) && (low <=? 0xdfff) then
        let high := Z.shiftl (wrapping_sub 16 unit 0xd800) 10 mod 2 ^ 32 in
        Ok (wrapping_add 32 (wrapping_add 32 0x10000 high) (wrapping_sub 16 low 0xdc00), self)
      else Err (MkParseError LoneSurrogate escape_at)
    else Err (MkParseError LoneSurrogate escape_at)
  else if (0xdc00 <=? unit) && (unit <=? 0xdfff) then Err (MkParseError LoneSurrogate escape_at)
  else Ok (unit, self).

Definition simple_escape (kind : Z) : option Z :=
  match kind with
  | 34 => Some 34 | 92 => Some 92 | 47 => Some 47 | 98 => Some 8 | 102 => Some 12 | 110 => Some 10
  | 114 => Some 13 | 116 => Some 9 | _ => None
  end.
Definition escape (self : Parser) (out : bytes) : result ParseError (bytes * Parser) :=
  let escape_at := at_ self in
  let self := advance self 1 in
  match peek self with
  | None => Err (error self UnexpectedEnd)
  | Some kind =>
      let self := advance self 1 in
      match simple_escape kind with
      | Some byte => Ok (out ++ [byte], self)
      | None =>
          if kind =? 117 then
            let? (code, self) := escape_unit escape_at self in
            let? character := ok_or (from_u32 code) (MkParseError LoneSurrogate escape_at) in
            Ok (out ++ encode_char character, self)
          else Err (MkParseError InvalidEscape escape_at)
      end
  end.

(** Every turn takes an octet or more. *)
Fixpoint string_loop (fuel : nat) (self : Parser) (out : bytes) : result ParseError (bytes * Parser) :=
  match fuel with
  | O => Err (error self UnexpectedEnd)
  | S fuel =>
      match peek self with
      | None => Err (error self UnexpectedEnd)
      | Some byte =>
          if byte =? 34 then Ok (out, advance self 1)
          else if byte =? 92 then let? (out, self) := escape self out in string_loop fuel self out
          else if byte <? 32 then Err (error self ControlCharacter)
          else string_loop fuel (advance self 1) (out ++ [byte])
      end
  end.
Definition parse_string (self : Parser) : result ParseError (bytes * Parser) :=
  let start := at_ self in
  let self := advance self 1 in
  let? (out, self) := string_loop (S (length (left self))) self [] in
  if from_utf8 out then Ok (out, self) else Err (MkParseError InvalidUtf8 start).

(** *** Containers

    [items] and [members] are the loops of an array and an object. *)
Definition array (items : Parser -> list Value -> result ParseError (list Value * Parser)) (self : Parser)
  : result ParseError (Value * Parser) :=
  let? self := enter self in
  let self := skip_ws (advance self 1) in
  if bool_decide (peek self = Some 93) then Ok (Array [], leave (advance self 1))
  else let? (found, self) := items self [] in Ok (Array found, leave self).
Definition object (members : Parser -> members_list -> result ParseError (members_list * Parser)) (self : Parser)
  : result ParseError (Value * Parser) :=
  let? self := enter self in
  let self := skip_ws (advance self 1) in
  if bool_decide (peek self = Some 125) then Ok (Object [], leave (advance self 1))
  else let? (found, self) := members self [] in Ok (Object (merge_repeated found), leave self).

(** The name of a member and the colon after it. *)
Definition member_name (self : Parser) : result ParseError (bytes * Parser) :=
  let self := skip_ws self in
  if negb (bool_decide (peek self = Some 34)) then Err (end_or self UnexpectedByte)
  else
    let? (name, self) := parse_string self in
    let self := skip_ws self in
    if negb (bool_decide (peek self = Some 58)) then Err (end_or self UnexpectedByte)
    else Ok (name, skip_ws (advance self 1)).

(** A value takes an octet, and so does the comma before the next one. *)
Fixpoint value (fuel : nat) (self : Parser) : result ParseError (Value * Parser) :=
  match fuel with
  | O => Err (error self UnexpectedEnd)
  | S fuel =>
      match peek self with
      | None => Err (error self UnexpectedEnd)
      | Some byte =>
          if byte =? 123 then object (members_loop fuel) self
          else if byte =? 91 then array (items_loop fuel) self
          else if byte =? 34 then let? (text, self) := parse_string self in Ok (Str text, self)
          else if byte =? 116 then literal self (bs "true") (Bool true)
          else if byte =? 102 then literal self (bs "false") (Bool false)
          else if byte =? 110 then literal self (bs "null") Null
          else if (byte =? 45) || JsonFloat.is_digit byte then number self
          else Err (error self UnexpectedByte)
      end
  end
with items_loop (fuel : nat) (self : Parser) (items : list Value) : result ParseError (list Value * Parser) :=
  match fuel with
  | O => Err (error self UnexpectedEnd)
  | S fuel =>
      let? (found, self) := value fuel (skip_ws self) in
      let items := items ++ [found] in
      let self := skip_ws self in
      match peek self with
      | Some 44 => items_loop fuel (advance self 1) items
      | Some 93 => Ok (items, advance self 1)
      | _ => Err (end_or self UnexpectedByte)
      end
  end
with members_loop (fuel : nat) (self : Parser) (members : members_list) : result ParseError (members_list * Parser) :=
  match fuel with
  | O => Err (error self UnexpectedEnd)
  | S fuel =>
      let? (name, self) := member_name self in
      let? (found, self) := value fuel self in
      let members := members ++ [(name, found)] in
      let self := skip_ws self in
      match peek self with
      | Some 44 => members_loop fuel (advance self 1) members
      | Some 125 => Ok (members, advance self 1)
      | _ => Err (end_or self UnexpectedByte)
      end
  end.
End parser.

Definition BOM : bytes := [0xef; 0xbb; 0xbf].
Definition fuel_for (input : bytes) : nat := 2 * length input + 2.

Definition parse_with (input : bytes) (options : Options) : result ParseError Value :=
  if (max_size options <? length input)%nat then Err (MkParseError TooLarge 0)
  else
    let parser := MkParser (if bool_decide (take 3 input = BOM) then 3 else 0) 0 in
    let parser := skip_ws input parser in
    let? (found, parser) :=
      value input (Nat.min (max_depth options) DEPTH_CAP) (big_integers options) (fuel_for input) parser in
    let parser := skip_ws input parser in
    if (at_ parser <? length input)%nat then Err (error parser TrailingBytes)
    else
      match top_level options, found with
      | ObjectOrArray, (Object _ | Array _) | Any, _ => Ok found
      | ObjectOrArray, _ => Err (MkParseError NotObjectOrArray 0)
      end.
Definition parse (input : bytes) : result ParseError Value := parse_with input Options_DEFAULT.

(** ** The tests of [parse.rs] *)

Definition q (s : string) : bytes := 34 :: bs s ++ [34].

Example top_scalar : parse (bs " 12 ") = Ok (Int 12) /\ parse (bs "null") = Ok Null /\ parse (q "s") = Ok (Str (bs "s")).
Proof. by vm_compute. Qed.
Example top_object : parse_with (q "s") (MkOptions DEFAULT_SIZE DEFAULT_DEPTH ObjectOrArray Lossy) = Err (MkParseError NotObjectOrArray 0).
Proof. by vm_compute. Qed.
Example bom_ignored : parse (BOM ++ bs "{}") = Ok (Object []) /\ parse (bs "{}" ++ BOM) = Err (MkParseError TrailingBytes 2).
Proof. by vm_compute. Qed.
Example repeated : parse (bs "{" ++ q "a" ++ bs ":1," ++ q "b" ++ bs ":true," ++ q "a" ++ bs ":2}")
  = Ok (Object [(bs "a", Int 2); (bs "b", Bool true)]).
Proof. by vm_compute. Qed.
Example surrogates : parse (q "\ud83d\ude00") = Ok (Str [0xf0; 0x9f; 0x98; 0x80])
  /\ parse (q "x\ud83dx") = Err (MkParseError LoneSurrogate 2).
Proof. by vm_compute. Qed.
Example numbers : parse (bs "-0") = Ok (Int 0) /\ parse (bs "1e1") = Ok (Float (round_ratio false 10 1))
  /\ parse (bs "01") = Err (MkParseError TrailingBytes 1) /\ parse (bs "1.") = Err (MkParseError UnexpectedEnd 2)
  /\ parse (bs "1e999") = Err (MkParseError InvalidNumber 0).
Proof. by vm_compute. Qed.
Example truncated : parse (bs "[1,") = Err (MkParseError UnexpectedEnd 3) /\ parse (bs "tru") = Err (MkParseError UnexpectedEnd 3)
  /\ parse (bs "[1 2]") = Err (MkParseError UnexpectedByte 3).
Proof. by vm_compute. Qed.
Example nested : parse_with (bs "[[]]") (MkOptions 10 1 Any Lossy) = Err (MkParseError TooDeep 1).
Proof. by vm_compute. Qed.
(** Seventeen members and more are sorted. *)
Definition names : members_list := (fun i => ([Z.of_nat (i mod 13)], Int (Z.of_nat i))) <$> seq 0 20.
Example sorted_scanned : merge_repeated names = merge_scanned names /\ length (merge_repeated names) = 13%nat.
Proof. by vm_compute. Qed.
