(* ===== verification/JsonMerge.v ===== *)
(** * Repeated names

    [merge_repeated] scans the members of a small object and sorts the indices of a large
    one.  Both keep the first member of a name, with the value of the last. *)
From stdpp Require Import sorting.
From S2P Require Import Prelude JsonValue JsonParse.
#[local] Open Scope Z_scope.

(** ** The members that stay, and their values *)

Definition latest (members : members_list) (name : bytes) : Value :=
  fold_left (fun found m => if bool_decide (m.1 = name) then m.2 else found) members Null.
Definition is_first (members : members_list) (i : nat) : Prop := forall j, (j < i)%nat -> name_at members j <> name_at members i.
#[global] Instance is_first_dec members i : Decision (is_first members i).
Proof.
  refine (cast_if (decide (Forall (fun j => name_at members j <> name_at members i) (seq 0 i)))).
  - intros j Hj. rewrite Forall_forall in f. apply f, elem_of_seq. lia.
  - intros H. apply n, Forall_forall. intros j Hj%elem_of_seq. apply H. lia.
Defined.
Definition firsts (members : members_list) : list nat := filter (is_first members) (seq 0 (length members)).
Definition merged (members : members_list) : members_list :=
  (fun i => (name_at members i, latest members (name_at members i))) <$> firsts members.

Lemma name_at_app ms ms' i : (i < length ms)%nat -> name_at (ms ++ ms') i = name_at ms i.
Proof. intros Hi. unfold name_at. by rewrite lookup_app_l. Qed.
Lemma name_at_lookup ms i m : ms !! i = Some m -> name_at ms i = m.1.
Proof. unfold name_at. by intros ->. Qed.
Lemma latest_app ms m name : latest (ms ++ [m]) name = if bool_decide (m.1 = name) then m.2 else latest ms name.
Proof. unfold latest. by rewrite fold_left_app. Qed.
Lemma is_first_app ms ms' i : (i < length ms)%nat -> is_first (ms ++ ms') i <-> is_first ms i.
Proof. intros Hi. unfold is_first. split; intros H j Hj; [|rewrite !name_at_app by lia; by apply H]. specialize (H j Hj). rewrite !name_at_app in H by lia. done. Qed.
Lemma elem_firsts ms i : i ∈ firsts ms <-> is_first ms i /\ (i < length ms)%nat.
Proof. unfold firsts. rewrite list_elem_of_filter, elem_of_seq. split; intros [? ?]; (split; [done|lia]). Qed.

(** Every name has a first member. *)
Lemma first_exists ms i : (i < length ms)%nat -> exists j, j ∈ firsts ms /\ name_at ms j = name_at ms i.
Proof.
  induction i as [i IH] using lt_wf_ind. intros Hi. destruct (decide (is_first ms i)) as [Hf|Hf].
  - exists i. split; [by apply elem_firsts|done].
  - destruct (decide (Exists (fun j => name_at ms j = name_at ms i) (seq 0 i))) as [(j & Hj%elem_of_seq & E)%Exists_exists|H].
    2: { exfalso. apply Hf. intros j Hj E. apply H, Exists_exists. exists j. split; [apply elem_of_seq; lia|done]. }
    destruct (IH j) as (k & Hk & Ek); [lia|lia|]. exists k. split; [done|congruence].
Qed.
Lemma filter_elem_agree {A} (P Q : A -> Prop) `{!forall x, Decision (P x), !forall x, Decision (Q x)} (l : list A) :
  (forall x, x ∈ l -> P x <-> Q x) -> filter P l = filter Q l.
Proof.
  induction l as [|x l IH]; intros Hag; [done|]. rewrite !filter_cons. rewrite IH by (intros y Hy; apply Hag; by right).
  assert (P x <-> Q x) as E by (apply Hag; by left). by rewrite (decide_ext _ _ _ _ E).
Qed.
Lemma firsts_app ms m : firsts (ms ++ [m]) = firsts ms ++ (if decide (m.1 ∈ name_at ms <$> firsts ms) then [] else [length ms]).
Proof.
  unfold firsts at 1. rewrite length_app. cbn [length]. rewrite seq_app, filter_app. f_equal.
  - apply filter_elem_agree. intros i [_ Hi]%elem_of_seq. by apply is_first_app.
  - cbn [seq]. rewrite filter_cons, filter_nil, Nat.add_0_l.
    assert (name_at (ms ++ [m]) (length ms) = m.1) as En by (apply name_at_lookup, list_lookup_middle; done).
    destruct (decide (m.1 ∈ name_at ms <$> firsts ms)) as [Hin|Hin].
    + apply list_elem_of_fmap in Hin as (j & E & [_ Hj]%elem_firsts). rewrite decide_False; [done|]. intros H. apply (H j Hj).
      by rewrite En, name_at_app.
    + rewrite decide_True; [done|]. intros j Hj E. rewrite En, name_at_app in E by done. apply Hin.
      destruct (first_exists ms j Hj) as (k & Hk & Ek). apply list_elem_of_fmap. exists k. split; [congruence|done].
Qed.

(** ** The scan *)

Definition put (name : bytes) (v : Value) (m : bytes * Value) : bytes * Value := if bool_decide (name = m.1) then (m.1, v) else m.
Lemma put_other ms name v : name ∉ ms.*1 -> put name v <$> ms = ms.
Proof.
  intros Hn. rewrite <- (list_fmap_id ms) at 2. apply list_fmap_ext. intros i m Hm%list_elem_of_lookup_2. unfold put.
  rewrite bool_decide_eq_false_2; [done|]. intros ->. apply Hn. by apply list_elem_of_fmap_2.
Qed.
Lemma merge_member_spec ms name v : NoDup (ms.*1) ->
  merge_member ms name v = if decide (name ∈ ms.*1) then put name v <$> ms else ms ++ [(name, v)].
Proof.
  induction ms as [|[n old] ms IH]; intros Hn; [by rewrite decide_False by (by apply not_elem_of_nil)|].
  cbn [merge_member]. rewrite fmap_cons in *. cbn [fst] in *. apply NoDup_cons in Hn as [Hnot Hn].
  case_bool_decide as E.
  - subst n. rewrite decide_True by (by left). rewrite fmap_cons, put_other by done. unfold put. cbn [fst]. by rewrite bool_decide_eq_true_2.
  - rewrite IH by done. destruct (decide (name ∈ ms.*1)) as [Hin|Hin].
    + rewrite decide_True by (by right). rewrite fmap_cons. unfold put at 2. cbn [fst]. by rewrite bool_decide_eq_false_2.
    + rewrite decide_False; [done|]. intros [->|]%elem_of_cons; done.
Qed.
Lemma NoDup_firsts ms : NoDup (name_at ms <$> firsts ms).
Proof.
  apply NoDup_fmap_2_strong; [|apply NoDup_filter, NoDup_seq]. intros i j [Hi _]%elem_firsts [Hj _]%elem_firsts E.
  destruct (Nat.lt_trichotomy i j) as [H|[H|H]]; [|done|]; exfalso; [by apply (Hj i H)|by apply (Hi j H)].
Qed.
Lemma merged_names ms : (merged ms).*1 = name_at ms <$> firsts ms.
Proof. unfold merged. by rewrite <- list_fmap_compose. Qed.
Lemma merge_scanned_merged ms : merge_scanned ms = merged ms.
Proof.
  induction ms as [|[name v] ms IH] using rev_ind; [done|]. unfold merge_scanned in *. rewrite fold_left_app, IH. cbn [fold_left].
  rewrite merge_member_spec by (rewrite merged_names; apply NoDup_firsts). rewrite merged_names.
  assert (merged (ms ++ [(name, v)]) = put name v <$> merged ms ++ (if decide (name ∈ name_at ms <$> firsts ms) then [] else [(name, v)])) as ->.
  { unfold merged. rewrite firsts_app, !fmap_app. f_equal.
    - rewrite <- list_fmap_compose. apply list_fmap_ext. intros k i Hi%list_elem_of_lookup_2. apply elem_firsts in Hi as [_ Hi]. unfold put. cbn.
      rewrite name_at_app, latest_app by done. cbn. by destruct (bool_decide (name = name_at ms i)).
    - cbn [fst]. destruct (decide (name ∈ name_at ms <$> firsts ms)); [done|]. cbn.
      assert (name_at (ms ++ [(name, v)]) (length ms) = name) as -> by (by apply (name_at_lookup _ _ (name, v)), list_lookup_middle).
      rewrite latest_app, bool_decide_eq_true_2 by done. unfold put. cbn. by rewrite bool_decide_eq_true_2. }
  rewrite fmap_app. destruct (decide (name ∈ name_at ms <$> firsts ms)) as [Hin|Hin]; [by rewrite app_nil_r|].
  rewrite put_other by (by rewrite merged_names). cbn. unfold put. cbn. by rewrite bool_decide_eq_true_2.
Qed.

(** ** The order of the indices *)

Lemma name_cmp_eq l : forall m, name_cmp l m = Eq <-> l = m.
Proof.
  induction l as [|a l IH]; intros [|b m]; cbn; try done. destruct (Z.compare_spec a b) as [->|H|H].
  - rewrite IH. split; [by intros ->|by intros [= ->]].
  - split; [done|]. intros [= ->]. lia.
  - split; [done|]. intros [= ->]. lia.
Qed.
Lemma name_cmp_flip l : forall m, name_cmp m l = CompOpp (name_cmp l m).
Proof. induction l as [|a l IH]; intros [|b m]; cbn; try done. rewrite (Z.compare_antisym a b). destruct (a ?= b); cbn; [apply IH|done|done]. Qed.
Lemma name_cmp_trans l : forall m n, name_cmp l m = Lt -> name_cmp m n = Lt -> name_cmp l n = Lt.
Proof.
  induction l as [|a l IH]; intros [|b m] [|c n]; cbn; try done.
  destruct (Z.compare_spec a b), (Z.compare_spec b c), (Z.compare_spec a c); subst; try done; try lia. apply IH.
Qed.

Section sorted.
Context (ms : members_list).
Implicit Types (i j k : nat).
Local Abbreviation N := (name_at ms).

Lemma name_le_cases i j : name_le ms i j <-> name_cmp (N i) (N j) = Lt \/ (N i = N j /\ (i <= j)%nat).
Proof.
  unfold name_le. pose proof (name_cmp_eq (N i) (N j)) as E. destruct (name_cmp (N i) (N j)).
  - split; [intros H; right; split; [by apply E|done]|]. intros [?|[_ ?]]; done.
  - split; [by left|done].
  - split; [done|]. intros [?|[H _]]; [done|]. by apply E in H.
Qed.
#[local] Instance name_le_total : Total (name_le ms).
Proof.
  intros i j. rewrite !name_le_cases, (name_cmp_flip (N i)). pose proof (name_cmp_eq (N i) (N j)) as E.
  destruct (name_cmp (N i) (N j)) eqn:Hc; cbn; [|tauto|tauto]. assert (N i = N j) by (by apply E). destruct (Nat.le_ge_cases i j); [left|right]; right; split; auto.
Qed.
#[local] Instance name_le_trans : Transitive (name_le ms).
Proof.
  intros i j k. rewrite !name_le_cases. intros [H1|[H1 L1]] [H2|[H2 L2]].
  - left. by eapply name_cmp_trans.
  - left. by rewrite <- H2.
  - left. by rewrite H1.
  - right. split; [congruence|lia].
Qed.
Definition order : list nat := merge_sort (name_le ms) (seq 0 (length ms)).
Lemma order_sorted : StronglySorted (name_le ms) order.
Proof. apply StronglySorted_merge_sort; apply _. Qed.
Lemma order_perm : order ≡ₚ seq 0 (length ms).
Proof. apply merge_sort_Permutation. Qed.
Lemma order_NoDup : NoDup order.
Proof. rewrite order_perm. apply NoDup_seq. Qed.
Lemma elem_order i : i ∈ order <-> (i < length ms)%nat.
Proof. rewrite order_perm, elem_of_seq. lia. Qed.

(** ** The groups *)

(** Of a group: it is not empty, its indices ascend and have its name. *)
Definition group_of (name : bytes) (g : list nat) : Prop :=
  g <> [] /\ Forall (fun i => N i = name) g /\ StronglySorted lt g.
Definition group_name (g : list nat) : bytes := from_option N [] (head g).

Lemma chunks_concat l : concat (chunks ms l) = l.
Proof.
  induction l as [|i l IH]; [done|]. cbn [chunks]. destruct (chunks ms l) as [|[|j g] gs]; cbn in *; [by rewrite IH|by rewrite IH|].
  case_bool_decide; cbn; by rewrite IH.
Qed.
Lemma chunks_groups l : NoDup l -> StronglySorted (name_le ms) l -> Forall (fun g => group_of (group_name g) g) (chunks ms l).
Proof.
  induction l as [|i l IH]; intros Hn Hs; [constructor|]. apply NoDup_cons in Hn as [Hi Hn]. apply StronglySorted_inv in Hs as [Hs Hle].
  specialize (IH Hn Hs). pose proof (chunks_concat l) as Hc. cbn [chunks].
  assert (forall gs, Forall (fun g => group_of (group_name g) g) gs -> Forall (fun g => group_of (group_name g) g) ([i] :: gs)) as Hnew.
  { intros gs H. constructor; [|done]. split; [done|]. split; [by repeat constructor|by repeat constructor]. }
  destruct (chunks ms l) as [|[|j g] gs]; [by apply Hnew|by apply Hnew|]. case_bool_decide as E; [|by apply Hnew].
  apply Forall_cons in IH as [(H1 & H2 & H3) IH]. constructor; [|done]. cbn [group_name head from_option] in *. split; [done|].
  split; [constructor; [done|]; by rewrite E|]. constructor; [done|]. rewrite Forall_forall in Hle, H2 |- *. intros k Hk.
  assert (k ∈ l) as Hkl by (rewrite <- Hc; cbn [concat]; apply elem_of_app; by left). specialize (Hle k Hkl). specialize (H2 k Hk).
  apply name_le_cases in Hle as [Hlt|[_ Hle]].
  - exfalso. rewrite E, H2 in Hlt. pose proof (proj2 (name_cmp_eq (N j) (N j)) eq_refl). congruence.
  - assert (i <> k) by (intros ->; done). lia.
Qed.
Lemma chunks_names l : NoDup l -> StronglySorted (name_le ms) l -> NoDup (group_name <$> chunks ms l).
Proof.
  induction l as [|i l IH]; intros Hn Hs; [constructor|]. pose proof Hn as [Hi Hnl]%NoDup_cons. pose proof Hs as [Hsl Hle]%StronglySorted_inv.
  specialize (IH Hnl Hsl). pose proof (chunks_concat l) as Hc. pose proof (chunks_groups l Hnl Hsl) as Hg. cbn [chunks].
  destruct (chunks ms l) as [|[|j g] gs] eqn:Hch.
  - cbn. apply NoDup_singleton.
  - apply Forall_cons in Hg as [(Hg & _) _]. done.
  - case_bool_decide as E; rewrite !fmap_cons in *; cbn [group_name head from_option] in *; [by rewrite E|].
    constructor; [|done]. intros Hin. apply elem_of_cons in Hin as [Hin|Hin]; [done|].
    apply list_elem_of_fmap in Hin as (g' & Hname & Hg'). rewrite Forall_forall in Hg.
    destruct (Hg g' ltac:(by right)) as (Hne & Hall & _). destruct g' as [|k g']; [done|]. cbn [group_name head from_option] in Hname.
    assert (k ∈ l) as Hk. { rewrite <- Hc. cbn [concat]. apply elem_of_app. right. apply list_elem_of_In, in_concat. exists (k :: g'). split; [by apply list_elem_of_In|by left]. }
    assert (l = j :: g ++ concat gs) as El by (by rewrite <- Hc). 
    assert (name_le ms j k) as Hjk.
    { rewrite El in Hsl, Hk. apply StronglySorted_inv in Hsl as [_ Hjl]. rewrite Forall_forall in Hjl.
      apply elem_of_cons in Hk as [->|Hk]; [|by apply Hjl]. apply name_le_cases. by right. }
    rewrite Forall_forall in Hle. assert (name_le ms i j) as Hij by (apply Hle; rewrite El; by left).
    apply name_le_cases in Hij as [Hij|[? _]]; [|done]. apply name_le_cases in Hjk as [Hjk|[Hjk _]].
    + rewrite Hname in Hij. rewrite (name_cmp_flip (N j)) in Hij. by rewrite Hjk in Hij.
    + by rewrite Hname, Hjk in *.
Qed.

Local Abbreviation groups := (chunks ms order).

Lemma group_spec g : g ∈ groups -> group_of (group_name g) g.
Proof. pose proof (chunks_groups order order_NoDup order_sorted) as H. rewrite Forall_forall in H. apply H. Qed.
Lemma in_group k : (k < length ms)%nat -> exists g, g ∈ groups /\ k ∈ g.
Proof.
  intros Hk%elem_order. rewrite <- (chunks_concat order) in Hk. apply list_elem_of_In, in_concat in Hk as (g & Hg & Hk).
  exists g. split; by apply list_elem_of_In.
Qed.
Lemma group_elem g k : g ∈ groups -> k ∈ g -> (k < length ms)%nat /\ N k = group_name g.
Proof.
  intros Hg Hk. split.
  - apply elem_order. rewrite <- (chunks_concat order). apply list_elem_of_In, in_concat. exists g. split; by apply list_elem_of_In.
  - destruct (group_spec g Hg) as (_ & H & _). rewrite Forall_forall in H. by apply H.
Qed.
Lemma group_all g k : g ∈ groups -> (k < length ms)%nat -> N k = group_name g -> k ∈ g.
Proof.
  intros Hg Hk E. destruct (in_group k Hk) as (g' & Hg' & Hin). destruct (group_elem g' k Hg' Hin) as [_ E'].
  pose proof (chunks_names order order_NoDup order_sorted) as Hn.
  apply list_elem_of_lookup in Hg as [i Hi], Hg' as [i' Hi'].
  assert (i = i') as ->.
  { apply (NoDup_lookup _ _ _ (group_name g) Hn); rewrite list_lookup_fmap; [by rewrite Hi|rewrite Hi'; cbn; congruence]. }
  congruence.
Qed.
End sorted.

(** ** What the groups change *)

Lemma after_head (g : list nat) a i : StronglySorted lt (a :: g) -> i ∈ g -> (a < i)%nat.
Proof. intros [_ H]%StronglySorted_inv Hi. rewrite Forall_forall in H. by apply H. Qed.
Lemma ascending_last (g : list nat) b i : StronglySorted lt g -> last g = Some b -> i ∈ g -> (i <= b)%nat.
Proof.
  induction g as [|a g IH]; intros Hs Hl Hi; [by apply not_elem_of_nil in Hi|]. apply elem_of_cons in Hi as [->|Hi].
  - destruct g as [|c g]; [by injection Hl as ->|]. rewrite last_cons_cons in Hl. pose proof (after_head _ _ b Hs ltac:(by apply last_Some_elem_of)). lia.
  - pose proof Hs as [Hs' _]%StronglySorted_inv. destruct g as [|c g]; [by apply not_elem_of_nil in Hi|]. rewrite last_cons_cons in Hl. by apply IH.
Qed.

(** A group is taken to its ends. *)
Lemma group_ends (g : list nat) : g <> [] -> exists a b, head g = Some a /\ last g = Some b /\ a ∈ g /\ b ∈ g.
Proof.
  intros Hne. destruct g as [|a g]; [done|]. destruct (last (a :: g)) as [b|] eqn:Hl; [|by apply last_None in Hl].
  exists a, b. split_and!; [done|done|by left|by apply last_Some_elem_of].
Qed.
Definition pair_of (g : list nat) : list (nat * nat) :=
  match head g, last g with Some a, Some b => if (a =? b)%nat then [] else [(a, b)] | _, _ => [] end.
Definition lower (keep : list bool) (l : list nat) : list bool := fold_left (fun keep later => <[later := false]> keep) l keep.

Lemma group_step_spec g keep repeats : g <> [] -> StronglySorted lt g ->
  group_step (keep, repeats) g = (lower keep (List.tl g), repeats ++ pair_of g).
Proof.
  intros Hne Hs. unfold group_step, pair_of. destruct (group_ends g Hne) as (a & b & Ha & Hb & _). rewrite Ha, Hb. cbn [fst snd].
  destruct (Nat.eqb_spec a b) as [->|]; [|done]. rewrite app_nil_r. destruct g as [|c g]; [done|]. injection Ha as ->. cbn [List.tl].
  destruct g as [|c g]; [done|]. exfalso. rewrite last_cons_cons in Hb. pose proof (after_head _ _ b Hs ltac:(by apply last_Some_elem_of)). lia.
Qed.
Lemma groups_fold gs : Forall (fun g => g <> [] /\ StronglySorted lt g) gs -> forall keep repeats,
  fold_left group_step gs (keep, repeats) = (lower keep (concat (List.map (@List.tl nat) gs)), repeats ++ concat (List.map pair_of gs)).
Proof.
  induction 1 as [|g gs [Hne Hs] _ IH]; intros keep repeats; cbn [fold_left List.map concat]; [by rewrite app_nil_r|].
  rewrite group_step_spec, IH by done. unfold lower. by rewrite fold_left_app, app_assoc.
Qed.
Lemma lower_lookup l : forall keep i, (i < length keep)%nat -> lower keep l !! i = if decide (i ∈ l) then Some false else keep !! i.
Proof.
  induction l as [|j l IH]; intros keep i Hi; [by rewrite decide_False by (by apply not_elem_of_nil)|].
  change (lower keep (j :: l)) with (lower (<[j := false]> keep) l). rewrite IH by (by rewrite length_insert).
  destruct (decide (i ∈ l)) as [Hin|Hin]; [by rewrite decide_True by (by right)|]. destruct (decide (i = j)) as [->|Hne].
  - rewrite decide_True by (by left). by apply list_lookup_insert_eq.
  - rewrite decide_False by (by intros [?|?]%elem_of_cons). by rewrite list_lookup_insert_ne.
Qed.
Lemma length_lower l : forall keep, length (lower keep l) = length keep.
Proof. induction l as [|j l IH]; intros keep; [done|]. change (lower keep (j :: l)) with (lower (<[j := false]> keep) l). by rewrite IH, length_insert. Qed.

(** The values that move. *)
Lemma swap_other ms a b i : i <> a -> i <> b -> swap_values ms (a, b) !! i = ms !! i.
Proof.
  intros Ha Hb. unfold swap_values. destruct (ms !! a) as [[n v]|], (ms !! b) as [[n' v']|]; try done. destruct (a <? b)%nat; [|done].
  by rewrite !list_lookup_insert_ne.
Qed.
Lemma swap_first ms a b m m' : ms !! a = Some m -> ms !! b = Some m' -> (a < b)%nat -> swap_values ms (a, b) !! a = Some (m.1, m'.2).
Proof.
  intros Ha Hb Hlt. unfold swap_values. rewrite Ha, Hb, (proj2 (Nat.ltb_lt _ _)) by done. apply list_lookup_insert_eq.
  rewrite length_insert. by eapply lookup_lt_Some.
Qed.
Lemma length_swaps repeats : forall ms, length (fold_left swap_values repeats ms) = length ms.
Proof.
  induction repeats as [|[a b] repeats IH]; intros ms; [done|]. cbn [fold_left]. rewrite IH. unfold swap_values.
  destruct (ms !! a), (ms !! b); try done. destruct (a <? b)%nat; [|done]. by rewrite !length_insert.
Qed.
Lemma swaps_other gs i : (forall g, g ∈ gs -> i ∉ g) -> forall ms, fold_left swap_values (concat (List.map pair_of gs)) ms !! i = ms !! i.
Proof.
  induction gs as [|g gs IH]; intros Hi ms; [done|]. cbn [List.map concat]. rewrite fold_left_app, IH by (intros g' Hg'; apply Hi; by right).
  assert (i ∉ g) as Hg by (apply Hi; by left). destruct g as [|c g]; [done|]. destruct (group_ends (c :: g)) as (a & b & Ha & Hb & Hain & Hbin); [done|].
  unfold pair_of. rewrite Ha, Hb. destruct (a =? b)%nat; [done|]. cbn [fold_left]. apply swap_other; by intros ->.
Qed.
Lemma swaps_first gs : NoDup (concat gs) -> Forall (fun g => StronglySorted lt g) gs -> forall ms g a b m m', g ∈ gs ->
  head g = Some a -> last g = Some b -> ms !! a = Some m -> ms !! b = Some m' ->
  fold_left swap_values (concat (List.map pair_of gs)) ms !! a = Some (m.1, m'.2).
Proof.
  induction gs as [|g0 gs IH]; intros Hn Hall ms g a b m m' Hg Ha Hb Hm Hm'; [by apply not_elem_of_nil in Hg|].
  cbn [concat] in Hn. apply NoDup_app in Hn as (_ & Hdis & Hn). apply Forall_cons in Hall as [Hs Hall]. cbn [List.map concat].
  assert (forall g x, g ∈ gs -> x ∈ g -> x ∉ g0) as Hother.
  { intros g' x Hg' Hx Hx0. apply (Hdis x Hx0). apply list_elem_of_In, in_concat. exists g'. split; by apply list_elem_of_In. }
  assert (a ∈ g) as Hain by (destruct g; [done|]; injection Ha as ->; by left).
  assert (b ∈ g) as Hbin by (by apply last_Some_elem_of).
  rewrite fold_left_app. apply elem_of_cons in Hg as [->|Hg].
  - rewrite swaps_other by (intros g' Hg' Hx; by apply (Hother g' a Hg' Hx)). unfold pair_of. rewrite Ha, Hb.
    destruct (Nat.eqb_spec a b) as [->|Hne]; cbn [fold_left]; [rewrite Hm in Hm'; injection Hm' as ->; rewrite Hm; by destruct m'|].
    apply (swap_first _ _ _ m m'); try done. pose proof (ascending_last _ _ _ Hs Hb Hain). lia.
  - apply (IH Hn Hall _ g a b); try done.
    + destruct g0 as [|c g0]; [done|]. destruct (group_ends (c :: g0)) as (a0 & b0 & Ha0 & Hb0 & Hi0 & Hj0); [done|]. unfold pair_of. rewrite Ha0, Hb0.
      destruct (a0 =? b0)%nat; [done|]. cbn [fold_left]. rewrite swap_other; [done|intros ->; by apply (Hother _ _ Hg Hain)..].
    + destruct g0 as [|c g0]; [done|]. destruct (group_ends (c :: g0)) as (a0 & b0 & Ha0 & Hb0 & Hi0 & Hj0); [done|]. unfold pair_of. rewrite Ha0, Hb0.
      destruct (a0 =? b0)%nat; [done|]. cbn [fold_left]. rewrite swap_other; [done|intros ->; by apply (Hother _ _ Hg Hbin)..].
Qed.

(** ** The sort *)

Lemma latest_at ms : forall b m, ms !! b = Some m -> (forall k, (b < k < length ms)%nat -> name_at ms k <> m.1) -> latest ms m.1 = m.2.
Proof.
  induction ms as [|m' ms IH] using rev_ind; intros b m Hb Hlast; [done|]. rewrite latest_app. rewrite length_app in Hlast. cbn [length] in Hlast.
  destruct (decide (b = length ms)) as [->|Hne].
  - rewrite list_lookup_middle in Hb by done. injection Hb as <-. by rewrite bool_decide_eq_true_2.
  - pose proof (lookup_lt_Some _ _ _ Hb) as Hlt. rewrite length_app in Hlt. cbn [length] in Hlt. rewrite lookup_app_l in Hb by lia.
    rewrite bool_decide_eq_false_2.
    + apply (IH b); [done|]. intros k Hk. rewrite <- (name_at_app ms [m']) by lia. apply Hlast. lia.
    + intros E. apply (Hlast (length ms)); [lia|]. rewrite <- E. apply name_at_lookup. by rewrite list_lookup_middle.
Qed.
Lemma select_filter (l : members_list) : forall (keep : list bool) (P : nat -> Prop) `{!forall i, Decision (P i)} (f : nat -> bytes * Value) s,
  length keep = length l ->
  (forall i, (i < length l)%nat -> keep !! i = Some (bool_decide (P (s + i)%nat))) ->
  (forall i, (i < length l)%nat -> P (s + i)%nat -> l !! i = Some (f (s + i)%nat)) ->
  (zip l keep ≫= (fun '(member, kept) => if (kept : bool) then [member] else [])) = f <$> filter P (seq s (length l)).
Proof.
  induction l as [|m l IH]; intros keep P HP f s Hlen Hk Hf; [by destruct keep|]. destruct keep as [|k keep]; [done|].
  cbn [length seq] in *. rewrite filter_cons. change (zip (m :: l) (k :: keep)) with ((m, k) :: zip l keep). cbn [mbind list_bind].
  pose proof (Hk 0%nat ltac:(lia)) as H0. cbn in H0. rewrite Nat.add_0_r in H0. injection H0 as ->.
  assert ((zip l keep ≫= (fun '(member, kept) => if (kept : bool) then [member] else [])) = f <$> filter P (seq (S s) (length l))) as E.
  { apply (IH keep P HP f (S s)); [lia|intros i Hi|intros i Hi Hp].
    - specialize (Hk (S i) ltac:(lia)). rewrite Nat.add_succ_r in Hk. done.
    - specialize (Hf (S i) ltac:(lia)). rewrite Nat.add_succ_r in Hf. by apply Hf. }
  destruct (decide (P s)) as [Hp|Hp].
  - rewrite bool_decide_eq_true_2 by done. specialize (Hf 0%nat ltac:(lia)). rewrite Nat.add_0_r in Hf. specialize (Hf Hp). injection Hf as ->.
    cbn [app]. rewrite fmap_cons. by f_equal.
  - by rewrite bool_decide_eq_false_2.
Qed.

Section result.
Context (ms : members_list).
Let gs := chunks ms (order ms).

Lemma gs_ascending : Forall (fun g => g <> [] /\ StronglySorted lt g) gs.
Proof. apply Forall_forall. intros g Hg. destruct (group_spec ms g Hg) as (? & _ & ?). done. Qed.
Lemma gs_NoDup : NoDup (concat gs).
Proof. unfold gs. rewrite chunks_concat. apply order_NoDup. Qed.
(** The ends of a group are the first and the last member of its name. *)
Lemma group_first g a i : g ∈ gs -> head g = Some a -> (i < length ms)%nat -> name_at ms i = name_at ms a -> (a <= i)%nat.
Proof.
  intros Hg Ha Hi E. pose proof (group_spec ms g Hg) as (_ & _ & Hs). destruct g as [|c g]; [done|]. injection Ha as ->.
  assert (i ∈ a :: g) as Hin. { apply (group_all ms _ _ Hg Hi). rewrite E. apply (group_elem ms (a :: g) a Hg). by left. }
  apply elem_of_cons in Hin as [->|Hin]; [done|]. pose proof (after_head _ _ _ Hs Hin). lia.
Qed.
Lemma group_last g b i : g ∈ gs -> last g = Some b -> (i < length ms)%nat -> name_at ms i = name_at ms b -> (i <= b)%nat.
Proof.
  intros Hg Hb Hi E. pose proof (group_spec ms g Hg) as (_ & _ & Hs). apply (ascending_last _ _ _ Hs Hb).
  apply (group_all ms _ _ Hg Hi). rewrite E. apply (group_elem ms g b Hg). by apply last_Some_elem_of.
Qed.
Lemma kept_first i : (i < length ms)%nat -> i ∈ concat (List.map (@List.tl nat) gs) <-> ~ is_first ms i.
Proof.
  intros Hi. split.
  - intros (tl & Htl & Hin)%list_elem_of_In%in_concat. apply in_map_iff in Htl as (g & <- & Hg%list_elem_of_In). apply list_elem_of_In in Hin.
    destruct g as [|a g]; [by apply not_elem_of_nil in Hin|]. cbn [List.tl] in Hin. intros Hf.
    pose proof (group_spec ms _ Hg) as (_ & _ & Hs). apply (Hf a (after_head _ _ _ Hs Hin)).
    destruct (group_elem ms _ a Hg ltac:(by left)) as [_ ->]. by destruct (group_elem ms _ i Hg ltac:(by right)) as [_ ->].
  - intros Hnf. destruct (in_group ms i Hi) as (g & Hg & Hin). apply list_elem_of_In, in_concat. exists (List.tl g). split; [apply in_map; by apply list_elem_of_In|].
    apply list_elem_of_In. destruct g as [|a g]; [by apply not_elem_of_nil in Hin|]. cbn [List.tl]. apply elem_of_cons in Hin as [->|Hin]; [|done].
    exfalso. apply Hnf. intros j Hj E. pose proof (group_first _ a j Hg eq_refl ltac:(lia) E). lia.
Qed.
Lemma merge_sorted_merged : merge_sorted ms = merged ms.
Proof.
  unfold merge_sorted. change (chunks ms (merge_sort (name_le ms) (seq 0 (length ms)))) with gs.
  rewrite (groups_fold gs gs_ascending). cbn [app]. unfold merged, firsts.
  rewrite <- (length_swaps (concat (List.map pair_of gs)) ms). apply select_filter.
  - by rewrite length_lower, length_replicate, length_swaps.
  - rewrite length_swaps. intros i Hi. rewrite lower_lookup by (by rewrite length_replicate). cbn [Nat.add].
    destruct (decide (i ∈ concat (List.map (@List.tl nat) gs))) as [Hin|Hin]; rewrite (kept_first i Hi) in Hin.
    + by rewrite bool_decide_eq_false_2.
    + rewrite lookup_replicate_2 by done. rewrite bool_decide_eq_true_2; [done|]. destruct (decide (is_first ms i)); tauto.
  - rewrite length_swaps. intros i Hi Hf. cbn [Nat.add] in *. destruct (in_group ms i Hi) as (g & Hg & Hin).
    destruct (group_ends g) as (a & b & Ha & Hb & Hain & Hbin); [by destruct (group_spec ms g Hg)|].
    destruct (group_elem ms g a Hg Hain) as [Hla Ea], (group_elem ms g b Hg Hbin) as [Hlb Eb], (group_elem ms g i Hg Hin) as [_ Ei].
    assert (a = i) as ->.
    { pose proof (group_first g a i Hg Ha Hi ltac:(congruence)). destruct (decide (a = i)) as [|Hne]; [done|]. exfalso. apply (Hf a); [lia|congruence]. }
    destruct (lookup_lt_is_Some_2 ms i Hi) as [m Hm]. destruct (lookup_lt_is_Some_2 ms b Hlb) as [m' Hm'].
    rewrite (swaps_first gs gs_NoDup) with (g := g) (b := b) (m := m) (m' := m'); try done.
    2: { eapply Forall_impl; [apply gs_ascending|]. by intros ? []. }
    assert (name_at ms i = m'.1) as -> by (rewrite <- (name_at_lookup ms b m' Hm'); congruence).
    assert (m.1 = m'.1) as -> by (rewrite <- (name_at_lookup ms b m' Hm'), <- (name_at_lookup ms i m Hm); congruence).
    do 2 f_equal. symmetry. apply (latest_at ms b m' Hm'). intros k [Hk1 Hk2] E.
    rewrite <- (name_at_lookup ms b m' Hm') in E. pose proof (group_last g b k Hg Hb Hk2 E). lia.
Qed.
End result.

Lemma merged_distinct ms : NoDup ms.*1 -> merged ms = ms.
Proof.
  intros Hn. rewrite <- merge_scanned_merged. unfold merge_scanned. induction ms as [|[name v] ms IH] using rev_ind; [done|].
  rewrite fmap_app in Hn. apply NoDup_app in Hn as (Hn & Hdis & _). rewrite fold_left_app, IH by done. cbn [fold_left].
  rewrite merge_member_spec by done. rewrite decide_False; [done|]. intros Hin. apply (Hdis _ Hin). cbn. by left.
Qed.

Lemma merge_repeated_merged ms : merge_repeated ms = merged ms.
Proof. unfold merge_repeated. destruct (length ms <=? SCANNED_MEMBERS)%nat; [apply merge_scanned_merged|apply merge_sorted_merged]. Qed.

(** C18. The two ways to merge repeated names are one: for any members, the sort of the
    indices gives what the scan gives, and both keep the first member of each name, in
    its place, with the value of its last member. *)
Theorem merge_equivalent ms :
  merge_sorted ms = merge_scanned ms /\ merge_repeated ms = merged ms /\
  NoDup (merge_repeated ms).*1 /\ (NoDup ms.*1 -> merge_repeated ms = ms).
Proof.
  rewrite merge_repeated_merged. split; [by rewrite merge_sorted_merged, merge_scanned_merged|]. split; [done|].
  split; [rewrite merged_names; apply NoDup_firsts|]. apply merged_distinct.
Qed.
