(* ===== verification/JsonGrammar.v ===== *)
(** * The grammar the JSON parser decides

    RFC 8259 as relations between a text and its value: the numbers and the strings, and
    the values with the nesting they need.  [parse_exact] states that the parser returns
    a value exactly when the grammar has it for the whole text within the limits. *)
From S2P Require Import Prelude Scalar Utf8 JsonFloat JsonValue JsonParse.

(** ** The grammar *)

Definition ws (text : bytes) : Prop := Forall (fun b => is_ws b = true) text.

(** [number = [ minus ] int [ frac ] [ exp ]], and whether it has one of the last two. *)
Inductive frac_text : bytes -> bool -> Prop :=
| NoFrac : frac_text [] false
| Frac ds : digits_only ds -> ds <> [] -> frac_text (46 :: ds) true.
Inductive exp_text : bytes -> bool -> Prop :=
| NoExp : exp_text [] false
| Exp e sign ds : e = 101 \/ e = 69 -> sign = [] \/ sign = [43] \/ sign = [45] -> digits_only ds -> ds <> [] ->
    exp_text (e :: sign ++ ds) true.
Inductive number_text : bytes -> bool -> Prop :=
| Number neg whole frac fractional exp exponential : whole_part whole -> frac_text frac fractional -> exp_text exp exponential ->
    number_text (sign_text neg ++ whole ++ frac ++ exp) (fractional || exponential).

Definition hex_unit (digits : bytes) (unit : Z) : Prop :=
  exists a b c d, mapM hex_digit digits = Some [a; b; c; d] /\ unit = a * 4096 + b * 256 + c * 16 + d.
Definition surrogate (unit : Z) : Prop := 0xd800 <= unit <= 0xdfff.

(** [char], and what it stands for: itself, the octet of an escape, or the UTF-8 of the
    code point of one or two [\u] escapes. *)
Inductive chars : bytes -> bytes -> Prop :=
| CharsEnd : chars [] []
| Unescaped b text out : 32 <= b -> b <> 34 -> b <> 92 -> chars text out -> chars (b :: text) (b :: out)
| Escaped k b text out : simple_escape k = Some b -> chars text out -> chars (92 :: k :: text) (b :: out)
| Unicode digits unit text out : hex_unit digits unit -> ~ surrogate unit -> chars text out ->
    chars (92 :: 117 :: digits ++ text) (encode_char unit ++ out)
| Pair digits high digits' low text out : hex_unit digits high -> hex_unit digits' low ->
    0xd800 <= high <= 0xdbff -> 0xdc00 <= low <= 0xdfff -> chars text out ->
    chars (92 :: 117 :: digits ++ 92 :: 117 :: digits' ++ text)
          (encode_char (0x10000 + (high - 0xd800) * 1024 + (low - 0xdc00)) ++ out).
Definition string_text (text out : bytes) : Prop :=
  exists body, text = 34 :: body ++ [34] /\ chars body out /\ from_utf8 out = true.

Section grammar.
Context (big_integers : BigIntegers).

(** A value with at most so many containers one inside another. *)
Inductive json : nat -> bytes -> Value -> Prop :=
| JTrue n : json n (bs "true") (Bool true)
| JFalse n : json n (bs "false") (Bool false)
| JNull n : json n (bs "null") Null
| JNumber n text is_float v : number_text text is_float -> number_value big_integers text is_float = Some v -> json n text v
| JString n text out : string_text text out -> json n text (Str out)
| JNoItems n w : ws w -> json (S n) (91 :: w ++ [93]) (Array [])
| JArray n text items : elements n text items -> json (S n) (91 :: text ++ [93]) (Array items)
| JNoMembers n w : ws w -> json (S n) (123 :: w ++ [125]) (Object [])
| JObject n text found : members n text found -> json (S n) (123 :: text ++ [125]) (Object (merge_repeated found))
with elements : nat -> bytes -> list Value -> Prop :=
| Item n w text w' v : ws w -> json n text v -> ws w' -> elements n (w ++ text ++ w') [v]
| Items n w text w' v texts vs : ws w -> json n text v -> ws w' -> elements n texts vs ->
    elements n (w ++ text ++ w' ++ 44 :: texts) (v :: vs)
with members : nat -> bytes -> list (bytes * Value) -> Prop :=
| Member n w name key w1 w2 text v w' : ws w -> string_text name key -> ws w1 -> ws w2 -> json n text v -> ws w' ->
    members n (w ++ name ++ w1 ++ 58 :: w2 ++ text ++ w') [(key, v)]
| Members n w name key w1 w2 text v w' texts ms : ws w -> string_text name key -> ws w1 -> ws w2 -> json n text v -> ws w' ->
    members n texts ms -> members n (w ++ name ++ w1 ++ 58 :: w2 ++ text ++ w' ++ 44 :: texts) ((key, v) :: ms).
End grammar.

Scheme json_rule := Induction for json Sort Prop
with elements_rule := Induction for elements Sort Prop
with members_rule := Induction for members Sort Prop.
Combined Scheme grammar_rule from json_rule, elements_rule, members_rule.

(** ** The cursor *)

Section cursor.
Context (input : bytes).
Implicit Types (self : Parser) (text rest : bytes).

Lemma left_advance self n : left input (advance self n) = drop n (left input self).
Proof. unfold left. cbn [advance at_]. by rewrite drop_drop. Qed.
Lemma left_app self text rest : left input self = text ++ rest -> left input (advance self (length text)) = rest.
Proof. intros H. rewrite left_advance, H. apply drop_app_length. Qed.
Lemma peek_left self : peek input self = head (left input self).
Proof. unfold peek, left. rewrite head_lookup, lookup_drop. by rewrite Nat.add_0_r. Qed.
Lemma advance_advance self n m : advance (advance self n) m = advance self (n + m).
Proof. unfold advance. cbn. f_equal. lia. Qed.
Lemma advance_0 self : advance self 0 = self.
Proof. destruct self. unfold advance. cbn. f_equal. lia. Qed.
Lemma depth_advance self n : depth (advance self n) = depth self.
Proof. done. Qed.

(** A step taken over a text. *)
Definition over self text self' : Prop :=
  left input self = text ++ left input self' /\ self' = advance self (length text).

Lemma over_refl self : over self [] self.
Proof. split; [done|]. by rewrite advance_0. Qed.
Lemma over_trans self text self' text' self'' : over self text self' -> over self' text' self'' -> over self (text ++ text') self''.
Proof.
  intros [E1 H1] [E2 H2]. split; [by rewrite E1, E2, app_assoc|]. by rewrite H2, H1, advance_advance, length_app.
Qed.
Lemma over_app self text rest : left input self = text ++ rest -> over self text (advance self (length text)).
Proof. intros H. split; [|done]. by rewrite (left_app _ _ _ H). Qed.
Lemma over_peek self b : peek input self = Some b -> over self [b] (advance self 1).
Proof. rewrite peek_left. intros H. destruct (left input self) as [|c rest] eqn:E; [done|]. injection H as ->. by apply (over_app _ [b] rest). Qed.
Lemma over_depth self text self' : over self text self' -> depth self' = depth self.
Proof. by intros [_ ->]. Qed.
Lemma over_at self text self' : over self text self' -> at_ self' = (at_ self + length text)%nat.
Proof. by intros [_ ->]. Qed.

Lemma skip_ws_over self : exists w, ws w /\ over self w (skip_ws input self).
Proof.
  exists (take (scan (left input self) is_ws) (left input self)). split; [apply scan_take|].
  pose proof (scan_le (left input self) is_ws) as Hle.
  replace (skip_ws input self) with (advance self (length (take (scan (left input self) is_ws) (left input self))));
    [|by rewrite length_take, Nat.min_l].
  apply (over_app _ _ (drop (scan (left input self) is_ws) (left input self))). by rewrite take_drop.
Qed.

Lemma no_ws_skipped self : match left input (skip_ws input self) with [] => True | b :: _ => is_ws b = false end.
Proof.
  unfold skip_ws. rewrite left_advance. destruct (drop _ (left input self)) as [|b rest] eqn:E; [done|].
  apply (scan_stop (left input self)). rewrite <- (Nat.add_0_r (scan _ _)), <- lookup_drop, E. done.
Qed.

(** What stands after white space, when it is passed over whole. *)
Definition no_ws (rest : bytes) : Prop := match rest with [] => True | b :: _ => is_ws b = false end.
Lemma skip_ws_run self w rest : left input self = w ++ rest -> ws w -> no_ws rest -> skip_ws input self = advance self (length w).
Proof. intros E Hw Hr. unfold skip_ws. by rewrite E, scan_run. Qed.
Lemma skip_ws_twice self : skip_ws input (skip_ws input self) = skip_ws input self.
Proof.
  rewrite (skip_ws_run (skip_ws input self) [] (left input (skip_ws input self))); [apply advance_0|done|constructor|apply no_ws_skipped].
Qed.
End cursor.

(** ** Numbers *)

Section numbers.
Context (input : bytes).
Implicit Types (self : Parser) (from : nat).

Definition no_digit (rest : bytes) : Prop := match rest with [] => True | b :: _ => is_digit b = false end.

Lemma lookup_head from : input !! from = head (drop from input).
Proof. by rewrite head_lookup, lookup_drop, Nat.add_0_r. Qed.
Lemma drop_app_eq from text rest : drop from input = text ++ rest -> drop (from + length text) input = rest.
Proof. intros H. rewrite <- drop_drop, H. apply drop_app_length. Qed.
Lemma drop_lookup_cons from b : input !! from = Some b -> drop from input = b :: drop (from + 1) input.
Proof. intros H. by rewrite (drop_S _ _ _ H), Nat.add_1_r. Qed.
Lemma is_digit_range b : is_digit b = true <-> 48 <= b <= 57.
Proof. unfold is_digit. rewrite andb_true_iff, !Z.leb_le. lia. Qed.
Lemma digits_only_run ds : digits_only ds <-> Forall (fun b => is_digit b = true) ds.
Proof. unfold digits_only. apply Forall_iff. intros b. symmetry. apply is_digit_range. Qed.

Lemma digits_end_run from : exists ds, digits_only ds /\ drop from input = ds ++ drop (digits_end input from) input /\
  digits_end input from = (from + length ds)%nat.
Proof.
  unfold digits_end. set (n := scan _ _). exists (take n (drop from input)). split; [apply digits_only_run, scan_take|].
  rewrite length_take, Nat.min_l by apply scan_le. split; [|done]. by rewrite <- drop_drop, take_drop.
Qed.
Lemma digits_end_nonempty from : digit_at input from = true -> exists ds, digits_only ds /\ ds <> [] /\
  drop from input = ds ++ drop (digits_end input from) input /\ digits_end input from = (from + length ds)%nat.
Proof.
  intros H. destruct (digits_end_run from) as (ds & Hds & E & L). exists ds. split_and!; try done. intros ->.
  cbn [length] in L. unfold digits_end in L. unfold digit_at in H. destruct (input !! from) as [b|] eqn:Hb; [|done]. cbn in H.
  rewrite (drop_lookup_cons _ _ Hb), scan_cons, H in L. lia.
Qed.
Lemma digits_end_app from ds rest : digits_only ds -> drop from input = ds ++ rest -> no_digit rest ->
  digits_end input from = (from + length ds)%nat.
Proof. intros Hds E Hr. unfold digits_end. rewrite E, scan_run; [done| by apply digits_only_run |done]. Qed.
Lemma digit_at_app from ds rest : digits_only ds -> ds <> [] -> drop from input = ds ++ rest -> digit_at input from = true.
Proof.
  intros Hds Hne E. unfold digit_at. rewrite lookup_head, E. destruct Hds as [|d ds Hd Hds]; [done|].
  by apply is_digit_range.
Qed.

Definition over_from from text from' : Prop := drop from input = text ++ drop from' input /\ from' = (from + length text)%nat.

Lemma whole_sound self from from' : number_whole input self from = Ok from' -> exists text, whole_part text /\ over_from from text from'.
Proof.
  unfold number_whole. destruct (input !! from) as [b|] eqn:Hb; [|done]. destruct (Z.eqb_spec b 48) as [->|Hb0].
  - intros [= <-]. exists [48]. split; [|split; [by apply drop_lookup_cons|done]]. split; [repeat constructor; lia|by left].
  - destruct ((49 <=? b) && (b <=? 57)) eqn:Hd; [|done]. intros [= <-].
    destruct (digits_end_nonempty from) as (ds & Hds & Hne & E & L); [unfold digit_at; rewrite Hb; cbn; apply is_digit_range; apply andb_true_iff in Hd as [?%Z.leb_le ?%Z.leb_le]; lia|].
    exists ds. split; [|done]. split; [done|]. right. rewrite (drop_lookup_cons _ _ Hb) in E. destruct ds as [|d ds]; [done|].
    injection E as -> E. by exists d, ds.
Qed.
Lemma whole_complete self from text rest : whole_part text -> drop from input = text ++ rest -> no_digit rest ->
  number_whole input self from = Ok (from + length text)%nat.
Proof.
  intros [Hd Hw] E Hr. unfold number_whole. rewrite lookup_head, E. destruct Hw as [->|(b & ds & -> & Hb)]; [done|].
  cbn [app head]. rewrite (proj2 (Z.eqb_neq b 48)) by done. pose proof Hd as [Hb' _]%Forall_cons. cbn beta in Hb'.
  rewrite (proj2 (andb_true_iff _ _)) by (rewrite !Z.leb_le; lia). f_equal. by apply (digits_end_app from (b :: ds) rest).
Qed.

Lemma fraction_sound self from from' fractional : number_fraction input self from = Ok (from', fractional) ->
  exists text, frac_text text fractional /\ over_from from text from'.
Proof.
  unfold number_fraction. case_bool_decide as Hp.
  - destruct (digit_at input (from + 1)) eqn:Hd; [|done]. intros [= <- <-].
    destruct (digits_end_nonempty _ Hd) as (ds & Hds & Hne & E & L). exists (46 :: ds). split; [by constructor|].
    split; [by rewrite (drop_lookup_cons _ _ Hp), E|]. rewrite L. cbn [length]. lia.
  - intros [= <- <-]. exists []. split; [constructor|]. split; [done|]. cbn [length]. lia.
Qed.
Lemma fraction_complete self from text rest fractional : frac_text text fractional -> drop from input = text ++ rest ->
  no_digit rest -> head rest <> Some 46 -> number_fraction input self from = Ok ((from + length text)%nat, fractional).
Proof.
  intros Hf E Hr Hp. unfold number_fraction. rewrite lookup_head, E. destruct Hf as [|ds Hds Hne]; cbn [app].
  - rewrite bool_decide_eq_false_2 by done. do 2 f_equal. cbn [length]. lia.
  - rewrite bool_decide_eq_true_2 by done. pose proof (drop_app_eq from [46] _ E) as E'. cbn [length] in E'.
    rewrite (digit_at_app _ _ _ Hds Hne E'), (digits_end_app _ _ _ Hds E' Hr). cbn [length]. do 2 f_equal. lia.
Qed.

Lemma exponent_sound self from from' exponential : number_exponent input self from = Ok (from', exponential) ->
  exists text, exp_text text exponential /\ over_from from text from'.
Proof.
  unfold number_exponent. destruct (bool_decide _ || bool_decide _) eqn:He.
  - assert (exists e, (e = 101 \/ e = 69) /\ input !! from = Some e) as (e & Hee & Hfrom).
    { apply orb_true_iff in He as [He%bool_decide_eq_true|He%bool_decide_eq_true]; eauto. }
    set (signed := bool_decide (input !! (from + 1)%nat = Some 43) || bool_decide (input !! (from + 1)%nat = Some 45)).
    set (start := if signed then _ else _). assert (exists s, (s = [] \/ s = [43] \/ s = [45]) /\ over_from (from + 1) s start) as (s & Hs & Es & Ls).
    { subst start. destruct signed eqn:Hs; subst signed.
      - apply orb_true_iff in Hs as [Hs%bool_decide_eq_true|Hs%bool_decide_eq_true].
        + exists [43]. split; [tauto|]. split; [by apply drop_lookup_cons|done].
        + exists [45]. split; [tauto|]. split; [by apply drop_lookup_cons|done].
      - exists []. split; [by left|]. split; [done|]. cbn [length]. lia. }
    destruct (digit_at input start) eqn:Hd; [|done]. intros [= <- <-].
    destruct (digits_end_nonempty _ Hd) as (ds & Hds & Hne & E & L). exists (e :: s ++ ds). split; [by constructor|].
    split; [by rewrite (drop_lookup_cons _ _ Hfrom), Es, E; cbn [app]; rewrite <- app_assoc|]. rewrite L, Ls. cbn [length]. rewrite length_app. lia.
  - intros [= <- <-]. exists []. split; [constructor|]. split; [done|]. cbn [length]. lia.
Qed.
Definition no_e (rest : bytes) : Prop := head rest <> Some 101 /\ head rest <> Some 69.
Lemma exponent_complete self from text rest exponential : exp_text text exponential -> drop from input = text ++ rest ->
  no_digit rest -> no_e rest -> number_exponent input self from = Ok ((from + length text)%nat, exponential).
Proof.
  intros Hx E Hr [H1 H2]. unfold number_exponent. rewrite (lookup_head from), E. destruct Hx as [|e sign ds He Hs Hds Hne].
  - cbn [app]. rewrite !bool_decide_eq_false_2 by done. do 2 f_equal. cbn [length]. lia.
  - replace (bool_decide _ || bool_decide _) with true by (by destruct He as [-> | ->]).
    pose proof (drop_app_eq from [e] ((sign ++ ds) ++ rest) E) as E'. cbn [length] in E'. rewrite <- app_assoc in E'.
    rewrite (lookup_head (from + 1)), E'. pose proof (drop_app_eq _ _ _ E') as E2.
    assert ((if bool_decide (head (sign ++ ds ++ rest) = Some 43) || bool_decide (head (sign ++ ds ++ rest) = Some 45)
             then (from + 1 + 1)%nat else (from + 1)%nat) = (from + 1 + length sign)%nat) as ->.
    { destruct Hs as [->|[-> | ->]]; [|done|done]. pose proof Hds as Hd. destruct ds as [|d ds]; [done|].
      apply Forall_cons in Hd as [Hd _]. cbn [app head length].
      rewrite !bool_decide_eq_false_2 by (intros [= ->]; lia). cbn [orb]. lia. }
    rewrite (digit_at_app _ _ _ Hds Hne E2), (digits_end_app _ _ _ Hds E2 Hr). cbn [length]. rewrite length_app. do 2 f_equal. lia.
Qed.
End numbers.

Section number.
Context (input : bytes) (big_integers : BigIntegers).
Implicit Types (self : Parser) (from : nat).

Lemma over_from_trans from text from' text' from'' : over_from input from text from' -> over_from input from' text' from'' ->
  over_from input from (text ++ text') from''.
Proof. intros [E ->] [E' ->]. split; [by rewrite E, E', app_assoc|]. rewrite length_app. lia. Qed.
Lemma sign_sound from : exists neg, over_from input from (sign_text neg) (if bool_decide (input !! from = Some 45) then (from + 1)%nat else from).
Proof.
  case_bool_decide as H.
  - exists true. split; [by apply drop_lookup_cons|done].
  - exists false. split; [done|]. cbn [sign_text length]. lia.
Qed.

Lemma number_sound self v self' : number input big_integers self = Ok (v, self') ->
  exists text is_float, number_text text is_float /\ number_value big_integers text is_float = Some v /\ over input self text self'.
Proof.
  unfold number. destruct (sign_sound (at_ self)) as (neg & H0). set (from0 := (if bool_decide _ then _ else _)) in *.
  destruct (number_whole input self from0) as [from1|] eqn:H1; [|done].
  destruct (number_fraction input self from1) as [[from2 fractional]|] eqn:H2; [|done].
  destruct (number_exponent input self from2) as [[from3 exponential]|] eqn:H3; [|done].
  apply whole_sound in H1 as (whole & Hw & H1). apply fraction_sound in H2 as (frac & Hf & H2).
  apply exponent_sound in H3 as (exp & He & H3).
  pose proof (over_from_trans _ _ _ _ _ H0 (over_from_trans _ _ _ _ _ H1 (over_from_trans _ _ _ _ _ H2 H3))) as [E L].
  set (text := sign_text neg ++ whole ++ frac ++ exp) in *.
  replace (take (from3 - at_ self) (drop (at_ self) input)) with text.
  2: { rewrite E, L. replace (at_ self + length text - at_ self)%nat with (length text) by lia. by rewrite take_app_length. }
  destruct (number_value _ text _) as [v'|] eqn:Hv; [|done]. intros [= <- <-].
  exists text, (fractional || exponential). split; [by constructor|]. split; [done|]. split; [done|]. unfold advance, set_at. by rewrite L.
Qed.

(** Nothing after a number is a part of it. *)
Definition no_number (rest : bytes) : Prop := no_digit rest /\ head rest <> Some 46 /\ no_e rest.
Lemma exp_no_point exp exponential rest : exp_text exp exponential -> no_number rest -> no_digit (exp ++ rest) /\ head (exp ++ rest) <> Some 46.
Proof. intros He (Hd & Hp & _). destruct He as [|e sign ds He]; [done|]. cbn. by destruct He as [-> | ->]. Qed.
Lemma frac_no_digit frac fractional rest : frac_text frac fractional -> no_digit rest -> no_digit (frac ++ rest).
Proof. by destruct 1. Qed.

Lemma number_complete self text is_float rest : number_text text is_float -> left input self = text ++ rest -> no_number rest ->
  forall v, number_value big_integers text is_float = Some v -> number input big_integers self = Ok (v, advance self (length text)).
Proof.
  intros Ht E Hr v Hv. unfold left in E. destruct Ht as [neg whole frac fractional exp exponential Hw Hf He]. unfold number.
  set (text := sign_text neg ++ whole ++ frac ++ exp) in *.
  assert ((if bool_decide (input !! at_ self = Some 45) then (at_ self + 1)%nat else at_ self) = (at_ self + length (sign_text neg))%nat) as ->.
  { rewrite lookup_head, E. subst text. destruct neg; cbn [sign_text app head length].
    - by rewrite bool_decide_eq_true_2.
    - rewrite bool_decide_eq_false_2; [lia|]. destruct Hw as [Hd Hw]. destruct whole as [|b whole]; [by destruct Hw as [|(? & ? & ? & ?)]|].
      apply Forall_cons in Hd as [Hd _]. cbn. intros [= ->]. lia. }
  assert (drop (at_ self) input = sign_text neg ++ whole ++ frac ++ exp ++ rest) as E0 by (rewrite E; subst text; by rewrite !app_assoc).
  pose proof (drop_app_eq _ _ _ _ E0) as E1. pose proof (drop_app_eq _ _ _ _ E1) as E2. pose proof (drop_app_eq _ _ _ _ E2) as E3.
  destruct (exp_no_point _ _ _ He Hr) as [Hd Hp]. destruct Hr as (Hrd & Hrp & Hre).
  rewrite (whole_complete _ _ _ _ _ Hw E1) by (by eapply frac_no_digit).
  rewrite (fraction_complete _ _ _ _ _ _ Hf E2) by done. rewrite (exponent_complete _ _ _ _ _ _ He E3) by done.
  assert ((at_ self + length (sign_text neg) + length whole + length frac + length exp)%nat = (at_ self + length text)%nat) as ->
    by (subst text; rewrite !length_app; lia).
  replace (at_ self + length text - at_ self)%nat with (length text) by lia. rewrite E, take_app_length, Hv. done.
Qed.
End number.

(** ** Strings *)

Lemma hex_digit_range b d : hex_digit b = Some d -> 0 <= d < 16.
Proof.
  unfold hex_digit, wrapping_sub, wrapping_add. intros H.
  destruct ((48 <=? b) && (b <=? 57)) eqn:H1.
  { injection H as <-. apply andb_true_iff in H1 as [?%Z.leb_le ?%Z.leb_le]. rewrite Z.mod_small; lia. }
  destruct ((97 <=? b) && (b <=? 102)) eqn:H2.
  { injection H as <-. apply andb_true_iff in H2 as [?%Z.leb_le ?%Z.leb_le]. rewrite (Z.mod_small (b - 97)), Z.mod_small; lia. }
  destruct ((65 <=? b) && (b <=? 70)) eqn:H3; [|done].
  injection H as <-. apply andb_true_iff in H3 as [?%Z.leb_le ?%Z.leb_le]. rewrite (Z.mod_small (b - 65)), Z.mod_small; lia.
Qed.
Lemma hex_step u d : 0 <= u < 4096 -> 0 <= d < 16 -> Z.lor (Z.shiftl u 4 mod 2 ^ 16) d = u * 16 + d.
Proof.
  intros Hu Hd. rewrite Z.shiftl_mul_pow2, Z.mod_small by lia. change (2 ^ 4) with 16.
  rewrite Z.lor_comm. change 16 with (2 ^ 4) at 1. rewrite lor_tag by lia. lia.
Qed.
Definition from_hex (u : Z) (digits : list Z) : Z := fold_left (fun u d => u * 16 + d) digits u.
Lemma hex_unit_spec text u : hex_unit text u <-> exists digits, mapM hex_digit text = Some digits /\ length digits = 4%nat /\ from_hex 0 digits = u.
Proof.
  split.
  - intros (a & b & c & d & H & ->). exists [a; b; c; d]. split; [done|]. split; [done|]. unfold from_hex. cbn. lia.
  - intros (digits & H & L & <-). destruct digits as [|a [|b [|c [|d [|]]]]]; try done. exists a, b, c, d. split; [done|]. unfold from_hex. cbn. lia.
Qed.
Lemma hex_unit_range text u : hex_unit text u -> 0 <= u < 65536.
Proof.
  intros (a & b & c & d & H & ->). assert (Forall (fun d => 0 <= d < 16) [a; b; c; d]) as Hall.
  { apply mapM_Some in H. apply Forall_forall. intros x Hx. apply list_elem_of_lookup in Hx as [i Hi].
    destruct (Forall2_lookup_r _ _ _ _ _ H Hi) as (y & _ & Hy). by apply hex_digit_range in Hy. }
  repeat apply Forall_cons in Hall as [? Hall]. lia.
Qed.
Lemma hex_unit_length text u : hex_unit text u -> length text = 4%nat.
Proof. intros (a & b & c & d & H & _). apply mapM_Some, Forall2_length in H. done. Qed.

Section strings.
Context (input : bytes).
Implicit Types (self : Parser).

Lemma hex_loop_sound n : forall self u u' self', 0 <= u -> (u + 1) * 16 ^ Z.of_nat n <= 65536 -> hex_loop input n self u = Ok (u', self') ->
  exists text digits, mapM hex_digit text = Some digits /\ length digits = n /\ from_hex u digits = u' /\ over input self text self'.
Proof.
  induction n as [|n IH]; intros self u u' self' Hu Hb; cbn [hex_loop].
  - intros [= <- <-]. exists [], []. split_and!; try done. apply over_refl.
  - destruct (peek input self ≫= hex_digit) as [d|] eqn:Hd; [|done]. apply bind_Some in Hd as (b & Hb' & Hd).
    pose proof (hex_digit_range _ _ Hd) as Hr. rewrite Nat2Z.inj_succ, Z.pow_succ_r in Hb by lia.
    pose proof (Z.pow_pos_nonneg 16 (Z.of_nat n) ltac:(lia) ltac:(lia)) as Hp.
    assert (u < 4096) as Hsmall by nia. rewrite hex_step by lia. intros H.
    apply IH in H as (text & digits & Hm & L & F & Ho); [|nia|nia].
    exists (b :: text), (d :: digits). split; [cbn; rewrite Hd; cbn; by rewrite Hm|]. split; [cbn; lia|]. split; [done|].
    apply (over_trans _ _ [b] _ _ _ (over_peek _ _ _ Hb') Ho).
Qed.

Lemma hex_loop_complete text : forall digits self u rest, mapM hex_digit text = Some digits -> left input self = text ++ rest ->
  0 <= u -> (u + 1) * 16 ^ Z.of_nat (length digits) <= 65536 ->
  hex_loop input (length digits) self u = Ok (from_hex u digits, advance self (length text)).
Proof.
  induction text as [|b text IH]; intros digits self u rest Hm E Hu Hb.
  - injection Hm as <-. cbn. by rewrite advance_0.
  - cbn in Hm. destruct (hex_digit b) as [d|] eqn:Hd; [|done]. cbn in Hm. destruct (mapM hex_digit text) as [ds|] eqn:Hds; [|done].
    injection Hm as <-. cbn [length hex_loop]. cbn [length] in Hb. rewrite peek_left, E. cbn [app head mbind option_bind]. rewrite Hd.
    pose proof (hex_digit_range _ _ Hd) as Hr. rewrite Nat2Z.inj_succ, Z.pow_succ_r in Hb by lia.
    pose proof (Z.pow_pos_nonneg 16 (Z.of_nat (length ds)) ltac:(lia) ltac:(lia)) as Hp.
    assert (u < 4096) as Hsmall by nia. rewrite hex_step by lia.
    rewrite (IH ds (advance self 1) (u * 16 + d) rest); [by rewrite advance_advance|done|by apply (left_app input self [b])|nia|nia].
Qed.

Lemma hex4_sound self u self' : hex4 input self = Ok (u, self') -> exists text, hex_unit text u /\ over input self text self'.
Proof.
  intros H. apply hex_loop_sound in H as (text & digits & Hm & L & F & Ho); [|done|by vm_compute].
  exists text. split; [|done]. apply hex_unit_spec. eauto.
Qed.
Lemma hex4_complete self text u rest : hex_unit text u -> left input self = text ++ rest -> hex4 input self = Ok (u, advance self (length text)).
Proof.
  intros (digits & Hm & L & <-)%hex_unit_spec E. unfold hex4. rewrite <- L. apply (hex_loop_complete _ _ _ _ rest); [done..|].
  rewrite L. by vm_compute.
Qed.

(** What an escape stands for after its [\u]. *)
Inductive unicode_text : bytes -> Z -> Prop :=
| OneUnit digits unit : hex_unit digits unit -> ~ surrogate unit -> unicode_text digits unit
| TwoUnits digits high digits' low : hex_unit digits high -> hex_unit digits' low -> 0xd800 <= high <= 0xdbff -> 0xdc00 <= low <= 0xdfff ->
    unicode_text (digits ++ 92 :: 117 :: digits') (0x10000 + (high - 0xd800) * 1024 + (low - 0xdc00)).

Lemma pair_code high low : 0xd800 <= high <= 0xdbff -> 0xdc00 <= low <= 0xdfff ->
  wrapping_add 32 (wrapping_add 32 0x10000 (Z.shiftl (wrapping_sub 16 high 0xd800) 10 mod 2 ^ 32)) (wrapping_sub 16 low 0xdc00)
  = 0x10000 + (high - 0xd800) * 1024 + (low - 0xdc00).
Proof.
  intros Hh Hl. unfold wrapping_add, wrapping_sub. rewrite Z.shiftl_mul_pow2 by lia. rewrite (Z.mod_small (high - _)), (Z.mod_small (low - _)) by lia.
  rewrite (Z.mod_small ((high - 0xd800) * 2 ^ 10)), (Z.mod_small (0x10000 + _)), Z.mod_small by lia. lia.
Qed.
Lemma in_range lo hi x : (lo <=? x) && (x <=? hi) = true <-> lo <= x <= hi.
Proof. by rewrite andb_true_iff, !Z.leb_le. Qed.
Lemma in_range_false lo hi x : (lo <=? x) && (x <=? hi) = false <-> ~ lo <= x <= hi.
Proof. by rewrite <- in_range, not_true_iff_false. Qed.

Lemma escape_unit_sound escape_at self code self' : escape_unit input escape_at self = Ok (code, self') ->
  exists text, unicode_text text code /\ over input self text self'.
Proof.
  unfold escape_unit. destruct (hex4 input self) as [[unit self1]|] eqn:H1; [|done]. apply hex4_sound in H1 as (t1 & U1 & O1).
  destruct ((0xd800 <=? unit) && (unit <=? 0xdbff)) eqn:Hh.
  - case_bool_decide as Hu; [|done]. apply in_range in Hh. destruct (hex4 input (advance self1 2)) as [[low self2]|] eqn:H2; [|done].
    destruct ((0xdc00 <=? low) && (low <=? 0xdfff)) eqn:Hl; [|done]. apply in_range in Hl. rewrite pair_code by done.
    intros [= <- <-]. apply hex4_sound in H2 as (t2 & U2 & O2). exists (t1 ++ 92 :: 117 :: t2). split; [by constructor|].
    eapply over_trans; [done|]. apply (over_trans _ _ [92; 117] _ _ _ (over_app _ _ [92; 117] (drop 2 (left input self1)) ltac:(by rewrite <- Hu, take_drop)) O2).
  - destruct ((0xdc00 <=? unit) && (unit <=? 0xdfff)) eqn:Hl; [done|]. apply in_range_false in Hh, Hl. intros [= <- <-].
    exists t1. split; [|done]. constructor; [done|]. unfold surrogate. lia.
Qed.
Lemma escape_unit_complete escape_at self text code rest : unicode_text text code -> left input self = text ++ rest ->
  escape_unit input escape_at self = Ok (code, advance self (length text)).
Proof.
  intros H E. unfold escape_unit. destruct H as [digits unit U Hs | digits high digits' low U U' Hh Hl].
  - rewrite (hex4_complete _ _ _ _ U E). unfold surrogate in Hs. rewrite !(proj2 (in_range_false _ _ _)) by lia. done.
  - rewrite <- app_assoc in E. rewrite (hex4_complete _ _ _ _ U E). rewrite (proj2 (in_range _ _ high)) by lia. apply left_app in E.
    rewrite E. cbn [app take]. rewrite bool_decide_eq_true_2 by done. apply (left_app _ _ [92; 117]) in E. change (length [92; 117]) with 2%nat in E.
    rewrite (hex4_complete _ _ _ _ U' E). rewrite (proj2 (in_range _ _ low)) by lia. rewrite pair_code by done.
    rewrite !advance_advance, length_app. cbn [length]. done.
Qed.
Lemma unicode_char text code : unicode_text text code -> from_u32 code = Some code.
Proof.
  intros H. unfold from_u32. destruct H as [digits unit U Hs | digits high digits' low U U' Hh Hl].
  - apply hex_unit_range in U. unfold surrogate in Hs. rewrite (proj2 (in_range_false _ _ _)) by lia.
    rewrite (proj2 (Z.ltb_ge _ _)) by lia. done.
  - rewrite (proj2 (in_range_false _ _ _)) by lia. rewrite (proj2 (Z.ltb_ge _ _)) by lia. done.
Qed.
Lemma chars_unicode escaped code text out : unicode_text escaped code -> chars text out ->
  chars (92 :: 117 :: escaped ++ text) (encode_char code ++ out).
Proof. intros [digits unit U Hs | digits high digits' low U U' Hh Hl] H; [by constructor|]. rewrite <- app_assoc. by constructor. Qed.

Lemma escape_sound self out out' self' : peek input self = Some 92 -> escape input self out = Ok (out', self') ->
  exists text add, over input self text self' /\ out' = out ++ add /\ text <> [] /\
    forall rest more, chars rest more -> chars (text ++ rest) (add ++ more).
Proof.
  intros H0 H. unfold escape in H. apply over_peek in H0. set (self1 := advance self 1) in *.
  destruct (peek input self1) as [k|] eqn:Hk; [|done]. apply over_peek in Hk. pose proof (over_trans _ _ _ _ _ _ H0 Hk) as O.
  destruct (simple_escape k) as [b|] eqn:Hs.
  - injection H as <- <-. exists [92; k], [b]. split_and!; try done. intros. by constructor.
  - destruct (Z.eqb_spec k 117) as [->|]; [|done].
    destruct (escape_unit _ _ _) as [[code self2]|] eqn:Hu; [|done]. apply escape_unit_sound in Hu as (t & Ut & Ot).
    rewrite (unicode_char _ _ Ut) in H. cbn in H. injection H as <- <-. exists ([92; 117] ++ t), (encode_char code).
    split; [by eapply over_trans|]. split; [done|]. split; [done|]. intros rest more Hc. by apply chars_unicode.
Qed.
Lemma string_loop_sound fuel : forall self out out' self', string_loop input fuel self out = Ok (out', self') ->
  exists body add, chars body add /\ over input self (body ++ [34]) self' /\ out' = out ++ add.
Proof.
  induction fuel as [|fuel IH]; intros self out out' self'; cbn [string_loop]; [done|].
  destruct (peek input self) as [b|] eqn:Hb; [|done]. destruct (Z.eqb_spec b 34) as [->|Hq].
  { intros [= <- <-]. exists [], []. split; [constructor|]. split; [by apply over_peek|]. by rewrite app_nil_r. }
  destruct (Z.eqb_spec b 92) as [->|Hs].
  - destruct (escape input self out) as [[out1 self1]|] eqn:He; [|done]. intros (body & add & Hc & O & ->)%IH.
    apply escape_sound in He as (text & add' & O' & -> & _ & Hm); [|done]. exists (text ++ body), (add' ++ add).
    split; [by apply Hm|]. split; [|by rewrite app_assoc]. rewrite <- app_assoc. by eapply over_trans.
  - destruct (Z.ltb_spec b 32); [done|]. intros (body & add & Hc & O & ->)%IH. exists (b :: body), (b :: add).
    split; [by constructor|]. split; [|by rewrite <- app_assoc]. exact (over_trans _ _ [b] _ _ _ (over_peek _ _ _ Hb) O).
Qed.
Lemma parse_string_sound self out self' : peek input self = Some 34 -> parse_string input self = Ok (out, self') ->
  exists text, string_text text out /\ over input self text self'.
Proof.
  intros H0. unfold parse_string. destruct (string_loop _ _ _ _) as [[out1 self1]|] eqn:Hl; [|done]. destruct (from_utf8 out1) eqn:Hu; [|done].
  intros [= -> ->]. apply string_loop_sound in Hl as (body & add & Hc & O & ->). exists (34 :: body ++ [34]). split; [by exists body|].
  exact (over_trans _ _ [34] _ _ _ (over_peek _ _ _ H0) O).
Qed.

Lemma escape_complete self k out b rest : simple_escape k = Some b -> left input self = 92 :: k :: rest ->
  escape input self out = Ok (out ++ [b], advance self 2).
Proof.
  intros Hs E. unfold escape. pose proof (left_app _ _ [92] _ E) as E1. change (length [92]) with 1%nat in E1.
  rewrite peek_left, E1. cbn [head]. by rewrite Hs, advance_advance.
Qed.
Lemma escape_complete_unicode self text code out rest : unicode_text text code -> left input self = 92 :: 117 :: text ++ rest ->
  escape input self out = Ok (out ++ encode_char code, advance self (2 + length text)).
Proof.
  intros Hu E. unfold escape. pose proof (left_app _ _ [92] _ E) as E1. change (length [92]) with 1%nat in E1.
  pose proof (left_app _ _ [117] _ E1) as E2. change (length [117]) with 1%nat in E2.
  rewrite peek_left, E1. cbn [head]. rewrite (escape_unit_complete _ _ _ _ _ Hu E2), (unicode_char _ _ Hu). cbn. by rewrite !advance_advance.
Qed.
Lemma string_loop_unicode fuel self text code out rest : unicode_text text code -> left input self = 92 :: 117 :: text ++ rest ->
  string_loop input (S fuel) self out = string_loop input fuel (advance self (2 + length text)) (out ++ encode_char code).
Proof. intros Hu E. cbn [string_loop]. rewrite peek_left, E. cbn [head Z.eqb Pos.eqb]. by rewrite (escape_complete_unicode _ _ _ _ _ Hu E). Qed.
Lemma left_unicode self text rest : left input self = 92 :: 117 :: text ++ rest -> left input (advance self (2 + length text)) = rest.
Proof. intros E. exact (left_app _ _ (92 :: 117 :: text) _ E). Qed.

Lemma string_loop_complete body add : chars body add -> forall fuel self out rest, left input self = body ++ 34 :: rest ->
  (length body < fuel)%nat -> string_loop input fuel self out = Ok (out ++ add, advance self (length body + 1)).
Proof.
  induction 1 as [|b text out' Hc Hq Hb _ IH|k b text out' Hs _ IH|digits unit text out' U Hs _ IH|digits high digits' low text out' U U' Hh Hl _ IH];
    intros [|fuel] self out rest E L; cbn [length] in L; try lia.
  - cbn [string_loop]. rewrite peek_left, E. cbn. by rewrite app_nil_r.
  - cbn [string_loop]. rewrite peek_left, E. cbn [app head]. rewrite !(proj2 (Z.eqb_neq b _)), (proj2 (Z.ltb_ge _ _)) by done.
    rewrite (IH fuel _ _ rest (left_app _ _ [b] _ E)) by lia. by rewrite <- app_assoc, advance_advance.
  - cbn [string_loop]. rewrite peek_left, E. cbn [app head Z.eqb Pos.eqb]. rewrite (escape_complete _ _ _ _ _ Hs E).
    rewrite (IH fuel _ _ rest (left_app _ _ [92; k] _ E)) by lia. by rewrite <- app_assoc, advance_advance.
  - cbn [app] in E. rewrite <- app_assoc in E. pose proof (OneUnit _ _ U Hs) as Ut. rewrite (string_loop_unicode _ _ _ _ _ _ Ut E).
    rewrite length_app in L. rewrite (IH fuel _ _ rest (left_unicode _ _ _ E)) by lia.
    rewrite advance_advance, <- app_assoc. cbn [length]. rewrite length_app. do 3 f_equal. lia.
  - pose proof (TwoUnits _ _ _ _ U U' Hh Hl) as Ut. cbn [length] in E.
    assert (left input self = 92 :: 117 :: (digits ++ 92 :: 117 :: digits') ++ text ++ 34 :: rest) as E' by (rewrite E; cbn; by rewrite <- !app_assoc; cbn; rewrite <- app_assoc).
    rewrite (string_loop_unicode _ _ _ _ _ _ Ut E'). rewrite length_app in L. cbn [length] in L. rewrite length_app in L.
    rewrite (IH fuel _ _ rest (left_unicode _ _ _ E')) by lia. rewrite advance_advance, <- app_assoc. cbn [length]. rewrite !length_app. cbn [length].
    rewrite length_app. do 3 f_equal. lia.
Qed.
Lemma parse_string_complete self text out rest : string_text text out -> left input self = text ++ rest ->
  parse_string input self = Ok (out, advance self (length text)).
Proof.
  intros (body & -> & Hc & Hu) E. unfold parse_string. cbn [app] in E. rewrite <- app_assoc in E. pose proof (left_app _ _ [34] _ E) as E1.
  rewrite (string_loop_complete _ _ Hc _ _ _ rest E1) by (change (length [34]) with 1%nat in E1; rewrite E1, length_app; lia).
  cbn [app]. rewrite Hu, advance_advance. cbn [length]. rewrite length_app. cbn [length]. do 3 f_equal. 
Qed.
End strings.

(** ** Values *)

Lemma whole_start neg whole rest : whole_part whole -> exists b t, sign_text neg ++ whole ++ rest = b :: t /\ (b = 45 \/ 48 <= b <= 57).
Proof.
  intros [Hd Hw]. destruct neg; [eexists _, _; split; [done|by left]|]. destruct whole as [|b whole].
  - by destruct Hw as [|(? & ? & ? & ?)].
  - apply Forall_cons in Hd as [Hd _]. eexists _, _. split; [done|]. by right.
Qed.
Lemma number_start text is_float : number_text text is_float -> exists b t, text = b :: t /\ (b = 45 \/ 48 <= b <= 57).
Proof. intros [neg whole frac fractional exp exponential Hw _ _]. by apply whole_start. Qed.
Lemma json_start big_integers n text v : json big_integers n text v -> exists b t, text = b :: t /\ is_ws b = false /\ b <> 239 /\ b <> 93.
Proof.
  destruct 1 as [| | |n text is_float v Ht _|n text out (body & -> & _)| | | |]; try (eexists _, _; split; [done|]; by split_and!).
  apply number_start in Ht as (b & t & -> & Hb). exists b, t. split; [done|]. unfold is_ws. destruct Hb as [->|Hb]; [done|].
  split; [rewrite !orb_false_iff, !Z.eqb_neq|]; lia.
Qed.
Lemma ws_range b : is_ws b = true <-> b = 32 \/ b = 9 \/ b = 10 \/ b = 13.
Proof. unfold is_ws. rewrite !orb_true_iff, !Z.eqb_eq. tauto. Qed.
Lemma no_number_ws w rest : ws w -> no_number rest -> no_number (w ++ rest).
Proof. intros [|b w' Hb _] Hr; [done|]. apply ws_range in Hb as [->|[->|[-> | ->]]]; done. Qed.

Section values.
Context (input : bytes) (max_depth : nat) (big_integers : BigIntegers).
Implicit Types (self : Parser).
Local Abbreviation value := (value input max_depth big_integers).
Local Abbreviation items_loop := (items_loop input max_depth big_integers).
Local Abbreviation members_loop := (members_loop input max_depth big_integers).

Lemma items_loop_S fuel self items : items_loop (S fuel) self items =
  let? (found, s) := value fuel (skip_ws input self) in
  match peek input (skip_ws input s) with
  | Some 44 => items_loop fuel (advance (skip_ws input s) 1) (items ++ [found])
  | Some 93 => Ok (items ++ [found], advance (skip_ws input s) 1)
  | _ => Err (end_or input (skip_ws input s) UnexpectedByte)
  end.
Proof. done. Qed.
Lemma members_loop_S fuel self found : members_loop (S fuel) self found =
  let? (name, s) := member_name input self in
  let? (v, s) := value fuel s in
  match peek input (skip_ws input s) with
  | Some 44 => members_loop fuel (advance (skip_ws input s) 1) (found ++ [(name, v)])
  | Some 125 => Ok (found ++ [(name, v)], advance (skip_ws input s) 1)
  | _ => Err (end_or input (skip_ws input s) UnexpectedByte)
  end.
Proof. done. Qed.

Definition deeper self : Parser := MkParser (at_ self) (depth self + 1).
Lemma enter_spec self : enter max_depth self = if (max_depth <? depth self + 1)%nat then Err (error (deeper self) TooDeep) else Ok (deeper self).
Proof. done. Qed.
Lemma leave_deeper self n : leave (advance (deeper self) n) = advance self n.
Proof. unfold leave, advance, deeper. cbn. f_equal. lia. Qed.
Lemma over_deeper self text self' : over input (deeper self) text self' -> over input self text (leave self').
Proof. intros [E ->]. rewrite leave_deeper. split; [|done]. done. Qed.

Lemma literal_sound self word v v' self' : literal input self word v = Ok (v', self') -> v' = v /\ over input self word self'.
Proof.
  unfold literal. case_bool_decide as H; [|done]. intros [= <- <-]. split; [done|].
  apply (over_app _ _ _ (drop (length word) (left input self))). rewrite <- H at 1. by rewrite take_drop.
Qed.
Lemma literal_complete self word v rest : left input self = word ++ rest -> literal input self word v = Ok (v, advance self (length word)).
Proof. intros E. unfold literal. by rewrite E, take_app_length, bool_decide_eq_true_2. Qed.

(** The three loops go wrong or read what the grammar has. *)
Definition values_sound (fuel : nat) : Prop := forall self v self', value fuel self = Ok (v, self') ->
  exists text, json big_integers (max_depth - depth self) text v /\ over input self text self'.
Definition items_sound (fuel : nat) : Prop := forall self items items' self', items_loop fuel self items = Ok (items', self') ->
  exists text vs, elements big_integers (max_depth - depth self) text vs /\ items' = items ++ vs /\ over input self (text ++ [93]) self'.
Definition members_sound (fuel : nat) : Prop := forall self found found' self', members_loop fuel self found = Ok (found', self') ->
  exists text ms, members big_integers (max_depth - depth self) text ms /\ found' = found ++ ms /\ over input self (text ++ [125]) self'.

Lemma elements_ws n w text vs : ws w -> elements big_integers n text vs -> elements big_integers n (w ++ text) vs.
Proof.
  intros Hw [n' w1 t w2 v H1 Hj H2|n' w1 t w2 v texts vs' H1 Hj H2 He]; rewrite app_assoc; constructor; try done; by apply Forall_app.
Qed.
Lemma members_ws n w text ms : ws w -> members big_integers n text ms -> members big_integers n (w ++ text) ms.
Proof.
  intros Hw [n' w1 name key w2 w3 t v w4 H1 Hk H2 H3 Hj H4|n' w1 name key w2 w3 t v w4 texts ms' H1 Hk H2 H3 Hj H4 He];
    rewrite app_assoc; constructor; try done; by apply Forall_app.
Qed.

(** An array and an object open in the same way. *)
Lemma open_sound self b (k : Parser -> result ParseError (Value * Parser)) v self' :
  peek input self = Some b -> (let? s := enter max_depth self in k (skip_ws input (advance s 1))) = Ok (v, self') ->
  exists w self2, ws w /\ over input (deeper self) (b :: w) self2 /\ k self2 = Ok (v, self') /\
    (max_depth - depth self)%nat = S (max_depth - depth self2).
Proof.
  intros Hp. rewrite enter_spec. destruct (Nat.ltb_spec max_depth (depth self + 1)) as [|Hd]; [done|]. intros H.
  pose proof (over_peek input (deeper self) b Hp) as O1. destruct (skip_ws_over input (advance (deeper self) 1)) as (w & Hw & O2).
  pose proof (over_trans _ _ _ _ _ _ O1 O2) as O. exists w, (skip_ws input (advance (deeper self) 1)). split_and!; try done.
  rewrite (over_depth _ _ _ _ O). cbn. lia.
Qed.
Lemma array_sound fuel self v self' : items_sound fuel -> peek input self = Some 91 -> array input max_depth (items_loop fuel) self = Ok (v, self') ->
  exists text, json big_integers (max_depth - depth self) text v /\ over input self text self'.
Proof.
  intros IH Hp H. unfold array in H. cbv zeta in H. destruct (open_sound self 91 (fun s => if bool_decide (peek input s = Some 93) then Ok (Array [], leave (advance s 1))
    else let? (found, s') := items_loop fuel s [] in Ok (Array found, leave s')) v self' Hp H) as (w & self2 & Hw & O & H' & ->).
  clear H. rename H' into H.
  case_bool_decide as He.
  - injection H as <- <-. exists (91 :: w ++ [93]). split; [by constructor|]. apply over_deeper.
    exact (over_trans _ _ _ _ _ _ O (over_peek _ _ _ He)).
  - destruct (items_loop fuel self2 []) as [[found self3]|] eqn:Hl; [|done]. injection H as <- <-.
    apply IH in Hl as (text & vs & Hv & -> & O3). exists (91 :: (w ++ text) ++ [93]).
    split; [constructor; by apply elements_ws|]. apply over_deeper. pose proof (over_trans _ _ _ _ _ _ O O3) as O4. by rewrite <- app_assoc.
Qed.
Lemma object_sound fuel self v self' : members_sound fuel -> peek input self = Some 123 -> object input max_depth (members_loop fuel) self = Ok (v, self') ->
  exists text, json big_integers (max_depth - depth self) text v /\ over input self text self'.
Proof.
  intros IH Hp H. unfold object in H. cbv zeta in H. destruct (open_sound self 123 (fun s => if bool_decide (peek input s = Some 125) then Ok (Object [], leave (advance s 1))
    else let? (found, s') := members_loop fuel s [] in Ok (Object (merge_repeated found), leave s')) v self' Hp H) as (w & self2 & Hw & O & H' & ->).
  clear H. rename H' into H.
  case_bool_decide as He.
  - injection H as <- <-. exists (123 :: w ++ [125]). split; [by constructor|]. apply over_deeper.
    exact (over_trans _ _ _ _ _ _ O (over_peek _ _ _ He)).
  - destruct (members_loop fuel self2 []) as [[found self3]|] eqn:Hl; [|done]. injection H as <- <-.
    apply IH in Hl as (text & ms & Hv & -> & O3). exists (123 :: (w ++ text) ++ [125]).
    split; [constructor; by apply members_ws|]. apply over_deeper. pose proof (over_trans _ _ _ _ _ _ O O3) as O4. by rewrite <- app_assoc.
Qed.

Lemma value_sound fuel : items_sound fuel -> members_sound fuel -> values_sound (S fuel).
Proof.
  intros Hi Hm self v self'. cbn [JsonParse.value]. destruct (peek input self) as [b|] eqn:Hp; [|done].
  destruct (Z.eqb_spec b 123) as [->|_]; [by apply object_sound|]. destruct (Z.eqb_spec b 91) as [->|_]; [by apply array_sound|].
  destruct (Z.eqb_spec b 34) as [->|_].
  { destruct (parse_string input self) as [[text self1]|] eqn:Hs; [|done]. intros [= <- <-].
    apply parse_string_sound in Hs as (t & Ht & O); [|done]. exists t. split; [by constructor|done]. }
  destruct (Z.eqb_spec b 116) as [->|_]; [intros [-> O]%literal_sound; eexists; split; [constructor|done]|].
  destruct (Z.eqb_spec b 102) as [->|_]; [intros [-> O]%literal_sound; eexists; split; [constructor|done]|].
  destruct (Z.eqb_spec b 110) as [->|_]; [intros [-> O]%literal_sound; eexists; split; [constructor|done]|].
  destruct ((b =? 45) || is_digit b); [|done]. intros (text & is_float & Ht & Hv & O)%number_sound.
  exists text. split; [by eapply JNumber|done].
Qed.

(** A value between white space, and the octet after it. *)
Lemma ws_value_ws fuel self v self1 : values_sound fuel -> value fuel (skip_ws input self) = Ok (v, self1) ->
  exists w text w', ws w /\ json big_integers (max_depth - depth self) text v /\ ws w' /\ over input self (w ++ text ++ w') (skip_ws input self1).
Proof.
  intros IH Hv. destruct (skip_ws_over input self) as (w & Hw & O1). apply IH in Hv as (text & Hj & O2).
  destruct (skip_ws_over input self1) as (w' & Hw' & O3). exists w, text, w'. rewrite (over_depth _ _ _ _ O1) in Hj.
  split_and!; try done. by do 2 (eapply over_trans; [done|]).
Qed.
Lemma items_loop_sound fuel : values_sound fuel -> items_sound fuel -> items_sound (S fuel).
Proof.
  intros Hv Hi self items items' self'. rewrite items_loop_S.
  destruct (value fuel (skip_ws input self)) as [[v self1]|] eqn:Hval; [|done].
  apply ws_value_ws in Hval as (w & text & w' & Hw & Hj & Hw' & O); [|done]. set (self2 := skip_ws input self1) in *.
  destruct (peek input self2) as [b|] eqn:Hp; [|done]. pose proof (over_trans _ _ _ _ _ _ O (over_peek _ _ _ Hp)) as O'.
  destruct (decide (b = 44)) as [->|H44].
  - intros (texts & vs & He & -> & O2)%Hi. rewrite (over_depth _ _ _ _ O') in He. exists (w ++ text ++ w' ++ 44 :: texts), (v :: vs).
    split; [by constructor|]. split; [by rewrite <- app_assoc|]. pose proof (over_trans _ _ _ _ _ _ O' O2) as O3.
    rewrite <- !app_assoc in *. done.
  - destruct (decide (b = 93)) as [->|H93].
    + intros [= <- <-]. exists (w ++ text ++ w'), [v]. split; [by constructor|]. done.
    + intros H. exfalso. revert H. destruct b as [|b|b]; try done. repeat (destruct b as [b|b|]; try done).
Qed.
Lemma member_name_sound self name self' : member_name input self = Ok (name, self') ->
  exists w text w1 w2, ws w /\ string_text text name /\ ws w1 /\ ws w2 /\ over input self (w ++ text ++ w1 ++ 58 :: w2) self'.
Proof.
  unfold member_name. destruct (skip_ws_over input self) as (w & Hw & O1). set (self1 := skip_ws input self) in *.
  case_bool_decide as Hp; [|done]. cbn [negb]. destruct (parse_string input self1) as [[name' self2]|] eqn:Hs; [|done].
  apply parse_string_sound in Hs as (text & Ht & O2); [|done]. destruct (skip_ws_over input self2) as (w1 & Hw1 & O3).
  set (self3 := skip_ws input self2) in *. case_bool_decide as Hc; [|done]. cbn [negb]. intros [= <- <-].
  destruct (skip_ws_over input (advance self3 1)) as (w2 & Hw2 & O4). exists w, text, w1, w2. split_and!; try done.
  do 3 (eapply over_trans; [done|]). exact (over_trans _ _ [58] _ _ _ (over_peek _ _ _ Hc) O4).
Qed.
Lemma members_loop_sound fuel : values_sound fuel -> members_sound fuel -> members_sound (S fuel).
Proof.
  intros Hv Hi self found found' self'. rewrite members_loop_S.
  destruct (member_name input self) as [[name self0]|] eqn:Hn; [|done].
  apply member_name_sound in Hn as (w & nt & w1 & w2 & Hw & Hnt & Hw1 & Hw2 & O0).
  destruct (value fuel self0) as [[v self1]|] eqn:Hval; [|done].
  apply Hv in Hval as (text & Hj & O1). rewrite (over_depth _ _ _ _ O0) in Hj. destruct (skip_ws_over input self1) as (w' & Hw' & O2).
  pose proof (over_trans _ _ _ _ _ _ O0 (over_trans _ _ _ _ _ _ O1 O2)) as O. set (self2 := skip_ws input self1) in *.
  destruct (peek input self2) as [b|] eqn:Hp; [|done]. pose proof (over_trans _ _ _ _ _ _ O (over_peek _ _ _ Hp)) as O'.
  rewrite <- !app_assoc in O'. cbn [app] in O'.
  destruct (decide (b = 44)) as [->|H44].
  - intros (texts & vs & He & -> & O3)%Hi. rewrite (over_depth _ _ _ _ O') in He.
    exists (w ++ nt ++ w1 ++ 58 :: w2 ++ text ++ w' ++ 44 :: texts), ((name, v) :: vs).
    split; [by constructor|]. split; [by rewrite <- app_assoc|]. pose proof (over_trans _ _ _ _ _ _ O' O3) as O4.
    repeat (rewrite <- !app_assoc in *; cbn [app] in * ). done.
  - destruct (decide (b = 125)) as [->|H125].
    + intros [= <- <-]. exists (w ++ nt ++ w1 ++ 58 :: w2 ++ text ++ w'), [(name, v)]. split; [by constructor|]. split; [done|].
      repeat (rewrite <- !app_assoc; cbn [app]). done.
    + intros H. exfalso. revert H. destruct b as [|b|b]; try done. repeat (destruct b as [b|b|]; try done).
Qed.

Lemma parser_sound fuel : values_sound fuel /\ items_sound fuel /\ members_sound fuel.
Proof.
  induction fuel as [|fuel (Hv & Hi & Hm)]; [by split_and!|]. split_and!;
    [by apply value_sound | by apply items_loop_sound | by apply members_loop_sound].
Qed.

(** ** What the grammar has is read *)

Lemma value_S fuel self : value (S fuel) self =
  match peek input self with
  | None => Err (error self UnexpectedEnd)
  | Some byte =>
      if byte =? 123 then object input max_depth (members_loop fuel) self
      else if byte =? 91 then array input max_depth (items_loop fuel) self
      else if byte =? 34 then let? (text, s) := parse_string input self in Ok (Str text, s)
      else if byte =? 116 then literal input self (bs "true") (Bool true)
      else if byte =? 102 then literal input self (bs "false") (Bool false)
      else if byte =? 110 then literal input self (bs "null") Null
      else if (byte =? 45) || is_digit byte then number input big_integers self
      else Err (error self UnexpectedByte)
  end.
Proof. done. Qed.

Lemma items_loop_skip fuel self items : items_loop fuel (skip_ws input self) items = items_loop fuel self items \/ fuel = O.
Proof. destruct fuel; [by right|left]. by rewrite !items_loop_S, skip_ws_twice. Qed.
Lemma members_loop_skip fuel self found : members_loop fuel (skip_ws input self) found = members_loop fuel self found \/ fuel = O.
Proof. destruct fuel; [by right|left]. rewrite !members_loop_S. unfold member_name. by rewrite skip_ws_twice. Qed.

Definition value_complete (n : nat) (text : bytes) (v : Value) : Prop := forall fuel self rest,
  left input self = text ++ rest -> no_number rest -> (n + depth self <= max_depth)%nat -> (2 * length text + 1 <= fuel)%nat ->
  value fuel self = Ok (v, advance self (length text)).
Definition items_complete (n : nat) (text : bytes) (vs : list Value) : Prop := forall fuel self items rest,
  left input self = text ++ 93 :: rest -> (n + depth self <= max_depth)%nat -> (2 * length text + 2 <= fuel)%nat ->
  items_loop fuel self items = Ok (items ++ vs, advance self (length text + 1)).
Definition members_complete (n : nat) (text : bytes) (ms : list (bytes * Value)) : Prop := forall fuel self found rest,
  left input self = text ++ 125 :: rest -> (n + depth self <= max_depth)%nat -> (2 * length text + 2 <= fuel)%nat ->
  members_loop fuel self found = Ok (found ++ ms, advance self (length text + 1)).

Lemma json_no_ws n text v rest : json big_integers n text v -> no_ws (text ++ rest).
Proof. intros (b & t & -> & Hb & _)%json_start. done. Qed.

(** The white space, the value and the white space of an item. *)
Lemma ws_value_complete fuel self n w text w' v b rest : value_complete n text v -> json big_integers n text v ->
  ws w -> ws w' -> b = 44 \/ b = 93 \/ b = 125 -> left input self = w ++ text ++ w' ++ b :: rest ->
  (n + depth self <= max_depth)%nat -> (2 * length text + 1 <= fuel)%nat ->
  exists self1, value fuel (skip_ws input self) = Ok (v, self1) /\ skip_ws input self1 = advance self (length (w ++ text ++ w')) /\
    left input (skip_ws input self1) = b :: rest.
Proof.
  intros IH Hj Hw Hw' Hb E Hd Hf. rewrite (skip_ws_run _ _ _ _ E Hw) by (by eapply json_no_ws). apply left_app in E.
  assert (no_number (b :: rest) /\ no_ws (b :: rest)) as [Hn Hs] by (by destruct Hb as [->|[-> | ->]]).
  exists (advance (advance self (length w)) (length text)).
  rewrite (IH _ _ _ E (no_number_ws _ _ Hw' Hn)) by (try done; cbn; lia). apply left_app in E. split; [done|].
  rewrite (skip_ws_run _ _ _ _ E Hw' Hs). apply left_app in E. split; [|done]. rewrite !advance_advance, !length_app. done.
Qed.
Lemma item_complete n w text w' v : ws w -> json big_integers n text v -> value_complete n text v -> ws w' ->
  items_complete n (w ++ text ++ w') [v].
Proof.
  intros Hw Hj IH Hw' [|fuel] self items rest E Hd Hf; [lia|]. rewrite !length_app in Hf. rewrite <- !app_assoc in E.
  destruct (ws_value_complete fuel self n w text w' v 93 rest) as (self1 & Hv & Hs & El); try done; [tauto|lia|].
  rewrite items_loop_S, Hv, peek_left, El, Hs. cbn [head]. by rewrite advance_advance.
Qed.
Lemma items_complete_more n w text w' v texts vs : ws w -> json big_integers n text v -> value_complete n text v -> ws w' ->
  items_complete n texts vs -> items_complete n (w ++ text ++ w' ++ 44 :: texts) (v :: vs).
Proof.
  intros Hw Hj IH Hw' IHe [|fuel] self items rest E Hd Hf; [lia|]. rewrite !length_app in Hf. cbn [length] in Hf. rewrite <- !app_assoc in E.
  destruct (ws_value_complete fuel self n w text w' v 44 (texts ++ 93 :: rest)) as (self1 & Hv & Hs & El); try done; [tauto|lia|].
  rewrite items_loop_S, Hv, peek_left, El, Hs. cbn [head]. rewrite Hs in El. apply (left_app _ _ [44]) in El.
  rewrite (IHe _ _ _ _ El) by (cbn; lia). rewrite <- app_assoc, !advance_advance, !length_app. cbn [app length]. do 3 f_equal. lia.
Qed.

Lemma member_name_complete self w name key w1 w2 rest : ws w -> string_text name key -> ws w1 -> ws w2 -> no_ws rest ->
  left input self = w ++ name ++ w1 ++ 58 :: w2 ++ rest ->
  member_name input self = Ok (key, advance self (length (w ++ name ++ w1 ++ 58 :: w2))).
Proof.
  intros Hw Hk Hw1 Hw2 Hr E. unfold member_name. pose proof Hk as (body & Eb & _).
  rewrite (skip_ws_run _ _ _ _ E Hw) by (by rewrite Eb). apply left_app in E.
  assert (peek input (advance self (length w)) = Some 34) as Hp by (rewrite peek_left, E, Eb; done).
  rewrite bool_decide_eq_true_2 by done. cbn [negb].
  rewrite (parse_string_complete _ _ _ _ _ Hk E). apply left_app in E. rewrite (skip_ws_run _ _ _ _ E Hw1) by done. apply left_app in E.
  rewrite peek_left, E. cbn [head]. rewrite bool_decide_eq_true_2 by done. cbn [negb]. apply (left_app _ _ [58]) in E.
  change (length [58]) with 1%nat in E. rewrite (skip_ws_run _ _ _ _ E Hw2) by done. rewrite !advance_advance.
  rewrite !length_app. cbn [length]. done.
Qed.

(** The name, the colon and the value of a member, up to the octet after it. *)
Lemma member_value_complete fuel self n w name key w1 w2 text w' v b rest : value_complete n text v -> json big_integers n text v ->
  ws w -> string_text name key -> ws w1 -> ws w2 -> ws w' -> b = 44 \/ b = 125 ->
  left input self = w ++ name ++ w1 ++ 58 :: w2 ++ text ++ w' ++ b :: rest ->
  (n + depth self <= max_depth)%nat -> (2 * length text + 1 <= fuel)%nat ->
  exists self0 self1, member_name input self = Ok (key, self0) /\ value fuel self0 = Ok (v, self1) /\
    skip_ws input self1 = advance self (length (w ++ name ++ w1 ++ 58 :: w2 ++ text ++ w')) /\ left input (skip_ws input self1) = b :: rest.
Proof.
  intros IH Hj Hw Hk Hw1 Hw2 Hw' Hb E Hd Hf. pose proof (json_no_ws _ _ _ (w' ++ b :: rest) Hj) as Hno.
  pose proof (member_name_complete _ _ _ _ _ _ _ Hw Hk Hw1 Hw2 Hno E) as Hm.
  assert (left input self = (w ++ name ++ w1 ++ 58 :: w2) ++ text ++ w' ++ b :: rest) as E'
    by (rewrite E, <- !app_assoc; cbn; by rewrite <- ?app_assoc).
  apply left_app in E'. set (self0 := advance self (length (w ++ name ++ w1 ++ 58 :: w2))) in *.
  assert (no_ws (text ++ w' ++ b :: rest)) as Hn0 by done.
  assert (skip_ws input self0 = self0) as Hs0 by (rewrite (skip_ws_run _ _ [] _ E' ltac:(constructor) Hn0); apply advance_0).
  destruct (ws_value_complete fuel self0 n [] text w' v b rest) as (self1 & Hv & Hs & El); try done; [constructor|tauto|].
  rewrite Hs0 in Hv. exists self0, self1. split_and!; try done. rewrite Hs. subst self0. rewrite advance_advance. f_equal.
  rewrite <- length_app. f_equal. cbn [app]. rewrite <- !app_assoc. done.
Qed.
Lemma member_complete n w name key w1 w2 text v w' : ws w -> string_text name key -> ws w1 -> ws w2 -> json big_integers n text v ->
  value_complete n text v -> ws w' -> members_complete n (w ++ name ++ w1 ++ 58 :: w2 ++ text ++ w') [(key, v)].
Proof.
  intros Hw Hk Hw1 Hw2 Hj IH Hw' [|fuel] self found rest E Hd Hf; [lia|].
  destruct (member_value_complete fuel self n w name key w1 w2 text w' v 125 rest) as (self0 & self1 & Hm & Hv & Hs & El); try done.
  - by right.
  - rewrite E. repeat (rewrite <- !app_assoc; cbn [app]). done.
  - repeat (rewrite !length_app in Hf; cbn [length] in Hf). lia.
  - rewrite members_loop_S, Hm, Hv, peek_left, El, Hs. cbn [head]. by rewrite advance_advance.
Qed.
Lemma members_complete_more n w name key w1 w2 text v w' texts ms : ws w -> string_text name key -> ws w1 -> ws w2 ->
  json big_integers n text v -> value_complete n text v -> ws w' -> members_complete n texts ms ->
  members_complete n (w ++ name ++ w1 ++ 58 :: w2 ++ text ++ w' ++ 44 :: texts) ((key, v) :: ms).
Proof.
  intros Hw Hk Hw1 Hw2 Hj IH Hw' IHe [|fuel] self found rest E Hd Hf; [lia|].
  destruct (member_value_complete fuel self n w name key w1 w2 text w' v 44 (texts ++ 125 :: rest)) as (self0 & self1 & Hm & Hv & Hs & El); try done.
  - by left.
  - rewrite E. repeat (rewrite <- !app_assoc; cbn [app]). done.
  - repeat (rewrite !length_app in Hf; cbn [length] in Hf). lia.
  - rewrite members_loop_S, Hm, Hv, peek_left, El, Hs. cbn [head]. rewrite Hs in El. apply (left_app _ _ [44]) in El.
    repeat (rewrite !length_app in Hf; cbn [length] in Hf).
    rewrite (IHe _ _ _ _ El) by (cbn; lia). rewrite <- app_assoc, !advance_advance. do 3 f_equal.
    repeat (rewrite !length_app; cbn [length]). lia.
Qed.

Lemma enter_complete self n : (S n + depth self <= max_depth)%nat -> enter max_depth self = Ok (deeper self).
Proof. intros H. rewrite enter_spec. destruct (Nat.ltb_spec max_depth (depth self + 1)); [lia|done]. Qed.
Lemma left_deeper self b rest : left input self = b :: rest -> left input (advance (deeper self) 1) = rest.
Proof. intros E. exact (left_app _ (deeper self) [b] _ E). Qed.
Lemma open_empty self b c w rest : left input self = (b :: w ++ [c]) ++ rest -> ws w -> is_ws c = false ->
  peek input (skip_ws input (advance (deeper self) 1)) = Some c /\
  leave (advance (skip_ws input (advance (deeper self) 1)) 1) = advance self (length (b :: w ++ [c])).
Proof.
  intros E Hw Hc. cbn [app] in E. rewrite <- app_assoc in E. pose proof (left_deeper _ _ _ E) as E1.
  rewrite (skip_ws_run _ _ _ _ E1 Hw Hc). apply left_app in E1. rewrite peek_left, E1. split; [done|].
  rewrite !advance_advance, leave_deeper. cbn [length]. by rewrite length_app.
Qed.
Lemma array_empty n w : ws w -> value_complete (S n) (91 :: w ++ [93]) (Array []).
Proof.
  intros Hw [|fuel] self rest E _ Hd Hf; [lia|]. rewrite value_S, peek_left, E. cbn [app head Z.eqb Pos.eqb]. unfold array.
  rewrite (enter_complete _ n) by lia. destruct (open_empty _ _ _ _ _ E Hw eq_refl) as [-> ->].
  by rewrite bool_decide_eq_true_2.
Qed.
Lemma object_empty n w : ws w -> value_complete (S n) (123 :: w ++ [125]) (Object []).
Proof.
  intros Hw [|fuel] self rest E _ Hd Hf; [lia|]. rewrite value_S, peek_left, E. cbn [app head Z.eqb Pos.eqb]. unfold object.
  rewrite (enter_complete _ n) by lia. destruct (open_empty _ _ _ _ _ E Hw eq_refl) as [-> ->].
  by rewrite bool_decide_eq_true_2.
Qed.

(** The octet after the white space that opens a container with something in it. *)
Lemma peek_skip self w b rest : left input self = w ++ b :: rest -> ws w -> is_ws b = false -> peek input (skip_ws input self) = Some b.
Proof. intros E Hw Hb. rewrite (skip_ws_run _ _ _ _ E Hw Hb). apply left_app in E. by rewrite peek_left, E. Qed.
Lemma elements_peek n text vs self rest : elements big_integers n text vs -> left input self = text ++ rest ->
  peek input (skip_ws input self) <> Some 93.
Proof.
  intros H E. assert (exists w t v more, ws w /\ json big_integers n t v /\ text = w ++ t ++ more) as (w & t & v & more & Hw & Hj & ->)
    by (destruct H as [n w t w' v Hw Hj|n w t w' v texts vs Hw Hj]; by exists w, t, v; eexists).
  apply json_start in Hj as (b & t' & -> & Hb & _ & H93). rewrite <- !app_assoc in E. rewrite (peek_skip _ _ _ _ E Hw Hb). congruence.
Qed.
Lemma members_peek n text ms self rest : members big_integers n text ms -> left input self = text ++ rest ->
  peek input (skip_ws input self) <> Some 125.
Proof.
  intros H E. assert (exists w name key more, ws w /\ string_text name key /\ text = w ++ name ++ more) as (w & t & v & more & Hw & (body & -> & _) & ->)
    by (destruct H as [n w name key w1 w2 t v w' Hw Hk|n w name key w1 w2 t v w' texts ms Hw Hk]; by exists w, name, key; eexists).
  rewrite <- !app_assoc in E. by rewrite (peek_skip _ _ _ _ E Hw eq_refl).
Qed.
Lemma array_complete n text vs : elements big_integers n text vs -> items_complete n text vs -> value_complete (S n) (91 :: text ++ [93]) (Array vs).
Proof.
  intros He IH [|fuel] self rest E _ Hd Hf; [lia|]. cbn [length] in Hf. rewrite length_app in Hf. cbn [length] in Hf.
  rewrite value_S, peek_left, E. cbn [app head Z.eqb Pos.eqb]. unfold array. rewrite (enter_complete _ n) by lia.
  cbn [app] in E. rewrite <- app_assoc in E. pose proof (left_deeper _ _ _ E) as E1.
  rewrite bool_decide_eq_false_2 by (by eapply elements_peek). destruct (items_loop_skip fuel (advance (deeper self) 1) []) as [->|]; [|lia].
  rewrite (IH _ _ _ _ E1) by (cbn; lia). cbn [app]. rewrite advance_advance, leave_deeper. cbn [length]. by rewrite length_app.
Qed.
Lemma object_complete n text ms : members big_integers n text ms -> members_complete n text ms ->
  value_complete (S n) (123 :: text ++ [125]) (Object (merge_repeated ms)).
Proof.
  intros He IH [|fuel] self rest E _ Hd Hf; [lia|]. cbn [length] in Hf. rewrite length_app in Hf. cbn [length] in Hf.
  rewrite value_S, peek_left, E. cbn [app head Z.eqb Pos.eqb]. unfold object. rewrite (enter_complete _ n) by lia.
  cbn [app] in E. rewrite <- app_assoc in E. pose proof (left_deeper _ _ _ E) as E1.
  rewrite bool_decide_eq_false_2 by (by eapply members_peek). destruct (members_loop_skip fuel (advance (deeper self) 1) []) as [->|]; [|lia].
  rewrite (IH _ _ _ _ E1) by (cbn; lia). cbn [app]. rewrite advance_advance, leave_deeper. cbn [length]. by rewrite length_app.
Qed.

Lemma literal_value fuel self word v rest b t : word = b :: t -> b = 116 \/ b = 102 \/ b = 110 -> left input self = word ++ rest ->
  (b = 116 -> word = bs "true" /\ v = Bool true) -> (b = 102 -> word = bs "false" /\ v = Bool false) -> (b = 110 -> word = bs "null" /\ v = Null) ->
  value (S fuel) self = Ok (v, advance self (length word)).
Proof.
  intros -> Hb E H1 H2 H3. rewrite value_S, peek_left, E. cbn [app head].
  destruct Hb as [->|[-> | ->]]; cbn [Z.eqb Pos.eqb]; [destruct (H1 eq_refl) as [Hw ->]|destruct (H2 eq_refl) as [Hw ->]|destruct (H3 eq_refl) as [Hw ->]];
    rewrite Hw in *; by rewrite (literal_complete _ _ _ _ E).
Qed.
Lemma number_value_complete n text is_float v : number_text text is_float -> number_value big_integers text is_float = Some v -> value_complete n text v.
Proof.
  intros Ht Hv [|fuel] self rest E Hr Hd Hf; [lia|]. destruct (number_start _ _ Ht) as (b & t & Eb & Hb).
  rewrite value_S, peek_left, E. rewrite Eb at 1. cbn [app head].
  assert ((b =? 45) || is_digit b = true) as -> by (apply orb_true_iff; rewrite is_digit_range, Z.eqb_eq; done).
  rewrite !(proj2 (Z.eqb_neq b _)) by lia. by apply (number_complete _ _ _ _ _ _ Ht E).
Qed.
Lemma string_value_complete n text out : string_text text out -> value_complete n text (Str out).
Proof.
  intros Hs [|fuel] self rest E Hr Hd Hf; [lia|]. pose proof Hs as (body & Eb & _). rewrite value_S, peek_left, E. rewrite Eb at 1.
  cbn [app head Z.eqb Pos.eqb]. by rewrite (parse_string_complete _ _ _ _ _ Hs E).
Qed.

Lemma parser_complete :
  (forall n text v, json big_integers n text v -> value_complete n text v) /\
  (forall n text vs, elements big_integers n text vs -> items_complete n text vs) /\
  (forall n text ms, members big_integers n text ms -> members_complete n text ms).
Proof.
  apply grammar_rule.
  - intros n [|fuel] self rest E _ _ Hf; [lia|]. by eapply literal_value; [|by left|done|..].
  - intros n [|fuel] self rest E _ _ Hf; [lia|]. by eapply literal_value; [|by right; left|done|..].
  - intros n [|fuel] self rest E _ _ Hf; [lia|]. by eapply literal_value; [|by right; right|done|..].
  - intros. by eapply number_value_complete.
  - intros. by apply string_value_complete.
  - intros. by apply array_empty.
  - intros. by apply array_complete.
  - intros. by apply object_empty.
  - intros. by apply object_complete.
  - intros. by apply item_complete.
  - intros. by apply items_complete_more.
  - intros. by apply member_complete.
  - intros. by apply members_complete_more.
Qed.

(** ** The fuel *)

Lemma over_length self text self' : over input self text self' -> length (left input self) = (length text + length (left input self'))%nat.
Proof. intros [E _]. by rewrite E, length_app. Qed.
Lemma skip_ws_length self : (length (left input (skip_ws input self)) <= length (left input self))%nat.
Proof. destruct (skip_ws_over input self) as (w & _ & O). apply over_length in O. lia. Qed.
Lemma advance_length self b : peek input self = Some b -> (S (length (left input (advance self 1))) = length (left input self))%nat.
Proof. intros H%over_peek%over_length. cbn [length] in H. lia. Qed.

Definition value_enough (fuel : nat) : Prop := forall self, (2 * length (left input self) + 1 <= fuel)%nat -> value fuel self = value (S fuel) self.
Definition items_enough (fuel : nat) : Prop := forall self items, (2 * length (left input self) + 2 <= fuel)%nat ->
  items_loop fuel self items = items_loop (S fuel) self items.
Definition members_enough (fuel : nat) : Prop := forall self found, (2 * length (left input self) + 2 <= fuel)%nat ->
  members_loop fuel self found = members_loop (S fuel) self found.

Lemma value_enough_S fuel : items_enough fuel -> members_enough fuel -> value_enough (S fuel).
Proof.
  intros Hi Hm self Hf. rewrite (value_S fuel), (value_S (S fuel)). destruct (peek input self) as [b|] eqn:Hp; [|done].
  unfold object, array. rewrite !enter_spec. pose proof (advance_length _ _ Hp) as Hl.
  pose proof (skip_ws_length (advance (deeper self) 1)) as Hs. change (left input (advance (deeper self) 1)) with (left input (advance self 1)) in Hs.
  destruct (max_depth <? depth self + 1)%nat; [done|]. rewrite Hi, Hm by lia. done.
Qed.
Lemma items_enough_S fuel : value_enough fuel -> items_enough fuel -> items_enough (S fuel).
Proof.
  intros Hv Hi self items Hf. rewrite (items_loop_S fuel), (items_loop_S (S fuel)). pose proof (skip_ws_length self).
  rewrite <- Hv by lia. destruct (value fuel (skip_ws input self)) as [[v self1]|] eqn:Hval; [|done].
  destruct (parser_sound fuel) as (Hsv & _). apply Hsv in Hval as (text & _ & O%over_length). pose proof (skip_ws_length self1).
  destruct (peek input (skip_ws input self1)) as [b|] eqn:Hp; [|done]. apply advance_length in Hp. rewrite Hi by lia. done.
Qed.
Lemma members_enough_S fuel : value_enough fuel -> members_enough fuel -> members_enough (S fuel).
Proof.
  intros Hv Hm self found Hf. rewrite (members_loop_S fuel), (members_loop_S (S fuel)).
  destruct (member_name input self) as [[name self0]|] eqn:Hn; [|done].
  apply member_name_sound in Hn as (? & ? & ? & ? & _ & _ & _ & _ & O0%over_length). rewrite <- Hv by lia.
  destruct (value fuel self0) as [[v self1]|] eqn:Hval; [|done].
  destruct (parser_sound fuel) as (Hsv & _). apply Hsv in Hval as (text & _ & O%over_length). pose proof (skip_ws_length self1).
  destruct (peek input (skip_ws input self1)) as [b|] eqn:Hp; [|done]. apply advance_length in Hp. rewrite Hm by lia. done.
Qed.
Lemma parser_enough fuel : value_enough fuel /\ items_enough fuel /\ members_enough fuel.
Proof.
  induction fuel as [|fuel (Hv & Hi & Hm)].
  - split_and!; red; intros; lia.
  - split_and!; [by apply value_enough_S|by apply items_enough_S|by apply members_enough_S].
Qed.
Lemma value_more fuel more self : (2 * length (left input self) + 1 <= fuel)%nat -> value (fuel + more) self = value fuel self.
Proof.
  intros H. induction more as [|more IH]; [by rewrite Nat.add_0_r|]. rewrite <- IH, Nat.add_succ_r. symmetry. apply parser_enough. lia.
Qed.
End values.

(** ** The parser decides the grammar *)

Definition top_level_ok (options : Options) (v : Value) : bool :=
  match top_level options, v with Any, _ | ObjectOrArray, (Object _ | Array _) => true | ObjectOrArray, _ => false end.
Definition in_grammar (options : Options) (input : bytes) (v : Value) : Prop :=
  exists bom w text w', (bom = [] \/ bom = BOM) /\ ws w /\ ws w' /\ input = bom ++ w ++ text ++ w' /\
    json (big_integers options) (Nat.min (max_depth options) DEPTH_CAP) text v.
(** The parser past the byte order mark and the white space. *)
Definition start_of (input : bytes) : Parser := skip_ws input (MkParser (if bool_decide (take 3 input = BOM) then 3 else 0) 0).

Lemma start_sound input : exists bom w, (bom = [] \/ bom = BOM) /\ ws w /\ input = bom ++ w ++ left input (start_of input) /\
  depth (start_of input) = 0%nat.
Proof.
  unfold start_of. set (n := (if bool_decide _ then 3 else 0)%nat). destruct (skip_ws_over input (MkParser n 0)) as (w & Hw & O).
  exists (take n input), w. pose proof (over_depth _ _ _ _ O) as Hd. destruct O as [E _]. split_and!; try done.
  - subst n. case_bool_decide as H; [by right|by left].
  - rewrite <- E. unfold left. cbn [at_]. by rewrite take_drop.
Qed.
Lemma start_complete input bom w rest : (bom = [] \/ bom = BOM) -> ws w -> input = bom ++ w ++ rest ->
  match rest with [] => True | b :: _ => is_ws b = false /\ b <> 239 end ->
  left input (start_of input) = rest /\ depth (start_of input) = 0%nat.
Proof.
  intros Hb Hw E Hr. unfold start_of.
  assert (bool_decide (take 3 input = BOM) = bool_decide (bom = BOM)) as ->.
  { destruct Hb as [-> | ->]; [|by rewrite E].
    rewrite (bool_decide_eq_false_2 ([] = BOM)) by done. apply bool_decide_eq_false_2. rewrite E. cbn [app].
    destruct Hw as [|c w Hc Hw]; cbn [app].
    - destruct rest as [|c rest]; [done|]. destruct Hr as [_ Hr]. cbn. intros [= -> ]. done.
    - apply ws_range in Hc. cbn. intros [= -> ]. lia. }
  assert (left input (MkParser (if bool_decide (bom = BOM) then 3 else 0) 0) = w ++ rest) as E'.
  { unfold left. cbn [at_]. rewrite E. by destruct Hb as [-> | ->]. }
  rewrite (skip_ws_run _ _ _ _ E' Hw) by (destruct rest; [done|by destruct Hr]). apply left_app in E'. done.
Qed.
Lemma parse_with_start input options : parse_with input options =
  if (max_size options <? length input)%nat then Err (MkParseError TooLarge 0)
  else
    let? (found, parser) :=
      value input (Nat.min (max_depth options) DEPTH_CAP) (big_integers options) (fuel_for input) (start_of input) in
    let parser := skip_ws input parser in
    if (at_ parser <? length input)%nat then Err (error parser TrailingBytes)
    else if top_level_ok options found then Ok found else Err (MkParseError NotObjectOrArray 0).
Proof.
  unfold parse_with, start_of. destruct (max_size options <? length input)%nat; [done|]. cbv zeta.
  destruct (value _ _ _ _ _) as [[found parser]|]; [|done]. destruct (at_ _ <? _)%nat; [done|].
  unfold top_level_ok. by destruct (top_level options), found.
Qed.
Lemma at_end input self : (at_ self <? length input)%nat = false <-> left input self = [].
Proof. rewrite Nat.ltb_ge. unfold left. split; [apply drop_ge|]. intros H. apply (f_equal length) in H. rewrite length_drop in H. cbn in H. lia. Qed.

Lemma parse_with_sound input options v : parse_with input options = Ok v ->
  (length input <= max_size options)%nat /\ top_level_ok options v = true /\ in_grammar options input v.
Proof.
  rewrite parse_with_start. destruct (Nat.ltb_spec (max_size options) (length input)) as [|Hsize]; [done|].
  destruct (value _ _ _ _ _) as [[found self1]|] eqn:Hv; [|done]. cbv zeta.
  destruct (at_ (skip_ws input self1) <? length input)%nat eqn:He; [done|]. destruct (top_level_ok options found) eqn:Ht; [|done].
  intros [= ->]. split; [done|]. split; [done|]. apply at_end in He.
  destruct (start_sound input) as (bom & w & Hb & Hw & E & Hd). apply parser_sound in Hv as (text & Hj & O).
  rewrite Hd, Nat.sub_0_r in Hj. destruct (skip_ws_over input self1) as (w' & Hw' & O').
  pose proof (over_trans _ _ _ _ _ _ O O') as [E2 _]. rewrite He, app_nil_r in E2. rewrite E2 in E. by exists bom, w, text, w'.
Qed.
Lemma parse_with_complete input options v : (length input <= max_size options)%nat -> top_level_ok options v = true -> in_grammar options input v ->
  parse_with input options = Ok v.
Proof.
  intros Hsize Ht (bom & w & text & w' & Hb & Hw & Hw' & E & Hj). rewrite parse_with_start.
  rewrite (proj2 (Nat.ltb_ge _ _) Hsize). pose proof (json_start _ _ _ _ Hj) as (b & t & Eb & Hs & H239 & _).
  destruct (start_complete input bom w (text ++ w') Hb Hw E) as [El Hd]; [by rewrite Eb|].
  destruct (parser_complete input (Nat.min (max_depth options) DEPTH_CAP) (big_integers options)) as [Hc _].
  rewrite (Hc _ _ _ Hj _ _ _ El).
  - cbv zeta. apply left_app in El. rewrite <- (app_nil_r w') in El. rewrite (skip_ws_run _ _ _ [] El Hw') by done.
    apply left_app in El. apply at_end in El. by rewrite El, Ht.
  - rewrite <- (app_nil_r w'). by apply no_number_ws.
  - rewrite Hd. lia.
  - unfold fuel_for. rewrite E, !length_app. lia.
Qed.

(** C12. [parse_with] returns a value exactly when the input is within the size, the value
    may stand at the top, and RFC 8259 has it: an optional byte order mark and one text of
    the grammar between white space, nested no deeper than the limit, a repeated name
    merged into its first member.  No more fuel changes what it returns, errors
    included. *)
Theorem parse_exact input options :
  (forall v, parse_with input options = Ok v <->
     (length input <= max_size options)%nat /\ top_level_ok options v = true /\ in_grammar options input v) /\
  (forall more, value input (Nat.min (max_depth options) DEPTH_CAP) (big_integers options) (fuel_for input + more) (start_of input)
     = value input (Nat.min (max_depth options) DEPTH_CAP) (big_integers options) (fuel_for input) (start_of input)).
Proof.
  split.
  - intros v. split; [apply parse_with_sound|]. intros (H1 & H2 & H3). by apply parse_with_complete.
  - intros more. apply value_more. unfold fuel_for. destruct (start_sound input) as (bom & w & _ & _ & E & _).
    apply (f_equal length) in E. rewrite !length_app in E. lia.
Qed.
