(* ===== verification/JsonWrite.v ===== *)
(** * The JSON writer

    [zero-json/src/write.rs]: the writer with its bits per open container, the strings and
    numbers it writes, and the tree it writes.  An operation that is refused changes
    nothing, so a writer that goes on is the one before it; a tree that is refused halfway
    is dropped with its buffer by [to_vec]. *)
From S2P Require Import Prelude Core Date JsonFloat JsonValue.

Definition MAX_DEPTH : nat := 128.

Inductive WriteError : Type := TooDeep | NonFinite | Misplaced.
#[global] Instance WriteError_eq_dec : EqDecision WriteError.
Proof. solve_decision. Defined.
Definition write_describe (self : WriteError) : string :=
  match self with
  | TooDeep => "too many open containers"
  | NonFinite => "a float that is not finite has no JSON form"
  | Misplaced => "a key, value or end out of place"
  end.
Definition write_into_error (e : WriteError) : Error := Codec ("json: " +:+ write_describe e).

Record Writer : Type := MkWriter {
  out : bytes;
  depth : nat;
  has_member : Z;
  is_object : Z;
  value_due : bool;
  done_ : bool;
}.
Definition Writer_new (out : bytes) : Writer := MkWriter out 0 0 0 false false.
Definition is_complete (self : Writer) : bool := done_ self && (depth self =? 0)%nat.

Definition push (self : Writer) (text : bytes) : Writer :=
  MkWriter (out self ++ text) (depth self) (has_member self) (is_object self) (value_due self) (done_ self).
Definition set_due (self : Writer) (value_due : bool) : Writer :=
  MkWriter (out self) (depth self) (has_member self) (is_object self) value_due (done_ self).
Definition set_done (self : Writer) : Writer :=
  MkWriter (out self) (depth self) (has_member self) (is_object self) (value_due self) true.
Definition set_depth (self : Writer) (depth : nat) : Writer :=
  MkWriter (out self) depth (has_member self) (is_object self) (value_due self) (done_ self).
Definition set_has (self : Writer) (has_member : Z) : Writer :=
  MkWriter (out self) (depth self) has_member (is_object self) (value_due self) (done_ self).
Definition set_object (self : Writer) (is_object : Z) : Writer :=
  MkWriter (out self) (depth self) (has_member self) is_object (value_due self) (done_ self).

Definition bit (self : Writer) : Z := default 0 (checked_shl 128 1 (Z.of_nat (depth self - 1))).
Definition not128 (x : Z) : Z := 2 ^ 128 - 1 - x.

Definition before_value (self : Writer) : result WriteError Writer :=
  if (depth self =? 0)%nat then
    if done_ self then Err Misplaced else Ok (set_done self)
  else if has (is_object self) (bit self) then
    if value_due self then Ok (set_due self false) else Err Misplaced
  else
    let self := if has (has_member self) (bit self) then push self [44] else self in
    Ok (set_has self (Z.lor (has_member self) (bit self))).

Definition open (self : Writer) (byte : Z) (object : bool) : result WriteError Writer :=
  if (MAX_DEPTH <=? depth self)%nat then Err TooDeep
  else
    let? self := before_value self in
    let self := push self [byte] in
    let self := set_depth self (depth self + 1) in
    let self := set_has self (Z.land (has_member self) (not128 (bit self))) in
    Ok (if object then set_object self (Z.lor (is_object self) (bit self))
        else set_object self (Z.land (is_object self) (not128 (bit self)))).
Definition close (self : Writer) (byte : Z) (object : bool) : result WriteError Writer :=
  if (depth self =? 0)%nat || value_due self then Err Misplaced
  else if negb (eqb (has (is_object self) (bit self)) object) then Err Misplaced
  else let self := push self [byte] in Ok (set_depth self (depth self - 1)).

Definition begin_object (self : Writer) : result WriteError Writer := open self 123 true.
Definition end_object (self : Writer) : result WriteError Writer := close self 125 true.
Definition begin_array (self : Writer) : result WriteError Writer := open self 91 false.
Definition end_array (self : Writer) : result WriteError Writer := close self 93 false.

(** ** Strings and integers *)

Definition hex_digit (nibble : Z) : Z :=
  let nibble := Z.land nibble 0x0f in
  if nibble <=? 9 then wrapping_add 8 48 nibble else wrapping_add 8 97 (wrapping_sub 8 nibble 10).

(** The escape of an octet: [None] when it is written as it is. *)
Definition string_escape (byte : Z) : option bytes :=
  match byte with
  | 34 => Some (bs "\" ++ [34])
  | 92 => Some (bs "\\")
  | 10 => Some (bs "\n")
  | 13 => Some (bs "\r")
  | 9 => Some (bs "\t")
  | 8 => Some (bs "\b")
  | 12 => Some (bs "\f")
  | _ => if byte <? 32 then Some (bs "\u00" ++ [hex_digit (Z.shiftr byte 4); hex_digit (Z.land byte 0x0f)]) else None
  end.
(** [rest] are the octets from [index] on, and those before [start] are written. *)
Fixpoint string_loop (text rest : bytes) (index start : nat) (out : bytes) : bytes :=
  match rest with
  | [] => out ++ drop start text
  | byte :: rest =>
      match string_escape byte with
      | None => string_loop text rest (S index) start out
      | Some escape => string_loop text rest (S index) (S index) (out ++ default [] (get_range start index text) ++ escape)
      end
  end.
Definition write_string (out text : bytes) : bytes := string_loop text text 0 0 (out ++ [34]) ++ [34].

Fixpoint unsigned_loop (fuel : nat) (digits : bytes) (at_ : nat) (value : Z) : bytes * nat :=
  match fuel with
  | O => (digits, at_)
  | S fuel =>
      let at_ := (at_ - 1)%nat in
      let digits := <[at_ := wrapping_add 8 48 (value mod 10)]> digits in
      let value := value / 10 in
      if (value =? 0) || (at_ =? 0)%nat then (digits, at_) else unsigned_loop fuel digits at_ value
  end.
(** The loop stops at the front of its twenty octets. *)
Definition write_unsigned (out : bytes) (value : Z) : bytes :=
  let (digits, at_) := unsigned_loop 20 (replicate 20 0) 20 value in out ++ drop at_ digits.

(** ** Values *)

Definition key (self : Writer) (name : bytes) : result WriteError Writer :=
  if (depth self =? 0)%nat || negb (has (is_object self) (bit self)) || value_due self then Err Misplaced
  else
    let self := if has (has_member self) (bit self) then push self [44] else self in
    let self := set_has self (Z.lor (has_member self) (bit self)) in
    let self := MkWriter (write_string (out self) name) (depth self) (has_member self) (is_object self) (value_due self) (done_ self) in
    Ok (set_due (push self [58]) true).
Definition set_out (self : Writer) (out : bytes) : Writer :=
  MkWriter out (depth self) (has_member self) (is_object self) (value_due self) (done_ self).
Definition string (self : Writer) (value : bytes) : result WriteError Writer :=
  let? self := before_value self in Ok (set_out self (write_string (out self) value)).
Definition int (self : Writer) (value : Z) : result WriteError Writer :=
  let? self := before_value self in
  let self := if value <? 0 then push self [45] else self in
  Ok (set_out self (write_unsigned (out self) (Z.abs value))).
Definition uint (self : Writer) (value : Z) : result WriteError Writer :=
  let? self := before_value self in Ok (set_out self (write_unsigned (out self) value)).
Definition float (self : Writer) (value : f64) : result WriteError Writer :=
  if negb (is_finite value) then Err NonFinite
  else let? self := before_value self in Ok (push self (pointed (f64_display value))).
Definition bool_ (self : Writer) (value : bool) : result WriteError Writer :=
  let? self := before_value self in Ok (push self (if value then bs "true" else bs "false")).
Definition null (self : Writer) : result WriteError Writer :=
  let? self := before_value self in Ok (push self (bs "null")).

Fixpoint uints (content : bytes) (self : Writer) : result WriteError Writer :=
  match content with
  | [] => Ok self
  | byte :: content => let? self := uint self byte in uints content self
  end.
Fixpoint value (v : Value) (self : Writer) : result WriteError Writer :=
  match v with
  | Null => null self
  | Bool flag => bool_ self flag
  | Int number => int self number
  | Float number => float self number
  | Str text => string self text
  | Bytes content => let? self := begin_array self in let? self := uints content self in end_array self
  | Array items =>
      let? self := begin_array self in
      let? self := (fix items_loop (items : list Value) (self : Writer) : result WriteError Writer :=
        match items with
        | [] => Ok self
        | item :: items => let? self := value item self in items_loop items self
        end) items self in
      end_array self
  | Object members =>
      let? self := begin_object self in
      let? self := (fix members_loop (members : list (bytes * Value)) (self : Writer) : result WriteError Writer :=
        match members with
        | [] => Ok self
        | (name, member) :: members =>
            let? self := key self name in
            let? self := value member self in
            members_loop members self
        end) members self in
      end_object self
  end.

Definition to_vec (v : Value) : result WriteError bytes :=
  let? self := value v (Writer_new []) in Ok (out self).

(** ** The tests of [write.rs] *)

Example tree : to_vec (Object [(bs "a", Array [Int 1; Null]); (bs "b", Bytes [0; 255]); (bs "c", Float (round_ratio true 1 2))])
  = Ok (bs "{" ++ 34 :: bs "a" ++ 34 :: bs ":[1,null]," ++ 34 :: bs "b" ++ 34 :: bs ":[0,255]," ++ 34 :: bs "c" ++ 34 :: bs ":-0.5}").
Proof. by vm_compute. Qed.
Example escaped : to_vec (Str [97; 34; 98; 92; 10; 1; 31; 127; 47]) = Ok (34 :: bs "a\" ++ 34 :: bs "b\\\n\u0001\u001f" ++ [127; 47; 34]).
Proof. by vm_compute. Qed.
Example integral : to_vec (Array [Float (round_ratio false 0 1); Int 0]) = Ok (bs "[0.0,0]").
Proof. by vm_compute. Qed.
Example wide : to_vec (Int (- 2 ^ 63)) = Ok (bs "-9223372036854775808")
  /\ to_vec (Float (of_decimal false 1 21)) = Ok (bs "1000000000000000000000.0").
Proof. by vm_compute. Qed.
Example misplaced : key (Writer_new []) (bs "x") = Err Misplaced
  /\ (let? w := begin_object (Writer_new []) in int w 1) = Err Misplaced
  /\ (let? w := begin_object (Writer_new []) in let? w := key w (bs "a") in end_object w) = Err Misplaced
  /\ (let? w := begin_array (Writer_new []) in end_object w) = Err Misplaced
  /\ (let? w := int (Writer_new []) 1 in int w 2) = Err Misplaced.
Proof. by vm_compute. Qed.
Example too_deep : to_vec (Nat.iter 129 (fun v => Array [v]) Null) = Err TooDeep
  /\ is_ok (to_vec (Nat.iter 128 (fun v => Array [v]) Null)) = true.
Proof. by vm_compute. Qed.
