(* ===== verification/JsonText.v ===== *)
(** * What the JSON writer writes

    The writer keeps a bit per open container in two words.  Here is the machine it
    stands for, a stack of the open containers, with the proof that each operation of the
    writer is the operation of the stack; the text of a value, and the reason a value is
    refused; and that the writer writes that text. *)
From S2P Require Import Prelude Date JsonFloat JsonValue JsonWrite.

(** ** The stack *)

(** An open container: whether it is an object, and whether it has something in it. *)
Record Frame : Type := MkFrame { in_object : bool; in_use : bool }.
Record Stack : Type := MkStack { written : bytes; frames : list Frame; due : bool; finished : bool }.

Definition stack_push (s : Stack) (text : bytes) : Stack := MkStack (written s ++ text) (frames s) (due s) (finished s).
(** The separator of the frame, and the frame with something in it. *)
Definition separated (s : Stack) (f : Frame) (fs : list Frame) (due : bool) : Stack :=
  MkStack (written s ++ if in_use f then [44] else []) (MkFrame (in_object f) true :: fs) due (finished s).
Definition stack_before (s : Stack) : result WriteError Stack :=
  match frames s with
  | [] => if finished s then Err Misplaced else Ok (MkStack (written s) [] (due s) true)
  | f :: fs =>
      if in_object f then if due s then Ok (MkStack (written s) (f :: fs) false (finished s)) else Err Misplaced
      else Ok (separated s f fs (due s))
  end.
Definition stack_open (s : Stack) (byte : Z) (object : bool) : result WriteError Stack :=
  if (MAX_DEPTH <=? length (frames s))%nat then Err TooDeep
  else let? s := stack_before s in Ok (MkStack (written s ++ [byte]) (MkFrame object false :: frames s) (due s) (finished s)).
Definition stack_close (s : Stack) (byte : Z) (object : bool) : result WriteError Stack :=
  match frames s with
  | [] => Err Misplaced
  | f :: fs => if due s || negb (eqb (in_object f) object) then Err Misplaced else Ok (MkStack (written s ++ [byte]) fs (due s) (finished s))
  end.
Definition stack_key (s : Stack) (name : bytes) : result WriteError Stack :=
  match frames s with
  | [] => Err Misplaced
  | f :: fs => if negb (in_object f) || due s then Err Misplaced else Ok (stack_push (separated s f fs true) (name ++ [58]))
  end.
Definition stack_scalar (s : Stack) (text : bytes) : result WriteError Stack :=
  let? s := stack_before s in Ok (stack_push s text).

(** ** The writer stands for a stack *)

Fixpoint bits (frames : list Frame) (has_member is_object : Z) : Prop :=
  match frames with
  | [] => True
  | f :: fs => Z.testbit is_object (Z.of_nat (length fs)) = in_object f /\ Z.testbit has_member (Z.of_nat (length fs)) = in_use f /\
      bits fs has_member is_object
  end.
Definition stands (w : Writer) (s : Stack) : Prop :=
  out w = written s /\ depth w = length (frames s) /\ (length (frames s) <= MAX_DEPTH)%nat /\
  value_due w = due s /\ done_ w = finished s /\ 0 <= has_member w /\ 0 <= is_object w /\ bits (frames s) (has_member w) (is_object w).
(** The two are refused alike, or go on alike. *)
Definition alike (w : result WriteError Writer) (s : result WriteError Stack) : Prop :=
  match w, s with Ok w, Ok s => stands w s | Err e, Err e' => e = e' | _, _ => False end.

Lemma has_pow x i : 0 <= i -> has x (2 ^ i) = Z.testbit x i.
Proof.
  intros Hi. unfold has. destruct (Z.testbit x i) eqn:Hb.
  - apply negb_true_iff, Z.eqb_neq. intros H. apply (f_equal (fun z => Z.testbit z i)) in H.
    rewrite Z.land_spec, Hb, Z.pow2_bits_true, Z.bits_0 in H by done. done.
  - apply negb_false_iff, Z.eqb_eq. apply Z.bits_inj'. intros j Hj. rewrite Z.land_spec, Z.pow2_bits_eqb, Z.bits_0 by done.
    destruct (Z.eqb_spec i j) as [->|]; [by rewrite Hb|by rewrite andb_false_r].
Qed.
Lemma bit_pow w n : depth w = S n -> (S n <= MAX_DEPTH)%nat -> bit w = 2 ^ Z.of_nat n.
Proof.
  unfold MAX_DEPTH. intros Hd Hn. unfold bit, checked_shl. rewrite Hd. rewrite (proj2 (Z.ltb_lt _ _)) by lia. cbn [default from_option id].
  replace (S n - 1)%nat with n by lia. rewrite Z.shiftl_1_l, Z.mod_small; [done|].
  split; [apply Z.pow_nonneg; lia|]. apply Z.pow_lt_mono_r; lia.
Qed.
Lemma testbit_set x i j : 0 <= i -> Z.testbit (Z.lor x (2 ^ i)) j = Z.testbit x j || (i =? j).
Proof. intros Hi. by rewrite Z.lor_spec, Z.pow2_bits_eqb. Qed.
Lemma testbit_clear x i j : 0 <= i < 128 -> 0 <= j < 128 -> Z.testbit (Z.land x (not128 (2 ^ i))) j = Z.testbit x j && negb (i =? j).
Proof.
  intros Hi Hj. rewrite Z.land_spec. f_equal. unfold not128. replace (2 ^ 128 - 1) with (Z.ones 128) by (by rewrite Z.ones_equiv).
  rewrite Z.sub_nocarry_ldiff.
  - rewrite Z.ldiff_spec, Z.ones_spec_low, Z.pow2_bits_eqb by lia. done.
  - apply Z.bits_inj'. intros k Hk. rewrite Z.ldiff_spec, Z.pow2_bits_eqb, Z.bits_0 by lia. destruct (Z.eqb_spec i k) as [->|]; [|done].
    by rewrite Z.ones_spec_low by lia.
Qed.
Lemma not128_nonneg i : 0 <= i < 128 -> 0 <= not128 (2 ^ i).
Proof. intros Hi. unfold not128. pose proof (Z.pow_lt_mono_r 2 i 128 ltac:(lia) ltac:(lia)). lia. Qed.

(** The bits of the frames below are those of the words that agree there. *)
Lemma bits_agree fs h o h' o' : bits fs h o ->
  (forall j, 0 <= j < Z.of_nat (length fs) -> Z.testbit h' j = Z.testbit h j /\ Z.testbit o' j = Z.testbit o j) -> bits fs h' o'.
Proof.
  induction fs as [|f fs IH]; [done|]. cbn [bits length]. intros (H1 & H2 & H3) Ha.
  destruct (Ha (Z.of_nat (length fs))) as [Hh Ho]; [lia|]. rewrite Ho, Hh. split_and!; [done|done|]. apply (IH H3). intros j Hj. apply Ha. lia.
Qed.
Lemma stands_push w s text : stands w s -> stands (push w text) (stack_push s text).
Proof. intros (H1 & H). split; [|done]. cbn. by rewrite H1. Qed.

Section top.
(** The innermost container. *)
Context (w : Writer) (s : Stack) (f : Frame) (fs : list Frame) (Hf : frames s = f :: fs) (Hs : stands w s).
Lemma top_depth : depth w = S (length fs).
Proof. destruct Hs as (_ & -> & _). by rewrite Hf. Qed.
Lemma top_max : (S (length fs) <= MAX_DEPTH)%nat.
Proof. destruct Hs as (_ & _ & H & _). by rewrite Hf in H. Qed.
Lemma top_bit : bit w = 2 ^ Z.of_nat (length fs).
Proof. apply bit_pow; [apply top_depth|apply top_max]. Qed.
Lemma innermost_object : has (is_object w) (bit w) = in_object f.
Proof. rewrite top_bit, has_pow by lia. destruct Hs as (_ & _ & _ & _ & _ & _ & _ & H). rewrite Hf in H. by destruct H. Qed.
Lemma top_use : has (has_member w) (bit w) = in_use f.
Proof. rewrite top_bit, has_pow by lia. destruct Hs as (_ & _ & _ & _ & _ & _ & _ & H). rewrite Hf in H. by destruct H as (_ & H & _). Qed.
Lemma top_separated due' : stands (set_due (set_has (push w (if in_use f then [44] else [])) (Z.lor (has_member w) (bit w))) due') (separated s f fs due').
Proof.
  destruct Hs as (H1 & H2 & H3 & H4 & H5 & H6 & H7 & H8). rewrite Hf in *. destruct H8 as (Ho & Hh & Hb). rewrite top_bit.
  split_and!; cbn; try done.
  - by rewrite H1.
  - apply Z.lor_nonneg. split; [done|apply Z.pow_nonneg; lia].
  - split_and!; [done| |].
    + rewrite testbit_set by lia. by rewrite Z.eqb_refl, orb_true_r.
    + apply (bits_agree _ _ _ _ _ Hb). intros j Hj. rewrite testbit_set by lia. split; [|done].
      rewrite (proj2 (Z.eqb_neq _ _)) by lia. apply orb_false_r.
Qed.
End top.

Lemma stands_frames w s : stands w s -> match frames s with [] => depth w = O | _ => exists n, depth w = S n end.
Proof. intros (_ & Hd & _). rewrite Hd. destruct (frames s); [done|]. by eexists. Qed.

(** ** Each operation is the operation of the stack *)

Lemma separator_push w s f fs : stands w s -> frames s = f :: fs ->
  (if has (has_member w) (bit w) then push w [44] else w) = push w (if in_use f then [44] else []).
Proof.
  intros Hs Hf. rewrite (top_use w s f fs Hf Hs). destruct (in_use f); [done|]. unfold push. rewrite app_nil_r. by destruct w.
Qed.
Lemma before_alike w s : stands w s -> alike (before_value w) (stack_before s).
Proof.
  intros Hs. unfold before_value, stack_before. pose proof (stands_frames _ _ Hs) as Hd. destruct (frames s) as [|f fs] eqn:Hf.
  - rewrite Hd. cbn [Nat.eqb]. destruct Hs as (H1 & H2 & H3 & H4 & H5 & H6 & H7 & H8). rewrite H5. destruct (finished s); [done|].
    rewrite Hf in *. by split_and!.
  - destruct Hd as [n ->]. cbn [Nat.eqb]. rewrite (innermost_object w s f fs Hf Hs). destruct (in_object f) eqn:Ho.
    + destruct Hs as (H1 & H2 & H3 & H4 & H5 & H6 & H7 & H8). rewrite H4. destruct (due s); [|done]. rewrite Hf in *. by split_and!.
    + cbv zeta. rewrite (separator_push w s f fs Hs Hf). pose proof (top_separated w s f fs Hf Hs (value_due w)) as Ht.
      destruct Hs as (_ & _ & _ & H4 & _). rewrite <- H4. exact Ht.
Qed.
Lemma before_depth w w' : before_value w = Ok w' -> depth w' = depth w.
Proof.
  unfold before_value. destruct (depth w =? 0)%nat; [destruct (done_ w); [done|by intros [= <-]]|].
  destruct (has (is_object w) (bit w)); [destruct (value_due w); [by intros [= <-]|done]|].
  intros [= <-]. by destruct (has (has_member w) (bit w)).
Qed.
Lemma stack_before_length s s' : stack_before s = Ok s' -> length (frames s') = length (frames s).
Proof.
  unfold stack_before. destruct (frames s) as [|f fs]; [by destruct (finished s); [|intros [= <-]]|].
  destruct (in_object f); [destruct (due s); [|done]|]; by intros [= <-].
Qed.

(** A container opened: its bits are set anew, and those below stay. *)
Lemma bits_opened fs h o object : bits fs h o -> (length fs < MAX_DEPTH)%nat -> 0 <= h -> 0 <= o ->
  let bit := 2 ^ Z.of_nat (length fs) in
  let h' := Z.land h (not128 bit) in
  let o' := if (object : bool) then Z.lor o bit else Z.land o (not128 bit) in
  0 <= h' /\ 0 <= o' /\ bits (MkFrame object false :: fs) h' o'.
Proof.
  intros H Hl Hh Ho bit h' o'. unfold MAX_DEPTH in Hl. set (n := Z.of_nat (length fs)) in *. assert (0 <= n < 128) as Hn by lia.
  assert (forall j, 0 <= j < 128 -> Z.testbit h' j = Z.testbit h j && negb (n =? j)) as Hth by (intros j Hj; by apply testbit_clear).
  assert (forall j, 0 <= j < 128 -> Z.testbit o' j = if n =? j then object else Z.testbit o j) as Hto.
  { intros j Hj. unfold o', bit. destruct object; [rewrite testbit_set by lia|rewrite testbit_clear by lia];
      destruct (n =? j); by rewrite ?orb_true_r, ?orb_false_r, ?andb_true_r, ?andb_false_r. }
  split; [apply Z.land_nonneg; by left|]. split.
  { unfold o'. destruct object; [apply Z.lor_nonneg; split; [done|apply Z.pow_nonneg; lia]|apply Z.land_nonneg; by left]. }
  cbn [bits length in_object in_use]. fold n. rewrite Hth, Hto, Z.eqb_refl, andb_false_r by lia. split_and!; [done|done|].
  apply (bits_agree _ _ _ _ _ H). intros j Hj. fold n in Hj. rewrite Hth, Hto by lia. rewrite (proj2 (Z.eqb_neq n j)) by lia.
  by rewrite andb_true_r.
Qed.
Lemma stands_opened w s byte (object : bool) : stands w s -> (length (frames s) < MAX_DEPTH)%nat ->
  stands (let self := push w [byte] in
          let self := set_depth self (depth self + 1) in
          let self := set_has self (Z.land (has_member self) (not128 (bit self))) in
          if object then set_object self (Z.lor (is_object self) (bit self))
          else set_object self (Z.land (is_object self) (not128 (bit self))))
         (MkStack (written s ++ [byte]) (MkFrame object false :: frames s) (due s) (finished s)).
Proof.
  intros (H1 & H2 & H3 & H4 & H5 & H6 & H7 & H8) Hd. unfold push, set_depth, set_has, set_object.
  cbn [out depth has_member is_object value_due done_].
  assert (forall h o, bit (MkWriter (out w ++ [byte]) (depth w + 1) h o (value_due w) (done_ w)) = 2 ^ Z.of_nat (length (frames s))) as Hb
    by (intros h o; apply bit_pow; [cbn [depth]; lia|lia]).
  rewrite !Hb. destruct (bits_opened _ _ _ object H8 Hd H6 H7) as (Hh & Ho & Hbits). rewrite H1, H2, H4, H5, Nat.add_1_r.
  destruct object; (split_and!; try done; cbn [frames length]; lia).
Qed.
Lemma open_alike w s byte object : stands w s -> alike (open w byte object) (stack_open s byte object).
Proof.
  intros Hs. unfold open, stack_open. pose proof Hs as (_ & Hd & _). rewrite Hd.
  destruct (Nat.leb_spec MAX_DEPTH (length (frames s))) as [|Hm]; [done|]. pose proof (before_alike w s Hs) as Hb.
  destruct (before_value w) as [w'|], (stack_before s) as [s'|] eqn:E; try done. cbn [alike] in *.
  apply stands_opened; [done|]. by rewrite (stack_before_length _ _ E).
Qed.
Lemma close_alike w s byte object : stands w s -> alike (close w byte object) (stack_close s byte object).
Proof.
  intros Hs. unfold close, stack_close. pose proof (stands_frames _ _ Hs) as Hd. destruct (frames s) as [|f fs] eqn:Hf; [by rewrite Hd|].
  destruct Hd as [n Hd]. rewrite Hd at 1. cbn [Nat.eqb orb]. pose proof (innermost_object w s f fs Hf Hs) as Ho. rewrite Ho.
  destruct Hs as (H1 & H2 & H3 & H4 & H5 & H6 & H7 & H8). rewrite H4. destruct (due s); [done|]. cbn [orb].
  destruct (negb (eqb (in_object f) object)); [done|]. rewrite Hf in *. cbn [length bits] in *. destruct H8 as (_ & _ & H8).
  split_and!; cbn; try done; [by rewrite H1|lia|lia].
Qed.

(** ** Strings *)

(** A string as it is written. *)
Definition octet_text (byte : Z) : bytes := default [byte] (string_escape byte).
Definition quoted (text : bytes) : bytes := 34 :: mbind octet_text text ++ [34].

Lemma string_loop_text text rest : forall before start out, text = before ++ rest -> (start <= length before)%nat ->
  string_loop text rest (length before) start out = out ++ drop start before ++ mbind octet_text rest.
Proof.
  induction rest as [|byte rest IH]; intros before start out E Hs; cbn [string_loop].
  - rewrite app_nil_r in E. subst. cbn. by rewrite app_nil_r.
  - rewrite E in IH |- *. replace (before ++ byte :: rest) with ((before ++ [byte]) ++ rest) in IH |- * by (by rewrite <- app_assoc).
    specialize (IH (before ++ [byte])). rewrite length_app in IH. cbn [length] in IH. rewrite Nat.add_1_r in IH.
    change (mbind octet_text (byte :: rest)) with (octet_text byte ++ mbind octet_text rest).
    destruct (string_escape byte) as [escape|] eqn:He; [assert (octet_text byte = escape) as -> by (unfold octet_text; by rewrite He)
      |assert (octet_text byte = [byte]) as -> by (unfold octet_text; by rewrite He)].
    + rewrite IH by (try done; lia). rewrite drop_ge by (rewrite length_app; cbn; lia).
      assert (get_range start (length before) ((before ++ [byte]) ++ rest) = Some (drop start before)) as ->.
      { replace ((before ++ [byte]) ++ rest) with (take start before ++ drop start before ++ byte :: rest) by (by rewrite app_assoc, take_drop, <- app_assoc).
        replace (length before) with (start + length (drop start before))%nat by (rewrite length_drop; lia).
        replace start with (length (take start before)) at 1 2 by (rewrite length_take; lia). apply get_range_app. }
      cbn. by rewrite <- !app_assoc.
    + rewrite IH by (try done; lia). rewrite drop_app_le by done. by rewrite <- !app_assoc.
Qed.
Lemma write_string_text out text : write_string out text = out ++ quoted text.
Proof.
  unfold write_string, quoted. rewrite (string_loop_text text text []) by done. cbn [drop app]. rewrite <- !app_assoc. done.
Qed.

(** ** Integers *)

Lemma unsigned_loop_text fuel : forall digits value, fuel <> O ->
  unsigned_loop fuel digits fuel value = let self := digits_loop fuel value (MkDecimal digits fuel) in (buf self, start self).
Proof.
  induction fuel as [|fuel IH]; intros digits value H; [done|]. cbn [unsigned_loop digits_loop start buf].
  replace (S fuel - 1)%nat with fuel by lia. destruct (value / 10 =? 0); [done|]. cbn [orb].
  destruct fuel; [done|]. cbn [Nat.eqb]. by rewrite IH.
Qed.
Lemma write_unsigned_text out value : 0 <= value < 2 ^ 64 -> write_unsigned out value = out ++ decimal_text value.
Proof.
  intros Hv. unfold write_unsigned. rewrite unsigned_loop_text by done. cbv zeta. f_equal.
  assert (0 <= value < 10 ^ Z.of_nat 20) as H20 by (change (10 ^ Z.of_nat 20) with 100000000000000000000; pow2; lia).
  destruct (digits_loop_text 20 value (MkDecimal (replicate 20 0) 20) H20) as (H1 & _); [lia|cbn; lia|lia|].
  cbn [start buf] in *. rewrite H1. apply app_nil_r.
Qed.
Definition integer_text (number : Z) : bytes := sign_text (number <? 0) ++ decimal_text (Z.abs number).

(** ** Names and single values *)

Lemma key_alike w s name : stands w s -> alike (key w name) (stack_key s (quoted name)).
Proof.
  intros Hs. unfold key, stack_key. pose proof (stands_frames _ _ Hs) as Hd. destruct (frames s) as [|f fs] eqn:Hf; [by rewrite Hd|].
  destruct Hd as [n Hd]. rewrite Hd at 1. cbn [Nat.eqb orb]. rewrite (innermost_object w s f fs Hf Hs).
  pose proof Hs as (_ & _ & _ & Hdue & _). rewrite Hdue. destruct (negb (in_object f) || due s); [done|]. cbv zeta.
  rewrite (separator_push w s f fs Hs Hf). rewrite write_string_text.
  pose proof (stands_push _ _ (quoted name ++ [58]) (top_separated w s f fs Hf Hs true)) as H. cbn [alike]. revert H.
  unfold push, set_due, set_has. cbn [out depth has_member is_object value_due done_]. by rewrite <- !app_assoc.
Qed.
Lemma scalar_alike w s (k : Writer -> Writer) text : stands w s -> (forall w, k w = push w text) ->
  alike (let? w := before_value w in Ok (k w)) (stack_scalar s text).
Proof.
  intros Hs Hk. unfold stack_scalar. pose proof (before_alike w s Hs) as Hb.
  destruct (before_value w) as [w'|], (stack_before s) as [s'|]; try done. cbn [alike] in *. rewrite Hk. by apply stands_push.
Qed.
Lemma string_alike w s text : stands w s -> alike (string w text) (stack_scalar s (quoted text)).
Proof. intros Hs. apply (scalar_alike w s (fun w => set_out w (write_string (out w) text)) _ Hs). intros w'. by rewrite write_string_text. Qed.
Lemma uint_alike w s value : stands w s -> 0 <= value < 2 ^ 64 -> alike (uint w value) (stack_scalar s (decimal_text value)).
Proof.
  intros Hs Hv. apply (scalar_alike w s (fun w => set_out w (write_unsigned (out w) value)) _ Hs). intros w'. by rewrite write_unsigned_text.
Qed.
Lemma int_alike w s value : stands w s -> - 2 ^ 63 <= value < 2 ^ 63 -> alike (int w value) (stack_scalar s (integer_text value)).
Proof.
  intros Hs Hv. apply (scalar_alike w s (fun w => let w := if value <? 0 then push w [45] else w in set_out w (write_unsigned (out w) (Z.abs value))) _ Hs).
  intros w'. cbv zeta. rewrite write_unsigned_text by (pow2; lia). unfold integer_text, set_out, push.
  destruct (value <? 0); cbn [out depth has_member is_object value_due done_ sign_text app]; [|done]. by rewrite <- app_assoc.
Qed.

(** ** The text of a value, and why it is refused *)

Fixpoint joined (used : bool) (texts : list bytes) : bytes :=
  match texts with [] => [] | text :: texts => (if used then [44] else []) ++ text ++ joined true texts end.
Fixpoint json_text (v : Value) : bytes :=
  match v with
  | Null => bs "null"
  | Bool flag => if flag then bs "true" else bs "false"
  | Int number => integer_text number
  | Float number => pointed (f64_display number)
  | Str text => quoted text
  | Bytes content => 91 :: joined false (List.map decimal_text content) ++ [93]
  | Array items => 91 :: joined false (List.map json_text items) ++ [93]
  | Object members => 123 :: joined false (List.map (fun m => quoted m.1 ++ 58 :: json_text m.2) members) ++ [125]
  end.

(** The first of the refusals in the order of the text. *)
Definition first_of (refusals : list (option WriteError)) : option WriteError :=
  foldr (fun o rest => match o with Some e => Some e | None => rest end) None refusals.
(** [n] containers are open. *)
Fixpoint refusal (v : Value) (n : nat) : option WriteError :=
  match v with
  | Float number => if is_finite number then None else Some NonFinite
  | Bytes _ => if (MAX_DEPTH <=? n)%nat then Some TooDeep else None
  | Array items => if (MAX_DEPTH <=? n)%nat then Some TooDeep else first_of (List.map (fun v => refusal v (S n)) items)
  | Object members => if (MAX_DEPTH <=? n)%nat then Some TooDeep else first_of (List.map (fun m => refusal m.2 (S n)) members)
  | _ => None
  end.

(** The integers are of 64 bits and the octets are octets. *)
Fixpoint typed (v : Value) : Prop :=
  match v with
  | Int number => - 2 ^ 63 <= number < 2 ^ 63
  | Bytes content => octets content
  | Array items => fold_right (fun v rest => typed v /\ rest) True items
  | Object members => fold_right (fun m rest => typed m.2 /\ rest) True members
  | _ => True
  end.
Lemma typed_items items : typed (Array items) <-> Forall typed items.
Proof. cbn. induction items as [|v items IH]; cbn; [split; [constructor|done]|]. by rewrite Forall_cons, IH. Qed.
Lemma typed_members members : typed (Object members) <-> Forall (fun m => typed m.2) members.
Proof. cbn. induction members as [|v items IH]; cbn; [split; [constructor|done]|]. by rewrite Forall_cons, IH. Qed.

(** *** The loops of a tree *)

Fixpoint items_loop (items : list Value) (self : Writer) : result WriteError Writer :=
  match items with [] => Ok self | item :: items => let? self := value item self in items_loop items self end.
Fixpoint members_loop (members : list (bytes * Value)) (self : Writer) : result WriteError Writer :=
  match members with
  | [] => Ok self
  | (name, member) :: members => let? self := key self name in let? self := value member self in members_loop members self
  end.
Lemma value_array items w : value (Array items) w = let? w := begin_array w in let? w := items_loop items w in end_array w.
Proof. done. Qed.
Lemma value_object members w : value (Object members) w = let? w := begin_object w in let? w := members_loop members w in end_object w.
Proof. done. Qed.

(** What a value does to a stack it may go on: it is refused, or its text is written. *)
Definition written_as (r : result WriteError Writer) (refused : option WriteError) (s : Stack) : Prop :=
  match refused with Some e => r = Err e | None => exists w, r = Ok w /\ stands w s end.
Definition value_written (v : Value) : Prop := forall w s s1, stands w s -> stack_before s = Ok s1 -> due s1 = false ->
  written_as (value v w) (refusal v (length (frames s))) (stack_push s1 (json_text v)).

Lemma scalar_written w s s1 text : stack_before s = Ok s1 -> alike w (stack_scalar s text) -> written_as w None (stack_push s1 text).
Proof. unfold stack_scalar. intros -> H. destruct w as [w|]; [by exists w|done]. Qed.

(** The items of an array, each after its separator. *)
Definition filled (s : Stack) (object : bool) (fs : list Frame) (used : bool) (text : bytes) : Stack :=
  MkStack (written s ++ text) (MkFrame object used :: fs) false (finished s).
Lemma joined_cons used text texts : joined used (text :: texts) = (if used then [44] else []) ++ text ++ joined true texts.
Proof. done. Qed.

Lemma uints_written content : octets content -> forall w s used fs, stands w s -> frames s = MkFrame false used :: fs -> due s = false ->
  exists w' used', uints content w = Ok w' /\ stands w' (filled s false fs used' (joined used (List.map decimal_text content))).
Proof.
  induction 1 as [|b content Hb _ IH]; intros w s used fs Hs Hf Hd; cbn [uints List.map].
  - exists w, used. split; [done|]. unfold filled. rewrite app_nil_r, <- Hf, <- Hd. by destruct s.
  - assert (stack_before s = Ok (separated s (MkFrame false used) fs (due s))) as E by (unfold stack_before; by rewrite Hf).
    pose proof (uint_alike w s b Hs ltac:(word_lia)) as Ha. apply (scalar_written _ _ _ _ E) in Ha as (w' & Hw & Hs'). rewrite Hw.
    destruct (IH w' _ true fs Hs' eq_refl Hd) as (w2 & used' & -> & Hs2). exists w2, used'. split; [done|]. revert Hs2.
    unfold filled, stack_push, separated. cbn [written frames due finished in_use]. by rewrite joined_cons, <- !app_assoc.
Qed.
Lemma items_written items : Forall value_written items -> forall w s used fs, stands w s -> frames s = MkFrame false used :: fs -> due s = false ->
  exists used', written_as (items_loop items w) (first_of (List.map (fun v => refusal v (S (length fs))) items))
    (filled s false fs used' (joined used (List.map json_text items))).
Proof.
  induction 1 as [|v items Hv _ IH]; intros w s used fs Hs Hf Hd; cbn [items_loop List.map].
  - exists used, w. split; [done|]. unfold filled. rewrite app_nil_r, <- Hf, <- Hd. by destruct s.
  - assert (stack_before s = Ok (separated s (MkFrame false used) fs (due s))) as E by (unfold stack_before; by rewrite Hf).
    pose proof (Hv w s _ Hs E Hd) as Hw. rewrite Hf in Hw. change (length (MkFrame false used :: fs)) with (S (length fs)) in Hw.
    change (first_of (?o :: ?rest)) with (match o with Some e => Some e | None => first_of rest end).
    destruct (refusal v (S (length fs))) as [e|]; [exists used; cbn [written_as] in *; by rewrite Hw|].
    destruct Hw as (w' & -> & Hs'). destruct (IH w' _ true fs Hs' eq_refl Hd) as (used' & H). exists used'. revert H.
    unfold filled, stack_push, separated. cbn [written frames due finished in_use]. by rewrite joined_cons, <- !app_assoc.
Qed.
Lemma members_written members : Forall (fun m => value_written m.2) members -> forall w s used fs, stands w s ->
  frames s = MkFrame true used :: fs -> due s = false ->
  exists used', written_as (members_loop members w) (first_of (List.map (fun m => refusal m.2 (S (length fs))) members))
    (filled s true fs used' (joined used (List.map (fun m => quoted m.1 ++ 58 :: json_text m.2) members))).
Proof.
  induction 1 as [|[name v] members Hv _ IH]; intros w s used fs Hs Hf Hd; cbn [members_loop List.map].
  - exists used, w. split; [done|]. unfold filled. rewrite app_nil_r, <- Hf, <- Hd. by destruct s.
  - pose proof (key_alike w s name Hs) as Hk. unfold stack_key in Hk. rewrite Hf, Hd in Hk. cbn [in_object negb orb] in Hk.
    destruct (key w name) as [w1|]; [|done]. cbn [alike] in Hk. set (s1 := stack_push _ _) in Hk.
    cbn [fst snd] in *. pose proof (Hv w1 s1 _ Hk eq_refl eq_refl) as Hw. change (length (frames s1)) with (S (length fs)) in Hw.
    change (first_of (?o :: ?rest)) with (match o with Some e => Some e | None => first_of rest end).
    destruct (refusal v (S (length fs))) as [e|]; [exists used; cbn [written_as] in *; by rewrite Hw|].
    destruct Hw as (w' & -> & Hs'). destruct (IH w' _ true fs Hs' eq_refl eq_refl) as (used' & H). exists used'. revert H. subst s1.
    unfold filled, stack_push, separated. cbn [written frames due finished in_use]. rewrite joined_cons, <- !app_assoc. cbn [app].
    by rewrite <- ?app_assoc.
Qed.

(** *** Containers *)

Definition opened (s1 : Stack) (byte : Z) (object : bool) : Stack :=
  MkStack (written s1 ++ [byte]) (MkFrame object false :: frames s1) (due s1) (finished s1).
Lemma open_written w s s1 byte object : stands w s -> stack_before s = Ok s1 ->
  if (MAX_DEPTH <=? length (frames s))%nat then open w byte object = Err TooDeep
  else exists w1, open w byte object = Ok w1 /\ stands w1 (opened s1 byte object).
Proof.
  intros Hs E. pose proof (open_alike w s byte object Hs) as H. unfold stack_open in H. rewrite E in H.
  destruct (MAX_DEPTH <=? length (frames s))%nat.
  - destruct (open w byte object); [done|]. cbn in H. by rewrite H.
  - destruct (open w byte object) as [w1|]; [by exists w1|done].
Qed.
Lemma close_written w s1 byte c object used text : stands w (filled (opened s1 byte object) object (frames s1) used text) -> due s1 = false ->
  exists w', close w c object = Ok w' /\ stands w' (stack_push s1 (byte :: text ++ [c])).
Proof.
  intros Hs Hd. pose proof (close_alike w _ c object Hs) as H. unfold stack_close in H. cbn [filled frames in_object due orb] in H.
  rewrite eqb_reflx in H. cbn [negb] in H. destruct (close w c object) as [w'|]; [|done]. exists w'. split; [done|]. cbn [alike] in H. revert H.
  unfold filled, opened, stack_push. cbn [written finished]. rewrite <- Hd, <- !app_assoc. done.
Qed.
Lemma container_written (loop : Writer -> result WriteError Writer) w s s1 byte c object refused text :
  stands w s -> stack_before s = Ok s1 -> due s1 = false ->
  (forall w1, stands w1 (opened s1 byte object) -> (length (frames s1) < MAX_DEPTH)%nat ->
     exists used, written_as (loop w1) refused (filled (opened s1 byte object) object (frames s1) used text)) ->
  written_as (let? w := open w byte object in let? w := loop w in close w c object)
    (if (MAX_DEPTH <=? length (frames s))%nat then Some TooDeep else refused) (stack_push s1 (byte :: text ++ [c])).
Proof.
  intros Hs E Hd Hl. pose proof (open_written w s s1 byte object Hs E) as Ho. rewrite <- (stack_before_length _ _ E) in *.
  destruct (Nat.leb_spec MAX_DEPTH (length (frames s1))) as [|Hm]; [cbn; by rewrite Ho|]. destruct Ho as (w1 & -> & Hs1).
  destruct (Hl w1 Hs1 Hm) as (used & H). destruct refused as [e|]; [cbn [written_as] in *; by rewrite H|].
  destruct H as (w2 & -> & Hs2). by eapply close_written.
Qed.
Lemma value_written_all v : typed v -> value_written v.
Proof.
  induction v as [|flag|number|number|text|content|items IH|members IH] using value_ind'; intros Ht w s s1 Hs E Hd.
  - apply (scalar_written _ _ _ _ E). by apply (scalar_alike w s (fun w => push w (bs "null")) _ Hs).
  - apply (scalar_written _ _ _ _ E). by apply (scalar_alike w s (fun w => push w (if flag then bs "true" else bs "false")) _ Hs).
  - apply (scalar_written _ _ _ _ E). by apply int_alike.
  - cbn [value refusal]. unfold float. destruct (is_finite number); [|done]. cbn [negb]. apply (scalar_written _ _ _ _ E).
    by apply (scalar_alike w s (fun w => push w (pointed (f64_display number))) _ Hs).
  - apply (scalar_written _ _ _ _ E). by apply string_alike.
  - cbn [value refusal json_text]. apply (container_written (uints content)); try done. intros w1 Hs1 _.
    destruct (uints_written content Ht w1 _ false (frames s1) Hs1 eq_refl Hd) as (w2 & used & Hw & Hs2). exists used, w2. done.
  - apply typed_items in Ht. rewrite value_array. cbn [refusal json_text].
    apply (container_written (items_loop items)); try done. intros w1 Hs1 Hm. rewrite <- (stack_before_length _ _ E).
    apply items_written; try done. apply Forall_forall. intros v Hv. rewrite Forall_forall in IH, Ht. by apply IH, Ht.
  - apply typed_members in Ht. rewrite value_object. cbn [refusal json_text].
    apply (container_written (members_loop members)); try done. intros w1 Hs1 Hm. rewrite <- (stack_before_length _ _ E).
    apply members_written; try done. apply Forall_forall. intros v Hv. rewrite Forall_forall in IH, Ht. by apply IH, Ht.
Qed.
Lemma stands_new out : stands (Writer_new out) (MkStack out [] false false).
Proof. split_and!; try done; cbn; lia. Qed.
Lemma to_vec_text v : typed v -> to_vec v = match refusal v 0 with Some e => Err e | None => Ok (json_text v) end.
Proof.
  intros Ht. pose proof (value_written_all v Ht _ _ _ (stands_new []) eq_refl eq_refl) as H. unfold to_vec.
  change (length (frames (MkStack [] [] false false))) with 0%nat in H. destruct (refusal v 0) as [e|]; [by rewrite H|].
  destruct H as (w & -> & Hw & _). by rewrite Hw.
Qed.

(** C27. The writer is a stack of open containers: from a writer that stands for a stack,
    every operation of it is refused as the stack refuses it, or gives a writer that
    stands for what the stack becomes, with the same octets. *)
Theorem writer_refines w s : stands w s ->
  alike (begin_object w) (stack_open s 123 true) /\ alike (end_object w) (stack_close s 125 true) /\
  alike (begin_array w) (stack_open s 91 false) /\ alike (end_array w) (stack_close s 93 false) /\
  (forall name, alike (key w name) (stack_key s (quoted name))) /\
  (forall text, alike (string w text) (stack_scalar s (quoted text))) /\
  (forall value, - 2 ^ 63 <= value < 2 ^ 63 -> alike (int w value) (stack_scalar s (integer_text value))) /\
  (forall value, 0 <= value < 2 ^ 64 -> alike (uint w value) (stack_scalar s (decimal_text value))) /\
  (forall value, alike (float w value) (if is_finite value then stack_scalar s (pointed (f64_display value)) else Err NonFinite)) /\
  (forall flag, alike (bool_ w flag) (stack_scalar s (if flag then bs "true" else bs "false"))) /\
  alike (null w) (stack_scalar s (bs "null")).
Proof.
  intros Hs. split_and!; intros; try (by apply open_alike); try (by apply close_alike).
  - by apply key_alike.
  - by apply string_alike.
  - by apply int_alike.
  - by apply uint_alike.
  - unfold float. destruct (is_finite value); [|done]. by apply (scalar_alike w s (fun w => push w (pointed (f64_display value))) _ Hs).
  - by apply (scalar_alike w s (fun w => push w (if flag then bs "true" else bs "false")) _ Hs).
  - by apply (scalar_alike w s (fun w => push w (bs "null")) _ Hs).
Qed.
Lemma writer_refines_witness : exists w, JsonWrite.key (Writer_new [] ) (bs "a") = Err Misplaced /\
  begin_object (Writer_new []) = Ok w /\ stands w (MkStack [123] [MkFrame true false] false true) /\
  alike (key w (bs "a")) (Ok (MkStack (123 :: quoted (bs "a") ++ [58]) [MkFrame true true] true true)).
Proof.
  eexists. split; [vm_compute; reflexivity|]. split; [vm_compute; reflexivity|].
  assert (stands (MkWriter [123] 1 0 1 false true) (MkStack [123] [MkFrame true false] false true)) as Hs
    by (split_and!; try done; unfold MAX_DEPTH; cbn; lia).
  split; [exact Hs|]. pose proof (writer_refines _ _ Hs) as (_ & _ & _ & _ & H & _). exact (H (bs "a")).
Defined.
