(* ===== verification/JsonRound.v ===== *)
(** * What the JSON writer writes, the JSON parser reads

    The text of a value is in the grammar of [JsonGrammar], so the parser reads it back:
    the same value, with bytes as an array of integers and repeated names merged. *)
From S2P Require Import Prelude Scalar Utf8 Date JsonFloat JsonValue JsonWrite JsonText JsonParse JsonMerge JsonGrammar.

(** ** Strings *)

Lemma hex_pair byte : 0 <= byte < 32 ->
  hex_unit [48; 48; JsonWrite.hex_digit (Z.shiftr byte 4); JsonWrite.hex_digit (Z.land byte 0x0f)] byte /\ encode_char byte = [byte].
Proof.
  intros Hb. assert (exists i, (i < 32)%nat /\ byte = Z.of_nat i) as (i & Hi & ->) by (exists (Z.to_nat byte); lia).
  split; [|unfold encode_char; by rewrite (proj2 (Z.ltb_lt _ _)) by lia].
  exists 0, 0, (Z.of_nat i / 16), (Z.of_nat i mod 16). split; [|pose proof (Z.div_mod (Z.of_nat i) 16); lia].
  do 32 (destruct i as [|i]; [by vm_compute|]). lia.
Qed.
Lemma octet_chars byte text out : u8 byte -> chars text out -> chars (octet_text byte ++ text) (byte :: out).
Proof.
  intros Hb Hc. unfold u8 in Hb. destruct (decide (32 <= byte)) as [H32|H32].
  - destruct (decide (byte = 34)) as [->|Hq]; [by constructor|]. destruct (decide (byte = 92)) as [->|Hs]; [by constructor|].
    assert (octet_text byte = [byte]) as ->.
    { unfold octet_text, string_escape. rewrite (proj2 (Z.ltb_ge _ _)) by lia.
      destruct byte as [|p|p]; try lia; repeat (destruct p as [p|p|]; try done; try lia). }
    by constructor.
  - destruct (hex_pair byte) as [Hu He]; [word_lia|].
    destruct (decide (byte = 10)) as [->|]; [by constructor|]. destruct (decide (byte = 13)) as [->|]; [by constructor|].
    destruct (decide (byte = 9)) as [->|]; [by constructor|]. destruct (decide (byte = 8)) as [->|]; [by constructor|].
    destruct (decide (byte = 12)) as [->|]; [by constructor|].
    assert (octet_text byte = bs "\u00" ++ [JsonWrite.hex_digit (Z.shiftr byte 4); JsonWrite.hex_digit (Z.land byte 0x0f)]) as ->.
    { unfold octet_text, string_escape. rewrite (proj2 (Z.ltb_lt _ _)) by lia.
      destruct byte as [|p|p]; try done; repeat (destruct p as [p|p|]; try done; try lia). }
    change (byte :: out) with ([byte] ++ out). rewrite <- He.
    apply (Unicode [48; 48; JsonWrite.hex_digit (Z.shiftr byte 4); JsonWrite.hex_digit (Z.land byte 0x0f)]); [done| |done].
    unfold surrogate. lia.
Qed.
Lemma quoted_string text : octets text -> from_utf8 text = true -> string_text (quoted text) text.
Proof.
  intros Ho Hu. exists (mbind octet_text text). split; [done|]. split; [|done]. clear Hu.
  induction Ho as [|b text Hb _ IH]; [constructor|]. by apply octet_chars.
Qed.

(** ** Numbers *)

Lemma value_from_ge ds : forall m, digits_only ds -> 0 <= m -> m <= value_from m ds.
Proof.
  induction ds as [|d ds IH]; intros m Hd Hm; [unfold value_from; cbn; lia|]. apply Forall_cons in Hd as [Hd Hds].
  change (value_from m (d :: ds)) with (value_from (m * 10 + (d - 48)) ds). specialize (IH (m * 10 + (d - 48)) Hds). lia.
Qed.
Lemma magnitude_value ds : forall m, digits_only ds -> 0 <= m -> value_from m ds < 2 ^ 64 -> magnitude_loop m ds = Some (value_from m ds).
Proof.
  induction ds as [|d ds IH]; intros m Hd Hm Hv; [done|]. apply Forall_cons in Hd as [Hd Hds]. cbn [magnitude_loop].
  change (value_from m (d :: ds)) with (value_from (m * 10 + (d - 48)) ds) in *.
  pose proof (value_from_ge ds (m * 10 + (d - 48)) Hds ltac:(lia)) as Hge. unfold checked_mul. rewrite (proj2 (Z.ltb_lt _ _)) by lia.
  unfold wrapping_sub, checked_add. rewrite (Z.mod_small (d - 48)) by (pow2; lia). rewrite (proj2 (Z.ltb_lt _ _)) by lia.
  apply IH; [done|lia|done].
Qed.
Lemma decimal_digits n : 0 <= n < 2 ^ 64 -> digits_only (decimal_text n) /\ value_from 0 (decimal_text n) = n /\ whole_part (decimal_text n).
Proof.
  intros Hn. assert (0 <= n < 10 ^ Z.of_nat 20) as H20 by (change (10 ^ Z.of_nat 20) with 100000000000000000000; pow2; lia).
  pose proof (digits_digit 20 n ltac:(lia)) as Hd. split; [done|]. split; [by apply digits_value|]. split; [done|].
  destruct (decide (n = 0)) as [->|]; [by left|right]. apply digits_head. lia.
Qed.
Lemma parse_i64_integer n : - 2 ^ 63 <= n < 2 ^ 63 -> parse_i64 (integer_text n) = Some n.
Proof.
  intros Hn. destruct (decimal_digits (Z.abs n)) as (Hd & Hv & Hw); [pow2; lia|]. unfold parse_i64, integer_text.
  destruct (Z.ltb_spec n 0) as [Hneg|Hpos]; cbn [sign_text app].
  - rewrite magnitude_value, Hv by (try done; rewrite ?Hv; pow2; lia). destruct (Z.eqb_spec (Z.abs n) (2 ^ 63)); [f_equal; lia|].
    unfold as_i64_magnitude. rewrite (proj2 (Z.ltb_lt _ _)) by lia. cbn. f_equal. lia.
  - assert (exists d ds, decimal_text (Z.abs n) = d :: ds /\ d <> 45) as (d & ds & E & Hd45).
    { destruct Hw as [_ [Hw|(d & ds & Hw & _)]]; [by exists 48, []|]. exists d, ds. split; [done|].
      rewrite Hw in Hd. apply Forall_cons in Hd as [Hd _]. lia. }
    assert ((match decimal_text (Z.abs n) with 45 :: rest => (true, rest) | _ => (false, decimal_text (Z.abs n)) end) = (false, decimal_text (Z.abs n))) as ->.
    { rewrite E. destruct d as [|p|p]; try done. repeat (destruct p as [p|p|]; try done). }
    rewrite magnitude_value, Hv by (try done; rewrite ?Hv; pow2; lia). unfold as_i64_magnitude.
    rewrite (proj2 (Z.ltb_lt _ _)) by lia. f_equal. lia.
Qed.
Lemma integer_number n : - 2 ^ 63 <= n < 2 ^ 63 -> number_text (integer_text n) false /\ number_value Lossy (integer_text n) false = Some (Int n).
Proof.
  intros Hn. destruct (decimal_digits (Z.abs n)) as (Hd & Hv & Hw); [pow2; lia|]. split.
  - unfold integer_text. rewrite <- (app_nil_r (decimal_text _)). apply (Number _ _ [] false [] false Hw); constructor.
  - unfold number_value. by rewrite parse_i64_integer.
Qed.
Lemma float_number neg m e : canonical m e ->
  number_text (pointed (f64_display (Finite neg m e))) true /\ number_value Lossy (pointed (f64_display (Finite neg m e))) true = Some (Float (Finite neg m e)).
Proof.
  intros Hc. destruct (float_written neg m e Hc) as (whole & frac & -> & Hw & Hf & Hne & Hp). split.
  - pose proof (Number neg whole (46 :: frac) true [] false Hw (Frac _ Hf Hne) NoExp) as H. by rewrite app_nil_r in H.
  - unfold number_value. by rewrite Hp.
Qed.

(** ** Values *)

(** What is read for a value. *)
Fixpoint read_back (v : Value) : Value :=
  match v with
  | Bytes content => Array (List.map Int content)
  | Array items => Array (List.map read_back items)
  | Object members => Object (merge_repeated (List.map (fun m => (m.1, read_back m.2)) members))
  | v => v
  end.
(** The strings are UTF-8 and the floats are numbers of the format. *)
Fixpoint valid (v : Value) : Prop :=
  match v with
  | Float (Finite _ m e) => canonical m e
  | Str text => octets text /\ from_utf8 text = true
  | Array items => fold_right (fun v rest => valid v /\ rest) True items
  | Object members => fold_right (fun m rest => ((octets m.1 /\ from_utf8 m.1 = true) /\ valid m.2) /\ rest) True members
  | _ => True
  end.
Fixpoint nesting (v : Value) : nat :=
  match v with
  | Bytes _ => 1
  | Array items => S (fold_right (fun v n => Nat.max (nesting v) n) 0 items)
  | Object members => S (fold_right (fun m n => Nat.max (nesting m.2) n) 0 members)
  | _ => 0
  end%nat.


Lemma first_of_None refusals : first_of refusals = None <-> Forall (fun o => o = None) refusals.
Proof.
  induction refusals as [|o refusals IH]; [split; [constructor|done]|]. rewrite Forall_cons, <- IH. cbn. destruct o; naive_solver.
Qed.
Lemma fold_forall {A} (P : A -> Prop) l : fold_right (fun x rest => P x /\ rest) True l <-> Forall P l.
Proof. induction l as [|x l IH]; cbn; [split; [constructor|done]|]. by rewrite Forall_cons, IH. Qed.
Lemma fold_max {A} (f : A -> nat) l n : (fold_right (fun x n => Nat.max (f x) n) 0 l <= n)%nat <-> Forall (fun x => (f x <= n)%nat) l.
Proof. induction l as [|x l IH]; cbn; [split; [constructor|lia]|]. rewrite Forall_cons, <- IH. lia. Qed.

Lemma joined_elements n texts vs : Forall2 (json Lossy n) texts vs -> texts <> [] -> elements Lossy n (joined false texts) vs.
Proof.
  induction 1 as [|text v texts vs Hj Hall IH]; [done|]. intros _. destruct Hall as [|text2 v2 texts vs Hj2 Hall].
  - pose proof (Item Lossy n [] text [] v ltac:(constructor) Hj ltac:(constructor)) as H. done.
  - pose proof (Items Lossy n [] text [] v _ _ ltac:(constructor) Hj ltac:(constructor) (IH ltac:(done))) as H. done.
Qed.
Lemma joined_members n (ms : list (bytes * bytes * Value)) : Forall (fun m => string_text (quoted m.1.1) m.1.1 /\ json Lossy n m.1.2 m.2) ms -> ms <> [] ->
  members Lossy n (joined false (List.map (fun m => quoted m.1.1 ++ 58 :: m.1.2) ms)) (List.map (fun m => (m.1.1, m.2)) ms).
Proof.
  induction 1 as [|[[name text] v] ms [Hs Hj] Hall IH]; [done|]. intros _. cbn [fst snd] in *. destruct ms as [|m2 ms].
  - pose proof (Member Lossy n [] _ _ [] [] text v [] ltac:(constructor) Hs ltac:(constructor) ltac:(constructor) Hj ltac:(constructor)) as H.
    cbn [List.map joined app]. rewrite !app_nil_r. cbn [app] in H. rewrite app_nil_r in H. done.
  - pose proof (Members Lossy n [] _ _ [] [] text v [] _ _ ltac:(constructor) Hs ltac:(constructor) ltac:(constructor) Hj ltac:(constructor) (IH ltac:(done))) as H.
    revert H. cbn [List.map joined app fst snd]. rewrite <- !app_assoc. cbn [app]. done.
Qed.

Definition reads (v : Value) : Prop := forall n open_, refusal v open_ = None -> (nesting v <= n)%nat -> json Lossy n (json_text v) (read_back v).

Lemma bytes_read content n : octets content -> (1 <= n)%nat -> json Lossy n (json_text (Bytes content)) (read_back (Bytes content)).
Proof.
  intros Ho Hn. destruct n as [|n]; [lia|]. cbn [json_text read_back]. destruct Ho as [|b content Hb Ho].
  - apply (JNoItems Lossy n []). constructor.
  - apply JArray, joined_elements; [|done]. apply Forall2_fmap_2, Forall_Forall2_diag, Forall_forall. intros x Hx.
    assert (u8 x) as Hx' by (apply (proj1 (Forall_forall _ (b :: content))); [by constructor|done]).
    destruct (integer_number x) as [H1 H2]; [word_lia|]. unfold integer_text in *.
    rewrite (proj2 (Z.ltb_ge x 0)), Z.abs_eq in H1, H2 by word_lia. by apply (JNumber _ _ _ false).
Qed.
Lemma array_read items n open_ : Forall reads items -> refusal (Array items) open_ = None -> (nesting (Array items) <= n)%nat ->
  json Lossy n (json_text (Array items)) (read_back (Array items)).
Proof.
  intros IH Hr Hn. cbn [nesting] in Hn. destruct n as [|n]; [lia|]. cbn [json_text read_back refusal] in *.
  destruct (MAX_DEPTH <=? open_)%nat; [done|]. apply first_of_None, Forall_map in Hr. apply le_S_n, fold_max in Hn.
  destruct items as [|v items]; [apply (JNoItems Lossy n []); constructor|].
  apply JArray, joined_elements; [|done]. apply Forall2_fmap_2, Forall_Forall2_diag, Forall_forall. intros x Hx.
  rewrite Forall_forall in IH, Hr, Hn. by eapply IH; [|apply Hr|apply Hn].
Qed.
Lemma object_read members n open_ : Forall (fun m => reads m.2) members -> Forall (fun m => octets m.1 /\ from_utf8 m.1 = true) members ->
  refusal (Object members) open_ = None -> (nesting (Object members) <= n)%nat ->
  json Lossy n (json_text (Object members)) (read_back (Object members)).
Proof.
  intros IH Hnames Hr Hn. cbn [nesting] in Hn. destruct n as [|n]; [lia|]. cbn [json_text read_back refusal] in *.
  destruct (MAX_DEPTH <=? open_)%nat; [done|]. apply first_of_None, Forall_map in Hr. apply le_S_n, fold_max in Hn.
  destruct members as [|m members]; [apply (JNoMembers Lossy n []); constructor|]. apply JObject.
  pose proof (joined_members n (List.map (fun m => (m.1, json_text m.2, read_back m.2)) (m :: members))) as H.
  rewrite !List.map_map in H. apply H; [|done]. apply Forall_map, Forall_forall. intros x Hx. rewrite Forall_forall in IH, Hnames, Hr, Hn.
  cbn. split; [apply quoted_string; by apply Hnames|]. by eapply IH; [|apply Hr|apply Hn].
Qed.
Lemma value_reads v : typed v -> valid v -> reads v.
Proof.
  induction v as [|flag|number|number|text|content|items IH|members IH] using value_ind'; intros Ht Hv n open_ Hr Hn.
  - constructor.
  - destruct flag; constructor.
  - destruct (integer_number number Ht) as [H1 H2]. by eapply JNumber.
  - destruct number as [neg m e| |]; [|done|done]. destruct (float_number neg m e Hv) as [H1 H2]. by eapply JNumber.
  - apply JString, quoted_string; apply Hv.
  - by apply bytes_read.
  - eapply array_read; [|done|done]. apply typed_items in Ht. apply (fold_forall valid) in Hv.
    rewrite Forall_forall in IH, Ht, Hv |- *. intros x Hx. by apply IH; [|apply Ht|apply Hv].
  - apply typed_members in Ht. apply (fold_forall (fun m => (octets m.1 /\ from_utf8 m.1 = true) /\ valid m.2)) in Hv.
    rewrite Forall_forall in IH, Ht, Hv. eapply object_read; [| |done|done]; apply Forall_forall; intros x Hx; [|by apply Hv].
    by apply IH; [|apply Ht|apply Hv].
Qed.

(** Without bytes and without a name twice in one object. *)
Fixpoint plain (v : Value) : Prop :=
  match v with
  | Bytes _ => False
  | Array items => fold_right (fun v rest => plain v /\ rest) True items
  | Object members => NoDup (members.*1) /\ fold_right (fun m rest => plain m.2 /\ rest) True members
  | _ => True
  end.
Lemma read_back_plain v : plain v -> read_back v = v.
Proof.
  induction v as [|flag|number|number|text|content|items IH|members IH] using value_ind'; intros Hp; try done; cbn [read_back plain] in *.
  - apply (fold_forall plain) in Hp. f_equal. rewrite Forall_forall in IH, Hp. rewrite <- (List.map_id items) at 2.
    apply map_ext_in. intros v Hv%list_elem_of_In. by apply IH, Hp.
  - destruct Hp as [Hn Hp]. apply (fold_forall (fun m => plain m.2)) in Hp. rewrite Forall_forall in IH, Hp.
    assert (List.map (fun m => (m.1, read_back m.2)) members = members) as ->.
    { rewrite <- (List.map_id members) at 2. apply map_ext_in. intros [name v] Hm%list_elem_of_In. cbn. f_equal.
      by apply (IH _ Hm), (Hp _ Hm). }
    by rewrite merge_repeated_merged, merged_distinct.
Qed.

(** C13. What [to_vec] writes, [parse] reads back.  A value of the types of the source is
    refused only for its nesting or for a float that is not finite, the first of them in
    the order of the text; otherwise its text is one the parser takes, within the limits,
    for the same value, bytes as integers and a repeated name as its last value.  With
    neither it is the value itself. *)
Theorem json_round_trip v options : typed v -> valid v -> big_integers options = Lossy ->
  match to_vec v with
  | Ok text =>
      refusal v 0 = None /\
      ((nesting v <= Nat.min (max_depth options) DEPTH_CAP)%nat -> (length text <= max_size options)%nat ->
       top_level_ok options (read_back v) = true -> parse_with text options = Ok (read_back v))
  | Err e => refusal v 0 = Some e
  end /\ (plain v -> read_back v = v).
Proof.
  intros Ht Hv Hb. split; [|apply read_back_plain]. rewrite to_vec_text by done. destruct (refusal v 0) as [e|] eqn:Hr; [done|].
  split; [done|]. intros Hn Hl Htop. apply parse_with_complete; [done|done|]. exists [], [], (json_text v), [].
  rewrite Hb. split_and!; [by left|constructor|constructor|by rewrite app_nil_r|]. by apply (value_reads v Ht Hv _ 0%nat).
Qed.
Definition sample : Value :=
  Object [(bs "a", Array [Int (- 42); Null; Bool true]); (bs "b", Float (Finite true 7205759403792794 (- 56))); (bs "c", Str [10; 195; 169])].
Definition sample_options : Options := MkOptions 100 2 Any Lossy.
Lemma sample_plain : plain sample.
Proof.
  split; [|by repeat split]. change ((_ : members_list).*1) with [bs "a"; bs "b"; bs "c"].
  rewrite !NoDup_cons, !elem_of_cons, !elem_of_nil. split_and!; try (by apply NoDup_nil); naive_solver.
Qed.
Lemma json_round_trip_witness : typed sample /\ valid sample /\ exists text, to_vec sample = Ok text /\ parse_with text sample_options = Ok sample.
Proof.
  assert (typed sample) as Ht by (cbn; split_and!; try done; lia).
  assert (valid sample) as Hv.
  { cbn. split_and!; try done; try (repeat (apply Forall_cons; split; [word_lia|]); apply Forall_nil; done).
    left. unfold MIN_EXP, MAX_EXP. lia. }
  split; [exact Ht|]. split; [exact Hv|]. exists (json_text sample). split; [vm_compute; reflexivity|].
  pose proof (json_round_trip sample sample_options Ht Hv eq_refl) as [H E].
  assert (to_vec sample = Ok (json_text sample)) as Hw by (vm_compute; reflexivity). rewrite Hw in H. destruct H as [_ H].
  rewrite <- (E sample_plain) at 2. apply H; vm_compute; [lia|lia|reflexivity].
Defined.
