(* ===== verification/StaticRange.v ===== *)
(** * Byte ranges

    [zero-static/src/range.rs]: the [Range] field of RFC 9110 Section 14.2 against a
    representation of a known length, and the fields and the content of a 206.  The
    theorem states which offsets are sent. *)
From S2P Require Import Prelude Scalar HttpTypes Date H1List H1Grammar.

Definition MAX_RANGES : nat := 16.

Inductive Ranges : Type := Ignore | Unsatisfiable | Refused | Satisfiable (ranges : list (Z * Z)).
#[global] Instance Ranges_eq_dec : EqDecision Ranges.
Proof. solve_decision. Defined.

Inductive Spec : Type := IntSpec (first : Z) (last_ : option Z) | SuffixSpec (length : Z).

Fixpoint digits_loop (value : Z) (octets : bytes) : option Z :=
  match octets with
  | [] => Some value
  | byte :: octets =>
      let! value := checked_mul 64 value 10 in
      let! value := checked_add 64 value (wrapping_sub 8 byte 48) in
      digits_loop value octets
  end.
Definition digits (octets : bytes) : option Z :=
  if bool_decide (octets = []) || negb (forallb is_digit octets) then None else digits_loop 0 octets.

Definition split_at_byte (octets : bytes) (separator : Z) : option (bytes * bytes) :=
  let! at_ := position (fun byte => byte =? separator) octets in Some (take at_ octets, drop (at_ + 1) octets).

Definition trim (octets : bytes) : bytes :=
  let start := default (length octets) (position (fun byte => negb (is_ows byte)) octets) in
  let end_ :=
    match rposition (fun byte => negb (is_ows byte)) octets with
    | Some last_ => S last_
    | None => start
    end in
  default [] (get_range start end_ octets).

Definition spec (member : bytes) : option Spec :=
  let! (first, last_) := split_at_byte member 45 in
  if bool_decide (first = []) then let! suffix := digits last_ in Some (SuffixSpec suffix)
  else
    let! first := digits first in
    if bool_decide (last_ = []) then Some (IntSpec first None)
    else
      let! last_ := digits last_ in
      if last_ <? first then None else Some (IntSpec first (Some last_)).

(** [None] when a member is invalid. *)
Fixpoint specs_loop (members : list bytes) (specs : list Spec) : option (list Spec) :=
  match members with
  | [] => Some specs
  | member :: members =>
      let member := trim member in
      if bool_decide (member = []) then specs_loop members specs
      else let! s := spec member in specs_loop members (specs ++ [s])
  end.

(** The offsets of a specifier; [None] when it selects nothing. *)
Definition resolved (length : Z) (s : Spec) : option (Z * Z) :=
  match s with
  | IntSpec first last_ =>
      if length <=? first then None
      else Some (first, from_option (fun last_ => Z.min last_ (saturating_sub length 1)) (saturating_sub length 1) last_)
  | SuffixSpec count =>
      if count =? 0 then None else Some (saturating_sub length count, saturating_sub length 1)
  end.
(** [None] when the request is refused. *)
Definition coalesce (ranges : list (Z * Z)) (range : Z * Z) : option (list (Z * Z)) :=
  match last ranges with
  | Some previous =>
      if range.1 <=? saturating_add 64 previous.2 1 then
        if range.1 <? previous.1 then None
        else Some (take (length ranges - 1) ranges ++ [(previous.1, Z.max previous.2 range.2)])
      else if range.1 <? previous.1 then None
      else Some (ranges ++ [range])
  | None => Some (ranges ++ [range])
  end.
Fixpoint ranges_loop (length : Z) (specs : list Spec) (ranges : list (Z * Z)) : option (list (Z * Z)) :=
  match specs with
  | [] => Some ranges
  | s :: specs =>
      match resolved length s with
      | None => ranges_loop length specs ranges
      | Some range => let! ranges := coalesce ranges range in ranges_loop length specs ranges
      end
  end.

Definition resolve (value : bytes) (length : Z) : Ranges :=
  let value := trim value in
  match split_at_byte value 61 with
  | None => Ignore
  | Some (unit, set) =>
      if negb (eq_ignore_ascii_case (trim unit) (bs "bytes")) then Ignore
      else
        match specs_loop (split_on (fun byte => byte =? 44) set) [] with
        | None => Ignore
        | Some specs =>
            if bool_decide (specs = []) then Ignore
            else if (MAX_RANGES <? List.length specs)%nat then Refused
            else if length =? 0 then Ignore
            else
              match ranges_loop length specs [] with
              | None => Refused
              | Some ranges => if bool_decide (ranges = []) then Unsatisfiable else Satisfiable ranges
              end
        end
  end.

Definition decimal_octets (value : Z) : bytes := as_bytes (Decimal_new value).
Definition write_content_range (out : bytes) (range : Z * Z) (length : Z) : bytes :=
  out ++ bs "bytes " ++ decimal_octets range.1 ++ [45] ++ decimal_octets range.2 ++ [47] ++ decimal_octets length.
Definition write_unsatisfied_range (out : bytes) (length : Z) : bytes := out ++ bs "bytes */" ++ decimal_octets length.

(** [data.get(first..=last)] *)
Definition slice_inclusive (data : bytes) (range : Z * Z) : option bytes :=
  if (range.1 <=? range.2 + 1) && (range.2 <? len data) then Some (take (Z.to_nat (range.2 + 1 - range.1)) (drop (Z.to_nat range.1) data)) else None.
Fixpoint parts_loop (data : bytes) (length : Z) (content_type boundary : bytes) (ranges : list (Z * Z)) (out : bytes) : bytes :=
  match ranges with
  | [] => out
  | range :: ranges =>
      match slice_inclusive data range with
      | None => parts_loop data length content_type boundary ranges out
      | Some part =>
          let out := out ++ CRLF ++ bs "--" ++ boundary ++ CRLF ++ bs "Content-Type: " ++ content_type ++ CRLF ++ bs "Content-Range: " in
          let out := write_content_range out range length in
          parts_loop data length content_type boundary ranges (out ++ CRLF ++ CRLF ++ part)
      end
  end.
Definition write_multipart (out data : bytes) (ranges : list (Z * Z)) (content_type boundary : bytes) : bytes :=
  parts_loop data (len data) content_type boundary ranges out ++ CRLF ++ bs "--" ++ boundary ++ bs "--" ++ CRLF.

(** ** The tests of [lib.rs] *)

Example single : resolve (bs "bytes=0-499") 10000 = Satisfiable [(0, 499)] /\ resolve (bs "bytes=9500-20000") 10000 = Satisfiable [(9500, 9999)]
  /\ resolve (bs "bytes=-20000") 10000 = Satisfiable [(0, 9999)].
Proof. by vm_compute. Qed.
Example several : resolve (bs "bytes= 0-999, 4500-5499, -1000") 10000 = Satisfiable [(0, 999); (4500, 5499); (9000, 9999)]
  /\ resolve (bs "bytes=500-600,601-999") 10000 = Satisfiable [(500, 999)] /\ resolve (bs "bytes=500-600,0-10") 10000 = Refused.
Proof. by vm_compute. Qed.
(** Ranges that overlap are joined, not refused. *)
Example overlapping : resolve (bs "bytes=500-700,601-999") 10000 = Satisfiable [(500, 999)].
Proof. by vm_compute. Qed.
Example none : resolve (bs "bytes=10000-") 10000 = Unsatisfiable /\ resolve (bs "bytes=-0") 10000 = Unsatisfiable
  /\ resolve (bs "bytes=5-2") 10000 = Ignore /\ resolve (bs "bytes=0-0") 0 = Ignore.
Proof. by vm_compute. Qed.
Example multipart : write_multipart [] (bs "0123456789") [(0, 1); (8, 9)] (bs "text/plain") (bs "SEP")
  = CRLF ++ bs "--SEP" ++ CRLF ++ bs "Content-Type: text/plain" ++ CRLF ++ bs "Content-Range: bytes 0-1/10" ++ CRLF ++ CRLF ++ bs "01"
    ++ CRLF ++ bs "--SEP" ++ CRLF ++ bs "Content-Type: text/plain" ++ CRLF ++ bs "Content-Range: bytes 8-9/10" ++ CRLF ++ CRLF ++ bs "89"
    ++ CRLF ++ bs "--SEP--" ++ CRLF.
Proof. by vm_compute. Qed.

(** ** The grammar of the field *)

Definition numeral (l : bytes) : Prop := l <> [] /\ Forall (fun b => is_digit b = true) l /\ decimal l < 2 ^ 64.
Inductive member_text : bytes -> Spec -> Prop :=
| FromTo f l : numeral f -> numeral l -> decimal f <= decimal l -> member_text (f ++ 45 :: l) (IntSpec (decimal f) (Some (decimal l)))
| FromOn f : numeral f -> member_text (f ++ [45]) (IntSpec (decimal f) None)
| LastOf n : numeral n -> member_text (45 :: n) (SuffixSpec (decimal n)).
(** The field names ranges of octets, by these specifiers. *)
Definition byte_ranges (value : bytes) (specs : list Spec) : Prop :=
  exists unit set, trim value = unit ++ 61 :: set /\ Forall (fun b => b <> 61) unit /\ eq_ignore_ascii_case (trim unit) (bs "bytes") = true /\
    specs <> [] /\ Forall2 member_text (list_elements set) specs.

Definition selects (length : Z) (s : Spec) (o : Z) : Prop :=
  match s with
  | IntSpec first (Some last_) => first <= o <= last_
  | IntSpec first None => first <= o
  | SuffixSpec count => length - count <= o
  end /\ 0 <= o < length.
Definition well_formed (s : Spec) : Prop :=
  match s with IntSpec first (Some last_) => 0 <= first <= last_ | IntSpec first None => 0 <= first | SuffixSpec count => 0 <= count end.

Definition covered (ranges : list (Z * Z)) (o : Z) : Prop := Exists (fun r => r.1 <= o <= r.2) ranges.
(** Ascending, and never two that touch. *)
Fixpoint separated (from : Z) (ranges : list (Z * Z)) : Prop :=
  match ranges with [] => True | (a, b) :: ranges => from <= a <= b /\ separated (b + 2) ranges end.
Definition octets_of (ranges : list (Z * Z)) : Z := fold_right (fun r total => r.2 - r.1 + 1 + total) 0 ranges.

Lemma trim_trim_ows : trim = trim_ows.
Proof. done. Qed.
Lemma digits_loop_length octets : forall value, forallb is_digit octets = true -> digits_loop value octets = content_length_loop value octets.
Proof.
  induction octets as [|b octets IH]; intros value H; [done|]. cbn [forallb] in H. apply andb_true_iff in H as [Hb H].
  cbn [digits_loop content_length_loop]. rewrite Hb. destruct (checked_mul 64 value 10); [|done]. destruct (checked_add 64 _ _); [|done]. by apply IH.
Qed.
Lemma digits_Some octets n : digits octets = Some n <-> numeral octets /\ n = decimal octets.
Proof.
  assert (digits octets = parse_content_length octets) as ->.
  { unfold digits, parse_content_length. destruct octets as [|b octets]; [done|]. rewrite bool_decide_eq_false_2 by done. cbn [orb].
    destruct (forallb is_digit (b :: octets)) eqn:Hd; [by apply digits_loop_length|]. cbn [negb].
    destruct (content_length_loop 0 (b :: octets)) as [m|] eqn:Hc; [|done]. apply content_length_loop_Some in Hc as [H _]; [|lia].
    exfalso. apply not_true_iff_false in Hd. apply Hd. rewrite forallb_forall. rewrite Forall_forall in H. intros x Hx%list_elem_of_In. by apply H. }
  rewrite parse_content_length_Some. unfold numeral. naive_solver.
Qed.
Lemma split_at_byte_Some octets separator before after :
  split_at_byte octets separator = Some (before, after) <-> octets = before ++ separator :: after /\ Forall (fun b => b <> separator) before.
Proof.
  unfold split_at_byte. split.
  - destruct (position _ octets) as [i|] eqn:Hp; [|done]. intros [= <- <-]. apply position_Some in Hp as (x & Hx & Hf & Hall).
    apply Z.eqb_eq in Hf as ->. rewrite Nat.add_1_r. split; [symmetry; by apply take_drop_middle|].
    eapply Forall_impl; [exact Hall|]. intros b Hb. by apply Z.eqb_neq.
  - intros [-> Hb]. rewrite position_app. rewrite (proj2 (position_None _ before)).
    + cbn [position]. rewrite Z.eqb_refl. cbn. rewrite Nat.add_0_r, take_app_length.
      replace (drop (length before + 1) (before ++ separator :: after)) with after; [done|].
      rewrite drop_app_ge by lia. by replace (length before + 1 - length before)%nat with 1%nat by lia.
    + eapply Forall_impl; [exact Hb|]. intros b Hne. by apply Z.eqb_neq.
Qed.

Lemma numeral_no_dash l : numeral l -> Forall (fun b => b <> 45) l.
Proof. intros (_ & H & _). eapply Forall_impl; [exact H|]. intros b Hb ->. done. Qed.
Lemma spec_exact member s : spec member = Some s <-> member_text member s.
Proof.
  unfold spec. split.
  - destruct (split_at_byte member 45) as [[f l]|] eqn:Hs; [|done]. apply split_at_byte_Some in Hs as [-> _]. case_bool_decide as Hf.
    + subst f. destruct (digits l) as [n|] eqn:Hn; [|done]. intros [= <-]. apply digits_Some in Hn as [Hn ->]. by constructor.
    + destruct (digits f) as [n|] eqn:Hn; [|done]. apply digits_Some in Hn as [Hn ->]. case_bool_decide as Hl.
      * intros [= <-]. subst l. by constructor.
      * destruct (digits l) as [m|] eqn:Hm; [|done]. apply digits_Some in Hm as [Hm ->]. destruct (Z.ltb_spec (decimal l) (decimal f)); [done|].
        intros [= <-]. by constructor.
  - intros [f l Hf Hl Hle|f Hf|n Hn].
    + rewrite (proj2 (split_at_byte_Some _ 45 f l)) by (split; [done|by apply numeral_no_dash]).
      rewrite !bool_decide_eq_false_2 by (by apply Hf || apply Hl). rewrite (proj2 (digits_Some f _) (conj Hf eq_refl)), (proj2 (digits_Some l _) (conj Hl eq_refl)).
      by rewrite (proj2 (Z.ltb_ge _ _)).
    + rewrite (proj2 (split_at_byte_Some _ 45 f [])) by (split; [done|by apply numeral_no_dash]).
      rewrite bool_decide_eq_false_2 by (apply Hf). by rewrite (proj2 (digits_Some f _) (conj Hf eq_refl)).
    + rewrite (proj2 (split_at_byte_Some _ 45 [] n)) by (split; [done|constructor]). rewrite bool_decide_eq_true_2 by done.
      by rewrite (proj2 (digits_Some n _) (conj Hn eq_refl)).
Qed.
Lemma decimal_nonneg l : Forall (fun b => is_digit b = true) l -> 0 <= decimal l.
Proof. intros H. by apply decimal_from_ge. Qed.
Lemma member_well_formed member s : member_text member s -> well_formed s.
Proof. intros [f l (_ & Hf & _) (_ & Hl & _) Hle|f (_ & Hf & _)|n (_ & Hn & _)]; cbn; try pose proof (decimal_nonneg _ Hf); try pose proof (decimal_nonneg _ Hn); lia. Qed.

Lemma specs_loop_Some members : forall specs found,
  specs_loop members specs = Some found <-> exists more, found = specs ++ more /\ Forall2 member_text (filter (fun e => e <> []) (trim_ows <$> members)) more.
Proof.
  induction members as [|m members IH]; intros specs found; cbn [specs_loop].
  - split; [intros [= <-]; exists []; by rewrite app_nil_r|]. intros (more & -> & H). inversion H. by rewrite app_nil_r.
  - rewrite fmap_cons, filter_cons. change (trim m) with (trim_ows m). case_bool_decide as Hm.
    + rewrite Hm, decide_False by (intros []; done). apply IH.
    + rewrite decide_True by done. destruct (spec (trim_ows m)) as [s|] eqn:Hs.
      * apply spec_exact in Hs as Ht. rewrite IH. split.
        -- intros (more & -> & H). exists (s :: more). rewrite <- app_assoc. split; [done|]. by constructor.
        -- intros (more & -> & H). inversion H as [|? s' ? more' Hm' Hmore]; subst. apply spec_exact in Hm'. assert (s' = s) as -> by congruence.
           exists more'. by rewrite <- app_assoc.
      * split; [done|]. intros (more & -> & H). inversion H as [|? s' ? more' Hm' Hmore]; subst. apply spec_exact in Hm'. congruence.
Qed.

(** ** Ranges *)

Lemma resolved_selects length s range : well_formed s -> 0 < length -> resolved length s = Some range ->
  (0 <= range.1 <= range.2 /\ range.2 < length) /\ forall o, selects length s o <-> range.1 <= o <= range.2.
Proof.
  unfold resolved, selects, saturating_sub. destruct s as [first [last_|]|count]; cbn [well_formed from_option]; intros Hw Hl.
  - destruct (Z.leb_spec length first); [done|]. intros [= <-]. cbn. split; [lia|]. intros o. lia.
  - destruct (Z.leb_spec length first); [done|]. intros [= <-]. cbn. split; [lia|]. intros o. lia.
  - destruct (Z.eqb_spec count 0); [done|]. intros [= <-]. cbn. split; [lia|]. intros o. lia.
Qed.
Lemma resolved_None length s : well_formed s -> 0 < length -> resolved length s = None -> forall o, ~ selects length s o.
Proof.
  unfold resolved, selects. destruct s as [first [last_|]|count]; cbn [well_formed]; intros Hw Hl.
  - destruct (Z.leb_spec length first); [|done]. intros _ o. lia.
  - destruct (Z.leb_spec length first); [|done]. intros _ o. lia.
  - destruct (Z.eqb_spec count 0); [|done]. intros _ o. lia.
Qed.

Lemma separated_snoc ranges : forall from a b, separated from (ranges ++ [(a, b)]) <->
  separated from ranges /\ a <= b /\ match last ranges with Some p => p.2 + 2 <= a | None => from <= a end.
Proof.
  induction ranges as [|[c d] ranges IH]; intros from a b; cbn [app separated]; [cbn; lia|]. rewrite IH.
  destruct ranges as [|r ranges]; [cbn; tauto|]. rewrite last_cons_cons. destruct (last (r :: ranges)) eqn:E; [tauto|by apply last_None in E].
Qed.
Lemma covered_snoc ranges r o : covered (ranges ++ [r]) o <-> covered ranges o \/ r.1 <= o <= r.2.
Proof. unfold covered. rewrite Exists_app. rewrite Exists_cons, Exists_nil. tauto. Qed.
Lemma separated_octets ranges : forall from top, separated from ranges -> from <= top -> Forall (fun r => r.2 < top) ranges -> octets_of ranges <= top - from.
Proof.
  induction ranges as [|[a b] ranges IH]; intros from top Hs Hle Ht; cbn [octets_of fold_right fst snd] in *; [lia|].
  destruct Hs as [Hab Hs]. apply Forall_cons in Ht as [Hb Ht]. cbn in Hb. destruct ranges as [|r ranges]; [cbn; lia|].
  assert (b + 2 <= top) as Hbt. { destruct r as [c d]. destruct Hs as [Hcd _]. apply Forall_cons in Ht as [Hd _]. cbn in Hd. lia. }
  specialize (IH (b + 2) top Hs Hbt Ht). unfold octets_of in IH. lia.
Qed.

Definition good (length : Z) (ranges : list (Z * Z)) : Prop := separated 0 ranges /\ Forall (fun r => r.2 < length) ranges.
Lemma coalesce_good length ranges range : length < 2 ^ 64 -> good length ranges -> 0 <= range.1 <= range.2 -> range.2 < length ->
  match coalesce ranges range with
  | Some ranges' => good length ranges' /\ (forall o, covered ranges' o <-> covered ranges o \/ range.1 <= o <= range.2) /\
      last ranges' <> None /\ (forall p p', last ranges = Some p -> last ranges' = Some p' -> p.1 <= p'.1) /\
      (List.length ranges' <= S (List.length ranges))%nat /\ (forall p', last ranges' = Some p' -> p'.1 = range.1 \/ exists p, last ranges = Some p /\ p'.1 = p.1)
  | None => exists p, last ranges = Some p /\ range.1 < p.1
  end.
Proof.
  intros H64 [Hs Ht] Hr Hrl. unfold coalesce. destruct ranges as [|p init _] using rev_ind.
  - cbn. split; [split; [cbn; destruct range; cbn in *; lia|by repeat constructor]|]. split; [intros o; apply (covered_snoc [] range)|].
    split; [done|]. split; [done|]. split; [lia|]. intros p' [= <-]. by left.
  - rewrite last_snoc. destruct p as [a b]. apply separated_snoc in Hs as (Hs & Hab & Hlast). apply Forall_app in Ht as [Ht Hb]. apply Forall_cons in Hb as [Hb _]. cbn [fst snd] in *.
    unfold saturating_add. assert (Z.min (b + 1) (2 ^ 64 - 1) = b + 1) as -> by lia. rewrite length_app. cbn [List.length].
    replace (List.length init + 1 - 1)%nat with (List.length init) by lia. rewrite take_app_length. destruct (Z.leb_spec range.1 (b + 1)).
    + destruct (Z.ltb_spec range.1 a); [by exists (a, b)|]. rewrite last_snoc. split.
      { split; [apply separated_snoc; split_and!; [done|lia|done]|]. apply Forall_app. split; [done|]. rewrite Forall_singleton. cbn. lia. }
      split.
      { intros o. rewrite !covered_snoc. cbn [fst snd]. assert (a <= o <= Z.max b range.2 <-> a <= o <= b \/ range.1 <= o <= range.2) as -> by lia. tauto. }
      split; [done|]. split; [intros p p' [= <-] [= <-]; cbn; lia|].
      split; [rewrite length_app; cbn; lia|]. intros p' [= <-]. right. by exists (a, b).
    + destruct (Z.ltb_spec range.1 a); [by exists (a, b)|]. rewrite last_snoc. split.
      { destruct range as [c d]. cbn [fst snd] in *. split; [apply separated_snoc; rewrite last_snoc; split_and!; [|lia|cbn; lia]; apply separated_snoc; split_and!; done|].
        apply Forall_app. split; [apply Forall_app; split; [done|by rewrite Forall_singleton]|by rewrite Forall_singleton]. }
      split; [intros o; rewrite !covered_snoc; tauto|]. split; [done|]. split; [intros p p' [= <-] [= <-]; cbn; lia|].
      split; [rewrite !length_app; cbn; lia|]. intros p' [= <-]. by left.
Qed.

(** A specifier whose offsets begin before those of one in front of it. *)
Definition backwards (length : Z) (specs : list Spec) : Prop :=
  exists before s middle s' after range range', specs = before ++ s :: middle ++ s' :: after /\
    resolved length s = Some range /\ resolved length s' = Some range' /\ range'.1 < range.1.
Definition selected (length : Z) (specs : list Spec) (o : Z) : Prop := Exists (fun s => selects length s o) specs.

(** What holds after the specifiers [past]. *)
Definition taken (length : Z) (past : list Spec) (ranges : list (Z * Z)) : Prop :=
  good length ranges /\ (forall o, covered ranges o <-> selected length past o) /\ (List.length ranges <= List.length past)%nat /\
  forall p, last ranges = Some p -> exists s q, s ∈ past /\ resolved length s = Some q /\ p.1 = q.1.

Lemma selected_snoc length specs s o : selected length (specs ++ [s]) o <-> selected length specs o \/ selects length s o.
Proof. unfold selected. rewrite Exists_app, Exists_cons, Exists_nil. tauto. Qed.
Lemma taken_skip length past ranges s : taken length past ranges -> (forall o, ~ selects length s o) -> taken length (past ++ [s]) ranges.
Proof.
  intros (H1 & H2 & H3 & H4) Hs. split_and!; [done|..].
  - intros o. rewrite selected_snoc, H2. specialize (Hs o). tauto.
  - rewrite length_app. lia.
  - intros p Hp. destruct (H4 p Hp) as (t & q & Ht & H). exists t, q. split; [apply elem_of_app; by left|done].
Qed.
Lemma taken_coalesce length past ranges s range : length < 2 ^ 64 -> 0 < length -> taken length past ranges -> well_formed s ->
  resolved length s = Some range ->
  match coalesce ranges range with
  | Some ranges' => taken length (past ++ [s]) ranges'
  | None => backwards length (past ++ [s])
  end.
Proof.
  intros H64 Hl (H1 & H2 & H3 & H4) Hw Hr. destruct (resolved_selects _ _ _ Hw Hl Hr) as [[Hr1 Hr2] Hsel].
  pose proof (coalesce_good length ranges range H64 H1 Hr1 Hr2) as H. destruct (coalesce ranges range) as [ranges'|].
  - destruct H as (Hg & Hc & _ & _ & Hlen & Hlast). split_and!; [done|..].
    + intros o. by rewrite Hc, H2, selected_snoc, Hsel.
    + rewrite length_app. cbn. lia.
    + intros p Hp. destruct (Hlast p Hp) as [E|(p0 & Hp0 & E)].
      * exists s, range. split; [apply elem_of_app; right; by left|done].
      * destruct (H4 p0 Hp0) as (t & q & Ht & Hq & Eq). exists t, q. split; [apply elem_of_app; by left|]. split; [done|congruence].
  - destruct H as (p & Hp & Hlt). destruct (H4 p Hp) as (t & q & Ht & Hq & Eq). apply list_elem_of_split in Ht as (before & middle & ->).
    exists before, t, middle, s, [], q, range. rewrite <- app_assoc. split_and!; try done. lia.
Qed.
Lemma backwards_app length specs more : backwards length specs -> backwards length (specs ++ more).
Proof.
  intros (before & s & middle & s' & after & q & q' & -> & H). exists before, s, middle, s', (after ++ more), q, q'.
  split; [|done]. rewrite <- app_assoc. cbn [app]. by rewrite <- app_assoc.
Qed.
Lemma ranges_loop_taken length specs : length < 2 ^ 64 -> 0 < length -> forall past ranges, taken length past ranges -> Forall well_formed specs ->
  match ranges_loop length specs ranges with
  | Some ranges' => taken length (past ++ specs) ranges'
  | None => backwards length (past ++ specs)
  end.
Proof.
  intros H64 Hl. induction specs as [|s specs IH]; intros past ranges Ht Hw; cbn [ranges_loop]; [by rewrite app_nil_r|].
  apply Forall_cons in Hw as [Hs Hw]. specialize (IH (past ++ [s])). rewrite <- app_assoc in IH. cbn [app] in IH.
  destruct (resolved length s) as [range|] eqn:Hr.
  - pose proof (taken_coalesce _ _ _ _ _ H64 Hl Ht Hs Hr) as H. destruct (coalesce ranges range) as [ranges'|]; [by apply IH|].
    apply (backwards_app _ _ specs) in H. by rewrite <- app_assoc in H.
  - apply IH; [|done]. apply taken_skip; [done|]. by apply resolved_None.
Qed.
Lemma taken_nil length : taken length [] [].
Proof. split_and!; [by split|..]; try done. intros o. unfold covered, selected. by rewrite !Exists_nil. Qed.
Lemma covered_nonempty length ranges : good length ranges -> ranges <> [] -> exists o, covered ranges o.
Proof. intros [Hs _] Hne. destruct ranges as [|[a b] ranges]; [done|]. exists a. apply Exists_cons. left. destruct Hs as [Hab _]. cbn. lia. Qed.

Lemma byte_ranges_exact value : 
  match split_at_byte (trim value) 61 with
  | Some (unit, set) => if eq_ignore_ascii_case (trim unit) (bs "bytes") then from_option (fun specs => if bool_decide (specs = []) then None else Some specs) None
      (specs_loop (split_on (fun byte => byte =? 44) set) []) else None
  | None => None
  end = None /\ (forall specs, ~ byte_ranges value specs) \/
  exists unit set specs, split_at_byte (trim value) 61 = Some (unit, set) /\ eq_ignore_ascii_case (trim unit) (bs "bytes") = true /\
    specs_loop (split_on (fun byte => byte =? 44) set) [] = Some specs /\ specs <> [] /\ byte_ranges value specs.
Proof.
  assert (forall specs, byte_ranges value specs -> exists unit set, split_at_byte (trim value) 61 = Some (unit, set) /\
    eq_ignore_ascii_case (trim unit) (bs "bytes") = true /\ specs_loop (split_on (fun byte => byte =? 44) set) [] = Some specs /\ specs <> []) as Hgrammar.
  { intros specs (unit & set & E & Hu & Hb & Hne & Hm). exists unit, set. split; [by apply split_at_byte_Some|]. split; [done|]. split; [|done].
    apply specs_loop_Some. by exists specs. }
  destruct (split_at_byte (trim value) 61) as [[unit set]|] eqn:Hs.
  2: { left. split; [done|]. intros specs H. by destruct (Hgrammar specs H) as (? & ? & ? & _). }
  destruct (eq_ignore_ascii_case (trim unit) (bs "bytes")) eqn:Hb.
  2: { left. split; [done|]. intros specs H. destruct (Hgrammar specs H) as (? & ? & [= <- <-] & ? & _). congruence. }
  destruct (specs_loop (split_on (fun byte => byte =? 44) set) []) as [specs|] eqn:Hl.
  2: { left. split; [done|]. intros specs H. destruct (Hgrammar specs H) as (? & ? & [= <- <-] & _ & ? & _). congruence. }
  cbn [from_option]. case_bool_decide as Hne.
  - left. split; [done|]. intros specs' H. destruct (Hgrammar specs' H) as (? & ? & [= <- <-] & _ & E & Hne'). rewrite Hl in E. congruence.
  - right. exists unit, set, specs. split_and!; try done. exists unit, set. apply split_at_byte_Some in Hs as [E Hu]. split_and!; try done.
    apply specs_loop_Some in Hl as (more & -> & H). exact H.
Qed.

(** C25. A [Range] field selects what it names.  For a representation of some length the
    ranges to send are ascending, never touch, lie within it, are sixteen at most, and
    hold exactly the offsets that a specifier of the field selects; so a response never
    carries an octet twice, nor more octets than the representation has.  The field is
    unsatisfiable when its specifiers select nothing, ignored when it is none of the
    [bytes] unit or there is no content, and refused only for more than sixteen
    specifiers or one that begins before an earlier one. *)
Theorem range_selection value length : 0 <= length < 2 ^ 64 ->
  match resolve value length with
  | Satisfiable ranges => exists specs, byte_ranges value specs /\ ranges <> [] /\ (List.length ranges <= MAX_RANGES)%nat /\
      separated 0 ranges /\ (forall o, covered ranges o <-> selected length specs o) /\ octets_of ranges <= length
  | Unsatisfiable => exists specs, byte_ranges value specs /\ forall o, ~ selected length specs o
  | Ignore => (forall specs, ~ byte_ranges value specs) \/ length = 0
  | Refused => exists specs, byte_ranges value specs /\ ((MAX_RANGES < List.length specs)%nat \/ backwards length specs)
  end.
Proof.
  intros Hl. unfold resolve. destruct (byte_ranges_exact value) as [[E Hno]|(unit & set & specs & -> & Hb & Hs & Hne & Hr)].
  - destruct (split_at_byte (trim value) 61) as [[unit set]|]; [|by left].
    destruct (eq_ignore_ascii_case (trim unit) (bs "bytes")); cbn [negb]; [|by left].
    destruct (specs_loop (split_on (fun byte => byte =? 44) set) []) as [specs|]; [|by left]. cbn [from_option] in E.
    case_bool_decide; [by left|done].
  - rewrite Hb, Hs. cbn [negb]. rewrite bool_decide_eq_false_2 by done.
    destruct (Nat.ltb_spec MAX_RANGES (List.length specs)) as [Hm|Hm]; [exists specs; by eauto|].
    destruct (Z.eqb_spec length 0) as [|H0]; [by right|].
    assert (Forall well_formed specs) as Hw.
    { destruct Hr as (_ & set' & _ & _ & _ & _ & H). clear -H. induction H; constructor; [by eapply member_well_formed|done]. }
    pose proof (ranges_loop_taken length specs ltac:(lia) ltac:(lia) [] [] (taken_nil length) Hw) as H. cbn [app] in H.
    destruct (ranges_loop length specs []) as [ranges|]; [|exists specs; by eauto]. destruct H as (Hg & Hc & Hlen & _).
    case_bool_decide as He.
    + subst. exists specs. split; [done|]. intros o Ho. apply Hc in Ho. by apply Exists_nil in Ho.
    + exists specs. split_and!; try done; [lia|apply Hg|]. destruct Hg as [Hsep Htop].
      pose proof (separated_octets ranges 0 length Hsep ltac:(lia) Htop). lia.
Qed.
Lemma range_selection_witness : resolve (bs "bytes=0-0,-1") 10000 = Satisfiable [(0, 0); (9999, 9999)] /\
  exists specs, byte_ranges (bs "bytes=0-0,-1") specs /\ forall o, covered [(0, 0); (9999, 9999)] o <-> selected 10000 specs o.
Proof.
  pose proof (range_selection (bs "bytes=0-0,-1") 10000 ltac:(lia)) as H.
  assert (resolve (bs "bytes=0-0,-1") 10000 = Satisfiable [(0, 0); (9999, 9999)]) as E by (vm_compute; reflexivity).
  rewrite E in H. split; [exact E|]. destruct H as (specs & H1 & _ & _ & _ & H2 & _). exists specs. split; assumption.
Defined.
