(* ===== verification/StaticCond.v ===== *)
(** * Conditional requests

    [zero-static/src/cond.rs]: entity tags with their two comparisons and the evaluation
    of the preconditions of RFC 9110 Section 13.2.2. *)
From S2P Require Import Prelude HttpTypes H1List DateText.

Record EntityTag : Type := MkEntityTag { weak : bool; opaque : bytes }.
#[global] Instance EntityTag_eq_dec : EqDecision EntityTag.
Proof. solve_decision. Defined.

Definition is_etagc (byte : Z) : bool := (byte =? 0x21) || ((0x23 <=? byte) && (byte <=? 0x7e)) || (0x80 <=? byte).
Definition strip_prefix (prefix l : bytes) : option bytes :=
  if bool_decide (take (length prefix) l = prefix) then Some (drop (length prefix) l) else None.
Definition strip_suffix (suffix l : bytes) : option bytes :=
  if (length suffix <=? length l)%nat && bool_decide (drop (length l - length suffix) l = suffix)
  then Some (take (length l - length suffix) l) else None.
Definition EntityTag_parse (value : bytes) : option EntityTag :=
  let (weak, quoted) := match strip_prefix (bs "W/") value with Some rest => (true, rest) | None => (false, value) end in
  let! opaque := strip_prefix [34] quoted in
  let! opaque := strip_suffix [34] opaque in
  if negb (forallb is_etagc opaque) then None else Some (MkEntityTag weak opaque).
Definition strong_eq (self other : EntityTag) : bool := negb (weak self) && negb (weak other) && bool_decide (opaque self = opaque other).
Definition weak_eq (self other : EntityTag) : bool := bool_decide (opaque self = opaque other).

Definition trim (octets : bytes) : bytes :=
  let start := default (length octets) (position (fun byte => negb (is_ows byte)) octets) in
  let end_ :=
    match rposition (fun byte => negb (is_ows byte)) octets with
    | Some last_ => S last_
    | None => start
    end in
  default [] (get_range start end_ octets).
Definition tags (members : bytes) : list (option EntityTag) :=
  EntityTag_parse <$> filter (fun member => member <> []) (trim <$> split_on (fun byte => byte =? 44) members).

Record Validators : Type := MkValidators { etag : option EntityTag; last_modified : option Z }.
Record Preconditions : Type := MkPreconditions {
  if_match : option bytes;
  if_none_match : option bytes;
  if_modified_since : option bytes;
  if_unmodified_since : option bytes;
  if_range : option bytes;
  range : option bytes;
}.
Inductive Outcome : Type := Proceed (range : option bytes) | NotModified | PreconditionFailed.
#[global] Instance Outcome_eq_dec : EqDecision Outcome.
Proof. solve_decision. Defined.

Definition list_matches (members : bytes) (current : option EntityTag) (compare : EntityTag -> EntityTag -> bool) : bool :=
  if bool_decide (trim members = [42]) then true
  else
    match current with
    | None => false
    | Some current => existsb (fun member => match member with Some tag => compare tag current | None => false end) (tags members)
    end.
Definition one_date (value : bytes) (now : Z) : option Z :=
  if existsb (fun byte => byte =? 44) value && (1 <? length (filter (fun byte => byte = 44%Z) value))%nat then None
  else parse_http_date (trim value) now.
Definition starts_with (prefix l : bytes) : bool := bool_decide (take (length prefix) l = prefix).
Definition if_range_matches (value : bytes) (current : Validators) (now : Z) : bool :=
  if starts_with [34] value || starts_with (bs "W/") value then
    match EntityTag_parse value, etag current with Some given, Some etag => strong_eq given etag | _, _ => false end
  else
    match parse_http_date value now, last_modified current with
    | Some date, Some modified => (date =? modified) && (saturating_add 64 modified 1 <=? now)
    | _, _ => false
    end.

(** Steps 1 and 2: whether the request fails. *)
Definition match_fails (request : Preconditions) (current : Validators) (now : Z) : bool :=
  match if_match request with
  | Some members => negb (list_matches members (etag current) strong_eq)
  | None =>
      match if_unmodified_since request with
      | Some value =>
          match one_date value now, last_modified current with Some date, Some modified => date <? modified | _, _ => false end
      | None => false
      end
  end.
(** Steps 3 and 4: what ends the request. *)
Definition none_match (get_or_head : bool) (request : Preconditions) (current : Validators) (now : Z) : option Outcome :=
  match if_none_match request with
  | Some members =>
      if list_matches members (etag current) weak_eq then Some (if get_or_head then NotModified else PreconditionFailed) else None
  | None =>
      if get_or_head then
        match if_modified_since request with
        | Some value =>
            match one_date value now, last_modified current with
            | Some date, Some modified => if modified <=? date then Some NotModified else None
            | _, _ => None
            end
        | None => None
        end
      else None
  end.
Definition evaluate (method : option Method) (request : Preconditions) (current : Validators) (now : Z) : Outcome :=
  let get_or_head := bool_decide (method = Some Get) || bool_decide (method = Some Head) in
  if match_fails request current now then PreconditionFailed
  else
    match none_match get_or_head request current now with
    | Some outcome => outcome
    | None =>
        if negb (bool_decide (method = Some Get)) then Proceed None
        else
          match range request with
          | None => Proceed None
          | Some range =>
              match if_range request with
              | None => Proceed (Some range)
              | Some if_range => Proceed (if if_range_matches (trim if_range) current now then Some range else None)
              end
          end
    end.

(** ** The tests of [lib.rs] *)

Definition none_given : Preconditions := MkPreconditions None None None None None None.
Definition current_test : Validators := MkValidators (EntityTag_parse (34 :: bs "1" ++ [34])) (Some 784111777).
Definition weak_test : Validators := MkValidators (EntityTag_parse (bs "W/" ++ 34 :: bs "1" ++ [34])) None.
Definition quote (s : string) : bytes := 34 :: bs s ++ [34].
Example tags_parsed : EntityTag_parse (bs "w/" ++ quote "1") = None /\ EntityTag_parse (34 :: bs "a" ++ 34 :: bs "b" ++ [34]) = None
  /\ EntityTag_parse (bs "W/" ++ quote "1") = Some (MkEntityTag true (bs "1")).
Proof. by vm_compute. Qed.
Example weak_never_matches :
  evaluate (Some Get) (MkPreconditions (Some (quote "1")) None None None None None) weak_test 1780000000 = PreconditionFailed /\
  evaluate (Some Get) (MkPreconditions None (Some (quote "1")) None None None None) weak_test 1780000000 = NotModified.
Proof. by vm_compute. Qed.
Example order_test :
  evaluate (Some Get) (MkPreconditions (Some (quote "other")) (Some (quote "1")) None None None (Some (bs "bytes=0-0"))) current_test 1780000000 = PreconditionFailed /\
  evaluate (Some Get) (MkPreconditions (Some (quote "1")) (Some (quote "other")) (Some (bs "Mon, 07 Nov 1994 00:00:00 GMT"))
    (Some (bs "Sat, 05 Nov 1994 00:00:00 GMT")) (Some (quote "1")) (Some (bs "bytes=0-0"))) current_test 1780000000 = Proceed (Some (bs "bytes=0-0")).
Proof. by vm_compute. Qed.

(** ** The conditions of RFC 9110 *)



Section conditions.
Context (method : option Method) (request : Preconditions) (current : Validators) (now : Z).


End conditions.

