(* ===== verification/Mime.v ===== *)
(** * Media types

    [zero-mime/src/lib.rs]: the media type of an extension and of a path, and the
    [media-type] values of RFC 9110 Section 8.3.1 with their parameters.  A position in a
    value is what is left of it. *)
From stdpp Require Import sorting.
From S2P Require Import Prelude Scalar HttpTypes H1List H1Head H1Grammar Router RouterTree MimeTable.

#[local] Open Scope Z_scope.

Definition OCTET_STREAM : bytes := bs "application/octet-stream".

(** The sixteen octets the extension is made lower case in hold the whole of it. *)
Definition from_extension (extension : bytes) : option bytes :=
  if bool_decide (extension = []) || (16 <? length extension)%nat then None
  else
    let wanted := to_lower extension in
    match binary_search EXTENSIONS wanted with
    | Ok index => snd <$> EXTENSIONS !! index
    | Err _ => None
    end.
Definition from_path (path : bytes) : option bytes :=
  let start := from_option (fun at_ => at_ + 1)%nat 0%nat (rposition (fun byte => (byte =? 47) || (byte =? 92)) path) in
  let name := drop start path in
  let! dot := rposition (fun byte => byte =? 46) name in
  if (dot =? 0)%nat then None else from_extension (drop (dot + 1) name).

Definition ends_with_ignore_case (media_type suffix : bytes) : bool :=
  (length suffix <=? length media_type)%nat && eq_ignore_ascii_case (drop (length media_type - length suffix) media_type) suffix.
Definition is_text (media_type : bytes) : bool :=
  if (5 <=? length media_type)%nat && eq_ignore_ascii_case (take 5 media_type) (bs "text/") then true
  else
    ends_with_ignore_case media_type (bs "+json") || ends_with_ignore_case media_type (bs "+xml")
    || eq_ignore_ascii_case media_type (bs "application/json") || eq_ignore_ascii_case media_type (bs "application/xml")
    || eq_ignore_ascii_case media_type (bs "application/javascript").

(** ** Values *)

Record MediaType : Type := MkMediaType { kind : bytes; subtype : bytes; parameters : bytes }.
Record MediaParameter : Type := MkMediaParameter { name : bytes; value : bytes; quoted : bool; rest : bytes }.

Definition is_qdtext (byte : Z) : bool :=
  (byte =? 9) || (byte =? 32) || (byte =? 33) || ((0x23 <=? byte) && (byte <=? 0x5b)) || ((0x5d <=? byte) && (byte <=? 0x7e))
  || ((0x80 <=? byte) && (byte <=? 0xff)).
Definition is_quoted_pair_byte (byte : Z) : bool :=
  (byte =? 9) || (byte =? 32) || ((0x21 <=? byte) && (byte <=? 0x7e)) || ((0x80 <=? byte) && (byte <=? 0xff)).
Definition skip_ows (input : bytes) : bytes := drop (scan input is_ows) input.

(** The value up to the closing quote, and what follows it. *)
Fixpoint quoted_loop (input value : bytes) : option (bytes * bytes) :=
  match input with
  | [] => None
  | byte :: input =>
      if byte =? 34 then Some (value, input)
      else if byte =? 92 then
        match input with
        | [] => None
        | next :: input => if is_quoted_pair_byte next then quoted_loop input (value ++ [byte; next]) else None
        end
      else if is_qdtext byte then quoted_loop input (value ++ [byte])
      else None
  end.
Definition next_parameter (input : bytes) : option MediaParameter :=
  let input := skip_ows input in
  if negb (bool_decide (head input = Some 59)) then None
  else
    let input := skip_ows (tail input) in
    if bool_decide (head input = None) || bool_decide (head input = Some 59) then Some (MkMediaParameter [] [] false input)
    else
      let name_len := scan_header_name input in
      if (name_len =? 0)%nat then None
      else
        let name := take name_len input in
        let input := drop name_len input in
        if negb (bool_decide (head input = Some 61)) then None
        else
          let input := tail input in
          if bool_decide (head input = Some 34) then
            let! (value, rest) := quoted_loop (tail input) [] in Some (MkMediaParameter name value true rest)
          else
            let value_len := scan_header_name input in
            if (value_len =? 0)%nat then None else Some (MkMediaParameter name (take value_len input) false (drop value_len input)).

(** Every turn takes a semicolon. *)
Fixpoint check_loop (fuel : nat) (check : bytes) : bool :=
  match fuel, check with
  | _, [] => true
  | O, _ => false
  | S fuel, _ =>
      match next_parameter check with
      | None => false
      | Some parameter => if (length (rest parameter) =? length check)%nat then false else check_loop fuel (rest parameter)
      end
  end.
Definition parse (value : bytes) : option MediaType :=
  let! slash := position (fun byte => byte =? 47) value in
  let kind := take slash value in
  let rest := drop (slash + 1) value in
  let subtype_len := scan_header_name rest in
  let subtype := take subtype_len rest in
  if bool_decide (kind = []) || bool_decide (subtype = []) || negb (forallb is_tchar kind) then None
  else
    let parameters := drop subtype_len rest in
    if check_loop (length parameters) parameters then Some (MkMediaType kind subtype parameters) else None.

Definition is_essence (self : MediaType) (essence : bytes) : bool :=
  match position (fun byte => byte =? 47) essence with
  | None => false
  | Some slash => eq_ignore_ascii_case (kind self) (take slash essence) && eq_ignore_ascii_case (subtype self) (drop (slash + 1) essence)
  end.
Definition has_backslash (value : bytes) : bool := existsb (fun byte => byte =? 92) value.
Fixpoint parameter_loop (fuel : nat) (rest_ wanted : bytes) : option bytes :=
  match fuel, next_parameter rest_ with
  | O, _ | _, None => None
  | S fuel, Some parameter =>
      if negb (bool_decide (name parameter = [])) && eq_ignore_ascii_case (name parameter) wanted
         && (negb (quoted parameter) || negb (has_backslash (value parameter)))
      then Some (value parameter)
      else parameter_loop fuel (rest parameter) wanted
  end.
Definition parameter (self : MediaType) (wanted : bytes) : option bytes :=
  parameter_loop (length (parameters self)) (parameters self) wanted.

(** The iterator: what is left of the parameters, and how much the scratch buffer holds. *)
Record Parameters : Type := MkParameters { p_rest : bytes; scratch : nat }.
Inductive Unquoted : Type := Borrowed (octets : bytes) | Scratch (octets : bytes).
Definition unquoted_bytes (self : Unquoted) : bytes := match self with Borrowed octets | Scratch octets => octets end.
Fixpoint unquote_loop (value : bytes) (escaped : bool) (room : nat) (out : bytes) : option bytes :=
  match value with
  | [] => Some out
  | byte :: value =>
      if escaped || negb (byte =? 92) then
        if (length out <? room)%nat then unquote_loop value false room (out ++ [byte]) else None
      else unquote_loop value true room out
  end.
Fixpoint named_loop (fuel : nat) (parameter : MediaParameter) : option MediaParameter :=
  match fuel with
  | O => None
  | S fuel =>
      if bool_decide (name parameter = []) then let! parameter := next_parameter (rest parameter) in named_loop fuel parameter
      else Some parameter
  end.
(** The parameter, and the iterator after it. *)
Definition Parameters_next (self : Parameters) : option (bytes * Unquoted) * Parameters :=
  match (let! parameter := next_parameter (p_rest self) in named_loop (S (length (p_rest self))) parameter) with
  | None => (None, self)
  | Some parameter =>
      let self := MkParameters (rest parameter) (scratch self) in
      if negb (quoted parameter) || negb (has_backslash (value parameter)) then (Some (name parameter, Borrowed (value parameter)), self)
      else
        match unquote_loop (value parameter) false (scratch self) [] with
        | None => (None, self)
        | Some unquoted => (Some (name parameter, Scratch unquoted), self)
        end
  end.

(** ** The tests of [lib.rs] *)

Example extensions : from_extension (bs "html") = Some (bs "text/html") /\ from_extension (bs "CSS") = Some (bs "text/css")
  /\ from_extension (bs "nope-not-a-type") = None /\ from_extension [] = None.
Proof. by vm_compute. Qed.
Example paths : from_path (bs "/static/app.min.js") = Some (bs "text/javascript") /\ from_path (bs "C:\site\index.HTML") = Some (bs "text/html")
  /\ from_path (bs "/a.b/c") = None /\ from_path (bs "/.gitignore") = None /\ from_path (bs "/dir/archive.tar.gz") = Some (bs "application/gzip").
Proof. by vm_compute. Qed.
Example texts : is_text (bs "Text/HTML") = true /\ is_text (bs "image/svg+xml") = true /\ is_text (bs "image/png") = false.
Proof. by vm_compute. Qed.
Example empty_parameters : (fun s => (fun m => parameter m (bs "charset")) <$> parse (bs s)) <$> ["text/html;charset=utf-8;"; "text/html; ;charset=utf-8"; "text/html;;charset=utf-8;;"]%string
  = replicate 3 (Some (Some (bs "utf-8"))) /\ parse (bs "text/html;charset=utf-8;x") = None.
Proof. by vm_compute. Qed.
Example quoted_pairs : (Parameters_next (MkParameters (bs "; title=" ++ 34 :: bs "a \" ++ 34 :: bs "b\" ++ 34 :: bs " c" ++ [34]) 32)).1
  = Some (bs "title", Scratch (bs "a " ++ 34 :: bs "b" ++ 34 :: bs " c")).
Proof. by vm_compute. Qed.
Example refused : parse <$> [bs "text"; bs "/html"; bs "text/html; charset"; bs "text/html; =x"; bs "text/html junk"] = replicate 5 None.
Proof. by vm_compute. Qed.

(** ** The table *)

Lemma extensions_ascending : ascending EXTENSIONS.
Proof.
  assert (forall l : list (bytes * bytes), (fix go (l : list (bytes * bytes)) := match l with
    | x :: (y :: _) as l' => match bytes_cmp x.1 y.1 with Lt => go l' | _ => false end | _ => true end) l = true -> ascending l) as Hgo.
  { intros l. induction l as [|x l IH]; intros H; [constructor|]. destruct l as [|y l]; [by repeat constructor|].
    destruct (bytes_cmp x.1 y.1) eqn:Hc; [done| |done]. specialize (IH H). constructor; [done|]. constructor; [done|].
    apply StronglySorted_inv in IH as [_ IH]. eapply Forall_impl; [exact IH|]. intros z Hz. by eapply bytes_cmp_trans. }
  apply Hgo. vm_compute. reflexivity.
Qed.

(** ** The grammar of RFC 9110 Section 8.3.1 *)

Inductive quoted_text : bytes -> Prop :=
| QuotedEnd : quoted_text []
| QuotedOctet b text : is_qdtext b = true -> quoted_text text -> quoted_text (b :: text)
| QuotedPair b text : is_quoted_pair_byte b = true -> quoted_text text -> quoted_text (92 :: b :: text).
Inductive param_text : bytes -> bytes -> bytes -> bool -> Prop :=
| TokenValue n v : tokens n -> tokens v -> param_text (n ++ 61 :: v) n v false
| QuotedValue n v : tokens n -> quoted_text v -> param_text (n ++ 61 :: 34 :: v ++ [34]) n v true.
(** [parameters = *( OWS ";" OWS [ parameter ] )] *)
Inductive params_text : bytes -> list (bytes * bytes * bool) -> Prop :=
| NoParams : params_text [] []
| EmptyParam w w' rest ps : spaces w -> spaces w' -> params_text rest ps -> params_text (w ++ 59 :: w' ++ rest) ps
| OneParam w w' text n v q rest ps : spaces w -> spaces w' -> param_text text n v q -> params_text rest ps ->
    params_text (w ++ 59 :: w' ++ text ++ rest) ((n, v, q) :: ps).
(** The first parameter of a name that [parameter] can borrow. *)
Definition wanted_value (wanted : bytes) (p : bytes * bytes * bool) : option bytes :=
  let '(n, v, q) := p in
  if eq_ignore_ascii_case n wanted && (negb q || negb (has_backslash v)) then Some v else None.
Fixpoint first_value (wanted : bytes) (ps : list (bytes * bytes * bool)) : option bytes :=
  match ps with [] => None | p :: ps => match wanted_value wanted p with Some v => Some v | None => first_value wanted ps end end.

Lemma skip_ows_spaces w l : spaces w -> skip_ows (w ++ l) = skip_ows l.
Proof.
  unfold skip_ows. induction 1 as [|b w Hb _ IH]; [done|]. cbn [app]. rewrite scan_cons, Hb. cbn [drop]. exact IH.
Qed.
Lemma skip_ows_other b l : is_ows b = false -> skip_ows (b :: l) = b :: l.
Proof. intros Hb. unfold skip_ows. by rewrite scan_cons, Hb. Qed.
Lemma skip_ows_split l : exists w, spaces w /\ l = w ++ skip_ows l.
Proof. exists (take (scan l is_ows) l). split; [apply scan_take|]. unfold skip_ows. by rewrite take_drop. Qed.
Lemma scan_tokens n rest : tokens n -> match rest with [] => True | b :: _ => is_tchar b = false end -> scan_header_name (n ++ rest) = length n.
Proof. intros [_ Hn] Hr. by apply scan_run. Qed.
Lemma scan_token_take l : scan_header_name l <> 0%nat -> tokens (take (scan_header_name l) l).
Proof.
  intros Hn. split; [|apply scan_take]. intros H. apply (f_equal length) in H. rewrite length_take in H. cbn in H.
  pose proof (scan_le l is_tchar). unfold scan_header_name in *. lia.
Qed.
Lemma token_first n : tokens n -> exists b t, n = b :: t /\ is_tchar b = true.
Proof. intros [Hne H]. destruct H as [|b t Hb _]; [done|]. by exists b, t. Qed.
Lemma tchar_plain b : is_tchar b = true -> is_ows b = false /\ b <> 59 /\ b <> 61 /\ b <> 34 /\ b <> 47.
Proof.
  intros Hb. split; [|split_and!; intros ->; vm_compute in Hb; done]. apply not_true_iff_false. intros Ho.
  unfold is_ows in Ho. apply orb_true_iff in Ho as [->%Z.eqb_eq| ->%Z.eqb_eq]; vm_compute in Hb; done.
Qed.
Lemma ows_not_tchar b : is_ows b = true -> is_tchar b = false.
Proof. intros Hb. apply not_true_iff_false. intros H. apply tchar_plain in H as [? _]. congruence. Qed.

Lemma params_start text ps : params_text text ps -> match text with [] => True | b :: _ => is_tchar b = false /\ b <> 47 end.
Proof.
  assert (forall w l, spaces w -> match w ++ 59 :: l with [] => True | b :: _ => is_tchar b = false /\ b <> 47 end) as H.
  { intros w l [|b w' Hb _]; [done|]. cbn. split; [by apply ows_not_tchar|]. by intros ->. }
  intros []; [done|by apply H|by apply H].
Qed.
Lemma params_skip text ps : params_text text ps -> params_text (skip_ows text) ps /\ (skip_ows text = [] \/ exists t, skip_ows text = 59 :: t).
Proof.
  intros [|w w' rest ps' Hw Hw' Hr|w w' t n v q rest ps' Hw Hw' Ht Hr].
  - split; [constructor|by left].
  - rewrite skip_ows_spaces, skip_ows_other by done. split; [by apply (EmptyParam [] w'); [constructor|..]|by eauto].
  - rewrite skip_ows_spaces, skip_ows_other by done. split; [by apply (OneParam [] w'); [constructor|..]|by eauto].
Qed.
Lemma params_spaces w text ps : spaces w -> params_text text ps -> text <> [] -> params_text (w ++ text) ps.
Proof.
  intros Hw [|w1 w' rest ps' Hw1 Hw' Hr|w1 w' t n v q rest ps' Hw1 Hw' Ht Hr] Hne; [done|..]; rewrite app_assoc; constructor; try done; by apply Forall_app.
Qed.

(** The value of a quoted string is read up to its closing quote, and nothing else is one. *)
Lemma quoted_loop_text v : quoted_text v -> forall rest out, quoted_loop (v ++ 34 :: rest) out = Some (out ++ v, rest).
Proof.
  induction 1 as [|b v Hb _ IH|b v Hb _ IH]; intros rest out; cbn [app quoted_loop].
  - by rewrite app_nil_r.
  - destruct (Z.eqb_spec b 34) as [-> |]; [done|]. destruct (Z.eqb_spec b 92) as [-> |]; [done|]. rewrite Hb, IH.
    by rewrite <- app_assoc.
  - cbn. rewrite Hb, IH. by rewrite <- app_assoc.
Qed.
Lemma quoted_loop_sound : forall n input out value rest, (length input <= n)%nat -> quoted_loop input out = Some (value, rest) ->
  exists v, quoted_text v /\ value = out ++ v /\ input = v ++ 34 :: rest.
Proof.
  induction n as [|n IH]; intros [|b input] out value rest Hn H; cbn in Hn, H; try done; [lia|].
  destruct (Z.eqb_spec b 34) as [-> |].
  { injection H as <- <-. exists []. rewrite app_nil_r. split_and!; [constructor|done|done]. }
  destruct (Z.eqb_spec b 92) as [-> |].
  - destruct input as [|next input]; [done|]. destruct (is_quoted_pair_byte next) eqn:Hp; [|done].
    apply IH in H as (v & Hv & -> & ->); [|cbn in Hn; lia]. exists (92 :: next :: v). rewrite <- app_assoc.
    split_and!; [by constructor|done|done].
  - destruct (is_qdtext b) eqn:Hq; [|done]. apply IH in H as (v & Hv & -> & ->); [|lia].
    exists (b :: v). rewrite <- app_assoc. split_and!; [by constructor|done|done].
Qed.

Lemma next_empty w w' rest : spaces w -> spaces w' -> skip_ows rest = [] \/ (exists t, skip_ows rest = 59 :: t) ->
  next_parameter (w ++ 59 :: w' ++ rest) = Some (MkMediaParameter [] [] false (skip_ows rest)).
Proof.
  intros Hw Hw' Hr. unfold next_parameter. rewrite skip_ows_spaces, skip_ows_other by done. cbn [head tail].
  rewrite skip_ows_spaces by done. by destruct Hr as [-> |[t ->]].
Qed.
Lemma param_text_head text n v q : param_text text n v q -> exists b t, text = b :: t /\ is_tchar b = true.
Proof. intros [? ? Hn _|? ? Hn _]; apply token_first in Hn as (b & t & -> & Hb); cbn; eauto. Qed.
Lemma next_named w w' text n v q rest : spaces w -> spaces w' -> param_text text n v q ->
  match rest with [] => True | b :: _ => is_tchar b = false end ->
  next_parameter (w ++ 59 :: w' ++ text ++ rest) = Some (MkMediaParameter n v q rest).
Proof.
  intros Hw Hw' Ht Hr. unfold next_parameter. rewrite skip_ows_spaces, skip_ows_other by done. cbn [head tail].
  rewrite bool_decide_true by done. cbn [negb]. rewrite skip_ows_spaces by done. destruct (param_text_head _ _ _ _ Ht) as (b & t & Eb & Hb). destruct (tchar_plain _ Hb) as (Ho & H59 & _).
  assert (skip_ows (text ++ rest) = text ++ rest) as -> by (rewrite Eb; by apply skip_ows_other).
  assert (head (text ++ rest) = Some b) as -> by by rewrite Eb. rewrite !bool_decide_false by (done || congruence).
  cbn [negb orb]. destruct Ht as [n v [Hn Hn'] [Hv Hv']|n v [Hn Hn'] Hv]; rewrite <- app_assoc; rewrite scan_tokens by done;
    (destruct (Nat.eqb_spec (length n) 0) as [|_]; [by destruct n|]); rewrite drop_app_length, take_app_length; cbn [app head tail].
  - destruct v as [|c v]; [done|]. apply Forall_cons_1 in Hv' as [Hc Hv'].
    rewrite bool_decide_true by done. cbn [negb app head tail].
    rewrite bool_decide_false by (destruct (tchar_plain _ Hc) as (_ & _ & _ & ? & _); cbn; congruence).
    change (c :: v ++ rest) with ((c :: v) ++ rest). rewrite scan_tokens by (done || by split; [done|constructor]). cbn [Nat.eqb length negb].
    change (S (length v)) with (length (c :: v)). by rewrite take_app_length, drop_app_length.
  - rewrite <- app_assoc. cbn [app]. by rewrite quoted_loop_text.
Qed.

Lemma head_tail {A} (l : list A) x : head l = Some x -> l = x :: tail l.
Proof. destruct l; [done|]. by intros [= ->]. Qed.
Lemma next_sound input p : next_parameter input = Some p -> exists w w', spaces w /\ spaces w' /\
  ((input = w ++ 59 :: w' ++ rest p /\ name p = [] /\ (rest p = [] \/ exists t, rest p = 59 :: t)) \/
   exists text, input = w ++ 59 :: w' ++ text ++ rest p /\ param_text text (name p) (value p) (quoted p)).
Proof.
  intros H. unfold next_parameter in H. destruct (skip_ows_split input) as (w & Hw & Ei). exists w.
  destruct (bool_decide (head (skip_ows input) = Some 59)) eqn:H1; [|done]. apply bool_decide_eq_true, head_tail in H1.
  cbn [negb] in H. rewrite H1 in Ei. set (i1 := tail (skip_ows input)) in *.
  destruct (skip_ows_split i1) as (w' & Hw' & Ei1). exists w'. split; [done|]. split; [done|]. rewrite Ei, Ei1.
  destruct (_ || _) eqn:He.
  { injection H as <-. left. split; [done|]. split; [done|]. destruct (skip_ows i1) as [|c l]; [by left|]. right.
    cbn in He. apply bool_decide_eq_true in He. injection He as ->. by eauto. }
  right. clear He. set (i := skip_ows i1) in *. destruct (Nat.eqb_spec (scan_header_name i) 0) as [|Hn]; [done|].
  pose proof (scan_token_take i Hn) as Ht. pose proof (take_drop (scan_header_name i) i) as Etd.
  set (n := take (scan_header_name i) i) in *. destruct (bool_decide (head (drop _ i) = Some 61)) eqn:H2; [|done].
  apply bool_decide_eq_true, head_tail in H2. cbn [negb] in H. set (i3 := tail (drop _ i)) in *. rewrite H2 in Etd. rewrite <- Etd.
  destruct (bool_decide (head i3 = Some 34)) eqn:H3.
  - apply bool_decide_eq_true, head_tail in H3. destruct (quoted_loop _ _) as [[v r]|] eqn:Hq; [|done]. injection H as <-.
    apply (quoted_loop_sound _ _ _ _ _ (le_n _)) in Hq as (v' & Hv & -> & Hq). rewrite H3, Hq.
    exists (n ++ 61 :: 34 :: v' ++ [34]). split; [|by constructor]. rewrite <- !app_assoc. cbn. by rewrite <- !app_assoc.
  - destruct (Nat.eqb_spec (scan_header_name i3) 0) as [|Hv]; [done|]. injection H as <-. cbn.
    exists (n ++ 61 :: take (scan_header_name i3) i3). split; [|constructor; [done|by apply scan_token_take]].
    rewrite <- !app_assoc. cbn. by rewrite take_drop.
Qed.
Lemma next_shorter input p : next_parameter input = Some p -> (length (rest p) < length input)%nat.
Proof.
  intros H. apply next_sound in H as (w & w' & _ & _ & [[-> _]|(t & -> & _)]); rewrite ?length_app; cbn; rewrite ?length_app; lia.
Qed.
(** Reading a parameter section of the grammar takes its first parameter. *)
Lemma next_params text ps : params_text text ps -> text <> [] -> exists p, next_parameter text = Some p /\
  ((name p = [] /\ params_text (rest p) ps) \/
   (name p <> [] /\ exists ps', ps = (name p, value p, quoted p) :: ps' /\ params_text (rest p) ps')).
Proof.
  intros [|w w' rest ps' Hw Hw' Hr|w w' t n v q rest ps' Hw Hw' Ht Hr] Hne; [done|..].
  - apply params_skip in Hr as [Hr Hs]. exists (MkMediaParameter [] [] false (skip_ows rest)). split; [by apply next_empty|]. by left.
  - exists (MkMediaParameter n v q rest). split.
    + apply next_named; try done. apply params_start in Hr. destruct rest; [done|]. by destruct Hr.
    + right. cbn. split; [by destruct Ht as [? ? [? _] _|? ? [? _] _]|]. by exists ps'.
Qed.
Lemma check_loop_sound : forall fuel text, check_loop fuel text = true -> exists ps, params_text text ps.
Proof.
  induction fuel as [|fuel IH]; intros [|b text] H; try (by exists []; constructor); [done|]. cbn [check_loop] in H.
  destruct (next_parameter (b :: text)) as [p|] eqn:Hp; [|done]. destruct (_ =? _)%nat; [done|].
  apply IH in H as [ps Hps]. apply next_sound in Hp as (w & w' & Hw & Hw' & [(-> & _)|(t & -> & Ht)]).
  - exists ps. by constructor.
  - exists ((name p, value p, quoted p) :: ps). by constructor.
Qed.
Lemma check_loop_complete : forall fuel text ps, (length text <= fuel)%nat -> params_text text ps -> check_loop fuel text = true.
Proof.
  induction fuel as [|fuel IH]; intros [|b text] ps Hf H; try done; [cbn in Hf; lia|]. cbn [check_loop].
  destruct (next_params _ _ H) as (p & Hp & Hps); [done|]. rewrite Hp. pose proof (next_shorter _ _ Hp) as Hl.
  destruct (Nat.eqb_spec (length (rest p)) (length (b :: text))) as [E|_]; [lia|]. cbn in Hl, Hf.
  destruct Hps as [[_ Hr]|(_ & ps' & _ & Hr)]; (eapply IH; [|exact Hr]; lia).
Qed.
Lemma parameter_loop_first wanted : forall fuel text ps, (length text <= fuel)%nat -> params_text text ps ->
  parameter_loop fuel text wanted = first_value wanted ps.
Proof.
  assert (Hnil : forall ps, params_text [] ps -> ps = []).
  { intros ps H. remember [] as text eqn:E. destruct H as [|w|w]; [done|by destruct w..]. }
  induction fuel as [|fuel IH]; intros text ps Hf H.
  { destruct text; [|cbn in Hf; lia]. by rewrite (Hnil ps H). }
  destruct text as [|b text]; [by rewrite (Hnil ps H)|]. cbn [parameter_loop].
  destruct (next_params _ _ H) as (p & Hp & Hps); [done|]. rewrite Hp. pose proof (next_shorter _ _ Hp) as Hl. cbn in Hl, Hf.
  destruct Hps as [[Hn Hr]|(Hn & ps' & -> & Hr)].
  - rewrite Hn, bool_decide_true by done. cbn. by apply IH; [lia|].
  - rewrite bool_decide_false by done. cbn [negb andb first_value wanted_value].
    destruct (_ && _); [done|]. by apply IH; [lia|].
Qed.
Lemma forallb_Forall {A} (f : A -> bool) l : forallb f l = true <-> Forall (fun x => f x = true) l.
Proof. rewrite forallb_forall, Forall_forall. by setoid_rewrite list_elem_of_In. Qed.
Lemma parse_shape value m : parse value = Some m <->
  value = kind m ++ 47 :: subtype m ++ parameters m /\ tokens (kind m) /\ tokens (subtype m) /\ exists ps, params_text (parameters m) ps.
Proof.
  unfold parse. split.
  - destruct (position _ value) as [slash|] eqn:Hs; [|done]. cbn [mbind option_bind]. set (r := drop (slash + 1) value).
    destruct (bool_decide (take slash value = [])) eqn:Hk; [done|]. destruct (bool_decide (take _ r = [])) eqn:Ht; [done|].
    destruct (forallb is_tchar (take slash value)) eqn:Hf; [|done]. cbn [orb negb].
    destruct (check_loop _ _) eqn:Hc; [|done]. intros [= <-]. cbn.
    apply bool_decide_eq_false in Hk, Ht. apply check_loop_sound in Hc as [ps Hps].
    apply position_Some in Hs as (c & Hl & Hcb & _). apply Z.eqb_eq in Hcb as ->.
    split_and!; [|split; [done|by apply forallb_Forall in Hf]| |by eauto].
    + rewrite (take_drop _ r). unfold r. rewrite Nat.add_1_r. rewrite <- (take_drop_middle _ _ _ Hl) at 1. done.
    + apply scan_token_take. intros E. by rewrite E in Ht.
  - intros (-> & [Hk Hk'] & Hs & ps & Hps). destruct m as [k s p]. cbn in *.
    assert (position (fun byte => byte =? 47) (k ++ 47 :: s ++ p) = Some (length k)) as ->.
    { clear -Hk'. induction Hk' as [|b k Hb _ IH]; [done|]. cbn [app position length].
      destruct (Z.eqb_spec b 47) as [-> |]; [done|]. by rewrite IH. }
    cbn [mbind option_bind]. rewrite take_app_length, Nat.add_1_r.
    assert (drop (S (length k)) (k ++ 47 :: s ++ p) = s ++ p) as -> by (rewrite cons_middle, app_assoc; replace (S (length k)) with (length (k ++ [47])) by (rewrite length_app; cbn; lia); by rewrite drop_app_length).
    rewrite scan_tokens, take_app_length, drop_app_length; [|done|apply params_start in Hps; destruct p; [done|by destruct Hps]].
    rewrite !bool_decide_false by (done || by destruct Hs). replace (forallb is_tchar k) with true by (symmetry; by apply forallb_Forall).
    cbn [orb negb]. by rewrite (check_loop_complete _ _ ps).
Qed.

(** The table is searched exactly: an extension of sixteen octets at most, in any case. *)
Lemma from_extension_exact extension t : from_extension extension = Some t <->
  (length extension <= 16)%nat /\ assoc EXTENSIONS (to_lower extension) = Some t.
Proof.
  unfold from_extension. case_bool_decide as He; cbn [orb].
  { subst extension. split; [done|]. intros [_ H]. by vm_compute in H. }
  destruct (Nat.ltb_spec 16 (length extension)); [split; [done|lia]|].
  pose proof (binary_search_spec _ (to_lower extension) extensions_ascending) as Hb.
  destruct (binary_search EXTENSIONS (to_lower extension)) as [i|i].
  - destruct Hb as [(v & -> & ->) _]. cbn. split; [intros [= ->]; split; [lia|done]|by intros [_ [= ->]]].
  - destruct Hb as [-> _]. split; [done|by intros [_ ?]].
Qed.

(** [parse] accepts exactly the [media-type] values of RFC 9110 Section 8.3.1: a type and a
    subtype that are tokens around a slash, then parameters of the grammar
    [*( OWS ";" OWS [ parameter ] )], each a name and a token or a quoted string; it reads the
    type, the subtype and the parameters off the value.  [parameter] is the value of the first
    parameter of that name, in any case, that is a token or a quoted string without a
    quoted-pair; empty parameters name nothing. *)
Theorem media_type_grammar value m :
  (parse value = Some m <->
   value = kind m ++ 47 :: subtype m ++ parameters m /\ tokens (kind m) /\ tokens (subtype m) /\ exists ps, params_text (parameters m) ps) /\
  (forall ps, params_text (parameters m) ps -> forall wanted, parameter m wanted = first_value wanted ps).
Proof.
  split; [apply parse_shape|]. intros ps Hps wanted. unfold parameter. by apply parameter_loop_first.
Qed.
