(* ===== verification/MimeAccept.v ===== *)
(** * Content negotiation

    [zero-mime/src/accept.rs]: the media ranges of an [Accept] value with their weights in
    thousandths, and the representation they select. *)
From S2P Require Import Prelude Scalar HttpTypes Uri H1List H1Head H1Grammar Mime.

Definition VARY_ACCEPT : bytes := bs "Accept".

Record Range : Type := MkRange { r_kind : bytes; r_subtype : bytes; r_weight : Z }.

(** How specific a range is for a type; 0 when it does not match. *)
Definition specificity (self : Range) (kind subtype : bytes) : Z :=
  let from (b : bool) : Z := if b then 1 else 0 in
  if bool_decide (r_kind self = [42]) then from (bool_decide (r_subtype self = [42]))
  else if negb (eq_ignore_ascii_case (r_kind self) kind) then 0
  else if bool_decide (r_subtype self = [42]) then 2
  else saturating_mul 8 (from (eq_ignore_ascii_case (r_subtype self) subtype)) 3.

Definition split_essence (media_type : bytes) : option (bytes * bytes) :=
  let! slash := position (fun byte => byte =? 47) media_type in
  Some (take slash media_type, drop (slash + 1) media_type).
Definition trim (octets : bytes) : bytes :=
  let plain byte := negb (byte =? 32) && negb (byte =? 9) in
  let start := default (length octets) (position plain octets) in
  let end_ := from_option (fun at_ => at_ + 1)%nat start (rposition plain octets) in
  default [] (get_range start end_ octets).

Fixpoint fraction_loop (fraction : bytes) (thousandths scale : Z) : option Z :=
  match fraction with
  | [] => Some thousandths
  | digit :: fraction =>
      if negb (is_digit digit) then None
      else fraction_loop fraction (saturating_add 16 thousandths (saturating_mul 16 (wrapping_sub 8 digit 48) scale)) (scale / 10)
  end.
Definition qvalue (value : bytes) : option Z :=
  match value with
  | [] => None
  | whole :: rest =>
      let! fraction :=
        match rest with
        | [] => Some []
        | dot :: digits => if (dot =? 46) && (length digits <=? 3)%nat then Some digits else None
        end in
      let! thousandths := if whole =? 48 then Some 0 else if whole =? 49 then Some 1000 else None in
      let! thousandths := fraction_loop fraction thousandths 100 in
      if 1000 <? thousandths then None else Some thousandths
  end.

Fixpoint weight_loop (parameters : list bytes) : Z :=
  match parameters with
  | [] => 1000
  | parameter :: parameters =>
      let parameter := trim parameter in
      match position (fun byte => byte =? 61) parameter with
      | None => weight_loop parameters
      | Some at_ =>
          if negb (eq_ignore_ascii_case (trim (take at_ parameter)) (bs "q")) then weight_loop parameters
          else default 1000 (qvalue (trim (drop (at_ + 1) parameter)))
      end
  end.
Definition weight (parameters : bytes) : Z := weight_loop (split_on (fun byte => byte =? 59) parameters).

Definition range (member : bytes) : option Range :=
  let member := trim member in
  if bool_decide (member = []) then None
  else
    let '(essence, parameters) :=
      match position (fun byte => byte =? 59) member with
      | Some at_ => (trim (take at_ member), drop at_ member)
      | None => (member, [])
      end in
    let! (kind, subtype) := split_essence essence in
    if bool_decide (kind = []) || bool_decide (subtype = []) || existsb (fun byte => byte =? 32) (kind ++ subtype) then None
    else Some (MkRange kind subtype (weight parameters)).
(** A member the grammar refuses is skipped. *)
Definition ranges (accept : bytes) : list Range := omap range (split_on (fun byte => byte =? 44) accept).

(** The weight and the specificity of the most specific range so far, the first of them. *)
Fixpoint decide_loop (ranges : list Range) (kind subtype : bytes) (weight specific : Z) (matched : bool) : Z * bool :=
  match ranges with
  | [] => (weight, matched)
  | range :: ranges =>
      let found := specificity range kind subtype in
      if specific <? found then decide_loop ranges kind subtype (r_weight range) found true
      else decide_loop ranges kind subtype weight specific matched
  end.
Fixpoint negotiate_loop (accept : bytes) (available : list bytes) (index : nat) (best : option (Z * nat)) : option (Z * nat) :=
  match available with
  | [] => best
  | media_type :: available =>
      match split_essence media_type with
      | None => negotiate_loop accept available (S index) best
      | Some (kind, subtype) =>
          let '(weight, matched) := decide_loop (ranges accept) kind subtype 0 0 false in
          if negb matched || (weight =? 0) then negotiate_loop accept available (S index) best
          else
            let best := if from_option (fun '(best_weight, _) => best_weight <? weight) true best then Some (weight, index) else best in
            negotiate_loop accept available (S index) best
      end
  end.
Definition negotiate (accept : option bytes) (available : list bytes) : option nat :=
  match accept with
  | None => if bool_decide (available = []) then None else Some 0%nat
  | Some accept => snd <$> negotiate_loop accept available 0 None
  end.

(** ** The tests of [accept.rs] *)

Definition json_or_html : list bytes := [bs "application/json"; bs "text/html"].
Example negotiated : (fun a => negotiate (Some (bs a)) json_or_html) <$>
    ["*/*"; "text/html"; "text/*"; "TEXT/HTML;level=1"; "text/html;q=0.5, application/json;q=0.9"; "text/html;q=0.9, application/json;q=0.5";
     "text/*;q=0.3, text/html;q=0.7, */*;q=0.5"; "image/png"; "garbage, , text/html"; "text/html;q=0, */*"; "*/*;q=0, text/html"]%string
  = [Some 0; Some 1; Some 1; Some 1; Some 0; Some 1; Some 1; None; Some 1; Some 0; Some 1]%nat
  /\ negotiate None json_or_html = Some 0%nat /\ negotiate None [] = None
  /\ (fun a => negotiate (Some (bs a)) [bs "text/html"]) <$> ["text/html;q=0"; "text/*;q=0.000"; "text/html;Q=0"]%string = [None; None; None].
Proof. by vm_compute. Qed.
Example qvalues : (fun v => qvalue (bs v)) <$> ["1"; "1.000"; "0.5"; "0.123"; "0"; "0."; "1.5"; "0.1234"; "2"; ""; ".5"]%string
  = [Some 1000; Some 1000; Some 500; Some 123; Some 0; Some 0; None; None; None; None; None].
Proof. by vm_compute. Qed.

(** ** What a weight is *)

(** [qvalue = ( "0" [ "." 0*3DIGIT ] ) / ( "1" [ "." 0*3("0") ] )] and its thousandths. *)
Fixpoint thousandths (digits : bytes) (scale : Z) : Z :=
  match digits with [] => 0 | d :: digits => (d - 48) * scale + thousandths digits (scale / 10) end.
Inductive qvalue_text : bytes -> Z -> Prop :=
| Whole d : d = 48 \/ d = 49 -> qvalue_text [d] (1000 * (d - 48))
| Zero ds : (length ds <= 3)%nat -> Forall (fun d => is_digit d = true) ds -> qvalue_text (48 :: 46 :: ds) (thousandths ds 100)
| One n : (n <= 3)%nat -> qvalue_text (49 :: 46 :: replicate n 48) 1000.

Lemma digit_range d : is_digit d = true -> 48 <= d <= 57.
Proof. unfold is_digit. lia. Qed.
Lemma fraction_value ds : Forall (fun d => is_digit d = true) ds -> forall t scale, 0 <= t -> 0 <= scale -> t + 90 * scale <= 60000 ->
  fraction_loop ds t scale = Some (t + thousandths ds scale).
Proof.
  induction 1 as [|d ds Hd _ IH]; intros t scale Ht Hs Hb; cbn [fraction_loop thousandths]; [f_equal; lia|].
  pose proof (digit_range _ Hd). rewrite Hd. cbn [negb]. unfold saturating_add, saturating_mul, wrapping_sub.
  change (2 ^ 16) with 65536. change (2 ^ 8) with 256. rewrite Z.mod_small by lia. rewrite !Z.min_l by nia.
  assert (0 <= scale / 10 /\ 10 * (scale / 10) <= scale) by (split; [by apply Z.div_pos|by apply Z.mul_div_le]).
  rewrite IH by nia. f_equal. lia.
Qed.
Lemma fraction_digits ds : forall t scale v, fraction_loop ds t scale = Some v -> Forall (fun d => is_digit d = true) ds.
Proof.
  induction ds as [|d ds IH]; intros t scale v; cbn; [constructor|]. destruct (is_digit d) eqn:Hd; [|done]. intros H. constructor; [done|eapply IH; exact H].
Qed.
Lemma thousandths_bounds ds : (length ds <= 3)%nat -> Forall (fun d => is_digit d = true) ds ->
  0 <= thousandths ds 100 <= 999 /\ (thousandths ds 100 = 0 <-> ds = replicate (length ds) 48).
Proof.
  intros Hl H. destruct ds as [|a [|b [|c [|]]]]; rewrite ?Forall_cons in H; cbn in *; [done|..|lia];
    repeat match goal with H : _ /\ _ |- _ => destruct H end;
    repeat match goal with H : is_digit _ = true |- _ => apply digit_range in H end;
    change (100 / 10) with 10; change (10 / 10) with 1;
    (split; [lia|split; [intros; repeat f_equal; lia|intros [=]; subst; lia]]).
Qed.
Lemma qvalue_exact value q : qvalue value = Some q <-> qvalue_text value q.
Proof.
  split.
  - destruct value as [|whole rest]; [done|]. cbn [qvalue]. destruct rest as [|dot digits]; cbn [fraction_loop].
    + destruct (Z.eqb_spec whole 48) as [-> |]; [intros [= <-]; apply (Whole 48); by left|].
      destruct (Z.eqb_spec whole 49) as [-> |]; [intros [= <-]; apply (Whole 49); by right|done].
    + destruct (Z.eqb_spec dot 46) as [-> |]; [|done]. destruct (Nat.leb_spec (length digits) 3) as [Hl|]; [|done]. cbn [andb].
      destruct (Z.eqb_spec whole 48) as [-> |]; [|destruct (Z.eqb_spec whole 49) as [-> |]; [|done]];
        (destruct (fraction_loop digits _ 100) as [t|] eqn:Hf; [|done]); pose proof (fraction_digits _ _ _ _ Hf) as Hd;
        rewrite fraction_value in Hf by (done || lia); injection Hf as <-; pose proof (thousandths_bounds _ Hl Hd) as [H1 H2].
      * destruct (1000 <? _); [done|]. intros [= <-]. by constructor.
      * destruct (Z.ltb_spec 1000 (1000 + thousandths digits 100)) as [|H3]; [done|]. intros [= <-].
        assert (thousandths digits 100 = 0) as H0 by lia. rewrite H0. apply H2 in H0 as ->. by constructor.
  - intros [d [-> | ->]|ds Hl Hd|n Hn]; [done|done|..].
    + cbn. destruct (Nat.leb_spec (length ds) 3); [|lia]. rewrite fraction_value by (done || lia).
      pose proof (thousandths_bounds _ Hl Hd) as [H1 _]. by destruct (Z.ltb_spec 1000 (0 + thousandths ds 100)); [lia|].
    + by destruct n as [|[|[|[|]]]]; [..|lia].
Qed.
Lemma qvalue_range value q : qvalue value = Some q -> 0 <= q <= 1000.
Proof.
  intros H%qvalue_exact. destruct H as [d [-> | ->]|ds Hl Hd|n Hn]; [lia|lia| |lia]. pose proof (thousandths_bounds _ Hl Hd). lia.
Qed.
Lemma weight_range parameters : 0 <= weight parameters <= 1000.
Proof.
  unfold weight. induction (split_on _ _) as [|p ps IH]; cbn [weight_loop]; [lia|]. destruct (position _ _); [|done].
  destruct (negb _); [done|]. destruct (qvalue _) as [q|] eqn:Hq; cbn; [|lia]. by apply qvalue_range in Hq.
Qed.
Lemma ranges_weight accept : Forall (fun r => 0 <= r_weight r <= 1000) (ranges accept).
Proof.
  apply Forall_forall. intros r Hr. apply list_elem_of_omap in Hr as (member & _ & Hr). unfold range in Hr.
  destruct (bool_decide _); [done|]. destruct (position _ _);
    (destruct (split_essence _) as [[k s]|]; [|done]); (destruct (_ || _); [done|]); injection Hr as <-; apply weight_range.
Qed.

(** ** What is selected *)

Definition more_specific (rs : list Range) (kind subtype : bytes) (r : Range) : Prop := exists n, rs !! n = Some r /\
  0 < specificity r kind subtype /\
  forall n' r', rs !! n' = Some r' -> specificity r' kind subtype <= specificity r kind subtype
    /\ ((n' < n)%nat -> specificity r' kind subtype < specificity r kind subtype).
(** The weight an [Accept] value gives a type: that of the first of its most specific ranges. *)
Definition accepts (accept media_type : bytes) (w : Z) : Prop := 0 < w /\ exists k s r,
  media_type = k ++ 47 :: s /\ (47 ∉ k) /\ more_specific (ranges accept) k s r /\ r_weight r = w.

Lemma specificity_nonneg r k s : 0 <= specificity r k s.
Proof. unfold specificity. repeat destruct (bool_decide _); repeat destruct (eq_ignore_ascii_case _ _); by cbn. Qed.
Lemma decide_loop_spec k s : forall rs w0 s0 m0 w m, decide_loop rs k s w0 s0 m0 = (w, m) ->
  (w = w0 /\ m = m0 /\ Forall (fun r => specificity r k s <= s0) rs) \/
  (m = true /\ exists n r, rs !! n = Some r /\ w = r_weight r /\ s0 < specificity r k s /\
    forall n' r', rs !! n' = Some r' -> specificity r' k s <= specificity r k s /\ ((n' < n)%nat -> specificity r' k s < specificity r k s)).
Proof.
  induction rs as [|r rs IH]; intros w0 s0 m0 w m H; cbn [decide_loop] in H; [injection H as <- <-; by left|].
  destruct (Z.ltb_spec s0 (specificity r k s)) as [Hlt|Hle]; apply IH in H as [(-> & -> & Hall)|(-> & n & r1 & Hn & -> & Hs & Hbest)].
  - right. split; [done|]. exists 0%nat, r. split; [done|]. split; [done|]. split; [done|].
    intros [|n'] r' Hr'; cbn in Hr'; [injection Hr' as <-; split; [lia|lia]|]. split; [|lia]. rewrite Forall_lookup in Hall. by eapply Hall.
  - right. split; [done|]. exists (S n), r1. split; [done|]. split; [done|]. split; [lia|].
    intros [|n'] r' Hr'; cbn in Hr'; [injection Hr' as <-; split; lia|]. specialize (Hbest _ _ Hr') as [H1 H2]. split; [done|]. intros; apply H2; lia.
  - left. split; [done|]. split; [done|]. by constructor.
  - right. split; [done|]. exists (S n), r1. split; [done|]. split; [done|]. split; [lia|].
    intros [|n'] r' Hr'; cbn in Hr'; [injection Hr' as <-; split; lia|]. specialize (Hbest _ _ Hr') as [H1 H2]. split; [done|]. intros; apply H2; lia.
Qed.

Lemma split_essence_exact media_type k s : split_essence media_type = Some (k, s) <-> media_type = k ++ 47 :: s /\ (47 ∉ k).
Proof.
  unfold split_essence. split.
  - destruct (position _ _) as [i|] eqn:Hp; [|done]. intros [= <- <-].
    apply position_Some in Hp as (c & Hl & Hc & Hno). apply Z.eqb_eq in Hc as ->. rewrite Nat.add_1_r. split; [by rewrite take_drop_middle|].
    intros H. rewrite Forall_forall in Hno. by specialize (Hno _ H).
  - intros [-> Hk]. assert (position (fun byte => byte =? 47) (k ++ 47 :: s) = Some (length k)) as ->.
    { induction k as [|b k IH]; [done|]. cbn [app position length]. apply not_elem_of_cons in Hk as [Hb Hk].
      destruct (Z.eqb_spec b 47); [congruence|]. by rewrite IH. }
    rewrite take_app_length, Nat.add_1_r. do 3 f_equal. rewrite cons_middle, app_assoc.
    replace (S (length k)) with (length (k ++ [47])) by (rewrite length_app; cbn; lia). by rewrite drop_app_length.
Qed.

(** The weight a type is considered with; 0 when it is not acceptable. *)
Definition quality (accept media_type : bytes) : Z :=
  match split_essence media_type with
  | Some (kind, subtype) => let '(weight, matched) := decide_loop (ranges accept) kind subtype 0 0 false in if matched then weight else 0
  | None => 0
  end.
Lemma quality_nonneg accept media_type : 0 <= quality accept media_type.
Proof.
  unfold quality. destruct (split_essence _) as [[k s]|]; [|done]. destruct (decide_loop _ _ _ _ _ _) as [w m] eqn:Hd.
  apply decide_loop_spec in Hd as [(-> & -> & _)|(-> & n & r & Hn & -> & _)]; [done|].
  pose proof (ranges_weight accept) as Hw. rewrite Forall_lookup in Hw. apply Hw in Hn. lia.
Qed.
Lemma quality_accepts accept media_type w : accepts accept media_type w <-> 0 < w /\ quality accept media_type = w.
Proof.
  unfold accepts, quality. split; intros [Hw H]; (split; [done|]).
  - destruct H as (k & s & r & Hm & Hk & (n & Hn & Hs & Hbest) & Hr).
    rewrite (proj2 (split_essence_exact _ _ _) (conj Hm Hk)). destruct (decide_loop _ _ _ _ _ _) as [w' m] eqn:Hd.
    apply decide_loop_spec in Hd as [(-> & -> & Hall)|(-> & n' & r' & Hn' & -> & Hs' & Hbest')].
    + rewrite Forall_lookup in Hall. apply Hall in Hn. lia.
    + destruct (Nat.lt_trichotomy n n') as [H|[<-|H]].
      * destruct (Hbest' _ _ Hn) as [_ H1]. destruct (Hbest _ _ Hn') as [H2 _]. specialize (H1 H). lia.
      * congruence.
      * destruct (Hbest _ _ Hn') as [_ H1]. destruct (Hbest' _ _ Hn) as [H2 _]. specialize (H1 H). lia.
  - destruct (split_essence media_type) as [[k s]|] eqn:He; [|lia]. apply split_essence_exact in He as [-> Hk].
    destruct (decide_loop _ _ _ _ _ _) as [w' m] eqn:Hd.
    apply decide_loop_spec in Hd as [(-> & -> & Hall)|(-> & n' & r' & Hn' & -> & Hs' & Hbest')]; [lia|]. exists k, s, r'.
    split_and!; [done|done| |done]. by exists n'.
Qed.

(** The best so far is kept unless a later one is strictly better. *)
Lemma negotiate_loop_spec accept : forall available index best,
  match negotiate_loop accept available index best with
  | None => best = None /\ Forall (fun t => quality accept t = 0) available
  | Some (w, i) =>
      (best = Some (w, i) /\ Forall (fun t => quality accept t <= Z.max 0 w) available) \/
      (0 < w /\ from_option (fun b => b.1 < w) True best /\ exists j t, i = (index + j)%nat /\ available !! j = Some t /\ quality accept t = w /\
        forall j' t', available !! j' = Some t' -> quality accept t' <= w /\ ((j' < j)%nat -> quality accept t' < w))
  end.
Proof.
  induction available as [|t available IH]; intros index best.
  { cbn [negotiate_loop]. destruct best as [[w i]|]; [left|]; (split; [done|constructor]). }
  assert (negotiate_loop accept (t :: available) index best =
    negotiate_loop accept available (S index) (if (0 <? quality accept t) && from_option (fun b => b.1 <? quality accept t) true best
      then Some (quality accept t, index) else best)) as Hstep.
  { cbn [negotiate_loop]. pose proof (quality_nonneg accept t) as Hq. unfold quality in *. destruct (split_essence t) as [[k s]|]; [|done].
    destruct (decide_loop _ _ _ _ _ _) as [w m]. destruct m; [|done]. cbn [negb orb].
    destruct (Z.eqb_spec w 0) as [-> |]; [done|]. destruct (Z.ltb_spec 0 w); [|lia]. by destruct best as [[bw bi]|]. }
  rewrite Hstep. clear Hstep. pose proof (quality_nonneg accept t) as Hq. set (q := quality accept t) in *.
  destruct ((0 <? q) && _) eqn:Hb.
  - apply andb_true_iff in Hb as [Hpos%Z.ltb_lt Hb]. specialize (IH (S index) (Some (q, index))).
    destruct (negotiate_loop _ _ _ _) as [[w i]|]; [|by destruct IH].
    right. destruct IH as [([= <- <-] & Hall)|(Hw & Hlt & j & t0 & -> & Hj & Ht & Hbest)].
    + split; [done|]. split; [destruct best as [b|]; [by apply Z.ltb_lt in Hb|done]|]. exists 0%nat, t. split_and!; [lia|done|done|].
      intros [|j'] t' Hj'; cbn in Hj'; [injection Hj' as <-; fold q; lia|]. split; [|lia]. rewrite Forall_lookup in Hall. apply Hall in Hj'. lia.
    + cbn in Hlt. split; [done|]. split; [destruct best as [b|]; [apply Z.ltb_lt in Hb; cbn in *; lia|done]|].
      exists (S j), t0. split_and!; [lia|done|done|]. intros [|j'] t' Hj'; cbn in Hj'; [injection Hj' as <-; fold q; lia|].
      destruct (Hbest _ _ Hj') as [H1 H2]. split; [done|]. intros; apply H2; lia.
  - specialize (IH (S index) best). assert (forall w, (exists b, best = Some b /\ b.1 = w) \/ best = None -> q <= Z.max 0 w) as Hle.
    { intros w [(b & -> & Hbw)| ->]; cbn in Hb; [|lia]. destruct (Z.ltb_spec 0 q); [|lia]. destruct (Z.ltb_spec b.1 q); [done|]. lia. }
    destruct (negotiate_loop _ _ _ _) as [[w i]|].
    + destruct IH as [[-> Hall]|(Hw & Hlt & j & t0 & -> & Hj & Ht & Hbest)].
      * left. split; [done|]. constructor; [|done]. apply Hle. left. by exists (w, i).
      * right. split; [done|]. split; [done|]. exists (S j), t0. split_and!; [lia|done|done|].
        intros [|j'] t' Hj'; cbn in Hj'.
        -- injection Hj' as <-. fold q. destruct best as [b|]; cbn in Hlt; [specialize (Hle b.1 (or_introl (ex_intro _ b (conj eq_refl eq_refl)))); lia|].
           specialize (Hle 0 (or_intror eq_refl)). lia.
        -- destruct (Hbest _ _ Hj') as [H1 H2]. split; [done|]. intros; apply H2; lia.
    + destruct IH as [-> Hall]. split; [done|]. constructor; [|done]. specialize (Hle 0 (or_intror eq_refl)). fold q. lia.
Qed.

(** ** What an Accept value says *)

(** A media range with its parameters; and a member that is none: before its semicolon, if it has
    one, there is no slash. *)
Record Member : Type := MkMember { m_kind : bytes; m_subtype : bytes; m_params : list (bytes * bytes * bool) }.
Inductive range_text : bytes -> Member -> Prop :=
| RangeText w k s text ps w' : spaces w -> spaces w' -> tokens k -> tokens s -> params_text text ps ->
    Forall (fun p => p.2 = false) ps -> range_text (w ++ k ++ 47 :: s ++ text ++ w') (MkMember k s ps).
Inductive other_text : bytes -> Prop :=
| OtherText a b : (47 ∉ a) -> (44 ∉ a) -> (44 ∉ b) -> b = [] \/ head b = Some 59 -> other_text (a ++ b).
(** [Accept = #( media-range [ weight ] )] of Section 12.5.1 of RFC 9110, the parameters without
    quoted strings, with the media ranges of its members. *)
Inductive accept_text : bytes -> list Member -> Prop :=
| LastRange text m : range_text text m -> accept_text text [m]
| LastOther text : other_text text -> accept_text text []
| NextRange text m rest ms : range_text text m -> accept_text rest ms -> accept_text (text ++ 44 :: rest) (m :: ms)
| NextOther text rest ms : other_text text -> accept_text rest ms -> accept_text (text ++ 44 :: rest) ms.

(** The first parameter that is named [q] is the weight; without one, or with one that is no [qvalue], it is 1. *)
Definition is_q (p : bytes * bytes * bool) : Prop := to_lower p.1.1 = bs "q".
Inductive weighs : list (bytes * bytes * bool) -> Z -> Prop :=
| Unweighted ps : Forall (fun p => ~ is_q p) ps -> weighs ps 1000
| Weighted before p after w : Forall (fun p => ~ is_q p) before -> is_q p -> qvalue_text p.1.2 w -> weighs (before ++ p :: after) w
| Misweighted before p after : Forall (fun p => ~ is_q p) before -> is_q p -> (forall w, ~ qvalue_text p.1.2 w) -> weighs (before ++ p :: after) 1000.

(** How precisely a media range names a type: all of it, the kind of it, or nothing of it. *)
Inductive precision (m : Member) (kind subtype : bytes) : nat -> Prop :=
| AnyType : m_kind m = [42] -> m_subtype m = [42] -> precision m kind subtype 1
| AnySubtype : m_kind m <> [42] -> to_lower (m_kind m) = to_lower kind -> m_subtype m = [42] -> precision m kind subtype 2
| ThisType : m_kind m <> [42] -> to_lower (m_kind m) = to_lower kind -> m_subtype m <> [42] ->
    to_lower (m_subtype m) = to_lower subtype -> precision m kind subtype 3.

(** The weight of a type: that of the most precise media range for it, the first of equals. *)
Definition accepted (ms : list Member) (media_type : bytes) (w : Z) : Prop := 0 < w /\ exists kind subtype n m p,
  media_type = kind ++ 47 :: subtype /\ (47 ∉ kind) /\ ms !! n = Some m /\ precision m kind subtype p /\ weighs (m_params m) w /\
  forall n' m' p', ms !! n' = Some m' -> precision m' kind subtype p' -> (p' <= p)%nat /\ ((n' < n)%nat -> (p' < p)%nat).

(** *** Reading it *)

Lemma trim_blank w : spaces w -> trim w = [].
Proof.
  intros Hw. unfold trim. set (plain := fun byte => _).
  assert (Forall (fun b => plain b = false) w) as Hp.
  { eapply Forall_impl; [exact Hw|]. intros b Hb. unfold is_ows in Hb. unfold plain. lia. }
  rewrite (proj2 (position_None _ _) Hp), (proj2 (rposition_None _ _) Hp). cbn. unfold get_range.
  destruct (decide _); [|done]. by rewrite drop_ge, take_nil.
Qed.
Lemma trim_exact w x w' : spaces w -> spaces w' -> trimmed x -> x <> [] -> trim (w ++ x ++ w') = x.
Proof.
  intros Hw Hw' [Hh Hl] Hne. unfold trim. set (plain := fun byte => _).
  assert (forall l, spaces l -> Forall (fun b => plain b = false) l) as Hblank.
  { intros l Hs. eapply Forall_impl; [exact Hs|]. intros b Hb. unfold is_ows in Hb. unfold plain. lia. }
  assert (forall b, is_ows b = false -> plain b = true) as Hplain by (intros b Hb; unfold is_ows in Hb; unfold plain; lia).
  destruct x as [|b x]; [done|]. cbn in Hh.
  rewrite position_app, (proj2 (position_None _ _) (Hblank _ Hw)). cbn [app position fmap option_fmap option_map]. rewrite (Hplain b Hh). cbn.
  assert (rposition plain (w ++ b :: x ++ w') = Some (length w + length x)%nat) as ->.
  { rewrite app_comm_cons. clear Hne Hh. revert Hw'. induction w' as [|c w' IH] using rev_ind; intros Hw'.
    - rewrite app_nil_r. destruct (@exists_last _ (b :: x) ltac:(done)) as (y & d & E). rewrite E in Hl |- *. rewrite last_snoc in Hl. cbn in Hl.
      rewrite app_assoc, rposition_snoc, (Hplain d Hl), length_app. f_equal. apply (f_equal length) in E. rewrite length_app in E. cbn in E. lia.
    - apply Forall_app in Hw' as [Hw' Hc]. rewrite !app_assoc, rposition_snoc, <- !app_assoc. apply Hblank in Hc. assert (plain c = false) as -> by (by inversion_clear Hc).
      by apply IH. }
  cbn. rewrite Nat.add_0_r. unfold get_range. rewrite decide_True by (rewrite length_app; cbn; rewrite length_app; lia).
  rewrite drop_app_length. cbn [default]. replace (length w + length x + 1 - length w)%nat with (length (b :: x)) by (cbn; lia).
  rewrite app_comm_cons. by rewrite take_app_length.
Qed.
Lemma blank_or_trimmed x : spaces x \/ exists w y w', x = w ++ y ++ w' /\ spaces w /\ spaces w' /\ trimmed y /\ y <> [].
Proof.
  destruct (skip_ows_split x) as (w & Hw & Hx). assert (match skip_ows x with [] => True | b :: _ => is_ows b = false end) as Hh.
  { unfold skip_ows. clear. induction x as [|b x IH]; [done|]. rewrite scan_cons. destruct (is_ows b) eqn:Hb; [exact IH|done]. }
  destruct (split_end (skip_ows x)) as (y & w' & Hy & Hw' & Hl). destruct y as [|b y].
  - left. rewrite Hx, Hy. by apply Forall_app.
  - right. exists w, (b :: y), w'. split_and!; [by rewrite <- Hy|done|done| |done]. split; [by rewrite Hy in Hh|done].
Qed.
Lemma trim_right x w : spaces w -> trim (x ++ w) = trim x.
Proof.
  intros Hw. destruct (blank_or_trimmed x) as [Hx|(w1 & y & w2 & -> & Hw1 & Hw2 & Hy & Hne)].
  - rewrite !trim_blank; [done|done|by apply Forall_app].
  - rewrite <- !app_assoc, !trim_exact; try done. by apply Forall_app.
Qed.
Lemma trim_left x w : spaces w -> trim (w ++ x) = trim x.
Proof.
  intros Hw. destruct (blank_or_trimmed x) as [Hx|(w1 & y & w2 & -> & Hw1 & Hw2 & Hy & Hne)].
  - rewrite !trim_blank; [done|done|by apply Forall_app].
  - rewrite (app_assoc w), !trim_exact; try done. by apply Forall_app.
Qed.

(** What a piece between semicolons does to the weight found after it. *)
Definition piece_weight (piece : bytes) (after : Z) : Z :=
  match position (fun byte => byte =? 61) (trim piece) with
  | None => after
  | Some at_ =>
      if eq_ignore_ascii_case (trim (take at_ (trim piece))) (bs "q") then default 1000 (qvalue (trim (drop (at_ + 1) (trim piece)))) else after
  end.
Fixpoint weight_of (ps : list (bytes * bytes * bool)) : Z :=
  match ps with
  | [] => 1000
  | p :: ps => if eq_ignore_ascii_case p.1.1 (bs "q") then default 1000 (qvalue p.1.2) else weight_of ps
  end.
Lemma weight_loop_cons piece pieces : weight_loop (piece :: pieces) = piece_weight piece (weight_loop pieces).
Proof. cbn [weight_loop]. unfold piece_weight. destruct (position _ _); [|done]. by destruct (eq_ignore_ascii_case _ _). Qed.
Lemma piece_right piece w after : spaces w -> piece_weight (piece ++ w) after = piece_weight piece after.
Proof. intros Hw. unfold piece_weight. by rewrite trim_right. Qed.
Lemma piece_blank w after : spaces w -> piece_weight w after = after.
Proof. intros Hw. unfold piece_weight. by rewrite trim_blank. Qed.
Lemma tokens_trimmed l : tokens l -> trimmed l.
Proof.
  intros [Hne Hl]. split.
  - destruct Hl as [|b l Hb _]; [done|]. cbn. by apply tchar_plain in Hb as [? _].
  - destruct (last l) as [b|] eqn:E; [|done]. apply last_Some_elem_of in E. rewrite Forall_forall in Hl. by apply Hl, tchar_plain in E as [? _].
Qed.
Lemma trim_tokens l : tokens l -> trim l = l.
Proof. intros Hl. pose proof (trim_exact [] l [] ltac:(constructor) ltac:(constructor) (tokens_trimmed _ Hl) (proj1 Hl)) as H. by rewrite app_nil_r in H. Qed.
Lemma piece_param w n v after : spaces w -> tokens n -> tokens v ->
  piece_weight (w ++ n ++ 61 :: v) after = if eq_ignore_ascii_case n (bs "q") then default 1000 (qvalue v) else after.
Proof.
  intros Hw Hn Hv. unfold piece_weight. assert (trim (w ++ n ++ 61 :: v) = n ++ 61 :: v) as ->.
  { pose proof (trim_exact w (n ++ 61 :: v) [] Hw ltac:(constructor)) as H. rewrite app_nil_r in H. apply H; [|by destruct n].
    destruct (tokens_trimmed _ Hn) as [Hh _], (tokens_trimmed _ Hv) as [_ Hl], Hn as [Hne _], Hv as [Hve _]. split; [by destruct n|].
    change (61 :: v) with ([61] ++ v). rewrite app_assoc, last_app. by destruct (last v) eqn:E; [|apply last_None in E]. }
  assert (position (fun byte => byte =? 61) (n ++ 61 :: v) = Some (length n)) as ->.
  { destruct Hn as [_ Hn]. induction Hn as [|b n Hb _ IH]; [done|]. cbn [app position length]. destruct (tchar_plain _ Hb) as (_ & _ & H61 & _).
    destruct (Z.eqb_spec b 61); [done|]. by rewrite IH. }
  rewrite take_app_length, trim_tokens by done. assert (drop (length n + 1) (n ++ 61 :: v) = v) as ->; [|by rewrite trim_tokens].
  rewrite Nat.add_1_r, cons_middle, app_assoc. replace (S (length n)) with (length (n ++ [61])) by (rewrite length_app; cbn; lia). by rewrite drop_app_length.
Qed.
Lemma no_semicolon l : spaces l \/ tokens l -> Forall (fun b => (b =? 59) = false) l.
Proof.
  intros [H|[_ H]]; (eapply Forall_impl; [exact H|]); intros b Hb; apply Z.eqb_neq; [by intros ->|]. by apply tchar_plain in Hb as (_ & ? & _).
Qed.
Lemma weight_params text ps : params_text text ps -> Forall (fun p => p.2 = false) ps ->
  forall piece, Forall (fun b => (b =? 59) = false) piece -> weight_loop (split_on (fun b => b =? 59) (piece ++ text)) = piece_weight piece (weight_of ps).
Proof.
  induction 1 as [|w w' rest ps Hw Hw' _ IH|w w' t n v q rest ps Hw Hw' Ht _ IH]; intros Hq piece Hpiece.
  - rewrite app_nil_r. pose proof (split_on_app (fun b => b =? 59) piece [] Hpiece) as H. rewrite app_nil_r in H. rewrite H. cbn [split_on].
    rewrite app_nil_r. by rewrite weight_loop_cons.
  - rewrite app_assoc, split_on_sep by first [done|apply Forall_app; split; [done|apply no_semicolon; by left]].
    rewrite weight_loop_cons, IH by first [done|apply no_semicolon; by left]. rewrite piece_right by done. by rewrite (piece_blank w').
  - apply Forall_cons in Hq as [Hq' Hq]. cbn in Hq'. destruct Ht as [n v Hn Hv|]; [|done].
    rewrite app_assoc, split_on_sep by first [done|apply Forall_app; split; [done|apply no_semicolon; by left]].
    rewrite weight_loop_cons, piece_right by done. rewrite (app_assoc w'), IH; [|done|].
    + by rewrite piece_param.
    + apply Forall_app. split; [apply no_semicolon; by left|]. apply Forall_app. split; [apply no_semicolon; by right|].
      constructor; [done|apply no_semicolon; by right].
Qed.

Lemma position_at {A} (f : A -> bool) l x m : Forall (fun y => f y = false) l -> f x = true -> position f (l ++ x :: m) = Some (length l).
Proof. intros Hl Hx. rewrite position_app, (proj2 (position_None _ _) Hl). cbn [position]. rewrite Hx. cbn. f_equal. lia. Qed.
Lemma weight_left w x : spaces w -> weight (w ++ x) = weight x.
Proof.
  intros Hw. unfold weight. rewrite split_on_app by (apply no_semicolon; by left). pose proof (split_on_nonempty (fun b => b =? 59) x).
  destruct (split_on _ x) as [|p ps]; [done|]. rewrite !weight_loop_cons. unfold piece_weight. by rewrite trim_left.
Qed.
Lemma weight_right x : forall w, spaces w -> weight (x ++ w) = weight x.
Proof.
  intros w Hw. unfold weight. remember (length x) as n eqn:Hn. revert x Hn. induction n as [n IH] using lt_wf_ind. intros x ->.
  destruct (position (fun b => b =? 59) x) as [i|] eqn:Hp.
  - apply position_Some in Hp as (c & Hi & ->%Z.eqb_eq & Hno). rewrite <- (take_drop_middle _ _ _ Hi), <- app_assoc. cbn [app].
    rewrite !split_on_sep by done. rewrite !weight_loop_cons. f_equal. eapply IH; [|done].
    apply lookup_lt_Some in Hi. rewrite length_drop. lia.
  - apply position_None in Hp. rewrite split_on_app by done. pose proof (split_on_app _ w [] (no_semicolon w (or_introl Hw))) as H.
    rewrite app_nil_r in H. rewrite H. pose proof (split_on_app _ x [] Hp) as H'. rewrite app_nil_r in H'. rewrite H'. cbn [split_on].
    rewrite !app_nil_r, !weight_loop_cons. by apply piece_right.
Qed.
Lemma weight_text text ps : params_text text ps -> Forall (fun p => p.2 = false) ps -> weight text = weight_of ps.
Proof. intros Ht Hq. unfold weight. pose proof (weight_params text ps Ht Hq [] ltac:(constructor)) as H. cbn [app] in H. by rewrite H, piece_blank by constructor. Qed.

Lemma tokens_plain l : tokens l -> Forall (fun b => (b =? 32) = false) l /\ (47 ∉ l).
Proof.
  intros [_ H]. split; [eapply Forall_impl; [exact H|]; intros b Hb; apply Z.eqb_neq; by intros ->|].
  intros Hin. rewrite Forall_forall in H. by apply H in Hin.
Qed.
Lemma read_essence k s : tokens k -> tokens s -> split_essence (k ++ 47 :: s) = Some (k, s) /\ existsb (fun byte => byte =? 32) (k ++ s) = false.
Proof.
  intros Hk Hs. destruct (tokens_plain _ Hk) as [Hk1 Hk2], (tokens_plain _ Hs) as [Hs1 _]. split; [by apply split_essence_exact|].
  apply not_true_iff_false. intros (b & Hb & H32)%existsb_exists. apply list_elem_of_In, elem_of_app in Hb. rewrite Forall_forall in Hk1, Hs1.
  destruct Hb as [Hb|Hb]; [apply Hk1 in Hb|apply Hs1 in Hb]; congruence.
Qed.
Lemma trimmed_ends k y l : tokens k -> tokens y \/ y = [59] \/ (exists z, y = z /\ z <> [] /\ match last z with Some b => is_ows b = false | None => True end) ->
  trimmed (k ++ l ++ y).
Proof.
  intros Hk Hy. destruct (tokens_trimmed _ Hk) as [Hh _]. destruct Hk as [Hne _]. split; [by destruct k|].
  assert (y <> [] /\ match last y with Some b => is_ows b = false | None => True end) as [Hne' Hl].
  { destruct Hy as [Hy|[->|(z & -> & Hz)]]; [|done|done]. destruct (tokens_trimmed _ Hy) as [_ Hl]. split; [by destruct Hy|done]. }
  rewrite app_assoc, last_app. destruct (last y) eqn:E; [done|]. by apply last_None in E.
Qed.
Lemma read_range text m : range_text text m -> range text = Some (MkRange (m_kind m) (m_subtype m) (weight_of (m_params m))).
Proof.
  intros [w k s t ps w' Hw Hw' Hk Hs Ht Hq]. cbn [m_kind m_subtype m_params]. rewrite <- (weight_text _ _ Ht Hq). clear Hq.
  destruct (read_essence k s Hk Hs) as [He Hx]. unfold range.
  assert (Forall (fun b => (b =? 59) = false) (k ++ 47 :: s)) as Hno.
  { apply Forall_app. split; [apply no_semicolon; by right|]. constructor; [done|apply no_semicolon; by right]. }
  assert (forall params, (if bool_decide (k = []) || bool_decide (s = []) || existsb (fun byte => byte =? 32) (k ++ s) then None
    else Some (MkRange k s (weight params))) = Some (MkRange k s (weight params))) as Hread.
  { intros params. destruct Hk as [Hk _], Hs as [Hs _]. by rewrite Hx, (bool_decide_false (k = [])), (bool_decide_false (s = [])). }
  assert (t = [] \/ exists w1 r, t = w1 ++ 59 :: r /\ spaces w1) as [-> |(w1 & r & -> & Hw1)] by (destruct Ht; [by left|right; by eauto..]).
  - assert (trim (w ++ k ++ 47 :: s ++ [] ++ w') = k ++ 47 :: s) as ->.
    { cbn [app]. rewrite app_comm_cons, (app_assoc k). apply trim_exact; [done|done| |by destruct k]. apply (trimmed_ends k s [47]); [done|by left]. }
    rewrite bool_decide_false by (by destruct k). rewrite (proj2 (position_None _ _) Hno), He. apply Hread.
  - destruct (split_end r) as (t2 & w2 & -> & Hw2 & Hl).
    assert (trim (w ++ k ++ 47 :: s ++ (w1 ++ 59 :: t2 ++ w2) ++ w') = (k ++ 47 :: s ++ w1) ++ 59 :: t2) as ->.
    { transitivity (trim (w ++ ((k ++ 47 :: s ++ w1) ++ 59 :: t2) ++ (w2 ++ w'))).
      - f_equal. by simplify_list_eq.
      - apply trim_exact; [done|by apply Forall_app| |by destruct k]. rewrite <- app_assoc. apply trimmed_ends; [done|]. right.
        destruct t2 as [|b t2]; [by left|]. right. eexists. split; [done|]. split; [done|]. exact Hl. }
    rewrite bool_decide_false by (by destruct k).
    rewrite position_at; [|apply Forall_app in Hno as [Hno1 Hno2]; apply Forall_cons in Hno2 as [_ Hno2];
      apply Forall_app; split; [done|]; constructor; [done|]; apply Forall_app; split; [done|apply no_semicolon; by left]|done].
    rewrite take_app_length, drop_app_length.
    assert (trim (k ++ 47 :: s ++ w1) = k ++ 47 :: s) as ->.
    { rewrite app_comm_cons, app_assoc, trim_right by done. pose proof (trim_exact [] (k ++ 47 :: s) [] ltac:(constructor) ltac:(constructor)) as H.
      rewrite app_nil_r in H. apply H; [|by destruct k]. apply (trimmed_ends k s [47]); [done|by left]. }
    rewrite He, Hread. do 2 f_equal. rewrite weight_left by done. rewrite app_comm_cons. by rewrite weight_right.
Qed.

Lemma trim_elem l b : b ∈ trim l -> b ∈ l.
Proof.
  unfold trim, get_range. destruct (decide _); cbn [default]; [|by intros ?%not_elem_of_nil].
  intros H. apply elem_of_take in H as (i & Hi & _). rewrite lookup_drop in Hi. by apply list_elem_of_lookup_2 in Hi.
Qed.
Lemma no_slash_essence l : (47 ∉ l) -> split_essence l = None.
Proof.
  intros Hl. unfold split_essence. assert (position (fun byte => byte =? 47) l = None) as ->; [|done].
  apply position_None, Forall_forall. intros b Hb. apply Z.eqb_neq. by intros ->.
Qed.
(** What comes before the first semicolon of a member that is none has no slash. *)
Lemma other_head a b w e rest : (47 ∉ a) -> b = [] \/ head b = Some 59 -> a ++ b = w ++ e ++ rest -> spaces w -> Forall (fun c => (c =? 59) = false) e -> (47 ∉ e).
Proof.
  intros Ha Hb Heq Hw He Hin. assert (Forall (fun c => (c =? 59) = false) (w ++ e)) as Hwe by (apply Forall_app; split; [apply no_semicolon; by left|done]).
  rewrite app_assoc in Heq. assert (a `prefix_of` w ++ e \/ w ++ e `prefix_of` a) as [[l Hl]|[l Hl]].
  { apply (prefix_weak_total _ _ (a ++ b)); [by exists b|by exists rest]. }
  - rewrite Hl in Heq, Hwe. rewrite <- app_assoc in Heq. apply app_inv_head in Heq. destruct l as [|c l].
    + apply Ha. rewrite app_nil_r in Hl. rewrite <- Hl. apply elem_of_app. by right.
    + destruct Hb as [->|Hb]; [done|]. rewrite Heq in Hb. injection Hb as ->. apply Forall_app in Hwe as [_ Hwe]. by apply Forall_cons in Hwe as [? _].
  - apply Ha. rewrite Hl. apply elem_of_app. left. apply elem_of_app. by right.
Qed.
Lemma read_other text : other_text text -> range text = None.
Proof.
  intros [a b Ha _ _ Hb]. unfold range. destruct (blank_or_trimmed (a ++ b)) as [Hs|(w & y & w' & Heq & Hw & Hw' & Hy & Hne)].
  { by rewrite trim_blank, bool_decide_true. }
  assert (trim (a ++ b) = y) as -> by (rewrite Heq; by apply trim_exact). rewrite bool_decide_false by done.
  destruct (position (fun byte => byte =? 59) y) as [at_|] eqn:Hp.
  - apply position_Some in Hp as (c & Hc & _ & Hno). rewrite no_slash_essence; [done|]. intros Hin%trim_elem. revert Hin.
    apply (other_head a b w (take at_ y) (drop at_ y ++ w')); try done. by rewrite (app_assoc (take at_ y)), take_drop.
  - apply position_None in Hp. rewrite no_slash_essence; [done|]. by apply (other_head a b w y w').
Qed.

Lemma no_comma_tokens l : spaces l \/ tokens l -> Forall (fun b => (b =? 44) = false) l.
Proof.
  intros [H|[_ H]]; (eapply Forall_impl; [exact H|]); intros b Hb; apply Z.eqb_neq; by intros ->.
Qed.
Lemma no_comma_params text ps : params_text text ps -> Forall (fun p => p.2 = false) ps -> Forall (fun b => (b =? 44) = false) text.
Proof.
  induction 1 as [|w w' rest ps Hw Hw' _ IH|w w' t n v q rest ps Hw Hw' Ht _ IH]; intros Hq; [constructor|..];
    (apply Forall_app; split; [apply no_comma_tokens; by left|]; constructor; [done|]; apply Forall_app; split; [apply no_comma_tokens; by left|]); [by apply IH|].
  apply Forall_cons in Hq as [Hq' Hq]. destruct Ht as [n v Hn Hv|]; [|done]. apply Forall_app. split; [|by apply IH].
  apply Forall_app. split; [apply no_comma_tokens; by right|]. constructor; [done|apply no_comma_tokens; by right].
Qed.
Lemma member_comma text : (exists m, range_text text m) \/ other_text text -> Forall (fun b => (b =? 44) = false) text.
Proof.
  intros [[m [w k s t ps w' Hw Hw' Hk Hs Ht Hq]]|[a b _ Ha Hb _]].
  - apply Forall_app. split; [apply no_comma_tokens; by left|]. apply Forall_app. split; [apply no_comma_tokens; by right|]. constructor; [done|].
    apply Forall_app. split; [apply no_comma_tokens; by right|]. apply Forall_app. split; [by eapply no_comma_params|apply no_comma_tokens; by left].
  - apply Forall_forall. intros c Hc. apply Z.eqb_neq. intros ->. by apply elem_of_app in Hc as [Hc|Hc].
Qed.
Definition read (m : Member) : Range := MkRange (m_kind m) (m_subtype m) (weight_of (m_params m)).
Lemma ranges_read accept ms : accept_text accept ms -> ranges accept = read <$> ms.
Proof.
  unfold ranges. assert (forall text, Forall (fun b => (b =? 44) = false) text -> split_on (fun byte => byte =? 44) text = [text]) as Hone.
  { intros text Ht. pose proof (split_on_app (fun b => b =? 44) text [] Ht) as H. rewrite app_nil_r in H. rewrite H. cbn. by rewrite app_nil_r. }
  induction 1 as [text m Hm|text Ho|text m rest ms Hm _ IH|text rest ms Ho _ IH].
  - rewrite Hone by (apply member_comma; left; by eexists). cbn. by rewrite (read_range _ _ Hm).
  - rewrite Hone by (apply member_comma; by right). cbn. by rewrite (read_other _ Ho).
  - rewrite split_on_sep by first [done|apply member_comma; left; by eexists]. cbn [omap list_omap fmap list_fmap]. rewrite (read_range _ _ Hm). by f_equal.
  - rewrite split_on_sep by first [done|apply member_comma; by right]. cbn [omap list_omap]. by rewrite (read_other _ Ho).
Qed.

Lemma weighs_of ps w : weighs ps w <-> w = weight_of ps.
Proof.
  assert (forall before rest, Forall (fun p => ~ is_q p) before -> weight_of (before ++ rest) = weight_of rest) as Hskip.
  { induction 1 as [|p before Hp _ IH]; [done|]. cbn [app weight_of]. unfold eq_ignore_ascii_case. by rewrite bool_decide_false. }
  assert (forall p after, is_q p -> weight_of (p :: after) = default 1000 (qvalue p.1.2)) as Hq.
  { intros p after Hp. cbn [weight_of]. unfold eq_ignore_ascii_case. by rewrite bool_decide_true. }
  split.
  - intros [ps' Hps|before p after w' Hb Hp Hw|before p after Hb Hp Hw].
    + pose proof (Hskip ps' [] Hps) as H. rewrite app_nil_r in H. by rewrite H.
    + rewrite Hskip, Hq by done. by rewrite (proj2 (qvalue_exact _ _) Hw).
    + rewrite Hskip, Hq by done. destruct (qvalue p.1.2) as [w'|] eqn:E; [|done]. apply qvalue_exact in E. by apply Hw in E.
  - intros ->. induction ps as [|p ps IH]; [apply Unweighted; constructor|]. destruct (decide (to_lower p.1.1 = bs "q")) as [Hp|Hp].
    + rewrite (Hq p ps Hp). destruct (qvalue p.1.2) as [w'|] eqn:E; cbn [default].
      * apply (Weighted []); [constructor|done|by apply qvalue_exact].
      * apply (Misweighted []); [constructor|done|]. intros w' H%qvalue_exact. by rewrite E in H.
    + assert (weight_of (p :: ps) = weight_of ps) as -> by exact (Hskip [p] ps ltac:(by constructor)).
      destruct IH as [ps' Hps|before p' after w' Hb Hp' Hw|before p' after Hb Hp' Hw].
      * apply Unweighted. by constructor.
      * apply (Weighted (p :: before)); [by constructor|done..].
      * apply (Misweighted (p :: before)); [by constructor|done..].
Qed.
Lemma precision_specificity m kind subtype p : precision m kind subtype p <-> 0 < specificity (read m) kind subtype /\ specificity (read m) kind subtype = Z.of_nat p.
Proof.
  unfold specificity, read, eq_ignore_ascii_case. cbn [r_kind r_subtype]. split.
  - intros [-> ->|Hk Hk' ->|Hk Hk' Hs Hs']; [done|..]; rewrite (bool_decide_false (m_kind m = [42])), (bool_decide_true (to_lower _ = to_lower kind)) by done; [done|].
    cbn [negb]. by rewrite bool_decide_false, bool_decide_true by done.
  - repeat case_bool_decide; cbn; change (saturating_mul 8 1 3) with 3; change (saturating_mul 8 0 3) with 0; intros [Hp E]; try lia.
    + assert (p = 1%nat) as -> by lia. by constructor.
    + assert (p = 2%nat) as -> by lia. by constructor.
    + assert (p = 3%nat) as -> by lia. by constructor.
Qed.
Lemma accepted_accepts accept ms t w : accept_text accept ms -> accepted ms t w <-> accepts accept t w.
Proof.
  intros Ha. unfold accepted, accepts, more_specific. rewrite (ranges_read _ _ Ha). split; intros [Hw H]; (split; [done|]).
  - destruct H as (k & s & n & m & p & Ht & Hk & Hn & Hp & Hwe & Hbest). apply weighs_of in Hwe as ->. apply precision_specificity in Hp as [Hp Hsp].
    exists k, s, (read m). split; [done|]. split; [done|]. split; [|done]. exists n. rewrite list_lookup_fmap, Hn. split; [done|]. split; [done|].
    intros n' r' Hr'. rewrite list_lookup_fmap in Hr'. destruct (ms !! n') as [m'|] eqn:Hm'; [|done]. injection Hr' as <-.
    pose proof (specificity_nonneg (read m') k s) as H0. destruct (decide (specificity (read m') k s = 0)) as [->|Hne]; [lia|].
    destruct (Hbest n' m' (Z.to_nat (specificity (read m') k s)) Hm') as [H1 H2]; [apply precision_specificity; lia|]. split; [lia|]. intros Hlt. specialize (H2 Hlt). lia.
  - destruct H as (k & s & r & Ht & Hk & (n & Hn & Hp & Hbest) & Hr). rewrite list_lookup_fmap in Hn. destruct (ms !! n) as [m|] eqn:Hm; [|done]. injection Hn as <-.
    exists k, s, n, m, (Z.to_nat (specificity (read m) k s)). split; [done|]. split; [done|]. split; [done|]. split; [apply precision_specificity; lia|].
    split; [by apply weighs_of|]. intros n' m' p' Hm' Hp'. apply precision_specificity in Hp' as [Hp' E].
    destruct (Hbest n' (read m')) as [H1 H2]; [by rewrite list_lookup_fmap, Hm'|]. split; [lia|]. intros Hlt. specialize (H2 Hlt). lia.
Qed.

(** C26. An [Accept] value [accept] of the grammar ([accept_text]; its members [ms] are the media
    ranges in it, members that are none are passed over) selects as RFC 9110 Section 12.5.1 says.
    A type's weight
    is that of the media range most precise for it: the exact type (3) before [type/*] (2) before
    [*/*] (1), the first of equals, names compared without case and other
    parameters ignored ([precision], [accepted]); the
    weight of a media range is the [qvalue] of its first parameter named [q], and 1 without one
    or when that is no [qvalue] ([weighs], in thousandths). Selected is the available type of the greatest weight, the first of
    equals, and never one of weight 0 or that no range names: with none left, the answer is None.
    Without an [Accept] value the first available type is selected. *)
Theorem negotiation_exact accept ms available (Ha : accept_text accept ms) :
  (forall i, negotiate (Some accept) available = Some i <-> exists t w, available !! i = Some t /\ accepted ms t w /\
    forall j t' w', available !! j = Some t' -> accepted ms t' w' -> w' <= w /\ ((j < i)%nat -> w' < w)) /\
  (negotiate (Some accept) available = None <-> forall t w, t ∈ available -> ~ accepted ms t w) /\
  (forall value q, qvalue value = Some q <-> qvalue_text value q) /\
  negotiate None available = (if available is [] then None else Some 0%nat).
Proof.
  split; [|split; [|split; [apply qvalue_exact|by destruct available]]]; unfold negotiate; pose proof (negotiate_loop_spec accept available 0 None) as H;
    setoid_rewrite (fun t w => accepted_accepts accept ms t w Ha); setoid_rewrite quality_accepts.
  - intros i. destruct (negotiate_loop _ _ _ _) as [[w i']|]; cbn.
    + destruct H as [[? _]|(Hw & _ & j & t & -> & Hj & Ht & Hbest)]; [done|]. cbn. split.
      * intros [= <-]. exists t, w. split_and!; [done|done|done|]. intros j' t' w' Hj' [_ <-]. by apply (Hbest _ _ Hj').
      * intros (t' & w' & Hi & [Hw' Ht'] & Hall). f_equal. destruct (Nat.lt_trichotomy j i) as [Hlt|[->|Hlt]]; [|done|].
        -- destruct (Hall _ _ _ Hj (conj Hw Ht)) as [_ H1]. destruct (Hbest _ _ Hi) as [H2 _]. specialize (H1 Hlt). lia.
        -- destruct (Hall _ _ _ Hj (conj Hw Ht)) as [H1 _]. destruct (Hbest _ _ Hi) as [_ H2]. specialize (H2 Hlt). lia.
    + split; [done|]. intros (t & w & Hi & [Hw Ht] & _). destruct H as [_ H]. rewrite Forall_lookup in H. apply H in Hi. lia.
  - destruct (negotiate_loop _ _ _ _) as [[w i']|]; cbn.
    + split; [done|]. intros Hno. exfalso. destruct H as [[? _]|(Hw & _ & j & t & -> & Hj & Ht & _)]; [done|]. apply (Hno t w); [by eapply list_elem_of_lookup_2|done].
    + split; [|done]. intros _ t w Hin [Hw Ht]. destruct H as [_ H]. rewrite Forall_forall in H. apply H in Hin. lia.
Qed.

Lemma negotiation_exact_witness :
  let ms := [MkMember (bs "text") [42] [(bs "q", bs "0.3", false)];
             MkMember (bs "TEXT") (bs "html") [(bs "level", bs "1", false); (bs "Q", bs "0.7", false)];
             MkMember [42] [42] [(bs "q", bs "0.5", false)]] in
  accept_text (bs "text/*;q=0.3, TEXT/html;level=1; Q=0.7,nothing, */*;q=0.5") ms /\
  exists t w, [bs "text/plain"; bs "application/json"; bs "text/html"] !! 2%nat = Some t /\ accepted ms t w /\
    forall j t' w', [bs "text/plain"; bs "application/json"; bs "text/html"] !! j = Some t' -> accepted ms t' w' -> w' <= w /\ ((j < 2)%nat -> w' < w).
Proof.
  intros ms.
  assert (accept_text (bs "text/*;q=0.3, TEXT/html;level=1; Q=0.7,nothing, */*;q=0.5") ms) as Ha.
  { apply (NextRange (bs "text/*;q=0.3")); [apply (RangeText [] (bs "text") [42] (bs ";q=0.3") _ []); try by (repeat constructor)|].
    { apply (OneParam [] [] (bs "q=0.3") (bs "q") (bs "0.3") false []); try by (repeat constructor). apply (TokenValue (bs "q") (bs "0.3")); by repeat constructor. }
    apply (NextRange (bs " TEXT/html;level=1; Q=0.7")); [apply (RangeText [32] (bs "TEXT") (bs "html") (bs ";level=1; Q=0.7") _ []); try by (repeat constructor)|].
    { apply (OneParam [] [] (bs "level=1") (bs "level") (bs "1") false (bs "; Q=0.7")); try by (repeat constructor).
      - apply (TokenValue (bs "level") (bs "1")); by repeat constructor.
      - apply (OneParam [] [32] (bs "Q=0.7") (bs "Q") (bs "0.7") false []); try by (repeat constructor).
        apply (TokenValue (bs "Q") (bs "0.7")); by repeat constructor. }
    apply (NextOther (bs "nothing")); [apply (OtherText (bs "nothing") []); [by apply (bool_decide_unpack _)..|by left]|].
    apply LastRange. apply (RangeText [32] [42] [42] (bs ";q=0.5") _ []); try by (repeat constructor).
    apply (OneParam [] [] (bs "q=0.5") (bs "q") (bs "0.5") false []); try by (repeat constructor). apply (TokenValue (bs "q") (bs "0.5")); by repeat constructor. }
  split; [exact Ha|]. apply (negotiation_exact _ ms _ Ha). vm_compute. reflexivity.
Defined.
