(* ===== verification/StaticHeaders.v ===== *)
(** * Fields of static files

    [zero-static/src/headers.rs]: the [Cache-Control] of a route, the [Content-Disposition] of
    a download and the [Last-Modified] rule.  A [str] is its octets, and a character outside
    ASCII is met at the octet that starts it. *)
From S2P Require Import Prelude Scalar HttpTypes Utf8 Date H1Response Uri Mime.
#[local] Set Warnings "-register-all".

(** ** Cache-Control *)

Record CachePolicy : Type := MkCachePolicy { max_age : option Z; no_store : bool; private_ : bool; public_ : bool; immutable : bool }.

Definition separate (out : bytes) : bytes := if bool_decide (out = []) then out else out ++ bs ", ".
Definition cache_write (self : CachePolicy) (out : bytes) : bytes :=
  let out := if no_store self then separate out ++ bs "no-store" else out in
  let out := if private_ self then separate out ++ bs "private" else out in
  let out := if public_ self then separate out ++ bs "public" else out in
  let out := match max_age self with Some seconds => separate out ++ bs "max-age=" ++ decimal_text seconds | None => out end in
  if immutable self then separate out ++ bs "immutable" else out.
Definition is_set (self : CachePolicy) : bool :=
  no_store self || private_ self || public_ self || bool_decide (is_Some (max_age self)) || immutable self.

(** ** Content-Disposition *)

Definition is_attr_char (byte : Z) : bool := is_upper byte || is_lower byte || is_digit byte || bool_decide (byte ∈ bs "!#$&+-.^_`|~").
Definition is_ascii_control (byte : Z) : bool := (byte <=? 0x1f) || (byte =? 0x7f).
Definition file_name (name : bytes) : bytes :=
  match rposition (fun byte => (byte =? 47) || (byte =? 92)) name with Some at_ => drop (S at_) name | None => name end.

Definition HEX : bytes := bs "0123456789ABCDEF".
Definition hex_of (nibble : Z) : Z := default 0 (HEX !! Z.to_nat nibble).
(** The octets after the first of a character are taken with it. *)
Fixpoint filename_loop (name : bytes) (out : bytes) (non_ascii : bool) : bytes * bool :=
  match name with
  | [] => (out, non_ascii)
  | ch :: name =>
      if (ch =? 34) || (ch =? 92) then filename_loop name (out ++ [92; ch]) non_ascii
      else if is_ascii_control ch then filename_loop name out non_ascii
      else if ch <? 0x80 then filename_loop name (out ++ [ch]) non_ascii
      else if ch <? 0xc0 then filename_loop name out non_ascii
      else filename_loop name (out ++ [95]) true
  end.
Fixpoint ext_loop (name : bytes) (out : bytes) : bytes :=
  match name with
  | [] => out
  | byte :: name =>
      if is_attr_char byte then ext_loop name (out ++ [byte])
      else if is_ascii_control byte then ext_loop name out
      else ext_loop name (out ++ [37; hex_of (Z.shiftr byte 4); hex_of (Z.land byte 0x0f)])
  end.
Definition write_attachment (out name : bytes) : bytes :=
  let name := file_name name in
  let '(out, non_ascii) := filename_loop name (out ++ bs "attachment; filename=" ++ [34]) false in
  let out := out ++ [34] in
  if negb non_ascii then out else ext_loop name (out ++ bs "; filename*=UTF-8''").

Definition last_modified_for (modified now : Z) : Z := if now <? modified then now else modified.

(** ** The tests of the crate *)

Example downloads : write_attachment [] (bs "example.html") = bs "attachment; filename=" ++ [34] ++ bs "example.html" ++ [34]
  /\ write_attachment [] ([0xe2; 0x82; 0xac] ++ bs " rates") = bs "attachment; filename=" ++ [34] ++ bs "_ rates" ++ [34] ++ bs "; filename*=UTF-8''%E2%82%AC%20rates"
  /\ write_attachment [] (bs "/tmp/a" ++ [34] ++ bs "b.txt") = bs "attachment; filename=" ++ [34] ++ bs "a\" ++ [34] ++ bs "b.txt" ++ [34]
  /\ write_attachment [] (bs "C:\dir\name.txt") = bs "attachment; filename=" ++ [34] ++ bs "name.txt" ++ [34].
Proof. by vm_compute. Qed.
Example policies : cache_write (MkCachePolicy (Some 31536000) false false true true) [] = bs "public, max-age=31536000, immutable"
  /\ cache_write (MkCachePolicy None true false false false) [] = bs "no-store".
Proof. by vm_compute. Qed.

(** ** A field value with nothing of the name loose in it *)

(** What the [filename] parameter says, and the octets [filename*] carries. *)
Definition mask (name : bytes) : bytes :=
  mbind (fun ch => if is_ascii_control ch || within 0x80 0xbf ch then [] else [if ch <? 0x80 then ch else 95]) name.
Definition visible (name : bytes) : bytes := filter (fun ch => is_ascii_control ch = false) name.
Definition printable (text : bytes) : Prop := Forall (fun b => 0x20 <= b <= 0x7e) text.
Definition quoted_name (name : bytes) : bytes :=
  mbind (fun ch => if (ch =? 34) || (ch =? 92) then [92; ch] else if is_ascii_control ch || within 0x80 0xbf ch then [] else [if ch <? 0x80 then ch else 95]) name.
Definition ext_unit (byte : Z) : Unit_ :=
  if is_attr_char byte then Char byte else Triplet (hex_of (Z.shiftr byte 4)) (hex_of (Z.land byte 0x0f)).

Lemma filename_loop_quoted name : octets name -> forall out non_ascii,
  filename_loop name out non_ascii = (out ++ quoted_name name, non_ascii || existsb (fun ch => 0xc0 <=? ch) name).
Proof.
  induction 1 as [|ch name Hch _ IH]; intros out non_ascii; cbn [filename_loop existsb]; [by rewrite app_nil_r, orb_false_r|].
  unfold quoted_name. cbn [mbind list_bind]. fold (quoted_name name). unfold is_ascii_control, within in *. unfold u8 in Hch.
  destruct ((ch =? 34) || (ch =? 92)) eqn:Hq; [rewrite IH, <- app_assoc; do 2 f_equal; destruct (Z.leb_spec 192 ch); [lia|done]|].
  destruct ((ch <=? 31) || (ch =? 127)) eqn:Hc; cbn [orb]; [rewrite IH; do 2 f_equal; destruct (Z.leb_spec 192 ch); [lia|done]|].
  destruct (Z.ltb_spec ch 128).
  - destruct (Z.leb_spec 128 ch); [lia|]. rewrite IH, <- app_assoc. do 2 f_equal. destruct (Z.leb_spec 192 ch); [lia|done].
  - destruct (Z.leb_spec 128 ch); [|lia]. destruct (Z.ltb_spec ch 192); destruct (Z.leb_spec ch 191); try lia; cbn [andb].
    + rewrite IH. do 2 f_equal. destruct (Z.leb_spec 192 ch); [lia|done].
    + rewrite IH, <- app_assoc. destruct (Z.leb_spec 192 ch); [|lia]. by destruct non_ascii.
Qed.
Lemma control_not_attr byte : is_attr_char byte = true -> is_ascii_control byte = false.
Proof.
  intros Ha. apply not_true_iff_false. intros Hc. assert (byte <= 31 \/ byte = 127) as [Hb| ->] by (unfold is_ascii_control in Hc; lia); [|by vm_compute in Ha].
  unfold is_attr_char, is_upper, is_lower, is_digit in Ha. repeat (apply orb_true_iff in Ha as [Ha|Ha]); try lia.
  apply bool_decide_eq_true in Ha. vm_compute in Ha. repeat (apply elem_of_cons in Ha as [-> |Ha]; [lia|]). by apply not_elem_of_nil in Ha.
Qed.
Lemma ext_loop_units name : forall out, ext_loop name out = out ++ units_text (ext_unit <$> visible name).
Proof.
  unfold units_text. induction name as [|byte name IH]; intros out; cbn [ext_loop]; [by rewrite app_nil_r|]. unfold visible. rewrite filter_cons.
  destruct (is_attr_char byte) eqn:Ha.
  - rewrite decide_True by by apply control_not_attr. cbn [fmap list_fmap mbind list_bind]. unfold ext_unit at 1. rewrite Ha. by rewrite IH, <- app_assoc.
  - destruct (is_ascii_control byte) eqn:Hc; [by rewrite decide_False, IH|]. rewrite decide_True by done. cbn [fmap list_fmap mbind list_bind].
    unfold ext_unit at 1. rewrite Ha. by rewrite IH, <- app_assoc.
Qed.

(** Every octet of the units is printable, and a triplet stands for its octet. *)
Definition unit_ok (byte : Z) : bool :=
  match ext_unit byte with
  | Char b => (b =? byte) && negb (b =? 37) && within 0x20 0x7e b
  | Triplet h l => is_hex h && is_hex l && (unit_octet (Triplet h l) =? byte) && within 0x20 0x7e h && within 0x20 0x7e l
  end.
Lemma units_ok byte : u8 byte -> unit_ok byte = true.
Proof. apply (octet_forall unit_ok). vm_compute. reflexivity. Qed.

(** The cases of an octet of a name. *)
Lemma quoted_name_cases ch : u8 ch -> let piece := quoted_name [ch] in
  (piece = [92; ch] /\ mask [ch] = [ch] /\ 32 <= ch <= 126) \/ (piece = [] /\ mask [ch] = []) \/
  (exists b, piece = [b] /\ mask [ch] = [b] /\ b <> 34 /\ b <> 92 /\ 32 <= b <= 126).
Proof.
  intros Hch. unfold u8 in Hch. unfold quoted_name, mask, is_ascii_control, within. cbn [mbind list_bind]. rewrite !app_nil_r.
  destruct ((ch =? 34) || (ch =? 92)) eqn:Hq.
  - left. assert (ch = 34 \/ ch = 92) as [-> | ->] by lia; by split_and!.
  - destruct ((ch <=? 31) || (ch =? 127)) eqn:Hc; cbn [orb]; [right; left; done|].
    destruct ((128 <=? ch) && (ch <=? 191)) eqn:Hk; [right; left; done|]. right. right.
    destruct (Z.ltb_spec ch 128); [exists ch|exists 95]; split_and!; try done; lia.
Qed.
Lemma quoted_name_cons ch name : quoted_name (ch :: name) = quoted_name [ch] ++ quoted_name name.
Proof. unfold quoted_name. cbn [mbind list_bind]. by rewrite app_nil_r. Qed.
Lemma mask_cons ch name : mask (ch :: name) = mask [ch] ++ mask name.
Proof. unfold mask. cbn [mbind list_bind]. by rewrite app_nil_r. Qed.
Lemma quoted_name_text name : octets name -> quoted_text (quoted_name name) /\ printable (quoted_name name).
Proof.
  induction 1 as [|ch name Hch _ [IH1 IH2]]; [split; constructor|]. rewrite quoted_name_cons.
  destruct (quoted_name_cases ch Hch) as [(-> & _ & H)|[(-> & _)|(b & -> & _ & H1 & H2 & H)]]; cbn [app]; [|done|].
  - split; [constructor; [unfold is_quoted_pair_byte; lia|done]|]. repeat (constructor; [lia|]). done.
  - split; [constructor; [unfold is_qdtext; lia|done]|]. by constructor.
Qed.
Lemma unquote_mask name : octets name -> forall room out, (length out + length (mask name) <= room)%nat ->
  unquote_loop (quoted_name name) false room out = Some (out ++ mask name).
Proof.
  induction 1 as [|ch name Hch _ IH]; intros room out Hr; [cbn; by rewrite app_nil_r|]. rewrite quoted_name_cons, mask_cons in *.
  rewrite length_app in Hr.
  destruct (quoted_name_cases ch Hch) as [(-> & Hm & H)|[(-> & Hm)|(b & -> & Hm & H1 & H2 & H)]]; rewrite Hm in *; cbn [app length] in *.
  - cbn [unquote_loop orb negb]. change (92 =? 92) with true. cbn [negb]. destruct (Nat.ltb_spec (length out) room); [|lia].
    rewrite IH by (rewrite length_app; cbn; lia). by rewrite <- app_assoc.
  - by apply IH.
  - cbn [unquote_loop orb]. destruct (Z.eqb_spec b 92); [done|]. cbn [negb]. destruct (Nat.ltb_spec (length out) room); [|lia].
    rewrite IH by (rewrite length_app; cbn; lia). by rewrite <- app_assoc.
Qed.
Lemma visible_units name : octets name -> Forall unit_wf (ext_unit <$> visible name) /\ printable (units_text (ext_unit <$> visible name))
  /\ map unit_octet (ext_unit <$> visible name) = visible name.
Proof.
  unfold units_text. induction 1 as [|ch name Hch _ (IH1 & IH2 & IH3)]; [split_and!; constructor|]. unfold visible. rewrite filter_cons.
  destruct (decide _); [|done]. cbn [fmap list_fmap mbind list_bind map]. pose proof (units_ok ch Hch) as Hu. unfold unit_ok in Hu.
  destruct (ext_unit ch) as [b|h l]; cbn [unit_text unit_octet] in *.
  - apply andb_true_iff in Hu as [[Hb Hn]%andb_true_iff Hr]. apply Z.eqb_eq in Hb as ->. unfold within in Hr.
    split_and!; [constructor; [cbn; lia|done]|constructor; [lia|done]|by f_equal].
  - repeat (apply andb_true_iff in Hu as [Hu ?]). apply Z.eqb_eq in H1. unfold within in *.
    split_and!; [by constructor|repeat (constructor; [lia|]); done|f_equal; [lia|exact IH3]].
Qed.

Lemma file_name_suffix name : exists before, name = before ++ file_name name /\ (47 ∉ file_name name) /\ (92 ∉ file_name name).
Proof.
  unfold file_name, rposition. destruct (position _ (reverse name)) as [i|] eqn:Hp; cbn.
  - apply position_Some in Hp as (c & Hi & Hc & Hno). pose proof (lookup_lt_Some _ _ _ Hi) as Hl. rewrite length_reverse in Hl.
    exists (take (S (length name - 1 - i)) name). split; [by rewrite take_drop|].
    assert (Forall (fun y => (y =? 47) || (y =? 92) = false) (drop (S (length name - 1 - i)) name)) as Hall.
    { apply Forall_reverse. assert (reverse (drop (S (length name - 1 - i)) name) = take i (reverse name)) as ->; [|done].
      rewrite take_reverse. do 2 f_equal. lia. }
    rewrite Forall_forall in Hall. by split; intros H%Hall.
  - apply position_None in Hp. exists []. split; [done|]. rewrite Forall_reverse in Hp. rewrite Forall_forall in Hp. by split; intros H%Hp.
Qed.

Lemma octets_suffix before l : octets (before ++ l) -> octets l.
Proof. by intros [_ H]%Forall_app. Qed.

(** A download names the last segment of the name and nothing of it is loose in the field
    value: every octet written is printable, the name within its quotes is a quoted string
    that stands for the segment without its control characters and with [_] for a character
    outside ASCII, and when there is one such the [filename*] that follows decodes to the
    octets of the segment, controls excepted; the segment ends the name and holds neither
    separator. *)
Theorem attachment_safe out name (Hname : octets name) :
  exists before ext, name = before ++ file_name name /\ (47 ∉ file_name name) /\ (92 ∉ file_name name) /\
  write_attachment out name = out ++ bs "attachment; filename=" ++ [34] ++ quoted_name (file_name name) ++ [34] ++ ext /\
  printable (quoted_name (file_name name)) /\ printable ext /\ quoted_text (quoted_name (file_name name)) /\
  unquote_loop (quoted_name (file_name name)) false (length (mask (file_name name))) [] = Some (mask (file_name name)) /\
  ((Forall (fun ch => ch < 0xc0) (file_name name) /\ ext = []) \/
   (~ Forall (fun ch => ch < 0xc0) (file_name name) /\
    exists value, ext = bs "; filename*=UTF-8''" ++ value /\ percent_decode value [] = (visible (file_name name), Ok ()))).
Proof.
  destruct (file_name_suffix name) as (before & Hb & H47 & H92). assert (octets (file_name name)) as Ho by (rewrite Hb in Hname; by apply octets_suffix in Hname).
  exists before. unfold write_attachment. set (n := file_name name) in *. rewrite filename_loop_quoted by done. cbn [orb].
  destruct (quoted_name_text n Ho) as [Hq Hp]. destruct (visible_units n Ho) as (Hwf & Hpr & Hoct).
  assert (unquote_loop (quoted_name n) false (length (mask n)) [] = Some (mask n)) as Hu by (by rewrite unquote_mask).
  destruct (existsb _ n) eqn:He; cbn [negb].
  - exists (bs "; filename*=UTF-8''" ++ units_text (ext_unit <$> visible n)). split_and!; try done.
    + rewrite ext_loop_units. by rewrite <- !app_assoc.
    + apply Forall_app. split; [|done]. apply (bool_decide_unpack (Forall (fun b => 0x20 <= b <= 0x7e) _)). vm_compute. done.
    + right. split.
      * intros Hall. apply existsb_exists in He as (ch & Hin%list_elem_of_In & Hch). rewrite Forall_forall in Hall. apply Hall in Hin. lia.
      * exists (units_text (ext_unit <$> visible n)). split; [done|]. unfold percent_decode.
        pose proof (reading_start (units_text (ext_unit <$> visible n)) (ext_unit <$> visible n) []) as Hs.
        rewrite app_nil_r in Hs. specialize (Hs eq_refl Hwf (or_introl eq_refl)).
        etrans; [exact (percent_loop_spec _ _ _ _ _ [] Hs)|]. cbn [app]. rewrite Hoct. f_equal.
        clear. generalize (@length Z []). induction (ext_unit <$> visible n) as [|[b|h l] us IH]; intros k; [done|apply IH..].
  - exists []. split_and!; try done; [by rewrite <- !app_assoc|constructor|]. left. split; [|done].
    apply Forall_forall. intros ch Hch. destruct (Z.ltb_spec ch 192) as [|Hge]; [done|]. exfalso.
    assert (existsb (fun ch => 192 <=? ch) n = true) as Ht by (apply existsb_exists; exists ch; split; [by apply list_elem_of_In|lia]). congruence.
Qed.
Lemma attachment_safe_witness : exists before ext,
  write_attachment [] (bs "/tmp/" ++ [0xe2; 0x82; 0xac]) = [] ++ bs "attachment; filename=" ++ [34] ++ [95] ++ [34] ++ ext /\ bs "/tmp/" ++ [0xe2; 0x82; 0xac] = before ++ [0xe2; 0x82; 0xac].
Proof.
  destruct (attachment_safe [] (bs "/tmp/" ++ [0xe2; 0x82; 0xac])) as (before & ext & H1 & _ & _ & H2 & _).
  - apply (bool_decide_unpack (Forall (fun b => 0 <= b < 2 ^ 8) _)). vm_compute. done.
  - exists before, ext. split; [exact H2|exact H1].
Defined.
